(* ===== verification/_CoqProject ===== *)
-Q . S2P
Prelude.v
Words.v
Ctype.v
KStr.v
LibStr.v
Memory.v
HashFn.v
HashMap.v
ArtNode.v
Art.v
ArtTree.v
Arrays.v
Sort.v
SortBytes.v
StrConv.v
RBTree.v
RBRep.v
RBInsert.v
RBSearch.v
RBErase.v
RBRange.v
RBMorris.v
RBHash.v
PMM.v
PMMBits.v
PMMInv.v
PMMScan.v
PMMState.v
PMMAlloc.v
PMMFree.v
PMMInit.v
PMMSpec.v
PMMConc.v
VMA.v
VMAInv.v
VMAOps.v
VMATree.v
VMASpec.v
VMARegion.v
VMAEdit.v
VMAAlloc.v
VMACalls.v
VMAClaims.v
PageTab.v
PageTabInv.v
PageTabMap.v
PageTabRange.v
PageTabFree.v
RefCount.v
Vmm.v
UserAccess.v
UserView.v
UserCow.v
UserWrite.v
VmmLife.v
VmmAlloc.v
PageTabClaims.v
VmmClaims.v
HeapMem.v
Slub.v
SlubInv.v
SlubAlloc.v
SlubFree.v
Slab.v
SlabInv.v
SlabPage.v
SlabAlloc.v
SlabFree.v
HeapSupply.v
Kheap.v
KheapInv.v
KheapInit.v
KheapSpec.v
KheapClaims.v
