(* ===== verification/Prelude.v ===== *)
(** Verification of SkylineSystem: the kernel's memory management and data
    structures, and the string, memory, sorting and number routines it shares
    with its user-space libc.

    * The program

    SkylineSystem is a 64-bit kernel with a user-space libc.  Below its drivers,
    file systems and scheduler lie components of its own that everything else
    relies on; these are the ones modelled, from the machine upwards:

    - the physical page allocator ([src/kernel/src/mem/pmm.cpp]), which gives
      pages, runs of pages and 2 MiB and 2 GiB blocks to the heap and to the page
      tables, on several CPUs at once;
    - the address ranges of a page map
      ([src/kernel/src/arch/x86_64/vmm/vma.cpp]): regions in a ring and in the
      red-black tree, their nodes cut out of pages of the allocator;
    - the page tables, the counts of shared pages and the memory of a process
      ([vmm/vmm.cpp]): mapping, release, fork and exit, page faults; and the
      copies between the kernel and a process ([vmm/ua.cpp]);
    - the kernel heap: the size-class heap with magazines for each CPU
      ([src/kernel/src/mem/slab.cpp]), the object caches ([mem/slub.cpp]), both
      on pages of the kernel's page map, and the kmalloc family over the two
      ([mem/heap.cpp]);
    - the intrusive red-black tree
      ([src/kernel/include/klib/algorithm/rbtree.h]), the hash map whose buckets
      are such trees ([klib/algorithm/hashmap.c]), and the adaptive radix tree
      ([klib/algorithm/art.c], which moves its arrays with the kernel's
      [_memmove]);
    - the kernel's and the libc's string routines ([klib/str.c],
      [src/lib/stdc/str.c]), character classes, memory routines
      ([src/lib/stdc/memory.c]), sorting and searching
      ([src/lib/stdc/algo/sortAsearch.c]) and integer parsing
      ([src/lib/stdc/basic_convert/str.c]).

    * How the code is modelled

    A w-bit integer is a [Z] and its wrap-around is written out ([u32], [u64],
    [i32], ...).  An operation that can go wrong returns [res]: [Ok], [Fault] (an
    access outside of memory or of an array, a release twice, a division by
    zero), or [OutOfFuel] from a loop that was cut off.  Byte-addressed memory is
    a finite map from addresses ([load8], [store64], ...); arrays are lists with
    checked accesses ([get], [put]); linked nodes live in a store indexed by
    address.  Loops are [loop fuel], [for_up] or a [Fixpoint] on fuel.  Theorems
    say that the operation returns [Ok]: the fuel the definitions take (the
    bytes that are mapped, the pages between the bounds of a scan, the shards,
    the height or the number of nodes of a tree) is proved to be enough.

    * The files

    - [Prelude], [Words]: integers, [res] and its rules [wp], loops, memory, the
      tactics and hints; words as lists of bytes.
    - [Ctype], [KStr], [LibStr], [Memory]: character classes, strings, memory.
      The word-at-a-time [strlen], [strchr], [strcmp] and [memcmp] equal their
      byte-wise meaning for every alignment; where a routine departs from the C
      library's contract ([memmove] on overlapping ranges, [strncpy]) a theorem
      shows the departure.
    - [Arrays], [Sort], [SortBytes]: the typed sorts sort and permute for every
      comparison that is a total preorder; the generic ones on byte buffers sort
      up to sixteen elements and corrupt larger arrays of larger elements.
    - [StrConv]: the SWAR integer parser refines a digit-by-digit one.
    - [HashFn], [HashMap]: SipHash-2-4 and XXH64 against their definitions; the
      map against a finite map, for any bucket tree that meets the class of
      laws [HashMap] states; growth, shrinking and failing allocation included.
    - [ArtNode], [Art], [ArtTree]: the four node layouts, the tree, and the tree
      against a finite map over keys, for any [_memmove] that meets its
      contract; with the kernel's own [_memmove] concrete sequences lose keys.
    - [RBTree] (every operation, on nodes with parent pointers), [RBRep] (when a
      store represents a tree), [RBInsert], [RBSearch], [RBErase], [RBRange],
      [RBMorris] (insertion, search with hint and ageing, deletion, ranges and
      the validator, the Morris traversal), [RBHash] (the pointer tree
      discharges the interface of the hash map).
    - [PMM] (the allocator's state and operations), [PMMBits] (words as bits),
      [PMMInv] (the invariant of the three bitmap levels), [PMMScan] (the
      scanner), [PMMState] (counters and caches), [PMMAlloc], [PMMFree],
      [PMMInit] (the operations), [PMMSpec] (what the interface promises),
      [PMMConc] (interleaved critical sections).
    - [VMA] (regions and operations), [VMAInv] (ring, tree and free nodes in one
      store), [VMAOps], [VMATree] (linking, entering the tree, destroying),
      [VMASpec] (regions as sorted spans, lookups), [VMARegion], [VMAEdit],
      [VMAAlloc] (merging, the edits, next-fit allocation), [VMACalls] (a sorted
      list of regions with the memory for their nodes, and the simulation),
      [VMAClaims].
    - [PageTab] (tables and operations), [PageTabInv] (a table belongs to one
      place), [PageTabMap], [PageTabRange], [PageTabFree] (one page, a range, the
      release of a range), [RefCount] (counts in a red-black tree),
      [PageTabClaims].
    - [Vmm], [VmmLife] (allocation, the list of mappings, release, fork, exit),
      [UserAccess] (copies and page faults); [UserView] (what a process sees, and
      changes it cannot see), [UserCow] (copies of shared pages), [UserWrite]
      (copies to a process, page faults), [VmmAlloc] (allocation with its way
      back), [VmmClaims] (the properties and the departures).
    - [HeapMem]: memory and the class [PageSource] with its laws
      [PageSourceOk], which is all the heaps know of [VMM::Alloc] and
      [VMM::Free].  [Slub] (slabs, caches, operations), [SlubInv] (every object
      of a slab is free, freed elsewhere or live; lists and owners),
      [SlubAlloc], [SlubFree] (allocation, release, the life of a cache).  [Slab]
      (pages, classes, operations), [SlabInv] (every object is free in its page,
      shared, in a magazine or live), [SlabPage] (stacks, magazines, encoded
      links, moves between lists), [SlabAlloc], [SlabFree] (allocation, release,
      resizing, a CPU that stops).  [HeapSupply] (which requests for pages a call
      made, and when a NULL is owed to them).  [Kheap] (the kmalloc family and the caches
      over both), [KheapInv] (both invariants on one memory, the family),
      [KheapInit] (caches that come and go, boot), [KheapSpec] (a store of
      blocks, programs that use it, the refinement), [KheapClaims].

    * What the theorems show

    Strings, memory, parsing, sorting: functional correctness on every input the
    caller may pass, in terms of the memory before and after.  Hash map and radix
    tree: each operation does to the map it stands for what its name says, and
    keeps the structure's invariant.  Red-black tree: each operation keeps colours
    and order, with exactly the nodes it should have, in logarithmically many
    steps.  Page allocator: [pmm_ok] (summary bits, counters and caches agree with
    the page bits) holds after [Init] and is kept by every critical section in
    every interleaving; a page is never given to two holders and never lost;
    every call is a sequence of sections; requests fail only as stated.  Address
    ranges: regions never overlap, ring and tree hold the same regions, no node is
    lost, and any sequence of calls implements a sorted list of regions; a call
    fails only without room, without a node or a page for more, or when there is
    nothing to split or remove.  Page tables: mapping and unmapping change the
    translations of the page and no other, a page of 4 KiB or 2 MiB is released
    after its entry was cleared and a fence, a shared page is released by its last
    holder.  Processes: an
    allocation gives fresh pages in a new region or changes nothing; a copy
    into a process and the handling of a fault write no page that another process
    shares, and the process sees nothing but the data copied.  Heap: for every
    supply of pages that meets [PageSourceOk], blocks in use never overlap and
    keep their contents, whichever CPU allocates and frees; any program of the
    kmalloc family that keeps to its contract refines a store of blocks; a call
    answers NULL only for a size that no page can serve or when the supply refused
    a request for pages of that size.

    * Assumptions

    What the theorems ask of their surroundings, where the code does not ensure it
    by itself: of the supply of pages of the heap, [PageSourceOk], which [VMM::Free]
    breaks when the first mapping of the kernel's page map is freed
    ([drop_head_then_fault]); of mappings and allocations, that the page allocator
    has the pages for new page tables, since [NewLevel] does not test its request
    ([Alloc_without_tables]); of a fence, that it is complete, while the code stops
    waiting for the other processors after 100 ms; of the page cache of a CPU, that
    a thread is not moved to another CPU between choosing the cache and disabling
    interrupts; of the radix tree's array moves, the contract of [memmove], which
    the kernel's [_memmove] does not meet ([ArtTree] shows what follows).

    * What is not modelled

    The vendored parts (lwIP, FatFs, lwext4, flanterm, DOOM, compiler headers) are
    not this program's code.  Of its own code the drivers, the interrupt and
    boot code and the architecture ports are hardware access; [kprintf] and the
    libc's [printf] and [scanf] are variadic; the floating-point conversions are
    left out.  The scheduler, the file descriptor layer and the ELF loader are
    bound to processor state, drivers and file systems; of the heap the
    poisoning option is not compiled in; of the virtual memory the start of
    the kernel's page map, the switch of page maps and the TLB shootdown are not,
    and of [Fork] only the sharing of a region is.  Five-level paging is not
    compiled in.  Locks: the trees are modelled in their single-threaded mode; in
    the page allocator a critical section is one step, in the virtual memory and
    in the heap a call. *)
From stdpp Require Import base gmap list fin_maps.
From Stdlib Require Import ZArith Lia.

Open Scope Z_scope.

(** * Machine integers *)

(** A w-bit unsigned value is a [Z] in [0, 2^w); [u8], [u32] and [u64] are the
    reductions C performs on assignment to and arithmetic in those types. *)
Definition u8 (z : Z) : Z := z mod 2 ^ 8.
Definition u16 (z : Z) : Z := z mod 2 ^ 16.
Definition u32 (z : Z) : Z := z mod 2 ^ 32.
Definition u64 (z : Z) : Z := z mod 2 ^ 64.

(** Conversion to a signed type of [w] bits (two's complement). *)
Definition sgn (w z : Z) : Z := (z + 2 ^ (w - 1)) mod 2 ^ w - 2 ^ (w - 1).
Definition i32 (z : Z) : Z := sgn 32 z.
Definition i64 (z : Z) : Z := sgn 64 z.

(** C's [!x], comparisons and logical connectives yield an [int]. *)
Definition b2z (b : bool) : Z := if b then 1 else 0.

(** Unsigned complement at 64 bits. *)
Definition not64 (z : Z) : Z := u64 (Z.lnot z).

(** [__builtin_ctzll]: the number of trailing zero bits of a nonzero word.
    The builtin is undefined at zero; the model returns 0 there and the code
    never asks. *)
Fixpoint pos_ctz (p : positive) : Z :=
  match p with
  | xO q => 1 + pos_ctz q
  | _ => 0
  end.

Definition ctz (z : Z) : Z :=
  match z with
  | Zpos p => pos_ctz p
  | _ => 0
  end.

(** [__builtin_clzll]: leading zeros of a nonzero 64-bit word. *)
Definition clz64 (z : Z) : Z := 63 - Z.log2 z.

(** * Outcomes of C code *)

(** A run returns a value, performs an access or arithmetic operation that C
    does not define (unmapped memory, signed overflow), or exhausts the fuel
    given to one of its loops. *)
Inductive res (A : Type) : Type :=
| Ok (a : A)
| Fault
| OutOfFuel.
Arguments Ok {A} a.
Arguments Fault {A}.
Arguments OutOfFuel {A}.

Definition bind {A B} (r : res A) (k : A -> res B) : res B :=
  match r with
  | Ok a => k a
  | Fault => Fault
  | OutOfFuel => OutOfFuel
  end.

Declare Scope c_scope.
Delimit Scope c_scope with c.
Notation "'let*' x := r 'in' k" := (bind r (fun x => k))
  (at level 10, x pattern, r at level 100, k at level 200)
  : c_scope.
Open Scope c_scope.

(** A signed [int] operation is defined only when its value is representable. *)
Definition int_ok (z : Z) : res Z :=
  if (- 2 ^ 31 <=? z) && (z <? 2 ^ 31) then Ok z else Fault.

(** * Loops *)

(** [loop fuel body s] runs a C loop: [body] is one evaluation of the loop
    condition and body; [inl] continues with the new loop state, [inr] leaves
    the loop (falling out of the condition, [break] or [return]). *)
Fixpoint loop {S A} (fuel : nat) (body : S -> res (S + A)) (s : S) : res A :=
  match fuel with
  | O => OutOfFuel
  | Datatypes.S f =>
      match body s with
      | Ok (inl s') => loop f body s'
      | Ok (inr a) => Ok a
      | Fault => Fault
      | OutOfFuel => OutOfFuel
      end
  end.

(** [wp r Q]: the run [r] returns (it neither faults nor runs out of fuel) and
    its value satisfies [Q]. *)
Definition wp {A} (r : res A) (Q : A -> Prop) : Prop :=
  match r with
  | Ok a => Q a
  | _ => False
  end.

Lemma wp_bind {A B} (r : res A) (k : A -> res B) (Q : B -> Prop) :
  wp r (fun a => wp (k a) Q) -> wp (bind r k) Q.
Proof. destruct r; simpl; auto. Qed.

Lemma wp_mono {A} (r : res A) (P Q : A -> Prop) :
  wp r P -> (forall a, P a -> Q a) -> wp r Q.
Proof. destruct r; simpl; auto. Qed.

Lemma bind_assoc {A B C} (r : res A) (f : A -> res B) (g : B -> res C) : bind (bind r f) g = bind r (fun x => bind (f x) g).
Proof. now destruct r. Qed.

Lemma wp_ex {A} (r : res A) (P : A -> Prop) : wp r P <-> exists a, r = Ok a /\ P a.
Proof.
  destruct r; simpl; split; try (intros (x & E & Hx); congruence); [|easy..].
  intros H. eauto.
Qed.

Lemma wp_eq {A} (r : res A) (a : A) : wp r (fun x => x = a) <-> r = Ok a.
Proof. destruct r; simpl; split; intros H; try easy; congruence. Qed.

(** What one iteration must establish: stay in the invariant with a smaller
    measure, or leave with the postcondition. *)
Definition step_ok {S A} (I : S -> Prop) (m : S -> nat) (Q : A -> Prop)
    (n : nat) (r : res (S + A)) : Prop :=
  wp r (fun x => match x with
                 | inl s' => I s' /\ (m s' < n)%nat
                 | inr a => Q a
                 end).

(** The total-correctness rule for loops: fuel above the measure suffices. *)
Lemma wp_loop {S A} (I : S -> Prop) (m : S -> nat) (Q : A -> Prop)
    (body : S -> res (S + A)) :
  (forall s, I s -> step_ok I m Q (m s) (body s)) ->
  forall fuel s, I s -> (m s < fuel)%nat -> wp (loop fuel body s) Q.
Proof.
  intros Hb fuel. induction fuel as [|f IH]; intros s Hs Hm; [lia|].
  simpl. specialize (Hb s Hs). unfold step_ok in Hb.
  destruct (body s) as [[s'|a]| |]; simpl in *; try easy.
  destruct Hb as [Hs' Hlt]. apply IH; [exact Hs'|lia].
Qed.

(** The same with an invariant indexed by ghost state [g], whose measure
    decreases. *)
Lemma wp_loop_on {S A G} (I : G -> S -> Prop) (m : G -> nat) (Q : A -> Prop)
    (body : S -> res (S + A)) :
  (forall g s, I g s -> wp (body s) (fun x => match x with
                                              | inl s' => exists g', I g' s' /\ (m g' < m g)%nat
                                              | inr a => Q a
                                              end)) ->
  forall g fuel s, I g s -> (m g < fuel)%nat -> wp (loop fuel body s) Q.
Proof.
  intros Hb g fuel. revert g. induction fuel as [|f IH]; intros g s Hs Hm; [lia|].
  simpl. specialize (Hb g s Hs). destruct (body s) as [[s'|a]| |]; simpl in *; try easy.
  destruct Hb as (g' & Hs' & Hlt). apply (IH g'); [exact Hs'|lia].
Qed.

(** More fuel never changes the outcome of a loop that ended. *)
Lemma loop_fuel_mono {S A} (body : S -> res (S + A)) (f1 f2 : nat) (s : S) (a : A) :
  (f1 <= f2)%nat -> loop f1 body s = Ok a -> loop f2 body s = Ok a.
Proof.
  revert f2 s. induction f1 as [|f1 IH]; intros f2 s Hle H; [easy|].
  destruct f2 as [|f2]; [lia|]. simpl in *.
  destruct (body s) as [[s'|x]| |]; try easy.
  apply IH; [lia|exact H].
Qed.

(** Leaving a loop at the first evaluation of its body. *)
Lemma wp_loop_exit {S A} (body : S -> res (S + A)) (s : S) (a : A) (Q : A -> Prop) fuel :
  (0 < fuel)%nat -> body s = Ok (inr a) -> Q a -> wp (loop fuel body s) Q.
Proof. intros Hf Hb HQ. destruct fuel; [lia|]. simpl. rewrite Hb. exact HQ. Qed.

(** * Memory *)

(** The address space: a finite map from mapped addresses to bytes.  An access
    to an unmapped address is a fault. *)
Abbreviation mem := (gmap Z Z).

Definition load8 (m : mem) (a : Z) : res Z :=
  match m !! a with
  | Some b => Ok b
  | None => Fault
  end.

Definition store8 (m : mem) (a v : Z) : res mem :=
  match m !! a with
  | Some _ => Ok (<[a := u8 v]> m)
  | None => Fault
  end.

(** Little-endian value of a byte list; the machine is x86-64. *)
Fixpoint le (l : list Z) : Z :=
  match l with
  | [] => 0
  | b :: l' => b + 256 * le l'
  end.

(** [n] bytes from address [a] upwards. *)
Fixpoint load_bytes (m : mem) (a : Z) (n : nat) : res (list Z) :=
  match n with
  | O => Ok []
  | S n' =>
      let* b := load8 m a in
      let* l := load_bytes m (a + 1) n' in
      Ok (b :: l)
  end.

Definition load64 (m : mem) (a : Z) : res Z :=
  let* l := load_bytes m a 8 in Ok (le l).

Definition byte (b : Z) : Prop := 0 <= b < 256.

(** Every mapped address holds a byte. *)
Definition mem_wf (m : mem) : Prop := map_Forall (fun _ b => byte b) m.

(** [holds m a l]: the bytes [l] sit at address [a] onwards. *)
Definition holds (m : mem) (a : Z) (l : list Z) : Prop :=
  forall i b, l !! i = Some b -> m !! (a + Z.of_nat i) = Some b.

(** [cstr m a s]: a NUL-terminated string with contents [s] at [a]. *)
Definition cstr (m : mem) (a : Z) (s : list Z) : Prop :=
  Forall (fun b => 0 < b < 256) s /\ holds m a (s ++ [0]).

(** * Automation *)

Create HintDb cdb.
Create Rewrite HintDb cdb.

Ltac wp_step :=
  match goal with
  | |- wp (bind _ _) _ => apply wp_bind
  | |- wp (Ok _) _ => simpl
  end.

(** Linear arithmetic with division and remainder by constants. *)
Ltac dlia := Z.to_euclidean_division_equations; lia.

(** Split every boolean comparison under a match of the goal. *)
Ltac case_bool :=
  match goal with
  | |- context [if ?b then _ else _] => let E := fresh "E" in destruct b eqn:E
  end.

(** Turn boolean comparisons of the context into propositions. *)
Ltac to_prop :=
  repeat match goal with
  | H : _ && _ = true |- _ => apply andb_prop in H; destruct H
  | H : _ && _ = false |- _ => apply andb_false_iff in H
  | H : _ || _ = true |- _ => apply orb_prop in H
  | H : _ || _ = false |- _ => apply orb_false_iff in H; destruct H
  | H : negb _ = true |- _ => apply negb_true_iff in H
  | H : negb _ = false |- _ => apply negb_false_iff in H
  | H : (_ =? _) = true |- _ => apply Z.eqb_eq in H
  | H : (_ =? _) = false |- _ => apply Z.eqb_neq in H
  | H : (_ <? _) = true |- _ => apply Z.ltb_lt in H
  | H : (_ <? _) = false |- _ => apply Z.ltb_ge in H
  | H : (_ <=? _) = true |- _ => apply Z.leb_le in H
  | H : (_ <=? _) = false |- _ => apply Z.leb_gt in H
  end.

(** * Facts on memory shared by the components *)

Lemma holds_cons m a b l : holds m a (b :: l) <-> m !! a = Some b /\ holds m (a + 1) l.
Proof.
  unfold holds. split.
  - intros H. split.
    + specialize (H 0%nat b eq_refl). rewrite Z.add_0_r in H. exact H.
    + intros i c Hi. specialize (H (S i) c Hi). rewrite <- H. f_equal. lia.
  - intros [H0 H1] [|i] c Hi.
    + injection Hi as <-. rewrite Z.add_0_r. exact H0.
    + rewrite <- (H1 i c Hi). f_equal. lia.
Qed.

Lemma holds_app m a l1 l2 :
  holds m a (l1 ++ l2) <-> holds m a l1 /\ holds m (a + Z.of_nat (length l1)) l2.
Proof.
  revert a. induction l1 as [|b l1 IH]; intros a; simpl.
  - rewrite Z.add_0_r. split; [intros H; split; [easy|exact H]|intros [_ H]; exact H].
  - rewrite !holds_cons, IH. replace (a + 1 + Z.of_nat (length l1))
      with (a + Z.of_nat (S (length l1))) by lia. tauto.
Qed.

Lemma cstr_cons m a b s : cstr m a (b :: s) <->
  m !! a = Some b /\ 0 < b < 256 /\ cstr m (a + 1) s.
Proof.
  unfold cstr. simpl. rewrite holds_cons, Forall_cons. tauto.
Qed.

Lemma cstr_nil m a : cstr m a [] <-> m !! a = Some 0.
Proof.
  unfold cstr. simpl. rewrite holds_cons. split; [tauto|].
  intros H. repeat split; auto. intros i b Hi. easy.
Qed.

Lemma cstr_char m a s (i : nat) : cstr m a s -> (i < length s)%nat ->
  exists b, s !! i = Some b /\ m !! (a + Z.of_nat i) = Some b /\ 0 < b < 256.
Proof.
  intros [Hs Hh] Hi. destruct (lookup_lt_is_Some_2 s i Hi) as [b Hb]. exists b.
  split; [exact Hb|]. split; [|exact (Forall_lookup_1 _ _ _ _ Hs Hb)].
  apply Hh. rewrite lookup_app_l by exact Hi. exact Hb.
Qed.

Lemma cstr_nul m a s : cstr m a s -> m !! (a + Z.of_nat (length s)) = Some 0.
Proof. intros [_ Hh]. apply Hh. apply list_lookup_middle. reflexivity. Qed.

Lemma load8_ok m a b : m !! a = Some b -> load8 m a = Ok b.
Proof. intros H. unfold load8. rewrite H. reflexivity. Qed.

Lemma store8_ok m a b v : m !! a = Some b -> store8 m a v = Ok (<[a := u8 v]> m).
Proof. intros H. unfold store8. rewrite H. reflexivity. Qed.

Lemma u8_small b : 0 <= b < 256 -> u8 b = b.
Proof. intros. apply Z.mod_small. exact H. Qed.

#[export] Hint Rewrite load8_ok store8_ok u8_small using (eassumption || lia) : cdb.

Lemma store8_wf m a v m' : mem_wf m -> store8 m a v = Ok m' -> mem_wf m'.
Proof.
  unfold store8. destruct (m !! a); [|easy]. intros Hwf [= <-].
  apply map_Forall_insert_2; [|exact Hwf]. unfold byte, u8.
  apply Z.mod_pos_bound. lia.
Qed.

(** A block of mapped bytes loads as a byte list. *)
Lemma load_bytes_ok m a n : mem_wf m ->
  (forall i, (i < n)%nat -> is_Some (m !! (a + Z.of_nat i))) ->
  exists l, load_bytes m a n = Ok l /\ length l = n /\ Forall byte l /\ holds m a l.
Proof.
  intros Hwf. revert a. induction n as [|n IH]; intros a Hm.
  - exists []. repeat split; auto. intros i b Hi. easy.
  - destruct (Hm 0%nat ltac:(lia)) as [b Hb]. rewrite Z.add_0_r in Hb.
    destruct (IH (a + 1)) as (l & Hl & Hlen & Hby & Hh).
    { intros i Hi. replace (a + 1 + Z.of_nat i) with (a + Z.of_nat (S i)) by lia.
      apply Hm. lia. }
    exists (b :: l). simpl. rewrite (load8_ok _ _ _ Hb). simpl. rewrite Hl. simpl.
    split; [reflexivity|]. split; [lia|]. split.
    + constructor; [exact (Hwf a b Hb)|exact Hby].
    + apply holds_cons. auto.
Qed.

(** [write m a l] stores the bytes [l] at [a] onwards. *)
Fixpoint write (m : mem) (a : Z) (l : list Z) : mem :=
  match l with
  | [] => m
  | b :: l' => write (<[a := b]> m) (a + 1) l'
  end.

Lemma write_lookup m a l x :
  write m a l !! x =
    if decide (a <= x < a + Z.of_nat (length l)) then l !! Z.to_nat (x - a) else m !! x.
Proof.
  revert m a. induction l as [|b l IH]; intros m a; simpl.
  - rewrite decide_False by lia. reflexivity.
  - rewrite IH. destruct (decide (x = a)) as [->|Hne].
    + rewrite decide_False, decide_True by lia. rewrite lookup_insert_eq.
      replace (Z.to_nat (a - a)) with 0%nat by lia. reflexivity.
    + rewrite lookup_insert_ne by lia.
      destruct (decide (a + 1 <= x < a + 1 + Z.of_nat (length l))).
      * rewrite decide_True by lia.
        replace (Z.to_nat (x - a)) with (S (Z.to_nat (x - (a + 1)))) by lia. reflexivity.
      * rewrite decide_False by lia. reflexivity.
Qed.

Lemma write_holds m a l : holds (write m a l) a l.
Proof.
  intros i b Hi. pose proof (lookup_lt_Some _ _ _ Hi). rewrite write_lookup, decide_True by lia.
  replace (Z.to_nat (a + Z.of_nat i - a)) with i by lia. exact Hi.
Qed.

(** Bytes held outside the written range stay. *)
Lemma holds_write m a l p k :
  (p + Z.of_nat (length k) <= a \/ a + Z.of_nat (length l) <= p) ->
  holds m p k -> holds (write m a l) p k.
Proof.
  intros Hd Hh i b Hi. pose proof (lookup_lt_Some _ _ _ Hi).
  rewrite write_lookup, decide_False by lia. apply Hh, Hi.
Qed.

(** A string survives a store outside it. *)
Lemma cstr_insert m p s a b : (a < p \/ p + Z.of_nat (length s) < a) ->
  cstr m p s -> cstr (<[a := b]> m) p s.
Proof.
  intros Ha [Hs Hh]. split; [exact Hs|]. apply (holds_write m a [b] p).
  - rewrite length_app. simpl. lia.
  - exact Hh.
Qed.

Lemma write_app m a l1 l2 : write m a (l1 ++ l2) = write (write m a l1) (a + Z.of_nat (length l1)) l2.
Proof.
  revert m a. induction l1 as [|b l1 IH]; intros m a; simpl; [f_equal; lia|].
  rewrite IH. f_equal. lia.
Qed.

Definition mapped (m : mem) (a : Z) (n : nat) : Prop :=
  forall x, a <= x < a + Z.of_nat n -> is_Some (m !! x).

Lemma mapped_insert m a n x b : mapped m a n -> mapped (<[x := b]> m) a n.
Proof.
  intros H y Hy. destruct (decide (x = y)) as [->|Hne].
  - rewrite lookup_insert_eq. eauto.
  - rewrite lookup_insert_ne by exact Hne. apply H, Hy.
Qed.

Lemma mapped_le m a n a' n' : mapped m a n -> a <= a' ->
  a' + Z.of_nat n' <= a + Z.of_nat n -> mapped m a' n'.
Proof. intros H H1 H2 x Hx. apply H. lia. Qed.

(** * Simulation of runs *)

(** Related outcomes: both return related values, or both fail the same way. *)
Definition res_rel {A B} (R : A -> B -> Prop) (r1 : res A) (r2 : res B) : Prop :=
  match r1, r2 with
  | Ok a, Ok b => R a b
  | Fault, Fault => True
  | OutOfFuel, OutOfFuel => True
  | _, _ => False
  end.

Definition sum_rel {A1 A2 B1 B2} (RA : A1 -> A2 -> Prop) (RB : B1 -> B2 -> Prop)
    (x : A1 + B1) (y : A2 + B2) : Prop :=
  match x, y with
  | inl a, inl a' => RA a a'
  | inr b, inr b' => RB b b'
  | _, _ => False
  end.

Lemma res_rel_bind {A1 A2 B1 B2} (R : A1 -> A2 -> Prop) (Q : B1 -> B2 -> Prop) r1 r2 k1 k2 :
  res_rel R r1 r2 -> (forall a1 a2, R a1 a2 -> res_rel Q (k1 a1) (k2 a2)) ->
  res_rel Q (bind r1 k1) (bind r2 k2).
Proof. destruct r1, r2; simpl; auto; contradiction. Qed.

(** Loops whose bodies simulate each other simulate each other. *)
Lemma loop_sim {S1 S2 A1 A2} (R : S1 -> S2 -> Prop) (Q : A1 -> A2 -> Prop) b1 b2 :
  (forall s1 s2, R s1 s2 -> res_rel (sum_rel R Q) (b1 s1) (b2 s2)) ->
  forall fuel s1 s2, R s1 s2 -> res_rel Q (loop fuel b1 s1) (loop fuel b2 s2).
Proof.
  intros Hb fuel. induction fuel as [|f IH]; intros s1 s2 Hs; simpl; [exact I|].
  specialize (Hb s1 s2 Hs). destruct (b1 s1) as [[s1'|a1]| |], (b2 s2) as [[s2'|a2]| |];
    simpl in *; try contradiction; auto.
Qed.

Lemma res_rel_wp {A B} (R : A -> B -> Prop) r1 r2 (P : B -> Prop) :
  res_rel R r1 r2 -> wp r2 P -> wp r1 (fun a => exists b, R a b /\ P b).
Proof. destruct r1, r2; simpl; eauto; contradiction. Qed.

(** ** Reading what a range holds *)

Lemma load_prefix m a z w : holds m a z -> (w <= length z)%nat -> load_bytes m a w = Ok (take w z).
Proof.
  revert a z. induction w as [|w IH]; intros a z Hz Hw; [reflexivity|].
  destruct z as [|b z]; [simpl in Hw; lia|]. apply holds_cons in Hz as [Hb Hz]. simpl.
  rewrite (load8_ok _ _ _ Hb). cbn [bind]. rewrite (IH _ z) by (auto; simpl in Hw; lia). reflexivity.
Qed.

Lemma holds_drop m a z w : holds m a z -> holds m (a + Z.of_nat w) (drop w z).
Proof.
  intros Hz i b Hi. rewrite lookup_drop in Hi. rewrite <- (Hz _ _ Hi). f_equal. lia.
Qed.

Lemma holds_bytes m a z : mem_wf m -> holds m a z -> Forall byte z.
Proof. intros Hwf Hz. apply Forall_lookup. intros i b Hb. exact (Hwf _ _ (Hz i b Hb)). Qed.

(** ** Checking a concrete memory *)

(** Boolean checks of the memory predicates, for closed memories. *)
Definition holds_b (m : mem) (a : Z) (l : list Z) : bool :=
  bool_decide ((fun i => m !! (a + Z.of_nat i)) <$> seq 0 (length l) = Some <$> l).

Definition mem_wf_b (m : mem) : bool := forallb (fun x => (0 <=? x.2) && (x.2 <? 256)) (map_to_list m).

Definition cstr_b (m : mem) (a : Z) (s : list Z) : bool :=
  forallb (fun b => (0 <? b) && (b <? 256)) s && holds_b m a (s ++ [0]).

Definition mapped_b (m : mem) (a : Z) (n : nat) : bool :=
  forallb (fun i => bool_decide (is_Some (m !! (a + Z.of_nat i)))) (seq 0 n).

Lemma holds_check m a l : holds_b m a l = true -> holds m a l.
Proof.
  unfold holds_b. rewrite bool_decide_eq_true. intros H i b Hb.
  pose proof (f_equal (fun l => l !! i) H) as E. cbv beta in E.
  rewrite !list_lookup_fmap, Hb in E.
  rewrite lookup_seq_lt in E by (eapply lookup_lt_Some, Hb). simpl in E. congruence.
Qed.

Lemma mem_wf_check m : mem_wf_b m = true -> mem_wf m.
Proof.
  unfold mem_wf_b. rewrite forallb_forall. intros H a b Hb. apply elem_of_map_to_list, list_elem_of_In in Hb.
  apply H in Hb. simpl in Hb. to_prop. unfold byte. lia.
Qed.

Lemma cstr_check m a s : cstr_b m a s = true -> cstr m a s.
Proof.
  unfold cstr_b. rewrite andb_true_iff. intros [H1 H2]. split; [|apply holds_check, H2].
  apply List.Forall_forall. intros b Hb. rewrite forallb_forall in H1. specialize (H1 b Hb). to_prop. lia.
Qed.

Lemma mapped_check m a n : mapped_b m a n = true -> mapped m a n.
Proof.
  unfold mapped_b. rewrite forallb_forall. intros H x Hx.
  specialize (H (Z.to_nat (x - a))). rewrite in_seq, bool_decide_eq_true in H.
  replace (a + Z.of_nat (Z.to_nat (x - a))) with x in H by lia. apply H. lia.
Qed.

(** Discharges such a predicate by evaluation. *)
Ltac mem_check :=
  first [apply mem_wf_check | apply cstr_check | apply mapped_check | apply holds_check];
  vm_compute; reflexivity.

(** * Kernel allocation *)

(** Allocation: the outcomes of the coming calls of [kmalloc]; calls beyond the
    list succeed. *)
Definition alloc : Type := list bool.

Definition kmalloc (al : alloc) : bool * alloc :=
  match al with
  | [] => (true, [])
  | b :: al' => (b, al')
  end.

(** * Arrays and counted loops *)

(** Reading and writing an array by index; outside the array both are faults. *)
Definition get {A} (l : list A) (i : Z) : res A :=
  if i <? 0 then Fault
  else match l !! Z.to_nat i with
       | Some x => Ok x
       | None => Fault
       end.

Definition put {A} (l : list A) (i : Z) (v : A) : res (list A) :=
  if (0 <=? i) && (i <? Z.of_nat (length l)) then Ok (<[Z.to_nat i := v]> l) else Fault.

(** [for (i = lo; i < lo + k; i++) body]. *)
Fixpoint for_up {S} (k : nat) (i : Z) (body : Z -> S -> res S) (s : S) : res S :=
  match k with
  | O => Ok s
  | Datatypes.S k' => let* s' := body i s in for_up k' (i + 1) body s'
  end.

Lemma get_ok {A} (l : list A) (i : nat) x : l !! i = Some x -> get l (Z.of_nat i) = Ok x.
Proof.
  intros H. unfold get. rewrite (proj2 (Z.ltb_ge _ _)) by lia. now rewrite Nat2Z.id, H.
Qed.

Lemma put_ok {A} (l : list A) (i : nat) v : (i < length l)%nat -> put l (Z.of_nat i) v = Ok (<[i := v]> l).
Proof.
  intros H. unfold put. rewrite (proj2 (Z.leb_le _ _)), (proj2 (Z.ltb_lt _ _)) by lia.
  simpl. now rewrite Nat2Z.id.
Qed.

Lemma get_okZ {A} (l : list A) (i : Z) x : 0 <= i -> l !! Z.to_nat i = Some x -> get l i = Ok x.
Proof. intros Hi H. rewrite <- (Z2Nat.id i) by exact Hi. now apply get_ok. Qed.

Lemma put_okZ {A} (l : list A) (i : Z) v : 0 <= i < Z.of_nat (length l) -> put l i v = Ok (<[Z.to_nat i := v]> l).
Proof. intros H. rewrite <- (Z2Nat.id i) at 1 by lia. apply put_ok. lia. Qed.

Lemma wp_for_up {S} (I : Z -> S -> Prop) (body : Z -> S -> res S) (k : nat) lo s :
  (forall i s, lo <= i < lo + Z.of_nat k -> I i s -> wp (body i s) (I (i + 1))) ->
  I lo s -> wp (for_up k lo body s) (I (lo + Z.of_nat k)).
Proof.
  revert lo s. induction k as [|k IH]; intros lo s Hb HI; cbn [for_up].
  { rewrite Z.add_0_r. exact HI. }
  apply wp_bind. eapply wp_mono; [apply Hb; [lia|exact HI]|]. intros s' Hs'.
  replace (lo + Z.of_nat (Datatypes.S k)) with (lo + 1 + Z.of_nat k) by lia.
  apply IH; [|exact Hs']. intros i s0 Hi. apply Hb. lia.
Qed.

(** * Comparison callbacks *)

(** A comparison that is a total preorder up to its zero. *)
Class GoodCmp {A : Type} (cmp : A -> A -> Z) : Prop := {
  cmp_anti : forall a b, cmp a b < 0 <-> 0 < cmp b a;
  cmp_le_trans : forall a b c, cmp a b <= 0 -> cmp b c <= 0 -> cmp a c <= 0
}.

Lemma cmp_refl {A} (cmp : A -> A -> Z) `{!GoodCmp cmp} a : cmp a a = 0.
Proof. pose proof (cmp_anti (cmp:=cmp) a a). lia. Qed.

Lemma cmp_sym {A} (cmp : A -> A -> Z) `{!GoodCmp cmp} a b : cmp a b = 0 -> cmp b a = 0.
Proof. intros E. pose proof (cmp_anti (cmp:=cmp) a b). pose proof (cmp_anti (cmp:=cmp) b a). lia. Qed.

Lemma cmp_eq_trans {A} (cmp : A -> A -> Z) `{!GoodCmp cmp} a b c : cmp a b = 0 -> cmp b c = 0 -> cmp a c = 0.
Proof.
  intros H1 H2. pose proof (cmp_sym cmp _ _ H1) as H1'. pose proof (cmp_sym cmp _ _ H2) as H2'.
  pose proof (cmp_le_trans (cmp:=cmp) a b c ltac:(lia) ltac:(lia)).
  pose proof (cmp_le_trans (cmp:=cmp) c b a ltac:(lia) ltac:(lia)).
  pose proof (cmp_anti (cmp:=cmp) a c). lia.
Qed.

Lemma cmp_lt_le {A} (cmp : A -> A -> Z) `{!GoodCmp cmp} a b c : cmp a b < 0 -> cmp b c <= 0 -> cmp a c < 0.
Proof.
  intros H1 H2. pose proof (cmp_anti (cmp:=cmp) a c). pose proof (cmp_anti (cmp:=cmp) c a).
  pose proof (cmp_anti (cmp:=cmp) a b). pose proof (cmp_anti (cmp:=cmp) b a).
  destruct (Z.lt_ge_cases (cmp a c) 0); [assumption|].
  pose proof (cmp_le_trans (cmp:=cmp) b c a H2 ltac:(lia)). lia.
Qed.

Lemma cmp_le_lt {A} (cmp : A -> A -> Z) `{!GoodCmp cmp} a b c : cmp a b <= 0 -> cmp b c < 0 -> cmp a c < 0.
Proof.
  intros H1 H2. pose proof (cmp_anti (cmp:=cmp) a c). pose proof (cmp_anti (cmp:=cmp) c a).
  pose proof (cmp_anti (cmp:=cmp) c b). pose proof (cmp_anti (cmp:=cmp) b c).
  destruct (Z.lt_ge_cases (cmp a c) 0); [assumption|].
  pose proof (cmp_le_trans (cmp:=cmp) c a b ltac:(lia) H1). lia.
Qed.

(** [cmp a b >= 0] is [cmp b a <= 0]. *)
Lemma cmp_ge {A} (cmp : A -> A -> Z) `{!GoodCmp cmp} a b : 0 <= cmp a b <-> cmp b a <= 0.
Proof. pose proof (cmp_anti (cmp:=cmp) a b). pose proof (cmp_anti (cmp:=cmp) b a). lia. Qed.
