(* ===== verification/Words.v ===== *)
(** Byte-wise reasoning on little-endian words: how the bit operations, the
    SWAR zero-byte tests and count-trailing-zeros act on a word that is written
    as its list of bytes. *)
From stdpp Require Import base gmap list fin_maps.
From Stdlib Require Import ZArith Lia.
From S2P Require Import Prelude.

Open Scope Z_scope.

(** * Splitting off the low byte *)

Lemma testbit_split (b w n : Z) :
  byte b -> 0 <= n ->
  Z.testbit (b + 256 * w) n = if n <? 8 then Z.testbit b n else Z.testbit w (n - 8).
Proof.
  intros [Hb0 Hb1] Hn. destruct (n <? 8) eqn:E; to_prop.
  - rewrite <- (Z.mod_pow2_bits_low (b + 256 * w) 8 n) by lia.
    change (2 ^ 8) with 256. rewrite (Z.mul_comm 256), Z_mod_plus_full.
    rewrite Z.mod_small by lia. reflexivity.
  - replace n with ((n - 8) + 8) at 1 by lia.
    rewrite <- Z.div_pow2_bits by lia. f_equal.
    change (2 ^ 8) with 256. rewrite (Z.mul_comm 256), Z.div_add by lia.
    rewrite Z.div_small by lia. lia.
Qed.

Section BitwiseSplit.
Context (op : Z -> Z -> Z) (bop : bool -> bool -> bool).
Hypothesis op_spec : forall a b n, Z.testbit (op a b) n = bop (Z.testbit a n) (Z.testbit b n).
Hypothesis op_byte : forall a b, byte a -> byte b -> byte (op a b).

Lemma bitwise_split (b c w v : Z) :
  byte b -> byte c ->
  op (b + 256 * w) (c + 256 * v) = op b c + 256 * op w v.
Proof using op_spec op_byte.
  intros Hb Hc. apply Z.bits_inj'. intros n Hn.
  rewrite op_spec, !testbit_split by auto.
  destruct (n <? 8); rewrite op_spec; reflexivity.
Qed.
End BitwiseSplit.

Lemma byte_log2 b : byte b <-> 0 <= b /\ Z.log2 b < 8.
Proof.
  unfold byte. split.
  - intros [H1 H2]. split; [lia|]. destruct (Z.eq_dec b 0); [subst; simpl; lia|].
    apply Z.log2_lt_pow2; lia.
  - intros [H1 H2]. split; [lia|]. destruct (Z.eq_dec b 0); [subst; lia|].
    apply Z.log2_lt_pow2 in H2; lia.
Qed.

Lemma land_byte a b : byte a -> byte b -> byte (Z.land a b).
Proof.
  rewrite !byte_log2. intros [? ?] [? ?]. split; [apply Z.land_nonneg; lia|].
  pose proof (Z.log2_land a b). lia.
Qed.

Lemma lor_byte a b : byte a -> byte b -> byte (Z.lor a b).
Proof.
  rewrite !byte_log2. intros [? ?] [? ?]. split; [apply Z.lor_nonneg; lia|].
  rewrite Z.log2_lor by lia. lia.
Qed.

Lemma lxor_byte a b : byte a -> byte b -> byte (Z.lxor a b).
Proof.
  rewrite !byte_log2. intros [? ?] [? ?]. split; [apply Z.lxor_nonneg; lia|].
  pose proof (Z.log2_lxor a b). lia.
Qed.

Lemma land_split (b c w v : Z) : byte b -> byte c ->
  Z.land (b + 256 * w) (c + 256 * v) = Z.land b c + 256 * Z.land w v.
Proof. apply (bitwise_split Z.land andb); auto using Z.land_spec, land_byte. Qed.

Lemma lor_split (b c w v : Z) : byte b -> byte c ->
  Z.lor (b + 256 * w) (c + 256 * v) = Z.lor b c + 256 * Z.lor w v.
Proof. apply (bitwise_split Z.lor orb); auto using Z.lor_spec, lor_byte. Qed.

Lemma lxor_split (b c w v : Z) : byte b -> byte c ->
  Z.lxor (b + 256 * w) (c + 256 * v) = Z.lxor b c + 256 * Z.lxor w v.
Proof. apply (bitwise_split Z.lxor xorb); auto using Z.lxor_spec, lxor_byte. Qed.

Lemma lnot_split (b w : Z) : Z.lnot (b + 256 * w) = (255 - b) + 256 * Z.lnot w.
Proof. unfold Z.lnot. lia. Qed.

#[export] Hint Resolve land_byte lor_byte lxor_byte : cdb.

(** A property of all bytes that a computation decides. *)
Definition all_bytes (P : Z -> bool) : bool :=
  forallb (fun n => P (Z.of_nat n)) (seq 0 256).

Lemma all_bytes_spec (P : Z -> bool) (b : Z) :
  all_bytes P = true -> byte b -> P b = true.
Proof.
  unfold all_bytes, byte. intros H Hb. rewrite forallb_forall in H.
  specialize (H (Z.to_nat b)). rewrite Z2Nat.id in H by lia. apply H.
  apply in_seq. lia.
Qed.

(** * Count trailing zeros *)

Lemma pos_ctz_nonneg p : 0 <= pos_ctz p.
Proof. induction p; simpl; lia. Qed.

Lemma ctz_nonneg z : 0 <= ctz z.
Proof. destruct z; simpl; auto using pos_ctz_nonneg; lia. Qed.

Lemma ctz_double z : 0 < z -> ctz (2 * z) = 1 + ctz z.
Proof. intros H. destruct z; try lia. reflexivity. Qed.

Lemma ctz_pow2 k z : 0 <= k -> 0 < z -> ctz (2 ^ k * z) = k + ctz z.
Proof.
  intros Hk Hz. revert k Hk. apply (natlike_ind (fun k => ctz (2 ^ k * z) = k + ctz z)).
  - rewrite Z.pow_0_r, Z.mul_1_l. lia.
  - intros k Hk IH. rewrite Z.pow_succ_r, <- Z.mul_assoc by lia.
    rewrite ctz_double by nia. lia.
Qed.

Lemma ctz_odd z : Z.odd z = true -> ctz z = 0.
Proof. destruct z as [|p|p]; try easy. destruct p; easy. Qed.

(** A positive number is an odd number shifted by its [ctz]. *)
Lemma ctz_spec z : 0 < z -> exists k, z = 2 ^ ctz z * (2 * k + 1) /\ 0 <= k.
Proof.
  destruct z as [|p|p]; try lia. intros _. simpl.
  induction p as [p _|p IH|]; simpl pos_ctz.
  - exists (Zpos p). lia.
  - destruct IH as (k & Hk & Hk0). exists k.
    rewrite Z.pow_add_r by (try lia; apply pos_ctz_nonneg). lia.
  - exists 0. lia.
Qed.

Lemma ctz_lt_byte z : 0 < z -> z mod 256 <> 0 -> 0 <= ctz z < 8.
Proof.
  intros Hz Hm. split; [apply ctz_nonneg|].
  destruct (Z_lt_le_dec (ctz z) 8) as [|Hge]; [assumption|]. exfalso. apply Hm.
  destruct (ctz_spec z Hz) as (k & Hk & _). rewrite Hk.
  replace (ctz z) with (8 + (ctz z - 8)) by lia. rewrite Z.pow_add_r by lia.
  change (2 ^ 8) with 256. rewrite <- Z.mul_assoc, Z.mul_comm. apply Z_mod_mult.
Qed.

(** The index of the lowest nonzero byte. *)
Definition low_byte (z : Z) : Z := ctz z / 8.

Lemma low_byte_zero z : 0 < z -> z mod 256 <> 0 -> low_byte z = 0.
Proof. intros. unfold low_byte. apply Z.div_small. auto using ctz_lt_byte. Qed.

Lemma low_byte_shift z : 0 < z -> low_byte (256 * z) = 1 + low_byte z.
Proof.
  intros. unfold low_byte. change 256 with (2 ^ 8). rewrite ctz_pow2 by lia.
  rewrite Z.add_comm. replace (ctz z + 8) with (ctz z + 1 * 8) by lia.
  rewrite Z.div_add by lia. lia.
Qed.

(** * Words as byte lists *)

Definition bytes (l : list Z) : Prop := Forall byte l.

(** The word whose [n] bytes are all [c]. *)
Definition rep (n : nat) (c : Z) : Z := le (replicate n c).

Lemma le_bound l : bytes l -> 0 <= le l < 256 ^ Z.of_nat (length l).
Proof.
  induction 1 as [|b l Hb _ IH]; simpl length; simpl le; [lia|].
  rewrite Nat2Z.inj_succ, Z.pow_succ_r by lia. unfold byte in *. lia.
Qed.

Lemma le_u64 l : bytes l -> length l = 8%nat -> u64 (le l) = le l.
Proof.
  intros Hl Hn. pose proof (le_bound l Hl) as H. rewrite Hn in H.
  unfold u64. apply Z.mod_small. exact H.
Qed.

Lemma rep_S n c : rep (S n) c = c + 256 * rep n c.
Proof. reflexivity. Qed.

Lemma rep_bound n c : byte c -> 0 <= rep n c < 256 ^ Z.of_nat n.
Proof.
  intros Hc. unfold rep. rewrite <- (length_replicate n c) at 3.
  apply le_bound. apply Forall_replicate. exact Hc.
Qed.

(** Masking with a 64-bit constant makes the reduction modulo 2^64 invisible. *)
Lemma land_u64_l a c : 0 <= c < 2 ^ 64 -> Z.land (u64 a) c = Z.land a c.
Proof.
  intros Hc. unfold u64. rewrite <- Z.land_ones by lia.
  rewrite <- Z.land_assoc. f_equal. rewrite Z.land_comm, Z.land_ones by lia.
  apply Z.mod_small. exact Hc.
Qed.

Lemma u64_bound z : 0 <= u64 z < 2 ^ 64.
Proof. unfold u64. apply Z.mod_pos_bound. lia. Qed.

Lemma u64_small z : 0 <= z < 2 ^ 64 -> u64 z = z.
Proof. intros. apply Z.mod_small. assumption. Qed.

Lemma u64_land a b : u64 (Z.land a b) = Z.land (u64 a) (u64 b).
Proof.
  unfold u64. rewrite <- !Z.land_ones by lia.
  apply Z.bits_inj'. intros n Hn. rewrite !Z.land_spec.
  destruct (Z.testbit a n), (Z.testbit b n), (Z.testbit (Z.ones 64) n); reflexivity.
Qed.

(** The low byte index of a word is the position of its first nonzero byte. *)
Lemma low_byte_first l (k : nat) c :
  bytes l -> (forall i, (i < k)%nat -> l !! i = Some 0) -> l !! k = Some c -> c <> 0 ->
  0 < le l /\ low_byte (le l) = Z.of_nat k.
Proof.
  intros Hl. revert k. induction Hl as [|b l Hb Hl IH]; intros k Hz Hk Hc; [easy|].
  pose proof (le_bound l Hl) as Hle. unfold byte in Hb.
  destruct k as [|k].
  - injection Hk as <-. simpl le.
    assert ((b + 256 * le l) mod 256 <> 0).
    { rewrite (Z.mul_comm 256), Z_mod_plus_full, Z.mod_small; lia. }
    split; [lia|]. apply low_byte_zero; lia.
  - assert (b = 0) as -> by (specialize (Hz 0%nat ltac:(lia)); simpl in Hz; congruence).
    destruct (IH k) as [Hpos Heq]; auto.
    { intros i Hi. apply (Hz (S i)). lia. }
    simpl le. rewrite Z.add_0_l. split; [lia|]. rewrite low_byte_shift by lia. lia.
Qed.

(** ** The exact zero-byte test
    [~(((w & m) + m) | w | m)] with [m = 0x7f7f...7f] has 0x80 in precisely the
    zero bytes of [w]. *)

Definition zflag (b : Z) : Z := if b =? 0 then 128 else 0.

Definition zexact_raw (w m : Z) : Z :=
  Z.lnot (Z.lor (Z.lor (Z.land w m + m) w) m).

Lemma zexact_byte b : byte b ->
  byte (Z.land b 127 + 127) /\
  255 - Z.lor (Z.lor (Z.land b 127 + 127) b) 127 = zflag b.
Proof.
  intros Hb.
  assert (((0 <=? Z.land b 127 + 127) && (Z.land b 127 + 127 <? 256) &&
          (255 - Z.lor (Z.lor (Z.land b 127 + 127) b) 127 =? zflag b)) = true) as H.
  { apply (all_bytes_spec (fun b => (0 <=? Z.land b 127 + 127) &&
      (Z.land b 127 + 127 <? 256) &&
      (255 - Z.lor (Z.lor (Z.land b 127 + 127) b) 127 =? zflag b)) b); [|exact Hb].
    vm_compute. reflexivity. }
  to_prop. unfold byte. lia.
Qed.

Lemma zexact_list l : bytes l ->
  zexact_raw (le l) (rep (length l) 127) = le (zflag <$> l) - 256 ^ Z.of_nat (length l).
Proof.
  unfold zexact_raw. induction 1 as [|b l Hb Hl IH]; [reflexivity|].
  simpl length. rewrite rep_S, fmap_cons. simpl le.
  destruct (zexact_byte b Hb) as [Hs Hf]. assert (H127 : byte 127) by (unfold byte; lia).
  rewrite land_split by auto.
  replace (Z.land b 127 + 256 * Z.land (le l) (rep (length l) 127) +
           (127 + 256 * rep (length l) 127))
    with ((Z.land b 127 + 127) +
          256 * (Z.land (le l) (rep (length l) 127) + rep (length l) 127)) by lia.
  rewrite !lor_split by auto with cdb. rewrite lnot_split, Hf, IH.
  rewrite Nat2Z.inj_succ, Z.pow_succ_r by lia. lia.
Qed.

(** ** The borrow-based zero-byte test
    [(w - 0x0101...) & ~w & 0x8080...]: its lowest nonzero byte is the lowest
    zero byte of [w]; it may also flag bytes above it. *)

Definition zborrow_raw (w ones highs : Z) : Z :=
  Z.land (Z.land (w - ones) (Z.lnot w)) highs.

Lemma zborrow_byte_ne b : byte b -> b <> 0 ->
  Z.land (Z.land (b - 1) (255 - b)) 128 = 0.
Proof.
  intros Hb Hn.
  assert (((b =? 0) || (Z.land (Z.land (b - 1) (255 - b)) 128 =? 0)) = true) as H.
  { apply (all_bytes_spec (fun b => (b =? 0) ||
      (Z.land (Z.land (b - 1) (255 - b)) 128 =? 0)) b); [|exact Hb].
    vm_compute. reflexivity. }
  to_prop. destruct H; to_prop; lia.
Qed.

(** One byte of the test: a nonzero byte contributes nothing and does not
    borrow; a zero byte is flagged. *)
Lemma zborrow_cons b l : byte b -> bytes l ->
  exists Y, 0 <= Y /\
    zborrow_raw (le (b :: l)) (rep (length (b :: l)) 1) (rep (length (b :: l)) 128)
      = zflag b + 256 * Y /\
    (b <> 0 -> Y = zborrow_raw (le l) (rep (length l) 1) (rep (length l) 128)).
Proof.
  intros Hb Hl. simpl length. rewrite !rep_S. simpl le. unfold zborrow_raw, zflag.
  assert (H128 : byte 128) by (unfold byte; lia).
  assert (H0 : 0 <= rep (length l) 128) by (apply rep_bound; exact H128).
  unfold byte in Hb. destruct (b =? 0) eqn:E; to_prop.
  - subst b.
    exists (Z.land (Z.land (le l - rep (length l) 1 - 1) (Z.lnot (le l))) (rep (length l) 128)).
    split; [apply Z.land_nonneg; lia|]. split; [|lia].
    replace (0 + 256 * le l - (1 + 256 * rep (length l) 1))
      with (255 + 256 * (le l - rep (length l) 1 - 1)) by lia.
    rewrite lnot_split. rewrite (land_split 255) by (unfold byte; lia).
    rewrite land_split by (try apply land_byte; unfold byte; lia). reflexivity.
  - exists (zborrow_raw (le l) (rep (length l) 1) (rep (length l) 128)).
    unfold zborrow_raw. split; [apply Z.land_nonneg; lia|]. split; [|reflexivity].
    replace (b + 256 * le l - (1 + 256 * rep (length l) 1))
      with ((b - 1) + 256 * (le l - rep (length l) 1)) by lia.
    rewrite lnot_split.
    rewrite (land_split (b - 1)) by (unfold byte; lia).
    rewrite land_split by (try apply land_byte; unfold byte; lia).
    rewrite zborrow_byte_ne by (unfold byte; lia). reflexivity.
Qed.

Lemma zborrow_none l : bytes l -> Forall (fun b => b <> 0) l ->
  zborrow_raw (le l) (rep (length l) 1) (rep (length l) 128) = 0.
Proof.
  induction 1 as [|b l Hb Hl IH]; intros Hn; [reflexivity|].
  inversion Hn as [|? ? Hb0 Hl0]; subst.
  destruct (zborrow_cons b l Hb Hl) as (Y & _ & -> & HY).
  rewrite HY, IH by auto. unfold zflag. destruct (b =? 0) eqn:E; to_prop; lia.
Qed.

Lemma zborrow_first l (k : nat) : bytes l ->
  (forall i b, (i < k)%nat -> l !! i = Some b -> b <> 0) -> l !! k = Some 0 ->
  0 < zborrow_raw (le l) (rep (length l) 1) (rep (length l) 128) /\
  low_byte (zborrow_raw (le l) (rep (length l) 1) (rep (length l) 128)) = Z.of_nat k.
Proof.
  intros Hl. revert k. induction Hl as [|b l Hb Hl IH]; intros k Hz Hk; [easy|].
  destruct (zborrow_cons b l Hb Hl) as (Y & HY0 & -> & HY).
  destruct k as [|k].
  - injection Hk as ->. unfold zflag. simpl. split; [lia|].
    apply low_byte_zero; [lia|].
    rewrite (Z.mul_comm 256), Z_mod_plus_full. easy.
  - assert (b <> 0) as Hb0 by (apply (Hz 0%nat); [lia|reflexivity]).
    rewrite HY by exact Hb0. destruct (IH k) as [Hp He]; auto.
    { intros i c Hi. apply (Hz (S i)). lia. }
    unfold zflag. destruct (b =? 0) eqn:E; to_prop; [lia|].
    rewrite Z.add_0_l. split; [lia|]. rewrite low_byte_shift by lia. lia.
Qed.

(** ** The comparison mask of [strcmp]
    [(x ^ y) | zborrow x | zborrow y] marks, lowest first, the first position
    where the words differ or either has a zero byte. *)

Definition cmp_mask (x y : list Z) : Z :=
  Z.lor (Z.lxor (le x) (le y))
    (Z.lor (zborrow_raw (le x) (rep (length x) 1) (rep (length x) 128))
           (zborrow_raw (le y) (rep (length y) 1) (rep (length y) 128))).

Lemma lxor_zero_eq a b : Z.lxor a b = 0 -> a = b.
Proof. apply Z.lxor_eq. Qed.

Lemma zflag_byte b : byte (zflag b).
Proof. unfold zflag, byte. destruct (b =? 0); lia. Qed.

Lemma cmp_mask_cons b c x y : byte b -> byte c -> bytes x -> bytes y ->
  exists Y, 0 <= Y /\
    cmp_mask (b :: x) (c :: y) = Z.lor (Z.lxor b c) (Z.lor (zflag b) (zflag c)) + 256 * Y /\
    (b <> 0 -> c <> 0 -> Y = cmp_mask x y).
Proof.
  intros Hb Hc Hx Hy. unfold cmp_mask.
  destruct (zborrow_cons b x Hb Hx) as (Yx & Hx0 & -> & HYx).
  destruct (zborrow_cons c y Hc Hy) as (Yy & Hy0 & -> & HYy).
  simpl le. pose proof (zflag_byte b). pose proof (zflag_byte c).
  rewrite lxor_split by auto.
  rewrite (lor_split (zflag b)) by auto.
  rewrite lor_split by auto with cdb.
  exists (Z.lor (Z.lxor (le x) (le y)) (Z.lor Yx Yy)). split; [|split].
  - pose proof (le_bound x Hx). pose proof (le_bound y Hy).
    apply Z.lor_nonneg. split; [apply Z.lxor_nonneg; lia|apply Z.lor_nonneg; lia].
  - reflexivity.
  - intros. rewrite HYx, HYy by auto. reflexivity.
Qed.

(** Positions where [strcmp] must stop. *)
Definition stops (b c : Z) : Prop := b <> c \/ b = 0 \/ c = 0.

Lemma stop_byte b c : byte b -> byte c ->
  (Z.lor (Z.lxor b c) (Z.lor (zflag b) (zflag c)) = 0 <-> ~ stops b c).
Proof.
  intros Hb Hc. unfold stops, zflag. rewrite !Z.lor_eq_0_iff, Z.lxor_eq_0_iff.
  destruct (b =? 0) eqn:E1, (c =? 0) eqn:E2; to_prop; lia.
Qed.

Lemma cmp_mask_none x y : bytes x -> bytes y -> Forall2 (fun b c => ~ stops b c) x y ->
  cmp_mask x y = 0.
Proof.
  intros Hx Hy H. revert Hx Hy. induction H as [|b c x y Hbc _ IH]; intros Hx Hy; [reflexivity|].
  inversion Hx; inversion Hy; subst.
  destruct (cmp_mask_cons b c x y) as (Y & _ & -> & HY); auto.
  unfold stops in Hbc. rewrite HY, IH by (auto || lia).
  replace (Z.lor _ _) with 0; [lia|]. symmetry. apply stop_byte; unfold stops; auto.
Qed.

Lemma cmp_mask_first x y (k : nat) b c : bytes x -> bytes y ->
  (forall i b' c', (i < k)%nat -> x !! i = Some b' -> y !! i = Some c' -> ~ stops b' c') ->
  x !! k = Some b -> y !! k = Some c -> stops b c ->
  0 < cmp_mask x y /\ low_byte (cmp_mask x y) = Z.of_nat k.
Proof.
  intros Hx. revert y k. induction Hx as [|b0 x Hb0 Hx IH]; intros y k Hy Hz Hk1 Hk2 Hs; [easy|].
  destruct Hy as [|c0 y Hc0 Hy]; [easy|].
  destruct (cmp_mask_cons b0 c0 x y) as (Y & HY0 & -> & HY); auto.
  set (h := Z.lor _ _). assert (Hh : byte h) by (subst h; auto 6 using zflag_byte with cdb).
  pose proof (stop_byte b0 c0 Hb0 Hc0) as Hst. fold h in Hst. unfold byte in Hh.
  destruct k as [|k].
  - injection Hk1 as ->. injection Hk2 as ->.
    assert (h <> 0) by (intros E; apply Hst in E; auto).
    split; [lia|]. apply low_byte_zero; [lia|].
    rewrite (Z.mul_comm 256), Z_mod_plus_full, Z.mod_small; lia.
  - assert (Hns : ~ stops b0 c0) by (apply (Hz 0%nat); auto; lia).
    assert (h = 0) as -> by (apply Hst; exact Hns). unfold stops in Hns.
    rewrite HY by lia. destruct (IH y k) as [Hp He]; auto.
    { intros i b' c' Hi. apply (Hz (S i)). lia. }
    rewrite Z.add_0_l. split; [lia|]. rewrite low_byte_shift by lia. lia.
Qed.

(** ** The hole-bit zero test of [strchr]
    Adding [magic] = 0x7EFEFEFEFEFEFEFF leaves the "hole" bit above a zero byte
    unchanged, so a word with a zero byte is always noticed. *)

Definition magic_bits : Z := 9151031864016699135.

Definition hole_test (w : Z) : Z :=
  Z.land (Z.lxor (u64 (w + magic_bits)) (not64 w)) (not64 magic_bits).

Lemma testbit_odd_div a n : 0 <= n -> Z.testbit a n = Z.odd (a / 2 ^ n).
Proof. intros. rewrite <- Z.bit0_odd, Z.div_pow2_bits by lia. f_equal. Qed.

Lemma add_bit_nocarry a b n : 0 <= n ->
  a mod 2 ^ n + b mod 2 ^ n < 2 ^ n -> Z.testbit b n = false ->
  Z.testbit (a + b) n = Z.testbit a n.
Proof.
  intros Hn Hlow Hb. rewrite !testbit_odd_div in * by lia.
  assert (H2 : 0 < 2 ^ n) by (apply Z.pow_pos_nonneg; lia).
  pose proof (Z.mod_pos_bound a (2 ^ n) H2). pose proof (Z.mod_pos_bound b (2 ^ n) H2).
  assert ((a + b) / 2 ^ n = a / 2 ^ n + b / 2 ^ n) as ->.
  { symmetry. apply Z.div_unique_pos with (a mod 2 ^ n + b mod 2 ^ n); [lia|].
    pose proof (Z.div_mod a (2 ^ n)). pose proof (Z.div_mod b (2 ^ n)). lia. }
  rewrite Z.odd_add, Hb. apply xorb_false_r.
Qed.

Lemma le_mod l (k : nat) : bytes l ->
  le l mod 256 ^ Z.of_nat k = le (take k l).
Proof.
  intros Hl. revert k. induction Hl as [|b l Hb Hl IH]; intros k.
  - rewrite take_nil. simpl. apply Z.mod_0_l. lia.
  - destruct k as [|k]; [simpl; apply Z.mod_1_r|].
    simpl take. simpl le. rewrite Nat2Z.inj_succ, Z.pow_succ_r by lia.
    rewrite <- (IH k). symmetry.
    pose proof (Z.mod_pos_bound (le l) (256 ^ Z.of_nat k) ltac:(lia)). unfold byte in Hb.
    apply Z.mod_unique_pos with (le l / 256 ^ Z.of_nat k); [lia|].
    pose proof (Z.div_mod (le l) (256 ^ Z.of_nat k)). lia.
Qed.

Lemma le_app l1 l2 : le (l1 ++ l2) = le l1 + 256 ^ Z.of_nat (length l1) * le l2.
Proof.
  induction l1 as [|b l1 IH]; simpl app; simpl le; simpl length; [lia|].
  rewrite IH, Nat2Z.inj_succ, Z.pow_succ_r by lia. lia.
Qed.

(** With a zero byte at [k], the low [k+1] bytes are worth less than [256^k]. *)
Lemma le_zero_byte_mod l (k : nat) : bytes l -> l !! k = Some 0 ->
  0 <= le l mod 256 ^ Z.of_nat (S k) < 256 ^ Z.of_nat k.
Proof.
  intros Hl Hk. rewrite le_mod by exact Hl. rewrite (take_S_r _ _ _ Hk).
  rewrite le_app. simpl le.
  pose proof (le_bound (take k l) (Forall_take _ _ _ Hl)) as Hb.
  rewrite length_take_le in Hb |- * by (apply lookup_lt_Some in Hk; lia). lia.
Qed.

Lemma hole_bit w n : 0 <= n < 64 ->
  w mod 2 ^ n + magic_bits mod 2 ^ n < 2 ^ n -> Z.testbit magic_bits n = false ->
  hole_test w <> 0.
Proof.
  intros Hn Hlow Hm E. apply (f_equal (fun z => Z.testbit z n)) in E.
  unfold hole_test, not64, u64 in E. rewrite Z.bits_0, Z.land_spec, Z.lxor_spec in E.
  rewrite !Z.mod_pow2_bits_low, !Z.lnot_spec in E by lia.
  rewrite add_bit_nocarry, Hm in E by (lia || assumption). destruct (Z.testbit w n); discriminate.
Qed.

(** The hole above byte [k], and the check that a zero byte [k] cannot carry
    into it, for each of the eight bytes. *)
Definition hole_pos (k : nat) : Z := if (k =? 7)%nat then 63 else 8 * Z.of_nat (S k).

Definition hole_check (k : nat) : bool :=
  (256 ^ Z.of_nat k + magic_bits mod 2 ^ hole_pos k <=? 2 ^ hole_pos k) &&
  negb (Z.testbit magic_bits (hole_pos k)).

Lemma hole_checked k : (k < 8)%nat -> hole_check k = true.
Proof.
  intros Hk. assert (H : forallb hole_check (seq 0 8) = true) by (vm_compute; reflexivity).
  rewrite forallb_forall in H. apply H. apply in_seq. lia.
Qed.

Lemma hole_sound l (k : nat) : bytes l -> length l = 8%nat -> l !! k = Some 0 ->
  hole_test (le l) <> 0.
Proof.
  intros Hl Hlen Hk. pose proof (le_zero_byte_mod l k Hl Hk) as Hm.
  pose proof (lookup_lt_Some _ _ _ Hk) as Hlt. rewrite Hlen in Hlt.
  pose proof (hole_checked k Hlt) as Hc. unfold hole_check in Hc. to_prop.
  pose proof (le_bound l Hl) as Hb. rewrite Hlen in Hb.
  apply (hole_bit _ (hole_pos k)); [unfold hole_pos; destruct (Nat.eqb_spec k 7); lia| |assumption].
  assert (le l mod 2 ^ hole_pos k < 256 ^ Z.of_nat k); [|lia].
  unfold hole_pos. destruct (k =? 7)%nat eqn:E.
  - apply Nat.eqb_eq in E. subst k. rewrite (Z.mod_small (le l) (256 ^ _)) in Hm by exact Hb.
    rewrite Z.mod_small; [lia|]. split; [lia|].
    apply Z.lt_trans with (256 ^ Z.of_nat 7); [lia|reflexivity].
  - rewrite Z.pow_mul_r by lia. apply Hm.
Qed.

Lemma land_le_r a b : 0 <= a -> 0 <= b -> Z.land a b <= b.
Proof.
  intros Ha Hb. rewrite <- (Z2N.id a), <- (Z2N.id b) by assumption.
  rewrite <- N2Z.inj_land. apply N2Z.inj_le, N.land_le_r.
Qed.

Lemma land_7 a : Z.land a 7 = a mod 8.
Proof. apply (Z.land_ones a 3). lia. Qed.

(** ** Integers as little-endian bytes *)

(** The low [w] bytes of an integer, least significant first. *)
Fixpoint bytes_le (w : nat) (z : Z) : list Z :=
  match w with
  | O => []
  | S w' => z mod 256 :: bytes_le w' (z / 256)
  end.

Lemma bytes_le_le (w : nat) v : Forall byte v -> length v = w -> bytes_le w (le v) = v.
Proof.
  revert v. induction w as [|w IH]; intros [|b v] Hb Hl; try easy. simpl in *.
  apply Forall_cons in Hb as [Hb Hv]. unfold byte in Hb. f_equal.
  - symmetry. apply (Z.mod_unique_pos _ _ (le v)); lia.
  - replace ((b + 256 * le v) / 256) with (le v) by (apply (Z.div_unique_pos _ _ _ b); lia).
    apply IH; [exact Hv|lia].
Qed.

Lemma bytes_le_length w z : length (bytes_le w z) = w.
Proof. revert z. induction w; intros z; simpl; auto. Qed.
