(* ===== verification/Ctype.v ===== *)
(** Character classes: the table [_ctype] and the macros over it, which the
    kernel ([src/kernel/src/klib/ctype.cpp], [ctype.h]) and the user-space libc
    ([src/lib/stdc/ctype.c], [src/lib/include/stdc/ctype.h]) both have. *)
From stdpp Require Import base gmap list.
From Stdlib Require Import ZArith Lia.
From S2P Require Import Prelude Words.

Open Scope Z_scope.

(** * The code *)

Definition _U : Z := 1.     (* upper *)
Definition _L : Z := 2.     (* lower *)
Definition _D : Z := 4.     (* digit *)
Definition _C : Z := 8.     (* cntrl *)
Definition _P : Z := 16.    (* punct *)
Definition _S : Z := 32.    (* white space *)
Definition _X : Z := 64.    (* hex digit *)
Definition _SP : Z := 128.  (* hard space *)

#[local] Infix "|" := Z.lor (at level 50, left associativity).

Definition _ctype : list Z := [
_C;_C;_C;_C;_C;_C;_C;_C;                (* 0-7 *)
_C;_C|_S;_C|_S;_C|_S;_C|_S;_C|_S;_C;_C;            (* 8-15 *)
_C;_C;_C;_C;_C;_C;_C;_C;                (* 16-23 *)
_C;_C;_C;_C;_C;_C;_C;_C;                (* 24-31 *)
_S|_SP;_P;_P;_P;_P;_P;_P;_P;                (* 32-39 *)
_P;_P;_P;_P;_P;_P;_P;_P;                (* 40-47 *)
_D;_D;_D;_D;_D;_D;_D;_D;                (* 48-55 *)
_D;_D;_P;_P;_P;_P;_P;_P;                (* 56-63 *)
_P;_U|_X;_U|_X;_U|_X;_U|_X;_U|_X;_U|_X;_U;        (* 64-71 *)
_U;_U;_U;_U;_U;_U;_U;_U;                (* 72-79 *)
_U;_U;_U;_U;_U;_U;_U;_U;                (* 80-87 *)
_U;_U;_U;_P;_P;_P;_P;_P;                (* 88-95 *)
_P;_L|_X;_L|_X;_L|_X;_L|_X;_L|_X;_L|_X;_L;        (* 96-103 *)
_L;_L;_L;_L;_L;_L;_L;_L;                (* 104-111 *)
_L;_L;_L;_L;_L;_L;_L;_L;                (* 112-119 *)
_L;_L;_L;_P;_P;_P;_P;_C;                (* 120-127 *)
0;0;0;0;0;0;0;0;0;0;0;0;0;0;0;0;            (* 128-143 *)
0;0;0;0;0;0;0;0;0;0;0;0;0;0;0;0;            (* 144-159 *)
_S|_SP;_P;_P;_P;_P;_P;_P;_P;_P;_P;_P;_P;_P;_P;_P;_P;    (* 160-175 *)
_P;_P;_P;_P;_P;_P;_P;_P;_P;_P;_P;_P;_P;_P;_P;_P;    (* 176-191 *)
_U;_U;_U;_U;_U;_U;_U;_U;_U;_U;_U;_U;_U;_U;_U;_U;    (* 192-207 *)
_U;_U;_U;_U;_U;_U;_U;_P;_U;_U;_U;_U;_U;_U;_U;_L;    (* 208-223 *)
_L;_L;_L;_L;_L;_L;_L;_L;_L;_L;_L;_L;_L;_L;_L;_L;    (* 224-239 *)
_L;_L;_L;_L;_L;_L;_L;_P;_L;_L;_L;_L;_L;_L;_L;_L].   (* 240-255 *)

(** [_ctype[(int)(uint8_t)(x)]] *)
Definition __ismask (x : Z) : Z := _ctype !!! Z.to_nat (u8 x).

Definition is_class (c mask : Z) : bool := negb (Z.land (__ismask c) mask =? 0).

Definition isalnum (c : Z) : bool := is_class c (_U|_L|_D).
Definition isalpha (c : Z) : bool := is_class c (_U|_L).
Definition iscntrl (c : Z) : bool := is_class c _C.
Definition isdigit (c : Z) : bool := is_class c _D.
Definition isgraph (c : Z) : bool := is_class c (_P|_U|_L|_D).
Definition islower (c : Z) : bool := is_class c _L.
Definition isprint (c : Z) : bool := is_class c (_P|_U|_L|_D|_SP).
Definition ispunct (c : Z) : bool := is_class c _P.
Definition isspace (c : Z) : bool := is_class c _S.
Definition isupper (c : Z) : bool := is_class c _U.
Definition isxdigit (c : Z) : bool := is_class c (_D|_X).

(** [c -= 'A'-'a'] and [c -= 'a'-'A'] on [uint8_t]. *)
Definition __tolower (c : Z) : Z := if isupper c then u8 (c - (65 - 97)) else c.
Definition __toupper (c : Z) : Z := if islower c then u8 (c - (97 - 65)) else c.

Definition tolower (c : Z) : Z := __tolower (u8 c).
Definition toupper (c : Z) : Z := __toupper (u8 c).

(** * Facts, by enumeration of the 256 bytes *)

Lemma isdigit_byte c : byte c -> isdigit c = (48 <=? c) && (c <=? 57).
Proof.
  intros Hc. apply Bool.eqb_prop.
  apply (all_bytes_spec (fun c => Bool.eqb (isdigit c) ((48 <=? c) && (c <=? 57)))); [vm_compute; reflexivity|exact Hc].
Qed.

(** * The property *)

(** The ASCII classes of the C locale. *)
Definition ascii_upper (c : Z) : bool := (65 <=? c) && (c <=? 90).
Definition ascii_lower (c : Z) : bool := (97 <=? c) && (c <=? 122).
Definition ascii_digit (c : Z) : bool := (48 <=? c) && (c <=? 57).

(** on ASCII the macros are the C locale's classes (letters, digits,
    hexadecimal digits, white space, control and printable characters), and
    [tolower] and [toupper] exchange the two cases and keep everything else. *)
Theorem ctype_ascii (c : Z) : 0 <= c < 128 ->
  isupper c = ascii_upper c /\ islower c = ascii_lower c /\ isdigit c = ascii_digit c /\
  isalnum c = (isalpha c || isdigit c) /\
  isxdigit c = (ascii_digit c || ((65 <=? c) && (c <=? 70)) || ((97 <=? c) && (c <=? 102))) /\
  isspace c = ((c =? 32) || ((9 <=? c) && (c <=? 13))) /\
  iscntrl c = ((c <? 32) || (c =? 127)) /\ isprint c = negb (iscntrl c) /\
  isgraph c = (isprint c && negb (c =? 32)) /\ ispunct c = (isgraph c && negb (isalnum c)) /\
  tolower c = (if ascii_upper c then c + 32 else c) /\ toupper c = (if ascii_lower c then c - 32 else c).
Proof.
  intros Hc.
  assert (H : all_bytes (fun c => (128 <=? c) ||
    (Bool.eqb (isupper c) (ascii_upper c) && Bool.eqb (islower c) (ascii_lower c) &&
     Bool.eqb (isdigit c) (ascii_digit c) && Bool.eqb (isalnum c) (isalpha c || isdigit c) &&
     Bool.eqb (isxdigit c) (ascii_digit c || ((65 <=? c) && (c <=? 70)) || ((97 <=? c) && (c <=? 102))) &&
     Bool.eqb (isspace c) ((c =? 32) || ((9 <=? c) && (c <=? 13))) &&
     Bool.eqb (iscntrl c) ((c <? 32) || (c =? 127)) && Bool.eqb (isprint c) (negb (iscntrl c)) &&
     Bool.eqb (isgraph c) (isprint c && negb (c =? 32)) &&
     Bool.eqb (ispunct c) (isgraph c && negb (isalnum c)) &&
     (tolower c =? (if ascii_upper c then c + 32 else c)) &&
     (toupper c =? (if ascii_lower c then c - 32 else c)))) = true) by (vm_compute; reflexivity).
  pose proof (all_bytes_spec _ c H ltac:(unfold byte; lia)) as E. cbv beta in E.
  replace (128 <=? c) with false in E by (symmetry; apply Z.leb_gt; lia). simpl in E.
  rewrite !andb_true_iff, !Bool.eqb_true_iff, !Z.eqb_eq in E. tauto.
Qed.

Lemma ctype_ascii_witness : tolower 81 = 113 /\ toupper 113 = 81 /\ isspace 9 = true.
Proof.
  destruct (ctype_ascii 81 ltac:(lia)) as (_ & _ & _ & _ & _ & _ & _ & _ & _ & _ & H1 & _).
  destruct (ctype_ascii 113 ltac:(lia)) as (_ & _ & _ & _ & _ & _ & _ & _ & _ & _ & _ & H2).
  destruct (ctype_ascii 9 ltac:(lia)) as (_ & _ & _ & _ & _ & H3 & _).
  auto.
Defined.
