(* ===== verification/KStr.v ===== *)
(** The kernel's string routines, [src/kernel/src/klib/str.c]: the byte loops
    ([strcat], [strcpy], [strncpy], [strncmp], [strtok], [atoi]) and the
    word-at-a-time ones ([strcmp], [strchr], [strlen]). Pointers are addresses,
    NULL is 0, every memory access goes through [load8], [store8] or [load64]
    and faults on an unmapped address, every loop takes fuel. *)
From stdpp Require Import base gmap list fin_maps.
From Stdlib Require Import ZArith Lia.
From S2P Require Import Prelude Words Ctype.

Open Scope Z_scope.
Open Scope c_scope.

Definition NULL : Z := 0.

(** * strcat *)

(** [while ( *p != '\0') p++;] *)
Definition scan_nul (fuel : nat) (m : mem) (p : Z) : res Z :=
  loop fuel (fun p =>
    let* b := load8 m p in
    if b =? 0 then Ok (inr p) else Ok (inl (p + 1))) p.

(** [while ( *source != '\0') { *p = *source; p++; source++; }] *)
Definition copy_until_nul (fuel : nat) (m : mem) (p source : Z) : res (mem * Z) :=
  loop fuel (fun '(m, p, source) =>
    let* b := load8 m source in
    if b =? 0 then Ok (inr (m, p))
    else
      let* m' := store8 m p b in
      Ok (inl (m', p + 1, source + 1))) (m, p, source).

Definition strcat (fuel : nat) (m : mem) (dest source : Z) : res (mem * Z) :=
  if (dest =? NULL) || (source =? NULL) then Ok (m, dest)
  else
    let* p := scan_nul fuel m dest in
    let* (m1, p') := copy_until_nul fuel m p source in
    let* m2 := store8 m1 p' 0 in
    Ok (m2, dest).

(** * strcmp *)

Definition ONES : Z := 72340172838076673.      (* 0x0101010101010101 *)
Definition HIGHS : Z := 9259542123273814144.   (* 0x8080808080808080 *)

(** The alignment loop: stops with both pointers word-aligned ([inl]) or with
    the result ([inr]). *)
Definition strcmp_align (fuel : nat) (m : mem) (cs ct : Z) : res ((Z * Z) + Z) :=
  loop fuel (fun '(cs, ct) =>
    if negb (Z.land cs 7 =? 0) || negb (Z.land ct 7 =? 0) then
      let* c1 := load8 m cs in
      let* c2 := load8 m ct in
      if negb (c1 =? c2) then Ok (inr (inr (c1 - c2)))
      else if c1 =? 0 then Ok (inr (inr 0))
      else Ok (inl (cs + 1, ct + 1))
    else Ok (inr (inl (cs, ct)))) (cs, ct).

(** [zero_mask]: the borrow-based zero-byte test on both words. *)
Definition strcmp_mask (x y : Z) : Z :=
  let zero_mask := Z.lor (Z.land (Z.land (u64 (x - ONES)) (not64 x)) HIGHS)
                         (Z.land (Z.land (u64 (y - ONES)) (not64 y)) HIGHS) in
  let diff := Z.lxor x y in
  Z.lor diff zero_mask.

Definition strcmp_words (fuel : nat) (m : mem) (cs ct : Z) : res Z :=
  loop fuel (fun '(cs, ct) =>
    let* x := load64 m cs in
    let* y := load64 m ct in
    let mask := strcmp_mask x y in
    if negb (mask =? 0) then
      let byte_idx := ctz mask / 8 in
      let* c1 := load8 m (cs + byte_idx) in
      let* c2 := load8 m (ct + byte_idx) in
      if negb (c1 =? c2) then Ok (inr (c1 - c2)) else Ok (inr 0)
    else Ok (inl (cs + 8, ct + 8))) (cs, ct).

Definition strcmp (fuel : nat) (m : mem) (cs ct : Z) : res Z :=
  let* st := strcmp_align fuel m cs ct in
  match st with
  | inl (cs', ct') => strcmp_words fuel m cs' ct'
  | inr r => Ok r
  end.

(** * strtok *)

(** The inner loop over the delimiters, at character [*p].  [inr] is the
    [return start]; [inl] is the loop running off the end of [delim].  The
    [start == p] test after [p++] is the source's. *)
Definition strtok_inner (fuel : nat) (m : mem) (p start d : Z)
  : res ((mem * Z * Z) + (mem * Z * Z)) :=
  loop fuel (fun '(m, p, start, d) =>
    let* bd := load8 m d in
    if bd =? 0 then Ok (inr (inl (m, p, start)))
    else
      let* bp := load8 m p in
      if bp =? bd then
        let* m' := store8 m p 0 in
        let p' := p + 1 in
        if start =? p' then Ok (inl (m', p', p', d))
        else Ok (inr (inr (m', p', start)))
      else Ok (inl (m, p, start, d + 1))) (m, p, start, d).

(** [while ( *p != '\0') { ... p++; }]: the scan for the end of the token. *)
Definition strtok_outer (fuel : nat) (m : mem) (p start delim : Z)
  : res ((mem * Z * Z) + (mem * Z * Z)) :=
  loop fuel (fun '(m, p, start) =>
    let* b := load8 m p in
    if b =? 0 then Ok (inr (inl (m, p, start)))
    else
      let* r := strtok_inner fuel m p start delim in
      match r with
      | inr ret => Ok (inr (inr ret))
      | inl (m', p', start') => Ok (inl (m', p' + 1, start'))
      end) (m, p, start).

(** The result carries the new memory, the static [p] and the returned token. *)
Definition strtok (fuel : nat) (m : mem) (static_p str delim : Z) : res (mem * Z * Z) :=
  let p := if negb (str =? 0) then str else static_p in
  if (str =? 0) && (static_p =? 0) then Ok (m, static_p, NULL)
  else
    let* r := strtok_outer fuel m p p delim in
    match r with
    | inr ret => Ok ret
    | inl (m', p', start) =>
        if start =? p' then Ok (m', p', NULL) else Ok (m', p', start)
    end.

(** * strchr *)

Definition strchr_align (fuel : nat) (m : mem) (s c : Z) : res (Z + Z) :=
  loop fuel (fun p =>
    if negb (Z.land p 7 =? 0) then
      let* b := load8 m p in
      if b =? c then Ok (inr (inr p))
      else if b =? 0 then Ok (inr (inr NULL))
      else Ok (inl (p + 1))
    else Ok (inr (inl p))) s.

(** [magic_bits / 0xff * 0xfe << 1 >> 1 | 1] with [magic_bits = -1]. *)
Definition strchr_magic : Z :=
  Z.lor (Z.shiftr (u64 (Z.shiftl (u64 ((2 ^ 64 - 1) / 255 * 254)) 1)) 1) 1.

Definition strchr_charmask (c : Z) : Z :=
  let charmask := Z.lor c (Z.shiftl c 8) in
  let charmask := Z.lor charmask (u64 (Z.shiftl charmask 16)) in
  Z.lor charmask (u64 (Z.shiftl (u64 (Z.shiftl charmask 16)) 16)).

(** The tentative test: some hole bit unchanged by the addition. *)
Definition strchr_test (longword magic : Z) : Z :=
  Z.land (Z.lxor (u64 (longword + magic)) (not64 longword)) (not64 magic).

(** The unrolled byte checks: [Some r] returns [r], [None] is a misfire. *)
Fixpoint strchr_bytes (m : mem) (cp c : Z) (n : nat) : res (option Z) :=
  match n with
  | O => Ok None
  | S n' =>
      let* b := load8 m cp in
      if b =? c then Ok (Some cp)
      else if b =? 0 then Ok (Some NULL)
      else strchr_bytes m (cp + 1) c n'
  end.

Definition strchr_words (fuel : nat) (m : mem) (p c : Z) : res Z :=
  let charmask := strchr_charmask c in
  loop fuel (fun p =>
    let* longword := load64 m p in
    if negb (strchr_test longword strchr_magic =? 0)
       || negb (strchr_test (Z.lxor longword charmask) strchr_magic =? 0) then
      let* r := strchr_bytes m p c 8 in
      match r with
      | Some q => Ok (inr q)
      | None => Ok (inl (p + 8))
      end
    else Ok (inl (p + 8))) p.

Definition strchr (fuel : nat) (m : mem) (s c_in : Z) : res Z :=
  let c := u8 c_in in
  let* st := strchr_align fuel m s c in
  match st with
  | inl p => strchr_words fuel m p c
  | inr r => Ok r
  end.

(** * strcpy, strncmp, strncpy *)

Definition strcpy (fuel : nat) (m : mem) (strDest strSrc : Z) : res (mem * Z) :=
  let* m' := loop fuel (fun '(m, d, s) =>
    let* b := load8 m s in
    let* m' := store8 m d b in
    if b =? 0 then Ok (inr m') else Ok (inl (m', d + 1, s + 1))) (m, strDest, strSrc) in
  Ok (m', strDest).

Definition strncmp (fuel : nat) (m : mem) (a b n : Z) : res Z :=
  loop fuel (fun '(a, b, n) =>
    let* ac := if n =? 0 then Ok 0 else load8 m a in
    let* bc := if n =? 0 then Ok 0 else load8 m b in
    if (ac =? 0) || (bc =? 0) || negb (ac =? bc)
    then Ok (inr (b2z (bc <? ac) - b2z (ac <? bc)))
    else Ok (inl (a + 1, b + 1, u64 (n - 1)))) (a, b, n).

Definition strncpy (fuel : nat) (m : mem) (dest src n : Z) : res (mem * Z) :=
  let* m' := loop fuel (fun '(m, d, s, n) =>
    if 0 <? n then
      let* b := load8 m s in
      let* m' := store8 m d b in
      if b =? 0 then Ok (inr m') else Ok (inl (m', d + 1, s + 1, u64 (n - 1)))
    else Ok (inr m)) (m, dest, src, n) in
  Ok (m', dest).

(** * strlen *)

Definition strlen_m : Z := (2 ^ 64 - 1) / 255 * 127.

Definition strlen_first_mask (wi s : Z) : Z :=
  Z.shiftr (not64 (Z.lor (Z.lor (u64 (Z.land wi strlen_m + strlen_m)) wi) strlen_m))
           (8 * (s mod 8)).

Definition strlen_word_test (wi : Z) : Z :=
  Z.land (Z.land (u64 (wi - (2 ^ 64 - 1) / 255 * 1)) (not64 wi)) ((2 ^ 64 - 1) / 255 * 128).

(** [do { wi = *++w; } while (test == 0)], keeping the address of the word. *)
Definition strlen_words (fuel : nat) (m : mem) (w : Z) : res (Z * Z) :=
  loop fuel (fun w =>
    let w' := w + 8 in
    let* wi := load64 m w' in
    if strlen_word_test wi =? 0 then Ok (inl w') else Ok (inr (w', wi))) w.

Definition strlen (fuel : nat) (m : mem) (s : Z) : res Z :=
  if s =? NULL then Ok 0
  else
    let w := Z.land s (-8) in
    let* wi := load64 m w in
    let mask := strlen_first_mask wi s in
    if negb (mask =? 0) then Ok (ctz mask / 8)
    else
      let* (w', wi') := strlen_words fuel m w in
      Ok (w' + ctz (strlen_word_test wi') / 8 - s).

(** * atoi *)

Definition atoi_spaces (fuel : nat) (m : mem) (str : Z) : res Z :=
  loop fuel (fun str =>
    let* c := load8 m str in
    if negb (c =? 0) && ((c =? 32) || (c =? 9)) then Ok (inl (str + 1)) else Ok (inr str)) str.

Definition atoi_digits (fuel : nat) (m : mem) (str : Z) : res Z :=
  loop fuel (fun '(str, result) =>
    let* c := load8 m str in
    if negb (c =? 0) && isdigit c then
      let* t := int_ok (result * 10) in
      let* r := int_ok (t + (c - 48)) in
      Ok (inl (str + 1, r))
    else Ok (inr result)) (str, 0).

Definition atoi (fuel : nat) (m : mem) (str : Z) : res Z :=
  let* str := atoi_spaces fuel m str in
  let* c := load8 m str in
  let neg := negb (c =? 0) && (c =? 45) in
  let* result := atoi_digits fuel m (if neg then str + 1 else str) in
  int_ok (result * (if neg then -1 else 1)).

(** * Specifications *)

(** The aligned words that a NUL-terminated string of length [n] at [p] touches
    are mapped.  Mappings have page granularity, so this holds whenever the
    string itself is mapped. *)
Definition words_mapped (m : mem) (p : Z) (n : nat) : Prop :=
  forall a, p / 8 * 8 <= a < ((p + Z.of_nat n) / 8 + 1) * 8 -> is_Some (m !! a).

(** ** Shared facts on aligned words *)

Lemma land_neg8 a : Z.land a (-8) = a / 8 * 8.
Proof.
  change (-8) with (Z.lnot (Z.ones 3)). rewrite <- Z.ldiff_land, Z.ldiff_ones_r by lia.
  rewrite Z.shiftl_mul_pow2, Z.shiftr_div_pow2 by lia. reflexivity.
Qed.

Lemma rep8_127 : strlen_m = rep 8 127. Proof. reflexivity. Qed.
Lemma rep8_1 : (2 ^ 64 - 1) / 255 * 1 = rep 8 1. Proof. reflexivity. Qed.
Lemma rep8_128 : (2 ^ 64 - 1) / 255 * 128 = rep 8 128. Proof. reflexivity. Qed.
Lemma ones_rep : ONES = rep 8 1. Proof. reflexivity. Qed.
Lemma highs_rep : HIGHS = rep 8 128. Proof. reflexivity. Qed.

(** The machine's zero-byte test is the borrow test on the bytes. *)
Lemma zborrow_machine w :
  Z.land (Z.land (u64 (w - rep 8 1)) (not64 w)) (rep 8 128)
  = zborrow_raw w (rep 8 1) (rep 8 128).
Proof.
  unfold not64. rewrite <- u64_land, land_u64_l; [reflexivity|].
  split; [discriminate|reflexivity].
Qed.

Lemma strlen_word_test_eq l : length l = 8%nat ->
  strlen_word_test (le l) = zborrow_raw (le l) (rep (length l) 1) (rep (length l) 128).
Proof.
  intros ->. unfold strlen_word_test. rewrite rep8_1, rep8_128. apply zborrow_machine.
Qed.

(** The exact test of the first word, shifted to the start of the string. *)
Lemma strlen_first_mask_eq l s : bytes l -> length l = 8%nat ->
  strlen_first_mask (le l) s = le (drop (Z.to_nat (s mod 8)) (zflag <$> l)).
Proof.
  intros Hl Hn. unfold strlen_first_mask, not64. rewrite rep8_127.
  pose proof (Z.mod_pos_bound s 8 ltac:(lia)) as Hs.
  assert (HM : rep 8 127 = 9187201950435737471) by reflexivity.
  pose proof (le_bound l Hl) as Hle.
  pose proof (land_le_r (le l) (rep 8 127) ltac:(lia) ltac:(lia)) as Hland.
  assert (Hz : 0 <= Z.land (le l) (rep 8 127)) by (apply Z.land_nonneg; lia).
  rewrite (u64_small (_ + rep 8 127)) by lia.
  pose proof (zexact_list l Hl) as Hx. rewrite Hn in Hx. unfold zexact_raw in Hx. rewrite Hx.
  assert (Hf : bytes (zflag <$> l)).
  { apply Forall_fmap, Forall_true. intros b. apply zflag_byte. }
  pose proof (le_bound _ Hf) as Hb. rewrite length_fmap, Hn in Hb.
  replace (u64 (le (zflag <$> l) - 256 ^ Z.of_nat 8)) with (le (zflag <$> l)).
  2:{ unfold u64. change (256 ^ Z.of_nat 8) with (2 ^ 64) in *.
      apply Z.mod_unique_pos with (-1); lia. }
  rewrite Z.shiftr_div_pow2, Z.pow_mul_r by lia. change (2 ^ 8) with 256.
  rewrite <- (take_drop (Z.to_nat (s mod 8)) (zflag <$> l)) at 1.
  rewrite le_app. rewrite length_take_le by (rewrite length_fmap; lia).
  rewrite Z2Nat.id by lia. rewrite Z.mul_comm, Z.div_add by lia.
  rewrite Z.div_small; [lia|].
  pose proof (le_bound _ (Forall_take _ (Z.to_nat (s mod 8)) _ Hf)) as Ht.
  rewrite length_take_le, Z2Nat.id in Ht by (rewrite ?length_fmap; lia). exact Ht.
Qed.

(** Loading the aligned word at [w]. *)
Lemma load64_ok m w : mem_wf m ->
  (forall a, w <= a < w + 8 -> is_Some (m !! a)) ->
  exists l, load64 m w = Ok (le l) /\ length l = 8%nat /\ bytes l /\
    forall i : nat, (i < 8)%nat -> l !! i = m !! (w + Z.of_nat i).
Proof.
  intros Hwf Hm. destruct (load_bytes_ok m w 8 Hwf) as (l & Hl & Hn & Hb & Hh).
  { intros i Hi. apply Hm. lia. }
  exists l. unfold load64. rewrite Hl. repeat split; auto.
  intros i Hi. destruct (lookup_lt_is_Some_2 l i ltac:(lia)) as [b Hlb].
  rewrite Hlb. symmetry. apply Hh. exact Hlb.
Qed.

(** The characters of a string, by address. *)
Lemma cstr_addr m s l a : cstr m s l -> s <= a < s + Z.of_nat (length l) ->
  exists b, m !! a = Some b /\ b <> 0.
Proof.
  intros Hs Ha. destruct (cstr_char m s l (Z.to_nat (a - s)) Hs ltac:(lia)) as (b & _ & Hb & Hr).
  exists b. rewrite Z2Nat.id in Hb by lia. split; [|lia]. rewrite <- Hb. f_equal. lia.
Qed.

Lemma drop_zflag l k i : drop k (zflag <$> l) !! i = zflag <$> (l !! (k + i)%nat).
Proof. rewrite lookup_drop. apply list_lookup_fmap. Qed.

Lemma le_zero l : Forall (fun b => b = 0) l -> le l = 0.
Proof. induction 1; simpl; lia. Qed.

(** ** strlen *)

Section Strlen.
Context (m : mem) (s : Z) (l : list Z).
Hypothesis Hwf : mem_wf m.
Hypothesis Hs : cstr m s l.
Hypothesis Hw : words_mapped m s (length l).

Let e := s + Z.of_nat (length l).

Lemma e_nul : m !! e = Some 0.
Proof using Hs. apply cstr_nul, Hs. Qed.

(** The first word decides when the terminator is in it. *)
Lemma strlen_first_in : e < s / 8 * 8 + 8 ->
  wp (load64 m (s / 8 * 8)) (fun wi =>
    strlen_first_mask wi s <> 0 /\ ctz (strlen_first_mask wi s) / 8 = Z.of_nat (length l)).
Proof using Hwf Hs Hw.
  intros He. destruct (load64_ok m (s / 8 * 8) Hwf) as (w & -> & Hn & Hb & Hlk).
  { intros a Ha. apply Hw. dlia. }
  simpl. rewrite strlen_first_mask_eq by auto.
  destruct (low_byte_first (drop (Z.to_nat (s mod 8)) (zflag <$> w)) (length l) 128) as [H1 H2].
  - apply Forall_drop, Forall_fmap, Forall_true. intros b. apply zflag_byte.
  - intros i Hi. rewrite drop_zflag, Hlk by dlia.
    destruct (cstr_addr m s l (s + Z.of_nat i) Hs ltac:(dlia)) as (b & Hmb & Hb0).
    replace (s / 8 * 8 + Z.of_nat (Z.to_nat (s mod 8) + i)) with (s + Z.of_nat i) by dlia.
    rewrite Hmb. simpl. unfold zflag. destruct (b =? 0) eqn:E; to_prop; [dlia|reflexivity].
  - rewrite drop_zflag, Hlk by dlia.
    replace (s / 8 * 8 + Z.of_nat (Z.to_nat (s mod 8) + length l)) with e by dlia.
    rewrite e_nul. reflexivity.
  - dlia.
  - split; [dlia|exact H2].
Qed.

Lemma strlen_first_out : s / 8 * 8 + 8 <= e ->
  wp (load64 m (s / 8 * 8)) (fun wi => strlen_first_mask wi s = 0).
Proof using Hwf Hs Hw.
  intros He. destruct (load64_ok m (s / 8 * 8) Hwf) as (w & -> & Hn & Hb & Hlk).
  { intros a Ha. apply Hw. dlia. }
  simpl. rewrite strlen_first_mask_eq by auto. apply le_zero, Forall_lookup.
  intros i b Hi. rewrite drop_zflag in Hi.
  destruct (w !! (Z.to_nat (s mod 8) + i)%nat) as [c|] eqn:Ec; [|easy].
  simpl in Hi. pose proof (lookup_lt_Some _ _ _ Ec). rewrite Hlk in Ec by dlia.
  destruct (cstr_addr m s l (s + Z.of_nat i) Hs ltac:(dlia)) as (b' & Hmb & Hb0).
  replace (s / 8 * 8 + Z.of_nat (Z.to_nat (s mod 8) + i)) with (s + Z.of_nat i) in Ec by dlia.
  injection Hi as <-. unfold zflag. destruct (c =? 0) eqn:E; to_prop; [congruence|reflexivity].
Qed.

(** The word loop stops at the word of the terminator. *)
Lemma strlen_words_ok fuel w :
  w mod 8 = 0 -> s <= w + 8 <= e -> (length l < fuel)%nat ->
  wp (strlen_words fuel m w) (fun '(w', wi) =>
    w' + ctz (strlen_word_test wi) / 8 = e).
Proof using Hwf Hs Hw.
  intros Hal Hr Hf.
  apply (wp_loop (fun w => w mod 8 = 0 /\ s <= w + 8 <= e) (fun w => Z.to_nat (e - w - 8)));
    [|auto|dlia].
  intros w0 [Ha [H1 H2]]. unfold step_ok. apply wp_bind.
  destruct (load64_ok m (w0 + 8) Hwf) as (wl & -> & Hn & Hb & Hlk).
  { intros a Ha'. apply Hw. dlia. }
  simpl. rewrite strlen_word_test_eq by exact Hn.
  destruct (Z_lt_le_dec e (w0 + 8 + 8)) as [Hlt|Hge].
  - destruct (zborrow_first wl (Z.to_nat (e - (w0 + 8))) Hb) as [Hp Hi].
    + intros i b Hi Hlb. rewrite Hlk in Hlb by dlia.
      destruct (cstr_addr m s l (w0 + 8 + Z.of_nat i) Hs ltac:(dlia)) as (b' & Hmb & Hb0).
      congruence.
    + rewrite Hlk by dlia. rewrite Z2Nat.id by dlia.
      replace (w0 + 8 + (e - (w0 + 8))) with e by dlia. apply e_nul.
    + destruct (zborrow_raw _ _ _ =? 0) eqn:E; to_prop; [dlia|]. simpl.
      rewrite strlen_word_test_eq by exact Hn. unfold low_byte in Hi. dlia.
  - rewrite zborrow_none; simpl; [dlia|exact Hb|].
    apply Forall_lookup. intros i b Hi.
    pose proof (lookup_lt_Some _ _ _ Hi). rewrite Hlk in Hi by dlia.
    destruct (cstr_addr m s l (w0 + 8 + Z.of_nat i) Hs ltac:(dlia)) as (b' & Hmb & Hb0).
    congruence.
Qed.

Lemma strlen_ok fuel : s <> 0 -> (length l < fuel)%nat ->
  wp (strlen fuel m s) (fun n => n = Z.of_nat (length l)).
Proof using Hwf Hs Hw.
  intros Hs0 Hf. unfold strlen, NULL. destruct (s =? 0) eqn:E; to_prop; [dlia|].
  rewrite land_neg8. apply wp_bind.
  destruct (Z_lt_le_dec e (s / 8 * 8 + 8)) as [Hlt|Hge].
  - eapply wp_mono; [apply strlen_first_in, Hlt|]. intros wi [H1 H2].
    apply Z.eqb_neq in H1. rewrite H1. exact H2.
  - eapply wp_mono; [apply strlen_first_out, Hge|]. intros wi ->. simpl.
    apply wp_bind. eapply wp_mono; [apply strlen_words_ok; [|dlia|exact Hf]|].
    + apply Z_mod_mult.
    + intros [w' wi'] Hw'. simpl. dlia.
Qed.
End Strlen.

(** ** strcmp *)

(** C's comparison of two strings: the difference of the first pair of
    characters that differ, the terminator counting as 0. *)
Fixpoint ref_strcmp (s t : list Z) : Z :=
  match s, t with
  | [], [] => 0
  | [], c :: _ => 0 - c
  | b :: _, [] => b
  | b :: s', c :: t' => if b =? c then ref_strcmp s' t' else b - c
  end.

Lemma words_mapped_drop m p n k : (k <= n)%nat ->
  words_mapped m p n -> words_mapped m (p + Z.of_nat k) (n - k)%nat.
Proof.
  intros Hk H a Ha. apply H.
  replace (p + Z.of_nat k + Z.of_nat (n - k)) with (p + Z.of_nat n) in Ha by lia.
  assert (p / 8 <= (p + Z.of_nat k) / 8) by (apply Z.div_le_mono; lia). lia.
Qed.

Lemma cstr_drop m p s k : (k <= length s)%nat -> cstr m p s ->
  cstr m (p + Z.of_nat k) (drop k s).
Proof.
  revert p s. induction k as [|k IH]; intros p s Hk Hs.
  - rewrite drop_0, Z.add_0_r. exact Hs.
  - destruct s as [|b s]; [simpl in Hk; lia|]. apply cstr_cons in Hs as (_ & _ & Hs).
    simpl. replace (p + Z.of_nat (S k)) with (p + 1 + Z.of_nat k) by lia.
    apply IH; [simpl in Hk; lia|exact Hs].
Qed.

(** The position where two strings are told apart. *)
Lemma strcmp_position m p q s t : cstr m p s -> cstr m q t ->
  exists (k : nat) b c, (k <= length s)%nat /\ (k <= length t)%nat /\
    m !! (p + Z.of_nat k) = Some b /\ m !! (q + Z.of_nat k) = Some c /\ stops b c /\
    ref_strcmp s t = (if b =? c then 0 else b - c) /\
    (forall i b' c', (i < k)%nat -> m !! (p + Z.of_nat i) = Some b' ->
       m !! (q + Z.of_nat i) = Some c' -> ~ stops b' c') /\
    forall n, (n <= k)%nat -> ref_strcmp (drop n s) (drop n t) = ref_strcmp s t.
Proof.
  revert p q t. induction s as [|b s IH]; intros p q t Hs Ht.
  { exists 0%nat. pose proof (cstr_nul m q t Ht) as Hq. apply cstr_nil in Hs.
    destruct t as [|c t]; [exists 0, 0|exists 0, c];
      rewrite !Z.add_0_r in *; [|apply cstr_cons in Ht as (Hq' & Hc & _)];
      repeat split; auto; try (simpl; lia); try (unfold stops; lia);
      try (intros n Hn; replace n with 0%nat by lia; reflexivity).
    simpl. destruct c; try lia; reflexivity. }
  apply cstr_cons in Hs as (Hp & Hb & Hs). destruct t as [|c t].
  { apply cstr_nil in Ht. exists 0%nat, b, 0. rewrite !Z.add_0_r.
    repeat split; auto; try (simpl; lia); try (unfold stops; lia).
    - simpl. destruct (b =? 0) eqn:E; to_prop; lia.
    - intros n Hn. replace n with 0%nat by lia. reflexivity. }
  apply cstr_cons in Ht as (Hq & Hc & Ht).
  destruct (b =? c) eqn:Ebc; to_prop.
  - subst c. destruct (IH (p + 1) (q + 1) t Hs Ht)
      as (k & b' & c' & K1 & K2 & K3 & K4 & K5 & K6 & K7 & K8).
    exists (S k), b', c'.
    replace (p + Z.of_nat (S k)) with (p + 1 + Z.of_nat k) by lia.
    replace (q + Z.of_nat (S k)) with (q + 1 + Z.of_nat k) by lia.
    simpl length. simpl ref_strcmp at 1. rewrite Z.eqb_refl.
    repeat split; auto; try lia.
    + intros [|i] b1 c1 Hi H1 H2.
      * rewrite Z.add_0_r in H1, H2. unfold stops. rewrite Hp in H1. rewrite Hq in H2.
        injection H1 as <-. injection H2 as <-. lia.
      * apply (K7 i); [lia| |].
        -- rewrite <- H1. f_equal. lia.
        -- rewrite <- H2. f_equal. lia.
    + intros [|n] Hn; [reflexivity|]. simpl. rewrite Z.eqb_refl. apply K8. lia.
  - exists 0%nat, b, c. rewrite !Z.add_0_r. simpl. apply Z.eqb_neq in Ebc as Ebc'.
    rewrite Ebc'. repeat split; auto; try lia; try (unfold stops; lia).
    intros n Hn. replace n with 0%nat by lia. simpl. rewrite Ebc'. reflexivity.
Qed.

Section Strcmp.
Context (m : mem) (p q : Z) (s t : list Z).
Hypothesis Hwf : mem_wf m.

(** Progress of the two pointers through the strings. *)
Definition cmp_inv (st : Z * Z) : Prop :=
  let '(cs, ct) := st in
  exists s' t', cstr m cs s' /\ cstr m ct t' /\
    words_mapped m cs (length s') /\ words_mapped m ct (length t') /\
    ref_strcmp s' t' = ref_strcmp s t /\ p <= cs /\
    cs + Z.of_nat (length s') = p + Z.of_nat (length s).

Definition cmp_measure (st : Z * Z) : nat := Z.to_nat (p + Z.of_nat (length s) - st.1).

Lemma cmp_inv_step cs ct s' t' (n : nat) :
  (n <= length s')%nat -> (n <= length t')%nat ->
  cstr m cs s' -> cstr m ct t' ->
  words_mapped m cs (length s') -> words_mapped m ct (length t') ->
  ref_strcmp (drop n s') (drop n t') = ref_strcmp s t -> p <= cs ->
  cs + Z.of_nat (length s') = p + Z.of_nat (length s) ->
  cmp_inv (cs + Z.of_nat n, ct + Z.of_nat n).
Proof.
  intros. exists (drop n s'), (drop n t'). rewrite !length_drop.
  split_and!; auto using cstr_drop, words_mapped_drop; lia.
Qed.

Lemma strcmp_align_ok fuel : cmp_inv (p, q) -> (length s < fuel)%nat ->
  wp (strcmp_align fuel m p q) (fun r => match r with
    | inl (cs, ct) => cmp_inv (cs, ct) /\ cs mod 8 = 0 /\ ct mod 8 = 0
    | inr v => v = ref_strcmp s t
    end).
Proof using Hwf.
  intros Hi Hf. apply (wp_loop cmp_inv cmp_measure); [|exact Hi|unfold cmp_measure; simpl; lia].
  intros [cs ct] (s' & t' & Hs & Ht & Ws & Wt & HR & Hpc & He). unfold step_ok.
  rewrite !land_7.
  destruct (negb (cs mod 8 =? 0) || negb (ct mod 8 =? 0)) eqn:E.
  2:{ to_prop. simpl. split; [|auto]. exists s', t'. auto 10. }
  clear E. destruct (strcmp_position m cs ct s' t' Hs Ht)
    as (k & b & c & K1 & K2 & K3 & K4 & K5 & K6 & K7 & K8).
  destruct k as [|k].
  - rewrite Z.add_0_r in K3, K4. rewrite (load8_ok _ _ _ K3). simpl.
    rewrite (load8_ok _ _ _ K4). simpl. rewrite <- HR, K6.
    unfold stops in K5. destruct (b =? c) eqn:Ebc; simpl; [|reflexivity].
    to_prop. destruct (b =? 0) eqn:Eb; to_prop; [reflexivity|lia].
  - destruct s' as [|b' s']; [simpl in K1; lia|]. destruct t' as [|c' t']; [simpl in K2; lia|].
    pose proof Hs as Hs'. pose proof Ht as Ht'.
    apply cstr_cons in Hs' as (L1 & L2 & _). apply cstr_cons in Ht' as (L3 & L4 & _).
    rewrite (load8_ok _ _ _ L1). simpl. rewrite (load8_ok _ _ _ L3). simpl.
    assert (Hns : ~ stops b' c').
    { apply (K7 0%nat); [lia| |]; rewrite Z.add_0_r; assumption. }
    unfold stops in Hns. destruct (b' =? c') eqn:E1; to_prop; [|lia].
    destruct (b' =? 0) eqn:E2; to_prop; [lia|]. simpl. split.
    + apply (cmp_inv_step cs ct (b' :: s') (c' :: t') 1); auto; try (simpl; lia).
      rewrite K8 by lia. exact HR.
    + unfold cmp_measure. simpl in *. lia.
Qed.

Lemma strcmp_words_ok fuel cs ct : cmp_inv (cs, ct) -> cs mod 8 = 0 -> ct mod 8 = 0 ->
  (length s < fuel)%nat ->
  wp (strcmp_words fuel m cs ct) (fun v => v = ref_strcmp s t).
Proof using Hwf.
  intros Hi Hc8 Ht8 Hf. assert (p <= cs) by (destruct Hi as (? & ? & ? & ? & ? & ? & ? & ? & ?); assumption).
  apply (wp_loop (fun st => cmp_inv st /\ st.1 mod 8 = 0 /\ st.2 mod 8 = 0) cmp_measure);
    [|auto|unfold cmp_measure; simpl; lia].
  clear cs ct Hi Hc8 Ht8 H.
  intros [cs ct] ((s' & t' & Hs & Ht & Ws & Wt & HR & Hpc & He) & H1 & H2). unfold step_ok.
  simpl in H1, H2.
  destruct (load64_ok m cs Hwf) as (x & Hx & Hxn & Hxb & Hxl).
  { intros a Ha. apply Ws. dlia. }
  destruct (load64_ok m ct Hwf) as (y & Hy & Hyn & Hyb & Hyl).
  { intros a Ha. apply Wt. dlia. }
  rewrite Hx. simpl. rewrite Hy. simpl.
  replace (strcmp_mask (le x) (le y)) with (cmp_mask x y).
  2:{ unfold strcmp_mask, cmp_mask. rewrite ones_rep, highs_rep, !zborrow_machine, Hxn, Hyn.
      reflexivity. }
  destruct (strcmp_position m cs ct s' t' Hs Ht)
    as (k & b & c & K1 & K2 & K3 & K4 & K5 & K6 & K7 & K8).
  destruct (decide (k < 8)%nat) as [Hk|Hk].
  - destruct (cmp_mask_first x y k b c Hxb Hyb) as [Hp Hl]; auto.
    { intros i b' c' Hi. rewrite Hxl, Hyl by lia. apply K7. exact Hi. }
    { rewrite Hxl by lia. exact K3. }
    { rewrite Hyl by lia. exact K4. }
    destruct (cmp_mask x y =? 0) eqn:E; to_prop; [lia|]. simpl.
    unfold low_byte in Hl. rewrite Hl.
    rewrite (load8_ok _ _ _ K3). simpl. rewrite (load8_ok _ _ _ K4). simpl.
    rewrite <- HR, K6. destruct (b =? c); reflexivity.
  - rewrite cmp_mask_none; auto; simpl.
    2:{ apply Forall2_same_length_lookup_2; [lia|]. intros i b' c' Hb' Hc'.
        pose proof (lookup_lt_Some _ _ _ Hb'). rewrite Hxl in Hb' by lia.
        rewrite Hyl in Hc' by lia. apply (K7 i); auto. lia. }
    split; [split; [|dlia]|unfold cmp_measure; simpl; lia].
    apply (cmp_inv_step cs ct s' t' 8); auto; try lia. rewrite K8 by lia. exact HR.
Qed.
End Strcmp.

Lemma strcmp_ok m p q s t fuel : mem_wf m -> cstr m p s -> cstr m q t ->
  words_mapped m p (length s) -> words_mapped m q (length t) -> (length s < fuel)%nat ->
  wp (strcmp fuel m p q) (fun v => v = ref_strcmp s t).
Proof.
  intros Hwf Hs Ht Ws Wt Hf. unfold strcmp. apply wp_bind.
  assert (Hi : cmp_inv m p s t (p, q)) by (exists s, t; auto 10 with lia).
  eapply wp_mono; [exact (strcmp_align_ok m p q s t Hwf fuel Hi Hf)|].
  intros [[cs ct]|v]; [|auto]. intros (Hi' & H1 & H2).
  eapply strcmp_words_ok; eauto.
Qed.

(** ** strchr *)

(** The first occurrence of [c] in the string, the terminator included. *)
Fixpoint ref_strchr (p : Z) (s : list Z) (c : Z) : Z :=
  match s with
  | [] => if c =? 0 then p else NULL
  | b :: s' => if b =? c then p else ref_strchr (p + 1) s' c
  end.

Lemma strchr_magic_eq : strchr_magic = magic_bits.
Proof. reflexivity. Qed.

Lemma charmask_rep c : byte c -> strchr_charmask c = rep 8 c.
Proof.
  intros Hc. apply Z.eqb_eq.
  apply (all_bytes_spec (fun c => strchr_charmask c =? rep 8 c)); [|exact Hc].
  vm_compute. reflexivity.
Qed.

(** XOR with the replicated character turns its occurrences into zeros. *)
Lemma lxor_rep l c : bytes l -> byte c ->
  Z.lxor (le l) (rep (length l) c) = le ((fun b => Z.lxor b c) <$> l).
Proof.
  intros Hl Hc. induction Hl as [|b l Hb _ IH]; [reflexivity|].
  simpl length. rewrite rep_S, fmap_cons. simpl le. rewrite lxor_split by auto.
  rewrite IH. reflexivity.
Qed.

(** A word holding the character or the terminator passes the tentative test. *)
Lemma strchr_test_hit l c (i : nat) b : bytes l -> length l = 8%nat -> byte c ->
  l !! i = Some b -> b = 0 \/ b = c ->
  strchr_test (le l) strchr_magic <> 0 \/
  strchr_test (Z.lxor (le l) (strchr_charmask c)) strchr_magic <> 0.
Proof.
  intros Hl Hn Hc Hi [-> | ->].
  - left. apply (hole_sound l i); assumption.
  - right. rewrite charmask_rep, <- Hn, lxor_rep by assumption.
    apply (hole_sound _ i).
    + apply Forall_fmap. eapply Forall_impl; [exact Hl|]. intros x Hx. apply lxor_byte; assumption.
    + rewrite length_fmap. exact Hn.
    + rewrite list_lookup_fmap, Hi. simpl. f_equal. apply Z.lxor_nilpotent.
Qed.

Section Strchr.
Context (m : mem) (p : Z) (s : list Z) (c : Z).
Hypothesis Hwf : mem_wf m.
Hypothesis Hc : byte c.

Definition chr_inv (a : Z) : Prop :=
  exists s', cstr m a s' /\ words_mapped m a (length s') /\ p <= a /\
    ref_strchr a s' c = ref_strchr p s c /\ a + Z.of_nat (length s') = p + Z.of_nat (length s).

Definition chr_measure (a : Z) : nat := Z.to_nat (p + Z.of_nat (length s) - a).

Lemma chr_inv_next a b s' : cstr m a (b :: s') -> words_mapped m a (length (b :: s')) -> p <= a ->
  ref_strchr (a + 1) s' c = ref_strchr p s c ->
  a + Z.of_nat (length (b :: s')) = p + Z.of_nat (length s) -> chr_inv (a + 1).
Proof.
  intros Hs Hw Hp HR He. exists s'. apply cstr_cons in Hs as (_ & _ & Hs).
  simpl length in *. split_and!; auto; try lia.
  replace (length s') with (S (length s') - 1)%nat by lia.
  apply (words_mapped_drop m a _ 1); [lia|exact Hw].
Qed.

(** One character: found, terminator, or one further. *)
Lemma chr_char a : chr_inv a -> wp (load8 m a) (fun b =>
  if b =? c then a = ref_strchr p s c
  else if b =? 0 then NULL = ref_strchr p s c
  else chr_inv (a + 1) /\ (chr_measure (a + 1) < chr_measure a)%nat).
Proof.
  intros (s' & Hs & Hw & Hp & HR & He). destruct s' as [|b s'].
  - apply cstr_nil in Hs. rewrite (load8_ok _ _ _ Hs). simpl in *.
    destruct c; auto.
  - pose proof Hs as Hs'. apply cstr_cons in Hs' as (Hb & Hb0 & _).
    rewrite (load8_ok _ _ _ Hb). simpl in HR |- *.
    destruct (b =? c) eqn:E1; [exact HR|]. destruct (b =? 0) eqn:E2; to_prop; [lia|].
    split; [eapply chr_inv_next; eauto|]. unfold chr_measure. simpl in He. lia.
Qed.

Lemma strchr_align_ok fuel : chr_inv p -> (length s < fuel)%nat ->
  wp (strchr_align fuel m p c) (fun r => match r with
    | inl a => chr_inv a /\ a mod 8 = 0
    | inr v => v = ref_strchr p s c
    end).
Proof.
  intros Hi Hf. apply (wp_loop chr_inv chr_measure); [|exact Hi|unfold chr_measure; lia].
  intros a Ha. unfold step_ok. rewrite land_7.
  destruct (a mod 8 =? 0) eqn:E; simpl; [to_prop; auto|].
  apply wp_bind. eapply wp_mono; [apply chr_char, Ha|]. intros b Hb; cbv beta in Hb.
  destruct (b =? c); [exact Hb|]. destruct (b =? 0); exact Hb.
Qed.

(** The unrolled checks find the character or leave the invariant further on. *)
Lemma strchr_bytes_ok n a : chr_inv a -> wp (strchr_bytes m a c n) (fun r => match r with
    | Some v => v = ref_strchr p s c
    | None => chr_inv (a + Z.of_nat n) /\
        (n <> 0%nat -> (chr_measure (a + Z.of_nat n) < chr_measure a)%nat)
    end).
Proof.
  revert a. induction n as [|n IH]; intros a Ha; simpl.
  - rewrite Z.add_0_r. split; [exact Ha|easy].
  - apply wp_bind. eapply wp_mono; [apply chr_char, Ha|]. intros b Hb; cbv beta in Hb.
    destruct (b =? c); [exact Hb|]. destruct (b =? 0); [exact Hb|].
    destruct Hb as [H1 H2]. eapply wp_mono; [apply IH, H1|]. intros [v|]; [auto|].
    replace (a + Z.of_nat (S n)) with (a + 1 + Z.of_nat n) by lia.
    intros [H3 H4]. split; [exact H3|]. intros _.
    destruct (decide (n = 0%nat)) as [->|Hn]; [rewrite Z.add_0_r; exact H2|].
    specialize (H4 Hn). lia.
Qed.

(** A word without [c] or terminator can be skipped. *)
Lemma chr_skip n a : chr_inv a ->
  (forall i b, (i < n)%nat -> m !! (a + Z.of_nat i) = Some b -> b <> 0 /\ b <> c) ->
  chr_inv (a + Z.of_nat n) /\ (n <> 0%nat -> (chr_measure (a + Z.of_nat n) < chr_measure a)%nat).
Proof.
  intros Ha Hn. pose proof (strchr_bytes_ok n a Ha) as Hb.
  assert (strchr_bytes m a c n = Ok None) as E; [|rewrite E in Hb; exact Hb].
  clear Hb. revert a Ha Hn. induction n as [|n IH]; intros a Ha Hn; [reflexivity|]. simpl.
  pose proof (chr_char a Ha) as Hc1. unfold load8 in *.
  specialize (Hn 0%nat) as Hn0. rewrite Z.add_0_r in Hn0.
  destruct (m !! a) as [b|]; [|easy]. simpl in *.
  destruct (Hn0 b ltac:(lia) eq_refl) as [N1 N2]. apply Z.eqb_neq in N1, N2.
  rewrite N1, N2 in *. apply IH; [apply Hc1|]. intros i b' Hi Hb'.
  apply (Hn (S i)); [lia|]. rewrite <- Hb'. f_equal. lia.
Qed.

Lemma strchr_words_ok fuel a : chr_inv a -> a mod 8 = 0 -> (length s < fuel)%nat ->
  wp (strchr_words fuel m a c) (fun v => v = ref_strchr p s c).
Proof using Hwf Hc.
  intros Ha Hal Hf. assert (p <= a) by (destruct Ha as (? & ? & ? & ? & ?); assumption).
  apply (wp_loop (fun a => chr_inv a /\ a mod 8 = 0) chr_measure);
    [|auto|unfold chr_measure; lia].
  clear a Ha Hal H. intros a [Ha Hal]. unfold step_ok.
  destruct (load64_ok m a Hwf) as (l & Hl & Hn & Hb & Hlk).
  { destruct Ha as (s' & _ & Hw & _). intros x Hx. apply Hw. dlia. }
  rewrite Hl. simpl.
  destruct (negb _ || negb _) eqn:E.
  - apply wp_bind. eapply wp_mono; [apply (strchr_bytes_ok 8), Ha|]. intros [v|]; simpl; [auto|].
    intros [H1 H2]. split; [split; [exact H1|dlia]|apply H2; lia].
  - simpl. destruct (chr_skip 8 a Ha) as [H1 H2].
    { intros i b Hi Hm. rewrite <- Hlk in Hm by exact Hi. to_prop.
      destruct (decide (b = 0 \/ b = c)) as [Hbc|Hbc]; [exfalso|lia].
      destruct (strchr_test_hit l c i b Hb Hn Hc Hm Hbc); congruence. }
    split; [split; [exact H1|dlia]|apply H2; lia].
Qed.

Lemma strchr_ok fuel : cstr m p s -> words_mapped m p (length s) -> (length s < fuel)%nat ->
  wp (strchr fuel m p c) (fun v => v = ref_strchr p s c).
Proof using Hwf Hc.
  intros Hs Hw Hf. unfold strchr. rewrite u8_small by exact Hc. apply wp_bind.
  eapply wp_mono; [apply strchr_align_ok; [|exact Hf]|].
  - exists s. auto with lia.
  - intros [a|v]; [|auto]. intros [H1 H2]. apply strchr_words_ok; assumption.
Qed.
End Strchr.

(** ** strcpy, strncpy, strcat *)

(** One round of a copy loop. *)
Lemma copy_step m d src b s : cstr m src (b :: s) -> mapped m d (S (length (b :: s))) ->
  (d < src \/ src + Z.of_nat (length (b :: s)) < d) ->
  load8 m src = Ok b /\ store8 m d b = Ok (<[d := b]> m) /\ b <> 0 /\
  cstr (<[d := b]> m) (src + 1) s /\ mapped (<[d := b]> m) (d + 1) (S (length s)) /\
  (d + 1 < src + 1 \/ src + 1 + Z.of_nat (length s) < d + 1).
Proof.
  intros Hs Hm Hd. apply cstr_cons in Hs as (Hb & Hb0 & Hs). simpl length in *.
  destruct (Hm d ltac:(lia)) as [v Hv]. split_and!.
  - apply load8_ok, Hb.
  - rewrite (store8_ok _ _ _ _ Hv), u8_small by lia. reflexivity.
  - lia.
  - apply cstr_insert; [lia|exact Hs].
  - apply mapped_insert. eapply mapped_le; [exact Hm|lia|lia].
  - lia.
Qed.

Lemma copy_end m d src : cstr m src [] -> mapped m d 1 ->
  load8 m src = Ok 0 /\ store8 m d 0 = Ok (<[d := 0]> m).
Proof.
  intros Hs Hm. apply cstr_nil in Hs. destruct (Hm d ltac:(lia)) as [v Hv].
  split; [apply load8_ok, Hs|]. rewrite (store8_ok _ _ _ _ Hv), u8_small by lia. reflexivity.
Qed.

Lemma strcpy_ok fuel m d src s : cstr m src s -> mapped m d (S (length s)) ->
  (d < src \/ src + Z.of_nat (length s) < d) -> (length s < fuel)%nat ->
  strcpy fuel m d src = Ok (write m d (s ++ [0]), d).
Proof.
  intros Hs Hm Hd Hf. unfold strcpy.
  enough (forall d src m, cstr m src s -> mapped m d (S (length s)) ->
    (d < src \/ src + Z.of_nat (length s) < d) ->
    loop fuel (fun '(m, d, s) =>
      let* b := load8 m s in let* m' := store8 m d b in
      if b =? 0 then Ok (inr m') else Ok (inl (m', d + 1, s + 1))) (m, d, src)
    = Ok (write m d (s ++ [0]))) as E by (rewrite E; auto).
  clear - Hf. revert fuel Hf. induction s as [|b s IH]; intros fuel Hf d src m Hs Hm Hd;
    (destruct fuel as [|fuel]; [simpl in Hf; lia|]).
  - destruct (copy_end m d src Hs Hm) as [E1 E2]. simpl. rewrite E1. simpl. rewrite E2. reflexivity.
  - destruct (copy_step m d src b s Hs Hm Hd) as (E1 & E2 & Hb & Hs' & Hm' & Hd').
    simpl. rewrite E1. simpl. rewrite E2. simpl. apply Z.eqb_neq in Hb. rewrite Hb.
    apply IH; auto. simpl in Hf. lia.
Qed.

Lemma strncpy_ok fuel m d src s n : cstr m src s -> 0 <= n < 2 ^ 64 ->
  mapped m d (S (length s)) ->
  (d < src \/ src + Z.of_nat (length s) < d) -> (length s < fuel)%nat ->
  strncpy fuel m d src n = Ok (write m d (take (Z.to_nat n) (s ++ [0])), d).
Proof.
  intros Hs Hn Hm Hd Hf. unfold strncpy.
  enough (forall d src m n, cstr m src s -> mapped m d (S (length s)) -> 0 <= n < 2 ^ 64 ->
    (d < src \/ src + Z.of_nat (length s) < d) ->
    loop fuel (fun '(m, d, s, n) =>
      if 0 <? n then
        let* b := load8 m s in let* m' := store8 m d b in
        if b =? 0 then Ok (inr m') else Ok (inl (m', d + 1, s + 1, u64 (n - 1)))
      else Ok (inr m)) (m, d, src, n)
    = Ok (write m d (take (Z.to_nat n) (s ++ [0])))) as E by (rewrite E; auto).
  clear - Hf. revert fuel Hf. induction s as [|b s IH]; intros fuel Hf d src m n Hs Hm Hn Hd;
    (destruct fuel as [|fuel]; [simpl in Hf; lia|]); simpl;
    (destruct (0 <? n) eqn:En; to_prop;
      [|replace (Z.to_nat n) with 0%nat by lia; reflexivity]);
    replace (Z.to_nat n) with (S (Z.to_nat (n - 1))) by lia.
  - destruct (copy_end m d src Hs Hm) as [E1 E2]. rewrite E1. simpl. rewrite E2. simpl.
    rewrite take_nil. reflexivity.
  - destruct (copy_step m d src b s Hs Hm Hd) as (E1 & E2 & Hb & Hs' & Hm' & Hd').
    rewrite E1. simpl. rewrite E2. simpl. apply Z.eqb_neq in Hb. rewrite Hb.
    rewrite u64_small by lia. apply IH; auto; [|lia]. simpl in Hf. lia.
Qed.

Lemma scan_nul_ok fuel m p s : cstr m p s -> (length s < fuel)%nat ->
  scan_nul fuel m p = Ok (p + Z.of_nat (length s)).
Proof.
  revert p fuel. unfold scan_nul. induction s as [|b s IH]; intros p fuel Hs Hf;
    (destruct fuel as [|fuel]; [simpl in Hf; lia|]); simpl.
  - apply cstr_nil in Hs. rewrite (load8_ok _ _ _ Hs). simpl. do 2 f_equal. lia.
  - apply cstr_cons in Hs as (Hb & Hb0 & Hs). rewrite (load8_ok _ _ _ Hb). simpl.
    destruct (b =? 0) eqn:E; to_prop; [lia|]. rewrite IH by (auto; simpl in Hf; lia).
    f_equal. lia.
Qed.

Lemma copy_until_nul_ok fuel m d src s : cstr m src s -> mapped m d (S (length s)) ->
  (d < src \/ src + Z.of_nat (length s) < d) -> (length s < fuel)%nat ->
  copy_until_nul fuel m d src = Ok (write m d s, d + Z.of_nat (length s)).
Proof.
  unfold copy_until_nul. revert m d src fuel.
  induction s as [|b s IH]; intros m d src fuel Hs Hm Hd Hf;
    (destruct fuel as [|fuel]; [simpl in Hf; lia|]); simpl.
  - destruct (copy_end m d src Hs Hm) as [E1 E2]. rewrite E1. simpl. do 2 f_equal. lia.
  - destruct (copy_step m d src b s Hs Hm Hd) as (E1 & E2 & Hb & Hs' & Hm' & Hd').
    rewrite E1. simpl. apply Z.eqb_neq in Hb. rewrite Hb, E2. simpl.
    rewrite IH by (auto; simpl in Hf; lia). do 2 f_equal. lia.
Qed.

Lemma strcat_ok fuel m d src ds s : d <> 0 -> src <> 0 ->
  cstr m d ds -> cstr m src s -> mapped m (d + Z.of_nat (length ds)) (S (length s)) ->
  (d + Z.of_nat (length ds) < src \/ src + Z.of_nat (length s) < d + Z.of_nat (length ds)) ->
  (length ds < fuel)%nat -> (length s < fuel)%nat ->
  let m' := write m (d + Z.of_nat (length ds)) (s ++ [0]) in
  strcat fuel m d src = Ok (m', d) /\ cstr m' d (ds ++ s).
Proof.
  intros Hd Hsrc Hds Hs Hm Hdis Hf1 Hf2 m'. apply Z.eqb_neq in Hd, Hsrc. split.
  - unfold strcat, NULL. rewrite Hd, Hsrc. simpl. rewrite (scan_nul_ok _ _ _ _ Hds Hf1). simpl.
    rewrite (copy_until_nul_ok _ _ _ _ _ Hs Hm Hdis Hf2). simpl.
    destruct (Hm (d + Z.of_nat (length ds) + Z.of_nat (length s)) ltac:(lia)) as [v Hv].
    assert (write m (d + Z.of_nat (length ds)) s !!
      (d + Z.of_nat (length ds) + Z.of_nat (length s)) = Some v) as Hv'.
    { rewrite write_lookup, decide_False by lia. exact Hv. }
    rewrite (store8_ok _ _ _ _ Hv'). simpl. subst m'. rewrite write_app. reflexivity.
  - destruct Hds as [Hds Hh], Hs as [Hs _]. split; [apply Forall_app; auto|].
    rewrite <- app_assoc. apply holds_app. split; [|apply write_holds].
    apply holds_app in Hh as [Hh _]. apply holds_write; [left; lia|exact Hh].
Qed.

(** ** strncmp *)

Lemma strncmp_ok fuel m p q s t n : cstr m p s -> cstr m q t -> 0 <= n < 2 ^ 64 ->
  (length s < fuel)%nat ->
  strncmp fuel m p q n =
    Ok (Z.sgn (ref_strcmp (take (Z.to_nat n) s) (take (Z.to_nat n) t))).
Proof.
  unfold strncmp. revert p q t n fuel.
  induction s as [|b s IH]; intros p q t n fuel Hs Ht Hn Hf;
    (destruct fuel as [|fuel]; [simpl in Hf; lia|]); simpl;
    (destruct (n =? 0) eqn:En; to_prop;
      [subst n; reflexivity|replace (Z.to_nat n) with (S (Z.to_nat (n - 1))) by lia]).
  - apply cstr_nil in Hs. rewrite (load8_ok _ _ _ Hs). simpl.
    destruct t as [|c t]; [apply cstr_nil in Ht|apply cstr_cons in Ht as (Ht & Hc & _)];
      rewrite (load8_ok _ _ _ Ht); simpl; [reflexivity|].
    destruct c; try lia. reflexivity.
  - apply cstr_cons in Hs as (Hb & Hb0 & Hs). rewrite (load8_ok _ _ _ Hb). simpl.
    destruct t as [|c t]; [apply cstr_nil in Ht|apply cstr_cons in Ht as (Ht & Hc & Ht')];
      rewrite (load8_ok _ _ _ Ht); simpl.
    + destruct (b =? 0) eqn:E; to_prop; [lia|]. simpl. destruct b; try lia. reflexivity.
    + destruct (b =? 0) eqn:E; to_prop; [lia|]. destruct (c =? 0) eqn:E'; to_prop; [lia|].
      destruct (b =? c) eqn:Ebc; to_prop; simpl.
      * rewrite u64_small by lia. apply IH; auto; [lia|]. simpl in Hf. lia.
      * unfold b2z. destruct (c <? b) eqn:E1, (b <? c) eqn:E2; to_prop; try lia;
          f_equal; [symmetry; apply Z.sgn_pos|symmetry; apply Z.sgn_neg]; lia.
Qed.

(** ** strtok *)

(** A character that is no delimiter runs the inner loop to its end. *)
Lemma strtok_inner_miss fuel m p start d ds c : cstr m d ds -> m !! p = Some c ->
  c ∉ ds -> (length ds < fuel)%nat ->
  strtok_inner fuel m p start d = Ok (inl (m, p, start)).
Proof.
  unfold strtok_inner. revert d fuel.
  induction ds as [|x ds IH]; intros d fuel Hd Hp Hc Hf;
    (destruct fuel as [|fuel]; [simpl in Hf; lia|]); simpl.
  - apply cstr_nil in Hd. rewrite (load8_ok _ _ _ Hd). reflexivity.
  - apply cstr_cons in Hd as (Hx & Hx0 & Hd). rewrite (load8_ok _ _ _ Hx). simpl.
    destruct (x =? 0) eqn:E; to_prop; [lia|]. rewrite (load8_ok _ _ _ Hp). simpl.
    apply not_elem_of_cons in Hc as [Hc1 Hc2].
    destruct (c =? x) eqn:E'; to_prop; [congruence|]. apply IH; auto. simpl in Hf. lia.
Qed.

(** A delimiter is overwritten and ends the call. *)
Lemma strtok_inner_hit fuel m p start d ds c : cstr m d ds -> m !! p = Some c ->
  c ∈ ds -> start <= p -> (length ds < fuel)%nat ->
  strtok_inner fuel m p start d = Ok (inr (<[p := 0]> m, p + 1, start)).
Proof.
  unfold strtok_inner. revert d fuel.
  induction ds as [|x ds IH]; intros d fuel Hd Hp Hc Hle Hf;
    (destruct fuel as [|fuel]; [simpl in Hf; lia|]); simpl; [set_solver|].
  apply cstr_cons in Hd as (Hx & Hx0 & Hd). rewrite (load8_ok _ _ _ Hx). simpl.
  destruct (x =? 0) eqn:E; to_prop; [lia|]. rewrite (load8_ok _ _ _ Hp). simpl.
  destruct (c =? x) eqn:E'; to_prop.
  - rewrite (store8_ok _ _ _ _ Hp). simpl.
    destruct (start =? p + 1) eqn:E''; to_prop; [lia|]. reflexivity.
  - apply elem_of_cons in Hc as [->|Hc]; [congruence|]. apply IH; auto. simpl in Hf. lia.
Qed.

(** The outer loop passes the characters of the token. *)
Lemma strtok_outer_skip fuel m p start d ds s1 : cstr m d ds -> (length ds < fuel)%nat ->
  holds m p s1 -> Forall (fun c => c <> 0 /\ c ∉ ds) s1 ->
  forall f, loop (length s1 + f) (fun '(m, p, start) =>
      let* b := load8 m p in
      if b =? 0 then Ok (inr (inl (m, p, start)))
      else
        let* r := strtok_inner fuel m p start d in
        match r with
        | inr ret => Ok (inr (inr ret))
        | inl (m', p', start') => Ok (inl (m', p' + 1, start'))
        end) (m, p, start)
    = loop f (fun '(m, p, start) =>
      let* b := load8 m p in
      if b =? 0 then Ok (inr (inl (m, p, start)))
      else
        let* r := strtok_inner fuel m p start d in
        match r with
        | inr ret => Ok (inr (inr ret))
        | inl (m', p', start') => Ok (inl (m', p' + 1, start'))
        end) (m, p + Z.of_nat (length s1), start).
Proof.
  intros Hd Hf Hh Hn f. revert p Hh. induction Hn as [|c s1 [Hc0 Hc] Hn IH]; intros p Hh.
  - simpl. rewrite Z.add_0_r. reflexivity.
  - apply holds_cons in Hh as [Hp Hh]. simpl. rewrite (load8_ok _ _ _ Hp). simpl.
    destruct (c =? 0) eqn:E; to_prop; [lia|].
    rewrite (strtok_inner_miss _ _ _ _ _ ds c) by auto. simpl. rewrite IH by exact Hh.
    f_equal. f_equal. f_equal. lia.
Qed.

(** The string handed in, or the rest kept in the static pointer. *)
Definition strtok_at (static_p str : Z) : Z := if negb (str =? 0) then str else static_p.

Lemma strtok_unfold fuel m static_p str delim : strtok_at static_p str <> 0 ->
  strtok fuel m static_p str delim =
    (let p := strtok_at static_p str in
     let* r := strtok_outer fuel m p p delim in
     match r with
     | inr ret => Ok ret
     | inl (m', p', start) => if start =? p' then Ok (m', p', NULL) else Ok (m', p', start)
     end).
Proof.
  unfold strtok_at, strtok. intros Hp.
  destruct (str =? 0) eqn:E1, (static_p =? 0) eqn:E2; to_prop; simpl in *; try reflexivity. lia.
Qed.

Section Strtok.
Context (m : mem) (static_p str delim : Z) (ds s1 : list Z).
Let p := strtok_at static_p str.
Hypothesis Hp : p <> 0.
Hypothesis Hd : cstr m delim ds.
Hypothesis Hn : Forall (fun c => c ∉ ds) s1.

(** The token ends at the first delimiter, which becomes its terminator; the
    static pointer moves behind it. *)
Lemma strtok_delim_ok fuel x s2 : cstr m p (s1 ++ x :: s2) -> x ∈ ds ->
  (length ds < fuel)%nat -> (length s1 < fuel)%nat ->
  let e := p + Z.of_nat (length s1) in
  strtok fuel m static_p str delim = Ok (<[e := 0]> m, e + 1, p).
Proof using Hp Hd Hn.
  intros [Hs Hh] Hx Hf1 Hf2 e. rewrite strtok_unfold by exact Hp. simpl.
  apply Forall_app in Hs as [Hs1 Hs2]. rewrite <- app_assoc in Hh. apply holds_app in Hh as [Hh1 Hh2].
  simpl in Hh2. apply holds_cons in Hh2 as [Hx' _].
  unfold strtok_outer. replace fuel with (length s1 + S (fuel - length s1 - 1))%nat at 1 by lia.
  fold p. rewrite (strtok_outer_skip fuel m p p delim ds s1) by
    first [assumption | apply Forall_and; split; [eapply Forall_impl; [exact Hs1|simpl; lia]|exact Hn]].
  simpl. fold e. fold e in Hx'. rewrite (load8_ok _ _ _ Hx'). simpl.
  apply Forall_cons in Hs2 as [Hx0 _]. destruct (x =? 0) eqn:E; to_prop; [lia|].
  rewrite (strtok_inner_hit _ _ _ _ _ ds x) by (auto; lia). reflexivity.
Qed.

(** Without a delimiter the rest of the string is the token, and an exhausted
    string gives NULL. *)
Lemma strtok_last_ok fuel : cstr m p s1 ->
  (length ds < fuel)%nat -> (length s1 < fuel)%nat ->
  strtok fuel m static_p str delim =
    Ok (m, p + Z.of_nat (length s1), if (length s1 =? 0)%nat then NULL else p).
Proof using Hp Hd Hn.
  intros [Hs Hh] Hf1 Hf2. rewrite strtok_unfold by exact Hp. simpl.
  apply holds_app in Hh as [Hh1 Hh2]. apply holds_cons in Hh2 as [Hz _].
  unfold strtok_outer. replace fuel with (length s1 + S (fuel - length s1 - 1))%nat at 1 by lia.
  fold p. rewrite (strtok_outer_skip fuel m p p delim ds s1) by
    first [assumption | apply Forall_and; split; [eapply Forall_impl; [exact Hs|simpl; lia]|exact Hn]].
  simpl. rewrite (load8_ok _ _ _ Hz). simpl.
  destruct (p =? p + Z.of_nat (length s1)) eqn:E; to_prop; destruct s1; simpl in *; try lia; reflexivity.
Qed.
End Strtok.

(** ** atoi *)

Definition dec_from (acc : Z) (ds : list Z) : Z := foldl (fun a c => a * 10 + (c - 48)) acc ds.

#[global] Arguments dec_from : simpl never.

Lemma dec_from_ge acc ds : 0 <= acc -> Forall (fun c => 48 <= c <= 57) ds -> acc <= dec_from acc ds.
Proof.
  intros Ha Hd. revert acc Ha. induction Hd as [|c ds Hc _ IH]; intros acc Ha; [unfold dec_from; simpl; lia|].
  unfold dec_from in *. simpl. specialize (IH (acc * 10 + (c - 48))). lia.
Qed.

Lemma isdigit_dec c : 48 <= c <= 57 -> isdigit c = true.
Proof.
  intros H. rewrite isdigit_byte by (unfold byte; lia). apply andb_true_iff. rewrite !Z.leb_le. lia.
Qed.

Lemma int_ok_in z : - 2 ^ 31 <= z < 2 ^ 31 -> int_ok z = Ok z.
Proof.
  intros H. unfold int_ok. destruct (_ && _) eqn:E; [reflexivity|]. to_prop. destruct E; to_prop; lia.
Qed.

Lemma atoi_digits_ok fuel m p ds x : holds m p (ds ++ [x]) ->
  Forall (fun c => 48 <= c <= 57) ds -> isdigit x = false ->
  dec_from 0 ds < 2 ^ 31 -> (length ds < fuel)%nat ->
  atoi_digits fuel m p = Ok (dec_from 0 ds).
Proof.
  unfold atoi_digits. intros Hh Hd Hx.
  enough (forall acc, 0 <= acc -> dec_from acc ds < 2 ^ 31 -> (length ds < fuel)%nat ->
    loop fuel (fun '(str, result) =>
      let* c := load8 m str in
      if negb (c =? 0) && isdigit c then
        let* t := int_ok (result * 10) in
        let* r := int_ok (t + (c - 48)) in
        Ok (inl (str + 1, r))
      else Ok (inr result)) (p, acc) = Ok (dec_from acc ds)) as E.
  { intros. apply E; auto. lia. }
  intros acc. revert p fuel acc Hh. induction Hd as [|c ds Hc Hd IH]; intros p fuel acc Hh Ha Hlt Hf;
    (destruct fuel as [|fuel]; [simpl in Hf; lia|]); simpl.
  - apply holds_cons in Hh as [Hp _]. rewrite (load8_ok _ _ _ Hp). simpl. rewrite Hx.
    rewrite andb_false_r. reflexivity.
  - apply holds_cons in Hh as [Hp Hh]. rewrite (load8_ok _ _ _ Hp). simpl.
    rewrite isdigit_dec by exact Hc.
    destruct (c =? 0) eqn:E; to_prop; [lia|]. simpl.
    assert (acc * 10 + (c - 48) <= dec_from (acc * 10 + (c - 48)) ds) as Hge.
    { apply dec_from_ge; auto. lia. }
    unfold dec_from in Hlt, Hge. simpl in Hlt. rewrite (int_ok_in (acc * 10)) by lia. simpl.
    rewrite int_ok_in by lia. simpl. rewrite IH; auto; [lia|]. simpl in Hf. lia.
Qed.

Lemma atoi_spaces_ok fuel m p sp x : holds m p (sp ++ [x]) ->
  Forall (fun c => c = 32 \/ c = 9) sp -> x <> 32 -> x <> 9 -> (length sp < fuel)%nat ->
  atoi_spaces fuel m p = Ok (p + Z.of_nat (length sp)).
Proof.
  unfold atoi_spaces. intros Hh Hs Hx1 Hx2. revert p fuel Hh.
  induction Hs as [|c sp Hc Hs IH]; intros p fuel Hh Hf;
    (destruct fuel as [|fuel]; [simpl in Hf; lia|]); simpl;
    apply holds_cons in Hh as [Hp Hh]; rewrite (load8_ok _ _ _ Hp); simpl.
  - destruct (_ && _) eqn:E; to_prop; [|do 2 f_equal; lia].
    destruct H0; to_prop; lia.
  - replace (negb (c =? 0) && ((c =? 32) || (c =? 9))) with true by (destruct Hc as [-> | ->]; reflexivity).
    rewrite IH by (auto; simpl in Hf; lia). f_equal. lia.
Qed.

(** Spaces, an optional minus sign, digits, then something that is no digit. *)
Lemma atoi_ok fuel m p sp (neg : bool) ds x rest :
  holds m p (sp ++ (if neg then [45] else []) ++ ds ++ x :: rest) ->
  Forall (fun c => c = 32 \/ c = 9) sp -> Forall (fun c => 48 <= c <= 57) ds -> ds <> [] ->
  isdigit x = false -> dec_from 0 ds < 2 ^ 31 ->
  (length sp < fuel)%nat -> (length ds < fuel)%nat ->
  atoi fuel m p = Ok (if neg then - dec_from 0 ds else dec_from 0 ds).
Proof.
  intros Hh Hsp Hds Hne Hx Hlt Hf1 Hf2.
  assert (Hz : 0 <= dec_from 0 ds) by (apply dec_from_ge; [lia|exact Hds]).
  destruct ds as [|d0 ds]; [easy|].
  assert (Hd0 : 48 <= d0 <= 57).
  { apply Forall_cons in Hds as [Hd0 _]. exact Hd0. }
  set (y := if neg then 45 else d0).
  assert (Hy : holds m p (sp ++ [y])).
  { apply holds_app in Hh as [H1 H2]. apply holds_app. split; [exact H1|].
    apply holds_cons. split; [|intros i b Hi; easy].
    subst y. destruct neg; simpl in H2; apply holds_cons in H2 as [H2 _]; exact H2. }
  unfold atoi. rewrite (atoi_spaces_ok fuel m p sp y Hy Hsp) by (subst y; destruct neg; lia). simpl.
  apply holds_app in Hy as [_ Hy]. apply holds_cons in Hy as [Hy _].
  rewrite (load8_ok _ _ _ Hy). simpl.
  apply holds_app in Hh as [_ Hh]. subst y.
  replace ((d0 :: ds) ++ x :: rest) with (((d0 :: ds) ++ [x]) ++ rest) in Hh
    by (rewrite <- app_assoc; reflexivity).
  destruct neg; simpl negb; simpl in Hh.
  - apply holds_cons in Hh as [_ Hh]. apply (holds_app _ _ (d0 :: ds ++ [x])) in Hh as [Hh _].
    simpl. rewrite (atoi_digits_ok fuel m _ (d0 :: ds) x) by auto. cbn [bind].
    rewrite int_ok_in by lia. f_equal. lia.
  - apply (holds_app _ _ (d0 :: ds ++ [x])) in Hh as [Hh _].
    destruct (d0 =? 45) eqn:E; to_prop; [lia|]. rewrite andb_false_r.
    rewrite (atoi_digits_ok fuel m _ (d0 :: ds) x) by auto. cbn [bind].
    rewrite int_ok_in by lia. f_equal. lia.
Qed.

(** * The properties *)

(** An example image: ["hello, world"] at 1000 and ["hello, Wor"] at 2001, in
    two mapped regions. *)
Definition ex_a : list Z := [104; 101; 108; 108; 111; 44; 32; 119; 111; 114; 108; 100].
Definition ex_b : list Z := [104; 101; 108; 108; 111; 44; 32; 87; 111; 114].
Definition ex_mem : mem :=
  write (write ∅ 1000 (ex_a ++ 0 :: replicate 19 7)) 2000 (5 :: ex_b ++ 0 :: replicate 12 9).

Lemma words_mapped_check m p n :
  mapped_b m (p / 8 * 8) (Z.to_nat (((p + Z.of_nat n) / 8 + 1) * 8 - p / 8 * 8)) = true ->
  words_mapped m p n.
Proof. intros H%mapped_check a Ha. apply H. lia. Qed.

Ltac img := first [apply words_mapped_check; vm_compute; reflexivity | mem_check].

(** On any well-formed memory, [strlen] returns the length of the string
    however the string sits relative to the eight-byte words the routine reads:
    the masked first word, the word loop and the trailing-zero count are exact,
    and the routine neither faults nor runs on. *)
Theorem strlen_correct (m : mem) (s : Z) (l : list Z) (fuel : nat) :
  mem_wf m -> cstr m s l -> words_mapped m s (length l) -> s <> 0 -> (length l < fuel)%nat ->
  strlen fuel m s = Ok (Z.of_nat (length l)).
Proof. intros. apply wp_eq. apply strlen_ok; assumption. Qed.

Lemma strlen_correct_witness : strlen 100 ex_mem 2001 = Ok 10.
Proof.
  apply (strlen_correct ex_mem 2001 ex_b 100); [img|img|img|lia|vm_compute; lia].
Defined.

(** [strcmp], which compares eight bytes at a time once both pointers are
    aligned, returns exactly the difference of the first pair of characters that
    differ (the terminator counting as 0), for all strings and alignments. *)
Theorem strcmp_correct (m : mem) (cs ct : Z) (s t : list Z) (fuel : nat) :
  mem_wf m -> cstr m cs s -> cstr m ct t ->
  words_mapped m cs (length s) -> words_mapped m ct (length t) -> (length s < fuel)%nat ->
  strcmp fuel m cs ct = Ok (ref_strcmp s t).
Proof. intros. apply wp_eq. apply strcmp_ok; assumption. Qed.

Lemma strcmp_correct_witness : strcmp 100 ex_mem 1000 2001 = Ok 32.
Proof.
  apply (strcmp_correct ex_mem 1000 2001 ex_a ex_b 100); [img|img|img|img|img|vm_compute; lia].
Defined.

(** [strchr], whose word test is the carry-propagation filter with magic
    constants, returns the address of the first occurrence of the character (the
    terminator included) and NULL when there is none; false positives of the
    filter are resolved by the byte checks. *)
Theorem strchr_correct (m : mem) (p : Z) (s : list Z) (c : Z) (fuel : nat) :
  mem_wf m -> byte c -> cstr m p s -> words_mapped m p (length s) -> (length s < fuel)%nat ->
  strchr fuel m p c = Ok (ref_strchr p s c).
Proof. intros. apply wp_eq. apply strchr_ok; assumption. Qed.

Lemma strchr_correct_witness : strchr 100 ex_mem 1000 119 = Ok 1007.
Proof.
  apply (strchr_correct ex_mem 1000 ex_a 119 100); [img|unfold byte; lia|img|img|vm_compute; lia].
Defined.

(** [strcat] leaves the concatenation at [dest], NUL-terminated, changes no
    other byte, and returns [dest], when the room behind the destination string
    is mapped and does not overlap the source from below. *)
Theorem strcat_correct (m : mem) (d src : Z) (ds s : list Z) (fuel : nat) :
  d <> 0 -> src <> 0 -> cstr m d ds -> cstr m src s ->
  mapped m (d + Z.of_nat (length ds)) (S (length s)) ->
  (d + Z.of_nat (length ds) < src \/ src + Z.of_nat (length s) < d + Z.of_nat (length ds)) ->
  (length ds < fuel)%nat -> (length s < fuel)%nat ->
  exists m', strcat fuel m d src = Ok (m', d) /\ cstr m' d (ds ++ s) /\
    forall a, a < d + Z.of_nat (length ds) \/ d + Z.of_nat (length (ds ++ s)) < a -> m' !! a = m !! a.
Proof.
  intros H1 H2 H3 H4 H5 H6 H7 H8.
  destruct (strcat_ok fuel m d src ds s H1 H2 H3 H4 H5 H6 H7 H8) as [E C].
  eexists. split; [exact E|]. split; [exact C|]. intros a Ha. rewrite length_app in Ha.
  rewrite write_lookup, decide_False; [reflexivity|]. rewrite length_app. simpl. lia.
Qed.

Lemma strcat_correct_witness : exists m', strcat 100 ex_mem 1000 2001 = Ok (m', 1000) /\
  cstr m' 1000 (ex_a ++ ex_b) /\ forall a, a < 1012 \/ 1022 < a -> m' !! a = ex_mem !! a.
Proof.
  apply (strcat_correct ex_mem 1000 2001 ex_a ex_b 100);
    [lia|lia|img|img|img|vm_compute; auto|vm_compute; lia|vm_compute; lia].
Defined.

(** the sign of the comparison of the first [n] characters is what
    [strncmp] returns. *)
Theorem strncmp_correct (m : mem) (p q : Z) (s t : list Z) (n : Z) (fuel : nat) :
  cstr m p s -> cstr m q t -> 0 <= n < 2 ^ 64 -> (length s < fuel)%nat ->
  strncmp fuel m p q n = Ok (Z.sgn (ref_strcmp (take (Z.to_nat n) s) (take (Z.to_nat n) t))).
Proof. intros. apply strncmp_ok; assumption. Qed.

Lemma strncmp_correct_witness :
  strncmp 100 ex_mem 1000 2001 7 = Ok 0 /\ strncmp 100 ex_mem 1000 2001 8 = Ok 1.
Proof.
  split; [apply (strncmp_correct ex_mem 1000 2001 ex_a ex_b 7 100)
         |apply (strncmp_correct ex_mem 1000 2001 ex_a ex_b 8 100)]; try img; first [lia|vm_compute; lia].
Defined.

(** [strncpy] copies the first [n] bytes of the string with its terminator
    and nothing behind the terminator: unlike the C library function it does not
    fill the rest of the [n] bytes with zeros. *)
Theorem strncpy_no_padding (m : mem) (d src : Z) (s : list Z) (n : Z) (fuel : nat) :
  cstr m src s -> 0 <= n < 2 ^ 64 -> mapped m d (S (length s)) ->
  (d < src \/ src + Z.of_nat (length s) < d) -> (length s < fuel)%nat ->
  strncpy fuel m d src n = Ok (write m d (take (Z.to_nat n) (s ++ [0])), d) /\
  (forall a, d + Z.of_nat (length s) < a -> write m d (take (Z.to_nat n) (s ++ [0])) !! a = m !! a).
Proof.
  intros H1 H2 H3 H4 H5. split; [apply strncpy_ok; assumption|]. intros a Ha.
  rewrite write_lookup, decide_False; [reflexivity|]. rewrite length_take, length_app. simpl. lia.
Qed.

Lemma strncpy_no_padding_witness :
  strncpy 100 ex_mem 1000 2001 14 = Ok (write ex_mem 1000 (ex_b ++ [0]), 1000) /\
  (forall a, 1010 < a -> write ex_mem 1000 (ex_b ++ [0]) !! a = ex_mem !! a).
Proof.
  apply (strncpy_no_padding ex_mem 1000 2001 ex_b 14 100); [img|lia|img|vm_compute; auto|vm_compute; lia].
Defined.

(** one call of [strtok] on a string whose first delimiter follows [s1]
    returns the start of [s1] (the empty string included), puts a terminator in
    the delimiter's place and leaves the static pointer behind it, so that the
    next call scans the rest. *)
Theorem strtok_token (m : mem) (static_p str delim : Z) (ds s1 s2 : list Z) (x : Z) (fuel : nat) :
  let p := strtok_at static_p str in
  let e := p + Z.of_nat (length s1) in
  p <> 0 -> cstr m delim ds -> Forall (fun c => c ∉ ds) s1 -> cstr m p (s1 ++ x :: s2) -> x ∈ ds ->
  (delim + Z.of_nat (length ds) < p \/ p + Z.of_nat (length (s1 ++ x :: s2)) < delim) ->
  (length ds < fuel)%nat -> (length s1 < fuel)%nat ->
  exists m', strtok fuel m static_p str delim = Ok (m', e + 1, p) /\
    cstr m' p s1 /\ cstr m' (e + 1) s2 /\ cstr m' delim ds.
Proof.
  intros p e Hp Hd Hn Hs Hx Hdis Hf1 Hf2. rewrite length_app in Hdis. simpl in Hdis. eexists. split.
  { apply (strtok_delim_ok m static_p str delim ds s1 Hp Hd Hn fuel x s2); assumption. }
  destruct Hs as [Hs Hh]. apply Forall_app in Hs as [Hs1 Hs2]. apply Forall_cons in Hs2 as [_ Hs2].
  rewrite <- app_assoc in Hh. apply holds_app in Hh as [Hh1 Hh2]. apply holds_cons in Hh2 as [_ Hh2].
  fold p. fold e. split_and!.
  - split; [exact Hs1|]. apply holds_app. split.
    + intros i b Hi. rewrite lookup_insert_ne; [apply Hh1, Hi|]. apply lookup_lt_Some in Hi. lia.
    + apply holds_cons. split; [apply lookup_insert_eq|]. intros i b Hi. easy.
  - split; [exact Hs2|]. intros i b Hi. rewrite lookup_insert_ne by lia. apply Hh2, Hi.
  - destruct Hd as [Hd1 Hd2]. split; [exact Hd1|]. intros i b Hi.
    rewrite lookup_insert_ne; [apply Hd2, Hi|]. apply lookup_lt_Some in Hi. rewrite length_app in Hi.
    simpl in Hi. lia.
Qed.

Definition ex_tok : mem := write ex_mem 3000 [44; 59; 0].

Lemma strtok_token_witness : exists m', strtok 100 ex_tok 0 1000 3000 = Ok (m', 1006, 1000) /\
  cstr m' 1000 [104; 101; 108; 108; 111] /\ cstr m' 1006 [32; 119; 111; 114; 108; 100] /\
  cstr m' 3000 [44; 59].
Proof.
  apply (strtok_token ex_tok 0 1000 3000 [44; 59] [104; 101; 108; 108; 111]
           [32; 119; 111; 114; 108; 100] 44 100).
  - discriminate.
  - img.
  - apply (bool_decide_unpack _). vm_compute. exact I.
  - img.
  - apply (bool_decide_unpack _). vm_compute. exact I.
  - right. vm_compute. reflexivity.
  - vm_compute. lia.
  - vm_compute. lia.
Defined.

(** [atoi] on blanks, an optional minus sign and digits followed by any
    character that is no digit returns the signed decimal value, as long as the
    magnitude fits in an [int]. *)
Theorem atoi_correct (m : mem) (p : Z) (sp ds : list Z) (neg : bool) (x : Z) (rest : list Z) (fuel : nat) :
  holds m p (sp ++ (if neg then [45] else []) ++ ds ++ x :: rest) ->
  Forall (fun c => c = 32 \/ c = 9) sp -> Forall (fun c => 48 <= c <= 57) ds -> ds <> [] ->
  isdigit x = false -> dec_from 0 ds < 2 ^ 31 ->
  (length sp < fuel)%nat -> (length ds < fuel)%nat ->
  atoi fuel m p = Ok (if neg then - dec_from 0 ds else dec_from 0 ds).
Proof. intros. eapply atoi_ok; eassumption. Qed.

Lemma atoi_correct_witness :
  atoi 100 (write ∅ 1000 [32; 9; 45; 52; 50; 120; 0]) 1000 = Ok (-42).
Proof.
  apply (atoi_correct (write ∅ 1000 [32; 9; 45; 52; 50; 120; 0]) 1000 [32; 9] [52; 50] true 120 [] 100);
    [img|apply (bool_decide_unpack _); vm_compute; exact I|repeat constructor; lia|discriminate|reflexivity|vm_compute; reflexivity
    |vm_compute; lia|vm_compute; lia].
Defined.

(** the least [int] is not parsed: on ["-2147483648"] the accumulation of the
    magnitude overflows [int] before the sign is applied. *)
Theorem atoi_int_min_overflows : forall fuel, (11 <= fuel)%nat ->
  atoi fuel (write ∅ 1000 [45; 50; 49; 52; 55; 52; 56; 51; 54; 52; 56; 0]) 1000 = Fault.
Proof.
  intros fuel Hf. do 11 (destruct fuel as [|fuel]; [exfalso; lia|]).
  vm_compute. reflexivity.
Qed.

Lemma atoi_int_min_overflows_witness :
  atoi 20 (write ∅ 1000 [45; 50; 49; 52; 55; 52; 56; 51; 54; 52; 56; 0]) 1000 = Fault.
Proof. apply atoi_int_min_overflows. lia. Defined.
