(* ===== verification/LibStr.v ===== *)
(** The user-space string routines, [src/lib/stdc/str.c].  [strcat], [strcmp],
    [strtok], [strncmp] and [strlen] have the same text as the kernel's; [strchr],
    [strcpy], [strncpy] and [atoi] differ and are modelled here. *)
From stdpp Require Import base gmap list fin_maps.
From Stdlib Require Import ZArith Lia.
From S2P Require Import Prelude Words Ctype KStr.

Open Scope Z_scope.
Open Scope c_scope.

(** * The code *)

Definition strcat := KStr.strcat.
Definition strcmp := KStr.strcmp.
Definition strtok := KStr.strtok.
Definition strncmp := KStr.strncmp.
Definition strlen := KStr.strlen.

(** The value of a plain [char] holding byte [b]: negative from 128 on where
    [char] is signed (x86-64), the byte where it is unsigned. *)
Definition char_value (char_signed : bool) (b : Z) : Z :=
  if char_signed && (128 <=? b) then b - 256 else b.

Definition strchr (char_signed : bool) (fuel : nat) (m : mem) (s c_in : Z) : res Z :=
  let c := u8 c_in in
  loop fuel (fun s =>
    let* b := load8 m s in
    if char_value char_signed b =? c then Ok (inr s)
    else if char_value char_signed b =? 0 then Ok (inr NULL)
    else Ok (inl (s + 1))) s.

Definition strcpy (fuel : nat) (m : mem) (strDest strSrc : Z) : res (mem * Z) :=
  if (strDest =? NULL) || (strSrc =? NULL) then Ok (m, strDest)
  else
    let* m' := loop fuel (fun '(m, d, s) =>
      let* b := load8 m s in
      let* m' := store8 m d b in
      if b =? 0 then Ok (inr m') else Ok (inl (m', d + 1, s + 1))) (m, strDest, strSrc) in
    Ok (m', strDest).

(** [while (n > 0 && ( *dest++ = *src++) != '\0') n--;] *)
Definition strncpy_copy (fuel : nat) (m : mem) (dest src n : Z) : res (mem * Z * Z) :=
  loop fuel (fun '(m, d, s, n) =>
    if 0 <? n then
      let* b := load8 m s in
      let* m' := store8 m d b in
      if negb (b =? 0) then Ok (inl (m', d + 1, s + 1, n - 1))
      else Ok (inr (m', d + 1, n))
    else Ok (inr (m, d, n))) (m, dest, src, n).

(** [while (n-- > 0) *dest++ = '\0';] *)
Definition strncpy_pad (fuel : nat) (m : mem) (dest n : Z) : res mem :=
  loop fuel (fun '(m, d, n) =>
    if 0 <? n then
      let* m' := store8 m d 0 in
      Ok (inl (m', d + 1, n - 1))
    else Ok (inr m)) (m, dest, n).

Definition strncpy (fuel : nat) (m : mem) (dest src n : Z) : res (mem * Z) :=
  let* (m, d, n) := strncpy_copy fuel m dest src n in
  let* m' := strncpy_pad fuel m d n in
  Ok (m', dest).

(** The digits, with the early return on saturation: the value, or the result. *)
Definition atoi_digits (fuel : nat) (m : mem) (str : Z) (neg : bool) : res (Z + Z) :=
  loop fuel (fun '(str, result) =>
    let* c := load8 m str in
    if negb (c =? 0) && isdigit c then
      let result := result * 10 + (c - 48) in
      if 2147483647 <? result then
        Ok (inr (inr (if neg then -2147483647 - 1 else 2147483647)))
      else Ok (inl (str + 1, result))
    else Ok (inr (inl result))) (str, 0).

Definition atoi (fuel : nat) (m : mem) (str : Z) : res Z :=
  let* str := atoi_spaces fuel m str in
  let* c := load8 m str in
  let neg := negb (c =? 0) && (c =? 45) in
  let plus := negb neg && (negb (c =? 0) && (c =? 43)) in
  let* r := atoi_digits fuel m (if neg || plus then str + 1 else str) neg in
  match r with
  | inr v => Ok v
  | inl result => Ok (i32 (result * (if neg then -1 else 1)))
  end.

(** * Proofs *)

(** ** strchr *)

Lemma strchr_scan_ok sgnd fuel m p s c : cstr m p s -> byte c -> (length s < fuel)%nat ->
  strchr sgnd fuel m p c = Ok (if sgnd && (128 <=? c) then NULL else ref_strchr p s c).
Proof.
  unfold strchr. intros Hs Hc. rewrite u8_small by exact Hc. unfold byte in Hc. revert p fuel Hs.
  induction s as [|b s IH]; intros p fuel Hs Hf; (destruct fuel as [|fuel]; [simpl in Hf; lia|]); simpl.
  - apply cstr_nil in Hs. rewrite (load8_ok _ _ _ Hs). simpl. unfold char_value. simpl.
    rewrite andb_false_r. destruct (0 =? c) eqn:E; to_prop.
    + subst c. simpl. rewrite andb_false_r. reflexivity.
    + replace (c =? 0) with false by (symmetry; apply Z.eqb_neq; lia). destruct (_ && _); reflexivity.
  - apply cstr_cons in Hs as (Hb & Hb0 & Hs). rewrite (load8_ok _ _ _ Hb). cbn [bind].
    specialize (IH (p + 1) fuel Hs). unfold char_value at 1 2.
    destruct sgnd; simpl in *.
    + destruct (128 <=? b) eqn:E1, (128 <=? c) eqn:E2; to_prop.
      * replace (b - 256 =? c) with false by (symmetry; apply Z.eqb_neq; lia).
        replace (b - 256 =? 0) with false by (symmetry; apply Z.eqb_neq; lia). apply IH. lia.
      * replace (b - 256 =? c) with false by (symmetry; apply Z.eqb_neq; lia).
        replace (b - 256 =? 0) with false by (symmetry; apply Z.eqb_neq; lia).
        replace (b =? c) with false by (symmetry; apply Z.eqb_neq; lia). apply IH. lia.
      * replace (b =? c) with false by (symmetry; apply Z.eqb_neq; lia).
        replace (b =? 0) with false by (symmetry; apply Z.eqb_neq; lia). apply IH. lia.
      * replace (b =? 0) with false by (symmetry; apply Z.eqb_neq; lia).
        destruct (b =? c); [reflexivity|]. apply IH. lia.
    + replace (b =? 0) with false by (symmetry; apply Z.eqb_neq; lia).
      destruct (b =? c); [reflexivity|]. apply IH. lia.
Qed.

(** ** strncpy *)

Lemma strncpy_copy_ok fuel m d src s n : cstr m src s -> 0 <= n -> mapped m d (S (length s)) ->
  (d < src \/ src + Z.of_nat (length s) < d) -> (length s < fuel)%nat ->
  strncpy_copy fuel m d src n =
    Ok (write m d (take (Z.to_nat n) (s ++ [0])),
        d + Z.of_nat (length (take (Z.to_nat n) (s ++ [0]))),
        n - Z.of_nat (length (take (Z.to_nat n) s))).
Proof.
  unfold strncpy_copy. revert m d src n fuel. induction s as [|b s IH]; intros m d src n fuel Hs Hn Hm Hd Hf;
    (destruct fuel as [|fuel]; [simpl in Hf; lia|]); simpl;
    (destruct (0 <? n) eqn:E; to_prop;
      [|replace (Z.to_nat n) with 0%nat by lia; simpl; repeat f_equal; lia]);
    replace (Z.to_nat n) with (S (Z.to_nat (n - 1))) by lia.
  - destruct (copy_end m d src Hs Hm) as [E1 E2]. rewrite E1. cbn [bind]. rewrite E2. simpl.
    rewrite take_nil. simpl. repeat f_equal; lia.
  - destruct (copy_step m d src b s Hs Hm Hd) as (E1 & E2 & Hb & Hs' & Hm' & Hd').
    rewrite E1. cbn [bind]. rewrite E2. cbn [bind]. apply Z.eqb_neq in Hb. rewrite Hb. simpl.
    rewrite IH; [|exact Hs'|lia|exact Hm'|exact Hd'|simpl in Hf; lia]. simpl. f_equal; f_equal; [f_equal|]; lia.
Qed.

Lemma strncpy_pad_ok fuel m d (k : nat) : mapped m d k -> (k < fuel)%nat ->
  strncpy_pad fuel m d (Z.of_nat k) = Ok (write m d (replicate k 0)).
Proof.
  unfold strncpy_pad. revert m d fuel. induction k as [|k IH]; intros m d fuel Hm Hf;
    (destruct fuel as [|fuel]; [lia|]).
  - reflexivity.
  - simpl loop. destruct (Hm d ltac:(lia)) as [v Hv].
    rewrite (store8_ok _ _ _ _ Hv). cbn [bind].
    replace (Z.of_nat (S k) - 1) with (Z.of_nat k) by lia. rewrite IH; [reflexivity| |lia].
    apply mapped_insert. eapply mapped_le; [exact Hm|lia|lia].
Qed.

(** ** atoi *)

Lemma atoi_digits_sat fuel m p ds x neg : holds m p (ds ++ [x]) ->
  Forall (fun c => 48 <= c <= 57) ds -> isdigit x = false -> (length ds < fuel)%nat ->
  atoi_digits fuel m p neg =
    Ok (if 2147483647 <? dec_from 0 ds then inr (if neg then - 2 ^ 31 else 2 ^ 31 - 1) else inl (dec_from 0 ds)).
Proof.
  unfold atoi_digits. intros Hh Hd Hx.
  enough (forall acc, 0 <= acc <= 2147483647 -> (length ds < fuel)%nat ->
    loop fuel (fun '(str, result) =>
    let* c := load8 m str in
    if negb (c =? 0) && isdigit c then
      let result := result * 10 + (c - 48) in
      if 2147483647 <? result then
        Ok (inr (inr (if neg then -2147483647 - 1 else 2147483647)))
      else Ok (inl (str + 1, result))
    else Ok (inr (inl result))) (p, acc) =
    Ok (if 2147483647 <? dec_from acc ds then inr (if neg then - 2 ^ 31 else 2 ^ 31 - 1) else inl (dec_from acc ds))) as E.
  { intros. apply E; auto. lia. }
  intros acc. revert p fuel acc Hh. induction Hd as [|c ds Hc Hd IH]; intros p fuel acc Hh Ha Hf;
    (destruct fuel as [|fuel]; [simpl in Hf; lia|]); simpl.
  - apply holds_cons in Hh as [Hp _]. rewrite (load8_ok _ _ _ Hp). cbn [bind]. rewrite Hx, andb_false_r.
    unfold dec_from. simpl. destruct (_ <? acc) eqn:E; to_prop; [lia|reflexivity].
  - apply holds_cons in Hh as [Hp Hh]. rewrite (load8_ok _ _ _ Hp). cbn [bind].
    rewrite isdigit_dec by exact Hc. replace (c =? 0) with false by (symmetry; apply Z.eqb_neq; lia).
    simpl negb. cbn match. unfold dec_from. simpl foldl. fold (dec_from (acc * 10 + (c - 48)) ds).
    pose proof (dec_from_ge (acc * 10 + (c - 48)) ds ltac:(lia) Hd) as Hge.
    destruct (2147483647 <? acc * 10 + (c - 48)) eqn:E; to_prop.
    + replace (2147483647 <? dec_from (acc * 10 + (c - 48)) ds) with true by (symmetry; apply Z.ltb_lt; lia).
      destruct neg; reflexivity.
    + apply IH; [exact Hh|lia|simpl in Hf; lia].
Qed.

(** * The properties *)

(** [strchr] finds the first occurrence of an ASCII character; for a character
    from 128 on it does so only where [char] is unsigned, and where [char] is
    signed (x86-64) it returns NULL even when the character occurs, because the
    signed [*s] is compared with an [unsigned char]. *)
Theorem strchr_signed_char (char_signed : bool) (m : mem) (p : Z) (s : list Z) (c : Z) (fuel : nat) :
  cstr m p s -> byte c -> (length s < fuel)%nat ->
  strchr char_signed fuel m p c =
    Ok (if char_signed && (128 <=? c) then NULL else ref_strchr p s c).
Proof. intros. apply strchr_scan_ok; assumption. Qed.

Lemma strchr_signed_char_witness :
  strchr true 100 (write ∅ 1000 [97; 233; 98; 0]) 1000 98 = Ok 1002 /\
  strchr true 100 (write ∅ 1000 [97; 233; 98; 0]) 1000 233 = Ok NULL /\
  strchr false 100 (write ∅ 1000 [97; 233; 98; 0]) 1000 233 = Ok 1001.
Proof.
  split_and!; [apply (strchr_signed_char true (write ∅ 1000 [97; 233; 98; 0]) 1000 [97; 233; 98] 98 100)
              |apply (strchr_signed_char true (write ∅ 1000 [97; 233; 98; 0]) 1000 [97; 233; 98] 233 100)
              |apply (strchr_signed_char false (write ∅ 1000 [97; 233; 98; 0]) 1000 [97; 233; 98] 233 100)];
    first [mem_check|unfold byte; lia|simpl; lia].
Defined.

(** [strncpy] of a string shorter than [n] writes [n + 1] bytes, one past the
    bound its caller gave: the terminator is copied without being counted and the
    padding then fills [n] minus the string length more. *)
Theorem strncpy_writes_one_more (m : mem) (d src : Z) (s : list Z) (n : nat) (fuel : nat) :
  cstr m src s -> (length s < n)%nat -> mapped m d (S n) ->
  (d < src \/ src + Z.of_nat (length s) < d) -> (n < fuel)%nat ->
  strncpy fuel m d src (Z.of_nat n) = Ok (write m d (s ++ replicate (S n - length s) 0), d) /\
  length (s ++ replicate (S n - length s) 0) = S n.
Proof.
  intros Hs Hn Hm Hd Hf. split; [|rewrite length_app, length_replicate; lia]. unfold strncpy.
  rewrite (strncpy_copy_ok fuel m d src s); [|exact Hs|lia|eapply mapped_le; [exact Hm|lia|lia]|exact Hd|lia].
  rewrite Nat2Z.id, !take_ge by (rewrite ?length_app; simpl; lia). cbn [bind].
  replace (Z.of_nat n - Z.of_nat (length s)) with (Z.of_nat (n - length s)) by lia.
  rewrite strncpy_pad_ok; [|intros x Hx|lia].
  - cbn [bind]. rewrite <- write_app, <- app_assoc. do 4 f_equal.
    replace (S n - length s)%nat with (S (n - length s)) by lia. reflexivity.
  - rewrite write_lookup. case_decide; [apply lookup_lt_is_Some; rewrite length_app in *; simpl in *; lia|].
    apply Hm. rewrite length_app in Hx. simpl in Hx. lia.
Qed.

Lemma strncpy_writes_one_more_witness :
  strncpy 100 ex_mem 1000 2001 14 = Ok (write ex_mem 1000 (ex_b ++ replicate 5 0), 1000) /\
  length (ex_b ++ replicate 5 0) = 15%nat.
Proof.
  apply (strncpy_writes_one_more ex_mem 1000 2001 ex_b 14 100);
    first [mem_check|simpl; lia|left; lia].
Defined.

(** [atoi] reads blanks, an optional sign and digits, and returns the value
    clamped to the range of [int]: it saturates instead of overflowing. *)
Theorem atoi_saturates (m : mem) (p : Z) (sp ds : list Z) (sign : list Z) (x : Z) (fuel : nat) :
  holds m p (sp ++ sign ++ ds ++ [x]) ->
  sign = [] \/ sign = [43] \/ sign = [45] ->
  Forall (fun c => c = 32 \/ c = 9) sp -> Forall (fun c => 48 <= c <= 57) ds -> ds <> [] ->
  isdigit x = false -> (length sp < fuel)%nat -> (length ds < fuel)%nat ->
  let v := if bool_decide (sign = [45]) then - dec_from 0 ds else dec_from 0 ds in
  atoi fuel m p = Ok (Z.max (- 2 ^ 31) (Z.min (2 ^ 31 - 1) v)).
Proof.
  intros Hh Hsg Hsp Hds Hne Hx Hf1 Hf2.
  destruct ds as [|d0 ds]; [easy|].
  assert (Hd0 : 48 <= d0 <= 57) by (apply Forall_cons in Hds; tauto).
  set (all := d0 :: ds) in *.
  assert (Hy : exists y rest, sign ++ all ++ [x] = y :: rest /\ y <> 32 /\ y <> 9 /\ y <> 0 /\
    (y =? 45) = bool_decide (sign = [45]) /\ (y =? 43) = bool_decide (sign = [43])).
  { subst all. destruct Hsg as [-> | [-> | ->]]; simpl; eexists _, _; (split; [reflexivity|]); split_and!; try lia;
      try reflexivity; apply Z.eqb_neq; lia. }
  destruct Hy as (y & rest & Ey & Hy1 & Hy2 & Hy0 & Hy3 & Hy4). pose proof Hh as Hh2. rewrite Ey in Hh2.
  apply holds_app in Hh2 as [Hsp1 Hy']. apply holds_cons in Hy' as [Hy' _].
  unfold atoi. rewrite (atoi_spaces_ok fuel m p sp y); [|apply holds_app; split; [exact Hsp1|]|auto..].
  2:{ apply holds_cons. split; [exact Hy'|]. intros i b Hi. easy. }
  cbn [bind]. rewrite (load8_ok _ _ _ Hy'). cbn [bind]. rewrite Hy3, Hy4.
  replace (y =? 0) with false by (symmetry; apply Z.eqb_neq; exact Hy0). simpl negb. rewrite !andb_true_l.
  apply holds_app in Hh as [_ Hh].
  assert (Hdg : holds m (if bool_decide (sign = [45]) || negb (bool_decide (sign = [45])) && bool_decide (sign = [43])
                   then p + Z.of_nat (length sp) + 1 else p + Z.of_nat (length sp)) (all ++ [x])).
  { destruct Hsg as [-> | [-> | ->]]; simpl; [exact Hh| |]; apply (holds_cons m _ _ (all ++ [x])) in Hh as [_ Hh]; exact Hh. }
  rewrite (atoi_digits_sat fuel m _ all x) by assumption. cbn [bind].
  pose proof (dec_from_ge 0 all ltac:(lia) Hds) as Hge.
  change (2 ^ 31) with 2147483648. unfold i32, sgn. change (2 ^ (32 - 1)) with 2147483648.
  change (2 ^ 32) with 4294967296.
  destruct (2147483647 <? dec_from 0 all) eqn:E; to_prop; destruct (bool_decide (sign = [45])); f_equal;
    rewrite ?Z.mod_small; lia.
Qed.

Lemma atoi_saturates_witness :
  atoi 100 (write ∅ 1000 [32; 45; 57; 57; 57; 57; 57; 57; 57; 57; 57; 57; 0]) 1000 = Ok (-2147483648) /\
  atoi 100 (write ∅ 1000 [43; 52; 50; 0]) 1000 = Ok 42.
Proof.
  pose proof (atoi_saturates (write ∅ 1000 [32; 45; 57; 57; 57; 57; 57; 57; 57; 57; 57; 57; 0]) 1000
    [32] (replicate 10 57) [45] 0 100) as H1.
  pose proof (atoi_saturates (write ∅ 1000 [43; 52; 50; 0]) 1000 [] [52; 50] [43] 0 100) as H2.
  split; [apply H1|apply H2]; try mem_check; try (simpl; lia); try reflexivity; try discriminate; auto;
    try (apply (bool_decide_unpack _); vm_compute; exact I); repeat constructor; lia.
Defined.
