(* ===== verification/Memory.v ===== *)
(** The portable memory routines of the user-space libc,
    [src/lib/stdc/memory.c]: [memset_fscpuf], [memcpy_fscpuf],
    [memmove_fscpuf], [memcmp_fscpuf] and [bzero], in the two shapes the
    preprocessor selects ([__x86_64__] with string instructions, and the other
    targets with word loops). *)
From stdpp Require Import base gmap list fin_maps.
From Stdlib Require Import ZArith Lia.
From S2P Require Import Prelude Words.

Open Scope Z_scope.
Open Scope c_scope.

(** * Machine accesses *)

Fixpoint store_bytes (m : mem) (a : Z) (l : list Z) : res mem :=
  match l with
  | [] => Ok m
  | b :: l' => let* m' := store8 m a b in store_bytes m' (a + 1) l'
  end.

(** [*(unaligned_uint64_t * )a = v] *)
Definition store64 (m : mem) (a v : Z) : res mem := store_bytes m a (bytes_le 8 v).

(** The string instructions: [rcx] bytes, addresses ascending. *)
Fixpoint rep_stosb (m : mem) (rdi al : Z) (rcx : nat) : res mem :=
  match rcx with
  | O => Ok m
  | S k => let* m' := store8 m rdi al in rep_stosb m' (rdi + 1) al k
  end.

Fixpoint rep_movsb (m : mem) (rdi rsi : Z) (rcx : nat) : res mem :=
  match rcx with
  | O => Ok m
  | S k =>
      let* b := load8 m rsi in
      let* m' := store8 m rdi b in
      rep_movsb m' (rdi + 1) (rsi + 1) k
  end.

(** The target the file is compiled for. *)
Inductive arch : Type := X86_64 | Generic.

(** * The code *)

(** ** Filling *)

(** [while (n--) *d++ = c;] *)
Definition fill_bytes (fuel : nat) (m : mem) (d c n : Z) : res mem :=
  loop fuel (fun '(m, d, n) =>
    if n =? 0 then Ok (inr m)
    else
      let* m' := store8 m d c in
      Ok (inl (m', d + 1, n - 1))) (m, d, n).

(** [for (i = 0; i < head; i++) d[i] = c;] *)
Definition fill_head (fuel : nat) (m : mem) (d c head : Z) : res mem :=
  loop fuel (fun '(m, i) =>
    if i <? head then
      let* m' := store8 m (d + i) c in
      Ok (inl (m', i + 1))
    else Ok (inr m)) (m, 0).

(** [k] consecutive words: the unrolled body has [k = 8]. *)
Fixpoint fill_words (m : mem) (d v : Z) (k : nat) : res mem :=
  match k with
  | O => Ok m
  | S k' => let* m' := store64 m d v in fill_words m' (d + 8) v k'
  end.

(** [while (n >= step) { ... d += step; n -= step; }] with [step = 8 * k]. *)
Definition fill_loop (fuel : nat) (k : nat) (m : mem) (d v n : Z) : res (mem * Z * Z) :=
  let step := 8 * Z.of_nat k in
  loop fuel (fun '(m, d, n) =>
    if step <=? n then
      let* m' := fill_words m d v k in
      Ok (inl (m', d + step, n - step))
    else Ok (inr (m, d, n))) (m, d, n).

(** The word path and the closing byte loop: [c] is the byte, [v] the word. *)
Definition fill_aligned (fuel : nat) (m : mem) (d c v n : Z) : res mem :=
  let* (m, d, n) :=
    (if 8 <=? n then
       let align := Z.land d 7 in
       let* (m, d, n) :=
         (if negb (align =? 0) then
            let head := 8 - align in
            let head := if n <? head then n else head in
            let* m' := fill_head fuel m d c head in
            Ok (m', d + head, n - head)
          else Ok (m, d, n)) in
       let* (m, d, n) := fill_loop fuel 8 m d v n in
       fill_loop fuel 1 m d v n
     else Ok (m, d, n)) in
  fill_bytes fuel m d c n.

(** [val64] in [memset_fscpuf]. *)
Definition val64_of (c : Z) : Z :=
  let v := c in
  let v := Z.lor v (u64 (Z.shiftl v 8)) in
  let v := Z.lor v (u64 (Z.shiftl v 16)) in
  Z.lor v (u64 (Z.shiftl v 32)).

Definition memset_fscpuf (t : arch) (fuel : nat) (m : mem) (dst val n : Z) : res (mem * Z) :=
  let c := u8 val in
  let* m' :=
    match t with
    | X86_64 =>
        if 48 <=? n then rep_stosb m dst (u8 val) (Z.to_nat n)
        else fill_bytes fuel m dst c n
    | Generic => fill_aligned fuel m dst c (val64_of c) n
    end in
  Ok (m', dst).

Definition bzero (t : arch) (fuel : nat) (m : mem) (dst n : Z) : res mem :=
  match t with
  | X86_64 =>
      if 48 <=? n then rep_stosb m dst 0 (Z.to_nat n)
      else fill_aligned fuel m dst 0 0 n
  | Generic => fill_aligned fuel m dst 0 0 n
  end.

(** ** Copying upwards *)

(** [*(u64* )d = *(u64* )s;] *)
Definition copy8 (m : mem) (d s : Z) : res mem :=
  let* w := load64 m s in store64 m d w.

Fixpoint copy_words (m : mem) (d s : Z) (k : nat) : res mem :=
  match k with
  | O => Ok m
  | S k' => let* m' := copy8 m d s in copy_words m' (d + 8) (s + 8) k'
  end.

Definition copy_bytes (fuel : nat) (m : mem) (d s n : Z) : res mem :=
  loop fuel (fun '(m, d, s, n) =>
    if n =? 0 then Ok (inr m)
    else
      let* b := load8 m s in
      let* m' := store8 m d b in
      Ok (inl (m', d + 1, s + 1, n - 1))) (m, d, s, n).

Definition copy_head (fuel : nat) (m : mem) (d s head : Z) : res mem :=
  loop fuel (fun '(m, i) =>
    if i <? head then
      let* b := load8 m (s + i) in
      let* m' := store8 m (d + i) b in
      Ok (inl (m', i + 1))
    else Ok (inr m)) (m, 0).

Definition copy_loop (fuel : nat) (k : nat) (m : mem) (d s n : Z) : res (mem * Z * Z * Z) :=
  let step := 8 * Z.of_nat k in
  loop fuel (fun '(m, d, s, n) =>
    if step <=? n then
      let* m' := copy_words m d s k in
      Ok (inl (m', d + step, s + step, n - step))
    else Ok (inr (m, d, s, n))) (m, d, s, n).

Definition memcpy_fscpuf (t : arch) (fuel : nat) (m : mem) (dst src n : Z) : res (mem * Z) :=
  match t with
  | X86_64 =>
      if 16 <=? n then let* m' := rep_movsb m dst src (Z.to_nat n) in Ok (m', dst)
      else let* m' := copy_bytes fuel m dst src n in Ok (m', dst)
  | Generic =>
      let* (m, d, s, n) :=
        (if 8 <=? n then
           let align := Z.land dst 7 in
           let* (m, d, s, n) :=
             (if negb (align =? 0) then
                let head := 8 - align in
                let head := if n <? head then n else head in
                let* m' := copy_head fuel m dst src head in
                Ok (m', dst + head, src + head, n - head)
              else Ok (m, dst, src, n)) in
           let* (m, d, s, n) := copy_loop fuel 8 m d s n in
           copy_loop fuel 1 m d s n
         else Ok (m, dst, src, n)) in
      let* m' := copy_bytes fuel m d s n in
      Ok (m', dst)
  end.

(** ** Copying downwards *)

(** [while (n--) *--d = *--s;] *)
Definition back_bytes (fuel : nat) (m : mem) (d s n : Z) : res mem :=
  loop fuel (fun '(m, d, s, n) =>
    if n =? 0 then Ok (inr m)
    else
      let* b := load8 m (s - 1) in
      let* m' := store8 m (d - 1) b in
      Ok (inl (m', d - 1, s - 1, n - 1))) (m, d, s, n).

(** [for (i = 0; i < tail; i++) *--d = *--s;] *)
Definition back_tail (fuel : nat) (m : mem) (d s tail : Z) : res (mem * Z * Z) :=
  loop fuel (fun '(m, d, s, i) =>
    if i <? tail then
      let* b := load8 m (s - 1) in
      let* m' := store8 m (d - 1) b in
      Ok (inl (m', d - 1, s - 1, i + 1))
    else Ok (inr (m, d, s))) (m, d, s, 0).

(** [d -= step; s -= step;] and then the words of the block from the lowest
    address upwards. *)
Definition back_loop (fuel : nat) (k : nat) (m : mem) (d s n : Z) : res (mem * Z * Z * Z) :=
  let step := 8 * Z.of_nat k in
  loop fuel (fun '(m, d, s, n) =>
    if step <=? n then
      let* m' := copy_words m (d - step) (s - step) k in
      Ok (inl (m', d - step, s - step, n - step))
    else Ok (inr (m, d, s, n))) (m, d, s, n).

(** The downward branch, the same for both targets. *)
Definition move_down (fuel : nat) (m : mem) (dst src n : Z) : res mem :=
  let d := dst + n in
  let s := src + n in
  let align := Z.land d 7 in
  let* (m, d, s, n) :=
    (if negb (align =? 0) then
       let tail := if n <? align then n else align in
       let* (m, d, s) := back_tail fuel m d s tail in
       Ok (m, d, s, n - tail)
     else Ok (m, d, s, n)) in
  let* (m, d, s, n) := back_loop fuel 8 m d s n in
  let* (m, d, s, n) := back_loop fuel 1 m d s n in
  back_bytes fuel m d s n.

(** On x86-64 the asm statement names [dst] as a read-write operand, so the
    returned [dst] is the advanced register; a forward copy of less than sixteen
    bytes falls through to the final [return]. *)
Definition memmove_fscpuf (t : arch) (fuel : nat) (m : mem) (dst src n : Z) : res (mem * Z) :=
  if (dst =? src) || (n =? 0) then Ok (m, dst)
  else if dst <? src then
    match t with
    | X86_64 =>
        if 16 <=? n then
          let* m' := rep_movsb m dst src (Z.to_nat n) in
          Ok (m', dst + n)
        else Ok (m, dst)
    | Generic => memcpy_fscpuf t fuel m dst src n
    end
  else let* m' := move_down fuel m dst src n in Ok (m', dst).

(** ** Comparing *)

(** [while (len >= w) { ... }] for words of [w] bytes: the position where the
    words run out ([inl]) or the result ([inr]). *)
Definition cmp_loop (fuel : nat) (w : nat) (m : mem) (l r len : Z) : res ((Z * Z * Z) + Z) :=
  loop fuel (fun '(l, r, len) =>
    if Z.of_nat w <=? len then
      let* lb := load_bytes m l w in
      let* rb := load_bytes m r w in
      let l64 := le lb in
      let r64 := le rb in
      if negb (l64 =? r64) then
        let diff := Z.lxor l64 r64 in
        let byte_pos := ctz diff / 8 in
        let* x := load8 m (l + byte_pos) in
        let* y := load8 m (r + byte_pos) in
        Ok (inr (inr (x - y)))
      else Ok (inl (l + Z.of_nat w, r + Z.of_nat w, len - Z.of_nat w))
    else Ok (inr (inl (l, r, len)))) (l, r, len).

(** The closing byte loop. *)
Definition cmp_bytes (fuel : nat) (m : mem) (l r len : Z) : res Z :=
  loop fuel (fun '(l, r, len) =>
    if len =? 0 then Ok (inr 0)
    else
      let* x := load8 m l in
      let* y := load8 m r in
      if negb (x =? y) then Ok (inr (x - y))
      else Ok (inl (l + 1, r + 1, len - 1))) (l, r, len).

Definition memcmp_fscpuf (fuel : nat) (m : mem) (left right len : Z) : res Z :=
  let* r8 := cmp_loop fuel 8 m left right len in
  match r8 with
  | inr v => Ok v
  | inl (l, r, len) =>
      let* r4 := cmp_loop fuel 4 m l r len in
      match r4 with
      | inr v => Ok v
      | inl (l, r, len) => cmp_bytes fuel m l r len
      end
  end.

(** The libc entry points without the x86mem dispatch. *)
Definition memcpy := memcpy_fscpuf.
Definition memset := memset_fscpuf.
Definition memmove := memmove_fscpuf.
Definition memcmp := memcmp_fscpuf.

(** * Proofs *)

Lemma mapped_write m d l a n : mapped m a n -> mapped (write m d l) a n.
Proof.
  intros H x Hx. rewrite write_lookup. case_decide; [|apply H, Hx].
  apply lookup_lt_is_Some. lia.
Qed.

Lemma mem_wf_write m d l : mem_wf m -> bytes l -> mem_wf (write m d l).
Proof.
  intros Hm Hl a b Hb. rewrite write_lookup in Hb. case_decide; [|exact (Hm _ _ Hb)].
  unfold bytes in Hl. rewrite Forall_lookup in Hl. exact (Hl _ _ Hb).
Qed.

Lemma store8_write m d b : byte b -> mapped m d 1 -> store8 m d b = Ok (write m d [b]).
Proof.
  intros Hb Hm. destruct (Hm d ltac:(lia)) as [v Hv]. rewrite (store8_ok _ _ _ _ Hv), u8_small by exact Hb.
  reflexivity.
Qed.

Lemma store_bytes_ok m a l : bytes l -> mapped m a (length l) -> store_bytes m a l = Ok (write m a l).
Proof.
  revert m a. induction l as [|b l IH]; intros m a Hb Hm; [reflexivity|].
  apply Forall_cons in Hb as [Hb Hl]. simpl. rewrite store8_write; [|exact Hb|eapply mapped_le; [exact Hm|lia|simpl; lia]].
  simpl. apply IH; [exact Hl|]. apply mapped_insert. eapply mapped_le; [exact Hm|lia|simpl; lia].
Qed.

Lemma store64_ok m a l : bytes l -> length l = 8%nat -> mapped m a 8 ->
  store64 m a (le l) = Ok (write m a l).
Proof.
  intros Hb Hl Hm. unfold store64. rewrite bytes_le_le by assumption. apply store_bytes_ok; [exact Hb|].
  rewrite Hl. exact Hm.
Qed.

(** ** Filling *)

Section Fill.
Context (m0 : mem) (d0 : Z) (c : Z) (n0 : nat).
Hypothesis Hc : byte c.
Hypothesis Hm : mapped m0 d0 n0.

(** [k] bytes are done and [n] remain, [d] being the next address. *)
Definition filled (k : nat) (m : mem) (d n : Z) : Prop :=
  m = write m0 d0 (replicate k c) /\ d = d0 + Z.of_nat k /\ n = Z.of_nat n0 - Z.of_nat k /\ (k <= n0)%nat.

Lemma fill_block k j : (k + j <= n0)%nat ->
  mapped (write m0 d0 (replicate k c)) (d0 + Z.of_nat k) j.
Proof using Hm. intros H. apply mapped_write. eapply mapped_le; [exact Hm|lia|lia]. Qed.

Lemma write_replicate k j :
  write (write m0 d0 (replicate k c)) (d0 + Z.of_nat k) (replicate j c) = write m0 d0 (replicate (k + j) c).
Proof. rewrite replicate_add, write_app, length_replicate. reflexivity. Qed.

Lemma fill_byte_step k m d n : filled k m d n -> 0 < n ->
  exists m', store8 m d c = Ok m' /\ filled (S k) m' (d + 1) (n - 1).
Proof using Hc Hm.
  intros (-> & -> & -> & Hk) Hn. eexists. split.
  - apply store8_write; [exact Hc|]. apply fill_block. lia.
  - replace (S k) with (k + 1)%nat by lia. unfold filled. change [c] with (replicate 1 c).
    rewrite write_replicate. split_and!; [reflexivity|lia..].
Qed.

Lemma fill_words_step j : forall k m d n, filled k m d n -> 8 * Z.of_nat j <= n ->
  exists m', fill_words m d (rep 8 c) j = Ok m' /\
    filled (k + 8 * j) m' (d + 8 * Z.of_nat j) (n - 8 * Z.of_nat j).
Proof using Hc Hm.
  induction j as [|j IH]; intros k m d n (-> & -> & -> & Hk) Hn.
  - eexists. split; [reflexivity|]. unfold filled. rewrite Nat.mul_0_r, Nat.add_0_r. split_and!; [reflexivity|lia..].
  - simpl fill_words. unfold rep. rewrite store64_ok;
      [|apply Forall_replicate, Hc|apply length_replicate|apply fill_block; lia].
    cbn [bind]. rewrite write_replicate.
    destruct (IH (k + 8)%nat (write m0 d0 (replicate (k + 8) c)) (d0 + Z.of_nat k + 8) (Z.of_nat n0 - Z.of_nat k - 8))
      as (m' & E & Hf); [unfold filled; split_and!; [reflexivity|lia..]|lia|].
    exists m'. split; [exact E|].
    replace (k + 8 * S j)%nat with (k + 8 + 8 * j)%nat by lia.
    replace (8 * Z.of_nat (S j)) with (8 + 8 * Z.of_nat j) by lia.
    destruct Hf as (-> & H1 & H2 & H3). unfold filled. split_and!; [reflexivity|lia..].
Qed.

Lemma fill_bytes_ok fuel k m d n : filled k m d n -> n < Z.of_nat fuel ->
  fill_bytes fuel m d c n = Ok (write m0 d0 (replicate n0 c)).
Proof using Hc Hm.
  intros Hf Hn. apply wp_eq.
  apply (wp_loop (fun '(m, d, n) => exists k, filled k m d n) (fun '(_, _, n) => Z.to_nat n));
    [|eauto|destruct Hf as (_ & _ & ? & ?); lia].
  clear - Hc Hm. intros [[m d] n] [k Hf]. unfold step_ok. destruct (n =? 0) eqn:E; to_prop.
  - destruct Hf as (-> & _ & Hn & Hk). simpl. replace k with n0 by lia. reflexivity.
  - assert (0 < n) by (destruct Hf as (_ & _ & Hn & Hk); lia).
    destruct (fill_byte_step k m d n Hf) as (m' & -> & Hf'); [lia|]. simpl. split; [eauto|lia].
Qed.

Lemma fill_loop_ok fuel j k m d n : (0 < j)%nat -> filled k m d n -> n < Z.of_nat fuel ->
  wp (fill_loop fuel j m d (rep 8 c) n) (fun '(m, d, n) => exists k, filled k m d n).
Proof using Hc Hm.
  intros Hj Hf Hn.
  apply (wp_loop (fun '(m, d, n) => exists k, filled k m d n) (fun '(_, _, n) => Z.to_nat n));
    [|eauto|destruct Hf as (_ & _ & ? & ?); lia].
  clear - Hc Hm Hj. intros [[m d] n] [k Hf]. unfold step_ok. destruct (_ <=? n) eqn:E; to_prop; [|simpl; eauto].
  destruct (fill_words_step j k m d n Hf E) as (m' & -> & Hf'). simpl. split; [eauto|lia].
Qed.

Lemma fill_head_ok fuel h : (h <= n0)%nat -> (h < fuel)%nat ->
  fill_head fuel m0 d0 c (Z.of_nat h) = Ok (write m0 d0 (replicate h c)).
Proof using Hc Hm.
  intros Hh Hf. apply wp_eq.
  apply (wp_loop (fun '(m, i) => exists k, filled k m (d0 + i) (Z.of_nat n0 - i) /\ (k <= h)%nat)
                 (fun '(_, i) => Z.to_nat (Z.of_nat h - i))).
  - intros [m i] (k & Hk & Hkh). unfold step_ok. assert (i = Z.of_nat k) as -> by (destruct Hk; lia).
    destruct (_ <? _) eqn:E; to_prop.
    + destruct (fill_byte_step _ _ _ _ Hk) as (m' & -> & Hf'); [lia|]. simpl. split; [|lia].
      exists (S k). split; [|lia].
      replace (d0 + (Z.of_nat k + 1)) with (d0 + Z.of_nat k + 1) by lia.
      replace (Z.of_nat n0 - (Z.of_nat k + 1)) with (Z.of_nat n0 - Z.of_nat k - 1) by lia. exact Hf'.
    + simpl. destruct Hk as (-> & _). replace k with h by lia. reflexivity.
  - exists 0%nat. split; [|lia]. unfold filled. split_and!; [reflexivity|lia..].
  - lia.
Qed.

Lemma fill_aligned_ok fuel : (n0 < fuel)%nat ->
  fill_aligned fuel m0 d0 c (rep 8 c) (Z.of_nat n0) = Ok (write m0 d0 (replicate n0 c)).
Proof using Hc Hm.
  intros Hf. unfold fill_aligned. apply wp_eq. apply wp_bind.
  assert (H0 : filled 0 m0 d0 (Z.of_nat n0)) by (unfold filled; split_and!; [reflexivity|lia..]).
  assert (Hlt : forall k m d n, filled k m d n -> n < Z.of_nat fuel).
  { intros k m d n (_ & _ & -> & _). lia. }
  apply (wp_mono _ (fun '(m, d, n) => exists k, filled k m d n)).
  2:{ intros [[m d] n] [k Hk]. apply wp_eq. eapply fill_bytes_ok; eauto. }
  destruct (8 <=? _) eqn:E8; to_prop; [|simpl; eauto].
  apply wp_bind.
  apply (wp_mono _ (fun '(m, d, n) => exists k, filled k m d n)).
  2:{ intros [[m d] n] [k Hk]. apply wp_bind.
      eapply wp_mono; [apply (fill_loop_ok fuel 8 k); [lia|exact Hk|eauto]|].
      intros [[m1 d1] n1] [k1 Hk1]. apply (fill_loop_ok fuel 1 k1); [lia|exact Hk1|eauto]. }
  destruct (Z.land d0 7 =? 0); simpl negb; cbn match; [simpl; eauto|].
  set (head := if _ <? _ then _ else _).
  assert (Hh : 0 <= head <= Z.of_nat n0).
  { subst head. rewrite land_7. pose proof (Z.mod_pos_bound d0 8).
    destruct (_ <? _) eqn:E; to_prop; lia. }
  replace head with (Z.of_nat (Z.to_nat head)) by lia.
  rewrite fill_head_ok by lia. simpl. exists (Z.to_nat head). unfold filled. split_and!; [reflexivity|lia..].
Qed.
End Fill.

Lemma val64_rep c : byte c -> val64_of c = rep 8 c.
Proof.
  intros Hc. apply Z.eqb_eq. apply (all_bytes_spec (fun c => val64_of c =? rep 8 c)); [vm_compute; reflexivity|exact Hc].
Qed.

Lemma rep_stosb_ok m d al n : mapped m d n -> rep_stosb m d al n = Ok (write m d (replicate n (u8 al))).
Proof.
  revert m d. induction n as [|n IH]; intros m d Hm; [reflexivity|]. simpl.
  destruct (Hm d ltac:(lia)) as [v Hv]. rewrite (store8_ok _ _ _ _ Hv). simpl. apply IH.
  apply mapped_insert. eapply mapped_le; [exact Hm|lia|lia].
Qed.

Lemma u8_byte z : byte (u8 z).
Proof. unfold byte, u8. apply Z.mod_pos_bound. lia. Qed.

Lemma fill_bytes_start fuel m d c n : byte c -> mapped m d n -> (n < fuel)%nat ->
  fill_bytes fuel m d c (Z.of_nat n) = Ok (write m d (replicate n c)).
Proof.
  intros Hc Hm Hf. apply (fill_bytes_ok m d c n Hc Hm fuel 0); [|lia].
  unfold filled. split_and!; [reflexivity|lia..].
Qed.

(** ** Copying *)

Section Copy.
Context (m0 : mem) (d0 s0 : Z) (l : list Z).
Hypothesis Hwf : mem_wf m0.
Hypothesis Hl : holds m0 s0 l.
Hypothesis Hm : mapped m0 d0 (length l).

Lemma src_bytes : bytes l.
Proof using Hwf Hl. apply Forall_lookup. intros i b Hb. exact (Hwf _ _ (Hl i b Hb)). Qed.

(** Reading from a memory that still has the source bytes [l] at [k .. k+j-1]. *)
Lemma load_src m k j : (k + j <= length l)%nat ->
  (forall i, (k <= i < k + j)%nat -> m !! (s0 + Z.of_nat i) = m0 !! (s0 + Z.of_nat i)) ->
  load_bytes m (s0 + Z.of_nat k) j = Ok (take j (drop k l)).
Proof using Hl.
  revert k. induction j as [|j IH]; intros k Hk Hs; [reflexivity|].
  destruct (lookup_lt_is_Some_2 l k ltac:(lia)) as [b Hb].
  rewrite (drop_S _ _ _ Hb). simpl.
  rewrite (load8_ok m _ b) by (rewrite Hs by lia; apply Hl, Hb). cbn [bind].
  replace (s0 + Z.of_nat k + 1) with (s0 + Z.of_nat (S k)) by lia.
  rewrite IH; [reflexivity|lia|]. intros i Hi. apply Hs. lia.
Qed.

Lemma slice_bytes k j : bytes (take j (drop k l)).
Proof using Hwf Hl. apply Forall_take, Forall_drop, src_bytes. Qed.

(** Moving [j] bytes, one at a time or eight as a word. *)
Lemma copy8_ok m k : (k + 8 <= length l)%nat -> mapped m (d0 + Z.of_nat k) 8 ->
  (forall i, (k <= i < k + 8)%nat -> m !! (s0 + Z.of_nat i) = m0 !! (s0 + Z.of_nat i)) ->
  copy8 m (d0 + Z.of_nat k) (s0 + Z.of_nat k) =
    Ok (write m (d0 + Z.of_nat k) (take 8 (drop k l))).
Proof using Hwf Hl.
  intros Hk Hd Hs. unfold copy8, load64. rewrite load_src by assumption. cbn [bind].
  apply store64_ok; [apply slice_bytes|rewrite length_take, length_drop; lia|exact Hd].
Qed.

Lemma copy1_ok m k : (k + 1 <= length l)%nat -> mapped m (d0 + Z.of_nat k) 1 ->
  (forall i, (k <= i < k + 1)%nat -> m !! (s0 + Z.of_nat i) = m0 !! (s0 + Z.of_nat i)) ->
  exists b, load8 m (s0 + Z.of_nat k) = Ok b /\
    store8 m (d0 + Z.of_nat k) b = Ok (write m (d0 + Z.of_nat k) (take 1 (drop k l))).
Proof using Hwf Hl.
  intros Hk Hd Hs. destruct (lookup_lt_is_Some_2 l k ltac:(lia)) as [b Hb]. exists b. split.
  - apply load8_ok. rewrite Hs by lia. apply Hl, Hb.
  - rewrite (drop_S _ _ _ Hb). apply store8_write; [|exact Hd].
    pose proof src_bytes as H. unfold bytes in H. rewrite Forall_lookup in H. exact (H _ _ Hb).
Qed.

(** *** Upwards *)

(** The first [k] bytes are at the destination. *)
Definition up (k : nat) (m : mem) : Prop := m = write m0 d0 (take k l) /\ (k <= length l)%nat.

(** The source is not overwritten before it is read. *)
Hypothesis Hdir : d0 <= s0 \/ s0 + Z.of_nat (length l) <= d0.

Lemma up_src k m i : up k m -> (k <= i < length l)%nat -> m !! (s0 + Z.of_nat i) = m0 !! (s0 + Z.of_nat i).
Proof using Hdir.
  intros [-> Hk] Hi. rewrite write_lookup, length_take, decide_False by lia. reflexivity.
Qed.

Lemma up_mapped k m j : up k m -> (k + j <= length l)%nat -> mapped m (d0 + Z.of_nat k) j.
Proof using Hm. intros [-> Hk] Hj. apply mapped_write. eapply mapped_le; [exact Hm|lia|lia]. Qed.

Lemma up_next k m j : up k m -> (k + j <= length l)%nat ->
  up (k + j) (write m (d0 + Z.of_nat k) (take j (drop k l))).
Proof.
  intros [-> Hk] Hj. split; [|exact Hj].
  rewrite <- take_take_drop, write_app, length_take.
  replace (k `min` length l)%nat with k by lia. reflexivity.
Qed.

Lemma up_words j : forall k m, up k m -> (k + 8 * j <= length l)%nat ->
  exists m', copy_words m (d0 + Z.of_nat k) (s0 + Z.of_nat k) j = Ok m' /\ up (k + 8 * j) m'.
Proof using Hwf Hl Hm Hdir.
  induction j as [|j IH]; intros k m Hk Hj.
  - exists m. rewrite Nat.mul_0_r, Nat.add_0_r. auto.
  - simpl copy_words. rewrite copy8_ok;
      [|lia|apply up_mapped; [exact Hk|lia]|intros i Hi; eapply up_src; [exact Hk|lia]].
    cbn [bind]. destruct (IH (k + 8)%nat _ (up_next k m 8 Hk ltac:(lia)) ltac:(lia)) as (m' & E & Hu).
    exists m'. split; [|replace (k + 8 * S j)%nat with (k + 8 + 8 * j)%nat by lia; exact Hu].
    rewrite <- E. f_equal; lia.
Qed.

Lemma up_byte k m : up k m -> (k < length l)%nat ->
  exists b m', load8 m (s0 + Z.of_nat k) = Ok b /\ store8 m (d0 + Z.of_nat k) b = Ok m' /\ up (S k) m'.
Proof using Hwf Hl Hm Hdir.
  intros Hk Hlt. destruct (copy1_ok m k) as (b & E1 & E2);
    [lia|apply up_mapped; [exact Hk|lia]|intros i Hi; eapply up_src; [exact Hk|lia]|].
  eexists b, _. split; [exact E1|]. split; [exact E2|].
  replace (S k) with (k + 1)%nat by lia. apply up_next; [exact Hk|lia].
Qed.

(** The loop state [(m, d, s, n)] after [k] bytes. *)
Definition up_at (st : mem * Z * Z * Z) : Prop :=
  let '(m, d, s, n) := st in
  exists k, up k m /\ d = d0 + Z.of_nat k /\ s = s0 + Z.of_nat k /\ n = Z.of_nat (length l) - Z.of_nat k.

Lemma copy_bytes_ok fuel m d s n : up_at (m, d, s, n) -> n < Z.of_nat fuel ->
  copy_bytes fuel m d s n = Ok (write m0 d0 l).
Proof using Hwf Hl Hm Hdir.
  intros Hu Hn. apply wp_eq.
  apply (wp_loop up_at (fun '(_, _, _, n) => Z.to_nat n));
    [|exact Hu|destruct Hu as (k & [_ ?] & _ & _ & ?); lia].
  clear - Hwf Hl Hm Hdir. intros [[[m d] s] n] (k & Hk & -> & -> & ->). unfold step_ok.
  pose proof (proj2 Hk). destruct (_ =? 0) eqn:E; to_prop.
  - simpl. destruct Hk as [-> _]. rewrite take_ge by lia. reflexivity.
  - destruct (up_byte k m Hk ltac:(lia)) as (b & m' & -> & E2 & Hk'). cbn [bind]. rewrite E2. simpl.
    split; [|lia]. exists (S k). split; [exact Hk'|lia].
Qed.

Lemma copy_loop_ok fuel j m d s n : (0 < j)%nat -> up_at (m, d, s, n) -> n < Z.of_nat fuel ->
  wp (copy_loop fuel j m d s n) up_at.
Proof using Hwf Hl Hm Hdir.
  intros Hj Hu Hn.
  apply (wp_loop up_at (fun '(_, _, _, n) => Z.to_nat n));
    [|exact Hu|destruct Hu as (k & [_ ?] & _ & _ & ?); lia].
  clear - Hwf Hl Hm Hdir Hj. intros [[[m d] s] n] (k & Hk & -> & -> & ->). unfold step_ok.
  pose proof (proj2 Hk). destruct (_ <=? _) eqn:E; to_prop; [|simpl; eauto 10].
  destruct (up_words j k m Hk ltac:(lia)) as (m' & -> & Hk'). simpl.
  split; [|lia]. exists (k + 8 * j)%nat. split; [exact Hk'|lia].
Qed.

Lemma copy_head_ok fuel h : (h <= length l)%nat -> (h < fuel)%nat ->
  wp (copy_head fuel m0 d0 s0 (Z.of_nat h)) (up h).
Proof using Hwf Hl Hm Hdir.
  intros Hh Hf.
  apply (wp_loop (fun '(m, i) => exists k, up k m /\ i = Z.of_nat k /\ (k <= h)%nat)
                 (fun '(_, i) => Z.to_nat (Z.of_nat h - i))).
  - intros [m i] (k & Hk & -> & Hkh). unfold step_ok. destruct (_ <? _) eqn:E; to_prop.
    + destruct (up_byte k m Hk ltac:(lia)) as (b & m' & -> & E2 & Hk'). cbn [bind]. rewrite E2. simpl.
      split; [|lia]. exists (S k). split; [exact Hk'|lia].
    + simpl. replace h with k by lia. exact Hk.
  - exists 0%nat. split; [split; [reflexivity|lia]|lia].
  - lia.
Qed.

Lemma rep_movsb_ok : rep_movsb m0 d0 s0 (length l) = Ok (write m0 d0 l).
Proof using Hwf Hl Hm Hdir.
  enough (forall j k m, up k m -> (k + j = length l)%nat ->
    rep_movsb m (d0 + Z.of_nat k) (s0 + Z.of_nat k) j = Ok (write m0 d0 l)) as E.
  { rewrite <- (E (length l) 0%nat m0); [f_equal; lia|split; [reflexivity|lia]|lia]. }
  induction j as [|j IH]; intros k m Hk Hj.
  - destruct Hk as [-> _]. rewrite take_ge by lia. reflexivity.
  - destruct (up_byte k m Hk ltac:(lia)) as (b & m' & E1 & E2 & Hk'). simpl. rewrite E1. cbn [bind].
    rewrite E2. cbn [bind]. rewrite <- (IH (S k) m' Hk' ltac:(lia)). f_equal; lia.
Qed.

Lemma memcpy_ok t fuel : (length l < fuel)%nat ->
  memcpy_fscpuf t fuel m0 d0 s0 (Z.of_nat (length l)) = Ok (write m0 d0 l, d0).
Proof using Hwf Hl Hm Hdir.
  intros Hf. assert (H0 : up_at (m0, d0, s0, Z.of_nat (length l))).
  { exists 0%nat. split; [split; [reflexivity|lia]|lia]. }
  assert (Hlt : forall m d s n, up_at (m, d, s, n) -> n < Z.of_nat fuel).
  { intros m d s n (k & [_ ?] & _ & _ & ->). lia. }
  destruct t; unfold memcpy_fscpuf.
  - destruct (16 <=? _); [rewrite Nat2Z.id, rep_movsb_ok; reflexivity|].
    rewrite (copy_bytes_ok fuel _ _ _ _ H0) by lia. reflexivity.
  - apply wp_eq. apply wp_bind. apply (wp_mono _ up_at).
    2:{ intros [[[m d] s] n] Hu. rewrite (copy_bytes_ok fuel _ _ _ _ Hu) by eauto. reflexivity. }
    destruct (8 <=? _); [|exact H0]. apply wp_bind. apply (wp_mono _ up_at).
    2:{ intros [[[m d] s] n] Hu. apply wp_bind.
        eapply wp_mono; [apply (copy_loop_ok fuel 8); [lia|exact Hu|eauto]|].
        intros [[[m1 d1] s1] n1] Hu1. apply copy_loop_ok; [lia|exact Hu1|eauto]. }
    destruct (Z.land d0 7 =? 0); simpl negb; cbn match; [exact H0|].
    set (head := if _ <? _ then _ else _).
    assert (Hh : 0 <= head <= Z.of_nat (length l)).
    { subst head. rewrite land_7. pose proof (Z.mod_pos_bound d0 8). destruct (_ <? _) eqn:E; to_prop; lia. }
    replace head with (Z.of_nat (Z.to_nat head)) by lia. apply wp_bind.
    eapply wp_mono; [apply copy_head_ok; lia|]. intros m Hu. simpl. exists (Z.to_nat head). split; [exact Hu|lia].
Qed.
End Copy.

(** *** Downwards *)

Section Down.
Context (m0 : mem) (d0 s0 : Z) (l : list Z).
Hypothesis Hwf : mem_wf m0.
Hypothesis Hl : holds m0 s0 l.
Hypothesis Hm : mapped m0 d0 (length l).
Hypothesis Hdir : s0 <= d0.

(** The bytes from [k] on are at the destination. *)
Definition down (k : nat) (m : mem) : Prop :=
  m = write m0 (d0 + Z.of_nat k) (drop k l) /\ (k <= length l)%nat.

Lemma down_src k m i : down k m -> (i < k)%nat -> m !! (s0 + Z.of_nat i) = m0 !! (s0 + Z.of_nat i).
Proof using Hdir.
  intros [-> Hk] Hi. rewrite write_lookup, decide_False by lia. reflexivity.
Qed.

Lemma down_mapped k m a j : down k m -> (a + j <= length l)%nat -> mapped m (d0 + Z.of_nat a) j.
Proof using Hm. intros [-> Hk] Hj. apply mapped_write. eapply mapped_le; [exact Hm|lia|lia]. Qed.

Lemma down_wf k m : down k m -> mem_wf m.
Proof using Hwf Hl.
  intros [-> _]. apply mem_wf_write; [exact Hwf|]. apply Forall_drop. eapply src_bytes; eassumption.
Qed.

Lemma down_next a j m : down (a + j) m ->
  down a (write m (d0 + Z.of_nat a) (take j (drop a l))).
Proof.
  intros [-> Hk]. split; [|lia]. apply map_eq. intros x. rewrite !write_lookup, !length_take, !length_drop.
  destruct (decide (d0 + Z.of_nat a <= x < d0 + Z.of_nat a + Z.of_nat (j `min` (length l - a)))) as [H1|H1].
  - rewrite decide_True by lia. rewrite lookup_take, decide_True by lia. reflexivity.
  - case_decide as H2; [rewrite decide_True by lia; rewrite !lookup_drop; f_equal; lia|].
    rewrite decide_False by lia. reflexivity.
Qed.

(** A block of words, copied from its lowest address upwards, is copied
    correctly when it is one word or when the block fits between source and
    destination. *)
Lemma down_block a j m : down (a + 8 * j) m -> (j = 1%nat \/ s0 + 8 * Z.of_nat j <= d0) ->
  exists m', copy_words m (d0 + Z.of_nat a) (s0 + Z.of_nat a) j = Ok m' /\ down a m'.
Proof using Hwf Hl Hm Hdir.
  intros Hd Hj. pose proof (proj2 Hd) as Hk. set (blk := take (8 * j) (drop a l)).
  assert (Hlen : length blk = (8 * j)%nat) by (subst blk; rewrite length_take, length_drop; lia).
  assert (Hblk : holds m (s0 + Z.of_nat a) blk).
  { intros i b Hi. pose proof (lookup_lt_Some _ _ _ Hi) as Hlt. subst blk. rewrite lookup_take in Hi.
    case_decide; [|easy]. rewrite lookup_drop in Hi.
    replace (s0 + Z.of_nat a + Z.of_nat i) with (s0 + Z.of_nat (a + i)) by lia.
    rewrite (down_src (a + 8 * j) m) by (auto; lia). apply Hl, Hi. }
  assert (Hmap : mapped m (d0 + Z.of_nat a) (length blk)).
  { apply (down_mapped (a + 8 * j)); [exact Hd|lia]. }
  exists (write m (d0 + Z.of_nat a) blk). split; [|apply down_next; exact Hd].
  destruct Hj as [-> | Hj].
  - simpl copy_words. rewrite <- (Z.add_0_r (d0 + Z.of_nat a)), <- (Z.add_0_r (s0 + Z.of_nat a)).
    change 0 with (Z.of_nat 0).
    rewrite (copy8_ok m _ _ blk (down_wf _ _ Hd) Hblk m 0);
      [|lia|rewrite Z.add_0_r; eapply mapped_le; [exact Hmap|lia|lia]|reflexivity].
    cbn [bind]. rewrite drop_0, take_ge by lia. reflexivity.
  - destruct (up_words m (d0 + Z.of_nat a) (s0 + Z.of_nat a) blk (down_wf _ _ Hd) Hblk Hmap ltac:(right; lia)
                j 0 m) as (m' & E & [-> _]); [split; [reflexivity|lia]|lia|].
    rewrite !Z.add_0_r in E. rewrite E, take_ge by lia. reflexivity.
Qed.

Lemma down_byte k m : down (S k) m ->
  exists b m', load8 m (s0 + Z.of_nat k) = Ok b /\ store8 m (d0 + Z.of_nat k) b = Ok m' /\ down k m'.
Proof using Hwf Hl Hm Hdir.
  intros Hd. pose proof (proj2 Hd) as Hk. destruct (copy1_ok m0 d0 s0 l Hwf Hl m k) as (b & E1 & E2);
    [lia|apply (down_mapped (S k)); [exact Hd|lia]|intros i Hi; apply (down_src (S k)); [exact Hd|lia]|].
  eexists b, _. split; [exact E1|]. split; [exact E2|]. apply down_next.
  replace (k + 1)%nat with (S k) by lia. exact Hd.
Qed.

Definition down_at (st : mem * Z * Z * Z) : Prop :=
  let '(m, d, s, n) := st in
  exists k, down k m /\ d = d0 + Z.of_nat k /\ s = s0 + Z.of_nat k /\ n = Z.of_nat k.

Lemma back_bytes_ok fuel m d s n : down_at (m, d, s, n) -> n < Z.of_nat fuel ->
  back_bytes fuel m d s n = Ok (write m0 d0 l).
Proof using Hwf Hl Hm Hdir.
  intros Hu Hn. apply wp_eq.
  apply (wp_loop down_at (fun '(_, _, _, n) => Z.to_nat n));
    [|exact Hu|destruct Hu as (k & _ & _ & _ & ->); lia].
  clear - Hwf Hl Hm Hdir. intros [[[m d] s] n] (k & Hk & -> & -> & ->). unfold step_ok.
  destruct k as [|k].
  - simpl. destruct Hk as [-> _]. rewrite Z.add_0_r. reflexivity.
  - destruct (Z.of_nat (S k) =? 0) eqn:E; to_prop; [lia|].
    destruct (down_byte k m Hk) as (b & m' & E1 & E2 & Hk').
    replace (s0 + Z.of_nat (S k) - 1) with (s0 + Z.of_nat k) by lia.
    replace (d0 + Z.of_nat (S k) - 1) with (d0 + Z.of_nat k) by lia.
    rewrite E1. cbn [bind]. rewrite E2. simpl. split; [|lia]. exists k. split; [exact Hk'|lia].
Qed.

Lemma back_tail_ok fuel t : (t <= length l)%nat -> (t < fuel)%nat ->
  wp (back_tail fuel m0 (d0 + Z.of_nat (length l)) (s0 + Z.of_nat (length l)) (Z.of_nat t))
     (fun '(m, d, s) => down_at (m, d, s, Z.of_nat (length l) - Z.of_nat t)).
Proof using Hwf Hl Hm Hdir.
  intros Ht Hf.
  apply (wp_loop (fun '(m, d, s, i) => down_at (m, d, s, Z.of_nat (length l) - i) /\ 0 <= i <= Z.of_nat t)
                 (fun '(_, _, _, i) => Z.to_nat (Z.of_nat t - i))).
  - intros [[[m d] s] i] [(k & Hk & -> & -> & Hn) Hi]. unfold step_ok. destruct (_ <? _) eqn:E; to_prop.
    + destruct k as [|k]; [lia|]. destruct (down_byte k m Hk) as (b & m' & E1 & E2 & Hk').
      replace (s0 + Z.of_nat (S k) - 1) with (s0 + Z.of_nat k) by lia.
      replace (d0 + Z.of_nat (S k) - 1) with (d0 + Z.of_nat k) by lia.
      rewrite E1. cbn [bind]. rewrite E2. simpl. split; [|lia]. split; [|lia]. exists k. split; [exact Hk'|lia].
    + simpl. replace i with (Z.of_nat t) in Hn by lia. exists k. auto.
  - split; [|lia]. exists (length l). split; [|lia]. split; [|lia]. rewrite drop_all. reflexivity.
  - lia.
Qed.

Lemma back_loop_ok fuel j m d s n : (0 < j)%nat -> (j = 1%nat \/ s0 + 8 * Z.of_nat j <= d0 \/ n < 8 * Z.of_nat j) ->
  down_at (m, d, s, n) -> n < Z.of_nat fuel -> wp (back_loop fuel j m d s n) down_at.
Proof using Hwf Hl Hm Hdir.
  intros Hj Hc Hu Hn.
  apply (wp_loop (fun st => down_at st /\ st.2 <= n) (fun '(_, _, _, n) => Z.to_nat n));
    [|split; [exact Hu|simpl; lia]|destruct Hu as (k & _ & _ & _ & ->); lia].
  clear Hu. intros [[[m1 d1] s1] n1] [(k & Hk & -> & -> & ->) Hle]. simpl in Hle. unfold step_ok.
  destruct (_ <=? _) eqn:E; to_prop; [|simpl; exists k; auto].
  replace k with (k - 8 * j + 8 * j)%nat in Hk by lia.
  destruct (down_block (k - 8 * j) j m1 Hk) as (m' & Em & Hk'); [lia|].
  replace (d0 + Z.of_nat k - 8 * Z.of_nat j) with (d0 + Z.of_nat (k - 8 * j)) by lia.
  replace (s0 + Z.of_nat k - 8 * Z.of_nat j) with (s0 + Z.of_nat (k - 8 * j)) by lia.
  rewrite Em. simpl. split; [split; [|lia]|lia]. exists (k - 8 * j)%nat. split; [exact Hk'|lia].
Qed.

Lemma move_down_ok fuel : (length l < fuel)%nat -> (s0 + 64 <= d0 \/ Z.of_nat (length l) < 64) ->
  move_down fuel m0 d0 s0 (Z.of_nat (length l)) = Ok (write m0 d0 l).
Proof using Hwf Hl Hm Hdir.
  intros Hf Hc. unfold move_down. apply wp_eq. apply wp_bind.
  apply (wp_mono _ (fun st => down_at st /\ st.2 <= Z.of_nat (length l))).
  - assert (Hal : 0 <= Z.land (d0 + Z.of_nat (length l)) 7 <= 7).
    { rewrite land_7. pose proof (Z.mod_pos_bound (d0 + Z.of_nat (length l)) 8). lia. }
    destruct (Z.land _ 7 =? 0); simpl negb; cbn match.
    + simpl. split; [|lia]. exists (length l). split; [|lia]. split; [|lia]. rewrite drop_all. reflexivity.
    + set (tail := if _ <? _ then _ else _).
      assert (Ht : 0 <= tail <= Z.of_nat (length l)) by (subst tail; destruct (_ <? _) eqn:E; to_prop; lia).
      replace tail with (Z.of_nat (Z.to_nat tail)) by lia. apply wp_bind.
      eapply wp_mono; [apply back_tail_ok; lia|]. intros [[m d] s] Hd. simpl. split; [exact Hd|lia].
  - intros [[[m d] s] n] [Hu Hn]. simpl in Hn. apply wp_bind.
    assert (Hlt : forall m d s n, down_at (m, d, s, n) -> n < Z.of_nat fuel).
    { intros m1 d1 s1 n1 (k & [_ ?] & _ & _ & ->). lia. }
    eapply wp_mono; [apply (back_loop_ok fuel 8); [lia|lia|exact Hu|eauto]|].
    intros [[[m1 d1] s1] n1] Hu1. apply wp_bind.
    eapply wp_mono; [apply (back_loop_ok fuel 1); [lia|auto|exact Hu1|eauto]|].
    intros [[[m2 d2] s2] n2] Hu2. apply wp_eq. apply back_bytes_ok; [exact Hu2|eauto].
Qed.
End Down.

(** ** Comparing *)

(** The difference of the first pair of bytes that differ. *)
Fixpoint ref_memcmp (x y : list Z) : Z :=
  match x, y with
  | b :: x', c :: y' => if b =? c then ref_memcmp x' y' else b - c
  | _, _ => 0
  end.

Lemma ref_memcmp_app x r1 r2 : ref_memcmp (x ++ r1) (x ++ r2) = ref_memcmp r1 r2.
Proof. induction x as [|b x IH]; simpl; [reflexivity|]. rewrite Z.eqb_refl. exact IH. Qed.

(** The trailing zeros of the exclusive or give the first byte that differs. *)
Lemma diff_first x y : bytes x -> bytes y -> length x = length y -> x <> y ->
  exists k b c, x !! k = Some b /\ y !! k = Some c /\ le x <> le y /\
    0 < Z.lxor (le x) (le y) /\ low_byte (Z.lxor (le x) (le y)) = Z.of_nat k /\
    forall r1 r2, ref_memcmp (x ++ r1) (y ++ r2) = b - c.
Proof.
  intros Hx. revert y. induction Hx as [|b x Hb Hx IH]; intros [|c y] Hy Hlen Hne; try easy.
  apply Forall_cons in Hy as [Hc Hy]. simpl in Hlen. simpl le. rewrite lxor_split by assumption.
  pose proof (le_bound x Hx) as Bx. pose proof (le_bound y Hy) as By.
  assert (0 <= Z.lxor (le x) (le y)) by (apply Z.lxor_nonneg; lia).
  unfold byte in Hb, Hc. destruct (Z.eq_dec b c) as [->|Hbc].
  - destruct (IH y Hy ltac:(lia) ltac:(congruence)) as (k & b' & c' & H1 & H2 & H3 & H4 & H5 & H6).
    exists (S k), b', c'. rewrite Z.lxor_nilpotent, Z.add_0_l, low_byte_shift by lia.
    split_and!; [exact H1|exact H2|lia|lia|lia|]. intros r1 r2. simpl. rewrite Z.eqb_refl. apply H6.
  - exists 0%nat, b, c. assert (Hd : byte (Z.lxor b c)) by (apply lxor_byte; unfold byte; lia).
    assert (Z.lxor b c <> 0) by (intros E; apply Z.lxor_eq in E; lia). unfold byte in Hd.
    split_and!; [reflexivity|reflexivity|intros E; apply Hbc; lia|lia| |].
    + apply low_byte_zero; [lia|]. rewrite (Z.mul_comm 256), Z_mod_plus_full, Z.mod_small; lia.
    + intros r1 r2. simpl. apply Z.eqb_neq in Hbc. rewrite Hbc. reflexivity.
Qed.

Section Cmp.
Context (m : mem) (p q : Z) (x y : list Z).
Hypothesis Hwf : mem_wf m.

Definition cmp_at (st : Z * Z * Z) : Prop :=
  let '(l, r, n) := st in
  exists x' y', holds m l x' /\ holds m r y' /\ length x' = length y' /\ n = Z.of_nat (length x') /\
    ref_memcmp x' y' = ref_memcmp x y /\ (length x' <= length x)%nat.

Lemma cmp_loop_ok fuel w st : (0 < w)%nat -> cmp_at st -> st.2 < Z.of_nat fuel ->
  wp (cmp_loop fuel w m st.1.1 st.1.2 st.2)
     (fun r => match r with inl st' => cmp_at st' | inr v => v = ref_memcmp x y end).
Proof using Hwf.
  intros Hw Hst Hf. unfold cmp_loop. destruct st as [[l r] n]. simpl.
  apply (wp_loop cmp_at (fun '(_, _, n) => Z.to_nat n));
    [|exact Hst|destruct Hst as (? & ? & _ & _ & _ & -> & _); simpl in Hf; lia].
  clear - Hwf Hw. intros [[l r] n] (x' & y' & Hx & Hy & Hl & -> & Hr & Hle). unfold step_ok.
  destruct (_ <=? _) eqn:E; to_prop; [|simpl; exists x', y'; auto 10].
  rewrite (load_prefix m l x') by (auto; lia). cbn [bind]. rewrite (load_prefix m r y') by (auto; lia). cbn [bind].
  pose proof (holds_bytes _ _ _ Hwf Hx) as Bx. pose proof (holds_bytes _ _ _ Hwf Hy) as By.
  rewrite <- (take_drop w x'), <- (take_drop w y') in Hr.
  destruct (decide (take w x' = take w y')) as [Heq|Hne].
  - rewrite Heq, Z.eqb_refl. simpl. rewrite Heq, ref_memcmp_app in Hr. split; [|lia].
    exists (drop w x'), (drop w y'). rewrite !length_drop.
    split_and!; [apply holds_drop; auto; lia|apply holds_drop; auto; lia|lia|lia|exact Hr|lia].
  - destruct (diff_first (take w x') (take w y')) as (k & b & c & H1 & H2 & H3 & H4 & H5 & H6);
      [apply Forall_take, Bx|apply Forall_take, By|rewrite !length_take; lia|exact Hne|].
    apply Z.eqb_neq in H3. rewrite H3. simpl. unfold low_byte in H5. rewrite H5.
    apply lookup_take_Some in H1 as [H1 _]. apply lookup_take_Some in H2 as [H2 _].
    rewrite (load8_ok _ _ _ (Hx _ _ H1)). cbn [bind]. rewrite (load8_ok _ _ _ (Hy _ _ H2)). simpl.
    rewrite <- Hr. symmetry. apply H6.
Qed.

Lemma cmp_bytes_ok fuel l r n : cmp_at (l, r, n) -> n < Z.of_nat fuel ->
  cmp_bytes fuel m l r n = Ok (ref_memcmp x y).
Proof using.
  intros Hst Hf. apply wp_eq.
  apply (wp_loop cmp_at (fun '(_, _, n) => Z.to_nat n));
    [|exact Hst|destruct Hst as (? & ? & _ & _ & _ & -> & _); lia].
  clear. intros [[l r] n] (x' & y' & Hx & Hy & Hl & -> & Hr & Hle). unfold step_ok.
  destruct x' as [|b x'], y' as [|c y']; try easy. destruct (_ =? 0) eqn:E; to_prop; [simpl in E; lia|].
  apply holds_cons in Hx as [H1 Hx]. apply holds_cons in Hy as [H2 Hy]. simpl in Hl.
  rewrite (load8_ok _ _ _ H1). cbn [bind]. rewrite (load8_ok _ _ _ H2). cbn [bind]. simpl in Hr.
  destruct (b =? c); simpl; [|exact Hr]. split; [|lia]. exists x', y'. simpl in Hle. split_and!; auto; lia.
Qed.

Lemma memcmp_ok fuel : holds m p x -> holds m q y -> length x = length y -> (length x < fuel)%nat ->
  memcmp_fscpuf fuel m p q (Z.of_nat (length x)) = Ok (ref_memcmp x y).
Proof using Hwf.
  intros Hx Hy Hl Hf. unfold memcmp_fscpuf. apply wp_eq. apply wp_bind.
  assert (H0 : cmp_at (p, q, Z.of_nat (length x))) by (exists x, y; auto 10).
  assert (Hlt : forall st, cmp_at st -> st.2 < Z.of_nat fuel).
  { intros [[l r] n] (? & ? & _ & _ & _ & -> & _ & ?). simpl. lia. }
  eapply wp_mono; [apply (cmp_loop_ok fuel 8 (p, q, Z.of_nat (length x))); [lia|exact H0|exact (Hlt _ H0)]|].
  intros [[[l r] n]|v] H1; [|exact H1]. apply wp_bind.
  eapply wp_mono; [apply (cmp_loop_ok fuel 4 (l, r, n)); [lia|exact H1|exact (Hlt _ H1)]|].
  intros [[[l2 r2] n2]|v] H2; [|exact H2]. apply wp_eq. apply cmp_bytes_ok; [exact H2|exact (Hlt _ H2)].
Qed.
End Cmp.

(** * The properties *)

(** A region of 256 bytes [0, 1, 2, ...] at 4096. *)
Definition ex_region : mem := write ∅ 4096 (Z.of_nat <$> seq 0 256).

(** [memset] and [bzero] set exactly the [n] bytes at [dst] (to the low byte
    of the value, and to zero), for every alignment and length, on both targets:
    the string-instruction path, the aligned head, the unrolled word loops and the
    byte tail together cover the range once. *)
Theorem memset_correct (t : arch) (m : mem) (dst val : Z) (n fuel : nat) :
  mapped m dst n -> (n < fuel)%nat ->
  memset t fuel m dst val (Z.of_nat n) = Ok (write m dst (replicate n (u8 val)), dst) /\
  bzero t fuel m dst (Z.of_nat n) = Ok (write m dst (replicate n 0)).
Proof.
  intros Hm Hf. assert (H0 : byte 0) by (unfold byte; lia). split.
  - unfold memset, memset_fscpuf. destruct t.
    + destruct (48 <=? _).
      * rewrite Nat2Z.id, rep_stosb_ok, u8_small by (try apply u8_byte; exact Hm). reflexivity.
      * rewrite fill_bytes_start by (auto using u8_byte). reflexivity.
    + rewrite val64_rep, fill_aligned_ok by (auto using u8_byte). reflexivity.
  - unfold bzero. change 0 with (rep 8 0) at 3 6. destruct t; [destruct (48 <=? _)|].
    + rewrite Nat2Z.id, rep_stosb_ok by exact Hm. reflexivity.
    + apply fill_aligned_ok; assumption.
    + apply fill_aligned_ok; assumption.
Qed.

Lemma memset_correct_witness :
  memset Generic 300 ex_region 4099 321 150 = Ok (write ex_region 4099 (replicate 150 65), 4099) /\
  bzero X86_64 300 ex_region 4099 150 = Ok (write ex_region 4099 (replicate 150 0)).
Proof.
  split; [apply (memset_correct Generic ex_region 4099 321 150 300)
         |apply (memset_correct X86_64 ex_region 4099 0 150 300)]; first [mem_check|lia].
Defined.

(** [memcpy] leaves the source bytes at the destination and returns it, on
    both targets, for disjoint ranges and also for overlapping ones with the
    destination below the source. *)
Theorem memcpy_correct (t : arch) (m : mem) (dst src : Z) (l : list Z) (fuel : nat) :
  mem_wf m -> holds m src l -> mapped m dst (length l) ->
  dst <= src \/ src + Z.of_nat (length l) <= dst -> (length l < fuel)%nat ->
  memcpy t fuel m dst src (Z.of_nat (length l)) = Ok (write m dst l, dst).
Proof. intros. apply memcpy_ok; assumption. Qed.

Lemma memcpy_correct_witness :
  memcpy Generic 300 ex_region 4101 4110 100 = Ok (write ex_region 4101 (Z.of_nat <$> seq 14 100), 4101).
Proof.
  change 100 with (Z.of_nat (length (Z.of_nat <$> seq 14 100))).
  apply (memcpy_correct Generic ex_region 4101 4110 (Z.of_nat <$> seq 14 100) 300);
    first [mem_check|vm_compute; lia|left; lia].
Defined.

(** [memmove] on the targets other than x86-64 is correct for overlapping
    ranges when the destination is below the source, when fewer than 64 bytes are
    moved, or when source and destination are at least 64 bytes apart. *)
Theorem memmove_generic_correct (m : mem) (dst src : Z) (l : list Z) (fuel : nat) :
  mem_wf m -> holds m src l -> mapped m dst (length l) -> l <> [] ->
  dst < src \/ (src < dst /\ (src + 64 <= dst \/ Z.of_nat (length l) < 64)) -> (length l < fuel)%nat ->
  memmove Generic fuel m dst src (Z.of_nat (length l)) = Ok (write m dst l, dst).
Proof.
  intros Hwf Hl Hm Hne Hd Hf. unfold memmove, memmove_fscpuf.
  replace ((dst =? src) || (Z.of_nat (length l) =? 0)) with false.
  2:{ symmetry. apply orb_false_iff. rewrite !Z.eqb_neq. destruct l; [easy|]. simpl. lia. }
  destruct (dst <? src) eqn:E; to_prop.
  - apply memcpy_ok; auto. left. lia.
  - rewrite move_down_ok by (auto; lia). reflexivity.
Qed.

Lemma memmove_generic_correct_witness :
  memmove Generic 300 ex_region 4101 4100 60 = Ok (write ex_region 4101 (Z.of_nat <$> seq 4 60), 4101).
Proof.
  change 60 with (Z.of_nat (length (Z.of_nat <$> seq 4 60))).
  apply (memmove_generic_correct ex_region 4101 4100 (Z.of_nat <$> seq 4 60) 300);
    first [mem_check|discriminate|right; vm_compute; intuition congruence|vm_compute; lia].
Defined.

(** with the destination less than 64 bytes above the source, [memmove] of 64
    bytes or more corrupts the data on every target: the unrolled block is copied
    from its lowest word upwards, over source words that are still to be read. *)
Theorem memmove_overlap_corrupts : forall t, exists m',
  memmove t 300 ex_region 4112 4104 72 = Ok (m', 4112) /\
  m' <> write ex_region 4112 (Z.of_nat <$> seq 8 72).
Proof.
  intros t. set (r := memmove t 300 ex_region 4112 4104 72).
  assert (H : match r with Ok (m', p) => bool_decide (p = 4112) && negb (bool_decide (m' !! 4128 = Some 24))
              | _ => false end = true) by (subst r; destruct t; vm_compute; reflexivity).
  destruct r as [[m' p]| |]; try easy. apply andb_true_iff in H as [H1 H2].
  apply bool_decide_eq_true in H1 as ->. exists m'. split; [reflexivity|]. intros ->.
  apply negb_true_iff, bool_decide_eq_false in H2. apply H2. vm_compute. reflexivity.
Qed.

(** on x86-64 the upward branch of [memmove] is wrong: a move of fewer than
    sixteen bytes to a lower address leaves the memory as it was, and a longer one
    copies the bytes but returns the end of the destination. *)
Theorem memmove_x86_upward (m : mem) (dst src : Z) (l : list Z) (fuel : nat) :
  mem_wf m -> holds m src l -> mapped m dst (length l) -> dst < src ->
  memmove X86_64 fuel m dst src (Z.of_nat (length l)) =
    if 16 <=? Z.of_nat (length l) then Ok (write m dst l, dst + Z.of_nat (length l)) else Ok (m, dst).
Proof.
  intros Hwf Hl Hm Hd. unfold memmove, memmove_fscpuf.
  replace (dst =? src) with false by (symmetry; apply Z.eqb_neq; lia).
  replace (dst <? src) with true by (symmetry; apply Z.ltb_lt; lia). rewrite orb_false_l.
  destruct (Z.of_nat (length l) =? 0) eqn:E0; to_prop.
  { rewrite E0. reflexivity. }
  destruct (16 <=? Z.of_nat (length l)); [|reflexivity].
  rewrite Nat2Z.id, rep_movsb_ok by (auto; left; lia). reflexivity.
Qed.

Lemma memmove_x86_upward_witness :
  memmove X86_64 300 ex_region 4100 4120 10 = Ok (ex_region, 4100) /\
  memmove X86_64 300 ex_region 4100 4120 20 = Ok (write ex_region 4100 (Z.of_nat <$> seq 24 20), 4120).
Proof.
  pose proof (memmove_x86_upward ex_region 4100 4120 (Z.of_nat <$> seq 24 10) 300) as H1.
  pose proof (memmove_x86_upward ex_region 4100 4120 (Z.of_nat <$> seq 24 20) 300) as H2.
  split; [apply H1|apply H2]; first [mem_check|lia].
Defined.

(** [memcmp], which compares eight and four bytes at a time, returns the
    difference of the first pair of bytes that differ. *)
Theorem memcmp_correct (m : mem) (p q : Z) (x y : list Z) (fuel : nat) :
  mem_wf m -> holds m p x -> holds m q y -> length x = length y -> (length x < fuel)%nat ->
  memcmp fuel m p q (Z.of_nat (length x)) = Ok (ref_memcmp x y).
Proof. intros. apply memcmp_ok; assumption. Qed.

Lemma memcmp_correct_witness : memcmp 300 ex_region 4100 4200 45 = Ok (-100).
Proof.
  pose proof (memcmp_correct ex_region 4100 4200 (Z.of_nat <$> seq 4 45) (Z.of_nat <$> seq 104 45) 300) as H.
  apply H; first [mem_check|reflexivity|vm_compute; lia].
Defined.
