(* ===== verification/HashFn.v ===== *)
(** The hash functions of the kernel hash map,
    [src/kernel/src/klib/algorithm/hashmap.c]: [SIP64], [MM86128], [xxh3] and
    their public wrappers.  The input is [len] bytes at an address of the
    memory; every read is checked. *)
From stdpp Require Import base gmap list fin_maps.
From Stdlib Require Import ZArith Lia.
From S2P Require Import Prelude Words.

Open Scope Z_scope.
Open Scope c_scope.

(** * The code *)

(** [n] bytes at an address as a little-endian integer: [U8TO64_LE],
    [XXH_read64], [XXH_read32] and the block reads of the Murmur hash. *)
Definition read_le (m : mem) (p : Z) (n : nat) : res Z :=
  let* l := load_bytes m p n in Ok (le l).

(** ** SipHash *)

Definition ROTL (x b : Z) : Z := Z.lor (u64 (Z.shiftl x b)) (Z.shiftr x (64 - b)).

Record sip_state : Type := Sip { v0 : Z; v1 : Z; v2 : Z; v3 : Z }.

Definition SIPROUND (s : sip_state) : sip_state :=
  let '(Sip v0 v1 v2 v3) := s in
  let v0 := u64 (v0 + v1) in let v1 := ROTL v1 13 in
  let v1 := Z.lxor v1 v0 in let v0 := ROTL v0 32 in
  let v2 := u64 (v2 + v3) in let v3 := ROTL v3 16 in
  let v3 := Z.lxor v3 v2 in
  let v0 := u64 (v0 + v3) in let v3 := ROTL v3 21 in
  let v3 := Z.lxor v3 v0 in
  let v2 := u64 (v2 + v1) in let v1 := ROTL v1 17 in
  let v1 := Z.lxor v1 v2 in let v2 := ROTL v2 32 in
  Sip v0 v1 v2 v3.

(** [v3 ^= m; SIPROUND; SIPROUND; v0 ^= m;] *)
Definition sip_absorb (s : sip_state) (w : Z) : sip_state :=
  let '(Sip a b c d) := s in
  let '(Sip a b c d) := SIPROUND (SIPROUND (Sip a b c (Z.lxor d w))) in
  Sip (Z.lxor a w) b c d.

(** The words of the message; the state and the position behind them. *)
Definition sip_words (fuel : nat) (m : mem) (in_ end_ : Z) (s : sip_state) : res (Z * sip_state) :=
  loop fuel (fun '(p, s) =>
    if negb (p =? end_) then
      let* w := read_le m p 8 in
      Ok (inl (p + 8, sip_absorb s w))
    else Ok (inr (p, s))) (in_, s).

(** The switch with its fall-through cases: [b |= in[j-1] << 8*(j-1)] for
    [j = left, ..., 1]. *)
Fixpoint sip_tail (m : mem) (in_ : Z) (left : nat) (b : Z) : res Z :=
  match left with
  | O => Ok b
  | S j =>
      let* c := load8 m (in_ + Z.of_nat j) in
      sip_tail m in_ j (Z.lor b (Z.shiftl c (8 * Z.of_nat j)))
  end.

Definition sip_init (seed0 seed1 : Z) : sip_state :=
  Sip (Z.lxor 8317987319222330741 seed0)    (* 0x736f6d6570736575 *)
      (Z.lxor 7237128888997146477 seed1)    (* 0x646f72616e646f6d *)
      (Z.lxor 7816392313619706465 seed0)    (* 0x6c7967656e657261 *)
      (Z.lxor 8387220255154660723 seed1).   (* 0x7465646279746573 *)

Definition sip_final (s : sip_state) (b : Z) : Z :=
  let '(Sip a x c d) := sip_absorb s b in
  let '(Sip a x c d) := SIPROUND (SIPROUND (SIPROUND (SIPROUND (Sip a x (Z.lxor c 255) d)))) in
  Z.lxor (Z.lxor (Z.lxor a x) c) d.

Definition SIP64 (fuel : nat) (m : mem) (in_ inlen seed0 seed1 : Z) : res Z :=
  let end_ := in_ + inlen - inlen mod 8 in
  let* (p, s) := sip_words fuel m in_ end_ (sip_init seed0 seed1) in
  let left := Z.land inlen 7 in
  let* b := sip_tail m p (Z.to_nat left) (u64 (Z.shiftl inlen 56)) in
  Ok (sip_final s b).

(** ** MurmurHash3, x86, 128 bits *)

Definition mul32 (x y : Z) : Z := u32 (x * y).
Definition ROTL32 (x r : Z) : Z := Z.lor (u32 (Z.shiftl x r)) (Z.shiftr x (32 - r)).

Definition FMIX32 (h : Z) : Z :=
  let h := Z.lxor h (Z.shiftr h 16) in
  let h := mul32 h 2246822507 in          (* 0x85ebca6b *)
  let h := Z.lxor h (Z.shiftr h 13) in
  let h := mul32 h 3266489909 in          (* 0xc2b2ae35 *)
  Z.lxor h (Z.shiftr h 16).

Definition mm_c1 : Z := 597399067.     (* 0x239b961b *)
Definition mm_c2 : Z := 2869860233.    (* 0xab0e9789 *)
Definition mm_c3 : Z := 951274213.     (* 0x38b34ae5 *)
Definition mm_c4 : Z := 2716044179.    (* 0xa1e38b93 *)

(** [k *= ca; k = ROTL32(k, r); k *= cb;] *)
Definition mm_mix (k ca r cb : Z) : Z := mul32 (ROTL32 (mul32 k ca) r) cb.

(** One 16-byte block. *)
Definition mm_block (h : Z * Z * Z * Z) (k : Z * Z * Z * Z) : Z * Z * Z * Z :=
  let '(h1, h2, h3, h4) := h in
  let '(k1, k2, k3, k4) := k in
  let h1 := Z.lxor h1 (mm_mix k1 mm_c1 15 mm_c2) in
  let h1 := ROTL32 h1 19 in let h1 := u32 (h1 + h2) in let h1 := u32 (h1 * 5 + 1444728091) in
  let h2 := Z.lxor h2 (mm_mix k2 mm_c2 16 mm_c3) in
  let h2 := ROTL32 h2 17 in let h2 := u32 (h2 + h3) in let h2 := u32 (h2 * 5 + 197830471) in
  let h3 := Z.lxor h3 (mm_mix k3 mm_c3 17 mm_c4) in
  let h3 := ROTL32 h3 15 in let h3 := u32 (h3 + h4) in let h3 := u32 (h3 * 5 + 2530024501) in
  let h4 := Z.lxor h4 (mm_mix k4 mm_c4 18 mm_c1) in
  let h4 := ROTL32 h4 13 in let h4 := u32 (h4 + h1) in let h4 := u32 (h4 * 5 + 850148119) in
  (h1, h2, h3, h4).

(** [for (i = -nblocks; i; i++)] with [blocks] behind the last block. *)
Definition mm_blocks (fuel : nat) (m : mem) (blocks nblocks : Z) (h : Z * Z * Z * Z)
  : res (Z * Z * Z * Z) :=
  loop fuel (fun '(i, h) =>
    if negb (i =? 0) then
      let* k1 := read_le m (blocks + 4 * (i * 4 + 0)) 4 in
      let* k2 := read_le m (blocks + 4 * (i * 4 + 1)) 4 in
      let* k3 := read_le m (blocks + 4 * (i * 4 + 2)) 4 in
      let* k4 := read_le m (blocks + 4 * (i * 4 + 3)) 4 in
      Ok (inl (i + 1, mm_block h (k1, k2, k3, k4)))
    else Ok (inr h)) (- nblocks, h).

(** [k ^= tail[off+n-1] << 8*(n-1); ... k ^= tail[off] << 0;] *)
Fixpoint mm_tail_word (m : mem) (tail : Z) (off : Z) (n : nat) (k : Z) : res Z :=
  match n with
  | O => Ok k
  | S j =>
      let* c := load8 m (tail + off + Z.of_nat j) in
      mm_tail_word m tail off j (Z.lxor k (Z.shiftl c (8 * Z.of_nat j)))
  end.

(** The switch: the words of the tail from the highest present one down. *)
Definition mm_tail (m : mem) (tail : Z) (rest : Z) (h : Z * Z * Z * Z) : res (Z * Z * Z * Z) :=
  let '(h1, h2, h3, h4) := h in
  let* h4 := (if 13 <=? rest then
                let* k4 := mm_tail_word m tail 12 (Z.to_nat (Z.min 4 (rest - 12))) 0 in
                Ok (Z.lxor h4 (mm_mix k4 mm_c4 18 mm_c1))
              else Ok h4) in
  let* h3 := (if 9 <=? rest then
                let* k3 := mm_tail_word m tail 8 (Z.to_nat (Z.min 4 (rest - 8))) 0 in
                Ok (Z.lxor h3 (mm_mix k3 mm_c3 17 mm_c4))
              else Ok h3) in
  let* h2 := (if 5 <=? rest then
                let* k2 := mm_tail_word m tail 4 (Z.to_nat (Z.min 4 (rest - 4))) 0 in
                Ok (Z.lxor h2 (mm_mix k2 mm_c2 16 mm_c3))
              else Ok h2) in
  let* h1 := (if 1 <=? rest then
                let* k1 := mm_tail_word m tail 0 (Z.to_nat (Z.min 4 rest)) 0 in
                Ok (Z.lxor h1 (mm_mix k1 mm_c1 15 mm_c2))
              else Ok h1) in
  Ok (h1, h2, h3, h4).

(** [h1 += h2; h1 += h3; h1 += h4; h2 += h1; h3 += h1; h4 += h1;] *)
Definition mm_sum (h : Z * Z * Z * Z) : Z * Z * Z * Z :=
  let '(h1, h2, h3, h4) := h in
  let h1 := u32 (h1 + h2) in let h1 := u32 (h1 + h3) in let h1 := u32 (h1 + h4) in
  (h1, u32 (h2 + h1), u32 (h3 + h1), u32 (h4 + h1)).

(** [len] is an [int32_t]; the seed parameter is [uint32_t]. *)
Definition MM86128 (fuel : nat) (m : mem) (key len seed : Z) : res Z :=
  let nblocks := Z.quot len 16 in
  let* h := mm_blocks fuel m (key + nblocks * 16) nblocks (seed, seed, seed, seed) in
  let* h := mm_tail m (key + nblocks * 16) (Z.land len 15) h in
  let '(h1, h2, h3, h4) := h in
  let l := u32 len in
  let '(h1, h2, h3, h4) := mm_sum (Z.lxor h1 l, Z.lxor h2 l, Z.lxor h3 l, Z.lxor h4 l) in
  let '(h1, h2, h3, h4) := mm_sum (FMIX32 h1, FMIX32 h2, FMIX32 h3, FMIX32 h4) in
  Ok (Z.lor (Z.shiftl h2 32) h1).

(** ** xxHash *)

Definition XXH_PRIME_1 : Z := 11400714785074694791.
Definition XXH_PRIME_2 : Z := 14029467366897019727.
Definition XXH_PRIME_3 : Z := 1609587929392839161.
Definition XXH_PRIME_4 : Z := 9650029242287828579.
Definition XXH_PRIME_5 : Z := 2870177450012600261.

Definition XXH_read64 (m : mem) (p : Z) : res Z := read_le m p 8.
Definition XXH_read32 (m : mem) (p : Z) : res Z := read_le m p 4.
Definition XXH_rotl64 (x r : Z) : Z := Z.lor (u64 (Z.shiftl x r)) (Z.shiftr x (64 - r)).

(** [v += w * P2; v = rotl(v, 31); v *= P1;] *)
Definition xxh_lane (v w : Z) : Z :=
  u64 (XXH_rotl64 (u64 (v + u64 (w * XXH_PRIME_2))) 31 * XXH_PRIME_1).

(** [v *= P2; v = rotl(v, 31); v *= P1; h ^= v; h = h * P1 + P4;] *)
Definition xxh_merge (h v : Z) : Z :=
  let v := u64 (v * XXH_PRIME_2) in
  let v := XXH_rotl64 v 31 in
  let v := u64 (v * XXH_PRIME_1) in
  u64 (u64 (Z.lxor h v * XXH_PRIME_1) + XXH_PRIME_4).

(** The [do ... while (p <= limit)] loop over 32-byte stripes. *)
Definition xxh_stripes (fuel : nat) (m : mem) (p limit : Z) (v : Z * Z * Z * Z)
  : res (Z * (Z * Z * Z * Z)) :=
  loop fuel (fun '(p, (v1, v2, v3, v4)) =>
    let* w1 := XXH_read64 m p in
    let* w2 := XXH_read64 m (p + 8) in
    let* w3 := XXH_read64 m (p + 16) in
    let* w4 := XXH_read64 m (p + 24) in
    let v' := (xxh_lane v1 w1, xxh_lane v2 w2, xxh_lane v3 w3, xxh_lane v4 w4) in
    let p' := p + 32 in
    if p' <=? limit then Ok (inl (p', v')) else Ok (inr (p', v'))) (p, v).

(** [k1 = ...; h64 ^= k1; h64 = rotl(h64, 27) * P1 + P4;] *)
Definition xxh_word (h w : Z) : Z :=
  let k1 := u64 (w * XXH_PRIME_2) in
  let k1 := XXH_rotl64 k1 31 in
  let k1 := u64 (k1 * XXH_PRIME_1) in
  u64 (u64 (XXH_rotl64 (Z.lxor h k1) 27 * XXH_PRIME_1) + XXH_PRIME_4).

Definition xxh_half (h w : Z) : Z :=
  u64 (u64 (XXH_rotl64 (Z.lxor h (u64 (w * XXH_PRIME_1))) 23 * XXH_PRIME_2) + XXH_PRIME_3).

Definition xxh_byte (h b : Z) : Z :=
  u64 (XXH_rotl64 (Z.lxor h (u64 (b * XXH_PRIME_5))) 11 * XXH_PRIME_1).

Definition xxh_words (fuel : nat) (m : mem) (p end_ h : Z) : res (Z * Z) :=
  loop fuel (fun '(p, h) =>
    if p + 8 <=? end_ then
      let* w := XXH_read64 m p in
      Ok (inl (p + 8, xxh_word h w))
    else Ok (inr (p, h))) (p, h).

Definition xxh_bytes (fuel : nat) (m : mem) (p end_ h : Z) : res Z :=
  loop fuel (fun '(p, h) =>
    if p <? end_ then
      let* b := load8 m p in
      Ok (inl (p + 1, xxh_byte h b))
    else Ok (inr h)) (p, h).

Definition xxh_avalanche (h : Z) : Z :=
  let h := Z.lxor h (Z.shiftr h 33) in
  let h := u64 (h * XXH_PRIME_2) in
  let h := Z.lxor h (Z.shiftr h 29) in
  let h := u64 (h * XXH_PRIME_3) in
  Z.lxor h (Z.shiftr h 32).

Definition xxh_start (seed : Z) : Z * Z * Z * Z :=
  (u64 (seed + XXH_PRIME_1 + XXH_PRIME_2), u64 (seed + XXH_PRIME_2), seed, u64 (seed - XXH_PRIME_1)).

Definition xxh_converge (v : Z * Z * Z * Z) : Z :=
  let '(v1, v2, v3, v4) := v in
  let h := u64 (XXH_rotl64 v1 1 + XXH_rotl64 v2 7 + XXH_rotl64 v3 12 + XXH_rotl64 v4 18) in
  xxh_merge (xxh_merge (xxh_merge (xxh_merge h v1) v2) v3) v4.

Definition xxh3 (fuel : nat) (m : mem) (data len seed : Z) : res Z :=
  let p := data in
  let end_ := p + len in
  let* (p, h) :=
    (if 32 <=? len then
       let limit := end_ - 32 in
       let* (p, v) := xxh_stripes fuel m p limit (xxh_start seed) in
       Ok (p, xxh_converge v)
     else Ok (p, u64 (seed + XXH_PRIME_5))) in
  let h := u64 (h + len) in
  let* (p, h) := xxh_words fuel m p end_ h in
  let* (p, h) :=
    (if p + 4 <=? end_ then
       let* w := XXH_read32 m p in
       Ok (p + 4, xxh_half h w)
     else Ok (p, h)) in
  let* h := xxh_bytes fuel m p end_ h in
  Ok (xxh_avalanche h).

(** ** The public wrappers *)

Definition hashmap_sip (fuel : nat) (m : mem) (data len seed0 seed1 : Z) : res Z :=
  SIP64 fuel m data len seed0 seed1.

(** [len] is narrowed to [int32_t] and [seed0] to [uint32_t]. *)
Definition hashmap_murmur (fuel : nat) (m : mem) (data len seed0 seed1 : Z) : res Z :=
  MM86128 fuel m data (i32 len) (u32 seed0).

Definition hashmap_xxhash3 (fuel : nat) (m : mem) (data len seed0 seed1 : Z) : res Z :=
  xxh3 fuel m data len seed0.

(** * Test vectors *)

(** The example of the SipHash paper: key 00..0f, message 00..0e. *)
Example sip_vector :
  SIP64 10 (write ∅ 64 (Z.of_nat <$> seq 0 15)) 64 15 (le (Z.of_nat <$> seq 0 8)) (le (Z.of_nat <$> seq 8 8))
    = Ok 11613035633349379557.   (* 0xa129ca6149be45e5 *)
Proof. vm_compute. reflexivity. Qed.

(** XXH64 of the empty string and of ["abc"], seed 0. *)
Example xxh_vector_empty : xxh3 10 ∅ 64 0 0 = Ok 17241709254077376921.   (* 0xef46db3751d8e999 *)
Proof. vm_compute. reflexivity. Qed.

Example xxh_vector_abc : xxh3 10 (write ∅ 64 [97; 98; 99]) 64 3 0 = Ok 4952883123889572249. (* 0x44bc2cf5ad770999 *)
Proof. vm_compute. reflexivity. Qed.

(** * Reference definitions on byte lists *)

(** The first [n] words of [w] bytes. *)
Fixpoint words (w n : nat) (l : list Z) : list Z :=
  match n with
  | O => []
  | S n' => le (take w l) :: words w n' (drop w l)
  end.

(** SipHash-2-4: the full words, then one word with the rest of the message and
    the length modulo 256 in the top byte. *)
Definition sip_ref (seed0 seed1 : Z) (l : list Z) : Z :=
  let q := (length l / 8)%nat in
  let s := foldl sip_absorb (sip_init seed0 seed1) (words 8 q l) in
  sip_final s (le (drop (8 * q) l) + 2 ^ 56 * (Z.of_nat (length l) mod 256)).

Fixpoint xxh_ref_stripes (v : Z * Z * Z * Z) (ws : list Z) : Z * Z * Z * Z :=
  match ws with
  | w1 :: w2 :: w3 :: w4 :: ws' =>
      let '(v1, v2, v3, v4) := v in
      xxh_ref_stripes (xxh_lane v1 w1, xxh_lane v2 w2, xxh_lane v3 w3, xxh_lane v4 w4) ws'
  | _ => v
  end.

(** The rest of the input behind the stripes: words, at most one half word, bytes. *)
Definition xxh_ref_rest (h : Z) (l : list Z) : Z :=
  let q := (length l / 8)%nat in
  let h := foldl xxh_word h (words 8 q l) in
  let l := drop (8 * q) l in
  if (4 <=? length l)%nat then foldl xxh_byte (xxh_half h (le (take 4 l))) (drop 4 l)
  else foldl xxh_byte h l.

Definition xxh_ref (seed : Z) (l : list Z) : Z :=
  let q := (length l / 32)%nat in
  let h := if (32 <=? length l)%nat
           then xxh_converge (xxh_ref_stripes (xxh_start seed) (words 8 (4 * q) l))
           else u64 (seed + XXH_PRIME_5) in
  xxh_avalanche (xxh_ref_rest (u64 (h + Z.of_nat (length l))) (drop (32 * q) l)).

(** MurmurHash3 over the blocks of four words, the words of the rest, and the
    finalisation. *)
Fixpoint mm_ref_blocks (h : Z * Z * Z * Z) (ws : list Z) : Z * Z * Z * Z :=
  match ws with
  | k1 :: k2 :: k3 :: k4 :: ws' => mm_ref_blocks (mm_block h (k1, k2, k3, k4)) ws'
  | _ => h
  end.

Definition mm_ref_tail (h : Z * Z * Z * Z) (t : list Z) : Z * Z * Z * Z :=
  let '(h1, h2, h3, h4) := h in
  let word j := le (take 4 (drop (4 * j) t)) in
  let on (j : nat) (h ca r cb : Z) := if (4 * j <? length t)%nat then Z.lxor h (mm_mix (word j) ca r cb) else h in
  (on 0%nat h1 mm_c1 15 mm_c2, on 1%nat h2 mm_c2 16 mm_c3, on 2%nat h3 mm_c3 17 mm_c4, on 3%nat h4 mm_c4 18 mm_c1).

Definition mm_ref (seed : Z) (l : list Z) : Z :=
  let q := (length l / 16)%nat in
  let h := mm_ref_blocks (seed, seed, seed, seed) (words 4 (4 * q) l) in
  let '(h1, h2, h3, h4) := mm_ref_tail h (drop (16 * q) l) in
  let n := Z.of_nat (length l) in
  let '(h1, h2, h3, h4) := mm_sum (Z.lxor h1 n, Z.lxor h2 n, Z.lxor h3 n, Z.lxor h4 n) in
  let '(h1, h2, h3, h4) := mm_sum (FMIX32 h1, FMIX32 h2, FMIX32 h3, FMIX32 h4) in
  Z.lor (Z.shiftl h2 32) h1.

(** * Proofs *)

Lemma words_add w a b l : words w (a + b) l = words w a l ++ words w b (drop (w * a) l).
Proof.
  revert l. induction a as [|a IH]; intros l; simpl.
  - rewrite Nat.mul_0_r, drop_0. reflexivity.
  - rewrite IH, drop_drop. replace (w * S a)%nat with (w + w * a)%nat by lia. reflexivity.
Qed.

Lemma words_S w n l : words w (S n) l = words w n l ++ [le (take w (drop (w * n) l))].
Proof. replace (S n) with (n + 1)%nat by lia. rewrite words_add. reflexivity. Qed.

Section Hash.
Context (m : mem) (p0 : Z) (l : list Z).
Hypothesis Hwf : mem_wf m.
Hypothesis Hl : holds m p0 l.

Lemma read_at (w k : nat) : (k + w <= length l)%nat ->
  read_le m (p0 + Z.of_nat k) w = Ok (le (take w (drop k l))).
Proof using Hl.
  intros H. unfold read_le. rewrite (load_prefix _ _ (drop k l)); [reflexivity| |rewrite length_drop; lia].
  apply holds_drop, Hl.
Qed.

Lemma byte_at k b : l !! k = Some b -> load8 m (p0 + Z.of_nat k) = Ok b.
Proof using Hl. intros H. apply load8_ok, Hl, H. Qed.

(** ** SipHash *)

Lemma sip_words_ok fuel s : (length l < fuel)%nat ->
  sip_words fuel m p0 (p0 + Z.of_nat (8 * (length l / 8))) s =
    Ok (p0 + Z.of_nat (8 * (length l / 8)), foldl sip_absorb s (words 8 (length l / 8) l)).
Proof using Hl.
  intros Hf. set (q := (length l / 8)%nat).
  assert (Hq : (8 * q <= length l)%nat) by (subst q; apply Nat.Div0.mul_div_le).
  apply wp_eq.
  apply (wp_loop (fun '(p, s') => exists k, (k <= q)%nat /\ p = p0 + Z.of_nat (8 * k) /\
            s' = foldl sip_absorb s (words 8 k l)) (fun '(p, _) => Z.to_nat (p0 + Z.of_nat (8 * q) - p))).
  - intros [p s'] (k & Hk & -> & ->). unfold step_ok. destruct (negb _) eqn:E; to_prop.
    + rewrite read_at by lia. cbn [bind wp]. split; [|lia]. exists (S k).
      split; [lia|]. split; [lia|]. rewrite words_S, foldl_app. reflexivity.
    + simpl. replace k with q by lia. reflexivity.
  - exists 0%nat. split; [lia|]. split; [lia|reflexivity].
  - lia.
Qed.

Lemma lor_add_low a c k : 0 <= k -> 0 <= c < 2 ^ k -> Z.lor (a * 2 ^ k) c = a * 2 ^ k + c.
Proof using.
  intros Hk Hc. symmetry. apply Z.add_nocarry_lor. apply Z.bits_inj'. intros n Hn.
  rewrite Z.land_spec, Z.bits_0. destruct (Z_lt_le_dec n k).
  - rewrite Z.mul_pow2_bits_low by lia. reflexivity.
  - rewrite (Z.testbit_eqb c) by lia. rewrite Z.div_small; [rewrite andb_false_r; reflexivity|].
    split; [lia|]. eapply Z.lt_le_trans; [apply Hc|]. apply Z.pow_le_mono_r; lia.
Qed.

(** The bytes of the tail from the top one down. *)
Lemma sip_tail_ok q : (length (drop q l) < 8)%nat -> forall j a, (j <= length (drop q l))%nat ->
  sip_tail m (p0 + Z.of_nat q) j (a * 2 ^ (8 * Z.of_nat j)) =
    Ok (a * 2 ^ (8 * Z.of_nat j) + le (take j (drop q l))).
Proof using Hwf Hl.
  intros Hq. set (t := drop q l) in *.
  assert (Ht : holds m (p0 + Z.of_nat q) t) by apply holds_drop, Hl.
  assert (Bt : bytes t) by (eapply holds_bytes; eassumption).
  induction j as [|j IH]; intros a Hj; [simpl; f_equal; lia|].
  destruct (lookup_lt_is_Some_2 t j ltac:(lia)) as [c Hc]. simpl sip_tail.
  rewrite (load8_ok _ _ c) by apply Ht, Hc. cbn [bind].
  assert (Bc : byte c) by (unfold bytes in Bt; rewrite Forall_lookup in Bt; eauto). unfold byte in Bc.
  replace (8 * Z.of_nat (S j)) with (8 + 8 * Z.of_nat j) by lia. rewrite Z.pow_add_r by lia.
  rewrite Z.shiftl_mul_pow2 by lia. change (2 ^ 8) with 256.
  replace (Z.lor (a * (256 * 2 ^ (8 * Z.of_nat j))) (c * 2 ^ (8 * Z.of_nat j)))
    with ((a * 256 + c) * 2 ^ (8 * Z.of_nat j)).
  2:{ rewrite Z.mul_assoc, <- !Z.shiftl_mul_pow2 by lia. rewrite <- Z.shiftl_lor. f_equal.
      change 256 with (2 ^ 8). rewrite lor_add_low by lia. reflexivity. }
  rewrite IH by lia. f_equal. rewrite (take_S_r _ _ _ Hc), le_app, length_take.
  replace (j `min` length t)%nat with j by lia. simpl le.
  replace (256 ^ Z.of_nat j) with (2 ^ (8 * Z.of_nat j)) by (rewrite Z.pow_mul_r by lia; reflexivity). nia.
Qed.

Lemma div_mod_nat (n k : nat) : (0 < k)%nat -> (n - k * (n / k) < k)%nat.
Proof using.
  intros H. pose proof (Nat.div_mod_eq n k). pose proof (Nat.mod_upper_bound n k ltac:(lia)). lia.
Qed.

Lemma sip_ok fuel seed0 seed1 : (length l < fuel)%nat ->
  SIP64 fuel m p0 (Z.of_nat (length l)) seed0 seed1 = Ok (sip_ref seed0 seed1 l).
Proof using Hwf Hl.
  intros Hf. unfold SIP64, sip_ref. set (q := (length l / 8)%nat).
  assert (Hq : (8 * q <= length l)%nat) by (subst q; apply Nat.Div0.mul_div_le).
  assert (Hr : (length l - 8 * q < 8)%nat) by (subst q; apply div_mod_nat; lia).
  assert (Hm : Z.of_nat (length l) mod 8 = Z.of_nat (length l) - Z.of_nat (8 * q)).
  { symmetry. apply (Z.mod_unique_pos _ _ (Z.of_nat q)); lia. }
  replace (p0 + Z.of_nat (length l) - Z.of_nat (length l) mod 8) with (p0 + Z.of_nat (8 * q)) by lia.
  rewrite sip_words_ok by exact Hf. fold q. cbn [bind].
  rewrite land_7, Hm. replace (u64 (Z.shiftl (Z.of_nat (length l)) 56)) with
    ((Z.of_nat (length l) mod 256) * 2 ^ (56 - 8 * Z.of_nat (length l - 8 * q)) * 2 ^ (8 * Z.of_nat (length l - 8 * q))).
  2:{ rewrite <- Z.mul_assoc, <- Z.pow_add_r by lia. replace (56 - _ + _) with 56 by lia.
      unfold u64. rewrite Z.shiftl_mul_pow2 by lia. change (2 ^ 64) with (256 * 2 ^ 56).
      rewrite Z.mul_mod_distr_r by lia. reflexivity. }
  replace (Z.to_nat (Z.of_nat (length l) - Z.of_nat (8 * q))) with (length l - 8 * q)%nat by lia.
  rewrite sip_tail_ok by (rewrite length_drop; lia). cbn [bind]. do 2 f_equal.
  rewrite take_ge by (rewrite length_drop; lia).
  rewrite <- Z.mul_assoc, <- Z.pow_add_r by lia. replace (56 - _ + _) with 56 by lia. lia.
Qed.

(** ** xxHash *)

Lemma words_length w n z : length (words w n z) = n.
Proof using. revert z. induction n; intros z; simpl; auto. Qed.

Lemma stripes_snoc k : forall v ws w1 w2 w3 w4, length ws = (4 * k)%nat ->
  xxh_ref_stripes v (ws ++ [w1; w2; w3; w4]) =
    let '(v1, v2, v3, v4) := xxh_ref_stripes v ws in
    (xxh_lane v1 w1, xxh_lane v2 w2, xxh_lane v3 w3, xxh_lane v4 w4).
Proof using.
  induction k as [|k IH]; intros v ws w1 w2 w3 w4 Hw.
  - destruct ws; [|easy]. reflexivity.
  - destruct ws as [|a [|b [|c [|d ws]]]]; simpl in Hw; try lia.
    destruct v as [[[v1 v2] v3] v4]. simpl. apply IH. lia.
Qed.

Lemma words_stripe k :
  words 8 (4 * S k) l = words 8 (4 * k) l ++
    [le (take 8 (drop (32 * k) l)); le (take 8 (drop (32 * k + 8) l));
     le (take 8 (drop (32 * k + 16) l)); le (take 8 (drop (32 * k + 24) l))].
Proof using.
  replace (4 * S k)%nat with (4 * k + 4)%nat by lia. rewrite words_add. f_equal.
  replace (8 * (4 * k))%nat with (32 * k)%nat by lia. cbn [words]. rewrite !drop_drop.
  replace (32 * k + 8 + 8)%nat with (32 * k + 16)%nat by lia.
  replace (32 * k + 16 + 8)%nat with (32 * k + 24)%nat by lia. reflexivity.
Qed.

Lemma xxh_stripes_ok fuel v : (32 <= length l)%nat -> (length l < fuel)%nat ->
  let q := (length l / 32)%nat in
  xxh_stripes fuel m p0 (p0 + Z.of_nat (length l) - 32) v =
    Ok (p0 + Z.of_nat (32 * q), xxh_ref_stripes v (words 8 (4 * q) l)).
Proof using Hl.
  intros Hlen Hf q.
  assert (Hq : (32 * q <= length l)%nat) by (subst q; apply Nat.Div0.mul_div_le).
  assert (Hr : (length l - 32 * q < 32)%nat) by (subst q; apply div_mod_nat; lia).
  assert (Hq1 : (1 <= q)%nat) by lia. apply wp_eq.
  apply (wp_loop (fun '(p, v') => exists k, (k < q)%nat /\ p = p0 + Z.of_nat (32 * k) /\
            v' = xxh_ref_stripes v (words 8 (4 * k) l))
         (fun '(p, _) => Z.to_nat (p0 + Z.of_nat (32 * q) - p))).
  - intros [p v'] (k & Hk & -> & ->). unfold step_ok.
    destruct (xxh_ref_stripes v (words 8 (4 * k) l)) as [[[v1 v2] v3] v4] eqn:Ev.
    replace (p0 + Z.of_nat (32 * k) + 8) with (p0 + Z.of_nat (32 * k + 8)) by lia.
    replace (p0 + Z.of_nat (32 * k) + 16) with (p0 + Z.of_nat (32 * k + 16)) by lia.
    replace (p0 + Z.of_nat (32 * k) + 24) with (p0 + Z.of_nat (32 * k + 24)) by lia.
    unfold XXH_read64. rewrite !read_at by lia. cbn [bind].
    assert (En : xxh_ref_stripes v (words 8 (4 * S k) l) =
      (xxh_lane v1 (le (take 8 (drop (32 * k) l))), xxh_lane v2 (le (take 8 (drop (32 * k + 8) l))),
       xxh_lane v3 (le (take 8 (drop (32 * k + 16) l))), xxh_lane v4 (le (take 8 (drop (32 * k + 24) l))))).
    { rewrite words_stripe, (stripes_snoc k) by apply words_length. rewrite Ev. reflexivity. }
    rewrite <- En. destruct (_ <=? _) eqn:E; to_prop; cbn [wp].
    + split; [|lia]. exists (S k). split; [lia|]. split; [lia|reflexivity].
    + replace q with (S k) by lia. f_equal. lia.
  - exists 0%nat. split; [lia|]. split; [lia|reflexivity].
  - lia.
Qed.

Lemma xxh_words_ok fuel k0 h : (k0 <= length l)%nat -> (length l < fuel)%nat ->
  let q := (length (drop k0 l) / 8)%nat in
  xxh_words fuel m (p0 + Z.of_nat k0) (p0 + Z.of_nat (length l)) h =
    Ok (p0 + Z.of_nat (k0 + 8 * q), foldl xxh_word h (words 8 q (drop k0 l))).
Proof using Hl.
  intros Hk0 Hf q.
  assert (Hq : (8 * q <= length (drop k0 l))%nat) by (subst q; apply Nat.Div0.mul_div_le).
  assert (Hr : (length (drop k0 l) - 8 * q < 8)%nat) by (subst q; apply div_mod_nat; lia).
  rewrite length_drop in Hq, Hr. apply wp_eq.
  apply (wp_loop (fun '(p, h') => exists k, (k <= q)%nat /\ p = p0 + Z.of_nat (k0 + 8 * k) /\
            h' = foldl xxh_word h (words 8 k (drop k0 l)))
         (fun '(p, _) => Z.to_nat (p0 + Z.of_nat (length l) - p))).
  - intros [p h'] (k & Hk & -> & ->). unfold step_ok. destruct (_ <=? _) eqn:E; to_prop.
    + unfold XXH_read64. rewrite read_at by lia. cbn [bind wp]. split; [|lia]. exists (S k).
      split; [lia|]. split; [lia|]. rewrite words_S, foldl_app, drop_drop. reflexivity.
    + cbn [wp]. replace k with q by lia. reflexivity.
  - exists 0%nat. split; [lia|]. split; [lia|reflexivity].
  - lia.
Qed.

Lemma xxh_bytes_ok fuel k0 h : (k0 <= length l)%nat -> (length l < fuel)%nat ->
  xxh_bytes fuel m (p0 + Z.of_nat k0) (p0 + Z.of_nat (length l)) h = Ok (foldl xxh_byte h (drop k0 l)).
Proof using Hl.
  intros Hk0 Hf. apply wp_eq.
  apply (wp_loop (fun '(p, h') => exists k, (k <= length l)%nat /\ p = p0 + Z.of_nat k /\
            foldl xxh_byte h' (drop k l) = foldl xxh_byte h (drop k0 l))
         (fun '(p, _) => Z.to_nat (p0 + Z.of_nat (length l) - p))).
  - intros [p h'] (k & Hk & -> & Eh). unfold step_ok. destruct (_ <? _) eqn:E; to_prop.
    + destruct (lookup_lt_is_Some_2 l k ltac:(lia)) as [b Hb]. rewrite (byte_at _ _ Hb). cbn [bind wp].
      split; [|lia]. exists (S k). split; [lia|]. split; [lia|]. rewrite <- Eh, (drop_S _ _ _ Hb). reflexivity.
    + cbn [wp]. rewrite drop_ge in Eh by lia. exact Eh.
  - exists k0. auto.
  - lia.
Qed.

Lemma xxh_ok fuel seed : (length l < fuel)%nat ->
  xxh3 fuel m p0 (Z.of_nat (length l)) seed = Ok (xxh_ref seed l).
Proof using Hl.
  intros Hf. unfold xxh3, xxh_ref. set (q := (length l / 32)%nat).
  assert (Hq : (32 * q <= length l)%nat) by (subst q; apply Nat.Div0.mul_div_le).
  set (h0 := if (32 <=? length l)%nat then _ else _).
  replace (if 32 <=? Z.of_nat (length l) then _ else _) with (Ok (p0 + Z.of_nat (32 * q), h0)).
  2:{ subst h0. destruct (32 <=? Z.of_nat (length l)) eqn:E; to_prop.
      - rewrite xxh_stripes_ok by lia. cbn [bind]. fold q.
        replace (32 <=? length l)%nat with true by (symmetry; apply Nat.leb_le; lia). reflexivity.
      - replace (32 <=? length l)%nat with false by (symmetry; apply Nat.leb_gt; lia).
        replace q with 0%nat by lia. rewrite Z.add_0_r. reflexivity. }
  cbn [bind]. rewrite xxh_words_ok by lia. cbn [bind]. unfold xxh_ref_rest.
  set (h1 := u64 _). set (q8 := (length (drop (32 * q) l) / 8)%nat). set (h2 := foldl xxh_word h1 _).
  assert (Hq8 : (8 * q8 <= length (drop (32 * q) l))%nat) by (subst q8; apply Nat.Div0.mul_div_le).
  rewrite length_drop in Hq8. rewrite drop_drop, length_drop.
  destruct (_ <=? p0 + Z.of_nat (length l)) eqn:E; to_prop.
  - replace (4 <=? length l - (32 * q + 8 * q8))%nat with true by (symmetry; apply Nat.leb_le; lia).
    unfold XXH_read32. rewrite read_at by lia. cbn [bind].
    replace (p0 + Z.of_nat (32 * q + 8 * q8) + 4) with (p0 + Z.of_nat (32 * q + 8 * q8 + 4)) by lia.
    rewrite xxh_bytes_ok by lia. cbn [bind]. rewrite drop_drop. reflexivity.
  - replace (4 <=? length l - (32 * q + 8 * q8))%nat with false by (symmetry; apply Nat.leb_gt; lia).
    cbn [bind]. rewrite xxh_bytes_ok by lia. reflexivity.
Qed.

(** ** MurmurHash3 *)

Lemma mm_blocks_snoc k : forall h ws w1 w2 w3 w4, length ws = (4 * k)%nat ->
  mm_ref_blocks h (ws ++ [w1; w2; w3; w4]) = mm_block (mm_ref_blocks h ws) (w1, w2, w3, w4).
Proof using.
  induction k as [|k IH]; intros h ws w1 w2 w3 w4 Hw.
  - destruct ws; [|easy]. reflexivity.
  - destruct ws as [|a [|b [|c [|d ws]]]]; simpl in Hw; try lia. simpl. apply IH. lia.
Qed.

Lemma words_block k :
  words 4 (4 * S k) l = words 4 (4 * k) l ++
    [le (take 4 (drop (16 * k) l)); le (take 4 (drop (16 * k + 4) l));
     le (take 4 (drop (16 * k + 8) l)); le (take 4 (drop (16 * k + 12) l))].
Proof using.
  replace (4 * S k)%nat with (4 * k + 4)%nat by lia. rewrite words_add. f_equal.
  replace (4 * (4 * k))%nat with (16 * k)%nat by lia. cbn [words]. rewrite !drop_drop.
  replace (16 * k + 4 + 4)%nat with (16 * k + 8)%nat by lia.
  replace (16 * k + 8 + 4)%nat with (16 * k + 12)%nat by lia. reflexivity.
Qed.

Lemma mm_blocks_ok fuel h : (length l < fuel)%nat ->
  let q := (length l / 16)%nat in
  mm_blocks fuel m (p0 + Z.of_nat (16 * q)) (Z.of_nat q) h = Ok (mm_ref_blocks h (words 4 (4 * q) l)).
Proof using Hl.
  intros Hf q.
  assert (Hq : (16 * q <= length l)%nat) by (subst q; apply Nat.Div0.mul_div_le). apply wp_eq.
  apply (wp_loop (fun '(i, h') => exists k, (k <= q)%nat /\ i = Z.of_nat k - Z.of_nat q /\
            h' = mm_ref_blocks h (words 4 (4 * k) l)) (fun '(i, _) => Z.to_nat (- i))).
  - intros [i h'] (k & Hk & -> & ->). unfold step_ok. destruct (negb _) eqn:E; to_prop.
    + set (i := Z.of_nat k - Z.of_nat q) in *.
      replace (p0 + Z.of_nat (16 * q) + 4 * (i * 4 + 0)) with (p0 + Z.of_nat (16 * k)) by lia.
      replace (p0 + Z.of_nat (16 * q) + 4 * (i * 4 + 1)) with (p0 + Z.of_nat (16 * k + 4)) by lia.
      replace (p0 + Z.of_nat (16 * q) + 4 * (i * 4 + 2)) with (p0 + Z.of_nat (16 * k + 8)) by lia.
      replace (p0 + Z.of_nat (16 * q) + 4 * (i * 4 + 3)) with (p0 + Z.of_nat (16 * k + 12)) by lia.
      rewrite !read_at by lia. cbn [bind wp]. split; [|lia]. exists (S k). split; [lia|]. split; [lia|].
      rewrite words_block, (mm_blocks_snoc k) by apply words_length. reflexivity.
    + cbn [wp]. replace k with q by lia. reflexivity.
  - exists 0%nat. split; [lia|]. split; [lia|reflexivity].
  - lia.
Qed.

Lemma lxor_add_low a c k : 0 <= k -> 0 <= c < 2 ^ k -> Z.lxor (a * 2 ^ k) c = a * 2 ^ k + c.
Proof using.
  intros Hk Hc. rewrite <- (lor_add_low a c k Hk Hc). symmetry. apply Z.bits_inj'. intros n Hn.
  rewrite Z.lor_spec, Z.lxor_spec. destruct (Z_lt_le_dec n k).
  - rewrite Z.mul_pow2_bits_low by lia. destruct (Z.testbit c n); reflexivity.
  - rewrite (Z.testbit_eqb c) by lia. rewrite Z.div_small; [destruct (Z.testbit _ n); reflexivity|].
    split; [lia|]. eapply Z.lt_le_trans; [apply Hc|]. apply Z.pow_le_mono_r; lia.
Qed.

(** The bytes of one tail word from the top one down. *)
Lemma mm_tail_word_ok a t off j : holds m a t -> forall acc, (off + j <= length t)%nat ->
  mm_tail_word m a (Z.of_nat off) j (acc * 2 ^ (8 * Z.of_nat j)) =
    Ok (acc * 2 ^ (8 * Z.of_nat j) + le (take j (drop off t))).
Proof using Hwf.
  intros Ht. assert (Bt : bytes t) by (eapply holds_bytes; eassumption).
  induction j as [|j IH]; intros acc Hj; [simpl; f_equal; lia|].
  destruct (lookup_lt_is_Some_2 t (off + j) ltac:(lia)) as [c Hc]. simpl mm_tail_word.
  rewrite (load8_ok _ _ c) by (rewrite <- (Ht _ _ Hc); f_equal; lia). cbn [bind].
  assert (Bc : byte c) by (unfold bytes in Bt; rewrite Forall_lookup in Bt; eauto). unfold byte in Bc.
  replace (8 * Z.of_nat (S j)) with (8 + 8 * Z.of_nat j) by lia. rewrite Z.pow_add_r by lia.
  rewrite Z.shiftl_mul_pow2 by lia. change (2 ^ 8) with 256.
  replace (Z.lxor (acc * (256 * 2 ^ (8 * Z.of_nat j))) (c * 2 ^ (8 * Z.of_nat j)))
    with ((acc * 256 + c) * 2 ^ (8 * Z.of_nat j)).
  2:{ rewrite Z.mul_assoc, <- !Z.shiftl_mul_pow2 by lia. rewrite <- Z.shiftl_lxor. f_equal.
      change 256 with (2 ^ 8). rewrite lxor_add_low by lia. reflexivity. }
  rewrite IH by lia. f_equal.
  assert (Hc' : drop off t !! j = Some c) by (rewrite lookup_drop; exact Hc).
  rewrite (take_S_r _ _ _ Hc'), le_app, length_take, length_drop.
  replace (j `min` (length t - off))%nat with j by lia. simpl le.
  replace (256 ^ Z.of_nat j) with (2 ^ (8 * Z.of_nat j)) by (rewrite Z.pow_mul_r by lia; reflexivity). nia.
Qed.

(** One case group of the switch. *)
Lemma mm_tail_case a t (j : nat) h ca r cb : holds m a t -> (length t < 16)%nat ->
  (if 4 * Z.of_nat j + 1 <=? Z.of_nat (length t) then
     let* k := mm_tail_word m a (4 * Z.of_nat j) (Z.to_nat (Z.min 4 (Z.of_nat (length t) - 4 * Z.of_nat j))) 0 in
     Ok (Z.lxor h (mm_mix k ca r cb))
   else Ok h) =
  Ok (if (4 * j <? length t)%nat then Z.lxor h (mm_mix (le (take 4 (drop (4 * j) t))) ca r cb) else h).
Proof using Hwf.
  intros Ht Hlen. destruct (_ <=? _) eqn:E; to_prop.
  - replace (4 * j <? length t)%nat with true by (symmetry; apply Nat.ltb_lt; lia).
    set (n := Z.to_nat _). replace (4 * Z.of_nat j) with (Z.of_nat (4 * j)) by lia.
    change 0 with (0 * 2 ^ (8 * Z.of_nat n)) at 1.
    rewrite (mm_tail_word_ok a t) by (auto; subst n; lia). cbn [bind]. rewrite Z.mul_0_l, Z.add_0_l.
    do 4 f_equal. subst n. destruct (decide (4 <= length t - 4 * j)%nat).
    + replace (Z.to_nat _) with 4%nat by lia. reflexivity.
    + rewrite !take_ge by (rewrite length_drop; lia). reflexivity.
  - replace (4 * j <? length t)%nat with false by (symmetry; apply Nat.ltb_ge; lia). reflexivity.
Qed.

Lemma mm_tail_ok a t h : holds m a t -> (length t < 16)%nat ->
  mm_tail m a (Z.of_nat (length t)) h = Ok (mm_ref_tail h t).
Proof using Hwf.
  intros Ht Hlen. destruct h as [[[h1 h2] h3] h4]. unfold mm_tail, mm_ref_tail.
  pose proof (mm_tail_case a t 3 h4 mm_c4 18 mm_c1 Ht Hlen) as E4.
  pose proof (mm_tail_case a t 2 h3 mm_c3 17 mm_c4 Ht Hlen) as E3.
  pose proof (mm_tail_case a t 1 h2 mm_c2 16 mm_c3 Ht Hlen) as E2.
  pose proof (mm_tail_case a t 0 h1 mm_c1 15 mm_c2 Ht Hlen) as E1.
  change (4 * Z.of_nat 3) with 12 in E4. change (4 * Z.of_nat 2) with 8 in E3.
  change (4 * Z.of_nat 1) with 4 in E2. change (4 * Z.of_nat 0) with 0 in E1. rewrite Z.sub_0_r in E1.
  change (12 + 1) with 13 in E4. change (8 + 1) with 9 in E3. change (4 + 1) with 5 in E2. change (0 + 1) with 1 in E1.
  rewrite E4. cbn [bind]. rewrite E3. cbn [bind]. rewrite E2. cbn [bind]. rewrite E1. reflexivity.
Qed.

Lemma murmur_ok fuel seed : Z.of_nat (length l) < 2 ^ 31 -> (length l < fuel)%nat ->
  MM86128 fuel m p0 (Z.of_nat (length l)) seed = Ok (mm_ref seed l).
Proof using Hwf Hl.
  intros Hlen Hf. unfold MM86128, mm_ref. set (q := (length l / 16)%nat).
  assert (Hq : (16 * q <= length l)%nat) by (subst q; apply Nat.Div0.mul_div_le).
  assert (Hr : (length l - 16 * q < 16)%nat) by (subst q; apply div_mod_nat; lia).
  replace (Z.quot (Z.of_nat (length l)) 16) with (Z.of_nat q).
  2:{ rewrite Z.quot_div_nonneg by lia. apply (Z.div_unique_pos _ _ _ (Z.of_nat (length l - 16 * q))); lia. }
  replace (p0 + Z.of_nat q * 16) with (p0 + Z.of_nat (16 * q)) by lia.
  rewrite mm_blocks_ok by exact Hf. fold q. cbn [bind].
  replace (Z.land (Z.of_nat (length l)) 15) with (Z.of_nat (length (drop (16 * q) l))).
  2:{ change 15 with (Z.ones 4). rewrite Z.land_ones, length_drop by lia.
      apply (Z.mod_unique_pos _ _ (Z.of_nat q)); [change (2 ^ 4) with 16|]; lia. }
  rewrite mm_tail_ok by (try apply holds_drop; auto; rewrite length_drop; lia). cbn [bind].
  destruct (mm_ref_tail _ _) as [[[h1 h2] h3] h4].
  replace (u32 (Z.of_nat (length l))) with (Z.of_nat (length l)) by (unfold u32; rewrite Z.mod_small; lia).
  reflexivity.
Qed.
End Hash.

(** * The properties *)

(** [hashmap_sip] is SipHash-2-4 of exactly the [len] input bytes: for every
    length the word loop and the fall-through switch on the last bytes give what
    the specification gives, reading nothing outside the input. *)
Theorem hashmap_sip_is_siphash (m : mem) (data : Z) (l : list Z) (seed0 seed1 : Z) (fuel : nat) :
  mem_wf m -> holds m data l -> (length l < fuel)%nat ->
  hashmap_sip fuel m data (Z.of_nat (length l)) seed0 seed1 = Ok (sip_ref seed0 seed1 l).
Proof. intros. apply sip_ok; assumption. Qed.

Definition ex_msg : list Z := Z.of_nat <$> seq 0 15.

Lemma hashmap_sip_is_siphash_witness :
  hashmap_sip 100 (write ∅ 64 ex_msg) 64 15 (le (Z.of_nat <$> seq 0 8)) (le (Z.of_nat <$> seq 8 8))
    = Ok 11613035633349379557.
Proof.
  pose proof (hashmap_sip_is_siphash (write ∅ 64 ex_msg) 64 ex_msg
    (le (Z.of_nat <$> seq 0 8)) (le (Z.of_nat <$> seq 8 8)) 100) as H.
  etransitivity; [apply H; first [mem_check|vm_compute; lia]|vm_compute; reflexivity].
Defined.

(** [hashmap_xxhash3] computes XXH64 (not XXH3) of exactly the input bytes with
    [seed0] as the seed: stripes of 32 bytes, then words, at most one half word, and
    single bytes, for every length. *)
Theorem hashmap_xxhash3_is_xxh64 (m : mem) (data : Z) (l : list Z) (seed0 seed1 : Z) (fuel : nat) :
  holds m data l -> (length l < fuel)%nat ->
  hashmap_xxhash3 fuel m data (Z.of_nat (length l)) seed0 seed1 = Ok (xxh_ref seed0 l).
Proof. intros. apply xxh_ok; assumption. Qed.

Lemma hashmap_xxhash3_is_xxh64_witness :
  hashmap_xxhash3 100 (write ∅ 64 [97; 98; 99]) 64 3 0 7 = Ok 4952883123889572249.
Proof.
  pose proof (hashmap_xxhash3_is_xxh64 (write ∅ 64 [97; 98; 99]) 64 [97; 98; 99] 0 7 100) as H.
  etransitivity; [apply H; first [mem_check|vm_compute; lia]|vm_compute; reflexivity].
Defined.

(** [hashmap_murmur] is the 128-bit x86 MurmurHash3 of the input bytes with the
    low half of [seed0] as the seed, its first two words being the result, for
    inputs below 2 GiB. *)
Theorem hashmap_murmur_is_murmur3 (m : mem) (data : Z) (l : list Z) (seed0 seed1 : Z) (fuel : nat) :
  mem_wf m -> holds m data l -> Z.of_nat (length l) < 2 ^ 31 -> (length l < fuel)%nat ->
  hashmap_murmur fuel m data (Z.of_nat (length l)) seed0 seed1 = Ok (mm_ref (u32 seed0) l).
Proof.
  intros Hwf Hl Hlen Hf. unfold hashmap_murmur.
  replace (i32 (Z.of_nat (length l))) with (Z.of_nat (length l)) by (unfold i32, sgn; rewrite Z.mod_small; lia).
  apply murmur_ok; assumption.
Qed.

Lemma hashmap_murmur_is_murmur3_witness : exists v,
  hashmap_murmur 100 (write ∅ 64 ex_msg) 64 15 1 2 = Ok v /\ v = mm_ref 1 ex_msg.
Proof.
  exists (mm_ref 1 ex_msg). split; [|reflexivity].
  pose proof (hashmap_murmur_is_murmur3 (write ∅ 64 ex_msg) 64 ex_msg 1 2 100) as H.
  apply H; first [mem_check|vm_compute; lia|vm_compute; reflexivity].
Defined.
