(* ===== verification/HashMap.v ===== *)
(** The kernel hash map, [src/kernel/src/klib/algorithm/hashmap.c]: an array of
    search trees indexed by the low bits of a 48-bit hash, with growing and
    shrinking, a free list of nodes and allocation failures.  The trees
    ([src/kernel/include/klib/algorithm/rbtree.h]) are an interface: the
    operations the map calls and what they promise. *)
From stdpp Require Import base gmap list fin_maps.
From Stdlib Require Import ZArith Lia Sorting.Sorted.
From S2P Require Import Prelude Words.

Open Scope Z_scope.
Open Scope c_scope.

(** * The tree interface *)

(** A node: its clipped hash and the bytes of the stored item.  A search proxy is
    a node holding the key's bytes. *)
Record hnode : Type := HNode { n_hash : Z; n_item : list Z }.

#[export] Instance hnode_eq_dec : EqDecision hnode.
Proof. solve_decision. Defined.

(** The operations of [rb_root_t] the map uses.  [rb_search] may also update the
    root's access statistics and hint, so it returns the root; [rb_set_item] is
    the in-place overwrite of the item of a node in the tree. *)
Class TreeOps (T : Type) : Type := {
  rb_root_init : T;
  rb_search : (hnode -> hnode -> Z) -> T -> hnode -> option hnode * T;
  rb_insert : (hnode -> hnode -> Z) -> T -> hnode -> T;
  rb_erase : T -> hnode -> T;
  rb_set_item : T -> hnode -> list Z -> T;
  rb_inorder : T -> list hnode;        (* [rb_first], then [rb_next] until NULL *)
  rb_postorder : T -> list hnode       (* the visits of [rb_clear] *)
}.

(** * The code *)

Definition GROW_AT : Z := 60.
Definition SHRINK_AT : Z := 10.
Definition LF_BITS : Z := 10.
Definition HASHMAP_STACK_COLLECT : Z := 64.

Definition PCT_TO_LF (pct : Z) : Z := u16 ((pct * 1024 + 50) / 100).
Definition SHRINK_LF : Z := PCT_TO_LF SHRINK_AT.

Definition clamp_load_factor_pct (percent default_percent : Z) : Z :=
  let percent := if percent =? 0 then default_percent else percent in
  let percent := if percent <? 50 then 50 else percent in
  if 95 <? percent then 95 else percent.

Definition lf_threshold (nbuckets lf_fixed : Z) : Z := Z.shiftr (u64 (nbuckets * lf_fixed)) LF_BITS.

Definition clip_hash (hash : Z) : Z := Z.land hash 281474976710655.   (* 0xFFFFFFFFFFFF *)

(** [size_t p = 16; while (p < v) p <<= 1;]  At most 60 shifts keep [p] nonzero. *)
Definition hashmap_round_pow2 (v : Z) : res Z :=
  loop 62 (fun p => if p <? v then Ok (inl (u64 (Z.shiftl p 1))) else Ok (inr p)) 16.

Section Code.
Context {T : Type} `{!TreeOps T}.

Record hashmap : Type := HashMap {
  elsize : Z;
  mask : Z;
  count : Z;
  growat : Z;
  shrinkat : Z;
  regions : list T;
  hash_fn : list Z -> Z -> Z -> Z;
  compare : option (list Z -> list Z -> Z);
  nbuckets : Z;
  cap : Z;
  freelist : list hnode;
  freecount : Z;
  spare : list Z;
  elfree : bool;
  seed0 : Z;
  seed1 : Z;
  loadfactor : Z;
  growpower : Z;
  oom : bool
}.

Definition set_count (m : hashmap) (c : Z) : hashmap :=
  HashMap (elsize m) (mask m) c (growat m) (shrinkat m) (regions m) (hash_fn m) (compare m)
    (nbuckets m) (cap m) (freelist m) (freecount m) (spare m) (elfree m) (seed0 m) (seed1 m)
    (loadfactor m) (growpower m) (oom m).
Definition set_growat (m : hashmap) (g : Z) : hashmap :=
  HashMap (elsize m) (mask m) (count m) g (shrinkat m) (regions m) (hash_fn m) (compare m)
    (nbuckets m) (cap m) (freelist m) (freecount m) (spare m) (elfree m) (seed0 m) (seed1 m)
    (loadfactor m) (growpower m) (oom m).
Definition set_regions (m : hashmap) (rs : list T) : hashmap :=
  HashMap (elsize m) (mask m) (count m) (growat m) (shrinkat m) rs (hash_fn m) (compare m)
    (nbuckets m) (cap m) (freelist m) (freecount m) (spare m) (elfree m) (seed0 m) (seed1 m)
    (loadfactor m) (growpower m) (oom m).
Definition set_free (m : hashmap) (fl : list hnode) (fc : Z) : hashmap :=
  HashMap (elsize m) (mask m) (count m) (growat m) (shrinkat m) (regions m) (hash_fn m) (compare m)
    (nbuckets m) (cap m) fl fc (spare m) (elfree m) (seed0 m) (seed1 m)
    (loadfactor m) (growpower m) (oom m).
Definition set_spare (m : hashmap) (s : list Z) : hashmap :=
  HashMap (elsize m) (mask m) (count m) (growat m) (shrinkat m) (regions m) (hash_fn m) (compare m)
    (nbuckets m) (cap m) (freelist m) (freecount m) s (elfree m) (seed0 m) (seed1 m)
    (loadfactor m) (growpower m) (oom m).
Definition set_oom (m : hashmap) (b : bool) : hashmap :=
  HashMap (elsize m) (mask m) (count m) (growat m) (shrinkat m) (regions m) (hash_fn m) (compare m)
    (nbuckets m) (cap m) (freelist m) (freecount m) (spare m) (elfree m) (seed0 m) (seed1 m)
    (loadfactor m) (growpower m) b.
Definition set_cap (m : hashmap) (c : Z) : hashmap :=
  HashMap (elsize m) (mask m) (count m) (growat m) (shrinkat m) (regions m) (hash_fn m) (compare m)
    (nbuckets m) c (freelist m) (freecount m) (spare m) (elfree m) (seed0 m) (seed1 m)
    (loadfactor m) (growpower m) (oom m).
(** The assignments behind the label [commit]. *)
Definition commit_resize (m : hashmap) (rs : list T) (new_cap : Z) : hashmap :=
  HashMap (elsize m) (new_cap - 1) (count m) (lf_threshold new_cap (PCT_TO_LF (loadfactor m)))
    (lf_threshold new_cap SHRINK_LF) rs (hash_fn m) (compare m)
    new_cap (cap m) (freelist m) (freecount m) (spare m) (elfree m) (seed0 m) (seed1 m)
    (loadfactor m) (growpower m) (oom m).
Definition set_loadfactor (m : hashmap) (pct g : Z) : hashmap :=
  HashMap (elsize m) (mask m) (count m) g (shrinkat m) (regions m) (hash_fn m) (compare m)
    (nbuckets m) (cap m) (freelist m) (freecount m) (spare m) (elfree m) (seed0 m) (seed1 m)
    pct (growpower m) (oom m).
Definition set_growpower (m : hashmap) (p : Z) : hashmap :=
  HashMap (elsize m) (mask m) (count m) (growat m) (shrinkat m) (regions m) (hash_fn m) (compare m)
    (nbuckets m) (cap m) (freelist m) (freecount m) (spare m) (elfree m) (seed0 m) (seed1 m)
    (loadfactor m) p (oom m).

(** The comparator: hashes first, then the user's comparison. *)
Definition hashmap_rb_cmp (compare : option (list Z -> list Z -> Z)) (a b : hnode) : Z :=
  if negb (n_hash a =? n_hash b) then (if n_hash a <? n_hash b then -1 else 1)
  else match compare with
       | None => 1
       | Some f => f (n_item a) (n_item b)
       end.

(** [&map->regions[i]]; an index outside the array is a fault. *)
Definition region (rs : list T) (i : Z) : res T :=
  match rs !! Z.to_nat i with
  | Some t => if 0 <=? i then Ok t else Fault
  | None => Fault
  end.

(** What [kmalloc] returned is [true] for memory and [false] for NULL; a store
    through NULL is a fault. *)
Definition fill_node (n : bool) (hash : Z) (item : list Z) : res hnode :=
  if n then Ok (HNode hash item) else Fault.

(** The node for a new item, from the free list or from the allocator. *)
Definition hashmap_node_alloc (m : hashmap) (item : list Z) (hash : Z) (al : alloc)
  : res (option hnode * hashmap * alloc) :=
  if negb (freecount m =? 0) then
    match freelist m with
    | [] => Fault
    | _ :: next => Ok (Some (HNode hash item), set_free m next (freecount m - 1), al)
    end
  else
    let '(n, al) := kmalloc al in
    if negb n then Ok (None, m, al)
    else let* n := fill_node n hash item in Ok (Some n, m, al).

Definition hashmap_node_release (m : hashmap) (n : hnode) : hashmap :=
  set_free m (n :: freelist m) (freecount m + 1).

Definition hashmap_cache_drain (m : hashmap) : hashmap := set_free m [] 0.

(** [for (i = 0; i < new_cap; i++) hashmap_region_init(&new_regions[i]);] *)
Definition new_regions (n : Z) : list T := replicate (Z.to_nat n) rb_root_init.
Definition init_regions (p : bool) (n : Z) : res (list T) := if p then Ok (new_regions n) else Fault.

(** [ctx->nodes[ctx->pos++] = node] for each node, into an array of [room]. *)
Definition gather (array : bool) (room : Z) (nodes : list hnode) : res (list hnode) :=
  match nodes with
  | [] => Ok []
  | _ => if array && (Z.of_nat (length nodes) <=? room) then Ok nodes else Fault
  end.

(** Phase 2 of the resize: every collected node into its new region. *)
Fixpoint reinsert (cmp : hnode -> hnode -> Z) (new_mask : Z) (rs : list T) (nodes : list hnode)
  : res (list T) :=
  match nodes with
  | [] => Ok rs
  | hn :: nodes' =>
      let i := Z.land (n_hash hn) new_mask in
      let* r := region rs i in
      reinsert cmp new_mask (<[Z.to_nat i := rb_insert cmp r hn]> rs) nodes'
  end.

(** The nodes of all regions in the order [hashmap_collect_cb] receives them. *)
Definition collect (rs : list T) : list hnode := concat (map rb_postorder rs).

Definition hashmap_resize (m : hashmap) (new_cap : Z) (al : alloc) : res (bool * hashmap * alloc) :=
  let* new_cap := hashmap_round_pow2 new_cap in
  let '(p, al) := kmalloc al in
  if negb p then Ok (false, m, al)
  else
    let* fresh := init_regions p new_cap in
    let n := count m in
    if n =? 0 then Ok (true, commit_resize m fresh new_cap, al)
    else
      let on_heap := HASHMAP_STACK_COLLECT <? n in
      let '(array, al) := (if on_heap then kmalloc al else (true, al)) in
      if on_heap && negb array then Ok (false, m, al)
      else
        let* nodes := gather array (if on_heap then n else HASHMAP_STACK_COLLECT) (collect (take (Z.to_nat (nbuckets m)) (regions m))) in
        let moved := Z.of_nat (length nodes) in
        let m := if negb (moved =? n) then set_count m moved else m in
        let new_mask := new_cap - 1 in
        let* rs := reinsert (hashmap_rb_cmp (compare m)) new_mask fresh nodes in
        Ok (true, commit_resize m rs new_cap, al).

Definition hashmap_set_grow_by_power (m : hashmap) (power : Z) : hashmap :=
  set_growpower m (if power <? 1 then 1 else if 16 <? power then 16 else u8 power).

Definition hashmap_set_load_factor (m : hashmap) (percent : Z) : hashmap :=
  let cur_pct := if negb (loadfactor m =? 0) then u8 (loadfactor m) else GROW_AT in
  let pct := clamp_load_factor_pct percent cur_pct in
  set_loadfactor m pct (lf_threshold (nbuckets m) (PCT_TO_LF pct)).

Definition hashmap_new_with_allocator (elsize cap seed0 seed1 : Z) (hash : list Z -> Z -> Z -> Z)
    (compare : option (list Z -> list Z -> Z)) (elfree : bool) (al : alloc)
  : res (option hashmap * alloc) :=
  if elsize =? 0 then Ok (None, al)
  else
    let* cap := hashmap_round_pow2 cap in
    let '(map, al) := kmalloc al in
    if negb map then Ok (None, al)
    else
      let '(p, al) := kmalloc al in
      if negb p then Ok (None, al)
      else
        let* regions := init_regions p cap in
        let '(spare, al) := kmalloc al in
        if negb spare then Ok (None, al)
        else
          let lf := clamp_load_factor_pct GROW_AT GROW_AT in
          Ok (Some (HashMap elsize (cap - 1) 0 (lf_threshold cap (PCT_TO_LF lf))
                      (lf_threshold cap SHRINK_LF) regions hash compare cap cap [] 0 []
                      elfree seed0 seed1 lf 1 false), al).

Definition hashmap_new := hashmap_new_with_allocator.

(** The items handed to [elfree] when all regions are cleared. *)
Definition clear_regions (m : hashmap) : list (list Z) * hashmap :=
  let freed := map n_item (collect (take (Z.to_nat (nbuckets m)) (regions m))) in
  let rs := map (fun _ => rb_root_init) (take (Z.to_nat (nbuckets m)) (regions m)) ++
            drop (Z.to_nat (nbuckets m)) (regions m) in
  ((if elfree m then freed else []), set_regions m rs).

Definition hashmap_clear (m : hashmap) (update_cap : bool) (al : alloc)
  : res (list (list Z) * hashmap * alloc) :=
  let '(freed, m) := clear_regions m in
  let m := set_count m 0 in
  let m := hashmap_cache_drain m in
  if update_cap then Ok (freed, set_cap m (nbuckets m), al)
  else if negb (nbuckets m =? cap m) then
    let* (_, m, al) := hashmap_resize m (cap m) al in Ok (freed, m, al)
  else Ok (freed, m, al).

(** The items handed to [elfree] when the map is destroyed. *)
Definition hashmap_free (m : hashmap) : list (list Z) := (clear_regions m).1.

Definition get_hash (m : hashmap) (key : list Z) : Z := clip_hash (hash_fn m key (seed0 m) (seed1 m)).

(** NULL is [None]; a result in [map->spare] is its bytes. *)
Definition hashmap_set_with_hash (m : hashmap) (item : list Z) (hash : Z) (al : alloc)
  : res (option (list Z) * hashmap * alloc) :=
  let hash := clip_hash hash in
  let m := set_oom m false in
  let* (m, al) :=
    (if growat m <=? count m then
       let* (ok, m, al) := hashmap_resize m (u64 (Z.shiftl (nbuckets m) (growpower m))) al in
       if negb ok then
         let m := set_oom m true in
         Ok (set_growat m (count m + Z.shiftr (nbuckets m) 2 + 1), al)
       else Ok (m, al)
     else Ok (m, al)) in
  let idx := Z.land hash (mask m) in
  let* r := region (regions m) idx in
  let cmp := hashmap_rb_cmp (compare m) in
  let '(existing, r) := rb_search cmp r (HNode hash item) in
  match existing with
  | Some n =>
      let m := set_spare m (n_item n) in
      let r := rb_set_item r n item in
      Ok (Some (spare m), set_regions m (<[Z.to_nat idx := r]> (regions m)), al)
  | None =>
      let m := set_regions m (<[Z.to_nat idx := r]> (regions m)) in
      let* (n, m, al) := hashmap_node_alloc m item hash al in
      match n with
      | None => Ok (None, set_oom m true, al)
      | Some n =>
          let m := set_regions m (<[Z.to_nat idx := rb_insert cmp r n]> (regions m)) in
          Ok (None, set_count m (count m + 1), al)
      end
  end.

Definition hashmap_set (m : hashmap) (item : list Z) (al : alloc) :=
  hashmap_set_with_hash m item (get_hash m item) al.

Definition hashmap_get_with_hash (m : hashmap) (key : list Z) (hash : Z)
  : res (option (list Z) * hashmap) :=
  let hash := clip_hash hash in
  let idx := Z.land hash (mask m) in
  let* r := region (regions m) idx in
  let '(found, r) := rb_search (hashmap_rb_cmp (compare m)) r (HNode hash key) in
  let m := set_regions m (<[Z.to_nat idx := r]> (regions m)) in
  Ok (n_item <$> found, m).

Definition hashmap_get (m : hashmap) (key : list Z) :=
  hashmap_get_with_hash m key (get_hash m key).

Definition hashmap_delete_with_hash (m : hashmap) (key : list Z) (hash : Z) (al : alloc)
  : res (option (list Z) * hashmap * alloc) :=
  let hash := clip_hash hash in
  let m := set_oom m false in
  let idx := Z.land hash (mask m) in
  let* r := region (regions m) idx in
  let '(found, r) := rb_search (hashmap_rb_cmp (compare m)) r (HNode hash key) in
  match found with
  | None => Ok (None, set_regions m (<[Z.to_nat idx := r]> (regions m)), al)
  | Some n =>
      let m := set_spare m (n_item n) in
      let m := set_regions m (<[Z.to_nat idx := rb_erase r n]> (regions m)) in
      let m := hashmap_node_release m n in
      let m := set_count m (count m - 1) in
      if (cap m <? nbuckets m) && (count m <=? shrinkat m) then
        let half := Z.shiftr (nbuckets m) 1 in
        let* target := hashmap_round_pow2 (u64 (Z.shiftl (count m) 1)) in
        let target := if half <? target then half else target in
        let target := if target <? cap m then cap m else target in
        let* (_, m, al) := hashmap_resize m target al in
        Ok (Some (spare m), m, al)
      else Ok (Some (spare m), m, al)
  end.

Definition hashmap_delete (m : hashmap) (key : list Z) (al : alloc) :=
  hashmap_delete_with_hash m key (get_hash m key) al.

Definition hashmap_count (m : hashmap) : Z := count m.
Definition hashmap_oom (m : hashmap) : bool := oom m.
Definition hashmap_nbuckets (m : hashmap) : Z := nbuckets m.

Definition hashmap_bucket_item (m : hashmap) (i : Z) : res (option (list Z)) :=
  if nbuckets m <=? i then Ok None
  else let* r := region (regions m) i in Ok (n_item <$> head (rb_inorder r)).

Definition hashmap_probe (m : hashmap) (position : Z) : res (option (list Z)) :=
  let idx := Z.land position (mask m) in
  if nbuckets m <=? idx then Ok None
  else let* r := region (regions m) idx in Ok (n_item <$> head (rb_inorder r)).

(** One bucket of the scan: [cur = rb_first(...); while (cur) ...]. *)
Fixpoint scan_nodes {U} (iter : list Z -> U -> bool * U) (ns : list hnode) (u : U) : bool * U :=
  match ns with
  | [] => (true, u)
  | n :: ns' =>
      let '(go, u) := iter (n_item n) u in
      if go then scan_nodes iter ns' u else (false, u)
  end.

(** [udata] is the state the callback threads. *)
Definition hashmap_scan {U} (fuel : nat) (m : hashmap) (iter : list Z -> U -> bool * U) (u : U)
  : res (bool * U) :=
  loop fuel (fun '(i, u) =>
    if i <? nbuckets m then
      let* r := region (regions m) i in
      let '(go, u) := scan_nodes iter (rb_inorder r) u in
      if go then Ok (inl (i + 1, u)) else Ok (inr (false, u))
    else Ok (inr (true, u))) (0, u).

(** The resumable iterator: the new [*i] and [*item], or [None] at the end. *)
Definition hashmap_iter (fuel : nat) (m : hashmap) (i : Z) : res (option (Z * list Z)) :=
  loop fuel (fun '(rg, offset) =>
    if rg <? nbuckets m then
      let* r := region (regions m) rg in
      match rb_inorder r !! Z.to_nat offset with
      | Some n => Ok (inr (Some (Z.lor (Z.shiftl rg 32) (u32 (offset + 1)), n_item n)))
      | None => Ok (inl (u32 (rg + 1), 0))
      end
    else Ok (inr None)) (u32 (Z.shiftr i 32), Z.land i 4294967295).
End Code.

Arguments hashmap T : clear implicits.

(** * What the tree promises *)

Class TreeLaws (T : Type) `{!TreeOps T} : Type := {
  tree_ok : (hnode -> hnode -> Z) -> T -> Prop;
  init_ok : forall cmp, tree_ok cmp rb_root_init;
  init_empty : rb_inorder rb_root_init = [];
  search_ok : forall cmp t k r t', GoodCmp cmp -> tree_ok cmp t -> rb_search cmp t k = (r, t') ->
    tree_ok cmp t' /\ rb_inorder t' = rb_inorder t /\
    match r with
    | Some x => x ∈ rb_inorder t /\ cmp k x = 0
    | None => forall x, x ∈ rb_inorder t -> cmp k x <> 0
    end;
  insert_ok : forall cmp t n, GoodCmp cmp -> tree_ok cmp t ->
    (forall x, x ∈ rb_inorder t -> cmp n x <> 0) ->
    tree_ok cmp (rb_insert cmp t n) /\ rb_inorder (rb_insert cmp t n) ≡ₚ n :: rb_inorder t;
  erase_ok : forall cmp t x, GoodCmp cmp -> tree_ok cmp t -> x ∈ rb_inorder t ->
    tree_ok cmp (rb_erase t x) /\ rb_inorder t ≡ₚ x :: rb_inorder (rb_erase t x);
  set_item_ok : forall cmp t x it, GoodCmp cmp -> tree_ok cmp t -> x ∈ rb_inorder t ->
    cmp (HNode (n_hash x) it) x = 0 ->
    tree_ok cmp (rb_set_item t x it) /\
    exists rest, rb_inorder t ≡ₚ x :: rest /\ rb_inorder (rb_set_item t x it) ≡ₚ HNode (n_hash x) it :: rest;
  postorder_ok : forall cmp t, tree_ok cmp t -> rb_postorder t ≡ₚ rb_inorder t
}.

(** * Proofs *)

#[export] Instance rb_cmp_good f `{!GoodCmp f} : GoodCmp (hashmap_rb_cmp (Some f)).
Proof.
  split; unfold hashmap_rb_cmp.
  - intros a b. destruct (n_hash a =? n_hash b) eqn:E1, (n_hash b =? n_hash a) eqn:E2; to_prop; simpl; try lia.
    + apply cmp_anti.
    + destruct (n_hash a <? n_hash b) eqn:E3, (n_hash b <? n_hash a) eqn:E4; to_prop; lia.
  - intros a b c. destruct (n_hash a =? n_hash b) eqn:E1, (n_hash b =? n_hash c) eqn:E2,
      (n_hash a =? n_hash c) eqn:E3; to_prop; simpl; try lia; try apply cmp_le_trans;
    repeat match goal with |- context [if ?x <? ?y then _ else _] =>
      let E := fresh in destruct (x <? y) eqn:E; to_prop end; lia.
Qed.

Lemma rb_cmp_zero f a b : hashmap_rb_cmp (Some f) a b = 0 <-> n_hash a = n_hash b /\ f (n_item a) (n_item b) = 0.
Proof.
  unfold hashmap_rb_cmp. destruct (n_hash a =? n_hash b) eqn:E; to_prop; simpl; [tauto|].
  destruct (_ <? _); split; intros; try lia; destruct H; lia.
Qed.

(** ** Rounding up to a power of two *)

Lemma round_pow2_ok v : v <= 2 ^ 63 -> exists k, 4 <= k <= 63 /\ hashmap_round_pow2 v = Ok (2 ^ k) /\ v <= 2 ^ k.
Proof.
  intros Hv. enough (H : wp (hashmap_round_pow2 v) (fun p => exists k, 4 <= k <= 63 /\ p = 2 ^ k /\ v <= 2 ^ k)).
  { apply wp_ex in H as (p & E & k & Hk & -> & Hle). eauto. }
  apply (wp_loop (fun p => exists k, 4 <= k <= 63 /\ p = 2 ^ k) (fun p => Z.to_nat (63 - Z.log2 p))).
  - intros p (k & Hk & ->). unfold step_ok. destruct (_ <? v) eqn:E; to_prop; simpl.
    + assert (k < 63). { destruct (Z.eq_dec k 63) as [->|]; lia. }
      assert (E2 : u64 (Z.shiftl (2 ^ k) 1) = 2 ^ (k + 1)).
      { rewrite Z.shiftl_mul_pow2, <- Z.pow_add_r by lia. apply u64_small. split; [lia|].
        apply Z.pow_lt_mono_r; lia. }
      rewrite E2. split; [exists (k + 1); split; [lia|reflexivity]|]. rewrite !Z.log2_pow2 by lia. lia.
    + exists k. split; [exact Hk|]. split; [reflexivity|lia].
  - exists 4. split; [lia|reflexivity].
  - simpl. lia.
Qed.

Lemma clip_hash_bound h : 0 <= clip_hash h.
Proof. unfold clip_hash. apply Z.land_nonneg. right. lia. Qed.

Lemma clip_hash_idem h : clip_hash (clip_hash h) = clip_hash h.
Proof. unfold clip_hash. rewrite <- Z.land_assoc. reflexivity. Qed.

(** ** Regions *)

Section Regions.
Context {T : Type} `{Laws : TreeLaws T}.
Context (cmp : hnode -> hnode -> Z) `{Good : !GoodCmp cmp}.
Implicit Types rs : list T.

Definition contents rs : list hnode := concat (map rb_inorder rs).

(** Every region's tree is valid and its nodes belong to it. *)
Definition regions_inv (mask : Z) rs : Prop :=
  forall i t, rs !! i = Some t -> tree_ok cmp t /\
    forall n, n ∈ rb_inorder t -> Z.land (n_hash n) mask = Z.of_nat i.

(** No two different nodes compare equal. *)
Definition uniq (ns : list hnode) : Prop :=
  NoDup ns /\ forall x y, x ∈ ns -> y ∈ ns -> cmp x y = 0 -> x = y.

#[local] Instance uniq_perm : Proper (Permutation ==> iff) uniq.
Proof.
  intros a b H. unfold uniq. rewrite H. split; intros [H1 H2]; (split; [exact H1|]); intros x y;
    [rewrite <- H|rewrite H]; auto.
Qed.

Lemma contents_split rs i t : rs !! i = Some t ->
  exists rest, contents rs ≡ₚ rb_inorder t ++ rest /\
    forall t', contents (<[i := t']> rs) ≡ₚ rb_inorder t' ++ rest.
Proof using.
  intros H. exists (contents (take i rs) ++ contents (drop (S i) rs)). unfold contents. split.
  - rewrite <- (take_drop_middle rs i t H) at 1. rewrite map_app, concat_app. simpl.
    rewrite Permutation_app_comm, <- app_assoc. f_equiv. apply Permutation_app_comm.
  - intros t'. rewrite insert_take_drop by (eapply lookup_lt_Some, H).
    rewrite map_app, concat_app. simpl. rewrite Permutation_app_comm, <- app_assoc. f_equiv.
    apply Permutation_app_comm.
Qed.

Lemma contents_elem rs n : n ∈ contents rs <-> exists i t, rs !! i = Some t /\ n ∈ rb_inorder t.
Proof using.
  unfold contents. rewrite list_elem_of_In, in_concat. split.
  - intros (ns & H1 & H2). apply in_map_iff in H1 as (t & <- & Ht). apply list_elem_of_In in Ht.
    apply list_elem_of_lookup in Ht as [i Hi]. exists i, t. split; [exact Hi|]. apply list_elem_of_In, H2.
  - intros (i & t & Hi & Hn). exists (rb_inorder t). split; [|apply list_elem_of_In, Hn].
    apply in_map, list_elem_of_In. eapply list_elem_of_lookup_2, Hi.
Qed.

(** A node sits in the region its hash selects. *)
Lemma region_of mask rs n i t : regions_inv mask rs -> 0 <= Z.land (n_hash n) mask ->
  rs !! i = Some t -> i = Z.to_nat (Z.land (n_hash n) mask) -> (n ∈ contents rs <-> n ∈ rb_inorder t).
Proof using.
  intros Hr H0 Hi ->. rewrite contents_elem. split.
  - intros (j & t' & Hj & Hn). destruct (Hr j t' Hj) as [_ H]. specialize (H n Hn).
    replace (Z.to_nat (Z.land (n_hash n) mask)) with j in Hi by lia. congruence.
  - intros Hn. eauto.
Qed.

Lemma regions_update mask rs i t' : regions_inv mask rs -> tree_ok cmp t' ->
  (forall n, n ∈ rb_inorder t' -> Z.land (n_hash n) mask = Z.of_nat i) ->
  regions_inv mask (<[i := t']> rs).
Proof using.
  intros Hr Ht Hn j t Hj. destruct (decide (i = j)) as [<-|Hne].
  - destruct (decide (i < length rs)%nat) as [Hlt|Hge].
    + rewrite list_lookup_insert_eq in Hj by exact Hlt. injection Hj as <-. auto.
    + rewrite list_insert_ge in Hj by lia. apply lookup_lt_Some in Hj. lia.
  - rewrite list_lookup_insert_ne in Hj by exact Hne. apply Hr, Hj.
Qed.

Lemma region_ok rs i : 0 <= i < Z.of_nat (length rs) -> exists t, region rs i = Ok t /\ rs !! Z.to_nat i = Some t.
Proof using.
  intros Hi. destruct (lookup_lt_is_Some_2 rs (Z.to_nat i)) as [t Ht]; [lia|].
  exists t. split; [|exact Ht]. unfold region. rewrite Ht. destruct (0 <=? i) eqn:E; to_prop; [reflexivity|lia].
Qed.

Lemma land_mask_range h k : 0 <= k -> 0 <= h -> 0 <= Z.land h (2 ^ k - 1) < 2 ^ k.
Proof using.
  intros Hk Hh. replace (2 ^ k - 1) with (Z.ones k) by (rewrite Z.ones_equiv; lia).
  rewrite Z.land_ones by lia. apply Z.mod_pos_bound, Z.pow_pos_nonneg; lia.
Qed.

Lemma new_regions_inv mask n : regions_inv mask (new_regions n) /\ contents (new_regions n) = [] /\
  length (new_regions n) = Z.to_nat n.
Proof using Laws.
  unfold new_regions. split_and!.
  - intros i t Hi. apply lookup_replicate in Hi as [-> _]. split; [apply init_ok|].
    rewrite init_empty. intros x Hx. apply not_elem_of_nil in Hx. easy.
  - unfold contents. induction (Z.to_nat n) as [|k IH]; simpl; [reflexivity|]. rewrite init_empty, IH. reflexivity.
  - apply length_replicate.
Qed.

(** Reinserting distinct nodes keeps them all. *)
Lemma reinsert_ok k ns : 0 <= k -> Forall (fun n => 0 <= n_hash n) ns -> forall rs,
  regions_inv (2 ^ k - 1) rs -> Z.of_nat (length rs) = 2 ^ k -> uniq (ns ++ contents rs) ->
  wp (reinsert cmp (2 ^ k - 1) rs ns) (fun rs' => regions_inv (2 ^ k - 1) rs' /\
    length rs' = length rs /\ contents rs' ≡ₚ ns ++ contents rs).
Proof using Good.
  intros Hk Hns. induction Hns as [|n ns Hn Hns IH]; intros rs Hr Hlen Hu; simpl; [auto|].
  pose proof (land_mask_range (n_hash n) k Hk Hn) as Hi.
  destruct (region_ok rs (Z.land (n_hash n) (2 ^ k - 1))) as (t & -> & Ht); [lia|]. cbn [bind].
  destruct (Hr _ _ Ht) as [Hok Hin].
  destruct (insert_ok cmp t n Good Hok) as [Hok' Hp].
  { intros x Hx E. destruct Hu as [Hnd Hu]. simpl in Hnd. apply NoDup_cons in Hnd as [Hnin _].
    assert (Hxc : x ∈ ns ++ contents rs).
    { apply elem_of_app. right. apply contents_elem. eauto. }
    apply Hnin. rewrite (Hu n x); [exact Hxc| |right; exact Hxc|exact E]. left. }
  destruct (contents_split rs _ t Ht) as (rest & E1 & E2).
  eapply wp_mono; [apply IH|].
  - apply regions_update; [exact Hr|exact Hok'|]. intros x Hx. rewrite Hp in Hx. apply elem_of_cons in Hx as [->|Hx].
    + lia.
    + apply Hin, Hx.
  - rewrite length_insert. exact Hlen.
  - rewrite E2, Hp. simpl. rewrite E1 in Hu. rewrite <- Permutation_middle. exact Hu.
  - intros rs' (H1 & H2 & H3). rewrite length_insert in H2. split; [exact H1|]. split; [exact H2|].
    rewrite H3, E2, Hp, E1. simpl. rewrite <- Permutation_middle. reflexivity.
Qed.

Lemma collect_perm mask rs : regions_inv mask rs -> collect rs ≡ₚ contents rs.
Proof using.
  intros Hr. assert (H : Forall (fun t => tree_ok cmp t) rs).
  { apply Forall_lookup. intros i t Hi. apply (Hr i t Hi). }
  unfold collect, contents. clear Hr. induction H as [|t rs Ht _ IH]; simpl; [reflexivity|].
  rewrite IH, (postorder_ok cmp t Ht). reflexivity.
Qed.
End Regions.

(** ** The map *)

Section Map.
Context {T : Type} `{Laws : TreeLaws T}.
Context (f : list Z -> list Z -> Z) `{Good : !GoodCmp f}.
Context (h : list Z -> Z -> Z -> Z) (s0 s1 : Z).
(** The hash respects the equality the comparison defines. *)
Hypothesis Hcompat : forall a b, f a b = 0 -> h a s0 s1 = h b s0 s1.
Implicit Types m : hashmap T.

#[local] Abbreviation cmp := (hashmap_rb_cmp (Some f)).

Definition hash_of (x : list Z) : Z := clip_hash (h x s0 s1).

(** The well-formed maps. *)
Record hm_ok m : Prop := {
  ok_cmp : compare m = Some f;
  ok_hash : hash_fn m = h;
  ok_seed0 : seed0 m = s0;
  ok_seed1 : seed1 m = s1;
  ok_buckets : exists k, 4 <= k <= 63 /\ nbuckets m = 2 ^ k;
  ok_mask : mask m = nbuckets m - 1;
  ok_len : Z.of_nat (length (regions m)) = nbuckets m;
  ok_cap : exists k, 4 <= k <= 63 /\ cap m = 2 ^ k;
  ok_power : 1 <= growpower m <= 16;
  ok_regions : regions_inv cmp (mask m) (regions m);
  ok_uniq : uniq cmp (contents (regions m));
  ok_nodes : Forall (fun n => n_hash n = hash_of (n_item n)) (contents (regions m));
  ok_count : count m = Z.of_nat (length (contents (regions m)));
  ok_free : freecount m = Z.of_nat (length (freelist m))
}.

(** The items of the map, and the one that equals a key. *)
Definition items m : list (list Z) := map n_item (contents (regions m)).

Definition eqk (k x : list Z) : bool := f k x =? 0.

Definition hm_lookup m (k : list Z) : option (list Z) := List.find (eqk k) (items m).

(** ** Lookup by key *)

Lemma find_perm (P : list Z -> bool) (a b : list (list Z)) : a ≡ₚ b ->
  (forall x y, In x a -> In y a -> P x = true -> P y = true -> x = y) -> List.find P a = List.find P b.
Proof using.
  intros Hp Hu. destruct (List.find P a) as [x|] eqn:E.
  - apply List.find_some in E as [Hx Px]. destruct (List.find P b) as [y|] eqn:E'.
    + apply List.find_some in E' as [Hy Py]. f_equal. apply Hu; auto.
      apply (Permutation_in y (Permutation_sym Hp) Hy).
    + pose proof (List.find_none _ _ E' x (Permutation_in x Hp Hx)). congruence.
  - destruct (List.find P b) as [y|] eqn:E'; [|reflexivity]. apply List.find_some in E' as [Hy Py].
    pose proof (List.find_none _ _ E y (Permutation_in y (Permutation_sym Hp) Hy)). congruence.
Qed.

(** At most one item equals a key. *)
Lemma key_unique m k : hm_ok m -> forall x y, In x (items m) -> In y (items m) ->
  eqk k x = true -> eqk k y = true -> x = y.
Proof using Good Hcompat.
  intros Hm x y Hx Hy Ex Ey. unfold items in *. apply in_map_iff in Hx as (nx & <- & Hnx).
  apply in_map_iff in Hy as (ny & <- & Hny). unfold eqk in *. to_prop.
  assert (E : f (n_item nx) (n_item ny) = 0).
  { eapply cmp_eq_trans; [exact _|apply cmp_sym; [exact _|exact Ex]|exact Ey]. }
  pose proof (ok_nodes m Hm) as Hn. rewrite List.Forall_forall in Hn.
  f_equal. apply (ok_uniq m Hm); [apply list_elem_of_In; assumption..|].
  apply rb_cmp_zero. split; [|exact E]. rewrite (Hn nx Hnx), (Hn ny Hny). unfold hash_of.
  rewrite (Hcompat _ _ E). reflexivity.
Qed.

Lemma lookup_perm m m' k : hm_ok m -> contents (regions m') ≡ₚ contents (regions m) ->
  hm_lookup m' k = hm_lookup m k.
Proof using Good Hcompat.
  intros Hm Hp. symmetry. apply find_perm; [|apply key_unique, Hm]. unfold items. symmetry.
  apply Permutation_map, Hp.
Qed.

Lemma lookup_found m k n : hm_ok m -> n ∈ contents (regions m) -> f k (n_item n) = 0 ->
  hm_lookup m k = Some (n_item n).
Proof using Good Hcompat.
  intros Hm Hn E. unfold hm_lookup. destruct (List.find (eqk k) (items m)) as [x|] eqn:F.
  - apply List.find_some in F as [Hx Px]. f_equal. eapply key_unique; eauto.
    + unfold items. apply in_map, list_elem_of_In, Hn.
    + unfold eqk. apply Z.eqb_eq, E.
  - assert (eqk k (n_item n) = false) as E2; [|unfold eqk in E2; apply Z.eqb_neq in E2; easy].
    apply (List.find_none _ _ F). unfold items. apply in_map, list_elem_of_In, Hn.
Qed.

Lemma lookup_none m k : (forall n, n ∈ contents (regions m) -> f k (n_item n) <> 0) -> hm_lookup m k = None.
Proof using.
  intros H. unfold hm_lookup. destruct (List.find (eqk k) (items m)) as [x|] eqn:F; [|reflexivity].
  apply List.find_some in F as [Hx Px]. unfold items in Hx. apply in_map_iff in Hx as (n & <- & Hn).
  unfold eqk in Px. to_prop. exfalso. apply (H n); [apply list_elem_of_In, Hn|exact Px].
Qed.

(** ** Searching a region *)

Lemma hash_nonneg x : 0 <= hash_of x.
Proof using. apply clip_hash_bound. Qed.

Lemma get_hash_ok m key : hm_ok m -> clip_hash (get_hash m key) = hash_of key.
Proof using.
  intros Hm. unfold get_hash, hash_of. rewrite clip_hash_idem, (ok_hash m Hm), (ok_seed0 m Hm), (ok_seed1 m Hm).
  reflexivity.
Qed.

(** What a search of the region of a key tells about the whole map. *)
Lemma search_region m key : hm_ok m ->
  exists t r t', let idx := Z.land (hash_of key) (mask m) in
    region (regions m) idx = Ok t /\ regions m !! Z.to_nat idx = Some t /\ 0 <= idx /\
    rb_search cmp t (HNode (hash_of key) key) = (r, t') /\
    tree_ok cmp t /\ tree_ok cmp t' /\ rb_inorder t' = rb_inorder t /\
    match r with
    | Some n => n ∈ rb_inorder t /\ n ∈ contents (regions m) /\ n_hash n = hash_of key /\ f key (n_item n) = 0
    | None => forall n, n ∈ contents (regions m) -> f key (n_item n) <> 0
    end.
Proof using Laws Good Hcompat.
  intros Hm. destruct (ok_buckets m Hm) as (k & Hk & Hnb).
  pose proof (land_mask_range (hash_of key) k ltac:(lia) (hash_nonneg key)) as Hi.
  assert (Hmask : mask m = 2 ^ k - 1) by (rewrite (ok_mask m Hm), Hnb; reflexivity). rewrite <- Hmask in Hi.
  destruct (region_ok (regions m) (Z.land (hash_of key) (mask m))) as (t & E & Ht); [rewrite (ok_len m Hm); lia|].
  destruct (ok_regions m Hm _ _ Ht) as [Hok Hin].
  destruct (rb_search cmp t (HNode (hash_of key) key)) as [r t'] eqn:Es.
  destruct (search_ok cmp t _ r t' _ Hok Es) as (Hok' & Hino & Hr).
  exists t, r, t'. split_and!; auto; [lia|]. destruct r as [n|].
  - destruct Hr as [Hn Hc]. apply rb_cmp_zero in Hc as [H1 H2]. simpl in H1, H2. split_and!; auto.
    apply contents_elem. eauto.
  - intros n Hn E0. pose proof (ok_nodes m Hm) as Hns. rewrite List.Forall_forall in Hns.
    assert (Hh : n_hash n = hash_of key).
    { rewrite (Hns n) by apply list_elem_of_In, Hn. unfold hash_of. rewrite (Hcompat _ _ E0). reflexivity. }
    apply (Hr n); [|apply rb_cmp_zero; simpl; auto].
    apply (region_of cmp (mask m) (regions m) n (Z.to_nat (Z.land (hash_of key) (mask m))) t (ok_regions m Hm));
      rewrite ?Hh; auto; lia.
Qed.

(** ** Rebuilding the invariant *)

(** Maps that differ only in fields the invariant does not read. *)
Lemma hm_ok_fields m m' : hm_ok m ->
  compare m' = compare m -> hash_fn m' = hash_fn m -> seed0 m' = seed0 m -> seed1 m' = seed1 m ->
  nbuckets m' = nbuckets m -> mask m' = mask m -> cap m' = cap m -> growpower m' = growpower m ->
  regions m' = regions m -> count m' = count m ->
  freecount m' = Z.of_nat (length (freelist m')) -> hm_ok m'.
Proof using.
  intros [] E1 E2 E3 E4 E5 E6 E7 E8 E9 E10 E11.
  split; rewrite ?E1, ?E2, ?E3, ?E4, ?E5, ?E6, ?E7, ?E8, ?E9, ?E10; assumption.
Qed.

Lemma hm_ok_oom m b : hm_ok m -> hm_ok (set_oom m b).
Proof using. intros Hm. apply (hm_ok_fields m); auto. apply Hm. Qed.

Lemma hm_ok_growat m g : hm_ok m -> hm_ok (set_growat m g).
Proof using. intros Hm. apply (hm_ok_fields m); auto. apply Hm. Qed.

Lemma hm_ok_spare m s : hm_ok m -> hm_ok (set_spare m s).
Proof using. intros Hm. apply (hm_ok_fields m); auto. apply Hm. Qed.

(** Replacing the regions by ones with other contents. *)
Lemma hm_ok_regions m rs c : hm_ok m -> Z.of_nat (length rs) = nbuckets m ->
  regions_inv cmp (mask m) rs -> uniq cmp (contents rs) ->
  Forall (fun n => n_hash n = hash_of (n_item n)) (contents rs) ->
  c = Z.of_nat (length (contents rs)) -> hm_ok (set_count (set_regions m rs) c).
Proof using. intros [] H1 H2 H3 H4 H5. split; assumption. Qed.

Lemma hm_ok_same_contents m rs : hm_ok m -> length rs = length (regions m) ->
  regions_inv cmp (mask m) rs -> contents rs ≡ₚ contents (regions m) -> hm_ok (set_regions m rs).
Proof using.
  intros Hm Hl Hr Hp. destruct Hm. split; auto.
  - simpl. rewrite Hl. assumption.
  - simpl. unfold uniq in *. rewrite Hp. destruct ok_uniq0 as [H1 H2]. split; [exact H1|].
    intros x y. rewrite Hp. apply H2.
  - simpl. rewrite Hp. assumption.
  - simpl. rewrite Hp. assumption.
Qed.

(** ** Resizing *)

(** Same contents in a new table, or the old map when an allocation fails. *)
Definition resized m m' : Prop :=
  hm_ok m' /\ contents (regions m') ≡ₚ contents (regions m) /\ spare m' = spare m /\ oom m' = oom m /\
  freelist m' = freelist m /\ cap m' = cap m /\ growpower m' = growpower m.

Lemma resized_refl m : hm_ok m -> resized m m.
Proof using. unfold resized. auto 10. Qed.

(** The calls of [kmalloc] that are made from [al] to [al'] answer [bs]. *)
Fixpoint used (al : alloc) (bs : list bool) (al' : alloc) : Prop :=
  match bs with
  | [] => al' = al
  | b :: bs => exists al1, kmalloc al = (b, al1) /\ used al1 bs al'
  end.

(** No answer is NULL. *)
Definition granted (bs : list bool) : bool := forallb id bs.

Lemma granted_app a b : granted (a ++ b) = granted a && granted b.
Proof using. apply forallb_app. Qed.

Lemma used_one al b al' : kmalloc al = (b, al') -> used al [b] al'.
Proof using. intros E. exists al'. split; [exact E|reflexivity]. Qed.

Lemma used_app al a al1 b al2 : used al a al1 -> used al1 b al2 -> used al (a ++ b) al2.
Proof using. revert al. induction a as [|x a IH]; intros al H1 H2; cbn in *; [now subst|]. destruct H1 as (al0 & E & H1). eauto. Qed.

(** What a call of [hashmap_resize] leaves: it answers false exactly if [kmalloc]
    answered NULL, and then the map is the old one. *)
Definition resize_post m (new_cap : Z) (al : alloc) (r : bool * hashmap T * alloc) : Prop :=
  let '(ok, m', al') := r in
  resized m m' /\ (ok = true -> new_cap <= nbuckets m') /\ (ok = false -> m' = m) /\ exists bs, used al bs al' /\ granted bs = ok.

Lemma resize_fails m new_cap al al' bs : hm_ok m -> used al bs al' -> granted bs = false -> wp (Ok (false, m, al')) (resize_post m new_cap al).
Proof using. intros Hm E G. simpl. split; [apply resized_refl, Hm|]. split; [easy|]. split; [reflexivity|eauto]. Qed.

Lemma uniq_of_perm a b : a ≡ₚ b -> uniq cmp b -> uniq cmp a.
Proof using.
  intros Hp [H1 H2]. unfold uniq. rewrite Hp. split; [exact H1|]. intros x y. rewrite Hp. apply H2.
Qed.

Lemma commit_ok m rs k new_cap al al' bs : used al bs al' -> granted bs = true -> hm_ok m -> 4 <= k <= 63 -> new_cap <= 2 ^ k ->
  regions_inv cmp (2 ^ k - 1) rs -> Z.of_nat (length rs) = 2 ^ k -> contents rs ≡ₚ contents (regions m) ->
  wp (Ok (true, commit_resize m rs (2 ^ k), al')) (resize_post m new_cap al).
Proof using.
  intros Eal Hg Hm Hk Hle Hr Hl Hp. simpl. split; [|split; [intros _; exact Hle|split; [easy|eauto]]].
  unfold resized. split_and!; auto. destruct Hm. split; simpl; auto.
  - exists k. auto.
  - eapply uniq_of_perm; eassumption.
  - rewrite Hp. assumption.
  - rewrite Hp. assumption.
Qed.

(** Phase 1 collects every node once. *)
Lemma collect_all m : hm_ok m -> collect (take (Z.to_nat (nbuckets m)) (regions m)) ≡ₚ contents (regions m).
Proof using.
  intros Hm. rewrite take_ge by (pose proof (ok_len m Hm); lia). eapply collect_perm, ok_regions, Hm.
Qed.

(** Phase 2 puts them into the fresh table. *)
Lemma reinsert_all m k nodes : hm_ok m -> 0 <= k -> nodes ≡ₚ contents (regions m) ->
  wp (reinsert cmp (2 ^ k - 1) (new_regions (2 ^ k)) nodes) (fun rs => regions_inv cmp (2 ^ k - 1) rs /\
    Z.of_nat (length rs) = 2 ^ k /\ contents rs ≡ₚ contents (regions m)).
Proof using Laws Good.
  intros Hm Hk Hp. assert (0 < 2 ^ k) by (apply Z.pow_pos_nonneg; lia).
  destruct (new_regions_inv (T:=T) cmp (2 ^ k - 1) (2 ^ k)) as (Hn1 & Hn2 & Hn3).
  eapply wp_mono; [apply (reinsert_ok cmp k nodes); [lia| |exact Hn1|lia|]|].
  - rewrite Hp. eapply Forall_impl; [apply (ok_nodes m Hm)|]. intros n Hn. simpl in Hn. rewrite Hn. apply hash_nonneg.
  - rewrite Hn2, app_nil_r. eapply uniq_of_perm; [exact Hp|apply (ok_uniq m Hm)].
  - intros rs (H1 & H2 & H3). split; [exact H1|]. split; [lia|]. rewrite H3, Hn2, app_nil_r. exact Hp.
Qed.

Lemma hashmap_resize_ok m new_cap al : hm_ok m -> new_cap <= 2 ^ 63 ->
  wp (hashmap_resize m new_cap al) (resize_post m new_cap al).
Proof using Laws Good.
  intros Hm Hc. unfold hashmap_resize.
  destruct (round_pow2_ok new_cap Hc) as (k & Hk & -> & Hle). cbn [bind].
  destruct (kmalloc al) as [p al1] eqn:E1. apply used_one in E1.
  destruct p; cbn [negb init_regions bind]; [|now apply (resize_fails _ _ _ _ [false])].
  pose proof (ok_count m Hm) as Hcnt. pose proof (collect_all m Hm) as Hcoll.
  destruct (count m =? 0) eqn:E0; to_prop.
  { destruct (new_regions_inv (T:=T) cmp (2 ^ k - 1) (2 ^ k)) as (Hn1 & Hn2 & Hn3).
    assert (0 < 2 ^ k) by (apply Z.pow_pos_nonneg; lia).
    apply (commit_ok _ _ _ _ _ _ [true]); auto; [lia|]. rewrite Hn2. destruct (contents (regions m)); [reflexivity|simpl in Hcnt; lia]. }
  set (nodes := collect _) in *.
  assert (Hlen : Z.of_nat (length nodes) = count m) by (rewrite Hcnt, Hcoll; reflexivity).
  set (big := HASHMAP_STACK_COLLECT <? count m) in *.
  destruct (if big then kmalloc al1 else (true, al1)) as [array al2] eqn:E2.
  assert (U2 : exists b2, used al1 b2 al2 /\ granted b2 = array /\ (big = false -> array = true)).
  { destruct big; [apply used_one in E2; exists [array]; split; [exact E2|]; destruct array; split; (reflexivity || discriminate)|injection E2 as <- <-; exists []; split_and!; reflexivity]. }
  destruct U2 as (b2 & U2 & G2 & Hst). pose proof (used_app _ _ _ _ _ E1 U2) as U. assert (Hg : granted ([true] ++ b2) = array) by exact G2.
  destruct (big && negb array) eqn:Eb.
  { apply andb_prop in Eb as [_ Eb]. apply negb_true_iff in Eb. subst array. now apply (resize_fails _ _ _ _ ([true] ++ b2)). }
  assert (array = true) as -> by (destruct big, array; auto; discriminate).
  assert (Hga : gather true (if big then count m else HASHMAP_STACK_COLLECT) nodes = Ok nodes).
  { unfold gather. destruct nodes as [|n0 nodes']; [reflexivity|]. rewrite Hlen. unfold big. cbn [andb].
    destruct (Z.ltb_spec HASHMAP_STACK_COLLECT (count m)); now rewrite (proj2 (Z.leb_le _ _)) by lia. }
  rewrite Hga. cbn [bind]. rewrite Hlen, Z.eqb_refl. simpl negb. cbn match.
  rewrite (ok_cmp m Hm). apply wp_bind. eapply wp_mono; [apply (reinsert_all m k); [exact Hm|lia|exact Hcoll]|].
  intros rs (H1 & H2 & H3). now apply (commit_ok _ _ _ _ _ _ ([true] ++ b2)).
Qed.

(** ** The operations *)

Lemma uniq_cons n ns : uniq cmp ns -> (forall x, x ∈ ns -> cmp n x <> 0) -> uniq cmp (n :: ns).
Proof using Good.
  intros [Hnd Hu] Hn. split.
  - apply NoDup_cons. split; [|exact Hnd]. intros Hin. apply (Hn n Hin). apply cmp_refl. exact _.
  - intros x y Hx Hy E. apply elem_of_cons in Hx as [->|Hx], Hy as [->|Hy]; auto.
    + exfalso. eapply Hn; eauto.
    + exfalso. apply (Hn x Hx). apply cmp_sym; [exact _|exact E].
Qed.

Lemma uniq_tail n ns : uniq cmp (n :: ns) -> uniq cmp ns.
Proof using.
  intros [Hnd Hu]. apply NoDup_cons in Hnd as [_ Hnd]. split; [exact Hnd|].
  intros x y Hx Hy. apply Hu; right; assumption.
Qed.

(** Lookups when the contents gain, change or lose a node. *)
Lemma lookup_split m n rest k : hm_ok m -> contents (regions m) ≡ₚ n :: rest ->
  hm_lookup m k = if eqk k (n_item n) then Some (n_item n) else List.find (eqk k) (map n_item rest).
Proof using Good Hcompat.
  intros Hm Hp. transitivity (List.find (eqk k) (map n_item (n :: rest))); [|reflexivity].
  unfold hm_lookup. apply find_perm; [|apply key_unique, Hm]. unfold items. apply Permutation_map, Hp.
Qed.

Lemma eqk_same k a b : f a b = 0 -> eqk k a = eqk k b.
Proof using Good.
  intros E. unfold eqk. apply eq_bool_prop_intro. rewrite !Is_true_true, !Z.eqb_eq. split; intros H.
  - eapply cmp_eq_trans; [exact _|exact H|exact E].
  - eapply cmp_eq_trans; [exact _|exact H|apply cmp_sym; [exact _|exact E]].
Qed.

Lemma eqk_flip a b : eqk a b = eqk b a.
Proof using Good.
  unfold eqk. apply eq_bool_prop_intro. rewrite !Is_true_true, !Z.eqb_eq. split; apply cmp_sym; exact _.
Qed.

(** *** Get *)

Lemma hashmap_get_ok m key : hm_ok m ->
  wp (hashmap_get m key) (fun '(r, m') => r = hm_lookup m key /\ hm_ok m' /\
    contents (regions m') ≡ₚ contents (regions m)).
Proof using Laws Good Hcompat.
  intros Hm. unfold hashmap_get, hashmap_get_with_hash. rewrite get_hash_ok by exact Hm. rewrite (ok_cmp m Hm).
  destruct (search_region m key Hm) as (t & r & t' & E & Ht & Hi & Es & Ho & Ho' & Hin & Hr).
  rewrite E. cbn [bind]. rewrite Es. cbn [wp].
  destruct (contents_split (regions m) _ t Ht) as (rest & E1 & E2).
  assert (Hp : contents (<[Z.to_nat (Z.land (hash_of key) (mask m)) := t']> (regions m)) ≡ₚ contents (regions m)).
  { rewrite E2, Hin, E1. reflexivity. }
  split_and!.
  - destruct r as [n|]; simpl.
    + destruct Hr as (_ & Hn & _ & Ef). symmetry. apply lookup_found; assumption.
    + symmetry. apply lookup_none, Hr.
  - apply hm_ok_same_contents; [exact Hm|apply length_insert| |exact Hp].
    apply regions_update; [apply (ok_regions m Hm)|exact Ho'|]. rewrite Hin.
    destruct (ok_regions m Hm _ _ Ht) as [_ H]. exact H.
  - exact Hp.
Qed.

(** *** Set *)

(** A map in which [item] is bound and everything else is as in [m]. *)
Definition updated m item m' : Prop :=
  forall k, hm_lookup m' k = if eqk k item then Some item else hm_lookup m k.

(** Overwriting the item of an existing node. *)
Lemma set_existing m item t t' n : let idx := Z.land (hash_of item) (mask m) in
  hm_ok m -> regions m !! Z.to_nat idx = Some t -> 0 <= idx -> tree_ok cmp t' -> rb_inorder t' = rb_inorder t ->
  n ∈ rb_inorder t -> n_hash n = hash_of item -> f item (n_item n) = 0 ->
  let m' := set_regions (set_spare m (n_item n)) (<[Z.to_nat idx := rb_set_item t' n item]> (regions m)) in
  hm_ok m' /\ updated m item m'.
Proof using Laws Good Hcompat.
  intros idx Hm Ht Hi Ho' Hin Hn Hh Ef m'.
  destruct (contents_split (regions m) _ t Ht) as (rest & E1 & E2).
  destruct (set_item_ok cmp t' n item _ Ho') as (Hok & tl & P1 & P2); [rewrite Hin; exact Hn|apply rb_cmp_zero; auto|].
  rewrite Hin in P1. rewrite Hh in P2. set (new := HNode (hash_of item) item) in *.
  assert (C0 : contents (regions m) ≡ₚ n :: (tl ++ rest)) by (rewrite E1, P1; reflexivity).
  assert (C1 : contents (regions m') ≡ₚ new :: (tl ++ rest)) by (subst m'; simpl; rewrite E2, P2; reflexivity).
  assert (Hu : uniq cmp (tl ++ rest)).
  { eapply uniq_tail, uniq_of_perm; [symmetry; exact C0|apply (ok_uniq m Hm)]. }
  assert (Hne : forall x, x ∈ tl ++ rest -> cmp new x <> 0).
  { intros x Hx E. destruct (uniq_of_perm _ _ (symmetry C0) (ok_uniq m Hm)) as [Hnd Hall].
    apply NoDup_cons in Hnd as [Hnin _]. apply Hnin. replace n with x; [exact Hx|].
    apply Hall; [right; exact Hx|left|]. apply rb_cmp_zero in E as [H1 H2]. simpl in H1, H2.
    apply rb_cmp_zero. split; [congruence|]. eapply cmp_eq_trans; [exact _|apply cmp_sym; [exact _|exact H2]|exact Ef]. }
  assert (Hm' : hm_ok m').
  { pose proof (hm_ok_regions (set_spare m (n_item n)) (regions m') (count m) (hm_ok_spare m _ Hm)) as H.
    apply (hm_ok_fields (set_count (set_regions (set_spare m (n_item n)) (regions m')) (count m))); auto; [|apply Hm].
    apply H.
    - simpl. rewrite length_insert. apply (ok_len m Hm).
    - apply regions_update; [apply (ok_regions m Hm)|exact Hok|]. intros x Hx. rewrite P2 in Hx.
      apply elem_of_cons in Hx as [->|Hx]; [simpl; fold idx; lia|].
      destruct (ok_regions m Hm _ _ Ht) as [_ Hr]. apply Hr. rewrite P1. right. exact Hx.
    - eapply uniq_of_perm; [exact C1|]. apply uniq_cons; assumption.
    - rewrite C1. pose proof (ok_nodes m Hm) as Hns. rewrite C0 in Hns. apply Forall_cons in Hns as [_ Hns].
      constructor; [reflexivity|exact Hns].
    - rewrite (ok_count m Hm), C0, C1. reflexivity. }
  split; [exact Hm'|]. intros k. rewrite (lookup_split m' new (tl ++ rest)), (lookup_split m n (tl ++ rest)) by assumption.
  simpl. rewrite (eqk_same k item (n_item n) Ef). destruct (eqk k (n_item n)); reflexivity.
Qed.

(** Adding a node for a key that is not there. *)
Lemma set_new m item t t' : let idx := Z.land (hash_of item) (mask m) in
  hm_ok m -> regions m !! Z.to_nat idx = Some t -> 0 <= idx -> tree_ok cmp t' -> rb_inorder t' = rb_inorder t ->
  (forall n, n ∈ contents (regions m) -> f item (n_item n) <> 0) ->
  let rs := <[Z.to_nat idx := rb_insert cmp t' (HNode (hash_of item) item)]> (regions m) in
  let m' := set_count (set_regions m rs) (count m + 1) in
  hm_ok m' /\ updated m item m'.
Proof using Laws Good Hcompat.
  intros idx Hm Ht Hi Ho' Hin Hnone rs m'. set (new := HNode (hash_of item) item) in *.
  destruct (contents_split (regions m) _ t Ht) as (rest & E1 & E2).
  assert (Hne : forall x, x ∈ contents (regions m) -> cmp new x <> 0).
  { intros x Hx E. apply rb_cmp_zero in E as [_ E]. apply (Hnone x Hx E). }
  destruct (insert_ok cmp t' new _ Ho') as (Hok & P).
  { intros x Hx. apply Hne. rewrite E1. apply elem_of_app. left. rewrite <- Hin. exact Hx. }
  rewrite Hin in P.
  assert (C1 : contents rs ≡ₚ new :: contents (regions m)) by (subst rs; rewrite E2, P, E1; reflexivity).
  assert (Hm' : hm_ok m').
  { apply hm_ok_regions; [exact Hm|subst rs; rewrite length_insert; apply (ok_len m Hm)| | | |].
    - apply regions_update; [apply (ok_regions m Hm)|exact Hok|]. intros x Hx. rewrite P in Hx.
      apply elem_of_cons in Hx as [->|Hx]; [simpl; fold idx; lia|].
      destruct (ok_regions m Hm _ _ Ht) as [_ Hr]. apply Hr, Hx.
    - eapply uniq_of_perm; [exact C1|]. apply uniq_cons; [apply (ok_uniq m Hm)|exact Hne].
    - rewrite C1. constructor; [reflexivity|apply (ok_nodes m Hm)].
    - rewrite C1, (ok_count m Hm). simpl. lia. }
  split; [exact Hm'|]. intros k. rewrite (lookup_split m' new (contents (regions m))) by assumption.
  simpl. reflexivity.
Qed.

(** The growth step keeps the map's contents. *)
Lemma shifted_cap k p : 4 <= k -> 1 <= p -> u64 (Z.shiftl (2 ^ k) p) <= 2 ^ 63.
Proof using.
  intros Hk Hp. rewrite Z.shiftl_mul_pow2, <- Z.pow_add_r by lia. unfold u64.
  destruct (Z_lt_le_dec (k + p) 64).
  - rewrite Z.mod_small by (split; [lia|apply Z.pow_lt_mono_r; lia]). apply Z.pow_le_mono_r; lia.
  - replace (k + p) with (64 + (k + p - 64)) by lia. rewrite Z.pow_add_r, Z.mul_comm, Z_mod_mult by lia. lia.
Qed.

Lemma grow_ok m al : hm_ok m ->
  wp (if growat m <=? count m then
       let* (ok, m, al) := hashmap_resize m (u64 (Z.shiftl (nbuckets m) (growpower m))) al in
       if negb ok then
         let m := set_oom m true in
         Ok (set_growat m (count m + Z.shiftr (nbuckets m) 2 + 1), al)
       else Ok (m, al)
     else Ok (m, al))
    (fun '(m', al') => hm_ok m' /\ contents (regions m') ≡ₚ contents (regions m) /\ freelist m' = freelist m /\
      exists bs, used al bs al' /\ oom m' = oom m || negb (granted bs)).
Proof using Laws Good.
  intros Hm. destruct (growat m <=? count m).
  2: { simpl. split_and!; auto. exists []. split; [reflexivity|]. cbn. now rewrite orb_false_r. }
  apply wp_bind. destruct (ok_buckets m Hm) as (k & Hk & Hnb).
  eapply wp_mono; [apply hashmap_resize_ok; [exact Hm|]|].
  - rewrite Hnb. apply shifted_cap; [lia|apply (ok_power m Hm)].
  - intros [[ok m'] al'] [(H1 & H2 & _ & H4 & H5 & _) (_ & _ & bs & E & G)]. destruct ok; simpl.
    + split_and!; auto. exists bs. rewrite G, orb_false_r. auto.
    + split; [apply hm_ok_growat, hm_ok_oom, H1|]. split_and!; auto. exists bs. rewrite G, orb_true_r. auto.
Qed.

(** The item found no node: none was kept back and [kmalloc] answered NULL last. *)
Definition no_node m item (bs : list bool) : Prop := hm_lookup m item = None /\ freelist m = [] /\ last bs = Some false.

(** What a call of [hashmap_set] leaves. *)
Definition set_post m item al (x : option (list Z) * hashmap T * alloc) : Prop :=
  let '(r, m', al') := x in r = hm_lookup m item /\ hm_ok m' /\ exists bs, used al bs al' /\ oom m' = negb (granted bs) /\
    ((~ no_node m item bs /\ updated m item m') \/ (no_node m item bs /\ forall k, hm_lookup m' k = hm_lookup m k)).

Lemma hashmap_set_ok m item al : hm_ok m -> wp (hashmap_set m item al) (set_post m item al).
Proof using Laws Good Hcompat.
  intros Hm0. unfold hashmap_set, hashmap_set_with_hash. rewrite get_hash_ok by exact Hm0.
  pose proof (hm_ok_oom m false Hm0) as Hm. apply wp_bind.
  eapply wp_mono; [apply grow_ok, Hm|]. intros [m1 al1] (Hm1 & Hp1 & Hfl1 & b1 & U1 & Ho1). cbn [set_oom oom freelist orb] in Hfl1, Ho1.
  assert (Hlk : forall k, hm_lookup m1 k = hm_lookup m k).
  { intros k. apply lookup_perm; [exact Hm0|exact Hp1]. }
  rewrite (ok_cmp m1 Hm1).
  destruct (search_region m1 item Hm1) as (t & r & t' & E & Ht & Hi & Es & Ho & Ho' & Hin & Hr).
  rewrite E. cbn [bind]. rewrite Es. destruct r as [n|].
  - destruct Hr as (Hn & Hnc & Hh & Ef). cbn [wp].
    destruct (set_existing m1 item t t' n Hm1 Ht Hi Ho' Hin Hn Hh Ef) as [H1 H2].
    assert (Hret : Some (n_item n) = hm_lookup m item) by (rewrite <- Hlk; symmetry; apply lookup_found; assumption).
    split; [exact Hret|]. split; [exact H1|]. exists b1. split; [exact U1|]. split; [exact Ho1|]. left. split; [intros [Hno _]; congruence|].
    intros k. etransitivity; [exact (H2 k)|]. rewrite Hlk. reflexivity.
  - assert (Hnone : hm_lookup m item = None) by (rewrite <- Hlk; apply lookup_none, Hr).
    set (idx := Z.to_nat _) in *. set (m2 := set_regions m1 (<[idx := t']> (regions m1))).
    destruct (contents_split (regions m1) _ t Ht) as (rest & E1 & E2).
    assert (Hp2 : contents (regions m2) ≡ₚ contents (regions m1)) by (subst m2; simpl; rewrite E2, Hin, E1; reflexivity).
    assert (Hm2 : hm_ok m2).
    { apply hm_ok_same_contents; [exact Hm1|apply length_insert| |exact Hp2].
      apply regions_update; [apply (ok_regions m1 Hm1)|exact Ho'|]. rewrite Hin.
      destruct (ok_regions m1 Hm1 _ _ Ht) as [_ H]. exact H. }
    assert (Ht2 : regions m2 !! idx = Some t').
    { subst m2. simpl. apply list_lookup_insert_eq. eapply lookup_lt_Some, Ht. }
    assert (Hnone2 : forall n, n ∈ contents (regions m2) -> f item (n_item n) <> 0).
    { intros n Hn. rewrite Hp2 in Hn. apply Hr, Hn. }
    assert (Hlk2 : forall k, hm_lookup m2 k = hm_lookup m k) by (intros k; rewrite <- Hlk; apply lookup_perm; assumption).
    destruct (set_new m2 item t' t' Hm2 Ht2 Hi Ho' eq_refl Hnone2) as [H1 H2].
    unfold hashmap_node_alloc. destruct (freecount m2 =? 0) eqn:Ef; simpl negb; cbn match.
    + assert (Hfl : freelist m = []) by (pose proof (ok_free m2 Hm2) as Hf; to_prop; rewrite <- Hfl1; change (freelist m1) with (freelist m2); destruct (freelist m2); [reflexivity|cbn [length] in Hf; lia]).
      destruct (kmalloc al1) as [p al2] eqn:Ek. apply used_one in Ek. pose proof (used_app _ _ _ _ _ U1 Ek) as U.
      destruct p; cbn [negb fill_node bind wp]; (split; [symmetry; exact Hnone|]).
      * split; [exact H1|]. exists (b1 ++ [true]). split; [exact U|]. split; [rewrite granted_app, andb_true_r; exact Ho1|]. left. split; [|intros k; etransitivity; [exact (H2 k)|]; now rewrite Hlk2].
        intros (_ & _ & Hl). rewrite last_snoc in Hl. discriminate.
      * split; [apply hm_ok_oom, Hm2|]. exists (b1 ++ [false]). split; [exact U|]. split; [now rewrite granted_app, andb_false_r|]. right. split; [|exact Hlk2].
        split; [exact Hnone|]. split; [exact Hfl|]. apply last_snoc.
    + pose proof (ok_free m2 Hm2) as Hfl. to_prop.
      destruct (freelist m2) as [|fn next] eqn:Efl; [cbn [length] in Hfl; lia|]. cbn [bind wp].
      split; [symmetry; exact Hnone|]. split; [eapply (hm_ok_fields _ _ H1); try reflexivity; simpl; simpl in Hfl; lia|].
      exists b1. split; [exact U1|]. split; [exact Ho1|]. left. split; [|intros k; rewrite <- Hlk2; exact (H2 k)].
      intros (_ & Hno & _). change (freelist m2) with (freelist m1) in Efl. congruence.
Qed.

(** *** Delete *)

(** A map in which [key] is unbound and everything else is as in [m]. *)
Definition removed m key m' : Prop :=
  forall k, hm_lookup m' k = if eqk k key then None else hm_lookup m k.

Lemma delete_node m key t t' n : let idx := Z.land (hash_of key) (mask m) in
  hm_ok m -> regions m !! Z.to_nat idx = Some t -> tree_ok cmp t' -> rb_inorder t' = rb_inorder t ->
  n ∈ rb_inorder t -> f key (n_item n) = 0 ->
  let m' := set_count (hashmap_node_release (set_regions (set_spare m (n_item n))
              (<[Z.to_nat idx := rb_erase t' n]> (regions m))) n) (count m - 1) in
  hm_ok m' /\ removed m key m' /\ count m' = count m - 1.
Proof using Laws Good Hcompat.
  intros idx Hm Ht Ho' Hin Hn Ef m'.
  destruct (contents_split (regions m) _ t Ht) as (rest & E1 & E2).
  destruct (erase_ok cmp t' n _ Ho') as (Hok & P); [rewrite Hin; exact Hn|]. rewrite Hin in P.
  set (rs := <[Z.to_nat idx := rb_erase t' n]> (regions m)) in *.
  assert (C0 : contents (regions m) ≡ₚ n :: contents rs).
  { rewrite E1, P. subst rs. rewrite E2. reflexivity. }
  pose proof (ok_nodes m Hm) as Hns. rewrite C0 in Hns. apply Forall_cons in Hns as [_ Hns].
  assert (Hm' : hm_ok m').
  { assert (Hc : hm_ok (set_count (set_regions m rs) (count m - 1))).
    { apply hm_ok_regions; [exact Hm|subst rs; rewrite length_insert; apply (ok_len m Hm)| | |exact Hns|].
      - apply regions_update; [apply (ok_regions m Hm)|exact Hok|]. intros x Hx.
        destruct (ok_regions m Hm _ _ Ht) as [_ Hr]. apply Hr. rewrite P. right. exact Hx.
      - eapply uniq_tail, uniq_of_perm; [symmetry; exact C0|apply (ok_uniq m Hm)].
      - rewrite (ok_count m Hm), C0. simpl. lia. }
    apply (hm_ok_fields _ _ Hc); try reflexivity. simpl. rewrite (ok_free m Hm). lia. }
  split; [exact Hm'|]. split; [|reflexivity]. intros k.
  rewrite (lookup_split m n (contents rs)) by assumption.
  rewrite <- (eqk_same k key (n_item n) Ef) by idtac.
  destruct (eqk k key) eqn:Ek; [|reflexivity]. apply lookup_none. intros x Hx Ex.
  destruct (uniq_of_perm _ _ (symmetry C0) (ok_uniq m Hm)) as [Hnd Hall].
  apply NoDup_cons in Hnd as [Hnin _]. apply Hnin. replace n with x; [exact Hx|].
  apply Hall; [right; exact Hx|left|]. unfold eqk in Ek. to_prop.
  assert (Exn : f (n_item x) (n_item n) = 0).
  { eapply cmp_eq_trans; [exact _|apply cmp_sym; [exact _|exact Ex]|].
    eapply cmp_eq_trans; [exact _|exact Ek|exact Ef]. }
  apply rb_cmp_zero. split; [|exact Exn]. rewrite Forall_forall in Hns. rewrite (Hns x Hx).
  pose proof (ok_nodes m Hm) as Hall'. rewrite C0 in Hall'. apply Forall_cons in Hall' as [Hh _]. rewrite Hh.
  unfold hash_of. rewrite (Hcompat _ _ Exn). reflexivity.
Qed.

Lemma hashmap_delete_ok m key al : hm_ok m -> count m < 2 ^ 62 ->
  wp (hashmap_delete m key al) (fun '(r, m', _) => r = hm_lookup m key /\ hm_ok m' /\ removed m key m').
Proof using Laws Good Hcompat.
  intros Hm0 Hc0. unfold hashmap_delete, hashmap_delete_with_hash. rewrite get_hash_ok by exact Hm0.
  pose proof (hm_ok_oom m false Hm0) as Hm. set (m1 := set_oom m false) in *.
  assert (Hlk : forall k, hm_lookup m1 k = hm_lookup m k) by reflexivity.
  change (compare m1) with (compare m). rewrite (ok_cmp m Hm0).
  destruct (search_region m1 key Hm) as (t & r & t' & E & Ht & Hi & Es & Ho & Ho' & Hin & Hr).
  rewrite E. cbn [bind]. rewrite Es. destruct r as [n|].
  - destruct Hr as (Hn & Hnc & Hh & Ef).
    destruct (delete_node m1 key t t' n Hm Ht Ho' Hin Hn Ef) as (H1 & H2 & H3).
    set (m2 := set_count _ _) in *. cbv zeta.
    change (set_count (hashmap_node_release _ n) _) with m2.
    assert (Hret : Some (spare m2) = hm_lookup m key) by (symmetry; apply (lookup_found m key n); assumption).
    destruct (_ && _); [|cbn [wp]; auto].
    destruct (round_pow2_ok (u64 (Z.shiftl (count m2) 1))) as (k & Hk & -> & _).
    { pose proof (ok_count m2 H1). change (count m1) with (count m) in H3.
      rewrite Z.shiftl_mul_pow2, u64_small by lia. lia. }
    cbn [bind]. set (target := if _ <? cap m2 then _ else _).
    assert (Htg : target <= 2 ^ 63).
    { subst target. destruct (ok_cap m2 H1) as (c & Hc & ->).
      assert (2 ^ c <= 2 ^ 63) by (apply Z.pow_le_mono_r; lia).
      assert (2 ^ k <= 2 ^ 63) by (apply Z.pow_le_mono_r; lia).
      destruct (Z.shiftr (nbuckets m2) 1 <? 2 ^ k) eqn:E3; to_prop;
        match goal with |- (if ?b then _ else _) <= _ => destruct b end; lia. }
    apply wp_bind. eapply wp_mono; [apply hashmap_resize_ok; [exact H1|exact Htg]|].
    intros [[ok m3] al3] [(G1 & G2 & G3 & _) _]. cbn [wp]. rewrite G3. split; [exact Hret|]. split; [exact G1|].
    intros k'. rewrite (lookup_perm m2 m3) by assumption. apply H2.
  - cbn [wp]. destruct (contents_split (regions m1) _ t Ht) as (rest & E1 & E2).
    set (m2 := set_regions _ _).
    assert (Hp2 : contents (regions m2) ≡ₚ contents (regions m1)).
    { transitivity (rb_inorder t' ++ rest); [apply E2|]. rewrite Hin, E1. reflexivity. }
    split; [symmetry; apply lookup_none, Hr|]. split.
    + apply hm_ok_same_contents; [exact Hm|apply length_insert| |exact Hp2].
      apply regions_update; [apply (ok_regions m1 Hm)|exact Ho'|]. rewrite Hin.
      destruct (ok_regions m1 Hm _ _ Ht) as [_ H]. exact H.
    + intros k. rewrite (lookup_perm m1 m2) by assumption. rewrite Hlk. destruct (eqk k key) eqn:Ek; [|reflexivity].
      apply lookup_none. intros n Hn En. unfold eqk in Ek. to_prop. apply (Hr n Hn).
      eapply cmp_eq_trans; [exact _|apply cmp_sym; [exact _|exact Ek]|exact En].
Qed.

(** *** New, clear, scan *)

(** A new map is empty; without allocation failures there is one. *)
Definition new_post (c : Z) (al : alloc) (r : option (hashmap T) * alloc) : Prop :=
  (r.1 = None -> al <> []) /\
  forall m, r.1 = Some m -> hm_ok m /\ contents (regions m) = [] /\ c <= nbuckets m /\ count m = 0.

Lemma hashmap_new_ok es c ef al : es <> 0 -> c <= 2 ^ 63 ->
  wp (hashmap_new es c s0 s1 h (Some f) ef al) (new_post c al).
Proof using Laws.
  intros He Hc. unfold hashmap_new, hashmap_new_with_allocator.
  replace (es =? 0) with false by (symmetry; apply Z.eqb_neq; exact He).
  destruct (round_pow2_ok c Hc) as (k & Hk & -> & Hle). cbn [bind].
  assert (0 < 2 ^ k) by (apply Z.pow_pos_nonneg; lia).
  destruct (new_regions_inv (T:=T) cmp (2 ^ k - 1) (2 ^ k)) as (Hn1 & Hn2 & Hn3).
  assert (Hfail : forall al', al <> [] -> wp (Ok (None, al')) (new_post c al)).
  { intros al' Hal. cbn [wp]. split; [auto|discriminate]. }
  destruct al as [|[] [|[] [|[] al]]]; cbn [kmalloc negb];
    try (apply Hfail; discriminate); cbn [wp];
    (split; [discriminate|]; intros m [= <-]; split_and!; auto;
     split; simpl; rewrite ?Hn2; auto; try lia; try (exists k; auto);
     split; [constructor|]; intros x y Hx; apply not_elem_of_nil in Hx; easy).
Qed.

Lemma hashmap_clear_ok m b al : hm_ok m ->
  wp (hashmap_clear m b al) (fun '(freed, m', _) => hm_ok m' /\ contents (regions m') = [] /\
    freed ≡ₚ (if elfree m then items m else [])).
Proof using Laws Good.
  intros Hm. unfold hashmap_clear, clear_regions.
  assert (Hall : Z.to_nat (nbuckets m) = length (regions m)) by (pose proof (ok_len m Hm); lia).
  rewrite Hall, drop_all, app_nil_r. rewrite take_ge by lia.
  assert (Hfreed : (if elfree m then map n_item (collect (regions m)) else []) ≡ₚ (if elfree m then items m else [])).
  { destruct (elfree m); [|reflexivity]. apply Permutation_map. eapply collect_perm, ok_regions, Hm. }
  set (freed := if elfree m then map _ _ else _) in *.
  assert (Hrs : map (fun _ : T => rb_root_init) (regions m) = new_regions (nbuckets m)).
  { unfold new_regions. rewrite Hall. clear. induction (regions m); simpl; [reflexivity|]. f_equal. assumption. }
  rewrite Hrs. set (m1 := hashmap_cache_drain _).
  destruct (new_regions_inv (T:=T) cmp (mask m) (nbuckets m)) as (Hn1 & Hn2 & Hn3).
  assert (Hm1 : hm_ok m1).
  { assert (Hc : hm_ok (set_count (set_regions m (new_regions (nbuckets m))) 0)).
    { apply hm_ok_regions; [exact Hm|rewrite Hn3; destruct (ok_buckets m Hm) as (k & Hk & ->); lia|exact Hn1| | |];
        rewrite ?Hn2; auto. split; [constructor|]. intros x y Hx. apply not_elem_of_nil in Hx. easy. }
    apply (hm_ok_fields _ _ Hc); reflexivity. }
  destruct b; cbn [wp].
  - split; [|split; [exact Hn2|exact Hfreed]]. destruct Hm1. split; auto.
  - destruct (negb _); [|cbn [wp]; auto]. apply wp_bind.
    destruct (ok_cap m1 Hm1) as (c & Hc & Ec).
    eapply wp_mono; [apply (hashmap_resize_ok m1); [exact Hm1|rewrite Ec; apply Z.pow_le_mono_r; lia]|].
    intros [[ok m2] al2] [(G1 & G2 & _) _]. cbn [wp]. split; [exact G1|]. split; [|exact Hfreed].
    change (regions m1) with (new_regions (nbuckets m) : list T) in G2. rewrite Hn2 in G2.
    apply Permutation_nil_r in G2. exact G2.
Qed.

Lemma scan_nodes_app {U} (iter : list Z -> U -> bool * U) a b u :
  scan_nodes iter (a ++ b) u = let '(go, u') := scan_nodes iter a u in
    if go then scan_nodes iter b u' else (false, u').
Proof using.
  revert u. induction a as [|n a IH]; intros u; simpl; [reflexivity|].
  destruct (iter (n_item n) u) as [[] u']; [apply IH|reflexivity].
Qed.

Lemma hashmap_scan_ok {U} fuel m (iter : list Z -> U -> bool * U) u : hm_ok m ->
  nbuckets m < Z.of_nat fuel ->
  hashmap_scan fuel m iter u = Ok (scan_nodes iter (contents (regions m)) u).
Proof using.
  intros Hm Hf. unfold hashmap_scan. apply wp_eq. pose proof (ok_len m Hm) as Hlen.
  apply (wp_loop (fun '(i, u') => exists k, i = Z.of_nat k /\ (k <= length (regions m))%nat /\
      scan_nodes iter (contents (regions m)) u = scan_nodes iter (contents (drop k (regions m))) u')
    (fun '(i, _) => Z.to_nat (nbuckets m - i))).
  - intros [i u'] (k & -> & Hk & E). unfold step_ok. destruct (_ <? _) eqn:El; to_prop.
    + destruct (region_ok (regions m) (Z.of_nat k)) as (t & -> & Ht); [lia|]. rewrite Nat2Z.id in Ht. cbn [bind].
      rewrite (drop_S _ _ _ Ht) in E. unfold contents in E. cbn [map concat] in E.
      rewrite (scan_nodes_app iter (rb_inorder t)) in E.
      destruct (scan_nodes iter (rb_inorder t) u') as [[] u2]; cbn [wp].
      * split; [|lia]. exists (S k). split; [lia|]. split; [lia|exact E].
      * symmetry. exact E.
    + cbn [wp]. rewrite drop_ge in E by lia. symmetry. exact E.
  - exists 0%nat. split; [reflexivity|]. split; [lia|]. rewrite drop_0. reflexivity.
  - destruct (ok_buckets m Hm) as (k & Hk & E). assert (0 < nbuckets m) by (rewrite E; apply Z.pow_pos_nonneg; lia). lia.
Qed.
End Map.

(** * A reference implementation of the tree interface *)

(** Sorted lists satisfy the interface, so what is proved against it can hold. *)
Fixpoint list_insert_sorted (cmp : hnode -> hnode -> Z) (t : list hnode) (n : hnode) : list hnode :=
  match t with
  | [] => [n]
  | x :: t' => if cmp n x <? 0 then n :: t else x :: list_insert_sorted cmp t' n
  end.

Fixpoint list_erase (t : list hnode) (x : hnode) : list hnode :=
  match t with
  | [] => []
  | y :: t' => if decide (x = y) then t' else y :: list_erase t' x
  end.

Fixpoint list_set_item (t : list hnode) (x : hnode) (it : list Z) : list hnode :=
  match t with
  | [] => []
  | y :: t' => if decide (x = y) then HNode (n_hash x) it :: t' else y :: list_set_item t' x it
  end.

#[export] Instance list_tree : TreeOps (list hnode) := {
  rb_root_init := [];
  rb_search cmp t k := (List.find (fun x => cmp k x =? 0) t, t);
  rb_insert := list_insert_sorted;
  rb_erase := list_erase;
  rb_set_item := list_set_item;
  rb_inorder t := t;
  rb_postorder t := rev t
}.

Lemma list_insert_perm cmp t n : list_insert_sorted cmp t n ≡ₚ n :: t.
Proof.
  induction t as [|x t IH]; simpl; [reflexivity|]. destruct (_ <? 0); [reflexivity|].
  rewrite IH. apply perm_swap.
Qed.

Lemma list_erase_perm t x : x ∈ t -> t ≡ₚ x :: list_erase t x.
Proof.
  intros H. induction H as [t|y t x H IH]; simpl; case_decide; subst; try reflexivity; [easy|].
  rewrite IH at 1. apply perm_swap.
Qed.

Lemma list_set_item_perm t x it : x ∈ t -> list_set_item t x it ≡ₚ HNode (n_hash x) it :: list_erase t x.
Proof.
  intros H. induction H as [t|y t x H IH]; simpl; case_decide; subst; try reflexivity; [easy|].
  rewrite IH. apply perm_swap.
Qed.

#[export] Instance list_tree_laws : TreeLaws (list hnode).
Proof.
  refine {| tree_ok := fun _ _ => True |}; simpl; auto.
  - intros cmp t k r t' _ _ [= <- <-]. split; [exact I|]. split; [reflexivity|].
    destruct (List.find _ t) as [x|] eqn:E.
    + apply List.find_some in E as [H1 H2]. apply Z.eqb_eq in H2. split; [apply list_elem_of_In, H1|exact H2].
    + intros x Hx E0. pose proof (List.find_none _ _ E x) as H. rewrite list_elem_of_In in Hx.
      apply H in Hx. apply Z.eqb_neq in Hx. easy.
  - intros. split; [exact I|]. apply list_insert_perm.
  - intros. split; [exact I|]. apply list_erase_perm. assumption.
  - intros cmp t x it _ _ Hx _. split; [exact I|]. exists (list_erase t x).
    split; [apply list_erase_perm, Hx|apply list_set_item_perm, Hx].
  - intros. symmetry. apply Permutation_rev.
Defined.

(** * The properties *)

(** An example map: two-byte items compared and hashed by their first byte. *)
Definition ex_cmp (a b : list Z) : Z := hd 0 a - hd 0 b.
Definition ex_hash (a : list Z) (_ _ : Z) : Z := 7919 * hd 0 a.

#[export] Instance ex_cmp_good : GoodCmp ex_cmp.
Proof. split; unfold ex_cmp; intros; lia. Qed.

Lemma ex_compat a b : ex_cmp a b = 0 -> ex_hash a 0 0 = ex_hash b 0 0.
Proof. unfold ex_cmp, ex_hash. intros. f_equal. lia. Qed.

Definition ex_empty : hashmap (list hnode) :=
  HashMap 2 15 0 (lf_threshold 16 (PCT_TO_LF 60)) (lf_threshold 16 SHRINK_LF) (new_regions 16)
    ex_hash (Some ex_cmp) 16 16 [] 0 [] true 0 0 60 1 false.

Lemma ex_empty_ok : hm_ok ex_cmp ex_hash 0 0 ex_empty.
Proof.
  pose proof (hashmap_new_ok (T:=list hnode) ex_cmp ex_hash 0 0 2 16 true [] ltac:(lia) ltac:(lia)) as H.
  change (hashmap_new 2 16 0 0 ex_hash (Some ex_cmp) true []) with (Ok (Some ex_empty, [] : alloc)) in H.
  destruct H as [_ H]. apply (H ex_empty eq_refl).
Qed.

(** C13: [hashmap_set] keeps the map well formed and returns the item that was
    equal to the new one, NULL if none.  Let [bs] be the answers of the calls of
    [kmalloc] that were made.  The flag [oom] is set exactly if one of them was
    NULL.  If the key was not there, no node was kept back for reuse and the last
    answer was NULL, the map has the items of before; in every other case, also
    when only the growth of the table was refused, it has the new item for every
    equal key and is unchanged for all other keys. *)
Theorem hashmap_set_correct {T : Type} `{!TreeOps T, !TreeLaws T} (f : list Z -> list Z -> Z)
    `{!GoodCmp f} (h : list Z -> Z -> Z -> Z) (s0 s1 : Z) (m : hashmap T) (item : list Z) (al : alloc) :
  (forall a b, f a b = 0 -> h a s0 s1 = h b s0 s1) -> hm_ok f h s0 s1 m ->
  exists r m' al' bs, hashmap_set m item al = Ok (r, m', al') /\ used al bs al' /\ r = hm_lookup f m item /\ hm_ok f h s0 s1 m' /\
    oom m' = negb (granted bs) /\
    if bool_decide (hm_lookup f m item = None /\ freelist m = [] /\ last bs = Some false)
    then forall k, hm_lookup f m' k = hm_lookup f m k
    else forall k, hm_lookup f m' k = if eqk f k item then Some item else hm_lookup f m k.
Proof.
  intros Hc Hm. pose proof (hashmap_set_ok f h s0 s1 Hc m item al Hm) as H.
  apply wp_ex in H as ([[r m'] al'] & E & H1 & H2 & bs & U & Ho & H3). exists r, m', al', bs. split_and!; auto.
  destruct H3 as [[Hn Hu]|[Hn Hu]]; [rewrite bool_decide_eq_false_2 by exact Hn|rewrite bool_decide_eq_true_2 by exact Hn]; exact Hu.
Qed.

(** A map with one item. *)
Definition ex_one : hashmap (list hnode) := match hashmap_set ex_empty [5; 1] [] with Ok (_, m, _) => m | _ => ex_empty end.

Lemma ex_one_ok : hm_ok ex_cmp ex_hash 0 0 ex_one.
Proof.
  pose proof (hashmap_set_ok ex_cmp ex_hash 0 0 ex_compat ex_empty [5; 1] [] ex_empty_ok) as H. apply wp_ex in H as ([[r m'] al'] & E & _ & Hm & _).
  unfold ex_one. rewrite E. exact Hm.
Qed.

(** A second item: with memory it is stored, without it is not. *)
Lemma hashmap_set_correct_witness : hm_ok ex_cmp ex_hash 0 0 ex_one /\
  (exists m' al', hashmap_set ex_one [6; 2] [true] = Ok (None, m', al') /\ oom m' = false /\ hm_lookup ex_cmp m' [6; 0] = Some [6; 2] /\ hm_lookup ex_cmp m' [5; 0] = Some [5; 1]) /\
  exists m' al', hashmap_set ex_one [6; 2] [false] = Ok (None, m', al') /\ oom m' = true /\ hm_lookup ex_cmp m' [6; 0] = None /\ hm_lookup ex_cmp m' [5; 0] = Some [5; 1].
Proof.
  split; [exact ex_one_ok|]. split.
  - destruct (hashmap_set_correct ex_cmp ex_hash 0 0 ex_one [6; 2] [true] ex_compat ex_one_ok) as (r & m' & al' & bs & E & U & Hr & _ & Ho & Hk).
    vm_compute in E. injection E as <- <- <-. eexists _, _. split_and!; vm_compute; reflexivity.
  - destruct (hashmap_set_correct ex_cmp ex_hash 0 0 ex_one [6; 2] [false] ex_compat ex_one_ok) as (r & m' & al' & bs & E & U & Hr & _ & Ho & Hk).
    vm_compute in E. injection E as <- <- <-. eexists _, _. split_and!; vm_compute; reflexivity.
Defined.

(** [hashmap_get] returns the item bound to the key, NULL when there is none,
    and leaves the contents as they are. *)
Theorem hashmap_get_correct {T : Type} `{!TreeOps T, !TreeLaws T} (f : list Z -> list Z -> Z)
    `{!GoodCmp f} (h : list Z -> Z -> Z -> Z) (s0 s1 : Z) (m : hashmap T) (key : list Z) :
  (forall a b, f a b = 0 -> h a s0 s1 = h b s0 s1) -> hm_ok f h s0 s1 m ->
  exists m', hashmap_get m key = Ok (hm_lookup f m key, m') /\ hm_ok f h s0 s1 m' /\
    forall k, hm_lookup f m' k = hm_lookup f m k.
Proof.
  intros Hc Hm. pose proof (hashmap_get_ok f h s0 s1 Hc m key Hm) as H.
  apply wp_ex in H as ([r m'] & E & -> & H2 & H3). exists m'. split; [exact E|]. split; [exact H2|].
  intros k. apply (lookup_perm f h s0 s1 Hc m m' k Hm H3).
Qed.

Lemma hashmap_get_correct_witness : exists m', hashmap_get ex_empty [5; 1] = Ok (None, m').
Proof.
  destruct (hashmap_get_correct ex_cmp ex_hash 0 0 ex_empty [5; 1] ex_compat ex_empty_ok) as (m' & E & _).
  exists m'. exact E.
Defined.

(** C14: [hashmap_delete] keeps the map well formed, returns the item bound to the
    key (NULL if none), and afterwards no key equal to it is bound while all others
    are as before, also when the deletion shrinks the table. *)
Theorem hashmap_delete_correct {T : Type} `{!TreeOps T, !TreeLaws T} (f : list Z -> list Z -> Z)
    `{!GoodCmp f} (h : list Z -> Z -> Z -> Z) (s0 s1 : Z) (m : hashmap T) (key : list Z) (al : alloc) :
  (forall a b, f a b = 0 -> h a s0 s1 = h b s0 s1) -> hm_ok f h s0 s1 m -> count m < 2 ^ 62 ->
  exists m' al', hashmap_delete m key al = Ok (hm_lookup f m key, m', al') /\ hm_ok f h s0 s1 m' /\
    forall k, hm_lookup f m' k = if eqk f k key then None else hm_lookup f m k.
Proof.
  intros Hc Hm Hn. pose proof (hashmap_delete_ok f h s0 s1 Hc m key al Hm Hn) as H.
  apply wp_ex in H as ([[r m'] al'] & E & -> & H2 & H3). exists m', al'. auto.
Qed.

Lemma hashmap_delete_correct_witness : hm_ok ex_cmp ex_hash 0 0 ex_one /\
  exists m' al', hashmap_delete ex_one [5; 9] [] = Ok (Some [5; 1], m', al') /\ hm_lookup ex_cmp m' [5; 0] = None.
Proof.
  split; [exact ex_one_ok|]. destruct (hashmap_delete_correct ex_cmp ex_hash 0 0 ex_one [5; 9] [] ex_compat ex_one_ok ltac:(vm_compute; reflexivity))
    as (m' & al' & E & _ & Hk).
  exists m', al'. split; [rewrite E; reflexivity|]. rewrite (Hk [5; 0]). reflexivity.
Defined.



(** [hashmap_scan] hands every item of the map to the callback exactly once, in
    bucket order, and stops at the first call that returns false. *)
Theorem hashmap_scan_correct {T U : Type} `{!TreeOps T, !TreeLaws T} (f : list Z -> list Z -> Z)
    (h : list Z -> Z -> Z -> Z) (s0 s1 : Z) (m : hashmap T) (iter : list Z -> U -> bool * U) (u : U) (fuel : nat) :
  hm_ok f h s0 s1 m -> nbuckets m < Z.of_nat fuel ->
  hashmap_scan fuel m iter u = Ok (scan_nodes iter (contents (regions m)) u).
Proof. intros Hm Hf. apply (hashmap_scan_ok f h s0 s1); assumption. Qed.

Lemma hashmap_scan_correct_witness :
  hashmap_scan 20 ex_empty (fun x (n : nat) => (true, S n)) 0%nat = Ok (true, 0%nat).
Proof.
  apply (hashmap_scan_correct ex_cmp ex_hash 0 0 ex_empty (fun x (n : nat) => (true, S n)) 0%nat 20 ex_empty_ok).
  simpl. lia.
Defined.
