(* ===== verification/ArtNode.v ===== *)
(** Inner nodes of the kernel's adaptive radix tree,
    [src/kernel/src/klib/algorithm/art.c]: the four node layouts, the bounded
    free lists of small nodes, and finding, adding and removing a child with
    growing and shrinking between the layouts.  Array moves go through
    [_memmove] ([src/kernel/src/klib/mem.cpp]), which is an interface here: one
    instance is the C library's contract, the other runs the kernel's routine. *)
From stdpp Require Import base gmap list list_numbers fin_maps.
From Stdlib Require Import ZArith Lia Sorting.Sorted.
From S2P Require Import Prelude Words Memory.

Open Scope Z_scope.
Open Scope c_scope.

(** * Array moves *)

(** [array_move size l dst src n]: what is in the array [l] of elements of [size]
    bytes after [_memmove(l + dst, l + src, n * size)]. *)
Class ArrayMove : Type :=
  array_move : forall {A : Type}, Z -> list A -> Z -> Z -> Z -> list A.

(** The contract of [memmove]: the [n] elements arrive as they were. *)
Definition moved {A} (l : list A) (dst src n : Z) : list A :=
  take (Z.to_nat dst) l ++ take (Z.to_nat n) (drop (Z.to_nat src) l) ++ drop (Z.to_nat (dst + n)) l.

Class ArrayMoveOk `{!ArrayMove} : Prop :=
  array_move_ok : forall A size (l : list A) dst src n,
    0 <= dst -> 0 <= src -> 0 <= n -> dst + n <= Z.of_nat (length l) -> src + n <= Z.of_nat (length l) ->
    array_move size l dst src n = moved l dst src n.

Definition c_memmove : ArrayMove := fun A _ l dst src n => moved l dst src n.

Lemma c_memmove_ok : @ArrayMoveOk c_memmove.
Proof. intros A size l dst src n _ _ _ _ _. reflexivity. Qed.

(** The kernel's routine: [memmove_fscpuf] ([src/kernel/src/klib/meme.cpp] has the
    text of [src/lib/stdc/memory.c], which [Memory] models) runs on an array that
    holds the element numbers, and the result says which element is where.  The
    arrays of a node start at a multiple of eight. *)
Definition index_bytes (size : Z) (n : nat) : list Z :=
  concat (map (fun i => bytes_le (Z.to_nat size) (Z.of_nat i)) (seq 0 n)).

Definition kernel_memmove (t : arch) : ArrayMove := fun A size l dst src n =>
  let m := write ∅ 32 (index_bytes size (length l)) in
  match memmove_fscpuf t 300 m (32 + dst * size) (32 + src * size) (n * size) with
  | Ok (m', _) =>
      omap (fun i => match load_bytes m' (32 + Z.of_nat i * size) (Z.to_nat size) with
                     | Ok bs => l !! Z.to_nat (le bs)
                     | _ => None
                     end) (seq 0 (length l))
  | _ => l
  end.

(** * The layouts *)

Definition MAX_PREFIX_LEN : Z := 10.

(** [art_node]: the common header; the type tag is the constructor below. *)
Record art_node : Type := Hdr { partial_len : Z; num_children : Z; partial : list Z }.

Definition set_num (h : art_node) (n : Z) : art_node := Hdr (partial_len h) (u8 n) (partial h).
Definition set_prefix (h : art_node) (n : Z) (p : list Z) : art_node := Hdr (u32 n) (num_children h) p.

(** [art_node4] to [art_node256]; [A] is what a child pointer points to, NULL is
    [None].  Slots of the first two layouts from [num_children] on are stale. *)
Inductive inner (A : Type) : Type :=
| Node4 (n : art_node) (keys : list Z) (children : list (option A))
| Node16 (n : art_node) (keys : list Z) (children : list (option A))
| Node48 (n : art_node) (keys : list Z) (children : list (option A))
| Node256 (n : art_node) (children : list (option A)).
Arguments Node4 {A}.
Arguments Node16 {A}.
Arguments Node48 {A}.
Arguments Node256 {A}.

Inductive node_type : Type := NODE4 | NODE16 | NODE48 | NODE256.

Definition hdr {A} (n : inner A) : art_node :=
  match n with
  | Node4 h _ _ | Node16 h _ _ | Node48 h _ _ | Node256 h _ => h
  end.

Definition with_hdr {A} (n : inner A) (h : art_node) : inner A :=
  match n with
  | Node4 _ ks cs => Node4 h ks cs
  | Node16 _ ks cs => Node16 h ks cs
  | Node48 _ ks cs => Node48 h ks cs
  | Node256 _ cs => Node256 h cs
  end.

(** [__memcpy] of [n] elements to the start of an array. *)
Definition copy_in {A} (dst src : list A) (n : Z) : res (list A) :=
  if (n <=? Z.of_nat (length dst)) && (n <=? Z.of_nat (length src))
  then Ok (take (Z.to_nat n) src ++ drop (Z.to_nat n) dst) else Fault.

Definition _min__art (a b : Z) : Z := if a <? b then a else b.

Definition copy_header (dest src : art_node) : res art_node :=
  let* p := copy_in (partial dest) (partial src) (_min__art MAX_PREFIX_LEN (i32 (partial_len src))) in
  Ok (Hdr (partial_len src) (num_children src) p).

(** * Node memory *)

Definition ART_CACHE_CAP_N4 : Z := 64.
Definition ART_CACHE_CAP_N16 : Z := 32.

Section Alloc.
Context {A : Type}.

(** A cached node keeps its arrays; its header is overwritten by the link. *)
Abbreviation arrays := (list Z * list (option A))%type.

Record art_node_cache : Type := Cache { head : list arrays; count : Z }.

(** The two free lists and the outcomes of the coming allocations. *)
Record art_mem : Type := ArtMem { art_cache_n4 : art_node_cache; art_cache_n16 : art_node_cache; outcomes : alloc }.

Definition art_cache_pop (c : art_node_cache) : res (option arrays * art_node_cache) :=
  if count c =? 0 then Ok (None, c)
  else match head c with
       | n :: rest => Ok (Some n, Cache rest (u16 (count c - 1)))
       | [] => Fault
       end.

Definition art_cache_push (c : art_node_cache) (n : arrays) (cap : Z) : bool * art_node_cache :=
  if count c <? cap then (true, Cache (n :: head c) (u16 (count c + 1))) else (false, c).

(** Both lists are walked to their ends and freed. *)
Definition art_cache_drain (m : art_mem) : art_mem := ArtMem (Cache [] 0) (Cache [] 0) (outcomes m).

Definition zero_hdr : art_node := Hdr 0 0 (replicate 10 0).

(** [kcalloc]; on failure the store to [n->type] goes through NULL. *)
Definition kcalloc (m : art_mem) (n : inner A) : res (inner A * art_mem) :=
  let '(ok, al) := kmalloc (outcomes m) in
  if ok : bool then Ok (n, ArtMem (art_cache_n4 m) (art_cache_n16 m) al) else Fault.

Definition alloc_node (m : art_mem) (type : node_type) : res (inner A * art_mem) :=
  match type with
  | NODE4 =>
      let* (n, c) := art_cache_pop (art_cache_n4 m) in
      let m := ArtMem c (art_cache_n16 m) (outcomes m) in
      match n with
      | Some (ks, cs) => Ok (Node4 zero_hdr ks cs, m)
      | None => kcalloc m (Node4 zero_hdr (replicate 4 0) (replicate 4 None))
      end
  | NODE16 =>
      let* (n, c) := art_cache_pop (art_cache_n16 m) in
      let m := ArtMem (art_cache_n4 m) c (outcomes m) in
      match n with
      | Some (ks, cs) => Ok (Node16 zero_hdr ks cs, m)
      | None => kcalloc m (Node16 zero_hdr (replicate 16 0) (replicate 16 None))
      end
  | NODE48 => kcalloc m (Node48 zero_hdr (replicate 256 0) (replicate 48 None))
  | NODE256 => kcalloc m (Node256 zero_hdr (replicate 256 None))
  end.

Definition free_node (m : art_mem) (n : inner A) : art_mem :=
  match n with
  | Node4 _ ks cs =>
      ArtMem (art_cache_push (art_cache_n4 m) (ks, cs) ART_CACHE_CAP_N4).2 (art_cache_n16 m) (outcomes m)
  | Node16 _ ks cs =>
      ArtMem (art_cache_n4 m) (art_cache_push (art_cache_n16 m) (ks, cs) ART_CACHE_CAP_N16).2 (outcomes m)
  | _ => m
  end.
End Alloc.
Arguments art_node_cache : clear implicits.
Arguments art_mem : clear implicits.

(** * Finding, adding and removing children *)

Section Code.
Context {A : Type} `{!ArrayMove}.

(** The first of [left] keys from index [i] on that passes the test. *)
Fixpoint scan_key (p : Z -> bool) (keys : list Z) (i : Z) (left : nat) : res (option Z) :=
  match left with
  | O => Ok None
  | S left' =>
      let* k := get keys i in
      if p k then Ok (Some i) else scan_key p keys (i + 1) left'
  end.

(** [bitfield |= (1U << i)] for the keys that pass the test. *)
Fixpoint key_bits (p : Z -> bool) (keys : list Z) (i : Z) (bitfield : Z) : Z :=
  match keys with
  | [] => bitfield
  | k :: ks => key_bits p ks (i + 1) (if p k then Z.lor bitfield (Z.shiftl 1 i) else bitfield)
  end.

Definition low_mask (n : Z) : Z := u32 (u32 (Z.shiftl 1 n) - 1).

(** The slot in [children] of the child for byte [c], NULL when there is none. *)
Definition find_child (n : inner A) (c : Z) : res (option Z) :=
  match n with
  | Node4 h keys _ => scan_key (fun k => k =? c) keys 0 (Z.to_nat (num_children h))
  | Node16 h keys _ =>
      let bitfield := key_bits (fun k => k =? c) keys 0 0 in
      let bitfield := Z.land bitfield (low_mask (num_children h)) in
      Ok (if bitfield =? 0 then None else Some (ctz bitfield))
  | Node48 h keys _ =>
      let* idx := get keys c in
      Ok (if idx =? 0 then None else Some (idx - 1))
  | Node256 h children =>
      let* x := get children c in
      Ok (match x with Some _ => Some c | None => None end)
  end.

(** Reading and writing through the pointer [find_child] returned. *)
Definition slots (n : inner A) : list (option A) :=
  match n with
  | Node4 _ _ cs | Node16 _ _ cs | Node48 _ _ cs => cs
  | Node256 _ cs => cs
  end.

Definition set_slots (n : inner A) (cs : list (option A)) : inner A :=
  match n with
  | Node4 h ks _ => Node4 h ks cs
  | Node16 h ks _ => Node16 h ks cs
  | Node48 h ks _ => Node48 h ks cs
  | Node256 h _ => Node256 h cs
  end.

(** [_memmove] inside an array; both ranges must be in it. *)
Definition move {B} (size : Z) (l : list B) (dst src n : Z) : res (list B) :=
  if (0 <=? dst) && (0 <=? src) && (0 <=? n) && (dst + n <=? Z.of_nat (length l)) && (src + n <=? Z.of_nat (length l))
  then Ok (array_move size l dst src n) else Fault.

Definition add_child256 (h : art_node) (children : list (option A)) (c : Z) (child : A) : res (inner A) :=
  let* cs := put children c (Some child) in
  Ok (Node256 (set_num h (num_children h + 1)) cs).

(** [while (n->children[pos]) pos++] *)
Fixpoint first_null (children : list (option A)) (pos : Z) : res Z :=
  match children with
  | [] => Fault
  | None :: _ => Ok pos
  | Some _ :: cs => first_null cs (pos + 1)
  end.

(** The children of a NODE48 at the places a NODE256 has them. *)
Definition spread48 (keys : list Z) (children : list (option A)) : list (option A) -> res (list (option A)) :=
  for_up 256 0 (fun i acc =>
    let* k := get keys i in
    if k =? 0 then Ok acc
    else let* x := get children (k - 1) in put acc i x).

Definition add_child48 (m : art_mem A) (h : art_node) (keys : list Z) (children : list (option A)) (c : Z) (child : A)
    : res (inner A * art_mem A) :=
  if num_children h <? 48 then
    let* pos := first_null children 0 in
    let* cs := put children pos (Some child) in
    let* ks := put keys c (u8 (pos + 1)) in
    Ok (Node48 (set_num h (num_children h + 1)) ks cs, m)
  else
    let* (new_node, m) := alloc_node m NODE256 in
    match new_node with
    | Node256 nh ncs =>
        let* ncs := spread48 keys children ncs in
        let* nh := copy_header nh h in
        let m := free_node m (Node48 h keys children) in
        let* ncs := put ncs c (Some child) in
        Ok (Node256 (set_num nh (num_children nh + 1)) ncs, m)
    | _ => Fault
    end.

(** [new_node->keys[n->keys[i]] = i + 1] *)
Definition index16 (keys : list Z) (nc : Z) : list Z -> res (list Z) :=
  for_up (Z.to_nat nc) 0 (fun i acc => let* k := get keys i in put acc k (u8 (i + 1))).

(** Shifting the entries from [idx] on and storing the new one there. *)
Definition insert_at (h : art_node) (keys : list Z) (children : list (option A)) (idx c : Z) (child : A)
    (shift : bool) : res (art_node * list Z * list (option A)) :=
  let* ks := if shift then move 1 keys (idx + 1) idx (num_children h - idx) else Ok keys in
  let* cs := if shift then move 8 children (idx + 1) idx (num_children h - idx) else Ok children in
  let* ks := put ks idx c in
  let* cs := put cs idx (Some child) in
  Ok (set_num h (num_children h + 1), ks, cs).

Definition add_child16 (m : art_mem A) (h : art_node) (keys : list Z) (children : list (option A)) (c : Z) (child : A)
    : res (inner A * art_mem A) :=
  if num_children h <? 16 then
    let mask := low_mask (num_children h) in
    let bitfield := key_bits (fun k => c <? k) (take (Z.to_nat (num_children h)) keys) 0 0 in
    let bitfield := Z.land bitfield mask in
    let* (h', ks, cs) :=
      if bitfield =? 0 then insert_at h keys children (num_children h) c child false
      else insert_at h keys children (ctz bitfield) c child true in
    Ok (Node16 h' ks cs, m)
  else
    let* (new_node, m) := alloc_node m NODE48 in
    match new_node with
    | Node48 nh nks ncs =>
        let nc := num_children h in
        let* ncs := copy_in ncs children nc in
        let* nks := index16 keys nc nks in
        let* nh := copy_header nh h in
        let m := free_node m (Node16 h keys children) in
        let* ncs := put ncs nc (Some child) in
        let* nks := put nks c (u8 (nc + 1)) in
        Ok (Node48 (set_num nh (num_children nh + 1)) nks ncs, m)
    | _ => Fault
    end.

Definition add_child4 (m : art_mem A) (h : art_node) (keys : list Z) (children : list (option A)) (c : Z) (child : A)
    : res (inner A * art_mem A) :=
  if num_children h <? 4 then
    let* r := scan_key (fun k => c <? k) keys 0 (Z.to_nat (num_children h)) in
    let idx := match r with Some i => i | None => num_children h end in
    let* (h', ks, cs) := insert_at h keys children idx c child true in
    Ok (Node4 h' ks cs, m)
  else
    let* (new_node, m) := alloc_node m NODE16 in
    match new_node with
    | Node16 nh nks ncs =>
        let nc := num_children h in
        let* ncs := copy_in ncs children nc in
        let* nks := copy_in nks keys nc in
        let* nh := copy_header nh h in
        let m := free_node m (Node4 h keys children) in
        add_child16 m nh nks ncs c child
    | _ => Fault
    end.

Definition add_child (m : art_mem A) (n : inner A) (c : Z) (child : A) : res (inner A * art_mem A) :=
  match n with
  | Node4 h ks cs => add_child4 m h ks cs c child
  | Node16 h ks cs => add_child16 m h ks cs c child
  | Node48 h ks cs => add_child48 m h ks cs c child
  | Node256 h cs => let* n' := add_child256 h cs c child in Ok (n', m)
  end.

(** Collecting the children of a NODE256 into a NODE48. *)
Definition pack256 (children : list (option A)) (ks : list Z) (cs : list (option A)) : res (Z * list Z * list (option A)) :=
  for_up 256 0 (fun i '(pos, ks, cs) =>
    let* x := get children i in
    match x with
    | None => Ok (pos, ks, cs)
    | Some _ =>
        let* cs := put cs pos x in
        let* ks := put ks i (u8 (pos + 1)) in
        Ok (pos + 1, ks, cs)
    end) (0, ks, cs).

Definition remove_child256 (m : art_mem A) (h : art_node) (children : list (option A)) (c : Z)
    : res (inner A * art_mem A) :=
  let* children := put children c None in
  let h := set_num h (num_children h - 1) in
  if num_children h =? 37 then
    let* (new_node, m) := alloc_node m NODE48 in
    match new_node with
    | Node48 nh nks ncs =>
        let* nh := copy_header nh h in
        let* (_, nks, ncs) := pack256 children nks ncs in
        Ok (Node48 nh nks ncs, free_node m (Node256 h children))
    | _ => Fault
    end
  else Ok (Node256 h children, m).

(** Collecting the children of a NODE48 into a NODE16. *)
Definition pack48 (keys : list Z) (children : list (option A)) (ks : list Z) (cs : list (option A))
    : res (Z * list Z * list (option A)) :=
  for_up 256 0 (fun i '(child, ks, cs) =>
    let* pos := get keys i in
    if pos =? 0 then Ok (child, ks, cs)
    else
      let* ks := put ks child (u8 i) in
      let* x := get children (pos - 1) in
      let* cs := put cs child x in
      Ok (child + 1, ks, cs)) (0, ks, cs).

Definition remove_child48 (m : art_mem A) (h : art_node) (keys : list Z) (children : list (option A)) (c : Z)
    : res (inner A * art_mem A) :=
  let* pos := get keys c in
  let* keys := put keys c 0 in
  let* children := put children (pos - 1) None in
  let h := set_num h (num_children h - 1) in
  if num_children h =? 12 then
    let* (new_node, m) := alloc_node m NODE16 in
    match new_node with
    | Node16 nh nks ncs =>
        let* nh := copy_header nh h in
        let* (_, nks, ncs) := pack48 keys children nks ncs in
        Ok (Node16 nh nks ncs, free_node m (Node48 h keys children))
    | _ => Fault
    end
  else Ok (Node48 h keys children, m).

(** Closing the gap at [pos] in both arrays. *)
Definition remove_at (h : art_node) (keys : list Z) (children : list (option A)) (pos : Z)
    : res (art_node * list Z * list (option A)) :=
  let* ks := move 1 keys pos (pos + 1) (num_children h - 1 - pos) in
  let* cs := move 8 children pos (pos + 1) (num_children h - 1 - pos) in
  Ok (set_num h (num_children h - 1), ks, cs).

Definition remove_child16 (m : art_mem A) (h : art_node) (keys : list Z) (children : list (option A)) (pos : Z)
    : res (inner A * art_mem A) :=
  let* (h, keys, children) := remove_at h keys children pos in
  if num_children h =? 3 then
    let* (new_node, m) := alloc_node m NODE4 in
    match new_node with
    | Node4 nh nks ncs =>
        let* nh := copy_header nh h in
        let* nks := copy_in nks keys (num_children h) in
        let* ncs := copy_in ncs children (num_children h) in
        Ok (Node4 nh nks ncs, free_node m (Node16 h keys children))
    | _ => Fault
    end
  else Ok (Node16 h keys children, m).
End Code.

(** * The abstract node: a sorted association list *)

Section Lists.
Context {A : Type}.
Implicit Types (L : list (Z * A)) (c : Z) (a : A).

Definition sorted L : Prop := StronglySorted Z.lt L.*1.

Fixpoint linsert c a L : list (Z * A) :=
  match L with
  | [] => [(c, a)]
  | (d, b) :: L' => if c <? d then (c, a) :: L else (d, b) :: linsert c a L'
  end.

Fixpoint ldelete c L : list (Z * A) :=
  match L with
  | [] => []
  | (d, b) :: L' => if d =? c then L' else (d, b) :: ldelete c L'
  end.

Fixpoint lset c a L : list (Z * A) :=
  match L with
  | [] => []
  | (d, b) :: L' => if d =? c then (d, a) :: L' else (d, b) :: lset c a L'
  end.

(** What a node is as a map from bytes to children; slots and keys agree. *)
Definition live (cap : nat) (h : art_node) (ks : list Z) (cs : list (option A)) L : Prop :=
  length ks = cap /\ length cs = cap /\ (length L <= cap)%nat /\ num_children h = Z.of_nat (length L) /\
  take (length L) ks = L.*1 /\ take (length L) cs = Some <$> L.*2.

Definition nsome (cs : list (option A)) : nat := length (omap id cs).

Definition view48 (h : art_node) (ks : list Z) (cs : list (option A)) L : Prop :=
  length ks = 256%nat /\ length cs = 48%nat /\ num_children h = Z.of_nat (length L) /\ nsome cs = length L /\
  (forall c a, (c, a) ∈ L <-> byte c /\ exists p : nat, ks !! Z.to_nat c = Some (Z.of_nat (S p)) /\ cs !! p = Some (Some a)) /\
  (forall i k, ks !! i = Some k -> k = 0 \/ exists (p : nat) a, k = Z.of_nat (S p) /\ cs !! p = Some (Some a)) /\
  (forall i j (p : nat), ks !! i = Some (Z.of_nat (S p)) -> ks !! j = Some (Z.of_nat (S p)) -> i = j).

Definition view256 (h : art_node) (cs : list (option A)) L : Prop :=
  length cs = 256%nat /\ num_children h = u8 (Z.of_nat (length L)) /\
  (forall c a, (c, a) ∈ L <-> byte c /\ cs !! Z.to_nat c = Some (Some a)).

Definition view (n : inner A) L : Prop :=
  sorted L /\ Forall byte L.*1 /\ length (partial (hdr n)) = 10%nat /\
  match n with
  | Node4 h ks cs => live 4 h ks cs L
  | Node16 h ks cs => live 16 h ks cs L
  | Node48 h ks cs => view48 h ks cs L
  | Node256 h cs => view256 h cs L
  end.

Lemma sorted_cons c a L : sorted ((c, a) :: L) <-> sorted L /\ Forall (fun x => c < x.1) L.
Proof.
  unfold sorted. rewrite fmap_cons. split.
  - intros H. inversion H as [|? ? Hs Hf]; subst. split; [exact Hs|]. exact (proj1 (Forall_fmap fst (Z.lt c) L) Hf).
  - intros [Hs Hf]. constructor; [exact Hs|]. exact (proj2 (Forall_fmap fst (Z.lt c) L) Hf).
Qed.

Lemma sorted_nodup L : sorted L -> NoDup L.*1.
Proof.
  unfold sorted. induction 1 as [|x l Hs IH Hf]; constructor; [|exact IH].
  intros Hin. rewrite Forall_forall in Hf. specialize (Hf x Hin). lia.
Qed.

Lemma sorted_functional L c a b : sorted L -> (c, a) ∈ L -> (c, b) ∈ L -> a = b.
Proof.
  induction L as [|[d e] L IH]; [intros _ H; now apply not_elem_of_nil in H|].
  rewrite sorted_cons. intros [Hs Hf] Ha Hb. rewrite Forall_forall in Hf.
  apply elem_of_cons in Ha as [Ha|Ha]; apply elem_of_cons in Hb as [Hb|Hb]; simplify_eq; auto.
  - specialize (Hf _ Hb). simpl in Hf. lia.
  - specialize (Hf _ Ha). simpl in Hf. lia.
Qed.

Lemma sorted_length L : sorted L -> Forall byte L.*1 -> (length L <= 256)%nat.
Proof.
  intros Hs Hb. pose proof (sorted_nodup L Hs) as Hn.
  assert (Hsub : L.*1 ⊆ seqZ 0 256).
  { intros x Hx. rewrite Forall_forall in Hb. specialize (Hb x Hx). apply elem_of_seqZ. unfold byte in Hb. lia. }
  pose proof (NoDup_submseteq _ _ Hn Hsub) as Hm. apply submseteq_length in Hm.
  rewrite length_fmap, length_seqZ in Hm. exact Hm.
Qed.

(** Sorted lists with the same entries are equal. *)
Lemma sorted_ext L1 L2 : sorted L1 -> sorted L2 -> (forall x, x ∈ L1 <-> x ∈ L2) -> L1 = L2.
Proof.
  revert L2. induction L1 as [|[c a] L1 IH]; intros [|[d b] L2] H1 H2 Hx; [reflexivity| | |].
  - exfalso. apply (not_elem_of_nil (d, b)), Hx. left.
  - exfalso. apply (not_elem_of_nil (c, a)), Hx. left.
  - apply sorted_cons in H1 as [H1 F1]. apply sorted_cons in H2 as [H2 F2].
    rewrite Forall_forall in F1, F2.
    assert (E : (c, a) = (d, b)).
    { assert (H : (c, a) ∈ (d, b) :: L2) by (apply Hx; left).
      assert (H' : (d, b) ∈ (c, a) :: L1) by (apply Hx; left).
      apply elem_of_cons in H as [H|H]; [congruence|]. apply elem_of_cons in H' as [H'|H']; [congruence|].
      specialize (F2 _ H). specialize (F1 _ H'). simpl in *. lia. }
    injection E as -> ->. f_equal. apply IH; [exact H1|exact H2|]. intros x. split; intros H.
    + assert (H' : x ∈ (d, b) :: L2) by (apply Hx; now right).
      apply elem_of_cons in H' as [-> | H']; [|exact H']. specialize (F1 _ H). simpl in F1. lia.
    + assert (H' : x ∈ (d, b) :: L1) by (apply Hx; now right).
      apply elem_of_cons in H' as [-> | H']; [|exact H']. specialize (F2 _ H). simpl in F2. lia.
Qed.

Lemma elem_linsert c a L x : x ∈ linsert c a L <-> x = (c, a) \/ x ∈ L.
Proof.
  induction L as [|[d b] L IH]; simpl; [rewrite list_elem_of_singleton, elem_of_nil; tauto|].
  destruct (c <? d); rewrite !elem_of_cons; [tauto|]. rewrite IH. tauto.
Qed.

Lemma linsert_length c a L : length (linsert c a L) = S (length L).
Proof. induction L as [|[d b] L IH]; simpl; [reflexivity|]. destruct (c <? d); simpl; lia. Qed.

Lemma linsert_sorted c a L : sorted L -> c ∉ L.*1 -> sorted (linsert c a L).
Proof.
  induction L as [|[d b] L IH]; simpl; intros Hs Hc.
  { apply sorted_cons. split; [constructor|constructor]. }
  apply sorted_cons in Hs as [Hs Hf]. apply not_elem_of_cons in Hc as [Hcd Hc].
  destruct (Z.ltb_spec c d).
  - rewrite !sorted_cons. split; [split; assumption|]. constructor; [simpl; lia|].
    eapply Forall_impl; [exact Hf|]. simpl. lia.
  - apply sorted_cons. split; [now apply IH|]. rewrite Forall_forall. intros x Hx.
    apply elem_linsert in Hx as [-> | Hx]; [simpl; lia|]. rewrite Forall_forall in Hf. now apply Hf.
Qed.

(** The position the code computes. *)
Lemma linsert_take c a L (i : nat) : (i <= length L)%nat ->
  (forall j x, (j < i)%nat -> L.*1 !! j = Some x -> x <= c) ->
  (forall x, L.*1 !! i = Some x -> c < x) ->
  linsert c a L = take i L ++ (c, a) :: drop i L.
Proof.
  revert i. induction L as [|[d b] L IH]; intros i Hi H1 H2.
  { simpl in Hi. replace i with O by lia. reflexivity. }
  simpl. destruct i as [|i].
  - specialize (H2 d eq_refl). rewrite (proj2 (Z.ltb_lt _ _)) by lia. reflexivity.
  - pose proof (H1 O d ltac:(lia) eq_refl). rewrite (proj2 (Z.ltb_ge _ _)) by lia. simpl. f_equal.
    apply IH; [simpl in Hi; lia| |exact H2]. intros j x Hj Hx. apply (H1 (S j)); [lia|exact Hx].
Qed.

Lemma ldelete_sub c L x : x ∈ ldelete c L -> x ∈ L.
Proof.
  induction L as [|[d b] L IH]; simpl; [auto|]. destruct (d =? c); rewrite !elem_of_cons; tauto.
Qed.

Lemma ldelete_sorted c L : sorted L -> sorted (ldelete c L).
Proof.
  induction L as [|[d b] L IH]; simpl; [auto|]. rewrite sorted_cons. intros [Hs Hf].
  destruct (d =? c); [exact Hs|]. apply sorted_cons. split; [now apply IH|].
  rewrite Forall_forall in *. intros x Hx. apply Hf. eapply ldelete_sub, Hx.
Qed.

Lemma elem_ldelete c L x : sorted L -> x ∈ ldelete c L <-> x.1 <> c /\ x ∈ L.
Proof.
  induction L as [|[d b] L IH]; simpl; intros Hs; [rewrite elem_of_nil; tauto|].
  apply sorted_cons in Hs as [Hs Hf]. destruct (Z.eqb_spec d c) as [-> | Hd].
  - rewrite elem_of_cons. split; [|intros [Hx [-> | H]]; [easy|exact H]]. intros Hx.
    rewrite Forall_forall in Hf. specialize (Hf x Hx). split; [lia|now right].
  - rewrite !elem_of_cons, IH by assumption. split; [|tauto]. intros [-> | H]; [simpl; tauto|tauto].
Qed.

Lemma ldelete_length c a L : (c, a) ∈ L -> S (length (ldelete c L)) = length L.
Proof.
  induction L as [|[d b] L IH]; simpl; [intros H; now apply not_elem_of_nil in H|].
  intros H. destruct (Z.eqb_spec d c) as [-> | Hd]; [reflexivity|].
  apply elem_of_cons in H as [H|H]; [congruence|]. simpl. now rewrite IH.
Qed.

Lemma ldelete_delete c a L (i : nat) : sorted L -> L !! i = Some (c, a) -> ldelete c L = delete i L.
Proof.
  revert i. induction L as [|[d b] L IH]; intros i Hs Hi; [easy|].
  apply sorted_cons in Hs as [Hs Hf]. simpl. destruct i as [|i]; simpl in Hi.
  - simplify_eq. now rewrite Z.eqb_refl.
  - rewrite Forall_forall in Hf. specialize (Hf _ (list_elem_of_lookup_2 _ _ _ Hi)). simpl in Hf.
    rewrite (proj2 (Z.eqb_neq _ _)) by lia. simpl. f_equal. now apply IH.
Qed.

Lemma lset_keys c a L : (lset c a L).*1 = L.*1.
Proof.
  induction L as [|[d b] L IH]; cbn [lset]; [reflexivity|].
  destruct (d =? c); rewrite !fmap_cons; [reflexivity|]. now rewrite IH.
Qed.

Lemma lset_length c a L : length (lset c a L) = length L.
Proof. rewrite <- (length_fmap fst), lset_keys. apply length_fmap. Qed.

Lemma lset_insert c a b L (i : nat) : sorted L -> L !! i = Some (c, b) -> lset c a L = <[i := (c, a)]> L.
Proof.
  revert i. induction L as [|[d e] L IH]; intros i Hs Hi; [easy|].
  apply sorted_cons in Hs as [Hs Hf]. simpl. destruct i as [|i]; simpl in Hi.
  - simplify_eq. now rewrite Z.eqb_refl.
  - rewrite Forall_forall in Hf. specialize (Hf _ (list_elem_of_lookup_2 _ _ _ Hi)). simpl in Hf.
    rewrite (proj2 (Z.eqb_neq _ _)) by lia. simpl. f_equal. now apply IH.
Qed.

Lemma elem_lset c a b L x : sorted L -> (c, b) ∈ L -> x ∈ lset c a L <-> x = (c, a) \/ (x.1 <> c /\ x ∈ L).
Proof.
  induction L as [|[d e] L IH]; simpl; intros Hs Hc; [now apply not_elem_of_nil in Hc|].
  apply sorted_cons in Hs as [Hs Hf]. rewrite Forall_forall in Hf. destruct (Z.eqb_spec d c) as [-> | Hd].
  - rewrite !elem_of_cons. split.
    + intros [-> | Hx]; [now left|]. specialize (Hf x Hx). right. split; [lia|now right].
    + intros [-> | [Hx [-> | H]]]; [now left|easy|now right].
  - apply elem_of_cons in Hc as [Hc|Hc]; [congruence|]. rewrite !elem_of_cons, IH by assumption.
    split; [|tauto]. intros [-> | [-> | H]]; [simpl; tauto|tauto|tauto].
Qed.
End Lists.

(** * Key scans *)

(** The index of the first key that passes the test. *)
Definition find_idx (p : Z -> bool) (l : list Z) : option nat := fst <$> list_find (fun k => p k = true) l.

Lemma find_idx_some p l i : find_idx p l = Some i <->
  (exists k, l !! i = Some k /\ p k = true) /\ forall j k, (j < i)%nat -> l !! j = Some k -> p k = false.
Proof.
  unfold find_idx. rewrite fmap_Some. split.
  - intros ([i' k] & H & ->). apply list_find_Some in H as (Hk & Hp & Hj). simpl. split; [eauto|].
    intros j k' Hlt Hk'. apply not_true_is_false. eauto.
  - intros ((k & Hk & Hp) & Hj). exists (i, k). split; [|reflexivity]. apply list_find_Some.
    split_and!; [exact Hk|exact Hp|]. intros j y Hy Hlt. rewrite (Hj j y Hlt Hy). discriminate.
Qed.

Lemma find_idx_none p l : find_idx p l = None <-> Forall (fun k => p k = false) l.
Proof.
  unfold find_idx. rewrite fmap_None, list_find_None.
  split; intros H; (eapply Forall_impl; [exact H|]); intros k Hk; simpl in *; [now apply not_true_is_false|rewrite Hk; discriminate].
Qed.

Lemma find_idx_lt p l i : find_idx p l = Some i -> (i < length l)%nat.
Proof. intros [(k & Hk & _) _]%find_idx_some. now apply lookup_lt_Some in Hk. Qed.

Lemma find_idx_cons p k l : find_idx p (k :: l) = if p k then Some O else S <$> find_idx p l.
Proof.
  unfold find_idx. simpl. destruct (decide (p k = true)) as [-> | H]; [reflexivity|].
  apply not_true_is_false in H. rewrite H. now destruct (list_find _ l) as [[]|].
Qed.

Lemma scan_key_ok p l (i n : nat) : (i + n <= length l)%nat ->
  scan_key p l (Z.of_nat i) n = Ok ((fun x => Z.of_nat (i + x)%nat) <$> find_idx p (take n (drop i l))).
Proof.
  revert i. induction n as [|n IH]; intros i Hn; simpl; [reflexivity|].
  destruct (lookup_lt_is_Some_2 l i ltac:(lia)) as [k Hk].
  rewrite (get_ok _ _ _ Hk). simpl. rewrite (drop_S _ _ _ Hk). cbn [take]. rewrite find_idx_cons.
  destruct (p k); simpl; [do 2 f_equal; lia|].
  replace (Z.of_nat i + 1) with (Z.of_nat (S i)) by lia. rewrite IH by lia.
  destruct (find_idx p (take n (drop (S i) l))); simpl; [|reflexivity]. do 2 f_equal. lia.
Qed.

Lemma key_bits_testbit p l i bf j : 0 <= i -> 0 <= j ->
  Z.testbit (key_bits p l i bf) j =
  Z.testbit bf j || ((i <=? j) && match l !! Z.to_nat (j - i) with Some k => p k | None => false end).
Proof.
  revert i bf. induction l as [|k l IH]; intros i bf Hi Hj; cbn [key_bits].
  { rewrite lookup_nil, andb_false_r, orb_false_r. reflexivity. }
  rewrite IH by lia. destruct (Z.eqb_spec i j) as [-> | Hij].
  - rewrite Z.sub_diag. cbn. rewrite (proj2 (Z.leb_gt _ _)), Z.leb_refl by lia. simpl. rewrite orb_false_r.
    destruct (p k); [|now rewrite orb_false_r].
    now rewrite Z.lor_spec, Z.shiftl_spec, Z.sub_diag by lia.
  - replace (Z.testbit (if p k then Z.lor bf (Z.shiftl 1 i) else bf) j) with (Z.testbit bf j).
    2:{ destruct (p k); [|reflexivity]. rewrite Z.lor_spec, Z.shiftl_1_l, Z.pow2_bits_false, orb_false_r by lia. reflexivity. }
    f_equal. destruct (Z.leb_spec (i + 1) j).
    + rewrite (proj2 (Z.leb_le i j)) by lia. simpl.
      replace (Z.to_nat (j - i)) with (S (Z.to_nat (j - (i + 1)))) by lia. reflexivity.
    + rewrite (proj2 (Z.leb_gt i j)) by lia. reflexivity.
Qed.

Lemma low_mask_ones n : 0 <= n <= 16 -> low_mask n = Z.ones n.
Proof.
  intros Hn. unfold low_mask, u32. rewrite Z.shiftl_1_l, Z.ones_equiv.
  assert (1 <= 2 ^ n <= 2 ^ 16) by (split; [apply (Z.pow_le_mono_r 2 0 n)|apply Z.pow_le_mono_r]; lia).
  rewrite (Z.mod_small (2 ^ n)) by lia. rewrite Z.mod_small; lia.
Qed.

Lemma ctz_low z : 0 < z -> Z.testbit z (ctz z) = true /\ forall j, 0 <= j < ctz z -> Z.testbit z j = false.
Proof.
  intros Hz. destruct (ctz_spec z Hz) as (k & E & Hk). pose proof (ctz_nonneg z). split.
  - rewrite E at 1. rewrite Z.mul_comm, Z.mul_pow2_bits, Z.sub_diag by lia.
    rewrite Z.bit0_odd. rewrite Z.add_comm, Z.odd_add_mul_2. reflexivity.
  - intros j Hj. rewrite E. rewrite Z.mul_comm. apply Z.mul_pow2_bits_low. lia.
Qed.

(** The vectorised scan of a NODE16 finds what the sequential scan finds. *)
Lemma key_bits_ok p l (n : nat) : (n <= length l)%nat -> (n <= 16)%nat ->
  let z := Z.land (key_bits p l 0 0) (low_mask (Z.of_nat n)) in
  (if z =? 0 then None else Some (ctz z)) = Z.of_nat <$> find_idx p (take n l).
Proof.
  intros Hl Hn z.
  assert (Hb : forall j, 0 <= j -> Z.testbit z j =
    match take n l !! Z.to_nat j with Some k => p k | None => false end).
  { intros j Hj. subst z. rewrite Z.land_spec, key_bits_testbit, low_mask_ones, Z.testbit_0_l by lia.
    rewrite Z.sub_0_r, (proj2 (Z.leb_le _ _)) by lia. simpl.
    destruct (decide (j < Z.of_nat n)).
    - rewrite Z.ones_spec_low, andb_true_r by lia. rewrite lookup_take_lt by lia. reflexivity.
    - rewrite Z.ones_spec_high, andb_false_r by lia. now rewrite lookup_take_ge by lia. }
  assert (Hz : 0 <= z).
  { subst z. apply Z.land_nonneg. right. rewrite low_mask_ones by lia. rewrite Z.ones_equiv. pose proof (Z.pow_pos_nonneg 2 (Z.of_nat n)). lia. }
  destruct (find_idx p (take n l)) as [i|] eqn:E; simpl.
  - apply find_idx_some in E as [(k & Hk & Hp) Hlt].
    assert (Hi : Z.testbit z (Z.of_nat i) = true) by (rewrite Hb, Nat2Z.id, Hk by lia; exact Hp).
    destruct (Z.eqb_spec z 0) as [Hz0|Hz0]; [rewrite Hz0, Z.testbit_0_l in Hi; discriminate|].
    f_equal. destruct (ctz_low z ltac:(lia)) as [H1 H2]. pose proof (ctz_nonneg z) as H0.
    destruct (Ztrichotomy (ctz z) (Z.of_nat i)) as [H|[H|H]]; [|exact H|].
    + rewrite Hb in H1 by lia. destruct (take n l !! Z.to_nat (ctz z)) as [k'|] eqn:Ek; [|discriminate].
      assert (Hc : (Z.to_nat (ctz z) < i)%nat) by lia. rewrite (Hlt _ _ Hc Ek) in H1. discriminate.
    + rewrite H2 in Hi by lia. discriminate.
  - apply find_idx_none in E. rewrite Forall_lookup in E. replace z with 0; [reflexivity|].
    symmetry. apply Z.bits_inj'. intros j Hj. rewrite Hb, Z.testbit_0_l by lia.
    destruct (take n l !! Z.to_nat j) as [k|] eqn:Ek; [exact (E _ _ Ek)|reflexivity].
Qed.

(** * The operations on the abstract node *)

Section Laws.
Context {A : Type}.
Implicit Types (L : list (Z * A)) (c : Z) (a : A) (ks : list Z) (cs : list (option A)).

Lemma live_lookup cap h ks cs L (i : nat) c a : live cap h ks cs L -> L !! i = Some (c, a) ->
  ks !! i = Some c /\ cs !! i = Some (Some a).
Proof.
  intros (_ & _ & _ & _ & Hk & Hc) Hi. pose proof (lookup_lt_Some _ _ _ Hi) as Hlt. split.
  - rewrite <- (lookup_take_lt ks (length L)) by exact Hlt. rewrite Hk, list_lookup_fmap, Hi. reflexivity.
  - rewrite <- (lookup_take_lt cs (length L)) by exact Hlt. rewrite Hc, !list_lookup_fmap, Hi. reflexivity.
Qed.

(** Entry [i] of the children array is the child for byte [c]. *)
Definition slot_idx (n : inner A) L c (i : nat) a : Prop :=
  match n with
  | Node4 _ _ _ | Node16 _ _ _ => L !! i = Some (c, a)
  | Node48 _ ks cs => ks !! Z.to_nat c = Some (Z.of_nat (S i)) /\ cs !! i = Some (Some a)
  | Node256 _ cs => i = Z.to_nat c /\ cs !! i = Some (Some a)
  end.

Lemma slot_idx_in n L c i a : view n L -> byte c -> slot_idx n L c i a ->
  (c, a) ∈ L /\ slots n !! i = Some (Some a).
Proof.
  intros (_ & _ & _ & Hv) Hc Hs. destruct n as [h ks cs|h ks cs|h ks cs|h cs]; simpl in *.
  1,2: split; [eapply list_elem_of_lookup_2, Hs|]; eapply live_lookup; eassumption.
  - destruct Hv as (_ & _ & _ & _ & Hm & _). destruct Hs as [Hk Hi]. split; [|exact Hi].
    apply Hm. split; [exact Hc|]. exists i. now split.
  - destruct Hv as (_ & _ & Hm). destruct Hs as [-> Hi]. split; [|exact Hi]. apply Hm. now split.
Qed.

Lemma in_slot_idx n L c a : view n L -> (c, a) ∈ L -> exists i, slot_idx n L c i a.
Proof.
  intros (_ & _ & _ & Hv) Hin. destruct n as [h ks cs|h ks cs|h ks cs|h cs]; simpl in *.
  1,2: now apply list_elem_of_lookup in Hin.
  - destruct Hv as (_ & _ & _ & _ & Hm & _). apply Hm in Hin as (_ & p & Hp); eauto.
  - destruct Hv as (_ & _ & Hm). apply Hm in Hin as [_ Hi]. eauto.
Qed.

Lemma find_idx_live L c : sorted L ->
  match find_idx (fun k => k =? c) L.*1 with
  | Some i => exists a, L !! i = Some (c, a)
  | None => c ∉ L.*1
  end.
Proof.
  intros Hs. destruct (find_idx _ _) as [i|] eqn:E.
  - apply find_idx_some in E as [(k & Hk & Hp) _]. apply Z.eqb_eq in Hp as ->.
    apply list_lookup_fmap_Some in Hk as ([d a] & -> & Hd). now exists a.
  - apply find_idx_none in E. rewrite Forall_forall in E. intros Hc. specialize (E c Hc).
    simpl in E. rewrite Z.eqb_refl in E. discriminate.
Qed.

(** [find_child] finds the child for a byte, in every layout. *)
Lemma find_child_ok n L c : view n L -> byte c ->
  (exists (i : nat) a, find_child n c = Ok (Some (Z.of_nat i)) /\ slot_idx n L c i a) \/
  (find_child n c = Ok None /\ c ∉ L.*1).
Proof.
  intros (Hs & Hb & _ & Hv) Hc. unfold byte in Hc.
  destruct n as [h ks cs|h ks cs|h ks cs|h cs]; cbn [find_child slot_idx] in *.
  - destruct Hv as (Hlk & Hlc & Hle & Hn & Hk & _). pose proof (find_idx_live L c Hs) as Hf.
    rewrite Hn, Nat2Z.id. change 0 with (Z.of_nat 0). rewrite scan_key_ok, drop_0, Hk by lia.
    destruct (find_idx _ _) as [i|]; [left|right; split; [reflexivity|exact Hf]].
    destruct Hf as [a Ha]. exists i, a. now split.
  - destruct Hv as (Hlk & Hlc & Hle & Hn & Hk & _). pose proof (find_idx_live L c Hs) as Hf.
    rewrite Hn. rewrite key_bits_ok, Hk by lia.
    destruct (find_idx _ _) as [i|]; [left|right; split; [reflexivity|exact Hf]].
    destruct Hf as [a Ha]. exists i, a. now split.
  - destruct Hv as (Hlk & Hlc & _ & _ & Hm & Hr & _).
    destruct (lookup_lt_is_Some_2 ks (Z.to_nat c) ltac:(lia)) as [k Hk].
    rewrite (get_okZ _ _ _ (proj1 Hc) Hk). cbn [bind].
    destruct (Hr _ _ Hk) as [-> | (p & a & -> & Hp)].
    + right. split; [reflexivity|]. intros [[d a] [-> Hin]]%list_elem_of_fmap. simpl in *.
      apply Hm in Hin as (_ & p & Hp & _). rewrite Hk in Hp. injection Hp. lia.
    + left. exists p, a. rewrite (proj2 (Z.eqb_neq _ _)) by lia. split; [do 2 f_equal; lia|]. now split.
  - destruct Hv as (Hlc & _ & Hm).
    destruct (lookup_lt_is_Some_2 cs (Z.to_nat c) ltac:(lia)) as [o Ho].
    rewrite (get_okZ _ _ _ (proj1 Hc) Ho). cbn [bind].
    destruct o as [a|].
    + left. exists (Z.to_nat c), a. split; [do 2 f_equal; lia|]. now split.
    + right. split; [reflexivity|]. intros [[d a] [-> Hin]]%list_elem_of_fmap. simpl in *.
      apply Hm in Hin as (_ & Hi). congruence.
Qed.

Lemma nsome_cons (x : option A) cs : nsome (x :: cs) = (match x with Some _ => 1 | None => 0 end + nsome cs)%nat.
Proof. now destruct x. Qed.

Lemma nsome_insert cs (i : nat) a o : cs !! i = Some o ->
  (nsome (<[i := Some a]> cs) = nsome cs + match o with Some _ => 0 | None => 1 end)%nat.
Proof.
  revert i. induction cs as [|x cs IH]; intros [|i] H; cbn in H; [easy|easy| |].
  - simplify_eq. change (<[O := Some a]> (o :: cs)) with (Some a :: cs). rewrite !nsome_cons. destruct o; lia.
  - change (<[S i := Some a]> (x :: cs)) with (x :: <[i := Some a]> cs). rewrite !nsome_cons, (IH i H). lia.
Qed.

Lemma nsome_delete cs (i : nat) a : cs !! i = Some (Some a) -> (S (nsome (<[i := None]> cs)) = nsome cs)%nat.
Proof.
  revert i. induction cs as [|x cs IH]; intros [|i] H; cbn in H; [easy|easy| |].
  - simplify_eq. change (<[O := None]> (Some a :: cs)) with (None :: cs). now rewrite !nsome_cons.
  - change (<[S i := None]> (x :: cs)) with (x :: <[i := None]> cs). rewrite !nsome_cons, <- (IH i H). lia.
Qed.

(** Storing another child in the slot of byte [c]. *)
Lemma set_child_ok n L c (i : nat) a a' : view n L -> byte c -> slot_idx n L c i a ->
  view (set_slots n (<[i := Some a']> (slots n))) (lset c a' L).
Proof.
  intros Hview Hc Hi. destruct (slot_idx_in _ _ _ _ _ Hview Hc Hi) as [Hin Hsl].
  destruct Hview as (Hs & Hb & Hp & Hv).
  split; [unfold sorted; rewrite lset_keys; exact Hs|]. split; [rewrite lset_keys; exact Hb|].
  destruct n as [h ks cs|h ks cs|h ks cs|h cs]; (split; [exact Hp|]); cbn [set_slots slots slot_idx] in *.
  1,2: destruct Hv as (Hlk & Hlc & Hle & Hn & Hk & Hcs); unfold live;
    rewrite lset_length, lset_keys, length_insert; split_and!; try assumption;
    rewrite (lset_insert c a' a L i Hs Hi), take_insert_lt by (now apply lookup_lt_Some in Hi);
    rewrite Hcs, list_fmap_insert; now rewrite list_fmap_insert.
  - destruct Hv as (Hlk & Hlc & Hn & Hns & Hm & Hr & Hinj). destruct Hi as [Hki _].
    assert (Hilt : (i < length cs)%nat) by (now apply lookup_lt_Some in Hsl).
    unfold view48. rewrite lset_length, length_insert. split_and!; try assumption.
    + rewrite (nsome_insert _ _ _ _ Hsl). lia.
    + intros c' a''. rewrite (elem_lset c a' a L _ Hs Hin). simpl. rewrite Hm. split.
      * intros [[= -> ->] | (Hne & Hc' & p & Hp1 & Hp2)].
        -- split; [exact Hc|]. exists i. rewrite list_lookup_insert_eq by exact Hilt. now split.
        -- split; [exact Hc'|]. exists p. split; [exact Hp1|]. rewrite list_lookup_insert_ne; [exact Hp2|].
           intros ->. pose proof (Hinj _ _ _ Hp1 Hki). unfold byte in *. lia.
      * intros (Hc' & p & Hp1 & Hp2). destruct (decide (c' = c)) as [-> | Hne].
        -- assert (p = i) as -> by (rewrite Hp1 in Hki; injection Hki; lia).
           rewrite list_lookup_insert_eq in Hp2 by exact Hilt. left. congruence.
        -- right. split_and!; [exact Hne|exact Hc'|]. exists p. split; [exact Hp1|].
           rewrite list_lookup_insert_ne in Hp2; [exact Hp2|].
           intros ->. pose proof (Hinj _ _ _ Hp1 Hki). unfold byte in *. lia.
    + intros j k Hj. destruct (Hr j k Hj) as [? | (p & b & -> & Hpb)]; [now left|right].
      destruct (decide (p = i)) as [-> | Hne].
      * exists i, a'. split; [reflexivity|]. now apply list_lookup_insert_eq.
      * exists p, b. split; [reflexivity|]. now rewrite list_lookup_insert_ne.
  - destruct Hv as (Hlc & Hn & Hm). destruct Hi as [-> _]. unfold byte in Hc.
    unfold view256. rewrite lset_length, length_insert. split_and!; try assumption.
    intros c' a''. rewrite (elem_lset c a' a L _ Hs Hin). simpl. rewrite Hm. unfold byte. split.
    + intros [[= -> ->] | (Hne & Hc' & Hp2)].
      * split; [exact Hc|]. apply list_lookup_insert_eq. lia.
      * split; [exact Hc'|]. rewrite list_lookup_insert_ne; [exact Hp2|]. lia.
    + intros (Hc' & Hp2). destruct (decide (c' = c)) as [-> | Hne].
      * rewrite list_lookup_insert_eq in Hp2 by lia. left. congruence.
      * right. split_and!; [exact Hne|lia|lia|]. rewrite list_lookup_insert_ne in Hp2; [exact Hp2|]. lia.
Qed.
End Laws.

(** * Node memory *)

Section MemLaws.
Context {A : Type}.
Implicit Types (m : art_mem A).

(** The free lists hold as many nodes as they count, within their bounds, and their
    arrays have the sizes of the layout; the contents of the arrays are arbitrary. *)
Definition cache_ok (size : nat) (cap : Z) (c : art_node_cache A) : Prop :=
  count c = Z.of_nat (length (head c)) /\ count c <= cap /\
  Forall (fun n => length n.1 = size /\ length n.2 = size) (head c).

Definition mem_ok m : Prop :=
  cache_ok 4 ART_CACHE_CAP_N4 (art_cache_n4 m) /\ cache_ok 16 ART_CACHE_CAP_N16 (art_cache_n16 m) /\
  Forall (fun b => b = true) (outcomes m).

Definition sized (n : inner A) : Prop :=
  match n with
  | Node4 _ ks cs => length ks = 4%nat /\ length cs = 4%nat
  | Node16 _ ks cs => length ks = 16%nat /\ length cs = 16%nat
  | _ => True
  end.

Lemma cache_pop_ok size cap c : cache_ok size cap c -> cap <= 64 ->
  wp (art_cache_pop c) (fun r => cache_ok size cap r.2 /\
    match r.1 with Some n => length n.1 = size /\ length n.2 = size | None => True end).
Proof.
  intros (Hn & Hcap & Hf) Hc. unfold art_cache_pop. destruct (Z.eqb_spec (count c) 0) as [|Hne].
  { simpl. split; [|easy]. now repeat split. }
  destruct (head c) as [|n rest]; [simpl in Hn; lia|]. inversion Hf; subst. simpl in *.
  split; [|assumption]. unfold cache_ok. simpl. unfold u16. rewrite Z.mod_small by lia.
  split_and!; [lia|lia|assumption].
Qed.

Lemma cache_push_ok size cap c n : cache_ok size cap c -> cap <= 64 -> length n.1 = size -> length n.2 = size ->
  cache_ok size cap (art_cache_push c n cap).2.
Proof.
  intros (Hn & Hcap & Hf) Hc H1 H2. unfold art_cache_push. destruct (Z.ltb_spec (count c) cap); simpl.
  - unfold cache_ok. simpl. unfold u16. rewrite Z.mod_small by lia. split_and!; [lia|lia|]. now constructor.
  - now repeat split.
Qed.

Lemma free_node_ok m n : mem_ok m -> sized n -> mem_ok (free_node m n).
Proof.
  intros (H4 & H16 & Ho) Hn. destruct n as [h ks cs|h ks cs| |]; simpl in *; [| |now split_and!..].
  - split_and!; simpl; [apply cache_push_ok; try easy; unfold ART_CACHE_CAP_N4; simpl; lia|assumption..].
  - split_and!; simpl; [assumption|apply cache_push_ok; try easy; unfold ART_CACHE_CAP_N16; simpl; lia|assumption].
Qed.

Lemma kcalloc_ok m n : mem_ok m -> wp (kcalloc m n) (fun r => r.1 = n /\ mem_ok r.2).
Proof.
  intros (H4 & H16 & Ho). unfold kcalloc. destruct (outcomes m) as [|b al]; simpl.
  - split; [reflexivity|]. now split_and!.
  - inversion Ho; subst. simpl. split; [reflexivity|]. now split_and!.
Qed.

(** What [alloc_node] returns: an empty header and arrays of the right size, which
    are zero unless the node comes from a free list. *)
Definition fresh (type : node_type) (n : inner A) : Prop :=
  hdr n = zero_hdr /\ sized n /\
  match type, n with
  | NODE4, Node4 _ _ _ | NODE16, Node16 _ _ _ => True
  | NODE48, Node48 _ ks cs => ks = replicate 256 0 /\ cs = replicate 48 None
  | NODE256, Node256 _ cs => cs = replicate 256 None
  | _, _ => False
  end.

Lemma alloc_node_ok m type : mem_ok m -> wp (alloc_node m type) (fun r => fresh type r.1 /\ mem_ok r.2).
Proof.
  intros Hm. pose proof Hm as (H4 & H16 & Ho). destruct type; cbn [alloc_node].
  - apply wp_bind. eapply wp_mono; [apply (cache_pop_ok _ _ _ H4); unfold ART_CACHE_CAP_N4; lia|].
    intros [[[ks cs]|] c] [Hc Hn]; simpl in *; [split; [split; [reflexivity|now split]|now split_and!]|].
    eapply wp_mono; [apply kcalloc_ok; now split_and!|]. intros [n m'] [-> Hm']. simpl in *. split; [now repeat split|exact Hm'].
  - apply wp_bind. eapply wp_mono; [apply (cache_pop_ok _ _ _ H16); unfold ART_CACHE_CAP_N16; lia|].
    intros [[[ks cs]|] c] [Hc Hn]; simpl in *; [split; [split; [reflexivity|now split]|now split_and!]|].
    eapply wp_mono; [apply kcalloc_ok; now split_and!|]. intros [n m'] [-> Hm']. simpl in *. split; [now repeat split|exact Hm'].
  - eapply wp_mono; [apply kcalloc_ok, Hm|]. intros [n m'] [-> Hm']. simpl in *. split; [now repeat split|exact Hm'].
  - eapply wp_mono; [apply kcalloc_ok, Hm|]. intros [n m'] [-> Hm']. simpl in *. split; [now repeat split|exact Hm'].
Qed.
End MemLaws.

(** * Headers and arrays *)

Lemma i32_small z : - 2 ^ 31 <= z < 2 ^ 31 -> i32 z = z.
Proof. intros H. unfold i32, sgn. rewrite Z.mod_small; lia. Qed.

Lemma copy_in_ok {B} (dst src : list B) n : 0 <= n <= Z.of_nat (length dst) -> n <= Z.of_nat (length src) ->
  copy_in dst src n = Ok (take (Z.to_nat n) src ++ drop (Z.to_nat n) dst).
Proof. intros H1 H2. unfold copy_in. now rewrite !(proj2 (Z.leb_le _ _)) by lia. Qed.

Lemma min_art a b : _min__art a b = Z.min a b.
Proof. unfold _min__art. destruct (Z.ltb_spec a b); lia. Qed.

(** The bytes of the prefix a header stores. *)
Definition stored (h : art_node) : list Z := take (Z.to_nat (Z.min MAX_PREFIX_LEN (partial_len h))) (partial h).

Lemma copy_header_ok h : 0 <= partial_len h < 2 ^ 31 -> length (partial h) = 10%nat ->
  wp (copy_header zero_hdr h) (fun h' => partial_len h' = partial_len h /\ num_children h' = num_children h /\
    stored h' = stored h /\ length (partial h') = 10%nat).
Proof.
  intros Hp Hl. unfold copy_header. rewrite min_art, i32_small by lia. unfold MAX_PREFIX_LEN.
  rewrite copy_in_ok by (simpl; rewrite ?Hl; lia). simpl. split_and!; [reflexivity..| |].
  - unfold stored. simpl. unfold MAX_PREFIX_LEN. rewrite take_app_le by (rewrite length_take; lia).
    now rewrite take_take, Nat.min_id.
  - rewrite length_app, length_take, length_drop. simpl. lia.
Qed.

Lemma move_ok `{!ArrayMove, !ArrayMoveOk} {B} size (l : list B) (dst src n : nat) :
  (dst + n <= length l)%nat -> (src + n <= length l)%nat ->
  move size l (Z.of_nat dst) (Z.of_nat src) (Z.of_nat n) = Ok (take dst l ++ take n (drop src l) ++ drop (dst + n) l).
Proof.
  intros H1 H2. unfold move. rewrite !(proj2 (Z.leb_le _ _)) by lia. cbn [andb].
  rewrite array_move_ok by lia. unfold moved. do 2 f_equal; [|do 2 f_equal]; f_equal; lia.
Qed.

(** Opening a gap at [i] in the first [n] entries and storing [x] there. *)
Lemma shift_insert {B} (l K : list B) (n i : nat) x : (n < length l)%nat -> (i <= n)%nat -> take n l = K ->
  take (S n) (<[i := x]> (take (S i) l ++ take (n - i) (drop i l) ++ drop (S n) l)) = take i K ++ x :: drop i K.
Proof.
  intros Hn Hi <-. rewrite insert_app_l by (rewrite length_take; lia).
  destruct (lookup_lt_is_Some_2 l i ltac:(lia)) as [y Hy]. rewrite (take_S_r _ _ _ Hy).
  rewrite insert_app_r_alt by (rewrite length_take; lia). rewrite length_take, Nat.min_l, Nat.sub_diag by lia.
  cbn [insert list_insert]. rewrite <- !app_assoc. cbn [app].
  rewrite take_app_ge by (rewrite length_take; lia). rewrite length_take, Nat.min_l by lia.
  replace (S n - i)%nat with (S (n - i)) by lia. cbn [take].
  rewrite take_app_le by (rewrite length_take, length_drop; lia).
  rewrite take_take, Nat.min_id, take_take, Nat.min_l by lia. now rewrite skipn_firstn_comm.
Qed.

Lemma shift_length {B} (l : list B) (d s n : nat) : (d + n <= length l)%nat -> (s + n <= length l)%nat ->
  length (take d l ++ take n (drop s l) ++ drop (d + n) l) = length l.
Proof. intros H1 H2. rewrite !length_app, !length_take, !length_drop. lia. Qed.

(** * Adding a child *)

Definition same_prefix (h h' : art_node) : Prop :=
  partial_len h' = partial_len h /\ stored h' = stored h /\ length (partial h') = length (partial h).

#[export] Instance same_prefix_preorder : PreOrder same_prefix.
Proof.
  split; [intros h; now repeat split|]. intros h1 h2 h3 (H1 & H2 & H3) (H4 & H5 & H6). repeat split; congruence.
Qed.

Lemma same_prefix_num h n : same_prefix h (set_num h n).
Proof. now repeat split. Qed.

Lemma u8_len (n : nat) : (n < 256)%nat -> u8 (Z.of_nat n) = Z.of_nat n.
Proof. intros H. unfold u8. apply Z.mod_small. lia. Qed.

Section Views.
Context {A : Type}.
Implicit Types (L : list (Z * A)) (c : Z) (a : A) (ks : list Z) (cs : list (option A)).

Lemma live_insert_at `{!ArrayMove, !ArrayMoveOk} cap h ks cs L (i : nat) c a shift :
  live cap h ks cs L -> (length L < cap)%nat -> (cap <= 16)%nat -> (i <= length L)%nat ->
  (shift = true \/ i = length L) ->
  wp (insert_at h ks cs (Z.of_nat i) c a shift) (fun r =>
    live cap r.1.1 r.1.2 r.2 (take i L ++ (c, a) :: drop i L) /\ same_prefix h r.1.1).
Proof.
  intros (Hlk & Hlc & Hle & Hn & Hk & Hc) Hlt Hcap Hi Hsh. unfold insert_at.
  assert (Hmv : forall B sz (l : list B), length l = cap ->
    (if shift then move sz l (Z.of_nat i + 1) (Z.of_nat i) (num_children h - Z.of_nat i) else Ok l) =
    Ok (take (S i) l ++ take (length L - i) (drop i l) ++ drop (S (length L)) l)).
  { intros B sz l Hl. destruct shift.
    - rewrite Hn. replace (Z.of_nat i + 1) with (Z.of_nat (S i)) by lia.
      replace (Z.of_nat (length L) - Z.of_nat i) with (Z.of_nat (length L - i)) by lia.
      rewrite move_ok by lia. do 3 f_equal. f_equal. lia.
    - destruct Hsh as [|Hsh]; [easy|]. rewrite Hsh, Nat.sub_diag, take_0, app_nil_l. now rewrite take_drop. }
  assert (Hlen : forall B (l : list B), length l = cap ->
    length (take (S i) l ++ take (length L - i) (drop i l) ++ drop (S (length L)) l) = cap).
  { intros B l Hl. rewrite !length_app, !length_take, !length_drop. lia. }
  rewrite (Hmv _ 1 ks Hlk), (Hmv _ 8 cs Hlc). cbn [bind].
  rewrite put_ok by (rewrite Hlen; [lia|exact Hlk]). cbn [bind].
  rewrite put_ok by (rewrite Hlen; [lia|exact Hlc]). cbn [bind wp fst snd].
  split; [|apply same_prefix_num].
  assert (El : length (take i L ++ (c, a) :: drop i L) = S (length L)).
  { rewrite length_app, length_take. cbn [length]. rewrite length_drop. lia. }
  unfold live. rewrite El, !length_insert. split_and!; [now apply Hlen|now apply Hlen|lia| | |].
  - cbn. rewrite Hn. replace (Z.of_nat (length L) + 1) with (Z.of_nat (S (length L))) by lia. apply u8_len. lia.
  - rewrite (shift_insert ks L.*1 (length L) i c) by (assumption || lia). rewrite fmap_app, fmap_cons, fmap_take, fmap_drop. reflexivity.
  - rewrite (shift_insert cs (Some <$> L.*2) (length L) i (Some a)) by (assumption || lia).
    rewrite !fmap_app, !fmap_cons, !fmap_take, !fmap_drop. reflexivity.
Qed.

Lemma first_null_ok cs (i : nat) : (nsome cs < length cs)%nat ->
  exists p : nat, first_null cs (Z.of_nat i) = Ok (Z.of_nat (i + p)) /\ cs !! p = Some None.
Proof.
  revert i. induction cs as [|x cs IH]; intros i Hn; [simpl in Hn; lia|].
  rewrite nsome_cons in Hn. simpl in Hn. destruct x as [a|].
  - destruct (IH (S i) ltac:(lia)) as (p & Hp & Hx). exists (S p). split; [|exact Hx].
    cbn [first_null]. replace (Z.of_nat i + 1) with (Z.of_nat (S i)) by lia. rewrite Hp. do 2 f_equal. lia.
  - exists O. split; [|reflexivity]. cbn. do 2 f_equal. lia.
Qed.

Lemma view48_absent h ks cs L c : view48 h ks cs L -> byte c -> c ∉ L.*1 -> ks !! Z.to_nat c = Some 0.
Proof.
  intros (Hlk & _ & _ & _ & Hm & Hr & _) Hc Hn. unfold byte in Hc.
  destruct (lookup_lt_is_Some_2 ks (Z.to_nat c) ltac:(lia)) as [k Hk]. rewrite Hk.
  destruct (Hr _ _ Hk) as [-> | (p & a & -> & Hp)]; [reflexivity|]. exfalso. apply Hn.
  apply list_elem_of_fmap. exists (c, a). split; [reflexivity|]. apply Hm. split; [exact Hc|]. eauto.
Qed.

Lemma view48_add h h' ks cs L c a (p : nat) : view48 h ks cs L -> byte c -> c ∉ L.*1 ->
  cs !! p = Some None -> num_children h' = Z.of_nat (S (length L)) ->
  view48 h' (<[Z.to_nat c := Z.of_nat (S p)]> ks) (<[p := Some a]> cs) (linsert c a L).
Proof.
  intros Hv Hc Hnc Hp Hh. pose proof (view48_absent _ _ _ _ _ Hv Hc Hnc) as Hkc.
  destruct Hv as (Hlk & Hlc & Hn & Hns & Hm & Hr & Hinj). unfold byte in Hc.
  assert (Hplt : (p < length cs)%nat) by (now apply lookup_lt_Some in Hp).
  assert (Hfree : forall i, ks !! i <> Some (Z.of_nat (S p))).
  { intros i Hi. destruct (Hr _ _ Hi) as [|(q & b & E & Hq)]; [lia|].
    replace q with p in Hq by lia. congruence. }
  unfold view48. rewrite linsert_length, !length_insert. split_and!; try assumption.
  - rewrite (nsome_insert _ _ _ _ Hp). lia.
  - intros c' a'. rewrite elem_linsert, Hm. unfold byte. split.
    + intros [[= -> ->] | (Hc' & q & Hq1 & Hq2)].
      * split; [exact Hc|]. exists p. rewrite !list_lookup_insert_eq by lia. now split.
      * split; [exact Hc'|]. exists q. rewrite !list_lookup_insert_ne; [now split|congruence|].
        intros E. rewrite <- E, Hkc in Hq1. injection Hq1. lia.
    + intros (Hc' & q & Hq1 & Hq2). destruct (decide (c' = c)) as [-> | Hne].
      * rewrite list_lookup_insert_eq in Hq1 by lia. injection Hq1 as Hq1. replace q with p in Hq2 by lia.
        rewrite list_lookup_insert_eq in Hq2 by lia. left. congruence.
      * right. split; [exact Hc'|]. exists q. rewrite list_lookup_insert_ne in Hq1 by lia. split; [exact Hq1|].
        rewrite list_lookup_insert_ne in Hq2; [exact Hq2|]. intros ->. exact (Hfree _ Hq1).
  - intros j k Hj. destruct (decide (j = Z.to_nat c)) as [-> | Hne].
    + rewrite list_lookup_insert_eq in Hj by lia. injection Hj as <-. right. exists p, a.
      split; [reflexivity|]. now apply list_lookup_insert_eq.
    + rewrite list_lookup_insert_ne in Hj by congruence. destruct (Hr _ _ Hj) as [|(q & b & -> & Hq)]; [now left|].
      right. exists q, b. split; [reflexivity|]. rewrite list_lookup_insert_ne; [exact Hq|congruence].
  - intros i j q Hi Hj.
    destruct (decide (i = Z.to_nat c)) as [-> | Hi0]; destruct (decide (j = Z.to_nat c)) as [-> | Hj0]; [reflexivity| | |].
    + rewrite list_lookup_insert_eq in Hi by lia. injection Hi as Hi. replace q with p in Hj by lia.
      rewrite list_lookup_insert_ne in Hj by congruence. now apply Hfree in Hj.
    + rewrite list_lookup_insert_eq in Hj by lia. injection Hj as Hj. replace q with p in Hi by lia.
      rewrite list_lookup_insert_ne in Hi by congruence. now apply Hfree in Hi.
    + rewrite list_lookup_insert_ne in Hi by congruence. rewrite list_lookup_insert_ne in Hj by congruence. eauto.
Qed.

Lemma view256_add h h' cs L c a : view256 h cs L -> byte c -> c ∉ L.*1 ->
  num_children h' = u8 (Z.of_nat (S (length L))) -> view256 h' (<[Z.to_nat c := Some a]> cs) (linsert c a L).
Proof.
  intros (Hlc & Hn & Hm) Hc Hnc Hh. unfold byte in Hc. unfold view256.
  rewrite linsert_length, length_insert. split_and!; try assumption.
  intros c' a'. rewrite elem_linsert, Hm. unfold byte. destruct (decide (c' = c)) as [-> | Hne].
  - rewrite list_lookup_insert_eq by lia. split.
    + intros [[= ->] | [_ H]]; [now split|]. exfalso. apply Hnc, list_elem_of_fmap. exists (c, a').
      split; [reflexivity|]. now apply Hm.
    + intros [_ [= ->]]. now left.
  - split.
    + intros [[= -> _] | [H1 H2]]; [easy|]. split; [exact H1|]. rewrite list_lookup_insert_ne; [exact H2|lia].
    + intros [H1 H2]. right. rewrite list_lookup_insert_ne in H2 by lia. now split.
Qed.
End Views.

(** * Converting between layouts *)

Section Convert.
Context {A : Type}.
Implicit Types (L : list (Z * A)) (c : Z) (a : A) (ks : list Z) (cs : list (option A)).

Lemma nsome_replicate (n : nat) : nsome (replicate n (@None A)) = O.
Proof. induction n; [reflexivity|]. simpl. rewrite nsome_cons. exact IHn. Qed.

Lemma nsome_app cs1 cs2 : nsome (cs1 ++ cs2) = (nsome cs1 + nsome cs2)%nat.
Proof. unfold nsome. now rewrite omap_app, length_app. Qed.

Lemma nsome_some (l : list A) : nsome (Some <$> l) = length l.
Proof. induction l as [|x l IH]; [reflexivity|]. rewrite fmap_cons, nsome_cons, IH. reflexivity. Qed.

Lemma replicate_lookup_eq {B} (n i : nat) (x y : B) : replicate n x !! i = Some y -> y = x.
Proof. intros H. now apply lookup_replicate in H. Qed.

(** The index of a NODE48 over the first [n] entries of [L]. *)
Definition indexed L (n : nat) ks : Prop :=
  length ks = 256%nat /\
  (forall (p : nat) c, (p < n)%nat -> L.*1 !! p = Some c -> ks !! Z.to_nat c = Some (Z.of_nat (S p))) /\
  (forall (j : nat) k, ks !! j = Some k -> k = 0 \/
     exists p : nat, (p < n)%nat /\ k = Z.of_nat (S p) /\ L.*1 !! p = Some (Z.of_nat j)).

Lemma indexed_zero L : indexed L 0 (replicate 256 0).
Proof. split; [reflexivity|]. split; [intros p c Hp; lia|]. intros j k Hk. left. exact (replicate_lookup_eq _ _ _ _ Hk). Qed.

Lemma indexed_add L (n : nat) ks c : sorted L -> Forall byte L.*1 -> indexed L n ks -> L.*1 !! n = Some c ->
  indexed L (S n) (<[Z.to_nat c := Z.of_nat (S n)]> ks).
Proof.
  intros Hs Hb (Hl & H1 & H2) Hn. rewrite Forall_lookup in Hb. pose proof (Hb _ _ Hn) as Hc. unfold byte in *. split; [now rewrite length_insert|]. split.
  - intros p d Hp Hd. destruct (decide (p = n)) as [-> | Hne].
    + rewrite Hn in Hd. injection Hd as <-. apply list_lookup_insert_eq. lia.
    + assert (Hpn : (p < n)%nat) by lia. specialize (H1 p d Hpn Hd). rewrite list_lookup_insert_ne; [exact H1|].
      intros E. pose proof (Hb _ _ Hd). simpl in *.
      assert (d = c) as -> by lia. pose proof (NoDup_lookup _ _ _ _ (sorted_nodup L Hs) Hd Hn). lia.
  - intros j k Hk. destruct (decide (j = Z.to_nat c)) as [-> | Hne].
    + rewrite list_lookup_insert_eq in Hk by lia. injection Hk as <-. right. exists n.
      split_and!; [lia|reflexivity|]. rewrite Hn. f_equal. lia.
    + rewrite list_lookup_insert_ne in Hk by congruence. destruct (H2 j k Hk) as [|(p & Hp & -> & Hpj)]; [now left|].
      right. exists p. split_and!; [lia|reflexivity|exact Hpj].
Qed.

Lemma view48_of_indexed h ks cs L : sorted L -> Forall byte L.*1 -> indexed L (length L) ks ->
  length cs = 48%nat -> cs = (Some <$> L.*2) ++ replicate (48 - length L) None ->
  num_children h = Z.of_nat (length L) -> view48 h ks cs L.
Proof.
  intros Hs Hb (Hl & H1 & H2) Hlc Ecs Hn.
  assert (Hcs : forall p a, cs !! p = Some (Some a) <-> L.*2 !! p = Some a).
  { intros p a. rewrite Ecs. split.
    - intros H. apply lookup_app_Some in H as [H|[_ H]].
      + apply list_lookup_fmap_Some in H as (a' & [= ->] & H). exact H.
      + now apply replicate_lookup_eq in H.
    - intros H. rewrite lookup_app_l by (rewrite length_fmap; now apply lookup_lt_Some in H).
      now rewrite list_lookup_fmap, H. }
  assert (HL : forall p x, L !! p = Some x <-> L.*1 !! p = Some x.1 /\ L.*2 !! p = Some x.2).
  { intros p x. rewrite !list_lookup_fmap. destruct (L !! p) as [[d b]|]; simpl; [|easy].
    destruct x; simpl. split; [intros [= -> ->]; now split|intros [[= ->] [= ->]]; reflexivity]. }
  split_and!; [exact Hl|exact Hlc|exact Hn| | | |].
  - rewrite Ecs, nsome_app, nsome_some, nsome_replicate, length_fmap. lia.
  - intros c a. rewrite list_elem_of_lookup. split.
    + intros (p & Hp). apply HL in Hp as [Hp1 Hp2]. simpl in *. rewrite Forall_lookup in Hb. split; [exact (Hb _ _ Hp1)|].
      exists p. split; [|now apply Hcs]. apply H1; [|exact Hp1].
      apply lookup_lt_Some in Hp1. now rewrite length_fmap in Hp1.
    + intros (Hc & p & Hp1 & Hp2). unfold byte in Hc. exists p. apply HL. simpl. split; [|now apply Hcs].
      destruct (H2 _ _ Hp1) as [|(q & _ & E & Hq)]; [lia|]. replace q with p in Hq by lia. rewrite Hq. f_equal. lia.
  - intros i k Hk. destruct (H2 _ _ Hk) as [|(p & Hp & -> & Hi)]; [now left|right].
    destruct (lookup_lt_is_Some_2 L.*2 p ltac:(rewrite length_fmap; exact Hp)) as [a Ha].
    exists p, a. split; [reflexivity|]. now apply Hcs.
  - intros i j p Hi Hj. destruct (H2 _ _ Hi) as [|(q & _ & E & Hq)]; [lia|].
    destruct (H2 _ _ Hj) as [|(q' & _ & E' & Hq')]; [lia|]. replace q' with q in Hq' by lia.
    rewrite Hq in Hq'. injection Hq'. lia.
Qed.

Lemma index16_ok h ks cs L : sorted L -> Forall byte L.*1 -> live 16 h ks cs L ->
  wp (index16 ks (num_children h) (replicate 256 0)) (indexed L (length L)).
Proof.
  intros Hs Hb (Hlk & Hlc & Hle & Hn & Hk & _). unfold index16. rewrite Hn, Nat2Z.id.
  set (I := fun (i : Z) acc => 0 <= i /\ indexed L (Z.to_nat i) acc).
  eapply wp_mono; [apply (wp_for_up I)|].
  - intros i acc Hi [Hi0 HI]. destruct (lookup_lt_is_Some_2 L.*1 (Z.to_nat i)) as [c Hc]; [rewrite length_fmap; lia|].
    assert (Hki : ks !! Z.to_nat i = Some c) by (rewrite <- (lookup_take_lt ks (length L)) by lia; now rewrite Hk).
    rewrite (get_okZ _ _ _ Hi0 Hki). cbn [bind].
    pose proof Hb as Hb'. rewrite Forall_lookup in Hb'. pose proof (Hb' _ _ Hc) as Hbc. unfold byte in Hbc.
    rewrite put_okZ by (destruct HI as [-> _]; lia). cbn [wp]. split; [lia|].
    replace (Z.to_nat (i + 1)) with (S (Z.to_nat i)) by lia.
    replace (u8 (i + 1)) with (Z.of_nat (S (Z.to_nat i))) by (unfold u8; rewrite Z.mod_small; lia).
    now apply indexed_add.
  - split; [lia|]. apply indexed_zero.
  - intros acc [_ HI]. replace (Z.to_nat (0 + Z.of_nat (length L))) with (length L) in HI by lia. exact HI.
Qed.

Lemma spread48_ok h h' ks cs L : view48 h ks cs L -> num_children h' = u8 (Z.of_nat (length L)) ->
  wp (spread48 ks cs (replicate 256 None)) (fun ncs => view256 h' ncs L).
Proof.
  intros (Hlk & Hlc & _ & _ & Hm & Hr & _) Hh.
  set (I := fun (i : Z) (acc : list (option A)) => length acc = 256%nat /\ forall (j : nat) a,
    acc !! j = Some (Some a) <-> Z.of_nat j < i /\ (Z.of_nat j, a) ∈ L).
  unfold spread48. eapply wp_mono; [apply (wp_for_up I)|].
  - intros i acc Hi [Hl HI]. destruct (lookup_lt_is_Some_2 ks (Z.to_nat i)) as [k Hk]; [lia|].
    rewrite (get_okZ ks i k) by (assumption || lia). cbn [bind].
    assert (Hmi : forall a, (i, a) ∈ L <-> exists p : nat, k = Z.of_nat (S p) /\ cs !! p = Some (Some a)).
    { intros a. rewrite Hm, Hk. unfold byte. split.
      - intros (_ & p & [= ->] & Hp). eauto.
      - intros (p & -> & Hp). split; [lia|]. eauto. }
    destruct (Hr _ _ Hk) as [-> | (p & a & -> & Hp)]; [cbn|rewrite (proj2 (Z.eqb_neq _ _)) by lia].
    + split; [exact Hl|]. intros j a. rewrite HI. split; intros [H1 H2]; (split; [|exact H2]); [lia|].
      destruct (decide (Z.of_nat j = i)) as [E|]; [|lia]. rewrite E in H2. apply Hmi in H2 as (p & E' & _). lia.
    + rewrite (get_okZ cs _ (Some a)) by (rewrite ?Nat2Z.inj_succ; try lia; replace (Z.to_nat _) with p by lia; exact Hp).
      cbn [bind]. rewrite put_okZ by lia. cbn [wp]. split; [now rewrite length_insert|]. intros j b.
      destruct (decide (j = Z.to_nat i)) as [-> | Hne].
      * rewrite list_lookup_insert_eq by lia. rewrite Z2Nat.id by lia. rewrite Hmi. split.
        -- intros [= ->]. split; [lia|]. eauto.
        -- intros (_ & q & E & Hq). replace q with p in Hq by lia. congruence.
      * rewrite list_lookup_insert_ne by congruence. rewrite HI. split; intros [H1 H2]; (split; [lia|exact H2]).
  - split; [reflexivity|]. intros j a. split; [intros H; now apply replicate_lookup_eq in H|].
    intros [H1 H2]. lia.
  - intros ncs [Hl HI]. split_and!; [exact Hl|exact Hh|]. intros c a. rewrite HI. split.
    + intros Hin. pose proof (proj1 (Hm _ _) Hin) as [Hc _]. unfold byte in Hc. split; [exact Hc|].
      rewrite Z2Nat.id by lia. split; [lia|exact Hin].
    + unfold byte. intros (Hc & _ & Hin). rewrite Z2Nat.id in Hin by lia. exact Hin.
Qed.

(** The first [k] keys are below [i], the others are not. *)
Definition cut L (k : nat) (i : Z) : Prop :=
  (forall j x, (j < k)%nat -> L.*1 !! j = Some x -> x < i) /\
  (forall j x, (k <= j)%nat -> L.*1 !! j = Some x -> i <= x).

Lemma sorted_lookup L (i j : nat) x y : sorted L -> (i < j)%nat -> L.*1 !! i = Some x -> L.*1 !! j = Some y -> x < y.
Proof.
  unfold sorted. generalize (L.*1). intros l Hs. revert i j. induction Hs as [|z l Hs IH Hf]; intros i j Hij Hi Hj; [easy|].
  destruct j as [|j]; [lia|]. destruct i as [|i]; simpl in *.
  - injection Hi as ->. rewrite Forall_lookup in Hf. exact (Hf _ _ Hj).
  - apply (IH i j); [lia|assumption..].
Qed.

Lemma cut_start L : Forall byte L.*1 -> cut L 0 0.
Proof.
  intros Hb. rewrite Forall_lookup in Hb. split; intros j x Hj Hx; [lia|].
  specialize (Hb _ _ Hx). unfold byte in Hb. lia.
Qed.

Lemma cut_step L k i : sorted L -> cut L k i ->
  (L.*1 !! k = Some i /\ cut L (S k) (i + 1)) \/ ((i ∉ L.*1) /\ cut L k (i + 1)).
Proof.
  intros Hs [H1 H2]. destruct (decide (L.*1 !! k = Some i)) as [E|Hne]; [left|right].
  - split; [exact E|]. split; intros j x Hj Hx.
    + destruct (decide (j = k)) as [-> | Hjk]; [rewrite E in Hx; injection Hx; lia|].
      specialize (H1 j x ltac:(lia) Hx). lia.
    + pose proof (sorted_lookup L k j i x Hs ltac:(lia) E Hx). lia.
  - assert (Hn : i ∉ L.*1).
    { intros [j Hj]%list_elem_of_lookup. destruct (decide (j < k)%nat) as [Hlt|Hge].
      - specialize (H1 _ _ Hlt Hj). lia.
      - destruct (decide (j = k)) as [-> | Hjk]; [easy|].
        destruct (lookup_lt_is_Some_2 L.*1 k) as [x Hx]; [apply lookup_lt_Some in Hj; lia|].
        pose proof (sorted_lookup L k j x i Hs ltac:(lia) Hx Hj). specialize (H2 k x ltac:(lia) Hx). lia. }
    split; [exact Hn|]. split; intros j x Hj Hx.
    + specialize (H1 _ _ Hj Hx). lia.
    + specialize (H2 _ _ Hj Hx). assert (x <> i); [|lia]. intros ->. apply Hn, list_elem_of_lookup. eauto.
Qed.

Lemma cut_end L k : Forall byte L.*1 -> (k <= length L)%nat -> cut L k 256 -> k = length L.
Proof.
  intros Hb Hk [_ H2]. destruct (decide (k = length L)) as [|Hne]; [assumption|].
  destruct (lookup_lt_is_Some_2 L.*1 k) as [x Hx]; [rewrite length_fmap; lia|].
  rewrite Forall_lookup in Hb. specialize (Hb _ _ Hx). specialize (H2 k x ltac:(lia) Hx). unfold byte in Hb. lia.
Qed.

Lemma fst_lookup L (k : nat) c : L.*1 !! k = Some c <-> exists a, L !! k = Some (c, a).
Proof.
  rewrite list_lookup_fmap. destruct (L !! k) as [[d b]|]; simpl; split.
  - intros [= ->]. eauto.
  - intros (a & [= -> ->]). reflexivity.
  - easy.
  - intros (a & [=]).
Qed.

Lemma not_in_key L c : c ∉ L.*1 <-> forall a, (c, a) ∉ L.
Proof.
  split.
  - intros H a Ha. apply H, list_elem_of_fmap. now exists (c, a).
  - intros H [[d a] [-> Ha]]%list_elem_of_fmap. exact (H a Ha).
Qed.

(** The entry after the first [k], stored at index [k] of an array. *)
Lemma take_put {B C} (f : C -> B) (l : list B) (M : list C) (k : nat) x : (k < length l)%nat -> M !! k = Some x ->
  take k l = f <$> take k M -> take (S k) (<[k := f x]> l) = f <$> take (S k) M.
Proof.
  intros Hk Hx Ht. rewrite (take_S_r _ k (f x)) by (apply list_lookup_insert_eq; exact Hk).
  rewrite take_insert_ge by lia. rewrite Ht, (take_S_r _ _ _ Hx), fmap_app. reflexivity.
Qed.

Lemma pack48_ok h ks cs nks ncs L : sorted L -> Forall byte L.*1 -> view48 h ks cs L -> (length L <= 16)%nat ->
  length nks = 16%nat -> length ncs = 16%nat ->
  wp (pack48 ks cs nks ncs) (fun r => length r.1.2 = 16%nat /\ length r.2 = 16%nat /\
    take (length L) r.1.2 = L.*1 /\ take (length L) r.2 = Some <$> L.*2).
Proof.
  intros Hs Hb (Hlk & Hlc & _ & _ & Hm & Hr & _) H16 Hl1 Hl2.
  set (I := fun (i : Z) (s : Z * list Z * list (option A)) => exists k : nat, s.1.1 = Z.of_nat k /\
    (k <= length L)%nat /\ cut L k i /\ length s.1.2 = 16%nat /\ length s.2 = 16%nat /\
    take k s.1.2 = fst <$> take k L /\ take k s.2 = (fun x => Some x.2) <$> take k L).
  unfold pack48. eapply wp_mono; [apply (wp_for_up I)|].
  - intros i [[z ks'] cs'] Hi (k & Ez & Hk & Hcut & Hk1 & Hk2 & Ht1 & Ht2). cbn [fst snd] in *. subst z.
    destruct (lookup_lt_is_Some_2 ks (Z.to_nat i)) as [q Hq]; [lia|].
    rewrite (get_okZ ks i q) by (assumption || lia). cbn [bind].
    destruct (cut_step L k i Hs Hcut) as [[HLk Hcut']|[Hni Hcut']].
    + apply fst_lookup in HLk as [a Ha]. pose proof (list_elem_of_lookup_2 _ _ _ Ha) as Hin.
      apply Hm in Hin as (Hbi & p & Hp1 & Hp2). rewrite Hq in Hp1. injection Hp1 as ->.
      rewrite (proj2 (Z.eqb_neq _ _)) by lia. apply lookup_lt_Some in Ha as Hlt.
      rewrite put_ok by lia. cbn [bind].
      rewrite (get_okZ cs _ (Some a)) by (try lia; replace (Z.to_nat _) with p by lia; exact Hp2). cbn [bind].
      rewrite put_ok by lia. cbn [bind wp]. exists (S k). cbn [fst snd].
      split_and!; [lia|lia|exact Hcut'|now rewrite length_insert|now rewrite length_insert| |].
      * unfold byte in Hbi. replace (u8 i) with i by (unfold u8; rewrite Z.mod_small; lia).
        apply (take_put fst ks' L k (i, a)); [lia|exact Ha|exact Ht1].
      * apply (take_put (fun x => Some x.2) cs' L k (i, a)); [lia|exact Ha|exact Ht2].
    + destruct (Hr _ _ Hq) as [-> | (p & a & -> & Hp)].
      * cbn. exists k. now split_and!.
      * exfalso. rewrite not_in_key in Hni. apply (Hni a), Hm. unfold byte. split; [lia|]. eauto.
  - exists O. cbn. split_and!; [reflexivity|lia|now apply cut_start|assumption..|reflexivity|reflexivity].
  - intros [[z ks'] cs'] (k & Ez & Hk & Hcut & Hk1 & Hk2 & Ht1 & Ht2). cbn [fst snd] in *.
    apply cut_end in Hcut as ->; [|assumption..]. rewrite firstn_all in Ht1, Ht2.
    split_and!; [assumption..|rewrite Ht2; now rewrite <- list_fmap_compose].
Qed.

Lemma pack256_ok h h' cs L : sorted L -> Forall byte L.*1 -> view256 h cs L -> (length L <= 48)%nat ->
  num_children h' = Z.of_nat (length L) ->
  wp (pack256 cs (replicate 256 0) (replicate 48 None)) (fun r => view48 h' r.1.2 r.2 L).
Proof.
  intros Hs Hb (Hlc & _ & Hm) H48 Hh.
  set (I := fun (i : Z) (s : Z * list Z * list (option A)) => exists k : nat, s.1.1 = Z.of_nat k /\
    (k <= length L)%nat /\ cut L k i /\ indexed L k s.1.2 /\ length s.2 = 48%nat /\
    s.2 = (Some <$> (take k L).*2) ++ replicate (48 - k) None).
  unfold pack256. eapply wp_mono; [apply (wp_for_up I)|].
  - intros i [[z ks'] cs'] Hi (k & Ez & Hk & Hcut & Hix & Hl2 & Ecs). cbn [fst snd] in *. subst z.
    destruct (lookup_lt_is_Some_2 cs (Z.to_nat i)) as [o Ho]; [lia|].
    rewrite (get_okZ cs i o) by (assumption || lia). cbn [bind].
    destruct (cut_step L k i Hs Hcut) as [[HLk Hcut']|[Hni Hcut']].
    + pose proof HLk as HLk'. apply fst_lookup in HLk as [a Ha]. pose proof (list_elem_of_lookup_2 _ _ _ Ha) as Hin.
      apply Hm in Hin as (Hbi & Hp). rewrite Ho in Hp. injection Hp as ->.
      apply lookup_lt_Some in Ha as Hlt. rewrite put_ok by lia. cbn [bind].
      rewrite put_okZ by (destruct Hix as [-> _]; lia). cbn [bind wp]. exists (S k). cbn [fst snd].
      split_and!; [lia|lia|exact Hcut'| |now rewrite length_insert|].
      * replace (u8 (Z.of_nat k + 1)) with (Z.of_nat (S k)) by (unfold u8; rewrite Z.mod_small; lia).
        now apply indexed_add.
      * rewrite Ecs. rewrite insert_app_r_alt by (rewrite !length_fmap, length_take; lia).
        rewrite !length_fmap, length_take, Nat.min_l, Nat.sub_diag by lia.
        replace (48 - k)%nat with (S (48 - S k)) by lia. cbn [replicate insert list_insert].
        rewrite (take_S_r _ _ _ Ha), !fmap_app, <- app_assoc. reflexivity.
    + destruct o as [a|].
      * exfalso. rewrite not_in_key in Hni. apply (Hni a), Hm. unfold byte. split; [lia|exact Ho].
      * cbn. exists k. now split_and!.
  - exists O. cbn [fst snd]. split_and!; [reflexivity|lia|now apply cut_start|apply indexed_zero|reflexivity|reflexivity].
  - intros [[z ks'] cs'] (k & Ez & Hk & Hcut & Hix & Hl2 & Ecs). cbn [fst snd] in *.
    apply cut_end in Hcut as ->; [|assumption..]. rewrite firstn_all in Ecs. now apply view48_of_indexed.
Qed.
End Convert.

(** * Adding and removing, all layouts *)

Section Update.
Context {A : Type} `{!ArrayMove, !ArrayMoveOk}.
Implicit Types (L : list (Z * A)) (c : Z) (a : A) (ks : list Z) (cs : list (option A)) (m : art_mem A).

(** The least number of children a layout has between operations. *)
Definition min_kids (n : inner A) : nat :=
  match n with
  | Node4 _ _ _ => 2
  | Node16 _ _ _ => 4
  | Node48 _ _ _ => 13
  | Node256 _ _ => 38
  end.

Definition plen_ok (h : art_node) : Prop := 0 <= partial_len h < 2 ^ 31.

Lemma live_view4 (h : art_node) ks cs L : sorted L -> Forall byte L.*1 -> length (partial h) = 10%nat ->
  live 4 h ks cs L -> view (Node4 h ks cs) L.
Proof. intros. now split_and!. Qed.

Lemma linsert_bytes c a L : Forall byte L.*1 -> byte c -> Forall byte (linsert c a L).*1.
Proof.
  intros Hb Hc. rewrite Forall_forall in *. intros x [[d b] [-> Hd]]%list_elem_of_fmap.
  apply elem_linsert in Hd as [[= -> ->] | Hd]; [exact Hc|]. apply Hb, list_elem_of_fmap. now exists (d, b).
Qed.

(** The position for a new key: before the first greater one. *)
Lemma insert_pos L c a (i : nat) : c ∉ L.*1 ->
  find_idx (fun k => c <? k) L.*1 = Some i -> linsert c a L = take i L ++ (c, a) :: drop i L.
Proof.
  intros Hn Hf. pose proof (find_idx_lt _ _ _ Hf) as Hlt. rewrite length_fmap in Hlt.
  apply find_idx_some in Hf as [(k & Hk & Hp) Hj]. apply linsert_take; [lia| |].
  - intros j x Hjl Hx. specialize (Hj _ _ Hjl Hx). simpl in Hj. lia.
  - intros x Hx. rewrite Hk in Hx. injection Hx as <-. lia.
Qed.

Lemma insert_end L c a : find_idx (fun k => c <? k) L.*1 = None ->
  linsert c a L = take (length L) L ++ (c, a) :: drop (length L) L.
Proof.
  intros Hf. apply find_idx_none in Hf. rewrite Forall_lookup in Hf. apply linsert_take; [lia| |].
  - intros j x _ Hx. specialize (Hf _ _ Hx). simpl in Hf. lia.
  - intros x Hx. apply lookup_lt_Some in Hx. rewrite length_fmap in Hx. lia.
Qed.

(** Postcondition of adding: the entry is there, the prefix and the bounds are kept. *)
Definition added (h : art_node) L c a (r : inner A * art_mem A) : Prop :=
  view r.1 (linsert c a L) /\ same_prefix h (hdr r.1) /\ mem_ok r.2 /\
  ((min_kids r.1 <= S (length L))%nat \/ exists h' ks cs, r.1 = Node4 h' ks cs).

Lemma add_child16_ok m h ks cs L c a : view (Node16 h ks cs) L -> byte c -> c ∉ L.*1 -> plen_ok h -> mem_ok m ->
  (4 <= length L)%nat -> wp (add_child16 m h ks cs c a) (added h L c a).
Proof.
  intros (Hs & Hb & Hp & Hl) Hc Hnc Hpl Hm H4. pose proof Hl as (Hlk & Hlc & Hle & Hn & Hk & Hcs). simpl in Hp.
  unfold add_child16. rewrite Hn. destruct (Z.ltb_spec (Z.of_nat (length L)) 16) as [Hlt|Hge].
  - pose proof (key_bits_ok (fun k => c <? k) (take (length L) ks) (length L)) as Hbits.
    rewrite Nat2Z.id. rewrite length_take in Hbits. specialize (Hbits ltac:(lia) ltac:(lia)). cbv zeta in Hbits.
    rewrite take_take, Nat.min_id, Hk in Hbits. rewrite Hk.
    set (z := Z.land _ _) in *. apply wp_bind.
    assert (Hins : forall (i : nat) shift, (i <= length L)%nat -> (shift = true \/ i = length L) ->
      linsert c a L = take i L ++ (c, a) :: drop i L ->
      wp (insert_at h ks cs (Z.of_nat i) c a shift) (fun r => wp (let '(h', ks', cs') := r in Ok (Node16 h' ks' cs', m)) (added h L c a))).
    { intros i shift Hi Hsh E. eapply wp_mono; [apply (live_insert_at 16 h ks cs L i c a shift Hl); lia || assumption|].
      intros [[h' ks'] cs'] [Hlv Hsp]. simpl in *. rewrite <- E in Hlv. split_and!; cbn [fst snd hdr min_kids]; [|exact Hsp|exact Hm|left; lia].
      split_and!; [now apply linsert_sorted|now apply linsert_bytes| |exact Hlv]. simpl. destruct Hsp as (_ & _ & E'). congruence. }
    destruct (z =? 0) eqn:Ez.
    + destruct (find_idx _ _) as [i|] eqn:Ef; [discriminate|]. apply Hins; [lia|now right|]. now apply insert_end.
    + destruct (find_idx _ _) as [i|] eqn:Ef; [|discriminate]. injection Hbits as ->.
      pose proof (find_idx_lt _ _ _ Ef) as Hi. rewrite length_fmap in Hi.
      apply Hins; [lia|now left|]. now apply insert_pos.
  - assert (El : length L = 16%nat) by lia.
    apply wp_bind. eapply wp_mono; [apply (alloc_node_ok m NODE48 Hm)|].
    intros [n m'] [(Hh & _ & Hf) Hm']. cbn [fst snd] in *. destruct n as [| |nh nks ncs|]; try easy.
    destruct Hf as [-> ->]. cbn [hdr] in Hh. subst nh.
    rewrite copy_in_ok by (rewrite ?length_replicate; lia). cbn [bind]. rewrite Nat2Z.id, Hcs.
    apply wp_bind. rewrite <- Hn. eapply wp_mono; [apply (index16_ok h ks cs L Hs Hb Hl)|]. intros nks Hix.
    apply wp_bind. eapply wp_mono; [apply copy_header_ok; assumption|]. intros nh (Ep & En & Est & Hp').
    assert (Hv48 : view48 nh nks ((Some <$> L.*2) ++ drop (length L) (replicate 48 None)) L).
    { apply view48_of_indexed; try assumption; [|now rewrite drop_replicate|congruence].
      rewrite length_app, !length_fmap, length_drop, length_replicate. lia. }
    rewrite Hn. rewrite put_ok by (rewrite length_app, !length_fmap, length_drop, length_replicate; lia). cbn [bind].
    unfold byte in Hc. rewrite put_okZ by (destruct Hix as [-> _]; lia). cbn [bind wp].
    replace (u8 (Z.of_nat (length L) + 1)) with (Z.of_nat (S (length L))) by (unfold u8; rewrite Z.mod_small; lia).
    split_and!; cbn [fst snd hdr min_kids]; [| |exact (free_node_ok m' (Node16 h ks cs) Hm' (conj Hlk Hlc))|left; lia].
    + split_and!; [now apply linsert_sorted|now apply linsert_bytes|exact Hp'|].
      apply (view48_add nh); [exact Hv48|exact Hc|exact Hnc| |].
      * rewrite lookup_app_r by (rewrite !length_fmap; lia). rewrite !length_fmap, Nat.sub_diag, El. reflexivity.
      * cbn. rewrite En, Hn. unfold u8. rewrite Z.mod_small; lia.
    + split_and!; [exact Ep|exact Est|simpl; congruence].
Qed.

Lemma add_child4_ok m h ks cs L c a : view (Node4 h ks cs) L -> byte c -> c ∉ L.*1 -> plen_ok h -> mem_ok m ->
  wp (add_child4 m h ks cs c a) (fun r => added h L c a r /\ ((length L < 4)%nat -> exists h' ks' cs', r.1 = Node4 h' ks' cs')).
Proof.
  intros (Hs & Hb & Hp & Hl) Hc Hnc Hpl Hm. pose proof Hl as (Hlk & Hlc & Hle & Hn & Hk & Hcs). simpl in Hp.
  unfold add_child4. rewrite Hn, Nat2Z.id. destruct (Z.ltb_spec (Z.of_nat (length L)) 4) as [Hlt|Hge].
  - change 0 with (Z.of_nat 0). rewrite scan_key_ok, drop_0, Hk by lia. cbn [bind].
    assert (Hi : exists i : nat, (i <= length L)%nat /\ linsert c a L = take i L ++ (c, a) :: drop i L /\
      match (fun x => Z.of_nat (0 + x)) <$> find_idx (fun k => c <? k) L.*1 with
      | Some i => i | None => Z.of_nat (length L) end = Z.of_nat i).
    { destruct (find_idx _ _) as [i|] eqn:Ef; simpl.
      - exists i. pose proof (find_idx_lt _ _ _ Ef) as Hi. rewrite length_fmap in Hi.
        split_and!; [lia|now apply insert_pos|reflexivity].
      - exists (length L). split_and!; [lia|now apply insert_end|reflexivity]. }
    destruct Hi as (i & Hi & E & ->). apply wp_bind.
    eapply wp_mono; [apply (live_insert_at 4 h ks cs L i c a true Hl); lia || (now left)|].
    intros [[h' ks'] cs'] [Hlv Hsp]. simpl in *. rewrite <- E in Hlv. split; [|eauto].
    split_and!; cbn [fst snd hdr min_kids]; [|exact Hsp|exact Hm|right; eauto].
    split_and!; [now apply linsert_sorted|now apply linsert_bytes| |exact Hlv]. simpl. destruct Hsp as (_ & _ & E'). congruence.
  - apply wp_bind. eapply wp_mono; [apply (alloc_node_ok m NODE16 Hm)|].
    intros [n m'] [(Hh & Hsz & Hf) Hm']. cbn [fst snd] in *. destruct n as [|nh nks ncs| |]; try easy.
    cbn [hdr] in Hh. destruct Hsz as [Hs1 Hs2]. subst nh.
    rewrite copy_in_ok by lia. cbn [bind]. rewrite copy_in_ok by lia. cbn [bind]. rewrite Nat2Z.id, Hcs, Hk.
    apply wp_bind. eapply wp_mono; [apply copy_header_ok; assumption|]. intros nh (Ep & En & Est & Hp').
    eapply wp_mono; [apply (add_child16_ok _ nh _ _ L)|]; try assumption.
    + split_and!; [exact Hs|exact Hb|exact Hp'|].
      split_and!; [rewrite length_app, length_fmap, length_drop; lia|
        rewrite length_app, !length_fmap, length_drop; lia|lia|congruence| |].
      * rewrite take_app_le by (rewrite length_fmap; lia). apply take_ge. rewrite length_fmap. lia.
      * rewrite take_app_le by (rewrite !length_fmap; lia). apply take_ge. rewrite !length_fmap. lia.
    + unfold plen_ok. rewrite Ep. exact Hpl.
    + exact (free_node_ok m' (Node4 h ks cs) Hm' (conj Hlk Hlc)).
    + lia.
    + intros r (Hv & Hsp & Hmr & Hmin). split; [|lia]. split_and!; [exact Hv| |exact Hmr|exact Hmin].
      etransitivity; [|exact Hsp]. split_and!; [exact Ep|exact Est|congruence].
Qed.

Lemma add_child48_ok m h ks cs L c a : view (Node48 h ks cs) L -> byte c -> c ∉ L.*1 -> plen_ok h -> mem_ok m ->
  (13 <= length L)%nat -> wp (add_child48 m h ks cs c a) (added h L c a).
Proof.
  intros (Hs & Hb & Hp & Hv) Hc Hnc Hpl Hm H13. pose proof Hv as (Hlk & Hlc & Hn & Hns & _). simpl in Hp.
  unfold add_child48. rewrite Hn. pose proof Hc as Hc'. unfold byte in Hc'.
  destruct (Z.ltb_spec (Z.of_nat (length L)) 48) as [Hlt|Hge].
  - destruct (first_null_ok cs 0 ltac:(lia)) as (p & Ep & Hnull). change (0 + p)%nat with p in Ep. change (Z.of_nat 0) with 0 in Ep. rewrite Ep. cbn [bind].
    pose proof (lookup_lt_Some _ _ _ Hnull). rewrite put_ok by lia. cbn [bind]. rewrite put_okZ by lia. cbn [bind wp].
    split_and!; cbn [fst snd hdr min_kids]; [|apply same_prefix_num|exact Hm|left; lia].
    split_and!; [now apply linsert_sorted|now apply linsert_bytes|exact Hp|].
    replace (u8 (Z.of_nat p + 1)) with (Z.of_nat (S p)) by (unfold u8; rewrite Z.mod_small; lia).
    apply (view48_add h); [exact Hv|assumption..|]. cbn. unfold u8. rewrite Z.mod_small; lia.
  - apply wp_bind. eapply wp_mono; [apply (alloc_node_ok m NODE256 Hm)|].
    intros [n m'] [(Hh & _ & Hf) Hm']. cbn [fst snd] in *. destruct n as [| | |nh ncs]; try easy.
    cbn [hdr] in Hh. subst nh ncs. apply wp_bind.
    eapply wp_mono; [apply (spread48_ok h (Hdr 0 (u8 (Z.of_nat (length L))) []) ks cs L Hv); reflexivity|].
    intros ncs Hv256. apply wp_bind. eapply wp_mono; [apply copy_header_ok; assumption|]. intros nh (Ep & En & Est & Hp').
    rewrite put_okZ by (destruct Hv256 as [-> _]; lia). cbn [bind wp].
    split_and!; cbn [fst snd hdr min_kids]; [| |exact (free_node_ok m' (Node48 h ks cs) Hm' I)|left; lia].
    + split_and!; [now apply linsert_sorted|now apply linsert_bytes|exact Hp'|].
      eapply view256_add; [exact Hv256|assumption..|]. cbn. rewrite En, Hn. f_equal. lia.
    + split_and!; [exact Ep|exact Est|simpl; congruence].
Qed.

Theorem add_child_ok m n L c a : view n L -> byte c -> c ∉ L.*1 -> plen_ok (hdr n) -> mem_ok m ->
  (min_kids n <= length L)%nat -> wp (add_child m n c a) (fun r => added (hdr n) L c a r /\ (min_kids r.1 <= S (length L))%nat).
Proof.
  intros Hv Hc Hnc Hpl Hm Hmin.
  assert (Hpost : forall r, added (hdr n) L c a r -> (2 <= length L)%nat ->
    added (hdr n) L c a r /\ (min_kids r.1 <= S (length L))%nat).
  { intros r (H1 & H2 & H3 & H4) Hl. split; [now split_and!|]. destruct H4 as [|(h' & ks' & cs' & ->)]; [assumption|simpl; lia]. }
  destruct n as [h ks cs|h ks cs|h ks cs|h cs]; cbn [add_child]; simpl in Hmin.
  - eapply wp_mono; [apply (add_child4_ok m h ks cs L c a); assumption|]. intros r [Hr _]. apply Hpost; [exact Hr|lia].
  - eapply wp_mono; [apply (add_child16_ok m h ks cs L c a); assumption|]. intros r Hr. apply Hpost; [exact Hr|lia].
  - eapply wp_mono; [apply (add_child48_ok m h ks cs L c a); assumption|]. intros r Hr. apply Hpost; [exact Hr|lia].
  - destruct Hv as (Hs & Hb & Hp & Hv). pose proof Hv as (Hlc & Hn & _). pose proof Hc as Hc'. unfold byte in Hc'.
    unfold add_child256. rewrite put_okZ by lia. cbn [bind wp]. apply Hpost; [|lia].
    split_and!; cbn [fst snd hdr min_kids]; [|apply same_prefix_num|exact Hm|left; lia].
    split_and!; [now apply linsert_sorted|now apply linsert_bytes|exact Hp|].
    eapply view256_add; [exact Hv|assumption..|]. cbn. rewrite Hn. unfold u8.
    rewrite Z.add_mod_idemp_l by lia. f_equal. lia.
Qed.

(** Closing the gap at [i] in the first [n] entries. *)
Lemma shift_delete {B} (l K : list B) (n i : nat) : (n <= length l)%nat -> (i < n)%nat -> take n l = K ->
  take (n - 1) (take i l ++ take (n - 1 - i) (drop (S i) l) ++ drop (i + (n - 1 - i)) l) = delete i K.
Proof.
  intros Hn Hi <-. rewrite delete_take_drop, take_take, Nat.min_l by lia.
  rewrite take_app_ge by (rewrite length_take; lia). rewrite length_take, Nat.min_l by lia. f_equal.
  rewrite take_app_le by (rewrite length_take, length_drop; lia). rewrite take_take, Nat.min_id.
  rewrite skipn_firstn_comm. f_equal. lia.
Qed.

Lemma delete_fmap {B C} (f : B -> C) (l : list B) (i : nat) : f <$> delete i l = delete i (f <$> l).
Proof. rewrite !delete_take_drop, fmap_app, fmap_take, fmap_drop. reflexivity. Qed.

Lemma live_remove_at cap h ks cs L (i : nat) c a : live cap h ks cs L -> (cap <= 16)%nat -> L !! i = Some (c, a) ->
  wp (remove_at h ks cs (Z.of_nat i)) (fun r => live cap r.1.1 r.1.2 r.2 (delete i L) /\ same_prefix h r.1.1 /\
    num_children r.1.1 = Z.of_nat (length L - 1)).
Proof.
  intros (Hlk & Hlc & Hle & Hn & Hk & Hc) Hcap Hi. apply lookup_lt_Some in Hi as Hlt.
  unfold remove_at. rewrite Hn. replace (Z.of_nat i + 1) with (Z.of_nat (S i)) by lia.
  replace (Z.of_nat (length L) - 1 - Z.of_nat i) with (Z.of_nat (length L - 1 - i)) by lia.
  rewrite move_ok by lia. cbn [bind]. rewrite move_ok by lia. cbn [bind wp fst snd].
  assert (El : length (delete i L) = (length L - 1)%nat).
  { rewrite delete_take_drop, length_app, length_take, length_drop. lia. }
  assert (En : num_children (set_num h (Z.of_nat (length L) - 1)) = Z.of_nat (length L - 1)).
  { cbn. unfold u8. rewrite Z.mod_small; lia. }
  split_and!; [|apply same_prefix_num|exact En]. unfold live. rewrite El.
  split_and!; [rewrite shift_length; lia|rewrite shift_length; lia|lia|exact En| |].
  - rewrite (shift_delete ks L.*1 (length L) i) by (assumption || lia). now rewrite delete_fmap.
  - rewrite (shift_delete cs (Some <$> L.*2) (length L) i) by (assumption || lia). now rewrite !delete_fmap.
Qed.

Lemma view48_remove h h' ks cs L c a (p : nat) : sorted L -> view48 h ks cs L -> byte c ->
  ks !! Z.to_nat c = Some (Z.of_nat (S p)) -> cs !! p = Some (Some a) ->
  num_children h' = Z.of_nat (length L - 1) ->
  view48 h' (<[Z.to_nat c := 0]> ks) (<[p := None]> cs) (ldelete c L).
Proof.
  intros Hs (Hlk & Hlc & Hn & Hns & Hm & Hr & Hinj) Hc Hk Hp Hh.
  assert (Hin : (c, a) ∈ L) by (apply Hm; split; [exact Hc|eauto]).
  pose proof (ldelete_length _ _ _ Hin) as El. unfold byte in Hc. pose proof (lookup_lt_Some _ _ _ Hp) as Hplt.
  unfold view48. rewrite !length_insert. split_and!; try assumption; [lia| | | |].
  - pose proof (nsome_delete _ _ _ Hp). lia.
  - intros c' a'. rewrite (elem_ldelete _ _ _ Hs), Hm. simpl. unfold byte. split.
    + intros (Hne & Hc' & q & Hq1 & Hq2). split; [exact Hc'|]. exists q.
      rewrite !list_lookup_insert_ne; [now split| |lia].
      intros <-. pose proof (Hinj _ _ _ Hq1 Hk). lia.
    + intros (Hc' & q & Hq1 & Hq2). destruct (decide (c' = c)) as [-> | Hne].
      { rewrite list_lookup_insert_eq in Hq1 by lia. injection Hq1. lia. }
      rewrite list_lookup_insert_ne in Hq1 by lia. split; [exact Hne|]. split; [exact Hc'|]. exists q. split; [exact Hq1|].
      destruct (decide (q = p)) as [-> | Hqp]; [rewrite list_lookup_insert_eq in Hq2 by lia; discriminate|].
      now rewrite list_lookup_insert_ne in Hq2 by congruence.
  - intros i k Hi. destruct (decide (i = Z.to_nat c)) as [-> | Hne].
    { rewrite list_lookup_insert_eq in Hi by lia. left. congruence. }
    rewrite list_lookup_insert_ne in Hi by congruence. destruct (Hr _ _ Hi) as [|(q & b & -> & Hq)]; [now left|right].
    exists q, b. split; [reflexivity|]. rewrite list_lookup_insert_ne; [exact Hq|].
    intros ->. pose proof (Hinj _ _ _ Hi Hk). congruence.
  - intros i j q Hi Hj.
    assert (Hold : forall i, <[Z.to_nat c := 0]> ks !! i = Some (Z.of_nat (S q)) -> ks !! i = Some (Z.of_nat (S q))).
    { intros k Hkq. destruct (decide (k = Z.to_nat c)) as [-> | Hne].
      - rewrite list_lookup_insert_eq in Hkq by lia. injection Hkq. lia.
      - now rewrite list_lookup_insert_ne in Hkq by congruence. }
    eauto.
Qed.

Lemma view256_remove h h' cs L c a : sorted L -> view256 h cs L -> byte c -> (c, a) ∈ L ->
  num_children h' = u8 (Z.of_nat (length L - 1)) -> view256 h' (<[Z.to_nat c := None]> cs) (ldelete c L).
Proof.
  intros Hs (Hlc & Hn & Hm) Hc Hin Hh. pose proof (ldelete_length _ _ _ Hin) as El. unfold byte in Hc.
  unfold view256. rewrite length_insert. split_and!; [exact Hlc|rewrite Hh; do 2 f_equal; lia|].
  intros c' a'. rewrite (elem_ldelete _ _ _ Hs), Hm. simpl. unfold byte. split.
  - intros (Hne & Hc' & Hp). split; [exact Hc'|]. rewrite list_lookup_insert_ne; [exact Hp|lia].
  - intros (Hc' & Hp). destruct (decide (c' = c)) as [-> | Hne].
    { rewrite list_lookup_insert_eq in Hp by lia. discriminate. }
    rewrite list_lookup_insert_ne in Hp by lia. now split.
Qed.

Lemma ldelete_bytes c L : Forall byte L.*1 -> Forall byte (ldelete c L).*1.
Proof.
  intros Hb. rewrite Forall_forall in *. intros x [[d b] [-> Hd]]%list_elem_of_fmap.
  apply Hb, list_elem_of_fmap. exists (d, b). split; [reflexivity|]. eapply ldelete_sub, Hd.
Qed.

(** Postcondition of removing. *)
Definition removed (h : art_node) L c (r : inner A * art_mem A) : Prop :=
  view r.1 (ldelete c L) /\ same_prefix h (hdr r.1) /\ mem_ok r.2 /\ (S (min_kids r.1) <= length L)%nat.

Lemma remove_child16_ok m h ks cs L (i : nat) c a : view (Node16 h ks cs) L -> L !! i = Some (c, a) -> plen_ok h ->
  mem_ok m -> (4 <= length L)%nat -> wp (remove_child16 m h ks cs (Z.of_nat i)) (removed h L c).
Proof.
  intros (Hs & Hb & Hp & Hl) Hi Hpl Hm H4. pose proof Hl as (Hlk & Hlc & Hle & _). simpl in Hp.
  unfold remove_child16. apply wp_bind. eapply wp_mono; [apply (live_remove_at 16 h ks cs L i c a Hl); lia || assumption|].
  intros [[h1 ks1] cs1] (Hl1 & Hsp & En). cbn [fst snd] in *. rewrite <- (ldelete_delete c a L i Hs Hi) in Hl1.
  pose proof Hl1 as (Hlk1 & Hlc1 & Hle1 & Hn1 & Hk1 & Hc1). pose proof (ldelete_length c a L (list_elem_of_lookup_2 _ _ _ Hi)) as El.
  pose proof Hsp as (Ep1 & Es1 & El1). rewrite En.
  destruct (Z.eqb_spec (Z.of_nat (length L - 1)) 3) as [E3|Hne].
  - apply wp_bind. eapply wp_mono; [apply (alloc_node_ok m NODE4 Hm)|].
    intros [n m'] [(Hh & Hsz & Hf) Hm']. cbn [fst snd] in *. destruct n as [nh nks ncs| | |]; try easy.
    cbn [hdr] in Hh. destruct Hsz as [Hs1 Hs2]. subst nh.
    apply wp_bind. eapply wp_mono; [apply (copy_header_ok h1)|]; [unfold plen_ok in Hpl; lia|congruence|].
    intros nh (Ep & Enh & Est & Hp'). rewrite <- En, Hn1. rewrite copy_in_ok by lia. cbn [bind].
    rewrite copy_in_ok by lia. cbn [bind wp]. rewrite Nat2Z.id, Hk1, Hc1.
    split_and!; cbn [fst snd hdr min_kids]; [| |exact (free_node_ok m' (Node16 h1 ks1 cs1) Hm' (conj Hlk1 Hlc1))|lia].
    + split_and!; [now apply ldelete_sorted|now apply ldelete_bytes|exact Hp'|].
      split_and!; [rewrite length_app, length_fmap, length_drop; lia|
        rewrite length_app, !length_fmap, length_drop; lia|lia|congruence| |].
      * rewrite take_app_le by (rewrite length_fmap; lia). apply take_ge. rewrite length_fmap. lia.
      * rewrite take_app_le by (rewrite !length_fmap; lia). apply take_ge. rewrite !length_fmap. lia.
    + etransitivity; [exact Hsp|]. split_and!; [exact Ep|exact Est|congruence].
  - cbn [wp]. split_and!; cbn [fst snd hdr min_kids]; [|exact Hsp|exact Hm|lia].
    split_and!; [now apply ldelete_sorted|now apply ldelete_bytes|simpl; congruence|exact Hl1].
Qed.

Lemma remove_child48_ok m h ks cs L (i : nat) c a : view (Node48 h ks cs) L -> byte c ->
  slot_idx (Node48 h ks cs) L c i a -> plen_ok h -> mem_ok m -> (13 <= length L)%nat ->
  wp (remove_child48 m h ks cs c) (removed h L c).
Proof.
  intros Hview Hc Hi Hpl Hm H13. destruct (slot_idx_in _ _ _ _ _ Hview Hc Hi) as [Hin _].
  destruct Hview as (Hs & Hb & Hp & Hv). destruct Hi as [Hk Hsl]. pose proof Hv as (Hlk & Hlc & Hn & _). simpl in Hp.
  pose proof Hc as Hc'. unfold byte in Hc'. pose proof (sorted_length L Hs Hb) as H256.
  pose proof (ldelete_length c a L Hin) as El. pose proof (lookup_lt_Some _ _ _ Hsl) as Hilt.
  unfold remove_child48. rewrite (get_okZ ks c _ (proj1 Hc') Hk). cbn [bind]. rewrite put_okZ by lia. cbn [bind].
  rewrite put_okZ by lia. cbn [bind]. replace (Z.to_nat (Z.of_nat (S i) - 1)) with i by lia.
  assert (En : num_children (set_num h (num_children h - 1)) = Z.of_nat (length L - 1)).
  { cbn. rewrite Hn. unfold u8. rewrite Z.mod_small; lia. }
  pose proof (view48_remove h _ ks cs L c a i Hs Hv Hc Hk Hsl En) as Hv'.
  rewrite En. destruct (Z.eqb_spec (Z.of_nat (length L - 1)) 12) as [E12|Hne].
  - apply wp_bind. eapply wp_mono; [apply (alloc_node_ok m NODE16 Hm)|].
    intros [n m'] [(Hh & Hsz & Hf) Hm']. cbn [fst snd] in *. destruct n as [|nh nks ncs| |]; try easy.
    cbn [hdr] in Hh. destruct Hsz as [Hs1 Hs2]. subst nh.
    apply wp_bind. eapply wp_mono; [apply (copy_header_ok (set_num h (num_children h - 1))); assumption|].
    intros nh (Ep & Enh & Est & Hp'). apply wp_bind.
    eapply wp_mono; [apply (pack48_ok _ _ _ nks ncs (ldelete c L)
      (ldelete_sorted _ _ Hs) (ldelete_bytes _ _ Hb) Hv'); lia|].
    intros [[z ks'] cs'] (H1 & H2 & H3 & H4). cbn [fst snd wp] in *.
    split_and!; cbn [fst snd hdr min_kids]; [| |exact Hm'|lia].
    + split_and!; [now apply ldelete_sorted|now apply ldelete_bytes|exact Hp'|].
      split_and!; [exact H1|exact H2|lia|rewrite Enh, En; lia|exact H3|exact H4].
    + etransitivity; [apply (same_prefix_num h (num_children h - 1))|]. split_and!; [exact Ep|exact Est|simpl; congruence].
  - cbn [wp]. split_and!; cbn [fst snd hdr min_kids]; [|apply same_prefix_num|exact Hm|lia].
    split_and!; [now apply ldelete_sorted|now apply ldelete_bytes|exact Hp|exact Hv'].
Qed.

Lemma remove_child256_ok m h cs L c a : view (Node256 h cs) L -> byte c -> (c, a) ∈ L -> plen_ok h -> mem_ok m ->
  (38 <= length L)%nat -> wp (remove_child256 m h cs c) (removed h L c).
Proof.
  intros (Hs & Hb & Hp & Hv) Hc Hin Hpl Hm H38. pose proof Hv as (Hlc & Hn & _). simpl in Hp.
  pose proof Hc as Hc'. unfold byte in Hc'. pose proof (sorted_length L Hs Hb) as H256.
  pose proof (ldelete_length c a L Hin) as El.
  unfold remove_child256. rewrite put_okZ by lia. cbn [bind].
  assert (En : num_children (set_num h (num_children h - 1)) = Z.of_nat (length L - 1)).
  { cbn. rewrite Hn. unfold u8. rewrite Zminus_mod_idemp_l. rewrite Z.mod_small; lia. }
  assert (En' : num_children (set_num h (num_children h - 1)) = u8 (Z.of_nat (length L - 1))).
  { rewrite En. unfold u8. rewrite Z.mod_small; lia. }
  pose proof (view256_remove h _ cs L c a Hs Hv Hc Hin En') as Hv'.
  rewrite En. destruct (Z.eqb_spec (Z.of_nat (length L - 1)) 37) as [E37|Hne].
  - apply wp_bind. eapply wp_mono; [apply (alloc_node_ok m NODE48 Hm)|].
    intros [n m'] [(Hh & _ & Hf) Hm']. cbn [fst snd] in *. destruct n as [| |nh nks ncs|]; try easy.
    destruct Hf as [-> ->]. cbn [hdr] in Hh. subst nh.
    apply wp_bind. eapply wp_mono; [apply (copy_header_ok (set_num h (num_children h - 1))); assumption|].
    intros nh (Ep & Enh & Est & Hp'). apply wp_bind.
    eapply wp_mono; [apply (pack256_ok _ nh _ (ldelete c L)
      (ldelete_sorted _ _ Hs) (ldelete_bytes _ _ Hb) Hv'); [lia|rewrite Enh, En; lia]|].
    intros [[z ks'] cs'] H48. cbn [fst snd wp] in *.
    split_and!; cbn [fst snd hdr min_kids]; [| |exact Hm'|lia].
    + split_and!; [now apply ldelete_sorted|now apply ldelete_bytes|exact Hp'|exact H48].
    + etransitivity; [apply (same_prefix_num h (num_children h - 1))|]. split_and!; [exact Ep|exact Est|simpl; congruence].
  - cbn [wp]. split_and!; cbn [fst snd hdr min_kids]; [|apply same_prefix_num|exact Hm|lia].
    split_and!; [now apply ldelete_sorted|now apply ldelete_bytes|exact Hp|exact Hv'].
Qed.
End Update.

(** * The children in key order *)

Definition imap {A B} (f : A -> B) (n : inner A) : inner B :=
  match n with
  | Node4 h ks cs => Node4 h ks (map (option_map f) cs)
  | Node16 h ks cs => Node16 h ks (map (option_map f) cs)
  | Node48 h ks cs => Node48 h ks (map (option_map f) cs)
  | Node256 h cs => Node256 h (map (option_map f) cs)
  end.

Definition kids {A} (n : inner A) : list (Z * A) :=
  match n with
  | Node4 h ks cs | Node16 h ks cs =>
      omap (fun x => pair x.1 <$> x.2) (zip (take (Z.to_nat (num_children h)) ks) cs)
  | Node48 _ ks cs =>
      omap (fun c => match ks !! Z.to_nat c with
                     | Some k => if k =? 0 then None else pair c <$> mjoin (cs !! Z.to_nat (k - 1))
                     | None => None
                     end) (seqZ 0 256)
  | Node256 _ cs => omap (fun c => pair c <$> mjoin (cs !! Z.to_nat c)) (seqZ 0 256)
  end.

Section Kids.
Context {A B : Type} (f : A -> B).

Lemma kids_imap (n : inner A) : kids (imap f n) = (fun x => (x.1, f x.2)) <$> kids n.
Proof.
  assert (Hl : forall (cs : list (option A)) i, mjoin (map (option_map f) cs !! i) = f <$> mjoin (cs !! i)).
  { intros cs i. change (map (option_map f) cs) with (option_map f <$> cs). rewrite list_lookup_fmap.
    now destruct (cs !! i) as [[a|]|]. }
  assert (Ho : forall (g : Z -> option (Z * A)) (l : list Z),
    omap (fun c => (fun x => (x.1, f x.2)) <$> g c) l = (fun x => (x.1, f x.2)) <$> omap g l).
  { intros g l. induction l as [|c l IH]; [reflexivity|]. cbn. destruct (g c); cbn; rewrite <- IH; reflexivity. }
  destruct n as [h ks cs|h ks cs|h ks cs|h cs]; cbn [imap kids].
  1,2: generalize (take (Z.to_nat (num_children h)) ks); intros l; revert cs;
    induction l as [|k l IH]; intros [|[a|] cs]; cbn; try reflexivity; [f_equal|]; apply IH.
  - rewrite <- Ho. apply list_omap_ext, Forall2_same_length_lookup. split; [reflexivity|].
    intros i x y Hx Hy. rewrite Hx in Hy. injection Hy as <-. destruct (ks !! Z.to_nat x); [|reflexivity].
    destruct (_ =? 0); [reflexivity|]. rewrite Hl. now destruct (mjoin _).
  - rewrite <- Ho. apply list_omap_ext, Forall2_same_length_lookup. split; [reflexivity|].
    intros i x y Hx Hy. rewrite Hx in Hy. injection Hy as <-. rewrite Hl. now destruct (mjoin _).
Qed.
End Kids.

Lemma omap_seqZ_sorted {A} (g : Z -> option (Z * A)) (m n : Z) : (forall c x, g c = Some x -> x.1 = c) ->
  sorted (omap g (seqZ m n)).
Proof.
  intros Hg. unfold seqZ. generalize (Z.to_nat n). intros k. revert m. induction k as [|k IH]; intros m; [constructor|].
  rewrite <- cons_seq, fmap_cons, <- fmap_S_seq. rewrite <- list_fmap_compose.
  replace ((fun i : nat => Z.of_nat i + m) ∘ S <$> seq 0 k) with ((fun i : nat => Z.of_nat i + (m + 1)) <$> seq 0 k).
  2:{ apply list_fmap_ext. intros i x _. simpl. lia. }
  cbn [omap list_omap]. destruct (g (Z.of_nat 0 + m)) as [[d a]|] eqn:E; [|apply IH].
  apply sorted_cons. split; [apply IH|]. rewrite Forall_forall. intros [e b] Hx.
  apply list_elem_of_omap in Hx as (y & Hy & Hgy). apply Hg in E, Hgy. simpl in *.
  apply list_elem_of_fmap in Hy as (j & -> & _). lia.
Qed.

Lemma view_kids {A} (n : inner A) L : view n L -> kids n = L.
Proof.
  intros (Hs & Hb & _ & Hv). destruct n as [h ks cs|h ks cs|h ks cs|h cs]; cbn [kids].
  1,2: destruct Hv as (_ & _ & _ & Hn & Hk & Hc); rewrite Hn, Nat2Z.id, Hk; clear -Hc;
    revert cs Hc; induction L as [|[c a] L IH]; intros [|o cs] Hc; cbn in *; try easy;
    injection Hc as -> Hc; cbn; f_equal; now apply IH.
  - destruct Hv as (_ & _ & _ & _ & Hm & Hr & _). apply sorted_ext; [|exact Hs|].
    + apply omap_seqZ_sorted. intros c [d a] H. destruct (ks !! Z.to_nat c); [|easy]. destruct (_ =? 0); [easy|].
      apply fmap_Some in H as (? & _ & [= -> _]). reflexivity.
    + intros [c a]. rewrite Hm, list_elem_of_omap. split.
      * intros (d & Hd & H). apply elem_of_seqZ in Hd. destruct (ks !! Z.to_nat d) as [k|] eqn:Ek; [|easy].
        destruct (Z.eqb_spec k 0) as [|Hk]; [easy|]. apply fmap_Some in H as (b & H & [= -> ->]).
        split; [unfold byte; lia|]. destruct (Hr _ _ Ek) as [|(p & b' & -> & Hp)]; [easy|]. exists p. split; [exact Ek|].
        replace (Z.to_nat (Z.of_nat (S p) - 1)) with p in H by lia. rewrite Hp in H |- *. simpl in H. congruence.
      * intros (Hc & p & Hp1 & Hp2). unfold byte in Hc. exists c. split; [apply elem_of_seqZ; lia|].
        rewrite Hp1, (proj2 (Z.eqb_neq _ _)) by lia. replace (Z.to_nat (Z.of_nat (S p) - 1)) with p by lia.
        now rewrite Hp2.
  - destruct Hv as (_ & _ & Hm). apply sorted_ext; [|exact Hs|].
    + apply omap_seqZ_sorted. intros c [d a] H. apply fmap_Some in H as (? & _ & [= -> _]). reflexivity.
    + intros [c a]. rewrite Hm, list_elem_of_omap. unfold byte. split.
      * intros (d & Hd & H). apply elem_of_seqZ in Hd. apply fmap_Some in H as (b & H & [= -> ->]).
        split; [lia|]. destruct (cs !! Z.to_nat d) as [[]|]; simpl in H; congruence.
      * intros (Hc & Hp). exists c. split; [apply elem_of_seqZ; lia|]. now rewrite Hp.
Qed.
