(* ===== verification/Art.v ===== *)
(** The kernel's adaptive radix tree, [src/kernel/src/klib/algorithm/art.c]: search,
    insertion, deletion, ordered iteration, prefix iteration and destruction on the
    nodes of [ArtNode].  A pointer with the tag bit is a [Leaf], any other non-NULL
    pointer a [Node]; the store through [ref] is the node an operation returns. *)
From stdpp Require Import base gmap list list_numbers fin_maps.
From Stdlib Require Import ZArith Lia Sorting.Sorted.
From S2P Require Import Prelude Words Memory ArtNode.

Open Scope Z_scope.
Open Scope c_scope.

(** * Data *)

(** [art_leaf]; [key_len] is the length of the flexible array [key]. *)
Record art_leaf : Type := ArtLeaf { value : Z; key : list Z }.

Definition key_len (l : art_leaf) : Z := Z.of_nat (length (key l)).
Definition klen (k : list Z) : Z := Z.of_nat (length k).

Inductive art : Type :=
| Leaf (l : art_leaf)
| Node (n : inner art).

Record art_tree : Type := ArtTree { root : option art; size : Z }.

Definition art_tree_init : art_tree := ArtTree None 0.
Definition art_size (t : art_tree) : Z := size t.

(** * Comparing keys *)

(** The number of equal bytes of [a + oa] and [b + ob], looking at [left] of them. *)
Fixpoint mismatch (a : list Z) (oa : Z) (b : list Z) (ob : Z) (idx : Z) (left : nat) : res Z :=
  match left with
  | O => Ok idx
  | S left' =>
      let* x := get a (oa + idx) in
      let* y := get b (ob + idx) in
      if negb (x =? y) then Ok idx else mismatch a oa b ob (idx + 1) left'
  end.

Definition check_prefix (h : art_node) (k : list Z) (depth : Z) : res Z :=
  let max_cmp := _min__art (_min__art (i32 (partial_len h)) MAX_PREFIX_LEN) (klen k - depth) in
  mismatch (partial h) 0 k depth 0 (Z.to_nat max_cmp).

(** [_memcmp] compares the arrays; see [Memory.memcmp_ok] for its result. *)
Definition leaf_matches (l : art_leaf) (k : list Z) : Z :=
  if negb (key_len l =? u32 (klen k)) then 1 else ref_memcmp (key l) k.

Definition leaf_prefix_matches (l : art_leaf) (p : list Z) : Z :=
  if key_len l <? u32 (klen p) then 1 else ref_memcmp (take (length p) (key l)) p.

Definition longest_common_prefix (l1 l2 : art_leaf) (depth : Z) : res Z :=
  let max_cmp := _min__art (i32 (key_len l1)) (i32 (key_len l2)) - depth in
  mismatch (key l1) depth (key l2) depth 0 (Z.to_nat max_cmp).

(** [(depth < key_len) ? key[depth] : 0] *)
Definition key_byte (k : list Z) (depth : Z) : res Z :=
  if depth <? klen k then get k depth else Ok 0.

(** * Searching *)

(** The slot value behind the pointer [find_child] returns. *)
Definition child_at (n : inner art) (i : option Z) : res (option art) :=
  match i with
  | Some i => get (slots n) i
  | None => Ok None
  end.

(** A pointer that is NULL is the value 0. *)
Definition search_step (k : list Z) (s : option art * Z) : res ((option art * Z) + Z) :=
  let '(n, depth) := s in
  match n with
  | None => Ok (inr 0)
  | Some (Leaf l) => Ok (inr (if leaf_matches l k =? 0 then value l else 0))
  | Some (Node b) =>
      let h := hdr b in
      let* (bail, depth) :=
        if partial_len h =? 0 then Ok (false, depth)
        else let* prefix_len := check_prefix h k depth in
             if negb (prefix_len =? _min__art MAX_PREFIX_LEN (i32 (partial_len h))) then Ok (true, depth)
             else Ok (false, depth + partial_len h) in
      if bail : bool then Ok (inr 0)
      else
        let* c := key_byte k depth in
        let* i := find_child b c in
        let* child := child_at b i in
        Ok (inl (child, depth + 1))
  end.

Definition art_search (fuel : nat) (t : art_tree) (k : list Z) : res Z :=
  loop fuel (search_step k) (root t, 0).

(** [while (!a[idx]) idx++], and downwards from the end. *)
Fixpoint first_set {B} (is_set : B -> bool) (l : list B) (idx : Z) : res Z :=
  match l with
  | [] => Fault
  | x :: l' => if is_set x then Ok idx else first_set is_set l' (idx + 1)
  end.

Definition last_set {B} (is_set : B -> bool) (l : list B) : res Z :=
  let* i := first_set is_set (rev l) 0 in Ok (Z.of_nat (length l) - 1 - i).

Definition nonzero (k : Z) : bool := negb (k =? 0).
Definition nonnull (o : option art) : bool := match o with Some _ => true | None => false end.

Definition first_child (b : inner art) : res (option art) :=
  match b with
  | Node4 _ _ cs | Node16 _ _ cs => get cs 0
  | Node48 _ ks cs =>
      let* idx := first_set nonzero ks 0 in
      let* k := get ks idx in get cs (k - 1)
  | Node256 _ cs => let* idx := first_set nonnull cs 0 in get cs idx
  end.

Definition last_child (b : inner art) : res (option art) :=
  match b with
  | Node4 h _ cs | Node16 h _ cs => get cs (num_children h - 1)
  | Node48 _ ks cs =>
      let* idx := last_set nonzero ks in
      let* k := get ks idx in get cs (k - 1)
  | Node256 _ cs => let* idx := last_set nonnull cs in get cs idx
  end.

Definition descend (next : inner art -> res (option art)) (n : option art) : res (option art + option art_leaf) :=
  match n with
  | None => Ok (inr None)
  | Some (Leaf l) => Ok (inr (Some l))
  | Some (Node b) => let* c := next b in Ok (inl c)
  end.

Definition minimum (fuel : nat) (n : option art) : res (option art_leaf) := loop fuel (descend first_child) n.
Definition maximum (fuel : nat) (n : option art) : res (option art_leaf) := loop fuel (descend last_child) n.
Definition art_minimum (fuel : nat) (t : art_tree) : res (option art_leaf) := minimum fuel (root t).
Definition art_maximum (fuel : nat) (t : art_tree) : res (option art_leaf) := maximum fuel (root t).

(** The leaf [minimum] returns, dereferenced. *)
Definition the_minimum (fuel : nat) (b : inner art) : res art_leaf :=
  let* l := minimum fuel (Some (Node b)) in
  match l with
  | Some l => Ok l
  | None => Fault
  end.

Definition prefix_mismatch (fuel : nat) (b : inner art) (k : list Z) (depth : Z) : res Z :=
  let h := hdr b in
  let max_cmp := _min__art (_min__art MAX_PREFIX_LEN (i32 (partial_len h))) (klen k - depth) in
  let* idx := mismatch (partial h) 0 k depth 0 (Z.to_nat max_cmp) in
  if idx <? max_cmp then Ok idx
  else if MAX_PREFIX_LEN <? partial_len h then
    let* l := the_minimum fuel b in
    let max_cmp := _min__art (_min__art (i32 (key_len l)) (klen k) - depth) (i32 (partial_len h)) in
    mismatch (key l) depth k depth idx (Z.to_nat (max_cmp - idx))
  else Ok idx.

(** * Insertion *)

Section Update.
Context `{!ArrayMove}.

(** [kmalloc]; on failure the stores to the leaf go through NULL. *)
Definition make_leaf (m : art_mem art) (k : list Z) (v : Z) : res (art_leaf * art_mem art) :=
  let '(ok, al) := kmalloc (outcomes m) in
  if ok : bool then Ok (ArtLeaf v k, ArtMem (art_cache_n4 m) (art_cache_n16 m) al) else Fault.

(** Copying [n] bytes from [src + off] to the start of an array. *)
Definition copy_from {B} (dst src : list B) (off n : Z) : res (list B) :=
  copy_in dst (drop (Z.to_nat off) src) n.

Definition add_leaf4 (m : art_mem art) (b : inner art) (c : Z) (child : art) : res (inner art * art_mem art) :=
  match b with
  | Node4 h ks cs => add_child4 m h ks cs c child
  | _ => Fault
  end.

(** A leaf with another key is in the way: a NODE4 takes both. *)
Definition split_leaf (m : art_mem art) (l : art_leaf) (k : list Z) (v : Z) (depth : Z) : res (art * art_mem art) :=
  let* (new_node, m) := alloc_node m NODE4 in
  let* (l2, m) := make_leaf m k v in
  let* longest_prefix := longest_common_prefix l l2 depth in
  let nh := hdr new_node in
  let* p := copy_from (partial nh) k depth (_min__art MAX_PREFIX_LEN longest_prefix) in
  let new_node := with_hdr new_node (set_prefix nh longest_prefix p) in
  let* c1 := key_byte (key l) (depth + longest_prefix) in
  let* (new_node, m) := add_leaf4 m new_node c1 (Leaf l) in
  let* c2 := key_byte k (depth + longest_prefix) in
  let* (new_node, m) := add_leaf4 m new_node c2 (Leaf l2) in
  Ok (Node new_node, m).

(** The node's prefix differs from the key at [prefix_diff]: a NODE4 with the common
    part takes the node, shortened, and the new leaf.  The node is a pointer, so what
    is stored in it after [add_child4] is in the tree as well. *)
Definition split_prefix (fuel : nat) (m : art_mem art) (b : inner art) (k : list Z) (v : Z) (depth prefix_diff : Z)
    : res (art * art_mem art) :=
  let* (new_node, m) := alloc_node m NODE4 in
  let nh := hdr new_node in
  let h := hdr b in
  let* p := copy_from (partial nh) (partial h) 0 (_min__art MAX_PREFIX_LEN prefix_diff) in
  let new_node := with_hdr new_node (set_prefix nh prefix_diff p) in
  let* (new_node, m) :=
    if partial_len h <=? MAX_PREFIX_LEN then
      let* c := get (partial h) prefix_diff in
      let pl := u32 (partial_len h - (prefix_diff + 1)) in
      let* p' := move 1 (partial h) 0 (prefix_diff + 1) (_min__art MAX_PREFIX_LEN (i32 pl)) in
      add_leaf4 m new_node c (Node (with_hdr b (set_prefix h pl p')))
    else
      let pl := u32 (partial_len h - (prefix_diff + 1)) in
      let* l := the_minimum fuel b in
      let* c := key_byte (key l) (depth + prefix_diff) in
      let* p' := copy_from (partial h) (key l) (depth + prefix_diff + 1) (_min__art MAX_PREFIX_LEN (i32 pl)) in
      add_leaf4 m new_node c (Node (with_hdr b (set_prefix h pl p'))) in
  let* (l, m) := make_leaf m k v in
  let* c := key_byte k (depth + prefix_diff) in
  let* (new_node, m) := add_leaf4 m new_node c (Leaf l) in
  Ok (Node new_node, m).

(** The result: what [*ref] is afterwards, the returned pointer and [*old]. *)
Fixpoint art_insert_internal (fuel : nat) (m : art_mem art) (n : option art) (k : list Z) (v : Z) (depth : Z)
    (replace : bool) : res (art * art_mem art * Z * bool) :=
  match fuel with
  | O => OutOfFuel
  | S fuel' =>
      match n with
      | None => let* (l, m) := make_leaf m k v in Ok (Leaf l, m, 0, false)
      | Some (Leaf l) =>
          if leaf_matches l k =? 0 then
            Ok (Leaf (if replace then ArtLeaf v (key l) else l), m, value l, true)
          else
            let* (t, m) := split_leaf m l k v depth in Ok (t, m, 0, false)
      | Some (Node b) =>
          let h := hdr b in
          let* prefix_diff := if partial_len h =? 0 then Ok 0 else prefix_mismatch fuel' b k depth in
          if u32 prefix_diff <? partial_len h then
            let* (t, m) := split_prefix fuel' m b k v depth prefix_diff in Ok (t, m, 0, false)
          else
            let depth := depth + partial_len h in
            let* c := key_byte k depth in
            let* i := find_child b c in
            match i with
            | Some i =>
                let* child := get (slots b) i in
                let* (child, m, ret, old) := art_insert_internal fuel' m child k v (depth + 1) replace in
                let* cs := put (slots b) i (Some child) in
                Ok (Node (set_slots b cs), m, ret, old)
            | None =>
                let* (l, m) := make_leaf m k v in
                let* (b, m) := add_child m b c (Leaf l) in
                Ok (Node b, m, 0, false)
            end
      end
  end.

Definition insert_with (replace : bool) (fuel : nat) (m : art_mem art) (t : art_tree) (k : list Z) (v : Z)
    : res (Z * art_tree * art_mem art) :=
  let* (n, m, ret, old) := art_insert_internal fuel m (root t) k v 0 replace in
  Ok (ret, ArtTree (Some n) (if old : bool then size t else u64 (size t + 1)), m).

Definition art_insert := insert_with true.
Definition art_insert_no_replace := insert_with false.

(** * Deletion *)

(** [__memcpy] of [n] bytes to [dst + off]. *)
Definition copy_at {B} (dst : list B) (off : Z) (src : list B) (n : Z) : res (list B) :=
  if (off + n <=? Z.of_nat (length dst)) && (n <=? Z.of_nat (length src))
  then Ok (take (Z.to_nat off) dst ++ take (Z.to_nat n) src ++ drop (Z.to_nat (off + n)) dst) else Fault.

(** The prefix of the only child of a NODE4 with header [h] and key [k0]. *)
Definition concat_prefix (h : art_node) (k0 : Z) (ch : art_node) : res art_node :=
  let prefix := i32 (partial_len h) in
  let* (p, prefix) :=
    if prefix <? MAX_PREFIX_LEN then let* p := put (partial h) prefix k0 in Ok (p, prefix + 1)
    else Ok (partial h, prefix) in
  let* (p, prefix) :=
    if prefix <? MAX_PREFIX_LEN then
      let sub_prefix := _min__art (i32 (partial_len ch)) (MAX_PREFIX_LEN - prefix) in
      let* p := copy_at p prefix (partial ch) sub_prefix in Ok (p, prefix + sub_prefix)
    else Ok (p, prefix) in
  let* cp := copy_in (partial ch) p (_min__art prefix MAX_PREFIX_LEN) in
  Ok (set_prefix ch (partial_len ch + (partial_len h + 1)) cp).

Definition remove_child4 (m : art_mem art) (h : art_node) (keys : list Z) (children : list (option art)) (pos : Z)
    : res (art * art_mem art) :=
  let* (h, keys, children) := remove_at h keys children pos in
  if num_children h =? 1 then
    let* child := get children 0 in
    match child with
    | None => Fault
    | Some (Leaf l) => Ok (Leaf l, free_node m (Node4 h keys children))
    | Some (Node cb) =>
        let* k0 := get keys 0 in
        let* ch := concat_prefix h k0 (hdr cb) in
        Ok (Node (with_hdr cb ch), free_node m (Node4 h keys children))
    end
  else Ok (Node (Node4 h keys children), m).

Definition remove_child (m : art_mem art) (b : inner art) (c : Z) (i : Z) : res (art * art_mem art) :=
  match b with
  | Node4 h ks cs => remove_child4 m h ks cs i
  | Node16 h ks cs => let* (b, m) := remove_child16 m h ks cs i in Ok (Node b, m)
  | Node48 h ks cs => let* (b, m) := remove_child48 m h ks cs c in Ok (Node b, m)
  | Node256 h cs => let* (b, m) := remove_child256 m h cs c in Ok (Node b, m)
  end.

(** The result: what [*ref] is afterwards and the leaf taken out. *)
Fixpoint art_delete_internal (fuel : nat) (m : art_mem art) (n : option art) (k : list Z) (depth : Z)
    : res (option art * art_mem art * option art_leaf) :=
  match fuel with
  | O => OutOfFuel
  | S fuel' =>
      match n with
      | None => Ok (None, m, None)
      | Some (Leaf l) =>
          if leaf_matches l k =? 0 then Ok (None, m, Some l) else Ok (n, m, None)
      | Some (Node b) =>
          let h := hdr b in
          let* (bail, depth) :=
            if partial_len h =? 0 then Ok (false, depth)
            else let* prefix_len := check_prefix h k depth in
                 if negb (prefix_len =? _min__art MAX_PREFIX_LEN (i32 (partial_len h))) then Ok (true, depth)
                 else Ok (false, depth + partial_len h) in
          if bail : bool then Ok (n, m, None)
          else
            let* c := key_byte k depth in
            let* i := find_child b c in
            match i with
            | None => Ok (n, m, None)
            | Some i =>
                let* child := get (slots b) i in
                match child with
                | Some (Leaf l) =>
                    if leaf_matches l k =? 0 then
                      let* (t, m) := remove_child m b c i in Ok (Some t, m, Some l)
                    else Ok (n, m, None)
                | _ =>
                    let* (child, m, l) := art_delete_internal fuel' m child k (depth + 1) in
                    let* cs := put (slots b) i child in
                    Ok (Some (Node (set_slots b cs)), m, l)
                end
            end
      end
  end.

Definition art_delete (fuel : nat) (m : art_mem art) (t : art_tree) (k : list Z) : res (Z * art_tree * art_mem art) :=
  let* (n, m, l) := art_delete_internal fuel m (root t) k 0 in
  match l with
  | Some l => Ok (value l, ArtTree n (u64 (size t - 1)), m)
  | None => Ok (0, ArtTree n (size t), m)
  end.
End Update.

(** * Iteration *)

Section Iteration.
Context {U : Type} (cb : list Z -> Z -> U -> Z * U).

(** The callback on a leaf; it gets the key and the value and changes [data]. *)
Definition call (l : art_leaf) (u : U) : Z * U := cb (key l) (value l) u.

(** [res = recursive_iter(child); if (res) return res;] for the children in order. *)
Definition iter_child (rec : option art -> U -> res (Z * U)) (child : option art) (s : Z * U) : res (Z * U) :=
  let '(r, u) := s in
  if negb (r =? 0) then Ok (r, u) else rec child u.

Fixpoint recursive_iter (fuel : nat) (n : option art) (u : U) : res (Z * U) :=
  match fuel with
  | O => OutOfFuel
  | S fuel' =>
      match n with
      | None => Ok (0, u)
      | Some (Leaf l) => Ok (call l u)
      | Some (Node (Node4 h _ cs)) | Some (Node (Node16 h _ cs)) =>
          for_up (Z.to_nat (num_children h)) 0 (fun i s =>
            let* c := get cs i in iter_child (recursive_iter fuel') c s) (0, u)
      | Some (Node (Node48 _ ks cs)) =>
          for_up 256 0 (fun i s =>
            let* idx := get ks i in
            if idx =? 0 then Ok s
            else let* c := get cs (idx - 1) in iter_child (recursive_iter fuel') c s) (0, u)
      | Some (Node (Node256 _ cs)) =>
          for_up 256 0 (fun i s =>
            let* c := get cs i in
            if nonnull c then iter_child (recursive_iter fuel') c s else Ok s) (0, u)
      end
  end.

(** [while (e->idx < 256 && !a[e->idx]) e->idx++] *)
Definition skip_unset {B} (is_set : B -> bool) (l : list B) (idx : Z) : res Z :=
  loop 257 (fun idx => if idx <? 256 then let* x := get l idx in
                         if is_set x then Ok (inr idx) else Ok (inl (idx + 1))
                       else Ok (inr idx)) idx.

(** The next child of a node from the cursor [idx] on, and the cursor behind it. *)
Definition next_child (n : inner art) (idx : Z) : res (option art * Z) :=
  match n with
  | Node4 h _ cs | Node16 h _ cs =>
      if idx <? num_children h then let* c := get cs idx in Ok (c, idx + 1) else Ok (None, idx)
  | Node48 _ ks cs =>
      let* idx := skip_unset nonzero ks idx in
      if idx <? 256 then
        let* k := get ks idx in
        let* c := get cs (k - 1) in Ok (c, idx + 1)
      else Ok (None, idx)
  | Node256 _ cs =>
      let* idx := skip_unset nonnull cs idx in
      if idx <? 256 then let* c := get cs idx in Ok (c, idx + 1) else Ok (None, idx)
  end.

(** Room for [need] frames: the capacity doubles from 64; 58 doublings reach the
    largest size. *)
Definition art_frame_reserve (al : alloc) (cap need : Z) : res (bool * Z * alloc) :=
  if need <=? cap then Ok (true, cap, al)
  else
    let* ncap := loop 60 (fun ncap => if ncap <? need then Ok (inl (u64 (Z.shiftl ncap 1))) else Ok (inr ncap))
                  (if cap =? 0 then 64 else cap) in
    let '(ok, al) := kmalloc al in
    if ok : bool then Ok (true, ncap, al) else Ok (false, cap, al).

(** [art_frame]; the stack of frames with the top first, its capacity and the
    allocations to come. *)
Record iter_state : Type := IterState { st : list (art * Z); cap : Z; al : alloc; data : U }.

Definition iter_step (s : iter_state) : res (iter_state + (Z * U * alloc)) :=
  match st s with
  | [] => Ok (inr (0, data s, al s))
  | (Leaf l, _) :: rest =>
      let '(r, u) := call l (data s) in
      if negb (r =? 0) then Ok (inr (r, u, al s)) else Ok (inl (IterState rest (cap s) (al s) u))
  | (Node n, idx) :: rest =>
      let* (child, idx) := next_child n idx in
      match child with
      | Some c =>
          let top := Z.of_nat (length (st s)) in
          let* (ok, cap, al) := art_frame_reserve (al s) (cap s) (top + 1) in
          if ok : bool then Ok (inl (IterState ((c, 0) :: (Node n, idx) :: rest) cap al (data s))) else Fault
      | None => Ok (inl (IterState rest (cap s) (al s) (data s)))
      end
  end.

Definition iter_nodes (fuel : nat) (al : alloc) (root : option art) (u : U) : res (Z * U * alloc) :=
  match root with
  | None => Ok (0, u, al)
  | Some n =>
      let* (ok, cap, al) := art_frame_reserve al 0 1 in
      if ok : bool then loop fuel iter_step (IterState [(n, 0)] cap al u)
      else let* (r, u) := recursive_iter fuel (Some n) u in Ok (r, u, al)
  end.

Definition art_iter (fuel : nat) (al : alloc) (t : art_tree) (u : U) : res (Z * U * alloc) :=
  iter_nodes fuel al (root t) u.

(** Iteration over the keys with a given prefix. *)
Definition prefix_step (fuel : nat) (al : alloc) (p : list Z) (u : U) (s : option art * Z)
    : res ((option art * Z) + (Z * U * alloc)) :=
  let '(n, depth) := s in
  match n with
  | None => Ok (inr (0, u, al))
  | Some (Leaf l) =>
      if leaf_prefix_matches l p =? 0 then let '(r, u) := call l u in Ok (inr (r, u, al)) else Ok (inr (0, u, al))
  | Some (Node b) =>
      let h := hdr b in
      if depth =? klen p then
        let* l := the_minimum fuel b in
        if leaf_prefix_matches l p =? 0 then let* r := iter_nodes fuel al n u in Ok (inr r) else Ok (inr (0, u, al))
      else
        let* (stop, depth) :=
          if partial_len h =? 0 then Ok (None, depth)
          else
            let* prefix_len := prefix_mismatch fuel b p depth in
            let prefix_len := if partial_len h <? u32 prefix_len then i32 (partial_len h) else prefix_len in
            if prefix_len =? 0 then Ok (Some (0, u, al), depth)
            else if depth + prefix_len =? klen p then
              let* r := iter_nodes fuel al n u in Ok (Some r, depth)
            else Ok (None, depth + partial_len h) in
        match stop with
        | Some r => Ok (inr r)
        | None =>
            let* c := key_byte p depth in
            let* i := find_child b c in
            let* child := child_at b i in
            Ok (inl (child, depth + 1))
        end
  end.

Definition art_iter_prefix (fuel : nat) (al : alloc) (t : art_tree) (p : list Z) (u : U) : res (Z * U * alloc) :=
  loop fuel (prefix_step fuel al p u) (root t, 0).
End Iteration.

(** * Destruction *)

(** The blocks freed: leaves and inner nodes. *)
Fixpoint destroy_node_recur (fuel : nat) (n : option art) (freed : list art) : res (list art) :=
  match fuel with
  | O => OutOfFuel
  | S fuel' =>
      match n with
      | None => Ok freed
      | Some (Leaf l) => Ok (freed ++ [Leaf l])
      | Some (Node b) =>
          let* freed :=
            match b with
            | Node4 h _ cs | Node16 h _ cs =>
                for_up (Z.to_nat (num_children h)) 0 (fun i fr =>
                  let* c := get cs i in destroy_node_recur fuel' c fr) freed
            | Node48 _ ks cs =>
                for_up 256 0 (fun i fr =>
                  let* idx := get ks i in
                  if idx =? 0 then Ok fr
                  else let* c := get cs (idx - 1) in destroy_node_recur fuel' c fr) freed
            | Node256 _ cs =>
                for_up 256 0 (fun i fr =>
                  let* c := get cs i in if nonnull c then destroy_node_recur fuel' c fr else Ok fr) freed
            end in
          Ok (freed ++ [Node b])
      end
  end.

Definition destroy_step (s : iter_state (U := list art)) : res (iter_state + (list art * alloc)) :=
  match st s with
  | [] => Ok (inr (data s, al s))
  | (Leaf l, _) :: rest => Ok (inl (IterState rest (cap s) (al s) (data s ++ [Leaf l])))
  | (Node n, idx) :: rest =>
      let* (child, idx) := next_child n idx in
      match child with
      | Some c =>
          let top := Z.of_nat (length (st s)) in
          let* (ok, cap, al) := art_frame_reserve (al s) (cap s) (top + 1) in
          if ok : bool then Ok (inl (IterState ((c, 0) :: (Node n, idx) :: rest) cap al (data s))) else Fault
      | None => Ok (inl (IterState rest (cap s) (al s) (data s ++ [Node n])))
      end
  end.

Definition destroy_node (fuel : nat) (al : alloc) (root : option art) : res (list art * alloc) :=
  match root with
  | None => Ok ([], al)
  | Some n =>
      let* (ok, cap, al) := art_frame_reserve al 0 1 in
      if ok : bool then loop fuel destroy_step (IterState [(n, 0)] cap al [])
      else let* freed := destroy_node_recur fuel (Some n) [] in Ok (freed, al)
  end.

Definition art_tree_destroy (fuel : nat) (m : art_mem art) (t : art_tree) : res (list art * art_mem art) :=
  let* (freed, al) := destroy_node fuel (outcomes m) (root t) in
  Ok (freed, art_cache_drain (ArtMem (art_cache_n4 m) (art_cache_n16 m) al)).
