(* ===== verification/ArtTree.v ===== *)
(** Correctness of the adaptive radix tree of [Art]: the invariant of the tree, the
    finite map it stands for, and search, insertion, deletion and iteration against
    that map.  Keys are compared with a terminating 0 behind them, which is what the
    code reads when a key is exhausted. *)
From stdpp Require Import base gmap list list_numbers fin_maps.
From Stdlib Require Import ZArith Lia Sorting.Sorted.
From S2P Require Import Prelude Words Memory ArtNode Art.

Open Scope Z_scope.
Open Scope c_scope.

(** * The tree as a list of leaves and as a map *)

Fixpoint leaves (t : art) : list art_leaf :=
  match t with
  | Leaf l => [l]
  | Node n => concat (snd <$> kids (imap leaves n))
  end.

(** The number of nodes on the longest path. *)
Fixpoint height (t : art) : nat :=
  match t with
  | Leaf _ => 1
  | Node n => S (max_list (snd <$> kids (imap height n)))
  end.

Definition root_leaves (r : option art) : list art_leaf := match r with Some t => leaves t | None => [] end.
Definition root_height (r : option art) : nat := match r with Some t => height t | None => 0 end.

Definition tmap (t : art_tree) : gmap (list Z) Z :=
  list_to_map ((fun l => (key l, value l)) <$> root_leaves (root t)).

(** * The invariant *)

(** The key with its terminator. *)
Definition vk (k : list Z) : list Z := k ++ [0].

Definition key_ok (k : list Z) : Prop := Forall byte k /\ klen k < 2 ^ 31.

(** [wf path t]: [t] is the subtree for the (terminated) keys that start with
    [path].  The node's prefix [p] is stored up to ten bytes of it. *)
Inductive wf : list Z -> art -> Prop :=
| wf_leaf path l : path `prefix_of` vk (key l) -> key_ok (key l) -> wf path (Leaf l)
| wf_node path n L p : view n L -> (min_kids n <= length L)%nat -> partial_len (hdr n) = klen p ->
    stored (hdr n) = take 10 p -> (forall c t, (c, t) ∈ L -> wf (path ++ p ++ [c]) t) -> wf path (Node n).

Definition wf_root (r : option art) : Prop := match r with Some t => wf [] t | None => True end.

Definition tree_ok (t : art_tree) : Prop :=
  wf_root (root t) /\ size t = u64 (Z.of_nat (base.size (tmap t))).

(** A key that may join the tree: with the terminators, it is not a prefix of another
    key, nor another key of it. *)
Definition compat (k : list Z) (ls : list art_leaf) : Prop :=
  forall l, l ∈ ls -> key l = k \/ (~ vk (key l) `prefix_of` vk k /\ ~ vk k `prefix_of` vk (key l)).

(** * Leaves *)

Lemma kids_snd {B} (f : art -> B) n L : view n L -> snd <$> kids (imap f n) = f <$> L.*2.
Proof. intros Hv. rewrite kids_imap, (view_kids n L Hv), <- !list_fmap_compose. reflexivity. Qed.

Lemma elem_leaves n L l : view n L -> l ∈ leaves (Node n) <-> exists c t, (c, t) ∈ L /\ l ∈ leaves t.
Proof.
  intros Hv. cbn [leaves]. rewrite (kids_snd leaves n L Hv). rewrite list_elem_of_In, in_concat. split.
  - intros (x & Hx & Hl). apply list_elem_of_In in Hx, Hl. apply list_elem_of_fmap in Hx as (t & -> & Ht).
    apply list_elem_of_fmap in Ht as ([c t'] & -> & Hct). eauto.
  - intros (c & t & Hct & Hl). exists (leaves t). rewrite <- !list_elem_of_In. split; [|exact Hl].
    apply list_elem_of_fmap. exists t. split; [reflexivity|]. apply list_elem_of_fmap. now exists (c, t).
Qed.

Lemma height_child n L c t : view n L -> (c, t) ∈ L -> (height t < height (Node n))%nat.
Proof.
  intros Hv Hct. cbn [height]. rewrite (kids_snd height n L Hv).
  assert (H : height t ∈ height <$> L.*2).
  { apply list_elem_of_fmap. exists t. split; [reflexivity|]. apply list_elem_of_fmap. now exists (c, t). }
  apply max_list_elem_of_le in H. lia.
Qed.

Lemma height_pos t : (1 <= height t)%nat.
Proof. destruct t; cbn [height]; lia. Qed.

Lemma wf_leaf_in path t l : wf path t -> l ∈ leaves t -> path `prefix_of` vk (key l) /\ key_ok (key l).
Proof.
  induction 1 as [path l' Hp Hk|path n L p Hv Hmin Hpl Hst Hc IH].
  - cbn [leaves]. intros ->%list_elem_of_singleton. now split.
  - rewrite (elem_leaves n L l Hv). intros (c & t & Hct & Hl). destruct (IH c t Hct Hl) as [H1 H2].
    split; [|exact H2]. etransitivity; [|exact H1]. now exists (p ++ [c]).
Qed.

Lemma wf_nonempty path t : wf path t -> exists l, l ∈ leaves t.
Proof.
  induction 1 as [path l' Hp Hk|path n L p Hv Hmin Hpl Hst Hc IH].
  - exists l'. cbn. now apply list_elem_of_singleton.
  - destruct L as [|[c t] L]; [destruct n; simpl in Hmin; lia|].
    destruct (IH c t ltac:(left)) as [l Hl]. exists l. apply (elem_leaves n _ l Hv). exists c, t. split; [left|exact Hl].
Qed.

(** An entry of a list, by its prefix. *)
Lemma prefix_byte (path p : list Z) c k : (path ++ p ++ [c]) `prefix_of` k ->
  k !! (length path + length p)%nat = Some c.
Proof.
  intros [z ->]. rewrite <- !app_assoc. rewrite lookup_app_r by lia. rewrite lookup_app_r by lia.
  now replace (length path + length p - length path - length p)%nat with O by lia.
Qed.

(** Leaves under different children have different keys, neither a prefix of the other. *)
Lemma wf_apart (path p : list Z) (c1 c2 : Z) (k1 k2 : list Z) : (path ++ p ++ [c1]) `prefix_of` k1 -> (path ++ p ++ [c2]) `prefix_of` k2 ->
  k1 `prefix_of` k2 -> c1 = c2.
Proof.
  intros H1 H2 H12. apply prefix_byte in H1, H2. pose proof (prefix_lookup_Some _ _ _ _ H1 H12). congruence.
Qed.

(** Every inner node has two leaves that are no prefix of each other. *)
Lemma wf_two path n : wf path (Node n) -> exists l1 l2, l1 ∈ leaves (Node n) /\ l2 ∈ leaves (Node n) /\
  ~ vk (key l1) `prefix_of` vk (key l2).
Proof.
  intros Hwf. inversion Hwf as [|? ? L p Hv Hmin Hpl Hst Hc]; subst.
  destruct L as [|[c1 t1] [|[c2 t2] L]]; [destruct n; simpl in Hmin; lia..|].
  assert (H1 : (c1, t1) ∈ (c1, t1) :: (c2, t2) :: L) by left.
  assert (H2 : (c2, t2) ∈ (c1, t1) :: (c2, t2) :: L) by (right; left).
  destruct (wf_nonempty _ _ (Hc _ _ H1)) as [l1 Hl1]. destruct (wf_nonempty _ _ (Hc _ _ H2)) as [l2 Hl2].
  exists l1, l2. split_and!; [apply (elem_leaves _ _ _ Hv); eauto..|]. intros Hpre.
  pose proof (wf_apart path p c1 c2 _ _ (proj1 (wf_leaf_in _ _ _ (Hc _ _ H1) Hl1))
    (proj1 (wf_leaf_in _ _ _ (Hc _ _ H2) Hl2)) Hpre) as E.
  destruct Hv as (Hs & _). apply sorted_cons in Hs as [_ Hf]. inversion Hf; subst. simpl in *. lia.
Qed.

(** The path to an inner node, with its prefix, is shorter than the keys below. *)
Lemma wf_plen path n L p c t l : view n L -> wf (path ++ p ++ [c]) t -> (c, t) ∈ L -> l ∈ leaves t ->
  (length path + length p <= length (key l))%nat.
Proof.
  intros Hv Hwf Hct Hl. destruct (wf_leaf_in _ _ _ Hwf Hl) as [Hp _]. apply prefix_length in Hp.
  unfold vk in Hp. rewrite !length_app in Hp. simpl in Hp. lia.
Qed.

Lemma wf_plen_ok path n L p : view n L -> (min_kids n <= length L)%nat -> partial_len (hdr n) = klen p ->
  (forall c t, (c, t) ∈ L -> wf (path ++ p ++ [c]) t) -> plen_ok (hdr n).
Proof.
  intros Hv Hmin Hpl Hc. destruct L as [|[c t] L]; [destruct n; simpl in Hmin; lia|].
  assert (Hct : (c, t) ∈ (c, t) :: L) by left. destruct (wf_nonempty _ _ (Hc _ _ Hct)) as [l Hl].
  pose proof (wf_plen _ _ _ _ _ _ _ Hv (Hc _ _ Hct) Hct Hl) as Hle.
  destruct (wf_leaf_in _ _ _ (Hc _ _ Hct) Hl) as [_ [_ Hk]]. unfold plen_ok. rewrite Hpl. unfold klen in *. lia.
Qed.

(** * Comparing prefixes *)

(** The length of the longest common prefix. *)
Fixpoint lcp (x y : list Z) : nat :=
  match x, y with
  | a :: x', b :: y' => if a =? b then S (lcp x' y') else O
  | _, _ => O
  end.

Lemma lcp_le x y : (lcp x y <= length x /\ lcp x y <= length y)%nat.
Proof.
  revert y. induction x as [|a x IH]; intros [|b y]; simpl; try lia.
  destruct (a =? b); [destruct (IH y)|]; lia.
Qed.

Lemma lcp_take x y : take (lcp x y) x = take (lcp x y) y.
Proof.
  revert y. induction x as [|a x IH]; intros [|b y]; simpl; try reflexivity.
  destruct (Z.eqb_spec a b) as [-> |]; simpl; [|reflexivity]. f_equal. apply IH.
Qed.

Lemma lcp_diff x y a b : x !! lcp x y = Some a -> y !! lcp x y = Some b -> a <> b.
Proof.
  revert y. induction x as [|c x IH]; intros [|d y]; simpl; try easy.
  destruct (Z.eqb_spec c d) as [-> | Hne]; simpl; [apply IH|congruence].
Qed.

Lemma lcp_prefix x y : x `prefix_of` y -> lcp x y = length x.
Proof.
  intros [z ->]. induction x as [|a x IH]; simpl; [reflexivity|]. now rewrite Z.eqb_refl, IH.
Qed.

Lemma lcp_take_take n x y : lcp (take n x) (take n y) = Nat.min n (lcp x y).
Proof.
  revert x y. induction n as [|n IH]; intros [|a x] [|b y]; simpl; try lia.
  destruct (a =? b); [|lia]. now rewrite IH.
Qed.

Lemma lcp_take_l n x y : (lcp (take n x) y <= lcp x y)%nat.
Proof.
  revert x y. induction n as [|n IH]; intros [|a x] [|b y]; simpl; try lia.
  destruct (a =? b); [|lia]. specialize (IH x y). lia.
Qed.

Lemma lcp_bound n x y : (Nat.min (length x) (length y) <= n)%nat -> lcp (take n x) (take n y) = lcp x y.
Proof. intros H. rewrite lcp_take_take. pose proof (lcp_le x y). lia. Qed.

Lemma lcp_drop n x y : (n <= lcp x y)%nat -> lcp x y = (n + lcp (drop n x) (drop n y))%nat.
Proof.
  revert x y. induction n as [|n IH]; intros [|a x] [|b y]; simpl; try lia.
  destruct (a =? b); [|lia]. intros H. rewrite <- IH by lia. reflexivity.
Qed.

Lemma lcp_app_l x z y : (lcp x y < length x)%nat -> lcp (x ++ z) y = lcp x y.
Proof.
  revert y. induction x as [|a x IH]; intros [|b y]; simpl; try lia.
  destruct (a =? b); [|lia]. intros H. now rewrite IH by lia.
Qed.

Lemma lcp_full x y : lcp x y = length x -> x `prefix_of` y.
Proof. intros H. exists (drop (length x) y). pose proof (lcp_take x y) as E. rewrite H, firstn_all in E. rewrite E at 1. now rewrite take_drop. Qed.

Lemma mismatch_ok a b (oa ob idx left : nat) : (oa + idx + left <= length a)%nat -> (ob + idx + left <= length b)%nat ->
  mismatch a (Z.of_nat oa) b (Z.of_nat ob) (Z.of_nat idx) left =
  Ok (Z.of_nat (idx + lcp (take left (drop (oa + idx) a)) (take left (drop (ob + idx) b)))).
Proof.
  revert idx. induction left as [|left IH]; intros idx Ha Hb; cbn [mismatch].
  { rewrite !take_0. cbn [lcp]. now rewrite Nat.add_0_r. }
  destruct (lookup_lt_is_Some_2 a (oa + idx) ltac:(lia)) as [x Hx].
  destruct (lookup_lt_is_Some_2 b (ob + idx) ltac:(lia)) as [y Hy].
  rewrite <- !Nat2Z.inj_add, (get_ok _ _ _ Hx), (get_ok _ _ _ Hy). cbn [bind].
  rewrite (drop_S _ _ _ Hx), (drop_S _ _ _ Hy). cbn [take lcp].
  destruct (x =? y); cbn [negb]; [|do 2 f_equal; lia].
  replace (Z.of_nat idx + 1) with (Z.of_nat (S idx)) by lia. rewrite IH by lia.
  rewrite !Nat.add_succ_r. reflexivity.
Qed.

(** What the header says about the prefix [p]. *)
Definition has_prefix (h : art_node) (p : list Z) : Prop :=
  partial_len h = klen p /\ stored h = take 10 p /\ length (partial h) = 10%nat /\ klen p < 2 ^ 31.

Lemma has_prefix_stored h p (n : nat) : has_prefix h p -> (n <= 10)%nat -> (n <= length p)%nat ->
  take n (partial h) = take n p.
Proof.
  intros (Hpl & Hst & _ & _) H10 Hp. unfold stored in Hst. rewrite Hpl in Hst. unfold klen, MAX_PREFIX_LEN in Hst.
  apply (f_equal (take n)) in Hst. rewrite !take_take in Hst.
  rewrite !Nat.min_l in Hst by lia. exact Hst.
Qed.

Lemma check_prefix_ok h p k (d : nat) : has_prefix h p ->
  check_prefix h k (Z.of_nat d) = Ok (Z.of_nat (lcp (take 10 p) (drop d k))).
Proof.
  intros Hp. pose proof Hp as (Hpl & Hst & Hl & Hlt). unfold check_prefix.
  rewrite Hpl, i32_small by (unfold klen in *; lia). rewrite !min_art. unfold klen, MAX_PREFIX_LEN in *.
  set (mc := Z.to_nat _).
  replace mc with (Nat.min (Nat.min (length p) 10) (length k - d)) by lia. clear mc.
  change 0 with (Z.of_nat 0). destruct (le_lt_dec d (length k)) as [Hd|Hd].
  - rewrite mismatch_ok by lia. rewrite !Nat.add_0_r, Nat.add_0_l, drop_0.
    rewrite (has_prefix_stored h p _ Hp) by lia. do 2 f_equal.
    rewrite <- (lcp_bound (Nat.min (Nat.min (length p) 10) (length k - d)) (take 10 p)) by (rewrite length_take, length_drop; lia).
    rewrite take_take. do 2 f_equal. lia.
  - replace (length k - d)%nat with O by lia. rewrite Nat.min_0_r. cbn [mismatch].
    rewrite (drop_ge k d) by lia. now destruct (take 10 p).
Qed.

(** * The first leaf *)

Lemma first_set_ok {B} (f : B -> bool) l (i j : nat) x : l !! j = Some x -> f x = true ->
  (forall j' y, (j' < j)%nat -> l !! j' = Some y -> f y = false) ->
  first_set f l (Z.of_nat i) = Ok (Z.of_nat (i + j)).
Proof.
  revert i j. induction l as [|y l IH]; intros i [|j] Hx Hf Hlt; simpl in Hx; [easy|easy| |]; cbn [first_set].
  - injection Hx as ->. rewrite Hf. do 2 f_equal. lia.
  - rewrite (Hlt O y ltac:(lia) eq_refl). replace (Z.of_nat i + 1) with (Z.of_nat (S i)) by lia.
    rewrite (IH (S i) j); [do 2 f_equal; lia|assumption..|]. intros j' z Hj' Hz. apply (Hlt (S j')); [lia|exact Hz].
Qed.

Lemma first_child_ok n L c t : view n ((c, t) :: L) -> first_child n = Ok (Some t).
Proof.
  intros Hview. destruct (Hview) as (Hs & Hb & _ & Hv). apply sorted_cons in Hs as [Hs Hf]. rewrite Forall_forall in Hf.
  inversion Hb as [|? ? Hc Hb']; subst. unfold byte in Hc.
  destruct n as [h ks cs|h ks cs|h ks cs|h cs]; cbn [first_child].
  1,2: destruct (live_lookup _ _ _ _ _ 0 c t Hv eq_refl) as [_ H]; now apply (get_ok cs 0).
  - destruct Hv as (Hlk & _ & _ & _ & Hm & Hr & _).
    destruct (proj1 (Hm c t) ltac:(left)) as (_ & p & Hp1 & Hp2). change 0 with (Z.of_nat 0) at 1.
    rewrite (first_set_ok nonzero ks 0 (Z.to_nat c) _ Hp1); [|unfold nonzero; apply negb_true_iff, Z.eqb_neq; lia|].
    + cbn [bind]. rewrite (get_ok ks (0 + Z.to_nat c) _ Hp1). cbn [bind].
      replace (Z.of_nat (S p) - 1) with (Z.of_nat p) by lia. now apply get_ok.
    + intros j y Hj Hy. destruct (Hr _ _ Hy) as [-> |(q & b & -> & Hq)]; [reflexivity|]. exfalso.
      assert (Hin : (Z.of_nat j, b) ∈ (c, t) :: L).
      { apply Hm. split; [unfold byte; lia|]. exists q. rewrite Nat2Z.id. now split. }
      apply elem_of_cons in Hin as [[= E _]|Hin]; [lia|]. specialize (Hf _ Hin). simpl in Hf. lia.
  - destruct Hv as (Hlc & _ & Hm).
    destruct (proj1 (Hm c t) ltac:(left)) as (_ & Hp). change 0 with (Z.of_nat 0) at 1.
    rewrite (first_set_ok nonnull cs 0 (Z.to_nat c) _ Hp eq_refl).
    + cbn [bind]. now apply get_ok.
    + intros j y Hj Hy. destruct y as [b|]; [|reflexivity]. exfalso.
      assert (Hin : (Z.of_nat j, b) ∈ (c, t) :: L).
      { apply Hm. split; [unfold byte; lia|]. now rewrite Nat2Z.id. }
      apply elem_of_cons in Hin as [[= E _]|Hin]; [lia|]. specialize (Hf _ Hin). simpl in Hf. lia.
Qed.

Lemma minimum_ok path t fuel : wf path t -> (height t <= fuel)%nat ->
  exists l, minimum fuel (Some t) = Ok (Some l) /\ hd_error (leaves t) = Some l.
Proof.
  intros Hwf. revert fuel. induction Hwf as [path l Hp Hk|path n L p Hv Hmin Hpl Hst Hc IH]; intros fuel Hf.
  - destruct fuel as [|fuel]; [cbn [height] in Hf; lia|]. exists l. now split.
  - destruct L as [|[c t] L]; [destruct n; simpl in Hmin; lia|].
    assert (Hct : (c, t) ∈ (c, t) :: L) by left. pose proof (height_child _ _ _ _ Hv Hct) as Hh.
    destruct fuel as [|fuel]; [lia|]. destruct (IH c t Hct fuel ltac:(lia)) as (l & Hl & Hhd). exists l. split.
    + unfold minimum in *. cbn [loop descend]. now rewrite (first_child_ok n L c t Hv).
    + cbn [leaves]. rewrite (kids_snd leaves _ _ Hv). cbn. now destruct (leaves t).
Qed.

Lemma the_minimum_ok path n fuel : wf path (Node n) -> (height (Node n) <= fuel)%nat ->
  exists l, the_minimum fuel n = Ok l /\ l ∈ leaves (Node n).
Proof.
  intros Hwf Hf. destruct (minimum_ok _ _ _ Hwf Hf) as (l & Hl & Hhd). exists l. unfold the_minimum. rewrite Hl.
  split; [reflexivity|]. destruct (leaves (Node n)); [easy|]. cbn in Hhd. injection Hhd as ->. left.
Qed.

Lemma prefix_mismatch_ok path n p k fuel : has_prefix (hdr n) p -> wf path (Node n) -> (height (Node n) <= fuel)%nat ->
  (forall l, l ∈ leaves (Node n) -> (path ++ p) `prefix_of` key l) ->
  prefix_mismatch fuel n k (Z.of_nat (length path)) = Ok (Z.of_nat (lcp p (drop (length path) k))).
Proof.
  intros Hp Hwf Hf Hpre. pose proof Hp as (Hpl & Hst & Hl & Hlt). unfold prefix_mismatch.
  rewrite Hpl, i32_small by (unfold klen in *; lia). rewrite !min_art. unfold klen, MAX_PREFIX_LEN in *.
  set (d := length path) in *. set (mc := Z.min (Z.min 10 _) _).
  assert (E1 : mismatch (partial (hdr n)) 0 k (Z.of_nat d) 0 (Z.to_nat mc) = Ok (Z.of_nat (lcp (take 10 p) (drop d k)))).
  { pose proof (check_prefix_ok (hdr n) p k d Hp) as H. unfold check_prefix in H.
    rewrite Hpl, i32_small, !min_art in H by (unfold klen; lia). unfold klen, MAX_PREFIX_LEN in H.
    rewrite (Z.min_comm _ 10) in H. exact H. }
  rewrite E1. cbn [bind]. pose proof (lcp_le (take 10 p) (drop d k)) as [Hle1 Hle2].
  rewrite length_take in Hle1. rewrite length_drop in Hle2.
  destruct (Z.ltb_spec (Z.of_nat (lcp (take 10 p) (drop d k))) mc) as [Hlt1|Hge].
  - do 2 f_equal. rewrite <- (lcp_app_l (take 10 p) (drop 10 p)), take_drop by (rewrite length_take; lia). reflexivity.
  - destruct (Z.ltb_spec 10 (Z.of_nat (length p))) as [H10|H10].
    + destruct (the_minimum_ok _ _ _ Hwf Hf) as (l & El & Hin). rewrite El. cbn [bind].
      destruct (Hpre l Hin) as [z Ez]. destruct (wf_leaf_in _ _ _ Hwf Hin) as [_ [_ Hk]]. unfold klen in Hk.
      unfold key_len. rewrite i32_small, !min_art by lia.
      assert (Hlk : (d + length p <= length (key l))%nat) by (rewrite Ez, !length_app; lia).
      assert (E0 : Nat.min (length p) (lcp (take 10 p) (drop d k)) = lcp (take 10 p) (drop d k)) by lia.
      set (i0 := lcp (take 10 p) (drop d k)) in *.
      assert (Hi0 : i0 = Nat.min 10 (length k - d)) by lia.
      assert (Hdk : take (length p) (drop d (key l)) = p).
      { rewrite Ez, <- app_assoc. unfold d. now rewrite drop_app_length, take_app_length. }
      set (left := Z.to_nat _). replace left with (Nat.min (length k - d - i0) (length p - i0)) by lia. clear left.
      destruct (le_lt_dec d (length k)) as [Hd|Hd].
      * rewrite mismatch_ok by lia. do 2 f_equal.
        assert (Ei : (i0 <= lcp p (drop d k))%nat) by apply lcp_take_l.
        rewrite (lcp_drop i0 p (drop d k) Ei). f_equal.
        rewrite <- (lcp_bound (Nat.min (length k - d - i0) (length p - i0)) (drop i0 p)) by (rewrite !length_drop; lia).
        assert (Hdp : drop i0 p = take (length p - i0) (drop (d + i0) (key l))).
        { rewrite <- Hdk at 1. now rewrite skipn_firstn_comm, drop_drop. }
        rewrite Hdp, drop_drop, take_take. do 2 f_equal. lia.
      * replace (Nat.min (length k - d - i0) (length p - i0)) with O by lia. cbn [mismatch].
        rewrite (drop_ge k d) by lia. do 2 f_equal. destruct p; simpl; [|]; lia.
    + do 2 f_equal. rewrite take_ge by lia. reflexivity.
Qed.

(** * Bytes of a key and matching leaves *)

Definition kb (k : list Z) (d : nat) : Z := default 0 (k !! d).

Lemma key_byte_ok k (d : nat) : key_byte k (Z.of_nat d) = Ok (kb k d).
Proof.
  unfold key_byte, kb, klen. destruct (Z.ltb_spec (Z.of_nat d) (Z.of_nat (length k))).
  - destruct (lookup_lt_is_Some_2 k d ltac:(lia)) as [c Hc]. now rewrite (get_ok _ _ _ Hc), Hc.
  - now rewrite lookup_ge_None_2 by lia.
Qed.

Lemma kb_byte k d : key_ok k -> byte (kb k d).
Proof.
  intros [Hb _]. unfold kb. destruct (k !! d) as [c|] eqn:E; simpl; [|unfold byte; lia].
  rewrite Forall_lookup in Hb. eauto.
Qed.

Lemma kb_vk k d : (d <= length k)%nat -> vk k !! d = Some (kb k d).
Proof.
  intros Hd. unfold vk, kb. destruct (decide (d < length k)%nat).
  - rewrite lookup_app_l by lia. destruct (lookup_lt_is_Some_2 k d ltac:(lia)) as [c ->]. reflexivity.
  - rewrite lookup_app_r by lia. rewrite (lookup_ge_None_2 k) by lia. now replace (d - length k)%nat with O by lia.
Qed.

Lemma ref_memcmp_zero x y : length x = length y -> (ref_memcmp x y = 0 <-> x = y).
Proof.
  revert y. induction x as [|a x IH]; intros [|b y] Hl; simpl in *; try lia; [easy|].
  destruct (Z.eqb_spec a b) as [-> | Hne].
  - rewrite IH by lia. split; congruence.
  - split; [lia|congruence].
Qed.

Lemma leaf_matches_ok l k : key_ok (key l) -> key_ok k -> (leaf_matches l k =? 0) = bool_decide (key l = k).
Proof.
  intros [_ H1] [_ H2]. unfold leaf_matches, key_len, klen in *.
  unfold u32. rewrite Z.mod_small by lia.
  destruct (Z.eqb_spec (Z.of_nat (length (key l))) (Z.of_nat (length k))) as [E|Hne]; simpl.
  - pose proof (ref_memcmp_zero (key l) k ltac:(lia)) as H.
    destruct (Z.eqb_spec (ref_memcmp (key l) k) 0); symmetry; [apply bool_decide_eq_true|apply bool_decide_eq_false]; tauto.
  - symmetry. apply bool_decide_eq_false. intros E. rewrite E in Hne. lia.
Qed.

(** The facts about an inner node, its entries and its prefix. *)
Record node_facts (path : list Z) (n : inner art) (L : list (Z * art)) (p : list Z) : Prop := {
  nf_view : view n L;
  nf_min : (min_kids n <= length L)%nat;
  nf_prefix : has_prefix (hdr n) p;
  nf_plen : plen_ok (hdr n);
  nf_kids : forall c t, (c, t) ∈ L -> wf (path ++ p ++ [c]) t;
  nf_leaves : forall l, l ∈ leaves (Node n) -> (path ++ p) `prefix_of` key l
}.

Lemma wf_facts path n L p : view n L -> (min_kids n <= length L)%nat -> partial_len (hdr n) = klen p ->
  stored (hdr n) = take 10 p -> (forall c t, (c, t) ∈ L -> wf (path ++ p ++ [c]) t) -> node_facts path n L p.
Proof.
  intros Hv Hmin Hpl Hst Hc. pose proof (wf_plen_ok _ _ _ _ Hv Hmin Hpl Hc) as Hok. split; try assumption.
  - unfold plen_ok in Hok. split_and!; [exact Hpl|exact Hst|apply Hv|lia].
  - intros l Hl. apply (elem_leaves _ _ _ Hv) in Hl as (c & t & Hct & Hl).
    destruct (wf_leaf_in _ _ _ (Hc _ _ Hct) Hl) as [[z Hz] _]. unfold vk in Hz.
    rewrite !app_assoc in Hz.
    destruct z as [|y z _] using rev_ind.
    + rewrite app_nil_r in Hz. apply app_inj_tail in Hz as [-> _]. reflexivity.
    + rewrite app_assoc in Hz. apply app_inj_tail in Hz as [-> _]. rewrite <- !app_assoc. exists ([c] ++ z). now rewrite <- app_assoc.
Qed.

Lemma facts_wf path n L p : node_facts path n L p -> wf path (Node n).
Proof. intros [Hv Hmin (Hpl & Hst & _) _ Hc _]. econstructor; eassumption. Qed.


(** Induction on the tree with the facts at hand. *)
Lemma wf_induct (P : list Z -> art -> Prop) :
  (forall path l, path `prefix_of` vk (key l) -> key_ok (key l) -> P path (Leaf l)) ->
  (forall path n L p, node_facts path n L p -> (forall c t, (c, t) ∈ L -> P (path ++ p ++ [c]) t) -> P path (Node n)) ->
  forall path t, wf path t -> P path t.
Proof.
  intros Hl Hn. induction 1 as [path l Hp Hkl|path n L p Hv Hmin Hpl Hst Hc IH]; [now apply Hl|].
  apply (Hn path n L p); [now apply wf_facts|exact IH].
Qed.

Lemma has_prefix_partial h p k d : has_prefix h p -> p `prefix_of` drop d k ->
  lcp (take 10 p) (drop d k) = Nat.min 10 (length p).
Proof.
  intros Hp Hpre. rewrite lcp_prefix; [now rewrite length_take|]. etransitivity; [|exact Hpre].
  exists (drop 10 p). now rewrite take_drop.
Qed.

Lemma prefix_drop (path p k : list Z) : (path ++ p) `prefix_of` k -> p `prefix_of` drop (length path) k.
Proof. intros [z ->]. rewrite <- app_assoc, drop_app_length. now eexists. Qed.

(** The prefix test of search and deletion: it fails only when no key below matches,
    and otherwise the descent goes on behind the prefix. *)
Definition bail_test (h : art_node) (k : list Z) (depth : Z) : res (bool * Z) :=
  if partial_len h =? 0 then Ok (false, depth)
  else let* prefix_len := check_prefix h k depth in
       if negb (prefix_len =? _min__art MAX_PREFIX_LEN (i32 (partial_len h))) then Ok (true, depth)
       else Ok (false, depth + partial_len h).

Lemma bail_ok path n L p k : node_facts path n L p ->
  bail_test (hdr n) k (Z.of_nat (length path)) = Ok (false, Z.of_nat (length path + length p)) \/
  (exists d, bail_test (hdr n) k (Z.of_nat (length path)) = Ok (true, d)) /\ forall l, l ∈ leaves (Node n) -> key l <> k.
Proof.
  intros [_ _ Hp _ _ Hpre]. pose proof Hp as (Hpl & _ & _ & Hlt). unfold bail_test. rewrite Hpl. unfold klen.
  destruct (Z.eqb_spec (Z.of_nat (length p)) 0) as [E0|Hne].
  { left. do 2 f_equal. lia. }
  rewrite (check_prefix_ok _ p k _ Hp). cbn [bind]. rewrite i32_small, min_art by (unfold klen in *; lia).
  unfold MAX_PREFIX_LEN. destruct (Z.eqb_spec (Z.of_nat (lcp (take 10 p) (drop (length path) k))) (Z.min 10 (Z.of_nat (length p)))) as [E|Hne']; simpl.
  - left. do 2 f_equal. lia.
  - right. split; [eauto|]. intros l Hl <-. apply Hne'. rewrite (has_prefix_partial _ p _ _ Hp); [lia|].
    apply prefix_drop. now apply Hpre.
Qed.

(** The result of a search among the leaves [ls]. *)
Definition answer (k : list Z) (ls : list art_leaf) (r : Z) : Prop :=
  (exists l, l ∈ ls /\ key l = k /\ r = value l) \/ ((forall l, l ∈ ls -> key l <> k) /\ r = 0).

(** A key below the node is below the child for its next byte. *)
Lemma wf_child path n L p k l : node_facts path n L p -> l ∈ leaves (Node n) -> key l = k ->
  exists t, (kb k (length path + length p), t) ∈ L /\ l ∈ leaves t.
Proof.
  intros [Hv _ _ _ Hc _] Hl Hk. apply (elem_leaves _ _ _ Hv) in Hl as (c & t & Hct & Hl). exists t. split; [|exact Hl].
  destruct (wf_leaf_in _ _ _ (Hc _ _ Hct) Hl) as [Hpre _]. pose proof (wf_plen _ _ _ _ _ _ _ Hv (Hc _ _ Hct) Hct Hl).
  apply prefix_byte in Hpre. rewrite Hk, kb_vk in Hpre by (rewrite <- Hk; lia). now injection Hpre as ->.
Qed.

Lemma depth_step (path p : list Z) (c : Z) : Z.of_nat (length path + length p) + 1 = Z.of_nat (length (path ++ p ++ [c])).
Proof. rewrite !length_app. simpl. lia. Qed.

Lemma search_ok path t k fuel : wf path t -> key_ok k -> (height t <= fuel)%nat ->
  wp (loop fuel (search_step k) (Some t, Z.of_nat (length path))) (answer k (leaves t)).
Proof.
  intros Hwf Hk. revert fuel. revert path t Hwf. apply (wf_induct (fun path t => forall fuel, (height t <= fuel)%nat -> _)).
  - intros path l _ Hkl fuel Hf. destruct fuel as [|fuel]; [cbn [height] in Hf; lia|].
    cbn [loop search_step]. rewrite leaf_matches_ok by assumption. cbn [wp leaves]. case_bool_decide as E.
    + left. exists l. split; [now apply list_elem_of_singleton|]. now split.
    + right. split; [|reflexivity]. now intros l' ->%list_elem_of_singleton.
  - intros path n L p Hn IH fuel Hf. pose proof (nf_view _ _ _ _ Hn) as Hv.
    destruct fuel as [|fuel]; [cbn [height] in Hf; lia|]. cbn [loop search_step]. fold (bail_test (hdr n) k (Z.of_nat (length path))).
    destruct (bail_ok path n L p k Hn) as [-> | [[d ->] Hno]]; [|right; now split]. cbn [bind].
    rewrite key_byte_ok. cbn [bind]. set (c := kb k (length path + length p)).
    destruct (find_child_ok n L c Hv (kb_byte _ _ Hk)) as [(i & t & -> & Hi)|[-> Hni]]; cbn [bind child_at].
    + destruct (slot_idx_in _ _ _ _ _ Hv (kb_byte _ _ Hk) Hi) as [Hin Hs]. rewrite (get_ok _ _ _ Hs). cbn [bind].
      rewrite (depth_step path p c). pose proof (height_child _ _ _ _ Hv Hin).
      eapply wp_mono; [apply (IH c t Hin); lia|]. intros r [(l & Hl & Hkl & ->)|[Hno ->]].
      * left. exists l. split; [|now split]. apply (elem_leaves _ _ _ Hv). eauto.
      * right. split; [|reflexivity]. intros l Hl Hkl. destruct (wf_child _ _ _ _ _ _ Hn Hl Hkl) as (t' & Hct & Hl').
        assert (t' = t) as -> by (eapply sorted_functional; [apply Hv|exact Hct|exact Hin]). exact (Hno l Hl' Hkl).
    + destruct fuel as [|fuel].
      { destruct (wf_nonempty _ _ (facts_wf _ _ _ _ Hn)) as [l Hl]. apply (elem_leaves _ _ _ Hv) in Hl as (c' & t' & Hct & _).
        pose proof (height_child _ _ _ _ Hv Hct). pose proof (height_pos t'). lia. }
      cbn [loop search_step wp]. right. split; [|reflexivity]. intros l Hl Hkl.
      destruct (wf_child _ _ _ _ _ _ Hn Hl Hkl) as (t' & Hct & _). apply Hni, list_elem_of_fmap.
      exists (c, t'). now split.
Qed.

(** * Paths and keys *)

Lemma prefix_kb (q x : list Z) : q `prefix_of` x -> (q ++ [kb x (length q)]) `prefix_of` vk x.
Proof.
  intros [z ->]. unfold vk, kb. destruct z as [|y z].
  - rewrite app_nil_r, lookup_ge_None_2 by lia. reflexivity.
  - rewrite list_lookup_middle by reflexivity. exists (z ++ [0]). simpl. now rewrite <- !app_assoc.
Qed.

Lemma prefix_vk_short (q x : list Z) : q `prefix_of` vk x -> (length q <= length x)%nat -> q `prefix_of` x.
Proof.
  intros Hq Hl. unfold vk in Hq. destruct Hq as [z Hz]. destruct z as [|y z _] using rev_ind.
  - apply (f_equal length) in Hz. rewrite !length_app in Hz. simpl in Hz. lia.
  - rewrite app_assoc in Hz. apply app_inj_tail in Hz as [-> _]. now eexists.
Qed.

Lemma prefix_vk_long (q x : list Z) : q `prefix_of` vk x -> (length x < length q)%nat -> q = vk x.
Proof.
  intros [z Hz] Hl. unfold vk in *. pose proof (f_equal length Hz) as E. rewrite !length_app in E. simpl in E.
  destruct z; [now rewrite app_nil_r in Hz|]. simpl in E. lia.
Qed.

(** When the next bytes agree and one of the keys ends there, that key with its
    terminator is a prefix of the other. *)
Lemma kb_clash (q x y : list Z) : q `prefix_of` x -> q `prefix_of` y -> kb x (length q) = kb y (length q) ->
  length q = length y -> vk y `prefix_of` vk x.
Proof.
  intros Hx [z Hz] E Hl. assert (y = q) as ->.
  { rewrite Hz, length_app in Hl. destruct z; [now rewrite app_nil_r in Hz|]. simpl in Hl. lia. }
  pose proof (prefix_kb q x Hx) as H. rewrite E in H. unfold kb in H. now rewrite lookup_ge_None_2 in H by lia.
Qed.

Lemma kb_lookup k d c : k !! d = Some c -> kb k d = c.
Proof. unfold kb. now intros ->. Qed.

(** * New NODE4 nodes *)

Definition is4 (b : inner art) : Prop := exists h ks cs, b = Node4 h ks cs.

Lemma has_prefix_same h h' p : has_prefix h p -> same_prefix h h' -> has_prefix h' p.
Proof. intros (H1 & H2 & H3 & H4) (E1 & E2 & E3). split_and!; congruence. Qed.

Section Update.
Context `{!ArrayMove, !ArrayMoveOk}.

Lemma add_leaf4_ok m b L c t p : is4 b -> view b L -> (length L < 4)%nat -> byte c -> c ∉ L.*1 ->
  has_prefix (hdr b) p -> mem_ok m ->
  wp (add_leaf4 m b c t) (fun r => is4 r.1 /\ view r.1 (linsert c t L) /\ has_prefix (hdr r.1) p /\ mem_ok r.2).
Proof.
  intros (h & ks & cs & ->) Hv Hl Hc Hn Hp Hm. cbn [add_leaf4 hdr] in *.
  eapply wp_mono; [apply (add_child4_ok m h ks cs L c t Hv Hc Hn); [|exact Hm]|].
  - destruct Hp as (E & _ & _ & Hlt). unfold plen_ok. rewrite E. unfold klen in *. lia.
  - intros r [(Hv' & Hsp & Hm' & _) H4]. split_and!; [exact (H4 Hl)|exact Hv'|now apply (has_prefix_same h)|exact Hm'].
Qed.

(** The fresh node with a prefix of [d] bytes taken from [src]. *)
Lemma fresh4_prefix (b : inner art) p' p (d : nat) : fresh NODE4 b -> length p = d -> Z.of_nat d < 2 ^ 31 ->
  take (Nat.min 10 d) p' = take 10 p -> length p' = 10%nat ->
  let b' := with_hdr b (set_prefix (hdr b) (Z.of_nat d) p') in
  is4 b' /\ view b' [] /\ has_prefix (hdr b') p.
Proof.
  intros (Hh & Hsz & Hf) Hd Hlt Ht Hl. destruct b as [h ks cs| | |]; try easy. cbn [hdr with_hdr] in *. subst h.
  split; [now eexists _, _, _|]. assert (Hu : u32 (Z.of_nat d) = Z.of_nat d) by (unfold u32; rewrite Z.mod_small; lia).
  split.
  - split_and!; [constructor|constructor|exact Hl|]. destruct Hsz. split_and!; try assumption; [cbn; lia|reflexivity..].
  - split_and!; cbn; rewrite ?Hu; [unfold klen; lia| |exact Hl|unfold klen; lia].
    unfold stored. cbn. rewrite Hu. rewrite <- Ht. f_equal. unfold MAX_PREFIX_LEN. lia.
Qed.

Lemma copy_from_ok {B} (dst src : list B) (off n : nat) : (n <= length dst)%nat -> (off + n <= length src)%nat ->
  copy_from dst src (Z.of_nat off) (Z.of_nat n) = Ok (take n (drop off src) ++ drop n dst).
Proof.
  intros H1 H2. unfold copy_from. rewrite copy_in_ok by (rewrite ?length_drop; lia). now rewrite !Nat2Z.id.
Qed.

(** A NODE4 with two children under the prefix [p]. *)
Lemma two_kids path (b : inner art) p c1 t1 c2 t2 : c1 <> c2 -> is4 b -> view b (linsert c2 t2 (linsert c1 t1 [])) ->
  has_prefix (hdr b) p -> wf (path ++ p ++ [c1]) t1 -> wf (path ++ p ++ [c2]) t2 ->
  wf path (Node b) /\ forall l, l ∈ leaves (Node b) <-> l ∈ leaves t1 \/ l ∈ leaves t2.
Proof.
  intros Hne (h & ks & cs & ->) Hv (Hpl & Hst & _) H1 H2.
  assert (Hin : forall c t, (c, t) ∈ linsert c2 t2 (linsert c1 t1 []) <-> (c, t) = (c2, t2) \/ (c, t) = (c1, t1)).
  { intros c t. rewrite elem_linsert. cbn [linsert]. now rewrite list_elem_of_singleton. }
  split.
  - econstructor; [exact Hv|rewrite !linsert_length; cbn; lia|exact Hpl|exact Hst|].
    intros c t Hct. apply Hin in Hct as [[= -> ->] | [= -> ->]]; assumption.
  - intros l. rewrite (elem_leaves _ _ _ Hv). split.
    + intros (c & t & Hct & Hl). apply Hin in Hct as [[= -> ->] | [= -> ->]]; tauto.
    + intros [Hl|Hl]; [exists c1, t1|exists c2, t2]; (split; [apply Hin; tauto|exact Hl]).
Qed.

Lemma make_leaf_ok m k v : mem_ok m -> wp (make_leaf m k v) (fun r => r.1 = ArtLeaf v k /\ mem_ok r.2).
Proof.
  intros (H4 & H16 & Ho). unfold make_leaf. destruct (outcomes m) as [|b al]; simpl.
  - split; [reflexivity|]. now split_and!.
  - inversion Ho; subst. simpl. split; [reflexivity|]. now split_and!.
Qed.

Lemma set_kb_prefix (path x : list Z) (n : nat) : path `prefix_of` x -> (length path + n <= length x)%nat ->
  (path ++ take n (drop (length path) x)) `prefix_of` x.
Proof.
  intros [z ->] Hn. rewrite drop_app_length. exists (drop n z). now rewrite <- app_assoc, take_drop.
Qed.

Lemma split_leaf_ok m path l k v : path `prefix_of` vk (key l) -> path `prefix_of` vk k -> key_ok (key l) -> key_ok k ->
  ~ vk (key l) `prefix_of` vk k -> ~ vk k `prefix_of` vk (key l) -> mem_ok m ->
  wp (split_leaf m l k v (Z.of_nat (length path))) (fun r => wf path r.1 /\ mem_ok r.2 /\
    forall x, x ∈ leaves r.1 <-> x = l \/ x = ArtLeaf v k).
Proof.
  intros Hpl Hpk Hkl Hk Hn1 Hn2 Hm. set (d := length path).
  assert (Hdl : (d <= length (key l))%nat).
  { destruct (le_lt_dec d (length (key l))) as [|Hlt]; [assumption|]. exfalso. apply Hn1.
    now rewrite <- (prefix_vk_long _ _ Hpl Hlt). }
  assert (Hdk : (d <= length k)%nat).
  { destruct (le_lt_dec d (length k)) as [|Hlt]; [assumption|]. exfalso. apply Hn2.
    now rewrite <- (prefix_vk_long _ _ Hpk Hlt). }
  apply prefix_vk_short in Hpl; [|exact Hdl]. apply prefix_vk_short in Hpk; [|exact Hdk].
  set (lp := lcp (drop d (key l)) (drop d k)). set (p := take lp (drop d k)).
  pose proof (lcp_le (drop d (key l)) (drop d k)) as [Hlp1 Hlp2]. fold lp in Hlp1, Hlp2. rewrite length_drop in Hlp1, Hlp2.
  assert (Hp : length p = lp) by (unfold p; rewrite length_take, length_drop; lia).
  pose proof Hkl as [_ Hkl2]. pose proof Hk as [_ Hk2]. unfold klen in Hkl2, Hk2.
  assert (Hq1 : (path ++ p) `prefix_of` key l).
  { assert (Ept : p = take lp (drop d (key l))) by (symmetry; apply lcp_take). rewrite Ept.
    apply set_kb_prefix; [exact Hpl|fold d; lia]. }
  assert (Hq2 : (path ++ p) `prefix_of` k) by (apply set_kb_prefix; [exact Hpk|fold d; lia]).
  assert (Hql : length (path ++ p) = (d + lp)%nat) by (rewrite length_app; fold d; lia).
  assert (Hne : kb (key l) (d + lp) <> kb k (d + lp)).
  { intros E. rewrite <- Hql in E. destruct (decide (d + lp = length k)%nat) as [Ek|Hk'].
    { apply Hn2, (kb_clash (path ++ p)); [assumption..|lia]. }
    destruct (decide (d + lp = length (key l))%nat) as [El|Hl'].
    { apply Hn1, (kb_clash (path ++ p)); [assumption|assumption|now symmetry|lia]. }
    destruct (lookup_lt_is_Some_2 (key l) (d + lp) ltac:(lia)) as [x Hx].
    destruct (lookup_lt_is_Some_2 k (d + lp) ltac:(lia)) as [y Hy].
    rewrite Hql, (kb_lookup _ _ _ Hx), (kb_lookup _ _ _ Hy) in E.
    apply (lcp_diff (drop d (key l)) (drop d k) x y); [now rewrite lookup_drop..|exact E]. }
  unfold split_leaf. apply wp_bind. eapply wp_mono; [apply (alloc_node_ok m NODE4 Hm)|]. intros [b m1] [Hfr Hm1].
  apply wp_bind. eapply wp_mono; [apply (make_leaf_ok m1 k v Hm1)|]. intros [l2 m2] [El2 Hm2]. cbn [fst snd] in *. subst l2.
  assert (Elcp : longest_common_prefix l (ArtLeaf v k) (Z.of_nat d) = Ok (Z.of_nat lp)).
  { unfold longest_common_prefix, key_len. cbn [key]. rewrite !i32_small, min_art by lia.
    set (left := Z.to_nat _). replace left with (Nat.min (length (key l)) (length k) - d)%nat by lia. clear left.
    change 0 with (Z.of_nat 0). rewrite mismatch_ok by lia. rewrite !Nat.add_0_r, Nat.add_0_l.
    rewrite lcp_bound by (rewrite !length_drop; lia). reflexivity. }
  fold d. rewrite Elcp. cbn [bind]. pose proof Hfr as (Hh & _). rewrite Hh, min_art.
  replace (Z.min MAX_PREFIX_LEN (Z.of_nat lp)) with (Z.of_nat (Nat.min 10 lp)) by (unfold MAX_PREFIX_LEN; lia).
  rewrite copy_from_ok by (change (length (partial zero_hdr)) with 10%nat; lia). cbn [bind]. rewrite <- Hh.
  destruct (fresh4_prefix b (take (Nat.min 10 lp) (drop d k) ++ drop (Nat.min 10 lp) (partial (hdr b))) p lp Hfr Hp)
    as (H4 & Hv & Hhp).
  { lia. }
  { rewrite take_app_le by (rewrite length_take, length_drop; lia). rewrite take_take, Nat.min_id.
    unfold p. rewrite take_take. reflexivity. }
  { rewrite length_app, length_take, !length_drop, Hh. change (length (partial zero_hdr)) with 10%nat. lia. }
  set (b1 := with_hdr _ _) in *. rewrite <- !Nat2Z.inj_add, !key_byte_ok. cbn [bind].
  pose proof (kb_byte (key l) (d + lp) Hkl) as Hb1. pose proof (kb_byte k (d + lp) Hk) as Hb2.
  apply wp_bind. eapply wp_mono; [apply (add_leaf4_ok m2 b1 [] _ (Leaf l) p H4 Hv); cbn; try assumption; [lia|apply not_elem_of_nil]|].
  intros [b2 m3] (H4' & Hv2 & Hhp2 & Hm3). cbn [fst snd] in *.
  apply wp_bind. eapply wp_mono; [apply (add_leaf4_ok m3 b2 _ _ (Leaf (ArtLeaf v k)) p H4' Hv2); cbn; try assumption; [lia|]|].
  { rewrite list_elem_of_singleton. congruence. }
  intros [b3 m4] (H4'' & Hv3 & Hhp3 & Hm4). cbn [fst snd wp] in *.
  destruct (two_kids path b3 p _ (Leaf l) _ (Leaf (ArtLeaf v k)) Hne H4'' Hv3 Hhp3) as [Hwf Hlv].
  - constructor; [|exact Hkl]. rewrite app_assoc, <- Hql. now apply prefix_kb.
  - constructor; [|exact Hk]. rewrite app_assoc, <- Hql. now apply prefix_kb.
  - split_and!; [exact Hwf|exact Hm4|]. intros x. rewrite Hlv. cbn [leaves]. now rewrite !list_elem_of_singleton.
Qed.

(** * Splitting a prefix *)

Lemma view_with_hdr {A} (n : inner A) L h' : view n L -> num_children h' = num_children (hdr n) ->
  length (partial h') = 10%nat -> view (with_hdr n h') L.
Proof.
  intros (Hs & Hb & _ & Hv) Hn Hl. split_and!; [exact Hs|exact Hb|now destruct n|].
  destruct n as [h ks cs|h ks cs|h ks cs|h cs]; cbn [with_hdr hdr] in *; unfold live, view48, view256 in *;
    rewrite Hn; exact Hv.
Qed.

Lemma hdr_with_hdr {A} (n : inner A) h : hdr (with_hdr n h) = h.
Proof. now destruct n. Qed.

Lemma min_with_hdr {A} (n : inner A) h : min_kids (with_hdr n h) = min_kids n.
Proof. now destruct n. Qed.

(** The prefix [p] becomes [p'] of a header that keeps its count. *)
Lemma set_prefix_has h p' bytes (Hl : length bytes = 10%nat) : klen p' < 2 ^ 31 ->
  take (Nat.min 10 (length p')) bytes = take 10 p' -> has_prefix (set_prefix h (klen p') bytes) p'.
Proof.
  intros Hlt Ht. assert (Hu : u32 (klen p') = klen p') by (unfold u32, klen in *; rewrite Z.mod_small; lia).
  split_and!; cbn; rewrite ?Hu; [reflexivity| |exact Hl|exact Hlt].
  unfold stored. cbn. rewrite Hu, <- Ht. f_equal. unfold klen, MAX_PREFIX_LEN. lia.
Qed.

(** Moving the node below a new one that takes the first [d] bytes and byte [c]. *)
Lemma node_below path n L p bytes (d : nat) c : node_facts path n L p -> p !! d = Some c -> length bytes = 10%nat ->
  take (Nat.min 10 (length p - S d)) bytes = take 10 (drop (S d) p) ->
  let n' := with_hdr n (set_prefix (hdr n) (klen (drop (S d) p)) bytes) in
  wf (path ++ take d p ++ [c]) (Node n') /\ (forall l, l ∈ leaves (Node n') <-> l ∈ leaves (Node n)).
Proof.
  intros [Hv Hmin (Hpl & _ & _ & Hlt) _ Hc _] Hd Hl Ht n'.
  assert (Hp' : has_prefix (set_prefix (hdr n) (klen (drop (S d) p)) bytes) (drop (S d) p)).
  { apply set_prefix_has; [exact Hl|unfold klen in *; rewrite length_drop; lia|]. now rewrite length_drop. }
  assert (Hv' : view n' L) by (apply view_with_hdr; [exact Hv|reflexivity|apply Hp']).
  split.
  - econstructor; [exact Hv'|unfold n'; rewrite min_with_hdr; exact Hmin| | |].
    + unfold n'. rewrite hdr_with_hdr. apply Hp'.
    + unfold n'. rewrite hdr_with_hdr. apply Hp'.
    + intros e t Het. replace ((path ++ take d p ++ [c]) ++ drop (S d) p ++ [e]) with (path ++ p ++ [e]); [now apply Hc|].
      rewrite <- (take_drop_middle p d c Hd) at 1. now rewrite <- !app_assoc.
  - intros l. rewrite (elem_leaves _ _ _ Hv), (elem_leaves _ _ _ Hv'). reflexivity.
Qed.

Lemma wf_depth path n L p k : node_facts path n L p -> path `prefix_of` vk k -> compat k (leaves (Node n)) ->
  (length path <= length k)%nat.
Proof.
  intros Hn Hp Hcomp. pose proof (facts_wf _ _ _ _ Hn) as Hwf.
  destruct (le_lt_dec (length path) (length k)) as [|Hlt]; [assumption|]. exfalso.
  pose proof (prefix_vk_long _ _ Hp Hlt) as ->. destruct (wf_two _ _ Hwf) as (l1 & l2 & H1 & H2 & Hn12).
  assert (Hall : forall l, l ∈ leaves (Node n) -> key l = k).
  { intros l Hl. destruct (Hcomp l Hl) as [|[_ Hno]]; [assumption|]. exfalso. apply Hno.
    apply (proj1 (wf_leaf_in _ _ _ Hwf Hl)). }
  apply Hn12. now rewrite (Hall l1 H1), (Hall l2 H2).
Qed.

(** The shortened prefix of the node and the byte it gets, in both branches. *)
Definition shorten (fuel : nat) (b : inner art) (depth prefix_diff : Z) : res (Z * inner art) :=
  let h := hdr b in
  let pl := u32 (partial_len h - (prefix_diff + 1)) in
  if partial_len h <=? MAX_PREFIX_LEN then
    let* c := get (partial h) prefix_diff in
    let* p' := move 1 (partial h) 0 (prefix_diff + 1) (_min__art MAX_PREFIX_LEN (i32 pl)) in
    Ok (c, with_hdr b (set_prefix h pl p'))
  else
    let* l := the_minimum fuel b in
    let* c := key_byte (key l) (depth + prefix_diff) in
    let* p' := copy_from (partial h) (key l) (depth + prefix_diff + 1) (_min__art MAX_PREFIX_LEN (i32 pl)) in
    Ok (c, with_hdr b (set_prefix h pl p')).

Lemma shorten_ok path n L p fuel (d : nat) : node_facts path n L p -> (height (Node n) <= fuel)%nat -> (d < length p)%nat ->
  exists c bytes, shorten fuel n (Z.of_nat (length path)) (Z.of_nat d) =
      Ok (c, with_hdr n (set_prefix (hdr n) (klen (drop (S d) p)) bytes)) /\
    p !! d = Some c /\ length bytes = 10%nat /\ take (Nat.min 10 (length p - S d)) bytes = take 10 (drop (S d) p).
Proof.
  intros Hn Hf Hd. destruct (lookup_lt_is_Some_2 p d Hd) as [c Hc]. pose proof (nf_prefix _ _ _ _ Hn) as Hp.
  pose proof Hp as (Hpl & _ & Hl & Hlt). unfold shorten. rewrite Hpl. unfold klen in Hlt |- *.
  assert (Epl : u32 (Z.of_nat (length p) - (Z.of_nat d + 1)) = Z.of_nat (length p - S d)).
  { unfold u32. rewrite Z.mod_small; lia. }
  rewrite Epl, i32_small, min_art, length_drop by lia.
  replace (Z.min MAX_PREFIX_LEN (Z.of_nat (length p - S d))) with (Z.of_nat (Nat.min 10 (length p - S d)))
    by (unfold MAX_PREFIX_LEN; lia).
  destruct (Z.leb_spec (Z.of_nat (length p)) MAX_PREFIX_LEN) as [H10|H10]; unfold MAX_PREFIX_LEN in H10.
  - pose proof (has_prefix_stored (hdr n) p (length p) Hp ltac:(lia) ltac:(lia)) as Hst. rewrite firstn_all in Hst.
    assert (Hpc : partial (hdr n) !! d = Some c).
    { rewrite <- (lookup_take_lt _ (length p)) by exact Hd. now rewrite Hst. }
    rewrite (get_ok _ _ _ Hpc). cbn [bind]. change 0 with (Z.of_nat 0).
    replace (Z.of_nat d + 1) with (Z.of_nat (S d)) by lia. rewrite move_ok by lia. cbn [bind]. rewrite take_0, app_nil_l.
    eexists c, _. split; [reflexivity|]. split; [exact Hc|]. split.
    + rewrite length_app, length_take, !length_drop. lia.
    + rewrite take_app_le by (rewrite length_take, length_drop; lia). rewrite take_take, Nat.min_id.
      rewrite <- Hst at 2. rewrite skipn_firstn_comm, take_take. f_equal.
  - destruct (the_minimum_ok _ _ _ (facts_wf _ _ _ _ Hn) Hf) as (l & -> & Hin). cbn [bind].
    destruct (nf_leaves _ _ _ _ Hn l Hin) as [z Ez].
    assert (Hlk : key l !! (length path + d)%nat = Some c).
    { rewrite Ez, <- app_assoc, lookup_app_r by lia. rewrite lookup_app_l by lia. rewrite <- Hc. f_equal. lia. }
    rewrite <- Nat2Z.inj_add, key_byte_ok, (kb_lookup _ _ _ Hlk). cbn [bind].
    replace (Z.of_nat (length path + d) + 1) with (Z.of_nat (length path + S d)) by lia.
    rewrite copy_from_ok by (rewrite ?Ez, ?length_app; lia). cbn [bind].
    eexists c, _. split; [reflexivity|]. split; [exact Hc|]. split.
    + rewrite length_app, length_take, !length_drop, Ez, !length_app. lia.
    + rewrite take_app_le by (rewrite length_take, length_drop, Ez, !length_app; lia). rewrite take_take, Nat.min_id.
      rewrite Ez, <- app_assoc. rewrite <- drop_drop, drop_app_length. rewrite drop_app_le by lia.
      rewrite take_app_le by (rewrite length_drop; lia). rewrite <- take_take. f_equal.
      apply take_ge. rewrite length_drop. lia.
Qed.

Lemma split_prefix_shorten fuel m b k v depth diff : split_prefix fuel m b k v depth diff =
  let* (new_node, m) := alloc_node m NODE4 in
  let nh := hdr new_node in
  let* p := copy_from (partial nh) (partial (hdr b)) 0 (_min__art MAX_PREFIX_LEN diff) in
  let new_node := with_hdr new_node (set_prefix nh diff p) in
  let* (c, b') := shorten fuel b depth diff in
  let* (new_node, m) := add_leaf4 m new_node c (Node b') in
  let* (l, m) := make_leaf m k v in
  let* c := key_byte k (depth + diff) in
  let* (new_node, m) := add_leaf4 m new_node c (Leaf l) in
  Ok (Node new_node, m).
Proof.
  unfold split_prefix, shorten. destruct (alloc_node m NODE4) as [[n m1]| |]; try reflexivity. cbn [bind].
  destruct (copy_from _ _ _ _); try reflexivity. cbn [bind].
  destruct (_ <=? _).
  - destruct (get _ _); try reflexivity. cbn [bind]. now destruct (move _ _ _ _ _).
  - destruct (the_minimum _ _); try reflexivity. cbn [bind]. destruct (key_byte _ _); try reflexivity. cbn [bind].
    now destruct (copy_from _ _ _ _).
Qed.

(** A byte of the node's prefix is a byte of every key below it. *)
Lemma prefix_char path n L p l (d : nat) c : node_facts path n L p -> l ∈ leaves (Node n) -> p !! d = Some c ->
  key l !! (length path + d)%nat = Some c.
Proof.
  intros Hn Hl Hc. destruct (nf_leaves _ _ _ _ Hn l Hl) as [z ->]. apply lookup_lt_Some in Hc as Hd.
  rewrite <- app_assoc, lookup_app_r by lia. rewrite lookup_app_l by lia. rewrite <- Hc. f_equal. lia.
Qed.

(** Where the key leaves the prefix: the part before is common, the next bytes differ,
    and the key is not below the node. *)
Lemma split_point path n L p k (d := lcp p (drop (length path) k)) : node_facts path n L p -> path `prefix_of` vk k ->
  compat k (leaves (Node n)) -> (d < length p)%nat ->
  (path ++ take d p) `prefix_of` k /\ (forall x, x ∈ leaves (Node n) -> key x <> k) /\
  (forall c, p !! d = Some c -> c <> kb k (length path + d) /\ byte c).
Proof.
  intros Hn Hpk Hcomp Hd. pose proof (wf_depth _ _ _ _ _ Hn Hpk Hcomp) as Hdk.
  apply prefix_vk_short in Hpk; [|exact Hdk].
  pose proof (lcp_le p (drop (length path) k)) as [_ Hle]. fold d in Hle. rewrite length_drop in Hle.
  assert (Hno : forall x, x ∈ leaves (Node n) -> key x <> k).
  { intros x Hx <-. pose proof (prefix_drop _ _ _ (nf_leaves _ _ _ _ Hn x Hx)) as Hpre.
    apply lcp_prefix in Hpre. fold d in Hpre. lia. }
  assert (Hq : (path ++ take d p) `prefix_of` k).
  { replace (take d p) with (take d (drop (length path) k)) by (symmetry; apply lcp_take).
    apply set_kb_prefix; [exact Hpk|lia]. }
  assert (Hql : length (path ++ take d p) = (length path + d)%nat) by (rewrite length_app, length_take; lia).
  split_and!; [exact Hq|exact Hno|]. intros c Hc.
  destruct (wf_nonempty _ _ (facts_wf _ _ _ _ Hn)) as [l Hl]. pose proof (prefix_char _ _ _ _ _ _ _ Hn Hl Hc) as Hkl.
  split.
  - intros E. destruct (decide (length path + d = length k)%nat) as [Ek|Hk'].
    + destruct (Hcomp l Hl) as [He|[_ Hnp]]; [exact (Hno l Hl He)|]. apply Hnp.
      apply (kb_clash (path ++ take d p)); [|exact Hq| |lia].
      * etransitivity; [|apply (nf_leaves _ _ _ _ Hn l Hl)]. apply prefix_app. exists (drop d p). now rewrite take_drop.
      * rewrite Hql, <- E. now apply kb_lookup.
    + destruct (lookup_lt_is_Some_2 k (length path + d) ltac:(lia)) as [y Hy]. rewrite (kb_lookup _ _ _ Hy) in E.
      apply (lcp_diff p (drop (length path) k) c y); [exact Hc|now rewrite lookup_drop|exact E].
  - destruct (wf_leaf_in _ _ _ (facts_wf _ _ _ _ Hn) Hl) as [_ [Hby _]]. rewrite Forall_lookup in Hby. eauto.
Qed.

Lemma split_prefix_ok path n L p k v fuel m : node_facts path n L p -> path `prefix_of` vk k -> key_ok k ->
  compat k (leaves (Node n)) -> mem_ok m -> (height (Node n) <= fuel)%nat ->
  (lcp p (drop (length path) k) < length p)%nat ->
  wp (split_prefix fuel m n k v (Z.of_nat (length path)) (Z.of_nat (lcp p (drop (length path) k)))) (fun r =>
    wf path r.1 /\ mem_ok r.2 /\ (forall x, x ∈ leaves r.1 <-> x ∈ leaves (Node n) \/ x = ArtLeaf v k) /\
    forall x, x ∈ leaves (Node n) -> key x <> k).
Proof.
  intros Hn Hpk Hk Hcomp Hm Hf Hd. destruct (split_point _ _ _ _ _ Hn Hpk Hcomp Hd) as (Hq & Hno & Hcd).
  set (d := lcp p (drop (length path) k)) in *.
  pose proof (nf_prefix _ _ _ _ Hn) as Hp. pose proof Hp as (_ & _ & Hl & Hlt). unfold klen in Hlt.
  destruct (shorten_ok path n L p fuel d Hn Hf Hd) as (c & bytes & Esh & Hc & Hbl & Hbt). destruct (Hcd c Hc) as [Hne Hbc].
  destruct (node_below path n L p bytes d c Hn Hc Hbl Hbt) as [Hwf1 Hlv1].
  set (n' := with_hdr n _) in *. clearbody n'.
  rewrite split_prefix_shorten. apply wp_bind. eapply wp_mono; [apply (alloc_node_ok m NODE4 Hm)|].
  intros [b m1] [Hfr Hm1]. cbn [fst snd] in *. pose proof Hfr as (Hh & _). rewrite min_art.
  replace (Z.min MAX_PREFIX_LEN (Z.of_nat d)) with (Z.of_nat (Nat.min 10 d)) by (unfold MAX_PREFIX_LEN; lia).
  change 0 with (Z.of_nat 0).
  rewrite copy_from_ok by (rewrite ?Hh; change (length (partial zero_hdr)) with 10%nat; lia). cbn [bind]. rewrite drop_0.
  destruct (fresh4_prefix b (take (Nat.min 10 d) (partial (hdr n)) ++ drop (Nat.min 10 d) (partial (hdr b))) (take d p) d Hfr)
    as (H4 & Hv & Hhp).
  { rewrite length_take. lia. }
  { lia. }
  { rewrite take_app_le by (rewrite length_take; lia). rewrite take_take, Nat.min_id.
    rewrite (has_prefix_stored _ p _ Hp) by lia. now rewrite take_take. }
  { rewrite length_app, length_take, !length_drop, Hh. change (length (partial zero_hdr)) with 10%nat. lia. }
  set (b1 := with_hdr _ _) in *. rewrite Esh. cbn [bind].
  apply wp_bind. eapply wp_mono; [apply (add_leaf4_ok m1 b1 [] c (Node n') (take d p) H4 Hv); cbn; try assumption; [lia|apply not_elem_of_nil]|].
  intros [b2 m2] (H4' & Hv2 & Hhp2 & Hm2). cbn [fst snd] in *.
  apply wp_bind. eapply wp_mono; [apply (make_leaf_ok m2 k v Hm2)|]. intros [l2 m3] [El2 Hm3]. cbn [fst snd] in *. subst l2.
  rewrite <- Nat2Z.inj_add, key_byte_ok. cbn [bind]. pose proof (kb_byte k (length path + d) Hk) as Hb2.
  apply wp_bind. eapply wp_mono; [apply (add_leaf4_ok m3 b2 _ _ (Leaf (ArtLeaf v k)) (take d p) H4' Hv2); cbn; try assumption; [lia|]|].
  { rewrite list_elem_of_singleton. congruence. }
  intros [b3 m4] (H4'' & Hv3 & Hhp3 & Hm4). cbn [fst snd wp] in *.
  destruct (two_kids path b3 (take d p) c (Node n') _ (Leaf (ArtLeaf v k)) Hne H4'' Hv3 Hhp3 Hwf1) as [Hwf Hlv].
  - constructor; [|exact Hk]. rewrite app_assoc. replace (length path + d)%nat with (length (path ++ take d p)).
    + now apply prefix_kb.
    + rewrite length_app, length_take. lia.
  - split_and!; [exact Hwf|exact Hm4| |exact Hno]. intros x. rewrite Hlv, Hlv1. cbn [leaves]. now rewrite list_elem_of_singleton.
Qed.

(** * Insertion *)

(** Replacing the subtree for one byte. *)
Lemma set_kid path n L p c (i : nat) t t' : node_facts path n L p -> byte c -> slot_idx n L c i t ->
  wf (path ++ p ++ [c]) t' ->
  wf path (Node (set_slots n (<[i := Some t']> (slots n)))) /\
  forall l, l ∈ leaves (Node (set_slots n (<[i := Some t']> (slots n)))) <->
    l ∈ leaves t' \/ (exists c' u, c' <> c /\ (c', u) ∈ L /\ l ∈ leaves u).
Proof.
  intros [Hv Hmin (Hpl & Hst & _) _ Hc _] Hb Hi Ht. pose proof (set_child_ok n L c i t t' Hv Hb Hi) as Hv'.
  destruct (slot_idx_in _ _ _ _ _ Hv Hb Hi) as [Hin _]. pose proof Hv as (Hs & _).
  assert (Hel : forall x, x ∈ lset c t' L <-> x = (c, t') \/ (x.1 <> c /\ x ∈ L)) by (intros x; now apply (elem_lset c t' t)).
  split.
  - econstructor; [exact Hv'| | | |].
    + rewrite lset_length. now destruct n.
    + rewrite <- Hpl. now destruct n.
    + rewrite <- Hst. now destruct n.
    + intros e u Heu. apply Hel in Heu as [[= -> ->] | [_ Heu]]; [exact Ht|now apply Hc].
  - intros l. rewrite (elem_leaves _ _ _ Hv'). split.
    + intros (e & u & Heu & Hl). apply Hel in Heu as [[= -> ->] | [Hne Heu]]; [now left|right]. simpl in Hne. eauto 10.
    + intros [Hl|(e & u & Hne & Heu & Hl)]; [exists c, t'|exists e, u]; (split; [apply Hel; auto|exact Hl]).
Qed.

(** The leaves below a node are those below one child and those below the others. *)
Lemma leaves_split n L c t l : view n L -> (c, t) ∈ L ->
  l ∈ leaves (Node n) <-> l ∈ leaves t \/ (exists c' u, c' <> c /\ (c', u) ∈ L /\ l ∈ leaves u).
Proof.
  intros Hv Hin. rewrite (elem_leaves _ _ _ Hv). split.
  - intros (e & u & Heu & Hl). destruct (decide (e = c)) as [-> | Hne]; [left|right; eauto 10].
    pose proof (sorted_functional _ _ _ _ (proj1 Hv) Hin Heu). now subst.
  - intros [Hl|(e & u & _ & Heu & Hl)]; eauto.
Qed.

Lemma other_keys path n L p k c' u l : node_facts path n L p -> c' <> kb k (length path + length p) -> (c', u) ∈ L ->
  l ∈ leaves u -> key l <> k.
Proof.
  intros Hn Hne Hu Hl E. pose proof (nf_view _ _ _ _ Hn) as Hv.
  destruct (wf_leaf_in _ _ _ (nf_kids _ _ _ _ Hn _ _ Hu) Hl) as [Hpre _].
  pose proof (wf_plen _ _ _ _ _ _ _ Hv (nf_kids _ _ _ _ Hn _ _ Hu) Hu Hl).
  apply prefix_byte in Hpre. rewrite E, kb_vk in Hpre by (rewrite <- E; lia). congruence.
Qed.

(** What insertion does: [ls] are the leaves before, [t] the tree after. *)
Definition ins_leaves (k : list Z) (v : Z) (replace : bool) (ls ls' : list art_leaf) : Prop :=
  forall x, x ∈ ls' <-> (x ∈ ls /\ (key x <> k \/ replace = false)) \/
    (x = ArtLeaf v k /\ (replace = true \/ forall l, l ∈ ls -> key l <> k)).

Definition ins_post (path k : list Z) (v : Z) (replace : bool) (ls : list art_leaf) (r : art * art_mem art * Z * bool) : Prop :=
  wf path r.1.1.1 /\ mem_ok r.1.1.2 /\ answer k ls r.1.2 /\ (r.2 = true <-> exists l, l ∈ ls /\ key l = k) /\
  ins_leaves k v replace ls (leaves r.1.1.1).

(** A key that was not there. *)
Lemma ins_post_new path k v replace ls t m : wf path t -> mem_ok m -> (forall l, l ∈ ls -> key l <> k) ->
  (forall x, x ∈ leaves t <-> x ∈ ls \/ x = ArtLeaf v k) -> ins_post path k v replace ls (t, m, 0, false).
Proof.
  intros Hwf Hm Hno Hl. split_and!; cbn [fst snd]; [exact Hwf|exact Hm|now right| |].
  - split; [easy|]. intros (l & Hin & E). now destruct (Hno l Hin).
  - intros x. rewrite Hl. split.
    + intros [Hx| ->]; [left; auto|right; auto].
    + intros [[Hx _]|[-> _]]; auto.
Qed.

Lemma lcp_depth path n L p k fuel : node_facts path n L p -> (height (Node n) <= fuel)%nat ->
  (if partial_len (hdr n) =? 0 then Ok 0 else prefix_mismatch fuel n k (Z.of_nat (length path))) =
  Ok (Z.of_nat (lcp p (drop (length path) k))).
Proof.
  intros Hn Hf. pose proof (nf_prefix _ _ _ _ Hn) as Hp. pose proof Hp as (Hpl & _). rewrite Hpl. unfold klen.
  destruct (Z.eqb_spec (Z.of_nat (length p)) 0) as [E|].
  - destruct p; [reflexivity|simpl in E; lia].
  - apply prefix_mismatch_ok; [exact Hp|now apply (facts_wf _ _ L p)|exact Hf|apply (nf_leaves _ _ _ _ Hn)].
Qed.

(** The subtree for the key's byte was changed. *)
Lemma ins_post_below path n L p k v replace (i : nat) t r (c := kb k (length path + length p)) :
  node_facts path n L p -> byte c -> slot_idx n L c i t -> ins_post (path ++ p ++ [c]) k v replace (leaves t) r ->
  ins_post path k v replace (leaves (Node n))
    (Node (set_slots n (<[i := Some r.1.1.1]> (slots n))), r.1.1.2, r.1.2, r.2).
Proof.
  intros Hn Hbc Hi (Hwf' & Hm' & Hans & Hold & Hlv). pose proof (nf_view _ _ _ _ Hn) as Hv.
  destruct (slot_idx_in _ _ _ _ _ Hv Hbc Hi) as [Hin _].
  destruct (set_kid path n L p c i t _ Hn Hbc Hi Hwf') as [Hwf Hlv'].
  pose proof (fun l => leaves_split n L c t l Hv Hin) as Hsp.
  assert (Hhas : forall l, l ∈ leaves (Node n) -> key l = k -> l ∈ leaves t).
  { intros l Hl E. apply Hsp in Hl as [|(c' & u & Hne & Hu & Hl)]; [assumption|].
    now destruct (other_keys _ _ _ _ _ _ _ _ Hn Hne Hu Hl). }
  split_and!; cbn [fst snd]; [exact Hwf|exact Hm'| | |].
  - destruct Hans as [(l & Hl & E & ->)|[Hno ->]]; [left; exists l; split; [apply Hsp; now left|now split]|right].
    split; [|reflexivity]. intros l Hl E. exact (Hno l (Hhas l Hl E) E).
  - rewrite Hold. split; intros (l & Hl & E); exists l; (split; [|exact E]); [apply Hsp; now left|now apply Hhas].
  - intros x. rewrite Hlv', Hsp. split.
    + intros [Hx|(c' & u & Hne & Hu & Hx)].
      2:{ left. split; [right; eauto 10|left]. exact (other_keys _ _ _ _ _ _ _ _ Hn Hne Hu Hx). }
      apply Hlv in Hx as [[Hx Hr]|[-> [Hr|Hno]]]; [left; tauto|right; auto|right; split; [reflexivity|right]].
      intros l Hl E. exact (Hno l (Hhas l Hl E) E).
    + intros [[[Hx|Hx] Hr]|[-> Hr]]; [left; apply Hlv; tauto|now right|left; apply Hlv; right; split; [reflexivity|]].
      destruct Hr as [Hr|Hno]; [now left|right]. intros l Hl. apply Hno, Hsp. now left.
Qed.

(** A leaf was added for a byte the node had no child for. *)
Lemma ins_post_added path n L p k v replace n' m' (c := kb k (length path + length p)) : node_facts path n L p -> key_ok k ->
  (path ++ p ++ [c]) `prefix_of` vk k -> c ∉ L.*1 -> added (hdr n) L c (Leaf (ArtLeaf v k)) (n', m') ->
  (min_kids n' <= S (length L))%nat -> ins_post path k v replace (leaves (Node n)) (Node n', m', 0, false).
Proof.
  intros Hn Hk Hqc Hni (Hv' & Hsp & Hm' & _) Hmin'. cbn [fst snd] in *. pose proof (nf_view _ _ _ _ Hn) as Hv.
  pose proof (has_prefix_same _ _ _ (nf_prefix _ _ _ _ Hn) Hsp) as (Hpl' & Hst' & _). apply ins_post_new; [|exact Hm'| |].
  - econstructor; [exact Hv'|now rewrite linsert_length|exact Hpl'|exact Hst'|].
    intros e u Heu. apply elem_linsert in Heu as [[= -> ->] | Heu]; [now constructor|now apply (nf_kids _ _ _ _ Hn)].
  - intros l Hl E. destruct (wf_child _ _ _ _ _ _ Hn Hl E) as (u & Hu & _). apply Hni, list_elem_of_fmap. now exists (c, u).
  - intros x. rewrite (elem_leaves _ _ _ Hv'), (elem_leaves _ _ _ Hv). split.
    + intros (e & u & Heu & Hx). apply elem_linsert in Heu as [[= -> ->] | Heu]; [right|left; eauto].
      cbn [leaves] in Hx. now apply list_elem_of_singleton in Hx.
    + intros [(e & u & Heu & Hx)| ->]; [exists e, u|exists c, (Leaf (ArtLeaf v k))]; rewrite elem_linsert; (split; [tauto|]).
      * exact Hx.
      * cbn [leaves]. now apply list_elem_of_singleton.
Qed.

(** The leaf with the key itself. *)
Lemma ins_post_leaf path k v replace l m : path `prefix_of` vk (key l) -> key_ok (key l) -> mem_ok m -> key l = k ->
  ins_post path k v replace (leaves (Leaf l)) (Leaf (if replace then ArtLeaf v (key l) else l), m, value l, true).
Proof.
  intros Hpl Hkl Hm E. split_and!; cbn [fst snd]; [|exact Hm| | |].
  - destruct replace; constructor; cbn [key]; assumption.
  - left. exists l. split; [now apply list_elem_of_singleton|]. now split.
  - split; [|easy]. intros _. exists l. split; [now apply list_elem_of_singleton|exact E].
  - intros x. cbn [leaves]. rewrite !list_elem_of_singleton. destruct replace; split.
    + intros ->. right. rewrite E. auto.
    + intros [[-> [?|?]]|[-> _]]; [easy|easy|]. now rewrite E.
    + intros ->. auto.
    + intros [[-> _]|[_ [?|Hno]]]; [reflexivity|easy|]. exfalso. apply (Hno l); [now apply list_elem_of_singleton|exact E].
Qed.

Lemma insert_ok k v replace path t : key_ok k -> wf path t -> forall fuel m, path `prefix_of` vk k ->
  compat k (leaves t) -> mem_ok m -> (height t < fuel)%nat ->
  wp (art_insert_internal fuel m (Some t) k v (Z.of_nat (length path)) replace) (ins_post path k v replace (leaves t)).
Proof.
  intros Hk. revert path t. apply (wf_induct (fun path t => forall fuel m, path `prefix_of` vk k ->
    compat k (leaves t) -> mem_ok m -> (height t < fuel)%nat -> _)).
  - intros path l Hpl Hkl fuel m Hpk Hcomp Hm Hf. destruct fuel as [|fuel]; [lia|]. cbn [art_insert_internal].
    rewrite leaf_matches_ok by assumption. case_bool_decide as E; [now apply ins_post_leaf|].
    destruct (Hcomp l) as [?|[Hn1 Hn2]]; [now apply list_elem_of_singleton|easy|].
    apply wp_bind. eapply wp_mono; [apply (split_leaf_ok m path l k v); assumption|].
    intros [t m'] (Hwf & Hm' & Hl). cbn [fst snd wp] in *. apply ins_post_new; [exact Hwf|exact Hm'| |].
    + intros l' ->%list_elem_of_singleton. exact E.
    + intros x. rewrite Hl. cbn [leaves]. now rewrite list_elem_of_singleton.
  - intros path n L p Hn IH fuel m Hpk Hcomp Hm Hf. destruct fuel as [|fuel]; [lia|]. cbn [art_insert_internal].
    rewrite (lcp_depth path n L p k fuel Hn) by lia. cbn [bind].
    pose proof (nf_prefix _ _ _ _ Hn) as Hp. pose proof Hp as (Hpl & _ & _ & Hplt). rewrite Hpl. unfold klen in *.
    pose proof (lcp_le p (drop (length path) k)) as [Hlp _].
    replace (u32 (Z.of_nat (lcp p (drop (length path) k)))) with (Z.of_nat (lcp p (drop (length path) k)))
      by (unfold u32; rewrite Z.mod_small; lia).
    destruct (Z.ltb_spec (Z.of_nat (lcp p (drop (length path) k))) (Z.of_nat (length p))) as [Hlt|Hge].
    { apply wp_bind. eapply wp_mono; [apply (split_prefix_ok path n L p k v fuel m); try assumption; lia|].
      intros [t m'] (Hwf & Hm' & Hl & Hno). cbn [fst snd wp] in *. now apply ins_post_new. }
    assert (Hq : (path ++ p) `prefix_of` k).
    { pose proof (wf_depth _ _ _ _ _ Hn Hpk Hcomp) as Hd. apply prefix_vk_short in Hpk as [z ->]; [|exact Hd].
      rewrite drop_app_length in Hge. apply prefix_app, lcp_full. pose proof (lcp_le p z). lia. }
    rewrite <- Nat2Z.inj_add, key_byte_ok. cbn [bind]. set (c := kb k (length path + length p)).
    assert (Hqc : (path ++ p ++ [c]) `prefix_of` vk k).
    { rewrite app_assoc. unfold c. rewrite <- length_app. now apply prefix_kb. }
    pose proof (kb_byte k (length path + length p) Hk) as Hbc. fold c in Hbc. pose proof (nf_view _ _ _ _ Hn) as Hv.
    destruct (find_child_ok n L c Hv Hbc) as [(i & t & -> & Hi)|[-> Hni]]; cbn [bind].
    + destruct (slot_idx_in _ _ _ _ _ Hv Hbc Hi) as [Hin Hs]. rewrite (get_ok _ _ _ Hs). cbn [bind].
      rewrite (depth_step path p c). pose proof (height_child _ _ _ _ Hv Hin) as Hh. apply wp_bind.
      eapply wp_mono; [apply (IH c t Hin fuel m Hqc); [|exact Hm|lia]|].
      { intros l Hl. apply Hcomp, (elem_leaves _ _ _ Hv). eauto. }
      intros [[[t' m'] ret] old] Hpost. rewrite put_ok by (now apply lookup_lt_Some in Hs). cbn [bind wp].
      exact (ins_post_below path n L p k v replace i t _ Hn Hbc Hi Hpost).
    + apply wp_bind. eapply wp_mono; [apply (make_leaf_ok m k v Hm)|]. intros [l2 m2] [El2 Hm2]. cbn [fst snd] in *. subst l2.
      apply wp_bind. eapply wp_mono; [apply (add_child_ok m2 n L c (Leaf (ArtLeaf v k)) Hv Hbc Hni); [|exact Hm2|]; apply Hn|].
      intros [n' m'] [Hadd Hmin']. cbn [wp]. now apply (ins_post_added path n L p k).
Qed.

(** * Deletion *)










End Update.

(** * The map *)

(** A key occurs once. *)
Lemma wf_key_inj path t l1 l2 : wf path t -> l1 ∈ leaves t -> l2 ∈ leaves t -> key l1 = key l2 -> l1 = l2.
Proof.
  intros Hwf. revert path t Hwf l1 l2. apply (wf_induct (fun path t => forall l1 l2, l1 ∈ leaves t -> l2 ∈ leaves t -> _ -> _)).
  - intros path l _ _ l1 l2 ->%list_elem_of_singleton ->%list_elem_of_singleton _. reflexivity.
  - intros path n L p Hn IH l1 l2 H1 H2 E. pose proof (nf_view _ _ _ _ Hn) as Hv.
    destruct (wf_child _ _ _ _ _ _ Hn H1 E) as (t1 & Ht1 & Hl1).
    destruct (wf_child _ _ _ _ _ _ Hn H2 eq_refl) as (t2 & Ht2 & Hl2).
    pose proof (sorted_functional _ _ _ _ (proj1 Hv) Ht1 Ht2) as <-. exact (IH _ _ Ht1 l1 l2 Hl1 Hl2 E).
Qed.

Lemma tmap_lookup t k v : wf_root (root t) ->
  tmap t !! k = Some v <-> ArtLeaf v k ∈ root_leaves (root t).
Proof.
  intros Hwf. unfold tmap. split.
  - intros H. apply elem_of_list_to_map_2 in H. apply list_elem_of_fmap in H as ([v' k'] & [= -> ->] & H). exact H.
  - intros H. apply elem_of_list_to_map_1'.
    + intros v' H'. apply list_elem_of_fmap in H' as ([v2 k2] & [= -> ->] & H').
      destruct (root t) as [u|]; [|now apply not_elem_of_nil in H].
      now injection (wf_key_inj _ _ _ _ Hwf H H' eq_refl).
    + apply list_elem_of_fmap. exists (ArtLeaf v k). now split.
Qed.

Lemma answer_map t k r : wf_root (root t) -> answer k (root_leaves (root t)) r -> r = default 0 (tmap t !! k).
Proof.
  intros Hwf [(l & Hl & E & ->)|[Hno ->]].
  - destruct l as [v k']. cbn in *. subst k'. apply (tmap_lookup t k v Hwf) in Hl. now rewrite Hl.
  - destruct (tmap t !! k) as [v|] eqn:E; [|reflexivity]. apply (tmap_lookup t k v Hwf) in E. now destruct (Hno _ E).
Qed.

(** The keys a key may be inserted next to, on the map. *)
Definition compatible (k : list Z) (m : gmap (list Z) Z) : Prop :=
  forall k' v, m !! k' = Some v -> k' = k \/ (~ vk k' `prefix_of` vk k /\ ~ vk k `prefix_of` vk k').

Lemma compatible_leaves t k : wf_root (root t) -> compatible k (tmap t) -> compat k (root_leaves (root t)).
Proof. intros Hwf Hc [v k'] Hl. apply (Hc k' v). now apply tmap_lookup. Qed.

Section Claims.
Context `{!ArrayMove, !ArrayMoveOk}.

Lemma ins_map t t' k v replace : wf_root (root t) -> wf_root (root t') ->
  ins_leaves k v replace (root_leaves (root t)) (root_leaves (root t')) ->
  tmap t' = match tmap t !! k with Some _ => if replace then <[k := v]> (tmap t) else tmap t | None => <[k := v]> (tmap t) end.
Proof.
  intros Hwf Hwf' Hl.
  assert (Hk : tmap t !! k = None <-> forall l, l ∈ root_leaves (root t) -> key l <> k).
  { split.
    - intros E [v' k'] Hin Ek. cbn in Ek. subst k'. apply (tmap_lookup t k v' Hwf) in Hin. congruence.
    - intros Hno. destruct (tmap t !! k) as [w|] eqn:E; [|reflexivity]. apply (tmap_lookup t k w Hwf) in E. now destruct (Hno _ E). }
  assert (Hlk : forall k' v', tmap t' !! k' = Some v' <->
    (tmap t !! k' = Some v' /\ (k' <> k \/ replace = false)) \/ (k' = k /\ v' = v /\ (replace = true \/ tmap t !! k = None))).
  { intros k' v'. rewrite (tmap_lookup t' k' v' Hwf'), (tmap_lookup t k' v' Hwf), (Hl (ArtLeaf v' k')), Hk. cbn [key].
    split; (intros [HH|HH]; [now left|right]).
    - destruct HH as [[= -> ->] HH]. auto.
    - destruct HH as (-> & -> & HH). auto. }
  apply map_eq. intros k'. apply option_eq. intros v'. rewrite Hlk.
  destruct (tmap t !! k) as [w|] eqn:E; [destruct replace|]; destruct (decide (k' = k)) as [-> | Hne];
    rewrite ?lookup_insert_eq, ?lookup_insert_ne by congruence; rewrite ?E; intuition congruence.
Qed.

Lemma insert_with_ok replace fuel m t k v : tree_ok t -> key_ok k -> compatible k (tmap t) -> mem_ok m ->
  (root_height (root t) + 1 < fuel)%nat ->
  wp (insert_with replace fuel m t k v) (fun '(ret, t', m') => ret = default 0 (tmap t !! k) /\ tree_ok t' /\ mem_ok m' /\
    tmap t' = match tmap t !! k with Some _ => if replace then <[k := v]> (tmap t) else tmap t | None => <[k := v]> (tmap t) end).
Proof.
  intros [Hwf Hsz] Hk Hc Hm Hf. pose proof (compatible_leaves t k Hwf Hc) as Hcomp. unfold insert_with. apply wp_bind.
  assert (Hrun : wp (art_insert_internal fuel m (root t) k v 0 replace) (ins_post [] k v replace (root_leaves (root t)))).
  { destruct (root t) as [u|] eqn:Er; cbn [root_leaves root_height] in *.
    - apply (insert_ok k v replace [] u Hk Hwf); [apply prefix_nil|exact Hcomp|exact Hm|lia].
    - destruct fuel as [|fuel]; [lia|]. cbn [art_insert_internal]. apply wp_bind.
      eapply wp_mono; [apply (make_leaf_ok m k v Hm)|]. intros [l m'] [El Hm']. cbn [fst snd wp] in *. subst l.
      apply ins_post_new; [constructor; [apply prefix_nil|exact Hk]|exact Hm'|intros l Hl; now apply not_elem_of_nil in Hl|].
      intros x. cbn [leaves]. rewrite list_elem_of_singleton, elem_of_nil. tauto. }
  eapply wp_mono; [exact Hrun|]. intros [[[n m'] ret] old] (Hwf' & Hm' & Hans & Hold & Hl). cbn [fst snd wp] in *.
  set (t' := ArtTree _ _). pose proof (ins_map t t' k v replace Hwf Hwf' Hl) as Hmap.
  pose proof (answer_map t k ret Hwf Hans) as Hret. split_and!; [exact Hret| |exact Hm'|exact Hmap].
  split; [exact Hwf'|]. rewrite Hmap. unfold t'. cbn [size].
  assert (Ho : old = true <-> is_Some (tmap t !! k)).
  { rewrite Hold. split.
    - intros ([v' k'] & Hl' & E). cbn in E. subst k'. exists v'. now apply tmap_lookup.
    - intros [w Hw]. apply (tmap_lookup t k w Hwf) in Hw. eauto. }
  destruct (tmap t !! k) as [w|] eqn:E.
  - rewrite (proj2 Ho) by eauto. destruct replace; [rewrite map_size_insert_Some by eauto|]; exact Hsz.
  - destruct old; [destruct (proj1 Ho eq_refl) as [? ?]; discriminate|]. rewrite map_size_insert_None by exact E.
    rewrite Hsz. unfold u64. rewrite Z.add_mod_idemp_l by lia. f_equal. lia.
Qed.

End Claims.

(** * Concrete trees *)

Definition ex_mem : art_mem art := ArtMem (Cache [] 0) (Cache [] 0) [].

Lemma ex_mem_ok : mem_ok ex_mem.
Proof. split_and!; repeat split; try constructor; vm_compute; discriminate. Qed.

(** Insertions one after the other, and searches, with fuel for the tree at hand. *)
Definition tree_fuel (t : art_tree) : nat := root_height (root t) + 2.

Fixpoint insert_all (mv : ArrayMove) (m : art_mem art) (t : art_tree) (kvs : list (list Z * Z)) : res (art_tree * art_mem art) :=
  match kvs with
  | [] => Ok (t, m)
  | (k, v) :: kvs' => let* (_, t, m) := @art_insert mv (tree_fuel t) m t k v in insert_all mv m t kvs'
  end.

Fixpoint search_all (t : art_tree) (ks : list (list Z)) : res (list Z) :=
  match ks with
  | [] => Ok []
  | k :: ks' => let* v := art_search (tree_fuel t) t k in let* vs := search_all t ks' in Ok (v :: vs)
  end.

(** Keys of one length are always compatible. *)
Lemma compatible_length (k : list Z) (m : gmap (list Z) Z) :
  (forall k' v, m !! k' = Some v -> length k' = length k) -> compatible k m.
Proof.
  intros Hl k' v Hk. specialize (Hl k' v Hk). destruct (decide (k' = k)) as [|Hne]; [now left|right].
  assert (Heq : forall x y : list Z, length x = length y -> vk x `prefix_of` vk y -> x = y).
  { intros x y Hxy [z Hz]. unfold vk in Hz. pose proof (f_equal length Hz) as E. rewrite !length_app in E.
    destruct z; [|simpl in E; lia]. rewrite app_nil_r in Hz. now apply app_inj_tail in Hz as [-> _]. }
  split; intros Hp; apply Heq in Hp; congruence.
Qed.

Lemma init_ok : tree_ok art_tree_init.
Proof. split; [exact I|reflexivity]. Qed.

Lemma key_ok_check k : forallb (fun b => (0 <=? b) && (b <? 256)) k && (klen k <? 2 ^ 31) = true -> key_ok k.
Proof.
  intros [Hb Hl]%andb_true_iff. split; [|lia]. rewrite Forall_forall. intros b Hin.
  rewrite forallb_forall in Hb. apply list_elem_of_In in Hin. specialize (Hb b Hin). unfold byte. lia.
Qed.

(** A tree built from keys of one length is well formed and holds them. *)
Lemma insert_all_ok (n : nat) kvs : Forall (fun kv => key_ok kv.1 /\ length kv.1 = n) kvs -> forall t m, tree_ok t -> mem_ok m ->
  (forall k v, tmap t !! k = Some v -> length k = n) ->
  wp (insert_all c_memmove m t kvs) (fun r => tree_ok r.1 /\ mem_ok r.2 /\ tmap r.1 = foldl (fun mp kv => <[kv.1 := kv.2]> mp) (tmap t) kvs).
Proof.
  induction 1 as [|[k v] kvs [Hk Hkl] _ IH]; intros t m Ht Hm Hl; cbn [insert_all foldl]; [now split_and!|].
  cbn [fst snd] in *. apply wp_bind.
  eapply wp_mono; [apply (@insert_with_ok c_memmove c_memmove_ok true (tree_fuel t) m t k v Ht Hk); [|exact Hm|unfold tree_fuel; lia]|].
  { apply compatible_length. intros k' v' Hk'. rewrite Hkl. exact (Hl k' v' Hk'). }
  intros [[ret t'] m'] (_ & Ht' & Hm' & Hmap).
  assert (E : tmap t' = <[k := v]> (tmap t)) by (rewrite Hmap; now destruct (tmap t !! k)).
  rewrite <- E. apply IH; [exact Ht'|exact Hm'|]. intros k' v' Hk'. rewrite E in Hk'.
  apply lookup_insert_Some in Hk' as [[<- _]|[_ Hk']]; [exact Hkl|]. exact (Hl k' v' Hk').
Qed.

Definition ex_kvs : list (list Z * Z) := [([1; 2; 3], 11); ([1; 2; 4], 12); ([7; 0; 9], 13)].

Definition ex_tree : art_tree :=
  match insert_all c_memmove ex_mem art_tree_init ex_kvs with
  | Ok (t, _) => t
  | _ => art_tree_init
  end.

Lemma ex_tree_ok : tree_ok ex_tree.
Proof.
  pose proof (insert_all_ok 3 ex_kvs) as Hrun. unfold ex_tree.
  destruct (insert_all c_memmove ex_mem art_tree_init ex_kvs) as [[t m]| |] eqn:E; [|exact init_ok..].
  specialize (Hrun ltac:(repeat constructor; vm_compute; discriminate) art_tree_init ex_mem init_ok ex_mem_ok).
  rewrite E in Hrun. apply Hrun. intros k v Hk. change (tmap art_tree_init) with (∅ : gmap (list Z) Z) in Hk.
  now rewrite lookup_empty in Hk.
Qed.


(** * The properties *)

(** C12: on a well-formed tree [art_search] returns the value stored under the key and
    NULL for every other key; it always ends, and skipping stored prefixes of more
    than ten bytes is made up for by the comparison at the leaf. *)
Theorem art_search_correct (t : art_tree) (k : list Z) (fuel : nat) :
  tree_ok t -> key_ok k -> (root_height (root t) < fuel)%nat ->
  art_search fuel t k = Ok (default 0 (tmap t !! k)).
Proof.
  intros [Hwf _] Hk Hf. unfold art_search. apply wp_eq. eapply wp_mono; [|intros r; apply (answer_map t k r Hwf)].
  destruct (root t) as [u|] eqn:Er; cbn [root_leaves root_height] in *.
  - apply (search_ok [] u k fuel); [exact Hwf|exact Hk|lia].
  - destruct fuel as [|fuel]; [lia|]. cbn. right. split; [|reflexivity]. intros l Hl. now apply not_elem_of_nil in Hl.
Qed.

Lemma art_search_correct_witness : art_search 9 ex_tree [1; 2; 4] = Ok 12.
Proof. apply (art_search_correct ex_tree [1; 2; 4] 9 ex_tree_ok); [now apply key_ok_check|vm_compute; lia]. Defined.





(** A run on the kernel's own [memmove]: insertions, at most one deletion, searches. *)
Definition kernel_run (t : arch) (kvs : list (list Z * Z)) (del : option (list Z)) (look : list (list Z)) : res (list Z) :=
  let* (tr, m) := insert_all (kernel_memmove t) ex_mem art_tree_init kvs in
  match del with
  | Some k =>
      let* (_, tr, _) := @art_delete (kernel_memmove t) (tree_fuel tr) m tr k in search_all tr look
  | None => search_all tr look
  end.

Definition ex_bytes (l : list Z) : list (list Z * Z) := map (fun c => ([c], 100 + c)) l.

(** with the kernel's [memmove] on x86-64, which does nothing for fewer than 16 bytes
    towards lower addresses, [art_delete] breaks the node it deletes from: of the keys 1,
    2 and 3, deleting 1 leaves the children moved and the key bytes not, and neither 2
    nor 3 is found any more. *)
Theorem art_delete_x86_loses_keys :
  kernel_run X86_64 (ex_bytes [1; 2; 3]) None [[1]; [2]; [3]] = Ok [101; 102; 103] /\
  kernel_run X86_64 (ex_bytes [1; 2; 3]) (Some [1]) [[1]; [2]; [3]] = Ok [0; 0; 0] /\
  kernel_run Generic (ex_bytes [1; 2; 3]) (Some [1]) [[1]; [2]; [3]] = Ok [0; 102; 103].
Proof. split_and!; vm_compute; reflexivity. Qed.

(** with the kernel's [memmove], insertion loses keys.  On x86-64 the prefix of a
    node that is split stays unshifted, so the keys below it are not found; on every
    target a new least key among nine or more moves eight or more child pointers up by
    one, which the unrolled block of [memmove] overwrites with copies of one of them. *)
Theorem art_insert_kernel_loses_keys :
  kernel_run X86_64 [([1; 2; 3; 4; 5], 11); ([1; 2; 3; 4; 6], 12); ([1; 2; 9], 13)] None
    [[1; 2; 3; 4; 5]; [1; 2; 3; 4; 6]; [1; 2; 9]] = Ok [0; 0; 13] /\
  (forall t, kernel_run t (ex_bytes [20; 21; 22; 23; 24; 25; 26; 27; 1]) None [[20]; [21]; [27]; [1]] = Ok [120; 0; 0; 101]).
Proof. split; [|intros []]; vm_compute; reflexivity. Qed.

(** the condition on keys is needed: a key and the same key with a 0 byte behind it
    get the same child index, and the one inserted first is the only one found. *)
Theorem art_insert_zero_extension :
  exists t m, insert_all c_memmove ex_mem art_tree_init [([5], 11); ([5; 0], 12)] = Ok (t, m) /\ size t = 2 /\
    search_all t [[5]; [5; 0]] = Ok [11; 0].
Proof. eexists _, _. split; [vm_compute; reflexivity|]. split; vm_compute; reflexivity. Qed.

(** [art_iter_prefix] calls back for keys that do not have the prefix: a mismatch
    inside a node's prefix is not noticed unless it is at its first byte.  Asked for the
    prefix 1 8 3 4 5 it visits the keys 1 2 3 4 5 6 and 1 2 3 4 5 7. *)
Theorem art_iter_prefix_unsound :
  exists t m, insert_all c_memmove ex_mem art_tree_init
      [([1; 2; 3; 4; 5; 6], 11); ([1; 2; 3; 4; 5; 7], 12); ([1; 2; 3; 9], 13)] = Ok (t, m) /\
    art_iter_prefix (fun k v u => (0, u ++ [k])) 40 [] t [1; 8; 3; 4; 5] [] =
      Ok (0, [[1; 2; 3; 4; 5; 6]; [1; 2; 3; 4; 5; 7]], []).
Proof. eexists _, _. split; [vm_compute; reflexivity|]. vm_compute. reflexivity. Qed.
