(* ===== verification/Arrays.v ===== *)
(** Arrays as the C code indexes them: bounds-checked reads and writes, the
    exchange of two elements, and the relation "this array is that one with the
    elements of a segment rearranged", which all in-place sorts preserve. *)
From stdpp Require Import base gmap list fin_maps.
From Stdlib Require Import ZArith Lia.
From S2P Require Import Prelude.

Open Scope Z_scope.
Open Scope c_scope.

Section Arrays.
Context {A : Type} `{!Inhabited A}.
Implicit Types a b : list A.

(** The element at an index; meaningful inside the array only. *)
Definition at_ (a : list A) (i : Z) : A := a !!! Z.to_nat i.

Definition in_range (a : list A) (i : Z) : bool :=
  (0 <=? i) && (i <? Z.of_nat (length a)).

(** [a[i]] and [a[i] = v]: an index outside the array is a fault. *)
Definition aget (a : list A) (i : Z) : res A :=
  if in_range a i then Ok (at_ a i) else Fault.

Definition aset (a : list A) (i : Z) (v : A) : res (list A) :=
  if in_range a i then Ok (<[Z.to_nat i := v]> a) else Fault.

(** [t = a[i]; a[i] = a[j]; a[j] = t;] *)
Definition aswap (a : list A) (i j : Z) : res (list A) :=
  let* x := aget a i in
  let* y := aget a j in
  let* a1 := aset a i y in
  aset a1 j x.

Definition swap (a : list A) (i j : Z) : list A :=
  <[Z.to_nat j := at_ a i]> (<[Z.to_nat i := at_ a j]> a).

Definition len (a : list A) : Z := Z.of_nat (length a).

Lemma in_range_spec a i : 0 <= i < len a -> in_range a i = true.
Proof. unfold in_range, len. intros. rewrite andb_true_iff, Z.leb_le, Z.ltb_lt. lia. Qed.

Lemma aget_ok a i : 0 <= i < len a -> aget a i = Ok (at_ a i).
Proof. intros H. unfold aget. rewrite in_range_spec by exact H. reflexivity. Qed.

Lemma aset_ok a i v : 0 <= i < len a -> aset a i v = Ok (<[Z.to_nat i := v]> a).
Proof. intros H. unfold aset. rewrite in_range_spec by exact H. reflexivity. Qed.

Lemma len_insert a i v : len (<[i := v]> a) = len a.
Proof. unfold len. rewrite length_insert. reflexivity. Qed.

Lemma len_swap a i j : len (swap a i j) = len a.
Proof. unfold swap. rewrite !len_insert. reflexivity. Qed.

Lemma aswap_ok a i j : 0 <= i < len a -> 0 <= j < len a -> aswap a i j = Ok (swap a i j).
Proof.
  intros Hi Hj. unfold aswap. rewrite (aget_ok a i) by assumption. simpl.
  rewrite (aget_ok a j) by assumption. simpl. rewrite aset_ok by assumption. simpl.
  rewrite aset_ok by (rewrite len_insert; assumption). reflexivity.
Qed.

Lemma at_insert a i v k : 0 <= i < len a -> 0 <= k ->
  at_ (<[Z.to_nat i := v]> a) k = if k =? i then v else at_ a k.
Proof.
  unfold at_, len. intros Hi Hk. destruct (k =? i) eqn:E; to_prop.
  - subst k. apply list_lookup_total_insert_eq. lia.
  - apply list_lookup_total_insert_ne. lia.
Qed.

Lemma at_swap a i j k : 0 <= i < len a -> 0 <= j < len a -> 0 <= k ->
  at_ (swap a i j) k = if k =? j then at_ a i else if k =? i then at_ a j else at_ a k.
Proof.
  intros Hi Hj Hk. unfold swap. rewrite at_insert by (rewrite ?len_insert; lia).
  rewrite at_insert by lia. reflexivity.
Qed.

Lemma lookup_at a i : 0 <= i < len a -> a !! Z.to_nat i = Some (at_ a i).
Proof. unfold len, at_. intros H. apply list_lookup_lookup_total_lt. lia. Qed.

Lemma swap_perm a i j : 0 <= i < len a -> 0 <= j < len a -> swap a i j ≡ₚ a.
Proof.
  intros Hi Hj. unfold swap. apply Permutation_insert_swap; apply lookup_at; assumption.
Qed.

(** Two arrays agree as soon as they agree at every index. *)
Lemma at_ext a b : len a = len b -> (forall k, 0 <= k < len a -> at_ a k = at_ b k) -> a = b.
Proof.
  intros Hl H. apply list_eq_same_length with (length a); [unfold len in *; lia|reflexivity|].
  intros i x y Hi Hx Hy. specialize (H (Z.of_nat i)). unfold at_, len in H.
  rewrite Nat2Z.id in H. rewrite (list_lookup_total_correct _ _ _ Hx) in H.
  rewrite (list_lookup_total_correct _ _ _ Hy) in H. apply H. lia.
Qed.

(** [rearr lo hi a b]: [b] is [a] with the elements at [lo .. hi-1] rearranged
    among themselves. *)
Record rearr (lo hi : Z) (a b : list A) : Prop := {
  rearr_len : len b = len a;
  rearr_perm : b ≡ₚ a;
  rearr_out : forall k, 0 <= k -> ~ (lo <= k < hi) -> at_ b k = at_ a k;
  rearr_in : forall k, lo <= k < hi -> exists k', lo <= k' < hi /\ at_ b k = at_ a k'
}.

Lemma rearr_refl lo hi a : rearr lo hi a a.
Proof. split; auto. intros k Hk. exists k. auto. Qed.

Lemma rearr_trans lo hi a b c : rearr lo hi a b -> rearr lo hi b c -> rearr lo hi a c.
Proof.
  intros [L1 P1 O1 I1] [L2 P2 O2 I2]. split.
  - congruence.
  - etransitivity; eassumption.
  - intros k H1 H2. rewrite O2, O1 by assumption. reflexivity.
  - intros k Hk. destruct (I2 k Hk) as (k' & Hk' & E). destruct (I1 k' Hk') as (k'' & Hk'' & E').
    exists k''. split; [exact Hk''|]. congruence.
Qed.

Lemma rearr_weaken lo hi lo' hi' a b : lo' <= lo -> hi <= hi' ->
  0 <= lo' -> rearr lo hi a b -> rearr lo' hi' a b.
Proof.
  intros H1 H2 H0 [L P O I]. split; auto.
  - intros k Hk Hn. apply O; [exact Hk|lia].
  - intros k Hk. destruct (decide (lo <= k < hi)) as [Hin|Hout].
    + destruct (I k Hin) as (k' & Hk' & E). exists k'. split; [lia|exact E].
    + exists k. split; [exact Hk|]. apply O; lia.
Qed.

Lemma rearr_swap lo hi a i j : 0 <= lo -> hi <= len a ->
  lo <= i < hi -> lo <= j < hi -> rearr lo hi a (swap a i j).
Proof.
  intros Hlo Hhi Hi Hj. split.
  - apply len_swap.
  - apply swap_perm; lia.
  - intros k H1 H2. rewrite at_swap by lia.
    destruct (k =? j) eqn:E1; to_prop; [lia|]. destruct (k =? i) eqn:E2; to_prop; [lia|reflexivity].
  - intros k Hk. rewrite at_swap by lia.
    destruct (k =? j); [eauto|]. destruct (k =? i); eauto.
Qed.

(** A property of all elements of the segment survives a rearrangement. *)
Lemma rearr_all lo hi a b (P : A -> Prop) : rearr lo hi a b ->
  (forall k, lo <= k < hi -> P (at_ a k)) -> forall k, lo <= k < hi -> P (at_ b k).
Proof. intros [_ _ _ I] H k Hk. destruct (I k Hk) as (k' & Hk' & ->). apply H, Hk'. Qed.
End Arrays.

Arguments rearr_len {A _ lo hi a b}.
Arguments rearr_perm {A _ lo hi a b}.
Arguments rearr_out {A _ lo hi a b}.
