(* ===== verification/Sort.v ===== *)
(** The typed sorts of [src/lib/stdc/algo/sortAsearch.c]: insertion sort,
    heapsort and introsort as the macro [DEFINE_SORT_SPECIALIZED] writes them,
    over an array of elements with the two comparisons the code uses. *)
From stdpp Require Import base gmap list fin_maps.
From Stdlib Require Import ZArith Lia Sorting.Sorted.
From S2P Require Import Prelude Arrays.

Open Scope Z_scope.
Open Scope c_scope.

(** * The code *)

Section Code.
Context {A : Type} `{!Inhabited A} (gtb ltb : A -> A -> bool).

(** [while (j > 0 && base[j-1] > tmp) { base[j] = base[j-1]; j--; }] *)
Definition insertion_inner (fuel : nat) (a : list A) (base i : Z) (tmp : A)
  : res (list A * Z) :=
  loop fuel (fun '(a, j) =>
    if 0 <? j then
      let* p := aget a (base + (j - 1)) in
      if gtb p tmp then
        let* a' := aset a (base + j) p in
        Ok (inl (a', j - 1))
      else Ok (inr (a, j))
    else Ok (inr (a, j))) (a, i).

Definition insertion_sort (fuel : nat) (a : list A) (base nmemb : Z) : res (list A) :=
  loop fuel (fun '(a, i) =>
    if i <? nmemb then
      let* tmp := aget a (base + i) in
      let* (a', j) := insertion_inner fuel a base i tmp in
      let* a'' := if negb (j =? i) then aset a' (base + j) tmp else Ok a' in
      Ok (inl (a'', i + 1))
    else Ok (inr a)) (a, 1).

(** The larger child of [root], the left one when there is only one. *)
Definition pick_child (a : list A) (base root end_ : Z) : res Z :=
  let child := root * 2 + 1 in
  if child + 1 <=? end_ then
    let* x := aget a (base + child) in
    let* y := aget a (base + (child + 1)) in
    Ok (if ltb x y then child + 1 else child)
  else Ok child.

Definition sift_down (fuel : nat) (a : list A) (base start end_ : Z) : res (list A) :=
  loop fuel (fun '(a, root) =>
    if root * 2 + 1 <=? end_ then
      let* child := pick_child a base root end_ in
      let* x := aget a (base + root) in
      let* y := aget a (base + child) in
      if ltb x y then
        let* a' := aswap a (base + root) (base + child) in
        Ok (inl (a', child))
      else Ok (inr a)
    else Ok (inr a)) (a, start).

(** [do { sift_down(base, start, end); } while (start-- > 0);] *)
Definition heapify (fuel : nat) (a : list A) (base start end_ : Z) : res (list A) :=
  loop fuel (fun '(a, start) =>
    let* a' := sift_down fuel a base start end_ in
    if 0 <? start then Ok (inl (a', start - 1)) else Ok (inr a')) (a, start).

(** [while (end > 0) { swap base[0], base[end]; end--; sift_down(base, 0, end); }] *)
Definition heap_extract (fuel : nat) (a : list A) (base end_ : Z) : res (list A) :=
  loop fuel (fun '(a, end_) =>
    if 0 <? end_ then
      let* a1 := aswap a (base + 0) (base + end_) in
      let* a2 := sift_down fuel a1 base 0 (end_ - 1) in
      Ok (inl (a2, end_ - 1))
    else Ok (inr a)) (a, end_).

Definition heapsort (fuel : nat) (a : list A) (base nmemb : Z) : res (list A) :=
  if nmemb <? 2 then Ok a
  else
    let end_ := nmemb - 1 in
    let start := (end_ - 1) / 2 in
    let* a1 := heapify fuel a base start end_ in
    heap_extract fuel a1 base end_.

Definition cond_swap (a : list A) (i j : Z) : res (list A) :=
  let* x := aget a i in
  let* y := aget a j in
  if gtb x y then aswap a i j else Ok a.

Definition median3 (a : list A) (lo mid hi : Z) : res (list A) :=
  let* a1 := cond_swap a lo mid in
  let* a2 := cond_swap a1 lo hi in
  cond_swap a2 mid hi.

(** The three-way (Dutch national flag) partition; the result carries the
    final [lt] and [gt]. *)
Definition partition (fuel : nat) (a : list A) (lo hi : Z) (pivot : A)
  : res (list A * Z * Z) :=
  loop fuel (fun '(a, lt, gt, i) =>
    if i <=? gt then
      let* x := aget a i in
      if ltb x pivot then
        let* a' := aswap a lt i in
        Ok (inl (a', lt + 1, gt, i + 1))
      else if gtb x pivot then
        let* a' := aswap a i gt in
        Ok (inl (a', lt, gt - 1, i))
      else Ok (inl (a, lt, gt, i + 1))
    else Ok (inr (a, lt, gt))) (a, lo, hi, lo).

(** One level of the recursion and of the [while] loop each consume one unit
    of [depth_limit]; the next turn of the loop is the tail call. *)
Fixpoint introsort (fuel : nat) (depth_limit : nat) (a : list A) (base nmemb : Z)
  : res (list A) :=
  if 16 <? nmemb then
    match depth_limit with
    | O => heapsort fuel a base nmemb
    | S d =>
        let lo := base in
        let mid := base + nmemb / 2 in
        let hi := base + nmemb - 1 in
        let* a1 := median3 a lo mid hi in
        let* pivot_val := aget a1 mid in
        let* (a2, lt, gt) := partition fuel a1 lo hi pivot_val in
        let left_nmemb := lt - base in
        let right_nmemb := (base + nmemb) - (gt + 1) in
        if left_nmemb <? right_nmemb then
          let* a3 := introsort fuel d a2 base left_nmemb in
          introsort fuel d a3 (gt + 1) right_nmemb
        else
          let* a3 := introsort fuel d a2 (gt + 1) right_nmemb in
          introsort fuel d a3 base left_nmemb
    end
  else if 1 <? nmemb then insertion_sort fuel a base nmemb
  else Ok a.
End Code.

(** [64 - __builtin_clzll(nmemb) + 2] *)
Definition get_depth_limit (nmemb : Z) : Z := 64 - clz64 nmemb + 2.

(** The instantiations for [int32_t] and [int64_t]: elements are integers of
    that range compared with [>] and [<]. *)
Definition i32_introsort (fuel : nat) (depth : Z) (a : list Z) (base nmemb : Z) : res (list Z) :=
  introsort Z.gtb Z.ltb fuel (Z.to_nat depth) a base nmemb.
Definition i64_introsort (fuel : nat) (depth : Z) (a : list Z) (base nmemb : Z) : res (list Z) :=
  introsort Z.gtb Z.ltb fuel (Z.to_nat depth) a base nmemb.

(** * Correctness *)

(** What a comparator must satisfy: [gtb] is the strict part of a total
    preorder and [ltb] its converse. *)
Class CmpOrder {A : Type} (gtb ltb : A -> A -> bool) : Prop := {
  cmp_conv : forall x y, ltb x y = gtb y x;
  cmp_asym : forall x y, gtb x y = true -> gtb y x = false;
  cmp_trans : forall x y z, gtb x y = false -> gtb y z = false -> gtb x z = false
}.

#[export] Instance Z_CmpOrder : CmpOrder Z.gtb Z.ltb.
Proof.
  split; intros *; rewrite ?Z.gtb_ltb; auto.
  - rewrite Z.ltb_lt, Z.ltb_ge. lia.
  - rewrite !Z.ltb_ge. lia.
Qed.

Ltac at_simp :=
  repeat first
    [ rewrite at_swap by (rewrite ?len_swap, ?len_insert; lia)
    | rewrite at_insert by (rewrite ?len_swap, ?len_insert; lia) ].

Ltac at_cases :=
  at_simp;
  repeat match goal with
  | |- context [?x =? ?y] =>
      let E := fresh "E" in destruct (x =? y) eqn:E;
      [apply Z.eqb_eq in E|apply Z.eqb_neq in E]; try lia
  end.

Section Correct.
Context {A : Type} `{!Inhabited A} (gtb ltb : A -> A -> bool).
Context `{Ord : !CmpOrder gtb ltb}.

Definition leA (x y : A) : Prop := gtb x y = false.

Lemma leA_refl x : leA x x.
Proof using Ord. unfold leA. destruct (gtb x x) eqn:E; [|reflexivity]. rewrite <- E. apply cmp_asym, E. Qed.

Lemma leA_trans x y z : leA x y -> leA y z -> leA x z.
Proof using Ord. apply cmp_trans. Qed.

Lemma gt_leA x y : gtb x y = true -> leA y x.
Proof using Ord. apply cmp_asym. Qed.

Lemma lt_leA x y : ltb x y = true -> leA x y.
Proof using Ord. rewrite cmp_conv. apply gt_leA. Qed.

Lemma nlt_leA x y : ltb x y = false -> leA y x.
Proof using Ord. rewrite cmp_conv. auto. Qed.

Definition sorted_seg (lo hi : Z) (a : list A) : Prop :=
  forall i j, lo <= i -> i <= j -> j < hi -> leA (at_ a i) (at_ a j).

(** The result of sorting the [n] elements from [base]. *)
Definition sorts (base n : Z) (a a' : list A) : Prop :=
  rearr base (base + n) a a' /\ sorted_seg base (base + n) a'.

(** ** Insertion sort *)

Section Insertion.
Context (a : list A) (base i : Z) (tmp : A).
Hypothesis Hbase : 0 <= base.
Hypothesis Hi : 1 <= i.
Hypothesis Hlen : base + i < len a.
Hypothesis Htmp : tmp = at_ a (base + i).

(** The array the loop is about to produce: the hole filled with [tmp]. *)
Definition filled (a' : list A) (j : Z) : list A := <[Z.to_nat (base + j) := tmp]> a'.

Record ins_inv (a' : list A) (j : Z) : Prop := {
  ii_j : 0 <= j <= i;
  ii_len : len a' = len a;
  ii_same : j = i -> a' = a;
  ii_rearr : rearr base (base + i + 1) a (filled a' j);
  ii_sorted : forall u v, 0 <= u < v -> v <= i -> u <> j -> v <> j ->
    leA (at_ (filled a' j) (base + u)) (at_ (filled a' j) (base + v));
  ii_gt : forall v, j < v <= i -> gtb (at_ (filled a' j) (base + v)) tmp = true
}.

Lemma ins_inv_init : sorted_seg base (base + i) a -> ins_inv a i.
Proof using Hbase Hi Hlen Htmp.
  intros Hs. assert (filled a i = a) as E.
  { apply at_ext; [apply len_insert|]. intros k Hk. unfold filled in *. rewrite len_insert in Hk.
    at_cases; subst; reflexivity. }
  split; rewrite ?E; auto; try lia.
  - apply rearr_refl.
  - intros u v Hu Hv Hu' Hv'. apply Hs; lia.
Qed.

Lemma ins_inv_step a' j : ins_inv a' j -> 0 < j -> gtb (at_ a' (base + (j - 1))) tmp = true ->
  ins_inv (<[Z.to_nat (base + j) := at_ a' (base + (j - 1))]> a') (j - 1).
Proof using Hbase Hi Hlen Htmp.
  intros [Hj Hl Hs Hr Hso Hg] Hj0 Hgt.
  assert (filled (<[Z.to_nat (base + j) := at_ a' (base + (j - 1))]> a') (j - 1)
          = swap (filled a' j) (base + (j - 1)) (base + j)) as E.
  { apply at_ext; [unfold filled; rewrite ?len_swap, ?len_insert; reflexivity|].
    intros k Hk. unfold filled in *. rewrite !len_insert in Hk.
    at_cases; subst; try (f_equal; lia); reflexivity. }
  split; rewrite ?E, ?len_insert; auto; try lia.
  - eapply rearr_trans; [exact Hr|]. apply rearr_swap; unfold filled; rewrite ?len_insert; lia.
  - intros u v Hu Hv Hu' Hv'.
    rewrite !at_swap by (unfold filled; rewrite ?len_insert; lia).
    destruct (base + u =? base + j) eqn:E1, (base + v =? base + j) eqn:E2,
      (base + u =? base + (j - 1)) eqn:E3, (base + v =? base + (j - 1)) eqn:E4;
      to_prop; try lia; apply Hso; lia.
  - intros v Hv. rewrite at_swap by (unfold filled; rewrite ?len_insert; lia).
    destruct (base + v =? base + j) eqn:E1; to_prop.
    + replace (at_ (filled a' j) (base + (j - 1))) with (at_ a' (base + (j - 1))); [exact Hgt|].
      unfold filled. at_cases. reflexivity.
    + destruct (base + v =? base + (j - 1)) eqn:E2; to_prop; [lia|]. apply Hg. lia.
Qed.

Lemma ins_inv_exit a' j : ins_inv a' j ->
  (0 < j -> leA (at_ a' (base + (j - 1))) tmp) ->
  rearr base (base + i + 1) a (filled a' j) /\ sorted_seg base (base + i + 1) (filled a' j).
Proof using Ord Hbase Hi Hlen Htmp.
  intros [Hj Hl Hs Hr Hso Hg] He. split; [exact Hr|].
  assert (Hat : at_ (filled a' j) (base + j) = tmp) by (unfold filled; at_cases; reflexivity).
  assert (Hlow : forall u, 0 <= u < j -> leA (at_ (filled a' j) (base + u)) tmp).
  { intros u Hu. assert (Hp : leA (at_ (filled a' j) (base + (j - 1))) tmp).
    { replace (at_ (filled a' j) (base + (j - 1))) with (at_ a' (base + (j - 1))); [apply He; lia|].
      unfold filled. at_cases. reflexivity. }
    destruct (decide (u = j - 1)) as [->|]; [exact Hp|].
    eapply leA_trans; [apply (Hso u (j - 1)); lia|exact Hp]. }
  intros x y Hx Hxy Hy. destruct (decide (x = y)) as [->|Hne]; [apply leA_refl|].
  destruct (decide (x = base + j)) as [->|Hxj].
  - rewrite Hat. apply gt_leA. replace y with (base + (y - base)) by lia. apply Hg. lia.
  - destruct (decide (y = base + j)) as [->|Hyj].
    + rewrite Hat. replace x with (base + (x - base)) by lia. apply Hlow. lia.
    + replace x with (base + (x - base)) by lia. replace y with (base + (y - base)) by lia.
      apply Hso; lia.
Qed.

Lemma insertion_inner_ok fuel : sorted_seg base (base + i) a -> i < Z.of_nat fuel ->
  wp (insertion_inner gtb fuel a base i tmp) (fun '(a', j) =>
    ins_inv a' j /\ (0 < j -> leA (at_ a' (base + (j - 1))) tmp)).
Proof using Hbase Hi Hlen Htmp.
  intros Hs Hf. apply (wp_loop (fun '(a', j) => ins_inv a' j) (fun st => Z.to_nat st.2)).
  - intros [a' j] Hinv. unfold step_ok. destruct (0 <? j) eqn:Ej; to_prop.
    + pose proof (ii_len _ _ Hinv). pose proof (ii_j _ _ Hinv).
      rewrite aget_ok by lia. simpl. destruct (gtb _ tmp) eqn:Eg.
      * rewrite aset_ok by lia. simpl. split; [apply ins_inv_step; auto|lia].
      * simpl. auto.
    + simpl. split; [exact Hinv|lia].
  - apply ins_inv_init, Hs.
  - simpl. lia.
Qed.
End Insertion.

Lemma insertion_sort_ok fuel a base n : 0 <= base -> 1 <= n -> base + n <= len a ->
  n < Z.of_nat fuel ->
  wp (insertion_sort gtb fuel a base n) (sorts base n a).
Proof using Ord.
  intros Hb Hn Hl Hf.
  apply (wp_loop (fun '(a', i) => 1 <= i <= n /\ rearr base (base + n) a a' /\
                    sorted_seg base (base + i) a') (fun st => Z.to_nat (n - st.2))).
  - intros [a' i] (Hi & Hr & Hs). unfold step_ok. destruct (i <? n) eqn:Ei; to_prop.
    2:{ simpl. replace i with n in Hs by lia. split; assumption. }
    pose proof (rearr_len Hr) as Hlen. rewrite aget_ok by lia. simpl. apply wp_bind.
    eapply wp_mono; [apply (insertion_inner_ok a' base i); auto; lia|].
    intros [a1 j] [Hinv Hexit]. pose proof (ii_j _ _ _ _ _ _ Hinv) as Hj.
    pose proof (ii_len _ _ _ _ _ _ Hinv) as Hl1.
    destruct (ins_inv_exit a' base i _ Hb ltac:(lia) ltac:(lia) eq_refl a1 j Hinv Hexit) as [Hr1 Hs1].
    assert (Hset : (let* a'' := if negb (j =? i) then aset a1 (base + j) (at_ a' (base + i)) else Ok a1 in
      Ok (inl (a'', i + 1))) = Ok (inl (B := list A) (filled base (at_ a' (base + i)) a1 j, i + 1))).
    { destruct (j =? i) eqn:E; to_prop; simpl.
      - assert (a1 = a') as -> by (apply (ii_same _ _ _ _ _ _ Hinv), E). do 3 f_equal.
        subst j. apply at_ext; [unfold filled; rewrite len_insert; reflexivity|].
        intros k Hk. unfold filled. at_cases; [subst|]; reflexivity.
      - rewrite aset_ok by lia. reflexivity. }
    rewrite Hset. simpl. split; [|lia]. split; [lia|]. split.
    + eapply rearr_trans; [exact Hr|]. eapply rearr_weaken; [| | |exact Hr1]; lia.
    + replace (base + (i + 1)) with (base + i + 1) by lia. exact Hs1.
  - split; [lia|]. split; [apply rearr_refl|]. intros x y Hx Hxy Hy.
    replace y with x by lia. apply leA_refl.
  - simpl. lia.
Qed.
End Correct.

(** ** Heapsort *)

Section Heap.
Context {A : Type} `{!Inhabited A} (gtb ltb : A -> A -> bool).
Context `{Ord : !CmpOrder gtb ltb}.
Context (base : Z).
Hypothesis Hbase : 0 <= base.

Local Notation "x ⊑ y" := (leA gtb x y) (at level 70).

(** Node [k] of the heap laid out from [base]. *)
Definition node (a : list A) (k : Z) : A := at_ a (base + k).

Definition child_of (k c : Z) : Prop := c = 2 * k + 1 \/ c = 2 * k + 2.

(** The nodes from [s] on dominate their children up to [e]. *)
Definition heap_from (a : list A) (s e : Z) : Prop :=
  forall k c, s <= k -> child_of k c -> c <= e -> node a c ⊑ node a k.

Lemma node_swap a i j k : 0 <= i -> 0 <= j -> base + i < len a -> base + j < len a -> 0 <= k ->
  node (swap a (base + i) (base + j)) k =
    if k =? j then node a i else if k =? i then node a j else node a k.
Proof using Hbase.
  intros. unfold node. rewrite at_swap by lia.
  destruct (base + k =? base + j) eqn:E1, (k =? j) eqn:E2; to_prop; try lia; [reflexivity|].
  destruct (base + k =? base + i) eqn:E3, (k =? i) eqn:E4; to_prop; try lia; reflexivity.
Qed.

Lemma pick_child_ok a root e : 0 <= root -> root * 2 + 1 <= e -> base + e < len a ->
  wp (pick_child ltb a base root e) (fun c =>
    child_of root c /\ c <= e /\ forall c', child_of root c' -> c' <= e -> node a c' ⊑ node a c).
Proof using Ord Hbase.
  intros Hr He Hl. unfold pick_child, child_of. destruct (_ <=? e) eqn:E; to_prop.
  - rewrite aget_ok by lia. simpl. rewrite aget_ok by lia. simpl.
    destruct (ltb _ _) eqn:El.
    + apply (lt_leA gtb ltb) in El. split; [lia|]. split; [lia|]. intros c' [-> | ->] Hc'.
      * unfold node. replace (2 * root + 1) with (root * 2 + 1) by lia. exact El.
      * replace (2 * root + 2) with (root * 2 + 1 + 1) by lia. apply (leA_refl gtb ltb).
    + apply (nlt_leA gtb ltb) in El. split; [lia|]. split; [lia|]. intros c' [-> | ->] Hc'.
      * replace (2 * root + 1) with (root * 2 + 1) by lia. apply (leA_refl gtb ltb).
      * unfold node. replace (2 * root + 2) with (root * 2 + 1 + 1) by lia. exact El.
  - simpl. split; [lia|]. split; [lia|]. intros c' [-> | ->] Hc'; [|lia].
    replace (2 * root + 1) with (root * 2 + 1) by lia. apply (leA_refl gtb ltb).
Qed.

(** While sifting, only [root] may be smaller than its children, and its
    parent already dominates them. *)
Definition sift_inv (start e : Z) (a a' : list A) (root : Z) : Prop :=
  start <= root /\ rearr base (base + e + 1) a a' /\
  (forall k c, start <= k -> k <> root -> child_of k c -> c <= e -> node a' c ⊑ node a' k) /\
  (forall k c, start <= k -> child_of k root -> child_of root c -> c <= e ->
     node a' c ⊑ node a' k).

Lemma sift_inv_step start e a a' root c :
  0 <= start -> base + e < len a -> sift_inv start e a a' root ->
  child_of root c -> c <= e ->
  (forall c', child_of root c' -> c' <= e -> node a' c' ⊑ node a' c) ->
  node a' root ⊑ node a' c ->
  sift_inv start e a (swap a' (base + root) (base + c)) c.
Proof using Ord Hbase.
  intros Hs Hl (H1 & Hr & H2 & H3) Hc Hce Hmax Hlt. pose proof (rearr_len Hr) as Hlen.
  unfold sift_inv, child_of in *. split; [lia|]. split.
  { eapply rearr_trans; [exact Hr|]. apply rearr_swap; lia. }
  split.
  - intros k d Hk Hkc Hd Hde. rewrite !node_swap by lia.
    destruct (k =? c) eqn:E1; to_prop; [lia|].
    destruct (k =? root) eqn:E2; to_prop.
    + subst k. destruct (d =? c) eqn:E3; to_prop; [exact Hlt|].
      destruct (d =? root) eqn:E4; to_prop; [lia|]. apply Hmax; lia.
    + destruct (d =? c) eqn:E3; to_prop; [lia|].
      destruct (d =? root) eqn:E4; to_prop; [subst d; apply H3; lia|apply H2; lia].
  - intros k d Hk Hkc Hd Hde. assert (k = root) as -> by lia. rewrite !node_swap by lia.
    destruct (root =? c) eqn:E1; to_prop; [lia|]. rewrite Z.eqb_refl.
    destruct (d =? c) eqn:E3; to_prop; [lia|]. destruct (d =? root) eqn:E4; to_prop; [lia|].
    apply H2; lia.
Qed.

Lemma sift_down_ok fuel a start e : 0 <= start -> base + e < len a ->
  e - start < Z.of_nat fuel -> (0 < fuel)%nat -> heap_from a (start + 1) e ->
  wp (sift_down ltb fuel a base start e) (fun a' =>
    rearr base (base + e + 1) a a' /\ heap_from a' start e).
Proof using Ord Hbase.
  intros Hs Hl Hf Hf0 Hh.
  apply (wp_loop (fun '(a', root) => sift_inv start e a a' root)
           (fun st => Z.to_nat (e - st.2))).
  - intros [a' root] Hinv. pose proof Hinv as (H1 & Hr & H2 & H3).
    pose proof (rearr_len Hr) as Hlen. unfold step_ok.
    destruct (root * 2 + 1 <=? e) eqn:E; to_prop.
    2:{ simpl. split; [exact Hr|]. intros k c Hk Hc Hce. destruct (decide (k = root)) as [->|].
        - unfold child_of in Hc. lia.
        - apply H2; assumption. }
    apply wp_bind. eapply wp_mono; [apply (pick_child_ok a' root e); lia|].
    intros c (Hc & Hce & Hmax). pose proof Hc as Hc'. unfold child_of in Hc'.
    rewrite aget_ok by lia. simpl. rewrite aget_ok by lia. simpl.
    destruct (ltb _ _) eqn:El.
    + rewrite aswap_ok by lia. simpl. split; [|lia].
      apply sift_inv_step; auto. apply (lt_leA gtb ltb) in El. exact El.
    + simpl. split; [exact Hr|]. apply (nlt_leA gtb ltb) in El. intros k d Hk Hd Hde.
      destruct (decide (k = root)) as [->|]; [|apply H2; assumption].
      eapply (leA_trans gtb ltb); [apply Hmax; assumption|exact El].
  - split; [lia|]. split; [apply rearr_refl|]. split.
    + intros k c Hk Hkr. apply Hh. lia.
    + intros k c Hk Hk1. unfold child_of in Hk1. lia.
  - simpl. lia.
Qed.

Lemma heapify_ok fuel a start e : 0 <= start -> base + e < len a ->
  start <= e -> e < Z.of_nat fuel -> heap_from a (start + 1) e ->
  wp (heapify ltb fuel a base start e) (fun a' =>
    rearr base (base + e + 1) a a' /\ heap_from a' 0 e).
Proof using Ord Hbase.
  intros Hs Hl He Hf Hh.
  apply (wp_loop (fun '(a', s) => 0 <= s <= start /\ rearr base (base + e + 1) a a' /\
                    heap_from a' (s + 1) e) (fun st => Z.to_nat st.2)).
  - intros [a' s] (H1 & Hr & H2). pose proof (rearr_len Hr). unfold step_ok. apply wp_bind.
    eapply wp_mono; [apply (sift_down_ok fuel a' s e); auto; lia|].
    intros a'' [Hr' Hh']. destruct (0 <? s) eqn:E; to_prop; simpl.
    + split; [|lia]. split; [lia|]. split; [eapply rearr_trans; eassumption|].
      replace (s - 1 + 1) with s by lia. exact Hh'.
    + split; [eapply rearr_trans; eassumption|]. replace 0 with s by lia. exact Hh'.
  - split; [lia|]. split; [apply rearr_refl|exact Hh].
  - simpl. lia.
Qed.

(** The root of a heap is its greatest element. *)
Lemma heap_top a e k : heap_from a 0 e -> 0 <= k <= e -> node a k ⊑ node a 0.
Proof using Ord.
  intros Hh [Hk He]. revert He. pattern k. apply Zlt_0_ind; [|exact Hk]. clear k Hk.
  intros k IH Hk He. destruct (decide (k = 0)) as [->|Hk0]; [apply (leA_refl gtb ltb)|].
  apply (leA_trans gtb ltb _ (node a ((k - 1) / 2))).
  - apply Hh; unfold child_of; dlia.
  - apply IH; dlia.
Qed.

(** Elements beyond [e] are sorted and at least as large as the heap. *)
Definition extract_inv (n : Z) (a a' : list A) (e : Z) : Prop :=
  0 <= e < n /\ rearr base (base + n) a a' /\ heap_from a' 0 e /\
  sorted_seg gtb (base + e + 1) (base + n) a' /\
  (forall k j, 0 <= k <= e -> e < j < n -> node a' k ⊑ node a' j).

Lemma extract_swap n a a' e : base + n <= len a -> extract_inv n a a' e -> 0 < e ->
  let a1 := swap a' (base + 0) (base + e) in
  rearr base (base + n) a a1 /\ heap_from a1 1 (e - 1) /\
  (forall k, 0 <= k < e -> node a1 k ⊑ node a1 e) /\
  sorted_seg gtb (base + e) (base + n) a1 /\
  (forall k j, 0 <= k < e -> e <= j < n -> node a1 k ⊑ node a1 j).
Proof using Ord Hbase.
  intros Hl (He & Hr & Hh & Hs & Hb) He0 a1. pose proof (rearr_len Hr) as Hlen.
  assert (Hn1 : forall k, 0 <= k -> node a1 k =
    if k =? e then node a' 0 else if k =? 0 then node a' e else node a' k).
  { intros k Hk. subst a1. apply node_swap; lia. }
  assert (Hlow : forall k, 0 <= k < e -> node a1 k ⊑ node a1 e).
  { intros k Hk. rewrite !Hn1, Z.eqb_refl by lia. destruct (k =? e) eqn:E; to_prop; [lia|].
    destruct (k =? 0); apply heap_top with e; auto; lia. }
  assert (Hhigh : forall k j, 0 <= k < e -> e < j < n -> node a1 k ⊑ node a1 j).
  { intros k j Hk Hj. rewrite !Hn1 by lia. destruct (k =? e) eqn:E; to_prop; [lia|].
    destruct (j =? e) eqn:E'; to_prop; [lia|]. destruct (j =? 0) eqn:E''; to_prop; [lia|].
    destruct (k =? 0); apply Hb; lia. }
  assert (Htop : forall j, e < j < n -> node a1 e ⊑ node a1 j).
  { intros j Hj. rewrite !Hn1, Z.eqb_refl by lia. destruct (j =? e) eqn:E'; to_prop; [lia|].
    destruct (j =? 0) eqn:E''; to_prop; [lia|]. apply Hb; lia. }
  split_and!.
  - eapply rearr_trans; [exact Hr|]. apply rearr_swap; lia.
  - intros k c Hk Hc Hce. unfold child_of in Hc. rewrite !Hn1 by lia.
    repeat match goal with |- context [?x =? ?y] => destruct (x =? y) eqn:?; to_prop; try lia end.
    apply Hh; unfold child_of; lia.
  - exact Hlow.
  - intros i j Hi Hij Hj. replace i with (base + (i - base)) by lia.
    replace j with (base + (j - base)) by lia. fold (node a1 (i - base)). fold (node a1 (j - base)).
    destruct (decide (i - base = j - base)) as [->|]; [apply (leA_refl gtb ltb)|].
    destruct (decide (i - base = e)) as [->|]; [apply Htop; lia|].
    rewrite !Hn1 by lia.
    repeat match goal with |- context [?x =? ?y] => destruct (x =? y) eqn:?; to_prop; try lia end.
    apply Hs; lia.
  - intros k j Hk Hj. destruct (decide (j = e)) as [->|]; [apply Hlow; lia|apply Hhigh; lia].
Qed.

Lemma heap_extract_ok fuel n a : 1 <= n -> base + n <= len a -> n < Z.of_nat fuel ->
  heap_from a 0 (n - 1) ->
  wp (heap_extract ltb fuel a base (n - 1)) (sorts gtb base n a).
Proof using Ord Hbase.
  intros Hn Hl Hf Hh.
  apply (wp_loop (fun '(a', e) => extract_inv n a a' e) (fun st => Z.to_nat st.2)).
  - intros [a' e] Hinv. pose proof Hinv as (He & Hr & Hh' & Hs & Hb).
    pose proof (rearr_len Hr) as Hlen. unfold step_ok. destruct (0 <? e) eqn:E; to_prop.
    2:{ simpl. split; [exact Hr|]. replace e with 0 in * by lia.
        intros i j Hi Hij Hj. destruct (decide (i = base)) as [->|]; [|apply Hs; lia].
        destruct (decide (j = base)) as [->|]; [apply (leA_refl gtb ltb)|].
        specialize (Hb 0 (j - base)). unfold node in Hb.
        rewrite Z.add_0_r in Hb. replace (base + (j - base)) with j in Hb by lia. apply Hb; lia. }
    rewrite aswap_ok by lia. simpl.
    destruct (extract_swap n a a' e Hl Hinv E) as (Hr1 & Hh1 & Hlow & Hs1 & Hb1).
    set (a1 := swap a' (base + 0) (base + e)) in *. pose proof (rearr_len Hr1) as Hlen1.
    apply wp_bind. eapply wp_mono; [apply (sift_down_ok fuel a1 0 (e - 1)); auto; lia|].
    intros a2 [Hr2 Hh2]. simpl. split; [|lia].
    replace (base + (e - 1) + 1) with (base + e) in Hr2 by lia.
    assert (Hout : forall k, e <= k -> node a2 k = node a1 k).
    { intros k Hk. apply (rearr_out Hr2); lia. }
    split; [lia|]. split; [|split; [exact Hh2|split]].
    + eapply rearr_trans; [exact Hr1|]. eapply rearr_weaken; [| | |exact Hr2]; lia.
    + intros i j Hi Hij Hj. replace (base + (e - 1) + 1) with (base + e) in Hi by lia.
      rewrite (rearr_out Hr2 i), (rearr_out Hr2 j) by lia. apply Hs1; lia.
    + intros k j Hk Hj. rewrite (Hout j) by lia.
      apply (rearr_all base (base + e) a1 a2 (fun x => x ⊑ node a1 j) Hr2); [|lia].
      intros k' Hk'. replace k' with (base + (k' - base)) by lia. apply Hb1; lia.
  - split; [lia|]. split; [apply rearr_refl|]. split; [exact Hh|]. split.
    + intros i j Hi Hij Hj. lia.
    + intros k j Hk Hj. lia.
  - simpl. lia.
Qed.

Lemma heapsort_ok fuel n a : 1 <= n -> base + n <= len a -> n < Z.of_nat fuel ->
  wp (heapsort ltb fuel a base n) (sorts gtb base n a).
Proof using Ord Hbase.
  intros Hn Hl Hf. unfold heapsort. destruct (n <? 2) eqn:E; to_prop.
  - simpl. split; [apply rearr_refl|]. intros i j Hi Hij Hj. replace j with i by lia.
    apply (leA_refl gtb ltb).
  - apply wp_bind. eapply wp_mono; [apply (heapify_ok fuel a); try lia; try dlia|].
    + intros k c Hk Hc Hce. unfold child_of in Hc. dlia.
    + intros a1 [Hr1 Hh1]. replace (base + (n - 1) + 1) with (base + n) in Hr1 by lia.
      pose proof (rearr_len Hr1).
      eapply wp_mono; [apply (heap_extract_ok fuel n a1); auto; lia|].
      intros a2 [Hr2 Hs2]. split; [eapply rearr_trans; eassumption|exact Hs2].
Qed.
End Heap.

(** ** Introsort *)

Section Intro.
Context {A : Type} `{!Inhabited A} (gtb ltb : A -> A -> bool).
Context `{Ord : !CmpOrder gtb ltb}.

Local Notation "x ⊑ y" := (leA gtb x y) (at level 70).

(** The three zones the partition leaves around [pivot]. *)
Definition parted (lo lt gt hi : Z) (pivot : A) (a : list A) : Prop :=
  (forall k, lo <= k < lt -> at_ a k ⊑ pivot) /\
  (forall k, lt <= k <= gt -> at_ a k ⊑ pivot /\ pivot ⊑ at_ a k) /\
  (forall k, gt < k <= hi -> pivot ⊑ at_ a k).

Lemma cond_swap_ok a i j lo hi : 0 <= lo -> hi <= len a -> lo <= i < hi -> lo <= j < hi ->
  wp (cond_swap gtb a i j) (rearr lo hi a).
Proof.
  intros. unfold cond_swap. rewrite aget_ok by lia. simpl. rewrite aget_ok by lia. simpl.
  destruct (gtb _ _); [|apply rearr_refl]. rewrite aswap_ok by lia. simpl. apply rearr_swap; lia.
Qed.

Lemma median3_ok a lo mid hi : 0 <= lo -> lo <= mid <= hi -> hi < len a ->
  wp (median3 gtb a lo mid hi) (rearr lo (hi + 1) a).
Proof.
  intros. unfold median3. apply wp_bind.
  eapply wp_mono; [apply (cond_swap_ok a lo mid lo (hi + 1)); lia|]. intros a1 R1.
  pose proof (rearr_len R1). apply wp_bind.
  eapply wp_mono; [apply (cond_swap_ok a1 lo hi lo (hi + 1)); lia|]. intros a2 R2.
  pose proof (rearr_len R2).
  eapply wp_mono; [apply (cond_swap_ok a2 mid hi lo (hi + 1)); lia|]. intros a3 R3.
  eapply rearr_trans; [exact R1|]. eapply rearr_trans; eassumption.
Qed.

Lemma partition_ok fuel a lo hi pivot : 0 <= lo -> lo <= hi < len a ->
  hi - lo + 1 < Z.of_nat fuel ->
  wp (partition gtb ltb fuel a lo hi pivot) (fun '(a', lt, gt) =>
    rearr lo (hi + 1) a a' /\ lo <= lt <= gt + 1 /\ gt <= hi /\ parted lo lt gt hi pivot a').
Proof using Ord.
  intros Hlo Hhi Hf.
  apply (wp_loop (fun '(a', lt, gt, i) => rearr lo (hi + 1) a a' /\
           lo <= lt <= i /\ i <= gt + 1 /\ gt <= hi /\
           (forall k, lo <= k < lt -> at_ a' k ⊑ pivot) /\
           (forall k, lt <= k < i -> at_ a' k ⊑ pivot /\ pivot ⊑ at_ a' k) /\
           (forall k, gt < k <= hi -> pivot ⊑ at_ a' k))
         (fun '(_, _, gt, i) => Z.to_nat (gt + 1 - i))).
  - intros [[[a' lt] gt] i] (Hr & H1 & H2 & H3 & P1 & P2 & P3).
    pose proof (rearr_len Hr) as Hlen. unfold step_ok. destruct (i <=? gt) eqn:E; to_prop.
    2:{ simpl. split; [exact Hr|]. split; [lia|]. split; [lia|].
        split; [exact P1|]. split; [|exact P3]. intros k Hk. apply P2. lia. }
    rewrite aget_ok by lia. simpl. destruct (ltb _ pivot) eqn:El.
    + apply (lt_leA gtb ltb) in El. rewrite aswap_ok by lia. simpl. split; [|lia].
      split; [eapply rearr_trans; [exact Hr|apply rearr_swap; lia]|].
      split; [lia|]. split; [lia|]. split; [lia|].
      split; [|split]; intros k Hk; rewrite ?at_swap by lia.
      * destruct (k =? i) eqn:E1; to_prop; [replace lt with i by lia; exact El|].
        destruct (k =? lt) eqn:E2; to_prop; [exact El|]. apply P1. lia.
      * destruct (k =? i) eqn:E1; to_prop; [apply P2; lia|].
        destruct (k =? lt) eqn:E2; to_prop; [lia|]. apply P2. lia.
      * destruct (k =? i) eqn:E1; to_prop; [lia|]. destruct (k =? lt) eqn:E2; to_prop; [lia|].
        apply P3. lia.
    + destruct (gtb _ pivot) eqn:Eg.
      * apply (gt_leA gtb ltb) in Eg. rewrite aswap_ok by lia. simpl. split; [|lia].
        split; [eapply rearr_trans; [exact Hr|apply rearr_swap; lia]|].
        split; [lia|]. split; [lia|]. split; [lia|].
        split; [|split]; intros k Hk; rewrite ?at_swap by lia;
          (destruct (k =? gt) eqn:E1; to_prop; [try lia|destruct (k =? i) eqn:E2; to_prop; [lia|]]).
        -- apply P1. lia.
        -- apply P2. lia.
        -- exact Eg.
        -- apply P3. lia.
      * apply (nlt_leA gtb ltb) in El. simpl. split; [|lia]. split; [exact Hr|].
        split; [lia|]. split; [lia|]. split; [lia|]. split; [exact P1|]. split; [|exact P3].
        intros k Hk. destruct (decide (k = i)) as [->|]; [|apply P2; lia]. split; assumption.
  - split; [apply rearr_refl|]. split; [lia|]. split; [lia|]. split; [lia|].
    repeat split; intros; lia.
  - simpl. lia.
Qed.

(** Rearranging the left or the right zone keeps the zones. *)
Lemma parted_rearr lo lt gt hi pivot a b s e :
  0 <= lo -> lo <= lt -> lt <= gt + 1 -> gt <= hi ->
  (s = lo /\ e = lt) \/ (s = gt + 1 /\ e = hi + 1) ->
  rearr s e a b -> parted lo lt gt hi pivot a -> parted lo lt gt hi pivot b.
Proof.
  intros H0 H1 H2 H3 Hse Hr (P1 & P2 & P3).
  assert (Hout : forall k, 0 <= k -> ~ (s <= k < e) -> at_ b k = at_ a k) by apply (rearr_out Hr).
  split; [|split].
  - intros k Hk. destruct Hse as [[-> ->] | [-> ->]].
    + apply (rearr_all lo lt a b (fun x => x ⊑ pivot) Hr); auto.
    + rewrite Hout by lia. auto.
  - intros k Hk. rewrite Hout by lia. auto.
  - intros k Hk. destruct Hse as [[-> ->] | [-> ->]].
    + rewrite Hout by lia. auto.
    + apply (rearr_all (gt + 1) (hi + 1) a b (fun x => pivot ⊑ x) Hr); [|lia].
      intros k' Hk'. apply P3. lia.
Qed.

Lemma parted_sorted lo lt gt hi pivot a :
  parted lo lt gt hi pivot a -> sorted_seg gtb lo lt a -> sorted_seg gtb (gt + 1) (hi + 1) a ->
  sorted_seg gtb lo (hi + 1) a.
Proof using Ord.
  intros (P1 & P2 & P3) S1 S2 i j Hi Hij Hj.
  destruct (Z_lt_le_dec j lt); [apply S1; lia|].
  destruct (Z_lt_le_dec gt i); [apply S2; lia|].
  apply (leA_trans gtb ltb _ pivot).
  - destruct (Z_lt_le_dec i lt); [apply P1|apply P2]; lia.
  - destruct (Z_lt_le_dec gt j); [apply P3|apply P2]; lia.
Qed.

(** A sorted segment outside the rearranged one stays sorted. *)
Lemma sorted_frame s e lo hi a b : 0 <= s -> (e <= lo \/ hi <= s) ->
  rearr lo hi a b -> sorted_seg gtb s e a -> sorted_seg gtb s e b.
Proof.
  intros H0 Hd Hr Hs i j Hi Hij Hj. rewrite (rearr_out Hr i), (rearr_out Hr j) by lia. apply Hs; lia.
Qed.

Lemma sorts_trivial base n a : n <= 1 -> sorts gtb base n a a.
Proof using Ord.
  intros Hn. split; [apply rearr_refl|]. intros i j Hi Hij Hj. replace j with i by lia.
  apply (leA_refl gtb ltb).
Qed.

Lemma introsort_ok fuel depth a base n : 0 <= base -> 0 <= n -> base + n <= len a ->
  n + 1 < Z.of_nat fuel ->
  wp (introsort gtb ltb fuel depth a base n) (sorts gtb base n a).
Proof using Ord.
  revert a base n. induction depth as [|d IH]; intros a base n Hb Hn Hl Hf; simpl introsort;
    (destruct (16 <? n) eqn:E; to_prop;
      [|destruct (1 <? n) eqn:E1; to_prop;
        [apply (insertion_sort_ok gtb ltb); lia|apply sorts_trivial; lia]]).
  { apply heapsort_ok; auto; lia. }
  apply wp_bind. eapply wp_mono; [apply median3_ok; [lia|dlia|lia]|]. intros a1 Hr1.
  pose proof (rearr_len Hr1) as Hl1. rewrite aget_ok by dlia. simpl. apply wp_bind.
  eapply wp_mono; [apply partition_ok; lia|]. intros [[a2 lt] gt] (Hr2 & H1 & H2 & Hp).
  pose proof (rearr_len Hr2) as Hl2.
  replace (base + n - 1 + 1) with (base + n) in Hr1, Hr2 by lia.
  assert (Hfin : forall a3 a4, rearr base (base + n) a2 a3 -> rearr base (base + n) a3 a4 ->
    sorted_seg gtb base (base + n) a4 -> sorts gtb base n a a4).
  { intros a3 a4 Ha Hb' Hs. split; [|exact Hs].
    eapply rearr_trans; [exact Hr1|]. eapply rearr_trans; [exact Hr2|].
    eapply rearr_trans; eassumption. }
  destruct (_ <? _) eqn:Elr; to_prop; apply wp_bind.
  - eapply wp_mono; [apply IH; lia|]. intros a3 [Hr3 Hs3]. pose proof (rearr_len Hr3).
    replace (base + (lt - base)) with lt in Hr3, Hs3 by lia.
    eapply wp_mono; [apply IH; lia|]. intros a4 [Hr4 Hs4].
    replace (gt + 1 + (base + n - (gt + 1))) with (base + n - 1 + 1) in Hr4, Hs4 by lia.
    apply (Hfin a3); [eapply rearr_weaken; [| | |exact Hr3]; lia
                     |eapply rearr_weaken; [| | |exact Hr4]; lia|].
    replace (base + n) with (base + n - 1 + 1) by lia.
    apply (parted_sorted base lt gt (base + n - 1) (at_ a1 (base + n / 2))); [| |exact Hs4].
    + eapply parted_rearr; [lia..|right; eauto|exact Hr4|].
      eapply parted_rearr; [lia..|left; eauto|exact Hr3|exact Hp].
    + eapply sorted_frame; [lia| |exact Hr4|exact Hs3]. lia.
  - eapply wp_mono; [apply IH; lia|]. intros a3 [Hr3 Hs3]. pose proof (rearr_len Hr3).
    replace (gt + 1 + (base + n - (gt + 1))) with (base + n - 1 + 1) in Hr3, Hs3 by lia.
    eapply wp_mono; [apply IH; lia|]. intros a4 [Hr4 Hs4].
    replace (base + (lt - base)) with lt in Hr4, Hs4 by lia.
    apply (Hfin a3); [eapply rearr_weaken; [| | |exact Hr3]; lia
                     |eapply rearr_weaken; [| | |exact Hr4]; lia|].
    replace (base + n) with (base + n - 1 + 1) by lia.
    apply (parted_sorted base lt gt (base + n - 1) (at_ a1 (base + n / 2))); [|exact Hs4|].
    + eapply parted_rearr; [lia..|left; eauto|exact Hr4|].
      eapply parted_rearr; [lia..|right; eauto|exact Hr3|exact Hp].
    + eapply sorted_frame; [lia| |exact Hr4|exact Hs3]. lia.
Qed.
End Intro.

(** * The properties *)

Lemma sorted_seg_strong (a : list Z) : sorted_seg Z.gtb 0 (len a) a -> StronglySorted Z.le a.
Proof.
  intros H.
  assert (Hp : forall i j x y, (i <= j)%nat -> a !! i = Some x -> a !! j = Some y -> x <= y).
  { intros i j x y Hij Hx Hy. pose proof (lookup_lt_Some _ _ _ Hy) as Hl.
    specialize (H (Z.of_nat i) (Z.of_nat j) ltac:(lia) ltac:(lia) ltac:(unfold len; lia)).
    unfold leA, at_ in H. rewrite !Nat2Z.id in H.
    rewrite (list_lookup_total_correct _ _ _ Hx), (list_lookup_total_correct _ _ _ Hy), Z.gtb_ltb in H.
    apply Z.ltb_ge in H. lia. }
  clear H. induction a as [|x a IH]; constructor.
  - apply IH. intros i j y z Hij. apply (Hp (S i) (S j)). lia.
  - apply Forall_lookup. intros j y Hy. apply (Hp 0%nat (S j)); [lia|reflexivity|exact Hy].
Qed.

(** the specialised introsort (median of three, three-way partition,
    recursion into both parts, insertion sort below 17 elements, heapsort when
    the depth limit is used up) sorts every [int32_t] array: the result is a
    permutation of the input, in ascending order, whatever depth is given. *)
Theorem i32_introsort_sorts (a : list Z) (depth : Z) (fuel : nat) :
  len a + 1 < Z.of_nat fuel ->
  exists a', i32_introsort fuel depth a 0 (len a) = Ok a' /\ a' ≡ₚ a /\ StronglySorted Z.le a'.
Proof.
  intros Hf. unfold i32_introsort.
  pose proof (introsort_ok Z.gtb Z.ltb fuel (Z.to_nat depth) a 0 (len a)) as H.
  destruct (introsort _ _ _ _ _ _ _) as [a'| |]; simpl in H;
    try (exfalso; apply H; unfold len in *; lia).
  destruct H as [Hr Hs]; [unfold len in *; lia..|]. exists a'. split; [reflexivity|].
  split; [apply (rearr_perm Hr)|]. apply sorted_seg_strong. rewrite (rearr_len Hr). exact Hs.
Qed.

Definition ex_keys : list Z := [9; -4; 7; 7; 0; 12; -30; 5; 1; 8; 3; 3; 2; 44; -1; 6; 10; 11; 20; -7].

Lemma i32_introsort_sorts_witness : exists a', i32_introsort 40 (get_depth_limit 20) ex_keys 0 20 = Ok a' /\
  a' ≡ₚ ex_keys /\ StronglySorted Z.le a'.
Proof. apply (i32_introsort_sorts ex_keys (get_depth_limit 20) 40). vm_compute. reflexivity. Defined.

(** the heap operations on their own: [heapsort] sorts any segment of an
    array under any comparison that is a total preorder, keeps every element
    outside the segment in place, and stays inside the array. *)
Theorem heapsort_sorts {A : Type} `{!Inhabited A} (gtb ltb : A -> A -> bool) `{!CmpOrder gtb ltb}
    (a : list A) (base n : Z) (fuel : nat) :
  0 <= base -> 1 <= n -> base + n <= len a -> n < Z.of_nat fuel ->
  exists a', heapsort ltb fuel a base n = Ok a' /\ rearr base (base + n) a a' /\
    sorted_seg gtb base (base + n) a'.
Proof.
  intros Hb Hn Hl Hf. pose proof (heapsort_ok gtb ltb base Hb fuel n a Hn Hl Hf) as H.
  destruct (heapsort _ _ _ _ _) as [a'| |]; simpl in H; [|easy..]. exists a'. split; [reflexivity|exact H].
Qed.

Lemma heapsort_sorts_witness : exists a', heapsort Z.ltb 30 ex_keys 2 11 = Ok a' /\
  rearr 2 13 ex_keys a' /\ sorted_seg Z.gtb 2 13 a'.
Proof. apply (heapsort_sorts Z.gtb Z.ltb ex_keys 2 11 30); vm_compute; congruence. Defined.
