(* ===== verification/SortBytes.v ===== *)
(** The generic routines of [src/lib/stdc/algo/sortAsearch.c], which work on an
    array of [nmemb] elements of [size] bytes through a comparison callback:
    [swp], [swar_bsearch], [insertion_sort], [sift_down], [heapsort_impl],
    [introsort], [swar_qsort].  The array is a byte buffer and every position
    is a byte offset into it, as in the source. *)
From stdpp Require Import base gmap list fin_maps.
From Stdlib Require Import ZArith Lia.
From S2P Require Import Prelude Words Arrays Sort.

Open Scope Z_scope.
Open Scope c_scope.

(** * Byte buffers *)

Definition in_buf (bs : list Z) (off n : Z) : bool :=
  (0 <=? off) && (off + n <=? Z.of_nat (length bs)).

(** The [n] bytes at [off]; [memcpy] into a local, or the operand of a callback. *)
Definition slice (bs : list Z) (off n : Z) : res (list Z) :=
  if in_buf bs off n then Ok (take (Z.to_nat n) (drop (Z.to_nat off) bs)) else Fault.

(** [memcpy] of the bytes [l] to [off]. *)
Definition put (bs : list Z) (off : Z) (l : list Z) : res (list Z) :=
  if in_buf bs off (Z.of_nat (length l))
  then Ok (take (Z.to_nat off) bs ++ l ++ drop (Z.to_nat off + length l) bs)
  else Fault.

(** * The code *)

(** Both operands are read before either is written. *)
Definition swap_chunk (bs : list Z) (a b n : Z) : res (list Z) :=
  let* va := slice bs a n in
  let* vb := slice bs b n in
  let* bs1 := put bs a vb in
  put bs1 b va.

Definition swp (fuel : nat) (bs : list Z) (a b size : Z) : res (list Z) :=
  if size =? 4 then swap_chunk bs a b 4
  else if size =? 8 then swap_chunk bs a b 8
  else
    let* (bs, i) := loop fuel (fun '(bs, i) =>
      if i + 8 <=? size then
        let* bs' := swap_chunk bs (a + i) (b + i) 8 in
        Ok (inl (bs', i + 8))
      else Ok (inr (bs, i))) (bs, 0) in
    loop fuel (fun '(bs, i) =>
      if i <? size then
        let* bs' := swap_chunk bs (a + i) (b + i) 1 in
        Ok (inl (bs', i + 1))
      else Ok (inr bs)) (bs, i).

(** The comparison callback: [cmp_int] is recognised by its address. *)
Inductive comparator : Type :=
| CmpInt
| Compar (f : list Z -> list Z -> Z).

(** [*(const int* )a]: the first four bytes as a signed integer. *)
Definition read_int (v : list Z) : Z := i32 (le (take 4 v)).

Definition cmp_int (a b : list Z) : Z :=
  let ia := read_int a in
  let ib := read_int b in
  b2z (ib <? ia) - b2z (ia <? ib).

Definition compar_of (c : comparator) : list Z -> list Z -> Z :=
  match c with
  | CmpInt => cmp_int
  | Compar f => f
  end.

Section Generic.
Context (compar : list Z -> list Z -> Z).

(** [NULL] is [None], a found element its byte offset. *)
Definition swar_bsearch (fuel : nat) (key : list Z) (bs : list Z) (nmemb size : Z)
  : res (option Z) :=
  loop fuel (fun '(l, u) =>
    if l <? u then
      let idx := l + (u - l) / 2 in
      let mid := idx * size in
      let* v := slice bs mid size in
      let cmp := compar key v in
      if cmp <? 0 then Ok (inl (l, idx))
      else if 0 <? cmp then Ok (inl (idx + 1, u))
      else Ok (inr (Some mid))
    else Ok (inr None)) (0, nmemb).

Definition gt0 (x y : list Z) : bool := 0 <? compar x y.
Definition lt0 (x y : list Z) : bool := compar x y <? 0.

(** The branch without a temporary: adjacent exchanges. *)
Definition insertion_swaps (fuel : nat) (bs : list Z) (base nmemb size : Z) : res (list Z) :=
  loop fuel (fun '(bs, i) =>
    if i <? nmemb then
      let* bs' := loop fuel (fun '(bs, j) =>
        if 0 <? j then
          let cur := base + j * size in
          let prev := base + (j - 1) * size in
          let* vp := slice bs prev size in
          let* vc := slice bs cur size in
          if 0 <? compar vp vc then
            let* bs' := swp fuel bs prev cur size in
            Ok (inl (bs', j - 1))
          else Ok (inr bs)
        else Ok (inr bs)) (bs, i) in
      Ok (inl (bs', i + 1))
    else Ok (inr bs)) (bs, 1).

(** [while (j > base) { ... memcpy(j, prev, size); j -= size; ... }] *)
Definition insertion_shift (fuel : nat) (bs : list Z) (base i size : Z) (tmp : list Z)
  : res (list Z * Z) :=
  loop fuel (fun '(bs, j) =>
    if base <? j then
      let prev := j - size in
      let* vp := slice bs prev size in
      if 0 <? compar vp tmp then
        let* bs' := put bs j vp in
        Ok (inl (bs', j - size))
      else Ok (inr (bs, j))
    else Ok (inr (bs, j))) (bs, i).

(** [malloc_ok] is the outcome of [malloc(size)] for elements over 256 bytes. *)
Definition insertion_sort (malloc_ok : bool) (fuel : nat) (bs : list Z) (base nmemb size : Z)
  : res (list Z) :=
  if nmemb <=? 1 then Ok bs
  else if (256 <? size) && negb malloc_ok then insertion_swaps fuel bs base nmemb size
  else
    let end_ := base + nmemb * size in
    loop fuel (fun '(bs, i) =>
      if i <? end_ then
        let* tmp := slice bs i size in
        let* (bs', j) := insertion_shift fuel bs base i size tmp in
        let* bs'' := if negb (j =? i) then put bs' j tmp else Ok bs' in
        Ok (inl (bs'', i + size))
      else Ok (inr bs)) (bs, base + size).

Definition sift_down (fuel : nat) (bs : list Z) (base start end_ size : Z) : res (list Z) :=
  loop fuel (fun '(bs, root) =>
    if root * 2 + 1 <=? end_ then
      let child := root * 2 + 1 in
      let* child :=
        if child + 1 <=? end_ then
          let* x := slice bs (base + child * size) size in
          let* y := slice bs (base + (child + 1) * size) size in
          Ok (if compar x y <? 0 then child + 1 else child)
        else Ok child in
      let* x := slice bs (base + root * size) size in
      let* y := slice bs (base + child * size) size in
      if compar x y <? 0 then
        let* bs' := swp fuel bs (base + root * size) (base + child * size) size in
        Ok (inl (bs', child))
      else Ok (inr bs)
    else Ok (inr bs)) (bs, start).

Definition heapsort_impl (fuel : nat) (bs : list Z) (base nmemb size : Z) : res (list Z) :=
  if nmemb <? 2 then Ok bs
  else
    let end_ := nmemb - 1 in
    let start := (end_ - 1) / 2 in
    let* bs := loop fuel (fun '(bs, start) =>
      let* bs' := sift_down fuel bs base start end_ size in
      if 0 <? start then Ok (inl (bs', start - 1)) else Ok (inr bs')) (bs, start) in
    loop fuel (fun '(bs, end_) =>
      if 0 <? end_ then
        let* bs1 := swp fuel bs base (base + end_ * size) size in
        let* bs2 := sift_down fuel bs1 base 0 (end_ - 1) size in
        Ok (inl (bs2, end_ - 1))
      else Ok (inr bs)) (bs, end_).

(** [if (compar(p, q) > 0) swp(p, q, size);] *)
Definition order_pair (fuel : nat) (bs : list Z) (p q size : Z) : res (list Z) :=
  let* x := slice bs p size in
  let* y := slice bs q size in
  if 0 <? compar x y then swp fuel bs p q size else Ok bs.

(** The partition.  The pivot is a copy ([inl]) or the element at an offset,
    re-read at every comparison ([inr]). *)
Definition pivot_bytes (bs : list Z) (pivot_val : list Z + Z) (size : Z) : res (list Z) :=
  match pivot_val with
  | inl v => Ok v
  | inr p => slice bs p size
  end.

Definition partition_bytes (fuel : nat) (bs : list Z) (lo hi size : Z)
    (pivot_val : list Z + Z) : res (list Z * Z * Z) :=
  loop fuel (fun '(bs, lt, gt, i) =>
    if i <=? gt then
      let* x := slice bs i size in
      let* pv := pivot_bytes bs pivot_val size in
      let cmp := compar x pv in
      if cmp <? 0 then
        let* bs' := swp fuel bs lt i size in
        Ok (inl (bs', lt + size, gt, i + size))
      else if 0 <? cmp then
        let* bs' := swp fuel bs i gt size in
        Ok (inl (bs', lt, gt - size, i))
      else Ok (inl (bs, lt, gt, i + size))
    else Ok (inr (bs, lt, gt))) (bs, lo, hi, lo).

(** As in the source, the recursive call on the right part in the second
    branch starts at [gt + 1], a byte offset. *)
Fixpoint introsort (malloc_ok : bool) (fuel : nat) (depth_limit : nat) (bs : list Z)
    (base nmemb size : Z) : res (list Z) :=
  if 16 <? nmemb then
    match depth_limit with
    | O => heapsort_impl fuel bs base nmemb size
    | S d =>
        let lo := base in
        let mid := base + (nmemb / 2) * size in
        let hi := base + (nmemb - 1) * size in
        let* bs := order_pair fuel bs lo mid size in
        let* bs := order_pair fuel bs lo hi size in
        let* bs := order_pair fuel bs mid hi size in
        let use_buf := size <=? 256 in
        let* (bs, pivot_val) :=
          (if use_buf then let* v := slice bs mid size in Ok (bs, inl v)
           else let* bs' := swp fuel bs lo mid size in Ok (bs', inr lo)) in
        let* (bs, lt, gt) := partition_bytes fuel bs lo hi size pivot_val in
        let left_nmemb := (lt - base) / size in
        let right_nmemb := (base + nmemb * size - (gt + size)) / size in
        if left_nmemb <? right_nmemb then
          let* bs' := introsort malloc_ok fuel d bs base left_nmemb size in
          introsort malloc_ok fuel d bs' (gt + size) right_nmemb size
        else
          let* bs' := introsort malloc_ok fuel d bs (gt + 1) right_nmemb size in
          introsort malloc_ok fuel d bs' base left_nmemb size
    end
  else if 1 <? nmemb then insertion_sort malloc_ok fuel bs base nmemb size
  else Ok bs.
End Generic.

(** The array seen as integers of [w] bytes, and back. *)
Fixpoint ints_of (n : nat) (w : nat) (bs : list Z) : list Z :=
  match n with
  | O => []
  | S n' => sgn (8 * Z.of_nat w) (le (take w bs)) :: ints_of n' w (drop w bs)
  end.

Definition bytes_of (w : nat) (a : list Z) : list Z := concat (map (bytes_le w) a).

Definition swar_qsort (malloc_ok : bool) (fuel : nat) (bs : list Z) (nmemb size : Z)
    (c : comparator) : res (list Z) :=
  if (nmemb <? 2) || (size =? 0) then Ok bs
  else
    let depth := get_depth_limit nmemb in
    match c with
    | CmpInt =>
        if size =? 4 then
          let* a := i32_introsort fuel depth (ints_of (Z.to_nat nmemb) 4 bs) 0 nmemb in
          Ok (bytes_of 4 a ++ drop (4 * Z.to_nat nmemb) bs)
        else if size =? 8 then
          let* a := i64_introsort fuel depth (ints_of (Z.to_nat nmemb) 8 bs) 0 nmemb in
          Ok (bytes_of 8 a ++ drop (8 * Z.to_nat nmemb) bs)
        else introsort (compar_of c) malloc_ok fuel (Z.to_nat depth) bs 0 nmemb size
    | Compar _ => introsort (compar_of c) malloc_ok fuel (Z.to_nat depth) bs 0 nmemb size
    end.

(** The libc entry points. *)
Definition bsearch (fuel : nat) (key bs : list Z) (nmemb size : Z) (c : comparator)
  : res (option Z) := swar_bsearch (compar_of c) fuel key bs nmemb size.

Definition qsort (malloc_ok : bool) (fuel : nat) (bs : list Z) (nmemb size : Z) (c : comparator)
  : res (list Z) := swar_qsort malloc_ok fuel bs nmemb size c.

(** * Elements of the buffer *)

(** A buffer of equally long elements, and the element view of it. *)
Definition elems (sz : nat) (bs : list Z) (es : list (list Z)) : Prop :=
  bs = concat es /\ Forall (fun v => length v = sz) es.

Lemma concat_length sz es : Forall (fun v : list Z => length v = sz) es ->
  length (concat es) = (length es * sz)%nat.
Proof. induction 1; simpl; rewrite ?length_app; lia. Qed.

Lemma concat_drop sz es i : Forall (fun v : list Z => length v = sz) es ->
  drop (i * sz) (concat es) = concat (drop i es).
Proof.
  intros H. revert i. induction H as [|v es Hv _ IH]; intros [|i]; simpl; auto.
  - apply drop_nil.
  - rewrite drop_app_ge by lia. rewrite <- IH. f_equal. lia.
Qed.

Lemma concat_take sz es i : Forall (fun v : list Z => length v = sz) es ->
  take (i * sz) (concat es) = concat (take i es).
Proof.
  intros H. revert i. induction H as [|v es Hv _ IH]; intros [|i]; simpl; auto.
  - apply take_nil.
  - rewrite take_app_ge by lia. f_equal. rewrite <- IH. f_equal. lia.
Qed.

Section Elements.
Context (sz : nat).
Hypothesis Hsz : (0 < sz)%nat.
#[local] Abbreviation size := (Z.of_nat sz).

Lemma elems_length bs es : elems sz bs es -> length bs = (length es * sz)%nat.
Proof. intros [-> H]. apply concat_length, H. Qed.

Lemma in_buf_elem bs es i : elems sz bs es -> in_buf bs (i * size) size = in_range es i.
Proof using Hsz.
  intros H. unfold in_buf, in_range. rewrite (elems_length _ _ H).
  apply eq_bool_prop_intro. rewrite !Is_true_true, !andb_true_iff, !Z.leb_le, Z.ltb_lt. nia.
Qed.

(** Reading an element. *)
Lemma slice_elem bs es i : elems sz bs es -> slice bs (i * size) size = aget es i.
Proof using Hsz.
  intros H. unfold slice, aget. rewrite (in_buf_elem bs es i H).
  unfold in_range. destruct (_ && _) eqn:E; [|reflexivity]. to_prop. f_equal.
  destruct H as [-> Hf]. rewrite Nat2Z.id.
  replace (Z.to_nat (i * size)) with (Z.to_nat i * sz)%nat by lia.
  rewrite (concat_drop sz) by exact Hf.
  assert (Hi : es !! Z.to_nat i = Some (at_ es i)).
  { apply list_lookup_lookup_total_lt. lia. }
  rewrite (drop_S _ _ _ Hi). simpl. apply take_app_length'.
  symmetry. exact (Forall_lookup_1 _ _ _ _ Hf Hi).
Qed.

Lemma at_length (es : list (list Z)) i : Forall (fun v => length v = sz) es -> 0 <= i < len es ->
  length (at_ es i) = sz.
Proof.
  intros H Hi. apply (Forall_lookup_1 _ _ _ _ H (lookup_at es i Hi)).
Qed.

(** Writing an element. *)
Lemma put_elem bs es i v : elems sz bs es -> length v = sz ->
  res_rel (elems sz) (put bs (i * size) v) (aset es i v).
Proof using Hsz.
  intros H Hv. unfold put, aset. rewrite Hv, (in_buf_elem bs es i H).
  unfold in_range. destruct (_ && _) eqn:E; simpl; [|exact I]. to_prop.
  destruct H as [-> Hf]. replace (Z.to_nat (i * size)) with (Z.to_nat i * sz)%nat by lia.
  replace (Z.to_nat i * sz + sz)%nat with (S (Z.to_nat i) * sz)%nat by lia.
  rewrite (concat_take sz), (concat_drop sz) by exact Hf. split.
  - rewrite insert_take_drop by lia. rewrite concat_app. reflexivity.
  - apply Forall_insert; assumption.
Qed.

(** ** Insertion sort on bytes is insertion sort on elements *)

Context (compar : list Z -> list Z -> Z).

Lemma insertion_shift_sim fuel bs es b i tmp : elems sz bs es ->
  res_rel (fun x y => elems sz x.1 y.1 /\ x.2 = (b + y.2) * size)
    (insertion_shift compar fuel bs (b * size) ((b + i) * size) size tmp)
    (insertion_inner (gt0 compar) fuel es b i tmp).
Proof using Hsz.
  intros H. unfold insertion_shift, insertion_inner.
  apply (loop_sim (fun x y => elems sz x.1 y.1 /\ x.2 = (b + y.2) * size)); [|simpl; auto].
  intros [bs1 jb] [es1 j] [He Hj]. simpl in He, Hj. subst jb.
  replace (b * size <? (b + j) * size) with (0 <? j).
  2:{ apply eq_bool_prop_intro. rewrite !Is_true_true, !Z.ltb_lt. nia. }
  destruct (0 <? j) eqn:E; simpl; [|auto]. to_prop.
  replace ((b + j) * size - size) with ((b + (j - 1)) * size) by lia.
  rewrite (slice_elem bs1 es1 _ He). unfold aget.
  destruct (in_range es1 (b + (j - 1))) eqn:Er; simpl; [|exact I].
  fold (gt0 compar (at_ es1 (b + (j - 1))) tmp). destruct (gt0 compar _ tmp); simpl; [|auto].
  unfold in_range in Er. to_prop.
  eapply res_rel_bind; [apply put_elem; [exact He|apply at_length; [apply He|unfold len; lia]]|].
  intros bs2 es2 He2. simpl. split; [exact He2|lia].
Qed.

Lemma insertion_sort_sim malloc_ok fuel bs es b n : elems sz bs es ->
  (size <= 256 \/ malloc_ok = true) -> 1 < n ->
  res_rel (elems sz)
    (insertion_sort compar malloc_ok fuel bs (b * size) n size)
    (Sort.insertion_sort (gt0 compar) fuel es b n).
Proof using Hsz.
  intros H Hm Hn. unfold insertion_sort, Sort.insertion_sort.
  destruct (n <=? 1) eqn:E; to_prop; [lia|].
  replace ((256 <? size) && negb malloc_ok) with false.
  2:{ symmetry. apply andb_false_iff. destruct Hm as [Hm | ->]; [left; apply Z.ltb_ge; lia|right; reflexivity]. }
  apply (loop_sim (fun x y => elems sz x.1 y.1 /\ x.2 = (b + y.2) * size));
    [|simpl; split; [exact H|lia]].
  intros [bs1 ib] [es1 i] [He Hi]. simpl in He, Hi. subst ib.
  replace ((b + i) * size <? b * size + n * size) with (i <? n).
  2:{ apply eq_bool_prop_intro. rewrite !Is_true_true, !Z.ltb_lt. nia. }
  destruct (i <? n) eqn:Ein; simpl; [|exact He].
  rewrite (slice_elem bs1 es1 _ He). unfold aget.
  destruct (in_range es1 (b + i)) eqn:Er; simpl; [|exact I].
  unfold in_range in Er. to_prop.
  assert (Hv : length (at_ es1 (b + i)) = sz) by (apply at_length; [apply He|unfold len; lia]).
  eapply res_rel_bind; [apply insertion_shift_sim, He|].
  intros [bs2 jb] [es2 j] [He2 Hj]. simpl in He2, Hj. subst jb.
  replace ((b + j) * size =? (b + i) * size) with (j =? i).
  2:{ apply eq_bool_prop_intro. rewrite !Is_true_true, !Z.eqb_eq. nia. }
  eapply (res_rel_bind (elems sz)).
  - destruct (j =? i); simpl; [exact He2|]. apply put_elem; assumption.
  - intros bs3 es3 He3. simpl. split; [exact He3|lia].
Qed.
End Elements.

(** * The byte-wise exchange *)

Lemma slice_ok bs off n : 0 <= off -> 0 <= n -> off + n <= len bs ->
  exists v, slice bs off n = Ok v /\ len v = n /\ forall q, 0 <= q < n -> at_ v q = at_ bs (off + q).
Proof.
  intros H1 H2 H3. unfold slice, in_buf, len in *.
  replace (_ && _) with true by (symmetry; apply andb_true_iff; rewrite !Z.leb_le; lia).
  eexists. split; [reflexivity|]. split; [rewrite length_take, length_drop; lia|].
  intros q Hq. unfold at_. rewrite lookup_total_take, decide_True, lookup_total_drop by lia.
  f_equal. lia.
Qed.

Lemma put_elem_ok bs off l : 0 <= off -> off + len l <= len bs ->
  exists bs', put bs off l = Ok bs' /\ len bs' = len bs /\
    forall p, 0 <= p -> at_ bs' p =
      if (off <=? p) && (p <? off + len l) then at_ l (p - off) else at_ bs p.
Proof.
  intros H1 H2. unfold put, in_buf, len in *.
  replace (_ && _) with true by (symmetry; apply andb_true_iff; rewrite !Z.leb_le; lia).
  eexists. split; [reflexivity|]. split; [rewrite !length_app, length_take, length_drop; lia|].
  intros p Hp. unfold at_. destruct (off <=? p) eqn:E1; to_prop; simpl.
  - rewrite lookup_total_app_r by (rewrite length_take; lia).
    rewrite length_take. replace (Z.to_nat off `min` length bs)%nat with (Z.to_nat off) by lia.
    destruct (p <? _) eqn:E2; to_prop.
    + rewrite lookup_total_app_l by lia. f_equal. lia.
    + rewrite lookup_total_app_r by lia. rewrite lookup_total_drop. f_equal. lia.
  - rewrite lookup_total_app_l by (rewrite length_take; lia).
    rewrite lookup_total_take, decide_True by lia. reflexivity.
Qed.

(** The first [k] bytes at [a] and at [b] have changed places. *)
Definition swapped (a b k : Z) (bs bs' : list Z) : Prop :=
  len bs' = len bs /\ forall p, 0 <= p -> at_ bs' p =
    if (a <=? p) && (p <? a + k) then at_ bs (p - a + b)
    else if (b <=? p) && (p <? b + k) then at_ bs (p - b + a)
    else at_ bs p.

(** The two operands coincide or do not overlap. *)
Definition apart (a b n : Z) : Prop := a = b \/ a + n <= b \/ b + n <= a.

Ltac range_cases :=
  repeat match goal with
  | |- context [if (?x <=? ?y) && (?z <? ?w) then _ else _] =>
      destruct (Z.leb_spec x y), (Z.ltb_spec z w); simpl; try lia
  end.

Lemma swap_chunk_ok bs a b n : 0 <= a -> 0 <= b -> 0 <= n -> a + n <= len bs -> b + n <= len bs ->
  apart a b n -> wp (swap_chunk bs a b n) (swapped a b n bs).
Proof.
  intros Ha Hb Hn La Lb Hd. unfold swap_chunk, apart in *.
  destruct (slice_ok bs a n) as (va & -> & Hla & Hva); auto. simpl.
  destruct (slice_ok bs b n) as (vb & -> & Hlb & Hvb); auto. simpl.
  destruct (put_elem_ok bs a vb) as (bs1 & -> & Hl1 & H1); [lia..|]. simpl.
  destruct (put_elem_ok bs1 b va) as (bs2 & -> & Hl2 & H2); [lia..|]. simpl.
  split; [lia|]. intros p Hp. rewrite H2, H1, Hla, Hlb by lia.
  range_cases; rewrite ?Hva, ?Hvb by lia; f_equal; lia.
Qed.

Lemma swapped_step a b k n bs bs1 bs2 : 0 <= a -> 0 <= b -> 0 <= k -> 0 <= n ->
  a = b \/ a + k + n <= b \/ b + k + n <= a ->
  swapped a b k bs bs1 -> swapped (a + k) (b + k) n bs1 bs2 -> swapped a b (k + n) bs bs2.
Proof.
  intros Ha Hb Hk Hn Hd [L1 H1] [L2 H2]. split; [lia|]. intros p Hp. rewrite H2 by lia.
  range_cases; rewrite H1 by lia; range_cases; f_equal; lia.
Qed.

(** [swp] exchanges two elements of any size. *)
Lemma swp_ok fuel bs a b size : 0 <= a -> 0 <= b -> 0 <= size ->
  a + size <= len bs -> b + size <= len bs -> apart a b size -> size < Z.of_nat fuel ->
  wp (swp fuel bs a b size) (swapped a b size bs).
Proof.
  intros Ha Hb Hs La Lb Hd Hf. unfold swp, apart in *.
  destruct (size =? 4) eqn:E4; to_prop; [subst; apply swap_chunk_ok; auto; lia|].
  destruct (size =? 8) eqn:E8; to_prop; [subst; apply swap_chunk_ok; auto; lia|].
  apply wp_bind.
  assert (H0 : swapped a b 0 bs bs) by (split; [reflexivity|]; intros p Hp; range_cases; reflexivity).
  apply wp_mono with (fun '(bs', i) => swapped a b i bs bs' /\ 0 <= i <= size).
  - apply (wp_loop (fun '(bs', i) => swapped a b i bs bs' /\ 0 <= i <= size)
             (fun st => Z.to_nat (size - st.2))); [|split; [exact H0|lia]|simpl; lia].
    intros [bs' i] [Hsw Hi]. unfold step_ok. destruct (i + 8 <=? size) eqn:E; to_prop; simpl; [|auto].
    pose proof (proj1 Hsw). apply wp_bind.
    eapply wp_mono; [apply swap_chunk_ok; unfold apart; lia|]. intros bs2 H2. simpl.
    split; [|lia]. split; [|lia]. eapply swapped_step; eauto; lia.
  - intros [bs' i] [Hsw Hi].
    apply (wp_loop (fun '(bs', i) => swapped a b i bs bs' /\ 0 <= i <= size)
             (fun st => Z.to_nat (size - st.2))); [|auto|simpl; lia].
    clear bs' i Hsw Hi.
    intros [bs' i] [Hsw Hi]. unfold step_ok. destruct (i <? size) eqn:E; to_prop; simpl.
    2:{ replace size with i by lia. exact Hsw. }
    pose proof (proj1 Hsw). apply wp_bind.
    eapply wp_mono; [apply swap_chunk_ok; unfold apart; lia|]. intros bs2 H2. simpl.
    split; [|lia]. split; [|lia]. eapply swapped_step; eauto; lia.
Qed.

Section ElementSwap.
Context (sz : nat).
Hypothesis Hsz : (0 < sz)%nat.
#[local] Abbreviation size := (Z.of_nat sz).

Lemma at_concat (es : list (list Z)) p : Forall (fun v => length v = sz) es -> 0 <= p < len es * size ->
  at_ (concat es) p = at_ (at_ es (p / size)) (p mod size).
Proof using Hsz.
  intros Hf Hp. pose proof (Z.div_mod p size ltac:(lia)) as Hdm.
  pose proof (Z.mod_pos_bound p size ltac:(lia)) as Hm.
  assert (Hq : 0 <= p / size < len es).
  { split; [apply Z.div_pos; lia|]. apply Z.div_lt_upper_bound; lia. }
  destruct (slice_ok (concat es) (p / size * size) size) as (v & Hv & Hlv & Hat); [nia|lia| |].
  { unfold len in *. rewrite (concat_length sz) by exact Hf. nia. }
  rewrite (slice_elem sz Hsz _ es) in Hv by (split; auto). rewrite aget_ok in Hv by exact Hq.
  injection Hv as ->. rewrite Hat by lia. f_equal. lia.
Qed.

Lemma elems_swapped bs bs' es i j : elems sz bs es ->
  0 <= i < len es -> 0 <= j < len es ->
  swapped (i * size) (j * size) size bs bs' -> elems sz bs' (swap es i j).
Proof using Hsz.
  intros [-> Hf] Hi Hj [Hl Hs].
  assert (Hf' : Forall (fun v => length v = sz) (swap es i j)).
  { unfold swap. repeat apply Forall_insert; auto; apply at_length; auto. }
  split; [|exact Hf'].
  assert (Hle : forall xs : list (list Z), Forall (fun v => length v = sz) xs -> len (concat xs) = len xs * size).
  { intros xs Hx. unfold len. rewrite (concat_length sz) by exact Hx. lia. }
  apply at_ext; [rewrite Hl, !Hle, len_swap by assumption; reflexivity|].
  intros p Hp. rewrite Hl, Hle in Hp by exact Hf.
  rewrite (at_concat (swap es i j)) by (rewrite ?len_swap; auto). rewrite Hs by lia.
  pose proof (Z.div_mod p size ltac:(lia)) as Hdm.
  pose proof (Z.mod_pos_bound p size ltac:(lia)) as Hm.
  assert (Hq : 0 <= p / size < len es).
  { split; [apply Z.div_pos; lia|]. apply Z.div_lt_upper_bound; lia. }
  assert (Hin : forall k, (k * size <=? p) && (p <? k * size + size) = (p / size =? k)).
  { intros k. apply eq_bool_prop_intro.
    rewrite !Is_true_true, andb_true_iff, Z.leb_le, Z.ltb_lt, Z.eqb_eq. nia. }
  assert (Hmv : forall k k', p / size = k -> 0 <= k' < len es ->
    at_ (concat es) (p - k * size + k' * size) = at_ (at_ es k') (p mod size)).
  { intros k k' Hk Hk'. rewrite at_concat by (auto; nia).
    replace (p - k * size + k' * size) with (p mod size + k' * size) by nia.
    rewrite Z.div_add, Z.mod_add, Z.div_small, Z.mod_mod by lia. reflexivity. }
  rewrite !Hin, at_swap by lia.
  destruct (p / size =? i) eqn:Ei; to_prop.
  - rewrite Hmv by auto. destruct (p / size =? j) eqn:Ej; to_prop; [|reflexivity].
    replace j with i by lia. reflexivity.
  - destruct (p / size =? j) eqn:Ej; to_prop; [apply Hmv; auto|apply at_concat; auto].
Qed.

Lemma swp_elem fuel bs es i j : elems sz bs es -> 0 <= i < len es -> 0 <= j < len es ->
  size < Z.of_nat fuel ->
  wp (swp fuel bs (i * size) (j * size) size) (fun bs' => elems sz bs' (swap es i j)).
Proof using Hsz.
  intros H Hi Hj Hf.
  assert (Hl : len bs = len es * size) by (unfold len; rewrite (elems_length sz _ _ H); lia).
  eapply wp_mono; [apply (swp_ok fuel bs); try nia|].
  - unfold apart. destruct (decide (i = j)); nia.
  - intros bs' Hs. eapply elems_swapped; eauto.
Qed.
End ElementSwap.

(** * Heapsort on bytes is heapsort on elements *)

Section HeapSim.
Context (sz : nat) (compar : list Z -> list Z -> Z).
Hypothesis Hsz : (0 < sz)%nat.
#[local] Abbreviation size := (Z.of_nat sz).
(** Same elements, and as many as before. *)
Definition view (n : Z) (bs : list Z) (es : list (list Z)) : Prop := elems sz bs es /\ len es = n.

Lemma slice_at n bs es b k : view n bs es ->
  slice bs (b * size + k * size) size = aget es (b + k).
Proof using Hsz.
  intros [H _]. replace (b * size + k * size) with ((b + k) * size) by lia.
  apply slice_elem; assumption.
Qed.

Context (fuel : nat).
Hypothesis Hfuel : size < Z.of_nat fuel.

Lemma swp_view n bs es b i j : view n bs es -> 0 <= b + i < n -> 0 <= b + j < n ->
  res_rel (view n) (swp fuel bs (b * size + i * size) (b * size + j * size) size)
                   (aswap es (b + i) (b + j)).
Proof using Hsz Hfuel.
  intros [H Hn] Hi Hj. rewrite aswap_ok by lia.
  pose proof (swp_elem sz Hsz fuel bs es (b + i) (b + j) H ltac:(lia) ltac:(lia) Hfuel) as Hw.
  replace (b * size + i * size) with ((b + i) * size) by lia.
  replace (b * size + j * size) with ((b + j) * size) by lia.
  destruct (swp _ _ _ _ _); simpl in *; try easy. split; [exact Hw|]. rewrite len_swap. exact Hn.
Qed.

Lemma aget_inv {A} `{!Inhabited A} (a : list A) i x : aget a i = Ok x ->
  x = at_ a i /\ 0 <= i < len a.
Proof.
  unfold aget, in_range, len. destruct (_ && _) eqn:E; [|easy]. intros [= <-]. to_prop. split; [reflexivity|lia].
Qed.

Lemma sift_down_sim n bs es b start e : view n bs es ->
  res_rel (view n) (sift_down compar fuel bs (b * size) start e size)
                   (Sort.sift_down (lt0 compar) fuel es b start e).
Proof using Hsz Hfuel.
  intros H. unfold sift_down, Sort.sift_down.
  apply (loop_sim (fun x y => view n x.1 y.1 /\ x.2 = y.2)); [|simpl; auto].
  intros [bs1 r] [es1 root] [Hv Hr]. simpl in Hv, Hr. subst r.
  destruct (root * 2 + 1 <=? e); simpl; [|exact Hv].
  eapply (res_rel_bind eq).
  { unfold pick_child. destruct (_ <=? e); simpl; [|reflexivity].
    rewrite !(slice_at n bs1 es1) by exact Hv.
    destruct (aget es1 _); simpl; auto. destruct (aget es1 _); simpl; auto. }
  intros c c' <-. rewrite !(slice_at n bs1 es1) by exact Hv.
  destruct (aget es1 (b + root)) as [x| |] eqn:Ex; simpl; auto.
  destruct (aget es1 (b + c)) as [y| |] eqn:Ey; simpl; auto.
  apply aget_inv in Ex as [_ Hx]. apply aget_inv in Ey as [_ Hy].
  pose proof (proj2 Hv) as Hn. rewrite Hn in Hx, Hy.
  unfold lt0. destruct (compar x y <? 0); simpl; [|exact Hv].
  eapply (res_rel_bind (view n)); [apply swp_view; assumption|]. intros. simpl. auto.
Qed.

Lemma heapsort_sim bs es b n : elems sz bs es -> 0 <= b -> b + n <= len es ->
  res_rel (elems sz) (heapsort_impl compar fuel bs (b * size) n size)
                     (heapsort (lt0 compar) fuel es b n).
Proof using Hsz Hfuel.
  intros H Hb Hn. unfold heapsort_impl, heapsort, heapify, heap_extract.
  destruct (n <? 2) eqn:E; simpl; [exact H|]. to_prop.
  eapply (res_rel_bind (view (len es))).
  { apply (loop_sim (fun x y => view (len es) x.1 y.1 /\ x.2 = y.2)); [|simpl; split; [split; auto|reflexivity]].
    intros [bs1 s] [es1 s'] [Hv Hs]. simpl in Hv, Hs. subst s'.
    eapply (res_rel_bind (view (len es))); [apply sift_down_sim, Hv|].
    intros bs2 es2 Hv2. destruct (0 <? s); simpl; auto. }
  intros bs1 es1 Hv1.
  apply (loop_sim (fun x y => view (len es) x.1 y.1 /\ x.2 = y.2 /\ x.2 < n));
    [|simpl; split; [exact Hv1|lia]].
  intros [bs2 e] [es2 e'] [Hv [He Hlt]]. simpl in Hv, He, Hlt. subst e'.
  destruct (0 <? e) eqn:E0; simpl; [|apply Hv]. to_prop.
  replace (b * size) with (b * size + 0 * size) at 1 by lia.
  eapply (res_rel_bind (view (len es))); [apply swp_view; [exact Hv|lia|lia]|].
  intros bs3 es3 Hv3. simpl. eapply (res_rel_bind (view (len es))); [apply sift_down_sim, Hv3|].
  intros bs4 es4 Hv4. simpl. split; [exact Hv4|lia].
Qed.
End HeapSim.

(** * Binary search *)

Section Bsearch.
Context (sz : nat) (compar : list Z -> list Z -> Z) (key : list Z).
Hypothesis Hsz : (0 < sz)%nat.
#[local] Abbreviation size := (Z.of_nat sz).

(** The elements are ordered with respect to the key: first those below it,
    then those equal to it, then those above it. *)
Definition key_ordered (es : list (list Z)) : Prop :=
  forall i j, 0 <= i -> i <= j -> j < len es ->
    (compar key (at_ es i) < 0 -> compar key (at_ es j) < 0) /\
    (0 < compar key (at_ es j) -> 0 < compar key (at_ es i)).

Lemma bsearch_ok fuel bs es : elems sz bs es -> key_ordered es -> len es < Z.of_nat fuel ->
  wp (swar_bsearch compar fuel key bs (len es) size) (fun r => match r with
    | Some off => exists i, 0 <= i < len es /\ off = i * size /\ compar key (at_ es i) = 0
    | None => forall i, 0 <= i < len es -> compar key (at_ es i) <> 0
    end).
Proof using Hsz.
  intros H Ho Hf.
  apply (wp_loop (fun '(l, u) => 0 <= l <= u /\ u <= len es /\
      (forall i, 0 <= i < l -> 0 < compar key (at_ es i)) /\
      (forall i, u <= i < len es -> compar key (at_ es i) < 0))
    (fun '(l, u) => Z.to_nat (u - l))).
  - intros [l u] (H1 & H2 & HL & HU). unfold step_ok. destruct (l <? u) eqn:E; to_prop.
    2:{ simpl. intros i Hi. destruct (Z_lt_le_dec i l) as [Hl|Hl].
        - specialize (HL i). lia.
        - specialize (HU i). lia. }
    assert (Hm : l <= l + (u - l) / 2 < u) by dlia.
    set (idx := l + (u - l) / 2) in *.
    rewrite (slice_elem sz Hsz bs es) by exact H. rewrite aget_ok by lia. simpl.
    destruct (compar key (at_ es idx) <? 0) eqn:E1; to_prop; simpl.
    + split; [|lia]. split; [lia|]. split; [lia|]. split; [exact HL|].
      intros i Hi. apply (Ho idx i); lia.
    + destruct (0 <? compar key (at_ es idx)) eqn:E2; to_prop; simpl.
      * split; [|lia]. split; [lia|]. split; [lia|]. split; [|exact HU].
        intros i Hi. apply (Ho i idx); lia.
      * exists idx. split; [lia|]. split; [reflexivity|lia].
  - unfold len. split; [lia|]. split; [lia|]. split; intros; lia.
  - unfold len in *. lia.
Qed.
End Bsearch.

(** * Integers in the buffer *)

Lemma bytes_le_mod w z : bytes_le w (z mod 2 ^ (8 * Z.of_nat w)) = bytes_le w z.
Proof.
  revert z. induction w as [|w IH]; intros z; [reflexivity|].
  simpl bytes_le. replace (2 ^ (8 * Z.of_nat (S w))) with (256 * 2 ^ (8 * Z.of_nat w)).
  2:{ replace (8 * Z.of_nat (S w)) with (8 + 8 * Z.of_nat w) by lia. rewrite Z.pow_add_r by lia. reflexivity. }
  pose proof (Z.pow_pos_nonneg 2 (8 * Z.of_nat w) ltac:(lia) ltac:(lia)) as Hp.
  rewrite Z.rem_mul_r by lia. f_equal.
  - rewrite Z.mul_comm, Z_mod_plus_full, Z.mod_mod by lia. reflexivity.
  - rewrite Z.mul_comm, Z.div_add, (Z.div_small (z mod 256)) by (try apply Z.mod_pos_bound; lia).
    rewrite Z.add_0_l. apply IH.
Qed.

Lemma sgn_mod w z : 0 < w -> (sgn w z) mod 2 ^ w = z mod 2 ^ w.
Proof.
  intros Hw. unfold sgn. rewrite Zminus_mod_idemp_l. f_equal. lia.
Qed.

Lemma bytes_le_sgn (w : nat) v : (0 < w)%nat -> Forall byte v -> length v = w ->
  bytes_le w (sgn (8 * Z.of_nat w) (le v)) = v.
Proof.
  intros Hw Hb Hl. rewrite <- bytes_le_mod, sgn_mod by lia. rewrite bytes_le_mod. apply bytes_le_le; assumption.
Qed.

Lemma elems_ints (w n : nat) bs : (0 < w)%nat -> Forall byte bs -> length bs = (n * w)%nat ->
  elems w bs (map (bytes_le w) (ints_of n w bs)) /\ length (ints_of n w bs) = n.
Proof.
  intros Hw. revert bs. induction n as [|n IH]; intros bs Hb Hl; simpl in *.
  - destruct bs; [|easy]. split; [split; [reflexivity|constructor]|reflexivity].
  - destruct (IH (drop w bs)) as [[H1 H2] H3]; [apply Forall_drop, Hb|rewrite length_drop; lia|].
    split; [split; simpl|lia].
    + rewrite bytes_le_sgn by (try rewrite length_take; try apply Forall_take; auto; lia).
      rewrite <- H1. symmetry. apply take_drop.
    + constructor; [apply bytes_le_length|exact H2].
Qed.

Lemma sgn_range w z : 0 < w -> - 2 ^ (w - 1) <= sgn w z < 2 ^ (w - 1).
Proof.
  intros Hw. unfold sgn. replace (2 ^ w) with (2 * 2 ^ (w - 1)).
  2:{ rewrite <- Z.pow_succ_r by lia. f_equal. lia. }
  pose proof (Z.pow_pos_nonneg 2 (w - 1) ltac:(lia) ltac:(lia)).
  pose proof (Z.mod_pos_bound (z + 2 ^ (w - 1)) (2 * 2 ^ (w - 1)) ltac:(lia)). lia.
Qed.

Lemma le_bytes_le w z : le (bytes_le w z) = z mod 2 ^ (8 * Z.of_nat w).
Proof.
  revert z. induction w as [|w IH]; intros z; simpl bytes_le; [symmetry; apply Z.mod_1_r|].
  simpl le. rewrite IH. replace (8 * Z.of_nat (S w)) with (8 + 8 * Z.of_nat w) by lia.
  rewrite Z.pow_add_r by lia. rewrite Z.rem_mul_r by (try apply Z.pow_nonzero; lia).
  change (2 ^ 8) with 256. lia.
Qed.

Lemma read_int_bytes z : - 2 ^ 31 <= z < 2 ^ 31 -> read_int (bytes_le 4 z) = z.
Proof.
  intros Hz. unfold read_int. rewrite take_ge by (rewrite bytes_le_length; lia).
  rewrite le_bytes_le. unfold i32, sgn. rewrite Zplus_mod_idemp_l, Z.mod_small; lia.
Qed.

Lemma ints_of_range n w bs : (0 < w)%nat ->
  Forall (fun z => - 2 ^ (8 * Z.of_nat w - 1) <= z < 2 ^ (8 * Z.of_nat w - 1)) (ints_of n w bs).
Proof.
  intros Hw. revert bs. induction n as [|n IH]; intros bs; simpl; constructor; [apply sgn_range; lia|apply IH].
Qed.

(** The elements of a buffer are in order for a comparison. *)
Definition ordered (compar : list Z -> list Z -> Z) (es : list (list Z)) : Prop :=
  forall i j, 0 <= i -> i <= j -> j < len es -> compar (at_ es i) (at_ es j) <= 0.

Lemma at_map {A B} `{!Inhabited A} `{!Inhabited B} (f : A -> B) (a : list A) i :
  0 <= i < len a -> at_ (map f a) i = f (at_ a i).
Proof.
  intros Hi. pose proof (lookup_at a i Hi) as E. unfold at_ at 1. apply list_lookup_total_correct.
  change (map f a) with (f <$> a). rewrite list_lookup_fmap, E. reflexivity.
Qed.

Lemma qsort_int_ok mo fuel n bs : Forall byte bs -> length bs = (n * 4)%nat -> Z.of_nat n + 1 < Z.of_nat fuel ->
  exists bs' es es', qsort mo fuel bs (Z.of_nat n) 4 CmpInt = Ok bs' /\
    elems 4 bs es /\ elems 4 bs' es' /\ es' ≡ₚ es /\ ordered cmp_int es'.
Proof.
  intros Hb Hl Hf. destruct (elems_ints 4 n bs) as [He Hn]; [lia|auto|auto|].
  set (a := ints_of n 4 bs) in *.
  assert (Ha : len a = Z.of_nat n) by (unfold len; lia).
  assert (Hra : Forall (fun z => - 2 ^ 31 <= z < 2 ^ 31) a) by apply (ints_of_range n 4 bs ltac:(lia)).
  assert (Hs : exists a', i32_introsort fuel (get_depth_limit (Z.of_nat n)) a 0 (Z.of_nat n) = Ok a' /\
            sorts Z.gtb 0 (Z.of_nat n) a a').
  { pose proof (introsort_ok Z.gtb Z.ltb fuel (Z.to_nat (get_depth_limit (Z.of_nat n))) a 0 (Z.of_nat n)) as H.
    unfold i32_introsort. destruct (Sort.introsort _ _ _ _ _ _ _) as [a'| |];
      simpl in H; try (exfalso; apply H; lia). exists a'. split; [reflexivity|apply H; lia]. }
  assert (Hfin : forall bs' a', a' ≡ₚ a -> sorted_seg Z.gtb 0 (Z.of_nat n) a' ->
    bs' = concat (map (bytes_le 4) a') ->
    elems 4 bs' (map (bytes_le 4) a') /\ map (bytes_le 4) a' ≡ₚ map (bytes_le 4) a /\
    ordered cmp_int (map (bytes_le 4) a')).
  { intros bs' a' Hp Hs' ->. assert (Hla : len a' = len a) by (unfold len; rewrite Hp; reflexivity).
    split_and!.
    - split; [reflexivity|]. apply List.Forall_forall. intros v Hv.
      apply in_map_iff in Hv as (z & <- & _). apply bytes_le_length.
    - apply Permutation_map, Hp.
    - intros i j Hi Hij Hj. unfold len in Hj. rewrite length_map in Hj. fold (len a') in Hj.
      rewrite !at_map by lia. unfold cmp_int.
      assert (Hr : forall k, 0 <= k < len a' -> - 2 ^ 31 <= at_ a' k < 2 ^ 31).
      { intros k Hk. pose proof (lookup_at a' k Hk) as E. apply list_elem_of_lookup_2, list_elem_of_In in E.
        apply (Permutation_in _ Hp) in E. rewrite List.Forall_forall in Hra. apply Hra, E. }
      rewrite !read_int_bytes by (apply Hr; lia).
      specialize (Hs' i j Hi Hij ltac:(lia)). unfold leA in Hs'. rewrite Z.gtb_ltb in Hs'. rewrite Hs'.
      destruct (at_ a' i <? at_ a' j); unfold b2z; lia. }
  unfold qsort, swar_qsort.
  destruct ((Z.of_nat n <? 2) || (4 =? 0)) eqn:E; rewrite orb_false_r in E; to_prop.
  - exists bs, (map (bytes_le 4) a), (map (bytes_le 4) a). split; [reflexivity|]. split; [exact He|].
    apply Hfin; [reflexivity| |apply He]. intros i j Hi Hij Hj. replace j with i by lia. apply (leA_refl Z.gtb Z.ltb).
  - simpl. rewrite Nat2Z.id. fold a. destruct Hs as (a' & -> & Hr & Hs'). simpl.
    eexists _, _, _. split; [reflexivity|]. split; [exact He|]. apply Hfin; [apply (rearr_perm Hr)|exact Hs'|].
    rewrite drop_ge by lia. apply app_nil_r.
Qed.

(** * The properties *)

Lemma sorts_ordered compar (es es' : list (list Z)) : sorts (gt0 compar) 0 (len es) es es' ->
  es' ≡ₚ es /\ ordered compar es'.
Proof.
  intros [Hr Hs]. split; [apply (rearr_perm Hr)|]. intros i j Hi Hij Hj. rewrite (rearr_len Hr) in Hj.
  specialize (Hs i j Hi Hij Hj). unfold leA, gt0 in Hs. apply Z.ltb_ge in Hs. exact Hs.
Qed.

(** A comparison of two-byte elements as unsigned integers. *)
Definition cmp16 (x y : list Z) : Z := le x - le y.

#[export] Instance cmp16_order : CmpOrder (gt0 cmp16) (lt0 cmp16).
Proof.
  unfold gt0, lt0, cmp16. split; intros *.
  - apply eq_bool_prop_intro. rewrite !Is_true_true, !Z.ltb_lt. lia.
  - rewrite Z.ltb_lt, Z.ltb_ge. lia.
  - rewrite !Z.ltb_ge. lia.
Qed.

Definition ex_shorts : list Z := bytes_of 2 [500; 3; 300; 65535; 3; 1000; 20].

Lemma ex_shorts_elems : elems 2 ex_shorts (map (bytes_le 2) [500; 3; 300; 65535; 3; 1000; 20]).
Proof. split; [reflexivity|]. repeat constructor. Qed.

(** C39: [qsort] with the comparison [cmp_int] on four-byte elements sorts any
    number of them: the bytes of the result are the input's elements permuted,
    in the order [cmp_int] defines, whether or not memory can be allocated. *)
Theorem qsort_int_sorts (malloc_ok : bool) (n : nat) (bs : list Z) (fuel : nat) :
  Forall byte bs -> length bs = (n * 4)%nat -> Z.of_nat n + 1 < Z.of_nat fuel ->
  exists bs' es es', qsort malloc_ok fuel bs (Z.of_nat n) 4 CmpInt = Ok bs' /\
    elems 4 bs es /\ elems 4 bs' es' /\ es' ≡ₚ es /\ ordered cmp_int es'.
Proof. intros. apply qsort_int_ok; assumption. Qed.

Lemma qsort_int_sorts_witness : exists bs' es es',
  qsort false 40 (bytes_of 4 ex_keys) 20 4 CmpInt = Ok bs' /\
  elems 4 (bytes_of 4 ex_keys) es /\ elems 4 bs' es' /\ es' ≡ₚ es /\ ordered cmp_int es'.
Proof.
  apply (qsort_int_sorts false 20 (bytes_of 4 ex_keys) 40); [|reflexivity|vm_compute; reflexivity].
  apply List.Forall_forall. intros b Hb. unfold byte.
  assert (H : forallb (fun b => (0 <=? b) && (b <? 256)) (bytes_of 4 ex_keys) = true) by reflexivity.
  rewrite forallb_forall in H. specialize (H b Hb). to_prop. lia.
Defined.

(** With any comparison that is a total preorder, and elements of any size,
    [qsort] sorts arrays of at most sixteen elements (the insertion-sort path,
    which moves elements through a temporary). *)
Theorem qsort_small_sorts (f : list Z -> list Z -> Z) (malloc_ok : bool) (sz : nat) (bs : list Z)
    (es : list (list Z)) (fuel : nat) :
  CmpOrder (gt0 f) (lt0 f) -> (0 < sz)%nat -> (Z.of_nat sz <= 256 \/ malloc_ok = true) ->
  elems sz bs es -> len es <= 16 -> (16 < fuel)%nat ->
  exists bs' es', qsort malloc_ok fuel bs (len es) (Z.of_nat sz) (Compar f) = Ok bs' /\
    elems sz bs' es' /\ es' ≡ₚ es /\ ordered f es'.
Proof.
  intros Hc Hsz Hm He Hl Hf.
  destruct (decide (len es < 2)) as [H2|H2].
  - exists bs, es. split.
    + unfold qsort, swar_qsort. replace (len es <? 2) with true by (symmetry; apply Z.ltb_lt; lia). reflexivity.
    + split; [exact He|]. split; [reflexivity|]. intros i j Hi Hij Hj. replace j with i by lia.
      pose proof (leA_refl (gt0 f) (lt0 f) (at_ es i)) as H. unfold leA, gt0 in H. apply Z.ltb_ge in H. exact H.
  - pose proof (insertion_sort_sim sz Hsz f malloc_ok fuel bs es 0 (len es) He Hm ltac:(lia)) as Hsim.
    pose proof (Sort.insertion_sort_ok (gt0 f) (lt0 f) fuel es 0 (len es) ltac:(lia) ltac:(lia) ltac:(lia) ltac:(lia)) as Hok.
    apply (res_rel_wp _ _ _ _ Hsim), wp_ex in Hok as (bs' & E & es' & He' & Hs').
    exists bs', es'. split; [|split; [exact He'|apply sorts_ordered; exact Hs']].
    unfold qsort, swar_qsort. replace (len es <? 2) with false by (symmetry; apply Z.ltb_ge; lia).
    replace (Z.of_nat sz =? 0) with false by (symmetry; apply Z.eqb_neq; lia). simpl.
    replace (Z.to_nat (get_depth_limit (len es))) with (S (Z.to_nat (get_depth_limit (len es)) - 1)).
    2:{ unfold get_depth_limit, clz64. assert (Z.log2 (len es) < 5) by (apply Z.log2_lt_pow2; lia).
        pose proof (Z.log2_nonneg (len es)). lia. }
    simpl introsort. replace (16 <? len es) with false by (symmetry; apply Z.ltb_ge; lia).
    replace (1 <? len es) with true by (symmetry; apply Z.ltb_lt; lia). exact E.
Qed.

Lemma qsort_small_sorts_witness : exists bs' es', qsort false 40 ex_shorts 7 2 (Compar cmp16) = Ok bs' /\
  elems 2 bs' es' /\ es' ≡ₚ map (bytes_le 2) [500; 3; 300; 65535; 3; 1000; 20] /\ ordered cmp16 es'.
Proof.
  apply (qsort_small_sorts cmp16 false 2 ex_shorts (map (bytes_le 2) [500; 3; 300; 65535; 3; 1000; 20]) 40);
    [apply cmp16_order|lia|left; lia|apply ex_shorts_elems|vm_compute; congruence|lia].
Defined.

(** the generic heapsort (the fallback when the recursion depth is used up)
    sorts elements of any size under any total preorder; its byte-offset
    arithmetic and the chunked exchange [swp] refine the element-level heapsort. *)
Theorem heapsort_impl_sorts (f : list Z -> list Z -> Z) (sz : nat) (bs : list Z)
    (es : list (list Z)) (fuel : nat) :
  CmpOrder (gt0 f) (lt0 f) -> (0 < sz)%nat -> elems sz bs es -> 1 <= len es ->
  len es < Z.of_nat fuel -> Z.of_nat sz < Z.of_nat fuel ->
  exists bs' es', heapsort_impl f fuel bs 0 (len es) (Z.of_nat sz) = Ok bs' /\
    elems sz bs' es' /\ es' ≡ₚ es /\ ordered f es'.
Proof.
  intros Hc Hsz He Hl Hf1 Hf2.
  pose proof (heapsort_sim sz f Hsz fuel Hf2 bs es 0 (len es) He ltac:(lia) ltac:(lia)) as Hsim.
  pose proof (heapsort_ok (gt0 f) (lt0 f) 0 ltac:(lia) fuel (len es) es Hl ltac:(lia) Hf1) as Hok.
  apply (res_rel_wp _ _ _ _ Hsim), wp_ex in Hok as (bs' & E & es' & He' & Hs').
  exists bs', es'. split; [exact E|]. split; [exact He'|apply sorts_ordered; exact Hs'].
Qed.

Lemma heapsort_impl_sorts_witness : exists bs' es', heapsort_impl cmp16 40 ex_shorts 0 7 2 = Ok bs' /\
  elems 2 bs' es' /\ es' ≡ₚ map (bytes_le 2) [500; 3; 300; 65535; 3; 1000; 20] /\ ordered cmp16 es'.
Proof.
  apply (heapsort_impl_sorts cmp16 2 ex_shorts (map (bytes_le 2) [500; 3; 300; 65535; 3; 1000; 20]) 40);
    [apply cmp16_order|lia|apply ex_shorts_elems|vm_compute; congruence|vm_compute; reflexivity|lia].
Defined.

(** [bsearch] on an array ordered with respect to the key returns the offset
    of an element equal to the key, and NULL only when no element is. *)
Theorem bsearch_correct (f : list Z -> list Z -> Z) (sz : nat) (key bs : list Z)
    (es : list (list Z)) (fuel : nat) :
  (0 < sz)%nat -> elems sz bs es -> key_ordered f key es -> len es < Z.of_nat fuel ->
  exists r, bsearch fuel key bs (len es) (Z.of_nat sz) (Compar f) = Ok r /\
    match r with
    | Some off => exists i, 0 <= i < len es /\ off = i * Z.of_nat sz /\ f key (at_ es i) = 0
    | None => forall i, 0 <= i < len es -> f key (at_ es i) <> 0
    end.
Proof. intros Hsz He Ho Hf. apply wp_ex. apply (bsearch_ok sz f key Hsz); assumption. Qed.

Lemma bsearch_correct_witness :
  bsearch 20 (bytes_le 2 300) (bytes_of 2 [3; 20; 300; 500; 1000]) 5 2 (Compar cmp16) = Ok (Some 4).
Proof.
  destruct (bsearch_correct cmp16 2 (bytes_le 2 300) (bytes_of 2 [3; 20; 300; 500; 1000])
    (map (bytes_le 2) [3; 20; 300; 500; 1000]) 20) as (r & E & H).
  - lia.
  - split; [reflexivity|]. repeat constructor.
  - intros i j Hi Hij Hj. change (len _) with 5 in Hj.
    assert (Hc : forall k, 0 <= k < 5 -> k = 0 \/ k = 1 \/ k = 2 \/ k = 3 \/ k = 4) by (intros; lia).
    destruct (Hc i ltac:(lia)) as [-> | [-> | [-> | [-> | ->]]]], (Hc j ltac:(lia)) as [-> | [-> | [-> | [-> | ->]]]];
      try (exfalso; lia); vm_compute; split; congruence.
  - vm_compute. reflexivity.
  - vm_compute in E. injection E as <-. vm_compute. reflexivity.
Defined.

(** Seventeen two-byte elements with distinct low bytes, in descending order. *)
Definition ex_17 : list Z := map (fun i => 256 * (17 - Z.of_nat i) + Z.of_nat i) (seq 0 17).

(** for more than sixteen elements of more than one byte the generic
    [qsort] is wrong: when the right part is the shorter one it is sorted from
    the byte offset [gt + 1] instead of [gt + size], across element boundaries,
    and the output holds values that were not in the input. *)
Theorem qsort_corrupts_array : forall malloc_ok, exists bs' v,
  qsort malloc_ok 1000 (bytes_of 2 ex_17) 17 2 (Compar cmp16) = Ok bs' /\
  v ∈ ints_of 17 2 bs' /\ v ∉ ex_17.
Proof.
  intros mo. set (r := qsort mo 1000 (bytes_of 2 ex_17) 17 2 (Compar cmp16)).
  assert (Hr : match r with Ok bs' => existsb (fun v => negb (existsb (Z.eqb v) ex_17)) (ints_of 17 2 bs')
               | _ => false end = true) by (subst r; destruct mo; vm_compute; reflexivity).
  destruct r as [bs'| |]; try easy. apply existsb_exists in Hr as (v & Hv & Hn).
  exists bs', v. split; [reflexivity|]. split; [apply list_elem_of_In, Hv|].
  intros Hin%list_elem_of_In. apply negb_true_iff in Hn.
  assert (existsb (Z.eqb v) ex_17 = true) by (apply existsb_exists; exists v; split; [exact Hin|apply Z.eqb_refl]).
  congruence.
Qed.

(** with [cmp_int] and eight-byte elements, [qsort] orders them as 64-bit
    integers although [cmp_int] compares the low 32 bits: the result need not be
    in the order of the comparison it was given. *)
Theorem qsort_int_on_eight_bytes : forall malloc_ok, exists bs',
  qsort malloc_ok 100 (bytes_of 8 [2 ^ 32; 1]) 2 8 CmpInt = Ok bs' /\
  bs' = bytes_of 8 [1; 2 ^ 32] /\ 0 < cmp_int (bytes_le 8 1) (bytes_le 8 (2 ^ 32)).
Proof.
  intros mo. eexists. split; [|split; [reflexivity|vm_compute; reflexivity]].
  destruct mo; vm_compute; reflexivity.
Qed.
