(* ===== verification/StrConv.v ===== *)
(** Integer parsing of the user-space libc, [src/lib/stdc/basic_convert/str.c]:
    the SWAR core behind [strtol], [strtoul], [strtoll], [strtoull] and
    [atoll].  The eight-digit step works on a 64-bit word loaded from the
    string; every load is checked against the mapped memory. *)
From stdpp Require Import base gmap list fin_maps.
From Stdlib Require Import ZArith Lia.
From S2P Require Import Prelude Words.

Open Scope Z_scope.
Open Scope c_scope.

(** * The code *)

Definition IS_SPACE (c : Z) : bool :=
  (c =? 32) || (c =? 9) || (c =? 10) || (c =? 13) || (c =? 11) || (c =? 12).

Definition INVALID_CHAR : Z := 255.

(** The 256-entry table, row by row: digits, then letters of either case. *)
Definition char2val_table : list Z :=
  replicate 48 255 ++
  [0; 1; 2; 3; 4; 5; 6; 7; 8; 9] ++ replicate 7 255 ++
  [10; 11; 12; 13; 14; 15; 16; 17; 18; 19; 20; 21; 22; 23; 24;
   25; 26; 27; 28; 29; 30; 31; 32; 33; 34; 35] ++ replicate 6 255 ++
  [10; 11; 12; 13; 14; 15; 16; 17; 18; 19; 20; 21; 22; 23; 24;
   25; 26; 27; 28; 29; 30; 31; 32; 33; 34; 35] ++ replicate 133 255.

Definition char2val (c : Z) : Z := char2val_table !!! Z.to_nat c.

Definition EINVAL : Z := 22.
Definition ERANGE : Z := 34.

(** What a call leaves: the returned word, [*endptr], the new [errno] when it is
    set, and [*overflow_flag]. *)
Record core_result : Type := CoreResult {
  core_value : Z;
  core_end : Z;
  core_errno : option Z;
  core_overflow : bool
}.

Definition skip_space (fuel : nat) (m : mem) (p : Z) : res Z :=
  loop fuel (fun p =>
    let* c := load8 m p in
    if IS_SPACE c then Ok (inl (p + 1)) else Ok (inr p)) p.

(** The sign: the new position, [neg], and [max_val] raised by one for a
    negative value of a signed type. *)
Definition core_sign (m : mem) (p : Z) (is_unsigned_type : bool) (max_val : Z)
  : res (Z * bool * Z) :=
  let* c := load8 m p in
  if c =? 45 then
    Ok (p + 1, true, if is_unsigned_type then max_val else u64 (max_val + 1))
  else if c =? 43 then Ok (p + 1, false, max_val)
  else Ok (p, false, max_val).

(** The base prefix: the position and the base to use from there. *)
Definition core_prefix (m : mem) (p base : Z) : res (Z * Z) :=
  let* c := load8 m p in
  if base =? 0 then
    if c =? 48 then
      let* c1 := load8 m (p + 1) in
      if (c1 =? 120) || (c1 =? 88) then
        let* next := load8 m (p + 2) in
        if negb (next =? 0) && (char2val next <? 16) then Ok (p + 2, 16) else Ok (p, 8)
      else Ok (p, 8)
    else Ok (p, 10)
  else if base =? 16 then
    if c =? 48 then
      let* c1 := load8 m (p + 1) in
      if (c1 =? 120) || (c1 =? 88) then
        let* next := load8 m (p + 2) in
        if negb (next =? 0) && (char2val next <? 16) then Ok (p + 2, 16) else Ok (p, base)
      else Ok (p, base)
    else Ok (p, base)
  else Ok (p, base).

(** [if (overflow || acc > cutoff || (acc == cutoff && digit > cutlim))
    overflow = 1; else acc = acc * scale + digit;] *)
Definition accumulate (scale cutoff cutlim : Z) (st : Z * bool) (digit : Z) : Z * bool :=
  let '(acc, overflow) := st in
  if overflow || (cutoff <? acc) || ((acc =? cutoff) && (cutlim <? digit))
  then (acc, true)
  else (u64 (acc * scale + digit), overflow).

(** The fast loop over at most seven more digits. *)
Definition fast_digits (fuel : nat) (m : mem) (p cutoff cutlim : Z) (st : Z * bool)
  : res (Z * (Z * bool)) :=
  loop fuel (fun '(p, st, fast_count) =>
    if fast_count <? 7 then
      let* c := load8 m p in
      if 10 <=? char2val c then Ok (inr (p, st))
      else Ok (inl (p + 1, accumulate 10 cutoff cutlim st (char2val c), fast_count + 1))
    else Ok (inr (p, st))) (p, st, 0).

(** [p[1] && p[2] && ... && p[n]] *)
Fixpoint all_nonzero (m : mem) (p : Z) (n : nat) : res bool :=
  match n with
  | O => Ok true
  | S n' =>
      let* c := load8 m p in
      if c =? 0 then Ok false else all_nonzero m (p + 1) n'
  end.

(** Nonzero when some byte of the word is no decimal digit. *)
Definition chunk_test (chunk : Z) : Z :=
  Z.land (Z.lor (u64 (chunk + 5063812098665367110)) (u64 (chunk - 3472328296227680304)))
         9259542123273814144.

(** The value of eight digit characters, most significant first. *)
Definition chunk_value (chunk : Z) : Z :=
  let chunk := u64 (chunk - 3472328296227680304) in
  let chunk := u64 (u64 (chunk * 10) + Z.shiftr chunk 8) in
  Z.shiftr (u64 (u64 (Z.land chunk 1095216660735 * 4294967296000100) +
                 u64 (Z.land (Z.shiftr chunk 16) 1095216660735 * 42949672960001))) 32.

Definition swar_digits (fuel : nat) (m : mem) (p cutoff8 cutlim8 : Z) (st : Z * bool)
  : res (Z * (Z * bool)) :=
  loop fuel (fun '(p, st) =>
    let* go := all_nonzero m (p + 1) 7 in
    if go then
      let* chunk := load64 m p in
      if negb (chunk_test chunk =? 0) then Ok (inr (p, st))
      else Ok (inl (p + 8, accumulate 100000000 cutoff8 cutlim8 st (chunk_value chunk)))
    else Ok (inr (p, st))) (p, st).

(** The scalar tail of the decimal path. *)
Definition tail_digits (fuel : nat) (m : mem) (p cutoff cutlim : Z) (st : Z * bool)
  : res (Z * (Z * bool)) :=
  loop fuel (fun '(p, st) =>
    let* c := load8 m p in
    if negb (c =? 0) && (char2val c <? 10)
    then Ok (inl (p + 1, accumulate 10 cutoff cutlim st (char2val c)))
    else Ok (inr (p, st))) (p, st).

(** The digits in base ten: position, accumulator and [any]. *)
Definition core_decimal (fuel : nat) (m : mem) (p max_val : Z) : res (Z * (Z * bool) * bool) :=
  let* c := load8 m p in
  if 9 <? char2val c then Ok (p, (0, false), false)
  else
    let cutoff := max_val / 10 in
    let cutlim := max_val mod 10 in
    let* (p, st) := fast_digits fuel m (p + 1) cutoff cutlim (char2val c, false) in
    let* c := load8 m p in
    if 10 <=? char2val c then Ok (p, st, true)
    else
      let* (p, st) := swar_digits fuel m p (max_val / 100000000) (max_val mod 100000000) st in
      let* (p, st) := tail_digits fuel m p cutoff cutlim st in
      Ok (p, st, true).

(** The digits in any other base. *)
Definition core_general (fuel : nat) (m : mem) (p base max_val : Z)
  : res (Z * (Z * bool) * bool) :=
  let cutoff := max_val / base in
  let cutlim := max_val mod base in
  loop fuel (fun '(p, st, any) =>
    let* c := load8 m p in
    let digit := char2val c in
    if (digit =? INVALID_CHAR) || (base <=? digit) then Ok (inr (p, st, any))
    else Ok (inl (p + 1, accumulate base cutoff cutlim st digit, true))) (p, (0, false), false).

Definition swar_core (fuel : nat) (m : mem) (nptr base : Z) (is_unsigned_type : bool) (max_val : Z)
  : res core_result :=
  if (base <? 0) || (base =? 1) || (36 <? base) then
    Ok (CoreResult 0 nptr (Some EINVAL) false)
  else
    let* p := skip_space fuel m nptr in
    let* (p, neg, max_val) := core_sign m p is_unsigned_type max_val in
    let* (p, base) := core_prefix m p base in
    let* (p, st, any) := (if base =? 10 then core_decimal fuel m p max_val
                          else core_general fuel m p base max_val) in
    let '(acc, overflow) := st in
    let p := if any then p else nptr in
    if overflow then Ok (CoreResult max_val p (Some ERANGE) true)
    else Ok (CoreResult (if neg then u64 (0 - acc) else acc) p None false).

(** The entry points give the value, [*endptr] and the new [errno] when it is set. *)
Definition LONG_MAX : Z := 2 ^ 63 - 1.
Definition ULONG_MAX : Z := 2 ^ 64 - 1.

Definition swar_strtol (fuel : nat) (m : mem) (nptr base : Z) : res (Z * Z * option Z) :=
  let* r := swar_core fuel m nptr base false LONG_MAX in
  Ok (i64 (core_value r), core_end r, core_errno r).

Definition swar_strtoul (fuel : nat) (m : mem) (nptr base : Z) : res (Z * Z * option Z) :=
  let* r := swar_core fuel m nptr base true ULONG_MAX in
  Ok (core_value r, core_end r, core_errno r).

Definition swar_strtoll (fuel : nat) (m : mem) (nptr base : Z) : res (Z * Z * option Z) :=
  let* r := swar_core fuel m nptr base false LONG_MAX in
  Ok (i64 (core_value r), core_end r, core_errno r).

Definition swar_strtoull (fuel : nat) (m : mem) (nptr base : Z) : res (Z * Z * option Z) :=
  let* r := swar_core fuel m nptr base true ULONG_MAX in
  Ok (core_value r, core_end r, core_errno r).

Definition swar_atoll (fuel : nat) (m : mem) (nptr : Z) : res Z :=
  let* r := swar_strtoll fuel m nptr 10 in Ok r.1.1.

(** The libc names. *)
Definition atoll := swar_atoll.
Definition strtol := swar_strtol.
Definition strtoll := swar_strtoll.
Definition strtoul := swar_strtoul.
Definition strtoull := swar_strtoull.

(** * Reference parser *)

(** The value of a digit string in a base, unbounded. *)
Definition dval (base : Z) (ds : list Z) : Z := foldl (fun a c => a * base + char2val c) 0 ds.

(** The longest prefix of characters that are digits of the base. *)
Fixpoint digits_of (base : Z) (s : list Z) : list Z :=
  match s with
  | c :: s' => if char2val c <? base then c :: digits_of base s' else []
  | [] => []
  end.

Fixpoint spaces_of (s : list Z) : list Z :=
  match s with
  | c :: s' => if IS_SPACE c then c :: spaces_of s' else []
  | [] => []
  end.

(** What remains of the string after a base prefix, and the base. *)
Definition ref_prefix (base : Z) (s : list Z) : nat * Z :=
  let hex := match s with
             | c0 :: c1 :: c2 :: _ =>
                 (c0 =? 48) && ((c1 =? 120) || (c1 =? 88)) && (char2val c2 <? 16)
             | _ => false
             end in
  if base =? 0 then
    if hex then (2%nat, 16)
    else match s with
         | c0 :: _ => if c0 =? 48 then (0%nat, 8) else (0%nat, 10)
         | [] => (0%nat, 10)
         end
  else if (base =? 16) && hex then (2%nat, 16) else (0%nat, base).

(** Parsing on lists: characters consumed, sign, digit string and its base. *)
Definition ref_parse (base : Z) (s : list Z) : nat * bool * Z * list Z :=
  let sp := length (spaces_of s) in
  let s1 := drop sp s in
  let '(sg, neg) := match s1 with
                    | c :: _ => if c =? 45 then (1%nat, true)
                                else if c =? 43 then (1%nat, false) else (0%nat, false)
                    | [] => (0%nat, false)
                    end in
  let s2 := drop sg s1 in
  let '(pf, b) := ref_prefix base s2 in
  ((sp + sg + pf)%nat, neg, b, digits_of b (drop pf s2)).

(** The result the C standard asks for: saturation at the type's limit with
    ERANGE, no conversion when there is no digit. *)
Definition ref_core (nptr base : Z) (is_unsigned_type : bool) (max_val : Z) (s : list Z)
  : core_result :=
  let '(k, neg, b, ds) := ref_parse base s in
  let max_val := if neg && negb is_unsigned_type then max_val + 1 else max_val in
  let v := dval b ds in
  let e := match ds with [] => nptr | _ => nptr + Z.of_nat k + Z.of_nat (length ds) end in
  if max_val <? v then CoreResult max_val e (Some ERANGE) true
  else CoreResult (if neg then u64 (- v) else v) e None false.

(** * Proofs *)

(** ** Characters and values *)

Lemma char2val_range c : byte c -> 0 <= char2val c /\ (char2val c < 36 \/ char2val c = 255).
Proof.
  intros Hc. assert (((0 <=? char2val c) && ((char2val c <? 36) || (char2val c =? 255))) = true) as H.
  { apply (all_bytes_spec (fun c => (0 <=? char2val c) && ((char2val c <? 36) || (char2val c =? 255))));
      [vm_compute; reflexivity|exact Hc]. }
  to_prop. lia.
Qed.

Lemma char2val_0 : char2val 0 = 255.
Proof. reflexivity. Qed.

Lemma char2val_decimal c : byte c -> (char2val c < 10 <-> 48 <= c <= 57) /\
  (char2val c < 10 -> char2val c = c - 48).
Proof.
  intros Hc.
  assert ((if char2val c <? 10 then (48 <=? c) && (c <=? 57) && (char2val c =? c - 48)
           else (c <? 48) || (57 <? c)) = true) as H.
  { apply (all_bytes_spec (fun c => if char2val c <? 10 then (48 <=? c) && (c <=? 57) && (char2val c =? c - 48)
           else (c <? 48) || (57 <? c))); [vm_compute; reflexivity|exact Hc]. }
  destruct (char2val c <? 10) eqn:E; to_prop; lia.
Qed.

Lemma dval_snoc base ds c : dval base (ds ++ [c]) = dval base ds * base + char2val c.
Proof. unfold dval. rewrite foldl_snoc. reflexivity. Qed.

Definition digit_chars (base : Z) (ds : list Z) : Prop :=
  Forall (fun c => byte c /\ char2val c < base) ds.

Lemma dval_nonneg base ds : 0 <= base -> digit_chars base ds -> 0 <= dval base ds.
Proof.
  intros Hb. induction ds as [|c ds IH] using rev_ind; intros H; [unfold dval; simpl; lia|].
  apply Forall_app in H as [H1 H2]. apply Forall_cons in H2 as [[Hc _] _].
  rewrite dval_snoc. specialize (IH H1). pose proof (char2val_range c Hc). nia.
Qed.

(** ** The saturating accumulator *)

(** [V] is the value read so far: [acc] is that value until it exceeds [mx]. *)
Definition acc_rel (mx V : Z) (st : Z * bool) : Prop :=
  0 <= V /\ if st.2 then mx < V else st.1 = V /\ V <= mx.

Lemma accumulate_ok mx scale V st d : 0 < mx < 2 ^ 64 -> 1 <= scale -> 0 <= d < scale ->
  acc_rel mx V st -> acc_rel mx (V * scale + d) (accumulate scale (mx / scale) (mx mod scale) st d).
Proof.
  intros Hm Hs Hd [HV H]. destruct st as [acc ovf]. simpl in H. unfold accumulate, acc_rel.
  destruct ovf; simpl; [split; nia|]. destruct H as [-> HVm].
  pose proof (Z.div_mod mx scale ltac:(lia)) as Hdm.
  pose proof (Z.mod_pos_bound mx scale ltac:(lia)) as Hmb.
  destruct ((mx / scale <? V) || ((V =? mx / scale) && (mx mod scale <? d))) eqn:E; simpl.
  - apply orb_prop in E. split; [nia|]. destruct E as [E|E]; to_prop; nia.
  - apply orb_false_iff in E as [E1 E2]. to_prop.
    assert (V * scale + d <= mx) by (destruct E2; to_prop; nia).
    split; [nia|]. rewrite u64_small by nia. lia.
Qed.

(** ** The eight-digit step *)

Lemma lor_u64_land a b h : 0 <= h < 2 ^ 64 ->
  Z.land (Z.lor (u64 a) (u64 b)) h = Z.land (Z.lor a b) h.
Proof.
  intros Hh. rewrite <- (land_u64_l (Z.lor a b) h Hh). f_equal. unfold u64.
  rewrite <- !Z.land_ones by lia. symmetry. apply Z.land_lor_distr_l.
Qed.

Definition digit_test_raw (w n70 n48 h : Z) : Z := Z.land (Z.lor (w + n70) (w - n48)) h.

(** One byte of the digit test. *)
Lemma digit_test_cons b l : byte b -> bytes l ->
  exists lo Y, byte lo /\ 0 <= Y /\
    digit_test_raw (le (b :: l)) (rep (S (length l)) 70) (rep (S (length l)) 48)
      (rep (S (length l)) 128) = lo + 256 * Y /\
    (48 <= b <= 57 -> lo = 0 /\
       Y = digit_test_raw (le l) (rep (length l) 70) (rep (length l) 48) (rep (length l) 128)) /\
    (~ 48 <= b <= 57 -> lo <> 0).
Proof.
  intros Hb Hl. pose proof (rep_bound (length l) 128 ltac:(unfold byte; lia)) as H128.
  set (c1 := (b + 70) / 256). set (c2 := (b - 48) / 256).
  set (s := (b + 70) mod 256). set (t := (b - 48) mod 256).
  assert (Hs : byte s) by (subst s; unfold byte; apply Z.mod_pos_bound; lia).
  assert (Ht : byte t) by (subst t; unfold byte; apply Z.mod_pos_bound; lia).
  exists (Z.land (Z.lor s t) 128),
    (digit_test_raw (le l) (rep (length l) 70 + c1) (rep (length l) 48 - c2) (rep (length l) 128)).
  assert (Hcheck : (if (48 <=? b) && (b <=? 57)
      then ((Z.land (Z.lor ((b + 70) mod 256) ((b - 48) mod 256)) 128 =? 0)
            && ((b + 70) / 256 =? 0) && ((b - 48) / 256 =? 0))
      else negb (Z.land (Z.lor ((b + 70) mod 256) ((b - 48) mod 256)) 128 =? 0)) = true).
  { apply (all_bytes_spec (fun b => if (48 <=? b) && (b <=? 57)
      then ((Z.land (Z.lor ((b + 70) mod 256) ((b - 48) mod 256)) 128 =? 0)
            && ((b + 70) / 256 =? 0) && ((b - 48) / 256 =? 0))
      else negb (Z.land (Z.lor ((b + 70) mod 256) ((b - 48) mod 256)) 128 =? 0)));
      [vm_compute; reflexivity|exact Hb]. }
  fold s t c1 c2 in Hcheck. split_and!.
  - apply land_byte; [apply lor_byte; assumption|unfold byte; lia].
  - unfold digit_test_raw. apply Z.land_nonneg. lia.
  - unfold digit_test_raw. rewrite !rep_S. simpl le.
    replace (b + 256 * le l + (70 + 256 * rep (length l) 70))
      with (s + 256 * (le l + (rep (length l) 70 + c1))) by (subst s c1; pose proof (Z.div_mod (b + 70) 256); lia).
    replace (b + 256 * le l - (48 + 256 * rep (length l) 48))
      with (t + 256 * (le l - (rep (length l) 48 - c2))) by (subst t c2; pose proof (Z.div_mod (b - 48) 256); lia).
    rewrite lor_split by assumption.
    apply land_split; [apply lor_byte; assumption|unfold byte; lia].
  - intros Hd. replace ((48 <=? b) && (b <=? 57)) with true in Hcheck
      by (symmetry; apply andb_true_iff; rewrite !Z.leb_le; lia).
    to_prop. split; [assumption|]. f_equal; lia.
  - intros Hd. replace ((48 <=? b) && (b <=? 57)) with false in Hcheck
      by (symmetry; apply andb_false_iff; rewrite !Z.leb_gt; lia).
    to_prop. assumption.
Qed.

Lemma digit_test_list l : bytes l ->
  (digit_test_raw (le l) (rep (length l) 70) (rep (length l) 48) (rep (length l) 128) = 0 <->
   Forall (fun b => 48 <= b <= 57) l).
Proof.
  induction 1 as [|b l Hb Hl IH]; [split; auto; reflexivity|]. simpl length.
  destruct (digit_test_cons b l Hb Hl) as (lo & Y & Hlo & HY & -> & Hd & Hn). unfold byte in Hlo.
  destruct (decide (48 <= b <= 57)) as [Hbd|Hbd].
  - destruct (Hd Hbd) as [-> ->]. rewrite Forall_cons, <- IH. lia.
  - specialize (Hn Hbd). rewrite Forall_cons. lia.
Qed.

Lemma chunk_test_ok l : bytes l -> length l = 8%nat ->
  (chunk_test (le l) = 0 <-> Forall (fun b => 48 <= b <= 57) l).
Proof.
  intros Hl Hn. rewrite <- digit_test_list by exact Hl. rewrite Hn. unfold chunk_test.
  rewrite lor_u64_land by (split; [discriminate|reflexivity]). reflexivity.
Qed.

Lemma shiftr_le (k : nat) l : bytes l -> Z.shiftr (le l) (8 * Z.of_nat k) = le (drop k l).
Proof.
  intros Hl. rewrite Z.shiftr_div_pow2, Z.pow_mul_r by lia. change (2 ^ 8) with 256.
  destruct (decide (length l < k)%nat) as [Hk|Hk].
  - rewrite drop_ge by lia. simpl. apply Z.div_small. pose proof (le_bound l Hl) as Hb.
    assert (256 ^ Z.of_nat (length l) <= 256 ^ Z.of_nat k) by (apply Z.pow_le_mono_r; lia). lia.
  - rewrite <- (take_drop k l) at 1. rewrite le_app, length_take_le by lia.
    rewrite Z.mul_comm, Z.div_add by lia. rewrite Z.div_small; [lia|].
    pose proof (le_bound _ (Forall_take _ k _ Hl)) as Hb. rewrite length_take_le in Hb by lia. exact Hb.
Qed.

Lemma land_255 b : byte b -> Z.land b 255 = b.
Proof. intros Hb. change 255 with (Z.ones 8). rewrite Z.land_ones by lia. apply Z.mod_small, Hb. Qed.

(** Masking with 0x000000FF000000FF keeps bytes 0 and 4. *)
Lemma mask_bytes_04 e0 e1 e2 e3 e4 e5 e6 e7 : bytes [e0; e1; e2; e3; e4; e5; e6; e7] ->
  Z.land (le [e0; e1; e2; e3; e4; e5; e6; e7]) 1095216660735 = e0 + 4294967296 * e4.
Proof.
  intros H. repeat (apply Forall_cons in H as [? H]).
  change 1095216660735 with (le [255; 0; 0; 0; 255; 0; 0; 0]). simpl le.
  rewrite !land_split by (assumption || (unfold byte; lia)).
  rewrite !land_255, !Z.land_0_r by assumption. lia.
Qed.

(** The two multiplications combine four two-digit groups. *)
Lemma combine_groups e0 e2 e4 e6 :
  0 <= e0 <= 99 -> 0 <= e2 <= 99 -> 0 <= e4 <= 99 -> 0 <= e6 <= 99 ->
  Z.shiftr (u64 (u64 ((e0 + 4294967296 * e4) * 4294967296000100) +
                 u64 ((e2 + 4294967296 * e6) * 42949672960001))) 32
  = 1000000 * e0 + 10000 * e2 + 100 * e4 + e6.
Proof.
  intros H0 H2 H4 H6. unfold u64. change (2 ^ 64) with 18446744073709551616.
  rewrite <- (Z.mod_unique_pos ((e0 + 4294967296 * e4) * 4294967296000100) 18446744073709551616
    (1000000 * e4) (100 * e0 + 4294967296 * (1000000 * e0 + 100 * e4))) by lia.
  rewrite <- (Z.mod_unique_pos ((e2 + 4294967296 * e6) * 42949672960001) 18446744073709551616
    (10000 * e6) (e2 + 4294967296 * (10000 * e2 + e6))) by lia.
  rewrite Z.mod_small by lia. rewrite Z.shiftr_div_pow2 by lia. change (2 ^ 32) with 4294967296.
  symmetry. apply Z.div_unique_pos with (100 * e0 + e2); lia.
Qed.

Lemma chunk_value_ok c0 c1 c2 c3 c4 c5 c6 c7 :
  Forall (fun b => 48 <= b <= 57) [c0; c1; c2; c3; c4; c5; c6; c7] ->
  chunk_value (le [c0; c1; c2; c3; c4; c5; c6; c7]) =
    foldl (fun a c => a * 10 + (c - 48)) 0 [c0; c1; c2; c3; c4; c5; c6; c7].
Proof.
  intros H. repeat (apply Forall_cons in H as [? H]). clear H.
  unfold chunk_value. set (w := le [c0; c1; c2; c3; c4; c5; c6; c7]).
  set (d := le [c0 - 48; c1 - 48; c2 - 48; c3 - 48; c4 - 48; c5 - 48; c6 - 48; c7 - 48]).
  assert (Hd : bytes [c0 - 48; c1 - 48; c2 - 48; c3 - 48; c4 - 48; c5 - 48; c6 - 48; c7 - 48]).
  { repeat (apply Forall_cons; split; [unfold byte; lia|]). constructor. }
  assert (Ed : u64 (w - 3472328296227680304) = d).
  { replace (w - 3472328296227680304) with d by (subst w d; simpl le; lia).
    apply le_u64; [exact Hd|reflexivity]. }
  rewrite Ed.
  set (e := [10 * (c0 - 48) + (c1 - 48); 10 * (c1 - 48) + (c2 - 48); 10 * (c2 - 48) + (c3 - 48);
    10 * (c3 - 48) + (c4 - 48); 10 * (c4 - 48) + (c5 - 48); 10 * (c5 - 48) + (c6 - 48);
    10 * (c6 - 48) + (c7 - 48); 10 * (c7 - 48)]).
  assert (He : bytes e) by (subst e; repeat (apply Forall_cons; split; [unfold byte; lia|]); constructor).
  assert (Ee : u64 (u64 (d * 10) + Z.shiftr d 8) = le e).
  { change (Z.shiftr d 8) with (Z.shiftr d (8 * Z.of_nat 1)). subst d. rewrite shiftr_le by exact Hd.
    rewrite (u64_small (_ * 10)) by (simpl le; lia). rewrite <- (le_u64 e He eq_refl). f_equal.
    subst e. simpl drop. simpl le. lia. }
  rewrite Ee. change (Z.shiftr (le e) 16) with (Z.shiftr (le e) (8 * Z.of_nat 2)).
  rewrite shiftr_le by exact He.
  subst e. simpl drop. rewrite mask_bytes_04 by exact He.
  replace (le [10 * (c2 - 48) + (c3 - 48); 10 * (c3 - 48) + (c4 - 48); 10 * (c4 - 48) + (c5 - 48);
    10 * (c5 - 48) + (c6 - 48); 10 * (c6 - 48) + (c7 - 48); 10 * (c7 - 48)])
    with (le [10 * (c2 - 48) + (c3 - 48); 10 * (c3 - 48) + (c4 - 48); 10 * (c4 - 48) + (c5 - 48);
    10 * (c5 - 48) + (c6 - 48); 10 * (c6 - 48) + (c7 - 48); 10 * (c7 - 48); 0; 0]) by (simpl le; lia).
  rewrite mask_bytes_04 by (repeat (apply Forall_cons; split; [unfold byte; lia|]); constructor).
  rewrite combine_groups by lia. simpl foldl. lia.
Qed.

(** ** The digit loops *)

Lemma digits_of_prefix b s : digits_of b s `prefix_of` s.
Proof.
  induction s as [|c s IH]; simpl; [reflexivity|]. destruct (char2val c <? b).
  - apply prefix_cons, IH.
  - apply prefix_nil.
Qed.

Section Digits.
Context (m : mem) (p : Z) (s : list Z) (b mx : Z).
Hypothesis Hs : cstr m p s.
Hypothesis Hb : 2 <= b <= 36.
Hypothesis Hmx : 36 <= mx < 2 ^ 64.

Let ds := digits_of b s.

Lemma digits_len : (length ds <= length s)%nat.
Proof. apply prefix_length, digits_of_prefix. Qed.

Lemma digits_at (k : nat) : (k < length ds)%nat ->
  exists c, ds !! k = Some c /\ m !! (p + Z.of_nat k) = Some c /\ 0 < c < 256 /\
    0 <= char2val c < b.
Proof using Hs.
  intros Hk. destruct (lookup_lt_is_Some_2 ds k Hk) as [c Hc]. exists c.
  assert (Hsc : s !! k = Some c) by (eapply prefix_lookup_Some; [exact Hc|apply digits_of_prefix]).
  destruct (cstr_char m p s k Hs) as (c' & Hc' & Hm & Hr).
  { pose proof digits_len. lia. }
  assert (c' = c) as -> by congruence. repeat split; auto; try lia.
  - apply char2val_range. unfold byte. lia.
  - clear - Hc. subst ds. revert k Hc. induction s as [|x l IH]; intros k Hc; [easy|].
    simpl in Hc. destruct (char2val x <? b) eqn:E; [|easy].
    destruct k as [|k]; [|eapply IH; exact Hc]. injection Hc as <-. to_prop. exact E.
Qed.

Lemma digits_end : exists c, m !! (p + Z.of_nat (length ds)) = Some c /\ byte c /\ b <= char2val c.
Proof using Hs Hb.
  clear Hmx. subst ds. revert p Hs. induction s as [|x l IH]; intros q Hq.
  - apply cstr_nil in Hq. exists 0. simpl. rewrite Z.add_0_r, char2val_0. unfold byte. auto with lia.
  - apply cstr_cons in Hq as (Hx & Hx0 & Hq). simpl. destruct (char2val x <? b) eqn:E; to_prop.
    + destruct (IH (q + 1) Hq) as (c & Hc & Hr). exists c. simpl length. split; [|exact Hr].
      rewrite <- Hc. f_equal. lia.
    + exists x. simpl. rewrite Z.add_0_r. unfold byte. auto with lia.
Qed.

(** Position [k] of the digit string, with its value accumulated. *)
Definition at_digit (k : nat) (q : Z) (st : Z * bool) : Prop :=
  (k <= length ds)%nat /\ q = p + Z.of_nat k /\ acc_rel mx (dval b (take k ds)) st.

Lemma at_digit_step k q st c : at_digit k q st -> ds !! k = Some c -> 0 <= char2val c < b ->
  at_digit (S k) (q + 1) (accumulate b (mx / b) (mx mod b) st (char2val c)).
Proof using Hb Hmx.
  intros (Hk & -> & Ha) Hc Hr. pose proof (lookup_lt_Some _ _ _ Hc). split; [lia|]. split; [lia|].
  rewrite (take_S_r _ _ _ Hc), dval_snoc. apply accumulate_ok; auto; lia.
Qed.

(** One character: a digit that is accumulated, or the end of the digits. *)
Lemma digit_char k q st : at_digit k q st ->
  wp (load8 m q) (fun c => byte c /\
    (char2val c < b -> c <> 0 /\ (k < length ds)%nat /\
       at_digit (S k) (q + 1) (accumulate b (mx / b) (mx mod b) st (char2val c))) /\
    (b <= char2val c -> k = length ds)).
Proof using Hs Hb Hmx.
  intros Ha. pose proof Ha as (Hk & -> & _).
  destruct (decide (k = length ds)) as [->|Hne].
  - destruct digits_end as (c & Hc & Hby & Hge). rewrite (load8_ok _ _ _ Hc). simpl.
    split; [exact Hby|]. split; [lia|auto].
  - destruct (digits_at k ltac:(lia)) as (c & Hc & Hm & Hr & Hv). rewrite (load8_ok _ _ _ Hm). simpl.
    split; [unfold byte; lia|]. split; [|lia]. intros _. split; [lia|]. split; [lia|].
    apply at_digit_step; assumption.
Qed.

Lemma at_digit_0 : at_digit 0 p (0, false).
Proof using Hmx.
  split; [lia|]. split; [lia|]. rewrite take_0. unfold acc_rel, dval. simpl. lia.
Qed.

Lemma core_general_ok fuel : (length ds < fuel)%nat ->
  wp (core_general fuel m p b mx) (fun '(q, st, any) =>
    at_digit (length ds) q st /\ any = negb (length ds =? 0)%nat).
Proof using Hs Hb Hmx.
  intros Hf. unfold core_general.
  apply (wp_loop (fun '(q, st, any) => exists k, at_digit k q st /\ any = negb (k =? 0)%nat)
           (fun '(q, st, any) => Z.to_nat (p + Z.of_nat (length ds) - q))).
  - intros [[q st] any] (k & Ha & Hany). unfold step_ok. apply wp_bind.
    eapply wp_mono; [apply (digit_char k), Ha|]. intros c (Hby & Hlt & Hge).
    unfold INVALID_CHAR. pose proof (char2val_range c Hby).
    destruct ((char2val c =? 255) || (b <=? char2val c)) eqn:E.
    + assert (b <= char2val c) as Hbc by (apply orb_prop in E; destruct E; to_prop; lia).
      simpl. specialize (Hge Hbc). subst k. auto.
    + to_prop. simpl. destruct (Hlt ltac:(lia)) as (_ & Hk & Ha').
      split; [exists (S k); auto|]. destruct Ha as (_ & -> & _). lia.
  - exists 0%nat. split; [apply at_digit_0|reflexivity].
  - lia.
Qed.
End Digits.

Section Decimal.
Context (m : mem) (p : Z) (s : list Z) (mx : Z).
Hypothesis Hwf : mem_wf m.
Hypothesis Hs : cstr m p s.
Hypothesis Hmx : 36 <= mx < 2 ^ 64.
(** The SWAR loop looks at up to seven bytes past the terminator. *)
Hypothesis Hmap : mapped m p (length s + 8).

Let ds := digits_of 10 s.
Local Definition pos := at_digit p s 10 mx.

Lemma fast_digits_ok fuel k st q : pos k q st -> (8 < fuel)%nat ->
  wp (fast_digits fuel m q (mx / 10) (mx mod 10) st) (fun '(q', st') =>
    exists k', (k <= k')%nat /\ pos k' q' st').
Proof using Hs Hmx.
  intros Hp Hf. unfold fast_digits.
  apply (wp_loop (fun '(q, st, n) => 0 <= n <= 7 /\ exists k', (k <= k')%nat /\ pos k' q st)
           (fun '(q, st, n) => Z.to_nat (7 - n))).
  - intros [[q1 st1] n] (Hn & k1 & Hk1 & Hp1). unfold step_ok. destruct (n <? 7) eqn:E; to_prop.
    2:{ simpl. eauto. }
    apply wp_bind. eapply wp_mono; [apply (digit_char m p s 10 mx Hs ltac:(lia) Hmx k1), Hp1|].
    intros c (Hby & Hlt & Hge). destruct (10 <=? char2val c) eqn:E10; to_prop; simpl.
    + eauto.
    + destruct (Hlt E10) as (_ & _ & Hp2). split; [|lia]. split; [lia|].
      exists (S k1). split; [lia|exact Hp2].
  - split; [lia|]. eauto.
  - lia.
Qed.

Lemma all_nonzero_total q n : (forall i, q <= i < q + Z.of_nat n -> is_Some (m !! i)) ->
  wp (all_nonzero m q n) (fun _ => True).
Proof.
  revert q. induction n as [|n IH]; intros q Hq; simpl; [exact I|].
  destruct (Hq q ltac:(lia)) as [c Hc]. rewrite (load8_ok _ _ _ Hc). simpl.
  destruct (c =? 0); simpl; [exact I|]. apply IH. intros i Hi. apply Hq. lia.
Qed.

(** Eight digits in a row are part of the digit string, and the word computes
    their value. *)
Lemma swar_step k st l : pos k (p + Z.of_nat k) st -> bytes l -> length l = 8%nat ->
  holds m (p + Z.of_nat k) l -> Forall (fun c => 48 <= c <= 57) l ->
  pos (k + 8) (p + Z.of_nat k + 8)
    (accumulate 100000000 (mx / 100000000) (mx mod 100000000) st (chunk_value (le l))).
Proof using Hs Hmx.
  intros (Hk & _ & Ha) Hl Hn Hh Hd.
  assert (Hk8 : (k + 8 <= length ds)%nat).
  { destruct (digits_end m p s 10 Hs ltac:(lia)) as (c & Hc & Hby & Hge).
    destruct (decide (k + 8 <= length ds)%nat) as [|Hlt]; [assumption|exfalso].
    destruct (lookup_lt_is_Some_2 l (length ds - k)) as [x Hx]; [lia|].
    pose proof (Hh _ _ Hx) as Hx'. fold ds in Hc.
    replace (p + Z.of_nat k + Z.of_nat (length ds - k)) with (p + Z.of_nat (length ds)) in Hx'
      by (fold ds in Hk; lia).
    assert (x = c) as -> by congruence. pose proof (Forall_lookup_1 _ _ _ _ Hd Hx) as Hcd.
    pose proof (char2val_decimal c Hby). simpl in Hcd. lia. }
  split; [exact Hk8|]. split; [lia|].
  assert (Ht : take (k + 8) ds = take k ds ++ l).
  { rewrite <- (take_drop k (take (k + 8) ds)), take_take. f_equal; [f_equal; lia|].
    apply list_eq_same_length with 8%nat; [lia|rewrite length_drop, length_take; lia|].
    intros i x y Hi Hx Hy. rewrite lookup_drop, lookup_take_lt in Hx by lia.
    destruct (digits_at m p s 10 Hs (k + i)) as (c & Hc & Hm & _); [fold ds; lia|].
    fold ds in Hc. rewrite Hc in Hx. injection Hx as <-.
    pose proof (Hh _ _ Hy) as Hy'. rewrite <- Z.add_assoc, <- Nat2Z.inj_add in Hy'. congruence. }
  fold ds. rewrite Ht.
  do 8 (destruct l as [|? l]; [discriminate Hn|]). destruct l; [|discriminate Hn].
  rewrite chunk_value_ok by exact Hd.
  repeat (apply Forall_cons in Hl as [? Hl]; apply Forall_cons in Hd as [? Hd]).
  replace (dval 10 (take k ds ++ _)) with
    (dval 10 (take k ds) * 100000000 + foldl (fun a c => a * 10 + (c - 48)) 0 [z; z0; z1; z2; z3; z4; z5; z6]).
  2:{ unfold dval. rewrite foldl_app. simpl foldl.
      rewrite !(fun c H => proj2 (char2val_decimal c H)); try assumption;
        try (apply char2val_decimal; assumption). lia. }
  apply accumulate_ok; [lia|lia|simpl foldl; lia|exact Ha].
Qed.

Lemma swar_digits_ok fuel k st q : pos k q st -> (length s < fuel)%nat ->
  wp (swar_digits fuel m q (mx / 100000000) (mx mod 100000000) st) (fun '(q', st') =>
    exists k', (k <= k')%nat /\ pos k' q' st').
Proof using Hwf Hs Hmx Hmap.
  intros Hp Hf. unfold swar_digits.
  pose proof (prefix_length _ _ (digits_of_prefix 10 s)) as Hdl. fold ds in Hdl.
  apply (wp_loop (fun '(q, st) => exists k', (k <= k')%nat /\ pos k' q st)
           (fun '(q, st) => Z.to_nat (p + Z.of_nat (length ds) - q))).
  - intros [q1 st1] (k1 & Hk1 & Hp1). pose proof Hp1 as (Hle & -> & _). fold ds in Hle.
    unfold step_ok. apply wp_bind.
    eapply wp_mono; [apply all_nonzero_total; intros i Hi; apply Hmap; lia|].
    intros go _. destruct go; [|simpl; eauto].
    destruct (load_bytes_ok m (p + Z.of_nat k1) 8 Hwf) as (l & Hl & Hn & Hby & Hh).
    { intros i Hi. apply Hmap. lia. }
    unfold load64. rewrite Hl. simpl.
    destruct (chunk_test (le l) =? 0) eqn:E; to_prop; simpl; [|eauto].
    apply chunk_test_ok in E; auto.
    pose proof (swar_step k1 st1 l Hp1 Hby Hn Hh E) as Hp2. pose proof (proj1 Hp2) as Hle2. fold ds in Hle2.
    split; [|lia]. exists (k1 + 8)%nat. split; [lia|exact Hp2].
  - eauto.
  - destruct Hp as (_ & -> & _). lia.
Qed.

Lemma tail_digits_ok fuel k st q : pos k q st -> (length s < fuel)%nat ->
  wp (tail_digits fuel m q (mx / 10) (mx mod 10) st) (fun '(q', st') => pos (length ds) q' st').
Proof using Hs Hmx.
  intros Hp Hf. unfold tail_digits.
  pose proof (prefix_length _ _ (digits_of_prefix 10 s)) as Hdl. fold ds in Hdl.
  apply (wp_loop (fun '(q, st) => exists k', pos k' q st)
           (fun '(q, st) => Z.to_nat (p + Z.of_nat (length ds) - q))).
  - intros [q1 st1] (k1 & Hp1). unfold step_ok. apply wp_bind.
    eapply wp_mono; [apply (digit_char m p s 10 mx Hs ltac:(lia) Hmx k1), Hp1|].
    intros c (Hby & Hlt & Hge). destruct (negb (c =? 0) && (char2val c <? 10)) eqn:E; to_prop; simpl.
    + destruct (Hlt ltac:(assumption)) as (_ & Hk & Hp2). split; [eauto|].
      destruct Hp1 as (_ & -> & _). fold ds in Hk. lia.
    + assert (10 <= char2val c) as Hc10.
      { destruct E as [E|E]; to_prop; [subst c; rewrite char2val_0; lia|exact E]. }
      specialize (Hge Hc10). subst k1. exact Hp1.
  - eauto.
  - destruct Hp as (_ & -> & _). lia.
Qed.

Lemma core_decimal_ok fuel : (length s + 8 < fuel)%nat ->
  wp (core_decimal fuel m p mx) (fun '(q, st, any) =>
    pos (length ds) q st /\ any = negb (length ds =? 0)%nat).
Proof using Hwf Hs Hmx Hmap.
  intros Hf. unfold core_decimal.
  pose proof (at_digit_0 p s 10 mx Hmx) as H0. apply wp_bind.
  eapply wp_mono; [apply (digit_char m p s 10 mx Hs ltac:(lia) Hmx 0), H0|].
  intros c (Hby & Hlt & Hge). destruct (9 <? char2val c) eqn:E; to_prop; simpl.
  { specialize (Hge ltac:(lia)). fold ds in Hge. rewrite <- Hge. auto. }
  destruct (Hlt ltac:(lia)) as (_ & Hk & H1). fold ds in Hk.
  assert (Hst : accumulate 10 (mx / 10) (mx mod 10) (0, false) (char2val c) = (char2val c, false)).
  { unfold accumulate. pose proof (char2val_range c Hby).
    assert (0 < mx / 10) by (apply Z.div_str_pos; lia).
    destruct (mx / 10 <? 0) eqn:E1; to_prop; [lia|]. destruct (0 =? mx / 10) eqn:E2; to_prop; [lia|].
    simpl. rewrite u64_small by lia. reflexivity. }
  rewrite Hst in H1.
  assert (Hany : negb (length ds =? 0)%nat = true) by (destruct (length ds); [lia|reflexivity]).
  apply wp_bind. eapply wp_mono; [apply (fast_digits_ok fuel 1); [exact H1|lia]|].
  intros [q1 st1] (k1 & Hk1 & H2). apply wp_bind.
  eapply wp_mono; [apply (digit_char m p s 10 mx Hs ltac:(lia) Hmx k1), H2|].
  intros c2 (Hby2 & Hlt2 & Hge2). destruct (10 <=? char2val c2) eqn:E2; to_prop; simpl.
  { rewrite Hany. split; [|reflexivity]. specialize (Hge2 E2). fold ds in Hge2. subst k1. exact H2. }
  apply wp_bind. eapply wp_mono; [apply (swar_digits_ok fuel k1); [exact H2|lia]|].
  intros [q3 st3] (k3 & Hk3 & H3). apply wp_bind.
  eapply wp_mono; [apply (tail_digits_ok fuel k3); [exact H3|lia]|].
  intros [q4 st4] H4. simpl. rewrite Hany. auto.
Qed.
End Decimal.

(** ** The whole parser *)

Lemma skip_space_ok fuel m p s : cstr m p s -> (length s < fuel)%nat ->
  skip_space fuel m p = Ok (p + Z.of_nat (length (spaces_of s))).
Proof.
  unfold skip_space. revert p fuel. induction s as [|c s IH]; intros p fuel Hs Hf;
    (destruct fuel as [|fuel]; [simpl in Hf; lia|]); simpl loop.
  - apply cstr_nil in Hs. rewrite (load8_ok _ _ _ Hs). simpl. do 2 f_equal. lia.
  - apply cstr_cons in Hs as (Hc & _ & Hs). rewrite (load8_ok _ _ _ Hc). simpl.
    destruct (IS_SPACE c); simpl; [|do 2 f_equal; lia].
    rewrite IH by (auto; simpl in Hf; lia). f_equal. lia.
Qed.

Lemma spaces_len s : (length (spaces_of s) <= length s)%nat.
Proof. induction s as [|c s IH]; simpl; [lia|]. destruct (IS_SPACE c); simpl; lia. Qed.

(** The first characters of a string, read one by one. *)
Lemma cstr_head m p s : cstr m p s ->
  m !! p = Some (match s with c :: _ => c | [] => 0 end).
Proof.
  destruct s; [intros H; apply cstr_nil in H; exact H|intros H; apply cstr_cons in H; tauto].
Qed.

Lemma core_prefix_ok m p s base : cstr m p s ->
  core_prefix m p base = Ok (p + Z.of_nat (ref_prefix base s).1, (ref_prefix base s).2).
Proof.
  intros Hs. unfold core_prefix, ref_prefix. rewrite (load8_ok _ _ _ (cstr_head _ _ _ Hs)). simpl.
  destruct s as [|c0 s].
  { destruct (base =? 0); simpl; [do 2 f_equal; lia|]. rewrite andb_false_r.
    destruct (base =? 16); simpl; do 2 f_equal; lia. }
  apply cstr_cons in Hs as (_ & _ & Hs1). rewrite (load8_ok _ _ _ (cstr_head _ _ _ Hs1)). simpl.
  destruct (c0 =? 48) eqn:E0; simpl.
  2:{ destruct s as [|c1 [|c2 s]]; destruct (base =? 0); simpl; rewrite ?andb_false_r;
        try (destruct (base =? 16)); simpl; do 2 f_equal; lia. }
  destruct s as [|c1 s].
  { simpl. destruct (base =? 0); simpl; [do 2 f_equal; lia|]. rewrite andb_false_r.
    destruct (base =? 16); simpl; do 2 f_equal; lia. }
  apply cstr_cons in Hs1 as (_ & _ & Hs2). replace (p + 1 + 1) with (p + 2) in Hs2 by lia.
  rewrite (load8_ok _ _ _ (cstr_head _ _ _ Hs2)). simpl.
  destruct s as [|c2 s].
  { destruct ((c1 =? 120) || (c1 =? 88)); destruct (base =? 0); simpl; rewrite ?andb_false_r;
      try (destruct (base =? 16)); simpl; do 2 f_equal; lia. }
  apply cstr_cons in Hs2 as (_ & Hc2 & _).
  replace (c2 =? 0) with false by (symmetry; apply Z.eqb_neq; lia). simpl.
  destruct ((c1 =? 120) || (c1 =? 88)), (char2val c2 <? 16), (base =? 0) eqn:Eb; simpl;
    rewrite ?andb_false_r, ?andb_true_r; try (do 2 f_equal; lia);
    destruct (base =? 16) eqn:E16; to_prop; simpl; do 2 f_equal; lia.
Qed.

Lemma cstr_suffix m p s k : cstr m p s -> (k <= length s)%nat -> cstr m (p + Z.of_nat k) (drop k s).
Proof.
  revert p s. induction k as [|k IH]; intros p s Hs Hk.
  - rewrite drop_0, Z.add_0_r. exact Hs.
  - destruct s as [|c s]; [simpl in Hk; lia|]. apply cstr_cons in Hs as (_ & _ & Hs).
    replace (p + Z.of_nat (S k)) with (p + 1 + Z.of_nat k) by lia. apply IH; [exact Hs|simpl in Hk; lia].
Qed.

Lemma ref_prefix_facts base s : base = 0 \/ 2 <= base <= 36 ->
  ((ref_prefix base s).1 <= length s)%nat /\ 2 <= (ref_prefix base s).2 <= 36.
Proof.
  intros Hb. unfold ref_prefix.
  destruct s as [|c0 [|c1 [|c2 s]]]; simpl length;
    repeat match goal with |- context [if ?c then _ else _] => destruct c eqn:? end;
    to_prop; simpl; lia.
Qed.

Lemma digits_step_ok fuel m p s b mx : mem_wf m -> cstr m p s -> 2 <= b <= 36 -> 36 <= mx < 2 ^ 64 ->
  mapped m p (length s + 8) -> (length s + 8 < fuel)%nat ->
  wp (if b =? 10 then core_decimal fuel m p mx else core_general fuel m p b mx) (fun '(q, st, any) =>
    at_digit p s b mx (length (digits_of b s)) q st /\ any = negb (length (digits_of b s) =? 0)%nat).
Proof.
  intros Hwf Hs Hb Hmx Hm Hf. destruct (b =? 10) eqn:E; to_prop.
  - subst b. apply core_decimal_ok; assumption.
  - apply core_general_ok; auto. pose proof (prefix_length _ _ (digits_of_prefix b s)). lia.
Qed.

(** The sign on lists. *)
Definition ref_sign (s1 : list Z) : nat * bool :=
  match s1 with
  | c :: _ => if c =? 45 then (1%nat, true) else if c =? 43 then (1%nat, false) else (0%nat, false)
  | [] => (0%nat, false)
  end.

Lemma ref_sign_len s1 : ((ref_sign s1).1 <= length s1)%nat.
Proof.
  destruct s1 as [|c s1]; simpl; [lia|].
  destruct (c =? 45); simpl; [lia|]. destruct (c =? 43); simpl; lia.
Qed.

Lemma core_sign_ok m p s1 uns mv : cstr m p s1 -> 36 <= mv < 2 ^ 64 -> (uns = false -> mv < 2 ^ 63) ->
  core_sign m p uns mv = Ok (p + Z.of_nat (ref_sign s1).1, (ref_sign s1).2,
    if (ref_sign s1).2 && negb uns then mv + 1 else mv).
Proof.
  intros Hs Hm1 Hm2. unfold core_sign, ref_sign.
  rewrite (load8_ok _ _ _ (cstr_head _ _ _ Hs)). simpl.
  destruct s1 as [|c s1]; simpl; [do 3 f_equal; lia|].
  destruct (c =? 45); simpl.
  - destruct uns; simpl; [reflexivity|]. rewrite u64_small by lia. reflexivity.
  - destruct (c =? 43); simpl; do 3 f_equal; lia.
Qed.

Lemma swar_core_ok fuel m nptr base uns mv s : mem_wf m -> cstr m nptr s ->
  mapped m nptr (length s + 8) -> base = 0 \/ 2 <= base <= 36 -> 36 <= mv < 2 ^ 64 ->
  (uns = false -> mv < 2 ^ 63) -> (length s + 8 < fuel)%nat ->
  swar_core fuel m nptr base uns mv = Ok (ref_core nptr base uns mv s).
Proof.
  intros Hwf Hs Hm Hb Hm1 Hm2 Hf. unfold swar_core, ref_core, ref_parse.
  replace ((base <? 0) || (base =? 1) || (36 <? base)) with false.
  2:{ symmetry. rewrite !orb_false_iff, Z.ltb_ge, Z.eqb_neq, Z.ltb_ge. lia. }
  rewrite (skip_space_ok fuel m nptr s) by (auto; lia). simpl.
  set (sp := length (spaces_of s)). assert (Hsp : (sp <= length s)%nat) by apply spaces_len.
  pose proof (cstr_suffix m nptr s sp Hs Hsp) as Hs1.
  rewrite (core_sign_ok m _ (drop sp s)) by assumption. simpl.
  fold (ref_sign (drop sp s)). destruct (ref_sign (drop sp s)) as [sg neg] eqn:Esg. simpl.
  assert (Hsg : (sg <= length (drop sp s))%nat).
  { pose proof (ref_sign_len (drop sp s)) as H. rewrite Esg in H. exact H. }
  pose proof (cstr_suffix m _ _ sg Hs1 Hsg) as Hs2.
  rewrite (core_prefix_ok m _ (drop sg (drop sp s))) by exact Hs2. simpl.
  pose proof (ref_prefix_facts base (drop sg (drop sp s)) Hb) as [Hpf Hb2].
  destruct (ref_prefix base (drop sg (drop sp s))) as [pf b] eqn:Epf. simpl in Hpf, Hb2 |- *.
  pose proof (cstr_suffix m _ _ pf Hs2 Hpf) as Hs3.
  set (s3 := drop pf (drop sg (drop sp s))) in *.
  set (mx := if neg && negb uns then mv + 1 else mv).
  assert (Hmx : 36 <= mx < 2 ^ 64) by (subst mx; destruct neg, uns; simpl; lia).
  apply wp_eq. apply wp_bind.
  eapply wp_mono; [apply (digits_step_ok fuel m _ s3 b mx); auto|].
  - subst s3. eapply mapped_le; [exact Hm|lia|]. rewrite !length_drop in *. lia.
  - subst s3. rewrite !length_drop in *. lia.
  - intros [[q [acc ovf]] any] [(_ & -> & Ha) ->]. rewrite firstn_all in Ha.
    unfold acc_rel in Ha. simpl in Ha. destruct Ha as [HV Ha].
    replace (if negb (length (digits_of b s3) =? 0)%nat then _ else nptr)
      with (match digits_of b s3 with [] => nptr
            | _ => nptr + Z.of_nat (sp + sg + pf) + Z.of_nat (length (digits_of b s3)) end).
    2:{ destruct (digits_of b s3); simpl; [reflexivity|lia]. }
    destruct ovf; simpl.
    + destruct (mx <? dval b (digits_of b s3)) eqn:E; to_prop; [reflexivity|lia].
    + destruct Ha as [-> HVm]. destruct (mx <? dval b (digits_of b s3)) eqn:E; to_prop; [lia|].
      reflexivity.
Qed.

(** [strtol] returns the mathematical value clamped to the range of [long]. *)
Lemma strtol_ok fuel m nptr base s k neg b ds : mem_wf m -> cstr m nptr s ->
  mapped m nptr (length s + 8) -> base = 0 \/ 2 <= base <= 36 -> (length s + 8 < fuel)%nat ->
  ref_parse base s = (k, neg, b, ds) ->
  let v := if neg then - dval b ds else dval b ds in
  strtol fuel m nptr base =
    Ok (Z.max (- 2 ^ 63) (Z.min (2 ^ 63 - 1) v),
        match ds with [] => nptr | _ => nptr + Z.of_nat k + Z.of_nat (length ds) end,
        if (- 2 ^ 63 <=? v) && (v <=? 2 ^ 63 - 1) then None else Some ERANGE).
Proof.
  intros Hwf Hs Hm Hb Hf Hr. unfold strtol, swar_strtol.
  rewrite (swar_core_ok fuel m nptr base false LONG_MAX s) by (auto; unfold LONG_MAX; lia).
  simpl. unfold ref_core. rewrite Hr, andb_true_r. unfold LONG_MAX.
  assert (HV : 0 <= dval b ds).
  { assert (Hds : exists s3, ds = digits_of b s3 /\ bytes s3 /\ 2 <= b <= 36).
    { unfold ref_parse in Hr. fold (ref_sign (drop (length (spaces_of s)) s)) in Hr.
      destruct (ref_sign _) as [sg ng].
      pose proof (ref_prefix_facts base (drop sg (drop (length (spaces_of s)) s)) Hb) as [_ Hb2].
      destruct (ref_prefix _ _) as [pf b']. injection Hr as _ _ <- <-. simpl in Hb2.
      eexists. split; [reflexivity|]. split; [|exact Hb2].
      do 3 apply Forall_drop. destruct Hs as [Hs _]. eapply Forall_impl; [exact Hs|]. unfold byte. simpl. lia. }
    destruct Hds as (s3 & -> & Hby & Hb2). apply dval_nonneg; [lia|].
    clear - Hby. induction Hby as [|c s3 Hc _ IH]; simpl; [constructor|].
    destruct (char2val c <? b) eqn:E; to_prop; [|constructor]. constructor; [auto|exact IH]. }
  unfold i64, sgn. change (2 ^ (64 - 1)) with 9223372036854775808.
  change (2 ^ 64) with 18446744073709551616. change (2 ^ 63) with 9223372036854775808.
  change (- (9223372036854775808)) with (-9223372036854775808).
  change (9223372036854775808 - 1) with 9223372036854775807.
  destruct neg; simpl.
  - destruct (_ <? dval b ds) eqn:E; cbn [core_value core_end core_errno]; to_prop; f_equal; f_equal.
    + rewrite Z.min_r, Z.max_l by lia. reflexivity.
    + destruct (-9223372036854775808 <=? - dval b ds) eqn:E1; to_prop; [lia|reflexivity].
    + unfold u64. change (2 ^ 64) with 18446744073709551616. f_equal.
      destruct (Z.eq_dec (dval b ds) 0) as [->|]; [reflexivity|].
      rewrite <- (Z.mod_unique_pos (- dval b ds) _ (-1) (18446744073709551616 - dval b ds)) by lia.
      rewrite <- (Z.mod_unique_pos _ _ 1 (9223372036854775808 - dval b ds)) by lia. lia.
    + destruct (-9223372036854775808 <=? - dval b ds) eqn:E1, (- dval b ds <=? 9223372036854775807) eqn:E2;
        to_prop; try lia; reflexivity.
  - destruct (_ <? dval b ds) eqn:E; cbn [core_value core_end core_errno]; to_prop; f_equal; f_equal.
    + rewrite Z.mod_small by lia. f_equal. lia.
    + destruct (dval b ds <=? 9223372036854775807) eqn:E2; to_prop; [lia|]. rewrite andb_false_r. reflexivity.
    + rewrite Z.mod_small by lia. f_equal. lia.
    + destruct (-9223372036854775808 <=? dval b ds) eqn:E1, (dval b ds <=? 9223372036854775807) eqn:E2;
        to_prop; try lia; reflexivity.
Qed.

(** * The properties *)

(** ["  -12345678901x"] with eight mapped bytes behind the terminator. *)
Definition ex_num : list Z := [32; 32; 45; 49; 50; 51; 52; 53; 54; 55; 56; 57; 48; 49; 120].
Definition ex_num_mem : mem := write ∅ 4096 (ex_num ++ 0 :: replicate 7 0).

(** C40: the SWAR parser (fast scalar loop, eight digits per 64-bit word, scalar
    tail) computes for every string, base and limit exactly what the reference
    parser on lists computes: value, end pointer, errno and overflow flag,
    saturation at the limit included, when the eight bytes behind the string are
    readable. *)
Theorem swar_core_refines (m : mem) (nptr base : Z) (is_unsigned_type : bool) (max_val : Z)
    (s : list Z) (fuel : nat) :
  mem_wf m -> cstr m nptr s -> mapped m nptr (length s + 8) -> base = 0 \/ 2 <= base <= 36 ->
  36 <= max_val < 2 ^ 64 -> (is_unsigned_type = false -> max_val < 2 ^ 63) ->
  (length s + 8 < fuel)%nat ->
  swar_core fuel m nptr base is_unsigned_type max_val =
    Ok (ref_core nptr base is_unsigned_type max_val s).
Proof. intros. apply swar_core_ok; assumption. Qed.

Lemma swar_core_refines_witness : swar_core 100 ex_num_mem 4096 10 true ULONG_MAX =
  Ok (CoreResult (2 ^ 64 - 12345678901) 4110 None false).
Proof.
  apply (swar_core_refines ex_num_mem 4096 10 true ULONG_MAX ex_num 100);
    [mem_check|mem_check|mem_check|right; lia|vm_compute; split; congruence|discriminate|vm_compute; lia].
Defined.

(** [strtol] returns the mathematical value of the parsed digits with their
    sign, clamped to the range of [long], the position behind the digits (or the
    start when there are none), and ERANGE exactly when the value was clamped. *)
Theorem strtol_value (m : mem) (nptr base : Z) (s : list Z) (k : nat) (neg : bool) (b : Z)
    (ds : list Z) (fuel : nat) :
  mem_wf m -> cstr m nptr s -> mapped m nptr (length s + 8) -> base = 0 \/ 2 <= base <= 36 ->
  (length s + 8 < fuel)%nat -> ref_parse base s = (k, neg, b, ds) ->
  let v := if neg then - dval b ds else dval b ds in
  strtol fuel m nptr base =
    Ok (Z.max (- 2 ^ 63) (Z.min (2 ^ 63 - 1) v),
        match ds with [] => nptr | _ => nptr + Z.of_nat k + Z.of_nat (length ds) end,
        if (- 2 ^ 63 <=? v) && (v <=? 2 ^ 63 - 1) then None else Some ERANGE).
Proof. intros. eapply strtol_ok; eassumption. Qed.

Lemma strtol_value_witness : strtol 100 ex_num_mem 4096 0 = Ok (-12345678901, 4110, None).
Proof.
  apply (strtol_value ex_num_mem 4096 0 ex_num 3 true 10
           [49; 50; 51; 52; 53; 54; 55; 56; 57; 48; 49] 100);
    [mem_check|mem_check|mem_check|left; reflexivity|vm_compute; lia|vm_compute; reflexivity].
Defined.

(** the hypothesis on the bytes behind the string is needed: on a buffer that
    ends with the terminator of ["1234567812345678"], the eight-digit loop tests
    [p[1] .. p[7]] with [p] at the terminator, and reads outside the buffer. *)
Theorem strtol_reads_past_terminator : forall base, base = 0 \/ base = 10 ->
  strtol 100 (write ∅ 4096 [49; 50; 51; 52; 53; 54; 55; 56; 49; 50; 51; 52; 53; 54; 55; 56; 0]) 4096 base = Fault.
Proof. intros base [-> | ->]; vm_compute; reflexivity. Qed.

Lemma strtol_reads_past_terminator_witness :
  strtol 100 (write ∅ 4096 [49; 50; 51; 52; 53; 54; 55; 56; 49; 50; 51; 52; 53; 54; 55; 56; 0]) 4096 10 = Fault.
Proof. apply strtol_reads_past_terminator. right. reflexivity. Defined.
