(* ===== verification/RBTree.v ===== *)
(** The kernel's intrusive red-black tree,
    [src/kernel/include/klib/algorithm/rbtree.h]: nodes with parent pointers in
    a store, the root record with its lookup hint, logical clock and
    temperature counters, and every operation on them.  A NULL pointer is
    address 0; the comparator sees node addresses, as the C callback does.
    The lock callbacks are no-ops here (the header's single-threaded mode). *)
From stdpp Require Import base gmap list fin_maps.
From Stdlib Require Import ZArith Lia.
From S2P Require Import Prelude.

Open Scope Z_scope.
Open Scope c_scope.

(** * Data *)

Definition RB_RED : Z := 0.
Definition RB_BLACK : Z := 1.
Definition RB_FLAG_COLD : Z := 0.
Definition RB_FLAG_WARM : Z := 1.
Definition RB_FLAG_HOT : Z := 2.
Definition RB_FLAG_PINNED : Z := 128.
Definition RB_FLAG_TEMP_MASK : Z := 3.
Definition RB_HINT_MASK_DEFAULT : Z := 3.
Definition RB_TIME_UPDATE_THRESHOLD : Z := 64.

Record rb_node : Type := RbNode {
  n_parent : Z;
  n_left : Z;
  n_right : Z;
  n_color : Z;
  n_flags : Z;
  n_time : Z;      (* access_time *)
  n_count : Z      (* access_count *)
}.

#[export] Instance rb_node_eq_dec : EqDecision rb_node.
Proof. solve_decision. Defined.

Record rb_root : Type := RbRoot {
  r_node : Z;
  r_hint : Z;
  r_cnt : Z;
  r_clock : Z;
  r_warm_decay : Z;
  r_hot_decay : Z;
  r_hint_mask : Z;
  r_cold : Z;
  r_warm : Z;
  r_hot : Z;
  r_pinned : Z
}.

(** The store of nodes. *)
Abbreviation heap := (gmap Z rb_node).

Definition set_parent (v : Z) (n : rb_node) : rb_node :=
  RbNode v (n_left n) (n_right n) (n_color n) (n_flags n) (n_time n) (n_count n).
Definition set_left (v : Z) (n : rb_node) : rb_node :=
  RbNode (n_parent n) v (n_right n) (n_color n) (n_flags n) (n_time n) (n_count n).
Definition set_right (v : Z) (n : rb_node) : rb_node :=
  RbNode (n_parent n) (n_left n) v (n_color n) (n_flags n) (n_time n) (n_count n).
Definition set_color (v : Z) (n : rb_node) : rb_node :=
  RbNode (n_parent n) (n_left n) (n_right n) v (n_flags n) (n_time n) (n_count n).
Definition set_flags (v : Z) (n : rb_node) : rb_node :=
  RbNode (n_parent n) (n_left n) (n_right n) (n_color n) v (n_time n) (n_count n).
Definition set_time (v : Z) (n : rb_node) : rb_node :=
  RbNode (n_parent n) (n_left n) (n_right n) (n_color n) (n_flags n) v (n_count n).
Definition set_access (v : Z) (n : rb_node) : rb_node :=
  RbNode (n_parent n) (n_left n) (n_right n) (n_color n) (n_flags n) (n_time n) v.

Definition with_node (r : rb_root) (v : Z) : rb_root :=
  RbRoot v (r_hint r) (r_cnt r) (r_clock r) (r_warm_decay r) (r_hot_decay r) (r_hint_mask r)
    (r_cold r) (r_warm r) (r_hot r) (r_pinned r).
Definition with_hint (r : rb_root) (v : Z) : rb_root :=
  RbRoot (r_node r) v (r_cnt r) (r_clock r) (r_warm_decay r) (r_hot_decay r) (r_hint_mask r)
    (r_cold r) (r_warm r) (r_hot r) (r_pinned r).
Definition with_cnt (r : rb_root) (v : Z) : rb_root :=
  RbRoot (r_node r) (r_hint r) v (r_clock r) (r_warm_decay r) (r_hot_decay r) (r_hint_mask r)
    (r_cold r) (r_warm r) (r_hot r) (r_pinned r).
Definition with_stats (r : rb_root) (cold warm hot pinned : Z) : rb_root :=
  RbRoot (r_node r) (r_hint r) (r_cnt r) (r_clock r) (r_warm_decay r) (r_hot_decay r) (r_hint_mask r)
    cold warm hot pinned.

(** [p->field] and [p->field = v]; a NULL or dangling [p] is a fault. *)
Definition ld {A} (f : rb_node -> A) (h : heap) (p : Z) : res A :=
  match h !! p with
  | Some n => if p =? 0 then Fault else Ok (f n)
  | None => Fault
  end.

Definition st (f : rb_node -> rb_node) (h : heap) (p : Z) : res heap :=
  match h !! p with
  | Some n => if p =? 0 then Fault else Ok (<[p := f n]> h)
  | None => Fault
  end.

(** A pointer test: [p] as a condition. *)
Definition nonnull (p : Z) : bool := negb (p =? 0).

(** Fuel for the loops that walk the tree: no path is longer than the store,
    and a loop passes each node at most twice. *)
Definition walk (h : heap) : nat := 2 * size h + 4.

(** * Statistics *)

Definition rb_stat_dec (r : rb_root) (flags : Z) : rb_root :=
  let pure := Z.land flags RB_FLAG_TEMP_MASK in
  let pinned := if negb (Z.land flags RB_FLAG_PINNED =? 0) then u64 (r_pinned r - 1) else r_pinned r in
  if pure =? RB_FLAG_COLD then with_stats r (u64 (r_cold r - 1)) (r_warm r) (r_hot r) pinned
  else if pure =? RB_FLAG_WARM then with_stats r (r_cold r) (u64 (r_warm r - 1)) (r_hot r) pinned
  else if pure =? RB_FLAG_HOT then with_stats r (r_cold r) (r_warm r) (u64 (r_hot r - 1)) pinned
  else with_stats r (r_cold r) (r_warm r) (r_hot r) pinned.

Definition rb_stat_inc (r : rb_root) (flags : Z) : rb_root :=
  let pure := Z.land flags RB_FLAG_TEMP_MASK in
  let pinned := if negb (Z.land flags RB_FLAG_PINNED =? 0) then u64 (r_pinned r + 1) else r_pinned r in
  if pure =? RB_FLAG_COLD then with_stats r (u64 (r_cold r + 1)) (r_warm r) (r_hot r) pinned
  else if pure =? RB_FLAG_WARM then with_stats r (r_cold r) (u64 (r_warm r + 1)) (r_hot r) pinned
  else if pure =? RB_FLAG_HOT then with_stats r (r_cold r) (r_warm r) (u64 (r_hot r + 1)) pinned
  else with_stats r (r_cold r) (r_warm r) (r_hot r) pinned.

(** * Initialisation and parameters *)

Definition rb_init_node (h : heap) (node : Z) : res heap :=
  if node =? 0 then Ok h
  else st (fun _ => RbNode 0 0 0 RB_RED RB_FLAG_COLD 0 0) h node.

Definition rb_root_init : rb_root :=
  RbRoot 0 0 0 0 (Z.shiftl 1 12) (Z.shiftl 1 14) RB_HINT_MASK_DEFAULT 0 0 0 0.

Definition rb_set_decay (r : rb_root) (warm_decay hot_decay : Z) : rb_root :=
  RbRoot (r_node r) (r_hint r) (r_cnt r) (r_clock r) warm_decay hot_decay (r_hint_mask r)
    (r_cold r) (r_warm r) (r_hot r) (r_pinned r).

Definition rb_set_hint_mask (r : rb_root) (mask : Z) : rb_root :=
  RbRoot (r_node r) (r_hint r) (r_cnt r) (r_clock r) (r_warm_decay r) (r_hot_decay r)
    (if negb (mask =? 0) then mask else RB_HINT_MASK_DEFAULT)
    (r_cold r) (r_warm r) (r_hot r) (r_pinned r).

Definition rb_tick (r : rb_root) : rb_root :=
  RbRoot (r_node r) (r_hint r) (r_cnt r) (u64 (r_clock r + 1)) (r_warm_decay r) (r_hot_decay r)
    (r_hint_mask r) (r_cold r) (r_warm r) (r_hot r) (r_pinned r).

(** * Pinning and temperature *)

(** [RB_ATOMIC_CAS(&node->flags, &expected, desired)]: whether it succeeded, the
    value seen in [expected], the store. *)
Definition cas_flags (h : heap) (node expected desired : Z) : res (bool * Z * heap) :=
  let* cur := ld n_flags h node in
  if cur =? expected then let* h := st (set_flags desired) h node in Ok (true, expected, h)
  else Ok (false, cur, h).

(** Run by one thread the exchange succeeds at once, so two rounds are enough
    for the retry loops of this section. *)
Definition cas_rounds : nat := 2.

Definition rb_pin_node (r : rb_root) (h : heap) (node : Z) : res (rb_root * heap) :=
  if node =? 0 then Ok (r, h)
  else
    let* old := ld n_flags h node in
    loop cas_rounds (fun '(h, old) =>
      if negb (Z.land old RB_FLAG_PINNED =? 0) then Ok (inr (r, h))
      else
        let new_flags := Z.lor old RB_FLAG_PINNED in
        let* (ok, expected, h) := cas_flags h node old new_flags in
        if (ok : bool) then Ok (inr (rb_stat_inc (rb_stat_dec r old) new_flags, h))
        else Ok (inl (h, expected))) (h, old).

Definition rb_unpin_node (r : rb_root) (h : heap) (node : Z) : res (rb_root * heap) :=
  if node =? 0 then Ok (r, h)
  else
    let* old := ld n_flags h node in
    loop cas_rounds (fun '(h, old) =>
      if Z.land old RB_FLAG_PINNED =? 0 then Ok (inr (r, h))
      else
        let new_flags := u8 (Z.land old (Z.lnot RB_FLAG_PINNED)) in
        let* (ok, expected, h) := cas_flags h node old new_flags in
        if (ok : bool) then Ok (inr (rb_stat_inc (rb_stat_dec r old) new_flags, h))
        else Ok (inl (h, expected))) (h, old).

Definition rb_is_pinned (h : heap) (node : Z) : res bool :=
  if node =? 0 then Ok false
  else let* fl := ld n_flags h node in Ok (negb (Z.land fl RB_FLAG_PINNED =? 0)).

(** The temperature a node of temperature [cur_temp] gets: decay by elapsed
    ticks, promotion by access count. *)
Definition touch_temp (r : rb_root) (elapsed count cur_temp : Z) : Z * bool :=
  let '(new_temp, should_decay) :=
    if r_hot_decay r <? elapsed then (RB_FLAG_COLD, true)
    else if r_warm_decay r <? elapsed then
      ((if cur_temp =? RB_FLAG_HOT then RB_FLAG_WARM else RB_FLAG_COLD), true)
    else (cur_temp, false) in
  let effective_count := if should_decay : bool then 1 else count in
  if (8 <=? effective_count) && (new_temp <? RB_FLAG_HOT) then (RB_FLAG_HOT, should_decay)
  else if (2 <=? effective_count) && (new_temp <? RB_FLAG_WARM) then (RB_FLAG_WARM, should_decay)
  else (new_temp, should_decay).

Definition rb_touch (r : rb_root) (h : heap) (node : Z) : res (rb_root * heap) :=
  if node =? 0 then Ok (r, h)
  else
    let cur_time := r_clock r in
    let* last_time := ld n_time h node in
    let elapsed := u64 (cur_time - last_time) in
    let* c := ld n_count h node in
    let count := u64 (c + 1) in
    let* h := st (set_access count) h node in
    let* h := if RB_TIME_UPDATE_THRESHOLD <? elapsed then st (set_time cur_time) h node else Ok h in
    let* cur_flags := ld n_flags h node in
    loop cas_rounds (fun '(h, cur_flags) =>
      if negb (Z.land cur_flags RB_FLAG_PINNED =? 0) then Ok (inr (r, h))
      else
        let cur_temp := Z.land cur_flags RB_FLAG_TEMP_MASK in
        let '(new_temp, should_decay) := touch_temp r elapsed count cur_temp in
        if new_temp =? cur_temp then Ok (inr (r, h))
        else
          let new_flags := u8 (Z.lor (Z.land cur_flags (Z.lnot RB_FLAG_TEMP_MASK)) new_temp) in
          let* (ok, expected, h) := cas_flags h node cur_flags new_flags in
          if (ok : bool) then
            let r := rb_stat_inc (rb_stat_dec r cur_flags) new_flags in
            let* h := if (should_decay : bool) then st (set_access 1) h node else Ok h in
            Ok (inr (r, h))
          else Ok (inl (h, expected))) (h, cur_flags).

(** * Rotations *)

(** The link from [node]'s parent (or the root) to [node], redirected to [q]. *)
Definition replace_child (h : heap) (root parent node q : Z) : res (heap * Z) :=
  if nonnull parent then
    let* pl := ld n_left h parent in
    if node =? pl then let* h := st (set_left q) h parent in Ok (h, root)
    else let* h := st (set_right q) h parent in Ok (h, root)
  else Ok (h, q).

(** The same, testing the right field first. *)
Definition replace_child_r (h : heap) (root parent node q : Z) : res (heap * Z) :=
  if nonnull parent then
    let* pr := ld n_right h parent in
    if node =? pr then let* h := st (set_right q) h parent in Ok (h, root)
    else let* h := st (set_left q) h parent in Ok (h, root)
  else Ok (h, q).

Definition rb_rotate_left (h : heap) (root node : Z) : res (heap * Z) :=
  let* right_ := ld n_right h node in
  let* rl := ld n_left h right_ in
  let* h := st (set_right rl) h node in
  let* rl := ld n_left h right_ in
  let* h := if nonnull rl then st (set_parent node) h rl else Ok h in
  let* np := ld n_parent h node in
  let* h := st (set_parent np) h right_ in
  let* np := ld n_parent h node in
  let* (h, root) := replace_child h root np node right_ in
  let* h := st (set_left node) h right_ in
  let* h := st (set_parent right_) h node in
  Ok (h, root).

Definition rb_rotate_right (h : heap) (root node : Z) : res (heap * Z) :=
  let* left_ := ld n_left h node in
  let* lr := ld n_right h left_ in
  let* h := st (set_left lr) h node in
  let* lr := ld n_right h left_ in
  let* h := if nonnull lr then st (set_parent node) h lr else Ok h in
  let* np := ld n_parent h node in
  let* h := st (set_parent np) h left_ in
  let* np := ld n_parent h node in
  let* (h, root) := replace_child_r h root np node left_ in
  let* h := st (set_right node) h left_ in
  let* h := st (set_parent left_) h node in
  Ok (h, root).

(** * Insertion *)

(** One round of the descent, with the last node visited and the last
    comparison. *)
Definition insert_step (cmp : Z -> Z -> Z) (h : heap) (node : Z) : Z * Z * Z -> res ((Z * Z * Z) + (Z * Z)) :=
  fun '(parent, current, cmp_res) =>
    if nonnull current then
      let parent := current in
      let cmp_res := cmp node current in
      if cmp_res <? 0 then let* l := ld n_left h current in Ok (inl (parent, l, cmp_res))
      else let* r := ld n_right h current in Ok (inl (parent, r, cmp_res))
    else Ok (inr (parent, cmp_res)).

Definition insert_descend (cmp : Z -> Z -> Z) (h : heap) (node root : Z) : res (Z * Z) :=
  loop (walk h) (insert_step cmp h node) (0, root, 0).

(** [uncle && uncle->color == RB_RED] *)
Definition is_red (h : heap) (p : Z) : res bool :=
  if nonnull p then let* c := ld n_color h p in Ok (c =? RB_RED) else Ok false.

(** [!p || p->color == RB_BLACK] *)
Definition is_black (h : heap) (p : Z) : res bool :=
  if nonnull p then let* c := ld n_color h p in Ok (c =? RB_BLACK) else Ok true.

(** One round of the rebalancing loop; [inr] when its condition fails. *)
Definition insert_round (h : heap) (root node : Z) : res ((heap * Z * Z) + (heap * Z)) :=
  if node =? root then Ok (inr (h, root))
  else
    let* parent := ld n_parent h node in
    let* pc := ld n_color h parent in
    if negb (pc =? RB_RED) then Ok (inr (h, root))
    else
      let* grandparent := ld n_parent h parent in
      let* gl := ld n_left h grandparent in
      if parent =? gl then
        let* uncle := ld n_right h grandparent in
        let* red := is_red h uncle in
        if (red : bool) then
          let* h := st (set_color RB_BLACK) h parent in
          let* h := st (set_color RB_BLACK) h uncle in
          let* h := st (set_color RB_RED) h grandparent in
          Ok (inl (h, root, grandparent))
        else
          let* pr := ld n_right h parent in
          let* (h, root, node) :=
            if node =? pr then
              let node := parent in
              let* (h, root) := rb_rotate_left h root node in Ok (h, root, node)
            else Ok (h, root, node) in
          let* parent := ld n_parent h node in
          let* h := st (set_color RB_BLACK) h parent in
          let* h := st (set_color RB_RED) h grandparent in
          let* (h, root) := rb_rotate_right h root grandparent in
          Ok (inl (h, root, node))
      else
        let* uncle := ld n_left h grandparent in
        let* red := is_red h uncle in
        if (red : bool) then
          let* h := st (set_color RB_BLACK) h parent in
          let* h := st (set_color RB_BLACK) h uncle in
          let* h := st (set_color RB_RED) h grandparent in
          Ok (inl (h, root, grandparent))
        else
          let* pl := ld n_left h parent in
          let* (h, root, node) :=
            if node =? pl then
              let node := parent in
              let* (h, root) := rb_rotate_right h root node in Ok (h, root, node)
            else Ok (h, root, node) in
          let* parent := ld n_parent h node in
          let* h := st (set_color RB_BLACK) h parent in
          let* h := st (set_color RB_RED) h grandparent in
          let* (h, root) := rb_rotate_left h root grandparent in
          Ok (inl (h, root, node)).

Definition insert_fixup (h : heap) (root node : Z) : res (heap * Z) :=
  let* (h, root) := loop (walk h) (fun '(h, root, node) => insert_round h root node) (h, root, node) in
  let* h := st (set_color RB_BLACK) h root in
  Ok (h, root).

(** Hanging the new node under the last node visited. *)
Definition insert_link (h : heap) (root node parent cmp_res : Z) : res (heap * Z) :=
  let* h := st (set_parent parent) h node in
  if parent =? 0 then Ok (h, node)
  else if cmp_res <? 0 then let* h := st (set_left node) h parent in Ok (h, root)
  else let* h := st (set_right node) h parent in Ok (h, root).

Definition rb_insert_raw (cmp : Z -> Z -> Z) (r : rb_root) (h : heap) (node : Z) : res (rb_root * heap) :=
  if node =? 0 then Ok (r, h)
  else
    let* h := rb_init_node h node in
    let* (parent, cmp_res) := insert_descend cmp h node (r_node r) in
    let* (h, root) := insert_link h (r_node r) node parent cmp_res in
    let* h := st (set_time (r_clock r)) h node in
    let r := rb_stat_inc (with_node r root) RB_FLAG_COLD in
    let* (h, root) := insert_fixup h root node in
    Ok (with_node r root, h).

Definition rb_insert (cmp : Z -> Z -> Z) (r : rb_root) (h : heap) (node : Z) : res (rb_root * heap) :=
  if node =? 0 then Ok (r, h)
  else
    let* (r, h) := rb_insert_raw cmp r h node in
    Ok (with_cnt r (u64 (r_cnt r + 1)), h).

(** * Searching *)

Definition descend_step (cmp : Z -> Z -> Z) (h : heap) (key current : Z) : res (Z + Z) :=
  if nonnull current then
    let res := cmp key current in
    if res <? 0 then let* l := ld n_left h current in Ok (inl l)
    else if 0 <? res then let* r := ld n_right h current in Ok (inl r)
    else Ok (inr current)
  else Ok (inr current).

Definition search_descend (cmp : Z -> Z -> Z) (h : heap) (key root : Z) : res Z :=
  loop (walk h) (descend_step cmp h key) root.

Definition rb_search_locked_only (cmp : Z -> Z -> Z) (r : rb_root) (h : heap) (key : Z)
  : res (Z * rb_root * heap) :=
  if key =? 0 then Ok (0, r, h)
  else
    let hint_node := r_hint r in
    let* current :=
      if nonnull hint_node && (cmp key hint_node =? 0) then Ok hint_node
      else search_descend cmp h key (r_node r) in
    if nonnull current then
      let* (r, h) := rb_touch r h current in
      if negb (current =? hint_node) then
        let clock := r_clock r in
        if Z.land clock (r_hint_mask r) =? 0 then Ok (current, with_hint r current, h)
        else Ok (current, r, h)
      else Ok (current, r, h)
    else Ok (current, r, h).

Definition rb_search (cmp : Z -> Z -> Z) (r : rb_root) (h : heap) (key : Z) : res (Z * rb_root * heap) :=
  if key =? 0 then Ok (0, r, h) else rb_search_locked_only cmp r h key.

(** * Iteration *)

Definition rb_first (h : heap) (root : Z) : res Z :=
  if root =? 0 then Ok 0
  else loop (walk h) (fun root =>
    let* l := ld n_left h root in
    if nonnull l then Ok (inl l) else Ok (inr root)) root.

Definition rb_last (h : heap) (root : Z) : res Z :=
  if root =? 0 then Ok 0
  else loop (walk h) (fun root =>
    let* r := ld n_right h root in
    if nonnull r then Ok (inl r) else Ok (inr root)) root.

Definition rb_next (h : heap) (node : Z) : res Z :=
  if node =? 0 then Ok 0
  else
    let* r := ld n_right h node in
    if nonnull r then rb_first h r
    else
      let* parent := ld n_parent h node in
      loop (walk h) (fun '(node, parent) =>
        if nonnull parent then
          let* pr := ld n_right h parent in
          if node =? pr then
            let node := parent in
            let* parent := ld n_parent h parent in Ok (inl (node, parent))
          else Ok (inr parent)
        else Ok (inr parent)) (node, parent).

Definition rb_prev (h : heap) (node : Z) : res Z :=
  if node =? 0 then Ok 0
  else
    let* l := ld n_left h node in
    if nonnull l then
      loop (walk h) (fun node =>
        let* r := ld n_right h node in
        if nonnull r then Ok (inl r) else Ok (inr node)) l
    else
      let* parent := ld n_parent h node in
      loop (walk h) (fun '(node, parent) =>
        if nonnull parent then
          let* pl := ld n_left h parent in
          if node =? pl then
            let node := parent in
            let* parent := ld n_parent h parent in Ok (inl (node, parent))
          else Ok (inr parent)
        else Ok (inr parent)) (node, parent).

(** * Deletion *)

(** The part of a round after the sibling has become black, for a node that is a
    left child. *)
Definition erase_black_left (h : heap) (root parent sibling : Z) : res ((heap * Z * Z * Z) + (heap * Z * Z)) :=
  let* sl := ld n_left h sibling in
  let* lb := is_black h sl in
  let* sr := ld n_right h sibling in
  let* rb := is_black h sr in
  if lb && rb then
    let* h := st (set_color RB_RED) h sibling in
    let node := parent in
    let* parent := ld n_parent h node in
    Ok (inl (h, root, node, parent))
  else
    let* (h, root, sibling) :=
      if (rb : bool) then
        let* h := if nonnull sl then st (set_color RB_BLACK) h sl else Ok h in
        let* h := st (set_color RB_RED) h sibling in
        let* (h, root) := rb_rotate_right h root sibling in
        let* sibling := ld n_right h parent in
        Ok (h, root, sibling)
      else Ok (h, root, sibling) in
    let* pc := ld n_color h parent in
    let* h := st (set_color pc) h sibling in
    let* h := st (set_color RB_BLACK) h parent in
    let* sr := ld n_right h sibling in
    let* h := if nonnull sr then st (set_color RB_BLACK) h sr else Ok h in
    let* (h, root) := rb_rotate_left h root parent in
    Ok (inr (h, root, root)).

(** The same for a right child. *)
Definition erase_black_right (h : heap) (root parent sibling : Z) : res ((heap * Z * Z * Z) + (heap * Z * Z)) :=
  let* sl := ld n_left h sibling in
  let* lb := is_black h sl in
  let* sr := ld n_right h sibling in
  let* rb := is_black h sr in
  if lb && rb then
    let* h := st (set_color RB_RED) h sibling in
    let node := parent in
    let* parent := ld n_parent h node in
    Ok (inl (h, root, node, parent))
  else
    let* (h, root, sibling) :=
      if (lb : bool) then
        let* h := if nonnull sr then st (set_color RB_BLACK) h sr else Ok h in
        let* h := st (set_color RB_RED) h sibling in
        let* (h, root) := rb_rotate_left h root sibling in
        let* sibling := ld n_left h parent in
        Ok (h, root, sibling)
      else Ok (h, root, sibling) in
    let* pc := ld n_color h parent in
    let* h := st (set_color pc) h sibling in
    let* h := st (set_color RB_BLACK) h parent in
    let* sl := ld n_left h sibling in
    let* h := if nonnull sl then st (set_color RB_BLACK) h sl else Ok h in
    let* (h, root) := rb_rotate_right h root parent in
    Ok (inr (h, root, root)).

(** One round of the loop of [rb_erase_fixup]; [inr] is its exit, with the node
    the final statement blackens. *)
Definition erase_round (h : heap) (root node parent : Z) : res ((heap * Z * Z * Z) + (heap * Z * Z)) :=
  if node =? root then Ok (inr (h, root, node))
  else
    let* black := is_black h node in
    if negb black then Ok (inr (h, root, node))
    else
      let* pl := ld n_left h parent in
      if node =? pl then
        let* sibling := ld n_right h parent in
        if sibling =? 0 then Ok (inr (h, root, node))
        else
          let* sc := ld n_color h sibling in
          if sc =? RB_RED then
            let* h := st (set_color RB_BLACK) h sibling in
            let* h := st (set_color RB_RED) h parent in
            let* (h, root) := rb_rotate_left h root parent in
            let* sibling := ld n_right h parent in
            if sibling =? 0 then Ok (inr (h, root, node))
            else erase_black_left h root parent sibling
          else erase_black_left h root parent sibling
      else
        let* sibling := ld n_left h parent in
        if sibling =? 0 then Ok (inr (h, root, node))
        else
          let* sc := ld n_color h sibling in
          if sc =? RB_RED then
            let* h := st (set_color RB_BLACK) h sibling in
            let* h := st (set_color RB_RED) h parent in
            let* (h, root) := rb_rotate_right h root parent in
            let* sibling := ld n_left h parent in
            if sibling =? 0 then Ok (inr (h, root, node))
            else erase_black_right h root parent sibling
          else erase_black_right h root parent sibling.

Definition rb_erase_fixup (h : heap) (root node parent : Z) : res (heap * Z) :=
  let* (h, root, node) :=
    loop (walk h) (fun '(h, root, node, parent) => erase_round h root node parent) (h, root, node, parent) in
  let* h := if nonnull node then st (set_color RB_BLACK) h node else Ok h in
  Ok (h, root).

Definition rb_erase_update_stats (r : rb_root) (h : heap) (node : Z) : res (rb_root * heap) :=
  if node =? 0 then Ok (r, h)
  else
    let* old_flags := ld n_flags h node in
    let r := rb_stat_dec r old_flags in
    let* h := st (set_flags RB_FLAG_COLD) h node in
    let* h := st (set_time 0) h node in
    let* h := st (set_access 0) h node in
    Ok (r, h).

(** Unlinking a node with at most one child, [child]. *)
Definition erase_splice (h : heap) (root node child : Z) : res (heap * Z) :=
  let* parent := ld n_parent h node in
  let* color := ld n_color h node in
  let* h := if nonnull child then st (set_parent parent) h child else Ok h in
  let* (h, root) := replace_child h root parent node child in
  if color =? RB_BLACK then rb_erase_fixup h root child parent else Ok (h, root).

(** Putting [succ] in the place of [node]: colour, left subtree, parent. *)
Definition erase_replace (h : heap) (root node succ : Z) : res (heap * Z) :=
  let* nc := ld n_color h node in
  let* h := st (set_color nc) h succ in
  let* nl := ld n_left h node in
  let* h := st (set_left nl) h succ in
  let* nl := ld n_left h node in
  let* h := st (set_parent succ) h nl in
  let* np := ld n_parent h node in
  let* (h, root) := replace_child h root np node succ in
  let* np := ld n_parent h node in
  let* h := st (set_parent np) h succ in
  Ok (h, root).

(** Unlinking a node with two children: its successor takes its place. *)
Definition erase_succ (h : heap) (root node : Z) : res (heap * Z) :=
  let* nr := ld n_right h node in
  let* succ := rb_first h nr in
  let* color := ld n_color h succ in
  let* child := ld n_right h succ in
  let* parent := ld n_parent h succ in
  let* (h, parent) :=
    if parent =? node then Ok (h, succ)
    else
      let* h := if nonnull child then st (set_parent parent) h child else Ok h in
      let* h := st (set_left child) h parent in
      let* nr := ld n_right h node in
      let* h := st (set_right nr) h succ in
      let* nr := ld n_right h node in
      let* h := st (set_parent succ) h nr in
      Ok (h, parent) in
  let* (h, root) := erase_replace h root node succ in
  if color =? RB_BLACK then rb_erase_fixup h root child parent else Ok (h, root).

Definition rb_erase_raw (r : rb_root) (h : heap) (node : Z) : res (rb_root * heap) :=
  if (node =? 0) || (r_node r =? 0) then Ok (r, h)
  else
    let* nl := ld n_left h node in
    let* nr := ld n_right h node in
    let* (h, root) :=
      if nl =? 0 then erase_splice h (r_node r) node nr
      else if nr =? 0 then erase_splice h (r_node r) node nl
      else erase_succ h (r_node r) node in
    rb_erase_update_stats (with_node r root) h node.

Definition rb_clear_hint_if_match (r : rb_root) (node : Z) : rb_root :=
  if r_hint r =? node then with_hint r 0 else r.

Definition rb_erase (r : rb_root) (h : heap) (node : Z) : res (rb_root * heap) :=
  if node =? 0 then Ok (r, h)
  else
    let r := rb_clear_hint_if_match r node in
    let* (r, h) := rb_erase_raw r h node in
    Ok (with_cnt r (u64 (r_cnt r - 1)), h).

(** * Range operations *)

(** [lo_key = NULL] (0) starts at the first node. *)
Definition rb_find_first_ge (cmp : Z -> Z -> Z) (h : heap) (tree lo_key : Z) : res Z :=
  if tree =? 0 then Ok 0
  else if lo_key =? 0 then rb_first h tree
  else loop (walk h) (fun '(tree, start) =>
    if nonnull tree then
      if 0 <=? cmp tree lo_key then
        let start := tree in
        let* l := ld n_left h tree in Ok (inl (l, start))
      else let* r := ld n_right h tree in Ok (inl (r, start))
    else Ok (inr start)) (tree, 0).

(** [hi_key && cmp(cur, hi_key) >= 0] *)
Definition beyond (cmp : Z -> Z -> Z) (hi_key cur : Z) : bool := nonnull hi_key && (0 <=? cmp cur hi_key).

(** The nodes written to [out_nodes]; their number is the result. *)
Definition rb_snapshot_range (cmp : Z -> Z -> Z) (r : rb_root) (h : heap) (lo_key hi_key max_nodes : Z)
  : res (list Z) :=
  if max_nodes =? 0 then Ok []
  else
    let* cur := rb_find_first_ge cmp h (r_node r) lo_key in
    loop (walk h) (fun '(cur, out) =>
      if nonnull cur && (Z.of_nat (length out) <? max_nodes) then
        if beyond cmp hi_key cur then Ok (inr out)
        else let* next := rb_next h cur in Ok (inl (next, out ++ [cur]))
      else Ok (inr out)) (cur, []).

Definition rb_snapshot_by_flag (r : rb_root) (h : heap) (flag_mask : Z) (match_exact : bool) (max_nodes : Z)
  : res (list Z) :=
  if max_nodes =? 0 then Ok []
  else
    let* cur := rb_first h (r_node r) in
    loop (walk h) (fun '(cur, out) =>
      if nonnull cur && (Z.of_nat (length out) <? max_nodes) then
        let* flags := ld n_flags h cur in
        let matches := if match_exact then Z.land flags RB_FLAG_TEMP_MASK =? flag_mask
                       else negb (Z.land flags flag_mask =? 0) in
        let out := if (matches : bool) then out ++ [cur] else out in
        let* next := rb_next h cur in Ok (inl (next, out))
      else Ok (inr out)) (cur, []).

Section Callbacks.
Context {U : Type}.

(** A visit or free callback: it may change the store and the state behind
    [arg]. *)
Definition callback : Type := Z -> heap -> U -> res (heap * U).

Definition call_cb (cb : option callback) (node : Z) (h : heap) (u : U) : res (heap * U) :=
  match cb with
  | Some f => f node h u
  | None => Ok (h, u)
  end.

Definition rb_erase_range (cmp : Z -> Z -> Z) (r : rb_root) (h : heap) (lo_key hi_key : Z)
    (free_cb : option callback) (arg : U) : res (Z * rb_root * heap * U) :=
  let* cur := rb_find_first_ge cmp h (r_node r) lo_key in
  loop (walk h) (fun '(cur, r, h, u, erased) =>
    if nonnull cur then
      if beyond cmp hi_key cur then Ok (inr (erased, r, h, u))
      else
        let* next := rb_next h cur in
        let r := rb_clear_hint_if_match r cur in
        let* (r, h) := rb_erase_raw r h cur in
        let r := with_cnt r (u64 (r_cnt r - 1)) in
        let* (h, u) := call_cb free_cb cur h u in
        Ok (inl (next, r, h, u, erased + 1))
    else Ok (inr (erased, r, h, u))) (cur, r, h, arg, 0).

(** * Post-order traversal *)

Definition rb_reverse_right_chain (h : heap) (head : Z) : res (Z * heap) :=
  loop (walk h) (fun '(h, prev, head) =>
    if nonnull head then
      let* next := ld n_right h head in
      let* h := st (set_right prev) h head in
      Ok (inl (h, head, next))
    else Ok (inr (prev, h))) (h, 0, head).

(** [while (tmp) { cb(tmp, arg); tmp = tmp->right; }] *)
Definition visit_chain (cb : callback) (h : heap) (tmp : Z) (u : U) : res (heap * U) :=
  loop (walk h) (fun '(h, tmp, u) =>
    if nonnull tmp then
      let* (h, u) := cb tmp h u in
      let* next := ld n_right h tmp in
      Ok (inl (h, next, u))
    else Ok (inr (h, u))) (h, tmp, u).

(** [while (prev->right && prev->right != cur) prev = prev->right;] *)
Definition morris_pred (h : heap) (cur prev : Z) : res Z :=
  loop (walk h) (fun prev =>
    let* pr := ld n_right h prev in
    if nonnull pr && negb (pr =? cur) then Ok (inl pr) else Ok (inr prev)) prev.

Definition morris_round (cb : callback) (h : heap) (cur : Z) (u : U) : res (heap * Z * U) :=
  let* l := ld n_left h cur in
  if l =? 0 then let* r := ld n_right h cur in Ok (h, r, u)
  else
    let* prev := morris_pred h cur l in
    let* pr := ld n_right h prev in
    if pr =? 0 then
      let* h := st (set_right cur) h prev in
      let* l := ld n_left h cur in Ok (h, l, u)
    else
      let* h := st (set_right 0) h prev in
      let* l := ld n_left h cur in
      let* (reversed, h) := rb_reverse_right_chain h l in
      let* (h, u) := visit_chain cb h reversed u in
      let* (_, h) := rb_reverse_right_chain h reversed in
      let* r := ld n_right h cur in Ok (h, r, u).

(** [dump] is the address of the local node; it leaves the store on return. *)
Definition rb_postorder_iter (dump : Z) (r : rb_root) (h : heap) (cb : callback) (arg : U) : res (heap * U) :=
  if r_node r =? 0 then Ok (h, arg)
  else
    let h := <[dump := RbNode 0 (r_node r) 0 0 0 0 0]> h in
    let* h := st (set_parent dump) h (r_node r) in
    let* (h, u) := loop (walk h) (fun '(h, cur, u) =>
      if nonnull cur then let* s := morris_round cb h cur u in Ok (inl s)
      else Ok (inr (h, u))) (h, dump, arg) in
    let* h := if nonnull (r_node r) then st (set_parent 0) h (r_node r) else Ok h in
    Ok (delete dump h, u).

Definition rb_clear (dump : Z) (r : rb_root) (h : heap) (free_cb : callback) (arg : U)
  : res (rb_root * heap * U) :=
  let* (h, u) := rb_postorder_iter dump r h free_cb arg in
  Ok (with_stats (with_cnt (with_hint (with_node r 0) 0) 0) 0 0 0 0, h, u).
End Callbacks.
Arguments callback : clear implicits.

(** * Statistics reports *)

Record rb_stats : Type := RbStats { total : Z; cold : Z; warm : Z; hot : Z; pinned : Z }.

Definition rb_get_stats (r : rb_root) : rb_stats :=
  RbStats (r_cnt r) (r_cold r) (r_warm r) (r_hot r) (r_pinned r).

(** * Sharded trees *)

Definition rb_hash_u64 (key : Z) : Z :=
  let val := u64 key in
  let val := u64 (Z.lxor val (Z.shiftr val 30) * 13787848793156543929) in   (* 0xbf58476d1ce4e5b9 *)
  let val := u64 (Z.lxor val (Z.shiftr val 27) * 10723151780598845931) in   (* 0x94d049bb133111eb *)
  let val := Z.lxor val (Z.shiftr val 31) in
  u32 val.

(** The eight bytes of the pointer, least significant first. *)
Definition rb_default_hash (key : Z) : Z :=
  let val := u64 key in
  foldl (fun hash i => u32 (Z.lxor hash (u8 (Z.shiftr val (8 * i))) * 16777619)) 2166136261
    [0; 1; 2; 3; 4; 5; 6; 7].

Record rb_shard_ops : Type := RbShardOps {
  hash_fn : Z -> Z;
  key_of : Z -> Z;
  shard_cmp : Z -> Z -> Z
}.

(** [shards] is the array of roots, each with its [lock_ctx]; [None] is NULL. *)
Record rb_sharded_root : Type := RbSharded {
  shard_mask : Z;
  shard_num : Z;
  shards : option (list (rb_root * Z));
  ops : option rb_shard_ops
}.

(** [alloc_lock(i)] is NULL (0) on failure; [mem_ok] is the outcome of
    [mem_alloc].  The second component lists the contexts given to [free_lock]. *)
Fixpoint init_shards (alloc_lock : option (Z -> Z)) (i : Z) (n : nat) (acc : list (rb_root * Z))
  : option (list (rb_root * Z)) * list Z :=
  match n with
  | O => (Some acc, [])
  | S n' =>
      let ctx := match alloc_lock with Some f => f i | None => 0 end in
      match alloc_lock with
      | Some _ =>
          if ctx =? 0 then (None, acc.*2)
          else init_shards alloc_lock (i + 1) n' (acc ++ [(rb_root_init, ctx)])
      | None => init_shards alloc_lock (i + 1) n' (acc ++ [(rb_root_init, ctx)])
      end
  end.

(** The sharded root stays as it was ([old]) where the C function returns before
    writing to it. *)
Definition rb_sharded_init (old : rb_sharded_root) (num : Z) (o : rb_shard_ops) (alloc_lock : option (Z -> Z))
    (mem_ok : bool) : bool * rb_sharded_root * list Z :=
  if (num =? 0) || negb (Z.land num (u32 (num - 1)) =? 0) then (false, old, [])
  else if negb mem_ok then (false, RbSharded (num - 1) num None (ops old), [])
  else
    match init_shards alloc_lock 0 (Z.to_nat num) [] with
    | (Some rs, _) => (true, RbSharded (num - 1) num (Some rs) (Some o), [])
    | (None, freed) => (false, RbSharded (num - 1) num None (Some o), freed)
    end.

(** The index of the shard of a key. *)
Definition rb_get_shard (s : rb_sharded_root) (key : Z) : option Z :=
  match ops s with
  | Some o => if shard_num s =? 0 then None else Some (Z.land (hash_fn o key) (shard_mask s))
  | None => None
  end.

(** [shards[i]]; outside the array, or with no array, a fault. *)
Definition shard_at (s : rb_sharded_root) (i : Z) : res (rb_root * Z) :=
  match shards s with
  | Some rs => get rs i
  | None => Fault
  end.

Definition shard_put (s : rb_sharded_root) (i : Z) (r : rb_root) : res rb_sharded_root :=
  match shards s with
  | Some rs =>
      let* (_, ctx) := get rs i in
      let* rs := put rs i (r, ctx) in
      Ok (RbSharded (shard_mask s) (shard_num s) (Some rs) (ops s))
  | None => Fault
  end.

Definition rb_sharded_insert (s : rb_sharded_root) (h : heap) (node : Z) : res (rb_sharded_root * heap) :=
  match ops s with
  | Some o =>
      if node =? 0 then Ok (s, h)
      else
        match rb_get_shard s (key_of o node) with
        | Some i =>
            let* (r, _) := shard_at s i in
            let* (r, h) := rb_insert (shard_cmp o) r h node in
            let* s := shard_put s i r in Ok (s, h)
        | None => Ok (s, h)
        end
  | None => Ok (s, h)
  end.

Definition rb_sharded_search (s : rb_sharded_root) (h : heap) (key_node : Z)
  : res (Z * rb_sharded_root * heap) :=
  match ops s with
  | Some o =>
      if key_node =? 0 then Ok (0, s, h)
      else
        match rb_get_shard s (key_of o key_node) with
        | Some i =>
            let* (r, _) := shard_at s i in
            let* (x, r, h) := rb_search (shard_cmp o) r h key_node in
            let* s := shard_put s i r in Ok (x, s, h)
        | None => Ok (0, s, h)
        end
  | None => Ok (0, s, h)
  end.

Definition rb_sharded_erase (s : rb_sharded_root) (h : heap) (node : Z) : res (rb_sharded_root * heap) :=
  match ops s with
  | Some o =>
      if node =? 0 then Ok (s, h)
      else
        match rb_get_shard s (key_of o node) with
        | Some i =>
            let* (r, _) := shard_at s i in
            let* (r, h) := rb_erase r h node in
            let* s := shard_put s i r in Ok (s, h)
        | None => Ok (s, h)
        end
  | None => Ok (s, h)
  end.

Definition rb_sharded_erase_range {U} (s : rb_sharded_root) (h : heap) (lo_key hi_key : Z)
    (free_cb : option (callback U)) (arg : U) : res (Z * rb_sharded_root * heap * U) :=
  match ops s with
  | Some o =>
      for_up (Z.to_nat (shard_num s)) 0 (fun i '(total_erased, s, h, u) =>
        let* (r, _) := shard_at s i in
        let* (erased, r, h, u) := rb_erase_range (shard_cmp o) r h lo_key hi_key free_cb u in
        let* s := shard_put s i r in
        Ok (u64 (total_erased + erased), s, h, u)) (0, s, h, arg)
  | None => Ok (0, s, h, arg)
  end.

Definition rb_sharded_get_stats (s : rb_sharded_root) : res rb_stats :=
  for_up (Z.to_nat (shard_num s)) 0 (fun i stats =>
    let* (r, _) := shard_at s i in
    let tmp := rb_get_stats r in
    Ok (RbStats (u64 (total stats + total tmp)) (u64 (cold stats + cold tmp)) (u64 (warm stats + warm tmp))
          (u64 (hot stats + hot tmp)) (u64 (pinned stats + pinned tmp)))) (RbStats 0 0 0 0 0).

Definition rb_sharded_snapshot_range (s : rb_sharded_root) (h : heap) (lo_key hi_key max_nodes : Z)
  : res (list Z) :=
  match ops s with
  | Some o =>
      if max_nodes =? 0 then Ok []
      else
        for_up (Z.to_nat (shard_num s)) 0 (fun i out =>
          if Z.of_nat (length out) <? max_nodes then
            let* (r, _) := shard_at s i in
            let* part := rb_snapshot_range (shard_cmp o) r h lo_key hi_key
                           (max_nodes - Z.of_nat (length out)) in
            Ok (out ++ part)
          else Ok out) []
  | None => Ok []
  end.

(** Clears every shard; the second list is what [free_lock] received. *)
Definition rb_sharded_clear {U} (dump : Z) (s : rb_sharded_root) (h : heap) (free_cb : callback U) (arg : U)
  : res (rb_sharded_root * heap * U * list Z) :=
  match shards s with
  | None => Ok (s, h, arg, [])
  | Some _ =>
      let* (s, h, u, freed) :=
        for_up (Z.to_nat (shard_num s)) 0 (fun i '(s, h, u, freed) =>
          let* (r, ctx) := shard_at s i in
          let* (r, h, u) := rb_clear dump r h free_cb u in
          let* s := shard_put s i r in
          Ok (s, h, u, freed ++ [ctx])) (s, h, arg, []) in
      Ok (RbSharded 0 0 None None, h, u, freed)
  end.

(** * Validation *)

Fixpoint rb_validate_full_helper (fuel : nat) (cmp : Z -> Z -> Z) (h : heap) (n lo hi depth : Z) : res Z :=
  match fuel with
  | O => OutOfFuel
  | S fuel =>
      if n =? 0 then Ok 1
      else if 4096 <? depth then Ok (-1)
      else if nonnull lo && (cmp n lo <? 0) then Ok 0
      else if nonnull hi && (0 <=? cmp n hi) then Ok 0
      else
        let* c := ld n_color h n in
        let* l := ld n_left h n in
        let* r := ld n_right h n in
        let* bad :=
          if c =? RB_RED then
            let* lr := is_red h l in
            if (lr : bool) then Ok true else is_red h r
          else Ok false in
        if (bad : bool) then Ok 0
        else
          let* lh := rb_validate_full_helper fuel cmp h l lo n (depth + 1) in
          if lh <? 0 then Ok (-1)
          else
            let* rh := rb_validate_full_helper fuel cmp h r n hi (depth + 1) in
            if rh <? 0 then Ok (-1)
            else if (lh =? 0) || (rh =? 0) || negb (lh =? rh) then Ok 0
            else Ok (lh + (if c =? RB_BLACK then 1 else 0))
  end.

Definition rb_validate (cmp : Z -> Z -> Z) (r : rb_root) (h : heap) : res bool :=
  if r_node r =? 0 then Ok true
  else
    let* c := ld n_color h (r_node r) in
    if negb (c =? RB_BLACK) then Ok false
    else
      let* v := rb_validate_full_helper (walk h) cmp h (r_node r) 0 0 0 in
      Ok (0 <? v).
