(* ===== verification/RBRep.v ===== *)
(** The red-black tree in the store: functional trees and their zippers, when a
    store represents them, and what the pointer operations of
    [RBTree] (field reads, recolouring, relinking, rotations) do to the
    represented tree. *)
From stdpp Require Import base gmap list fin_maps.
From Stdlib Require Import ZArith Lia.
From S2P Require Import Prelude RBTree.

Open Scope Z_scope.
Open Scope c_scope.

(** * Trees and zippers *)

(** A tree of node addresses with colours. *)
Inductive tree : Type :=
| E
| N (c : Z) (l : tree) (a : Z) (r : tree).

#[export] Instance tree_eq_dec : EqDecision tree.
Proof. solve_decision. Defined.

(** A step on the way up: [FL] came from the left child, [FR] from the right. *)
Inductive frame : Type :=
| FL (c : Z) (a : Z) (r : tree)
| FR (c : Z) (l : tree) (a : Z).

Definition fill (f : frame) (t : tree) : tree :=
  match f with
  | FL c a r => N c t a r
  | FR c l a => N c l a t
  end.

(** The whole tree around a focus; the innermost frame comes first. *)
Definition plug (p : list frame) (t : tree) : tree := foldl (fun t f => fill f t) t p.

Fixpoint inorder (t : tree) : list Z :=
  match t with
  | E => []
  | N _ l a r => inorder l ++ a :: inorder r
  end.

Fixpoint height (t : tree) : nat :=
  match t with
  | E => O
  | N _ l _ r => S (Nat.max (height l) (height r))
  end.

Lemma height_size t : (height t <= length (inorder t))%nat.
Proof. induction t as [|c l IHl a r IHr]; simpl; rewrite ?length_app; simpl; lia. Qed.

Definition ptr (t : tree) : Z :=
  match t with
  | E => 0
  | N _ _ a _ => a
  end.

Definition faddr (f : frame) : Z :=
  match f with
  | FL _ a _ => a
  | FR _ _ a => a
  end.

Definition pptr (p : list frame) : Z :=
  match p with
  | [] => 0
  | f :: _ => faddr f
  end.

(** The nodes before and after the focus. *)
Fixpoint before (p : list frame) : list Z :=
  match p with
  | [] => []
  | FL _ _ _ :: p => before p
  | FR _ l a :: p => before p ++ inorder l ++ [a]
  end.

Fixpoint after (p : list frame) : list Z :=
  match p with
  | [] => []
  | FL _ a r :: p => a :: inorder r ++ after p
  | FR _ _ _ :: p => after p
  end.

Lemma inorder_plug p t : inorder (plug p t) = before p ++ inorder t ++ after p.
Proof.
  revert t. induction p as [|[c a r|c l a] p IH]; intros t; simpl.
  - now rewrite app_nil_r.
  - rewrite IH. simpl. now rewrite <- !app_assoc.
  - rewrite IH. simpl. now rewrite <- !app_assoc.
Qed.

Lemma plug_app p q t : plug (p ++ q) t = plug q (plug p t).
Proof. apply foldl_app. Qed.

(** * Representation *)

(** The link fields and the colour of a node. *)
Definition links (h : heap) (a p l r c : Z) : Prop :=
  exists n, h !! a = Some n /\ a <> 0 /\ n_parent n = p /\ n_left n = l /\ n_right n = r /\ n_color n = c.

Fixpoint is_tree (h : heap) (p : Z) (t : tree) : Prop :=
  match t with
  | E => True
  | N c l a r => links h a p (ptr l) (ptr r) c /\ is_tree h a l /\ is_tree h a r
  end.

(** The path from a focus at address [x] up to the root pointer. *)
Fixpoint is_path (h : heap) (root : Z) (p : list frame) (x : Z) : Prop :=
  match p with
  | [] => root = x
  | FL c a r :: p => links h a (pptr p) x (ptr r) c /\ is_tree h a r /\ is_path h root p a
  | FR c l a :: p => links h a (pptr p) (ptr l) x c /\ is_tree h a l /\ is_path h root p a
  end.

(** The store holds the tree [t] behind the root pointer. *)
Definition rep (h : heap) (root : Z) (t : tree) : Prop :=
  is_tree h 0 t /\ ptr t = root /\ NoDup (inorder t).

Lemma is_tree_plug h root p t :
  is_tree h 0 (plug p t) /\ ptr (plug p t) = root <-> is_tree h (pptr p) t /\ is_path h root p (ptr t).
Proof.
  revert t. induction p as [|[c a r|c l a] p IH]; intros t; simpl.
  - split; intros [? ?]; split; auto.
  - rewrite IH. simpl. tauto.
  - rewrite IH. simpl. tauto.
Qed.

(** The addresses of a path: its nodes and their other subtrees. *)
Definition path_addrs (p : list frame) : list Z := before p ++ after p.

(** No address occurs twice in a zipper. *)
Definition apart (t : tree) (p : list frame) : Prop :=
  NoDup (inorder t) /\ NoDup (path_addrs p) /\ forall x, x ∈ inorder t -> x ∉ path_addrs p.

Lemma apart_plug t p : NoDup (inorder (plug p t)) <-> apart t p.
Proof.
  rewrite inorder_plug. unfold apart, path_addrs.
  rewrite (Permutation_app_comm (inorder t)), app_assoc, Permutation_app_comm, NoDup_app. tauto.
Qed.

(** A zipper in the store: the focus, its path, and no address twice. *)
Lemma rep_plug h root p t :
  rep h root (plug p t) <-> is_tree h (pptr p) t /\ is_path h root p (ptr t) /\ apart t p.
Proof. unfold rep. rewrite apart_plug. pose proof (is_tree_plug h root p t). tauto. Qed.

(** Moving one step up or down the zipper. *)
Lemma apart_fill f t p : apart (fill f t) p <-> apart t (f :: p).
Proof. now rewrite <- !apart_plug. Qed.

(** Facts on addresses from the absence of duplicates. *)
Ltac addr_facts :=
  unfold apart, path_addrs in *; simpl in *;
  repeat match goal with
  | H : _ /\ _ |- _ => destruct H
  | H : NoDup (_ ++ _) |- _ => apply NoDup_app in H
  | H : NoDup (_ :: _) |- _ => apply NoDup_cons in H
  end.
(** Drops every hypothesis that is not about addresses. *)
Ltac addr_clear :=
  repeat match goal with
  | H : ?P |- _ =>
      lazymatch type of P with Prop =>
        lazymatch P with
        | apart _ _ => fail
        | NoDup _ => fail
        | _ ∈ _ => fail
        | _ ∉ _ => fail
        | forall z, z ∈ _ -> _ => fail
        | _ => clear H
        end
      end
  end.

(** Instantiates the facts at address [x] and decides. *)
Ltac addr_at x :=
  repeat match goal with
  | H : forall z, z ∈ _ -> _ |- _ => specialize (H x)
  end;
  repeat progress rewrite ?elem_of_app, ?elem_of_cons, ?elem_of_nil in *; solve [intuition auto].

Ltac addrs_go :=
  lazymatch goal with
  | |- _ ∉ _ => intros ?; addrs_go
  | |- _ <> _ => intros ->; addrs_go
  | |- forall _, _ => intros ?; addrs_go
  | H : _ ∈ [] |- _ => apply elem_of_nil in H; contradiction
  | H : ?x ∈ [?a] |- _ => apply list_elem_of_singleton in H; subst x; addrs_go
  | H : ?x ∈ _ :: _ |- _ => apply elem_of_cons in H; destruct H as [H|H]; [subst x|]; addrs_go
  | H : ?x ∈ _ ++ _ |- _ => apply elem_of_app in H; destruct H as [H|H]; addrs_go
  | H : ?x ∈ _ |- False => addr_at x
  | |- _ => set_solver
  end.
Ltac addrs := addr_clear; addr_facts; addrs_go.

(** * Reading and recolouring *)

Lemma ld_ok {A} (f : rb_node -> A) h a n : h !! a = Some n -> a <> 0 -> ld f h a = Ok (f n).
Proof. intros Hn Ha. unfold ld. rewrite Hn. now apply Z.eqb_neq in Ha as ->. Qed.

Lemma st_ok f h a n : h !! a = Some n -> a <> 0 -> st f h a = Ok (<[a := f n]> h).
Proof. intros Hn Ha. unfold st. rewrite Hn. now apply Z.eqb_neq in Ha as ->. Qed.

Lemma rep_node h root p c l a r : rep h root (plug p (N c l a r)) -> links h a (pptr p) (ptr l) (ptr r) c.
Proof. rewrite rep_plug. simpl. tauto. Qed.

Section Read.
Context {h : heap} {root : Z} {p : list frame} {c : Z} {l : tree} {a : Z} {r : tree}.
Context (Hrep : rep h root (plug p (N c l a r))).

Lemma rep_nonnull : a <> 0.
Proof. destruct (rep_node _ _ _ _ _ _ _ Hrep) as (n & ? & ? & _). auto. Qed.

Lemma ld_left : ld n_left h a = Ok (ptr l).
Proof. destruct (rep_node _ _ _ _ _ _ _ Hrep) as (n & H & Ha & ? & <- & ? & ?). now apply ld_ok. Qed.

Lemma ld_right : ld n_right h a = Ok (ptr r).
Proof. destruct (rep_node _ _ _ _ _ _ _ Hrep) as (n & H & Ha & ? & ? & <- & ?). now apply ld_ok. Qed.

Lemma ld_parent : ld n_parent h a = Ok (pptr p).
Proof. destruct (rep_node _ _ _ _ _ _ _ Hrep) as (n & H & Ha & <- & ? & ? & ?). now apply ld_ok. Qed.

Lemma ld_color : ld n_color h a = Ok c.
Proof. destruct (rep_node _ _ _ _ _ _ _ Hrep) as (n & H & Ha & ? & ? & ? & <-). now apply ld_ok. Qed.
End Read.

(** The part of a node the tree operations leave alone. *)
Definition data (n : rb_node) : Z * Z * Z := (n_flags n, n_time n, n_count n).

(** Same nodes with the same data. *)
Definition same_data (h h' : heap) : Prop := forall a, data <$> h !! a = data <$> h' !! a.

#[export] Instance same_data_preorder : PreOrder same_data.
Proof. split; [intros h a; reflexivity|]. intros h1 h2 h3 H1 H2 a. now rewrite H1. Qed.

Lemma same_data_insert h a n n' : h !! a = Some n -> data n' = data n -> same_data h (<[a := n']> h).
Proof.
  intros Hn Hd b. destruct (decide (a = b)) as [<-|Hne]; [|now rewrite lookup_insert_ne].
  rewrite lookup_insert_eq, Hn. simpl. now rewrite Hd.
Qed.

Lemma same_data_some h h' a : same_data h h' -> is_Some (h !! a) -> is_Some (h' !! a).
Proof. intros Hs [n Hn]. specialize (Hs a). rewrite Hn in Hs. destruct (h' !! a); [eauto|easy]. Qed.

Lemma same_data_dom h h' : same_data h h' -> dom h = dom h'.
Proof.
  intros Hs. apply set_eq. intros a. rewrite !elem_of_dom.
  split; apply same_data_some; [exact Hs|]. intros b. symmetry. apply Hs.
Qed.

Lemma same_data_size h h' : same_data h h' -> size h = size h'.
Proof. intros Hs. rewrite <- !size_dom. now rewrite (same_data_dom h h'). Qed.

Lemma same_data_walk h h' : same_data h h' -> walk h = walk h'.
Proof. intros Hs. unfold walk. now rewrite (same_data_size h h'). Qed.

(** The store [h] holds [t] and the nodes and data of [h0]. *)
Definition repd (h0 h : heap) (root : Z) (t : tree) : Prop := rep h root t /\ same_data h0 h.


(** ** Single stores *)

(** [h'] differs from [h] at most at the nodes [S]; in [touches], only in their
    links and colours. *)
Definition outside (S : list Z) (h h' : heap) : Prop := forall x, x ∉ S -> h' !! x = h !! x.
Definition touches (S : list Z) (h h' : heap) : Prop := same_data h h' /\ outside S h h'.

Lemma links_frame S h h' b p l r c : outside S h h' -> b ∉ S -> links h b p l r c -> links h' b p l r c.
Proof. intros Ht Hne (n & Hn & H). exists n. rewrite Ht by auto. auto. Qed.

Lemma tree_frame S h h' p t : outside S h h' -> (forall x, x ∈ inorder t -> x ∉ S) -> is_tree h p t -> is_tree h' p t.
Proof.
  intros Ht. revert p. induction t as [|c l IHl x r IHr]; intros p Hx; simpl in *; [easy|].
  intros (H1 & H2 & H3). split; [apply (links_frame S h); [auto|set_solver|auto]|].
  split; [apply IHl|apply IHr]; auto; set_solver.
Qed.

Lemma path_frame S h h' root p x : outside S h h' -> (forall y, y ∈ path_addrs p -> y ∉ S) -> is_path h root p x -> is_path h' root p x.
Proof.
  intros Ht. revert x. induction p as [|[c b r|c l b] p IH]; intros x; simpl; [easy| |];
    intros Hx (H1 & H2 & H3);
    (split; [apply (links_frame S h); [auto|addrs|auto]|
     split; [apply (tree_frame S h); [auto|addrs|auto]|apply IH; [addrs|auto]]]).
Qed.

Lemma st_links f h a p l r c : (forall n, data (f n) = data n) -> links h a p l r c ->
  exists h' n, st f h a = Ok h' /\ touches [a] h h' /\ h' !! a = Some (f n) /\ a <> 0 /\
    n_parent n = p /\ n_left n = l /\ n_right n = r /\ n_color n = c.
Proof.
  intros Hf (n & Hn & Ha & H). eexists _, n. rewrite (st_ok _ _ _ _ Hn Ha).
  split; [reflexivity|]. split; [|rewrite lookup_insert_eq; auto]. split; [now apply same_data_insert with n|].
  intros x Hx. apply lookup_insert_ne. set_solver.
Qed.

(** A larger set of touched nodes. *)
Lemma touches_sub S S' h h' : touches S h h' -> (forall x, x ∈ S -> x ∈ S') -> touches S' h h'.
Proof. intros [Hd Ht] HS. split; [exact Hd|]. intros x Hx. apply Ht. auto. Qed.

Ltac st_field :=
  intros H; edestruct st_links as (h' & n & E & T & Hn & Ha & Hs); [|exact H|];
  [|exists h'; split; [exact E|]; split; [exact T|]; destruct Hs as (H1 & H2 & H3 & H4); eexists; split; [exact Hn|]; simpl; auto]; reflexivity.

Lemma st_parent v h a p l r c : links h a p l r c ->
  exists h', st (set_parent v) h a = Ok h' /\ touches [a] h h' /\ links h' a v l r c.
Proof. st_field. Qed.

Lemma st_left v h a p l r c : links h a p l r c ->
  exists h', st (set_left v) h a = Ok h' /\ touches [a] h h' /\ links h' a p v r c.
Proof. st_field. Qed.

Lemma st_right v h a p l r c : links h a p l r c ->
  exists h', st (set_right v) h a = Ok h' /\ touches [a] h h' /\ links h' a p l v c.
Proof. st_field. Qed.

Lemma st_color v h a p l r c : links h a p l r c ->
  exists h', st (set_color v) h a = Ok h' /\ touches [a] h h' /\ links h' a p l r v.
Proof. st_field. Qed.

Lemma ld_links h a p l r c : links h a p l r c ->
  ld n_parent h a = Ok p /\ ld n_left h a = Ok l /\ ld n_right h a = Ok r /\ ld n_color h a = Ok c /\ a <> 0.
Proof. intros (n & Hn & Ha & <- & <- & <- & <-). rewrite !(ld_ok _ _ _ _ Hn Ha). auto. Qed.

(** Carries every fact on the store over a single store to node [a]. *)
Ltac frame_over O :=
  match type of O with
  | outside ?S ?h ?h' =>
    repeat match goal with
    | H : links h _ _ _ _ _ |- _ => apply (links_frame S h h' _ _ _ _ _ O) in H; [|solve [addrs]]
    | H : is_tree h _ _ |- _ => apply (tree_frame S h h' _ _ O) in H; [|solve [addrs]]
    | H : is_path h _ _ _ |- _ => apply (path_frame S h h' _ _ _ O) in H; [|solve [addrs]]
    end
  end.

Ltac frame T := let O := fresh in pose proof (proj2 T) as O; frame_over O; clear O.

Lemma touches_data h0 S h h' : same_data h0 h -> touches S h h' -> same_data h0 h'.
Proof. intros Hd [Ht _]. now transitivity h. Qed.

Lemma set_color_rep c' h0 h root p c l a r : repd h0 h root (plug p (N c l a r)) ->
  wp (st (set_color c') h a) (fun h' => repd h0 h' root (plug p (N c' l a r))).
Proof.
  intros [Hr Hd]. apply rep_plug in Hr as ((Ha & Hl & Ht) & Hp & Hnd).
  destruct (st_color c' _ _ _ _ _ _ Ha) as (h' & E & T & Ha'). clear Ha. rewrite E. simpl.
  split; [|eauto using touches_data]. frame T. apply rep_plug. simpl. auto.
Qed.

(** ** Hanging a subtree under another parent *)

Lemma reparent_ok h p q t : is_tree h p t -> NoDup (inorder t) ->
  exists h', (if nonnull (ptr t) then st (set_parent q) h (ptr t) else Ok h) = Ok h' /\
    touches (inorder t) h h' /\ is_tree h' q t.
Proof.
  unfold nonnull. destruct t as [|c l a r]; simpl.
  - intros _ _. exists h. split; [reflexivity|]. split; [split; [reflexivity|easy]|exact I].
  - intros (Ha & Hl & Hr) Hnd. destruct (st_parent q _ _ _ _ _ _ Ha) as (h' & E & T & Ha').
    destruct (ld_links _ _ _ _ _ _ Ha) as (_ & _ & _ & _ & Hne). clear Ha.
    apply Z.eqb_neq in Hne as ->. exists h'. split; [exact E|].
    split; [apply (touches_sub [a]); [exact T|set_solver]|]. frame T. auto.
Qed.

(** ** Redirecting the link to the focus *)

(** The store to the child field of the last node of the path. *)
Lemma set_link_ok h root f p x y : is_path h root (f :: p) x -> NoDup (path_addrs (f :: p)) ->
  exists h', st (match f with FL _ _ _ => set_left y | FR _ _ _ => set_right y end) h (faddr f) = Ok h' /\
    touches [faddr f] h h' /\ is_path h' root (f :: p) y.
Proof.
  destruct f as [c a r|c l a]; simpl; intros (Ha & Ht & Hp) Hnd;
    [destruct (st_left y _ _ _ _ _ _ Ha) as (h' & E & T & Ha')|destruct (st_right y _ _ _ _ _ _ Ha) as (h' & E & T & Ha')];
    clear Ha; frame T; exists h'; auto 6.
Qed.

Lemma replace_child_ok h root p x y t :
  is_path h root p x -> x = ptr t -> x <> 0 -> apart t p ->
  exists h' root', replace_child h root (pptr p) x y = Ok (h', root') /\
    replace_child_r h root (pptr p) x y = Ok (h', root') /\
    touches (path_addrs p) h h' /\ is_path h' root' p y.
Proof.
  intros Hp Hx Hx0 Hnd. unfold replace_child, replace_child_r, nonnull. destruct p as [|f p].
  { exists h, y. repeat split; auto. }
  assert (Hin : x ∈ inorder t) by (destruct t; simpl in *; [lia|subst; set_solver]).
  assert (Hout : x ∉ path_addrs (f :: p)) by (destruct Hnd as (_ & _ & Hd); auto).
  assert (Hne : forall t', (forall z, z ∈ inorder t' -> z ∈ path_addrs (f :: p)) -> (x =? ptr t') = false).
  { intros [|c' l' a' r'] Hz; simpl in *; apply Z.eqb_neq; [exact Hx0|].
    intros E. apply Hout, Hz. rewrite E. simpl. set_solver. }
  destruct (set_link_ok h root f p x y Hp) as (h' & E & T & Hp'); [apply Hnd|].
  exists h', root. assert (T' : touches (path_addrs (f :: p)) h h').
  { apply (touches_sub [faddr f]); [exact T|]. unfold path_addrs. destruct f; simpl; set_solver. }
  destruct f as [c a r|c l a]; simpl in *; destruct Hp as (Ha & Ht & _);
    destruct (ld_links _ _ _ _ _ _ Ha) as (_ & -> & -> & _ & Ha0); apply Z.eqb_neq in Ha0 as ->;
    simpl; rewrite E, Z.eqb_refl; simpl;
    rewrite Hne by (unfold path_addrs; simpl; set_solver); auto.
Qed.

(** * Rotations *)

(** Appends to the right. *)
Ltac flat_app := repeat progress (simpl in *; rewrite <- ?app_assoc in *).

(** Runs the loads of a node whose links are [L]. *)
Ltac rd L :=
  let E1 := fresh in let E2 := fresh in let E3 := fresh in let E4 := fresh in let E5 := fresh in
  destruct (ld_links _ _ _ _ _ _ L) as (E1 & E2 & E3 & E4 & E5);
  rewrite ?E1, ?E2, ?E3, ?E4; cbn [bind]; clear E1 E2 E3 E4 E5.

(** Runs the store that [E] describes, framing the other facts over it. *)
Ltac ran E T :=
  rewrite E; cbn [bind]; clear E; frame T;
  match goal with D : same_data _ _ |- _ => apply (touches_data _ _ _ _ D) in T; clear D; rename T into D end.

(** Runs a store to the node whose links are [L]. *)
Ltac wr lem L :=
  let h' := fresh "h" in let E := fresh "E" in let T := fresh "T" in let L' := fresh L in
  destruct (lem _ _ _ _ _ _ L) as (h' & E & T & L'); clear L; ran E T; rename L' into L.

Lemma rotate_left_rep h0 h root p c tl a c2 tm b tr :
  repd h0 h root (plug p (N c tl a (N c2 tm b tr))) ->
  wp (rb_rotate_left h root a) (fun '(h', root') => repd h0 h' root' (plug p (N c2 (N c tl a tm) b tr))).
Proof.
  intros [Hr Hd]. apply rep_plug in Hr as ((La & Tl & Lb & Tm & Tr) & Hp & Hnd). unfold rb_rotate_left.
  rd La. cbn [ptr]. rd Lb. wr (st_right (ptr tm)) La. rd Lb.
  destruct (reparent_ok h1 b a tm Tm) as (h2 & E & T & Tm'); [addrs|]. clear Tm. ran E T.
  rd La. wr (st_parent (pptr p)) Lb. rd La.
  destruct (replace_child_ok _ root p a b (N c tl a (N c2 tm b tr)) Hp) as (h4 & root' & E & _ & T & Hp'); [easy| |easy|].
  { destruct La as (? & ? & ? & ?). auto. }
  clear Hp. ran E T. wr (st_left a) Lb. wr (st_parent b) La.
  simpl. split; [|exact Hd]. apply rep_plug. apply apart_plug in Hnd. rewrite <- apart_plug.
  rewrite inorder_plug in *. flat_app. tauto.
Qed.

Lemma rotate_right_rep h0 h root p c tr a c2 tl b tm :
  repd h0 h root (plug p (N c (N c2 tl b tm) a tr)) ->
  wp (rb_rotate_right h root a) (fun '(h', root') => repd h0 h' root' (plug p (N c2 tl b (N c tm a tr)))).
Proof.
  intros [Hr Hd]. apply rep_plug in Hr as ((La & (Lb & Tl & Tm) & Tr) & Hp & Hnd). unfold rb_rotate_right.
  rd La. cbn [ptr]. rd Lb. wr (st_left (ptr tm)) La. rd Lb.
  destruct (reparent_ok h1 b a tm Tm) as (h2 & E & T & Tm'); [addrs|]. clear Tm. ran E T.
  rd La. wr (st_parent (pptr p)) Lb. rd La.
  destruct (replace_child_ok _ root p a b (N c (N c2 tl b tm) a tr) Hp) as (h4 & root' & _ & E & T & Hp'); [easy| |easy|].
  { destruct La as (? & ? & ? & ?). auto. }
  clear Hp. ran E T. wr (st_right a) Lb. wr (st_parent b) La.
  simpl. split; [|exact Hd]. apply rep_plug. apply apart_plug in Hnd. rewrite <- apart_plug.
  rewrite inorder_plug in *. flat_app. tauto.
Qed.
