(* ===== verification/RBInsert.v ===== *)
(** Insertion into the red-black tree: the invariants of the tree and of a
    position in it, and that [insert_fixup] and [rb_insert] restore them and
    insert in order. *)
From stdpp Require Import base gmap list fin_maps.
From Stdlib Require Import ZArith Lia Sorting.Sorted.
From S2P Require Import Prelude RBTree RBRep.

Open Scope Z_scope.
Open Scope c_scope.

(** * The colour invariants *)

(** [rbt t c n]: [t] has root colour [c] (the empty tree is black), no red node
    has a red child, and every path down passes [n] black nodes. *)
Inductive rbt : tree -> Z -> nat -> Prop :=
| rbt_E : rbt E RB_BLACK 0
| rbt_R l a r n : rbt l RB_BLACK n -> rbt r RB_BLACK n -> rbt (N RB_RED l a r) RB_RED n
| rbt_B l a r n cl cr : rbt l cl n -> rbt r cr n -> rbt (N RB_BLACK l a r) RB_BLACK (S n).

(** [ctx p c n]: a tree with [n] black nodes on every path fits at [p], whose
    last node has colour [c]; the root position counts as below a red node,
    since the root must be black. *)
Inductive ctx : list frame -> Z -> nat -> Prop :=
| ctx_nil n : ctx [] RB_RED n
| ctx_FB a r n p c cr : rbt r cr n -> ctx p c (S n) -> ctx (FL RB_BLACK a r :: p) RB_BLACK n
| ctx_BF l a n p c cl : rbt l cl n -> ctx p c (S n) -> ctx (FR RB_BLACK l a :: p) RB_BLACK n
| ctx_FR a r n p : rbt r RB_BLACK n -> ctx p RB_BLACK n -> ctx (FL RB_RED a r :: p) RB_RED n
| ctx_RF l a n p : rbt l RB_BLACK n -> ctx p RB_BLACK n -> ctx (FR RB_RED l a :: p) RB_RED n.

#[export] Hint Constructors rbt ctx : rbdb.

(** A red-black tree: its root is black. *)
Definition red_black (t : tree) : Prop := exists n, rbt t RB_BLACK n.

(** A subtree that fits makes a red-black tree. *)
Lemma plug_rbt p t c c' n : ctx p c n -> rbt t c' n -> (c = RB_RED -> c' = RB_BLACK) -> red_black (plug p t).
Proof.
  intros Hp. revert t c'. induction Hp as [n|a r n p c cr Hr Hp IH|l a n p c cl Hl Hp IH|a r n p Hr Hp IH|l a n p Hl Hp IH];
    intros t c' Ht Hc; simpl.
  - exists n. now rewrite <- Hc.
  - eapply IH; [econstructor; eauto|auto].
  - eapply IH; [econstructor; eauto|auto].
  - rewrite Hc in Ht by auto. eapply IH; [constructor; eauto|easy].
  - rewrite Hc in Ht by auto. eapply IH; [constructor; eauto|easy].
Qed.

(** The position a red-black tree gives to each of its subtrees. *)
Lemma red_black_focus p t : red_black (plug p t) ->
  exists c c' n, ctx p c n /\ rbt t c' n /\ (c = RB_RED -> c' = RB_BLACK).
Proof.
  revert t. induction p as [|f p IH]; intros t H.
  { destruct H as [n Hn]. exists RB_RED, RB_BLACK, n. eauto with rbdb. }
  simpl in H. apply IH in H as (c & c' & n & Hp & Ht & Hc).
  destruct f as [cf a r|cf l a]; simpl in Ht; inversion Ht; subst.
  - destruct (decide (c = RB_RED)) as [->|Hne]; [now specialize (Hc eq_refl)|].
    assert (c = RB_BLACK) by (inversion Hp; subst; easy). subst.
    eexists RB_RED, _, _. eauto with rbdb.
  - eexists RB_BLACK, _, _. split; [eauto with rbdb|]. split; [eauto|easy].
  - destruct (decide (c = RB_RED)) as [->|Hne]; [now specialize (Hc eq_refl)|].
    assert (c = RB_BLACK) by (inversion Hp; subst; easy). subst.
    eexists RB_RED, _, _. eauto with rbdb.
  - eexists RB_BLACK, _, _. split; [eauto with rbdb|]. split; [eauto|easy].
Qed.

(** * Positions in the store *)

Lemma ptr_in t : t <> E -> ptr t ∈ inorder t.
Proof. destruct t; [easy|]. simpl. set_solver. Qed.

Lemma plug_cons_ptr f p t : ptr (plug (f :: p) t) ∈ path_addrs (f :: p).
Proof.
  revert f t. induction p as [|g p IH]; intros f t.
  - destruct f; simpl; unfold path_addrs; simpl; set_solver.
  - specialize (IH g (fill f t)). change (plug (f :: g :: p) t) with (plug (g :: p) (fill f t)).
    revert IH. generalize (ptr (plug (g :: p) (fill f t))). intros x. unfold path_addrs.
    destruct f; simpl; set_solver.
Qed.

Lemma rep_addr h root t x : rep h root t -> x ∈ inorder t -> x <> 0.
Proof.
  intros (Ht & _ & _). revert Ht. generalize 0 at 1. induction t as [|c l IHl a r IHr]; intros p; simpl; [set_solver|].
  intros ((n & Hn & Ha & _) & Hl & Hr). rewrite elem_of_app, elem_of_cons. naive_solver.
Qed.

Lemma ptr_nonnull h root p t : rep h root (plug p t) -> t <> E -> ptr t <> 0.
Proof.
  intros Hr Ht. apply (rep_addr _ _ _ _ Hr). rewrite inorder_plug, !elem_of_app. auto using ptr_in.
Qed.

Lemma path_nonnull h root p t x : rep h root (plug p t) -> x ∈ path_addrs p -> x <> 0.
Proof.
  intros Hr Hx. apply (rep_addr _ _ _ _ Hr). rewrite inorder_plug. unfold path_addrs in Hx. set_solver.
Qed.

(** A focus differs from every address of its path. *)
Lemma focus_ne h root p t x : rep h root (plug p t) -> x ∈ path_addrs p -> (ptr t =? x) = false.
Proof.
  intros Hr Hx. apply Z.eqb_neq. intros Heq. pose proof (path_nonnull _ _ _ _ _ Hr Hx) as Hx0.
  destruct Hr as (_ & _ & Hnd). apply apart_plug in Hnd as (_ & _ & Hd).
  destruct (decide (t = E)) as [->|Hne]; [simpl in Heq; lia|]. apply (Hd x); [|exact Hx].
  rewrite <- Heq. now apply ptr_in.
Qed.

Lemma focus_not_root h root f p t : rep h root (plug (f :: p) t) -> (ptr t =? root) = false.
Proof.
  intros Hr. apply (focus_ne _ _ _ _ _ Hr). rewrite <- (proj1 (proj2 Hr)). apply plug_cons_ptr.
Qed.

(** A focus is not its sibling, unless both are empty. *)
Lemma focus_ne_left h root c l a p t : rep h root (plug (FR c l a :: p) t) -> l <> E -> (ptr t =? ptr l) = false.
Proof.
  intros Hr Hl. apply (focus_ne _ _ _ _ _ Hr). unfold path_addrs. simpl. pose proof (ptr_in l Hl). set_solver.
Qed.

Lemma focus_ne_right h root c r a p t : rep h root (plug (FL c a r :: p) t) -> r <> E -> (ptr t =? ptr r) = false.
Proof.
  intros Hr Hl. apply (focus_ne _ _ _ _ _ Hr). unfold path_addrs. simpl. pose proof (ptr_in r Hl). set_solver.
Qed.

Lemma ptr_ne_left h root c l a p t : rep h root (plug (FR c l a :: p) t) -> t <> E -> (ptr t =? ptr l) = false.
Proof.
  intros Hr Ht. destruct (decide (l = E)) as [->|Hl]; [|now apply (focus_ne_left _ _ _ _ _ _ _ Hr)].
  simpl. apply Z.eqb_neq. now apply (ptr_nonnull _ _ _ _ Hr).
Qed.

Lemma ptr_ne_right h root c r a p t : rep h root (plug (FL c a r :: p) t) -> t <> E -> (ptr t =? ptr r) = false.
Proof.
  intros Hr Ht. destruct (decide (r = E)) as [->|Hl]; [|now apply (focus_ne_right _ _ _ _ _ _ _ Hr)].
  simpl. apply Z.eqb_neq. now apply (ptr_nonnull _ _ _ _ Hr).
Qed.

(** Colour tests on a subtree. *)
Definition color_of (t : tree) : Z :=
  match t with
  | E => RB_BLACK
  | N c _ _ _ => c
  end.

Lemma rbt_color t c n : rbt t c n -> color_of t = c.
Proof. now destruct 1. Qed.

Lemma rbt_black t c n : rbt t c n -> (color_of t =? RB_RED) = false -> rbt t RB_BLACK n.
Proof. destruct 1; simpl; [constructor|easy|]. econstructor; eauto. Qed.

Lemma is_red_ok h root p t : rep h root (plug p t) -> is_red h (ptr t) = Ok (color_of t =? RB_RED).
Proof.
  intros Hr. unfold is_red, nonnull. destruct t as [|c l a r]; [reflexivity|].
  pose proof (ptr_nonnull _ _ _ _ Hr ltac:(easy)) as Ha. simpl in *. apply Z.eqb_neq in Ha as ->. simpl.
  now rewrite (ld_color Hr).
Qed.

Lemma is_black_ok h root p t : rep h root (plug p t) -> is_black h (ptr t) = Ok (color_of t =? RB_BLACK).
Proof.
  intros Hr. unfold is_black, nonnull. destruct t as [|c l a r]; [reflexivity|].
  pose proof (ptr_nonnull _ _ _ _ Hr ltac:(easy)) as Ha. simpl in *. apply Z.eqb_neq in Ha as ->. simpl.
  now rewrite (ld_color Hr).
Qed.

(** * The rebalancing loop *)

(** Rotations and recolourings keep the order. *)
Ltac same_order := rewrite ?inorder_plug; flat_app; reflexivity.

(** One recolouring, then the rest of the run. *)
Lemma wp_color {A} (k : heap -> res A) (Q : A -> Prop) c' h0 h root p c l a r :
  repd h0 h root (plug p (N c l a r)) ->
  (forall h', repd h0 h' root (plug p (N c' l a r)) -> wp (k h') Q) ->
  wp (bind (st (set_color c') h a) k) Q.
Proof. intros Hr Hk. apply wp_bind. eapply wp_mono; [apply (set_color_rep c' _ _ _ _ _ _ _ _ Hr)|exact Hk]. Qed.

Lemma wp_rotate_left {A} (k : heap * Z -> res A) (Q : A -> Prop) h0 h root p c tl a c2 tm b tr :
  repd h0 h root (plug p (N c tl a (N c2 tm b tr))) ->
  (forall h' root', repd h0 h' root' (plug p (N c2 (N c tl a tm) b tr)) -> wp (k (h', root')) Q) ->
  wp (bind (rb_rotate_left h root a) k) Q.
Proof.
  intros Hr Hk. apply wp_bind. eapply wp_mono; [apply (rotate_left_rep _ _ _ _ _ _ _ _ _ _ _ Hr)|].
  intros [h' root']. apply Hk.
Qed.

Lemma wp_rotate_right {A} (k : heap * Z -> res A) (Q : A -> Prop) h0 h root p c tr a c2 tl b tm :
  repd h0 h root (plug p (N c (N c2 tl b tm) a tr)) ->
  (forall h' root', repd h0 h' root' (plug p (N c2 tl b (N c tm a tr))) -> wp (k (h', root')) Q) ->
  wp (bind (rb_rotate_right h root a) k) Q.
Proof.
  intros Hr Hk. apply wp_bind. eapply wp_mono; [apply (rotate_right_rep _ _ _ _ _ _ _ _ _ _ _ Hr)|].
  intros [h' root']. apply Hk.
Qed.

(** A red node at [p] over black subtrees is all that may be wrong: its parent
    may be red too, or it may be the root. *)
Definition insert_inv (h0 : heap) (L : list Z) (p : list frame) (s : heap * Z * Z) : Prop :=
  let '(h, root, node) := s in
  exists l r n, repd h0 h root (plug p (N RB_RED l node r)) /\
    rbt l RB_BLACK n /\ rbt r RB_BLACK n /\ (p = [] \/ exists c, ctx p c n) /\
    inorder (plug p (N RB_RED l node r)) = L.

(** What the loop leaves: only the root may still be red. *)
Definition insert_done (h0 : heap) (L : list Z) (s : heap * Z) : Prop :=
  let '(h, root) := s in
  exists c l a r n, repd h0 h root (N c l a r) /\ inorder (N c l a r) = L /\
    rbt (N RB_BLACK l a r) RB_BLACK n.

Lemma plug_nonempty p t : t <> E -> plug p t <> E.
Proof. revert t. induction p as [|[] p IH]; intros t Ht; simpl; [exact Ht|apply IH; easy..]. Qed.

Lemma insert_exit h0 h root p L l a r n :
  repd h0 h root (plug p (N RB_RED l a r)) -> rbt l RB_BLACK n -> rbt r RB_BLACK n ->
  (p = [] \/ ctx p RB_BLACK n) -> inorder (plug p (N RB_RED l a r)) = L -> insert_done h0 L (h, root).
Proof.
  intros Hr Hl Hr' [->|Hp] HL.
  - exists RB_RED, l, a, r, (S n). split; [exact Hr|]. split; [exact HL|]. eauto with rbdb.
  - destruct (plug_rbt p (N RB_RED l a r) RB_BLACK RB_RED n Hp) as [m Hm]; [eauto with rbdb|easy|].
    pose proof (plug_nonempty p (N RB_RED l a r) ltac:(easy)) as Hne.
    destruct (plug p (N RB_RED l a r)) as [|c l' a' r']; [easy|].
    inversion Hm; subst. exists RB_BLACK, l', a', r', (S n0). eauto with rbdb.
Qed.

(** The state after a round. *)
Definition insert_next (h0 : heap) (L : list Z) (p : list frame) (x : heap * Z * Z + heap * Z) : Prop :=
  match x with
  | inl s => exists p', insert_inv h0 L p' s /\ (length p' < length p)%nat
  | inr s => insert_done h0 L s
  end.

(** A red uncle: the colours move one level up. *)
Lemma uncle_red_left h0 h root q g vl va vr tl a tr n c L p :
  repd h0 h root (plug (FL RB_BLACK g (N RB_RED vl va vr) :: q) (N RB_RED tl a tr)) ->
  rbt (N RB_BLACK tl a tr) RB_BLACK (S n) -> rbt (N RB_RED vl va vr) RB_RED n -> ctx q c (S n) ->
  inorder (plug (FL RB_BLACK g (N RB_RED vl va vr) :: q) (N RB_RED tl a tr)) = L -> (length q < length p)%nat ->
  wp (let* h := st (set_color RB_BLACK) h a in
      let* h := st (set_color RB_BLACK) h va in
      let* h := st (set_color RB_RED) h g in
      Ok (inl (h, root, g))) (insert_next h0 L p).
Proof.
  intros Hr Ht Hv Hq <- Hlen. inversion Hv as [|? ? ? ? Hvl Hvr|]; subst.
  apply (wp_color _ _ _ _ _ _ (FL RB_BLACK g (N RB_RED vl va vr) :: q) _ _ _ _ Hr). intros h1 H1.
  apply (wp_color _ _ _ _ _ _ (FR RB_BLACK (N RB_BLACK tl a tr) g :: q) _ _ _ _ H1). intros h2 H2.
  apply (wp_color _ _ _ _ _ _ q _ _ _ _ H2). intros h3 H3.
  exists q. split; [|exact Hlen]. eexists _, _, (S n). split; [exact H3|]. split; [exact Ht|].
  split; [eauto with rbdb|]. split; [eauto|]. same_order.
Qed.

Lemma uncle_red_right h0 h root q g vl va vr tl a tr n c L p :
  repd h0 h root (plug (FR RB_BLACK (N RB_RED vl va vr) g :: q) (N RB_RED tl a tr)) ->
  rbt (N RB_BLACK tl a tr) RB_BLACK (S n) -> rbt (N RB_RED vl va vr) RB_RED n -> ctx q c (S n) ->
  inorder (plug (FR RB_BLACK (N RB_RED vl va vr) g :: q) (N RB_RED tl a tr)) = L -> (length q < length p)%nat ->
  wp (let* h := st (set_color RB_BLACK) h a in
      let* h := st (set_color RB_BLACK) h va in
      let* h := st (set_color RB_RED) h g in
      Ok (inl (h, root, g))) (insert_next h0 L p).
Proof.
  intros Hr Ht Hv Hq <- Hlen. inversion Hv as [|? ? ? ? Hvl Hvr|]; subst.
  apply (wp_color _ _ _ _ _ _ (FR RB_BLACK (N RB_RED vl va vr) g :: q) _ _ _ _ Hr). intros h1 H1.
  apply (wp_color _ _ _ _ _ _ (FL RB_BLACK g (N RB_BLACK tl a tr) :: q) _ _ _ _ H1). intros h2 H2.
  apply (wp_color _ _ _ _ _ _ q _ _ _ _ H2). intros h3 H3.
  exists q. split; [|exact Hlen]. eexists _, _, (S n). split; [exact H3|]. split; [eauto with rbdb|].
  split; [exact Ht|]. split; [eauto|]. same_order.
Qed.

(** Loads that locate the node below its parent and grandparent. *)
Ltac at_focus H p :=
  rewrite ?(ld_left (p:=p) (proj1 H)), ?(ld_right (p:=p) (proj1 H)), ?(ld_parent (p:=p) (proj1 H)),
    ?(ld_color (p:=p) (proj1 H)); cbn [bind ptr pptr faddr].

(** The node is the left child of a red left child. *)
Lemma insert_round_LL h0 h root a u g v q cv l node r n c :
  let p := FL RB_RED a u :: FL RB_BLACK g v :: q in
  repd h0 h root (plug p (N RB_RED l node r)) -> rbt l RB_BLACK n -> rbt r RB_BLACK n ->
  rbt u RB_BLACK n -> rbt v cv n -> ctx q c (S n) ->
  wp (insert_round h root node) (insert_next h0 (inorder (plug p (N RB_RED l node r))) p).
Proof.
  intros p Hr Hl Hr' Hu Hv Hq. subst p. unfold insert_round.
  rewrite (focus_not_root _ _ _ _ _ (proj1 Hr) : (node =? root) = false).
  at_focus Hr (FL RB_RED a u :: FL RB_BLACK g v :: q).
  at_focus Hr (FL RB_BLACK g v :: q). cbn [negb Z.eqb RB_RED].
  at_focus Hr q. rewrite Z.eqb_refl. cbn [bind].
  rewrite (is_red_ok _ _ (FR RB_BLACK (N RB_RED (N RB_RED l node r) a u) g :: q) v (proj1 Hr)). cbn [bind].
  destruct (color_of v =? RB_RED) eqn:Ev.
  { destruct v as [|cv' vl va vr]; [easy|]. simpl in Ev. apply Z.eqb_eq in Ev. subst cv'.
    pose proof (rbt_color _ _ _ Hv) as Ec. simpl in Ec. subst cv.
    eapply (uncle_red_left _ _ _ q); [exact Hr|eauto with rbdb|eauto|eauto|reflexivity|simpl; lia]. }
  at_focus Hr (FL RB_BLACK g v :: q).
  rewrite (ptr_ne_right _ _ _ _ _ _ _ (proj1 Hr) ltac:(easy) : (node =? ptr u) = false). cbn [bind].
  at_focus Hr (FL RB_RED a u :: FL RB_BLACK g v :: q).
  apply (wp_color _ _ _ _ _ _ (FL RB_BLACK g v :: q) _ _ _ _ Hr). intros h1 H1.
  apply (wp_color _ _ _ _ _ _ q _ _ _ _ H1). intros h2 H2.
  apply (wp_rotate_right _ _ _ _ _ _ _ _ _ _ _ _ _ H2). intros h3 root3 H3.
  exists (FL RB_BLACK a (N RB_RED u g v) :: q). split; [|simpl; lia].
  eexists _, _, n. split; [exact H3|]. split; [eauto|]. split; [eauto|].
  split; [right; eexists; econstructor; [eauto using rbt_black with rbdb|eauto]|]. same_order.
Qed.

(** The node is the right child of a red left child. *)
Lemma insert_round_LR h0 h root a u g v q cv l node r n c :
  let p := FR RB_RED u a :: FL RB_BLACK g v :: q in
  repd h0 h root (plug p (N RB_RED l node r)) -> rbt l RB_BLACK n -> rbt r RB_BLACK n ->
  rbt u RB_BLACK n -> rbt v cv n -> ctx q c (S n) ->
  wp (insert_round h root node) (insert_next h0 (inorder (plug p (N RB_RED l node r))) p).
Proof.
  intros p Hr Hl Hr' Hu Hv Hq. subst p. unfold insert_round.
  rewrite (focus_not_root _ _ _ _ _ (proj1 Hr) : (node =? root) = false).
  at_focus Hr (FR RB_RED u a :: FL RB_BLACK g v :: q).
  at_focus Hr (FL RB_BLACK g v :: q). cbn [negb Z.eqb RB_RED].
  at_focus Hr q. rewrite Z.eqb_refl. cbn [bind].
  rewrite (is_red_ok _ _ (FR RB_BLACK (N RB_RED u a (N RB_RED l node r)) g :: q) v (proj1 Hr)). cbn [bind].
  destruct (color_of v =? RB_RED) eqn:Ev.
  { destruct v as [|cv' vl va vr]; [easy|]. simpl in Ev. apply Z.eqb_eq in Ev. subst cv'.
    pose proof (rbt_color _ _ _ Hv) as Ec. simpl in Ec. subst cv.
    eapply (uncle_red_left _ _ _ q); [exact Hr|eauto with rbdb|eauto|eauto|reflexivity|simpl; lia]. }
  at_focus Hr (FL RB_BLACK g v :: q).
  rewrite Z.eqb_refl.
  apply (wp_bind (let* _ := _ in _)).
  apply (wp_rotate_left _ _ _ _ _ (FL RB_BLACK g v :: q) _ _ _ _ _ _ _ Hr). intros h1 root1 H1. cbn [wp].
  at_focus H1 (FL RB_RED node r :: FL RB_BLACK g v :: q).
  apply (wp_color _ _ _ _ _ _ (FL RB_BLACK g v :: q) _ _ _ _ H1). intros h2 H2.
  apply (wp_color _ _ _ _ _ _ q _ _ _ _ H2). intros h2' H2'.
  apply (wp_rotate_right _ _ _ _ _ _ _ _ _ _ _ _ _ H2'). intros h3 root3 H3.
  exists (FL RB_BLACK node (N RB_RED r g v) :: q). split; [|simpl; lia].
  eexists _, _, n. split; [exact H3|]. split; [eauto|]. split; [eauto|].
  split; [right; eexists; econstructor; [eauto using rbt_black with rbdb|eauto]|]. same_order.
Qed.

(** The node is the right child of a red right child. *)
Lemma insert_round_RR h0 h root a u g v q cv l node r n c :
  let p := FR RB_RED u a :: FR RB_BLACK v g :: q in
  repd h0 h root (plug p (N RB_RED l node r)) -> rbt l RB_BLACK n -> rbt r RB_BLACK n ->
  rbt u RB_BLACK n -> rbt v cv n -> ctx q c (S n) ->
  wp (insert_round h root node) (insert_next h0 (inorder (plug p (N RB_RED l node r))) p).
Proof.
  intros p Hr Hl Hr' Hu Hv Hq. subst p. unfold insert_round.
  rewrite (focus_not_root _ _ _ _ _ (proj1 Hr) : (node =? root) = false).
  at_focus Hr (FR RB_RED u a :: FR RB_BLACK v g :: q).
  at_focus Hr (FR RB_BLACK v g :: q). cbn [negb Z.eqb RB_RED].
  at_focus Hr q. rewrite (ptr_ne_left _ _ _ _ _ q _ (proj1 Hr) ltac:(easy) : (a =? ptr v) = false). cbn [bind].
  rewrite (is_red_ok _ _ (FL RB_BLACK g (N RB_RED u a (N RB_RED l node r)) :: q) v (proj1 Hr)). cbn [bind].
  destruct (color_of v =? RB_RED) eqn:Ev.
  { destruct v as [|cv' vl va vr]; [easy|]. simpl in Ev. apply Z.eqb_eq in Ev. subst cv'.
    pose proof (rbt_color _ _ _ Hv) as Ec. simpl in Ec. subst cv.
    eapply (uncle_red_right _ _ _ q); [exact Hr|eauto with rbdb|eauto|eauto|reflexivity|simpl; lia]. }
  at_focus Hr (FR RB_BLACK v g :: q).
  rewrite (ptr_ne_left _ _ _ _ _ _ _ (proj1 Hr) ltac:(easy) : (node =? ptr u) = false). cbn [bind].
  at_focus Hr (FR RB_RED u a :: FR RB_BLACK v g :: q).
  apply (wp_color _ _ _ _ _ _ (FR RB_BLACK v g :: q) _ _ _ _ Hr). intros h1 H1.
  apply (wp_color _ _ _ _ _ _ q _ _ _ _ H1). intros h2 H2.
  apply (wp_rotate_left _ _ _ _ _ _ _ _ _ _ _ _ _ H2). intros h3 root3 H3.
  exists (FR RB_BLACK (N RB_RED v g u) a :: q). split; [|simpl; lia].
  eexists _, _, n. split; [exact H3|]. split; [eauto|]. split; [eauto|].
  split; [right; eexists; econstructor; [eauto using rbt_black with rbdb|eauto]|]. same_order.
Qed.

(** The node is the left child of a red right child. *)
Lemma insert_round_RL h0 h root a u g v q cv l node r n c :
  let p := FL RB_RED a u :: FR RB_BLACK v g :: q in
  repd h0 h root (plug p (N RB_RED l node r)) -> rbt l RB_BLACK n -> rbt r RB_BLACK n ->
  rbt u RB_BLACK n -> rbt v cv n -> ctx q c (S n) ->
  wp (insert_round h root node) (insert_next h0 (inorder (plug p (N RB_RED l node r))) p).
Proof.
  intros p Hr Hl Hr' Hu Hv Hq. subst p. unfold insert_round.
  rewrite (focus_not_root _ _ _ _ _ (proj1 Hr) : (node =? root) = false).
  at_focus Hr (FL RB_RED a u :: FR RB_BLACK v g :: q).
  at_focus Hr (FR RB_BLACK v g :: q). cbn [negb Z.eqb RB_RED].
  at_focus Hr q. rewrite (ptr_ne_left _ _ _ _ _ q _ (proj1 Hr) ltac:(easy) : (a =? ptr v) = false). cbn [bind].
  rewrite (is_red_ok _ _ (FL RB_BLACK g (N RB_RED (N RB_RED l node r) a u) :: q) v (proj1 Hr)). cbn [bind].
  destruct (color_of v =? RB_RED) eqn:Ev.
  { destruct v as [|cv' vl va vr]; [easy|]. simpl in Ev. apply Z.eqb_eq in Ev. subst cv'.
    pose proof (rbt_color _ _ _ Hv) as Ec. simpl in Ec. subst cv.
    eapply (uncle_red_right _ _ _ q); [exact Hr|eauto with rbdb|eauto|eauto|reflexivity|simpl; lia]. }
  at_focus Hr (FR RB_BLACK v g :: q).
  rewrite Z.eqb_refl.
  apply (wp_bind (let* _ := _ in _)).
  apply (wp_rotate_right _ _ _ _ _ (FR RB_BLACK v g :: q) _ _ _ _ _ _ _ Hr). intros h1 root1 H1. cbn [wp].
  at_focus H1 (FR RB_RED l node :: FR RB_BLACK v g :: q).
  apply (wp_color _ _ _ _ _ _ (FR RB_BLACK v g :: q) _ _ _ _ H1). intros h2 H2.
  apply (wp_color _ _ _ _ _ _ q _ _ _ _ H2). intros h2' H2'.
  apply (wp_rotate_left _ _ _ _ _ _ _ _ _ _ _ _ _ H2'). intros h3 root3 H3.
  exists (FR RB_BLACK (N RB_RED v g l) node :: q). split; [|simpl; lia].
  eexists _, _, n. split; [exact H3|]. split; [eauto|]. split; [eauto|].
  split; [right; eexists; econstructor; [eauto using rbt_black with rbdb|eauto]|]. same_order.
Qed.

Lemma insert_round_ok h0 L p h root node : insert_inv h0 L p (h, root, node) ->
  wp (insert_round h root node) (insert_next h0 L p).
Proof.
  intros (l & r & n & Hr & Hl & Hr' & Hp & <-).
  destruct p as [|f p].
  { unfold insert_round. rewrite (proj2 (Z.eqb_eq node root) (proj1 (proj2 (proj1 Hr)))). cbn [wp insert_next].
    apply (insert_exit _ _ _ [] _ _ _ _ _ Hr Hl Hr'); auto. }
  destruct Hp as [|[c Hp]]; [easy|].
  assert (Hblack : ctx (f :: p) RB_BLACK n -> ld n_color h (faddr f) = Ok RB_BLACK ->
    wp (insert_round h root node) (insert_next h0 (inorder (plug (f :: p) (N RB_RED l node r))) (f :: p))).
  { intros Hc Hld. unfold insert_round. rewrite (focus_not_root _ _ _ _ _ (proj1 Hr) : (node =? root) = false).
    at_focus Hr (f :: p). rewrite Hld. cbn [bind negb Z.eqb RB_RED RB_BLACK wp insert_next].
    apply (insert_exit _ _ _ _ _ _ _ _ _ Hr Hl Hr'); auto. }
  inversion Hp as [|a u ? ? c' cu Hu Hp'|u a ? ? c' cu Hu Hp'|a u ? ? Hu Hp'|u a ? ? Hu Hp']; subst.
  - apply Hblack; [exact Hp|]. exact (ld_color (p:=p) (proj1 Hr)).
  - apply Hblack; [exact Hp|]. exact (ld_color (p:=p) (proj1 Hr)).
  - inversion Hp'; subst; [eapply insert_round_LL|eapply insert_round_RL]; eauto.
  - inversion Hp'; subst; [eapply insert_round_LR|eapply insert_round_RR]; eauto.
Qed.

(** * The fixup *)

(** No path is longer than the store. *)
Lemma rep_size h root t : rep h root t -> (length (inorder t) <= size h)%nat.
Proof.
  intros Hr. assert (Hd : forall x, x ∈ inorder t -> is_Some (h !! x)).
  { destruct Hr as (Ht & _ & _). revert Ht. generalize 0. induction t as [|c l IHl a r IHr]; intros p; simpl; [set_solver|].
    intros ((n & Hn & _) & Hl & Hr) x. rewrite elem_of_app, elem_of_cons. intros [Hx|[->|Hx]]; eauto. }
  rewrite <- size_dom, <- (size_list_to_set (C:=gset Z) (inorder t)) by apply Hr. apply subseteq_size.
  intros x Hx. apply elem_of_dom, Hd. set_solver.
Qed.

Lemma path_length p t : (length p + length (inorder t) <= length (inorder (plug p t)))%nat.
Proof.
  revert t. induction p as [|f p IH]; intros t; simpl; [lia|]. specialize (IH (fill f t)).
  assert (length (inorder t) + 1 <= length (inorder (fill f t)))%nat by (destruct f; simpl; rewrite length_app; simpl; lia).
  lia.
Qed.

Lemma insert_fixup_ok h0 h root p l node r n :
  repd h0 h root (plug p (N RB_RED l node r)) -> rbt l RB_BLACK n -> rbt r RB_BLACK n ->
  (p = [] \/ exists c, ctx p c n) ->
  wp (insert_fixup h root node) (fun '(h', root') => exists t, repd h0 h' root' t /\ red_black t /\
    inorder t = inorder (plug p (N RB_RED l node r))).
Proof.
  intros Hr Hl Hr' Hp. unfold insert_fixup. apply wp_bind. set (L := inorder (plug p (N RB_RED l node r))).
  apply (wp_mono _ (insert_done h0 L)).
  - assert (Hlen : (length p < walk h)%nat).
    { pose proof (rep_size _ _ _ (proj1 Hr)). pose proof (path_length p (N RB_RED l node r)). unfold walk. lia. }
    apply (wp_loop_on (insert_inv h0 L) (fun p => length p)) with p; [|exists l, r, n; auto|exact Hlen].
    intros q [[h1 root1] node1] Hi. now apply insert_round_ok.
  - intros [h1 root1] (c & l1 & a1 & r1 & m & H1 & HL & Hm).
    assert (root1 = a1) as -> by (symmetry; exact (proj1 (proj2 (proj1 H1)))).
    apply (wp_color _ _ _ _ _ _ [] _ _ _ _ H1). intros h2 H2. exists (N RB_BLACK l1 a1 r1).
    split; [exact H2|]. split; [now exists m|exact HL].
Qed.

(** * Descending *)

(** The empty position where [node] belongs: right of the nodes that compare
    less or equal. *)
Fixpoint locate (cmp : Z -> Z -> Z) (node : Z) (t : tree) (p : list frame) : list frame :=
  match t with
  | E => p
  | N c l a r => if cmp node a <? 0 then locate cmp node l (FL c a r :: p) else locate cmp node r (FR c l a :: p)
  end.

Lemma locate_plug cmp node t p : plug (locate cmp node t p) E = plug p t.
Proof.
  revert p. induction t as [|c l IHl a r IHr]; intros p; simpl; [reflexivity|].
  destruct (cmp node a <? 0); [rewrite IHl|rewrite IHr]; reflexivity.
Qed.

(** The comparison that led to the position. *)
Definition last_cmp (cmp : Z -> Z -> Z) (node : Z) (p : list frame) : Z :=
  match p with
  | [] => 0
  | f :: _ => cmp node (faddr f)
  end.

Definition turns (cmp : Z -> Z -> Z) (node : Z) (f : frame) : Prop :=
  match f with
  | FL _ a _ => cmp node a < 0
  | FR _ _ a => 0 <= cmp node a
  end.

Lemma locate_turns cmp node t p : Forall (turns cmp node) p -> Forall (turns cmp node) (locate cmp node t p).
Proof.
  revert p. induction t as [|c l IHl a r IHr]; intros p Hp; simpl; [exact Hp|].
  destruct (cmp node a <? 0) eqn:Ec; to_prop; [apply IHl|apply IHr]; constructor; auto.
Qed.

Lemma insert_descend_loop cmp h root node t p fuel : rep h root (plug p t) -> (height t < fuel)%nat ->
  loop fuel (insert_step cmp h node) (pptr p, ptr t, last_cmp cmp node p)
  = Ok (pptr (locate cmp node t p), last_cmp cmp node (locate cmp node t p)).
Proof.
  revert p fuel. induction t as [|c l IHl a r IHr]; intros p fuel Hr Hf; (destruct fuel as [|fuel]; [lia|]).
  { reflexivity. }
  cbn [loop ptr locate]. unfold insert_step at 1. unfold nonnull. rewrite (proj2 (Z.eqb_neq _ _) (rep_nonnull Hr)).
  cbn [negb]. simpl in Hf. rewrite (ld_left Hr), (ld_right Hr). cbn [bind].
  destruct (cmp node a <? 0); [apply (IHl (FL c a r :: p))|apply (IHr (FR c l a :: p))]; auto; lia.
Qed.

Lemma insert_descend_ok cmp h root node t : rep h root t ->
  insert_descend cmp h node root = Ok (pptr (locate cmp node t []), last_cmp cmp node (locate cmp node t [])).
Proof.
  intros Hr. unfold insert_descend. rewrite <- (proj1 (proj2 Hr)).
  apply (insert_descend_loop cmp h root node t []); [exact Hr|].
  pose proof (rep_size _ _ _ Hr). pose proof (height_size t). unfold walk. lia.
Qed.

Section Order.
Context (cmp : Z -> Z -> Z) `{!GoodCmp cmp}.

(** In order, with equal nodes allowed. *)
Definition ordered (L : list Z) : Prop := StronglySorted (fun a b => cmp a b <= 0) L.

(** [node] goes behind every node that is not greater. *)
Definition inserted (node : Z) (L L' : list Z) : Prop :=
  exists pre post, L = pre ++ post /\ L' = pre ++ node :: post /\
    Forall (fun x => 0 <= cmp node x) pre /\ Forall (fun x => cmp node x < 0) post.

Lemma ordered_app L1 L2 : ordered (L1 ++ L2) <->
  ordered L1 /\ ordered L2 /\ forall x y, x ∈ L1 -> y ∈ L2 -> cmp x y <= 0.
Proof.
  induction L1 as [|a L1 IH]; simpl.
  { split; [intros H; split; [constructor|split; [exact H|set_solver]]|tauto]. }
  unfold ordered in *. split.
  - intros H. apply StronglySorted_inv in H as [H1 H2]. apply IH in H1 as (H3 & H4 & H5).
    apply Forall_app in H2 as [H6 H7]. split; [now constructor|]. split; [exact H4|].
    intros x y [->|Hx]%elem_of_cons Hy; [|now apply H5]. rewrite Forall_forall in H7. now apply H7.
  - intros (H1 & H2 & H3). apply StronglySorted_inv in H1 as [H4 H5]. constructor.
    + apply IH. split; [exact H4|]. split; [exact H2|]. intros x y Hx. apply H3. set_solver.
    + apply Forall_app. split; [exact H5|]. apply Forall_forall. intros y Hy. apply H3; set_solver.
Qed.

Lemma locate_order node t p : ordered (inorder t) ->
  exists pre post, inorder t = pre ++ post /\ before (locate cmp node t p) = before p ++ pre /\
    after (locate cmp node t p) = post ++ after p /\
    Forall (fun x => 0 <= cmp node x) pre /\ Forall (fun x => cmp node x < 0) post.
Proof.
  revert p. induction t as [|c l IHl a r IHr]; intros p Ho; simpl.
  { exists [], []. repeat split; rewrite ?app_nil_r; auto. }
  apply ordered_app in Ho as (Ho1 & Ho2 & Ho3). apply StronglySorted_inv in Ho2 as [Ho2 Ho4].
  destruct (cmp node a <? 0) eqn:Ec; to_prop.
  - destruct (IHl (FL c a r :: p) Ho1) as (pre & post & -> & H2 & H3 & H4 & H5).
    exists pre, (post ++ a :: inorder r). rewrite H2, H3. simpl. rewrite <- !app_assoc. repeat split; auto.
    apply Forall_app. split; [exact H5|]. constructor; [exact Ec|].
    eapply Forall_impl; [exact Ho4|]. intros x Hx. now apply (cmp_lt_le cmp node a x).
  - destruct (IHr (FR c l a :: p) Ho2) as (pre & post & -> & H2 & H3 & H4 & H5).
    exists (inorder l ++ a :: pre), post. rewrite H2, H3. simpl. rewrite <- !app_assoc. repeat split; auto.
    apply Forall_app. split; [|constructor; [exact Ec|exact H4]].
    apply Forall_forall. intros x Hx. apply (cmp_ge cmp). apply (cmp_le_trans (cmp:=cmp) x a node).
    + apply Ho3; [exact Hx|left].
    + now apply (cmp_ge cmp).
Qed.
End Order.

(** * Insertion *)

(** A store to the data of a node leaves the represented tree alone. *)
Lemma is_tree_data f h a p t n : h !! a = Some n ->
  (forall m, n_parent (f m) = n_parent m /\ n_left (f m) = n_left m /\ n_right (f m) = n_right m /\ n_color (f m) = n_color m) ->
  is_tree h p t -> is_tree (<[a := f n]> h) p t.
Proof.
  intros Hn Hf. revert p. induction t as [|c l IHl b r IHr]; intros p; simpl; [easy|].
  intros ((m & Hm & Hb & Hs) & Hl & Hr). split; [|auto]. destruct (decide (a = b)) as [<-|Hne].
  - exists (f n). rewrite lookup_insert_eq. assert (m = n) by congruence. subst m.
    destruct (Hf n) as (-> & -> & -> & ->). auto.
  - exists m. rewrite lookup_insert_ne; auto.
Qed.

(** Hanging a detached red node at an empty position. *)
Lemma insert_link_ok cmp h root node p : rep h root (plug p E) -> links h node 0 0 0 RB_RED ->
  node ∉ inorder (plug p E) -> Forall (turns cmp node) p ->
  wp (insert_link h root node (pptr p) (last_cmp cmp node p)) (fun '(h', root') =>
    repd h h' root' (plug p (N RB_RED E node E))).
Proof.
  intros Hr Ln Hni Ht. apply rep_plug in Hr as (_ & Hp & Hap).
  assert (Hni' : node ∉ path_addrs p) by (rewrite inorder_plug in Hni; exact Hni). clear Hni.
  assert (Hap' : apart (N RB_RED E node E) p).
  { destruct Hap as (_ & Hap & _). split; [apply NoDup_singleton|]. split; [exact Hap|]. simpl. set_solver. }
  assert (Hd : same_data h h) by reflexivity. unfold insert_link. wr (st_parent (pptr p)) Ln.
  destruct p as [|f p].
  { cbn [bind wp]. split; [|exact Hd]. apply rep_plug. simpl in *. auto. }
  destruct (set_link_ok _ _ _ _ _ node Hp) as (h' & E & T & Hp'); [apply Hap|].
  assert (Hf : (faddr f =? 0) = false).
  { destruct f; apply Z.eqb_neq; destruct Hp as ((? & ? & ? & _) & _); auto. }
  apply Forall_cons in Ht as [Ht _]. cbn [pptr last_cmp] in *. rewrite Hf. clear Hp.
  assert (Hne : node <> faddr f) by (destruct f; simpl in *; addrs).
  apply (links_frame [faddr f] _ h') in Ln; [|apply T|set_solver].
  pose proof (touches_data _ _ _ _ Hd T). destruct f as [c a r|c l a]; simpl in Ht, E; cbn [faddr] in *.
  - rewrite (proj2 (Z.ltb_lt _ _) Ht), E. cbn [bind wp]. split; [|assumption]. apply rep_plug. simpl in *. auto.
  - rewrite (proj2 (Z.ltb_ge _ _) Ht), E. cbn [bind wp]. split; [|assumption]. apply rep_plug. simpl in *. auto.
Qed.

(** The fields of a node the colour and link facts speak of. *)
Lemma rep_data f h root a t n : h !! a = Some n ->
  (forall m, n_parent (f m) = n_parent m /\ n_left (f m) = n_left m /\ n_right (f m) = n_right m /\ n_color (f m) = n_color m) ->
  rep h root t -> rep (<[a := f n]> h) root t.
Proof. intros Hn Hf (H1 & H2 & H3). split; [now apply is_tree_data|auto]. Qed.

(** The store before the fixup: the new node hangs red at its position. *)
Lemma insert_attach cmp h root node clock t : rep h root t -> node <> 0 -> is_Some (h !! node) -> node ∉ inorder t ->
  wp (let* h := rb_init_node h node in
      let* (parent, cmp_res) := insert_descend cmp h node root in
      let* (h, root) := insert_link h root node parent cmp_res in
      let* h := st (set_time clock) h node in Ok (h, root))
    (fun '(h', root') =>
       repd (<[node := RbNode 0 0 0 RB_RED RB_FLAG_COLD clock 0]> h) h' root'
         (plug (locate cmp node t []) (N RB_RED E node E))).
Proof.
  intros Hr Hn [nd Hnd] Hni. unfold rb_init_node. rewrite (proj2 (Z.eqb_neq _ _) Hn), (st_ok _ _ _ _ Hnd Hn).
  cbn [bind]. set (h1 := <[node := _]> h).
  assert (Hr1 : rep h1 root t).
  { destruct Hr as (H1 & H2 & H3). split; [|auto].
    apply (tree_frame [node] h); [|set_solver|exact H1]. intros x Hx. apply lookup_insert_ne. set_solver. }
  rewrite (insert_descend_ok cmp _ _ node _ Hr1). cbn [bind].
  pose proof (locate_plug cmp node t []) as Hp. pose proof (locate_turns cmp node t [] ltac:(constructor)) as Ht.
  set (p := locate cmp node t []) in *. change (plug [] t) with t in Hp. rewrite <- Hp in Hr1, Hni.
  assert (Ln : links h1 node 0 0 0 RB_RED) by (eexists; unfold h1; rewrite lookup_insert_eq; split; [reflexivity|]; simpl; auto).
  apply wp_bind. eapply wp_mono; [apply (insert_link_ok cmp _ _ _ _ Hr1 Ln Hni Ht)|]. intros [h2 root2] [Hr2 Hd2].
  pose proof (Hd2 node) as Hdn. unfold h1 in Hdn. rewrite lookup_insert_eq in Hdn.
  destruct (h2 !! node) as [n2|] eqn:E2; [|easy]. rewrite (st_ok _ _ _ _ E2 Hn). cbn [bind wp].
  split; [now apply rep_data|]. intros x. specialize (Hd2 x). unfold h1 in Hd2.
  destruct (decide (node = x)) as [<-|Hne].
  - rewrite !lookup_insert_eq. simpl. unfold data in *. simpl in *. congruence.
  - rewrite !lookup_insert_ne in * by auto. exact Hd2.
Qed.

(** ** The temperature counters *)

Definition tally (f : Z -> bool) (fl : list Z) : Z := Z.of_nat (length (List.filter f fl)).
Definition has_temp (k flags : Z) : bool := Z.land flags RB_FLAG_TEMP_MASK =? k.
Definition has_pin (flags : Z) : bool := negb (Z.land flags RB_FLAG_PINNED =? 0).

(** The counters of the root count the flags [fl], modulo their width. *)
Definition stats_ok (r : rb_root) (fl : list Z) : Prop :=
  r_cold r = u64 (tally (has_temp RB_FLAG_COLD) fl) /\ r_warm r = u64 (tally (has_temp RB_FLAG_WARM) fl) /\
  r_hot r = u64 (tally (has_temp RB_FLAG_HOT) fl) /\ r_pinned r = u64 (tally has_pin fl).

(** The flags of the nodes [L]. *)
Definition flags_at (h : heap) (a : Z) : Z := default 0 (n_flags <$> h !! a).
Definition flags_of (h : heap) (L : list Z) : list Z := flags_at h <$> L.

Lemma tally_cons f x fl : tally f (x :: fl) = tally f fl + b2z (f x).
Proof. unfold tally. simpl. destruct (f x); simpl; lia. Qed.

Lemma tally_perm f fl fl' : fl ≡ₚ fl' -> tally f fl = tally f fl'.
Proof. intros Hp. induction Hp; rewrite ?tally_cons in *; lia. Qed.

#[export] Instance stats_ok_perm r : Proper (Permutation ==> iff) (stats_ok r).
Proof. intros fl fl' Hp. unfold stats_ok. now rewrite !(tally_perm _ _ _ Hp). Qed.

Lemma u64_succ z : u64 (u64 z + 1) = u64 (z + 1).
Proof. unfold u64. now rewrite Zplus_mod_idemp_l. Qed.

Lemma u64_pred z : u64 (u64 (z + 1) - 1) = u64 z.
Proof. unfold u64. rewrite Zminus_mod_idemp_l. f_equal. lia. Qed.

Ltac stat_cases flags :=
  unfold stats_ok, rb_stat_inc, rb_stat_dec; rewrite !tally_cons; fold (has_pin flags); unfold has_temp;
  generalize (has_pin flags); generalize (Z.land flags RB_FLAG_TEMP_MASK);
  unfold RB_FLAG_COLD, RB_FLAG_WARM, RB_FLAG_HOT; intros z bp;
  destruct (z =? 0) eqn:E0, (z =? 1) eqn:E1, (z =? 2) eqn:E2, bp; to_prop; try lia;
  cbn [b2z]; rewrite ?Z.add_0_r; intros (H1 & H2 & H3 & H4); repeat split; cbn;
  rewrite ?H1, ?H2, ?H3, ?H4, ?u64_succ, ?u64_pred; reflexivity.

Lemma stat_inc_ok r flags fl : stats_ok r fl -> stats_ok (rb_stat_inc r flags) (flags :: fl).
Proof. stat_cases flags. Qed.

Lemma stat_dec_ok r flags fl : stats_ok r (flags :: fl) -> stats_ok (rb_stat_dec r flags) fl.
Proof. stat_cases flags. Qed.

(** The tree state: a red-black tree in order in the store, [cnt] its size, the
    hint NULL or one of its nodes, the counters those of its nodes. *)
Definition rb_ok (cmp : Z -> Z -> Z) (r : rb_root) (h : heap) (L : list Z) : Prop :=
  exists t, rep h (r_node r) t /\ red_black t /\ inorder t = L /\ ordered cmp L /\
    r_cnt r = u64 (Z.of_nat (length L)) /\ (r_hint r = 0 \/ r_hint r ∈ L) /\ stats_ok r (flags_of h L).

Lemma inserted_ordered cmp `{!GoodCmp cmp} node L L' : ordered cmp L -> inserted cmp node L L' -> ordered cmp L'.
Proof.
  intros Ho (pre & post & -> & -> & Hpre & Hpost). apply ordered_app in Ho as (H1 & H2 & H3); [|exact _].
  apply ordered_app; [exact _|]. split; [exact H1|]. split.
  - constructor; [exact H2|]. eapply Forall_impl; [exact Hpost|]. simpl. intros. lia.
  - intros x y Hx [->|Hy]%elem_of_cons; [|now apply H3]. rewrite Forall_forall in Hpre.
    apply (cmp_ge cmp). now apply Hpre.
Qed.

Lemma inserted_perm cmp node L L' : inserted cmp node L L' -> L' ≡ₚ node :: L.
Proof. intros (pre & post & -> & -> & _). symmetry. apply Permutation_middle. Qed.

Lemma rb_insert_raw_ok cmp `{!GoodCmp cmp} r h L t node :
  rep h (r_node r) t -> red_black t -> inorder t = L -> ordered cmp L ->
  node <> 0 -> is_Some (h !! node) -> node ∉ L ->
  wp (rb_insert_raw cmp r h node) (fun '(r', h') => exists t' L',
    rep h' (r_node r') t' /\ red_black t' /\ inorder t' = L' /\ inserted cmp node L L' /\
    r' = with_node (rb_stat_inc r RB_FLAG_COLD) (r_node r') /\
    same_data (<[node := RbNode 0 0 0 RB_RED RB_FLAG_COLD (r_clock r) 0]> h) h').
Proof.
  intros Hr Hrb <- Ho Hn Hs Hni. unfold rb_insert_raw. rewrite (proj2 (Z.eqb_neq _ _) Hn).
  pose proof (insert_attach cmp h (r_node r) node (r_clock r) t Hr Hn Hs Hni) as Ha. revert Ha.
  destruct (rb_init_node h node) as [h1| |]; try easy. cbn [bind].
  destruct (insert_descend cmp h1 node (r_node r)) as [[parent cmp_res]| |]; try easy. cbn [bind].
  destruct (insert_link h1 (r_node r) node parent cmp_res) as [[h2 root2]| |]; try easy. cbn [bind].
  destruct (st (set_time (r_clock r)) h2 node) as [h3| |]; try easy. cbn [bind wp]. intros H3.
  destruct (locate_order cmp node t [] Ho) as (pre & post & Hpp & Hb & Hf & Hpre & Hpost).
  simpl in Hb. rewrite app_nil_r in Hf.
  destruct (red_black_focus (locate cmp node t []) E) as (c & c' & n & Hc & Ht & _); [now rewrite locate_plug|].
  inversion Ht; subst.
  apply wp_bind. eapply wp_mono; [apply (insert_fixup_ok _ _ _ _ _ _ _ 0 H3); eauto with rbdb|].
  intros [h4 root4] (t' & [Hr4 Hd4] & Hrb4 & HL). cbn [wp]. exists t', (inorder t').
  split; [exact Hr4|]. split; [exact Hrb4|]. split; [reflexivity|]. split; [|split; [|exact Hd4]].
  - eexists _, _. split; [exact Hpp|]. split; [|eauto]. now rewrite HL, inorder_plug.
  - unfold rb_stat_inc. simpl. reflexivity.
Qed.

Lemma flags_of_same h h' L : same_data h h' -> flags_of h L = flags_of h' L.
Proof.
  intros Hd. apply list_fmap_ext. intros i a _. unfold flags_at. specialize (Hd a).
  destruct (h !! a), (h' !! a); simpl in *; unfold data in *; congruence.
Qed.

Lemma flags_of_insert h a n L : a ∉ L -> flags_of (<[a := n]> h) L = flags_of h L.
Proof.
  intros Ha. apply list_fmap_ext. intros i b Hb. apply list_elem_of_lookup_2 in Hb. unfold flags_at.
  rewrite lookup_insert_ne; [reflexivity|]. set_solver.
Qed.

#[export] Instance flags_of_perm h : Proper (Permutation ==> Permutation) (flags_of h).
Proof. intros L L' Hp. unfold flags_of. now rewrite Hp. Qed.

(** Relinking the root does not change its counters. *)
Lemma stats_with_node r v fl : stats_ok (with_node r v) fl <-> stats_ok r fl.
Proof. reflexivity. Qed.

Lemma stats_with_cnt r v fl : stats_ok (with_cnt r v) fl <-> stats_ok r fl.
Proof. reflexivity. Qed.

Lemma stat_inc_frame r f : r_node (rb_stat_inc r f) = r_node r /\ r_hint (rb_stat_inc r f) = r_hint r /\
  r_cnt (rb_stat_inc r f) = r_cnt r /\ r_clock (rb_stat_inc r f) = r_clock r.
Proof. unfold rb_stat_inc. repeat case_bool; auto. Qed.

Lemma stat_dec_frame r f : r_node (rb_stat_dec r f) = r_node r /\ r_hint (rb_stat_dec r f) = r_hint r /\
  r_cnt (rb_stat_dec r f) = r_cnt r /\ r_clock (rb_stat_dec r f) = r_clock r.
Proof. unfold rb_stat_dec. repeat case_bool; auto. Qed.

Lemma rb_insert_ok cmp `{!GoodCmp cmp} r h L node :
  rb_ok cmp r h L -> node <> 0 -> is_Some (h !! node) -> node ∉ L ->
  exists r' h' L', rb_insert cmp r h node = Ok (r', h') /\ rb_ok cmp r' h' L' /\ inserted cmp node L L' /\
    same_data (<[node := RbNode 0 0 0 RB_RED RB_FLAG_COLD (r_clock r) 0]> h) h'.
Proof.
  intros (t & Hr & Hrb & HL & Ho & Hc & Hh & Hs) Hn Hsome Hni.
  pose proof (rb_insert_raw_ok cmp r h L t node Hr Hrb HL Ho Hn Hsome Hni) as Hw. unfold rb_insert.
  rewrite (proj2 (Z.eqb_neq _ _) Hn). destruct (rb_insert_raw cmp r h node) as [[r' h']| |]; try easy.
  destruct Hw as (t' & L' & Hr' & Hrb' & HL' & Hins & Er & Hd). pose proof (inserted_perm _ _ _ _ Hins) as Hp.
  exists (with_cnt r' (u64 (r_cnt r' + 1))), h', L'. split; [reflexivity|]. split; [|auto]. exists t'.
  destruct (stat_inc_frame r RB_FLAG_COLD) as (_ & Eh & Ec & _).
  assert (Ec' : r_cnt r' = r_cnt r) by (rewrite Er; exact Ec).
  assert (Eh' : r_hint r' = r_hint r) by (rewrite Er; exact Eh).
  split; [exact Hr'|]. split; [exact Hrb'|]. split; [exact HL'|]. split; [now apply (inserted_ordered cmp node L)|].
  split; [|split].
  - simpl. rewrite Ec', Hc, u64_succ, Hp. f_equal. simpl. lia.
  - simpl. rewrite Eh', Hp. set_solver.
  - rewrite Er. apply stats_with_cnt, stats_with_node. rewrite <- (flags_of_same _ _ _ Hd), Hp. simpl.
    change (flags_of ?g (node :: L)) with (flags_at g node :: flags_of g L).
    rewrite flags_of_insert by exact Hni. unfold flags_at. rewrite lookup_insert_eq. simpl. now apply stat_inc_ok.
Qed.

(** C33: [rb_insert] of a node that is not in the tree returns with a red-black
    tree in order that holds the old nodes and the new one, behind every node
    that does not compare greater; the size, the hint, the temperature counters
    and the parent links stay consistent, and no other node's data changes. *)
Theorem rb_insert_correct cmp `{!GoodCmp cmp} r h L node :
  rb_ok cmp r h L -> node <> 0 -> is_Some (h !! node) -> node ∉ L ->
  exists r' h' L', rb_insert cmp r h node = Ok (r', h') /\ rb_ok cmp r' h' L' /\ inserted cmp node L L' /\
    same_data (<[node := RbNode 0 0 0 RB_RED RB_FLAG_COLD (r_clock r) 0]> h) h'.
Proof. apply (rb_insert_ok cmp). Qed.

(** * Checking concrete trees *)

Definition links_b (h : heap) (a p l r c : Z) : bool :=
  match h !! a with
  | Some n => negb (a =? 0) && (n_parent n =? p) && (n_left n =? l) && (n_right n =? r) && (n_color n =? c)
  | None => false
  end.

Fixpoint is_tree_b (h : heap) (p : Z) (t : tree) : bool :=
  match t with
  | E => true
  | N c l a r => links_b h a p (ptr l) (ptr r) c && is_tree_b h a l && is_tree_b h a r
  end.

(** The black height, when the colours are right. *)
Fixpoint black_height (t : tree) : option nat :=
  match t with
  | E => Some O
  | N c l _ r =>
      match black_height l, black_height r with
      | Some n, Some m =>
          if negb (n =? m)%nat then None
          else if c =? RB_BLACK then Some (S n)
          else if (c =? RB_RED) && negb (color_of l =? RB_RED) && negb (color_of r =? RB_RED) then Some n
          else None
      | _, _ => None
      end
  end.

Fixpoint ordered_b (cmp : Z -> Z -> Z) (L : list Z) : bool :=
  match L with
  | [] => true
  | a :: L' => forallb (fun b => cmp a b <=? 0) L' && ordered_b cmp L'
  end.

Definition stats_b (r : rb_root) (fl : list Z) : bool :=
  (r_cold r =? u64 (tally (has_temp RB_FLAG_COLD) fl)) && (r_warm r =? u64 (tally (has_temp RB_FLAG_WARM) fl)) &&
  (r_hot r =? u64 (tally (has_temp RB_FLAG_HOT) fl)) && (r_pinned r =? u64 (tally has_pin fl)).

Definition rb_ok_b (cmp : Z -> Z -> Z) (r : rb_root) (h : heap) (t : tree) : bool :=
  is_tree_b h 0 t && (ptr t =? r_node r) && bool_decide (NoDup (inorder t)) &&
  (color_of t =? RB_BLACK) && bool_decide (is_Some (black_height t)) && ordered_b cmp (inorder t) &&
  (r_cnt r =? u64 (Z.of_nat (length (inorder t)))) && bool_decide (r_hint r = 0 \/ r_hint r ∈ inorder t) &&
  stats_b r (flags_of h (inorder t)).

Lemma is_tree_check h p t : is_tree_b h p t = true -> is_tree h p t.
Proof.
  revert p. induction t as [|c l IHl a r IHr]; intros p; simpl; [easy|]. unfold links_b, links.
  rewrite !andb_true_iff. intros [[H1 H2] H3]. split; [|auto]. destruct (h !! a) as [n|]; [|easy].
  to_prop. eauto 10.
Qed.

Lemma black_height_check t n : black_height t = Some n -> rbt t (color_of t) n.
Proof.
  revert n. induction t as [|c l IHl a r IHr]; intros n; simpl; [intros [= <-]; constructor|].
  destruct (black_height l) as [nl|]; [|easy]. destruct (black_height r) as [nr|]; [|easy].
  destruct (nl =? nr)%nat eqn:En; [|easy]. apply Nat.eqb_eq in En. subst nr. simpl.
  destruct (c =? RB_BLACK) eqn:Eb; [apply Z.eqb_eq in Eb as ->; intros [= <-]; econstructor; eauto|].
  destruct (c =? RB_RED) eqn:Er; [|easy]. apply Z.eqb_eq in Er as ->.
  destruct (color_of l =? RB_RED) eqn:El; [easy|]. destruct (color_of r =? RB_RED) eqn:Err; [easy|].
  intros [= <-]. constructor; eapply rbt_black; eauto.
Qed.

Lemma ordered_check cmp L : ordered_b cmp L = true -> ordered cmp L.
Proof.
  induction L as [|a L IH]; simpl; [constructor|]. rewrite andb_true_iff, forallb_forall. intros [H1 H2].
  constructor; [now apply IH|]. apply List.Forall_forall. intros x Hx. apply H1 in Hx. now apply Z.leb_le.
Qed.

Lemma rb_ok_check cmp r h t : rb_ok_b cmp r h t = true -> rb_ok cmp r h (inorder t).
Proof.
  unfold rb_ok_b, stats_b. rewrite !andb_true_iff, !bool_decide_eq_true.
  intros ((((((((H1 & H2) & H3) & H4) & [n H5]) & H6) & H7) & H8) & ((S1 & S2) & S3) & S4). to_prop.
  exists t. split; [split; [now apply is_tree_check|auto]|].
  split; [exists n; rewrite <- H4; now apply black_height_check|].
  split; [reflexivity|]. split; [now apply ordered_check|]. split; [exact H7|]. split; [exact H8|].
  repeat split; assumption.
Qed.

(** Comparing addresses. *)
#[export] Instance sub_good : GoodCmp Z.sub.
Proof. split; intros; lia. Qed.

(** Detached nodes at the given addresses. *)
Definition nodes (l : list Z) : heap := list_to_map ((fun a => (a, RbNode 0 0 0 0 0 0 0)) <$> l).

(** Inserting a list of nodes one by one. *)
Definition insert_all (cmp : Z -> Z -> Z) (l : list Z) : res (rb_root * heap) :=
  foldl (fun s a => let* (r, h) := s in rb_insert cmp r h a) (Ok (rb_root_init, nodes l)) l.

(** A tree of three nodes and a detached node 4. *)
Definition three : rb_root * heap :=
  match foldl (fun s a => let* (r, h) := s in rb_insert Z.sub r h a) (Ok (rb_root_init, nodes [1; 2; 3; 4])) [1; 2; 3] with
  | Ok s => s
  | _ => (rb_root_init, nodes [])
  end.
Definition three_tree : tree := N RB_BLACK (N RB_RED E 1 E) 2 (N RB_RED E 3 E).

Lemma rb_insert_correct_witness :
  exists r' h' L', rb_insert Z.sub three.1 three.2 4 = Ok (r', h') /\ rb_ok Z.sub r' h' L' /\
    inserted Z.sub 4 (inorder three_tree) L' /\
    same_data (<[4 := RbNode 0 0 0 RB_RED RB_FLAG_COLD (r_clock three.1) 0]> three.2) h'.
Proof.
  apply (rb_insert_correct Z.sub).
  - apply rb_ok_check. vm_compute. reflexivity.
  - lia.
  - vm_compute. eauto.
  - set_solver.
Defined.
