(* ===== verification/RBSearch.v ===== *)
(** Searching the red-black tree, pinning and ageing its nodes, and walking it in
    order. *)
From stdpp Require Import base gmap list fin_maps.
From Stdlib Require Import ZArith Lia Sorting.Sorted.
From S2P Require Import Prelude RBTree RBRep RBInsert.

Open Scope Z_scope.
Open Scope c_scope.

(** * Changing the data of one node *)

(** [h'] is [h] with the data of node [a] replaced. *)
Definition redata (a fl tm ct : Z) (h h' : heap) : Prop :=
  exists n, h !! a = Some n /\ a <> 0 /\
    h' = <[a := RbNode (n_parent n) (n_left n) (n_right n) (n_color n) fl tm ct]> h.

Lemma redata_rep a fl tm ct h h' root t : redata a fl tm ct h h' -> rep h root t -> rep h' root t.
Proof.
  intros (n & Hn & _ & ->) Hr.
  apply (rep_data (fun m => RbNode (n_parent m) (n_left m) (n_right m) (n_color m) fl tm ct) _ _ _ _ _ Hn); auto.
Qed.

Lemma redata_lookup a fl tm ct h h' : redata a fl tm ct h h' -> exists n, h' !! a = Some n /\ a <> 0 /\
  n_flags n = fl /\ n_time n = tm /\ n_count n = ct.
Proof. intros (n & Hn & Ha & ->). rewrite lookup_insert_eq. eauto 10. Qed.

Lemma redata_size a fl tm ct h h' : redata a fl tm ct h h' -> size h' = size h.
Proof. intros (n & Hn & _ & ->). rewrite map_size_insert, Hn. reflexivity. Qed.

Lemma redata_trans a fl tm ct fl' tm' ct' h1 h2 h3 :
  redata a fl tm ct h1 h2 -> redata a fl' tm' ct' h2 h3 -> redata a fl' tm' ct' h1 h3.
Proof.
  intros (n & Hn & Ha & ->) (m & Hm & _ & ->). exists n. split; [exact Hn|]. split; [exact Ha|].
  rewrite lookup_insert_eq in Hm. injection Hm as <-. simpl. apply insert_insert_eq.
Qed.

(** The stores to the data fields. *)
Lemma st_flags v h a n : h !! a = Some n -> a <> 0 ->
  exists h', st (set_flags v) h a = Ok h' /\ redata a v (n_time n) (n_count n) h h'.
Proof. intros Hn Ha. rewrite (st_ok _ _ _ _ Hn Ha). eexists. split; [reflexivity|]. exists n. auto. Qed.

Lemma st_time v h a n : h !! a = Some n -> a <> 0 ->
  exists h', st (set_time v) h a = Ok h' /\ redata a (n_flags n) v (n_count n) h h'.
Proof. intros Hn Ha. rewrite (st_ok _ _ _ _ Hn Ha). eexists. split; [reflexivity|]. exists n. auto. Qed.

Lemma st_access v h a n : h !! a = Some n -> a <> 0 ->
  exists h', st (set_access v) h a = Ok h' /\ redata a (n_flags n) (n_time n) v h h'.
Proof. intros Hn Ha. rewrite (st_ok _ _ _ _ Hn Ha). eexists. split; [reflexivity|]. exists n. auto. Qed.

(** Moving one node of the tree from one temperature to another. *)
Lemma stats_move r h h' L a old new tm ct : NoDup L -> a ∈ L -> redata a new tm ct h h' -> flags_at h a = old ->
  stats_ok r (flags_of h L) -> stats_ok (rb_stat_inc (rb_stat_dec r old) new) (flags_of h' L).
Proof.
  intros Hnd Ha (n & Hn & _ & ->) Hold. apply elem_of_Permutation in Ha as [L' HL].
  rewrite HL. assert (a ∉ L') by (rewrite HL in Hnd; now apply NoDup_cons in Hnd as [? _]).
  change (flags_of ?g (a :: L')) with (flags_at g a :: flags_of g L'). rewrite flags_of_insert by assumption.
  unfold flags_at at 2. rewrite lookup_insert_eq, Hold. simpl. intros Hs. now apply stat_inc_ok, stat_dec_ok.
Qed.

(** Keeping the flags keeps the counters. *)
Lemma stats_keep r h h' L a tm ct : redata a (flags_at h a) tm ct h h' ->
  stats_ok r (flags_of h L) -> stats_ok r (flags_of h' L).
Proof.
  intros (n & Hn & _ & ->) Hs. replace (flags_of (<[a := _]> h) L) with (flags_of h L); [exact Hs|].
  apply list_fmap_ext. intros i b _. unfold flags_at in *. destruct (decide (a = b)) as [<-|Hne].
  - rewrite lookup_insert_eq. reflexivity.
  - now rewrite lookup_insert_ne.
Qed.

(** * Pinning *)

Lemma cas_flags_ok h a n new : h !! a = Some n -> a <> 0 ->
  exists h', cas_flags h a (n_flags n) new = Ok (true, n_flags n, h') /\ redata a new (n_time n) (n_count n) h h'.
Proof.
  intros Hn Ha. unfold cas_flags. rewrite (ld_ok _ _ _ _ Hn Ha). cbn [bind]. rewrite Z.eqb_refl.
  destruct (st_flags new _ _ _ Hn Ha) as (h' & -> & H'). simpl. eauto.
Qed.

(** What an operation on the data of node [a] of the tree keeps. *)
Definition data_op (r r' : rb_root) (h h' : heap) (L : list Z) : Prop :=
  (forall root t, rep h root t -> rep h' root t) /\
  (stats_ok r (flags_of h L) -> stats_ok r' (flags_of h' L)) /\
  r_node r' = r_node r /\ r_hint r' = r_hint r /\ r_cnt r' = r_cnt r /\ r_clock r' = r_clock r.

Lemma data_op_refl r h L : data_op r r h h L.
Proof. split; [auto|]. split; [auto|]. auto. Qed.

Lemma data_op_trans r1 r2 r3 h1 h2 h3 L : data_op r1 r2 h1 h2 L -> data_op r2 r3 h2 h3 L -> data_op r1 r3 h1 h3 L.
Proof.
  intros (A1 & A2 & A3 & A4 & A5 & A6) (B1 & B2 & B3 & B4 & B5 & B6).
  split; [auto|]. split; [auto|]. repeat split; congruence.
Qed.

Lemma data_op_move r h h' L a old new tm ct : NoDup L -> a ∈ L -> redata a new tm ct h h' -> flags_at h a = old ->
  data_op r (rb_stat_inc (rb_stat_dec r old) new) h h' L.
Proof.
  intros Hnd Ha Hd Ho. split; [intros root t; now apply (redata_rep _ _ _ _ _ _ _ _ Hd)|].
  split; [now apply (stats_move _ _ _ _ _ _ _ _ _ Hnd Ha Hd)|].
  destruct (stat_inc_frame (rb_stat_dec r old) new) as (-> & -> & -> & ->). apply stat_dec_frame.
Qed.

Lemma flags_at_lookup h a n : h !! a = Some n -> flags_at h a = n_flags n.
Proof. intros Hn. unfold flags_at. now rewrite Hn. Qed.

Lemma rb_pin_ok r h L a n : h !! a = Some n -> a <> 0 -> NoDup L -> a ∈ L ->
  exists r' h', rb_pin_node r h a = Ok (r', h') /\ data_op r r' h h' L /\
    (exists n', h' !! a = Some n' /\ n_flags n' = if has_pin (n_flags n) then n_flags n else Z.lor (n_flags n) RB_FLAG_PINNED).
Proof.
  intros Hn Ha Hnd Hin. unfold rb_pin_node. rewrite (proj2 (Z.eqb_neq _ _) Ha), (ld_ok _ _ _ _ Hn Ha). cbn [bind loop cas_rounds].
  fold (has_pin (n_flags n)). destruct (has_pin (n_flags n)).
  - exists r, h. split; [reflexivity|]. split; [apply data_op_refl|eauto].
  - destruct (cas_flags_ok h a n (Z.lor (n_flags n) RB_FLAG_PINNED) Hn Ha) as (h' & -> & Hd). cbn [bind].
    eexists _, h'. split; [reflexivity|]. split.
    + eapply data_op_move; eauto. now apply flags_at_lookup.
    + destruct (redata_lookup _ _ _ _ _ _ Hd) as (n' & Hn' & _ & Hf & _). eauto.
Qed.

Lemma rb_unpin_ok r h L a n : h !! a = Some n -> a <> 0 -> NoDup L -> a ∈ L ->
  exists r' h', rb_unpin_node r h a = Ok (r', h') /\ data_op r r' h h' L /\
    (exists n', h' !! a = Some n' /\
       n_flags n' = if has_pin (n_flags n) then u8 (Z.land (n_flags n) (Z.lnot RB_FLAG_PINNED)) else n_flags n).
Proof.
  intros Hn Ha Hnd Hin. unfold rb_unpin_node. rewrite (proj2 (Z.eqb_neq _ _) Ha), (ld_ok _ _ _ _ Hn Ha). cbn [bind loop cas_rounds].
  unfold has_pin. destruct (Z.land (n_flags n) RB_FLAG_PINNED =? 0); cbn [negb].
  - exists r, h. split; [reflexivity|]. split; [apply data_op_refl|eauto].
  - destruct (cas_flags_ok h a n (u8 (Z.land (n_flags n) (Z.lnot RB_FLAG_PINNED))) Hn Ha) as (h' & -> & Hd). cbn [bind].
    eexists _, h'. split; [reflexivity|]. split.
    + eapply data_op_move; eauto. now apply flags_at_lookup.
    + destruct (redata_lookup _ _ _ _ _ _ Hd) as (n' & Hn' & _ & Hf & _). eauto.
Qed.

(** * Temperature *)

(** The data of a node after an access at the root's clock. *)
Definition touched (r : rb_root) (n : rb_node) : Z * Z * Z :=
  let elapsed := u64 (r_clock r - n_time n) in
  let count := u64 (n_count n + 1) in
  let time := if RB_TIME_UPDATE_THRESHOLD <? elapsed then r_clock r else n_time n in
  let cur := Z.land (n_flags n) RB_FLAG_TEMP_MASK in
  let '(new, decay) := touch_temp r elapsed count cur in
  if has_pin (n_flags n) || (new =? cur) then (n_flags n, time, count)
  else (u8 (Z.lor (Z.land (n_flags n) (Z.lnot RB_FLAG_TEMP_MASK)) new), time, if decay : bool then 1 else count).

Lemma data_op_keep r h h' L a tm ct : redata a (flags_at h a) tm ct h h' -> data_op r r h h' L.
Proof.
  intros Hd. split; [intros root t; now apply (redata_rep _ _ _ _ _ _ _ _ Hd)|].
  split; [now apply (stats_keep _ _ _ _ _ _ _ Hd)|auto].
Qed.

Lemma rb_touch_ok r h L a n : h !! a = Some n -> a <> 0 -> NoDup L -> a ∈ L ->
  exists r' h', rb_touch r h a = Ok (r', h') /\ data_op r r' h h' L /\ r_hint_mask r' = r_hint_mask r /\
    let '(fl, tm, ct) := touched r n in redata a fl tm ct h h'.
Proof.
  intros Hn Ha Hnd Hin. unfold rb_touch. rewrite (proj2 (Z.eqb_neq _ _) Ha), !(ld_ok _ _ _ _ Hn Ha). cbn [bind].
  destruct (st_access (u64 (n_count n + 1)) _ _ _ Hn Ha) as (h1 & -> & D1). cbn [bind].
  destruct (redata_lookup _ _ _ _ _ _ D1) as (n1 & Hn1 & _ & F1 & T1 & C1).
  set (tm := if RB_TIME_UPDATE_THRESHOLD <? u64 (r_clock r - n_time n) then r_clock r else n_time n).
  assert (exists h2, (if RB_TIME_UPDATE_THRESHOLD <? u64 (r_clock r - n_time n) then st (set_time (r_clock r)) h1 a else Ok h1)
    = Ok h2 /\ redata a (n_flags n) tm (u64 (n_count n + 1)) h h2) as (h2 & -> & D2).
  { unfold tm. case_bool; [|eauto]. destruct (st_time (r_clock r) _ _ _ Hn1 Ha) as (h2 & -> & D2).
    exists h2. split; [reflexivity|]. rewrite F1, C1 in D2. eapply redata_trans; eauto. }
  destruct (redata_lookup _ _ _ _ _ _ D2) as (n2 & Hn2 & _ & F2 & T2 & C2). cbn [bind].
  rewrite (ld_ok _ _ _ _ Hn2 Ha), F2. cbn [bind loop cas_rounds]. unfold touched. fold tm. fold (has_pin (n_flags n)).
  assert (K2 : data_op r r h h2 L) by (eapply (data_op_keep _ _ _ _ a); rewrite (flags_at_lookup _ _ _ Hn); eauto).
  destruct (touch_temp r _ _ _) as [new decay]. destruct (has_pin (n_flags n)); cbn [orb]; [eauto 10|].
  destruct (new =? Z.land (n_flags n) RB_FLAG_TEMP_MASK); [eauto 10|].
  set (nf := u8 _). rewrite <- F2. destruct (cas_flags_ok h2 a n2 nf Hn2 Ha) as (h3 & -> & D3). cbn [bind].
  rewrite T2, C2 in D3. assert (K3 : data_op r (rb_stat_inc (rb_stat_dec r (n_flags n2)) nf) h2 h3 L).
  { eapply data_op_move; eauto. now apply flags_at_lookup. }
  destruct (redata_lookup _ _ _ _ _ _ D3) as (n3 & Hn3 & _ & F3 & T3 & C3).
  assert (Hm : r_hint_mask (rb_stat_inc (rb_stat_dec r (n_flags n2)) nf) = r_hint_mask r)
    by (unfold rb_stat_inc, rb_stat_dec; repeat case_bool; reflexivity).
  destruct decay.
  - destruct (st_access 1 _ _ _ Hn3 Ha) as (h4 & -> & D4). cbn [bind]. rewrite F3, T3 in D4.
    eexists _, h4. split; [reflexivity|]. split; [|split; [exact Hm|eauto using redata_trans]].
    eapply data_op_trans; [exact K2|]. eapply data_op_trans; [exact K3|].
    eapply (data_op_keep _ _ _ _ a). rewrite (flags_at_lookup _ _ _ Hn3), F3. exact D4.
  - cbn [bind]. eexists _, h3. split; [reflexivity|]. split; [eauto using data_op_trans|]. eauto using redata_trans.
Qed.

(** * Searching *)

Fixpoint find (cmp : Z -> Z -> Z) (key : Z) (t : tree) : Z :=
  match t with
  | E => 0
  | N _ l a r => if cmp key a <? 0 then find cmp key l else if 0 <? cmp key a then find cmp key r else a
  end.

Lemma search_descend_loop cmp h root key t p fuel : rep h root (plug p t) -> (height t < fuel)%nat ->
  loop fuel (descend_step cmp h key) (ptr t) = Ok (find cmp key t).
Proof.
  revert p fuel. induction t as [|c l IHl a r IHr]; intros p fuel Hr Hf; (destruct fuel as [|fuel]; [lia|]).
  { reflexivity. }
  cbn [loop ptr find]. unfold descend_step at 1. unfold nonnull. rewrite (proj2 (Z.eqb_neq _ _) (rep_nonnull Hr)).
  cbn [negb]. simpl in Hf. rewrite (ld_left Hr), (ld_right Hr). cbn [bind].
  destruct (cmp key a <? 0); [apply (IHl (FL c a r :: p)); auto; lia|].
  destruct (0 <? cmp key a); [apply (IHr (FR c l a :: p)); auto; lia|reflexivity].
Qed.

Lemma search_descend_ok cmp h root key t : rep h root t -> search_descend cmp h key root = Ok (find cmp key t).
Proof.
  intros Hr. unfold search_descend. rewrite <- (proj1 (proj2 Hr)).
  apply (search_descend_loop cmp h root key t []); [exact Hr|].
  pose proof (rep_size _ _ _ Hr). pose proof (height_size t). unfold walk. lia.
Qed.

(** The node found, or none that compares equal. *)
Definition found (cmp : Z -> Z -> Z) (key : Z) (L : list Z) (x : Z) : Prop :=
  (x ∈ L /\ x <> 0 /\ cmp key x = 0) \/ (x = 0 /\ forall y, y ∈ L -> cmp key y <> 0).

Lemma find_found cmp `{!GoodCmp cmp} key t : ordered cmp (inorder t) -> (forall x, x ∈ inorder t -> x <> 0) ->
  found cmp key (inorder t) (find cmp key t).
Proof.
  induction t as [|c l IHl a r IHr]; intros Ho Hnz; simpl; [right; set_solver|].
  apply ordered_app in Ho as (Ho1 & Ho2 & Ho3); [|exact _]. apply StronglySorted_inv in Ho2 as [Ho2 Ho4].
  rewrite Forall_forall in Ho4. unfold found in *. simpl in Hnz.
  destruct (cmp key a <? 0) eqn:E1; [|destruct (0 <? cmp key a) eqn:E2]; to_prop.
  - destruct IHl as [(H1 & H2 & H3)|(H1 & H2)]; [auto|set_solver|left; set_solver|].
    right. split; [exact H1|]. intros y. rewrite elem_of_app, elem_of_cons. intros [Hy|[->|Hy]]; [auto|lia|].
    pose proof (cmp_lt_le cmp key a y E1 (Ho4 y Hy)). lia.
  - destruct IHr as [(H1 & H2 & H3)|(H1 & H2)]; [auto|set_solver|left; set_solver|].
    right. split; [exact H1|]. intros y. rewrite elem_of_app, elem_of_cons. intros [Hy|[->|Hy]]; [|lia|auto].
    pose proof (cmp_anti (cmp:=cmp) a key). pose proof (Ho3 y a Hy ltac:(left)).
    pose proof (cmp_le_lt cmp y a key ltac:(assumption) ltac:(lia)). pose proof (cmp_anti (cmp:=cmp) y key). lia.
  - left. split; [set_solver|]. split; [apply Hnz; set_solver|lia].
Qed.

Lemma ok_lookup h root t x : rep h root t -> x ∈ inorder t -> exists n, h !! x = Some n.
Proof.
  intros (Ht & _ & _). revert Ht. generalize 0. induction t as [|c l IHl a r IHr]; intros p; simpl; [set_solver|].
  intros ((n & Hn & _) & Hl & Hr). rewrite elem_of_app, elem_of_cons. intros [Hx|[->|Hx]]; eauto.
Qed.

(** An operation on node data keeps the tree state. *)
Lemma data_op_rb_ok cmp r r' h h' L : data_op r r' h h' L -> rb_ok cmp r h L -> rb_ok cmp r' h' L.
Proof.
  intros (H1 & H2 & H3 & H4 & H5 & H6) (t & Hr & Hrb & HL & Ho & Hc & Hh & Hs). exists t.
  rewrite H3, H4, H5. auto 10.
Qed.

Lemma rb_ok_hint cmp r h L x : x = 0 \/ x ∈ L -> rb_ok cmp r h L -> rb_ok cmp (with_hint r x) h L.
Proof. intros Hx (t & Hr & Hrb & HL & Ho & Hc & Hh & Hs). exists t. simpl. auto 10. Qed.

Lemma rb_search_ok cmp `{!GoodCmp cmp} r h L key : rb_ok cmp r h L -> key <> 0 ->
  exists x r' h', rb_search cmp r h key = Ok (x, r', h') /\ found cmp key L x /\ rb_ok cmp r' h' L.
Proof.
  intros Hok Hk. pose proof Hok as (t & Hr & Hrb & HL & Ho & Hc & Hh & Hs). subst L.
  unfold rb_search, rb_search_locked_only. rewrite (proj2 (Z.eqb_neq _ _) Hk).
  assert (exists x, (if nonnull (r_hint r) && (cmp key (r_hint r) =? 0) then Ok (r_hint r)
    else search_descend cmp h key (r_node r)) = Ok x /\ found cmp key (inorder t) x) as (x & -> & Hf).
  { unfold nonnull. case_bool; to_prop.
    - eexists. split; [reflexivity|]. left. destruct Hh; [lia|auto].
    - rewrite (search_descend_ok _ _ _ _ _ Hr). eexists. split; [reflexivity|].
      apply (find_found cmp); [exact Ho|]. intros y. apply (rep_addr _ _ _ _ Hr). }
  cbn [bind]. unfold nonnull. destruct (x =? 0) eqn:Ex; to_prop; cbn [negb]; [eauto 10|].
  assert (Hin : x ∈ inorder t) by (destruct Hf as [(? & _)|(? & _)]; [assumption|lia]).
  destruct (ok_lookup _ _ _ _ Hr Hin) as [n Hn].
  destruct (rb_touch_ok r h (inorder t) x n Hn Ex (proj2 (proj2 Hr)) Hin) as (r1 & h1 & -> & Hop & _). cbn [bind].
  pose proof (data_op_rb_ok _ _ _ _ _ _ Hop Hok) as Hok1.
  repeat case_bool; eauto 10 using rb_ok_hint.
Qed.

(** C36: [rb_search] returns a node of the tree that compares equal to the key
    exactly when there is one, whether it answers from the hint or descends, and
    what it does to the hint, the access statistics and the temperature
    counters leaves the tree state consistent. *)
Theorem rb_search_correct cmp `{!GoodCmp cmp} r h L key : rb_ok cmp r h L -> key <> 0 ->
  exists x r' h', rb_search cmp r h key = Ok (x, r', h') /\ found cmp key L x /\ rb_ok cmp r' h' L.
Proof. apply (rb_search_ok cmp). Qed.

Lemma rb_search_correct_witness :
  exists x r' h', rb_search Z.sub three.1 three.2 3 = Ok (x, r', h') /\ found Z.sub 3 (inorder three_tree) x /\
    rb_ok Z.sub r' h' (inorder three_tree).
Proof. apply (rb_search_correct Z.sub); [apply rb_ok_check; vm_compute; reflexivity|lia]. Defined.

(** * Walking in order *)

Lemma nonnull_true a : a <> 0 -> nonnull a = true.
Proof. intros Ha. unfold nonnull. now apply Z.eqb_neq in Ha as ->. Qed.

Ltac len := repeat progress (simpl in *; rewrite ?length_app in *); lia.

(** A node occurs at one place only. *)
Lemma focus_split {A} (pre : list A) a post pre' post' : pre ++ a :: post = pre' ++ a :: post' -> NoDup (pre ++ a :: post) ->
  pre = pre' /\ post = post'.
Proof.
  revert pre'. induction pre as [|x pre IH]; intros [|y pre'] HL Hnd; simpl in *.
  - now injection HL as ->.
  - injection HL as -> ->. apply NoDup_cons in Hnd as [Hni _]. set_solver.
  - injection HL as -> <-. apply NoDup_cons in Hnd as [Hni _]. set_solver.
  - injection HL as -> HL. apply NoDup_cons in Hnd as [_ Hnd]. destruct (IH pre' HL Hnd) as [-> ->]. auto.
Qed.

(** Focusing on a node of the tree. *)
Lemma focus_of t pre a post : inorder t = pre ++ a :: post -> NoDup (inorder t) ->
  exists p c l r, t = plug p (N c l a r) /\ pre = before p ++ inorder l /\ post = inorder r ++ after p.
Proof.
  intros HL Hnd. assert (Hin : a ∈ inorder t) by (rewrite HL; set_solver).
  assert (exists p c l r, t = plug p (N c l a r)) as (p & c & l & r & ->).
  { clear HL Hnd. change t with (plug [] t). generalize (@nil frame). induction t as [|c l IHl b r IHr]; intros p; [set_solver|].
    simpl in Hin. apply elem_of_app in Hin as [Hin|[<-|Hin]%elem_of_cons]; [|eauto|].
    - exact (IHl Hin (FL c b r :: p)).
    - exact (IHr Hin (FR c l b :: p)). }
  exists p, c, l, r. split; [reflexivity|]. apply (focus_split pre a post).
  - rewrite <- HL, inorder_plug. flat_app. reflexivity.
  - now rewrite <- HL.
Qed.

Lemma rb_first_ok h root p t : rep h root (plug p t) -> rb_first h (ptr t) = Ok (hd 0 (inorder t)).
Proof.
  intros Hr. unfold rb_first. destruct t as [|c l a r]; [reflexivity|]. cbn [ptr].
  rewrite (proj2 (Z.eqb_neq _ _) (rep_nonnull Hr)).
  assert (Hf : (length (inorder (N c l a r)) < walk h)%nat).
  { pose proof (rep_size _ _ _ Hr). rewrite inorder_plug, !length_app in *. unfold walk. lia. }
  revert Hr Hf. generalize (walk h). intros fuel. revert p c a r fuel. induction l as [|cl ll IH b lr _]; intros p c a r fuel Hr Hf;
    (destruct fuel as [|fuel]; [lia|]); cbn [loop]; rewrite (ld_left Hr); cbn [bind ptr]; [reflexivity|].
  unfold nonnull. rewrite (proj2 (Z.eqb_neq _ _) (rep_nonnull (p:=FL c a r :: p) Hr)). cbn [negb].
  rewrite (IH (FL c a r :: p) cl b lr); [|exact Hr|len].
  f_equal. simpl. destruct (inorder ll); reflexivity.
Qed.

(** The last node of a list, or NULL. *)
Definition last0 (L : list Z) : Z := default 0 (last L).

Lemma last0_app L1 a L2 : last0 (L1 ++ a :: L2) = if decide (L2 = []) then a else last0 L2.
Proof.
  unfold last0. rewrite last_app_cons, last_cons. destruct L2 as [|b L2]; [reflexivity|].
  rewrite decide_False by easy. destruct (last (b :: L2)) eqn:El; [reflexivity|].
  apply last_None in El. easy.
Qed.

(** Following right children from a node of the tree. *)
Lemma right_chain_ok h root p c l a r fuel : rep h root (plug p (N c l a r)) ->
  (length (inorder (N c l a r)) < fuel)%nat ->
  loop fuel (fun node => let* r := ld n_right h node in if nonnull r then Ok (inl r) else Ok (inr node)) a
  = Ok (last0 (inorder (N c l a r))).
Proof.
  revert p c a l fuel. induction r as [|cr rl _ b rr IH]; intros p c a l fuel Hr Hf;
    (destruct fuel as [|fuel]; [lia|]); cbn [loop]; rewrite (ld_right Hr); cbn [bind ptr].
  { simpl. f_equal. now rewrite last0_app. }
  unfold nonnull. rewrite (proj2 (Z.eqb_neq _ _) (rep_nonnull (p:=FR c l a :: p) Hr)). cbn [negb].
  rewrite (IH (FR c l a :: p) cr b rl); [|exact Hr|len].
  cbn [inorder]. rewrite (last0_app (inorder l)), decide_False; [reflexivity|]. now destruct (inorder rl).
Qed.

Lemma subtree_walk h root p t : rep h root (plug p t) -> (length (inorder t) < walk h)%nat.
Proof. intros Hr. pose proof (rep_size _ _ _ Hr). rewrite inorder_plug, !length_app in *. unfold walk. lia. Qed.

Lemma rb_last_ok h root p t : rep h root (plug p t) -> rb_last h (ptr t) = Ok (last0 (inorder t)).
Proof.
  intros Hr. unfold rb_last. destruct t as [|c l a r]; [reflexivity|]. cbn [ptr].
  rewrite (proj2 (Z.eqb_neq _ _) (rep_nonnull Hr)). apply (right_chain_ok _ _ _ _ _ _ _ _ Hr), (subtree_walk _ _ _ _ Hr).
Qed.

(** Climbing while the node is a right child. *)
Lemma climb_right_ok h root p t fuel : rep h root (plug p t) -> t <> E -> (length p < fuel)%nat ->
  loop fuel (fun '(node, parent) =>
    if nonnull parent then
      let* pr := ld n_right h parent in
      if node =? pr then let* parent' := ld n_parent h parent in Ok (inl (parent, parent'))
      else Ok (inr parent)
    else Ok (inr parent)) (ptr t, pptr p) = Ok (hd 0 (after p)).
Proof.
  revert t fuel. induction p as [|f p IH]; intros t fuel Hr Ht Hf; (destruct fuel as [|fuel]; [lia|]); [reflexivity|].
  cbn [loop pptr]. simpl in Hf. destruct f as [c a r|c l a]; cbn [faddr]; unfold nonnull;
    rewrite (proj2 (Z.eqb_neq _ _) (rep_nonnull (p:=p) Hr)); cbn [negb].
  - rewrite (ld_right (p:=p) Hr). cbn [bind]. now rewrite (ptr_ne_right _ _ _ _ _ _ _ Hr Ht).
  - rewrite (ld_right (p:=p) Hr), (ld_parent (p:=p) Hr). cbn [bind]. rewrite Z.eqb_refl.
    exact (IH (N c l a t) fuel Hr ltac:(easy) ltac:(lia)).
Qed.

Lemma climb_left_ok h root p t fuel : rep h root (plug p t) -> t <> E -> (length p < fuel)%nat ->
  loop fuel (fun '(node, parent) =>
    if nonnull parent then
      let* pl := ld n_left h parent in
      if node =? pl then let* parent' := ld n_parent h parent in Ok (inl (parent, parent'))
      else Ok (inr parent)
    else Ok (inr parent)) (ptr t, pptr p) = Ok (last0 (before p)).
Proof.
  revert t fuel. induction p as [|f p IH]; intros t fuel Hr Ht Hf; (destruct fuel as [|fuel]; [lia|]); [reflexivity|].
  cbn [loop pptr]. simpl in Hf. destruct f as [c a r|c l a]; cbn [faddr]; unfold nonnull;
    rewrite (proj2 (Z.eqb_neq _ _) (rep_nonnull (p:=p) Hr)); cbn [negb].
  - rewrite (ld_left (p:=p) Hr), (ld_parent (p:=p) Hr). cbn [bind]. rewrite Z.eqb_refl.
    exact (IH (N c t a r) fuel Hr ltac:(easy) ltac:(lia)).
  - rewrite (ld_left (p:=p) Hr). cbn [bind]. rewrite (ptr_ne_left _ _ _ _ _ _ _ Hr Ht).
    simpl. rewrite app_assoc. now rewrite last0_app.
Qed.

Lemma path_walk h root p t : rep h root (plug p t) -> (length p < walk h)%nat.
Proof.
  intros Hr. pose proof (rep_size _ _ _ Hr). pose proof (path_length p t). unfold walk. lia.
Qed.

Lemma rb_next_ok h root t pre a post : rep h root t -> inorder t = pre ++ a :: post -> rb_next h a = Ok (hd 0 post).
Proof.
  intros Hr HL. destruct (focus_of _ _ _ _ HL (proj2 (proj2 Hr))) as (p & c & l & r & -> & -> & ->).
  unfold rb_next. rewrite (proj2 (Z.eqb_neq _ _) (rep_nonnull Hr)), (ld_right Hr). cbn [bind].
  destruct (decide (r = E)) as [->|Hne].
  - cbn [ptr]. rewrite (ld_parent Hr). cbn [bind nonnull Z.eqb negb].
    exact (climb_right_ok _ _ p _ _ Hr ltac:(easy) (path_walk _ _ _ _ Hr)).
  - unfold nonnull. rewrite (proj2 (Z.eqb_neq _ _) (ptr_nonnull h root (FR c l a :: p) r Hr Hne)). cbn [negb].
    rewrite (rb_first_ok h root (FR c l a :: p) r Hr). f_equal. destruct r as [|cr rl b rr]; [easy|].
    simpl. destruct (inorder rl); reflexivity.
Qed.

Lemma rb_prev_ok h root t pre a post : rep h root t -> inorder t = pre ++ a :: post -> rb_prev h a = Ok (last0 pre).
Proof.
  intros Hr HL. destruct (focus_of _ _ _ _ HL (proj2 (proj2 Hr))) as (p & c & l & r & -> & -> & ->).
  unfold rb_prev. rewrite (proj2 (Z.eqb_neq _ _) (rep_nonnull Hr)), (ld_left Hr). cbn [bind].
  destruct l as [|cl ll b lr].
  - cbn [ptr]. rewrite (ld_parent Hr). cbn [bind nonnull Z.eqb negb].
    etransitivity; [exact (climb_left_ok _ _ p _ _ Hr ltac:(easy) (path_walk _ _ _ _ Hr))|].
    simpl. now rewrite app_nil_r.
  - cbn [ptr]. rewrite (nonnull_true b (rep_nonnull (p:=FL c a r :: p) Hr)).
    rewrite (right_chain_ok h root (FL c a r :: p) cl ll b lr _ Hr (subtree_walk _ _ (FL c a r :: p) _ Hr)). f_equal.
    cbn [inorder]. now rewrite app_assoc, !last0_app.
Qed.

(** * Ranges *)

(** The nodes from [lo] (inclusive) up to [hi] (exclusive), NULL meaning no
    bound. *)
Definition in_range (cmp : Z -> Z -> Z) (lo hi x : Z) : bool :=
  negb (nonnull lo && (cmp x lo <? 0)) && negb (beyond cmp hi x).

Fixpoint first_ge (cmp : Z -> Z -> Z) (lo : Z) (t : tree) (start : Z) : Z :=
  match t with
  | E => start
  | N _ l a r => if 0 <=? cmp a lo then first_ge cmp lo l a else first_ge cmp lo r start
  end.

Lemma find_first_ge_loop cmp h root lo t p start fuel : rep h root (plug p t) -> (length (inorder t) < fuel)%nat ->
  loop fuel (fun '(tree, start) =>
    if nonnull tree then
      if 0 <=? cmp tree lo then let* l := ld n_left h tree in Ok (inl (l, tree))
      else let* r := ld n_right h tree in Ok (inl (r, start))
    else Ok (inr start)) (ptr t, start) = Ok (first_ge cmp lo t start).
Proof.
  revert p start fuel. induction t as [|c l IHl a r IHr]; intros p start fuel Hr Hf; (destruct fuel as [|fuel]; [lia|]).
  { reflexivity. }
  cbn [loop ptr first_ge]. unfold nonnull. rewrite (proj2 (Z.eqb_neq _ _) (rep_nonnull Hr)). cbn [negb].
  rewrite (ld_left Hr), (ld_right Hr). cbn [bind].
  destruct (0 <=? cmp a lo); [apply (IHl (FL c a r :: p))|apply (IHr (FR c l a :: p))]; auto; len.
Qed.

Section Ranges.
Context (cmp : Z -> Z -> Z) `{!GoodCmp cmp}.

(** A node at or above [lo] is followed by such nodes only. *)
Lemma ge_mono lo x y : cmp x y <= 0 -> 0 <= cmp x lo -> 0 <= cmp y lo.
Proof. rewrite !(cmp_ge cmp _ lo). intros H1 H2. now apply (cmp_le_trans (cmp:=cmp) lo x y). Qed.

Lemma first_ge_ok lo t start : ordered cmp (inorder t) ->
  exists pre post, inorder t = pre ++ post /\ first_ge cmp lo t start = hd start post /\
    Forall (fun x => cmp x lo < 0) pre /\ Forall (fun x => 0 <= cmp x lo) post.
Proof.
  revert start. induction t as [|c l IHl a r IHr]; intros start Ho; simpl; [exists [], []; auto|].
  apply ordered_app in Ho as (Ho1 & Ho2 & Ho3); [|exact _]. apply StronglySorted_inv in Ho2 as [Ho2 Ho4].
  destruct (0 <=? cmp a lo) eqn:Ea; to_prop.
  - destruct (IHl a Ho1) as (pre & post & -> & -> & Hpre & Hpost).
    exists pre, (post ++ a :: inorder r). rewrite <- app_assoc. split; [reflexivity|].
    split; [destruct post; reflexivity|]. split; [exact Hpre|]. apply Forall_app. split; [exact Hpost|].
    constructor; [exact Ea|]. eapply Forall_impl; [exact Ho4|]. intros x Hx. now apply (ge_mono lo a).
  - destruct (IHr start Ho2) as (pre & post & -> & -> & Hpre & Hpost).
    exists (inorder l ++ a :: pre), post. rewrite <- app_assoc. split; [reflexivity|]. split; [reflexivity|].
    split; [|exact Hpost]. apply Forall_app. split; [|now constructor].
    apply Forall_forall. intros x Hx. destruct (Z.lt_ge_cases (cmp x lo) 0) as [|Hge]; [assumption|].
    pose proof (ge_mono lo x a (Ho3 x a Hx ltac:(left)) ltac:(lia)). lia.
Qed.

Lemma rb_find_first_ge_ok h root t lo : rep h root t -> ordered cmp (inorder t) ->
  exists pre post, inorder t = pre ++ post /\ rb_find_first_ge cmp h root lo = Ok (hd 0 post) /\
    Forall (fun x => nonnull lo && (cmp x lo <? 0) = true) pre /\
    Forall (fun x => nonnull lo && (cmp x lo <? 0) = false) post.
Proof.
  intros Hr Ho. unfold rb_find_first_ge. rewrite <- (proj1 (proj2 Hr)).
  destruct t as [|c l a r]; [exists [], []; auto|]. cbn [ptr].
  rewrite (proj2 (Z.eqb_neq _ _) (rep_nonnull (p:=[]) Hr)). destruct (lo =? 0) eqn:El; unfold nonnull; rewrite El.
  - exists [], (inorder (N c l a r)). split; [reflexivity|]. split; [|split; [constructor|]].
    + exact (rb_first_ok h root [] (N c l a r) Hr).
    + apply Forall_forall. reflexivity.
  - destruct (first_ge_ok lo (N c l a r) 0 Ho) as (pre & post & HL & Hf & Hpre & Hpost).
    exists pre, post. split; [exact HL|]. split; [|split].
    + rewrite <- Hf. exact (find_first_ge_loop cmp h root lo (N c l a r) [] 0 _ Hr (subtree_walk _ _ [] _ Hr)).
    + eapply Forall_impl; [exact Hpre|]. simpl. intros x Hx. now apply Z.ltb_lt.
    + eapply Forall_impl; [exact Hpost|]. simpl. intros x Hx. now apply Z.ltb_ge.
Qed.

(** The bound [hi] cuts a tail off an ordered list. *)
Lemma beyond_mono hi x y : cmp x y <= 0 -> beyond cmp hi x = true -> beyond cmp hi y = true.
Proof.
  unfold beyond. rewrite !andb_true_iff, !Z.leb_le. intros H1 [H2 H3]. split; [exact H2|]. now apply (ge_mono hi x).
Qed.

Lemma filter_none {A} (f : A -> bool) l : Forall (fun x => f x = false) l -> List.filter f l = [].
Proof. induction 1 as [|x l Hx Hl IH]; simpl; [reflexivity|]. now rewrite Hx. Qed.

Lemma beyond_cut hi x L : ordered cmp (x :: L) -> beyond cmp hi x = true ->
  List.filter (fun y => negb (beyond cmp hi y)) (x :: L) = [].
Proof.
  intros Ho Hx. apply StronglySorted_inv in Ho as [_ Ho]. apply filter_none. constructor; [now rewrite Hx|].
  eapply Forall_impl; [exact Ho|]. intros y Hy. simpl. now rewrite (beyond_mono hi x y Hy Hx).
Qed.

Lemma take_filter_cons {A} (n : nat) (f : A -> bool) (x : A) l : f x = true ->
  take (S n) (List.filter f (x :: l)) = x :: take n (List.filter f l).
Proof. intros Hx. simpl. now rewrite Hx. Qed.

Lemma snapshot_loop h root t hi max pre post out fuel :
  rep h root t -> ordered cmp (inorder t) -> inorder t = pre ++ post -> (length post < fuel)%nat ->
  (Z.of_nat (length out) <= max) ->
  loop fuel (fun '(cur, out) =>
    if nonnull cur && (Z.of_nat (length out) <? max) then
      if beyond cmp hi cur then Ok (inr out)
      else let* next := rb_next h cur in Ok (inl (next, out ++ [cur]))
    else Ok (inr out)) (hd 0 post, out)
  = Ok (out ++ take (Z.to_nat (max - Z.of_nat (length out))) (List.filter (fun x => negb (beyond cmp hi x)) post)).
Proof.
  intros Hr Ho. revert pre out fuel. induction post as [|x post IH]; intros pre out fuel HL Hf Hm; (destruct fuel as [|fuel]; [lia|]).
  { simpl. now rewrite take_nil, app_nil_r. }
  cbn [loop hd]. assert (Hx : x <> 0) by (apply (rep_addr _ _ _ _ Hr); rewrite HL; set_solver).
  rewrite (nonnull_true _ Hx). cbn [andb]. destruct (Z.of_nat (length out) <? max) eqn:Em; to_prop.
  2: { replace (Z.to_nat _) with 0%nat by lia. simpl. now rewrite app_nil_r. }
  destruct (beyond cmp hi x) eqn:Eb.
  { rewrite beyond_cut; [now rewrite take_nil, app_nil_r| |exact Eb]. rewrite HL in Ho. now apply ordered_app in Ho as (_ & Ho & _). }
  rewrite (rb_next_ok _ _ _ _ _ _ Hr HL). cbn [bind].
  rewrite (IH (pre ++ [x])); [|now rewrite <- app_assoc|simpl in Hf; lia|rewrite length_app; simpl; lia].
  replace (Z.to_nat (max - Z.of_nat (length out))) with (S (Z.to_nat (max - Z.of_nat (length (out ++ [x]))))) by len.
  rewrite take_filter_cons by now rewrite Eb. now rewrite <- app_assoc.
Qed.

Lemma rb_snapshot_range_ok r h L lo hi max : rb_ok cmp r h L -> 0 <= max ->
  rb_snapshot_range cmp r h lo hi max = Ok (take (Z.to_nat max) (List.filter (in_range cmp lo hi) L)).
Proof.
  intros (t & Hr & _ & <- & Ho & _) Hm. unfold rb_snapshot_range. destruct (max =? 0) eqn:E0; to_prop; [now subst|].
  destruct (rb_find_first_ge_ok h _ t lo Hr Ho) as (pre & post & HL & -> & Hpre & Hpost). cbn [bind].
  rewrite (snapshot_loop h _ t hi max pre post [] _ Hr Ho HL); [|pose proof (rep_size _ _ _ Hr); rewrite HL in *; unfold walk; len|simpl; lia].
  simpl. rewrite Z.sub_0_r. do 2 f_equal. rewrite HL, List.filter_app.
  rewrite (filter_none (in_range cmp lo hi) pre); [|eapply Forall_impl; [exact Hpre|]; intros x Hx; unfold in_range; now rewrite Hx].
  simpl. clear -Hpost. induction Hpost as [|x post Hx _ IH]; simpl; [reflexivity|]. unfold in_range at 1. now rewrite Hx, IH.
Qed.

(** [rb_snapshot_range] writes the first [max_nodes] nodes of the tree, in
    order, that are not below [lo_key] and are below [hi_key], with no bound
    where the key is NULL, and nothing else. *)
Theorem rb_snapshot_range_correct r h L lo hi max : rb_ok cmp r h L -> 0 <= max ->
  rb_snapshot_range cmp r h lo hi max = Ok (take (Z.to_nat max) (List.filter (in_range cmp lo hi) L)).
Proof. apply rb_snapshot_range_ok. Qed.
End Ranges.

Lemma rb_snapshot_range_correct_witness : rb_snapshot_range Z.sub three.1 three.2 2 0 1 = Ok [2].
Proof.
  refine (rb_snapshot_range_correct Z.sub three.1 three.2 (inorder three_tree) 2 0 1 _ _).
  - apply rb_ok_check. vm_compute. reflexivity.
  - lia.
Defined.

(** The nodes whose flags match. *)
Definition flag_match (h : heap) (flag_mask : Z) (match_exact : bool) (x : Z) : bool :=
  if match_exact then Z.land (flags_at h x) RB_FLAG_TEMP_MASK =? flag_mask
  else negb (Z.land (flags_at h x) flag_mask =? 0).

Lemma rb_snapshot_by_flag_ok cmp r h L mask exact max : rb_ok cmp r h L -> 0 <= max ->
  rb_snapshot_by_flag r h mask exact max = Ok (take (Z.to_nat max) (List.filter (flag_match h mask exact) L)).
Proof.
  intros (t & Hr & _ & <- & _) Hm. unfold rb_snapshot_by_flag. destruct (max =? 0) eqn:E0; to_prop; [now subst|].
  rewrite <- (proj1 (proj2 Hr)), (rb_first_ok h _ [] t Hr). cbn [bind].
  assert (Hgo : forall pre post out fuel, inorder t = pre ++ post -> (length post < fuel)%nat -> Z.of_nat (length out) <= max ->
    loop fuel (fun '(cur, out) =>
      if nonnull cur && (Z.of_nat (length out) <? max) then
        let* flags := ld n_flags h cur in
        let matches := if exact then Z.land flags RB_FLAG_TEMP_MASK =? mask else negb (Z.land flags mask =? 0) in
        let out := if (matches : bool) then out ++ [cur] else out in
        let* next := rb_next h cur in Ok (inl (next, out))
      else Ok (inr out)) (hd 0 post, out)
    = Ok (out ++ take (Z.to_nat (max - Z.of_nat (length out))) (List.filter (flag_match h mask exact) post))).
  { intros pre post. revert pre. induction post as [|x post IH]; intros pre out fuel HL Hf Hm'; (destruct fuel as [|fuel]; [lia|]).
    { simpl. now rewrite take_nil, app_nil_r. }
    cbn [loop hd]. assert (Hin : x ∈ inorder t) by (rewrite HL; set_solver).
    rewrite (nonnull_true _ (rep_addr _ _ _ _ Hr Hin)). cbn [andb]. destruct (Z.of_nat (length out) <? max) eqn:Em; to_prop.
    2: { replace (Z.to_nat _) with 0%nat by lia. simpl. now rewrite app_nil_r. }
    destruct (ok_lookup _ _ _ _ Hr Hin) as [n Hn]. rewrite (ld_ok _ _ _ _ Hn (rep_addr _ _ _ _ Hr Hin)). cbn [bind].
    rewrite <- (flags_at_lookup _ _ _ Hn). fold (flag_match h mask exact x).
    rewrite (rb_next_ok _ _ _ _ _ _ Hr HL). cbn [bind].
    rewrite (IH (pre ++ [x])); [|now rewrite <- app_assoc|simpl in Hf; lia|case_bool; len].
    cbn [List.filter]. destruct (flag_match h mask exact x); [|reflexivity].
    replace (Z.to_nat (max - Z.of_nat (length out))) with (S (Z.to_nat (max - Z.of_nat (length (out ++ [x]))))) by len.
    now rewrite <- app_assoc. }
  rewrite (Hgo [] (inorder t) []); [|reflexivity|exact (subtree_walk _ _ [] _ Hr)|simpl; lia].
  simpl. now rewrite Z.sub_0_r.
Qed.
