(* ===== verification/RBErase.v ===== *)
(** Deletion from the red-black tree: [rb_erase_fixup] repairs a missing black
    node, and [rb_erase] removes exactly the given node. *)
From stdpp Require Import base gmap list fin_maps.
From Stdlib Require Import ZArith Lia Sorting.Sorted.
From S2P Require Import Prelude RBTree RBRep RBInsert RBSearch.

Open Scope Z_scope.
Open Scope c_scope.

(** * The fixup *)

Definition blacken (t : tree) : tree :=
  match t with
  | E => E
  | N _ l a r => N RB_BLACK l a r
  end.

(** [t] stands where [S n] black nodes are expected: it has one too few, or it
    is red and blackening it supplies the missing one. *)
Definition short (t : tree) (n : nat) : Prop :=
  (color_of t = RB_RED /\ rbt (blacken t) RB_BLACK (S n)) \/ rbt t RB_BLACK n.

Lemma rbt_short t c n : rbt t c n -> short t n.
Proof.
  intros H. inversion H; subst; [right; constructor| |right; econstructor; eauto].
  left. split; [reflexivity|]. simpl. econstructor; eauto.
Qed.

Definition erase_inv (h0 : heap) (L : list Z) (g : list frame * tree) (s : heap * Z * Z * Z) : Prop :=
  let '(h, root, node, parent) := s in
  let '(p, t) := g in
  repd h0 h root (plug p t) /\ node = ptr t /\ parent = pptr p /\ inorder (plug p t) = L /\
  exists n, short t n /\ (p = [] \/ exists c, ctx p c (S n)).

(** Blackening the node the loop leaves makes the tree red-black. *)
Definition erase_done (h0 : heap) (L : list Z) (s : heap * Z * Z) : Prop :=
  let '(h, root, node) := s in
  exists p t, repd h0 h root (plug p t) /\ node = ptr t /\ inorder (plug p t) = L /\ red_black (plug p (blacken t)).

(** Every round climbs, or leaves a red node. *)
Definition erase_rank (g : list frame * tree) : nat :=
  2 * length g.1 + (if color_of g.2 =? RB_RED then 0 else 1).

Definition erase_next (h0 : heap) (L : list Z) (m : nat) (x : heap * Z * Z * Z + heap * Z * Z) : Prop :=
  match x with
  | inl s => exists g, erase_inv h0 L g s /\ (erase_rank g < m)%nat
  | inr s => erase_done h0 L s
  end.

Lemma red_black_blacken t : red_black t -> blacken t = t.
Proof. intros [n H]. now inversion H. Qed.

(** Leaving with a red-black tree. *)
Lemma erase_exit h0 L h root t m : repd h0 h root t -> red_black t -> inorder t = L ->
  erase_next h0 L m (inr (h, root, root)).
Proof.
  intros Hr Hrb HL. exists [], t. split; [exact Hr|]. split; [symmetry; apply Hr|]. split; [exact HL|].
  simpl. now rewrite red_black_blacken.
Qed.

(** Recolouring a possibly empty subtree. *)
Lemma wp_blacken {A} (k : heap -> res A) (Q : A -> Prop) h0 h root p t :
  repd h0 h root (plug p t) ->
  (forall h', repd h0 h' root (plug p (blacken t)) -> wp (k h') Q) ->
  wp (bind (if nonnull (ptr t) then st (set_color RB_BLACK) h (ptr t) else Ok h) k) Q.
Proof.
  intros Hr Hk. destruct t as [|c l a r]; [apply Hk, Hr|]. cbn [ptr].
  rewrite (nonnull_true _ (rep_nonnull (proj1 Hr))). now apply (wp_color _ _ _ _ _ _ p c l a r Hr).
Qed.

(** The final rotation: sibling [b] black with a red far child. *)
Lemma last_rotation_left h0 L m h root p c t a sl b sr n cl cr c' :
  repd h0 h root (plug p (N c t a (N RB_BLACK sl b sr))) -> rbt t RB_BLACK n -> rbt sl cl n -> rbt sr cr n ->
  color_of sr = RB_RED -> ctx (FL c a (N RB_BLACK sl b sr) :: p) c' (S n) ->
  inorder (plug p (N c t a (N RB_BLACK sl b sr))) = L ->
  wp (let* pc := ld n_color h a in
      let* h := st (set_color pc) h b in
      let* h := st (set_color RB_BLACK) h a in
      let* sr := ld n_right h b in
      let* h := if nonnull sr then st (set_color RB_BLACK) h sr else Ok h in
      let* (h, root) := rb_rotate_left h root a in
      Ok (inr (h, root, root))) (erase_next h0 L m).
Proof.
  intros Hr Ht Hsl Hsr Hred Hc HL. rewrite (ld_color (proj1 Hr)). cbn [bind].
  apply (wp_color _ _ _ _ _ _ (FR c t a :: p) _ _ _ _ Hr). intros h1 H1.
  apply (wp_color _ _ _ _ _ _ p _ _ _ _ H1). intros h2 H2.
  rewrite (ld_right (p:=FR RB_BLACK t a :: p) (proj1 H2)). cbn [bind].
  apply (wp_blacken _ _ _ _ _ (FR c sl b :: FR RB_BLACK t a :: p) _ H2). intros h3 H3.
  apply (wp_rotate_left _ _ _ _ _ p _ _ _ _ _ _ _ H3). intros h4 root4 H4. cbn [wp].
  apply (erase_exit _ _ _ _ _ _ H4).
  - inversion Hsr; subst; try easy. inversion Hc; subst.
    + eapply plug_rbt; [eauto|econstructor; econstructor; eauto|easy].
    + eapply plug_rbt; [eauto|constructor; econstructor; eauto|easy].
  - subst L. destruct sr; [easy|]. same_order.
Qed.

Lemma last_rotation_right h0 L m h root p c t a sl b sr n cl cr c' :
  repd h0 h root (plug p (N c (N RB_BLACK sl b sr) a t)) -> rbt t RB_BLACK n -> rbt sl cl n -> rbt sr cr n ->
  color_of sl = RB_RED -> ctx (FR c (N RB_BLACK sl b sr) a :: p) c' (S n) ->
  inorder (plug p (N c (N RB_BLACK sl b sr) a t)) = L ->
  wp (let* pc := ld n_color h a in
      let* h := st (set_color pc) h b in
      let* h := st (set_color RB_BLACK) h a in
      let* sl := ld n_left h b in
      let* h := if nonnull sl then st (set_color RB_BLACK) h sl else Ok h in
      let* (h, root) := rb_rotate_right h root a in
      Ok (inr (h, root, root))) (erase_next h0 L m).
Proof.
  intros Hr Ht Hsl Hsr Hred Hc HL. rewrite (ld_color (proj1 Hr)). cbn [bind].
  apply (wp_color _ _ _ _ _ _ (FL c a t :: p) _ _ _ _ Hr). intros h1 H1.
  apply (wp_color _ _ _ _ _ _ p _ _ _ _ H1). intros h2 H2.
  rewrite (ld_left (p:=FL RB_BLACK a t :: p) (proj1 H2)). cbn [bind].
  apply (wp_blacken _ _ _ _ _ (FL c b sr :: FL RB_BLACK a t :: p) _ H2). intros h3 H3.
  apply (wp_rotate_right _ _ _ _ _ p _ _ _ _ _ _ _ H3). intros h4 root4 H4. cbn [wp].
  apply (erase_exit _ _ _ _ _ _ H4).
  - inversion Hsl; subst; try easy. inversion Hc; subst.
    + eapply plug_rbt; [eauto|econstructor; econstructor; eauto|easy].
    + eapply plug_rbt; [eauto|constructor; econstructor; eauto|easy].
  - subst L. destruct sl; [easy|]. same_order.
Qed.

Lemma color_black t c n : rbt t c n -> (color_of t =? RB_BLACK) = negb (color_of t =? RB_RED).
Proof. now inversion 1. Qed.

Lemma color_red t c n : rbt t c n -> (color_of t =? RB_BLACK) = false -> color_of t = RB_RED.
Proof. intros H. rewrite (color_black _ _ _ H). now inversion H; subst. Qed.

(** The missing black node moves up to the parent. *)
Lemma short_up_left c c' a t sl b sr n cl cr p :
  rbt t RB_BLACK n -> rbt sl cl n -> rbt sr cr n -> (color_of sl =? RB_BLACK) = true -> (color_of sr =? RB_BLACK) = true ->
  ctx (FL c a (N RB_BLACK sl b sr) :: p) c' (S n) ->
  exists m, short (N c t a (N RB_RED sl b sr)) m /\ exists d, ctx p d (S m).
Proof.
  intros Ht Hsl Hsr El Er Hc. rewrite (color_black _ _ _ Hsl), negb_true_iff in El. rewrite (color_black _ _ _ Hsr), negb_true_iff in Er.
  pose proof (rbt_black _ _ _ Hsl El). pose proof (rbt_black _ _ _ Hsr Er). inversion Hc; subst.
  - exists (S n). split; [right; econstructor; eauto with rbdb|eauto].
  - exists n. split; [left; split; [reflexivity|]; simpl; econstructor; eauto with rbdb|eauto].
Qed.

Lemma short_up_right c c' a t sl b sr n cl cr p :
  rbt t RB_BLACK n -> rbt sl cl n -> rbt sr cr n -> (color_of sl =? RB_BLACK) = true -> (color_of sr =? RB_BLACK) = true ->
  ctx (FR c (N RB_BLACK sl b sr) a :: p) c' (S n) ->
  exists m, short (N c (N RB_RED sl b sr) a t) m /\ exists d, ctx p d (S m).
Proof.
  intros Ht Hsl Hsr El Er Hc. rewrite (color_black _ _ _ Hsl), negb_true_iff in El. rewrite (color_black _ _ _ Hsr), negb_true_iff in Er.
  pose proof (rbt_black _ _ _ Hsl El). pose proof (rbt_black _ _ _ Hsr Er). inversion Hc; subst.
  - exists (S n). split; [right; econstructor; eauto with rbdb|eauto].
  - exists n. split; [left; split; [reflexivity|]; simpl; econstructor; eauto with rbdb|eauto].
Qed.

(** Swapping the sibling subtree for another of the same height and colour. *)
Lemma ctx_sibling_left c a s s' p c' n : ctx (FL c a s :: p) c' n -> rbt s RB_BLACK n -> rbt s' RB_BLACK n -> ctx (FL c a s' :: p) c' n.
Proof. intros Hc Hs Hs'. inversion Hc; subst; econstructor; eauto. Qed.

Lemma ctx_sibling_right c a s s' p c' n : ctx (FR c s a :: p) c' n -> rbt s RB_BLACK n -> rbt s' RB_BLACK n -> ctx (FR c s' a :: p) c' n.
Proof. intros Hc Hs Hs'. inversion Hc; subst; econstructor; eauto. Qed.

Lemma erase_black_left_ok h0 L m h root p c t a sl b sr n cl cr c' :
  repd h0 h root (plug p (N c t a (N RB_BLACK sl b sr))) -> rbt t RB_BLACK n -> rbt sl cl n -> rbt sr cr n ->
  ctx (FL c a (N RB_BLACK sl b sr) :: p) c' (S n) -> inorder (plug p (N c t a (N RB_BLACK sl b sr))) = L ->
  (2 * length p + (if (c =? RB_RED)%Z then 0 else 1) < m)%nat ->
  wp (erase_black_left h root a b) (erase_next h0 L m).
Proof.
  intros Hr Ht Hsl Hsr Hc HL Hm. unfold erase_black_left.
  at_focus Hr (FR c t a :: p).
  rewrite (is_black_ok _ _ (FL RB_BLACK b sr :: FR c t a :: p) sl (proj1 Hr)),
    (is_black_ok _ _ (FR RB_BLACK sl b :: FR c t a :: p) sr (proj1 Hr)). cbn [bind].
  destruct (color_of sr =? RB_BLACK) eqn:Er; [destruct (color_of sl =? RB_BLACK) eqn:El|rewrite andb_false_r]; cbn [andb].
  - apply (wp_color _ _ _ _ _ _ (FR c t a :: p) _ _ _ _ Hr). intros h1 H1. at_focus H1 p. cbn [wp].
    exists (p, N c t a (N RB_RED sl b sr)). split; [|exact Hm].
    destruct (short_up_left c c' a t sl b sr n cl cr p) as (k & Hk & Hd); auto.
    split; [exact H1|]. split; [reflexivity|]. split; [reflexivity|]. split; [subst L; same_order|eauto].
  - pose proof (color_red _ _ _ Hsl El) as Hred. destruct sl as [|cx xl x xr]; [easy|]. simpl in Hred. subst cx.
    inversion Hsl as [|? ? ? ? Hxl Hxr|]; subst. rewrite (color_black _ _ _ Hsr), negb_true_iff in Er.
    pose proof (rbt_black _ _ _ Hsr Er) as Hsr'. cbn [ptr].
    apply (wp_bind (let* _ := _ in _)).
    apply (wp_blacken _ _ _ _ _ (FL RB_BLACK b sr :: FR c t a :: p) (N RB_RED xl x xr) Hr). intros h1 H1. cbn [blacken] in H1.
    apply (wp_color _ _ _ _ _ _ (FR c t a :: p) _ _ _ _ H1). intros h2 H2.
    apply (wp_rotate_right _ _ _ _ _ (FR c t a :: p) _ _ _ _ _ _ _ H2). intros h3 root3 H3.
    at_focus H3 p. cbn [wp].
    eapply (last_rotation_left _ _ _ _ _ p c t a xl x (N RB_RED xr b sr)); eauto with rbdb; [|same_order].
    eapply ctx_sibling_left; [exact Hc|eauto with rbdb..].
  - cbn [bind]. eapply last_rotation_left; eauto. now apply (color_red _ _ _ Hsr).
Qed.

Lemma erase_black_right_ok h0 L m h root p c t a sl b sr n cl cr c' :
  repd h0 h root (plug p (N c (N RB_BLACK sl b sr) a t)) -> rbt t RB_BLACK n -> rbt sl cl n -> rbt sr cr n ->
  ctx (FR c (N RB_BLACK sl b sr) a :: p) c' (S n) -> inorder (plug p (N c (N RB_BLACK sl b sr) a t)) = L ->
  (2 * length p + (if (c =? RB_RED)%Z then 0 else 1) < m)%nat ->
  wp (erase_black_right h root a b) (erase_next h0 L m).
Proof.
  intros Hr Ht Hsl Hsr Hc HL Hm. unfold erase_black_right.
  at_focus Hr (FL c a t :: p).
  rewrite (is_black_ok _ _ (FL RB_BLACK b sr :: FL c a t :: p) sl (proj1 Hr)),
    (is_black_ok _ _ (FR RB_BLACK sl b :: FL c a t :: p) sr (proj1 Hr)). cbn [bind].
  destruct (color_of sl =? RB_BLACK) eqn:El; [destruct (color_of sr =? RB_BLACK) eqn:Er|]; cbn [andb].
  - apply (wp_color _ _ _ _ _ _ (FL c a t :: p) _ _ _ _ Hr). intros h1 H1. at_focus H1 p. cbn [wp].
    exists (p, N c (N RB_RED sl b sr) a t). split; [|exact Hm].
    destruct (short_up_right c c' a t sl b sr n cl cr p) as (k & Hk & Hd); auto.
    split; [exact H1|]. split; [reflexivity|]. split; [reflexivity|]. split; [subst L; same_order|eauto].
  - pose proof (color_red _ _ _ Hsr Er) as Hred. destruct sr as [|cx xl x xr]; [easy|]. simpl in Hred. subst cx.
    inversion Hsr as [|? ? ? ? Hxl Hxr|]; subst. rewrite (color_black _ _ _ Hsl), negb_true_iff in El.
    pose proof (rbt_black _ _ _ Hsl El) as Hsl'. cbn [ptr].
    apply (wp_bind (let* _ := _ in _)).
    apply (wp_blacken _ _ _ _ _ (FR RB_BLACK sl b :: FL c a t :: p) (N RB_RED xl x xr) Hr). intros h1 H1. cbn [blacken] in H1.
    apply (wp_color _ _ _ _ _ _ (FL c a t :: p) _ _ _ _ H1). intros h2 H2.
    apply (wp_rotate_left _ _ _ _ _ (FL c a t :: p) _ _ _ _ _ _ _ H2). intros h3 root3 H3.
    at_focus H3 p. cbn [wp].
    eapply (last_rotation_right _ _ _ _ _ p c t a (N RB_RED sl b xl) x xr); eauto with rbdb; [|same_order].
    eapply ctx_sibling_right; [exact Hc|eauto with rbdb..].
  - cbn [bind]. eapply last_rotation_right; eauto. now apply (color_red _ _ _ Hsl).
Qed.

(** The sibling of a subtree that is short of a black node is not empty. *)
Lemma sibling_left c a s p c' n : ctx (FL c a s :: p) c' (S n) ->
  exists cs l b r, s = N cs l b r /\
    ((cs = RB_RED /\ c = RB_BLACK /\ c' = RB_BLACK /\ rbt l RB_BLACK (S n) /\ rbt r RB_BLACK (S n) /\ exists d, ctx p d (S (S n))) \/
     (cs = RB_BLACK /\ exists cl cr, rbt l cl n /\ rbt r cr n)).
Proof.
  intros Hc. inversion Hc as [|? ? ? ? ? ? Hs|? ? ? ? ? ? Hs|? ? ? ? Hs|? ? ? ? Hs]; subst; inversion Hs; subst; eauto 15.
Qed.

Lemma sibling_right c a s p c' n : ctx (FR c s a :: p) c' (S n) ->
  exists cs l b r, s = N cs l b r /\
    ((cs = RB_RED /\ c = RB_BLACK /\ c' = RB_BLACK /\ rbt l RB_BLACK (S n) /\ rbt r RB_BLACK (S n) /\ exists d, ctx p d (S (S n))) \/
     (cs = RB_BLACK /\ exists cl cr, rbt l cl n /\ rbt r cr n)).
Proof.
  intros Hc. inversion Hc as [|? ? ? ? ? ? Hs|? ? ? ? ? ? Hs|? ? ? ? Hs|? ? ? ? Hs]; subst; inversion Hs; subst; eauto 15.
Qed.

(** A round for a black left child. *)
Lemma erase_round_left h0 L h root p c a s t n c' :
  repd h0 h root (plug (FL c a s :: p) t) -> rbt t RB_BLACK n -> ctx (FL c a s :: p) c' (S n) ->
  inorder (plug (FL c a s :: p) t) = L ->
  wp (erase_round h root (ptr t) a) (erase_next h0 L (2 * length (FL c a s :: p) + 1)).
Proof.
  intros Hr Ht Hc HL. destruct (sibling_left _ _ _ _ _ _ Hc) as (cs & sl & b & sr & -> & Hcase). unfold erase_round.
  rewrite (focus_not_root _ _ _ _ _ (proj1 Hr)), (is_black_ok _ _ _ _ (proj1 Hr)), (rbt_color _ _ _ Ht).
  cbn [bind negb Z.eqb RB_BLACK Pos.eqb]. at_focus Hr p. rewrite Z.eqb_refl. at_focus Hr p.
  rewrite (proj2 (Z.eqb_neq _ _) (rep_nonnull (p:=FR c t a :: p) (proj1 Hr))). at_focus Hr (FR c t a :: p).
  destruct Hcase as [(-> & -> & -> & Hsl & Hsr & d & Hp)|(-> & cl & cr & Hsl & Hsr)].
  - rewrite Z.eqb_refl. apply (wp_color _ _ _ _ _ _ (FR RB_BLACK t a :: p) _ _ _ _ Hr). intros h1 H1.
    apply (wp_color _ _ _ _ _ _ p _ _ _ _ H1). intros h2 H2.
    apply (wp_rotate_left _ _ _ _ _ p _ _ _ _ _ _ _ H2). intros h3 root3 H3.
    at_focus H3 (FL RB_BLACK b sr :: p). inversion Hsl as [| |xl x xr k cl cr Hxl Hxr]; subst. cbn [ptr].
    rewrite (proj2 (Z.eqb_neq _ _) (rep_nonnull (p:=FR RB_RED t a :: FL RB_BLACK b sr :: p) (proj1 H3))).
    eapply (erase_black_left_ok _ _ _ _ _ (FL RB_BLACK b sr :: p)); [exact H3|eauto with rbdb..| |simpl; lia]. same_order.
  - cbn [Z.eqb RB_BLACK RB_RED]. eapply (erase_black_left_ok _ _ _ _ _ p); [exact Hr|eauto..|].
    case_bool; simpl; lia.
Qed.

Lemma erase_round_right h0 L h root p c a s t n c' :
  repd h0 h root (plug (FR c s a :: p) t) -> rbt t RB_BLACK n -> ctx (FR c s a :: p) c' (S n) ->
  inorder (plug (FR c s a :: p) t) = L ->
  wp (erase_round h root (ptr t) a) (erase_next h0 L (2 * length (FR c s a :: p) + 1)).
Proof.
  intros Hr Ht Hc HL. destruct (sibling_right _ _ _ _ _ _ Hc) as (cs & sl & b & sr & -> & Hcase). unfold erase_round.
  rewrite (focus_not_root _ _ _ _ _ (proj1 Hr)), (is_black_ok _ _ _ _ (proj1 Hr)), (rbt_color _ _ _ Ht).
  cbn [bind negb Z.eqb RB_BLACK Pos.eqb]. at_focus Hr p.
  rewrite (focus_ne_left _ _ _ _ _ _ _ (proj1 Hr) ltac:(easy) : (ptr t =? b) = false).
  rewrite (proj2 (Z.eqb_neq _ _) (rep_nonnull (p:=FL c a t :: p) (proj1 Hr))). at_focus Hr (FL c a t :: p).
  destruct Hcase as [(-> & -> & -> & Hsl & Hsr & d & Hp)|(-> & cl & cr & Hsl & Hsr)].
  - rewrite Z.eqb_refl. apply (wp_color _ _ _ _ _ _ (FL RB_BLACK a t :: p) _ _ _ _ Hr). intros h1 H1.
    apply (wp_color _ _ _ _ _ _ p _ _ _ _ H1). intros h2 H2.
    apply (wp_rotate_right _ _ _ _ _ p _ _ _ _ _ _ _ H2). intros h3 root3 H3.
    at_focus H3 (FR RB_BLACK sl b :: p). inversion Hsr as [| |xl x xr k cl cr Hxl Hxr]; subst. cbn [ptr].
    rewrite (proj2 (Z.eqb_neq _ _) (rep_nonnull (p:=FL RB_RED a t :: FR RB_BLACK sl b :: p) (proj1 H3))).
    eapply (erase_black_right_ok _ _ _ _ _ (FR RB_BLACK sl b :: p)); [exact H3|eauto with rbdb..| |simpl; lia]. same_order.
  - cbn [Z.eqb RB_BLACK RB_RED]. eapply (erase_black_right_ok _ _ _ _ _ p); [exact Hr|eauto..|].
    case_bool; simpl; lia.
Qed.

Lemma erase_round_ok h0 L g s : erase_inv h0 L g s ->
  let '(h, root, node, parent) := s in wp (erase_round h root node parent) (erase_next h0 L (erase_rank g)).
Proof.
  destruct s as [[[h root] node] parent], g as [p t]. intros (Hr & -> & -> & HL & n & Hs & Hp).
  destruct p as [|f p].
  { unfold erase_round. rewrite (proj2 (Z.eqb_eq (ptr t) root) (proj1 (proj2 (proj1 Hr)))). exists [], t.
    split; [exact Hr|]. split; [reflexivity|]. split; [exact HL|].
    destruct Hs as [[_ Hs]|Hs]; [now exists (S n)|]. simpl. exists n. now rewrite red_black_blacken by now exists n. }
  destruct Hp as [|[c Hp]]; [easy|]. destruct Hs as [[Hc Hs]|Hs].
  - unfold erase_round. rewrite (focus_not_root _ _ _ _ _ (proj1 Hr)), (is_black_ok _ _ _ _ (proj1 Hr)), Hc.
    exists (f :: p), t. split; [exact Hr|]. split; [reflexivity|]. split; [exact HL|]. eapply plug_rbt; eauto.
  - unfold erase_rank. cbn [fst snd]. rewrite (rbt_color _ _ _ Hs).
    destruct f; [eapply erase_round_left|eapply erase_round_right]; eauto.
Qed.

Lemma rb_erase_fixup_ok h0 h root p t n : repd h0 h root (plug p t) -> short t n -> (p = [] \/ exists c, ctx p c (S n)) ->
  wp (rb_erase_fixup h root (ptr t) (pptr p)) (fun '(h', root') => exists t', repd h0 h' root' t' /\ red_black t' /\
    inorder t' = inorder (plug p t)).
Proof.
  intros Hr Hs Hp. unfold rb_erase_fixup. apply wp_bind. set (L := inorder (plug p t)).
  apply (wp_mono _ (erase_done h0 L)).
  - assert (Hm : (erase_rank (p, t) < walk h)%nat).
    { pose proof (rep_size _ _ _ (proj1 Hr)). pose proof (path_length p t). unfold walk, erase_rank. simpl. case_bool; lia. }
    apply (wp_loop_on (erase_inv h0 L) erase_rank) with (p, t); [|repeat split; eauto; apply Hr|exact Hm].
    intros g [[[h1 root1] node1] parent1] Hi. apply (erase_round_ok _ _ _ _ Hi).
  - intros [[h1 root1] node1] (q & u & Hr1 & -> & HL & Hrb).
    apply (wp_blacken _ _ _ _ _ q u Hr1). intros h2 H2. exists (plug q (blacken u)).
    split; [exact H2|]. split; [exact Hrb|]. rewrite <- HL, !inorder_plug. now destruct u.
Qed.

(** * Unlinking *)

(** What remains of a subtree whose root, of colour [c], was unlinked, at a
    position that expects [m] black nodes. *)
Definition unlinked (c : Z) (t : tree) (c1 : Z) (m : nat) : Prop :=
  (c = RB_BLACK /\ exists n ct, m = S n /\ rbt t ct n) \/ (c = RB_RED /\ c1 = RB_BLACK /\ rbt t RB_BLACK m).

Lemma unlinked_right c l a r c1 c2 m p : rbt (N c l a r) c2 m -> (c1 = RB_RED -> c2 = RB_BLACK) -> ctx p c1 m -> unlinked c r c1 m.
Proof.
  intros Ht Hc Hp. inversion Ht; subst; [right|left; eauto]. split; [reflexivity|]. split; [|assumption].
  inversion Hp; subst; try reflexivity; now specialize (Hc eq_refl).
Qed.

Lemma unlinked_left c l a r c1 c2 m p : rbt (N c l a r) c2 m -> (c1 = RB_RED -> c2 = RB_BLACK) -> ctx p c1 m -> unlinked c l c1 m.
Proof.
  intros Ht Hc Hp. inversion Ht; subst; [right|left; eauto]. split; [reflexivity|]. split; [|assumption].
  inversion Hp; subst; try reflexivity; now specialize (Hc eq_refl).
Qed.

Lemma after_unlink h0 h root p t c c1 m : repd h0 h root (plug p t) -> ctx p c1 m -> unlinked c t c1 m ->
  wp (if c =? RB_BLACK then rb_erase_fixup h root (ptr t) (pptr p) else Ok (h, root))
    (fun '(h', root') => exists t', repd h0 h' root' t' /\ red_black t' /\ inorder t' = inorder (plug p t)).
Proof.
  intros Hr Hp [(-> & n & ct & -> & Ht)|(-> & -> & Ht)]; simpl.
  - eapply rb_erase_fixup_ok; eauto using rbt_short.
  - exists (plug p t). split; [exact Hr|]. split; [|reflexivity]. now eapply plug_rbt; eauto.
Qed.

Lemma erase_splice_ok h0 h root p c l a r t : repd h0 h root (plug p (N c l a r)) -> red_black (plug p (N c l a r)) ->
  (l = E /\ t = r) \/ (r = E /\ t = l) ->
  wp (erase_splice h root a (ptr t)) (fun '(h', root') => exists t', repd h0 h' root' t' /\ red_black t' /\
    inorder t' = before p ++ inorder t ++ after p).
Proof.
  intros [Hr Hd] Hrb Hside. destruct (red_black_focus _ _ Hrb) as (c1 & c2 & m & Hp & Ht & Hc).
  assert (Hu : unlinked c t c1 m).
  { destruct Hside as [[_ ->]|[_ ->]]; eauto using unlinked_left, unlinked_right. }
  unfold erase_splice. apply rep_plug in Hr as ((La & Tl & Tr) & Hpath & Hap). rd La.
  assert (Tt : is_tree h a t) by (destruct Hside as [[_ ->]|[_ ->]]; assumption).
  assert (Hap' : apart t p).
  { destruct Hside as [[-> ->]|[-> ->]]; clear -Hap; unfold apart in *; simpl in *; rewrite ?app_nil_r in *.
    - destruct Hap as (H1 & H2 & H3). apply NoDup_cons in H1 as [_ H1]. split; [auto|]. split; [auto|]. set_solver.
    - destruct Hap as (H1 & H2 & H3). apply NoDup_app in H1 as [H1 _]. split; [auto|]. split; [auto|]. set_solver. }
  destruct (reparent_ok h a (pptr p) t Tt) as (h1 & E1 & T & Tt'); [apply Hap'|].
  rewrite E1. cbn [bind]. pose proof (touches_data _ _ _ _ Hd T) as Hd1.
  apply (path_frame (inorder t) h h1) in Hpath; [|apply T|destruct Hap' as (_ & _ & H3); intros x H4 H5; exact (H3 x H5 H4)].
  assert (Ha0 : a <> 0) by (destruct La as (? & ? & ? & _); auto).
  destruct (replace_child_ok h1 root p a (ptr t) (N c l a r) Hpath) as (h2 & root' & -> & _ & T2 & Hp2); [reflexivity|exact Ha0|exact Hap|].
  cbn [bind]. assert (Hr2 : repd h0 h2 root' (plug p t)).
  { split; [|eauto using touches_data]. apply rep_plug. split; [|auto].
    apply (tree_frame (path_addrs p) h1); [apply T2|apply Hap'|exact Tt']. }
  eapply wp_mono; [apply (after_unlink _ _ _ _ _ _ _ _ Hr2 Hp Hu)|].
  intros [h' r'] (t' & H1 & H2 & H3). exists t'. rewrite inorder_plug in H3. auto.
Qed.

(** A detached node takes the place of [a]. *)
Lemma erase_replace_ok h0 h root p c l a s r x ps ls cs :
  same_data h0 h -> links h a (pptr p) (ptr l) x c -> links h s ps ls (ptr r) cs ->
  is_tree h a l -> is_tree h s r -> is_path h root p a ->
  apart (N c l s r) p -> a ∉ inorder (N c l s r) -> a ∉ path_addrs p -> l <> E ->
  wp (erase_replace h root a s) (fun '(h', root') => repd h0 h' root' (plug p (N c l s r))).
Proof.
  intros Hd La Ls Tl Tr Hp Hap Ha1 Ha2 Hl. unfold erase_replace.
  rd La. wr (st_color c) Ls. rd La. wr (st_left (ptr l)) Ls. rd La.
  destruct (reparent_ok _ a s l Tl) as (h3 & E & T & Tl'); [addrs|]. clear Tl.
  assert (Hne : nonnull (ptr l) = true).
  { destruct l as [|cl ll y lr]; [easy|]. apply nonnull_true. destruct Tl' as ((? & ? & ? & _) & _). auto. }
  rewrite Hne in E. clear Hne Hl. ran E T. rd La.
  assert (Ha0 : a <> 0) by (destruct La as (? & ? & ? & _); auto).
  destruct (replace_child_ok _ root p a s (N c RBRep.E a RBRep.E) Hp) as (h4 & root' & E & _ & T & Hp'); [reflexivity|exact Ha0| |].
  { clear -Hap Ha2. destruct Hap as (_ & H2 & _). split; [apply NoDup_singleton|]. split; [exact H2|].
    simpl. set_solver. }
  clear Hp Ha0. ran E T. rd La. wr (st_parent (pptr p)) Ls.
  cbn [bind wp]. split; [|exact Hd]. apply rep_plug. simpl. auto 10.
Qed.

(** The leftmost node of a subtree. *)
Lemma leftmost t : t <> E -> exists q c s r, t = plug q (N c E s r) /\ before q = [] /\ Forall (fun f => exists c a r, f = FL c a r) q.
Proof.
  induction t as [|c l IHl a r _]; intros Ht; [easy|]. destruct (decide (l = E)) as [->|Hl].
  - exists [], c, a, r. auto.
  - destruct (IHl Hl) as (q & c' & s & r' & -> & Hb & Hq). exists (q ++ [FL c a r]), c', s, r'.
    rewrite plug_app. split; [reflexivity|]. split; [|apply Forall_app; eauto 10].
    clear -Hb Hq. induction Hq as [|f q (c' & a' & r' & ->) Hq IH]; simpl in *; auto.
Qed.

(** Contexts do not depend on the address of a node. *)
Lemma ctx_readdr q c l a s p c1 n : ctx (q ++ FR c l a :: p) c1 n -> ctx (q ++ FR c l s :: p) c1 n.
Proof.
  revert c1 n. induction q as [|f q IH]; intros c1 n H; simpl in *; inversion H; subst; econstructor; eauto.
Qed.

Lemma pptr_app q f p : pptr (q ++ f :: p) = match q with [] => faddr f | g :: _ => faddr g end.
Proof. now destruct q. Qed.

(** The addresses once [a] is gone and its successor [s] has moved up. *)
Lemma succ_addrs p c l a r s r' : NoDup (inorder (plug p (N c l a r))) -> inorder r = s :: inorder r' ->
  apart (N c l s r') p /\ a ∉ inorder (N c l s r') /\ a ∉ path_addrs p.
Proof.
  intros Hnd Hr. assert (Hp : inorder (plug p (N c l a r)) ≡ₚ a :: inorder (plug p (N c l s r'))).
  { rewrite !inorder_plug. simpl. rewrite Hr. rewrite <- !app_assoc, !app_assoc. simpl. symmetry.
    rewrite <- !app_assoc. simpl. rewrite !app_assoc. apply Permutation_middle. }
  rewrite Hp in Hnd. apply NoDup_cons in Hnd as [Ha Hnd]. split; [now apply apart_plug|].
  rewrite inorder_plug in Ha. unfold path_addrs. set_solver.
Qed.

Lemma in_before q c l a p : a ∈ before (q ++ FR c l a :: p).
Proof.
  induction q as [|f q IH]; [simpl; rewrite !elem_of_app; set_solver|]. destruct f; simpl; [exact IH|].
  apply elem_of_app. now left.
Qed.

(** The successor moves up: it is the right child of [a], or it is first unlinked
    from its parent and takes over the right subtree of [a]. *)
Lemma succ_moves_up h0 h root p c l a q cs s sr :
  repd h0 h root (plug (q ++ FR c l a :: p) (N cs E s sr)) -> Forall (fun f => exists c a r, f = FL c a r) q ->
  apart (N c l s (plug q sr)) p -> a ∉ inorder (N c l s (plug q sr)) -> a ∉ path_addrs p -> l <> E ->
  let parent := pptr (q ++ FR c l a :: p) in
  wp (let* (h, parent) :=
        if parent =? a then Ok (h, s)
        else
          let* h := if nonnull (ptr sr) then st (set_parent parent) h (ptr sr) else Ok h in
          let* h := st (set_left (ptr sr)) h parent in
          let* nr := ld n_right h a in
          let* h := st (set_right nr) h s in
          let* nr := ld n_right h a in
          let* h := st (set_parent s) h nr in
          Ok (h, parent) in
      let* (h, root) := erase_replace h root a s in Ok (h, root, parent))
    (fun '(h', root', parent') => repd h0 h' root' (plug p (N c l s (plug q sr))) /\ parent' = pptr (q ++ FR c l s :: p)).
Proof.
  intros [Hr Hd] Hq Hap Ha1 Ha2 Hl parent. subst parent. destruct Hq as [|f q (cf & b & fr & ->) Hq]; cbn [app pptr faddr].
  - rewrite Z.eqb_refl. cbn [bind]. apply rep_plug in Hr as ((Ls & _ & Tsr) & (La & Tl & Hp) & _). apply wp_bind.
    eapply wp_mono; [eapply (erase_replace_ok h0 h root p c l a s sr); eauto|]. intros [h' root'] H'. simpl. auto.
  - set (P := q ++ FR c l a :: p) in *. change ((FL cf b fr :: q) ++ FR c l a :: p) with (FL cf b fr :: P) in Hr.
    apply rep_plug in Hr as ((Ls & _ & Tsr) & Hp & Hnd). cbn [faddr pptr] in *.
    assert (Hab : a <> b).
    { destruct Hnd as (_ & Hnd & _). pose proof (in_before q c l a p) as Hb. intros ->.
      apply NoDup_app in Hnd as (_ & Hdis & _). apply (Hdis b Hb). left. }
    rewrite (proj2 (Z.eqb_neq b a)) by auto.
    destruct (reparent_ok h s b sr Tsr) as (h1 & E1 & T1 & Tsr'); [clear -Hnd; addrs|]. rewrite E1. cbn [bind]. clear E1 Tsr.
    apply (links_frame (inorder sr) h h1) in Ls; [|apply T1|clear -Hnd; addrs].
    apply (path_frame (inorder sr) h h1) in Hp; [|apply T1|clear -Hnd; unfold apart in Hnd; set_solver].
    destruct (set_link_ok h1 root _ P s (ptr sr) Hp) as (h2 & E2 & T2 & Hp2); [apply Hnd|]. cbn [faddr] in *. rewrite E2. cbn [bind].
    apply (links_frame [b] h1 h2) in Ls; [|apply T2|clear -Hnd; addrs].
    apply (tree_frame [b] h1 h2) in Tsr'; [|apply T2|clear -Hnd; addrs].
    pose proof (touches_data _ _ _ _ (touches_data _ _ _ _ Hd T1) T2) as Hd2. clear T1 T2 E2 Hp Hd.
    assert (Hr2 : rep h2 root (plug p (N c l a (plug (FL cf b fr :: q) sr)))).
    { change (N c l a (plug (FL cf b fr :: q) sr)) with (fill (FR c l a) (plug (FL cf b fr :: q) sr)).
      change (plug p (fill (FR c l a) ?t)) with (plug (FR c l a :: p) t). rewrite <- plug_app. apply rep_plug.
      split; [exact Tsr'|]. split; [exact Hp2|]. clear -Hnd. unfold apart in *. simpl in Hnd.
      destruct Hnd as (H1 & H2 & H3). apply NoDup_cons in H1 as [_ H1]. split; [auto|]. split; [auto|]. set_solver. }
    clear Hp2 Tsr' Hnd Hab. set (r' := plug (FL cf b fr :: q) sr) in *.
    assert (Hr' : r' <> E) by (apply (plug_nonempty q (N cf sr b fr)); easy). clearbody r'. clear P.
    apply rep_plug in Hr2 as ((La & Tl & Tr) & Hp & _).
    rd La. wr (st_right (ptr r')) Ls. rd La.
    destruct (reparent_ok _ a s r' Tr) as (h4 & E3 & T & Tr'); [addrs|]. clear Tr.
    assert (Hne : nonnull (ptr r') = true).
    { destruct r' as [|cx xl y xr]; [easy|]. apply nonnull_true. destruct Tr' as ((? & ? & ? & _) & _). auto. }
    rewrite Hne in E3. ran E3 T. apply wp_bind. eapply wp_mono; [eapply (erase_replace_ok h0 _ root p c l a s r'); eauto|].
    intros [h' root'] H'. simpl. auto.
Qed.

(** What [erase_succ] leaves before the fixup: [s], the successor, stands for [a]
    and its own place is closed. *)
Lemma erase_succ_ok h0 h root p c l a r : repd h0 h root (plug p (N c l a r)) -> red_black (plug p (N c l a r)) ->
  l <> E -> r <> E ->
  wp (erase_succ h root a) (fun '(h', root') => exists t', repd h0 h' root' t' /\ red_black t' /\
    inorder t' = before p ++ inorder l ++ inorder r ++ after p).
Proof.
  intros [Hr Hd] Hrb Hl Hr0. unfold erase_succ. rewrite (ld_right Hr). cbn [bind].
  rewrite (rb_first_ok _ _ (FR c l a :: p) r Hr). cbn [bind].
  destruct (leftmost r Hr0) as (q & cs & s & sr & -> & Hbq & Hq). rewrite !inorder_plug, Hbq. cbn [inorder app hd].
  pose proof (succ_addrs p c l a (plug q (N cs E s sr)) s (plug q sr) (proj2 (proj2 Hr))) as (Hap & Ha1 & Ha2).
  { rewrite !inorder_plug, Hbq. reflexivity. }
  assert (Hrs : rep h root (plug (q ++ FR c l a :: p) (N cs E s sr))) by (rewrite plug_app; exact Hr).
  rewrite (ld_color Hrs), (ld_right Hrs), (ld_parent Hrs). cbn [bind].
  assert (Hrb' : red_black (plug (q ++ FR c l a :: p) (N cs E s sr))) by (rewrite plug_app; exact Hrb).
  destruct (red_black_focus _ _ Hrb') as (c1 & c2 & m & Hctx & Hs & Hc).
  pose proof (unlinked_right _ _ _ _ _ _ _ _ Hs Hc Hctx) as Hu. apply (ctx_readdr _ _ _ _ s) in Hctx. clear Hrb Hrb' Hs Hc.
  assert (Hfin : forall h' root', repd h0 h' root' (plug p (N c l s (plug q sr))) ->
    wp (if cs =? RB_BLACK then rb_erase_fixup h' root' (ptr sr) (pptr (q ++ FR c l s :: p)) else Ok (h', root'))
      (fun '(h', root') => exists t', repd h0 h' root' t' /\ red_black t' /\
         inorder t' = before p ++ inorder l ++ (s :: inorder sr ++ after q) ++ after p)).
  { intros h' root' Hr'. assert (Hr'' : repd h0 h' root' (plug (q ++ FR c l s :: p) sr)) by (rewrite plug_app; exact Hr').
    eapply wp_mono; [apply (after_unlink _ _ _ _ _ _ _ _ Hr'' Hctx Hu)|]. intros [h1 r1] (t' & H1 & H2 & H3).
    exists t'. split; [exact H1|]. split; [exact H2|]. rewrite H3, plug_app. rewrite inorder_plug. simpl.
    rewrite inorder_plug, Hbq. now rewrite <- !app_assoc. }
  pose proof (succ_moves_up h0 h root p c l a q cs s sr (conj Hrs Hd) Hq Hap Ha1 Ha2 Hl) as Hmid. cbv zeta in Hmid.
  revert Hmid. destruct (if pptr (q ++ FR c l a :: p) =? a then _ else _) as [[h1 parent1]| |]; try easy. cbn [bind].
  destruct (erase_replace h1 root a s) as [[h2 root2]| |]; try easy. cbn [bind wp]. intros [H2 ->]. now apply Hfin.
Qed.

(** * Deletion *)

(** Removing [node] from the list of nodes. *)
Definition removed (node : Z) (L L' : list Z) : Prop := exists pre post, L = pre ++ node :: post /\ L' = pre ++ post.

Lemma removed_perm node L L' : removed node L L' -> L ≡ₚ node :: L'.
Proof. intros (pre & post & -> & ->). symmetry. apply Permutation_middle. Qed.

Lemma removed_ordered cmp `{!GoodCmp cmp} node L L' : removed node L L' -> ordered cmp L -> ordered cmp L'.
Proof.
  intros (pre & post & -> & ->). rewrite !(ordered_app cmp). intros (H1 & H2 & H3). apply StronglySorted_inv in H2 as [H2 _].
  split; [exact H1|]. split; [exact H2|]. intros x y Hx Hy. apply H3; set_solver.
Qed.

Lemma rb_erase_raw_ok r h t L node : rep h (r_node r) t -> red_black t -> inorder t = L -> node ∈ L ->
  wp (rb_erase_raw r h node) (fun '(r', h') => exists t' L', rep h' (r_node r') t' /\ red_black t' /\ inorder t' = L' /\
    removed node L L' /\ r' = with_node (rb_stat_dec r (flags_at h node)) (r_node r') /\
    exists h1, same_data h h1 /\ redata node RB_FLAG_COLD 0 0 h1 h').
Proof.
  intros Hr Hrb <- Hin. unfold rb_erase_raw. pose proof (rep_addr _ _ _ _ Hr Hin) as Hn0.
  apply list_elem_of_split in Hin as (pre & post & HL). pose proof (proj1 (proj2 Hr)) as Hroot.
  destruct (focus_of _ _ _ _ HL (proj2 (proj2 Hr))) as (p & c & l & r0 & -> & Hpre & Hpost).
  assert (Hroot0 : r_node r <> 0).
  { rewrite <- Hroot. change (plug p (N c l node r0)) with (plug [] (plug p (N c l node r0))) in Hr.
    apply (ptr_nonnull _ _ _ _ Hr). now apply plug_nonempty. }
  rewrite (proj2 (Z.eqb_neq _ _) Hn0), (proj2 (Z.eqb_neq _ _) Hroot0). cbn [orb].
  rewrite (ld_left Hr), (ld_right Hr). cbn [bind].
  assert (Hrep : repd h h (r_node r) (plug p (N c l node r0))) by (split; [exact Hr|reflexivity]).
  apply wp_bind. apply (wp_mono _ (fun '(h', root') => exists t', repd h h' root' t' /\ red_black t' /\ inorder t' = pre ++ post)).
  { subst pre post. destruct (decide (l = E)) as [->|Hl]; [|destruct (decide (r0 = E)) as [->|Hr0]].
    - cbn [ptr Z.eqb]. eapply wp_mono; [apply (erase_splice_ok h h _ p c E node r0 r0 Hrep Hrb); auto|].
      intros [h' root'] (t' & H1 & H2 & H3). exists t'. simpl. rewrite app_nil_r. auto.
    - rewrite (proj2 (Z.eqb_neq _ _) (ptr_nonnull _ _ (FL c node E :: p) l Hr Hl)). cbn [ptr Z.eqb].
      eapply wp_mono; [apply (erase_splice_ok h h _ p c l node E l Hrep Hrb); auto|].
      intros [h' root'] (t' & H1 & H2 & H3). exists t'. simpl. rewrite <- app_assoc. auto.
    - rewrite (proj2 (Z.eqb_neq _ _) (ptr_nonnull _ _ (FL c node r0 :: p) l Hr Hl)).
      rewrite (proj2 (Z.eqb_neq _ _) (ptr_nonnull _ _ (FR c l node :: p) r0 Hr Hr0)).
      eapply wp_mono; [apply (erase_succ_ok h h _ p c l node r0 Hrep Hrb Hl Hr0)|].
      intros [h' root'] (t' & H1 & H2 & H3). exists t'. rewrite <- app_assoc. auto. }
  intros [h1 root1] (t' & [Hr1 Hd1] & Hrb1 & HL1). unfold rb_erase_update_stats. rewrite (proj2 (Z.eqb_neq _ _) Hn0).
  destruct (ok_lookup _ _ _ node Hr) as [n Hn]; [rewrite HL; set_solver|].
  destruct (same_data_some _ _ node Hd1 (mk_is_Some _ _ Hn)) as [n1 Hn1].
  rewrite (ld_ok _ _ _ _ Hn1 Hn0). cbn [bind].
  destruct (st_flags RB_FLAG_COLD _ _ _ Hn1 Hn0) as (h2 & -> & D2). cbn [bind].
  destruct (redata_lookup _ _ _ _ _ _ D2) as (n2 & Hn2 & _ & F2 & T2 & C2).
  destruct (st_time 0 _ _ _ Hn2 Hn0) as (h3 & -> & D3). cbn [bind].
  destruct (redata_lookup _ _ _ _ _ _ D3) as (n3 & Hn3 & _ & F3 & T3 & C3).
  destruct (st_access 0 _ _ _ Hn3 Hn0) as (h4 & -> & D4). cbn [bind wp].
  rewrite F2 in *. rewrite F3, T3 in D4.
  assert (D : redata node RB_FLAG_COLD 0 0 h1 h4) by eauto using redata_trans.
  destruct (stat_dec_frame (with_node r root1) (n_flags n1)) as (Er & _).
  exists t', (inorder t'). rewrite Er. split; [apply (redata_rep _ _ _ _ _ _ _ _ D), Hr1|].
  split; [exact Hrb1|]. split; [reflexivity|]. split; [exists pre, post; auto|].
  split; [|eauto]. specialize (Hd1 node). rewrite Hn, Hn1 in Hd1. simpl in Hd1. injection Hd1 as Hf _ _.
  rewrite (flags_at_lookup _ _ _ Hn), Hf. unfold rb_stat_dec. repeat case_bool; reflexivity.
Qed.

Lemma rb_erase_ok cmp `{!GoodCmp cmp} r h L node : rb_ok cmp r h L -> node ∈ L ->
  exists r' h' L', rb_erase r h node = Ok (r', h') /\ rb_ok cmp r' h' L' /\ removed node L L' /\
    exists h1, same_data h h1 /\ redata node RB_FLAG_COLD 0 0 h1 h'.
Proof.
  intros (t & Hr & Hrb & HL & Ho & Hc & Hh & Hs) Hin. subst L. unfold rb_erase.
  rewrite (proj2 (Z.eqb_neq _ _) (rep_addr _ _ _ _ Hr Hin)).
  set (r1 := rb_clear_hint_if_match r node).
  assert (Er1 : r_node r1 = r_node r /\ r_cnt r1 = r_cnt r /\ (forall fl, stats_ok r fl -> stats_ok r1 fl) /\
    (r_hint r1 = 0 \/ (r_hint r1 ∈ inorder t /\ r_hint r1 <> node))).
  { unfold r1, rb_clear_hint_if_match. case_bool; to_prop; simpl; [auto 10|]. destruct Hh; auto 10. }
  clearbody r1. destruct Er1 as (E1 & E2 & E3 & E4). rewrite <- E1 in Hr.
  pose proof (rb_erase_raw_ok r1 h t _ node Hr Hrb eq_refl Hin) as Hw.
  destruct (rb_erase_raw r1 h node) as [[r2 h2]| |]; try easy. cbn [bind].
  destruct Hw as (t' & L' & Hr' & Hrb' & HL' & Hrem & Er & h1 & Hd & Hre). pose proof (removed_perm _ _ _ Hrem) as Hp.
  destruct (stat_dec_frame r1 (flags_at h node)) as (_ & Fh & Fc & _).
  assert (Ec' : r_cnt r2 = r_cnt r1) by (rewrite Er; exact Fc).
  assert (Eh' : r_hint r2 = r_hint r1) by (rewrite Er; exact Fh).
  exists (with_cnt r2 (u64 (r_cnt r2 - 1))), h2, L'. split; [reflexivity|]. split; [|eauto]. exists t'.
  split; [exact Hr'|]. split; [exact Hrb'|]. split; [exact HL'|]. split; [now apply (removed_ordered cmp node (inorder t))|].
  split; [|split].
  - simpl. rewrite Ec', E2, Hc, Hp. simpl length. rewrite Nat2Z.inj_succ, <- Z.add_1_r. apply u64_pred.
  - simpl. rewrite Eh'. destruct E4 as [E4|[E4 E5]]; [now left|right]. rewrite Hp in E4. set_solver.
  - rewrite Er. apply stats_with_cnt, stats_with_node.
    assert (Hni : node ∉ L') by (destruct Hr as (_ & _ & Hnd); rewrite Hp in Hnd; now apply NoDup_cons in Hnd).
    destruct Hre as (n & Hn & _ & ->). rewrite flags_of_insert by exact Hni. rewrite <- (flags_of_same _ _ _ Hd).
    apply stat_dec_ok. change (flags_at h node :: flags_of h L') with (flags_of h (node :: L')). rewrite <- Hp. auto.
Qed.

(** C34: [rb_erase] of a node of the tree returns with a red-black tree in order
    that holds exactly the other nodes, in the same order; the size, the hint,
    the temperature counters and the parent links stay consistent, the removed
    node's own data is reset and no other node's data changes. *)
Theorem rb_erase_correct cmp `{!GoodCmp cmp} r h L node : rb_ok cmp r h L -> node ∈ L ->
  exists r' h' L', rb_erase r h node = Ok (r', h') /\ rb_ok cmp r' h' L' /\ removed node L L' /\
    exists h1, same_data h h1 /\ redata node RB_FLAG_COLD 0 0 h1 h'.
Proof. apply (rb_erase_ok cmp). Qed.

Lemma rb_erase_correct_witness :
  exists r' h' L', rb_erase three.1 three.2 2 = Ok (r', h') /\ rb_ok Z.sub r' h' L' /\
    removed 2 (inorder three_tree) L' /\ exists h1, same_data three.2 h1 /\ redata 2 RB_FLAG_COLD 0 0 h1 h'.
Proof.
  apply (rb_erase_correct Z.sub).
  - apply rb_ok_check. vm_compute. reflexivity.
  - set_solver.
Defined.
