(* ===== verification/RBRange.v ===== *)
(** Bulk deletion from the red-black tree, validation, and hash-sharded trees. *)
From stdpp Require Import base gmap list fin_maps.
From Stdlib Require Import ZArith Lia Sorting.Sorted.
From S2P Require Import Prelude RBTree RBRep RBInsert RBSearch RBErase.

Open Scope Z_scope.
Open Scope c_scope.

(** * Erasing a range *)

(** A free callback that returns, changes no other node, and does [fu] to the
    state behind [arg].  It may release the node it is given. *)
Class FreeOk {U} (cb : option (callback U)) (fu : Z -> U -> U) : Prop :=
  free_ok : forall a h u, is_Some (h !! a) -> exists h', call_cb cb a h u = Ok (h', fu a u) /\ outside [a] h h'.

#[export] Instance free_none {U} : FreeOk (@None (callback U)) (fun _ u => u).
Proof. intros a h u Ha. exists h. split; [reflexivity|]. intros x _. reflexivity. Qed.

(** Releases the node and records it. *)
Definition release_log : callback (list Z) := fun a h u => Ok (delete a h, u ++ [a]).

#[export] Instance release_log_ok : FreeOk (Some release_log) (fun a u => u ++ [a]).
Proof.
  intros a h u Ha. eexists. split; [reflexivity|]. intros x Hx. apply lookup_delete_ne. set_solver.
Qed.

(** The state of a tree does not depend on nodes outside it. *)
Lemma rb_ok_outside cmp r h h' L a : outside [a] h h' -> a ∉ L -> rb_ok cmp r h L -> rb_ok cmp r h' L.
Proof.
  intros Ho Ha (t & (Hr1 & Hr2) & Hrb & <- & Hs & Hc & Hh & Hst). exists t.
  split; [split; [|exact Hr2]; apply (tree_frame [a] h); [exact Ho|set_solver|exact Hr1]|].
  split; [exact Hrb|]. split; [reflexivity|]. split; [exact Hs|]. split; [exact Hc|]. split; [exact Hh|].
  replace (flags_of h' (inorder t)) with (flags_of h (inorder t)); [exact Hst|].
  apply list_fmap_ext. intros i x Hx. apply list_elem_of_lookup_2 in Hx. unfold flags_at.
  rewrite Ho; [reflexivity|]. set_solver.
Qed.

Section EraseRange.
Context (cmp : Z -> Z -> Z) `{!GoodCmp cmp} {U : Type} (cb : option (callback U)) (fu : Z -> U -> U) `{!FreeOk cb fu}.

Lemma erase_range_loop hi pre post r h u n fuel :
  rb_ok cmp r h (pre ++ post) -> (length post < fuel)%nat ->
  exists r' h', loop fuel (fun '(cur, r, h, u, erased) =>
    if nonnull cur then
      if beyond cmp hi cur then Ok (inr (erased, r, h, u))
      else
        let* next := rb_next h cur in
        let r := rb_clear_hint_if_match r cur in
        let* (r, h) := rb_erase_raw r h cur in
        let r := with_cnt r (u64 (r_cnt r - 1)) in
        let* (h, u) := call_cb cb cur h u in
        Ok (inl (next, r, h, u, erased + 1))
    else Ok (inr (erased, r, h, u))) (hd 0 post, r, h, u, n)
  = Ok (n + Z.of_nat (length (List.filter (fun x => negb (beyond cmp hi x)) post)), r', h',
        foldl (fun u x => fu x u) u (List.filter (fun x => negb (beyond cmp hi x)) post)) /\
  rb_ok cmp r' h' (pre ++ List.filter (beyond cmp hi) post).
Proof.
  revert r h u n fuel. induction post as [|x post IH]; intros r h u n fuel Hok Hf; (destruct fuel as [|fuel]; [lia|]).
  { exists r, h. simpl. rewrite Z.add_0_r. auto. }
  pose proof Hok as (t & Hr & _ & HL & Ho & _). cbn [loop hd].
  assert (Hx : x ∈ pre ++ x :: post) by set_solver. assert (Hx0 : x <> 0) by (rewrite <- HL in Hx; apply (rep_addr _ _ _ _ Hr Hx)).
  rewrite (nonnull_true _ Hx0). destruct (beyond cmp hi x) eqn:Eb.
  - apply ordered_app in Ho as (_ & Ho & _); [|exact _]. exists r, h. rewrite (beyond_cut cmp hi x post Ho Eb). simpl.
    rewrite Z.add_0_r. split; [reflexivity|]. rewrite Eb.
    replace (List.filter (beyond cmp hi) post) with post; [exact Hok|]. apply StronglySorted_inv in Ho as [_ Ho].
    clear -Ho Eb GoodCmp0. induction Ho as [|y post Hy _ IH]; simpl; [reflexivity|].
    rewrite (beyond_mono cmp hi x y Hy Eb). now rewrite <- IH.
  - rewrite (rb_next_ok _ _ _ _ _ _ Hr HL). cbn [bind].
    destruct (rb_erase_ok cmp r h _ x Hok Hx) as (r1 & h1 & L1 & E1 & Hok1 & Hrem & h0 & Hsd & Hre).
    unfold rb_erase in E1. rewrite (proj2 (Z.eqb_neq _ _) Hx0) in E1.
    destruct (rb_erase_raw (rb_clear_hint_if_match r x) h x) as [[r2 h2]| |]; try easy. cbn [bind] in *. injection E1 as <- <-.
    assert (Hnd : NoDup (pre ++ x :: post)) by (rewrite <- HL; apply Hr).
    assert (HL1 : L1 = pre ++ post /\ x ∉ pre ++ post).
    { destruct Hrem as (p1 & p2 & Hp & ->). assert (Hni : x ∉ pre ++ post) by (rewrite <- Permutation_middle in Hnd; now apply NoDup_cons in Hnd).
      split; [|exact Hni]. destruct (focus_split pre x post p1 p2 Hp Hnd) as [-> ->]. reflexivity. }
    destruct HL1 as [-> Hni]. destruct (redata_lookup _ _ _ _ _ _ Hre) as (nx & Hnx & _).
    destruct (free_ok (cb:=cb) (fu:=fu) x h2 u ltac:(eauto)) as (h3 & -> & Hout). cbn [bind].
    destruct (IH (with_cnt r2 (u64 (r_cnt r2 - 1))) h3 (fu x u) (n + 1) fuel) as (r' & h' & -> & Hok');
      [now apply (rb_ok_outside _ _ h2 _ _ x)|simpl in Hf; lia|].
    exists r', h'. cbn [List.filter]. rewrite Eb. cbn [negb]. split; [|exact Hok'].
    cbn [length foldl]. rewrite Nat2Z.inj_succ, <- Z.add_1_l, Z.add_assoc. reflexivity.
Qed.

(** C38: [rb_erase_range] removes exactly the nodes that are not below [lo_key] and
    are below [hi_key], hands each of them to the callback once and in order,
    returns their number, and leaves the other nodes as a consistent red-black
    tree; the callback may release the nodes. *)
Theorem rb_erase_range_correct r h L lo hi u : rb_ok cmp r h L ->
  exists r' h', rb_erase_range cmp r h lo hi cb u =
      Ok (Z.of_nat (length (List.filter (in_range cmp lo hi) L)), r', h',
          foldl (fun u x => fu x u) u (List.filter (in_range cmp lo hi) L)) /\
    rb_ok cmp r' h' (List.filter (fun x => negb (in_range cmp lo hi x)) L).
Proof.
  intros Hok. pose proof Hok as (t & Hr & _ & HL & Ho & _). unfold rb_erase_range. rewrite <- HL in Ho.
  destruct (rb_find_first_ge_ok cmp h _ t lo Hr Ho) as (pre & post & HL' & -> & Hpre & Hpost). cbn [bind].
  rewrite <- HL, HL' in Hok.
  destruct (erase_range_loop hi pre post r h u 0 (walk h) Hok) as (r' & h' & E & Hok').
  { pose proof (rep_size _ _ _ Hr). rewrite HL' in *. unfold walk. len. }
  assert (Hin : List.filter (in_range cmp lo hi) L = List.filter (fun x => negb (beyond cmp hi x)) post /\
    List.filter (fun x => negb (in_range cmp lo hi x)) L = pre ++ List.filter (beyond cmp hi) post).
  { rewrite <- HL, HL', !List.filter_app. unfold in_range. clear -Hpre Hpost. split.
    - rewrite filter_none; [|eapply Forall_impl; [exact Hpre|]; simpl; intros x ->; reflexivity].
      induction Hpost as [|x post Hx _ IH]; simpl in *; [reflexivity|]. now rewrite Hx, IH.
    - f_equal.
      + induction Hpre as [|x pre Hx _ IH]; simpl; [reflexivity|]. now rewrite Hx, IH.
      + induction Hpost as [|x post Hx _ IH]; simpl; [reflexivity|]. rewrite Hx, IH. simpl. now destruct (beyond cmp hi x). }
  destruct Hin as [-> ->]. exists r', h'. split; [exact E|exact Hok'].
Qed.
End EraseRange.

Lemma rb_erase_range_correct_witness :
  exists r' h', rb_erase_range Z.sub three.1 three.2 2 0 (Some release_log) [] = Ok (2, r', h', [2; 3]) /\
    rb_ok Z.sub r' h' [1].
Proof.
  apply (rb_erase_range_correct Z.sub (Some release_log) (fun a u => u ++ [a]) three.1 three.2 (inorder three_tree) 2 0 []).
  apply rb_ok_check. vm_compute. reflexivity.
Defined.

(** * Validation *)

(** A red-black tree of [n] nodes has height at most [2 * log2 (n + 1)]. *)
Lemma red_black_height t : red_black t -> Z.of_nat (height t) <= 2 * Z.log2 (Z.of_nat (length (inorder t)) + 1).
Proof.
  intros [n Hn]. assert (Hh : forall t c n, rbt t c n -> (height t <= 2 * n + (if (c =? RB_RED)%Z then 1 else 0))%nat).
  { clear. induction 1 as [|l a r n Hl IHl Hr IHr|l a r n cl cr Hl IHl Hr IHr]; simpl; [lia| |].
    - simpl in *. lia.
    - revert IHl IHr. repeat case_bool; lia. }
  assert (Hs : forall t c n, rbt t c n -> 2 ^ Z.of_nat n <= Z.of_nat (length (inorder t)) + 1).
  { clear. induction 1 as [|l a r n Hl IHl Hr IHr|l a r n cl cr Hl IHl Hr IHr]; simpl inorder; rewrite ?length_app; simpl length; [lia..|].
    rewrite Nat2Z.inj_succ, Z.pow_succ_r by lia. lia. }
  pose proof (Hh _ _ _ Hn) as H1. simpl in H1. pose proof (Hs _ _ _ Hn) as H2.
  apply Z.log2_le_mono in H2. rewrite Z.log2_pow2 in H2 by lia. lia.
Qed.

(** Rounds that are enough for a descent in a tree of [n] nodes. *)
Definition log_rounds (n : nat) : nat := S (Z.to_nat (2 * Z.log2 (Z.of_nat n + 1))).

Lemma height_rounds t : red_black t -> (height t < log_rounds (length (inorder t)))%nat.
Proof. intros H. pose proof (red_black_height t H). unfold log_rounds. lia. Qed.

(** C37: in a consistent tree of [n] nodes the descents of search and insertion
    end within [2 * log2 (n + 1) + 1] rounds, and give what the code computes
    with no bound on the rounds. *)
Theorem descents_logarithmic cmp r h L key : rb_ok cmp r h L ->
  (exists x, loop (log_rounds (length L)) (descend_step cmp h key) (r_node r) = Ok x /\
     search_descend cmp h key (r_node r) = Ok x) /\
  (exists y, loop (log_rounds (length L)) (insert_step cmp h key) (0, r_node r, 0) = Ok y /\
     insert_descend cmp h key (r_node r) = Ok y).
Proof.
  intros (t & Hr & Hrb & <- & _). pose proof (height_rounds t Hrb) as Hh.
  rewrite (search_descend_ok cmp h _ key t Hr), (insert_descend_ok cmp h _ key t Hr), <- (proj1 (proj2 Hr)).
  split; eexists; (split; [|reflexivity]).
  - now apply (search_descend_loop cmp h (r_node r) key t []).
  - now apply (insert_descend_loop cmp h (r_node r) key t []).
Qed.

Lemma descents_logarithmic_witness :
  (exists x, loop 5 (descend_step Z.sub three.2 7) (r_node three.1) = Ok x /\
     search_descend Z.sub three.2 7 (r_node three.1) = Ok x) /\
  (exists y, loop 5 (insert_step Z.sub three.2 7) (0, r_node three.1, 0) = Ok y /\
     insert_descend Z.sub three.2 7 (r_node three.1) = Ok y).
Proof.
  apply (descents_logarithmic Z.sub three.1 three.2 (inorder three_tree) 7).
  apply rb_ok_check. vm_compute. reflexivity.
Defined.

(** What the validator accepts: nodes on the left compare strictly less. *)
Fixpoint strict_bst (cmp : Z -> Z -> Z) (t : tree) : Prop :=
  match t with
  | E => True
  | N _ l a r => Forall (fun x => cmp x a < 0) (inorder l) /\ Forall (fun x => 0 <= cmp x a) (inorder r) /\
                 strict_bst cmp l /\ strict_bst cmp r
  end.

Definition within (cmp : Z -> Z -> Z) (lo hi x : Z) : Prop :=
  (lo <> 0 -> 0 <= cmp x lo) /\ (hi <> 0 -> cmp x hi < 0).

Fixpoint colored (t : tree) : Prop :=
  match t with
  | E => True
  | N c l _ r => (c = RB_RED \/ c = RB_BLACK) /\ colored l /\ colored r
  end.

(** The helper on the represented tree. *)
Fixpoint validate (cmp : Z -> Z -> Z) (t : tree) (lo hi : Z) : Z :=
  match t with
  | E => 1
  | N c l a r =>
      if nonnull lo && (cmp a lo <? 0) then 0
      else if nonnull hi && (0 <=? cmp a hi) then 0
      else if (c =? RB_RED) && ((color_of l =? RB_RED) || (color_of r =? RB_RED)) then 0
      else
        let lh := validate cmp l lo a in
        let rh := validate cmp r a hi in
        if (lh =? 0) || (rh =? 0) || negb (lh =? rh) then 0
        else lh + (if c =? RB_BLACK then 1 else 0)
  end.

Lemma validate_pos cmp t lo hi : 0 <= validate cmp t lo hi.
Proof.
  revert lo hi. induction t as [|c l IHl a r IHr]; intros lo hi; simpl; [lia|].
  specialize (IHl lo a). specialize (IHr a hi). repeat case_bool; to_prop; lia.
Qed.

Lemma validate_helper_ok cmp h root p t lo hi depth fuel : rep h root (plug p t) ->
  depth + Z.of_nat (height t) <= 4097 -> (height t < fuel)%nat ->
  rb_validate_full_helper fuel cmp h (ptr t) lo hi depth = Ok (validate cmp t lo hi).
Proof.
  revert p lo hi depth fuel. induction t as [|c l IHl a r IHr]; intros p lo hi depth fuel Hr Hd Hf;
    (destruct fuel as [|fuel]; [lia|]); [reflexivity|].
  cbn [rb_validate_full_helper ptr validate height] in *. rewrite (proj2 (Z.eqb_neq _ _) (rep_nonnull Hr)).
  rewrite (proj2 (Z.ltb_ge 4096 depth)) by lia. do 2 (case_bool; [reflexivity|]).
  rewrite (ld_color Hr), (ld_left Hr), (ld_right Hr). cbn [bind].
  rewrite (is_red_ok _ _ (FL c a r :: p) l Hr), (is_red_ok _ _ (FR c l a :: p) r Hr). cbn [bind].
  assert (Hbad : (if c =? RB_RED then if color_of l =? RB_RED then Ok true else Ok (color_of r =? RB_RED) else Ok false)
    = Ok ((c =? RB_RED) && ((color_of l =? RB_RED) || (color_of r =? RB_RED)))).
  { repeat case_bool; reflexivity. }
  rewrite Hbad. cbn [bind]. case_bool; [reflexivity|].
  rewrite (IHl (FL c a r :: p)) by (auto; lia). cbn [bind].
  rewrite (proj2 (Z.ltb_ge _ 0)) by apply validate_pos.
  rewrite (IHr (FR c l a :: p)) by (auto; lia). cbn [bind].
  rewrite (proj2 (Z.ltb_ge _ 0)) by apply validate_pos. case_bool; reflexivity.
Qed.

Section Validate.
Context (cmp : Z -> Z -> Z) `{!GoodCmp cmp}.

Lemma within_left lo hi a x : a <> 0 -> within cmp lo hi a -> cmp x a < 0 -> (lo <> 0 -> 0 <= cmp x lo) -> within cmp lo hi x.
Proof.
  intros Ha [H1 H2] Hx Hlo. split; [exact Hlo|]. intros Hhi. specialize (H2 Hhi). apply (cmp_lt_le cmp x a hi); lia.
Qed.

Lemma within_right lo hi a x : within cmp lo hi a -> 0 <= cmp x a -> (hi <> 0 -> cmp x hi < 0) -> within cmp lo hi x.
Proof.
  intros [H1 H2] Hx Hhi. split; [|exact Hhi]. intros Hlo. specialize (H1 Hlo).
  apply (ge_mono cmp lo a x); [now apply (cmp_ge cmp)|exact H1].
Qed.

Definition valid (t : tree) (lo hi : Z) (n : nat) : Prop :=
  rbt t (color_of t) n /\ strict_bst cmp t /\ Forall (within cmp lo hi) (inorder t).

Lemma valid_node c l a r lo hi n : a <> 0 -> c = RB_RED \/ c = RB_BLACK ->
  valid (N c l a r) lo hi n <->
  within cmp lo hi a /\ (c = RB_RED -> (color_of l =? RB_RED) = false /\ (color_of r =? RB_RED) = false) /\
  exists m, valid l lo a m /\ valid r a hi m /\ n = (m + if (c =? RB_BLACK)%Z then 1 else 0)%nat.
Proof.
  intros Ha Hc. unfold valid. simpl. rewrite Forall_app, Forall_cons. split.
  - intros (Ht & (Hl & Hr & Sl & Sr) & Wl & Wa & Wr). split; [exact Wa|].
    assert (Wl' : Forall (within cmp lo a) (inorder l)).
    { rewrite Forall_forall in Wl, Hl. apply Forall_forall. intros x Hx. split; [exact (proj1 (Wl x Hx))|intros _; now apply Hl]. }
    assert (Wr' : Forall (within cmp a hi) (inorder r)).
    { rewrite Forall_forall in Wr, Hr. apply Forall_forall. intros x Hx. split; [intros _; now apply Hr|exact (proj2 (Wr x Hx))]. }
    inversion Ht as [|? ? ? ? H1 H2|? ? ? ? cl cr H1 H2]; subst; rewrite (rbt_color _ _ _ H1), (rbt_color _ _ _ H2).
    + split; [easy|]. exists n. simpl. rewrite Nat.add_0_r. repeat split; auto.
    + split; [easy|]. exists n0. simpl. rewrite Nat.add_1_r. repeat split; auto.
  - intros (Wa & Hred & m & (H1 & S1 & W1) & (H2 & S2 & W2) & ->). rewrite Forall_forall in W1, W2. split; [|split; [|split; [|split]]].
    + destruct Hc as [-> | ->]; simpl; [|rewrite Nat.add_1_r; econstructor; eauto].
      destruct (Hred eq_refl) as [Ec1 Ec2]. rewrite Nat.add_0_r. constructor; eapply rbt_black; eauto.
    + repeat split; auto; apply Forall_forall; intros x Hx; [now apply (W1 x Hx)|now apply (W2 x Hx)].
    + apply Forall_forall. intros x Hx. destruct (W1 x Hx) as [W3 W4]. apply (within_left lo hi a); auto.
    + exact Wa.
    + apply Forall_forall. intros x Hx. destruct (W2 x Hx) as [W3 W4]. apply (within_right lo hi a); auto.
Qed.

Lemma within_tests lo hi a : within cmp lo hi a <-> nonnull lo && (cmp a lo <? 0) = false /\ nonnull hi && (0 <=? cmp a hi) = false.
Proof.
  unfold within, nonnull. destruct (lo =? 0) eqn:E1, (hi =? 0) eqn:E2; to_prop; simpl;
    rewrite ?Z.ltb_ge, ?Z.leb_gt; intuition lia.
Qed.

Lemma validate_iff t lo hi n : colored t -> (forall x, x ∈ inorder t -> x <> 0) ->
  validate cmp t lo hi = Z.of_nat n + 1 <-> valid t lo hi n.
Proof.
  revert lo hi n. induction t as [|c l IHl a r IHr]; intros lo hi n Hcol Hnz.
  { simpl. unfold valid. simpl. split; [intros H; assert (n = O) as -> by lia; repeat split; constructor|].
    intros (H & _). inversion H; subst. reflexivity. }
  destruct Hcol as (Hc & Hcl & Hcr). simpl in Hnz. rewrite valid_node by (auto; apply Hnz; set_solver). rewrite within_tests.
  cbn [validate]. pose proof (validate_pos cmp l lo a). pose proof (validate_pos cmp r a hi).
  assert (Hl : forall m, validate cmp l lo a = Z.of_nat m + 1 <-> valid l lo a m) by (intros m; apply IHl; [auto|set_solver]).
  assert (Hr : forall m, validate cmp r a hi = Z.of_nat m + 1 <-> valid r a hi m) by (intros m; apply IHr; [auto|set_solver]).
  case_bool; [split; [lia|intros ((? & ?) & _); congruence]|].
  case_bool; [split; [lia|intros ((? & ?) & _); congruence]|].
  destruct ((c =? RB_RED) && _) eqn:Ebad.
  { apply andb_prop in Ebad as [Ec Eo]. apply Z.eqb_eq in Ec. split; [lia|]. intros (_ & Hred & _).
    destruct (Hred Ec) as [R1 R2]. rewrite R1, R2 in Eo. easy. }
  assert (Hred : c = RB_RED -> (color_of l =? RB_RED) = false /\ (color_of r =? RB_RED) = false).
  { intros ->. rewrite Z.eqb_refl in Ebad. now apply orb_false_iff in Ebad. }
  case_bool; to_prop.
  { split; [lia|]. intros (_ & _ & m & V1 & V2 & _). apply Hl in V1. apply Hr in V2.
    repeat match goal with H : _ \/ _ |- _ => destruct H; to_prop end; lia. }
  split.
  - intros Hv. split; [auto|]. split; [exact Hred|]. exists (Z.to_nat (validate cmp l lo a - 1)).
    rewrite <- Hl, <- Hr. split; [lia|]. split; [lia|]. revert Hv. case_bool; lia.
  - intros (_ & _ & m & V1 & _ & ->). apply Hl in V1. rewrite V1. case_bool; lia.
Qed.

(** on a well-formed store, for a tree no deeper than the recursion limit,
    [rb_validate] returns true exactly when the tree is red-black with a black
    root and every node is strictly above its left subtree and not above its
    right one. *)
Theorem rb_validate_iff r h t : rep h (r_node r) t -> colored t -> (height t <= 4097)%nat ->
  exists b, rb_validate cmp r h = Ok b /\ (b = true <-> red_black t /\ strict_bst cmp t).
Proof.
  intros Hr Hc Hh. unfold rb_validate. pose proof (proj1 (proj2 Hr)) as Hroot. destruct t as [|c l a x].
  { rewrite <- Hroot. exists true. split; [reflexivity|]. split; [|easy]. intros _. split; [exists O; constructor|exact I]. }
  cbn [ptr] in Hroot. rewrite <- Hroot in *. rewrite (proj2 (Z.eqb_neq _ _) (rep_nonnull (p:=[]) Hr)), (ld_color (p:=[]) Hr). cbn [bind].
  destruct (c =? RB_BLACK) eqn:Ec; to_prop; cbn [negb].
  - subst c. pose proof (validate_helper_ok cmp h a [] (N RB_BLACK l a x) 0 0 0 (walk h) Hr ltac:(lia)) as Hval.
    cbn [ptr] in Hval. rewrite Hval; clear Hval.
    2: { pose proof (rep_size _ _ _ Hr) as Hs. assert (forall t, (height t <= length (inorder t))%nat) as Hb.
         { clear. induction t; len. } specialize (Hb (N RB_BLACK l a x)). unfold walk. lia. }
    cbn [bind]. eexists. split; [reflexivity|]. rewrite Z.ltb_lt.
    assert (Hv : forall n, validate cmp (N RB_BLACK l a x) 0 0 = Z.of_nat n + 1 <-> valid (N RB_BLACK l a x) 0 0 n).
    { intros n. apply validate_iff; [exact Hc|]. intros y. apply (rep_addr _ _ _ _ Hr). }
    split.
    + intros Hp. destruct (proj1 (Hv (Z.to_nat (validate cmp (N RB_BLACK l a x) 0 0 - 1))) ltac:(lia)) as (H1 & H2 & _).
      split; [eexists; exact H1|exact H2].
    + intros [[n Hn] Hs]. rewrite (proj2 (Hv n)); [lia|]. split; [exact Hn|]. split; [exact Hs|].
      apply Forall_forall. intros y _. split; easy.
  - exists false. split; [reflexivity|]. split; [easy|]. intros [[n Hn] _]. inversion Hn; subst. easy.
Qed.
End Validate.

Lemma rb_validate_iff_witness : exists b, rb_validate Z.sub three.1 three.2 = Ok b /\
  (b = true <-> red_black three_tree /\ strict_bst Z.sub three_tree).
Proof.
  apply (rb_validate_iff Z.sub).
  - split; [apply is_tree_check; vm_compute; reflexivity|]. split; [vm_compute; reflexivity|].
    apply (bool_decide_eq_true_1 (NoDup _)). vm_compute. reflexivity.
  - simpl. tauto.
  - simpl. lia.
Defined.

(** three nodes that compare equal are accepted by [rb_insert], but the tree
    it builds is rejected by [rb_validate], which demands strictly smaller nodes
    on the left where a rotation has moved an equal one. *)
Theorem rb_validate_rejects_equal_nodes :
  exists r h, insert_all (fun _ _ => 0) [1; 2; 3] = Ok (r, h) /\ rb_ok (fun _ _ => 0) r h [1; 2; 3] /\
    rb_validate (fun _ _ => 0) r h = Ok false.
Proof.
  destruct (insert_all (fun _ _ => 0) [1; 2; 3]) as [[r h]| |] eqn:E; [|vm_compute in E; discriminate..].
  exists r, h. split; [reflexivity|]. vm_compute in E. injection E as <- <-. split.
  - apply (rb_ok_check _ _ _ three_tree). vm_compute. reflexivity.
  - vm_compute. reflexivity.
Qed.
