(* ===== verification/RBMorris.v ===== *)
(** The post-order traversal of [rbtree.h]: [rb_postorder_iter] threads the tree
    through its right pointers (Morris), reverses right chains to visit them
    bottom-up, and restores the store; and what happens when the callback
    releases the nodes, as [rb_clear] invites it to. *)
From stdpp Require Import base gmap list fin_maps.
From Stdlib Require Import ZArith Lia.
From S2P Require Import Prelude RBTree RBRep RBInsert RBSearch RBErase RBRange.

Open Scope Z_scope.
Open Scope c_scope.

Fixpoint postorder (t : tree) : list Z :=
  match t with
  | E => []
  | N _ l a r => postorder l ++ postorder r ++ [a]
  end.

(** The right spine of a tree, top down. *)
Fixpoint spine (t : tree) : list Z :=
  match t with
  | E => []
  | N _ _ a r => a :: spine r
  end.

(** The visits made while the nodes of [t] are passed; the spine of [t] itself is
    visited from above. *)
Fixpoint visits (t : tree) : list Z :=
  match t with
  | E => []
  | N _ l _ r => visits l ++ rev (spine l) ++ visits r
  end.

Lemma postorder_visits t : postorder t = visits t ++ rev (spine t).
Proof.
  induction t as [|c l IHl a r IHr]; simpl; [reflexivity|]. rewrite IHl, IHr. now rewrite <- !app_assoc.
Qed.

Lemma postorder_perm t : postorder t ≡ₚ inorder t.
Proof.
  induction t as [|c l IHl a r IHr]; simpl; [reflexivity|]. rewrite IHl, IHr, <- Permutation_cons_append. reflexivity.
Qed.

Lemma spine_in t x : x ∈ spine t -> x ∈ inorder t.
Proof. induction t as [|c l _ a r IHr]; simpl; [easy|]. rewrite elem_of_cons, elem_of_app, elem_of_cons. naive_solver. Qed.

Lemma spine_nodup t : NoDup (inorder t) -> NoDup (spine t).
Proof.
  induction t as [|c l _ a r IHr]; simpl; [constructor|]. intros (_ & _ & [Ha Hr]%NoDup_cons)%NoDup_app.
  apply NoDup_cons. split; [|auto]. intros Hin. now apply Ha, spine_in.
Qed.

(** * Chains of right pointers *)

Definition right_at (h : heap) (a v : Z) : Prop := exists n, h !! a = Some n /\ a <> 0 /\ n_right n = v.

(** The nodes [xs] linked through [right], ending in [k]. *)
Fixpoint chain (h : heap) (xs : list Z) (k : Z) : Prop :=
  match xs with
  | [] => True
  | x :: xs' => right_at h x (hd k xs') /\ chain h xs' k
  end.

(** Stores that differ only in right pointers. *)
Definition same_but_right (h h' : heap) : Prop := forall a, set_right 0 <$> h !! a = set_right 0 <$> h' !! a.

#[export] Instance same_but_right_eq : Equivalence same_but_right.
Proof. split; [intros h a; reflexivity|intros h1 h2 H a; symmetry; apply H|]. intros h1 h2 h3 H1 H2 a. now rewrite H1. Qed.

Lemma same_but_right_insert h a n v : h !! a = Some n -> same_but_right h (<[a := set_right v n]> h).
Proof.
  intros Hn b. destruct (decide (a = b)) as [<-|Hne]; [rewrite lookup_insert_eq, Hn; reflexivity|now rewrite lookup_insert_ne].
Qed.

Lemma same_but_right_size h h' : same_but_right h h' -> size h = size h'.
Proof.
  intros Hs. rewrite <- !size_dom. f_equal. apply set_eq. intros a. rewrite !elem_of_dom. specialize (Hs a).
  destruct (h !! a), (h' !! a); simpl in *; split; intros [? ?]; try discriminate; eauto.
Qed.

(** Equal right pointers make such stores equal. *)
Lemma same_right_eq h h' xs k : same_but_right h h' -> outside xs h h' -> chain h xs k -> chain h' xs k -> h = h'.
Proof.
  intros Hs Ho Hc Hc'. apply map_eq. intros a. destruct (decide (a ∈ xs)) as [Hin|Hni]; [|symmetry; now apply Ho].
  specialize (Hs a). assert (Hr : exists v, right_at h a v /\ right_at h' a v).
  { clear -Hin Hc Hc'. revert Hc Hc'. induction xs as [|x xs IH]; simpl; [easy|]. intros [H1 H2] [H3 H4].
    apply elem_of_cons in Hin as [->|Hin]; eauto. }
  destruct Hr as (v & (n & Hn & _ & Hv) & (n' & Hn' & _ & Hv')). rewrite Hn, Hn' in *. simpl in Hs.
  injection Hs as H1 H2 H3 H4 H5 H6. f_equal. destruct n, n'; simpl in *; congruence.
Qed.

Lemma chain_other h h' xs k S : outside S h h' -> (forall x, x ∈ xs -> x ∉ S) -> chain h xs k -> chain h' xs k.
Proof.
  intros Ho. induction xs as [|x xs IH]; simpl; [easy|]. intros Hd [(n & Hn & H1) H2].
  split; [exists n; rewrite Ho; [auto|apply Hd; left]|apply IH; [|exact H2]]. intros y Hy. apply Hd. now right.
Qed.

Lemma chain_snoc h xs x k : chain h (xs ++ [x]) k <-> chain h xs x /\ right_at h x k.
Proof.
  induction xs as [|y xs IH]; simpl; [tauto|]. rewrite IH. destruct xs; simpl; tauto.
Qed.

Lemma chain_size h xs k : chain h xs k -> NoDup xs -> (length xs <= size h)%nat.
Proof.
  intros Hc Hnd. rewrite <- size_dom, <- (size_list_to_set (C:=gset Z) xs) by exact Hnd. apply subseteq_size.
  intros x Hx. apply elem_of_list_to_set in Hx. apply elem_of_dom.
  induction xs as [|y xs IH]; [easy|]. destruct Hc as [(n & Hn & _) Hc]. apply NoDup_cons in Hnd as [_ Hnd].
  apply elem_of_cons in Hx as [->|Hx]; eauto.
Qed.

(** Reversing: the pending chain [xs] in front of the reversed one. *)
Lemma reverse_loop h xs done fuel : NoDup (rev done ++ xs) -> chain h xs 0 -> chain h done 0 -> (length xs < fuel)%nat ->
  exists h', loop fuel (fun '(h, prev, head) =>
    if nonnull head then
      let* next := ld n_right h head in
      let* h := st (set_right prev) h head in
      Ok (inl (h, head, next))
    else Ok (inr (prev, h))) (h, hd 0 done, hd 0 xs) = Ok (hd 0 (rev xs ++ done), h') /\
    chain h' (rev xs ++ done) 0 /\ same_but_right h h' /\ outside (xs ++ done) h h'.
Proof.
  revert h done fuel. induction xs as [|x xs IH]; intros h done fuel Hnd Hc Hd Hf; (destruct fuel as [|fuel]; [lia|]).
  { exists h. split; [reflexivity|]. split; [exact Hd|]. split; [reflexivity|]. intros a _. reflexivity. }
  destruct Hc as [(n & Hn & Hx & Hr) Hc]. cbn [loop hd]. rewrite (nonnull_true _ Hx), (ld_ok _ _ _ _ Hn Hx). cbn [bind].
  rewrite (st_ok _ _ _ _ Hn Hx). cbn [bind]. rewrite Hr. set (h1 := <[x := _]> h).
  assert (Ho : outside [x] h h1) by (intros a Ha; apply lookup_insert_ne; set_solver).
  assert (Hnd' := Hnd). apply NoDup_app in Hnd' as (_ & Hdis & Hxs). apply NoDup_cons in Hxs as [Hx' _].
  assert (Hxd : x ∉ done) by (intros Hin; apply (Hdis x); [now rewrite list_elem_of_In, <- in_rev, <- list_elem_of_In|left]).
  destruct (IH h1 (x :: done) fuel) as (h' & E & Hc' & Hs & Hout).
  - simpl. now rewrite <- app_assoc.
  - apply (chain_other h _ _ _ [x]); [exact Ho|set_solver|exact Hc].
  - simpl. split; [|apply (chain_other h _ _ _ [x]); [exact Ho|set_solver|exact Hd]].
    exists (set_right (hd 0 done) n). unfold h1. rewrite lookup_insert_eq. auto.
  - simpl in Hf. lia.
  - exists h'. simpl. rewrite <- app_assoc. split; [exact E|]. split; [exact Hc'|]. split.
    + transitivity h1; [now apply same_but_right_insert|exact Hs].
    + intros a Ha. rewrite Hout by set_solver. apply Ho. set_solver.
Qed.

Lemma rb_reverse_ok h xs : NoDup xs -> chain h xs 0 ->
  exists h', rb_reverse_right_chain h (hd 0 xs) = Ok (hd 0 (rev xs), h') /\ chain h' (rev xs) 0 /\
    same_but_right h h' /\ outside xs h h'.
Proof.
  intros Hnd Hc. destruct (reverse_loop h xs [] (walk h) Hnd Hc I) as (h' & E & H1 & H2 & H3).
  { pose proof (chain_size _ _ _ Hc Hnd). unfold walk. lia. }
  rewrite app_nil_r in *. eauto.
Qed.

(** * The traversal *)

(** The nodes of [t] with the right pointer of its last node threaded to [k]. *)
Fixpoint threaded (h : heap) (t : tree) (k : Z) : Prop :=
  match t with
  | E => True
  | N _ l a r =>
      (exists n, h !! a = Some n /\ a <> 0 /\ n_left n = ptr l /\ n_right n = hd k (spine r)) /\
      threaded h l 0 /\ threaded h r k
  end.

Lemma ptr_spine t : ptr t = hd 0 (spine t).
Proof. now destruct t. Qed.

Lemma is_tree_threaded h p t : is_tree h p t -> threaded h t 0.
Proof.
  revert p. induction t as [|c l IHl a r IHr]; intros p; simpl; [easy|]. intros ((n & Hn & Ha & _ & H1 & H2 & _) & Hl & Hr).
  split; [exists n; rewrite <- ptr_spine; auto|eauto].
Qed.

Lemma threaded_chain h t k : threaded h t k -> chain h (spine t) k.
Proof. induction t as [|c l _ a r IHr]; simpl; [easy|]. intros ((n & Hn & Ha & _ & Hr) & _ & H). split; [exists n; auto|auto]. Qed.

Lemma threaded_other h h' t k S : outside S h h' -> (forall x, x ∈ inorder t -> x ∉ S) -> threaded h t k -> threaded h' t k.
Proof.
  intros Ho. revert k. induction t as [|c l IHl a r IHr]; intros k; simpl; [easy|]. intros Hd ((n & Hn & H1) & H2 & H3).
  split; [exists n; rewrite Ho; [auto|apply Hd; set_solver]|]. split; [apply IHl|apply IHr]; auto; set_solver.
Qed.

Lemma threaded_links h h' t k : (forall y n, y ∈ inorder t -> h !! y = Some n ->
    exists n', h' !! y = Some n' /\ n_left n' = n_left n /\ n_right n' = n_right n) ->
  threaded h t k -> threaded h' t k.
Proof.
  revert k. induction t as [|c l IHl a r IHr]; intros k; simpl; [easy|]. intros Hs ((n & Hn & Ha & H1 & H2) & Hl & Hr).
  split; [|split; [apply IHl|apply IHr]; auto; intros y m Hy; apply Hs; set_solver].
  destruct (Hs a n) as (n' & Hn' & E1 & E2); [set_solver|exact Hn|]. exists n'. rewrite E1, E2. auto.
Qed.

Lemma spine_last t : t <> E -> last0 (spine t) ∈ spine t.
Proof.
  induction t as [|c l _ a r IHr]; intros Ht; [easy|]. simpl. change (a :: spine r) with ([] ++ a :: spine r).
  rewrite last0_app. case_decide; [left|right]. apply IHr. now intros ->.
Qed.

(** Setting the thread of a tree. *)
Lemma thread_set h t k v n : threaded h t k -> NoDup (inorder t) -> t <> E -> h !! last0 (spine t) = Some n ->
  threaded (<[last0 (spine t) := set_right v n]> h) t v.
Proof.
  revert k. induction t as [|c l _ a r IHr]; intros k; [easy|]. cbn [threaded spine]. intros ((m & Hm & Ha & H1 & H2) & Hl & Hr) Hnd _ Hn.
  simpl in Hnd. apply NoDup_app in Hnd as (_ & Hd & Hnd). apply NoDup_cons in Hnd as [Har Hnd].
  change (a :: spine r) with ([] ++ a :: spine r) in *. rewrite last0_app in *.
  destruct (decide (spine r = [])) as [Er|Er].
  - destruct r; [|easy]. rewrite Hm in Hn. injection Hn as <-. split; [|split; [|exact I]].
    + exists (set_right v m). rewrite lookup_insert_eq. auto.
    + apply (threaded_other h _ _ _ [a]); [intros x Hx; apply lookup_insert_ne; set_solver|set_solver|exact Hl].
  - assert (Hr0 : r <> E) by (intros ->; easy). pose proof (spine_in _ _ (spine_last _ Hr0)) as Hin.
    set (b := last0 (spine r)) in *. assert (Ho : outside [b] h (<[b := set_right v n]> h)) by (intros x Hx; apply lookup_insert_ne; set_solver).
    split; [|split].
    + exists m. rewrite lookup_insert_ne by (intros ->; contradiction). repeat split; auto. rewrite H2. now destruct (spine r).
    + apply (threaded_other h _ _ _ [b]); [exact Ho|set_solver|exact Hl].
    + now apply (IHr k).
Qed.

Lemma chain_pred h cur xs x k fuel : chain h (x :: xs) k -> k = 0 \/ k = cur -> cur ∉ xs -> (forall y, y ∈ xs -> y <> 0) ->
  (length xs < fuel)%nat ->
  loop fuel (fun prev =>
    let* pr := ld n_right h prev in
    if nonnull pr && negb (pr =? cur) then Ok (inl pr) else Ok (inr prev)) x = Ok (last0 (x :: xs)).
Proof.
  revert x fuel. induction xs as [|y xs IH]; intros x fuel [(n & Hn & Hx & Hr) Hc] Hk Hcur Hnz Hf; (destruct fuel as [|fuel]; [lia|]);
    cbn [loop]; rewrite (ld_ok _ _ _ _ Hn Hx); cbn [bind]; rewrite Hr; cbn [hd].
  - replace (nonnull k && negb (k =? cur)) with false; [reflexivity|]. destruct Hk as [-> | ->]; [reflexivity|].
    now rewrite Z.eqb_refl, andb_false_r.
  - rewrite (nonnull_true y) by (apply Hnz; left). rewrite (proj2 (Z.eqb_neq y cur)) by set_solver. cbn [andb negb].
    rewrite IH; [|exact Hc|exact Hk|set_solver|set_solver|simpl in Hf; lia].
    reflexivity.
Qed.

Lemma threaded_nonnull h t k : threaded h t k -> t <> E -> ptr t <> 0.
Proof. destruct t; [easy|]. intros ((n & _ & Ha & _) & _) _. exact Ha. Qed.

Lemma chain_last h xs k : chain h xs k -> xs <> [] -> right_at h (last0 xs) k.
Proof.
  induction xs as [|x xs IH]; [easy|]. intros [H1 H2] _. change (x :: xs) with ([] ++ x :: xs). rewrite last0_app.
  case_decide as Hx; [now subst|]. now apply IH.
Qed.

Lemma threaded_last h t k : threaded h t k -> t <> E -> right_at h (last0 (spine t)) k.
Proof. intros Ht Hne. apply chain_last; [now apply threaded_chain|]. now destruct t. Qed.

Lemma chain_nonnull h xs k x : chain h xs k -> x ∈ xs -> x <> 0.
Proof.
  induction xs as [|y xs IH]; [easy|]. intros [(n & _ & Hy & _) H] [->|Hx]%elem_of_cons; auto.
Qed.

Lemma morris_pred_ok h a t k : threaded h t k -> k = 0 \/ k = a -> a ∉ inorder t -> NoDup (inorder t) -> t <> E ->
  morris_pred h a (ptr t) = Ok (last0 (spine t)).
Proof.
  intros Ht Hk Ha Hnd Hne. pose proof (threaded_chain _ _ _ Ht) as Hc. pose proof (chain_size _ _ _ Hc (spine_nodup _ Hnd)) as Hsz.
  pose proof (fun x => chain_nonnull _ _ _ x Hc) as Hnz. assert (Hsp : a ∉ spine t) by (intros Hin; now apply Ha, spine_in).
  destruct t as [|c l x r]; [easy|]. cbn [spine ptr] in *. unfold morris_pred.
  apply (chain_pred h a (spine r) x k); auto; [set_solver|set_solver|unfold walk; simpl in Hsz; lia].
Qed.

(** A callback that only changes the state behind [arg]. *)
Class VisitOk {U} (cb : callback U) (fu : Z -> U -> U) : Prop :=
  visit_ok : forall a h u, cb a h u = Ok (h, fu a u).

(** Rounds of the loop: two for a node with a left child, one for the others. *)
Fixpoint rounds (t : tree) : nat :=
  match t with
  | E => O
  | N _ l _ r => (if decide (l = E) then 1 else 2) + rounds l + rounds r
  end.

Lemma rounds_bound t : (rounds t <= 2 * length (inorder t))%nat.
Proof. induction t as [|c l IHl a r IHr]; simpl; [lia|]. rewrite length_app. simpl. case_decide; lia. Qed.

Section Rounds.
Context {U : Type} (cb : callback U).

(** The first arrival at a node with a left subtree sets its thread. *)
Lemma morris_first h a n l u : h !! a = Some n -> a <> 0 -> n_left n = ptr l -> l <> E -> threaded h l 0 -> NoDup (inorder l) -> a ∉ inorder l ->
  exists m, h !! last0 (spine l) = Some m /\ n_right m = 0 /\
    morris_round cb h a u = Ok (<[last0 (spine l) := set_right a m]> h, ptr l, u).
Proof.
  intros Hn Ha Hl Hne Ht Hnd Hni. unfold morris_round. rewrite (ld_ok _ _ _ _ Hn Ha). cbn [bind]. rewrite Hl.
  rewrite (proj2 (Z.eqb_neq _ _) (threaded_nonnull _ _ _ Ht Hne)).
  rewrite (morris_pred_ok h a l 0 Ht) by auto. cbn [bind].
  destruct (threaded_last _ _ _ Ht Hne) as (m & Hm & Hm0 & Hr). rewrite (ld_ok _ _ _ _ Hm Hm0). cbn [bind].
  exists m. split; [exact Hm|]. split; [exact Hr|]. rewrite Hr, (st_ok _ _ _ _ Hm Hm0). cbn [bind Z.eqb].
  rewrite (ld_ok _ _ a n); [cbn [bind]; now rewrite Hl| |exact Ha]. rewrite lookup_insert_ne; [exact Hn|].
  intros <-. apply Hni, spine_in, spine_last, Hne.
Qed.

(** The second arrival removes the thread and reverses the spine of the left
    subtree for the visits. *)
Lemma morris_again h a n l m u : h !! a = Some n -> a <> 0 -> n_left n = ptr l -> l <> E -> threaded h l 0 -> NoDup (inorder l) -> a ∉ inorder l ->
  h !! last0 (spine l) = Some m -> n_right m = 0 ->
  exists h2, chain h2 (rev (spine l)) 0 /\ same_but_right h h2 /\ outside (spine l) h h2 /\
    morris_round cb (<[last0 (spine l) := set_right a m]> h) a u =
      (let* (h3, u') := visit_chain cb h2 (hd 0 (rev (spine l))) u in
       let* (_, h4) := rb_reverse_right_chain h3 (hd 0 (rev (spine l))) in
       let* r := ld n_right h4 a in Ok (h4, r, u')).
Proof.
  intros Hn Ha Hl Hne Ht Hnd Hni Hm Hr. set (b := last0 (spine l)) in *. set (h1 := <[b := _]> h).
  assert (Hab : a <> b) by (intros ->; apply Hni, spine_in, spine_last, Hne).
  assert (Hn1 : h1 !! a = Some n) by (unfold h1; now rewrite lookup_insert_ne).
  assert (Ht1 : threaded h1 l a) by (now apply (thread_set h l 0)).
  unfold morris_round. rewrite (ld_ok _ _ _ _ Hn1 Ha). cbn [bind]. rewrite Hl.
  rewrite (proj2 (Z.eqb_neq _ _) (threaded_nonnull _ _ _ Ht1 Hne)), (morris_pred_ok h1 a l a Ht1) by auto. cbn [bind]. fold b.
  destruct (threaded_last _ _ _ Ht1 Hne) as (m1 & Hm1 & Hb0 & Hr1). fold b in Hm1, Hb0.
  rewrite (ld_ok _ _ _ _ Hm1 Hb0). cbn [bind]. rewrite Hr1, (proj2 (Z.eqb_neq _ _) Ha), (st_ok _ _ _ _ Hm1 Hb0). cbn [bind].
  assert (Hh : <[b := set_right 0 m1]> h1 = h).
  { unfold h1 in *. rewrite lookup_insert_eq in Hm1. injection Hm1 as <-. rewrite insert_insert_eq. apply insert_id. rewrite Hm.
    f_equal. destruct m. simpl in *. now subst. }
  rewrite Hh, (ld_ok _ _ _ _ Hn Ha). cbn [bind]. rewrite Hl, ptr_spine.
  destruct (rb_reverse_ok h (spine l) (spine_nodup _ Hnd) (threaded_chain _ _ _ Ht)) as (h2 & -> & Hc2 & Hsr & Ho).
  exists h2. auto.
Qed.

Definition morris_body : heap * Z * U -> res (heap * Z * U + heap * U) := fun '(h, cur, u) =>
  if nonnull cur then let* s := morris_round cb h cur u in Ok (inl s) else Ok (inr (h, u)).

(** The tree with the local node above its root. *)
Definition dumped (dump : Z) (t : tree) : tree := N 0 t dump E.

(** The state in which the loop starts. *)
Lemma postorder_start dump r h c l a x u : let t := N c l a x in
  rep h (r_node r) t -> dump <> 0 -> h !! dump = None ->
  exists n extra, h !! a = Some n /\ n_parent n = 0 /\ a <> 0 /\ dump <> a /\
    let h2 := <[a := set_parent dump n]> (<[dump := RbNode 0 a 0 0 0 0 0]> h) in
    threaded h2 (dumped dump t) 0 /\ NoDup (inorder (dumped dump t)) /\
    rb_postorder_iter dump r h cb u =
      (let* (h', u') := loop (rounds (dumped dump t) + S extra) morris_body (h2, dump, u) in
       let* h' := st (set_parent 0) h' a in Ok (delete dump h', u')).
Proof.
  intros t Hr Hd0 Hd. unfold rb_postorder_iter. pose proof (proj1 (proj2 Hr)) as Hroot.
  cbn [ptr t] in Hroot. rewrite <- Hroot in *. pose proof (rep_nonnull (p:=[]) Hr) as Ha.
  rewrite (proj2 (Z.eqb_neq _ _) Ha), (nonnull_true _ Ha). destruct (rep_node _ _ [] _ _ _ _ Hr) as (n & Hn & _ & Hp & _). cbn [pptr] in Hp.
  assert (Hda : dump <> a) by (intros ->; congruence).
  set (h1 := <[dump := _]> h). assert (Hn1 : h1 !! a = Some n) by (unfold h1; now rewrite lookup_insert_ne).
  rewrite (st_ok _ _ _ _ Hn1 Ha). cbn [bind]. set (h2 := <[a := _]> h1).
  assert (Hni : dump ∉ inorder t) by (intros Hin; destruct (ok_lookup _ _ _ _ Hr Hin) as [? ?]; congruence).
  exists n, (walk h2 - S (rounds (dumped dump t)))%nat. do 4 (split; [assumption|]). split; [|split].
  - split; [|split; [|exact I]].
    + eexists. unfold h2, h1. rewrite lookup_insert_ne, lookup_insert_eq by auto. auto.
    + apply (threaded_links h); [|apply is_tree_threaded with 0, Hr]. intros y m Hy Hm. unfold h2.
      destruct (decide (a = y)) as [<-|Hne].
      * exists (set_parent dump n). rewrite lookup_insert_eq. split; [reflexivity|]. now assert (m = n) as -> by congruence.
      * exists m. unfold h1. rewrite !lookup_insert_ne; auto. intros ->. contradiction.
  - change (inorder (dumped dump t)) with (inorder t ++ [dump]).
    apply NoDup_app. split; [apply Hr|]. split; [set_solver|apply NoDup_singleton].
  - pose proof (rounds_bound (dumped dump t)) as Hb. change (inorder (dumped dump t)) with (inorder t ++ [dump]) in Hb.
    rewrite length_app in Hb. cbn [length] in Hb. pose proof (rep_size _ _ _ Hr : (length (inorder t) <= size h)%nat) as Hs.
    assert (Hs2 : size h2 = S (size h)) by (unfold h2, h1; rewrite map_size_insert_Some by eauto; now apply map_size_insert_None).
    replace (rounds _ + _)%nat with (walk h2) by (unfold walk; lia). reflexivity.
Qed.
End Rounds.

Section Morris.
Context {U : Type} (cb : callback U) (fu : Z -> U -> U) `{!VisitOk cb fu}.

(** The state after visiting the nodes [xs]. *)
Definition seen (u : U) (xs : list Z) : U := foldl (fun u x => fu x u) u xs.

Lemma visit_chain_ok h xs u : chain h xs 0 -> NoDup xs -> visit_chain cb h (hd 0 xs) u = Ok (h, seen u xs).
Proof.
  intros Hc Hnd. unfold visit_chain. assert (Hf : (length xs < walk h)%nat) by (pose proof (chain_size _ _ _ Hc Hnd); unfold walk; lia).
  clear Hnd. revert Hf. generalize (walk h). revert u. induction xs as [|x xs IH]; intros u fuel Hf; (destruct fuel as [|fuel]; [lia|]); [reflexivity|].
  destruct Hc as [(n & Hn & Hx & Hr) Hc]. cbn [loop hd]. rewrite (nonnull_true _ Hx), visit_ok. cbn [bind].
  rewrite (ld_ok _ _ _ _ Hn Hx). cbn [bind]. rewrite Hr. apply (IH Hc (fu x u)). simpl in Hf. lia.
Qed.

(** With a well-behaved callback the reversed pointers are put back. *)
Lemma morris_second h a n l m u : h !! a = Some n -> a <> 0 -> n_left n = ptr l -> l <> E -> threaded h l 0 -> NoDup (inorder l) -> a ∉ inorder l ->
  h !! last0 (spine l) = Some m -> n_right m = 0 ->
  morris_round cb (<[last0 (spine l) := set_right a m]> h) a u = Ok (h, n_right n, seen u (rev (spine l))).
Proof.
  intros Hn Ha Hl Hne Ht Hnd Hni Hm Hr.
  destruct (morris_again cb h a n l m u Hn Ha Hl Hne Ht Hnd Hni Hm Hr) as (h2 & Hc2 & Hsr & Ho & ->).
  pose proof (threaded_chain _ _ _ Ht) as Hc.
  assert (Hs2 : NoDup (rev (spine l))) by (rewrite <- Permutation_rev; now apply spine_nodup).
  rewrite (visit_chain_ok h2 (rev (spine l)) u Hc2 Hs2). cbn [bind].
  destruct (rb_reverse_ok h2 (rev (spine l)) Hs2 Hc2) as (h3 & -> & Hc3 & Hsr3 & Ho3). cbn [bind]. rewrite rev_involutive in Hc3.
  assert (h3 = h) as ->.
  { symmetry. apply (same_right_eq h h3 (spine l) 0); auto; [now transitivity h2|]. intros x Hx. rewrite Ho3, Ho; auto.
    now rewrite list_elem_of_In, <- in_rev, <- list_elem_of_In. }
  rewrite (ld_ok _ _ _ _ Hn Ha). reflexivity.
Qed.

(** Passing a threaded subtree ends at its thread with the store as it was. *)
Lemma morris_run t : forall h k u fuel, threaded h t k -> NoDup (inorder t) -> t <> E ->
  loop (rounds t + fuel) (morris_body cb) (h, ptr t, u) = loop fuel (morris_body cb) (h, k, seen u (visits t)).
Proof.
  induction t as [|c l IHl a r IHr]; intros h k u fuel Ht Hnd Hne; [contradiction|].
  destruct Ht as ((n & Hn & Ha & H1 & H2) & Hl & Hr). simpl in Hnd. apply NoDup_app in Hnd as (Hndl & Hd & Hnd).
  apply NoDup_cons in Hnd as [Har Hndr].
  assert (Hright : forall u, loop (rounds r + fuel) (morris_body cb) (h, n_right n, u) = loop fuel (morris_body cb) (h, k, seen u (visits r))).
  { intros u'. rewrite H2. destruct (decide (r = E)) as [->|Hr0]; [reflexivity|].
    replace (hd k (spine r)) with (ptr r) by (destruct r; [contradiction|reflexivity]). now apply IHr. }
  cbn [rounds visits]. case_decide as Hl0.
  - subst l. cbn [rounds visits spine rev app Nat.add]. cbn [loop]. unfold morris_body at 1. cbn [ptr].
    rewrite (nonnull_true _ Ha). unfold morris_round at 1. rewrite !(ld_ok _ _ _ _ Hn Ha). cbn [bind]. rewrite H1. cbn [ptr Z.eqb].
    apply Hright.
  - assert (Hni : a ∉ inorder l) by (intros Hin; apply (Hd a Hin); left).
    destruct (morris_first cb h a n l u Hn Ha H1 Hl0 Hl Hndl Hni) as (m & Hm & Hmr & E1).
    replace (2 + rounds l + rounds r + fuel)%nat with (S (rounds l + S (rounds r + fuel))) by lia.
    cbn [loop ptr]. unfold morris_body at 1. rewrite (nonnull_true _ Ha), E1. cbn [bind].
    rewrite (IHl _ a); [|now apply (thread_set h l 0)|exact Hndl|exact Hl0].
    cbn [loop]. unfold morris_body at 1. rewrite (nonnull_true _ Ha).
    rewrite (morris_second h a n l m _ Hn Ha H1 Hl0 Hl Hndl Hni Hm Hmr). cbn [bind]. rewrite Hright.
    unfold seen. now rewrite !foldl_app.
Qed.

Lemma rb_postorder_iter_ok dump r h t u : rep h (r_node r) t -> dump <> 0 -> h !! dump = None ->
  rb_postorder_iter dump r h cb u = Ok (h, seen u (postorder t)).
Proof.
  intros Hr Hd0 Hd. destruct t as [|c l a x].
  { unfold rb_postorder_iter. rewrite <- (proj1 (proj2 Hr)). reflexivity. }
  destruct (postorder_start cb dump r h c l a x u Hr Hd0 Hd) as (n & extra & Hn & Hp & Ha & Hda & Ht & Hnd & ->).
  set (h2 := <[a := _]> _) in *.
  rewrite (morris_run (dumped dump (N c l a x)) h2 0 u (S extra) Ht Hnd ltac:(easy) :
    loop _ (morris_body cb) (h2, dump, u) = _). cbn [loop morris_body bind nonnull Z.eqb negb].
  assert (Hn2 : h2 !! a = Some (set_parent dump n)) by (unfold h2; apply lookup_insert_eq).
  rewrite (st_ok _ _ _ _ Hn2 Ha). cbn [bind]. f_equal. f_equal.
  - unfold h2. rewrite insert_insert_eq. replace (set_parent 0 (set_parent dump n)) with n by (destruct n; simpl in *; now subst).
    rewrite insert_insert_ne by auto. rewrite delete_insert_id; [now apply insert_id|]. rewrite lookup_insert_ne; auto.
  - rewrite postorder_visits. simpl. now rewrite !app_nil_r.
Qed.

(** [rb_postorder_iter] with a callback that leaves the store alone visits
    every node of the tree once, children before parents, and returns with the
    store exactly as it was: every thread and reversed pointer is undone. *)
Theorem rb_postorder_iter_correct dump r h t u : rep h (r_node r) t -> dump <> 0 -> h !! dump = None ->
  rb_postorder_iter dump r h cb u = Ok (h, seen u (postorder t)) /\ postorder t ≡ₚ inorder t.
Proof. intros. split; [now apply rb_postorder_iter_ok|apply postorder_perm]. Qed.
End Morris.

(** Records the visited nodes. *)
Definition log_visit : callback (list Z) := fun a h u => Ok (h, u ++ [a]).
#[export] Instance log_visit_ok : VisitOk log_visit (fun a u => u ++ [a]).
Proof. intros a h u. reflexivity. Qed.

Lemma rb_postorder_iter_correct_witness :
  rb_postorder_iter 99 three.1 three.2 log_visit [] = Ok (three.2, [1; 3; 2]) /\ [1; 3; 2] ≡ₚ inorder three_tree.
Proof.
  apply (rb_postorder_iter_correct log_visit (fun a u => u ++ [a]) 99 three.1 three.2 three_tree []).
  - split; [apply is_tree_check; vm_compute; reflexivity|]. split; [vm_compute; reflexivity|].
    apply (bool_decide_eq_true_1 (NoDup _)). vm_compute. reflexivity.
  - lia.
  - vm_compute. reflexivity.
Defined.

(** * Releasing nodes from the callback *)

Section Release.
Context {U : Type} (cb : callback U).
Context (Hcb : forall a h u, exists h' u', cb a h u = Ok (h', u') /\ h' !! a = None).

(** The first visit frees the node whose right pointer is read next. *)
Lemma release_round h a n l m u : h !! a = Some n -> a <> 0 -> n_left n = ptr l -> l <> E -> threaded h l 0 -> NoDup (inorder l) -> a ∉ inorder l ->
  h !! last0 (spine l) = Some m -> n_right m = 0 ->
  morris_round cb (<[last0 (spine l) := set_right a m]> h) a u = Fault.
Proof.
  intros Hn Ha Hl Hne Ht Hnd Hni Hm Hr.
  destruct (morris_again cb h a n l m u Hn Ha Hl Hne Ht Hnd Hni Hm Hr) as (h2 & Hc2 & _ & _ & ->).
  destruct (rev (spine l)) as [|x xs] eqn:Ex.
  { destruct l; [easy|]. simpl in Ex. now apply app_eq_nil in Ex as [_ Ex]. }
  destruct Hc2 as [(k & Hk & Hx & _) _]. cbn [hd]. unfold visit_chain, walk. rewrite Nat.add_comm. cbn [Nat.add loop].
  rewrite (nonnull_true _ Hx). destruct (Hcb x h2 u) as (h3 & u3 & -> & H3). cbn [bind].
  unfold ld. now rewrite H3.
Qed.

Lemma release_run t : forall h k u fuel, threaded h t k -> NoDup (inorder t) -> t <> E ->
  loop (rounds t + fuel) (morris_body cb) (h, ptr t, u) =
    if decide (visits t = []) then loop fuel (morris_body cb) (h, k, u) else Fault.
Proof.
  induction t as [|c l IHl a r IHr]; intros h k u fuel Ht Hnd Hne; [contradiction|].
  destruct Ht as ((n & Hn & Ha & H1 & H2) & Hl & Hr). simpl in Hnd. apply NoDup_app in Hnd as (Hndl & Hd & Hnd).
  apply NoDup_cons in Hnd as [Har Hndr]. cbn [rounds visits]. destruct (decide (l = E)) as [Hl0|Hl0].
  - subst l. cbn [rounds visits spine rev app Nat.add]. cbn [loop]. unfold morris_body at 1. cbn [ptr].
    rewrite (nonnull_true _ Ha). unfold morris_round at 1. rewrite !(ld_ok _ _ _ _ Hn Ha). cbn [bind]. rewrite H1, H2. cbn [ptr Z.eqb].
    destruct (decide (r = E)) as [->|Hr0]; [reflexivity|].
    replace (hd k (spine r)) with (ptr r) by (destruct r; [contradiction|reflexivity]). now apply IHr.
  - assert (Hni : a ∉ inorder l) by (intros Hin; apply (Hd a Hin); left).
    destruct (morris_first cb h a n l u Hn Ha H1 Hl0 Hl Hndl Hni) as (m & Hm & Hmr & E1).
    rewrite decide_False by (destruct l; [contradiction|]; simpl; intros Hnil; apply app_eq_nil in Hnil as [_ Hnil];
      apply app_eq_nil in Hnil as [Hnil _]; now apply app_eq_nil in Hnil as [_ Hnil]).
    replace (2 + rounds l + rounds r + fuel)%nat with (S (rounds l + S (rounds r + fuel))) by lia.
    cbn [loop ptr]. unfold morris_body at 1. rewrite (nonnull_true _ Ha), E1. cbn [bind].
    rewrite (IHl _ a); [|now apply (thread_set h l 0)|exact Hndl|exact Hl0].
    destruct (decide (visits l = [])); [|reflexivity].
    cbn [loop]. unfold morris_body at 1. rewrite (nonnull_true _ Ha).
    now rewrite (release_round h a n l m _ Hn Ha H1 Hl0 Hl Hndl Hni Hm Hmr).
Qed.

(** [rb_clear] on a tree that is not empty, with a callback that releases the
    node it is given, reads the released node: the loop over the reversed chain
    loads [tmp->right] after the callback has run. *)
Theorem rb_clear_reads_released_node dump r h t u : rep h (r_node r) t -> t <> E -> dump <> 0 -> h !! dump = None ->
  rb_clear dump r h cb u = Fault.
Proof.
  intros Hr Hne Hd0 Hd. destruct t as [|c l a x]; [contradiction|]. unfold rb_clear.
  destruct (postorder_start cb dump r h c l a x u Hr Hd0 Hd) as (n & extra & _ & _ & _ & _ & Ht & Hnd & ->).
  pose proof (release_run (dumped dump (N c l a x)) _ 0 u (S extra) Ht Hnd ltac:(easy)) as Hrun.
  rewrite decide_False in Hrun; [|intros Hnil; simpl in Hnil; apply app_eq_nil in Hnil as [_ Hnil];
    apply app_eq_nil in Hnil as [Hnil _]; now apply app_eq_nil in Hnil as [_ Hnil]].
  cbn [ptr dumped] in Hrun. change (N 0 (N c l a x) dump E) with (dumped dump (N c l a x)) in Hrun. now rewrite Hrun.
Qed.
End Release.

Lemma rb_clear_reads_released_node_witness : rb_clear 99 three.1 three.2 release_log [] = Fault.
Proof.
  apply (rb_clear_reads_released_node release_log) with three_tree.
  - intros a h u. eexists _, _. split; [reflexivity|]. apply lookup_delete_eq.
  - split; [apply is_tree_check; vm_compute; reflexivity|]. split; [vm_compute; reflexivity|].
    apply (bool_decide_eq_true_1 (NoDup _)). vm_compute. reflexivity.
  - easy.
  - lia.
  - vm_compute. reflexivity.
Defined.
