(* ===== verification/RBHash.v ===== *)
(** The red-black tree behind the hash map: [rbtree.h] on a store of nodes, each
    carrying a hash map entry, satisfies the interface the hash map is proved
    against. *)
From stdpp Require Import base gmap list fin_maps infinite.
From Stdlib Require Import ZArith Lia Sorting.Sorted.
From S2P Require Import Prelude HashMap RBTree RBRep RBInsert RBSearch RBErase RBRange RBMorris.

Open Scope Z_scope.
Open Scope c_scope.

(** * The nodes of a region *)

(** A region: the root, the store of its nodes, and the entry around each node
    ([struct hashmap_node] embeds the [rb_node]). *)
Record rb_region : Type := RbRegion { g_root : rb_root; g_heap : heap; g_entry : gmap Z hnode }.

Definition entry (m : gmap Z hnode) (a : Z) : hnode := default (HNode 0 []) (m !! a).

(** The comparator on nodes: [RB_CONTAINER_OF] and the comparison of entries. *)
Definition cmp_at (cmp : hnode -> hnode -> Z) (m : gmap Z hnode) (a b : Z) : Z := cmp (entry m a) (entry m b).

#[export] Instance cmp_at_good cmp m `{!GoodCmp cmp} : GoodCmp (cmp_at cmp m).
Proof.
  split; unfold cmp_at; intros; [apply cmp_anti|]. eapply cmp_le_trans; eauto.
Qed.

(** An address not in use: what the allocator returns for a new node, or the
    address of a local node. *)
Definition new_addr (h : heap) : Z := fresh ({[0]} ∪ dom h).

(** The node whose entry is [x]. *)
Definition node_of (g : rb_region) (L : list Z) (x : hnode) : Z :=
  default 0 (snd <$> list_find (fun a => entry (g_entry g) a = x) L).

(** [rb_first], then [rb_next] until NULL. *)
Definition walk_nodes (g : rb_region) : list Z :=
  match rb_snapshot_range (fun _ _ => 0) (g_root g) (g_heap g) 0 0 (Z.of_nat (size (g_heap g))) with
  | Ok L => L
  | _ => []
  end.

#[export] Instance rb_region_ops : TreeOps rb_region := {|
  HashMap.rb_root_init := RbRegion RBTree.rb_root_init ∅ ∅;
  HashMap.rb_search cmp g k :=
    let proxy := new_addr (g_heap g) in
    match RBTree.rb_search (cmp_at cmp (<[proxy := k]> (g_entry g))) (g_root g) (g_heap g) proxy with
    | Ok (x, r, h) => (if x =? 0 then None else Some (entry (g_entry g) x), RbRegion r h (g_entry g))
    | _ => (None, g)
    end;
  HashMap.rb_insert cmp g n :=
    let a := new_addr (g_heap g) in
    let m := <[a := n]> (g_entry g) in
    match RBTree.rb_insert (cmp_at cmp m) (g_root g) (<[a := RbNode 0 0 0 0 0 0 0]> (g_heap g)) a with
    | Ok (r, h) => RbRegion r h m
    | _ => g
    end;
  HashMap.rb_erase g x :=
    match RBTree.rb_erase (g_root g) (g_heap g) (node_of g (walk_nodes g) x) with
    | Ok (r, h) => RbRegion r h (g_entry g)
    | _ => g
    end;
  HashMap.rb_set_item g x it :=
    RbRegion (g_root g) (g_heap g) (<[node_of g (walk_nodes g) x := HNode (n_hash x) it]> (g_entry g));
  HashMap.rb_inorder g := entry (g_entry g) <$> walk_nodes g;
  HashMap.rb_postorder g :=
    match rb_postorder_iter (new_addr (g_heap g)) (g_root g) (g_heap g) log_visit [] with
    | Ok (_, L) => entry (g_entry g) <$> L
    | _ => []
    end
|}.

(** * What holds of a region *)

Definition region_ok (cmp : hnode -> hnode -> Z) (g : rb_region) : Prop :=
  exists L, rb_ok (cmp_at cmp (g_entry g)) (g_root g) (g_heap g) L.

Lemma new_addr_spec h : new_addr h <> 0 /\ h !! new_addr h = None.
Proof.
  pose proof (is_fresh ({[0]} ∪ dom h)) as Hf. fold (new_addr h) in Hf. split; [set_solver|].
  apply not_elem_of_dom. set_solver.
Qed.

Lemma rb_ok_ext cmp cmp' r h L : (forall a b, a ∈ L -> b ∈ L -> cmp a b <= 0 -> cmp' a b <= 0) ->
  rb_ok cmp r h L -> rb_ok cmp' r h L.
Proof.
  intros Hc (t & Hr & Hrb & HL & Ho & H). exists t. split; [exact Hr|]. split; [exact Hrb|]. split; [exact HL|]. split; [|exact H].
  clear -Hc Ho. induction Ho as [|a L Ho IH Hf]; constructor.
  - apply IH. intros x y Hx Hy. apply Hc; now right.
  - apply Forall_forall. intros y Hy. rewrite Forall_forall in Hf. apply Hc; [left|now right|now apply Hf].
Qed.

Lemma rb_ok_dom cmp r h L a : rb_ok cmp r h L -> a ∈ L -> is_Some (h !! a).
Proof. intros (t & Hr & _ & <- & _) Ha. destruct (ok_lookup _ _ _ _ Hr Ha). eauto. Qed.

Lemma new_addr_out cmp r h L : rb_ok cmp r h L -> new_addr h ∉ L.
Proof. intros Hok Hin. destruct (rb_ok_dom _ _ _ _ _ Hok Hin). pose proof (proj2 (new_addr_spec h)). congruence. Qed.

#[local] Instance zero_good : GoodCmp (fun _ _ : Z => 0).
Proof. split; intros; lia. Qed.

Lemma walk_nodes_ok cmp g L : rb_ok cmp (g_root g) (g_heap g) L -> walk_nodes g = L.
Proof.
  intros Hok. unfold walk_nodes.
  assert (Hok0 : rb_ok (fun _ _ => 0) (g_root g) (g_heap g) L) by (apply (rb_ok_ext cmp); [lia|exact Hok]).
  rewrite (rb_snapshot_range_ok (fun _ _ => 0) _ _ L 0 0) by (auto; lia). rewrite Nat2Z.id.
  assert (HL : List.filter (in_range (fun _ _ => 0) 0 0) L = L) by (clear; induction L; simpl; congruence).
  rewrite HL. apply take_ge. destruct Hok as (t & Hr & _ & <- & _). apply (rep_size _ _ _ Hr).
Qed.

Lemma node_of_ok g (L : list Z) x : x ∈ entry (g_entry g) <$> L -> node_of g L x ∈ L /\ entry (g_entry g) (node_of g L x) = x.
Proof.
  intros Hx. apply list_elem_of_fmap in Hx as (a & -> & Ha). unfold node_of.
  destruct (list_find (fun b => entry (g_entry g) b = entry (g_entry g) a) L) as [[i b]|] eqn:Ef; simpl.
  - apply list_find_Some in Ef as (Hb & He & _). split; [eapply list_elem_of_lookup_2; eauto|exact He].
  - apply list_find_None in Ef. rewrite Forall_forall in Ef. now destruct (Ef a Ha).
Qed.

(** Entries at other addresses do not matter. *)
Lemma entry_other m a n (L : list Z) : a ∉ L -> entry (<[a := n]> m) <$> L = entry m <$> L.
Proof.
  intros Ha. apply list_fmap_ext. intros i x Hx. apply list_elem_of_lookup_2 in Hx. unfold entry.
  rewrite lookup_insert_ne; [reflexivity|]. set_solver.
Qed.

Lemma cmp_at_other cmp m a n r h L : a ∉ L -> rb_ok (cmp_at cmp m) r h L -> rb_ok (cmp_at cmp (<[a := n]> m)) r h L.
Proof.
  intros Ha. apply rb_ok_ext. intros x y Hx Hy. unfold cmp_at, entry.
  rewrite !lookup_insert_ne by set_solver. auto.
Qed.

(** * The laws *)

Section Laws.
Context (cmp : hnode -> hnode -> Z) `{!GoodCmp cmp}.

Lemma region_search_ok g k r g' : region_ok cmp g -> HashMap.rb_search cmp g k = (r, g') ->
  region_ok cmp g' /\ HashMap.rb_inorder g' = HashMap.rb_inorder g /\
  match r with
  | Some x => x ∈ HashMap.rb_inorder g /\ cmp k x = 0
  | None => forall x, x ∈ HashMap.rb_inorder g -> cmp k x <> 0
  end.
Proof.
  intros [L Hok]. pose proof (new_addr_out _ _ _ _ Hok) as Hout. simpl. set (a := new_addr (g_heap g)) in *.
  assert (Hok' : rb_ok (cmp_at cmp (<[a := k]> (g_entry g))) (g_root g) (g_heap g) L) by now apply cmp_at_other.
  destruct (rb_search_ok (cmp_at cmp (<[a := k]> (g_entry g))) _ _ L a Hok') as (x & r1 & h1 & -> & Hf & Hok1);
    [apply new_addr_spec|]. intros [= <- <-].
  assert (Hok1' : rb_ok (cmp_at cmp (g_entry g)) r1 h1 L).
  { revert Hok1. apply rb_ok_ext. intros y z Hy Hz. unfold cmp_at, entry. rewrite !lookup_insert_ne by set_solver. auto. }
  split; [now exists L|]. rewrite (walk_nodes_ok _ g L Hok), (walk_nodes_ok _ (RbRegion r1 h1 (g_entry g)) L Hok1').
  split; [reflexivity|].
  assert (Hcmp : forall y, y ∈ L -> cmp_at cmp (<[a := k]> (g_entry g)) a y = cmp k (entry (g_entry g) y)).
  { intros y Hy. unfold cmp_at, entry. rewrite lookup_insert_eq, lookup_insert_ne by set_solver. reflexivity. }
  destruct Hf as [(Hx & Hx0 & Hc)|(-> & Hno)].
  - rewrite (proj2 (Z.eqb_neq _ _) Hx0). split; [|now rewrite <- Hcmp]. apply list_elem_of_fmap. eauto.
  - intros y Hy. apply list_elem_of_fmap in Hy as (b & -> & Hb). rewrite <- Hcmp by exact Hb. now apply Hno.
Qed.

Lemma region_insert_ok g n : region_ok cmp g ->
  region_ok cmp (HashMap.rb_insert cmp g n) /\
  HashMap.rb_inorder (HashMap.rb_insert cmp g n) ≡ₚ n :: HashMap.rb_inorder g.
Proof.
  intros [L Hok]. pose proof (new_addr_out _ _ _ _ Hok) as Hout. pose proof (new_addr_spec (g_heap g)) as [Ha0 Hnone].
  simpl. set (a := new_addr (g_heap g)) in *. set (nd := RbNode 0 0 0 0 0 0 0).
  assert (Hok' : rb_ok (cmp_at cmp (<[a := n]> (g_entry g))) (g_root g) (<[a := nd]> (g_heap g)) L).
  { apply (rb_ok_outside _ _ (g_heap g) _ _ a); [intros x Hx; apply lookup_insert_ne; set_solver|exact Hout|].
    now apply cmp_at_other. }
  destruct (rb_insert_ok (cmp_at cmp (<[a := n]> (g_entry g))) _ _ L a Hok' Ha0) as (r1 & h1 & L1 & -> & Hok1 & Hins & _);
    [rewrite lookup_insert_eq; eauto|exact Hout|]. apply inserted_perm in Hins.
  split; [now exists L1|]. rewrite (walk_nodes_ok _ g L Hok), (walk_nodes_ok _ (RbRegion r1 h1 _) L1 Hok1).
  cbn [g_entry]. rewrite Hins. cbn [fmap list_fmap]. rewrite entry_other by exact Hout.
  unfold entry at 1. now rewrite lookup_insert_eq.
Qed.

Lemma region_erase_ok g x : region_ok cmp g -> x ∈ HashMap.rb_inorder g ->
  region_ok cmp (HashMap.rb_erase g x) /\ HashMap.rb_inorder g ≡ₚ x :: HashMap.rb_inorder (HashMap.rb_erase g x).
Proof.
  intros [L Hok]. simpl. rewrite (walk_nodes_ok _ g L Hok). intros Hx. destruct (node_of_ok _ _ _ Hx) as [Hin He].
  destruct (rb_erase_ok (cmp_at cmp (g_entry g)) _ _ L _ Hok Hin) as (r1 & h1 & L1 & -> & Hok1 & Hrem & _).
  apply removed_perm in Hrem. split; [now exists L1|]. rewrite (walk_nodes_ok _ (RbRegion r1 h1 _) L1 Hok1).
  cbn [g_entry]. rewrite Hrem at 1. cbn [fmap list_fmap]. now rewrite He.
Qed.

Lemma region_set_item_ok g x it : region_ok cmp g -> x ∈ HashMap.rb_inorder g -> cmp (HNode (n_hash x) it) x = 0 ->
  region_ok cmp (HashMap.rb_set_item g x it) /\
  exists rest, HashMap.rb_inorder g ≡ₚ x :: rest /\
    HashMap.rb_inorder (HashMap.rb_set_item g x it) ≡ₚ HNode (n_hash x) it :: rest.
Proof.
  intros [L Hok]. simpl. rewrite (walk_nodes_ok _ g L Hok). intros Hx Hc. destruct (node_of_ok _ _ _ Hx) as [Hin He].
  set (a := node_of g L x) in *. set (y := HNode (n_hash x) it) in *.
  assert (Hok' : rb_ok (cmp_at cmp (<[a := y]> (g_entry g))) (g_root g) (g_heap g) L).
  { revert Hok. apply rb_ok_ext. intros b c _ _. unfold cmp_at. pose proof (cmp_sym cmp _ _ Hc) as Hc'.
    assert (Hy : forall b, cmp (entry (<[a := y]> (g_entry g)) b) (entry (g_entry g) b) <= 0 /\
      cmp (entry (g_entry g) b) (entry (<[a := y]> (g_entry g)) b) <= 0).
    { intros z. unfold entry. destruct (decide (a = z)) as [<-|Hne].
      - rewrite lookup_insert_eq. fold (entry (g_entry g) a). rewrite He. simpl. lia.
      - rewrite lookup_insert_ne by exact Hne. pose proof (cmp_refl cmp (entry (g_entry g) z)). unfold entry in *. lia. }
    intros Hbc. apply (cmp_le_trans (cmp:=cmp) _ (entry (g_entry g) b)); [apply Hy|].
    apply (cmp_le_trans (cmp:=cmp) _ (entry (g_entry g) c)); [exact Hbc|apply Hy]. }
  split; [now exists L|]. rewrite (walk_nodes_ok _ (RbRegion _ _ _) L Hok'). cbn [g_entry].
  apply elem_of_Permutation in Hin as [L0 HL]. exists (entry (g_entry g) <$> L0).
  assert (Hni : a ∉ L0).
  { destruct Hok as (t & (_ & _ & Hnd) & _ & <- & _). rewrite HL in Hnd. now apply NoDup_cons in Hnd as [? _]. }
  rewrite HL. cbn [fmap list_fmap]. rewrite He. split; [reflexivity|]. rewrite entry_other by exact Hni.
  unfold entry at 1. now rewrite lookup_insert_eq.
Qed.

Lemma region_postorder_ok g : region_ok cmp g -> HashMap.rb_postorder g ≡ₚ HashMap.rb_inorder g.
Proof.
  intros [L Hok]. simpl. rewrite (walk_nodes_ok _ g L Hok). destruct Hok as (t & Hr & _ & <- & _).
  destruct (new_addr_spec (g_heap g)) as [H1 H2].
  rewrite (rb_postorder_iter_ok log_visit (fun a u => u ++ [a]) _ _ _ t [] Hr H1 H2).
  assert (Hs : forall l u, seen (fun a u => u ++ [a]) u l = u ++ l).
  { induction l as [|a l IH]; intros u; simpl; [now rewrite app_nil_r|]. unfold seen in *. simpl. rewrite IH. now rewrite <- app_assoc. }
  rewrite Hs. simpl. now rewrite postorder_perm.
Qed.
End Laws.

Lemma region_init_ok cmp : region_ok cmp HashMap.rb_root_init.
Proof.
  exists []. exists E. simpl. split; [split; [exact I|split; [reflexivity|constructor]]|].
  split; [exists O; constructor|]. split; [reflexivity|]. split; [constructor|]. split; [reflexivity|]. split; [now left|].
  repeat split.
Qed.

(** The pointer tree is an implementation of the interface of the hash map. *)
#[export] Instance rb_region_laws : TreeLaws rb_region := {|
  HashMap.tree_ok := region_ok;
  HashMap.init_ok := region_init_ok;
  HashMap.init_empty := eq_refl;
  HashMap.search_ok cmp t k r t' H := region_search_ok cmp t k r t';
  HashMap.insert_ok cmp t n H Hok _ := region_insert_ok cmp t n Hok;
  HashMap.erase_ok cmp t x H := region_erase_ok cmp t x;
  HashMap.set_item_ok cmp t x it H := region_set_item_ok cmp t x it;
  HashMap.postorder_ok cmp t := region_postorder_ok cmp t
|}.

(** * The hash map on red-black trees *)

(** C35: on the red-black trees of [rbtree.h], an item stored by [hashmap_set] is
    what [hashmap_get] returns for every equal key, and every other key keeps its
    item, across any growing of the table and also when the growth was refused for
    lack of memory.  The one exception: the key was not there, no node was kept
    back for reuse, and the last answer of [kmalloc], the one for the node, was
    NULL; then every key keeps what it had. *)
Theorem hashmap_rbtree_roundtrip (f : list Z -> list Z -> Z) `{!GoodCmp f} (h : list Z -> Z -> Z -> Z) (s0 s1 : Z)
    (m : hashmap rb_region) (item : list Z) (al : alloc) :
  (forall a b, f a b = 0 -> h a s0 s1 = h b s0 s1) -> hm_ok f h s0 s1 m ->
  exists r m1 al1 bs, hashmap_set m item al = Ok (r, m1, al1) /\ used al bs al1 /\
    forall key, exists m2, hm_ok f h s0 s1 m2 /\
      hashmap_get m1 key = Ok (if (f key item =? 0) && negb (bool_decide (no_node f m item bs)) then Some item else hm_lookup f m key, m2).
Proof.
  intros Hc Hm. pose proof (hashmap_set_ok f h s0 s1 Hc m item al Hm) as Hs.
  apply wp_ex in Hs as ([[r m1] al1] & E1 & _ & Hm1 & bs & U & _ & Hu). exists r, m1, al1, bs. split; [exact E1|]. split; [exact U|]. intros key.
  pose proof (hashmap_get_ok f h s0 s1 Hc m1 key Hm1) as Hg. apply wp_ex in Hg as ([x m2] & E2 & -> & Hm2 & _). exists m2. split; [exact Hm2|]. rewrite E2. do 2 f_equal.
  destruct Hu as [[Hn Hu]|[Hn Hu]]; rewrite (Hu key); [rewrite bool_decide_eq_false_2 by exact Hn; now rewrite andb_true_r|rewrite bool_decide_eq_true_2 by exact Hn; now rewrite andb_false_r].
Qed.

(** A new map of 16 red-black trees. *)
Definition ex_rb : hashmap rb_region :=
  HashMap 2 15 0 (lf_threshold 16 (PCT_TO_LF 60)) (lf_threshold 16 SHRINK_LF) (new_regions 16)
    ex_hash (Some ex_cmp) 16 16 [] 0 [] true 0 0 60 1 false.

Lemma ex_rb_ok : hm_ok ex_cmp ex_hash 0 0 ex_rb.
Proof.
  pose proof (hashmap_new_ok (T:=rb_region) ex_cmp ex_hash 0 0 2 16 true [] ltac:(lia) ltac:(lia)) as H.
  change (hashmap_new 2 16 0 0 ex_hash (Some ex_cmp) true []) with (Ok (Some ex_rb, [] : alloc)) in H.
  destruct H as [_ H]. apply (H ex_rb eq_refl).
Qed.

Lemma hashmap_rbtree_roundtrip_witness : hm_ok ex_cmp ex_hash 0 0 ex_rb /\
  exists r m1 al1, hashmap_set ex_rb [5; 1] [true] = Ok (r, m1, al1) /\ exists m2, hashmap_get m1 [5; 0] = Ok (Some [5; 1], m2) /\ hm_ok ex_cmp ex_hash 0 0 m2.
Proof.
  split; [exact ex_rb_ok|]. destruct (hashmap_rbtree_roundtrip ex_cmp ex_hash 0 0 ex_rb [5; 1] [true] ex_compat ex_rb_ok) as (r & m1 & al1 & bs & E & U & Hk).
  exists r, m1, al1. split; [exact E|]. destruct (Hk [5; 0]) as (m2 & Hm2 & E2). exists m2. split; [|exact Hm2]. rewrite E2.
  assert (Ea : (let* (_, _, al) := hashmap_set ex_rb [5; 1] [true] in Ok al) = Ok []) by (vm_compute; reflexivity). rewrite E in Ea. injection Ea as ->.
  rewrite bool_decide_eq_false_2; [reflexivity|]. intros (_ & _ & Hl). destruct bs as [|b bs]; [discriminate|]. destruct U as (al2 & Ek & U). injection Ek as <- <-.
  revert Hl U. clear. change (last (true :: bs) = Some false -> used [] bs [] -> False). assert (Hall : used [] bs [] -> Forall (eq true) bs) by (induction bs as [|b bs IH]; intros U; [constructor|]; destruct U as (al & [= <- <-] & U); constructor; auto).
  intros Hl U. apply last_Some_elem_of in Hl. apply elem_of_cons in Hl as [?|Hl]; [discriminate|]. now apply (proj1 (Forall_forall _ _) (Hall U)) in Hl.
Defined.
