(* ===== verification/PMM.v ===== *)
(** The physical page allocator, [src/kernel/src/mem/pmm.cpp]: a bitmap of pages
    with two summary levels (2 MiB and 2 GiB), one shard with its own counters
    per 2 GiB, a per-CPU cache of single pages, and the allocation of runs of
    pages, of 2 MiB blocks and of 2 GiB blocks.

    The bitmaps are arrays of 64-bit words.  Page numbers stay below [2^53], so
    sums of them do not wrap and are plain integers; addresses and lengths of
    the memory map, and the counters, are reduced to 64 bits where the code adds
    to them.  Locks have no counterpart in these definitions: each function is
    the code of a critical section, or a sequence of them. *)
From stdpp Require Import base list.
From Stdlib Require Import ZArith Lia.
From S2P Require Import Prelude.

Open Scope Z_scope.
Open Scope c_scope.

(** * Geometry *)

Definition PAGE_SIZE : Z := 4096.
Definition L2_PAGES : Z := 512.
Definition L2_PER_L3 : Z := 1024.
Definition L3_PAGES : Z := L2_PAGES * L2_PER_L3.
Definition L2_L1_WORDS : Z := L2_PAGES / 64.
Definition L3_L2_WORDS : Z := L2_PER_L3 / 64.
Definition L2_SIZE : Z := L2_PAGES * PAGE_SIZE.
Definition NO_BIT : Z := 2 ^ 64 - 1.
Definition SHARD_PAGES : Z := L3_PAGES.
Definition PMM_PCP_MAX : Z := 256.
Definition PMM_PCP_BATCH : nat := 64.

(** [~0ULL] *)
Definition ALL : Z := 2 ^ 64 - 1.

(** * State *)

(** The kinds of memory the allocator tells apart. *)
Inductive memmap_type : Type := MEMMAP_USABLE | MEMMAP_BOOTLOADER_RECLAIMABLE | MEMMAP_OTHER.

Record memmap_entry : Type := Entry { e_base : Z; e_length : Z; e_type : memmap_type }.

Definition is_usable (e : memmap_entry) : bool :=
  match e_type e with MEMMAP_USABLE => true | _ => false end.

Definition is_reclaimable (e : memmap_entry) : bool :=
  match e_type e with MEMMAP_BOOTLOADER_RECLAIMABLE => true | _ => false end.

(** What [Init] sets once: the number of pages and of summary bits, the memory
    map, and where the bitmaps were put. *)
Record geometry : Type := Geometry {
  pmm_bitmap_pages : Z;
  total_l2_bits : Z;
  total_l3_bits : Z;
  pmm_memmap : list memmap_entry;
  meta_base : Z
}.

Record bitmaps : Type := Bitmaps {
  l1_map : list Z;
  l2_map : list Z;
  l3_map : list Z;
  init_map : list Z
}.

Record pmm_shard : Type := Shard {
  first_page : Z;
  npages : Z;
  hint : Z;
  sh_free : Z
}.

Record pmm_stats : Type := Stats {
  stat_req2m_ok : Z;
  stat_req2m_fail : Z;
  stat_req2gb_ok : Z;
  stat_req2gb_fail : Z
}.

(** [shard_count] is the length of [shards]; [caches] holds, for each CPU, the
    first [pmm_cache_count] entries of its [pmm_cache]. *)
Record pmm : Type := Pmm {
  geo : geometry;
  maps : bitmaps;
  shards : list pmm_shard;
  free_pages : Z;
  rr_seq : Z;
  slow_hint : Z;
  caches : list (list Z);
  stats : pmm_stats
}.

Definition shard_count (s : pmm) : Z := Z.of_nat (length (shards s)).

Definition set_l1 (v : list Z) (m : bitmaps) : bitmaps := Bitmaps v (l2_map m) (l3_map m) (init_map m).
Definition set_l2 (v : list Z) (m : bitmaps) : bitmaps := Bitmaps (l1_map m) v (l3_map m) (init_map m).
Definition set_l3 (v : list Z) (m : bitmaps) : bitmaps := Bitmaps (l1_map m) (l2_map m) v (init_map m).
Definition set_init (v : list Z) (m : bitmaps) : bitmaps := Bitmaps (l1_map m) (l2_map m) (l3_map m) v.

Definition set_hint (v : Z) (s : pmm_shard) : pmm_shard := Shard (first_page s) (npages s) v (sh_free s).
Definition set_free (v : Z) (s : pmm_shard) : pmm_shard := Shard (first_page s) (npages s) (hint s) v.

Definition with_maps (s : pmm) (v : bitmaps) : pmm :=
  Pmm (geo s) v (shards s) (free_pages s) (rr_seq s) (slow_hint s) (caches s) (stats s).
Definition with_shards (s : pmm) (v : list pmm_shard) : pmm :=
  Pmm (geo s) (maps s) v (free_pages s) (rr_seq s) (slow_hint s) (caches s) (stats s).
Definition with_free (s : pmm) (v : Z) : pmm :=
  Pmm (geo s) (maps s) (shards s) v (rr_seq s) (slow_hint s) (caches s) (stats s).
Definition with_rr (s : pmm) (v : Z) : pmm :=
  Pmm (geo s) (maps s) (shards s) (free_pages s) v (slow_hint s) (caches s) (stats s).
Definition with_slow (s : pmm) (v : Z) : pmm :=
  Pmm (geo s) (maps s) (shards s) (free_pages s) (rr_seq s) v (caches s) (stats s).
Definition with_caches (s : pmm) (v : list (list Z)) : pmm :=
  Pmm (geo s) (maps s) (shards s) (free_pages s) (rr_seq s) (slow_hint s) v (stats s).
Definition with_pstats (s : pmm) (v : pmm_stats) : pmm :=
  Pmm (geo s) (maps s) (shards s) (free_pages s) (rr_seq s) (slow_hint s) (caches s) v.

(** * Word-level bitmap primitives *)

(** [map[w] = f(map[w])] *)
Definition upd {A} (f : A -> A) (l : list A) (w : Z) : res (list A) :=
  let* x := get l w in put l w (f x).

Definition bit_test (map : list Z) (i : Z) : res bool :=
  let* w := get map (Z.shiftr i 6) in
  Ok (negb (Z.land (Z.shiftr w (Z.land i 63)) 1 =? 0)).

Definition bit_set (map : list Z) (i : Z) : res (list Z) :=
  upd (fun w => Z.lor w (Z.shiftl 1 (Z.land i 63))) map (Z.shiftr i 6).

Definition bit_clear (map : list Z) (i : Z) : res (list Z) :=
  upd (fun w => Z.land w (not64 (Z.shiftl 1 (Z.land i 63)))) map (Z.shiftr i 6).

(** The same on the words that several shards share. *)
Definition bit_set_atomic (map : list Z) (i : Z) : res (list Z) := bit_set map i.
Definition bit_clear_atomic (map : list Z) (i : Z) : res (list Z) := bit_clear map i.

(** The masks from bit [first & 63] upwards and up to bit [(last - 1) & 63]. *)
Definition mask_from (first : Z) : Z := u64 (Z.shiftl ALL (Z.land first 63)).
Definition mask_upto (last : Z) : Z := Z.shiftr ALL (63 - Z.land (last - 1) 63).

Definition bits_clear (map : list Z) (first last : Z) : res (list Z) :=
  if last <=? first then Ok map
  else
    let wf := Z.shiftr first 6 in
    let wl := Z.shiftr (last - 1) 6 in
    if wf =? wl then
      upd (fun w => Z.land w (not64 (Z.land (mask_from first) (mask_upto last)))) map wf
    else
      let* map := upd (fun w => Z.land w (not64 (mask_from first))) map wf in
      let* map := for_up (Z.to_nat (wl - (wf + 1))) (wf + 1) (fun w map => put map w 0) map in
      upd (fun w => Z.land w (not64 (mask_upto last))) map wl.

Definition bits_set (map : list Z) (first last : Z) : res (list Z) :=
  if last <=? first then Ok map
  else
    let wf := Z.shiftr first 6 in
    let wl := Z.shiftr (last - 1) 6 in
    if wf =? wl then
      upd (fun w => Z.lor w (Z.land (mask_from first) (mask_upto last))) map wf
    else
      let* map := upd (fun w => Z.lor w (mask_from first)) map wf in
      let* map := for_up (Z.to_nat (wl - (wf + 1))) (wf + 1) (fun w map => put map w ALL) map in
      upd (fun w => Z.lor w (mask_upto last)) map wl.

(** Whether the [k] words from [wb] on all equal [v]. *)
Fixpoint words_are (map : list Z) (wb : Z) (k : nat) (v : Z) : res bool :=
  match k with
  | O => Ok true
  | S k' =>
      let* w := get map wb in
      if negb (w =? v) then Ok false else words_are map (wb + 1) k' v
  end.

(** [__builtin_popcountll] *)
Fixpoint pos_popcount (p : positive) : Z :=
  match p with
  | xH => 1
  | xO q => pos_popcount q
  | xI q => 1 + pos_popcount q
  end.

Definition popcount (z : Z) : Z :=
  match z with
  | Zpos p => pos_popcount p
  | _ => 0
  end.

(** * Population and summary of a 2 MiB block *)

(** [e->base + e->length] *)
Definition e_end (e : memmap_entry) : Z := u64 (e_base e + e_length e).

(** Marks the part of one memory map entry inside the block free. *)
Definition clear_entry (region_start region_end : Z) (l1 : list Z) (e : memmap_entry) : res (list Z) :=
  if negb (is_usable e) then Ok l1
  else
    let e_start := e_base e in
    if (e_end e <=? region_start) || (region_end <=? e_start) then Ok l1
    else
      let s := if region_start <? e_start then e_start else region_start in
      let t := if e_end e <? region_end then e_end e else region_end in
      let s := Z.land (u64 (s + PAGE_SIZE - 1)) (not64 (PAGE_SIZE - 1)) in
      let t := Z.land t (not64 (PAGE_SIZE - 1)) in
      if s <? t then bits_clear l1 (s / PAGE_SIZE) (t / PAGE_SIZE) else Ok l1.

Fixpoint clear_entries (region_start region_end : Z) (l1 : list Z) (es : list memmap_entry) : res (list Z) :=
  match es with
  | [] => Ok l1
  | e :: es =>
      let* l1 := clear_entry region_start region_end l1 e in
      clear_entries region_start region_end l1 es
  end.

Definition ensure_l2_init (g : geometry) (m : bitmaps) (l2_bit : Z) : res bitmaps :=
  let* done := bit_test (init_map m) l2_bit in
  if (done : bool) then Ok m
  else
    let wb := l2_bit * L2_L1_WORDS in
    let* l1 := for_up (Z.to_nat L2_L1_WORDS) 0 (fun i l1 => put l1 (wb + i) ALL) (l1_map m) in
    let region_start := l2_bit * L2_SIZE in
    let region_end := region_start + L2_SIZE in
    let* l1 := clear_entries region_start region_end l1 (pmm_memmap g) in
    let* im := bit_set (init_map m) l2_bit in
    Ok (set_init im (set_l1 l1 m)).

Definition l2_block_full (m : bitmaps) (l2_bit : Z) : res bool :=
  words_are (l1_map m) (l2_bit * L2_L1_WORDS) (Z.to_nat L2_L1_WORDS) ALL.

Definition l2_full_propagate (m : bitmaps) (l2_bit : Z) : res bitmaps :=
  let l3_bit := l2_bit / L2_PER_L3 in
  let* full := words_are (l2_map m) (l3_bit * L3_L2_WORDS) (Z.to_nat L3_L2_WORDS) ALL in
  if (full : bool) then let* l3 := bit_set_atomic (l3_map m) l3_bit in Ok (set_l3 l3 m)
  else Ok m.

(** * Bulk transitions *)

(** The part of [[start, end)] that lies in block [l2]. *)
Definition block_lo (first_l2 l2 start : Z) : Z := if l2 =? first_l2 then start else l2 * L2_PAGES.
Definition block_hi (last_l2 l2 end_ : Z) : Z := if l2 =? last_l2 then end_ else (l2 + 1) * L2_PAGES.

(** The body of the loop of [mark_allocated], for the pages [[b0, b1)] of block
    [l2]. *)
Definition mark_block_allocated (g : geometry) (l2 b0 b1 : Z) (m : bitmaps) : res bitmaps :=
  let* m := ensure_l2_init g m l2 in
  let* l1 := bits_set (l1_map m) b0 b1 in
  let m := set_l1 l1 m in
  let* full := l2_block_full m l2 in
  if (full : bool) then
    let* l2m := bit_set (l2_map m) l2 in
    l2_full_propagate (set_l2 l2m m) l2
  else Ok m.

Definition mark_allocated (g : geometry) (m : bitmaps) (start n : Z) : res bitmaps :=
  let end_ := start + n in
  let first_l2 := start / L2_PAGES in
  let last_l2 := (end_ - 1) / L2_PAGES in
  for_up (Z.to_nat (last_l2 - first_l2 + 1)) first_l2 (fun l2 m =>
    mark_block_allocated g l2 (block_lo first_l2 l2 start) (block_hi last_l2 l2 end_) m) m.

(** The body of the loop of [mark_free]. *)
Definition mark_block_free (g : geometry) (l2 b0 b1 : Z) (m : bitmaps) : res bitmaps :=
  let* m := ensure_l2_init g m l2 in
  let* l1 := bits_clear (l1_map m) b0 b1 in
  let* l2m := bit_clear (l2_map m) l2 in
  let* l3m := bit_clear_atomic (l3_map m) (l2 / L2_PER_L3) in
  Ok (set_l3 l3m (set_l2 l2m (set_l1 l1 m))).

Definition mark_free (g : geometry) (m : bitmaps) (start n : Z) : res bitmaps :=
  let end_ := start + n in
  let first_l2 := start / L2_PAGES in
  let last_l2 := (end_ - 1) / L2_PAGES in
  for_up (Z.to_nat (last_l2 - first_l2 + 1)) first_l2 (fun l2 m =>
    mark_block_free g l2 (block_lo first_l2 l2 start) (block_hi last_l2 l2 end_) m) m.

(** * The scanner *)

(** How far a scan with no open run may skip from [bit]: over a full 2 GiB or
    2 MiB block that starts there, or not at all. *)
Definition scan_skip (g : geometry) (m : bitmaps) (bit : Z) : res Z :=
  let* skip3 :=
    if (Z.land bit (L3_PAGES - 1) =? 0) && (bit / L3_PAGES <? total_l3_bits g)
    then bit_test (l3_map m) (bit / L3_PAGES) else Ok false in
  if (skip3 : bool) then Ok L3_PAGES
  else
    let* skip2 :=
      if (Z.land bit (L2_PAGES - 1) =? 0) && (bit / L2_PAGES <? total_l2_bits g)
      then bit_test (l2_map m) (bit / L2_PAGES) else Ok false in
    if (skip2 : bool) then Ok L2_PAGES else Ok 0.

(** The outcome of looking at a whole word: go on with the loop, return the
    run, or look at the single bit. *)
Inductive word_step : Type := WContinue (run bit : Z) | WReturn | WBit.

(** [take] pages of the word extend the run, no further than [n] and [to]. *)
Definition scan_take (take run bit to n : Z) : Z * Z :=
  let take := if n <? run + take then n - run else take in
  let take := if to <? bit + take then to - bit else take in
  (run + take, bit + take).

Definition scan_word (w run bit to n : Z) : word_step :=
  if run =? 0 then
    if w =? ALL then WContinue run (bit + 64)
    else
      let skip := ctz (not64 w) in
      if negb (skip =? 0) then WContinue run (bit + skip) else WBit
  else
    let '(run', bit') := scan_take (if w =? 0 then 64 else ctz w) run bit to n in
    if negb (w =? 0) && (bit' =? bit) then WBit
    else if run' =? n then WReturn else WContinue run' bit'.

Definition scan_state : Type := bitmaps * Z * Z * Z * Z.

(** One round of the loop: maps, run, run_start, bit, inited_l2. *)
Definition scan_round (g : geometry) (to n : Z) : scan_state -> res (scan_state + (Z * bitmaps)) :=
  fun '(m, run, run_start, bit, inited) =>
    if negb (bit <? to) then Ok (inr (NO_BIT, m))
    else
      let* skip := if run =? 0 then scan_skip g m bit else Ok 0 in
      if negb (skip =? 0) then Ok (inl (m, run, run_start, bit + skip, inited))
      else
        let cur_l2 := bit / L2_PAGES in
        let* (m, inited) :=
          if negb (cur_l2 =? inited) then let* m := ensure_l2_init g m cur_l2 in Ok (m, cur_l2)
          else Ok (m, inited) in
        let* step :=
          if Z.land bit 63 =? 0 then
            let* w := get (l1_map m) (Z.shiftr bit 6) in Ok (scan_word w run bit to n)
          else Ok WBit in
        match step with
        | WContinue run bit => Ok (inl (m, run, run_start, bit, inited))
        | WReturn => Ok (inr (run_start, m))
        | WBit =>
            let* used := bit_test (l1_map m) bit in
            if negb used then
              let run_start := if run =? 0 then bit else run_start in
              let run := run + 1 in
              if run =? n then Ok (inr (run_start, m))
              else Ok (inl (m, run, run_start, bit + 1, inited))
            else Ok (inl (m, 0, run_start, bit + 1, inited))
        end.

Definition scan_for_run (g : geometry) (m : bitmaps) (from to n : Z) : res (Z * bitmaps) :=
  if (n =? 0) || (to <=? from) then Ok (NO_BIT, m)
  else loop (S (Z.to_nat (to - from))) (scan_round g to n) (m, 0, 0, from, NO_BIT).

(** * Shards *)

Definition shard_free_add (s : pmm) (si n : Z) : res pmm :=
  let* ss := upd (fun sh => set_free (u64 (sh_free sh + n)) sh) (shards s) si in
  Ok (with_free (with_shards s ss) (u64 (free_pages s + n))).

Definition shard_free_sub (s : pmm) (si n : Z) : res pmm :=
  let* ss := upd (fun sh => set_free (u64 (sh_free sh - n)) sh) (shards s) si in
  Ok (with_free (with_shards s ss) (u64 (free_pages s - n))).

(** A division by [shard_count]: a fault when there is none. *)
Definition shard_rr_first (s : pmm) : res (Z * pmm) :=
  if shard_count s =? 0 then Fault
  else Ok (rr_seq s mod shard_count s, with_rr s (u64 (rr_seq s + 1))).

Definition FreePages (s : pmm) : Z := free_pages s.

(** The run a shard gives up: from the hint to the end, then from the start to
    the hint. *)
Definition shard_scan (g : geometry) (m : bitmaps) (sh : pmm_shard) (n : Z) : res (Z * bitmaps) :=
  let base := first_page sh in
  let end_ := base + npages sh in
  let h := hint sh in
  let h := if (h <? base) || (end_ <? h) then base else h in
  let* (bit, m) := scan_for_run g m h end_ n in
  if (bit =? NO_BIT) && (base <? h) then scan_for_run g m base h n else Ok (bit, m).

Definition alloc_in_shard_locked (s : pmm) (si n : Z) : res (Z * pmm) :=
  let* sh := get (shards s) si in
  if sh_free sh <? n then Ok (0, s)
  else
    let* (bit, m) := shard_scan (geo s) (maps s) sh n in
    if bit =? NO_BIT then Ok (0, with_maps s m)
    else
      let* m := mark_allocated (geo s) m bit n in
      let base := first_page sh in
      let end_ := base + npages sh in
      let* ss := put (shards s) si (set_hint (if end_ <=? bit + n then base else bit + n) sh) in
      Ok (bit * PAGE_SIZE, with_shards (with_maps s m) ss).

(** [if (start < shards[si].hint) shards[si].hint = start;] *)
Definition lower_hint (s : pmm) (si start : Z) : res pmm :=
  let* ss := upd (fun sh => if start <? hint sh then set_hint start sh else sh) (shards s) si in
  Ok (with_shards s ss).

Definition free_in_shard_locked (s : pmm) (si start n : Z) : res pmm :=
  let* m := mark_free (geo s) (maps s) start n in
  let* s := lower_hint (with_maps s m) si start in
  shard_free_add s si n.

(** The part of [[lo, hi)] in shard [si]. *)
Definition shard_lo (si bit : Z) : Z := if si * SHARD_PAGES <? bit then bit else si * SHARD_PAGES.
Definition shard_hi (si e : Z) : Z := if e <? (si + 1) * SHARD_PAGES then e else (si + 1) * SHARD_PAGES.

Definition slow_scan (s : pmm) (n : Z) : res (Z * bitmaps) :=
  let g := geo s in
  let h := slow_hint s in
  let h := if pmm_bitmap_pages g <? h then pmm_bitmap_pages g else h in
  let* (bit, m) :=
    if h <? pmm_bitmap_pages g then scan_for_run g (maps s) h (pmm_bitmap_pages g) n
    else Ok (NO_BIT, maps s) in
  if (bit =? NO_BIT) && (0 <? h) then scan_for_run g m 0 h n else Ok (bit, m).

Definition alloc_global_slowpath (s : pmm) (n : Z) : res (Z * pmm) :=
  let* (bit, m) := slow_scan s n in
  if bit =? NO_BIT then Ok (0, with_maps s m)
  else
    let* m := mark_allocated (geo s) m bit n in
    let s := with_slow (with_maps s m) (bit + n) in
    let e := bit + n in
    let first := bit / SHARD_PAGES in
    let* s := for_up (Z.to_nat ((e - 1) / SHARD_PAGES - first + 1)) first (fun si s =>
      shard_free_sub s si (shard_hi si e - shard_lo si bit)) s in
    Ok (bit * PAGE_SIZE, s).

(** Shards [first], [first + 1], ... around the ring, until [try] returns from
    the function; [None] goes on with the next shard. *)
Fixpoint rr_try (try : pmm -> Z -> res (option Z * pmm)) (k : nat) (si : Z) (s : pmm) : res (option Z * pmm) :=
  match k with
  | O => Ok (None, s)
  | S k' =>
      let* (p, s) := try s (if shard_count s <=? si then si - shard_count s else si) in
      match p with
      | Some p => Ok (Some p, s)
      | None => rr_try try k' (si + 1) s
      end
  end.

Definition rr_search (try : pmm -> Z -> res (option Z * pmm)) (s : pmm) : res (option Z * pmm) :=
  let* (first, s) := shard_rr_first s in
  rr_try try (length (shards s)) first s.

(** * The per-CPU cache of single pages *)

Definition cache_of (s : pmm) (cpu : Z) : res (list Z) := get (caches s) cpu.

Definition set_cache (s : pmm) (cpu : Z) (c : list Z) : res pmm :=
  let* cs := put (caches s) cpu c in Ok (with_caches s cs).

(** [cache[count++] = p] in an array of [PMM_PCP_MAX]. *)
Definition cache_push (c : list Z) (p : Z) : res (list Z) :=
  if Z.of_nat (length c) <? PMM_PCP_MAX then Ok (c ++ [p]) else Fault.

(** [cache[--count]] of a cache that is not empty. *)
Definition cache_pop (c : list Z) : res (Z * list Z) :=
  match last c with
  | Some p => Ok (p, removelast c)
  | None => Fault
  end.

(** Up to [k] further pages of the shard, for the cache. *)
Fixpoint refill_extra (k : nat) (s : pmm) (si : Z) (c : list Z) : res (list Z * pmm) :=
  match k with
  | O => Ok (c, s)
  | S k' =>
      if Z.of_nat (length c) <? PMM_PCP_MAX then
        let* (extra, s) := alloc_in_shard_locked s si 1 in
        if extra =? 0 then Ok (c, s)
        else let* c := cache_push c extra in refill_extra k' s si c
      else Ok (c, s)
  end.

(** The part of a try that runs under the lock of the shard. *)
Definition refill_locked (cpu : Z) (s : pmm) (si : Z) : res (option Z * pmm) :=
  let* (page, s) := alloc_in_shard_locked s si 1 in
  if page =? 0 then Ok (None, s)
  else
    let* before := cache_of s cpu in
    let* (c, s) := refill_extra PMM_PCP_BATCH s si before in
    let* s := set_cache s cpu c in
    let* s := shard_free_sub s si (1 + (Z.of_nat (length c) - Z.of_nat (length before))) in
    Ok (Some page, s).

(** The counter is read before the lock is taken. *)
Definition refill_shard (cpu : Z) (s : pmm) (si : Z) : res (option Z * pmm) :=
  let* sh := get (shards s) si in
  if sh_free sh =? 0 then Ok (None, s) else refill_locked cpu s si.

(** [None] is NULL. *)
Definition pcp_refill (s : pmm) (cpu : Z) : res (option Z * pmm) := rr_search (refill_shard cpu) s.

(** * Allocation of runs *)

Definition request_locked (n : Z) (s : pmm) (si : Z) : res (option Z * pmm) :=
  let* (page, s) := alloc_in_shard_locked s si n in
  if page =? 0 then Ok (None, s)
  else let* s := shard_free_sub s si n in Ok (Some page, s).

Definition request_shard (n : Z) (s : pmm) (si : Z) : res (option Z * pmm) :=
  let* sh := get (shards s) si in
  if sh_free sh <? n then Ok (None, s) else request_locked n s si.

(** The path behind the cache: single shards, then all of them. *)
Definition request_run (s : pmm) (n : Z) : res (Z * pmm) :=
  let* (page, s) := if n <=? SHARD_PAGES then rr_search (request_shard n) s else Ok (None, s) in
  match page with
  | Some page => Ok (page, s)
  | None => alloc_global_slowpath s n
  end.

(** [cpu] is [this_cpu()], [None] for NULL. *)
Definition Request (s : pmm) (cpu : option Z) (n : Z) : res (Z * pmm) :=
  if (n =? 0) || (pmm_bitmap_pages (geo s) <? n) then Ok (0, s)
  else
    match cpu with
    | Some c =>
        if n =? 1 then
          let* cache := cache_of s c in
          if negb (length cache =? 0)%nat then
            let* (p, cache) := cache_pop cache in
            let* s := set_cache s c cache in Ok (p, s)
          else
            let* (page, s) := pcp_refill s c in
            match page with
            | Some page => Ok (page, s)
            | None => request_run s n
            end
        else request_run s n
    | None => request_run s n
    end.

(** * Freeing *)

(** Gives up to [k] cached pages back to their shards. *)
Fixpoint flush (k : nat) (s : pmm) (cpu : Z) : res pmm :=
  match k with
  | O => Ok s
  | S k' =>
      let* c := cache_of s cpu in
      if negb (length c =? 0)%nat then
        let* (p, c) := cache_pop c in
        let* s := set_cache s cpu c in
        let bit := p / PAGE_SIZE in
        if pmm_bitmap_pages (geo s) <=? bit then flush k' s cpu
        else
          let* s := free_in_shard_locked s (bit / SHARD_PAGES) bit 1 in
          flush k' s cpu
      else Ok s
  end.

Definition free_cached (s : pmm) (cpu ptr : Z) : res pmm :=
  let* c := cache_of s cpu in
  let* s := if Z.of_nat (length c) <? PMM_PCP_MAX then Ok s else flush PMM_PCP_BATCH s cpu in
  let* c := cache_of s cpu in
  let* c := cache_push c ptr in
  set_cache s cpu c.

(** The freeing loop over the shards a run covers. *)
Definition free_run (s : pmm) (start end_ : Z) : res pmm :=
  loop (S (length (shards s))) (fun '(s, si) =>
    let lo := shard_lo si start in
    let hi := shard_hi si end_ in
    let* s := free_in_shard_locked s si lo (hi - lo) in
    if end_ <=? hi then Ok (inr s) else Ok (inl (s, si + 1))) (s, start / SHARD_PAGES).

Definition Free (s : pmm) (cpu : option Z) (ptr n : Z) : res pmm :=
  if (ptr =? 0) || (n =? 0) then Ok s
  else
    match (if n =? 1 then cpu else None) with
    | Some c => free_cached s c ptr
    | None =>
        let start := ptr / PAGE_SIZE in
        let pages := pmm_bitmap_pages (geo s) in
        if pages <=? start then Ok s
        else
          let n := if pages - start <? n then pages - start else n in
          free_run s start (start + n)
    end.

(** * Blocks of 2 MiB and 2 GiB *)

Definition count_2mb (ok : bool) (s : pmm) : pmm :=
  let st := stats s in
  with_pstats s
    (if ok then Stats (u64 (stat_req2m_ok st + 1)) (stat_req2m_fail st) (stat_req2gb_ok st) (stat_req2gb_fail st)
     else Stats (stat_req2m_ok st) (u64 (stat_req2m_fail st + 1)) (stat_req2gb_ok st) (stat_req2gb_fail st)).

Definition count_2gb (ok : bool) (s : pmm) : pmm :=
  let st := stats s in
  with_pstats s
    (if ok then Stats (stat_req2m_ok st) (stat_req2m_fail st) (u64 (stat_req2gb_ok st + 1)) (stat_req2gb_fail st)
     else Stats (stat_req2m_ok st) (stat_req2m_fail st) (stat_req2gb_ok st) (u64 (stat_req2gb_fail st + 1))).

(** One candidate block: taken when all its pages are free. *)
Definition take_2mb (s : pmm) (si l2_bit : Z) : res (option Z * pmm) :=
  let start := l2_bit * L2_PAGES in
  if pmm_bitmap_pages (geo s) <? start + L2_PAGES then Ok (None, s)
  else
    let* m := ensure_l2_init (geo s) (maps s) l2_bit in
    let* is_free := words_are (l1_map m) (l2_bit * L2_L1_WORDS) (Z.to_nat L2_L1_WORDS) 0 in
    if negb is_free then Ok (None, with_maps s m)
    else
      let* l1 := bits_set (l1_map m) start (start + L2_PAGES) in
      let* l2 := bit_set (l2_map m) l2_bit in
      let* m := l2_full_propagate (set_l2 l2 (set_l1 l1 m)) l2_bit in
      let* s := lower_hint (with_maps s m) si start in
      let* s := shard_free_sub s si L2_PAGES in
      Ok (Some (start * PAGE_SIZE), count_2mb true s).

(** The candidates of word [w] of the 2 MiB map, from the lowest bit of
    [pending] upwards; a word has 64. *)
Fixpoint pending_2mb (k : nat) (s : pmm) (si w pending : Z) : res (option Z * pmm) :=
  match k with
  | O => if pending =? 0 then Ok (None, s) else OutOfFuel
  | S k' =>
      if pending =? 0 then Ok (None, s)
      else
        let l2_bit := w * 64 + ctz pending in
        let pending := Z.land pending (pending - 1) in
        let* (p, s) := take_2mb s si l2_bit in
        match p with
        | Some p => Ok (Some p, s)
        | None => pending_2mb k' s si w pending
        end
  end.

Fixpoint words_2mb (k : nat) (s : pmm) (si w : Z) : res (option Z * pmm) :=
  match k with
  | O => Ok (None, s)
  | S k' =>
      let* word := get (l2_map (maps s)) w in
      let* (p, s) := pending_2mb 64 s si w (not64 word) in
      match p with
      | Some p => Ok (Some p, s)
      | None => words_2mb k' s si (w + 1)
      end
  end.

Definition request_2mb_locked (s : pmm) (si : Z) : res (option Z * pmm) :=
  words_2mb (Z.to_nat L3_L2_WORDS) s si (si * L3_L2_WORDS).

Definition request_2mb_shard (s : pmm) (si : Z) : res (option Z * pmm) :=
  let* sh := get (shards s) si in
  if sh_free sh <? L2_PAGES then Ok (None, s) else request_2mb_locked s si.

Definition Request2MB (s : pmm) : res (Z * pmm) :=
  let* (p, s) := rr_search request_2mb_shard s in
  match p with
  | Some p => Ok (p, s)
  | None => Ok (0, count_2mb false s)
  end.

(** Whether all pages of the blocks from [l2] on are free. *)
Fixpoint l1_clear (g : geometry) (k : nat) (m : bitmaps) (l2 : Z) : res (bool * bitmaps) :=
  match k with
  | O => Ok (true, m)
  | S k' =>
      let* m := ensure_l2_init g m l2 in
      let* clear := words_are (l1_map m) (l2 * L2_L1_WORDS) (Z.to_nat L2_L1_WORDS) 0 in
      if (clear : bool) then l1_clear g k' m (l2 + 1) else Ok (false, m)
  end.

Definition request_2gb_locked (s : pmm) (si : Z) : res (option Z * pmm) :=
  let* l2_clear := words_are (l2_map (maps s)) (si * L3_L2_WORDS) (Z.to_nat L3_L2_WORDS) 0 in
  if negb l2_clear then Ok (None, s)
  else
    let l2_first := si * L2_PER_L3 in
    let* (clear, m) := l1_clear (geo s) (Z.to_nat L2_PER_L3) (maps s) l2_first in
    if negb clear then Ok (None, with_maps s m)
    else
      let start := si * L3_PAGES in
      let* l1 := bits_set (l1_map m) start (start + L3_PAGES) in
      let* l2 := bits_set (l2_map m) l2_first (l2_first + L2_PER_L3) in
      let* l3 := bit_set_atomic (l3_map m) si in
      let* s := lower_hint (with_maps s (set_l3 l3 (set_l2 l2 (set_l1 l1 m)))) si start in
      let* s := shard_free_sub s si L3_PAGES in
      Ok (Some (start * PAGE_SIZE), count_2gb true s).

Definition request_2gb_shard (s : pmm) (si : Z) : res (option Z * pmm) :=
  let* sh := get (shards s) si in
  if npages sh <? L3_PAGES then Ok (None, s)
  else if sh_free sh <? L3_PAGES then Ok (None, s)
  else request_2gb_locked s si.

Definition Request2GB (s : pmm) : res (Z * pmm) :=
  let* (p, s) := rr_search request_2gb_shard s in
  match p with
  | Some p => Ok (p, s)
  | None => Ok (0, count_2gb false s)
  end.

(** Freeing a block of [size] pages at an address that must be a multiple. *)
Definition free_block (s : pmm) (ptr size : Z) : res pmm :=
  if ptr =? 0 then Ok s
  else
    let start := ptr / PAGE_SIZE in
    if negb (Z.land start (size - 1) =? 0) then Ok s
    else if pmm_bitmap_pages (geo s) <? start + size then Ok s
    else free_in_shard_locked s (start / SHARD_PAGES) start size.

Definition Free2MB (s : pmm) (ptr : Z) : res pmm := free_block s ptr L2_PAGES.
Definition Free2GB (s : pmm) (ptr : Z) : res pmm := free_block s ptr L3_PAGES.

(** * Accounting *)

(** The free pages of one block, by the bits of its words. *)
Definition block_free (m : bitmaps) (l2 : Z) : res Z :=
  for_up (Z.to_nat L2_L1_WORDS) 0 (fun w cnt =>
    let* x := get (l1_map m) (l2 * L2_L1_WORDS + w) in Ok (cnt + popcount (not64 x))) 0.

Definition VerifyFreeCount (s : pmm) : res (Z * pmm) :=
  let* (recount, m) := for_up (Z.to_nat (total_l2_bits (geo s))) 0 (fun l2 '(recount, m) =>
    let* full := bit_test (l2_map m) l2 in
    if (full : bool) then Ok (recount, m)
    else
      let* m := ensure_l2_init (geo s) m l2 in
      let* cnt := block_free m l2 in
      Ok (u64 (recount + cnt), m)) (0, maps s) in
  let cur := free_pages s in
  Ok (if cur <? recount then recount - cur else cur - recount, with_maps s m).

Definition Free2MBlocks (s : pmm) : res Z :=
  for_up (length (shards s)) 0 (fun si cnt =>
    for_up (Z.to_nat L3_L2_WORDS) 0 (fun i cnt =>
      let* w := get (l2_map (maps s)) (si * L3_L2_WORDS + i) in
      Ok (u64 (cnt + popcount (not64 w)))) cnt) 0.

Definition ShardCount (s : pmm) : Z := shard_count s.

(** What is written to [out]. *)
Definition ShardFreePages (s : pmm) (max : Z) : list Z := take (Z.to_nat max) (map sh_free (shards s)).

(** * Initialisation *)

Definition DIV_ROUND_UP (x y : Z) : Z := (x + (y - 1)) / y.
Definition ALIGN_UP (x y : Z) : Z := DIV_ROUND_UP x y * y.

Definition truncate_entry (e : memmap_entry) : memmap_entry :=
  if negb (Z.land (e_length e) (PAGE_SIZE - 1) =? 0)
  then Entry (e_base e) (Z.land (e_length e) (not64 (PAGE_SIZE - 1))) (e_type e) else e.

(** The highest end of the entries that count. *)
Definition max_top (counts : memmap_entry -> bool) (es : list memmap_entry) : Z :=
  foldl (fun top e => if counts e then (if top <? e_end e then e_end e else top) else top) 0 es.

Definition max_phys (es : list memmap_entry) : Z :=
  let top := max_top is_usable es in
  if top =? 0 then max_top (fun _ => true) es else top.

(** Cuts [total_meta] bytes off the end of the first usable entry that has them:
    the entries and the address of the bitmaps. *)
Fixpoint place_meta (total_meta : Z) (es : list memmap_entry) : option (list memmap_entry * Z) :=
  match es with
  | [] => None
  | e :: es' =>
      if is_usable e && (total_meta <=? e_length e) then
        let len := e_length e - total_meta in
        Some (Entry (e_base e) len (e_type e) :: es', u64 (e_base e + len))
      else
        match place_meta total_meta es' with
        | Some (es'', b) => Some (e :: es'', b)
        | None => None
        end
  end.

(** Clears the 2 MiB bits of one usable entry. *)
Definition clear_l2_entry (l2 : list Z) (e : memmap_entry) : res (list Z) :=
  if negb (is_usable e) || (e_length e =? 0) || (e_end e =? 0) then Ok l2
  else bits_clear l2 (e_base e / L2_SIZE) ((e_end e - 1) / L2_SIZE + 1).

Fixpoint clear_l2_entries (l2 : list Z) (es : list memmap_entry) : res (list Z) :=
  match es with
  | [] => Ok l2
  | e :: es => let* l2 := clear_l2_entry l2 e in clear_l2_entries l2 es
  end.

(** Marks one entry of the boot loader as used. *)
Definition reserve_entry (g : geometry) (m : bitmaps) (e : memmap_entry) : res bitmaps :=
  if negb (is_reclaimable e) || (e_length e =? 0) then Ok m
  else
    let first := Z.shiftr (e_base e) 12 in
    let count := Z.shiftr (u64 (e_length e + PAGE_SIZE - 1)) 12 in
    let pages := pmm_bitmap_pages g in
    if pages <=? first then Ok m
    else mark_allocated g m first (if pages - first <? count then pages - first else count).

Fixpoint reserve_bootloader_memory (g : geometry) (m : bitmaps) (es : list memmap_entry) : res bitmaps :=
  match es with
  | [] => Ok m
  | e :: es => let* m := reserve_entry g m e in reserve_bootloader_memory g m es
  end.

(** The 2 MiB bits from the pages, every block populated. *)
Definition rebuild_l2 (g : geometry) (m : bitmaps) : res bitmaps :=
  for_up (Z.to_nat (total_l2_bits g)) 0 (fun l2 m =>
    let* m := ensure_l2_init g m l2 in
    let* full := l2_block_full m l2 in
    let* l2m := if (full : bool) then bit_set (l2_map m) l2 else bit_clear (l2_map m) l2 in
    Ok (set_l2 l2m m)) m.

(** The 2 GiB bits from the 2 MiB bits; [keep] leaves the bits of full blocks
    alone instead of setting them. *)
Definition rebuild_l3 (keep : bool) (g : geometry) (m : bitmaps) : res bitmaps :=
  for_up (Z.to_nat (total_l3_bits g)) 0 (fun l3 m =>
    let* full := words_are (l2_map m) (l3 * L3_L2_WORDS) (Z.to_nat L3_L2_WORDS) ALL in
    let* l3m :=
      if (full : bool) then (if keep then Ok (l3_map m) else bit_set (l3_map m) l3)
      else bit_clear (l3_map m) l3 in
    Ok (set_l3 l3m m)) m.

Definition count_free (g : geometry) (m : bitmaps) (ss : list pmm_shard) : res (list pmm_shard * Z) :=
  for_up (Z.to_nat (total_l2_bits g)) 0 (fun l2 '(ss, free) =>
    let* full := bit_test (l2_map m) l2 in
    if (full : bool) then Ok (ss, free)
    else
      let* cnt := block_free m l2 in
      let* ss := upd (fun sh => set_free (u64 (sh_free sh + cnt)) sh) ss (l2 / L2_PER_L3) in
      Ok (ss, u64 (free + cnt))) (ss, 0).

Definition init_shard (pages si : Z) : pmm_shard :=
  let first := si * SHARD_PAGES in
  let np := pages - first in
  Shard first (if np <? SHARD_PAGES then np else SHARD_PAGES) first 0.

(** Bytes of the arrays, rounded up to pages. *)
Definition l1_map_size (l2_bits : Z) : Z := ALIGN_UP (l2_bits * L2_L1_WORDS * 8) PAGE_SIZE.
Definition l2_map_size (l3_bits : Z) : Z := ALIGN_UP (l3_bits * L3_L2_WORDS * 8) PAGE_SIZE.
Definition l3_map_size (l3_bits : Z) : Z := ALIGN_UP ((l3_bits + 63) / 64 * 8) PAGE_SIZE.
Definition init_map_size (l2_bits : Z) : Z := ALIGN_UP ((l2_bits + 63) / 64 * 8) PAGE_SIZE.
Definition shards_size (l3_bits : Z) : Z := ALIGN_UP (l3_bits * 64) PAGE_SIZE.

Definition total_meta (l2_bits l3_bits : Z) : Z :=
  l1_map_size l2_bits + l2_map_size l3_bits + l3_map_size l3_bits + init_map_size l2_bits + shards_size l3_bits.

(** An array of [size] bytes whose words are all [v]. *)
Definition words (size v : Z) : list Z := replicate (Z.to_nat (size / 8)) v.

(** [None] is a panic: no memory, or no room for the bitmaps.  The caches of the
    CPUs start empty. *)
Definition Init (es : list memmap_entry) (ncpu : nat) : res (option pmm) :=
  let es := truncate_entry <$> es in
  let top := max_phys es in
  if top =? 0 then Ok None
  else
    let pages := u64 (top + PAGE_SIZE - 1) / PAGE_SIZE in
    let l2_bits := (pages + L2_PAGES - 1) / L2_PAGES in
    let l3_bits := (l2_bits + L2_PER_L3 - 1) / L2_PER_L3 in
    match place_meta (total_meta l2_bits l3_bits) es with
    | None => Ok None
    | Some (es, meta) =>
        let g := Geometry pages l2_bits l3_bits es meta in
        let ss := init_shard pages <$> (Z.of_nat <$> seq 0 (Z.to_nat l3_bits)) in
        let* l2 := clear_l2_entries (words (l2_map_size l3_bits) ALL) es in
        let m := Bitmaps (words (l1_map_size l2_bits) ALL) l2 (words (l3_map_size l3_bits) ALL)
                   (words (init_map_size l2_bits) 0) in
        let* m := rebuild_l3 true g m in
        let* m := mark_allocated g m 0 1 in
        let* m := reserve_bootloader_memory g m es in
        let* m := rebuild_l2 g m in
        let* m := rebuild_l3 false g m in
        let* (ss, free) := count_free g m ss in
        Ok (Some (Pmm g m ss free 0 1 (replicate ncpu []) (Stats 0 0 0 0)))
    end.
