(* ===== verification/PMMBits.v ===== *)
(** The bit view of the page allocator's word arrays: what the primitives of
    [pmm.cpp] do to single bits, and counting of bits. *)
From stdpp Require Import base list.
From Stdlib Require Import ZArith Lia.
From S2P Require Import Prelude Words PMM.

Open Scope Z_scope.
Open Scope c_scope.

(** * Bits of a word array *)

Definition bitv (map : list Z) (i : Z) : bool := Z.testbit (map !!! Z.to_nat (i / 64)) (i mod 64).

Definition word (w : Z) : Prop := 0 <= w < 2 ^ 64.

Definition nbits (map : list Z) : Z := 64 * Z.of_nat (length map).

(** [map'] is an array like [map] whose bits are given by [f]. *)
Record becomes (map map' : list Z) (f : Z -> bool) : Prop := {
  bec_len : length map' = length map;
  bec_word : Forall word map';
  bec_bit : forall j, 0 <= j < nbits map -> bitv map' j = f j
}.

Lemma becomes_nbits map map' f : becomes map map' f -> nbits map' = nbits map.
Proof. intros H. unfold nbits. now rewrite (bec_len _ _ _ H). Qed.

Lemma becomes_ext map map' f f' : becomes map map' f -> (forall j, 0 <= j < nbits map -> f j = f' j) -> becomes map map' f'.
Proof. intros [H1 H2 H3] Hf. split; auto. intros j Hj. rewrite H3 by exact Hj. auto. Qed.

Lemma becomes_trans map map1 map2 f g : becomes map map1 f -> becomes map1 map2 g -> becomes map map2 g.
Proof. intros H1 H2. pose proof (becomes_nbits _ _ _ H1) as E. destruct H1, H2. split; [congruence|auto|]. rewrite <- E. auto. Qed.

(** ** Words *)

Lemma word_bit_high w i : word w -> 64 <= i -> Z.testbit w i = false.
Proof.
  intros [H1 H2] Hi. destruct (Z.eq_dec w 0) as [->|Hne]; [apply Z.testbit_0_l|].
  apply Z.bits_above_log2; [exact H1|]. apply Z.lt_le_trans with 64; [|exact Hi].
  apply Z.log2_lt_pow2; lia.
Qed.

Lemma word_of_bits w : 0 <= w -> (forall i, 64 <= i -> Z.testbit w i = false) -> word w.
Proof.
  intros H1 H2. split; [exact H1|]. destruct (Z.eq_dec w 0) as [->|Hne]; [lia|].
  apply Z.log2_lt_pow2; [lia|]. destruct (Z.lt_ge_cases (Z.log2 w) 64) as [|Hge]; [assumption|].
  specialize (H2 (Z.log2 w) Hge). rewrite Z.bit_log2 in H2 by lia. discriminate.
Qed.

Lemma lor_word a b : word a -> word b -> word (Z.lor a b).
Proof.
  intros Ha Hb. apply word_of_bits; [apply Z.lor_nonneg; split; [apply Ha|apply Hb]|].
  intros i Hi. now rewrite Z.lor_spec, !word_bit_high by assumption.
Qed.

Lemma land_word a b : word a -> 0 <= b -> word (Z.land a b).
Proof.
  intros Ha Hb. apply word_of_bits; [apply Z.land_nonneg; left; apply Ha|].
  intros i Hi. now rewrite Z.land_spec, (word_bit_high a) by assumption.
Qed.

Lemma u64_word z : word (u64 z).
Proof. apply u64_bound. Qed.

Lemma u64_bit z i : 0 <= i < 64 -> Z.testbit (u64 z) i = Z.testbit z i.
Proof. intros Hi. unfold u64. rewrite Z.mod_pow2_bits_low by lia. reflexivity. Qed.

Lemma not64_bit z i : 0 <= i < 64 -> Z.testbit (not64 z) i = negb (Z.testbit z i).
Proof. intros Hi. unfold not64. rewrite u64_bit, Z.lnot_spec by lia. reflexivity. Qed.

Lemma ALL_bit i : 0 <= i -> Z.testbit ALL i = (i <? 64).
Proof. intros Hi. change ALL with (Z.ones 64). rewrite Z.testbit_ones by lia. destruct (0 <=? i) eqn:E; to_prop; [reflexivity|lia]. Qed.

Lemma ALL_word : word ALL.
Proof. unfold word, ALL. lia. Qed.

Lemma shift1_bit k i : 0 <= k < 64 -> 0 <= i < 64 -> Z.testbit (Z.shiftl 1 k) i = (i =? k).
Proof. intros Hk Hi. rewrite Z.shiftl_1_l, Z.pow2_bits_eqb by lia. apply Z.eqb_sym. Qed.

Lemma shift1_word k : 0 <= k < 64 -> word (Z.shiftl 1 k).
Proof.
  intros Hk. rewrite Z.shiftl_1_l. split; [apply Z.pow_nonneg; lia|]. apply Z.pow_lt_mono_r; lia.
Qed.

(** A word is determined by its 64 bits. *)
Lemma word_eq a b : word a -> word b -> (forall i, 0 <= i < 64 -> Z.testbit a i = Z.testbit b i) -> a = b.
Proof.
  intros Ha Hb H. apply Z.bits_inj'. intros i Hi. destruct (Z.lt_ge_cases i 64); [auto|].
  now rewrite !word_bit_high by assumption.
Qed.

Lemma word_full w : word w -> (w = ALL <-> forall i, 0 <= i < 64 -> Z.testbit w i = true).
Proof.
  intros Hw. split; [intros -> i Hi; rewrite ALL_bit by lia; now apply Z.ltb_lt|].
  intros H. apply word_eq; [exact Hw|apply ALL_word|]. intros i Hi. rewrite H, ALL_bit by lia. symmetry. apply Z.ltb_lt. lia.
Qed.

Lemma word_zero w : word w -> (w = 0 <-> forall i, 0 <= i < 64 -> Z.testbit w i = false).
Proof.
  intros Hw. split; [intros -> i Hi; apply Z.testbit_0_l|].
  intros H. apply word_eq; [exact Hw|unfold word; lia|]. intros i Hi. now rewrite H, Z.testbit_0_l.
Qed.

(** The trailing zeros of a word that is not 0. *)
Lemma ctz_bits w : word w -> w <> 0 ->
  0 <= ctz w < 64 /\ Z.testbit w (ctz w) = true /\ forall i, 0 <= i < ctz w -> Z.testbit w i = false.
Proof.
  intros Hw Hne. destruct (ctz_spec w) as (k & E & Hk); [destruct Hw; lia|]. pose proof (ctz_nonneg w) as Hc.
  assert (Hb : Z.testbit w (ctz w) = true).
  { rewrite E at 1. rewrite Z.mul_comm, Z.mul_pow2_bits by lia. rewrite Z.sub_diag. apply Z.testbit_odd_0. }
  split; [|split; [exact Hb|]].
  - split; [exact Hc|]. destruct (Z.lt_ge_cases (ctz w) 64) as [|Hge]; [assumption|].
    rewrite (word_bit_high w _ Hw Hge) in Hb. discriminate.
  - intros i Hi. rewrite E at 1. rewrite Z.mul_comm. apply Z.mul_pow2_bits_low. lia.
Qed.

(** ** Single bits *)

Lemma land_63 i : Z.land i 63 = i mod 64.
Proof. change 63 with (Z.ones 6). rewrite Z.land_ones by lia. reflexivity. Qed.

Lemma shiftr_6 i : Z.shiftr i 6 = i / 64.
Proof. rewrite Z.shiftr_div_pow2 by lia. reflexivity. Qed.

Lemma land_mask k i : 0 <= k -> Z.land i (2 ^ k - 1) = i mod 2 ^ k.
Proof. intros Hk. rewrite <- Z.land_ones by exact Hk. f_equal. rewrite Z.ones_equiv. lia. Qed.

Lemma get_total {A} `{!Inhabited A} (l : list A) i : 0 <= i < Z.of_nat (length l) -> get l i = Ok (l !!! Z.to_nat i).
Proof. intros Hi. apply get_okZ; [lia|]. apply list_lookup_lookup_total_lt. lia. Qed.

Lemma upd_ok {A} `{!Inhabited A} (f : A -> A) (l : list A) w : 0 <= w < Z.of_nat (length l) ->
  upd f l w = Ok (<[Z.to_nat w := f (l !!! Z.to_nat w)]> l).
Proof. intros Hw. unfold upd. rewrite (get_total _ _ Hw). cbn [bind]. now apply put_okZ. Qed.

Lemma bit_index map i : 0 <= i < nbits map -> 0 <= i / 64 < Z.of_nat (length map).
Proof. unfold nbits. intros Hi. split; [apply Z.div_pos; lia|apply Z.div_lt_upper_bound; lia]. Qed.

Lemma word_at map i : Forall word map -> 0 <= i < Z.of_nat (length map) -> word (map !!! Z.to_nat i).
Proof. intros H Hi. apply (Forall_lookup_total_1 word map); [exact H|]. lia. Qed.

Lemma bit_test_ok map i : 0 <= i < nbits map -> bit_test map i = Ok (bitv map i).
Proof.
  intros Hi. unfold bit_test, bitv. rewrite shiftr_6, land_63, get_total by now apply bit_index.
  cbn [bind]. f_equal. change 1 with (Z.ones 1). rewrite Z.land_ones by lia. change (2 ^ 1) with 2.
  rewrite Z.testbit_odd, Zmod_odd. destruct (Z.odd _); reflexivity.
Qed.

(** Replacing the word [w] of an array. *)
Lemma bitv_insert map w x j : 0 <= w < Z.of_nat (length map) -> 0 <= j ->
  bitv (<[Z.to_nat w := x]> map) j = if j / 64 =? w then Z.testbit x (j mod 64) else bitv map j.
Proof.
  intros Hw Hj. unfold bitv. destruct (j / 64 =? w) eqn:E; to_prop.
  - rewrite E, list_lookup_total_insert_eq by lia. reflexivity.
  - rewrite list_lookup_total_insert_ne; [reflexivity|]. pose proof (Z.div_pos j 64 Hj). lia.
Qed.

(** An update of one word by a function with a bitwise description. *)
Lemma upd_becomes (f : Z -> Z) (b : Z -> bool) map w : Forall word map -> 0 <= w < Z.of_nat (length map) ->
  (forall x, word x -> word (f x)) ->
  (forall j, j / 64 = w -> 0 <= j < nbits map -> Z.testbit (f (map !!! Z.to_nat w)) (j mod 64) = b j) ->
  exists map', upd f map w = Ok map' /\ becomes map map' (fun j => if j / 64 =? w then b j else bitv map j).
Proof.
  intros Hm Hw Hf Hb. eexists. split; [now apply upd_ok|]. split.
  - apply length_insert.
  - apply Forall_insert; [exact Hm|]. apply Hf. now apply word_at.
  - intros j Hj. rewrite bitv_insert by lia. destruct (j / 64 =? w) eqn:E; to_prop; auto.
Qed.

Lemma bit_set_ok map i : Forall word map -> 0 <= i < nbits map ->
  exists map', bit_set map i = Ok map' /\ becomes map map' (fun j => (j =? i) || bitv map j).
Proof.
  intros Hm Hi. unfold bit_set. rewrite shiftr_6, land_63. pose proof (Z.mod_pos_bound i 64 ltac:(lia)) as Hi6.
  destruct (upd_becomes (fun w => Z.lor w (Z.shiftl 1 (i mod 64))) (fun j => (j =? i) || bitv map j) map (i / 64) Hm
    (bit_index _ _ Hi)) as (map' & E & H).
  - intros x Hx. apply lor_word; [exact Hx|now apply shift1_word].
  - intros j Hj Hj0. pose proof (Z.mod_pos_bound j 64 ltac:(lia)). rewrite Z.lor_spec, shift1_bit by lia. rewrite orb_comm. f_equal.
    + destruct (j =? i) eqn:E; to_prop; [subst; apply Z.eqb_refl|]. apply Z.eqb_neq. dlia.
    + unfold bitv. now rewrite Hj.
  - exists map'. split; [exact E|]. eapply becomes_ext; [exact H|]. intros j Hj. simpl.
    destruct (j / 64 =? i / 64) eqn:E'; to_prop; [reflexivity|]. destruct (j =? i) eqn:E2; to_prop; [now subst|reflexivity].
Qed.

Lemma bit_clear_ok map i : Forall word map -> 0 <= i < nbits map ->
  exists map', bit_clear map i = Ok map' /\ becomes map map' (fun j => negb (j =? i) && bitv map j).
Proof.
  intros Hm Hi. unfold bit_clear. rewrite shiftr_6, land_63. pose proof (Z.mod_pos_bound i 64 ltac:(lia)) as Hi6.
  destruct (upd_becomes (fun w => Z.land w (not64 (Z.shiftl 1 (i mod 64)))) (fun j => negb (j =? i) && bitv map j) map (i / 64) Hm
    (bit_index _ _ Hi)) as (map' & E & H).
  - intros x Hx. apply land_word; [exact Hx|apply u64_word].
  - intros j Hj Hj0. pose proof (Z.mod_pos_bound j 64 ltac:(lia)). rewrite Z.land_spec, not64_bit, shift1_bit by lia. rewrite andb_comm. f_equal.
    + f_equal. destruct (j =? i) eqn:E; to_prop; [subst; apply Z.eqb_refl|]. apply Z.eqb_neq. dlia.
    + unfold bitv. now rewrite Hj.
  - exists map'. split; [exact E|]. eapply becomes_ext; [exact H|]. intros j Hj. simpl.
    destruct (j / 64 =? i / 64) eqn:E'; to_prop; [reflexivity|]. destruct (j =? i) eqn:E2; to_prop; [now subst|reflexivity].
Qed.

(** ** Ranges of bits *)

Definition inr_ (first last j : Z) : bool := (first <=? j) && (j <? last).

Lemma inr_true first last j : inr_ first last j = true <-> first <= j < last.
Proof. unfold inr_. rewrite andb_true_iff, Z.leb_le, Z.ltb_lt. tauto. Qed.

Lemma inr_false first last j : inr_ first last j = false <-> ~ first <= j < last.
Proof. rewrite <- inr_true. destruct (inr_ first last j); split; congruence. Qed.

Ltac inr_case := repeat match goal with
  | |- context [inr_ ?a ?b ?j] => let E := fresh "E" in destruct (inr_ a b j) eqn:E; [apply inr_true in E|apply inr_false in E]
  | H : inr_ _ _ _ = true |- _ => apply inr_true in H
  | H : inr_ _ _ _ = false |- _ => apply inr_false in H
  end.

Lemma mask_from_bit first i : 0 <= i < 64 -> Z.testbit (mask_from first) i = (first mod 64 <=? i).
Proof.
  intros Hi. unfold mask_from. rewrite land_63. pose proof (Z.mod_pos_bound first 64 ltac:(lia)).
  rewrite u64_bit, Z.shiftl_spec by lia. destruct (first mod 64 <=? i) eqn:E; to_prop.
  - rewrite ALL_bit by lia. apply Z.ltb_lt. lia.
  - apply Z.testbit_neg_r. lia.
Qed.

Lemma mask_upto_bit last i : 0 <= i < 64 -> Z.testbit (mask_upto last) i = (i <=? (last - 1) mod 64).
Proof.
  intros Hi. unfold mask_upto. rewrite land_63. pose proof (Z.mod_pos_bound (last - 1) 64 ltac:(lia)).
  rewrite Z.shiftr_spec, ALL_bit by lia. destruct (i <=? (last - 1) mod 64) eqn:E; to_prop; [apply Z.ltb_lt|apply Z.ltb_ge]; lia.
Qed.

(** Both range primitives give the bits of the range the value [v]: [mix] does
    so in a masked word, [fill] is a whole word of [v]. *)
Section Range.
Context (v : bool) (fill : Z) (mix : Z -> Z -> Z).
Hypothesis fill_word : word fill.
Hypothesis fill_bit : forall i, 0 <= i < 64 -> Z.testbit fill i = v.
Hypothesis mix_word : forall m w, 0 <= m -> word w -> word m -> word (mix m w).
Hypothesis mix_bit : forall m w i, 0 <= i < 64 -> Z.testbit (mix m w) i = if Z.testbit m i then v else Z.testbit w i.

Definition range_op (map : list Z) (first last : Z) : res (list Z) :=
  if last <=? first then Ok map
  else
    let wf := Z.shiftr first 6 in
    let wl := Z.shiftr (last - 1) 6 in
    if wf =? wl then
      upd (fun w => mix (Z.land (mask_from first) (mask_upto last)) w) map wf
    else
      let* map := upd (fun w => mix (mask_from first) w) map wf in
      let* map := for_up (Z.to_nat (wl - (wf + 1))) (wf + 1) (fun w map => put map w fill) map in
      upd (fun w => mix (mask_upto last) w) map wl.

Lemma mask_from_word first : word (mask_from first).
Proof. apply u64_word. Qed.

Lemma mask_upto_word last : word (mask_upto last).
Proof.
  unfold mask_upto. rewrite land_63. pose proof (Z.mod_pos_bound (last - 1) 64 ltac:(lia)).
  apply word_of_bits; [apply Z.shiftr_nonneg; unfold ALL; lia|].
  intros i Hi. rewrite Z.shiftr_spec, ALL_bit by lia. apply Z.ltb_ge. lia.
Qed.

(** Masking word [w] of the array. *)
Lemma upd_mix m map w : Forall word map -> 0 <= w < Z.of_nat (length map) -> word m ->
  exists map', upd (fun x => mix m x) map w = Ok map' /\
    becomes map map' (fun j => if (j / 64 =? w) && Z.testbit m (j mod 64) then v else bitv map j).
Proof.
  intros Hm Hw Hmw. destruct (upd_becomes (fun x => mix m x) (fun j => if Z.testbit m (j mod 64) then v else bitv map j) map w Hm Hw)
    as (map' & E & H).
  - intros x Hx. apply mix_word; [apply Hmw|exact Hx|exact Hmw].
  - intros j Hj Hj0. pose proof (Z.mod_pos_bound j 64 ltac:(lia)). rewrite mix_bit by lia. unfold bitv. now rewrite Hj.
  - exists map'. split; [exact E|]. eapply becomes_ext; [exact H|]. intros j Hj. simpl. now destruct (j / 64 =? w).
Qed.

Lemma fill_words map lo k : Forall word map -> 0 <= lo -> lo + Z.of_nat k <= Z.of_nat (length map) ->
  wp (for_up k lo (fun w map => put map w fill) map) (fun map' =>
    becomes map map' (fun j => if inr_ (64 * lo) (64 * (lo + Z.of_nat k)) j then v else bitv map j)).
Proof.
  intros Hm Hlo Hk.
  apply (wp_for_up (fun i map' => becomes map map' (fun j => if inr_ (64 * lo) (64 * i) j then v else bitv map j))).
  - intros i map1 Hi H1. pose proof (becomes_nbits _ _ _ H1) as En. pose proof (bec_len _ _ _ H1) as El.
    rewrite put_okZ by lia. cbn [wp]. split; [rewrite length_insert; exact El| |].
    + apply Forall_insert; [apply H1|exact fill_word].
    + intros j Hj. rewrite bitv_insert by lia. pose proof (Z.mod_pos_bound j 64 ltac:(lia)).
      destruct (j / 64 =? i) eqn:E; to_prop.
      * rewrite fill_bit by lia. inr_case; [reflexivity|dlia].
      * rewrite (bec_bit _ _ _ H1) by exact Hj. inr_case; try reflexivity; exfalso; dlia.
  - split; [reflexivity|exact Hm|]. intros j Hj. inr_case; [lia|reflexivity].
Qed.

Lemma range_op_ok map first last : Forall word map -> 0 <= first -> last <= nbits map ->
  exists map', range_op map first last = Ok map' /\
    becomes map map' (fun j => if inr_ first last j then v else bitv map j).
Proof.
  intros Hm Hf Hl. unfold range_op. destruct (last <=? first) eqn:E0; to_prop.
  { exists map. split; [reflexivity|]. split; [reflexivity|exact Hm|]. intros j Hj. inr_case; [lia|reflexivity]. }
  rewrite !shiftr_6. pose proof (bit_index map first ltac:(lia)) as Wf. pose proof (bit_index map (last - 1) ltac:(lia)) as Wl.
  assert (Hmask : forall j, Z.testbit (Z.land (mask_from first) (mask_upto last)) (j mod 64)
    = (first mod 64 <=? j mod 64) && (j mod 64 <=? (last - 1) mod 64)).
  { intros j. pose proof (Z.mod_pos_bound j 64 ltac:(lia)). now rewrite Z.land_spec, mask_from_bit, mask_upto_bit by lia. }
  destruct (first / 64 =? (last - 1) / 64) eqn:E1; to_prop.
  - destruct (upd_mix (Z.land (mask_from first) (mask_upto last)) map (first / 64) Hm Wf) as (map' & -> & H).
    { apply land_word; [apply mask_from_word|apply mask_upto_word]. }
    exists map'. split; [reflexivity|]. eapply becomes_ext; [exact H|]. intros j Hj. cbv beta. rewrite Hmask.
    inr_case; repeat case_bool; to_prop; try reflexivity; exfalso; dlia.
  - destruct (upd_mix (mask_from first) map (first / 64) Hm Wf (mask_from_word _)) as (map1 & -> & H1). cbn [bind].
    pose proof (bec_len _ _ _ H1) as El1. pose proof (becomes_nbits _ _ _ H1) as En1.
    assert (Hlt : first / 64 < (last - 1) / 64) by dlia.
    destruct (proj1 (wp_ex _ _) (fill_words map1 (first / 64 + 1) (Z.to_nat ((last - 1) / 64 - (first / 64 + 1)))
      (bec_word _ _ _ H1) ltac:(lia) ltac:(lia))) as (map2 & -> & H2). cbn [bind].
    pose proof (bec_len _ _ _ H2) as El2. pose proof (becomes_nbits _ _ _ H2) as En2.
    destruct (upd_mix (mask_upto last) map2 ((last - 1) / 64) (bec_word _ _ _ H2) ltac:(lia) (mask_upto_word _)) as (map3 & -> & H3).
    exists map3. split; [reflexivity|]. split; [rewrite (bec_len _ _ _ H3); congruence|apply H3|]. intros j Hj. pose proof (Z.mod_pos_bound j 64 ltac:(lia)).
    rewrite (bec_bit _ _ _ H3) by lia. rewrite (bec_bit _ _ _ H2) by lia. rewrite (bec_bit _ _ _ H1) by lia.
    rewrite mask_from_bit, mask_upto_bit by lia. inr_case; repeat case_bool; to_prop; try reflexivity; exfalso; dlia.
Qed.
End Range.

Lemma bits_set_ok map first last : Forall word map -> 0 <= first -> last <= nbits map ->
  exists map', bits_set map first last = Ok map' /\ becomes map map' (fun j => inr_ first last j || bitv map j).
Proof.
  intros Hm Hf Hl. destruct (range_op_ok true ALL (fun m w => Z.lor w m)) with (map := map) (first := first) (last := last) as (map' & E & H); auto.
  - apply ALL_word.
  - intros i Hi. rewrite ALL_bit by lia. apply Z.ltb_lt. lia.
  - intros m w _ Hw Hmw. now apply lor_word.
  - intros m w i _. rewrite Z.lor_spec. destruct (Z.testbit m i), (Z.testbit w i); reflexivity.
  - exists map'. split; [exact E|]. eapply becomes_ext; [exact H|]. intros j _. simpl. now destruct (inr_ first last j).
Qed.

Lemma bits_clear_ok map first last : Forall word map -> 0 <= first -> last <= nbits map ->
  exists map', bits_clear map first last = Ok map' /\ becomes map map' (fun j => negb (inr_ first last j) && bitv map j).
Proof.
  intros Hm Hf Hl. destruct (range_op_ok false 0 (fun m w => Z.land w (not64 m))) with (map := map) (first := first) (last := last) as (map' & E & H); auto.
  - unfold word. lia.
  - intros i Hi. apply Z.testbit_0_l.
  - intros m w _ Hw Hmw. apply land_word; [exact Hw|apply u64_word].
  - intros m w i Hi. rewrite Z.land_spec, not64_bit by exact Hi. destruct (Z.testbit m i), (Z.testbit w i); reflexivity.
  - exists map'. split; [exact E|]. eapply becomes_ext; [exact H|]. intros j _. simpl. now destruct (inr_ first last j).
Qed.

(** ** Tests of whole words *)

(** A run of words that are all [v] for [v] the full or the empty word. *)
Lemma words_are_ok map wb k v b : Forall word map -> 0 <= wb -> wb + Z.of_nat k <= Z.of_nat (length map) ->
  (forall w, word w -> w = v <-> forall i, 0 <= i < 64 -> Z.testbit w i = b) ->
  exists r, words_are map wb k v = Ok r /\
    (r = true <-> forall j, 64 * wb <= j < 64 * (wb + Z.of_nat k) -> bitv map j = b).
Proof.
  intros Hm. revert wb. induction k as [|k IH]; intros wb Hw Hk Hv; cbn [words_are].
  { exists true. split; [reflexivity|]. split; [intros _ j Hj; lia|auto]. }
  rewrite get_total by lia. cbn [bind]. pose proof (word_at map wb Hm ltac:(lia)) as Hww.
  assert (Hword : map !!! Z.to_nat wb = v <-> forall j, 64 * wb <= j < 64 * (wb + 1) -> bitv map j = b).
  { rewrite (Hv _ Hww). unfold bitv. split.
    - intros H j Hj. replace (j / 64) with wb by dlia. apply H. apply Z.mod_pos_bound. lia.
    - intros H i Hi. specialize (H (64 * wb + i) ltac:(lia)). replace ((64 * wb + i) / 64) with wb in H by dlia.
      replace ((64 * wb + i) mod 64) with i in H by dlia. exact H. }
  destruct (map !!! Z.to_nat wb =? v) eqn:E; to_prop; cbn [negb].
  - destruct (IH (wb + 1)) as (r & -> & Hr); [lia..|exact Hv|]. exists r. split; [reflexivity|]. rewrite Hr. split.
    + intros H j Hj. destruct (Z.lt_ge_cases j (64 * (wb + 1))); [apply Hword; [exact E|lia]|apply H; lia].
    + intros H j Hj. apply H. lia.
  - exists false. split; [reflexivity|]. split; [easy|]. intros H. destruct E. apply Hword. intros j Hj. apply H. lia.
Qed.

Lemma words_full_ok map wb k : Forall word map -> 0 <= wb -> wb + Z.of_nat k <= Z.of_nat (length map) ->
  exists r, words_are map wb k ALL = Ok r /\ (r = true <-> forall j, 64 * wb <= j < 64 * (wb + Z.of_nat k) -> bitv map j = true).
Proof. intros. apply words_are_ok; auto. apply word_full. Qed.

Lemma words_zero_ok map wb k : Forall word map -> 0 <= wb -> wb + Z.of_nat k <= Z.of_nat (length map) ->
  exists r, words_are map wb k 0 = Ok r /\ (r = true <-> forall j, 64 * wb <= j < 64 * (wb + Z.of_nat k) -> bitv map j = false).
Proof. intros. apply words_are_ok; auto. apply word_zero. Qed.

(** * Counting *)

(** How many of the [k] numbers from [lo] on satisfy [f]. *)
Fixpoint count (f : Z -> bool) (lo : Z) (k : nat) : Z :=
  match k with
  | O => 0
  | S k' => b2z (f lo) + count f (lo + 1) k'
  end.

Lemma count_ext f g lo k : (forall j, lo <= j < lo + Z.of_nat k -> f j = g j) -> count f lo k = count g lo k.
Proof.
  revert lo. induction k as [|k IH]; intros lo H; simpl; [reflexivity|].
  rewrite (H lo) by lia. f_equal. apply IH. intros j Hj. apply H. lia.
Qed.

Lemma count_app f lo k1 k2 : count f lo (k1 + k2) = count f lo k1 + count f (lo + Z.of_nat k1) k2.
Proof.
  revert lo. induction k1 as [|k1 IH]; intros lo; simpl; [now rewrite Z.add_0_r|].
  rewrite IH. replace (lo + Z.of_nat (S k1)) with (lo + 1 + Z.of_nat k1) by lia. lia.
Qed.

Lemma count_bound f lo k : 0 <= count f lo k <= Z.of_nat k.
Proof. revert lo. induction k as [|k IH]; intros lo; simpl; [lia|]. specialize (IH (lo + 1)). destruct (f lo); simpl; lia. Qed.

Lemma count_add f g lo k : (forall j, lo <= j < lo + Z.of_nat k -> f j && g j = false) ->
  count (fun j => f j || g j) lo k = count f lo k + count g lo k.
Proof.
  revert lo. induction k as [|k IH]; intros lo H; simpl; [reflexivity|].
  rewrite IH by (intros j Hj; apply H; lia). specialize (H lo ltac:(lia)). destruct (f lo), (g lo); simpl in *; try discriminate; lia.
Qed.

Lemma count_false f lo k : (forall j, lo <= j < lo + Z.of_nat k -> f j = false) -> count f lo k = 0.
Proof. intros H. revert lo H. induction k as [|k IH]; intros lo H; simpl; [reflexivity|]. rewrite H by lia. apply IH. intros j Hj. apply H. lia. Qed.

Lemma count_true f lo k : (forall j, lo <= j < lo + Z.of_nat k -> f j = true) -> count f lo k = Z.of_nat k.
Proof. intros H. revert lo H. induction k as [|k IH]; intros lo H; cbn [count]; [reflexivity|]. rewrite H, IH by (lia || (intros j Hj; apply H; lia)). simpl. lia. Qed.

Lemma count_pos f lo k j : lo <= j < lo + Z.of_nat k -> f j = true -> 0 < count f lo k.
Proof.
  revert lo. induction k as [|k IH]; intros lo Hj Hf; [lia|]. simpl. pose proof (count_bound f (lo + 1) k).
  destruct (Z.eq_dec j lo) as [->|]; [rewrite Hf; simpl; lia|]. specialize (IH (lo + 1) ltac:(lia) Hf). destruct (f lo); simpl; lia.
Qed.

Lemma count_zero f lo k : count f lo k = 0 -> forall j, lo <= j < lo + Z.of_nat k -> f j = false.
Proof. intros H j Hj. destruct (f j) eqn:E; [|reflexivity]. pose proof (count_pos f lo k j Hj E). lia. Qed.

(** The numbers of an interval inside the counted one. *)
Lemma count_range lo k a b : lo <= a <= b -> b <= lo + Z.of_nat k -> count (inr_ a b) lo k = b - a.
Proof.
  intros Ha Hb. replace k with (Z.to_nat (a - lo) + (Z.to_nat (b - a) + (k - Z.to_nat (b - lo))))%nat by lia.
  rewrite !count_app. rewrite (count_false _ lo) by (intros j Hj; apply inr_false; lia).
  rewrite count_true by (intros j Hj; apply inr_true; lia). rewrite count_false by (intros j Hj; apply inr_false; lia). lia.
Qed.

Lemma count_meet lo k a b c d : c = Z.max lo a -> d = Z.min (lo + Z.of_nat k) b -> c <= d ->
  count (inr_ a b) lo k = d - c.
Proof.
  intros -> -> H. rewrite <- (count_range lo k (Z.max lo a) (Z.min (lo + Z.of_nat k) b)) by lia.
  apply count_ext. intros j Hj. inr_case; try reflexivity; lia.
Qed.

(** Removing an interval that satisfied [f]. *)
Lemma count_remove f g lo k a b : lo <= a <= b -> b <= lo + Z.of_nat k ->
  (forall j, lo <= j < lo + Z.of_nat k -> g j = f j && negb (inr_ a b j)) -> (forall j, a <= j < b -> f j = true) ->
  count g lo k = count f lo k - (b - a).
Proof.
  intros Ha Hb Hg Hf. rewrite <- (count_range lo k a b Ha Hb).
  enough (count f lo k = count g lo k + count (inr_ a b) lo k) by lia.
  rewrite <- count_add.
  - apply count_ext. intros j Hj. rewrite Hg by exact Hj. inr_case; [rewrite Hf by lia; reflexivity|]. now rewrite andb_true_r, orb_false_r.
  - intros j Hj. rewrite Hg by exact Hj. inr_case; [now rewrite andb_false_r|now rewrite andb_false_r].
Qed.

(** Shifting the counted interval. *)
Lemma count_shift f lo k d : count (fun j => f (j + d)) lo k = count f (lo + d) k.
Proof. revert lo. induction k as [|k IH]; intros lo; simpl; [reflexivity|]. rewrite IH. do 2 f_equal. lia. Qed.

Lemma popcount_double z : 0 <= z -> popcount (2 * z) = popcount z.
Proof. destruct z; simpl; [reflexivity|reflexivity|lia]. Qed.

Lemma popcount_double_1 z : 0 <= z -> popcount (2 * z + 1) = 1 + popcount z.
Proof. destruct z; simpl; [reflexivity|reflexivity|lia]. Qed.

(** [popcount] counts the bits. *)
Lemma popcount_count z k : 0 <= z < 2 ^ Z.of_nat k -> popcount z = count (Z.testbit z) 0 k.
Proof.
  revert z. induction k as [|k IH]; intros z Hz; [simpl in Hz; assert (z = 0) by lia; now subst|].
  rewrite Nat2Z.inj_succ, Z.pow_succ_r in Hz by lia. cbn [count].
  rewrite (Z.div2_odd z), Z.div2_div.
  assert (Hs : count (Z.testbit (2 * (z / 2) + Z.b2z (Z.odd z))) (0 + 1) k = popcount (z / 2)).
  { rewrite <- (count_shift _ 0 k 1), (IH (z / 2)) by (Z.to_euclidean_division_equations; lia). apply count_ext. intros j Hj.
    destruct (Z.odd z); [apply Z.testbit_odd_succ|rewrite Z.add_0_r; apply Z.testbit_even_succ]; lia. }
  rewrite Hs. pose proof (Z.div_pos z 2 ltac:(lia) ltac:(lia)).
  destruct (Z.odd z); simpl Z.b2z.
  - rewrite popcount_double_1, Z.testbit_odd_0 by lia. reflexivity.
  - rewrite Z.add_0_r, popcount_double, Z.testbit_even_0 by lia. reflexivity.
Qed.

(** The clear bits of word [w] of an array. *)
Lemma popcount_word map w : Forall word map -> 0 <= w < Z.of_nat (length map) ->
  popcount (not64 (map !!! Z.to_nat w)) = count (fun j => negb (bitv map j)) (64 * w) 64.
Proof.
  intros Hm Hw. rewrite (popcount_count _ 64) by (apply (u64_word (Z.lnot _))).
  rewrite <- (Z.add_0_l (64 * w)), <- count_shift. apply count_ext. intros j Hj. simpl in Hj.
  rewrite not64_bit by lia. unfold bitv. f_equal. replace ((j + 64 * w) / 64) with w by dlia. now replace ((j + 64 * w) mod 64) with j by dlia.
Qed.
