(* ===== verification/PMMInv.v ===== *)
(** The invariant of the page allocator's bitmaps, and what marking runs of
    pages does to it. *)
From stdpp Require Import base list.
From Stdlib Require Import ZArith Lia.
From S2P Require Import Prelude Words PMM PMMBits.

Open Scope Z_scope.
Open Scope c_scope.

(** * The invariant *)

Definition pages (g : geometry) : Z := pmm_bitmap_pages g.

(** The numbers [Init] computes from the number of pages. *)
Record geo_ok (g : geometry) : Prop := {
  g_pages : 0 < pages g < 2 ^ 52 + 1;
  g_l2 : 512 * (total_l2_bits g - 1) < pages g <= 512 * total_l2_bits g;
  g_l3 : 1024 * (total_l3_bits g - 1) < total_l2_bits g <= 1024 * total_l3_bits g
}.

(** The arrays are large enough and hold words. *)
Record arr_ok (g : geometry) (m : bitmaps) : Prop := {
  a_l1 : 512 * total_l2_bits g <= nbits (l1_map m);
  a_l2 : 1024 * total_l3_bits g <= nbits (l2_map m);
  a_l3 : total_l3_bits g <= nbits (l3_map m);
  a_init : total_l2_bits g <= nbits (init_map m);
  a_w1 : Forall word (l1_map m);
  a_w2 : Forall word (l2_map m);
  a_w3 : Forall word (l3_map m);
  a_wi : Forall word (init_map m)
}.

(** Page [p] is marked as used. *)
Definition used (m : bitmaps) (p : Z) : bool := bitv (l1_map m) p.

(** A block of 2 MiB is marked full when all its pages are used, one of 2 GiB
    when all its blocks are full; every block is populated; pages behind the
    end, and blocks behind the last, count as used. *)
Record summary (g : geometry) (m : bitmaps) : Prop := {
  s_init : forall b, 0 <= b < total_l2_bits g -> bitv (init_map m) b = true;
  s_l2 : forall b, 0 <= b < total_l2_bits g ->
    (bitv (l2_map m) b = true <-> forall p, 512 * b <= p < 512 * (b + 1) -> used m p = true);
  s_l2_out : forall b, total_l2_bits g <= b < 1024 * total_l3_bits g -> bitv (l2_map m) b = true;
  s_l3 : forall c, 0 <= c < total_l3_bits g ->
    (bitv (l3_map m) c = true <-> forall b, 1024 * c <= b < 1024 * (c + 1) -> bitv (l2_map m) b = true);
  s_out : forall p, pages g <= p < 512 * total_l2_bits g -> used m p = true
}.

Definition maps_ok (g : geometry) (m : bitmaps) : Prop := arr_ok g m /\ summary g m.

Ltac consts := change L2_PAGES with 512 in *; change L2_PER_L3 with 1024 in *; change L3_PAGES with 524288 in *;
  change SHARD_PAGES with 524288 in *; change L2_L1_WORDS with 8 in *; change L3_L2_WORDS with 16 in *; change PAGE_SIZE with 4096 in *.

Lemma ensure_done g m b : maps_ok g m -> 0 <= b < total_l2_bits g -> ensure_l2_init g m b = Ok m.
Proof.
  intros [Ha Hs] Hb. unfold ensure_l2_init. pose proof (a_init _ _ Ha). rewrite bit_test_ok by lia.
  now rewrite (s_init _ _ Hs) by lia.
Qed.

Lemma arr_set_l1 g m l1 f : arr_ok g m -> becomes (l1_map m) l1 f -> arr_ok g (set_l1 l1 m).
Proof. intros [] H. pose proof (becomes_nbits _ _ _ H) as E. destruct H. split; simpl; try rewrite E; auto. Qed.

Lemma arr_set_l2 g m l2 f : arr_ok g m -> becomes (l2_map m) l2 f -> arr_ok g (set_l2 l2 m).
Proof. intros [] H. pose proof (becomes_nbits _ _ _ H) as E. destruct H. split; simpl; try rewrite E; auto. Qed.

Lemma arr_set_l3 g m l3 f : arr_ok g m -> becomes (l3_map m) l3 f -> arr_ok g (set_l3 l3 m).
Proof. intros [] H. pose proof (becomes_nbits _ _ _ H) as E. destruct H. split; simpl; try rewrite E; auto. Qed.

Lemma arr_set_init g m im f : arr_ok g m -> becomes (init_map m) im f -> arr_ok g (set_init im m).
Proof. intros [] H. pose proof (becomes_nbits _ _ _ H) as E. destruct H. split; simpl; try rewrite E; auto. Qed.

#[export] Hint Resolve arr_set_l1 arr_set_l2 arr_set_l3 arr_set_init : cdb.

(** * Tests of blocks *)

Lemma l2_block_full_ok g m b : arr_ok g m -> 0 <= b < total_l2_bits g ->
  exists r, l2_block_full m b = Ok r /\ (r = true <-> forall p, 512 * b <= p < 512 * (b + 1) -> used m p = true).
Proof.
  intros Ha Hb. unfold l2_block_full. consts. pose proof (a_l1 _ _ Ha) as H1. unfold nbits in H1.
  destruct (words_full_ok (l1_map m) (b * 8) (Z.to_nat 8)) as (r & -> & Hr); [apply Ha|lia|lia|].
  exists r. split; [reflexivity|]. rewrite Hr. unfold used.
  split; intros H p Hp; apply H; lia.
Qed.

(** Every block of the 2 GiB block [c] is full. *)
Definition l3_full (m : bitmaps) (c : Z) : Prop := forall b, 1024 * c <= b < 1024 * (c + 1) -> bitv (l2_map m) b = true.

Lemma l3_words_ok g m c : arr_ok g m -> 0 <= c < total_l3_bits g ->
  exists r, words_are (l2_map m) (c * L3_L2_WORDS) (Z.to_nat L3_L2_WORDS) ALL = Ok r /\ (r = true <-> l3_full m c).
Proof.
  intros Ha Hc. consts. pose proof (a_l2 _ _ Ha) as H2. unfold nbits in H2.
  destruct (words_full_ok (l2_map m) (c * 16) (Z.to_nat 16)) as (r & -> & Hr); [apply Ha|lia|lia|].
  exists r. split; [reflexivity|]. rewrite Hr. unfold l3_full. split; intros H p Hp; apply H; lia.
Qed.

(** Propagation sets the 2 GiB bit of a block that is full. *)
Lemma l2_full_propagate_ok g m b : arr_ok g m -> 0 <= b < 1024 * total_l3_bits g ->
  wp (l2_full_propagate m b) (fun m' => exists l3, m' = set_l3 l3 m /\ arr_ok g m' /\
    forall c, 0 <= c < total_l3_bits g ->
      (bitv l3 c = true <-> (c = b / 1024 /\ l3_full m c) \/ bitv (l3_map m) c = true)).
Proof.
  intros Ha Hb. unfold l2_full_propagate. consts. assert (Hc : 0 <= b / 1024 < total_l3_bits g) by dlia.
  destruct (l3_words_ok g m (b / 1024) Ha Hc) as (r & E & Hr). consts. rewrite E. cbn [bind].
  pose proof (a_l3 _ _ Ha) as H3. destruct r.
  - unfold bit_set_atomic. destruct (bit_set_ok (l3_map m) (b / 1024)) as (l3 & -> & H); [apply Ha|lia|].
    cbn [bind wp]. exists l3. split; [reflexivity|]. split; [eauto with cdb|]. intros c Hc'.
    rewrite (bec_bit _ _ _ H) by lia. rewrite orb_true_iff, Z.eqb_eq. split; [intros [->|]; [left; tauto|now right]|intros [[-> _]|]; tauto].
  - cbn [wp]. exists (l3_map m). split; [now destruct m|]. split; [exact Ha|]. intros c Hc'.
    split; [now right|]. intros [[-> Hf]|]; [|assumption]. apply Hr in Hf. discriminate.
Qed.

(** * Marking *)

(** The pages after marking [[lo, hi)] as used. *)
Definition marked (g : geometry) (m m' : bitmaps) (lo hi : Z) : Prop :=
  forall p, 0 <= p < 512 * total_l2_bits g -> used m' p = inr_ lo hi p || used m p.

Definition cleared (g : geometry) (m m' : bitmaps) (lo hi : Z) : Prop :=
  forall p, 0 <= p < 512 * total_l2_bits g -> used m' p = negb (inr_ lo hi p) && used m p.

(** The 2 MiB bit of a block whose pages change, the others staying. *)
Lemma mark_block_allocated_ok g m l2 lo hi : geo_ok g -> maps_ok g m -> 0 <= l2 < total_l2_bits g ->
  512 * l2 <= lo -> hi <= 512 * (l2 + 1) ->
  wp (mark_block_allocated g l2 lo hi m) (fun m' => maps_ok g m' /\ marked g m m' lo hi).
Proof.
  intros Hg Hm Hl Hlo Hhi. pose proof (g_l3 _ Hg) as G3. unfold mark_block_allocated. rewrite ensure_done by assumption. cbn [bind].
  destruct Hm as [Ha Hs]. pose proof (a_l1 _ _ Ha) as A1. pose proof (a_l2 _ _ Ha) as A2.
  destruct (bits_set_ok (l1_map m) lo hi) as (l1 & -> & H1); [apply Ha|lia..|]. cbn [bind].
  assert (Hmark : marked g m (set_l1 l1 m) lo hi).
  { intros p Hp. unfold used. simpl. rewrite (bec_bit _ _ _ H1) by lia. reflexivity. }
  pose proof (arr_set_l1 _ _ _ _ Ha H1) as Ha1.
  destruct (l2_block_full_ok g (set_l1 l1 m) l2 Ha1 Hl) as (full & -> & Hfull). cbn [bind].
  assert (Hold : forall b, 0 <= b < total_l2_bits g -> b <> l2 ->
    (bitv (l2_map m) b = true <-> forall p, 512 * b <= p < 512 * (b + 1) -> used (set_l1 l1 m) p = true)).
  { intros b Hb Hne. rewrite (s_l2 _ _ Hs) by exact Hb. split; intros H p Hp; specialize (H p Hp).
    - rewrite Hmark, H by lia. apply orb_true_r.
    - rewrite Hmark in H by lia. destruct (inr_ lo hi p) eqn:E; inr_case; [lia|exact H]. }
  assert (Hmono : bitv (l2_map m) l2 = true -> full = true).
  { rewrite (s_l2 _ _ Hs) by exact Hl. intros H. apply Hfull. intros p Hp. rewrite Hmark, H by lia. apply orb_true_r. }
  assert (Hout : forall p, pages g <= p < 512 * total_l2_bits g -> used (set_l1 l1 m) p = true).
  { intros p Hp. pose proof (g_pages _ Hg). rewrite Hmark, (s_out _ _ Hs) by lia. apply orb_true_r. }
  destruct full.
  - destruct (bit_set_ok (l2_map (set_l1 l1 m)) l2) as (l2m & -> & H2); [apply Ha|simpl; lia|]. cbn [bind]. simpl in H2.
    pose proof (arr_set_l2 g (set_l1 l1 m) l2m _ Ha1 H2) as Ha2.
    eapply wp_mono; [apply (l2_full_propagate_ok g); [exact Ha2|lia]|]. intros m' (l3 & -> & Ha3 & H3). simpl in H3.
    assert (Hl2 : forall b, 0 <= b < 1024 * total_l3_bits g -> bitv l2m b = (b =? l2) || bitv (l2_map m) b).
    { intros b Hb. rewrite (bec_bit _ _ _ H2) by lia. reflexivity. }
    split; [split; [exact Ha3|]|exact Hmark]. split; simpl.
    + apply Hs.
    + intros b Hb. rewrite Hl2 by lia. destruct (b =? l2) eqn:E; to_prop; simpl; [|now apply Hold].
      subst. split; [intros _; now apply Hfull|auto].
    + intros b Hb. rewrite Hl2, (s_l2_out _ _ Hs) by lia. apply orb_true_r.
    + intros c Hc. rewrite H3 by exact Hc. unfold l3_full. simpl. rewrite (s_l3 _ _ Hs) by exact Hc. split.
      * intros [[_ H]|H] b Hb; [auto|]. rewrite Hl2, H by lia. apply orb_true_r.
      * intros H. destruct (Z.eq_dec c (l2 / 1024)) as [->|Hne]; [left; auto|right]. intros b Hb. specialize (H b Hb).
        rewrite Hl2 in H by lia. destruct (b =? l2) eqn:E; to_prop; [subst; exfalso; apply Hne; dlia|now destruct H].
    + exact Hout.
  - cbn [wp]. split; [split; [exact Ha1|]|exact Hmark]. split; simpl; try apply Hs; [|exact Hout].
    intros b Hb. destruct (Z.eq_dec b l2) as [->|Hne]; [|now apply Hold].
    rewrite <- Hfull. split; [exact Hmono|easy].
Qed.

Lemma mark_block_free_ok g m l2 lo hi : geo_ok g -> maps_ok g m -> 0 <= l2 < total_l2_bits g ->
  512 * l2 <= lo < hi -> hi <= 512 * (l2 + 1) -> hi <= pages g ->
  wp (mark_block_free g l2 lo hi m) (fun m' => maps_ok g m' /\ cleared g m m' lo hi).
Proof.
  intros Hg Hm Hl Hlo Hhi Hp. pose proof (g_l3 _ Hg) as G3. pose proof (g_l2 _ Hg) as G2. unfold mark_block_free. rewrite ensure_done by assumption. cbn [bind].
  destruct Hm as [Ha Hs]. pose proof (a_l1 _ _ Ha) as A1. pose proof (a_l2 _ _ Ha) as A2. pose proof (a_l3 _ _ Ha) as A3. consts.
  assert (Hc3 : 0 <= l2 / 1024 < total_l3_bits g) by dlia.
  destruct (bits_clear_ok (l1_map m) lo hi) as (l1 & -> & H1); [apply Ha|lia..|]. cbn [bind].
  destruct (bit_clear_ok (l2_map m) l2) as (l2m & -> & H2); [apply Ha|lia|]. cbn [bind]. unfold bit_clear_atomic.
  destruct (bit_clear_ok (l3_map m) (l2 / 1024)) as (l3m & -> & H3); [apply Ha|lia|]. cbn [bind wp].
  set (m' := set_l3 _ _).
  assert (Hclr : cleared g m m' lo hi).
  { intros p Hp'. unfold used. simpl. rewrite (bec_bit _ _ _ H1) by lia. reflexivity. }
  assert (Hl2 : forall b, 0 <= b < 1024 * total_l3_bits g -> bitv l2m b = negb (b =? l2) && bitv (l2_map m) b).
  { intros b Hb. rewrite (bec_bit _ _ _ H2) by lia. reflexivity. }
  assert (Ha' : arr_ok g m').
  { apply (arr_set_l3 _ _ _ _ (arr_set_l2 g _ _ _ (arr_set_l1 _ _ _ _ Ha H1) H2) H3). }
  split; [split; [exact Ha'|]|exact Hclr]. split; simpl.
  - apply Hs.
  - intros b Hb. rewrite Hl2 by lia. destruct (b =? l2) eqn:E; to_prop; simpl.
    + subst. split; [easy|]. intros H. specialize (H lo ltac:(lia)). rewrite Hclr in H by lia. destruct (inr_ lo hi lo) eqn:E; inr_case; [discriminate|lia].
    + rewrite (s_l2 _ _ Hs) by exact Hb. split; intros H p Hp'; specialize (H p Hp').
      * rewrite Hclr by lia. inr_case; [lia|exact H].
      * rewrite Hclr in H by lia. apply andb_prop in H. tauto.
  - intros b Hb. rewrite Hl2, (s_l2_out _ _ Hs) by lia. destruct (b =? l2) eqn:E; to_prop; [lia|reflexivity].
  - intros c Hc. rewrite (bec_bit _ _ _ H3) by lia. destruct (c =? l2 / 1024) eqn:E; to_prop; simpl.
    + split; [easy|]. intros H. specialize (H l2 ltac:(subst; dlia)). rewrite Hl2, Z.eqb_refl in H by lia. discriminate.
    + rewrite (s_l3 _ _ Hs) by exact Hc. split; intros H b Hb; specialize (H b Hb).
      * rewrite Hl2 by lia. destruct (b =? l2) eqn:E2; to_prop; [subst; exfalso; dlia|exact H].
      * rewrite Hl2 in H by lia. apply andb_prop in H. tauto.
  - intros p Hp'. pose proof (g_pages _ Hg). rewrite Hclr, (s_out _ _ Hs) by lia. inr_case; [lia|reflexivity].
Qed.

(** The parts [[block_lo, block_hi)] of the blocks make up the whole run. *)
Lemma block_parts start end_ l2 : 0 <= start < end_ -> start / 512 <= l2 <= (end_ - 1) / 512 ->
  let lo := block_lo (start / 512) l2 start in
  let hi := block_hi ((end_ - 1) / 512) l2 end_ in
  512 * l2 <= lo < hi /\ hi <= 512 * (l2 + 1) /\ lo = Z.max start (512 * l2) /\ hi = Z.min end_ (512 * (l2 + 1)).
Proof.
  intros Hs Hl. simpl. unfold block_lo, block_hi. consts. repeat case_bool; to_prop; dlia.
Qed.

Lemma mark_allocated_ok g m start n : geo_ok g -> maps_ok g m -> 0 <= start -> 1 <= n -> start + n <= pages g ->
  wp (mark_allocated g m start n) (fun m' => maps_ok g m' /\ marked g m m' start (start + n)).
Proof.
  intros Hg Hm Hs Hn He. pose proof (g_l2 _ Hg) as G2. unfold mark_allocated. consts. set (e := start + n) in *.
  assert (Hfl : start / 512 <= (e - 1) / 512) by (apply Z.div_le_mono; lia).
  assert (Hel : (e - 1) / 512 < total_l2_bits g) by dlia. assert (Hs0 : 0 <= start / 512) by dlia.
  eapply wp_mono; [apply (wp_for_up (fun l2 m' => maps_ok g m' /\ marked g m m' start (Z.min e (Z.max start (512 * l2)))))|].
  - intros l2 m1 Hl [Hm1 H1]. destruct (block_parts start e l2) as (B1 & B2 & B3 & B4); [lia..|].
    eapply wp_mono; [apply (mark_block_allocated_ok g m1); [assumption..|lia|lia|lia]|].
    intros m2 [Hm2 H2]. split; [exact Hm2|]. intros p Hp. rewrite H2, H1 by exact Hp. rewrite orb_assoc. f_equal.
    inr_case; try reflexivity; exfalso; lia.
  - split; [exact Hm|]. intros p Hp. inr_case; [dlia|reflexivity].
  - intros m' [Hm' H']. split; [exact Hm'|]. intros p Hp. rewrite H' by exact Hp. f_equal. inr_case; try reflexivity; exfalso; dlia.
Qed.

Lemma mark_free_ok g m start n : geo_ok g -> maps_ok g m -> 0 <= start -> 1 <= n -> start + n <= pages g ->
  wp (mark_free g m start n) (fun m' => maps_ok g m' /\ cleared g m m' start (start + n)).
Proof.
  intros Hg Hm Hs Hn He. pose proof (g_l2 _ Hg) as G2. unfold mark_free. consts. set (e := start + n) in *.
  assert (Hfl : start / 512 <= (e - 1) / 512) by (apply Z.div_le_mono; lia).
  assert (Hel : (e - 1) / 512 < total_l2_bits g) by dlia. assert (Hs0 : 0 <= start / 512) by dlia.
  eapply wp_mono; [apply (wp_for_up (fun l2 m' => maps_ok g m' /\ cleared g m m' start (Z.min e (Z.max start (512 * l2)))))|].
  - intros l2 m1 Hl [Hm1 H1]. destruct (block_parts start e l2) as (B1 & B2 & B3 & B4); [lia..|].
    eapply wp_mono; [apply (mark_block_free_ok g m1); [assumption..|lia|lia|lia|lia]|].
    intros m2 [Hm2 H2]. split; [exact Hm2|]. intros p Hp. rewrite H2, H1 by exact Hp. rewrite andb_assoc. f_equal.
    inr_case; try reflexivity; exfalso; lia.
  - split; [exact Hm|]. intros p Hp. inr_case; [dlia|reflexivity].
  - intros m' [Hm' H']. split; [exact Hm'|]. intros p Hp. rewrite H' by exact Hp. f_equal. inr_case; try reflexivity; exfalso; dlia.
Qed.
