(* ===== verification/PMMScan.v ===== *)
(** The scanner of the page allocator: [scan_for_run] finds the lowest run of
    free pages, or there is none, though it skips full blocks and words. *)
From stdpp Require Import base list.
From Stdlib Require Import ZArith Lia.
From S2P Require Import Prelude Words PMM PMMBits PMMInv.

Open Scope Z_scope.
Open Scope c_scope.

(** No page of [[lo, hi)] is used. *)
Definition run_free (m : bitmaps) (lo hi : Z) : Prop := forall p, lo <= p < hi -> used m p = false.

Section Scan.
Context (g : geometry) (m : bitmaps) (from to n : Z).
Hypothesis Hg : geo_ok g.
Hypothesis Hm : maps_ok g m.
Hypothesis Hfrom : 0 <= from.
Hypothesis Hto : to <= pages g.
Hypothesis Hn : 1 <= n.

(** No run of [n] free pages starts in [[from, c)] below [to]. *)
Definition closed (c : Z) : Prop := forall q, from <= q < c -> q < to -> ~ run_free m q (q + n).

(** What the loop knows: runs before the open one are excluded, and the open one
    is free so far. *)
Definition scan_inv (run rs bit : Z) : Prop :=
  from <= bit /\
  ((run = 0 /\ closed bit) \/ (0 < run < n /\ from <= rs /\ bit = rs + run /\ bit <= to /\ run_free m rs bit /\ closed rs)).

Definition scan_found (b : Z) : Prop := from <= b /\ b + n <= to /\ run_free m b (b + n) /\ closed b.

(** No run of [n] free pages lies in [[from, to)]. *)
Definition no_run : Prop := forall q, from <= q -> q + n <= to -> ~ run_free m q (q + n).

Definition scan_post (b : Z) : Prop := (b = NO_BIT /\ no_run) \/ (b <> NO_BIT /\ scan_found b).

(** Used pages close the positions they occupy. *)
Lemma closed_used c c' : closed c -> (forall p, c <= p < c' -> p < to -> used m p = true) -> closed c'.
Proof.
  intros Hc Hu q Hq Hqt Hr. destruct (Z.lt_ge_cases q c) as [Hlt|Hge]; [now apply (Hc q)|].
  specialize (Hu q ltac:(lia) Hqt). rewrite Hr in Hu by lia. discriminate.
Qed.

(** A used page at the end of an open run excludes it. *)
Lemma closed_break run rs bit : 0 < run < n -> bit = rs + run -> closed rs -> used m bit = true -> closed (bit + 1).
Proof.
  intros Hr -> Hc Hu q Hq Hqt Hf. destruct (Z.lt_ge_cases q rs) as [Hlt|Hge]; [now apply (Hc q); [lia..|]|].
  rewrite Hf in Hu by lia. discriminate.
Qed.

Lemma scan_skip_ok bit : 0 <= bit < to ->
  exists k, scan_skip g m bit = Ok k /\ 0 <= k /\ forall p, bit <= p < bit + k -> p < to -> used m p = true.
Proof.
  intros Hb. pose proof (g_l2 _ Hg) as G2. pose proof (g_l3 _ Hg) as G3. destruct Hm as [Ha Hs].
  pose proof (a_l2 _ _ Ha) as A2. pose proof (a_l3 _ _ Ha) as A3. unfold scan_skip. consts.
  change (524288 - 1) with (2 ^ 19 - 1). change (512 - 1) with (2 ^ 9 - 1). rewrite !land_mask by lia. change (2 ^ 19) with 524288. change (2 ^ 9) with 512.
  assert (H2 : forall p, 0 <= p < to -> bitv (l2_map m) (p / 512) = true -> used m p = true).
  { intros p Hp Hbit. apply (proj1 (s_l2 _ _ Hs (p / 512) ltac:(dlia)) Hbit). dlia. }
  assert (Hskip2 : exists k, (let* skip2 := if (bit mod 512 =? 0) && (bit / 512 <? total_l2_bits g)
      then bit_test (l2_map m) (bit / 512) else Ok false in if (skip2 : bool) then Ok 512 else Ok 0) = Ok k /\ 0 <= k /\
      forall p, bit <= p < bit + k -> p < to -> used m p = true).
  { destruct (_ && _) eqn:E; to_prop; [|exists 0; split; [reflexivity|]; split; [lia|intros; lia]].
    rewrite bit_test_ok by dlia. cbn [bind]. destruct (bitv (l2_map m) (bit / 512)) eqn:Eb; [|exists 0; split; [reflexivity|]; split; [lia|intros; lia]].
    exists 512. split; [reflexivity|]. split; [lia|]. intros p Hp Hpt. apply H2; [lia|]. now replace (p / 512) with (bit / 512) by dlia. }
  destruct ((bit mod 524288 =? 0) && (bit / 524288 <? total_l3_bits g)) eqn:E; to_prop; [|exact Hskip2].
  rewrite bit_test_ok by dlia. cbn [bind]. destruct (bitv (l3_map m) (bit / 524288)) eqn:Eb; [|exact Hskip2].
  exists 524288. split; [reflexivity|]. split; [lia|]. intros p Hp Hpt. apply H2; [lia|].
  apply (proj1 (s_l3 _ _ Hs (bit / 524288) ltac:(dlia)) Eb). dlia.
Qed.

(** The word at an aligned position shows the next 64 pages. *)
Lemma word_pages bit i : bit mod 64 = 0 -> 0 <= bit -> 0 <= i < 64 ->
  Z.testbit (l1_map m !!! Z.to_nat (bit / 64)) i = used m (bit + i).
Proof.
  intros Hb H0 Hi. unfold used, bitv. replace ((bit + i) / 64) with (bit / 64) by dlia. now replace ((bit + i) mod 64) with i by dlia.
Qed.

Lemma scan_take_ok take run bit run' bit' : scan_take take run bit to n = (run', bit') -> 0 <= take -> 0 < run < n -> bit < to ->
  exists t, 0 <= t <= take /\ run' = run + t /\ bit' = bit + t /\ run' <= n /\ bit' <= to /\ (0 < take -> 0 < t).
Proof.
  unfold scan_take. intros E Ht Hr Hb. injection E as <- <-.
  set (t1 := if n <? run + take then n - run else take). set (t2 := if to <? bit + t1 then to - bit else t1).
  assert (T1 : 0 <= t1 <= take /\ run + t1 <= n /\ (0 < take -> 0 < t1)) by (unfold t1; case_bool; to_prop; lia).
  exists t2. unfold t2. clearbody t1. case_bool; to_prop; lia.
Qed.

Lemma scan_word_ok run rs bit : scan_inv run rs bit -> bit < to -> bit mod 64 = 0 ->
  match scan_word (l1_map m !!! Z.to_nat (bit / 64)) run bit to n with
  | WContinue run' bit' => bit < bit' /\ scan_inv run' rs bit'
  | WReturn => scan_found rs
  | WBit => True
  end.
Proof.
  intros (Hb & Hinv) Hbt Hal. destruct Hm as [Ha Hs]. pose proof (a_l1 _ _ Ha) as A1. pose proof (g_l2 _ Hg) as G2.
  set (w := l1_map m !!! Z.to_nat (bit / 64)).
  assert (Hw : word w) by (apply word_at; [apply Ha|unfold nbits in A1; dlia]).
  assert (Hbits : forall i, 0 <= i < 64 -> Z.testbit w i = used m (bit + i)) by (intros; apply word_pages; lia).
  unfold scan_word. destruct (run =? 0) eqn:E0; to_prop.
  - destruct Hinv as [[_ Hc]|[? _]]; [|lia]. subst run. destruct (w =? ALL) eqn:E1; to_prop.
    + split; [lia|]. split; [lia|]. left. split; [reflexivity|]. apply (closed_used bit); [exact Hc|]. intros p Hp _.
      rewrite (word_full w Hw) in E1. replace p with (bit + (p - bit)) by lia. rewrite <- Hbits by lia. apply E1. lia.
    + destruct (ctz (not64 w) =? 0) eqn:E2; to_prop; cbn [negb]; [exact I|].
      destruct (ctz_bits (not64 w)) as (B1 & B2 & B3); [apply u64_word| |].
      { intros E. apply E1, word_full; [exact Hw|]. intros i Hi. pose proof (not64_bit w i Hi) as Hn64. rewrite E, Z.testbit_0_l in Hn64.
        now destruct (Z.testbit w i). }
      split; [lia|]. split; [lia|]. left. split; [reflexivity|]. apply (closed_used bit); [exact Hc|]. intros p Hp _.
      specialize (B3 (p - bit) ltac:(lia)). rewrite not64_bit, Hbits in B3 by lia. replace (bit + (p - bit)) with p in B3 by lia.
      now destruct (used m p).
  - destruct Hinv as [[? _]|(Hr & Hrs & Hbr & _ & Hfree & Hc)]; [lia|].
    destruct (scan_take (if w =? 0 then 64 else ctz w) run bit to n) as [run' bit'] eqn:Et.
    assert (Htake : 0 <= (if w =? 0 then 64 else ctz w) <= 64 /\ forall p, bit <= p < bit + (if w =? 0 then 64 else ctz w) -> used m p = false).
    { destruct (w =? 0) eqn:E; to_prop.
      - split; [lia|]. intros p Hp. rewrite (word_zero w Hw) in E. replace p with (bit + (p - bit)) by lia. rewrite <- Hbits by lia. apply E. lia.
      - destruct (ctz_bits w Hw E) as (B1 & _ & B3). split; [lia|]. intros p Hp. replace p with (bit + (p - bit)) by lia.
        rewrite <- Hbits by lia. apply B3. lia. }
    destruct Htake as [Ht0 Htake]. destruct (scan_take_ok _ _ _ _ _ Et) as (t & T1 & -> & -> & T4 & T5 & T6); [lia..|].
    assert (Hfree' : run_free m rs (bit + t)).
    { intros p Hp. destruct (Z.lt_ge_cases p bit); [apply Hfree; lia|apply Htake; lia]. }
    destruct (negb (w =? 0) && (bit + t =? bit)) eqn:E; [exact I|].
    assert (Ht : 0 < t).
    { apply andb_false_iff in E. destruct (w =? 0) eqn:Ew; [apply T6; lia|]. destruct E as [E|E]; [discriminate|]. to_prop. lia. }
    destruct (run + t =? n) eqn:E3; to_prop.
    + split; [lia|]. split; [lia|]. split; [|exact Hc]. now replace (rs + n) with (bit + t) by lia.
    + split; [lia|]. split; [lia|]. right. split; [lia|]. split; [lia|]. split; [lia|]. auto.
Qed.

Lemma scan_bit_ok run rs bit : scan_inv run rs bit -> bit < to ->
  if used m bit then scan_inv 0 rs (bit + 1)
  else let rs' := if run =? 0 then bit else rs in
    if run + 1 =? n then scan_found rs' else scan_inv (run + 1) rs' (bit + 1).
Proof.
  intros (Hb & Hinv) Hbt. destruct (used m bit) eqn:Eu.
  - split; [lia|]. left. split; [reflexivity|]. destruct Hinv as [[_ Hc]|(Hr & Hrs & Hbr & _ & _ & Hc)].
    + apply (closed_used bit); [exact Hc|]. intros p Hp _. now replace p with bit by lia.
    + now apply (closed_break run rs).
  - assert (Hopen : let rs' := if run =? 0 then bit else rs in from <= rs' /\ bit + 1 = rs' + (run + 1) /\ run_free m rs' (bit + 1) /\ closed rs' /\ 0 <= run < n).
    { destruct Hinv as [[-> Hc]|(Hr & Hrs & Hbr & _ & Hf & Hc)]; simpl.
      - split; [lia|]. split; [lia|]. split; [|split; [exact Hc|lia]]. intros p Hp. now replace p with bit by lia.
      - assert (run =? 0 = false) as -> by (apply Z.eqb_neq; lia). split; [lia|]. split; [lia|]. split; [|split; [exact Hc|lia]].
        intros p Hp. destruct (Z.eq_dec p bit) as [->|]; [exact Eu|apply Hf; lia]. }
    cbv zeta in Hopen |- *. set (rs' := if run =? 0 then bit else rs) in *. destruct Hopen as (O1 & O2 & O3 & O4 & O5).
    destruct (run + 1 =? n) eqn:E; to_prop.
    + split; [lia|]. split; [lia|]. split; [|exact O4]. now replace (rs' + n) with (bit + 1) by lia.
    + split; [lia|]. right. split; [lia|]. split; [lia|]. split; [lia|]. split; [lia|]. auto.
Qed.

Lemma found_bit b : scan_found b -> b <> NO_BIT.
Proof. intros (H1 & H2 & _). pose proof (g_pages _ Hg). unfold NO_BIT. lia. Qed.

Lemma scan_end run rs bit : scan_inv run rs bit -> to <= bit -> no_run.
Proof.
  intros (Hb & [[_ Hc]|(Hr & Hrs & Hbr & Hbt & Hf & Hc)]) Ht q Hq Hqn Hf'.
  - apply (Hc q); [lia|lia|exact Hf'].
  - apply (Hc q); [lia|lia|exact Hf'].
Qed.

Lemma scan_round_ok run rs bit inited : scan_inv run rs bit ->
  wp (scan_round g to n (m, run, rs, bit, inited)) (fun x => match x with
    | inl (m', run', rs', bit', _) => m' = m /\ scan_inv run' rs' bit' /\ bit < bit' /\ bit < to
    | inr (b, m') => m' = m /\ scan_post b
    end).
Proof.
  intros Hinv. unfold scan_round. destruct (bit <? to) eqn:Eb; to_prop; cbn [negb].
  2:{ cbn [wp]. split; [reflexivity|]. left. eauto using scan_end. }
  assert (Hb : from <= bit) by apply Hinv. pose proof (g_l2 _ Hg) as G2. pose proof (a_l1 _ _ (proj1 Hm)) as A1.
  assert (Hskip : exists k, (if run =? 0 then scan_skip g m bit else Ok 0) = Ok k /\ 0 <= k /\
    (k <> 0 -> run = 0 /\ forall p, bit <= p < bit + k -> p < to -> used m p = true)).
  { destruct (run =? 0) eqn:E; to_prop; [|exists 0; split; [reflexivity|]; split; [lia|intros; lia]].
    destruct (scan_skip_ok bit) as (k & -> & Hk & Hu); [lia|]. exists k. auto. }
  destruct Hskip as (k & -> & Hk & Hku). cbn [bind]. destruct (k =? 0) eqn:Ek; to_prop; cbn [negb].
  2:{ cbn [wp]. destruct (Hku Ek) as [-> Hu]. split; [reflexivity|]. split; [|lia]. split; [lia|]. left. split; [reflexivity|].
    destruct Hinv as (_ & [[_ Hc]|[? _]]); [|lia]. now apply (closed_used bit). }
  assert (Hens : exists i', (if negb (bit / L2_PAGES =? inited) then let* m := ensure_l2_init g m (bit / L2_PAGES) in Ok (m, bit / L2_PAGES)
    else Ok (m, inited)) = Ok (m, i')).
  { destruct (negb _); [|eauto]. consts. rewrite ensure_done by (assumption || dlia). simpl. eauto. }
  destruct Hens as (i' & ->). cbn [bind]. rewrite land_63, shiftr_6.
  assert (Hw : exists st, (if bit mod 64 =? 0 then let* w := get (l1_map m) (bit / 64) in Ok (scan_word w run bit to n) else Ok WBit) = Ok st /\
    match st with
    | WContinue run' bit' => bit < bit' /\ scan_inv run' rs bit'
    | WReturn => scan_found rs
    | WBit => True
    end).
  { destruct (bit mod 64 =? 0) eqn:E; to_prop; [|eexists; split; [reflexivity|exact I]].
    rewrite get_total by (unfold nbits in A1; dlia). cbn [bind]. eexists. split; [reflexivity|]. now apply scan_word_ok. }
  destruct Hw as (st & -> & Hst). cbn [bind]. destruct st as [run' bit'| |].
  - cbn [wp]. tauto.
  - cbn [wp]. split; [reflexivity|]. right. eauto using found_bit.
  - rewrite bit_test_ok by lia. cbn [bind]. pose proof (scan_bit_ok run rs bit Hinv Eb) as Hbit. unfold used in Hbit.
    destruct (bitv (l1_map m) bit); cbn [negb]; [cbn [wp]; split; [reflexivity|]; split; [exact Hbit|lia]|].
    cbv zeta in Hbit. destruct (run + 1 =? n); cbn [wp]; [split; [reflexivity|]; right; eauto using found_bit|].
    split; [reflexivity|]. split; [exact Hbit|lia].
Qed.

(** [scan_for_run] returns the lowest run of [n] free pages in [[from, to)], or
    there is none, and leaves the bitmaps alone. *)
Lemma scan_for_run_ok : wp (scan_for_run g m from to n) (fun '(b, m') => m' = m /\ scan_post b).
Proof.
  unfold scan_for_run. destruct ((n =? 0) || (to <=? from)) eqn:E; to_prop.
  { cbn [wp]. split; [reflexivity|]. left. split; [reflexivity|]. intros q Hq Hqn. lia. }
  apply (wp_loop (fun '(m', run, rs, bit, _) => m' = m /\ scan_inv run rs bit) (fun '(_, _, _, bit, _) => Z.to_nat (to - bit))).
  - intros [[[[m' run] rs] bit] inited] [-> Hinv]. unfold step_ok. eapply wp_mono; [now apply scan_round_ok|].
    intros [[[[[m' run'] rs'] bit'] i']|[b m']]; [|auto]. intros (-> & H1 & H2 & H3). split; [auto|lia].
  - split; [reflexivity|]. split; [lia|]. left. split; [reflexivity|]. intros q Hq. lia.
  - lia.
Qed.
End Scan.
