(* ===== verification/PMMState.v ===== *)
(** The state invariant of the page allocator: the bitmaps, the free counters of
    the shards and of the whole, and the caches of the CPUs agree. *)
From stdpp Require Import base list.
From Stdlib Require Import ZArith Lia.
From S2P Require Import Prelude Words PMM PMMBits PMMInv PMMScan.

Open Scope Z_scope.
Open Scope c_scope.

(** * Counting free pages *)

Definition nfree (m : bitmaps) (lo : Z) (k : nat) : Z := count (fun p => negb (used m p)) lo k.

(** The length of the common part of [[lo, hi)] and [[a, b)]. *)
Definition overlap (lo hi a b : Z) : Z := Z.max 0 (Z.min hi b - Z.max lo a).

Lemma count_overlap lo k a b : count (inr_ a b) lo k = overlap lo (lo + Z.of_nat k) a b.
Proof.
  unfold overlap. destruct (Z.le_gt_cases (Z.max lo a) (Z.min (lo + Z.of_nat k) b)).
  - rewrite (count_meet lo k a b _ _ eq_refl eq_refl) by lia. lia.
  - rewrite count_false; [lia|]. intros j Hj. apply inr_false. lia.
Qed.

Lemma nfree_bound m lo k : 0 <= nfree m lo k <= Z.of_nat k.
Proof. apply count_bound. Qed.

Lemma marked_count g m m' b e lo k : marked g m m' b e -> run_free m b e ->
  0 <= lo -> lo + Z.of_nat k <= 512 * total_l2_bits g ->
  nfree m' lo k = nfree m lo k - overlap lo (lo + Z.of_nat k) b e.
Proof.
  intros Hm Hr Hlo Hk. unfold nfree. rewrite <- count_overlap.
  enough (count (fun p => negb (used m p)) lo k = count (fun p => negb (used m' p)) lo k + count (inr_ b e) lo k) by lia.
  rewrite <- count_add.
  - apply count_ext. intros p Hp. rewrite Hm by lia. inr_case; [now rewrite Hr|]. now rewrite orb_false_r.
  - intros p Hp. rewrite Hm by lia. inr_case; [reflexivity|apply andb_false_r].
Qed.

Lemma cleared_count g m m' b e lo k : cleared g m m' b e -> (forall p, b <= p < e -> used m p = true) ->
  0 <= lo -> lo + Z.of_nat k <= 512 * total_l2_bits g ->
  nfree m' lo k = nfree m lo k + overlap lo (lo + Z.of_nat k) b e.
Proof.
  intros Hm Hu Hlo Hk. unfold nfree. rewrite <- count_overlap, <- count_add.
  - apply count_ext. intros p Hp. rewrite Hm by lia. inr_case; [rewrite Hu by lia; reflexivity|]. now rewrite orb_false_r.
  - intros p Hp. inr_case; [now rewrite Hu|apply andb_false_r].
Qed.

(** * The invariant *)

(** Shard [si]: its first page and its size. *)
Definition sh_lo (si : Z) : Z := 524288 * si.
Definition sh_len (g : geometry) (si : Z) : Z := Z.min (pages g - sh_lo si) 524288.
Definition sh_hi (g : geometry) (si : Z) : Z := sh_lo si + sh_len g si.

Lemma sh_len_pos g si : geo_ok g -> 0 <= si < total_l3_bits g -> 0 < sh_len g si <= 524288.
Proof. intros [H1 H2 H3] Hi. unfold sh_len, sh_lo. lia. Qed.

Definition sh_nfree (g : geometry) (m : bitmaps) (si : Z) : Z := nfree m (sh_lo si) (Z.to_nat (sh_len g si)).
Definition all_free (g : geometry) (m : bitmaps) : Z := nfree m 0 (Z.to_nat (pages g)).

(** The counters of the shards exceed the free pages by [d], the global one by
    [D]. *)
Record counts (s : pmm) (d : Z -> Z) (D : Z) : Prop := {
  c_len : Z.of_nat (length (shards s)) = total_l3_bits (geo s);
  c_shard : forall si sh, shards s !! Z.to_nat si = Some sh -> 0 <= si ->
    first_page sh = sh_lo si /\ npages sh = sh_len (geo s) si /\ sh_free sh = sh_nfree (geo s) (maps s) si + d si;
  c_free : free_pages s = all_free (geo s) (maps s) + D
}.

(** Cached pages are marked as used, and none is cached twice. *)
Record cache_ok (s : pmm) : Prop := {
  k_len : Forall (fun c => Z.of_nat (length c) <= PMM_PCP_MAX) (caches s);
  k_dup : NoDup (concat (caches s));
  k_page : forall x, x ∈ concat (caches s) -> exists p, x = p * PAGE_SIZE /\ 0 < p < pages (geo s) /\ used (maps s) p = true
}.

Record pmm_but (s : pmm) (d : Z -> Z) (D : Z) : Prop := {
  p_geo : geo_ok (geo s);
  p_maps : maps_ok (geo s) (maps s);
  p_zero : used (maps s) 0 = true;
  p_counts : counts s d D;
  p_cache : cache_ok s;
  p_slow : 0 <= slow_hint s
}.

Definition pmm_ok (s : pmm) : Prop := pmm_but s (fun _ => 0) 0.

(** The pages the allocator may hand out: free in the bitmap, or cached. *)
Definition avail (s : pmm) (p : Z) : Prop :=
  (0 <= p < pages (geo s) /\ used (maps s) p = false) \/ p * PAGE_SIZE ∈ concat (caches s).

Lemma pmm_but_ext s d d' D D' : pmm_but s d D -> (forall si, 0 <= si < total_l3_bits (geo s) -> d si = d' si) -> D = D' -> pmm_but s d' D'.
Proof.
  intros [H1 H2 H3 [C1 C2 C3] H5 H6] Hd <-. split; auto. split; auto. intros si sh Hs Hi. destruct (C2 si sh Hs Hi) as (F1 & F2 & F3).
  split; [exact F1|]. split; [exact F2|]. rewrite F3, Hd; [reflexivity|]. apply lookup_lt_Some in Hs. lia.
Qed.

(** * Changing one counter *)

(** The counters, hints and the round-robin number may differ. *)
Definition same_pages (s s' : pmm) : Prop :=
  geo s' = geo s /\ maps s' = maps s /\ caches s' = caches s /\ slow_hint s' = slow_hint s.

Lemma same_pages_refl s : same_pages s s.
Proof. repeat split. Qed.

Lemma same_pages_trans s1 s2 s3 : same_pages s1 s2 -> same_pages s2 s3 -> same_pages s1 s3.
Proof. intros (?&?&?&?) (?&?&?&?). repeat split; congruence. Qed.

Lemma same_pages_avail s s' p : same_pages s s' -> avail s' p <-> avail s p.
Proof. intros (E1 & E2 & E3 & _). unfold avail. now rewrite E1, E2, E3. Qed.

#[export] Hint Resolve same_pages_refl same_pages_trans : cdb.

#[export] Instance shard_inhabited : Inhabited pmm_shard := populate (Shard 0 0 0 0).

Lemma shard_at s d D si : pmm_but s d D -> 0 <= si < total_l3_bits (geo s) ->
  exists sh, shards s !! Z.to_nat si = Some sh /\ get (shards s) si = Ok sh /\
    first_page sh = sh_lo si /\ npages sh = sh_len (geo s) si /\ sh_free sh = sh_nfree (geo s) (maps s) si + d si.
Proof.
  intros H Hi. pose proof (c_len _ _ _ (p_counts _ _ _ H)) as Hl.
  destruct (lookup_lt_is_Some_2 (shards s) (Z.to_nat si)) as [sh Hsh]; [lia|]. exists sh. split; [exact Hsh|].
  split; [apply get_okZ; [lia|exact Hsh]|]. apply (c_shard _ _ _ (p_counts _ _ _ H)); [exact Hsh|lia].
Qed.

(** Rewriting the record of shard [si] with its place kept. *)
Lemma put_shard s d D si sh' fp k : pmm_but s d D -> 0 <= si < total_l3_bits (geo s) ->
  first_page sh' = sh_lo si -> npages sh' = sh_len (geo s) si -> sh_free sh' = sh_nfree (geo s) (maps s) si + d si + k ->
  fp = free_pages s + k ->
  pmm_but (with_free (with_shards s (<[Z.to_nat si := sh']> (shards s))) fp) (fun j => if j =? si then d j + k else d j) (D + k).
Proof.
  intros [H1 H2 H3 [C1 C2 C3] [K1 K2 K3] H6] Hi E1 E2 E3 ->. split; simpl; auto; [|now split]. split; simpl.
  - now rewrite length_insert.
  - intros j sh Hj Hj0. destruct (j =? si) eqn:E; to_prop.
    + subst j. rewrite list_lookup_insert_eq in Hj by lia. injection Hj as <-. rewrite E1, E2, E3. repeat split; auto. lia.
    + rewrite list_lookup_insert_ne in Hj by lia. now apply C2.
  - lia.
Qed.

Lemma shard_counter s d D si n (f : Z -> Z -> Z) k : pmm_but s d D -> 0 <= si < total_l3_bits (geo s) ->
  (forall x, f x n = x + k) ->
  0 <= sh_nfree (geo s) (maps s) si + d si + k < 2 ^ 64 -> 0 <= all_free (geo s) (maps s) + D + k < 2 ^ 64 ->
  exists s', (let* ss := upd (fun sh => set_free (u64 (f (sh_free sh) n)) sh) (shards s) si in
      Ok (with_free (with_shards s ss) (u64 (f (free_pages s) n)))) = Ok s' /\
    pmm_but s' (fun j => if j =? si then d j + k else d j) (D + k) /\ same_pages s s'.
Proof.
  intros H Hi Hf B1 B2. destruct (shard_at s d D si H Hi) as (sh & Hsh & _ & F1 & F2 & F3).
  pose proof (c_len _ _ _ (p_counts _ _ _ H)) as Hl. rewrite upd_ok by lia. cbn [bind]. eexists. split; [reflexivity|].
  rewrite (list_lookup_total_correct _ _ _ Hsh), !Hf. split; [|repeat split].
  apply put_shard; auto.
  - simpl. rewrite u64_small by lia. lia.
  - rewrite (c_free _ _ _ (p_counts _ _ _ H)). rewrite u64_small by lia. lia.
Qed.

Lemma all_free_bound g m : geo_ok g -> 0 <= all_free g m < 2 ^ 53.
Proof. intros Hg. pose proof (nfree_bound m 0 (Z.to_nat (pages g))). pose proof (g_pages _ Hg). unfold all_free. lia. Qed.

Lemma sh_nfree_bound g m si : 0 <= sh_nfree g m si < 2 ^ 53.
Proof. pose proof (nfree_bound m (sh_lo si) (Z.to_nat (sh_len g si))). unfold sh_nfree, sh_len in *. lia. Qed.

(** Taking [n] pages off an excess, adding [n] to a shortage. *)
Lemma shard_free_sub_ok s d D si n : pmm_but s d D -> 0 <= si < total_l3_bits (geo s) -> 0 <= n ->
  0 <= d si - n < 2 ^ 53 -> 0 <= D - n < 2 ^ 53 ->
  exists s', shard_free_sub s si n = Ok s' /\ pmm_but s' (fun j => if j =? si then d j - n else d j) (D - n) /\ same_pages s s'.
Proof.
  intros H Hi Hn B1 B2. pose proof (sh_nfree_bound (geo s) (maps s) si). pose proof (all_free_bound (geo s) (maps s) (p_geo _ _ _ H)).
  apply (shard_counter s d D si n Z.sub (- n)); auto; try lia.
Qed.

Lemma shard_free_add_ok s d D si n : pmm_but s d D -> 0 <= si < total_l3_bits (geo s) -> 0 <= n ->
  0 <= d si + n < 2 ^ 53 -> 0 <= D + n < 2 ^ 53 ->
  exists s', shard_free_add s si n = Ok s' /\ pmm_but s' (fun j => if j =? si then d j + n else d j) (D + n) /\ same_pages s s'.
Proof.
  intros H Hi Hn B1 B2. pose proof (sh_nfree_bound (geo s) (maps s) si). pose proof (all_free_bound (geo s) (maps s) (p_geo _ _ _ H)).
  apply (shard_counter s d D si n Z.add n); auto; try lia.
Qed.

(** Changing the hint of a shard. *)
Lemma put_hint s d D si sh h : pmm_but s d D -> 0 <= si < total_l3_bits (geo s) -> shards s !! Z.to_nat si = Some sh ->
  pmm_but (with_shards s (<[Z.to_nat si := set_hint h sh]> (shards s))) d D.
Proof.
  intros H Hi Hsh. destruct (c_shard _ _ _ (p_counts _ _ _ H) si sh Hsh ltac:(lia)) as (F1 & F2 & F3).
  pose proof (put_shard s d D si (set_hint h sh) (free_pages s) 0 H Hi F1 F2 ltac:(simpl; lia) ltac:(lia)) as P.
  change (with_free (with_shards s ?x) (free_pages s)) with (with_shards s x) in P.
  eapply pmm_but_ext; [exact P|intros j Hj; simpl; case_bool; lia|lia].
Qed.

Lemma lower_hint_ok s d D si start : pmm_but s d D -> 0 <= si < total_l3_bits (geo s) ->
  exists s', lower_hint s si start = Ok s' /\ pmm_but s' d D /\ same_pages s s' /\ free_pages s' = free_pages s.
Proof.
  intros H Hi. destruct (shard_at s d D si H Hi) as (sh & Hsh & _ & F1 & F2 & F3). unfold lower_hint.
  pose proof (c_len _ _ _ (p_counts _ _ _ H)) as Hl. rewrite upd_ok by lia. cbn [bind].
  rewrite (list_lookup_total_correct _ _ _ Hsh). eexists. split; [reflexivity|]. split; [|repeat split].
  destruct (start <? hint sh); [now apply put_hint|]. rewrite list_insert_id by exact Hsh. now destruct s.
Qed.

(** * Taking and giving pages *)

(** The available pages of [s'] are those of [s] without the [n] from [b] on. *)
Definition takes (s s' : pmm) (b n : Z) : Prop :=
  geo s' = geo s /\ (forall p, b <= p < b + n -> avail s p) /\ forall p, avail s' p <-> avail s p /\ ~ (b <= p < b + n).

(** The [n] pages from [b] on have become available. *)
Definition gives (s s' : pmm) (b n : Z) : Prop :=
  geo s' = geo s /\ forall p, avail s' p <-> avail s p \/ b <= p < b + n.

Lemma takes_same s s1 s2 b n : takes s s1 b n -> same_pages s1 s2 -> takes s s2 b n.
Proof.
  intros (E & H1 & H2) Hs. split; [destruct Hs as (-> & _); exact E|]. split; [exact H1|].
  intros p. rewrite (same_pages_avail _ _ p Hs). apply H2.
Qed.

Lemma same_takes s s1 s2 b n : same_pages s s1 -> takes s1 s2 b n -> takes s s2 b n.
Proof.
  intros Hs (E & H1 & H2). split; [destruct Hs as (<- & _); exact E|]. split.
  - intros p Hp. apply (same_pages_avail _ _ p Hs). auto.
  - intros p. rewrite H2. now rewrite (same_pages_avail _ _ p Hs).
Qed.

Lemma gives_same s s1 s2 b n : gives s s1 b n -> same_pages s1 s2 -> gives s s2 b n.
Proof.
  intros (E & H2) Hs. split; [destruct Hs as (-> & _); exact E|].
  intros p. rewrite (same_pages_avail _ _ p Hs). apply H2.
Qed.

#[export] Hint Resolve takes_same same_takes gives_same : cdb.

(** The part of [[b, b + n)] in shard [si]. *)
Definition sh_over (g : geometry) (b n si : Z) : Z := overlap (sh_lo si) (sh_hi g si) b (b + n).

Lemma sh_over_in g b n si : 0 <= n -> sh_lo si <= b -> b + n <= sh_hi g si -> sh_over g b n si = n.
Proof. unfold sh_over, overlap. lia. Qed.

Lemma sh_over_out g b n si sj : 0 <= n -> sh_lo si <= b -> b + n <= sh_hi g si -> sj <> si -> sh_over g b n sj = 0.
Proof. unfold sh_over, overlap, sh_hi, sh_len, sh_lo. lia. Qed.

Lemma sh_range g si : geo_ok g -> 0 <= si < total_l3_bits g ->
  0 <= sh_lo si /\ sh_hi g si <= pages g /\ sh_lo si + Z.of_nat (Z.to_nat (sh_len g si)) = sh_hi g si.
Proof. intros Hg Hi. pose proof (sh_len_pos g si Hg Hi). unfold sh_hi, sh_len, sh_lo in *. lia. Qed.

(** A page that is available and not cached is free in the bitmap. *)
Lemma cached_used s p : cache_ok s -> p * PAGE_SIZE ∈ concat (caches s) -> 0 < p < pages (geo s) /\ used (maps s) p = true.
Proof. intros Hk Hp. destruct (k_page _ Hk _ Hp) as (q & E & Hq & Hu). consts. assert (p = q) as -> by lia. auto. Qed.

(** Any way of marking a free run keeps the state consistent but for the
    counters. *)
Lemma marked_state s d D b n m' : pmm_but s d D -> 0 < b -> 1 <= n -> b + n <= pages (geo s) -> run_free (maps s) b (b + n) ->
  maps_ok (geo s) m' -> marked (geo s) (maps s) m' b (b + n) ->
  pmm_but (with_maps s m') (fun si => d si + sh_over (geo s) b n si) (D + n) /\ takes s (with_maps s m') b n.
Proof.
  intros [H1 H2 H3 [C1 C2 C3] [K1 K2 K3] H6] Hb Hn He Hr Hm' Hmk. pose proof (g_l2 _ H1) as G2. pose proof (g_pages _ H1) as G1.
  assert (Hkeep : forall p, 0 <= p < pages (geo s) -> used (maps s) p = true -> used m' p = true).
  { intros p Hp Hu. rewrite Hmk, Hu by lia. apply orb_true_r. }
  split.
  - split; simpl; auto; [apply Hkeep; [lia|exact H3]| |].
    + split; simpl; auto.
      * intros si sh Hsh Hi. destruct (C2 si sh Hsh Hi) as (F1 & F2 & F3). split; [exact F1|]. split; [exact F2|]. rewrite F3.
        apply lookup_lt_Some in Hsh. destruct (sh_range (geo s) si H1 ltac:(lia)) as (R1 & R2 & R3).
        unfold sh_nfree. rewrite (marked_count (geo s) (maps s) m' b (b + n)) by (auto; lia). unfold sh_over. rewrite R3. lia.
      * rewrite C3. unfold all_free. rewrite (marked_count (geo s) (maps s) m' b (b + n)) by (auto; lia). unfold overlap. lia.
    + split; simpl; auto. intros x Hx. destruct (K3 x Hx) as (p & -> & Hp & Hu). exists p. split; [reflexivity|]. split; [exact Hp|].
      apply Hkeep; [lia|exact Hu].
  - split; [reflexivity|]. split; [intros p Hp; left; split; [lia|now apply Hr]|]. intros p. unfold avail. simpl. split.
    + intros [[Hp Hu]|Hc].
      * rewrite Hmk in Hu by lia. apply orb_false_iff in Hu as [Hi Hu]. apply inr_false in Hi. auto.
      * split; [auto|]. intros Hp. destruct (cached_used s p ltac:(now split) Hc) as [_ Hu]. rewrite Hr in Hu by lia. discriminate.
    + intros [[[Hp Hu]|Hc] Hne]; [left|now right]. split; [exact Hp|]. rewrite Hmk, Hu by lia. rewrite orb_false_r. now apply inr_false.
Qed.

Lemma mark_state s d D b n : pmm_but s d D -> 0 < b -> 1 <= n -> b + n <= pages (geo s) -> run_free (maps s) b (b + n) ->
  wp (mark_allocated (geo s) (maps s) b n) (fun m' =>
    pmm_but (with_maps s m') (fun si => d si + sh_over (geo s) b n si) (D + n) /\ takes s (with_maps s m') b n).
Proof.
  intros H Hb Hn He Hr. eapply wp_mono; [apply mark_allocated_ok; [apply (p_geo _ _ _ H)|apply (p_maps _ _ _ H)|lia..]|].
  intros m' [Hm' Hmk]. now apply marked_state.
Qed.

Lemma not_avail_used s p : 0 <= p < pages (geo s) -> ~ avail s p -> used (maps s) p = true /\ p * PAGE_SIZE ∉ concat (caches s).
Proof. intros Hp Hn. unfold avail in Hn. split; [|tauto]. destruct (used (maps s) p) eqn:E; [reflexivity|]. exfalso. tauto. Qed.

Lemma free_state s d D b n : pmm_but s d D -> 0 < b -> 1 <= n -> b + n <= pages (geo s) -> (forall p, b <= p < b + n -> ~ avail s p) ->
  wp (mark_free (geo s) (maps s) b n) (fun m' =>
    pmm_but (with_maps s m') (fun si => d si - sh_over (geo s) b n si) (D - n) /\ gives s (with_maps s m') b n).
Proof.
  intros Hok Hb Hn He Hr. destruct Hok as [H1 H2 H3 [C1 C2 C3] [K1 K2 K3] H6].
  pose proof (g_l2 _ H1) as G2. pose proof (g_pages _ H1) as G1.
  assert (Hu : forall p, b <= p < b + n -> used (maps s) p = true /\ p * PAGE_SIZE ∉ concat (caches s)).
  { intros p Hp. apply not_avail_used; [lia|auto]. }
  eapply wp_mono; [apply mark_free_ok; auto; lia|]. intros m' [Hm' Hmk].
  assert (Hkeep : forall p, 0 <= p < pages (geo s) -> ~ (b <= p < b + n) -> used m' p = used (maps s) p).
  { intros p Hp Hne. rewrite Hmk by lia. apply inr_false in Hne. now rewrite Hne. }
  split.
  - split; simpl; auto; [rewrite Hkeep by lia; exact H3| |].
    + split; simpl; auto.
      * intros si sh Hsh Hi. destruct (C2 si sh Hsh Hi) as (F1 & F2 & F3). split; [exact F1|]. split; [exact F2|]. rewrite F3.
        apply lookup_lt_Some in Hsh. destruct (sh_range (geo s) si H1 ltac:(lia)) as (R1 & R2 & R3).
        unfold sh_nfree. rewrite (cleared_count (geo s) (maps s) m' b (b + n)) by (auto; try lia; intros; now apply Hu). unfold sh_over. rewrite R3. lia.
      * rewrite C3. unfold all_free. rewrite (cleared_count (geo s) (maps s) m' b (b + n)) by (auto; try lia; intros; now apply Hu). unfold overlap. lia.
    + split; simpl; auto. intros x Hx. destruct (K3 x Hx) as (p & -> & Hp & Hup). exists p. split; [reflexivity|]. split; [exact Hp|].
      rewrite Hkeep; [exact Hup|lia|]. intros Hin. now apply (Hu p Hin).
  - split; [reflexivity|]. intros p. unfold avail. simpl. destruct (decide (b <= p < b + n)) as [Hin|Hout].
    + split; [auto|]. intros _. left. split; [lia|]. rewrite Hmk by lia. apply inr_true in Hin. now rewrite Hin.
    + split; [intros [[Hp Hup]|Hc]; [|auto]|intros [[[Hp Hup]|Hc]|]; [|auto|lia]].
      * left. left. split; [exact Hp|]. now rewrite Hkeep in Hup.
      * left. split; [exact Hp|]. now rewrite Hkeep.
Qed.
