(* ===== verification/PMMAlloc.v ===== *)
(** The page allocator's operations on runs: allocation in a shard, across
    shards and through the per-CPU cache, and freeing. *)
From stdpp Require Import base list.
From Stdlib Require Import ZArith Lia.
From S2P Require Import Prelude Words PMM PMMBits PMMInv PMMScan PMMState.

Open Scope Z_scope.
Open Scope c_scope.

(** Adding [n] to the excess of shard [si]. *)
Definition plus_at (d : Z -> Z) (si n : Z) : Z -> Z := fun j => if j =? si then d j + n else d j.

(** * One shard *)

(** Two scans that meet at [h] cover [[lo, hi)] except for the runs across [h]. *)
Definition no_runs (m : bitmaps) (lo h hi n : Z) : Prop := no_run m lo h n /\ no_run m h hi n.

Lemma two_scans g m lo h hi n (b0 : Z) : geo_ok g -> maps_ok g m -> 0 <= lo <= h -> h <= hi <= pages g -> 1 <= n ->
  b0 = NO_BIT /\ no_run m h hi n \/ b0 <> NO_BIT /\ scan_found m h hi n b0 ->
  wp (if (b0 =? NO_BIT) && (lo <? h) then scan_for_run g m lo h n else Ok (b0, m)) (fun '(b, m') => m' = m /\
    ((b = NO_BIT /\ no_runs m lo h hi n) \/ (b <> NO_BIT /\ lo <= b /\ b + n <= hi /\ run_free m b (b + n)))).
Proof.
  intros Hg Hm Hl Hh Hn Hb0. destruct ((b0 =? NO_BIT) && (lo <? h)) eqn:E.
  - to_prop. destruct Hb0 as [[_ H1]|[H1 _]]; [|congruence].
    eapply wp_mono; [apply scan_for_run_ok; auto; lia|]. intros [b m'] [-> [[-> H2]|[H2 (F1 & F2 & F3 & _)]]]; (split; [reflexivity|]).
    + left. split; [reflexivity|]. split; auto.
    + right. split; [exact H2|]. split; [lia|]. split; [lia|exact F3].
  - cbn [wp]. split; [reflexivity|]. destruct Hb0 as [[-> H1]|[H1 (F1 & F2 & F3 & _)]].
    + left. split; [reflexivity|]. split; [|exact H1]. apply andb_false_iff in E as [E|E]; to_prop; [congruence|]. intros q Hq. lia.
    + right. split; [exact H1|]. split; [lia|]. split; [lia|exact F3].
Qed.

Lemma alloc_in_shard_ok s d D si n : pmm_but s d D -> 0 <= si < total_l3_bits (geo s) -> 1 <= n ->
  wp (alloc_in_shard_locked s si n) (fun '(p, s') =>
    (p = 0 /\ s' = s) \/
    (exists b, p = b * PAGE_SIZE /\ 0 < b /\ sh_lo si <= b /\ b + n <= sh_hi (geo s) si /\
       pmm_but s' (plus_at d si n) (D + n) /\ takes s s' b n /\ caches s' = caches s /\ slow_hint s' = slow_hint s)).
Proof.
  intros H Hi Hn. destruct (shard_at s d D si H Hi) as (sh & Hsh & Hget & F1 & F2 & F3). unfold alloc_in_shard_locked. rewrite Hget. cbn [bind].
  destruct (sh_free sh <? n); [left; auto|]. destruct (sh_range (geo s) si (p_geo _ _ _ H) Hi) as (R1 & R2 & R3).
  unfold shard_scan. rewrite F1, F2. fold (sh_hi (geo s) si).
  set (h := if (hint sh <? sh_lo si) || (sh_hi (geo s) si <? hint sh) then sh_lo si else hint sh).
  pose proof (sh_len_pos (geo s) si (p_geo _ _ _ H) Hi) as Hlen.
  assert (Hh : sh_lo si <= h <= sh_hi (geo s) si).
  { unfold h. destruct (_ || _) eqn:E; to_prop; [unfold sh_hi in *|]; lia. }
  apply wp_bind. apply wp_bind. eapply wp_mono; [apply scan_for_run_ok; eauto using p_geo, p_maps; lia|].
  intros [b0 m0] [-> Hb0]. eapply wp_mono; [apply two_scans; eauto using p_geo, p_maps; lia|].
  intros [b m'] [-> Hb]. destruct (b =? NO_BIT) eqn:E; to_prop.
  { cbn [wp]. left. split; [reflexivity|]. now destruct s. }
  destruct Hb as [[? _]|(_ & B1 & B2 & B3)]; [contradiction|].
  assert (Hb0' : 0 < b). { pose proof (p_zero _ _ _ H) as Hz. destruct (Z.eq_dec b 0) as [->|]; [|lia]. rewrite B3 in Hz by lia. discriminate. }
  apply wp_bind. eapply wp_mono; [apply (mark_state s d D b n H); auto; lia|]. intros m' [Hok Htk].
  pose proof (c_len _ _ _ (p_counts _ _ _ H)) as Hl. rewrite put_okZ by lia. cbn [bind wp]. right. exists b.
  do 4 (split; [reflexivity || lia|]). split; [|split; [|split; reflexivity]].
  - eapply pmm_but_ext; [apply (put_hint (with_maps s m') _ _ si sh _ Hok Hi Hsh)| |lia]. intros j Hj. unfold plus_at.
    destruct (j =? si) eqn:Ej; to_prop; [subst; rewrite sh_over_in by lia; lia|].
    rewrite (sh_over_out _ _ _ si) by (auto; lia). lia.
  - eapply takes_same; [exact Htk|]. repeat split.
Qed.

(** * Around the ring of shards *)

Lemma shard_rr_first_ok s : pmm_ok s -> exists f s1, shard_rr_first s = Ok (f, s1) /\ 0 <= f < total_l3_bits (geo s) /\ pmm_ok s1 /\ same_pages s s1.
Proof.
  intros H. pose proof (c_len _ _ _ (p_counts _ _ _ H)) as Hl. destruct (g_l3 _ (p_geo _ _ _ H)) as [G3 G4]. pose proof (g_l2 _ (p_geo _ _ _ H)).
  pose proof (g_pages _ (p_geo _ _ _ H)) as G1. unfold shard_rr_first, shard_count. rewrite Hl.
  assert (total_l3_bits (geo s) =? 0 = false) as -> by (apply Z.eqb_neq; lia).
  eexists _, _. split; [reflexivity|]. split; [apply Z.mod_pos_bound; lia|]. split; [|repeat split].
  destruct H as [H1 H2 H3 [C1 C2 C3] [K1 K2 K3] H6]. split; auto; split; auto.
Qed.

(** A search over the shards that starts in [s]: each try either leaves the
    pages alone, having shown [F] of its shard, or ends with [Q]. *)
Definition try_post (s : pmm) (F : Prop) (Q : Z -> pmm -> Prop) : option Z * pmm -> Prop :=
  fun '(p, s') => match p with None => pmm_ok s' /\ same_pages s s' /\ F | Some p => Q p s' end.

Section Ring.
Context (try : pmm -> Z -> res (option Z * pmm)) (s : pmm) (F : Z -> Prop) (Q : Z -> pmm -> Prop).
Hypothesis Htry : forall s1 si, pmm_ok s1 -> same_pages s s1 -> 0 <= si < total_l3_bits (geo s) -> wp (try s1 si) (try_post s (F si) Q).

Definition wrap (si : Z) : Z := if total_l3_bits (geo s) <=? si then si - total_l3_bits (geo s) else si.

Lemma rr_try_ok k si s1 : pmm_ok s1 -> same_pages s s1 -> 0 <= si -> si + Z.of_nat k <= 2 * total_l3_bits (geo s) ->
  wp (rr_try try k si s1) (try_post s (forall j, si <= j < si + Z.of_nat k -> F (wrap j)) Q).
Proof.
  revert si s1. induction k as [|k IH]; intros si s1 Hok Hs1 Hsi Hk; cbn [rr_try].
  { simpl. split; [exact Hok|]. split; [exact Hs1|]. intros j Hj. lia. }
  pose proof (c_len _ _ _ (p_counts _ _ _ Hok)) as Hl. unfold shard_count. rewrite Hl, (proj1 Hs1). fold (wrap si). apply wp_bind.
  eapply wp_mono; [apply Htry; [exact Hok|exact Hs1|unfold wrap; case_bool; to_prop; lia]|]. intros [[p|] s2]; [auto|].
  intros (Hok2 & Hs2 & HF). eapply wp_mono; [apply (IH (si + 1)); auto; lia|]. intros [[p|] s3]; [auto|]. intros (Hok3 & Hs3 & HF').
  split; [exact Hok3|]. split; [exact Hs3|]. intros j Hj. destruct (Z.eq_dec j si) as [->|]; [exact HF|]. apply HF'. lia.
Qed.

(** The search tries every shard before it gives up. *)
Lemma rr_search_ok : pmm_ok s -> wp (rr_search try s) (try_post s (forall si, 0 <= si < total_l3_bits (geo s) -> F si) Q).
Proof.
  intros Hok. unfold rr_search. destruct (shard_rr_first_ok s Hok) as (f & s1 & -> & Hf & Hok1 & Hs1). cbn [bind].
  pose proof (c_len _ _ _ (p_counts _ _ _ Hok1)) as Hl. rewrite (proj1 Hs1) in Hl.
  eapply wp_mono; [apply (rr_try_ok _ f s1); auto; lia|]. intros [[p|] s2]; [auto|]. intros (Hok2 & Hs2 & HF).
  split; [exact Hok2|]. split; [exact Hs2|]. intros si Hi. unfold wrap in HF. destruct (Z.lt_ge_cases si f) as [Hlt|Hge].
  - specialize (HF (si + total_l3_bits (geo s)) ltac:(lia)). rewrite (proj2 (Z.leb_le _ _)) in HF by lia. now replace (si + total_l3_bits (geo s) - total_l3_bits (geo s)) with si in HF by lia.
  - specialize (HF si ltac:(lia)). rewrite (proj2 (Z.leb_gt _ _)) in HF by lia. exact HF.
Qed.
End Ring.

(** A block of [n] pages was taken from the available ones. *)
Definition allocated (n : Z) (s : pmm) (ptr : Z) (s' : pmm) : Prop :=
  pmm_ok s' /\ exists b, ptr = b * PAGE_SIZE /\ 0 < b /\ b + n <= pages (geo s) /\ takes s s' b n.

Lemma allocated_same n s s1 p s' : same_pages s s1 -> allocated n s1 p s' -> allocated n s p s'.
Proof.
  intros Hs (Hok & b & -> & Hb & He & Ht). split; [exact Hok|]. exists b. pose proof (proj1 Hs) as E. rewrite E in He.
  split; [reflexivity|]. split; [exact Hb|]. split; [exact He|]. eauto with cdb.
Qed.

Lemma request_locked_ok n s si : 1 <= n -> pmm_ok s -> 0 <= si < total_l3_bits (geo s) ->
  wp (request_locked n s si) (try_post s True (allocated n s)).
Proof.
  intros Hn Hok Hi. unfold request_locked. apply wp_bind. eapply wp_mono; [apply (alloc_in_shard_ok s _ _ si n Hok Hi Hn)|].
  intros [p s1] [[-> ->]|(b & -> & Hb & B1 & B2 & Hok1 & Htk & _)]; [simpl; auto with cdb|].
  destruct (sh_range (geo s) si (p_geo _ _ _ Hok) Hi) as (R1 & R2 & R3). consts.
  assert (b * 4096 =? 0 = false) as -> by (apply Z.eqb_neq; lia). assert (E : geo s1 = geo s) by apply Htk.
  pose proof (g_pages _ (p_geo _ _ _ Hok)).
  destruct (shard_free_sub_ok s1 _ _ si n Hok1) as (s2 & -> & Hok2 & Hs2);
    [rewrite E; lia|lia|unfold plus_at; rewrite Z.eqb_refl; lia|lia|].
  cbn [bind wp]. split.
  - eapply pmm_but_ext; [exact Hok2| |lia]. intros j Hj. unfold plus_at. simpl. case_bool; lia.
  - exists b. split; [reflexivity|]. split; [exact Hb|]. split; [lia|]. eauto with cdb.
Qed.

Lemma request_shard_ok n s si : 1 <= n -> pmm_ok s -> 0 <= si < total_l3_bits (geo s) ->
  wp (request_shard n s si) (try_post s True (allocated n s)).
Proof.
  intros Hn Hok Hi. unfold request_shard. destruct (shard_at _ _ _ _ Hok Hi) as (sh & _ & -> & _). cbn [bind].
  destruct (sh_free sh <? n); [simpl; auto with cdb|]. now apply request_locked_ok.
Qed.

(** Moving the start of a search. *)
Lemma try_post_same s s1 (F F' : Prop) (Q : pmm -> Z -> pmm -> Prop) x :
  (forall s s1 p s', same_pages s s1 -> Q s1 p s' -> Q s p s') -> (F -> F') ->
  same_pages s s1 -> try_post s1 F (Q s1) x -> try_post s F' (Q s) x.
Proof. destruct x as [[p|] s']; simpl; [eauto|]. intros _ HF Hs (Hok & H & Hf). eauto with cdb. Qed.

(** * Across shards *)

(** Where the scan over all pages is split. *)
Definition slow_split (s : pmm) : Z := Z.min (pages (geo s)) (slow_hint s).

Lemma slow_scan_ok s d D n : pmm_but s d D -> 1 <= n ->
  wp (slow_scan s n) (fun '(b, m') => m' = maps s /\
    ((b = NO_BIT /\ no_runs (maps s) 0 (slow_split s) (pages (geo s)) n) \/
     (b <> NO_BIT /\ 0 <= b /\ b + n <= pages (geo s) /\ run_free (maps s) b (b + n)))).
Proof.
  intros H Hn. pose proof (p_slow _ _ _ H) as Hs. pose proof (g_pages _ (p_geo _ _ _ H)) as G1. unfold slow_scan. fold (pages (geo s)).
  assert ((if pages (geo s) <? slow_hint s then pages (geo s) else slow_hint s) = slow_split s) as ->
    by (unfold slow_split; case_bool; to_prop; lia).
  assert (Hh : 0 <= slow_split s <= pages (geo s)) by (unfold slow_split; lia). apply wp_bind.
  assert (H1 : wp (if slow_split s <? pages (geo s) then scan_for_run (geo s) (maps s) (slow_split s) (pages (geo s)) n else Ok (NO_BIT, maps s))
    (fun '(b, m') => m' = maps s /\ scan_post (maps s) (slow_split s) (pages (geo s)) n b)).
  { destruct (_ <? _) eqn:E; to_prop; [apply scan_for_run_ok; eauto using p_geo, p_maps; lia|]. cbn [wp]. split; [reflexivity|].
    left. split; [reflexivity|]. intros q Hq. lia. }
  eapply wp_mono; [exact H1|]. intros [b0 m0] [-> Hb0]. apply two_scans; eauto using p_geo, p_maps; lia.
Qed.

Lemma shard_part g b n si : geo_ok g -> 0 <= b -> b + n <= pages g -> b / 524288 <= si <= (b + n - 1) / 524288 -> 1 <= n ->
  shard_hi si (b + n) - shard_lo si b = sh_over g b n si /\ 0 <= si < total_l3_bits g /\
  sh_over g b n si = Z.min (b + n) (sh_lo (si + 1)) - Z.max b (sh_lo si) /\ 0 < sh_over g b n si.
Proof.
  intros Hg Hb He Hi Hn. pose proof (g_l2 _ Hg) as G2. pose proof (g_l3 _ Hg) as G3.
  unfold sh_over, overlap, sh_hi, sh_len, sh_lo, shard_hi, shard_lo. consts. repeat case_bool; to_prop; dlia.
Qed.

Lemma alloc_global_slowpath_ok s n : pmm_ok s -> 1 <= n ->
  wp (alloc_global_slowpath s n) (fun '(p, s') =>
    (p = 0 /\ s' = s /\ no_runs (maps s) 0 (slow_split s) (pages (geo s)) n) \/ (p <> 0 /\ allocated n s p s')).
Proof.
  intros H Hn. pose proof (p_geo _ _ _ H) as Hg. pose proof (g_pages _ Hg) as G1. unfold alloc_global_slowpath. apply wp_bind.
  eapply wp_mono; [apply (slow_scan_ok s _ _ n H Hn)|]. intros [b m'] [-> Hb]. destruct (b =? NO_BIT) eqn:E; to_prop.
  { cbn [wp]. left. split; [reflexivity|]. destruct Hb as [[_ Hb]|[? _]]; [|contradiction]. split; [now destruct s|exact Hb]. }
  destruct Hb as [[? _]|(_ & B1 & B2 & B3)]; [contradiction|].
  assert (Hb0 : 0 < b). { pose proof (p_zero _ _ _ H) as Hz. destruct (Z.eq_dec b 0) as [->|]; [|lia]. rewrite B3 in Hz by lia. discriminate. }
  apply wp_bind. eapply wp_mono; [apply (mark_state s _ _ b n H); auto; lia|]. intros m' [Hok Htk].
  set (s1 := with_slow (with_maps s m') (b + n)).
  assert (Hok1 : pmm_but s1 (fun si => 0 + sh_over (geo s) b n si) (0 + n)).
  { destruct Hok as [H1 H2 H3 [C1 C2 C3] [K1 K2 K3] H6]. split; auto; try (split; auto). simpl. lia. }
  assert (Htk1 : takes s s1 b n) by exact Htk. clearbody s1. clear Hok Htk. consts.
  assert (Hdiv : b / 524288 <= (b + n - 1) / 524288) by (apply Z.div_le_mono; lia).
  apply wp_bind. eapply wp_mono; [apply (wp_for_up (fun si s2 =>
    pmm_but s2 (fun j => if j <? si then 0 else sh_over (geo s) b n j) (b + n - Z.min (b + n) (Z.max b (sh_lo si))) /\ same_pages s1 s2))|].
  - intros si s2 Hi [Hok2 Hs2]. destruct (shard_part (geo s) b n si Hg) as (S1 & S2 & S3 & S4); [lia..|].
    assert (Eg : geo s2 = geo s) by (destruct Hs2 as (-> & _); apply Htk1). rewrite S1.
    destruct (shard_free_sub_ok s2 _ _ si (sh_over (geo s) b n si) Hok2) as (s3 & -> & Hok3 & Hs3).
    { now rewrite Eg. } { lia. } { rewrite Z.ltb_irrefl. lia. } { unfold sh_lo in *. lia. }
    cbn [wp]. split; [|eauto with cdb]. eapply pmm_but_ext; [exact Hok3| |unfold sh_lo in *; lia].
    intros j Hj. cbv beta. repeat case_bool; to_prop; try lia; subst; try (rewrite Z.ltb_irrefl in *); lia.
  - split; [|auto with cdb]. eapply pmm_but_ext; [exact Hok1| |unfold sh_lo; dlia]. intros j Hj. cbv beta. case_bool; to_prop; [|lia].
    unfold sh_over, overlap, sh_hi, sh_len, sh_lo. dlia.
  - intros s3 [Hok3 Hs3]. cbn [wp]. right. split; [lia|]. split.
    + eapply pmm_but_ext; [exact Hok3| |unfold sh_lo; dlia]. intros j Hj. cbv beta. case_bool; to_prop; [reflexivity|].
      unfold sh_over, overlap, sh_hi, sh_len, sh_lo. dlia.
    + exists b. split; [reflexivity|]. split; [exact Hb0|]. split; [exact B2|]. eauto with cdb.
Qed.

(** * The cache of a CPU *)

Lemma cache_split {A} (cs : list (list A)) i c c' : cs !! i = Some c ->
  exists X Y, cs = X ++ c :: Y /\ <[i := c']> cs = X ++ c' :: Y.
Proof.
  intros Hc. exists (take i cs), (drop (S i) cs). split; [symmetry; now apply take_drop_middle|].
  apply insert_take_drop. now apply lookup_lt_Some in Hc.
Qed.

Lemma elem_of_caches {A} (X : list (list A)) c Y x : x ∈ concat (X ++ c :: Y) <-> x ∈ concat X \/ x ∈ c \/ x ∈ concat Y.
Proof. rewrite concat_app. simpl. now rewrite !elem_of_app. Qed.

Lemma concat_middle {A} (X : list (list A)) c Y : concat (X ++ c :: Y) ≡ₚ c ++ concat (X ++ Y).
Proof. rewrite !concat_app. simpl. rewrite !app_assoc. now rewrite (Permutation_app_comm (concat X) c). Qed.

(** Pages that are used and held by nobody. *)
Definition held (s : pmm) (x : Z) : Prop :=
  exists p, x = p * PAGE_SIZE /\ 0 < p < pages (geo s) /\ used (maps s) p = true /\ x ∉ concat (caches s).

(** Putting held pages into a cache makes them available. *)
Lemma cache_add s d D i c new : pmm_but s d D -> caches s !! i = Some c -> NoDup new -> Forall (held s) new ->
  Z.of_nat (length (c ++ new)) <= PMM_PCP_MAX ->
  pmm_but (with_caches s (<[i := c ++ new]> (caches s))) d D /\
  forall p, avail (with_caches s (<[i := c ++ new]> (caches s))) p <-> avail s p \/ p * PAGE_SIZE ∈ new.
Proof.
  intros [H1 H2 H3 [C1 C2 C3] [K1 K2 K3] H6] Hc Hnd Hheld Hlen. destruct (cache_split (caches s) i c (c ++ new) Hc) as (X & Y & E & E').
  rewrite Forall_forall in Hheld.
  assert (Hin : forall x, x ∈ concat (<[i := c ++ new]> (caches s)) <-> x ∈ concat (caches s) \/ x ∈ new).
  { intros x. rewrite E', E, !elem_of_caches, elem_of_app. tauto. }
  split.
  - split; auto; [now split|]. split; cbn [caches with_caches geo maps].
    + now apply Forall_insert.
    + rewrite E', concat_middle, <- app_assoc. rewrite (Permutation_app_comm new). rewrite app_assoc, <- concat_middle, <- E.
      apply NoDup_app. split; [exact K2|]. split; [|exact Hnd]. intros x Hx Hn. destruct (Hheld x Hn) as (p & _ & _ & _ & Hni). contradiction.
    + intros x [Hx|Hx]%Hin; [auto|]. destruct (Hheld x Hx) as (p & -> & Hp & Hu & _). eauto.
  - intros p. unfold avail. cbn [caches with_caches geo maps]. rewrite Hin. tauto.
Qed.

(** Taking the last page out of a cache. *)
Lemma cache_drop s d D i c x : pmm_but s d D -> caches s !! i = Some (c ++ [x]) ->
  pmm_but (with_caches s (<[i := c]> (caches s))) d D /\
  exists p, x = p * PAGE_SIZE /\ 0 < p < pages (geo s) /\ takes s (with_caches s (<[i := c]> (caches s))) p 1.
Proof.
  intros [H1 H2 H3 [C1 C2 C3] [K1 K2 K3] H6] Hc. destruct (cache_split (caches s) i _ c Hc) as (X & Y & E & E').
  assert (HP : concat (caches s) ≡ₚ x :: concat (<[i := c]> (caches s))).
  { rewrite E', E, !concat_middle. rewrite <- app_assoc. simpl. symmetry. apply Permutation_middle. }
  rewrite HP in K2. apply NoDup_cons in K2 as [Hni Hnd].
  assert (Hin : forall y, y ∈ concat (caches s) <-> y = x \/ y ∈ concat (<[i := c]> (caches s))) by (intros y; now rewrite HP, elem_of_cons).
  destruct (K3 x ltac:(apply Hin; now left)) as (p & -> & Hp & Hu).
  split.
  - split; auto; [now split|]. split; cbn [caches with_caches geo maps].
    + apply Forall_insert; [exact K1|]. pose proof (Forall_lookup_1 _ _ _ _ K1 Hc) as Hl. simpl in Hl. rewrite length_app in Hl. lia.
    + exact Hnd.
    + intros y Hy. apply K3, Hin. now right.
  - exists p. split; [reflexivity|]. split; [exact Hp|]. split; [reflexivity|]. split.
    + intros q Hq. replace q with p by lia. right. apply Hin. now left.
    + intros q. unfold avail. cbn [caches with_caches geo maps]. rewrite Hin. consts. split.
      * intros [[Hq Hqu]|Hq]; [split; [auto|]|split; [auto|]].
        { intros Hqp. replace q with p in Hqu by lia. congruence. }
        { intros Hqp. replace q with p in Hq by lia. contradiction. }
      * intros [[Hq|[Hq|Hq]] Hne]; [auto|lia|auto].
Qed.

(** The addresses [new] were taken from the available pages. *)
Record taken (s s' : pmm) (new : list Z) : Prop := {
  t_geo : geo s' = geo s;
  t_caches : caches s' = caches s;
  t_slow : slow_hint s' = slow_hint s;
  t_dup : NoDup new;
  t_page : Forall (fun x => exists p, x = p * PAGE_SIZE /\ 0 < p < pages (geo s) /\ avail s p) new;
  t_avail : forall p, avail s' p <-> avail s p /\ p * PAGE_SIZE ∉ new
}.

Lemma taken_held s s' new : taken s s' new -> Forall (held s') new.
Proof.
  intros [T1 T2 T3 T4 T5 T6]. rewrite Forall_forall in T5. apply Forall_forall. intros x Hx. destruct (T5 x Hx) as (p & -> & Hp & Ha).
  exists p. rewrite T1. split; [reflexivity|]. split; [exact Hp|]. apply not_avail_used; [rewrite T1; lia|]. rewrite T6. tauto.
Qed.

Lemma taken_cons s s1 s' b new : takes s s1 b 1 -> caches s1 = caches s -> slow_hint s1 = slow_hint s -> 0 < b < pages (geo s) ->
  taken s1 s' new -> taken s s' (b * PAGE_SIZE :: new).
Proof.
  intros (E & H1 & H2) Ec Es Hb [T1 T2 T3 T4 T5 T6]. split; try congruence.
  - constructor; [|exact T4]. intros Hin. rewrite Forall_forall in T5. destruct (T5 _ Hin) as (p & Ep & _ & Ha). apply H2 in Ha as [_ Ha].
    consts. apply Ha. lia.
  - constructor; [exists b; split; [reflexivity|]; split; [exact Hb|apply H1; lia]|]. eapply Forall_impl; [exact T5|].
    intros x (p & -> & Hp & Ha). exists p. rewrite E in Hp. apply H2 in Ha. tauto.
  - intros p. rewrite T6, H2, elem_of_cons. consts. assert (b <= p < b + 1 <-> p * 4096 = b * 4096) by lia. tauto.
Qed.

Lemma refill_extra_ok k s si c x : pmm_but s (plus_at (fun _ => 0) si x) x -> 0 <= si < total_l3_bits (geo s) ->
  Z.of_nat (length c) <= PMM_PCP_MAX ->
  wp (refill_extra k s si c) (fun '(c', s') => exists new, c' = c ++ new /\ Z.of_nat (length c') <= PMM_PCP_MAX /\ taken s s' new /\
    pmm_but s' (plus_at (fun _ => 0) si (x + Z.of_nat (length new))) (x + Z.of_nat (length new))).
Proof.
  revert s c x. induction k as [|k IH]; intros s c x Hok Hi Hc; cbn [refill_extra].
  all: assert (Hstop : forall s', s' = s -> exists new, c = c ++ new /\ Z.of_nat (length c) <= PMM_PCP_MAX /\ taken s s' new /\
    pmm_but s' (plus_at (fun _ => 0) si (x + Z.of_nat (length new))) (x + Z.of_nat (length new)))
    by (intros ? ->; exists []; rewrite app_nil_r, Z.add_0_r; split; [reflexivity|]; split; [exact Hc|]; split; [|exact Hok];
        split; auto; [constructor|intros p; split; [|tauto]; intros Ha; split; [exact Ha|apply not_elem_of_nil]]).
  { cbn [wp]. auto. }
  destruct (Z.of_nat (length c) <? PMM_PCP_MAX) eqn:E; to_prop; [|cbn [wp]; auto]. apply wp_bind.
  eapply wp_mono; [apply (alloc_in_shard_ok s _ _ si 1 Hok Hi); lia|].
  intros [p s1] [[-> ->]|(b & -> & Hb & B1 & B2 & Hok1 & Htk & Ec & Es)]; [simpl; auto|].
  destruct (sh_range (geo s) si (p_geo _ _ _ Hok) Hi) as (R1 & R2 & R3).
  assert (b * PAGE_SIZE =? 0 = false) as -> by (consts; apply Z.eqb_neq; lia).
  unfold cache_push. apply Z.ltb_lt in E as E'. rewrite E'. cbn [bind]. pose proof (proj1 Htk) as Eg.
  eapply wp_mono; [apply (IH s1 (c ++ [b * PAGE_SIZE]) (x + 1))|].
  - eapply pmm_but_ext; [exact Hok1| |lia]. intros j Hj. unfold plus_at. case_bool; lia.
  - rewrite Eg. exact Hi.
  - rewrite length_app. simpl. lia.
  - intros [c' s'] (new & -> & Hl & Hnew & Hok'). exists (b * PAGE_SIZE :: new). split; [now rewrite <- app_assoc|]. split; [exact Hl|].
    split; [eapply taken_cons; eauto; lia|]. cbn [length]. now replace (x + Z.of_nat (S (length new))) with (x + 1 + Z.of_nat (length new)) by lia.
Qed.

Lemma get_cache s i c : caches s !! i = Some c -> cache_of s (Z.of_nat i) = Ok c.
Proof. apply get_ok. Qed.

Lemma put_cache s i c c' : caches s !! i = Some c -> set_cache s (Z.of_nat i) c' = Ok (with_caches s (<[i := c']> (caches s))).
Proof. intros H. unfold set_cache. rewrite put_ok; [reflexivity|]. now apply lookup_lt_Some in H. Qed.

(** A page is allocated, and the cache of CPU [i] has become longer. *)
Lemma refill_locked_ok s i c si : pmm_ok s -> caches s !! i = Some c -> 0 <= si < total_l3_bits (geo s) ->
  wp (refill_locked (Z.of_nat i) s si) (try_post s True (allocated 1 s)).
Proof.
  intros Hok Hc Hi. unfold refill_locked. apply wp_bind. eapply wp_mono; [apply (alloc_in_shard_ok s _ _ si 1 Hok Hi); lia|].
  intros [p s1] [[-> ->]|(b & -> & Hb & B1 & B2 & Hok1 & Htk & Ec & Es)]; [simpl; auto with cdb|].
  destruct (sh_range (geo s) si (p_geo _ _ _ Hok) Hi) as (R1 & R2 & R3).
  assert (b * PAGE_SIZE =? 0 = false) as -> by (consts; apply Z.eqb_neq; lia). pose proof (proj1 Htk) as Eg.
  rewrite <- Ec in Hc. rewrite (get_cache _ _ _ Hc). cbn [bind].
  pose proof (Forall_lookup_1 _ _ _ _ (k_len _ (p_cache _ _ _ Hok1)) Hc) as Hlen. simpl in Hlen.
  apply wp_bind. eapply wp_mono; [apply (refill_extra_ok _ s1 si c 1); [exact Hok1|now rewrite Eg|exact Hlen]|].
  intros [c' s2] (new & -> & Hl & Hnew & Hok2). pose proof Hnew as [T1 T2 T3 T4 T5 T6]. rewrite <- T2 in Hc.
  rewrite (put_cache _ _ _ _ Hc). cbn [bind].
  destruct (cache_add s2 _ _ i c new Hok2 Hc T4 (taken_held _ _ _ Hnew) Hl) as [Hok3 Hav].
  set (s3 := with_caches s2 _) in *. rewrite length_app.
  destruct (shard_free_sub_ok s3 _ _ si (1 + (Z.of_nat (length c + length new) - Z.of_nat (length c))) Hok3) as (s4 & -> & Hok4 & Hs4).
  { unfold s3. simpl. rewrite T1, Eg. exact Hi. } { lia. } { unfold plus_at. rewrite Z.eqb_refl. lia. } { lia. }
  cbn [bind wp try_post]. split.
  - eapply pmm_but_ext; [exact Hok4| |lia]. intros j Hj. unfold plus_at. simpl. case_bool; lia.
  - exists b. split; [reflexivity|]. split; [exact Hb|]. split; [lia|]. eapply takes_same; [|exact Hs4]. split; [unfold s3; simpl; congruence|].
    split; [apply Htk|]. intros p. rewrite Hav, T6. destruct Htk as (_ & _ & Hiff). rewrite Hiff.
    destruct (decide (p * PAGE_SIZE ∈ new)) as [Hin|Hin]; [|tauto]. rewrite Forall_forall in T5. destruct (T5 _ Hin) as (q & Eq & _ & Ha).
    consts. assert (p = q) as -> by lia. apply Hiff in Ha. tauto.
Qed.

Lemma refill_shard_ok s i c si : pmm_ok s -> caches s !! i = Some c -> 0 <= si < total_l3_bits (geo s) ->
  wp (refill_shard (Z.of_nat i) s si) (try_post s True (allocated 1 s)).
Proof.
  intros Hok Hc Hi. unfold refill_shard. destruct (shard_at _ _ _ _ Hok Hi) as (sh & _ & -> & _). cbn [bind].
  destruct (sh_free sh =? 0); [simpl; auto with cdb|]. now apply (refill_locked_ok s i c).
Qed.

Lemma pcp_refill_ok s i c : pmm_ok s -> caches s !! i = Some c -> wp (pcp_refill s (Z.of_nat i)) (try_post s True (allocated 1 s)).
Proof.
  intros Hok Hc. eapply wp_mono; [apply (rr_search_ok _ s (fun _ => True) (allocated 1 s)); [|exact Hok]|].
  2:{ intros x Hx. eapply (try_post_same s s _ _ (allocated 1)); [..|exact Hx]; eauto using allocated_same with cdb. }
  intros s1 si Hok1 Hs1 Hi. eapply wp_mono; [apply (refill_shard_ok s1 i c); [exact Hok1|destruct Hs1 as (_ & _ & -> & _); exact Hc|now rewrite (proj1 Hs1)]|].
  intros x Hx. eapply (try_post_same s s1 _ _ (allocated 1)); [..|exact Hx]; eauto using allocated_same.
Qed.

(** * Requests *)

(** A request returns NULL and changes no page, or a block of free pages. *)
Definition request_post (n : Z) (s : pmm) : Z * pmm -> Prop := fun '(p, s') =>
  (p = 0 /\ pmm_ok s' /\ same_pages s s' /\ no_runs (maps s) 0 (slow_split s) (pages (geo s)) n) \/ (p <> 0 /\ allocated n s p s').

Lemma allocated_nonnull n s p s' : allocated n s p s' -> p <> 0.
Proof. intros (_ & b & -> & Hb & _). consts. lia. Qed.

Lemma request_run_ok s s1 n : pmm_ok s1 -> same_pages s s1 -> 1 <= n -> wp (request_run s1 n) (request_post n s).
Proof.
  intros Hok Hs Hn. unfold request_run.
  assert (Hsh : wp (if n <=? SHARD_PAGES then rr_search (request_shard n) s1 else Ok (None, s1)) (try_post s True (allocated n s))).
  { destruct (n <=? SHARD_PAGES); [|simpl; auto]. eapply wp_mono; [apply (rr_search_ok _ s1 (fun _ => True) (allocated n s1)); [|exact Hok]|].
    - intros s2 si Hok2 Hs2 Hi. eapply wp_mono; [apply request_shard_ok; [exact Hn|exact Hok2|now rewrite (proj1 Hs2)]|].
      intros x Hx. eapply (try_post_same s1 s2 _ _ (allocated n)); [..|exact Hx]; eauto using allocated_same.
    - intros x Hx. eapply (try_post_same s s1 _ _ (allocated n)); [..|exact Hx]; eauto using allocated_same. }
  apply wp_bind. eapply wp_mono; [exact Hsh|]. intros [[p|] s2].
  - simpl. intros Ha. right. eauto using allocated_nonnull.
  - intros (Hok2 & Hs2 & _). eapply wp_mono; [apply alloc_global_slowpath_ok; [exact Hok2|exact Hn]|].
    intros [p s3] [(-> & -> & Hno)|[Hp Ha]].
    + left. split; [reflexivity|]. split; [exact Hok2|]. split; [exact Hs2|]. destruct Hs2 as (E1 & E2 & _ & E4).
      unfold slow_split in *. now rewrite E1, E2, E4 in Hno.
    + right. eauto using allocated_same.
Qed.

(** The CPU is one the allocator knows. *)
Definition cpu_ok (s : pmm) (cpu : option Z) : Prop :=
  match cpu with Some c => 0 <= c < Z.of_nat (length (caches s)) | None => True end.

Lemma pcp_pop_ok c x : cache_pop (c ++ [x]) = Ok (x, c).
Proof. unfold cache_pop. rewrite last_snoc, removelast_last. reflexivity. Qed.

Lemma Request_ok s cpu n : pmm_ok s -> cpu_ok s cpu -> 1 <= n <= pages (geo s) -> wp (Request s cpu n) (request_post n s).
Proof.
  intros Hok Hcpu Hn. unfold Request. fold (pages (geo s)).
  assert ((n =? 0) || (pages (geo s) <? n) = false) as -> by (apply orb_false_iff; split; [apply Z.eqb_neq|apply Z.ltb_ge]; lia).
  destruct cpu as [cpu|]; [|apply request_run_ok; auto with cdb; lia]. destruct (n =? 1) eqn:E1; to_prop; [|apply request_run_ok; auto with cdb; lia].
  subst n. simpl in Hcpu. destruct (lookup_lt_is_Some_2 (caches s) (Z.to_nat cpu)) as [c Hc]; [lia|].
  replace cpu with (Z.of_nat (Z.to_nat cpu)) by lia. rewrite (get_cache _ _ _ Hc). cbn [bind].
  destruct c as [|x c0 _] using rev_ind.
  - simpl. apply wp_bind. eapply wp_mono; [apply (pcp_refill_ok s _ _ Hok Hc)|]. intros [[p|] s1].
    + simpl. intros Ha. right. eauto using allocated_nonnull.
    + intros (Hok1 & Hs1 & _). apply request_run_ok; auto; lia.
  - rewrite length_app, Nat.add_1_r. simpl negb. rewrite pcp_pop_ok. cbn [bind]. rewrite (put_cache _ _ _ _ Hc). cbn [bind wp].
    destruct (cache_drop s _ _ _ _ _ Hok Hc) as (Hok1 & p & -> & Hp & Ht). right. consts. split; [lia|]. split; [exact Hok1|].
    exists p. consts. split; [reflexivity|]. split; [lia|]. split; [lia|exact Ht].
Qed.
