(* ===== verification/PMMFree.v ===== *)
(** Freeing in the page allocator: runs across shards, blocks, and single pages
    through the per-CPU cache; requests of 2 MiB and 2 GiB; counting. *)
From stdpp Require Import base list.
From Stdlib Require Import ZArith Lia.
From S2P Require Import Prelude Words PMM PMMBits PMMInv PMMScan PMMState PMMAlloc.

Open Scope Z_scope.
Open Scope c_scope.

(** The [n] pages from [b] on belong to a client. *)
Definition owned (s : pmm) (b n : Z) : Prop :=
  0 < b /\ 1 <= n /\ b + n <= pages (geo s) /\ forall p, b <= p < b + n -> ~ avail s p.

(** The pages [[b, b + n)] have been freed. *)
Definition freed (s s' : pmm) (b n : Z) : Prop := pmm_ok s' /\ gives s s' b n.

Lemma free_in_shard_ok s si b n : pmm_ok s -> owned s b n -> 0 <= si < total_l3_bits (geo s) -> sh_lo si <= b -> b + n <= sh_hi (geo s) si ->
  wp (free_in_shard_locked s si b n) (fun s' => freed s s' b n /\ caches s' = caches s /\ shard_count s' = shard_count s).
Proof.
  intros Hok (Hb & Hn & He & Ho) Hi B1 B2. unfold free_in_shard_locked. pose proof (g_pages _ (p_geo _ _ _ Hok)) as G1.
  apply wp_bind. eapply wp_mono; [apply (free_state s _ _ b n Hok); auto|]. intros m' [Hok1 Hg1].
  destruct (lower_hint_ok _ _ _ si b Hok1 Hi) as (s2 & -> & Hok2 & Hs2 & _). cbn [bind].
  assert (E : geo s2 = geo s) by apply Hs2.
  destruct (shard_free_add_ok s2 _ _ si n Hok2) as (s3 & -> & Hok3 & Hs3); [now rewrite E|lia|rewrite sh_over_in by lia; lia|lia|].
  cbn [wp]. assert (E3 : geo s3 = geo s) by (destruct Hs3 as (-> & _); exact E).
  pose proof (c_len _ _ _ (p_counts _ _ _ Hok)). pose proof (c_len _ _ _ (p_counts _ _ _ Hok3)) as Hl3. rewrite E3 in Hl3. unfold shard_count. split.
  - split; [|eauto with cdb]. eapply pmm_but_ext; [exact Hok3| |lia]. intros j Hj. cbv beta.
    destruct (j =? si) eqn:Ej; to_prop; [subst; rewrite sh_over_in by lia; lia|]. rewrite (sh_over_out _ _ _ si) by (auto; lia). lia.
  - split; [|congruence]. destruct Hs3 as (_ & _ & -> & _). destruct Hs2 as (_ & _ & -> & _). reflexivity.
Qed.

Lemma shard_of g b : geo_ok g -> 0 <= b < pages g -> 0 <= b / 524288 < total_l3_bits g /\ sh_lo (b / 524288) <= b < sh_hi g (b / 524288).
Proof.
  intros Hg Hb. pose proof (g_l2 _ Hg). pose proof (g_l3 _ Hg). unfold sh_hi, sh_len, sh_lo. dlia.
Qed.

(** * Runs *)

Lemma free_run_ok s b n : pmm_ok s -> owned s b n -> wp (free_run s b (b + n)) (fun s' => freed s s' b n).
Proof.
  intros Hok (Hb & Hn & He & Ho). pose proof (p_geo _ _ _ Hok) as Hg. pose proof (c_len _ _ _ (p_counts _ _ _ Hok)) as Hl.
  pose proof (g_l2 _ Hg) as G2. pose proof (g_l3 _ Hg) as G3. unfold free_run. consts. set (e := b + n) in *.
  assert (Hlast : (e - 1) / 524288 < total_l3_bits (geo s)) by (apply (shard_of (geo s) (e - 1) Hg); lia).
  apply (wp_loop (fun '(s1, si) => pmm_ok s1 /\ gives s s1 b (Z.max b (sh_lo si) - b) /\ b / 524288 <= si <= (e - 1) / 524288)
    (fun '(_, si) => Z.to_nat ((e - 1) / 524288 - si))).
  - intros [s1 si] (Hok1 & Hg1 & Hsi). unfold step_ok. pose proof (proj1 Hg1) as E1.
    destruct (shard_part (geo s) b n si Hg) as (S1 & S2 & S3 & S4); [fold e; lia..|]. fold e in S1, S3.
    assert (Hpart : shard_lo si b = Z.max b (sh_lo si) /\ shard_hi si e = Z.min e (sh_lo (si + 1))).
    { unfold shard_lo, shard_hi, sh_lo. consts. repeat case_bool; to_prop; lia. }
    destruct Hpart as [-> ->]. apply wp_bind. eapply wp_mono; [apply (free_in_shard_ok s1 si (Z.max b (sh_lo si))); [exact Hok1| |now rewrite E1|lia|]|].
    + split; [lia|]. split; [lia|]. rewrite E1. split; [lia|]. intros p Hp Ha. apply (proj2 Hg1) in Ha as [Ha|Ha]; [|lia]. apply (Ho p); [lia|exact Ha].
    + rewrite E1. unfold sh_hi, sh_len, sh_lo in *. lia.
    + intros s2 [[Hok2 Hg2] _]. assert (Hg12 : forall k, k = Z.min e (sh_lo (si + 1)) - b -> gives s s2 b k).
      { intros k ->. split; [destruct Hg2 as [-> _]; exact E1|]. intros p. destruct Hg2 as [_ ->]. destruct Hg1 as [_ ->]. split.
        - intros [[H|H]|H]; [auto|right; lia|right; lia].
        - intros [H|H]; [auto|]. destruct (Z.lt_ge_cases p (Z.max b (sh_lo si))); [left; right; lia|right; lia]. }
      destruct (e <=? Z.min e (sh_lo (si + 1))) eqn:Ee; to_prop; cbn [wp].
      * split; [exact Hok2|]. apply Hg12. unfold e in *. lia.
      * split; [|unfold sh_lo in *; dlia]. split; [exact Hok2|]. split; [apply Hg12; unfold sh_lo in *; lia|unfold sh_lo in *; dlia].
  - split; [exact Hok|]. split; [|split; [lia|apply Z.div_le_mono; lia]]. split; [reflexivity|]. intros p. unfold sh_lo.
    split; [auto|intros [H|H]; [exact H|exfalso; dlia]].
  - assert (Hb0 : 0 <= b / 524288) by (apply Z.div_pos; lia). unfold e in *. lia.
Qed.

(** * Single pages *)

Lemma flush_ok k s i c : pmm_ok s -> caches s !! i = Some c ->
  wp (flush k s (Z.of_nat i)) (fun s' => pmm_ok s' /\ geo s' = geo s /\ (forall p, avail s' p <-> avail s p) /\
    exists c', caches s' !! i = Some c' /\ length c' = (length c - k)%nat).
Proof.
  revert s c. induction k as [|k IH]; intros s c Hok Hc; cbn [flush].
  { cbn [wp]. split; [exact Hok|]. split; [reflexivity|]. split; [reflexivity|]. exists c. split; [exact Hc|lia]. }
  rewrite (get_cache _ _ _ Hc). cbn [bind]. destruct c as [|x c _] using rev_ind.
  { simpl. split; [exact Hok|]. split; [reflexivity|]. split; [reflexivity|]. exists []. auto. }
  rewrite length_app, Nat.add_1_r. simpl negb. rewrite pcp_pop_ok. cbn [bind]. rewrite (put_cache _ _ _ _ Hc). cbn [bind].
  destruct (cache_drop s _ _ _ _ _ Hok Hc) as (Hok1 & p & -> & Hp & Htk). set (s1 := with_caches s _) in *.
  assert (Hc1 : caches s1 !! i = Some c) by (apply list_lookup_insert_eq; now apply lookup_lt_Some in Hc).
  assert (Ep : p * PAGE_SIZE / PAGE_SIZE = p) by (consts; now apply Z.div_mul). rewrite Ep.
  change (pmm_bitmap_pages (geo s1)) with (pages (geo s)).
  assert (pages (geo s) <=? p = false) as -> by (apply Z.leb_gt; lia). consts.
  destruct (shard_of (geo s) p (p_geo _ _ _ Hok) ltac:(lia)) as [S1 S2].
  apply wp_bind. eapply wp_mono; [apply (free_in_shard_ok s1 (p / 524288) p 1 Hok1); [|exact S1|simpl; lia|simpl; lia]|].
  { split; [lia|]. split; [lia|]. split; [simpl; lia|]. intros q Hq Ha. apply Htk in Ha. tauto. }
  intros s2 [[Hok2 Hg2] [Ec2 _]]. rewrite <- Ec2 in Hc1.
  eapply wp_mono; [apply (IH s2 c Hok2 Hc1)|]. intros s3 (Hok3 & E3 & Hav & c' & Hc' & Hl).
  split; [exact Hok3|]. split; [rewrite E3, (proj1 Hg2); reflexivity|]. split; [|exists c'; split; [exact Hc'|lia]].
  intros q. rewrite Hav. destruct Hg2 as [_ ->]. destruct Htk as (_ & Hin & ->).
  destruct (decide (p <= q < p + 1)) as [Hq|Hq]; [|tauto]. split; [intros _; apply Hin; lia|auto].
Qed.

Lemma free_cached_ok s i c p : pmm_ok s -> caches s !! i = Some c -> owned s p 1 ->
  wp (free_cached s (Z.of_nat i) (p * PAGE_SIZE)) (fun s' => freed s s' p 1).
Proof.
  intros Hok Hc (Hp & _ & Hpe & Ho). unfold free_cached. rewrite (get_cache _ _ _ Hc). cbn [bind].
  pose proof (Forall_lookup_1 _ _ _ _ (k_len _ (p_cache _ _ _ Hok)) Hc) as Hlen. simpl in Hlen.
  assert (H1 : wp (if Z.of_nat (length c) <? PMM_PCP_MAX then Ok s else flush PMM_PCP_BATCH s (Z.of_nat i)) (fun s1 =>
    pmm_ok s1 /\ geo s1 = geo s /\ (forall q, avail s1 q <-> avail s q) /\ exists c', caches s1 !! i = Some c' /\ Z.of_nat (length c') < PMM_PCP_MAX)).
  { destruct (_ <? _) eqn:E; to_prop; [simpl; eauto 6|]. eapply wp_mono; [apply (flush_ok _ s i c Hok Hc)|].
    intros s1 (H1 & H2 & H3 & c' & H4 & H5). split; [exact H1|]. split; [exact H2|]. split; [exact H3|]. exists c'. split; [exact H4|].
    unfold PMM_PCP_MAX, PMM_PCP_BATCH in *. lia. }
  apply wp_bind. eapply wp_mono; [exact H1|]. intros s1 (Hok1 & E1 & Hav & c' & Hc' & Hl'). rewrite (get_cache _ _ _ Hc'). cbn [bind].
  unfold cache_push. rewrite (proj2 (Z.ltb_lt _ _) Hl'). cbn [bind]. rewrite (put_cache _ _ _ _ Hc'). cbn [wp].
  destruct (cache_add s1 _ _ i c' [p * PAGE_SIZE] Hok1 Hc') as [Hok2 Hav2].
  - apply NoDup_singleton.
  - apply Forall_singleton. exists p. split; [reflexivity|]. rewrite E1. split; [lia|]. apply not_avail_used; [rewrite E1; lia|]. rewrite Hav. apply Ho. lia.
  - rewrite length_app. simpl. lia.
  - split; [exact Hok2|]. split; [exact E1|]. intros q. rewrite Hav2, Hav, list_elem_of_singleton. consts.
    assert (p <= q < p + 1 <-> q * 4096 = p * 4096) by lia. tauto.
Qed.

(** * The interface *)

Lemma Free_ok s cpu b n : pmm_ok s -> cpu_ok s cpu -> owned s b n -> wp (Free s cpu (b * PAGE_SIZE) n) (fun s' => freed s s' b n).
Proof.
  intros Hok Hcpu Ho. pose proof Ho as (Hb & Hn & He & Hav). unfold Free.
  assert ((b * PAGE_SIZE =? 0) || (n =? 0) = false) as -> by (apply orb_false_iff; consts; split; apply Z.eqb_neq; lia).
  assert (Hrun : wp (let start := b * PAGE_SIZE / PAGE_SIZE in let pages := pmm_bitmap_pages (geo s) in
      if pages <=? start then Ok s
      else let n := if pages - start <? n then pages - start else n in free_run s start (start + n)) (fun s' => freed s s' b n)).
  { cbv zeta. assert (b * PAGE_SIZE / PAGE_SIZE = b) as -> by (consts; now apply Z.div_mul). fold (pages (geo s)).
    assert (pages (geo s) <=? b = false) as -> by (apply Z.leb_gt; lia). assert (pages (geo s) - b <? n = false) as -> by (apply Z.ltb_ge; lia).
    now apply free_run_ok. }
  destruct (n =? 1) eqn:E; to_prop; [|exact Hrun]. destruct cpu as [cpu|]; [|exact Hrun]. subst n. simpl in Hcpu.
  destruct (lookup_lt_is_Some_2 (caches s) (Z.to_nat cpu)) as [c Hc]; [lia|].
  replace cpu with (Z.of_nat (Z.to_nat cpu)) by lia. now apply (free_cached_ok s _ c).
Qed.

(** An aligned block of a power of two does not cross into the next shard. *)
Lemma block_in_shard b k : 0 <= k <= 19 -> b mod 2 ^ k = 0 -> b + 2 ^ k <= sh_lo (b / 524288) + 524288.
Proof.
  intros Hk Hal. assert (Hdiv : 524288 = 2 ^ k * 2 ^ (19 - k)) by (rewrite <- Z.pow_add_r by lia; now replace (k + (19 - k)) with 19 by lia).
  pose proof (Z.pow_pos_nonneg 2 k ltac:(lia) ltac:(lia)). apply Z.div_exact in Hal; [|lia]. set (size := 2 ^ k) in *.
  unfold sh_lo. set (q := b / size) in *. set (t := b / 524288) in *.
  pose proof (Z.pow_pos_nonneg 2 (19 - k) ltac:(lia) ltac:(lia)). set (w := 2 ^ (19 - k)) in *.
  assert (Hlt : b < 524288 * t + 524288) by (subst t; dlia). rewrite Hdiv in Hlt at 1 2.
  assert (q < w * t + w) by (apply (Z.mul_lt_mono_pos_l size); [assumption|]; rewrite <- Hal; nia). rewrite Hdiv. nia.
Qed.

(** Freeing an aligned block of [size] pages, a power of two no larger than a
    shard. *)
Lemma free_block_ok s b size k : pmm_ok s -> owned s b size -> size = 2 ^ k -> 0 <= k <= 19 -> b mod size = 0 ->
  wp (free_block s (b * PAGE_SIZE) size) (fun s' => freed s s' b size).
Proof.
  intros Hok Ho Hs Hk Hal. pose proof Ho as (Hb & Hn & He & Hav). unfold free_block.
  assert (b * PAGE_SIZE =? 0 = false) as -> by (consts; apply Z.eqb_neq; lia).
  assert (b * PAGE_SIZE / PAGE_SIZE = b) as -> by (consts; now apply Z.div_mul). cbv zeta. fold (pages (geo s)).
  rewrite Hs at 1. rewrite land_mask, <- Hs, Hal by lia. simpl negb.
  assert (pages (geo s) <? b + size = false) as -> by (apply Z.ltb_ge; lia). consts.
  destruct (shard_of (geo s) b (p_geo _ _ _ Hok) ltac:(lia)) as [S1 S2].
  pose proof (block_in_shard b k Hk ltac:(now rewrite <- Hs)) as Hend. rewrite <- Hs in Hend.
  eapply wp_mono; [apply (free_in_shard_ok s (b / 524288) b size Hok Ho S1)|]; [lia| |tauto].
  unfold sh_hi, sh_len in *. lia.
Qed.

(** Blocks of 2 MiB and 2 GiB in the page allocator: a request finds a free
    block whenever there is one. *)

(** * Clearing the lowest bit of a word *)

Lemma clear_lowest p i : word p -> p <> 0 -> 0 <= i < 64 ->
  Z.testbit (Z.land p (p - 1)) i = Z.testbit p i && negb (i =? ctz p).
Proof.
  intros Hp Hne Hi. destruct (ctz_bits p Hp Hne) as (C1 & C2 & C3). destruct (ctz_spec p) as (k & E & Hk); [destruct Hp; lia|].
  set (c := ctz p) in *. pose proof (Z.pow_pos_nonneg 2 c ltac:(lia) ltac:(lia)) as P2. rewrite Z.land_spec.
  destruct (Z.lt_trichotomy i c) as [Hlt|[->|Hgt]].
  - rewrite (C3 i) by lia. reflexivity.
  - rewrite Z.eqb_refl, C2. simpl. rewrite testbit_odd_div by lia.
    replace ((p - 1) / 2 ^ c) with (2 * k) by (rewrite E; apply (Z.div_unique_pos _ _ _ (2 ^ c - 1)); lia). now rewrite Z.odd_mul.
  - assert (i =? c = false) as -> by (apply Z.eqb_neq; lia). simpl. rewrite andb_true_r.
    assert (Hdiv : forall x r, x = 2 ^ (c + 1) * k + r -> 0 <= r < 2 ^ (c + 1) -> Z.testbit x i = Z.testbit k (i - (c + 1))).
    { intros x r Hx Hr. replace i with (i - (c + 1) + (c + 1)) at 1 by lia. rewrite <- Z.div_pow2_bits by lia. f_equal.
      symmetry. apply (Z.div_unique_pos _ _ _ r); lia. }
    clearbody c. assert (P3 : 2 ^ (c + 1) = 2 * 2 ^ c) by (rewrite Z.pow_add_r by lia; lia).
    rewrite (Hdiv p (2 ^ c)) by lia. rewrite (Hdiv (p - 1) (2 ^ c - 1)) by lia. apply andb_diag.
Qed.

Lemma count_le f h lo k : (forall j, lo <= j < lo + Z.of_nat k -> f j = true -> h j = true) -> count f lo k <= count h lo k.
Proof.
  revert lo. induction k as [|k IH]; intros lo H; simpl; [lia|]. specialize (IH (lo + 1) ltac:(intros j Hj; apply H; lia)).
  specialize (H lo ltac:(lia)). destruct (f lo), (h lo); simpl; try lia.
Qed.

(** A free run inside a shard shows in its free pages. *)
Lemma run_counted g m si b n : sh_lo si <= b -> b + n <= sh_hi g si -> 0 <= n -> 0 <= sh_len g si -> run_free m b (b + n) -> n <= sh_nfree g m si.
Proof.
  intros H1 H2 Hn Hl Hr. unfold sh_nfree, nfree.
  transitivity (count (inr_ b (b + n)) (sh_lo si) (Z.to_nat (sh_len g si))).
  - rewrite count_range by (unfold sh_hi in *; lia). lia.
  - apply count_le. intros j Hj Hi. inr_case. now rewrite Hr.
Qed.

(** An aligned block of [n] pages was taken. *)
Definition block_alloc (n : Z) (s : pmm) (p : Z) (s' : pmm) : Prop := p mod (n * PAGE_SIZE) = 0 /\ allocated n s p s'.

Lemma block_alloc_same n s s1 p s' : same_pages s s1 -> block_alloc n s1 p s' -> block_alloc n s p s'.
Proof. intros Hs [H1 H2]. split; [exact H1|]. eauto using allocated_same. Qed.

(** The statistics are not part of the invariant. *)
Lemma pmm_ok_stats s st : pmm_ok s -> pmm_ok (with_pstats s st).
Proof. intros [H1 H2 H3 [C1 C2 C3] [K1 K2 K3] H6]. split; auto; split; auto. Qed.

(** * 2 MiB *)

(** No whole free block of 2 MiB in shard [si]. *)
Definition no_2mb (s : pmm) (si : Z) : Prop :=
  forall b, 1024 * si <= b < 1024 * (si + 1) -> 512 * (b + 1) <= pages (geo s) -> ~ run_free (maps s) (512 * b) (512 * (b + 1)).

(** Marking a whole block by hand is [mark_allocated] of its pages. *)
Lemma take_marks g m b : geo_ok g -> maps_ok g m -> 0 <= b < total_l2_bits g ->
  (let* l1 := bits_set (l1_map m) (b * 512) (b * 512 + 512) in
   let* l2 := bit_set (l2_map m) b in l2_full_propagate (set_l2 l2 (set_l1 l1 m)) b) = mark_allocated g m (b * 512) 512.
Proof.
  intros Hg Hm Hb. pose proof (g_l3 _ Hg) as G3. destruct Hm as [Ha Hs] eqn:Em. pose proof (a_l1 _ _ Ha) as A1.
  unfold mark_allocated. consts. replace (b * 512 / 512) with b by dlia. replace ((b * 512 + 512 - 1) / 512) with b by dlia.
  replace (Z.to_nat (b - b + 1)) with 1%nat by lia. cbn [for_up].
  unfold block_lo, block_hi. rewrite Z.eqb_refl. unfold mark_block_allocated. rewrite (ensure_done g m b Hm Hb). cbn [bind].
  destruct (bits_set_ok (l1_map m) (b * 512) (b * 512 + 512)) as (l1 & -> & H1); [apply Ha|lia..|]. cbn [bind].
  destruct (l2_block_full_ok g (set_l1 l1 m) b (arr_set_l1 _ _ _ _ Ha H1) Hb) as (full & -> & Hfull). cbn [bind].
  assert (full = true) as ->.
  { apply Hfull. intros p Hp. unfold used. simpl. rewrite (bec_bit _ _ _ H1) by lia. inr_case; [reflexivity|lia]. }
  simpl. destruct (bit_set (l2_map m) b); try reflexivity. cbn [bind]. destruct (l2_full_propagate _ b); reflexivity.
Qed.

Lemma take_2mb_ok s s0 si b : pmm_ok s -> same_pages s0 s -> 0 <= si < total_l3_bits (geo s) -> 1024 * si <= b < 1024 * (si + 1) ->
  wp (take_2mb s si b) (try_post s0 (512 * (b + 1) <= pages (geo s0) -> ~ run_free (maps s0) (512 * b) (512 * (b + 1))) (block_alloc 512 s0)).
Proof.
  intros Hok Hs0 Hi Hb. pose proof (p_geo _ _ _ Hok) as Hg. pose proof (g_l2 _ Hg) as G2. unfold take_2mb. fold (pages (geo s)). consts.
  destruct (pages (geo s) <? b * 512 + 512) eqn:E; to_prop.
  { simpl. split; [exact Hok|]. split; [exact Hs0|]. rewrite <- (proj1 Hs0). lia. }
  assert (Hbl : 0 <= b < total_l2_bits (geo s)) by lia. pose proof (p_maps _ _ _ Hok) as Hm. pose proof (a_l1 _ _ (proj1 Hm)) as A1. unfold nbits in A1.
  rewrite ensure_done by assumption. cbn [bind].
  destruct (words_zero_ok (l1_map (maps s)) (b * 8) (Z.to_nat 8)) as (fr & -> & Hfr); [apply Hm|lia|lia|]. cbn [bind].
  destruct fr; cbn [negb].
  2:{ simpl. split; [now destruct s|]. split; [now destruct s|]. destruct Hs0 as (<- & E2 & _). intros _ Hrun. rewrite <- E2 in Hrun.
    assert (false = true); [|discriminate]. apply Hfr. intros j Hj. apply Hrun. lia. }
  assert (Hrun : run_free (maps s) (b * 512) (b * 512 + 512)) by (intros p Hp; apply (proj1 Hfr eq_refl); lia).
  assert (Hb0 : 0 < b * 512). { pose proof (p_zero _ _ _ Hok) as Hz. destruct (Z.eq_dec b 0) as [->|]; [|lia]. rewrite Hrun in Hz by lia. discriminate. }
  pose proof (mark_state s _ _ (b * 512) 512 Hok Hb0 ltac:(lia) ltac:(lia) Hrun) as Hmk. rewrite <- take_marks in Hmk by assumption.
  destruct (bits_set (l1_map (maps s)) _ _) as [l1| |]; try easy. cbn [bind] in *. destruct (bit_set (l2_map (maps s)) b) as [l2| |]; try easy. cbn [bind] in *.
  destruct (l2_full_propagate _ b) as [m'| |]; try easy. cbn [bind wp] in *. destruct Hmk as [Hok1 Htk].
  destruct (lower_hint_ok _ _ _ si (b * 512) Hok1 Hi) as (s2 & -> & Hok2 & Hs2 & _). cbn [bind]. assert (E2 : geo s2 = geo s) by apply Hs2.
  destruct (sh_range (geo s) si Hg Hi) as (R1 & R2 & R3). pose proof (sh_len_pos (geo s) si Hg Hi) as Hlen.
  assert (Hin : sh_lo si <= b * 512 /\ b * 512 + 512 <= sh_hi (geo s) si) by (unfold sh_hi, sh_len, sh_lo in *; lia).
  destruct (shard_free_sub_ok s2 _ _ si 512 Hok2) as (s3 & -> & Hok3 & Hs3); [now rewrite E2|lia|rewrite sh_over_in by lia; lia|lia|].
  cbn [bind wp try_post]. split; [consts; dlia|]. eapply allocated_same; [exact Hs0|].
  assert (Hok4 : pmm_ok s3).
  { eapply pmm_but_ext; [exact Hok3| |lia]. intros j Hj. cbv beta. destruct (j =? si) eqn:Ej; to_prop; [subst; rewrite sh_over_in by lia; lia|].
    rewrite (sh_over_out _ _ _ si) by (auto; lia). lia. }
  split; [now apply pmm_ok_stats|].
  exists (b * 512). split; [reflexivity|]. split; [exact Hb0|]. split; [lia|]. eapply (takes_same s s3); [|repeat split]. eauto with cdb.
Qed.

(** All candidates of a word. *)
Lemma pending_2mb_ok k s s0 si w pending : pmm_ok s -> same_pages s0 s -> 0 <= si < total_l3_bits (geo s) ->
  16 * si <= w < 16 * (si + 1) -> word pending -> count (Z.testbit pending) 0 64 <= Z.of_nat k ->
  wp (pending_2mb k s si w pending) (try_post s0 (forall i, 0 <= i < 64 -> Z.testbit pending i = true ->
    512 * (w * 64 + i + 1) <= pages (geo s0) -> ~ run_free (maps s0) (512 * (w * 64 + i)) (512 * (w * 64 + i + 1))) (block_alloc 512 s0)).
Proof.
  revert s pending. induction k as [|k IH]; intros s pending Hok Hs0 Hi Hw Hp Hk; cbn [pending_2mb]; destruct (pending =? 0) eqn:E; to_prop.
  1,3: simpl; split; [exact Hok|]; split; [exact Hs0|]; intros i Hi' Ht; subst; now rewrite Z.testbit_0_l in Ht.
  - exfalso. pose proof (count_bound (Z.testbit pending) 0 64). apply E. apply word_zero; [exact Hp|]. intros i Hi'.
    apply (count_zero (Z.testbit pending) 0 64); [lia|simpl; lia].
  - destruct (ctz_bits pending Hp E) as (C1 & C2 & C3). apply wp_bind. eapply wp_mono; [apply (take_2mb_ok s s0 si (w * 64 + ctz pending)); auto; lia|].
    intros [[p|] s1]; [auto|]. intros (Hok1 & Hs1 & Hnone). set (pending' := Z.land pending (pending - 1)) in *.
    assert (Hbit : forall i, 0 <= i < 64 -> Z.testbit pending' i = Z.testbit pending i && negb (i =? ctz pending)) by (intros; now apply clear_lowest).
    assert (Hp' : word pending') by (apply land_word; [exact Hp|destruct Hp; lia]).
    assert (Hg1 : geo s1 = geo s) by (rewrite (proj1 Hs1), (proj1 Hs0); reflexivity).
    eapply wp_mono; [apply (IH s1 pending'); auto; [now rewrite Hg1|]|].
    + rewrite (count_remove (Z.testbit pending) (Z.testbit pending') 0 64 (ctz pending) (ctz pending + 1)); [lia|lia|simpl; lia| |].
      * intros j Hj. rewrite Hbit by (simpl in Hj; lia). do 2 f_equal. inr_case; [apply Z.eqb_eq|apply Z.eqb_neq]; lia.
      * intros j Hj. now replace j with (ctz pending) by lia.
    + intros [[p|] s2]; [auto|]. intros (Hok2 & Hs2 & Hrest). split; [exact Hok2|]. split; [exact Hs2|]. intros i Hi' Ht.
      destruct (Z.eq_dec i (ctz pending)) as [->|Hne]; [exact Hnone|]. apply Hrest; [exact Hi'|]. rewrite Hbit, Ht by exact Hi'.
      apply Z.eqb_neq in Hne. now rewrite Hne.
Qed.

(** A block with a clear summary bit is the only kind that can be free. *)
Lemma free_block_bit g m b : geo_ok g -> maps_ok g m -> 0 <= b < total_l2_bits g -> run_free m (512 * b) (512 * (b + 1)) -> bitv (l2_map m) b = false.
Proof.
  intros Hg [_ Hs] Hb Hr. destruct (bitv (l2_map m) b) eqn:E; [|reflexivity]. apply (s_l2 _ _ Hs) with (p := 512 * b) in E; [|lia..].
  rewrite Hr in E by lia. discriminate.
Qed.

Lemma words_2mb_ok k s s0 si w : pmm_ok s -> same_pages s0 s -> 0 <= si < total_l3_bits (geo s) -> 16 * si <= w -> w + Z.of_nat k <= 16 * (si + 1) ->
  wp (words_2mb k s si w) (try_post s0 (forall b, 64 * w <= b < 64 * (w + Z.of_nat k) ->
    512 * (b + 1) <= pages (geo s0) -> ~ run_free (maps s0) (512 * b) (512 * (b + 1))) (block_alloc 512 s0)).
Proof.
  revert s w. induction k as [|k IH]; intros s w Hok Hs0 Hi Hw Hk; cbn [words_2mb].
  { simpl. split; [exact Hok|]. split; [exact Hs0|]. intros b Hb. lia. }
  pose proof (p_maps _ _ _ Hok) as Hm. pose proof (a_l2 _ _ (proj1 Hm)) as A2. unfold nbits in A2.
  pose proof (p_geo _ _ _ Hok) as Hg. pose proof (g_l2 _ Hg) as G2. destruct Hs0 as (Eg & Em & Ec & Esl) eqn:Es0.
  rewrite get_total by lia. cbn [bind]. set (wd := l2_map (maps s) !!! Z.to_nat w).
  apply wp_bind. eapply wp_mono; [apply (pending_2mb_ok 64 s s0 si w (not64 wd)); auto; [lia|apply u64_word|]|].
  { pose proof (count_bound (Z.testbit (not64 wd)) 0 64). lia. }
  intros [[p|] s1]; [auto|]. intros (Hok1 & Hs1 & Hword). eapply wp_mono; [apply (IH s1 (w + 1)); auto; [|lia|lia]|].
  { rewrite (proj1 Hs1), <- Eg. exact Hi. }
  intros [[p|] s2]; [auto|]. intros (Hok2 & Hs2 & Hrest). split; [exact Hok2|]. split; [exact Hs2|]. intros b Hb Hpg Hrun.
  destruct (Z.lt_ge_cases b (64 * (w + 1))) as [Hlt|Hge]; [|now apply (Hrest b); [lia| |]].
  assert (Hbit : bitv (l2_map (maps s)) b = false) by (apply (free_block_bit (geo s)); [exact Hg|exact Hm|rewrite <- Eg in Hpg; lia|now rewrite Em]).
  unfold bitv in Hbit. replace (b / 64) with w in Hbit by dlia. replace (b mod 64) with (b - 64 * w) in Hbit by dlia.
  apply (Hword (b - 64 * w)); [lia| |replace (w * 64 + (b - 64 * w)) with b by lia; assumption..].
  rewrite not64_bit by lia. unfold wd. now rewrite Hbit.
Qed.

Lemma request_2mb_locked_ok s s0 si : pmm_ok s -> same_pages s0 s -> 0 <= si < total_l3_bits (geo s0) ->
  wp (request_2mb_locked s si) (try_post s0 (no_2mb s0 si) (block_alloc 512 s0)).
Proof.
  intros Hok Hs0 Hi. rewrite <- (proj1 Hs0) in Hi. unfold request_2mb_locked. consts.
  eapply wp_mono; [apply (words_2mb_ok (Z.to_nat 16) s s0 si (si * 16) Hok Hs0 Hi); lia|].
  intros [[p|] s1]; [auto|]. intros (Hok1 & Hs1 & Hno). split; [exact Hok1|]. split; [exact Hs1|]. intros b Hb. apply Hno. lia.
Qed.

Lemma request_2mb_shard_ok s s0 si : pmm_ok s -> same_pages s0 s -> 0 <= si < total_l3_bits (geo s0) ->
  wp (request_2mb_shard s si) (try_post s0 (no_2mb s0 si) (block_alloc 512 s0)).
Proof.
  intros Hok Hs0 Hi0. pose proof (proj1 Hs0) as Eg. pose proof Hi0 as Hi. rewrite <- Eg in Hi. unfold request_2mb_shard.
  destruct (shard_at _ _ _ _ Hok Hi) as (sh & _ & -> & F1 & F2 & F3). cbn [bind]. consts. pose proof (p_geo _ _ _ Hok) as Hg.
  pose proof (sh_len_pos (geo s) si Hg Hi) as Hlen. destruct (sh_free sh <? 512) eqn:E; to_prop; [|now apply request_2mb_locked_ok].
  simpl. split; [exact Hok|]. split; [exact Hs0|]. intros b Hb Hpg Hrun. destruct Hs0 as (_ & Em & _). rewrite <- Em in Hrun. rewrite <- Eg in Hpg.
  pose proof (run_counted (geo s) (maps s) si (512 * b) 512) as Hc. replace (512 * (b + 1)) with (512 * b + 512) in * by lia.
  unfold sh_hi, sh_len, sh_lo in *. specialize (Hc ltac:(lia) ltac:(lia) ltac:(lia) ltac:(lia) Hrun). lia.
Qed.

(** The outcome of a request for a block of [n] pages: NULL, only when there is
    [none], or an aligned block. *)
Definition block_post (n : Z) (none : Prop) (s : pmm) : Z * pmm -> Prop := fun '(p, s') =>
  (p = 0 /\ pmm_ok s' /\ same_pages s s' /\ none) \/ (p <> 0 /\ block_alloc n s p s').

(** No free block of [n] pages at a multiple of [n]. *)
Definition no_block (n : Z) (s : pmm) : Prop :=
  forall b, 0 <= b -> n * (b + 1) <= pages (geo s) -> ~ run_free (maps s) (n * b) (n * (b + 1)).

Lemma Request2MB_ok s : pmm_ok s -> wp (Request2MB s) (block_post 512 (no_block 512 s) s).
Proof.
  intros Hok. pose proof (p_geo _ _ _ Hok) as Hg. pose proof (g_l2 _ Hg). pose proof (g_l3 _ Hg). unfold Request2MB. apply wp_bind.
  eapply wp_mono; [apply (rr_search_ok _ s (no_2mb s) (block_alloc 512 s)); [|exact Hok]|].
  - intros s1 si Hok1 Hs1 Hi. now apply request_2mb_shard_ok.
  - intros [[p|] s1].
    + intros Hb. right. split; [apply (allocated_nonnull 512 s p s1), Hb|exact Hb].
    + intros (Hok1 & Hs1 & Hno). left. split; [reflexivity|]. split; [now apply pmm_ok_stats|]. split; [exact Hs1|].
      intros b Hb Hpg. apply (Hno (b / 1024)); [dlia|dlia|exact Hpg].
Qed.

(** * 2 GiB *)

Lemma l1_clear_ok g m k b : geo_ok g -> maps_ok g m -> 0 <= b -> b + Z.of_nat k <= total_l2_bits g ->
  exists r, l1_clear g k m b = Ok (r, m) /\ (r = true <-> run_free m (512 * b) (512 * (b + Z.of_nat k))).
Proof.
  intros Hg Hm. pose proof (a_l1 _ _ (proj1 Hm)) as A1. unfold nbits in A1. revert b. induction k as [|k IH]; intros b Hb Hk; cbn [l1_clear].
  { exists true. split; [reflexivity|]. split; [intros _ p Hp; lia|auto]. }
  rewrite ensure_done by (auto; lia). cbn [bind]. consts.
  destruct (words_zero_ok (l1_map m) (b * 8) (Z.to_nat 8)) as (fr & -> & Hfr); [apply Hm|lia|lia|]. cbn [bind]. destruct fr.
  - destruct (IH (b + 1)) as (r & -> & Hr); [lia..|]. exists r. split; [reflexivity|]. rewrite Hr. split; intros H p Hp.
    + destruct (Z.lt_ge_cases p (512 * (b + 1))); [apply (proj1 Hfr eq_refl); lia|apply H; lia].
    + apply H. lia.
  - exists false. split; [reflexivity|]. split; [easy|]. intros H. apply Hfr. intros j Hj. apply H. lia.
Qed.

(** Marking a whole shard by hand. *)
Lemma take_2gb_ok g m si : geo_ok g -> maps_ok g m -> 0 <= si < total_l3_bits g -> sh_len g si = 524288 ->
  exists l1 l2 l3, bits_set (l1_map m) (si * 524288) (si * 524288 + 524288) = Ok l1 /\
    bits_set (l2_map m) (si * 1024) (si * 1024 + 1024) = Ok l2 /\ bit_set_atomic (l3_map m) si = Ok l3 /\
    let m' := set_l3 l3 (set_l2 l2 (set_l1 l1 m)) in
    maps_ok g m' /\ marked g m m' (si * 524288) (si * 524288 + 524288).
Proof.
  intros Hg [Ha Hs] Hi Hlen. pose proof (g_l2 _ Hg) as G2. pose proof (g_l3 _ Hg) as G3. unfold sh_len, sh_lo in Hlen.
  pose proof (a_l1 _ _ Ha) as A1. pose proof (a_l2 _ _ Ha) as A2. pose proof (a_l3 _ _ Ha) as A3.
  destruct (bits_set_ok (l1_map m) (si * 524288) (si * 524288 + 524288)) as (l1 & E1 & H1); [apply Ha|lia..|].
  destruct (bits_set_ok (l2_map m) (si * 1024) (si * 1024 + 1024)) as (l2 & E2 & H2); [apply Ha|lia..|].
  destruct (bit_set_ok (l3_map m) si) as (l3 & E3 & H3); [apply Ha|lia|]. exists l1, l2, l3.
  split; [exact E1|]. split; [exact E2|]. split; [exact E3|]. cbv zeta. set (m' := set_l3 _ _).
  assert (Hmk : marked g m m' (si * 524288) (si * 524288 + 524288)).
  { intros p Hp. unfold used. simpl. rewrite (bec_bit _ _ _ H1) by lia. reflexivity. }
  assert (Hl2 : forall b, 0 <= b < 1024 * total_l3_bits g -> bitv l2 b = inr_ (si * 1024) (si * 1024 + 1024) b || bitv (l2_map m) b)
    by (intros b Hb; rewrite (bec_bit _ _ _ H2) by lia; reflexivity).
  split; [|exact Hmk]. split; [apply (arr_set_l3 _ _ _ _ (arr_set_l2 g _ _ _ (arr_set_l1 _ _ _ _ Ha H1) H2) H3)|]. split; simpl.
  - apply Hs.
  - intros b Hb. rewrite Hl2 by lia. destruct (inr_ _ _ b) eqn:E; inr_case; simpl.
    + split; [intros _ p Hp|reflexivity]. rewrite Hmk by lia. inr_case; [reflexivity|lia].
    + rewrite (s_l2 _ _ Hs) by exact Hb. split; intros H p Hp; specialize (H p Hp).
      * rewrite Hmk, H by lia. apply orb_true_r.
      * rewrite Hmk in H by lia. destruct (inr_ (si * 524288) (si * 524288 + 524288) p) eqn:E'; inr_case; [lia|exact H].
  - intros b Hb. rewrite Hl2, (s_l2_out _ _ Hs) by lia. apply orb_true_r.
  - intros c Hc. rewrite (bec_bit _ _ _ H3) by lia. destruct (c =? si) eqn:E; to_prop; simpl.
    + split; [intros _ b Hb|reflexivity]. rewrite Hl2 by lia. inr_case; [reflexivity|lia].
    + rewrite (s_l3 _ _ Hs) by exact Hc. split; intros H b Hb; specialize (H b Hb).
      * rewrite Hl2, H by lia. apply orb_true_r.
      * rewrite Hl2 in H by lia. destruct (inr_ (si * 1024) (si * 1024 + 1024) b) eqn:E'; inr_case; [lia|exact H].
  - intros p Hp. pose proof (g_pages _ Hg). rewrite Hmk, (s_out _ _ Hs) by lia. apply orb_true_r.
Qed.

Definition no_2gb (s : pmm) (si : Z) : Prop :=
  524288 * (si + 1) <= pages (geo s) -> ~ run_free (maps s) (524288 * si) (524288 * (si + 1)).

(** A shard that is declined. *)
Lemma decline_2gb s s0 si : pmm_ok s -> same_pages s0 s ->
  (524288 * (si + 1) <= pages (geo s) -> ~ run_free (maps s) (524288 * si) (524288 * (si + 1))) ->
  try_post s0 (no_2gb s0 si) (block_alloc 524288 s0) (None, s).
Proof. intros Hok Hs0 H. split; [exact Hok|]. split; [exact Hs0|]. unfold no_2gb. destruct Hs0 as (<- & E2 & _). now rewrite <- E2. Qed.

(** The section needs a shard of full size, which the code tests first. *)
Lemma request_2gb_locked_ok s s0 si : pmm_ok s -> same_pages s0 s -> 0 <= si < total_l3_bits (geo s0) -> sh_len (geo s) si = 524288 ->
  wp (request_2gb_locked s si) (try_post s0 (no_2gb s0 si) (block_alloc 524288 s0)).
Proof.
  intros Hok Hs0 Hi Hfull. pose proof (proj1 Hs0) as Eg. rewrite <- Eg in Hi. unfold request_2gb_locked.
  consts. pose proof (p_geo _ _ _ Hok) as Hg.
  pose proof (p_maps _ _ _ Hok) as Hm. pose proof (g_l2 _ Hg) as G2. pose proof (g_l3 _ Hg) as G3.
  pose proof (decline_2gb s s0 si Hok Hs0) as Hno. assert (Hend : 524288 * (si + 1) <= pages (geo s)) by (unfold sh_len, sh_lo in *; lia).
  pose proof (a_l2 _ _ (proj1 Hm)) as A2. unfold nbits in A2.
  destruct (words_zero_ok (l2_map (maps s)) (si * 16) (Z.to_nat 16)) as (cl & -> & Hcl); [apply Hm|lia|lia|]. cbn [bind]. destruct cl; cbn [negb].
  2:{ apply Hno. intros _ Hrun. assert (false = true); [|discriminate]. apply Hcl. intros b Hb.
    apply (free_block_bit (geo s)); auto; [lia|]. intros p Hp. apply Hrun. lia. }
  destruct (l1_clear_ok (geo s) (maps s) (Z.to_nat 1024) (si * 1024) Hg Hm) as (cl1 & -> & Hcl1); [lia|lia|]. cbn [bind]. destruct cl1; cbn [negb].
  2:{ replace (with_maps s (maps s)) with s by now destruct s. apply Hno. intros _ Hrun. assert (false = true); [|discriminate]. apply Hcl1.
    intros p Hp. apply Hrun. lia. }
  assert (Hrun : run_free (maps s) (si * 524288) (si * 524288 + 524288)) by (intros p Hp; apply (proj1 Hcl1 eq_refl); lia).
  assert (Hb0 : 0 < si * 524288). { pose proof (p_zero _ _ _ Hok) as Hz. destruct (Z.eq_dec si 0) as [->|]; [|lia]. rewrite Hrun in Hz by lia. discriminate. }
  destruct (take_2gb_ok (geo s) (maps s) si Hg Hm Hi Hfull) as (l1 & l2 & l3 & -> & -> & -> & Hm' & Hmk). cbn [bind].
  destruct (marked_state s _ _ (si * 524288) 524288 _ Hok Hb0 ltac:(lia) ltac:(lia) Hrun Hm' Hmk) as [Hok1 Htk].
  destruct (lower_hint_ok _ _ _ si (si * 524288) Hok1 Hi) as (s2 & -> & Hok2 & Hs2 & _). cbn [bind]. assert (E3 : geo s2 = geo s) by apply Hs2.
  assert (Hin : sh_lo si <= si * 524288 /\ si * 524288 + 524288 <= sh_hi (geo s) si) by (unfold sh_hi, sh_len, sh_lo in *; lia).
  destruct (shard_free_sub_ok s2 _ _ si 524288 Hok2) as (s3 & -> & Hok3 & Hs3); [now rewrite E3|lia|rewrite sh_over_in by lia; lia|lia|].
  cbn [bind wp try_post]. split; [consts; dlia|]. eapply allocated_same; [exact Hs0|].
  split; [apply pmm_ok_stats; eapply pmm_but_ext; [exact Hok3| |lia]|].
  - intros j Hj. cbv beta. destruct (j =? si) eqn:Ej; to_prop; [subst; rewrite sh_over_in by lia; lia|].
    rewrite (sh_over_out _ _ _ si) by (auto; lia). lia.
  - exists (si * 524288). split; [reflexivity|]. split; [exact Hb0|]. split; [lia|]. eapply (takes_same s s3); [|repeat split]. eauto with cdb.
Qed.

Lemma request_2gb_shard_ok s s0 si : pmm_ok s -> same_pages s0 s -> 0 <= si < total_l3_bits (geo s0) ->
  wp (request_2gb_shard s si) (try_post s0 (no_2gb s0 si) (block_alloc 524288 s0)).
Proof.
  intros Hok Hs0 Hi0. pose proof (proj1 Hs0) as Eg. pose proof Hi0 as Hi. rewrite <- Eg in Hi. unfold request_2gb_shard.
  destruct (shard_at _ _ _ _ Hok Hi) as (sh & _ & -> & F1 & F2 & F3). cbn [bind]. consts.
  pose proof (sh_len_pos (geo s) si (p_geo _ _ _ Hok) Hi) as Hlen. pose proof (decline_2gb s s0 si Hok Hs0) as Hno.
  rewrite F2. destruct (sh_len (geo s) si <? 524288) eqn:E1; to_prop.
  { apply Hno. intros Hp. unfold sh_len, sh_lo in *. lia. }
  assert (Hfull : sh_len (geo s) si = 524288) by lia. destruct (sh_free sh <? 524288) eqn:E2; to_prop; [|now apply request_2gb_locked_ok].
  apply Hno. intros Hend Hrun. pose proof (run_counted (geo s) (maps s) si (524288 * si) 524288) as Hc.
  replace (524288 * (si + 1)) with (524288 * si + 524288) in Hrun by lia. unfold sh_hi, sh_lo in *. specialize (Hc ltac:(lia) ltac:(lia) ltac:(lia) ltac:(lia) Hrun). lia.
Qed.

Lemma Request2GB_ok s : pmm_ok s -> wp (Request2GB s) (block_post 524288 (no_block 524288 s) s).
Proof.
  intros Hok. pose proof (p_geo _ _ _ Hok) as Hg. pose proof (g_l2 _ Hg). pose proof (g_l3 _ Hg). unfold Request2GB. apply wp_bind.
  eapply wp_mono; [apply (rr_search_ok _ s (no_2gb s) (block_alloc 524288 s)); [|exact Hok]|].
  - intros s1 si Hok1 Hs1 Hi. now apply request_2gb_shard_ok.
  - intros [[p|] s1].
    + intros Hb. right. split; [apply (allocated_nonnull 524288 s p s1), Hb|exact Hb].
    + intros (Hok1 & Hs1 & Hno). left. split; [reflexivity|]. split; [now apply pmm_ok_stats|]. split; [exact Hs1|].
      intros b Hb Hpg. apply (Hno b); [dlia|exact Hpg].
Qed.

(** Counting in the page allocator: the recount of [VerifyFreeCount] and the
    counters [Init] starts with. *)

(** The words of a block give the number of its free pages. *)
Lemma block_free_ok g m b : arr_ok g m -> 0 <= b < total_l2_bits g -> block_free m b = Ok (nfree m (512 * b) 512).
Proof.
  intros Ha Hb. pose proof (a_l1 _ _ Ha) as A1. unfold nbits in A1. unfold block_free. consts. apply wp_eq.
  eapply wp_mono; [apply (wp_for_up (fun w cnt => cnt = nfree m (512 * b) (Z.to_nat (64 * w))))|].
  - intros w cnt Hw ->. rewrite get_total by lia. cbn [bind wp]. rewrite popcount_word by (apply Ha || lia).
    replace (Z.to_nat (64 * (w + 1))) with (Z.to_nat (64 * w) + 64)%nat by lia. unfold nfree. rewrite count_app. f_equal. f_equal. lia.
  - reflexivity.
  - intros cnt ->. reflexivity.
Qed.

Lemma full_block_none g m b : maps_ok g m -> 0 <= b < total_l2_bits g -> bitv (l2_map m) b = true -> nfree m (512 * b) 512 = 0.
Proof.
  intros [_ Hs] Hb Hbit. apply count_false. intros p Hp. apply (s_l2 _ _ Hs b Hb) with (p := p) in Hbit; [|lia].
  now rewrite Hbit.
Qed.

Lemma nfree_app m lo k1 k2 : nfree m lo (k1 + k2) = nfree m lo k1 + nfree m (lo + Z.of_nat k1) k2.
Proof. apply count_app. Qed.

(** Pages behind the last one are used. *)
Lemma nfree_tail g m lo k1 k2 : summary g m -> pages g <= lo + Z.of_nat k1 -> 0 <= lo -> lo + Z.of_nat k2 <= 512 * total_l2_bits g ->
  (k1 <= k2)%nat -> nfree m lo k2 = nfree m lo k1.
Proof.
  intros Hs H1 H0 H2 H3. replace k2 with (k1 + (k2 - k1))%nat by lia. rewrite nfree_app.
  enough (nfree m (lo + Z.of_nat k1) (k2 - k1) = 0) by lia. apply count_false. intros p Hp. rewrite (s_out _ _ Hs) by lia. reflexivity.
Qed.

(** The recount agrees with the counter. *)
Lemma VerifyFreeCount_ok s : pmm_ok s -> VerifyFreeCount s = Ok (0, s).
Proof.
  intros H. pose proof (p_geo _ _ _ H) as Hg. pose proof (p_maps _ _ _ H) as Hm. pose proof (g_l2 _ Hg) as G2. pose proof (g_l3 _ Hg) as G3.
  pose proof (a_l2 _ _ (proj1 Hm)) as A2. pose proof (g_pages _ Hg) as G1. unfold VerifyFreeCount.
  assert (Hloop : forall k, 0 <= k <= total_l2_bits (geo s) -> nfree (maps s) 0 (Z.to_nat (512 * k)) < 2 ^ 64).
  { intros k Hk. pose proof (nfree_bound (maps s) 0 (Z.to_nat (512 * k))). lia. }
  assert (Hfor : for_up (Z.to_nat (total_l2_bits (geo s))) 0 (fun l2 '(recount, m) =>
      let* full := bit_test (l2_map m) l2 in
      if (full : bool) then Ok (recount, m)
      else let* m := ensure_l2_init (geo s) m l2 in let* cnt := block_free m l2 in Ok (u64 (recount + cnt), m)) (0, maps s)
    = Ok (all_free (geo s) (maps s), maps s)).
  { apply wp_eq. eapply wp_mono; [apply (wp_for_up (fun b '(recount, m) => m = maps s /\ recount = nfree (maps s) 0 (Z.to_nat (512 * b))))|].
    - intros b [recount m] Hb [-> ->].
      assert (Hnext : nfree (maps s) 0 (Z.to_nat (512 * (b + 1))) = nfree (maps s) 0 (Z.to_nat (512 * b)) + nfree (maps s) (512 * b) 512).
      { replace (Z.to_nat (512 * (b + 1))) with (Z.to_nat (512 * b) + 512)%nat by lia. rewrite nfree_app. do 2 f_equal. lia. }
      rewrite bit_test_ok by lia. cbn [bind]. destruct (bitv (l2_map (maps s)) b) eqn:E.
      + cbn [wp]. split; [reflexivity|]. rewrite Hnext, (full_block_none (geo s)) by (auto; lia). lia.
      + rewrite ensure_done by (auto; lia). cbn [bind]. rewrite (block_free_ok (geo s)) by (apply Hm || lia). cbn [bind wp].
        split; [reflexivity|]. rewrite <- Hnext. apply u64_small. pose proof (nfree_bound (maps s) 0 (Z.to_nat (512 * (b + 1)))). split; [lia|apply Hloop; lia].
    - auto.
    - intros [recount m] [-> ->]. f_equal. unfold all_free. apply (nfree_tail (geo s)); [apply Hm|lia..]. }
  rewrite Hfor. cbn [bind]. pose proof (c_free _ _ _ (p_counts _ _ _ H)) as Hc. rewrite Z.add_0_r in Hc. rewrite Hc, Z.ltb_irrefl, Z.sub_diag.
  now destruct s.
Qed.

(** * The counters at the start *)

(** The free pages of shard [si] below page [x]. *)
Definition below (m : bitmaps) (si x : Z) : Z := nfree m (sh_lo si) (Z.to_nat (Z.max 0 (Z.min 524288 (x - sh_lo si)))).

Lemma below_step m b si : 0 <= b -> 0 <= si ->
  below m si (512 * (b + 1)) = below m si (512 * b) + (if b / 1024 =? si then nfree m (512 * b) 512 else 0).
Proof.
  intros Hb Hsi. unfold below, sh_lo. destruct (b / 1024 =? si) eqn:E; to_prop.
  - replace (Z.to_nat (Z.max 0 (Z.min 524288 (512 * (b + 1) - 524288 * si)))) with (Z.to_nat (512 * b - 524288 * si) + 512)%nat by dlia.
    replace (Z.to_nat (Z.max 0 (Z.min 524288 (512 * b - 524288 * si)))) with (Z.to_nat (512 * b - 524288 * si)) by dlia.
    rewrite nfree_app. do 2 f_equal. dlia.
  - rewrite Z.add_0_r. do 2 f_equal. dlia.
Qed.

Lemma count_free_ok g m : geo_ok g -> maps_ok g m ->
  wp (count_free g m (init_shard (pages g) <$> (Z.of_nat <$> seq 0 (Z.to_nat (total_l3_bits g))))) (fun '(ss, free) =>
    Z.of_nat (length ss) = total_l3_bits g /\ free = all_free g m /\
    forall si sh, ss !! Z.to_nat si = Some sh -> 0 <= si ->
      first_page sh = sh_lo si /\ npages sh = sh_len g si /\ sh_free sh = sh_nfree g m si).
Proof.
  intros Hg Hm. pose proof (g_l2 _ Hg) as G2. pose proof (g_l3 _ Hg) as G3. pose proof (g_pages _ Hg) as G1. pose proof (a_l2 _ _ (proj1 Hm)) as A2.
  unfold count_free.
  set (I := fun (b : Z) '((ss, free) : list pmm_shard * Z) =>
    Z.of_nat (length ss) = total_l3_bits g /\ free = nfree m 0 (Z.to_nat (512 * b)) /\
    forall si sh, ss !! Z.to_nat si = Some sh -> 0 <= si ->
      first_page sh = sh_lo si /\ npages sh = sh_len g si /\ sh_free sh = below m si (512 * b)).
  eapply wp_mono; [apply (wp_for_up I)|].
  - intros b [ss free] Hb (Hl & -> & Hss). rewrite bit_test_ok by lia. cbn [bind].
    assert (Hnext : nfree m 0 (Z.to_nat (512 * (b + 1))) = nfree m 0 (Z.to_nat (512 * b)) + nfree m (512 * b) 512).
    { replace (Z.to_nat (512 * (b + 1))) with (Z.to_nat (512 * b) + 512)%nat by lia. rewrite nfree_app. do 2 f_equal. lia. }
    pose proof (nfree_bound m (512 * b) 512) as B1. pose proof (nfree_bound m 0 (Z.to_nat (512 * b))) as B2.
    destruct (bitv (l2_map m) b) eqn:E.
    + pose proof (full_block_none g m b Hm ltac:(lia) E) as Hz. cbn [wp]. split; [exact Hl|]. split; [lia|]. intros si sh Hsh Hi.
      destruct (Hss si sh Hsh Hi) as (F1 & F2 & F3). split; [exact F1|]. split; [exact F2|]. rewrite below_step by lia. rewrite Hz. case_bool; lia.
    + rewrite (block_free_ok g) by (apply Hm || lia). cbn [bind]. consts. rewrite upd_ok by dlia. cbn [bind wp].
      assert (Hsz : forall si, below m si (512 * b) + nfree m (512 * b) 512 < 2 ^ 64).
      { intros si. unfold below. pose proof (nfree_bound m (sh_lo si) (Z.to_nat (Z.max 0 (Z.min 524288 (512 * b - sh_lo si))))). lia. }
      split; [now rewrite length_insert|]. split; [rewrite Hnext; apply u64_small; lia|].
      intros si sh Hsh Hi. rewrite below_step by lia. destruct (b / 1024 =? si) eqn:Esi; to_prop.
      * subst si. assert (Hlt : (Z.to_nat (b / 1024) < length ss)%nat) by dlia. rewrite list_lookup_insert_eq in Hsh by exact Hlt.
        injection Hsh as <-. destruct (lookup_lt_is_Some_2 ss _ Hlt) as [sh0 Hsh0]. rewrite (list_lookup_total_correct _ _ _ Hsh0).
        destruct (Hss _ _ Hsh0 Hi) as (F1 & F2 & F3). simpl. split; [exact F1|]. split; [exact F2|]. rewrite F3.
        specialize (Hsz (b / 1024)). unfold below in *. pose proof (nfree_bound m (sh_lo (b / 1024)) (Z.to_nat (Z.max 0 (Z.min 524288 (512 * b - sh_lo (b / 1024)))))).
        apply u64_small. lia.
      * rewrite list_lookup_insert_ne in Hsh by dlia. rewrite Z.add_0_r. now apply Hss.
  - split; [rewrite !length_fmap, length_seq; lia|]. split; [reflexivity|]. intros si sh Hsh Hi.
    rewrite !list_lookup_fmap in Hsh. pose proof Hsh as Hsh'. destruct (seq 0 (Z.to_nat (total_l3_bits g)) !! Z.to_nat si) as [j|] eqn:Ej; [|discriminate].
    apply lookup_seq in Ej as [-> Hj]. simpl in Hsh. injection Hsh as <-. rewrite Z2Nat.id by exact Hi. unfold init_shard. consts. simpl.
    unfold sh_lo, sh_len, below. split; [lia|]. split; [unfold sh_lo; case_bool; to_prop; lia|].
    replace (Z.to_nat _) with 0%nat; [reflexivity|]. unfold sh_lo. lia.
  - intros [ss free] (Hl & -> & Hss). split; [exact Hl|]. split.
    + unfold all_free. apply (nfree_tail g); [apply Hm|lia..].
    + intros si sh Hsh Hi. destruct (Hss si sh Hsh Hi) as (F1 & F2 & F3). split; [exact F1|]. split; [exact F2|]. rewrite F3.
      apply lookup_lt_Some in Hsh. pose proof (sh_len_pos g si Hg ltac:(lia)) as Hlen. unfold below, sh_nfree.
      destruct (Z.eq_dec (sh_len g si) 524288) as [E|E].
      * do 2 f_equal. unfold sh_len, sh_lo in *. lia.
      * unfold sh_len, sh_lo in *. apply (nfree_tail g); [apply Hm|lia..].
Qed.
