(* ===== verification/PMMInit.v ===== *)
(** Initialisation of the page allocator: the state [Init] builds from the memory
    map is consistent, and exactly the usable pages that are not reserved are
    free. *)
From stdpp Require Import base list.
From Stdlib Require Import ZArith Lia.
From S2P Require Import Prelude Words PMM PMMBits PMMInv PMMScan PMMState PMMFree.

Open Scope Z_scope.
Open Scope c_scope.

(** * What the memory map says of a page *)

(** Page [p] lies inside a usable entry. *)
Definition usable_page (es : list memmap_entry) (p : Z) : bool :=
  existsb (fun e => is_usable e && (e_base e <=? 4096 * p) && (4096 * (p + 1) <=? e_end e)) es.

(** The pages an entry of the boot loader covers. *)
Definition reserved_first (e : memmap_entry) : Z := e_base e / 4096.
Definition reserved_last (g : geometry) (e : memmap_entry) : Z :=
  Z.min (pages g) (reserved_first e + (e_length e + 4095) / 4096).

Definition reserved_page (g : geometry) (es : list memmap_entry) (p : Z) : bool :=
  existsb (fun e => is_reclaimable e && inr_ (reserved_first e) (reserved_last g e) p) es.

(** Entries do not reach the last page of the address space, and the bitmaps
    cover the usable ones. *)
Record entry_ok (g : geometry) (e : memmap_entry) : Prop := {
  eo_base : 0 <= e_base e;
  eo_len : 0 <= e_length e;
  eo_end : e_base e + e_length e <= 2 ^ 64 - 4096;
  eo_pages : is_usable e = true -> e_base e + e_length e <= 4096 * pages g
}.

Lemma e_end_ok g e : entry_ok g e -> e_end e = e_base e + e_length e.
Proof. intros [H1 H2 H3 _]. unfold e_end. apply u64_small. lia. Qed.

Lemma usable_page_pages g es p : Forall (entry_ok g) es -> usable_page es p = true -> p < pages g.
Proof.
  intros Hes Hp. unfold usable_page in Hp. apply existsb_exists in Hp as (e & He & Hp). to_prop.
  apply list_elem_of_In in He. rewrite Forall_forall in Hes. specialize (Hes e He). rewrite (e_end_ok g) in * by exact Hes.
  pose proof (eo_pages _ _ Hes ltac:(assumption)). lia.
Qed.

(** * Populating a block *)

Lemma land_page x : word x -> Z.land x (not64 (PAGE_SIZE - 1)) = 4096 * (x / 4096).
Proof.
  intros Hx. replace (4096 * (x / 4096)) with (Z.shiftl (Z.shiftr x 12) 12) by (rewrite Z.shiftl_mul_pow2, Z.shiftr_div_pow2 by lia; change (2 ^ 12) with 4096; lia).
  apply Z.bits_inj'. intros i Hi. rewrite Z.land_spec, Z.shiftl_spec by lia. destruct (Z.lt_ge_cases i 64) as [Hlt|Hge].
  - rewrite not64_bit by lia. change (PAGE_SIZE - 1) with (Z.ones 12). rewrite Z.testbit_ones_nonneg by lia.
    destruct (i <? 12) eqn:E; to_prop; simpl.
    + rewrite andb_false_r, Z.testbit_neg_r by lia. reflexivity.
    + rewrite Z.shiftr_spec by lia. replace (i - 12 + 12) with i by lia. apply andb_true_r.
  - rewrite (word_bit_high x) by assumption. rewrite Z.shiftr_spec by lia. replace (i - 12 + 12) with i by lia. rewrite (word_bit_high x) by assumption. reflexivity.
Qed.

Lemma clear_entry_ok g l1 b e : entry_ok g e -> Forall word l1 -> 0 <= b -> 512 * (b + 1) <= nbits l1 -> 512 * (b + 1) < 2 ^ 53 ->
  exists l1', clear_entry (b * L2_SIZE) (b * L2_SIZE + L2_SIZE) l1 e = Ok l1' /\
    becomes l1 l1' (fun p => negb (inr_ (512 * b) (512 * (b + 1)) p && usable_page [e] p) && bitv l1 p).
Proof.
  intros He Hw Hb Hn Hsm. unfold clear_entry. change L2_SIZE with 2097152. rewrite (e_end_ok g) by exact He.
  pose proof He as [H1 H2 H3 H4].
  assert (Hp : forall p, usable_page [e] p = is_usable e && (e_base e <=? 4096 * p) && (4096 * (p + 1) <=? e_base e + e_length e)).
  { intros p. unfold usable_page. simpl. rewrite orb_false_r, (e_end_ok g) by exact He. reflexivity. }
  assert (Hsame : (forall p, 512 * b <= p < 512 * (b + 1) -> usable_page [e] p = false) ->
    becomes l1 l1 (fun p => negb (inr_ (512 * b) (512 * (b + 1)) p && usable_page [e] p) && bitv l1 p)).
  { intros H. split; [reflexivity|exact Hw|]. intros p Hpr. inr_case; [rewrite H by lia|]; reflexivity. }
  destruct (is_usable e) eqn:Eu; cbn [negb].
  2:{ exists l1. split; [reflexivity|]. apply Hsame. intros p _. now rewrite Hp. }
  destruct (_ || _) eqn:E.
  { exists l1. split; [reflexivity|]. apply Hsame. intros p Hpr. rewrite Hp. apply orb_prop in E.
    destruct (e_base e <=? 4096 * p) eqn:E1; [|reflexivity]. simpl. apply Z.leb_gt. destruct E as [E|E]; to_prop; lia. }
  to_prop. set (s0 := if b * 2097152 <? e_base e then e_base e else b * 2097152).
  set (t0 := if e_base e + e_length e <? b * 2097152 + 2097152 then e_base e + e_length e else b * 2097152 + 2097152).
  assert (Hs0 : s0 = Z.max (e_base e) (b * 2097152)) by (unfold s0; case_bool; to_prop; lia).
  assert (Ht0 : t0 = Z.min (e_base e + e_length e) (b * 2097152 + 2097152)) by (unfold t0; case_bool; to_prop; lia).
  clearbody s0 t0. change (s0 + PAGE_SIZE - 1) with (s0 + 4096 - 1). rewrite (u64_small (s0 + 4096 - 1)) by lia.
  rewrite !land_page by (unfold word; lia). change PAGE_SIZE with 4096.
  replace (4096 * ((s0 + 4096 - 1) / 4096) / 4096) with ((s0 + 4096 - 1) / 4096) by dlia. replace (4096 * (t0 / 4096) / 4096) with (t0 / 4096) by dlia.
  assert (Hin : forall p, inr_ ((s0 + 4096 - 1) / 4096) (t0 / 4096) p = inr_ (512 * b) (512 * (b + 1)) p && usable_page [e] p).
  { intros p. rewrite Hp. simpl. inr_case; repeat case_bool; destruct (e_base e <=? 4096 * p) eqn:E1, (4096 * (p + 1) <=? e_base e + e_length e) eqn:E2;
      to_prop; try reflexivity; exfalso; dlia. }
  destruct (_ <? _) eqn:Elt; to_prop.
  - destruct (bits_clear_ok l1 ((s0 + 4096 - 1) / 4096) (t0 / 4096)) as (l1' & -> & H'); [exact Hw|dlia|dlia|].
    exists l1'. split; [reflexivity|]. eapply becomes_ext; [exact H'|]. intros p _. simpl. now rewrite Hin.
  - exists l1. split; [reflexivity|]. apply Hsame. intros p Hpr. specialize (Hin p).
    destruct (inr_ (512 * b) (512 * (b + 1)) p) eqn:E1; inr_case; [|lia]. rewrite andb_true_l in Hin. rewrite <- Hin. apply inr_false. dlia.
Qed.

Lemma usable_page_cons e es p : usable_page (e :: es) p = usable_page [e] p || usable_page es p.
Proof. unfold usable_page. simpl. now rewrite orb_false_r. Qed.

Lemma clear_entries_ok g l1 b es : Forall (entry_ok g) es -> Forall word l1 -> 0 <= b -> 512 * (b + 1) <= nbits l1 -> 512 * (b + 1) < 2 ^ 53 ->
  exists l1', clear_entries (b * L2_SIZE) (b * L2_SIZE + L2_SIZE) l1 es = Ok l1' /\
    becomes l1 l1' (fun p => negb (inr_ (512 * b) (512 * (b + 1)) p && usable_page es p) && bitv l1 p).
Proof.
  intros Hes. revert l1. induction Hes as [|e es He Hes IH]; intros l1 Hw Hb Hn Hsm; cbn [clear_entries].
  { exists l1. split; [reflexivity|]. split; [reflexivity|exact Hw|]. intros p Hp. now rewrite andb_false_r. }
  destruct (clear_entry_ok g l1 b e He Hw Hb Hn Hsm) as (l1a & -> & Ha). cbn [bind]. pose proof (becomes_nbits _ _ _ Ha) as En.
  destruct (IH l1a) as (l1b & -> & Hb'); [apply Ha|exact Hb|lia|exact Hsm|]. exists l1b. split; [reflexivity|].
  apply (becomes_ext _ _ _ _ (becomes_trans _ _ _ _ _ Ha Hb')). intros p Hp. cbv beta. rewrite (bec_bit _ _ _ Ha) by exact Hp.
  rewrite (usable_page_cons e es p). destruct (inr_ _ _ p), (usable_page [e] p), (usable_page es p), (bitv l1 p); reflexivity.
Qed.

(** * The bitmaps while [Init] runs *)

Section Boot.
Context (g : geometry).
Hypothesis Hg : geo_ok g.
Hypothesis Hes : Forall (entry_ok g) (pmm_memmap g).

(** Populated blocks hold what the map says and the reservations [R] so far;
    there are none in other blocks. *)
Record boot (m : bitmaps) (R : Z -> bool) : Prop := {
  b_arr : arr_ok g m;
  b_out : forall b, total_l2_bits g <= b < 1024 * total_l3_bits g -> bitv (l2_map m) b = true;
  b_page : forall b p, 0 <= b < total_l2_bits g -> bitv (init_map m) b = true -> 512 * b <= p < 512 * (b + 1) ->
    used m p = negb (usable_page (pmm_memmap g) p) || R p;
  b_none : forall b p, 0 <= b < total_l2_bits g -> bitv (init_map m) b = false -> 512 * b <= p < 512 * (b + 1) -> R p = false
}.

(** A step that keeps the populated blocks. *)
Definition keeps (m m' : bitmaps) : Prop := forall b, 0 <= b < total_l2_bits g -> bitv (init_map m) b = true -> bitv (init_map m') b = true.

Lemma ensure_boot m R b : boot m R -> 0 <= b < total_l2_bits g ->
  wp (ensure_l2_init g m b) (fun m' => boot m' R /\ keeps m m' /\ bitv (init_map m') b = true /\ l2_map m' = l2_map m /\ l3_map m' = l3_map m).
Proof.
  intros Hm Hb. pose proof (g_l2 _ Hg) as G2. pose proof (g_pages _ Hg) as G1. destruct Hm as [Ha Ho Hp Hn]. unfold ensure_l2_init.
  pose proof (a_init _ _ Ha) as Ai. pose proof (a_l1 _ _ Ha) as A1. rewrite bit_test_ok by lia. cbn [bind].
  destruct (bitv (init_map m) b) eqn:E. { cbn [wp]. split; [now split|]. split; [intros x; auto|]. auto. }
  consts. unfold nbits in A1.
  assert (Hfill : wp (for_up (Z.to_nat 8) 0 (fun i l1 => put l1 (b * 8 + i) ALL) (l1_map m)) (fun l1 =>
    becomes (l1_map m) l1 (fun p => inr_ (512 * b) (512 * (b + 1)) p || bitv (l1_map m) p))).
  { eapply wp_mono; [apply (wp_for_up (fun i l1 => becomes (l1_map m) l1 (fun p => inr_ (512 * b) (512 * b + 64 * i) p || bitv (l1_map m) p)))|].
    - intros i l1 Hi H1. pose proof (bec_len _ _ _ H1) as El. rewrite put_okZ by lia. cbn [wp]. split; [now rewrite length_insert| |].
      + apply Forall_insert; [apply H1|apply ALL_word].
      + intros p Hp'. rewrite bitv_insert by lia. pose proof (Z.mod_pos_bound p 64 ltac:(lia)). destruct (p / 64 =? b * 8 + i) eqn:E'; to_prop.
        * rewrite ALL_bit by lia. assert (p mod 64 <? 64 = true) as -> by (apply Z.ltb_lt; lia). inr_case; [reflexivity|dlia].
        * rewrite (bec_bit _ _ _ H1) by exact Hp'. f_equal. inr_case; try reflexivity; exfalso; dlia.
    - split; [reflexivity|apply Ha|]. intros p Hp'. inr_case; [lia|reflexivity].
    - intros l1 H1. eapply becomes_ext; [exact H1|]. intros p _. simpl. f_equal. inr_case; try reflexivity; lia. }
  apply wp_bind. eapply wp_mono; [exact Hfill|]. intros l1 H1. pose proof (becomes_nbits _ _ _ H1) as En.
  destruct (clear_entries_ok g l1 b (pmm_memmap g) Hes) as (l1' & -> & H2); [apply H1|lia|rewrite En; unfold nbits; lia|lia|]. cbn [bind].
  destruct (bit_set_ok (init_map m) b) as (im & -> & H3); [apply Ha|lia|]. cbn [bind wp].
  pose proof (becomes_trans _ _ _ _ _ H1 H2) as H12.
  assert (Hu : forall p, 0 <= p < 512 * total_l2_bits g -> bitv l1' p = if inr_ (512 * b) (512 * (b + 1)) p then negb (usable_page (pmm_memmap g) p) else used m p).
  { intros p Hp'. rewrite (bec_bit _ _ _ H12), (bec_bit _ _ _ H1) by (unfold nbits; lia). unfold used. inr_case; simpl; [now rewrite andb_true_r|reflexivity]. }
  split; [|split; [|split; [|split; reflexivity]]].
  - split; simpl.
    + apply (arr_set_init _ _ _ _ (arr_set_l1 _ _ _ _ Ha H12) H3).
    + exact Ho.
    + intros b' p Hb' Hbit Hp'. unfold used. simpl. rewrite Hu by lia. inr_case.
      * rewrite (Hn b p), orb_false_r by (auto; lia). reflexivity.
      * apply (Hp b'); auto. rewrite (bec_bit _ _ _ H3) in Hbit by lia. destruct (b' =? b) eqn:Eb; to_prop; [subst; lia|now destruct Hbit].
    + intros b' p Hb' Hbit Hp'. apply (Hn b' p); auto. rewrite (bec_bit _ _ _ H3) in Hbit by lia. apply orb_false_iff in Hbit. tauto.
  - intros b' Hb' Hbit. simpl. rewrite (bec_bit _ _ _ H3), Hbit by lia. apply orb_true_r.
  - simpl. rewrite (bec_bit _ _ _ H3), Z.eqb_refl by lia. reflexivity.
Qed.

Lemma boot_ext m R R' : boot m R -> (forall p, 0 <= p < 512 * total_l2_bits g -> R p = R' p) -> boot m R'.
Proof.
  intros [Ha Ho Hp Hn] HR. split; auto.
  - intros b p Hb Hbit Hpr. rewrite <- HR by lia. now apply (Hp b).
  - intros b p Hb Hbit Hpr. rewrite <- HR by lia. now apply (Hn b).
Qed.

(** Setting the 2 GiB bits changes nothing else. *)
Lemma boot_l3 m R l3 f : boot m R -> becomes (l3_map m) l3 f -> boot (set_l3 l3 m) R.
Proof. intros [Ha Ho Hp Hn] H. split; auto. eauto with cdb. Qed.

(** Setting the 2 MiB bit of a block that exists. *)
Lemma boot_l2 m R l2 f : boot m R -> becomes (l2_map m) l2 f ->
  (forall b, total_l2_bits g <= b < 1024 * total_l3_bits g -> f b = bitv (l2_map m) b) -> boot (set_l2 l2 m) R.
Proof.
  intros [Ha Ho Hp Hn] H Hf. pose proof (a_l2 _ _ Ha). pose proof (g_l3 _ Hg). pose proof (g_l2 _ Hg). pose proof (g_pages _ Hg).
  split; auto; [eauto with cdb|]. intros b Hb. simpl. rewrite (bec_bit _ _ _ H) by lia. rewrite Hf by exact Hb. auto.
Qed.

Lemma mark_block_boot m R b lo hi : boot m R -> 0 <= b < total_l2_bits g -> 512 * b <= lo -> hi <= 512 * (b + 1) ->
  wp (mark_block_allocated g b lo hi m) (fun m' => boot m' (fun p => inr_ lo hi p || R p)).
Proof.
  intros Hm Hb Hlo Hhi. pose proof (g_l3 _ Hg) as G3. unfold mark_block_allocated. apply wp_bind.
  eapply wp_mono; [apply (ensure_boot m R b Hm Hb)|]. intros m1 (Hm1 & _ & Hbit & _ & _). pose proof Hm1 as [Ha Ho Hp Hn].
  pose proof (a_l1 _ _ Ha) as A1. pose proof (a_l2 _ _ Ha) as A2.
  destruct (bits_set_ok (l1_map m1) lo hi) as (l1 & -> & H1); [apply Ha|lia..|]. cbn [bind].
  assert (Hm2 : boot (set_l1 l1 m1) (fun p => inr_ lo hi p || R p)).
  { split; simpl; auto; [eauto with cdb| |].
    - intros b' p Hb' Hbit' Hpr. unfold used. simpl. rewrite (bec_bit _ _ _ H1) by lia. fold (used m1 p). rewrite (Hp b') by auto.
      destruct (usable_page _ p), (inr_ lo hi p), (R p); reflexivity.
    - intros b' p Hb' Hbit' Hpr. rewrite (Hn b' p) by auto. rewrite orb_false_r. apply inr_false. intros Hin.
      assert (b' = b) by lia. congruence. }
  destruct (l2_block_full_ok g (set_l1 l1 m1) b (b_arr _ _ Hm2) Hb) as (full & -> & _). cbn [bind]. destruct full; [|exact Hm2].
  destruct (bit_set_ok (l2_map (set_l1 l1 m1)) b) as (l2 & -> & H2); [apply Ha|simpl; lia|]. cbn [bind].
  assert (Hm3 : boot (set_l2 l2 (set_l1 l1 m1)) (fun p => inr_ lo hi p || R p)).
  { apply (boot_l2 _ _ _ _ Hm2 H2). intros b' Hb'. assert (b' =? b = false) as -> by (apply Z.eqb_neq; lia). reflexivity. }
  eapply wp_mono; [apply (l2_full_propagate_ok g); [apply Hm3|lia]|]. intros m' (l3 & -> & Ha3 & _).
  destruct Hm3 as [? ? ? ?]. now split.
Qed.

Lemma mark_boot m R start n : boot m R -> 0 <= start -> 1 <= n -> start + n <= pages g ->
  wp (mark_allocated g m start n) (fun m' => boot m' (fun p => inr_ start (start + n) p || R p)).
Proof.
  intros Hm Hs Hn He. pose proof (g_l2 _ Hg) as G2. unfold mark_allocated. consts. set (e := start + n) in *.
  assert (Hfl : start / 512 <= (e - 1) / 512) by (apply Z.div_le_mono; lia).
  assert (Hel : (e - 1) / 512 < total_l2_bits g) by dlia. assert (Hs0 : 0 <= start / 512) by dlia.
  eapply wp_mono; [apply (wp_for_up (fun l2 m' => boot m' (fun p => inr_ start (Z.min e (Z.max start (512 * l2))) p || R p)))|].
  - intros l2 m1 Hl Hm1. destruct (block_parts start e l2) as (B1 & B2 & B3 & B4); [lia..|].
    eapply wp_mono; [eapply (mark_block_boot m1 _ l2); [exact Hm1|lia|lia|lia]|].
    intros m2 Hm2. eapply boot_ext; [exact Hm2|]. intros p Hp. cbv beta. rewrite orb_assoc. f_equal.
    inr_case; try reflexivity; exfalso; lia.
  - eapply boot_ext; [exact Hm|]. intros p Hp. inr_case; [dlia|reflexivity].
  - intros m' Hm'. eapply boot_ext; [exact Hm'|]. intros p Hp. cbv beta. f_equal. inr_case; try reflexivity; exfalso; dlia.
Qed.

Lemma reserve_entry_boot m R e : boot m R -> entry_ok g e ->
  wp (reserve_entry g m e) (fun m' => boot m' (fun p => reserved_page g [e] p || R p)).
Proof.
  intros Hm He. unfold reserve_entry. pose proof He as [H1 H2 H3 _]. fold (pages g).
  assert (Hr : forall p, reserved_page g [e] p = is_reclaimable e && inr_ (reserved_first e) (reserved_last g e) p)
    by (intros p; unfold reserved_page; simpl; now rewrite orb_false_r).
  destruct (is_reclaimable e) eqn:Er; simpl negb; cbn [orb].
  2:{ cbn [wp]. eapply boot_ext; [exact Hm|]. intros p _. now rewrite Hr. }
  unfold reserved_first, reserved_last in *.
  destruct (e_length e =? 0) eqn:El; to_prop.
  { cbn [wp]. eapply boot_ext; [exact Hm|]. intros p _. rewrite Hr, El. unfold reserved_first. simpl. inr_case; [dlia|reflexivity]. }
  rewrite !Z.shiftr_div_pow2 by lia. change (2 ^ 12) with 4096. change PAGE_SIZE with 4096. rewrite (u64_small (e_length e + 4096 - 1)) by lia.
  destruct (pages g <=? e_base e / 4096) eqn:Ep; to_prop.
  { cbn [wp]. eapply boot_ext; [exact Hm|]. intros p _. rewrite Hr. simpl. inr_case; [unfold reserved_first in *; lia|reflexivity]. }
  replace (e_length e + 4096 - 1) with (e_length e + 4095) by lia.
  set (n := if pages g - e_base e / 4096 <? (e_length e + 4095) / 4096 then pages g - e_base e / 4096 else (e_length e + 4095) / 4096).
  assert (Hn : n = Z.min (pages g - e_base e / 4096) ((e_length e + 4095) / 4096)) by (unfold n; case_bool; to_prop; lia). clearbody n.
  eapply wp_mono; [apply (mark_boot m R); [exact Hm|dlia|dlia|lia]|]. intros m' Hm'. eapply boot_ext; [exact Hm'|].
  intros p _. cbv beta. f_equal. rewrite Hr. simpl. unfold reserved_first. f_equal. lia.
Qed.

Lemma reserve_boot m R es : boot m R -> Forall (entry_ok g) es ->
  wp (reserve_bootloader_memory g m es) (fun m' => boot m' (fun p => reserved_page g es p || R p)).
Proof.
  intros Hm Hes'. revert m R Hm. induction Hes' as [|e es' He Hes' IH]; intros m R Hm; cbn [reserve_bootloader_memory]; [exact Hm|].
  apply wp_bind. eapply wp_mono; [apply (reserve_entry_boot m R e Hm He)|]. intros m1 Hm1.
  eapply wp_mono; [apply (IH m1 _ Hm1)|]. intros m2 Hm2. eapply boot_ext; [exact Hm2|]. intros p _.
  unfold reserved_page. simpl. rewrite orb_false_r. destruct (is_reclaimable e && _), (existsb _ es'), (R p); reflexivity.
Qed.

(** After the pass over the blocks everything is populated and the 2 MiB bits
    are right. *)
Lemma rebuild_l2_ok m R : boot m R -> wp (rebuild_l2 g m) (fun m' => boot m' R /\ forall b, 0 <= b < total_l2_bits g ->
  bitv (init_map m') b = true /\ (bitv (l2_map m') b = true <-> forall p, 512 * b <= p < 512 * (b + 1) -> used m' p = true)).
Proof.
  intros Hm. pose proof (g_l3 _ Hg) as G3. pose proof (g_l2 _ Hg) as G2. pose proof (g_pages _ Hg) as G1. unfold rebuild_l2.
  set (done := fun m' b => bitv (init_map m') b = true /\ (bitv (l2_map m') b = true <-> forall p, 512 * b <= p < 512 * (b + 1) -> used m' p = true)).
  eapply wp_mono; [apply (wp_for_up (fun k m' => boot m' R /\ forall b, 0 <= b < k -> done m' b))|].
  - intros k m1 Hk [Hm1 Hd1]. apply wp_bind. eapply wp_mono; [apply (ensure_boot m1 R k Hm1); lia|].
    intros m2 (Hm2 & Hkeep & Hbit & E2 & E3). pose proof (b_arr _ _ Hm2) as Ha2. pose proof (a_l2 _ _ Ha2) as A2.
    assert (Hd2 : forall b, 0 <= b < k -> done m2 b).
    { intros b Hb. destruct (Hd1 b Hb) as [D1 D2]. split; [apply Hkeep; [lia|exact D1]|]. rewrite E2, D2.
      assert (Hsame : forall p, 512 * b <= p < 512 * (b + 1) -> used m2 p = used m1 p).
      { intros p Hp. rewrite (b_page _ _ Hm2 b p), (b_page _ _ Hm1 b p); auto; try lia. apply Hkeep; [lia|exact D1]. }
      split; intros H p Hp; specialize (H p Hp); rewrite Hsame in * by exact Hp; exact H. }
    destruct (l2_block_full_ok g m2 k Ha2 ltac:(lia)) as (full & -> & Hfull). cbn [bind].
    assert (Hset : exists l2m, (if full then bit_set (l2_map m2) k else bit_clear (l2_map m2) k) = Ok l2m /\
      becomes (l2_map m2) l2m (fun b => if b =? k then full else bitv (l2_map m2) b)).
    { destruct full.
      - destruct (bit_set_ok (l2_map m2) k) as (l2m & E & H); [apply Ha2|lia|]. exists l2m. split; [exact E|]. eapply becomes_ext; [exact H|].
        intros b _. simpl. now destruct (b =? k).
      - destruct (bit_clear_ok (l2_map m2) k) as (l2m & E & H); [apply Ha2|lia|]. exists l2m. split; [exact E|]. eapply becomes_ext; [exact H|].
        intros b _. simpl. now destruct (b =? k). }
    destruct Hset as (l2m & -> & Hl2). cbn [bind wp]. split.
    + apply (boot_l2 _ _ _ _ Hm2 Hl2). intros b Hb. assert (b =? k = false) as -> by (apply Z.eqb_neq; lia). reflexivity.
    + intros b Hb. unfold done. simpl. rewrite (bec_bit _ _ _ Hl2) by lia. destruct (b =? k) eqn:E; to_prop.
      * subst b. split; [exact Hbit|exact Hfull].
      * apply Hd2. lia.
  - split; [exact Hm|]. intros b Hb. lia.
  - intros m' [Hm' Hd]. split; [exact Hm'|]. intros b Hb. apply Hd. lia.
Qed.

(** The 2 GiB bits after a pass. *)
Lemma rebuild_l3_ok keep m : arr_ok g m -> wp (rebuild_l3 keep g m) (fun m' => exists l3, m' = set_l3 l3 m /\ arr_ok g m' /\
  (keep = false -> forall c, 0 <= c < total_l3_bits g -> (bitv l3 c = true <-> l3_full m c))).
Proof.
  intros Ha. unfold rebuild_l3.
  eapply wp_mono; [apply (wp_for_up (fun k m' => exists l3, m' = set_l3 l3 m /\ arr_ok g m' /\
    (keep = false -> forall c, 0 <= c < k -> (bitv l3 c = true <-> l3_full m c))))|].
  - intros k m1 Hk (l3 & -> & Ha1 & Hd). pose proof (a_l3 _ _ Ha1) as A3. simpl in A3.
    destruct (l3_words_ok g (set_l3 l3 m) k Ha1 ltac:(lia)) as (full & -> & Hfull). cbn [bind].
    assert (Hset : exists l3', (if full then (if keep then Ok (l3_map (set_l3 l3 m)) else bit_set (l3_map (set_l3 l3 m)) k) else bit_clear (l3_map (set_l3 l3 m)) k) = Ok l3' /\
      becomes l3 l3' (fun c => if (c =? k) && negb (full && keep) then full else bitv l3 c)).
    { simpl. destruct full; [destruct keep|].
      - exists l3. split; [reflexivity|]. split; [reflexivity|apply (a_w3 _ _ Ha1)|]. intros c _. now rewrite andb_false_r.
      - destruct (bit_set_ok l3 k) as (l3' & E & H); [apply (a_w3 _ _ Ha1)|lia|]. exists l3'. split; [exact E|]. eapply becomes_ext; [exact H|].
        intros c _. simpl. now destruct (c =? k).
      - destruct (bit_clear_ok l3 k) as (l3' & E & H); [apply (a_w3 _ _ Ha1)|lia|]. exists l3'. split; [exact E|]. eapply becomes_ext; [exact H|].
        intros c _. simpl. now destruct (c =? k). }
    destruct Hset as (l3' & -> & Hl3). cbn [bind wp]. exists l3'. split; [reflexivity|]. split; [apply (arr_set_l3 _ (set_l3 l3 m) _ _ Ha1 Hl3)|].
    intros -> c Hc. rewrite (bec_bit _ _ _ Hl3) by lia. rewrite andb_false_r, andb_true_r. destruct (c =? k) eqn:E; to_prop.
    + subst c. rewrite Hfull. reflexivity.
    + apply Hd; [reflexivity|lia].
  - exists (l3_map m). split; [now destruct m|]. split; [exact Ha|]. intros _ c Hc. lia.
  - intros m' (l3 & -> & Ha' & Hd). exists l3. split; [reflexivity|]. split; [exact Ha'|]. intros Hk c Hc. apply Hd; [exact Hk|lia].
Qed.

Lemma clear_l2_ok l2 es : Forall (entry_ok g) es -> Forall word l2 -> 1024 * total_l3_bits g <= nbits l2 ->
  (forall b, total_l2_bits g <= b < 1024 * total_l3_bits g -> bitv l2 b = true) ->
  exists l2', clear_l2_entries l2 es = Ok l2' /\ Forall word l2' /\ nbits l2' = nbits l2 /\
    forall b, total_l2_bits g <= b < 1024 * total_l3_bits g -> bitv l2' b = true.
Proof.
  pose proof (g_l3 _ Hg) as G3. pose proof (g_l2 _ Hg) as G2. pose proof (g_pages _ Hg) as G1.
  intros Hes'. revert l2. induction Hes' as [|e es' He Hes' IH]; intros l2 Hw Hn Hout; cbn [clear_l2_entries]; [eauto 6|].
  assert (H1 : exists l2', clear_l2_entry l2 e = Ok l2' /\ Forall word l2' /\ nbits l2' = nbits l2 /\
    forall b, total_l2_bits g <= b < 1024 * total_l3_bits g -> bitv l2' b = true).
  { unfold clear_l2_entry. destruct (_ || _) eqn:E; [eauto 6|]. to_prop. rewrite (e_end_ok g) in * by exact He. pose proof He as [E1 E2 E3 E4].
    specialize (E4 ltac:(assumption)). change L2_SIZE with 2097152.
    destruct (bits_clear_ok l2 (e_base e / 2097152) ((e_base e + e_length e - 1) / 2097152 + 1)) as (l2' & -> & H'); [exact Hw|dlia|dlia|].
    exists l2'. split; [reflexivity|]. split; [apply H'|]. split; [apply (becomes_nbits _ _ _ H')|]. intros b Hb.
    rewrite (bec_bit _ _ _ H'), Hout by lia. inr_case; [exfalso; dlia|reflexivity]. }
  destruct H1 as (l2' & -> & W & N & O). cbn [bind]. destruct (IH l2' W ltac:(lia) O) as (l2'' & -> & W' & N' & O').
  exists l2''. split; [reflexivity|]. split; [exact W'|]. split; [lia|exact O'].
Qed.
End Boot.

(** * The memory map *)

(** Entries as the boot loader gives them: none reaches the last page of the
    address space. *)
Definition raw_ok (e : memmap_entry) : Prop := 0 <= e_base e /\ 0 <= e_length e /\ e_base e + e_length e <= 2 ^ 64 - 4096.

Lemma truncate_ok e : raw_ok e -> raw_ok (truncate_entry e) /\ e_base (truncate_entry e) = e_base e /\ e_type (truncate_entry e) = e_type e /\
  e_length (truncate_entry e) <= e_length e /\ e_length (truncate_entry e) mod 4096 = 0.
Proof.
  intros (H1 & H2 & H3). unfold truncate_entry. assert (Z.land (e_length e) (PAGE_SIZE - 1) = e_length e mod 4096) as -> by exact (land_mask 12 (e_length e) ltac:(lia)).
  destruct (e_length e mod 4096 =? 0) eqn:E; to_prop; cbn [negb].
  - split; [now repeat split|]. split; [reflexivity|]. split; [reflexivity|]. split; [lia|exact E].
  - simpl. rewrite land_page by (unfold word; lia). unfold raw_ok. simpl.
    split; [split; [lia|]; split; dlia|]. split; [reflexivity|]. split; [reflexivity|]. split; dlia.
Qed.

Lemma max_top_ok counts es : Forall raw_ok es ->
  0 <= max_top counts es <= 2 ^ 64 - 4096 /\ forall e, e ∈ es -> counts e = true -> e_base e + e_length e <= max_top counts es.
Proof.
  intros Hes. unfold max_top.
  assert (Hgen : forall top, 0 <= top <= 2 ^ 64 - 4096 ->
    let r := foldl (fun top e => if counts e then (if top <? e_end e then e_end e else top) else top) top es in
    top <= r <= 2 ^ 64 - 4096 /\ forall e, e ∈ es -> counts e = true -> e_base e + e_length e <= r).
  { induction Hes as [|e es (H1 & H2 & H3) Hes IH]; intros top Ht; simpl; [split; [lia|intros e He; now apply not_elem_of_nil in He]|].
    assert (Ee : e_end e = e_base e + e_length e) by (apply u64_small; lia). rewrite Ee.
    set (top' := if counts e then (if top <? e_base e + e_length e then e_base e + e_length e else top) else top).
    assert (Ht' : top <= top' <= 2 ^ 64 - 4096 /\ (counts e = true -> e_base e + e_length e <= top')).
    { unfold top'. destruct (counts e); [case_bool; to_prop|]; split; lia || easy. }
    clearbody top'. destruct (IH top' ltac:(lia)) as [I1 I2]. split; [lia|]. intros x [->|Hx]%elem_of_cons Hc; [|auto].
    destruct Ht' as [_ Ht']. specialize (Ht' Hc). lia. }
  destruct (Hgen 0 ltac:(lia)) as [H1 H2]. split; [lia|exact H2].
Qed.

(** The highest end is the end of an entry. *)
Lemma max_top_attained counts es : Forall raw_ok es -> max_top counts es = 0 \/ exists e, e ∈ es /\ counts e = true /\ max_top counts es = e_base e + e_length e.
Proof.
  unfold max_top. intros Hes.
  assert (Hgen : forall top, let r := foldl (fun top e => if counts e then (if top <? e_end e then e_end e else top) else top) top es in
    r = top \/ exists e, e ∈ es /\ counts e = true /\ r = e_base e + e_length e); [|apply Hgen].
  induction Hes as [|e es (H1 & H2 & H3) Hes IH]; intros top; cbn [foldl]; [now left|].
  assert (Ee : e_end e = e_base e + e_length e) by (apply u64_small; lia).
  destruct (IH (if counts e then (if top <? e_end e then e_end e else top) else top)) as [->|(x & Hx & Hc & ->)]; [|right; exists x; split; [now apply list_elem_of_further|auto]].
  destruct (counts e) eqn:Ec; [|now left]. case_bool; [right; exists e; split; [apply list_elem_of_here|auto]|now left].
Qed.

Lemma max_phys_ok es : Forall raw_ok es -> 0 <= max_phys es <= 2 ^ 64 - 4096 /\ forall e, e ∈ es -> is_usable e = true -> e_base e + e_length e <= max_phys es.
Proof.
  intros Hes. unfold max_phys. destruct (max_top_ok is_usable es Hes) as [H1 H2]. destruct (max_top_ok (fun _ => true) es Hes) as [H3 H4].
  destruct (_ =? 0) eqn:E; auto.
Qed.

(** The entry that gives up its end for the bitmaps. *)
Definition cut (e : memmap_entry) (n : Z) : memmap_entry := Entry (e_base e) (e_length e - n) (e_type e).

(** An entry that cannot hold [n] bytes of bitmaps. *)
Definition too_small (n : Z) (e : memmap_entry) : Prop := is_usable e = true -> e_length e < n.

Lemma too_small_test n e : is_usable e && (n <=? e_length e) = false -> too_small n e.
Proof. intros E Hu. rewrite Hu in E. cbn [andb] in E. to_prop. lia. Qed.

Lemma place_meta_ok n es es' b : Forall raw_ok es -> 0 <= n -> place_meta n es = Some (es', b) ->
  exists X e Y, es = X ++ e :: Y /\ es' = X ++ cut e n :: Y /\ is_usable e = true /\ n <= e_length e /\ b = e_base e + (e_length e - n) /\ Forall (too_small n) X.
Proof.
  intros Hes Hn. revert es' b. induction Hes as [|e es He Hes IH]; intros es' b; simpl; [easy|].
  destruct (is_usable e && (n <=? e_length e)) eqn:E.
  - intros [= <- <-]. to_prop. exists [], e, es. destruct He as (H1 & H2 & H3). rewrite u64_small by lia. repeat split; auto.
  - destruct (place_meta n es) as [[es1 b1]|]; [|easy]. intros [= <- <-].
    destruct (IH es1 b1 eq_refl) as (X & e' & Y & -> & -> & H1 & H2 & H3 & H4). exists (e :: X), e', Y. repeat split; auto.
    constructor; [|exact H4]. now apply too_small_test.
Qed.

Lemma place_meta_none n es : place_meta n es = None -> Forall (too_small n) es.
Proof.
  induction es as [|e es IH]; cbn [place_meta]; [constructor|]. destruct (is_usable e && (n <=? e_length e)) eqn:E; [easy|].
  destruct (place_meta n es) as [[]|]; [easy|]. intros _. constructor; [now apply too_small_test|now apply IH].
Qed.

(** * Sizes *)

Lemma align_up_ok x : 0 <= x -> x <= ALIGN_UP x PAGE_SIZE /\ ALIGN_UP x PAGE_SIZE mod 4096 = 0.
Proof. intros Hx. unfold ALIGN_UP, DIV_ROUND_UP. consts. split; dlia. Qed.

Lemma words_nbits size v : 0 <= size -> size mod 4096 = 0 -> nbits (words size v) = 8 * size.
Proof. intros H1 H2. unfold nbits, words. rewrite length_replicate. dlia. Qed.

Lemma words_word size v : word v -> Forall word (words size v).
Proof. intros Hv. apply Forall_replicate, Hv. Qed.

Lemma words_bit size v b : 0 <= b < nbits (words size v) -> bitv (words size v) b = Z.testbit v (b mod 64).
Proof.
  intros Hb. apply bit_index in Hb. unfold bitv, words in *. rewrite length_replicate in Hb. rewrite lookup_total_replicate_2 by lia. reflexivity.
Qed.

Lemma init_geo_ok top es meta : 0 < top <= 2 ^ 64 - 4096 ->
  let pages := u64 (top + PAGE_SIZE - 1) / PAGE_SIZE in
  let l2_bits := (pages + L2_PAGES - 1) / L2_PAGES in
  let l3_bits := (l2_bits + L2_PER_L3 - 1) / L2_PER_L3 in
  geo_ok (Geometry pages l2_bits l3_bits es meta) /\ top <= 4096 * pages.
Proof.
  intros Ht. consts. rewrite u64_small by lia. cbv zeta. split; [|dlia]. split; unfold pages; simpl; dlia.
Qed.

(** * Init *)

(** The bitmaps at the end: everything follows from the populated pages. *)
Lemma boot_done g m R : geo_ok g -> Forall (entry_ok g) (pmm_memmap g) -> boot g m R ->
  (forall b, 0 <= b < total_l2_bits g ->
     bitv (init_map m) b = true /\ (bitv (l2_map m) b = true <-> forall p, 512 * b <= p < 512 * (b + 1) -> used m p = true)) ->
  (forall c, 0 <= c < total_l3_bits g -> (bitv (l3_map m) c = true <-> l3_full m c)) ->
  maps_ok g m /\ forall p, 0 <= p < 512 * total_l2_bits g -> used m p = negb (usable_page (pmm_memmap g) p) || R p.
Proof.
  intros Hg Hes Hm H2 H3. pose proof (g_pages _ Hg) as G1.
  assert (Hu : forall p, 0 <= p < 512 * total_l2_bits g -> used m p = negb (usable_page (pmm_memmap g) p) || R p).
  { intros p Hp. apply (b_page _ _ _ Hm (p / 512)); [dlia|apply H2; dlia|dlia]. }
  split; [|exact Hu]. split; [apply Hm|]. split.
  - intros b Hb. now apply H2.
  - intros b Hb. now apply H2.
  - apply (b_out _ _ _ Hm).
  - exact H3.
  - intros p Hp. rewrite Hu by lia. destruct (usable_page (pmm_memmap g) p) eqn:E; [|reflexivity].
    apply (usable_page_pages g) in E; [lia|exact Hes].
Qed.

(** The end of the usable memory, the pages up to there and the bytes their
    bitmaps take. *)
Definition usable_top (es : list memmap_entry) : Z := max_top is_usable es.
Definition bitmap_pages (top : Z) : Z := (top + 4095) / 4096.
Definition meta_size (top : Z) : Z := let l2 := (bitmap_pages top + 511) / 512 in total_meta l2 ((l2 + 1023) / 1024).

Lemma meta_size_pos top : 0 <= top -> 0 <= meta_size top /\ (0 < top -> 0 < meta_size top).
Proof.
  intros Ht. unfold meta_size, total_meta. cbv zeta. set (l2 := (bitmap_pages top + 511) / 512). set (l3 := (l2 + 1023) / 1024).
  assert (H2 : 0 <= l2 /\ (0 < top -> 0 < l2)) by (unfold l2, bitmap_pages; split; [|intros]; dlia). assert (H3 : 0 <= l3) by (unfold l3; dlia). clearbody l2 l3.
  unfold l1_map_size, l2_map_size, l3_map_size, init_map_size, shards_size. change L2_L1_WORDS with 8. change L3_L2_WORDS with 16.
  destruct (align_up_ok (l2 * 8 * 8)) as [A _]; [lia|]. destruct (align_up_ok (l3 * 16 * 8)) as [B _]; [lia|]. destruct (align_up_ok ((l3 + 63) / 64 * 8)) as [C _]; [dlia|].
  destruct (align_up_ok ((l2 + 63) / 64 * 8)) as [D _]; [dlia|]. destruct (align_up_ok (l3 * 64)) as [E _]; [lia|].
  assert (0 <= (l3 + 63) / 64 * 8) by dlia. assert (0 <= (l2 + 63) / 64 * 8) by dlia. lia.
Qed.

(** What a successful [Init] has made of the map [es]: the bitmaps end the first
    usable entry that can hold them. *)
Record init_state (es : list memmap_entry) (s : pmm) : Prop := {
  is_ok : pmm_ok s;
  is_pages : pages (geo s) = bitmap_pages (usable_top (truncate_entry <$> es));
  is_map : let n := meta_size (usable_top (truncate_entry <$> es)) in
    exists X e Y, truncate_entry <$> es = X ++ e :: Y /\ pmm_memmap (geo s) = X ++ cut e n :: Y /\ Forall (too_small n) X /\ is_usable e = true /\
    0 < n <= e_length e /\ meta_base (geo s) = e_base e + (e_length e - n);
  is_avail : forall p, avail s p <->
    0 < p < pages (geo s) /\ usable_page (pmm_memmap (geo s)) p = true /\ reserved_page (geo s) (pmm_memmap (geo s)) p = false
}.

(** No usable entry can hold the bitmaps. *)
Definition init_panics (es : list memmap_entry) : Prop :=
  Forall (fun e => is_usable e = true -> e_length e = 0 \/ e_length e < meta_size (usable_top (truncate_entry <$> es))) (truncate_entry <$> es).

Lemma no_usable es e : Forall raw_ok es -> usable_top es = 0 -> e ∈ es -> is_usable e = true -> e_length e = 0.
Proof.
  intros Hes E He Hu. destruct (max_top_ok is_usable es Hes) as [_ H]. specialize (H e He Hu). rewrite Forall_forall in Hes. destruct (Hes e He) as (H1 & H2 & _).
  unfold usable_top in E. lia.
Qed.

Lemma max_phys_usable es : usable_top es <> 0 -> max_phys es = usable_top es.
Proof. unfold max_phys, usable_top. cbv zeta. intros H. destruct (_ =? 0) eqn:E; to_prop; [contradiction|reflexivity]. Qed.

(** The two panics of [Init] are one. *)
Lemma panic_ok es : Forall raw_ok es -> max_phys es = 0 \/ Forall (too_small (meta_size (max_phys es))) es ->
  Forall (fun e => is_usable e = true -> e_length e = 0 \/ e_length e < meta_size (usable_top es)) es.
Proof.
  intros Hes H. apply Forall_forall. intros e He Hu. destruct (Z.eq_dec (usable_top es) 0) as [E|E]; [left; now apply (no_usable es)|right].
  rewrite (max_phys_usable es E) in H. destruct H as [H|H]; [contradiction|]. rewrite Forall_forall in H. now apply H.
Qed.

Lemma meta_size_eq top : 0 <= top <= 2 ^ 64 - 4096 ->
  let pages := u64 (top + PAGE_SIZE - 1) / PAGE_SIZE in
  let l2_bits := (pages + L2_PAGES - 1) / L2_PAGES in
  pages = bitmap_pages top /\ total_meta l2_bits ((l2_bits + L2_PER_L3 - 1) / L2_PER_L3) = meta_size top.
Proof.
  intros Ht. consts. cbv zeta. rewrite u64_small by lia. replace (top + 4096 - 1) with (top + 4095) by lia. unfold meta_size. fold (bitmap_pages top). split; [reflexivity|].
  cbv zeta. replace (bitmap_pages top + 512 - 1) with (bitmap_pages top + 511) by lia. set (l2 := _ / 512). now replace (l2 + 1024 - 1) with (l2 + 1023) by lia.
Qed.

Lemma start_boot g l2 : geo_ok g -> Forall word l2 -> 1024 * total_l3_bits g <= nbits l2 ->
  (forall b, total_l2_bits g <= b < 1024 * total_l3_bits g -> bitv l2 b = true) ->
  boot g (Bitmaps (words (l1_map_size (total_l2_bits g)) ALL) l2 (words (l3_map_size (total_l3_bits g)) ALL) (words (init_map_size (total_l2_bits g)) 0))
    (fun _ => false).
Proof.
  intros Hg Hw Hn Hout. pose proof (g_l3 _ Hg) as G3. pose proof (g_l2 _ Hg) as G2. pose proof (g_pages _ Hg) as G1.
  unfold l1_map_size, l3_map_size, init_map_size. consts.
  destruct (align_up_ok (total_l2_bits g * 8 * 8) ltac:(lia)) as [L1 M1].
  destruct (align_up_ok ((total_l3_bits g + 63) / 64 * 8) ltac:(dlia)) as [L3 M3].
  destruct (align_up_ok ((total_l2_bits g + 63) / 64 * 8) ltac:(dlia)) as [Li Mi]. consts.
  assert (Hi : total_l2_bits g <= nbits (words (ALIGN_UP ((total_l2_bits g + 63) / 64 * 8) 4096) 0)) by (rewrite words_nbits by (auto; dlia); dlia).
  split; simpl.
  - split; simpl; try exact Hw; try (apply words_word; (apply ALL_word || (unfold word; lia))); try exact Hn; try exact Hi;
      rewrite words_nbits by (auto; dlia); dlia.
  - exact Hout.
  - intros b p Hb Hbit. rewrite words_bit, Z.testbit_0_l in Hbit by lia. discriminate.
  - auto.
Qed.

Lemma Init_ok es ncpu : Forall raw_ok es -> wp (Init es ncpu) (fun r => match r with Some s => init_state es s | None => init_panics es end).
Proof.
  intros Hes0. unfold Init. set (es1 := truncate_entry <$> es).
  assert (Hes1 : Forall raw_ok es1) by (apply Forall_fmap; eapply Forall_impl; [exact Hes0|]; intros e He; apply (truncate_ok e He)).
  destruct (max_phys_ok es1 Hes1) as [Htop Hends]. destruct (max_phys es1 =? 0) eqn:E0; to_prop; [apply (panic_ok es1); auto|].
  destruct (init_geo_ok (max_phys es1) [] 0 ltac:(lia)) as [_ Hcover]. destruct (meta_size_eq (max_phys es1) Htop) as [Epg Emeta]. revert Hcover Epg Emeta. cbv zeta.
  set (pg := u64 (max_phys es1 + PAGE_SIZE - 1) / PAGE_SIZE). set (l2b := (pg + L2_PAGES - 1) / L2_PAGES). set (l3b := (l2b + L2_PER_L3 - 1) / L2_PER_L3).
  intros Hcover Epg Emeta. destruct (place_meta (total_meta l2b l3b) es1) as [[es2 meta]|] eqn:Epl; [|apply (panic_ok es1); [exact Hes1|right; rewrite <- Emeta; now apply place_meta_none]].
  destruct (init_geo_ok (max_phys es1) es2 meta ltac:(lia)) as [Hg _]. revert Hg. cbv zeta. fold pg l2b l3b. set (g := Geometry pg l2b l3b es2 meta). intros Hg.
  pose proof (g_l3 _ Hg) as G3. pose proof (g_l2 _ Hg) as G2. pose proof (g_pages _ Hg) as G1.
  destruct (meta_size_pos (max_phys es1) ltac:(lia)) as [Hmeta Hmeta']. specialize (Hmeta' ltac:(lia)). rewrite <- Emeta in Hmeta, Hmeta'.
  destruct (place_meta_ok _ _ _ _ Hes1 Hmeta Epl) as (X & e & Y & E1 & E2 & Eu & Hlen & Em & Hfirst).
  assert (Etop : max_phys es1 = usable_top es1).
  { apply max_phys_usable. intros E. enough (e_length e = 0) by lia. apply (no_usable es1); auto. rewrite E1. apply elem_of_app; right; apply elem_of_cons; auto. }
  assert (Hes : Forall (entry_ok g) es2).
  { assert (Hbase : forall x, x ∈ es1 -> entry_ok g x).
    { intros x Hx. rewrite Forall_forall in Hes1. destruct (Hes1 x Hx) as (B1 & B2 & B3). split; auto. intros Hux. specialize (Hends x Hx Hux). unfold pages. simpl. lia. }
    rewrite E2. rewrite E1 in Hbase. apply Forall_forall. intros x Hx. apply elem_of_app in Hx as [Hx|Hx]; [apply Hbase, elem_of_app; auto|].
    apply elem_of_cons in Hx as [->|Hx]; [|apply Hbase, elem_of_app; right; now apply elem_of_cons; right].
    destruct (Hbase e) as [B1 B2 B3 B4]; [apply elem_of_app; right; apply elem_of_cons; auto|]. specialize (B4 Eu). split; unfold cut; cbn [e_base e_length]; auto; intros; lia. }
  destruct (align_up_ok (l3b * 16 * 8) ltac:(simpl in *; lia)) as [L2 M2].
  assert (Hl2n : 1024 * total_l3_bits g <= nbits (words (l2_map_size l3b) ALL)).
  { unfold l2_map_size. consts. rewrite words_nbits by (auto; simpl in *; lia). simpl in *. lia. }
  destruct (clear_l2_ok g Hg (words (l2_map_size l3b) ALL) es2 Hes) as (l2 & -> & W2 & N2 & O2); [apply words_word, ALL_word|exact Hl2n| |].
  { intros b Hb. pose proof (Z.mod_pos_bound b 64 ltac:(lia)). rewrite words_bit, ALL_bit by (simpl in *; lia). apply Z.ltb_lt. lia. }
  cbn [bind]. pose proof (start_boot g l2 Hg W2 ltac:(lia) O2) as Hm0. simpl in Hm0. set (m0 := Bitmaps _ l2 _ _) in *.
  apply wp_bind. eapply wp_mono; [apply (rebuild_l3_ok g true m0), Hm0|]. intros m1 (l3 & -> & Ha1 & _).
  assert (Hm1 : boot g (set_l3 l3 m0) (fun _ => false)) by (destruct Hm0; now split).
  apply wp_bind. eapply wp_mono; [apply (mark_boot g Hg Hes _ _ 0 1 Hm1); lia|]. intros m2 Hm2.
  apply wp_bind. eapply wp_mono; [apply (reserve_boot g Hg Hes m2 _ es2 Hm2 Hes)|]. intros m3 Hm3.
  apply wp_bind. eapply wp_mono; [apply (rebuild_l2_ok g Hg Hes m3 _ Hm3)|]. intros m4 [Hm4 Hl2].
  apply wp_bind. eapply wp_mono; [apply (rebuild_l3_ok g false m4), Hm4|]. intros m5 (l3' & -> & Ha5 & Hl3).
  assert (Hm5 : boot g (set_l3 l3' m4) (fun p => reserved_page g es2 p || (inr_ 0 (0 + 1) p || false))) by (destruct Hm4; now split).
  destruct (boot_done g _ _ Hg Hes Hm5) as [Hmaps Hused]; [exact Hl2|exact (Hl3 eq_refl)|].
  set (m := set_l3 l3' m4) in *. clearbody m.
  apply wp_bind. eapply wp_mono; [apply (count_free_ok g m Hg Hmaps)|]. intros [ss free] (C1 & C2 & C3). cbn [wp].
  assert (Hz : used m 0 = true) by (rewrite Hused by (simpl in *; lia); rewrite !orb_true_iff; right; right; left; reflexivity).
  split.
  - split; simpl; auto; try lia.
    + split; simpl; auto; [|lia]. intros si sh Hsh Hi. rewrite Z.add_0_r. now apply C3.
    + split; simpl; [apply Forall_replicate; simpl; unfold PMM_PCP_MAX; lia| |].
      * replace (concat (replicate ncpu [])) with (@nil Z) by (clear; induction ncpu; simpl; auto). constructor.
      * replace (concat (replicate ncpu [])) with (@nil Z) by (clear; induction ncpu; simpl; auto). intros x Hx. now apply not_elem_of_nil in Hx.
  - fold es1. rewrite <- Etop. exact Epg.
  - cbv zeta. fold es1. rewrite <- Etop, <- Emeta. exists X, e, Y. cbn [geo pmm_memmap meta_base]. repeat split; auto; lia.
  - intros p. unfold avail. simpl. replace (concat (replicate ncpu [])) with (@nil Z) by (clear; induction ncpu; simpl; auto).
    rewrite elem_of_nil. fold g. split.
    + intros [[Hp Hu]|[]]. rewrite Hused in Hu by (simpl in *; lia). rewrite orb_false_r in Hu. apply orb_false_iff in Hu as [Hu1 Hu2].
      apply orb_false_iff in Hu2 as [Hu2 Hu3]. apply negb_false_iff in Hu1. inr_case. split; [lia|auto].
    + intros (Hp & Hu1 & Hu2). left. split; [lia|]. rewrite Hused by (simpl in *; lia). change (pmm_memmap g) with es2. rewrite Hu1, Hu2. simpl. rewrite orb_false_r. apply inr_false. lia.
Qed.
