(* ===== verification/PMMSpec.v ===== *)
(** What the page allocator promises: the theorems on [pmm.cpp] as a whole. *)
From stdpp Require Import base list.
From Stdlib Require Import ZArith Lia.
From S2P Require Import Prelude Words PMM PMMBits PMMInv PMMScan PMMState PMMAlloc PMMFree PMMInit.

Open Scope Z_scope.
Open Scope c_scope.

(** * An example machine *)

(** Pages 10-14 hold the bitmaps; pages 500-1023 and 1026-2047 are free. *)
Definition ex_map : list memmap_entry :=
  [Entry (10 * 4096) (5 * 4096) MEMMAP_USABLE; Entry (500 * 4096) (524 * 4096) MEMMAP_USABLE;
   Entry (1024 * 4096) (2 * 4096) MEMMAP_OTHER; Entry (1026 * 4096) (1022 * 4096) MEMMAP_USABLE].

Definition ex_pmm : pmm :=
  match Init ex_map 2 with
  | Ok (Some s) => s
  | _ => Pmm (Geometry 0 0 0 [] 0) (Bitmaps [] [] [] []) [] 0 0 0 [] (Stats 0 0 0 0)
  end.

Lemma ex_map_ok : Forall raw_ok ex_map.
Proof. repeat constructor; simpl; lia. Qed.

Lemma ex_init : Init ex_map 2 = Ok (Some ex_pmm).
Proof. vm_compute. reflexivity. Qed.

Lemma ex_ok : pmm_ok ex_pmm.
Proof. pose proof (Init_ok ex_map 2 ex_map_ok) as H. rewrite ex_init in H. apply H. Qed.

(** * The scanner *)

(** The search the scanner must agree with: every start in turn, every page of
    the run. *)
Fixpoint naive_scan (m : bitmaps) (n : Z) (k : nat) (q : Z) : Z :=
  match k with
  | O => NO_BIT
  | S k' => if forallb (fun i => negb (used m (q + Z.of_nat i))) (seq 0 (Z.to_nat n)) then q else naive_scan m n k' (q + 1)
  end.

Lemma run_free_forallb m q n : 0 <= n -> forallb (fun i => negb (used m (q + Z.of_nat i))) (seq 0 (Z.to_nat n)) = true <-> run_free m q (q + n).
Proof.
  intros Hn. rewrite forallb_forall. split.
  - intros H p Hp. specialize (H (Z.to_nat (p - q))). rewrite in_seq in H. specialize (H ltac:(lia)). apply negb_true_iff in H.
    now replace (q + Z.of_nat (Z.to_nat (p - q))) with p in H by lia.
  - intros H i Hi. rewrite in_seq in Hi. apply negb_true_iff. apply H. lia.
Qed.

Lemma naive_scan_found m n k q b : 0 <= n -> q <= b < q + Z.of_nat k -> run_free m b (b + n) -> (forall x, q <= x < b -> ~ run_free m x (x + n)) ->
  naive_scan m n k q = b.
Proof.
  intros Hn. revert q. induction k as [|k IH]; intros q Hb Hr Hno; [lia|]. cbn [naive_scan]. destruct (forallb _ _) eqn:E.
  - apply run_free_forallb in E; [|exact Hn]. destruct (Z.eq_dec q b); [assumption|]. exfalso. apply (Hno q); [lia|exact E].
  - apply IH; [|exact Hr|intros x Hx; apply Hno; lia]. destruct (Z.eq_dec q b) as [->|]; [|lia].
    apply run_free_forallb in Hr; [congruence|exact Hn].
Qed.

Lemma naive_scan_none m n k q : 0 <= n -> (forall x, q <= x < q + Z.of_nat k -> ~ run_free m x (x + n)) -> naive_scan m n k q = NO_BIT.
Proof.
  intros Hn. revert q. induction k as [|k IH]; intros q Hno; [reflexivity|]. cbn [naive_scan]. destruct (forallb _ _) eqn:E.
  - apply run_free_forallb in E; [|exact Hn]. exfalso. apply (Hno q); [lia|exact E].
  - apply IH. intros x Hx. apply Hno. lia.
Qed.

(** C19: [scan_for_run], with its jumps over full 2 GiB and 2 MiB blocks and its
    word-at-a-time steps, returns what a search of every start page by page
    returns, and leaves the bitmaps as they are. *)
Theorem scan_for_run_naive g m from to n : geo_ok g -> maps_ok g m -> 0 <= from -> to <= pages g -> 1 <= n ->
  scan_for_run g m from to n = Ok (naive_scan m n (Z.to_nat (to - n + 1 - from)) from, m).
Proof.
  intros Hg Hm Hf Ht Hn. pose proof (scan_for_run_ok g m from to n Hg Hm Hf Ht Hn) as H. apply wp_ex in H as ([b m'] & -> & -> & [[-> Hno]|[_ (F1 & F2 & F3 & F4)]]).
  - rewrite naive_scan_none; [reflexivity|lia|]. intros x Hx. apply Hno; lia.
  - rewrite (naive_scan_found m n _ from b); [reflexivity|lia|lia|exact F3|]. intros x Hx. apply F4; lia.
Qed.

Lemma scan_for_run_naive_witness :
  scan_for_run (geo ex_pmm) (maps ex_pmm) 0 2048 600 = Ok (naive_scan (maps ex_pmm) 600 1449 0, maps ex_pmm).
Proof. apply (scan_for_run_naive (geo ex_pmm) (maps ex_pmm) 0 2048 600); [apply ex_ok|apply ex_ok|vm_compute; congruence..]. Defined.

(** * Requests and frees *)

(** C16: [Request] returns; on success the block was available, is not page 0,
    lies inside memory and is no longer available, and no other page changes
    hands; NULL leaves the available pages alone and means that every run of
    [n] free pages crosses the position where the last search over all shards
    ended (for one page: that no page is free). *)
Theorem Request_correct s cpu n : pmm_ok s -> cpu_ok s cpu -> 1 <= n <= pages (geo s) ->
  exists ptr s', Request s cpu n = Ok (ptr, s') /\ pmm_ok s' /\ geo s' = geo s /\
    ((ptr = 0 /\ (forall p, avail s' p <-> avail s p) /\
      forall b, 0 <= b -> b + n <= pages (geo s) -> run_free (maps s) b (b + n) -> b < slow_hint s < b + n) \/
     (exists b, ptr = b * PAGE_SIZE /\ 0 < b /\ b + n <= pages (geo s) /\ (forall p, b <= p < b + n -> avail s p) /\
        forall p, avail s' p <-> avail s p /\ ~ (b <= p < b + n))).
Proof.
  intros Hok Hcpu Hn. pose proof (Request_ok s cpu n Hok Hcpu Hn) as H. apply wp_ex in H as ([ptr s'] & E & H). exists ptr, s'. split; [exact E|].
  destruct H as [(-> & Hok' & Hs & H1 & H2)|(_ & Hok' & b & Hb & Hb0 & He & Eg & Ht1 & Ht2)].
  - split; [exact Hok'|]. split; [apply Hs|]. left. split; [reflexivity|]. split; [intros p; now apply same_pages_avail|].
    intros b Hb0 Hbe Hr. unfold slow_split in *. destruct (Z.le_gt_cases (b + n) (slow_hint s)); [exfalso; apply (H1 b); [lia|lia|exact Hr]|].
    destruct (Z.le_gt_cases (slow_hint s) b); [exfalso; apply (H2 b); [lia|lia|exact Hr]|lia].
  - split; [exact Hok'|]. split; [exact Eg|]. right. eauto 10.
Qed.

Lemma Request_correct_witness :
  exists ptr s', Request ex_pmm (Some 0) 1 = Ok (ptr, s') /\ pmm_ok s' /\ geo s' = geo ex_pmm /\
    ((ptr = 0 /\ (forall p, avail s' p <-> avail ex_pmm p) /\
      forall b, 0 <= b -> b + 1 <= pages (geo ex_pmm) -> run_free (maps ex_pmm) b (b + 1) -> b < slow_hint ex_pmm < b + 1) \/
     (exists b, ptr = b * PAGE_SIZE /\ 0 < b /\ b + 1 <= pages (geo ex_pmm) /\ (forall p, b <= p < b + 1 -> avail ex_pmm p) /\
        forall p, avail s' p <-> avail ex_pmm p /\ ~ (b <= p < b + 1))).
Proof. apply (Request_correct ex_pmm (Some 0) 1); [apply ex_ok|vm_compute; split; congruence|vm_compute; split; congruence]. Defined.

(** A test of [owned] by evaluation. *)
Definition owned_b (s : pmm) (b n : Z) : bool :=
  (0 <? b) && (1 <=? n) && (b + n <=? pages (geo s)) &&
  forallb (fun i => let p := b + Z.of_nat i in used (maps s) p && forallb (fun x => negb (p * PAGE_SIZE =? x)) (concat (caches s))) (seq 0 (Z.to_nat n)).

Lemma owned_check s b n : owned_b s b n = true -> owned s b n.
Proof.
  unfold owned_b. rewrite !andb_true_iff. intros [[[H1 H2] H3] H4]. to_prop. split; [exact H1|]. split; [exact H2|]. split; [exact H3|].
  intros p Hp Ha. rewrite forallb_forall in H4. specialize (H4 (Z.to_nat (p - b))). rewrite in_seq in H4. specialize (H4 ltac:(lia)).
  replace (b + Z.of_nat (Z.to_nat (p - b))) with p in H4 by lia. apply andb_prop in H4 as [H4 H5]. destruct Ha as [[_ Hu]|Hc]; [congruence|].
  rewrite forallb_forall in H5. apply list_elem_of_In in Hc. specialize (H5 _ Hc). rewrite Z.eqb_refl in H5. discriminate.
Qed.

(** C20: [Free] of a block a client holds returns; exactly its pages become
    available, whether they go back to the bitmap, shard by shard, or into the
    cache of the CPU, which is flushed when it is full. *)
Theorem Free_correct s cpu b n : pmm_ok s -> cpu_ok s cpu -> owned s b n ->
  exists s', Free s cpu (b * PAGE_SIZE) n = Ok s' /\ pmm_ok s' /\ geo s' = geo s /\
    forall p, avail s' p <-> avail s p \/ b <= p < b + n.
Proof.
  intros Hok Hcpu Ho. pose proof (Free_ok s cpu b n Hok Hcpu Ho) as H. apply wp_ex in H as (s' & E & Hok' & Eg & Hav). eauto.
Qed.

Lemma Free_correct_witness :
  exists s', Free ex_pmm (Some 1) (12 * PAGE_SIZE) 1 = Ok s' /\ pmm_ok s' /\ geo s' = geo ex_pmm /\
    forall p, avail s' p <-> avail ex_pmm p \/ 12 <= p < 12 + 1.
Proof.
  apply (Free_correct ex_pmm (Some 1) 12 1); [apply ex_ok|vm_compute; split; congruence|].
  apply owned_check. vm_compute. reflexivity.
Defined.

(** * A run the search does not find *)

(** The calls of one client; a request comes with the page it returned. *)
Inductive api_call : Type :=
| CallRequest (n b : Z)
| CallFree (b n : Z)
| CallRequest2MB (b : Z)
| CallFree2MB (b : Z).

(** [s'] when the request returned page [b]. *)
Definition returned (b : Z) (r : res (Z * pmm)) : option pmm :=
  match r with Ok (p, s') => if p =? b * PAGE_SIZE then Some s' else None | _ => None end.

Definition run_call (s : pmm) (c : api_call) : option pmm :=
  match c with
  | CallRequest n b => returned b (Request s None n)
  | CallFree b n => match Free s None (b * PAGE_SIZE) n with Ok s' => Some s' | _ => None end
  | CallRequest2MB b => returned b (Request2MB s)
  | CallFree2MB b => match Free2MB s (b * PAGE_SIZE) with Ok s' => Some s' | _ => None end
  end.

Fixpoint run_calls (s : pmm) (cs : list api_call) : option pmm :=
  match cs with
  | [] => Some s
  | c :: cs => match run_call s c with Some s' => run_calls s' cs | None => None end
  end.

(** Every block that is freed was returned and not freed before. *)
Definition split_calls : list api_call :=
  [CallRequest 600 1026; CallRequest2MB 512; CallFree2MB 512; CallRequest 520 500; CallFree 500 520; CallFree 1026 600;
   CallRequest 600 1026; CallRequest2MB 512; CallFree2MB 512].

(** the two searches of a request stop at a hint each, so a run of free pages
    that crosses both hints is not found: after a sequence of calls that leaves the
    pages 500 to 1020 free, a request for that many pages returns NULL. *)
Theorem Request_misses_run :
  exists s, run_calls ex_pmm split_calls = Some s /\ run_free (maps s) 500 (500 + 521) /\
    exists s', Request s None 521 = Ok (0, s').
Proof.
  eexists. split; [vm_compute; reflexivity|]. split; [|eexists; vm_compute; reflexivity].
  apply run_free_forallb; [lia|]. vm_compute. reflexivity.
Qed.

(** * Blocks *)

(** C21: [Request2MB] and [Request2GB] return an aligned block of free pages and
    take exactly its pages, and they return NULL only when no aligned block of
    that size is free. *)
Theorem Request_blocks_correct s : pmm_ok s ->
  (exists ptr s', Request2MB s = Ok (ptr, s') /\ block_post 512 (no_block 512 s) s (ptr, s')) /\
  (exists ptr s', Request2GB s = Ok (ptr, s') /\ block_post 524288 (no_block 524288 s) s (ptr, s')).
Proof.
  intros Hok. split.
  - pose proof (Request2MB_ok s Hok) as H. apply wp_ex in H as ([ptr s'] & E & H). eauto.
  - pose proof (Request2GB_ok s Hok) as H. apply wp_ex in H as ([ptr s'] & E & H). eauto.
Qed.

Lemma Request_blocks_correct_witness :
  (exists ptr s', Request2MB ex_pmm = Ok (ptr, s') /\ block_post 512 (no_block 512 ex_pmm) ex_pmm (ptr, s')) /\
  (exists ptr s', Request2GB ex_pmm = Ok (ptr, s') /\ block_post 524288 (no_block 524288 ex_pmm) ex_pmm (ptr, s')).
Proof. apply Request_blocks_correct, ex_ok. Defined.

(** in a consistent state [VerifyFreeCount] finds no difference between the
    bitmap and the counter. *)
Theorem VerifyFreeCount_zero s : pmm_ok s -> VerifyFreeCount s = Ok (0, s).
Proof. apply VerifyFreeCount_ok. Qed.

Lemma VerifyFreeCount_zero_witness : VerifyFreeCount ex_pmm = Ok (0, ex_pmm).
Proof. apply VerifyFreeCount_zero, ex_ok. Defined.

(** * Initialisation *)

(** Usable entries do not overlap. *)
Definition disjoint_map (es : list memmap_entry) : Prop :=
  forall i j e e', es !! i = Some e -> es !! j = Some e' -> i <> j -> is_usable e = true -> is_usable e' = true ->
    e_base e + e_length e <= e_base e' \/ e_base e' + e_length e' <= e_base e.

(** The pages of a whole entry, or of a part of it, that lie inside it. *)
Lemma usable_page_spec es p : usable_page es p = true <-> exists e, e ∈ es /\ is_usable e = true /\ e_base e <= 4096 * p /\ 4096 * (p + 1) <= e_end e.
Proof.
  unfold usable_page. rewrite existsb_exists. split.
  - intros (e & He & H). exists e. rewrite list_elem_of_In. split; [exact He|]. to_prop. auto.
  - intros (e & He & Hu & H1 & H2). exists e. rewrite <- list_elem_of_In. split; [exact He|]. rewrite Hu. apply andb_true_iff. split; [|now apply Z.leb_le]. now apply Z.leb_le.
Qed.

(** The boot loader keeps page [p]. *)
Definition boot_page (es : list memmap_entry) (p : Z) : bool :=
  existsb (fun e => is_reclaimable e && inr_ (e_base e / 4096) (e_base e / 4096 + (e_length e + 4095) / 4096) p) es.

Lemma reserved_boot g es p : p < pages g -> reserved_page g es p = boot_page es p.
Proof.
  intros Hp. unfold reserved_page, boot_page. induction es as [|e es IH]; [reflexivity|]. cbn [existsb]. rewrite IH. f_equal. f_equal.
  unfold reserved_last, reserved_first. inr_case; try reflexivity; lia.
Qed.

Lemma boot_page_cut X e Y n p : is_usable e = true -> boot_page (X ++ cut e n :: Y) p = boot_page (X ++ e :: Y) p.
Proof.
  intros Hu. unfold boot_page. rewrite !existsb_app. cbn [existsb]. unfold is_reclaimable, is_usable, cut in *. cbn [e_type]. now destruct (e_type e).
Qed.

Lemma truncate_map es : Forall raw_ok es -> Forall raw_ok (truncate_entry <$> es) /\ (disjoint_map es -> disjoint_map (truncate_entry <$> es)).
Proof.
  intros Hes. split; [apply Forall_fmap; eapply Forall_impl; [exact Hes|]; intros y Hy; apply (truncate_ok y Hy)|].
  intros Hd i j y y' Hi Hj Hij Hyu Hyu'. rewrite list_lookup_fmap in Hi, Hj.
  destruct (es !! i) as [y0|] eqn:E0; [|discriminate]. destruct (es !! j) as [y1|] eqn:E3; [|discriminate]. injection Hi as <-. injection Hj as <-.
  rewrite Forall_lookup in Hes. destruct (truncate_ok y0 (Hes _ _ E0)) as (_ & B1 & B2 & B3 & _). destruct (truncate_ok y1 (Hes _ _ E3)) as (_ & C1 & C2 & C3 & _).
  unfold is_usable in Hyu, Hyu'. rewrite B2 in Hyu. rewrite C2 in Hyu'. rewrite B1, C1. specialize (Hd i j y0 y1 E0 E3 Hij Hyu Hyu'). lia.
Qed.

(** When usable entries do not overlap, cutting the end of one takes out the
    pages that touch what was cut. *)
Lemma usable_page_cut X e Y n p : Forall raw_ok (X ++ e :: Y) -> disjoint_map (X ++ e :: Y) -> is_usable e = true -> 0 < n <= e_length e ->
  let b := e_base e + (e_length e - n) in
  usable_page (X ++ cut e n :: Y) p = true <-> usable_page (X ++ e :: Y) p = true /\ (4096 * (p + 1) <= b \/ b + n <= 4096 * p).
Proof.
  intros Hraw Hd Hu Hn b. assert (Hend : forall x, x ∈ X ++ e :: Y -> e_end x = e_base x + e_length x).
  { intros x Hx. rewrite Forall_forall in Hraw. destruct (Hraw x Hx) as (? & ? & ?). apply u64_small. lia. }
  assert (He : e ∈ X ++ e :: Y) by (apply elem_of_app; right; apply elem_of_cons; auto).
  assert (Hce : e_end (cut e n) = b). { rewrite Forall_forall in Hraw. destruct (Hraw e He) as (? & ? & ?). unfold e_end, cut, b. cbn. apply u64_small. lia. }
  assert (Hside : forall x, x ∈ X ++ Y -> is_usable x = true -> b + n <= e_base x \/ e_base x + e_length x <= b + n - e_length e).
  { intros x Hx Hxu. replace (b + n) with (e_base e + e_length e) by (unfold b; lia). apply elem_of_app in Hx as [Hx|Hx]; apply list_elem_of_lookup in Hx as [i Hi].
    - pose proof (lookup_lt_Some _ _ _ Hi). pose proof (Hd (length X) i e x (list_lookup_middle X Y e _ eq_refl) (lookup_app_l_Some X (e :: Y) _ _ Hi) ltac:(lia) Hu Hxu). lia.
    - assert (Hi2 : (X ++ e :: Y) !! (length X + S i)%nat = Some x) by (rewrite lookup_app_r by lia; replace (length X + S i - length X)%nat with (S i) by lia; exact Hi).
      pose proof (Hd (length X) (length X + S i)%nat e x (list_lookup_middle X Y e _ eq_refl) Hi2 ltac:(lia) Hu Hxu). lia. }
  assert (Hin : forall x, x ∈ X ++ Y -> x ∈ X ++ e :: Y) by (intros x; rewrite !elem_of_app, elem_of_cons; tauto).
  rewrite !usable_page_spec. split.
  - intros (x & Hx & Hxu & H1 & H2). assert (Hc : x ∈ X ++ Y \/ x = cut e n) by (revert Hx; rewrite !elem_of_app, elem_of_cons; tauto). destruct Hc as [Hc| ->].
    + specialize (Hside x Hc Hxu). pose proof (Hend x (Hin x Hc)). split; [exists x; auto|unfold b in *; lia].
    + rewrite Hce in H2. cbn in H1. split; [exists e; rewrite (Hend e He); unfold b in *; repeat split; auto; lia|lia].
  - intros [(x & Hx & Hxu & H1 & H2) Hp]. assert (Hc : x ∈ X ++ Y \/ x = e) by (revert Hx; rewrite !elem_of_app, elem_of_cons; tauto). destruct Hc as [Hc| ->].
    + exists x. split; [revert Hc; rewrite !elem_of_app, elem_of_cons; tauto|auto].
    + exists (cut e n). split; [apply elem_of_app; right; apply elem_of_cons; auto|]. rewrite (Hend e He) in H2. rewrite Hce. unfold b in *. cbn. repeat split; auto; lia.
Qed.

(** The highest end of the usable entries. *)
Definition highest_end (es : list memmap_entry) (top : Z) : Prop :=
  (forall e, e ∈ es -> is_usable e = true -> e_base e + e_length e <= top) /\
  (top = 0 \/ exists e, e ∈ es /\ is_usable e = true /\ e_base e + e_length e = top).

Lemma usable_top_highest es : Forall raw_ok es -> highest_end es (usable_top es).
Proof.
  intros Hes. split; [apply (max_top_ok is_usable es Hes)|]. destruct (max_top_attained is_usable es Hes) as [|(e & He & Hu & Ht)]; [now left|right; exists e; auto].
Qed.

(** What the entries [es], cut to whole pages, make of the allocator: the bitmaps
    cover the memory up to [top] and lie at the end of the first usable entry
    that can hold them; the rest of the usable pages is available. *)
Definition initialised (es : list memmap_entry) (top : Z) (s : pmm) : Prop :=
  let n := meta_size top in let b := meta_base (geo s) in
  pmm_ok s /\ pages (geo s) = bitmap_pages top /\
  exists X e Y, es = X ++ e :: Y /\ Forall (too_small n) X /\ is_usable e = true /\ n <= e_length e /\ b = e_base e + (e_length e - n) /\
    (forall p, avail s p <-> 0 < p /\ usable_page (X ++ cut e n :: Y) p = true /\ boot_page es p = false) /\
    (disjoint_map es -> forall p, avail s p <-> 0 < p /\ usable_page es p = true /\ boot_page es p = false /\ (4096 * (p + 1) <= b \/ b + n <= 4096 * p)).

Lemma init_state_ok es s : Forall raw_ok es -> init_state es s -> initialised (truncate_entry <$> es) (usable_top (truncate_entry <$> es)) s.
Proof.
  intros Hes [Hok Hpg (X & e & Y & E1 & E2 & Hf & Hu & Hn & Em) Hav]. destruct (truncate_map es Hes) as [Hraw _]. set (es' := truncate_entry <$> es) in *.
  set (n := meta_size (usable_top es')) in *. split; [exact Hok|]. split; [exact Hpg|]. exists X, e, Y. repeat (split; [solve [auto | lia]|]).
  assert (Ha : forall p, avail s p <-> 0 < p /\ usable_page (X ++ cut e n :: Y) p = true /\ boot_page es' p = false).
  { intros p. rewrite Hav, E2, E1. split.
    - intros (Hp & H1 & H2). rewrite reserved_boot, boot_page_cut in H2 by (lia || exact Hu). repeat split; auto; lia.
    - intros (Hp & H1 & H2). assert (Hlt : p < pages (geo s)).
      { apply usable_page_spec in H1 as (x & Hx & Hxu & H3 & H4). rewrite Hpg. unfold bitmap_pages. destruct (max_top_ok is_usable es' Hraw) as [_ Hmax]. fold (usable_top es') in Hmax.
        assert (Hc : exists y, y ∈ es' /\ is_usable y = true /\ e_end x <= e_base y + e_length y).
        { rewrite E1 in Hraw |- *. rewrite Forall_forall in Hraw. apply elem_of_app in Hx as [Hx|[->|Hx]%elem_of_cons].
          - exists x. destruct (Hraw x) as (? & ? & ?); [apply elem_of_app; auto|]. unfold e_end. rewrite u64_small by lia. repeat split; auto; [apply elem_of_app; auto|lia].
          - exists e. destruct (Hraw e) as (? & ? & ?); [apply elem_of_app; right; apply elem_of_cons; auto|]. unfold e_end, cut. cbn [e_base e_length]. rewrite u64_small by lia. repeat split; auto; [apply elem_of_app; right; apply elem_of_cons; auto|lia].
          - exists x. destruct (Hraw x) as (? & ? & ?); [apply elem_of_app; right; apply elem_of_cons; auto|]. unfold e_end. rewrite u64_small by lia. repeat split; auto; [apply elem_of_app; right; apply elem_of_cons; auto|lia]. }
        destruct Hc as (y & Hy & Hyu & Hle). specialize (Hmax y Hy Hyu). dlia. }
      rewrite reserved_boot, boot_page_cut by (lia || exact Hu). repeat split; auto; lia. }
  split; [exact Ha|]. intros Hd p. fold n. rewrite Ha, Em. rewrite E1 in Hraw, Hd |- *. pose proof (usable_page_cut X e Y n p Hraw Hd Hu Hn) as Hc. cbv zeta in Hc. tauto.
Qed.

(** C22: [Init] on a memory map below the last page of the address space returns.
    The bitmaps take a size fixed by the highest end of the usable entries.  The
    call panics when no usable entry of the map, its length cut to whole pages,
    can hold them, and only then.  Otherwise the state is consistent; the
    bitmaps lie at the end of the first usable entry that can hold them; the
    available pages are exactly those inside a usable entry of the map, that
    one cut, without page 0 and without what the boot loader keeps.  When the
    usable entries do not overlap, these are the pages of the usable entries of
    the map that touch no byte of the bitmaps. *)
Theorem Init_correct es ncpu : Forall raw_ok es ->
  exists r top, Init es ncpu = Ok r /\ highest_end (truncate_entry <$> es) top /\
    (r = None <-> forall e, e ∈ truncate_entry <$> es -> is_usable e = true -> e_length e = 0 \/ e_length e < meta_size top) /\
    (forall s, r = Some s -> initialised (truncate_entry <$> es) top s) /\
    (disjoint_map es -> disjoint_map (truncate_entry <$> es)).
Proof.
  intros Hes. pose proof (Init_ok es ncpu Hes) as H. apply wp_ex in H as (r & E & H). destruct (truncate_map es Hes) as [Hraw Hd]. exists r, (usable_top (truncate_entry <$> es)).
  split; [exact E|]. split; [apply usable_top_highest, Hraw|]. split; [|split; [intros s ->; now apply init_state_ok|exact Hd]]. destruct r as [s|].
  - split; [easy|]. intros Hno. destruct H as [_ _ (X & e & Y & E1 & _ & _ & Hu & Hn & _) _]. destruct (Hno e) as [|]; [|exact Hu|lia..].
    rewrite E1. apply elem_of_app; right; apply elem_of_cons; auto.
  - split; [intros _|easy]. unfold init_panics in H. rewrite Forall_forall in H. exact H.
Qed.

Lemma Init_correct_witness : Init ex_map 2 = Ok (Some ex_pmm) /\
  exists r top, Init ex_map 2 = Ok r /\ highest_end (truncate_entry <$> ex_map) top /\
    (r = None <-> forall e, e ∈ truncate_entry <$> ex_map -> is_usable e = true -> e_length e = 0 \/ e_length e < meta_size top) /\
    (forall s, r = Some s -> initialised (truncate_entry <$> ex_map) top s) /\
    (disjoint_map ex_map -> disjoint_map (truncate_entry <$> ex_map)).
Proof. split; [exact ex_init|]. apply (Init_correct ex_map 2). exact ex_map_ok. Defined.
