(* ===== verification/PMMConc.v ===== *)
(** Interleaved use of the page allocator.  The code holds the lock of a shard
    (or all of them) over each change of the bitmaps and counters, so a run on
    several CPUs is a sequence of critical sections; between two sections of one
    request other CPUs may run theirs, and a counter read before a lock was taken
    may be out of date.

    The page cache of a CPU has no lock: the code disables interrupts around the
    pop and the push.  That these are sections too is an assumption, that a
    thread stays on the CPU whose cache it chose: [this_cpu()] is read before
    interrupts are off (pmm.cpp:673-675, 717-719), so a thread that is moved to
    another CPU in between would change a cache at the same time as its owner. *)
From stdpp Require Import base list.
From Stdlib Require Import ZArith Lia.
From S2P Require Import Prelude Words PMM PMMBits PMMInv PMMScan PMMState PMMAlloc PMMFree PMMInit PMMSpec.

Open Scope Z_scope.
Open Scope c_scope.

(** * Critical sections *)

(** The pages clients hold. *)
Definition holding : Type := Z -> Prop.

Definition hold (o : holding) (b n : Z) : holding := fun p => o p \/ b <= p < b + n.
Definition drop_ (o : holding) (b n : Z) : holding := fun p => o p /\ ~ (b <= p < b + n).

(** One critical section, on any shard or on the cache of a CPU, by any CPU.  A section that allocates
    hands its block of [n] pages to a client; one that frees takes pages a client
    holds. *)
Inductive section : pmm * holding -> pmm * holding -> Prop :=
| SecNext s o f s' : shard_rr_first s = Ok (f, s') -> section (s, o) (s', o)
| SecRequest s o s' si n p : 0 <= si < shard_count s -> 1 <= n ->
    request_locked n s si = Ok (Some p, s') -> section (s, o) (s', hold o (p / PAGE_SIZE) n)
| SecRequestNone s o s' si n : 0 <= si < shard_count s -> 1 <= n ->
    request_locked n s si = Ok (None, s') -> section (s, o) (s', o)
| SecRefill s o s' cpu c si p : caches s !! cpu = Some c -> 0 <= si < shard_count s ->
    refill_locked (Z.of_nat cpu) s si = Ok (Some p, s') -> section (s, o) (s', hold o (p / PAGE_SIZE) 1)
| SecRefillNone s o s' cpu c si : caches s !! cpu = Some c -> 0 <= si < shard_count s ->
    refill_locked (Z.of_nat cpu) s si = Ok (None, s') -> section (s, o) (s', o)
| SecPop s o cpu c p : caches s !! cpu = Some (c ++ [p]) ->
    section (s, o) (with_caches s (<[cpu := c]> (caches s)), hold o (p / PAGE_SIZE) 1)
| SecSlow s o s' n p : 1 <= n -> alloc_global_slowpath s n = Ok (p, s') ->
    section (s, o) (s', if p =? 0 then o else hold o (p / PAGE_SIZE) n)
| Sec2MB s o s' si p : 0 <= si < shard_count s -> request_2mb_locked s si = Ok (Some p, s') ->
    section (s, o) (s', hold o (p / PAGE_SIZE) 512)
| Sec2MBNone s o s' si : 0 <= si < shard_count s -> request_2mb_locked s si = Ok (None, s') -> section (s, o) (s', o)
| Sec2GB s o s' si p : 0 <= si < shard_count s -> sh_len (geo s) si = L3_PAGES -> request_2gb_locked s si = Ok (Some p, s') ->
    section (s, o) (s', hold o (p / PAGE_SIZE) 524288)
| Sec2GBNone s o s' si : 0 <= si < shard_count s -> sh_len (geo s) si = L3_PAGES -> request_2gb_locked s si = Ok (None, s') ->
    section (s, o) (s', o)
| SecPush s o cpu c p : caches s !! cpu = Some c -> Z.of_nat (length c) < PMM_PCP_MAX -> o p ->
    section (s, o) (with_caches s (<[cpu := c ++ [p * PAGE_SIZE]]> (caches s)), drop_ o p 1)
| SecFree s o s' si b n : 0 <= si < shard_count s -> 1 <= n -> sh_lo si <= b -> b + n <= sh_hi (geo s) si ->
    (forall p, b <= p < b + n -> o p) -> free_in_shard_locked s si b n = Ok s' -> section (s, o) (s', drop_ o b n)
| SecStats s o st : section (s, o) (with_pstats s st, o).

(** * The invariant *)

(** [s0] is the state at the start: its available pages are, at any time, either
    available or held by a client, and no page is both. *)
Record world_ok (s0 : pmm) (w : pmm * holding) : Prop := {
  w_ok : pmm_ok w.1;
  w_geo : geo w.1 = geo s0;
  w_split : forall p, avail s0 p <-> avail w.1 p \/ w.2 p;
  w_once : forall p, avail w.1 p -> w.2 p -> False
}.

Lemma avail_range s d D p : pmm_but s d D -> avail s p -> 0 < p < pages (geo s).
Proof.
  intros H [[Hp Hu]|Hc].
  - destruct (Z.eq_dec p 0) as [->|]; [|lia]. rewrite (p_zero _ _ _ H) in Hu. discriminate.
  - apply (cached_used s p (p_cache _ _ _ H) Hc).
Qed.

Lemma world_same s0 s s' o : world_ok s0 (s, o) -> pmm_ok s' -> same_pages s s' -> world_ok s0 (s', o).
Proof.
  intros [H1 H2 H3 H4] Hok Hs. simpl in *. split; simpl; [exact Hok|rewrite (proj1 Hs); exact H2| |].
  - intros p. rewrite (same_pages_avail _ _ p Hs). apply H3.
  - intros p Ha. apply (H4 p). now apply (same_pages_avail s s').
Qed.

Lemma world_take s0 s s' o b n : world_ok s0 (s, o) -> pmm_ok s' -> takes s s' b n -> world_ok s0 (s', hold o b n).
Proof.
  intros [H1 H2 H3 H4] Hok (Eg & Ht1 & Ht2). simpl in *. split; simpl; [exact Hok|congruence| |].
  - intros p. rewrite H3, Ht2. unfold hold. destruct (decide (b <= p < b + n)) as [Hin|Hin]; [|tauto].
    split; [auto|]. intros _. left. now apply Ht1.
  - intros p Ha [Ho|Hin]; apply Ht2 in Ha as [Ha Hn]; [now apply (H4 p)|contradiction].
Qed.

Lemma world_alloc s0 s s' o n p : world_ok s0 (s, o) -> allocated n s p s' -> world_ok s0 (s', hold o (p / PAGE_SIZE) n).
Proof.
  intros Hw (Hok & b & -> & _ & _ & Ht). assert (b * PAGE_SIZE / PAGE_SIZE = b) as -> by (consts; now apply Z.div_mul). now apply (world_take s0 s).
Qed.

Lemma world_give s0 s s' o b n : world_ok s0 (s, o) -> (forall p, b <= p < b + n -> o p) -> pmm_ok s' -> gives s s' b n ->
  world_ok s0 (s', drop_ o b n).
Proof.
  intros [H1 H2 H3 H4] Ho Hok (Eg & Hg). simpl in *. split; simpl; [exact Hok|congruence| |].
  - intros p. rewrite H3, Hg. unfold drop_. destruct (decide (b <= p < b + n)) as [Hin|Hin]; [|tauto]. split; [auto|]. auto.
  - intros p Ha [Hp Hn]. apply Hg in Ha as [Ha|Ha]; [now apply (H4 p)|contradiction].
Qed.

(** Pages a client holds can be freed. *)
Lemma world_owned s0 s o b n : pmm_ok s0 -> world_ok s0 (s, o) -> 1 <= n -> (forall p, b <= p < b + n -> o p) -> owned s b n.
Proof.
  intros H0 [H1 H2 H3 H4] Hn Ho. simpl in *.
  assert (Hr : forall p, b <= p < b + n -> 0 < p < pages (geo s)).
  { intros p Hp. rewrite H2. apply (avail_range s0 _ _ p H0). apply H3. right. now apply Ho. }
  split; [apply (Hr b); lia|]. split; [exact Hn|]. split; [specialize (Hr (b + n - 1) ltac:(lia)); lia|].
  intros p Hp Ha. apply (H4 p Ha). now apply Ho.
Qed.

Lemma count_shards s0 s o si : world_ok s0 (s, o) -> 0 <= si < shard_count s -> 0 <= si < total_l3_bits (geo s).
Proof. intros H. unfold shard_count. pose proof (c_len _ _ _ (p_counts _ _ _ (w_ok _ _ H))) as Hl. simpl in Hl. lia. Qed.

(** The outcome of a try, as the section relation sees it. *)
Lemma wp_ok_inv {A} (r : res A) a (Q : A -> Prop) : wp r Q -> r = Ok a -> Q a.
Proof. intros H ->. exact H. Qed.

Lemma section_ok s0 w w' : pmm_ok s0 -> world_ok s0 w -> section w w' -> world_ok s0 w'.
Proof.
  intros H0 Hw Hs. destruct Hs.
  - destruct (shard_rr_first_ok s (w_ok _ _ Hw)) as (f1 & s1 & E & _ & Hok & Hsp). rewrite H in E. injection E as <- <-. now apply (world_same s0 s).
  - pose proof (wp_ok_inv _ _ _ (request_locked_ok n s si ltac:(assumption) (w_ok _ _ Hw) (count_shards _ _ _ _ Hw H)) H2). now apply (world_alloc s0 s).
  - pose proof (wp_ok_inv _ _ _ (request_locked_ok n s si ltac:(assumption) (w_ok _ _ Hw) (count_shards _ _ _ _ Hw H)) H2) as (Hok & Hsp & _). now apply (world_same s0 s).
  - pose proof (wp_ok_inv _ _ _ (refill_locked_ok s cpu c si (w_ok _ _ Hw) H (count_shards _ _ _ _ Hw H1)) H2). now apply (world_alloc s0 s).
  - pose proof (wp_ok_inv _ _ _ (refill_locked_ok s cpu c si (w_ok _ _ Hw) H (count_shards _ _ _ _ Hw H1)) H2) as (Hok & Hsp & _). now apply (world_same s0 s).
  - destruct (cache_drop s _ _ _ _ _ (w_ok _ _ Hw) H) as (Hok & q & -> & Hq & Ht).
    assert (q * PAGE_SIZE / PAGE_SIZE = q) as -> by (consts; now apply Z.div_mul). now apply (world_take s0 s).
  - destruct (wp_ok_inv _ _ _ (alloc_global_slowpath_ok s n (w_ok _ _ Hw) H) H1) as [(-> & -> & _)|[Hp Ha]]; [exact Hw|].
    apply Z.eqb_neq in Hp. rewrite Hp. now apply (world_alloc s0 s).
  - destruct (wp_ok_inv _ _ _ (request_2mb_locked_ok s s si (w_ok _ _ Hw) (same_pages_refl s) (count_shards _ _ _ _ Hw H)) H1) as [_ Ha]. now apply (world_alloc s0 s).
  - destruct (wp_ok_inv _ _ _ (request_2mb_locked_ok s s si (w_ok _ _ Hw) (same_pages_refl s) (count_shards _ _ _ _ Hw H)) H1) as (Hok & Hsp & _). now apply (world_same s0 s).
  - destruct (wp_ok_inv _ _ _ (request_2gb_locked_ok s s si (w_ok _ _ Hw) (same_pages_refl s) (count_shards _ _ _ _ Hw H) H1) H2) as [_ Ha]. now apply (world_alloc s0 s).
  - destruct (wp_ok_inv _ _ _ (request_2gb_locked_ok s s si (w_ok _ _ Hw) (same_pages_refl s) (count_shards _ _ _ _ Hw H) H1) H2) as (Hok & Hsp & _). now apply (world_same s0 s).
  - assert (Hone : forall q, p <= q < p + 1 -> o q) by (intros q Hq; now replace q with p by lia).
    pose proof (world_owned s0 s o p 1 H0 Hw ltac:(lia) Hone) as (Hp & _ & Hpe & Hna).
    destruct (cache_add s _ _ cpu c [p * PAGE_SIZE] (w_ok _ _ Hw) H) as [Hok Hav].
    + apply NoDup_singleton.
    + apply Forall_singleton. exists p. split; [reflexivity|]. split; [lia|]. apply not_avail_used; [lia|]. apply Hna. lia.
    + rewrite length_app. simpl. lia.
    + apply (world_give s0 s); auto. split; [reflexivity|]. intros q. rewrite Hav, list_elem_of_singleton. consts.
      assert (p <= q < p + 1 <-> q * 4096 = p * 4096) by lia. tauto.
  - pose proof (world_owned s0 s o b n H0 Hw ltac:(assumption) ltac:(assumption)) as Ho.
    destruct (wp_ok_inv _ _ _ (free_in_shard_ok s si b n (w_ok _ _ Hw) Ho (count_shards _ _ _ _ Hw H) ltac:(assumption) ltac:(assumption)) ltac:(eassumption)) as [[Hok Hg] _].
    now apply (world_give s0 s).
  - apply (world_same s0 s); [exact Hw|apply pmm_ok_stats, (w_ok _ _ Hw)|repeat split].
Qed.

(** Any sequence of sections. *)
Inductive sections : pmm * holding -> pmm * holding -> Prop :=
| sections_nil w : sections w w
| sections_cons w1 w2 w3 : section w1 w2 -> sections w2 w3 -> sections w1 w3.

Lemma sections_ok s0 w w' : pmm_ok s0 -> world_ok s0 w -> sections w w' -> world_ok s0 w'.
Proof. intros H0 Hw Hs. induction Hs as [|w1 w2 w3 H1 _ IH]; [exact Hw|]. apply IH. now apply (section_ok s0 w1). Qed.

Lemma world_start s0 : pmm_ok s0 -> world_ok s0 (s0, fun _ => False).
Proof. intros H0. split; simpl; tauto. Qed.

(** C17: from any consistent state in which clients hold nothing, in every
    interleaving of critical sections on any number of CPUs, the state stays
    consistent, a page that is held is not available, and every page that was
    available is at any time available or held: no page is handed out twice and
    none is lost. *)
Theorem sections_safe s0 s o : pmm_ok s0 -> sections (s0, fun _ => False) (s, o) ->
  pmm_ok s /\ (forall p, o p -> ~ avail s p) /\ forall p, avail s0 p <-> avail s p \/ o p.
Proof.
  intros H0 Hs. destruct (sections_ok s0 _ _ H0 (world_start s0 H0) Hs) as [H1 _ H3 H4].
  split; [exact H1|]. split; [intros p Ho Ha; now apply (H4 p)|exact H3].
Qed.

(** Three pages of the first shard, taken in one section. *)
Definition ex_section : Z * pmm :=
  match request_locked 3 ex_pmm 0 with Ok (Some p, s) => (p, s) | _ => (0, ex_pmm) end.

Lemma sections_safe_witness :
  pmm_ok (snd ex_section) /\
  (forall p, hold (fun _ => False) (fst ex_section / PAGE_SIZE) 3 p -> ~ avail (snd ex_section) p) /\
  (forall p, avail ex_pmm p <-> avail (snd ex_section) p \/ hold (fun _ => False) (fst ex_section / PAGE_SIZE) 3 p).
Proof.
  apply (sections_safe ex_pmm (snd ex_section) (hold (fun _ => False) (fst ex_section / PAGE_SIZE) 3)); [apply ex_ok|].
  econstructor; [|constructor]. apply (SecRequest ex_pmm (fun _ => False) (snd ex_section) 0 3 (fst ex_section)).
  - vm_compute. split; congruence.
  - lia.
  - vm_compute. reflexivity.
Defined.

(** * The interface as sequences of sections *)

Lemma sections_trans w1 w2 w3 : sections w1 w2 -> sections w2 w3 -> sections w1 w3.
Proof. induction 1; [auto|]. intros. econstructor; eauto. Qed.

Lemma sections_one w w' : section w w' -> sections w w'.
Proof. intros H. econstructor; [exact H|constructor]. Qed.

(** What the clients hold after a search that found [p]. *)
Definition after (o : holding) (n : Z) (p : option Z) : holding :=
  match p with Some p => hold o (p / PAGE_SIZE) n | None => o end.

(** The same for a result that is NULL when nothing was found. *)
Definition after_ptr (o : holding) (n p : Z) : holding := if p =? 0 then o else hold o (p / PAGE_SIZE) n.

(** A search from [s] that ends in [s'] with [p] is a sequence of sections. *)
Definition search_runs (o : holding) (n : Z) (s : pmm) (p : option Z) (s' : pmm) : Prop :=
  sections (s, o) (s', after o n p) /\ p <> Some 0.

Lemma search_some o n s p s' : search_runs o n s (Some p) s' -> sections (s, o) (s', after_ptr o n p).
Proof. intros [H Hp]. unfold after_ptr. now destruct (Z.eqb_spec p 0) as [->|]. Qed.

Lemma bind_ok {A B} (r : res A) (k : A -> res B) b : bind r k = Ok b -> exists a, r = Ok a /\ k a = Ok b.
Proof. destruct r; simpl; try easy. eauto. Qed.

Section Api.
Context (s0 : pmm) (H0 : pmm_ok s0).

(** A try on a shard that holds the lock of the shard for one section. *)
Definition try_runs (o : holding) (n : Z) (try : pmm -> Z -> res (option Z * pmm)) (P : pmm -> Prop) : Prop :=
  forall s si p s', world_ok s0 (s, o) -> P s -> 0 <= si < shard_count s -> try s si = Ok (p, s') ->
    search_runs o n s p s' /\ (p = None -> P s').

(** The ring of shards. *)
Lemma rr_try_sections try n o P : try_runs o n try P ->
  forall k si s p s', world_ok s0 (s, o) -> P s -> 0 <= si -> si + Z.of_nat k <= 2 * total_l3_bits (geo s0) ->
    rr_try try k si s = Ok (p, s') -> search_runs o n s p s' /\ (p = None -> P s').
Proof.
  intros Htry k. induction k as [|k IH]; intros si s p s' Hw HP Hsi Hk E; cbn [rr_try] in E.
  { injection E as <- <-. split; [split; [constructor|easy]|auto]. }
  apply bind_ok in E as ([q s1] & E1 & E2). pose proof (c_len _ _ _ (p_counts _ _ _ (w_ok _ _ Hw))) as Hl. pose proof (w_geo _ _ Hw) as Eg. simpl in Hl, Eg.
  destruct (Htry s (if shard_count s <=? si then si - shard_count s else si) q s1) as [[H1 Hnz] HP1]; [exact Hw|exact HP| |exact E1|].
  { unfold shard_count. rewrite Hl, Eg. case_bool; to_prop; lia. }
  destruct q as [q|]; [injection E2 as <- <-; split; [now split|easy]|]. simpl in H1.
  destruct (IH (si + 1) s1 p s') as [[H2 Hn2] HP2]; [now apply (sections_ok s0 _ _ H0 Hw)|auto|lia|lia|exact E2|].
  split; [split; [|exact Hn2]|exact HP2]. now apply sections_trans with (s1, o).
Qed.

Lemma rr_search_sections try n o P s p s' : try_runs o n try P -> (forall s v, P s -> P (with_rr s v)) ->
  world_ok s0 (s, o) -> P s -> rr_search try s = Ok (p, s') -> search_runs o n s p s' /\ (p = None -> P s').
Proof.
  intros Htry Hrr Hw HP E. unfold rr_search in E. apply bind_ok in E as ([f s1] & E1 & E2).
  pose proof (section_ok s0 _ _ H0 Hw (SecNext s o f s1 E1)) as Hw1. destruct (shard_rr_first_ok s (w_ok _ _ Hw)) as (f' & s1' & E' & Hf & _).
  rewrite E1 in E'. injection E' as <- <-. pose proof (c_len _ _ _ (p_counts _ _ _ (w_ok _ _ Hw1))) as Hl. pose proof (w_geo _ _ Hw1) as Eg1. pose proof (w_geo _ _ Hw) as Eg.
  simpl in *. rewrite Eg in Hf. rewrite Eg1 in Hl.
  assert (HP1 : P s1). { unfold shard_rr_first in E1. destruct (_ =? 0); [easy|]. injection E1 as _ <-. now apply Hrr. }
  destruct (rr_try_sections try n o P Htry (length (shards s1)) f s1 p s' Hw1 HP1 (proj1 Hf) ltac:(lia) E2) as [[H2 Hn2] HP2].
  split; [split; [|exact Hn2]|exact HP2]. econstructor; [exact (SecNext s o f s1 E1)|exact H2].
Qed.

(** Runs of pages. *)
Lemma request_shard_runs o n : 1 <= n -> try_runs o n (request_shard n) (fun _ => True).
Proof.
  intros Hn s si p s' Hw _ Hi E. split; [|auto]. unfold request_shard in E. apply bind_ok in E as (sh & _ & E).
  destruct (sh_free sh <? n); [injection E as <- <-; split; [constructor|easy]|].
  pose proof (wp_ok_inv _ _ _ (request_locked_ok n s si Hn (w_ok _ _ Hw) (count_shards _ _ _ _ Hw Hi)) E) as Hp.
  destruct p as [p|]; (split; [apply sections_one|]).
  - now apply (SecRequest s o s' si n p).
  - intros [= ->]. now apply (allocated_nonnull n s 0 s').
  - now apply (SecRequestNone s o s' si n).
  - easy.
Qed.

Lemma request_run_sections o s n p s' : world_ok s0 (s, o) -> 1 <= n -> request_run s n = Ok (p, s') ->
  sections (s, o) (s', after_ptr o n p).
Proof.
  intros Hw Hn E. unfold request_run in E. apply bind_ok in E as ([q s1] & E1 & E2).
  assert (H1 : search_runs o n s q s1).
  { destruct (n <=? SHARD_PAGES); [|injection E1 as <- <-; split; [constructor|easy]].
    now apply (rr_search_sections _ n o (fun _ => True) s q s1 (request_shard_runs o n Hn)). }
  destruct q as [q|]; [injection E2 as <- <-; now apply search_some|].
  eapply sections_trans; [exact (proj1 H1)|]. apply sections_one. now apply SecSlow.
Qed.

(** Single pages for the cache of a CPU. *)
Lemma refill_shard_runs o i : try_runs o 1 (refill_shard (Z.of_nat i)) (fun s => is_Some (caches s !! i)).
Proof.
  intros s si p s' Hw [c Hc] Hi E. unfold refill_shard in E. apply bind_ok in E as (sh & _ & E).
  destruct (sh_free sh =? 0); [injection E as <- <-; split; [split; [constructor|easy]|eauto]|].
  pose proof (wp_ok_inv _ _ _ (refill_locked_ok s i c si (w_ok _ _ Hw) Hc (count_shards _ _ _ _ Hw Hi)) E) as Hp.
  destruct p as [p|]; (split; [split; [apply sections_one|]|]).
  - now apply (SecRefill s o s' i c si p).
  - intros [= ->]. now apply (allocated_nonnull 1 s 0 s').
  - easy.
  - now apply (SecRefillNone s o s' i c si).
  - easy.
  - intros _. destruct Hp as (_ & (_ & _ & -> & _) & _). eauto.
Qed.

Lemma Request_sections o s cpu n p s' : world_ok s0 (s, o) -> cpu_ok s cpu -> 0 <= n -> Request s cpu n = Ok (p, s') ->
  sections (s, o) (s', after_ptr o n p).
Proof.
  intros Hw Hcpu Hn E. unfold Request in E. destruct ((n =? 0) || _) eqn:Eg; [injection E as <- <-; constructor|].
  apply orb_false_iff in Eg as [Eg _]. to_prop. destruct cpu as [cpu|]; [|apply request_run_sections; auto; lia].
  destruct (n =? 1) eqn:E1; to_prop; [|apply request_run_sections; auto; lia].
  subst n. simpl in Hcpu. destruct (lookup_lt_is_Some_2 (caches s) (Z.to_nat cpu)) as [c Hc]; [lia|].
  replace cpu with (Z.of_nat (Z.to_nat cpu)) in E by lia. rewrite (get_cache _ _ _ Hc) in E. cbn [bind] in E.
  destruct c as [|x c0 _] using rev_ind.
  - simpl in E. apply bind_ok in E as ([q s1] & E1 & E2).
    destruct (rr_search_sections _ 1 o _ s q s1 (refill_shard_runs o (Z.to_nat cpu)) ltac:(auto) Hw (mk_is_Some _ _ Hc) E1) as [H1 _].
    destruct q as [q|]; [injection E2 as <- <-; now apply search_some|]. destruct H1 as [H1 _].
    eapply sections_trans; [exact H1|]. apply request_run_sections; [now apply (sections_ok s0 _ _ H0 Hw)|lia|exact E2].
  - rewrite length_app, Nat.add_1_r in E. simpl negb in E. rewrite pcp_pop_ok in E. cbn [bind] in E. rewrite (put_cache _ _ _ _ Hc) in E. cbn [bind] in E.
    injection E as <- <-. apply sections_one. unfold after_ptr. destruct (cache_drop s _ _ _ _ _ (w_ok _ _ Hw) Hc) as (_ & q & -> & Hq & _).
    assert (q * PAGE_SIZE =? 0 = false) as -> by (consts; apply Z.eqb_neq; lia). now apply SecPop.
Qed.

(** Blocks. *)
Lemma request_2mb_runs o : try_runs o 512 request_2mb_shard (fun _ => True).
Proof.
  intros s si p s' Hw _ Hi E. split; [|auto]. unfold request_2mb_shard in E. apply bind_ok in E as (sh & _ & E).
  destruct (sh_free sh <? L2_PAGES); [injection E as <- <-; split; [constructor|easy]|].
  pose proof (wp_ok_inv _ _ _ (request_2mb_locked_ok s s si (w_ok _ _ Hw) (same_pages_refl s) (count_shards _ _ _ _ Hw Hi)) E) as Hp.
  destruct p as [p|]; (split; [apply sections_one|]).
  - now apply (Sec2MB s o s' si p).
  - intros [= ->]. destruct Hp as [_ Hp]. now apply (allocated_nonnull 512 s 0 s').
  - now apply (Sec2MBNone s o s' si).
  - easy.
Qed.

Lemma request_2gb_runs o : try_runs o 524288 request_2gb_shard (fun _ => True).
Proof.
  intros s si p s' Hw _ Hi E. split; [|auto]. unfold request_2gb_shard in E. apply bind_ok in E as (sh & E0 & E).
  pose proof (count_shards _ _ _ _ Hw Hi) as Hi'. destruct (shard_at _ _ _ _ (w_ok _ _ Hw) Hi') as (sh' & _ & E0' & _ & F2 & _). simpl in *.
  rewrite E0 in E0'. injection E0' as <-.
  destruct (npages sh <? L3_PAGES) eqn:Es; to_prop; [injection E as <- <-; split; [constructor|easy]|].
  destruct (sh_free sh <? L3_PAGES); [injection E as <- <-; split; [constructor|easy]|].
  assert (Hlen : sh_len (geo s) si = L3_PAGES).
  { rewrite F2 in Es. pose proof (sh_range (geo s) si (p_geo _ _ _ (w_ok _ _ Hw)) Hi'). consts. unfold sh_len in *. lia. }
  pose proof (wp_ok_inv _ _ _ (request_2gb_locked_ok s s si (w_ok _ _ Hw) (same_pages_refl s) Hi' Hlen) E) as Hp.
  destruct p as [p|]; (split; [apply sections_one|]).
  - now apply (Sec2GB s o s' si p).
  - intros [= ->]. destruct Hp as [_ Hp]. now apply (allocated_nonnull 524288 s 0 s').
  - now apply (Sec2GBNone s o s' si).
  - easy.
Qed.

Lemma Request2MB_sections o s p s' : world_ok s0 (s, o) -> Request2MB s = Ok (p, s') -> sections (s, o) (s', after_ptr o 512 p).
Proof.
  intros Hw E. unfold Request2MB in E. apply bind_ok in E as ([q s1] & E1 & E2).
  destruct (rr_search_sections _ 512 o (fun _ => True) s q s1 (request_2mb_runs o) ltac:(auto) Hw I E1) as [H1 _].
  destruct q as [q|]; injection E2 as <- <-; [now apply search_some|]. eapply sections_trans; [apply H1|]. apply sections_one, SecStats.
Qed.

Lemma Request2GB_sections o s p s' : world_ok s0 (s, o) -> Request2GB s = Ok (p, s') -> sections (s, o) (s', after_ptr o 524288 p).
Proof.
  intros Hw E. unfold Request2GB in E. apply bind_ok in E as ([q s1] & E1 & E2).
  destruct (rr_search_sections _ 524288 o (fun _ => True) s q s1 (request_2gb_runs o) ltac:(auto) Hw I E1) as [H1 _].
  destruct q as [q|]; injection E2 as <- <-; [now apply search_some|]. eapply sections_trans; [apply H1|]. apply sections_one, SecStats.
Qed.

(** Freeing: the pages in [b] .. [b + n] leave the holding. *)
Definition free_runs (o : holding) (b n : Z) (s s' : pmm) : Prop :=
  exists o', sections (s, o) (s', o') /\ forall p, o' p <-> drop_ o b n p.

Lemma free_shard_runs o s si b n s' : world_ok s0 (s, o) -> 0 <= si < total_l3_bits (geo s) -> 1 <= n -> sh_lo si <= b -> b + n <= sh_hi (geo s) si ->
  (forall p, b <= p < b + n -> o p) -> free_in_shard_locked s si b n = Ok s' -> sections (s, o) (s', drop_ o b n).
Proof.
  intros Hw Hi Hn B1 B2 Ho E. apply sections_one, (SecFree s o s' si b n); auto. unfold shard_count.
  pose proof (c_len _ _ _ (p_counts _ _ _ (w_ok _ _ Hw))) as Hl. simpl in Hl. lia.
Qed.

Lemma flush_sections k : forall s o i c s', world_ok s0 (s, o) -> caches s !! i = Some c -> flush k s (Z.of_nat i) = Ok s' ->
  exists o', sections (s, o) (s', o') /\ forall p, o' p <-> o p.
Proof.
  induction k as [|k IH]; intros s o i c s' Hw Hc E; cbn [flush] in E; [injection E as <-; exists o; split; [constructor|auto]|].
  rewrite (get_cache _ _ _ Hc) in E. cbn [bind] in E. destruct c as [|x c _] using rev_ind; [injection E as <-; exists o; split; [constructor|auto]|].
  rewrite length_app, Nat.add_1_r in E. simpl negb in E. rewrite pcp_pop_ok in E. cbn [bind] in E. rewrite (put_cache _ _ _ _ Hc) in E. cbn [bind] in E.
  pose proof (SecPop s o i c x Hc) as Hpop. pose proof (section_ok s0 _ _ H0 Hw Hpop) as Hw1. pose proof (w_once _ _ Hw) as Honce. simpl in Honce.
  destruct (cache_drop s _ _ _ _ _ (w_ok _ _ Hw) Hc) as (_ & p & -> & Hp & _ & Hin & _). set (s1 := with_caches s _) in *.
  assert (Ep : p * PAGE_SIZE / PAGE_SIZE = p) by (consts; now apply Z.div_mul). rewrite Ep in *. change (pmm_bitmap_pages (geo s1)) with (pages (geo s)) in E.
  assert (pages (geo s) <=? p = false) as Ele by (apply Z.leb_gt; lia). rewrite Ele in E. apply bind_ok in E as (s2 & E1 & E2).
  destruct (shard_of (geo s) p (p_geo _ _ _ (w_ok _ _ Hw)) ltac:(lia)) as [S1 S2].
  pose proof (free_shard_runs (hold o p 1) s1 (p / SHARD_PAGES) p 1 s2 Hw1 S1 ltac:(lia) ltac:(apply S2) ltac:(change (geo s1) with (geo s); consts; lia) ltac:(now right) E1) as Hfree.
  assert (Hc2 : caches s2 !! i = Some c).
  { pose proof (world_owned s0 s1 (hold o p 1) p 1 H0 Hw1 ltac:(lia) ltac:(now right)) as Hown.
    destruct (wp_ok_inv _ _ _ (free_in_shard_ok s1 (p / SHARD_PAGES) p 1 (w_ok _ _ Hw1) Hown S1 ltac:(apply S2) ltac:(change (geo s1) with (geo s); consts; lia)) E1) as (_ & -> & _).
    apply list_lookup_insert_eq. now apply lookup_lt_Some in Hc. }
  destruct (IH s2 _ i c s' (sections_ok s0 _ _ H0 Hw1 Hfree) Hc2 E2) as (o' & H2 & Ho'). exists o'. split.
  - econstructor; [exact Hpop|]. eapply sections_trans; [exact Hfree|exact H2].
  - intros q. rewrite Ho'. unfold drop_, hold. split; [tauto|]. intros Hq. split; [auto|]. intros Hqp. apply (Honce q); [now apply Hin|exact Hq].
Qed.

Lemma free_cached_sections s o i c p s' : world_ok s0 (s, o) -> caches s !! i = Some c -> o p ->
  free_cached s (Z.of_nat i) (p * PAGE_SIZE) = Ok s' -> free_runs o p 1 s s'.
Proof.
  intros Hw Hc Ho E. unfold free_cached in E. rewrite (get_cache _ _ _ Hc) in E. cbn [bind] in E. apply bind_ok in E as (s1 & E1 & E).
  assert (H1 : exists o1, sections (s, o) (s1, o1) /\ (forall q, o1 q <-> o q) /\ is_Some (caches s1 !! i)).
  { destruct (_ <? _); [injection E1 as <-; exists o; split; [constructor|]; split; [auto|eauto]|].
    destruct (flush_sections _ s o i c s1 Hw Hc E1) as (o1 & H1 & Ho1). exists o1. split; [exact H1|]. split; [exact Ho1|].
    destruct (wp_ok_inv _ _ _ (flush_ok _ s i c (w_ok _ _ Hw) Hc) E1) as (_ & _ & _ & c' & Hc' & _). eauto. }
  destruct H1 as (o1 & H1 & Ho1 & [c1 Hc1]). rewrite (get_cache _ _ _ Hc1) in E. cbn [bind] in E. apply bind_ok in E as (c2 & E2 & E).
  unfold cache_push in E2. destruct (_ <? _) eqn:El in E2; [|easy]. injection E2 as <-. to_prop. rewrite (put_cache _ _ _ _ Hc1) in E. injection E as <-.
  exists (drop_ o1 p 1). split; [eapply sections_trans; [exact H1|]; apply sections_one, (SecPush s1 o1 i c1 p); auto; now apply Ho1|].
  intros q. unfold drop_. now rewrite Ho1.
Qed.

(** A loop of free sections keeps an invariant to its end. *)
Lemma loop_inv {S A} (I : S -> Prop) (Q : A -> Prop) k (f : S -> res (S + A)) s a :
  (forall s, I s -> forall s', f s = Ok (inl s') -> I s') -> (forall s, I s -> forall a, f s = Ok (inr a) -> Q a) ->
  I s -> loop k f s = Ok a -> Q a.
Proof.
  intros Hl Hr. revert s. induction k as [|k IH]; intros s HI E; cbn [loop] in E; [easy|].
  apply bind_ok in E as ([s1|b] & E1 & E2); [now apply (IH s1); [apply (Hl s)|]|]. injection E2 as <-. now apply (Hr s).
Qed.

Lemma free_run_sections s o b n s' : world_ok s0 (s, o) -> 1 <= n -> (forall p, b <= p < b + n -> o p) -> free_run s b (b + n) = Ok s' ->
  free_runs o b n s s'.
Proof.
  intros Hw Hn Ho E. pose proof (world_owned s0 s o b n H0 Hw Hn Ho) as (Hb & _ & He & _). pose proof (p_geo _ _ _ (w_ok _ _ Hw)) as Hg. simpl in Hg.
  pose proof (w_geo _ _ Hw) as Eg. simpl in Eg. unfold free_run in E. set (e := b + n) in *.
  set (Inv := fun '(s1, si) => b / 524288 <= si <= (e - 1) / 524288 /\
    exists o1, sections (s, o) (s1, o1) /\ forall p, o1 p <-> drop_ o b (Z.max b (sh_lo si) - b) p).
  assert (Hstep : forall s1 si s2, Inv (s1, si) -> free_in_shard_locked s1 si (shard_lo si b) (shard_hi si e - shard_lo si b) = Ok s2 ->
    exists o2, sections (s, o) (s2, o2) /\ forall p, o2 p <-> drop_ o b (Z.min e (sh_lo (si + 1)) - b) p).
  { intros s1 si s2 (Hsi & o1 & H1 & Ho1) Ef. pose proof (sections_ok s0 _ _ H0 Hw H1) as Hw1. pose proof (w_geo _ _ Hw1) as Eg1. simpl in Eg1.
    destruct (shard_part (geo s) b n si Hg) as (S1 & S2 & S3 & S4); [lia..|exact Hsi|exact Hn|]. fold e in S1, S3.
    assert (Hpart : shard_lo si b = Z.max b (sh_lo si) /\ shard_hi si e = Z.min e (sh_lo (si + 1))).
    { unfold shard_lo, shard_hi, sh_lo. consts. repeat case_bool; to_prop; lia. }
    destruct Hpart as [E1 E2]. rewrite E1, E2 in Ef. exists (drop_ o1 (Z.max b (sh_lo si)) (Z.min e (sh_lo (si + 1)) - Z.max b (sh_lo si))).
    split; [eapply sections_trans; [exact H1|]; apply (free_shard_runs o1 s1 si _ _ s2 Hw1); [| | | | |exact Ef]|].
    - rewrite Eg1, <- Eg. exact S2.
    - lia.
    - lia.
    - rewrite Eg1, <- Eg. unfold sh_hi, sh_len, sh_lo in *. lia.
    - intros p Hp. apply Ho1. split; [apply Ho; unfold sh_lo in *; lia|lia].
    - intros p. unfold drop_. rewrite Ho1. unfold drop_. split; [intros [[A B] C]; split; [exact A|lia]|intros [A B]; split; [split; [exact A|]|]; lia]. }
  eapply (loop_inv Inv (free_runs o b n s)); [| | |exact E].
  - intros [s1 si] HI [s2 sj] E2. apply bind_ok in E2 as (s3 & Ef & E3). destruct (e <=? shard_hi si e) eqn:El; [easy|]. injection E3 as <- <-. to_prop.
    unfold shard_hi in El. destruct HI as (Hsi & HI'). destruct (Hstep s1 si s3 (conj Hsi HI') Ef) as (o2 & H2 & Ho2). consts.
    assert (Hlt : (si + 1) * 524288 < e) by (destruct (e <? (si + 1) * 524288) eqn:E3; to_prop; lia).
    split; [dlia|]. exists o2. split; [exact H2|]. intros p. rewrite Ho2. now replace (Z.max b (sh_lo (si + 1))) with (Z.min e (sh_lo (si + 1))) by (unfold sh_lo in *; dlia).
  - intros [s1 si] HI s2 E2. apply bind_ok in E2 as (s3 & Ef & E3). destruct (e <=? shard_hi si e) eqn:El; [|easy]. injection E3 as <-. to_prop.
    destruct (Hstep s1 si s3 HI Ef) as (o2 & H2 & Ho2). exists o2. split; [exact H2|]. intros p. rewrite Ho2.
    unfold shard_hi in El. consts. replace (Z.min e (sh_lo (si + 1)) - b) with n; [reflexivity|]. unfold sh_lo. destruct (e <? (si + 1) * 524288) eqn:E3; to_prop; lia.
  - split; [split; [consts; lia|apply Z.div_le_mono; lia]|]. exists o. split; [constructor|]. intros p. unfold drop_, sh_lo. consts. split; [|tauto]. intros Hp. split; [exact Hp|dlia].
Qed.

Lemma Free_sections s o cpu b n s' : world_ok s0 (s, o) -> cpu_ok s cpu -> 1 <= n -> (forall p, b <= p < b + n -> o p) ->
  Free s cpu (b * PAGE_SIZE) n = Ok s' -> free_runs o b n s s'.
Proof.
  intros Hw Hcpu Hn Ho E. pose proof (world_owned s0 s o b n H0 Hw Hn Ho) as (Hb & _ & He & _). unfold Free in E.
  assert ((b * PAGE_SIZE =? 0) || (n =? 0) = false) as Ez by (apply orb_false_iff; consts; split; apply Z.eqb_neq; lia). rewrite Ez in E.
  assert (b * PAGE_SIZE / PAGE_SIZE = b) as Eb by (consts; now apply Z.div_mul). rewrite Eb in E. fold (pages (geo s)) in E. cbv zeta in E.
  assert (pages (geo s) <=? b = false) as Ele by (apply Z.leb_gt; lia). assert (pages (geo s) - b <? n = false) as Elt by (apply Z.ltb_ge; lia).
  rewrite Ele, Elt in E. destruct (n =? 1) eqn:E1; to_prop; [|now apply free_run_sections]. destruct cpu as [cpu|]; [|now apply free_run_sections].
  subst n. simpl in Hcpu. destruct (lookup_lt_is_Some_2 (caches s) (Z.to_nat cpu)) as [c Hc]; [lia|].
  replace cpu with (Z.of_nat (Z.to_nat cpu)) in E by lia. apply (free_cached_sections s o _ c b s' Hw Hc); [apply Ho; lia|exact E].
Qed.

Lemma free_block_sections s o b k s' : world_ok s0 (s, o) -> 0 <= k <= 19 -> b mod 2 ^ k = 0 -> (forall p, b <= p < b + 2 ^ k -> o p) ->
  free_block s (b * PAGE_SIZE) (2 ^ k) = Ok s' -> free_runs o b (2 ^ k) s s'.
Proof.
  intros Hw Hk Hal Ho E. assert (Hn : 1 <= 2 ^ k) by (pose proof (Z.pow_pos_nonneg 2 k); lia).
  pose proof (world_owned s0 s o b _ H0 Hw Hn Ho) as (Hb & _ & He & _). pose proof (p_geo _ _ _ (w_ok _ _ Hw)) as Hg. simpl in Hg.
  unfold free_block in E. assert (b * PAGE_SIZE =? 0 = false) as Ez by (consts; apply Z.eqb_neq; lia). rewrite Ez in E.
  assert (b * PAGE_SIZE / PAGE_SIZE = b) as Eb by (consts; now apply Z.div_mul). rewrite Eb in E. cbv zeta in E. fold (pages (geo s)) in E.
  rewrite land_mask, Hal in E by lia. simpl negb in E. assert (pages (geo s) <? b + 2 ^ k = false) as El by (apply Z.ltb_ge; lia). rewrite El in E.
  destruct (shard_of (geo s) b Hg ltac:(lia)) as [S1 S2]. exists (drop_ o b (2 ^ k)). split; [|auto].
  apply (free_shard_runs o s (b / SHARD_PAGES) b (2 ^ k)); auto; [consts; lia|]. pose proof (block_in_shard b k Hk Hal). consts. unfold sh_hi, sh_len, sh_lo in *. lia.
Qed.

(** Every call returns, and is a sequence of sections. *)
Record calls_run (s : pmm) (o : holding) : Prop := {
  run_Request : forall cpu n, cpu_ok s cpu -> 0 <= n ->
    exists p s', Request s cpu n = Ok (p, s') /\ sections (s, o) (s', after_ptr o n p);
  run_Request2MB : exists p s', Request2MB s = Ok (p, s') /\ sections (s, o) (s', after_ptr o 512 p);
  run_Request2GB : exists p s', Request2GB s = Ok (p, s') /\ sections (s, o) (s', after_ptr o 524288 p);
  run_Free : forall cpu b n, cpu_ok s cpu -> 1 <= n -> (forall p, b <= p < b + n -> o p) ->
    exists s', Free s cpu (b * PAGE_SIZE) n = Ok s' /\ free_runs o b n s s';
  run_Free2MB : forall b, b mod 512 = 0 -> (forall p, b <= p < b + 512 -> o p) ->
    exists s', Free2MB s (b * PAGE_SIZE) = Ok s' /\ free_runs o b 512 s s';
  run_Free2GB : forall b, b mod 524288 = 0 -> (forall p, b <= p < b + 524288 -> o p) ->
    exists s', Free2GB s (b * PAGE_SIZE) = Ok s' /\ free_runs o b 524288 s s'
}.

Lemma calls_run_ok s o : world_ok s0 (s, o) -> calls_run s o.
Proof.
  intros Hw. pose proof (w_ok _ _ Hw) as Hok. simpl in Hok. split.
  - intros cpu n Hcpu Hn. assert (Hr : exists x, Request s cpu n = Ok x).
    { destruct ((n =? 0) || (pages (geo s) <? n)) eqn:E; [exists (0, s); unfold Request; fold (pages (geo s)); now rewrite E|].
      apply orb_false_iff in E as [E1 E2]. to_prop. pose proof (Request_ok s cpu n Hok Hcpu ltac:(lia)) as H. apply wp_ex in H as (x & E & _). eauto. }
    destruct Hr as [[p s'] E]. exists p, s'. split; [exact E|now apply Request_sections with cpu].
  - pose proof (Request2MB_ok s Hok) as H. apply wp_ex in H as ([p s'] & E & _). exists p, s'. split; [exact E|now apply Request2MB_sections].
  - pose proof (Request2GB_ok s Hok) as H. apply wp_ex in H as ([p s'] & E & _). exists p, s'. split; [exact E|now apply Request2GB_sections].
  - intros cpu b n Hcpu Hn Ho. pose proof (Free_ok s cpu b n Hok Hcpu (world_owned s0 s o b n H0 Hw Hn Ho)) as H.
    apply wp_ex in H as (s' & E & _). exists s'. split; [exact E|now apply Free_sections with cpu].
  - intros b Hal Ho. pose proof (free_block_ok s b 512 9 Hok (world_owned s0 s o b 512 H0 Hw ltac:(lia) Ho) ltac:(reflexivity) ltac:(lia) Hal) as H.
    apply wp_ex in H as (s' & E & _). exists s'. split; [exact E|now apply (free_block_sections s o b 9)].
  - intros b Hal Ho. pose proof (free_block_ok s b 524288 19 Hok (world_owned s0 s o b 524288 H0 Hw ltac:(lia) Ho) ltac:(reflexivity) ltac:(lia) Hal) as H.
    apply wp_ex in H as (s' & E & _). exists s'. split; [exact E|now apply (free_block_sections s o b 19)].
Qed.
End Api.

(** C18: in every state the sections reach, each call of the interface returns,
    for whatever request and for every block its caller holds, and does what a
    sequence of sections does: a request that returns a block adds exactly its
    pages to those held, one that returns NULL adds none, and a free removes
    exactly the pages of its block. *)
Theorem calls_refine_sections s0 s o : pmm_ok s0 -> sections (s0, fun _ => False) (s, o) -> calls_run s o.
Proof. intros H0 Hs. apply (calls_run_ok s0 H0). now apply (sections_ok s0 (s0, fun _ => False)); [|apply world_start|]. Qed.

Lemma calls_refine_sections_witness : calls_run ex_pmm (fun _ => False).
Proof. apply (calls_refine_sections ex_pmm); [apply ex_ok|constructor]. Defined.
