(* ===== verification/VMA.v ===== *)
(** Virtual address ranges of a page map, [src/kernel/src/arch/x86_64/vmm/vma.cpp]:
    regions in a circular doubly linked list with a sentinel and in the
    red-black tree of [RBTree], ordered by start address; a pool of region nodes
    cut out of physical pages; lookup, insertion with merging, splitting,
    removal, and the next-fit allocation of address ranges.

    A region is named by its address; the tree node embedded in it has the same
    name in the store of tree nodes, so [container_of] is the identity.  Pages
    for the pool come from [PMM::Request], whose results are a list. *)
From stdpp Require Import base gmap list fin_maps.
From Stdlib Require Import ZArith Lia.
From S2P Require Import Prelude RBTree PMM.

Open Scope Z_scope.
Open Scope c_scope.

(** * State *)

Record vma_region : Type := Region {
  v_start : Z;
  v_count : Z;      (* page_count *)
  v_flags : Z;
  v_next : Z;
  v_prev : Z;
  v_in_tree : bool  (* rb_root is not NULL *)
}.

(** What a page map has for its ranges, and the pool of nodes: the regions and
    the tree nodes in memory, the tree, the sentinel, the place of the last
    allocation, the free nodes; [pmm_pages] are the results of the coming calls
    of [PMM::Request] and [entropy] the values the coming calls of
    [rdrand64_retry] (0 where the processor has none) and [rdtsc] return. *)
Record vma_state : Type := Vma {
  regions : gmap Z vma_region;
  rb_nodes : gmap Z rb_node;
  vma_tree : rb_root;
  vma_head : Z;
  vma_cursor : Z;
  g_node_free_list : Z;
  aslr_sv : Z;
  pmm_pages : list Z;
  entropy : list (Z * Z)
}.

(** [hhdm_offset] and [IsPM5LVL] are set when the kernel starts. *)
Record vm_conf : Type := VmConf { hhdm_offset : Z; IsPM5LVL : bool }.

(** [sizeof(vma_region_t)]: six words and a tree node of 56 bytes. *)
Definition sizeof_region : Z := 104.
Definition nodes_per_page : Z := PAGE_SIZE / sizeof_region.

Definition MM_USER : Z := 4.
Definition USER_SPACE_END_5LVL : Z := 0xFEFFFFFFFFFFFF.
Definition USER_CEIL : Z := 0x800000000000.

Definition set_start (v : Z) (r : vma_region) : vma_region := Region v (v_count r) (v_flags r) (v_next r) (v_prev r) (v_in_tree r).
Definition set_count (v : Z) (r : vma_region) : vma_region := Region (v_start r) v (v_flags r) (v_next r) (v_prev r) (v_in_tree r).
Definition set_next (v : Z) (r : vma_region) : vma_region := Region (v_start r) (v_count r) (v_flags r) v (v_prev r) (v_in_tree r).
Definition set_prev (v : Z) (r : vma_region) : vma_region := Region (v_start r) (v_count r) (v_flags r) (v_next r) v (v_in_tree r).
Definition set_in_tree (v : bool) (r : vma_region) : vma_region := Region (v_start r) (v_count r) (v_flags r) (v_next r) (v_prev r) v.

Definition with_regions (s : vma_state) (m : gmap Z vma_region) : vma_state :=
  Vma m (rb_nodes s) (vma_tree s) (vma_head s) (vma_cursor s) (g_node_free_list s) (aslr_sv s) (pmm_pages s) (entropy s).
Definition with_tree (s : vma_state) (t : rb_root * gmap Z rb_node) : vma_state :=
  Vma (regions s) t.2 t.1 (vma_head s) (vma_cursor s) (g_node_free_list s) (aslr_sv s) (pmm_pages s) (entropy s).
Definition with_head (s : vma_state) (v : Z) : vma_state :=
  Vma (regions s) (rb_nodes s) (vma_tree s) v (vma_cursor s) (g_node_free_list s) (aslr_sv s) (pmm_pages s) (entropy s).
Definition with_cursor (s : vma_state) (v : Z) : vma_state :=
  Vma (regions s) (rb_nodes s) (vma_tree s) (vma_head s) v (g_node_free_list s) (aslr_sv s) (pmm_pages s) (entropy s).
Definition with_free_list (s : vma_state) (v : Z) : vma_state :=
  Vma (regions s) (rb_nodes s) (vma_tree s) (vma_head s) (vma_cursor s) v (aslr_sv s) (pmm_pages s) (entropy s).
Definition with_entropy (s : vma_state) (sv : Z) (l : list (Z * Z)) : vma_state :=
  Vma (regions s) (rb_nodes s) (vma_tree s) (vma_head s) (vma_cursor s) (g_node_free_list s) sv (pmm_pages s) l.

(** [r->field] and [r->field = v] *)
Definition rd {A} (f : vma_region -> A) (s : vma_state) (r : Z) : res A :=
  match regions s !! r with
  | Some x => Ok (f x)
  | None => Fault
  end.

Definition wr (f : vma_region -> vma_region) (s : vma_state) (r : Z) : res vma_state :=
  match regions s !! r with
  | Some x => Ok (with_regions s (<[r := f x]> (regions s)))
  | None => Fault
  end.

(** * The pool of nodes *)

(** A page of memory that holds [n] nodes; what they contain does not matter. *)
Definition page_nodes (base : Z) (n : nat) : list Z := (fun i => base + Z.of_nat i * sizeof_region) <$> seq 0 n.

(** The next result of [PMM::Request], the page mapped when there is one. *)
Definition request_page (conf : vm_conf) (s : vma_state) : Z * vma_state :=
  match pmm_pages s with
  | [] => (0, s)
  | pg :: rest =>
      let s := Vma (regions s) (rb_nodes s) (vma_tree s) (vma_head s) (vma_cursor s) (g_node_free_list s) (aslr_sv s) rest (entropy s) in
      if pg =? 0 then (0, s)
      else
        let ns := page_nodes (u64 (pg + hhdm_offset conf)) (Z.to_nat nodes_per_page) in
        (pg, with_tree
               (with_regions s (list_to_map ((fun a => (a, Region 0 0 0 0 0 false)) <$> ns) ∪ regions s))
               (vma_tree s, list_to_map ((fun a => (a, RbNode 0 0 0 0 0 0 0)) <$> ns) ∪ rb_nodes s))
  end.

Definition vma_alloc_node (conf : vm_conf) (s : vma_state) : res (Z * vma_state) :=
  if g_node_free_list s =? 0 then
    let '(pg, s) := request_page conf s in
    if pg =? 0 then Ok (0, s)
    else
      let base := u64 (pg + hhdm_offset conf) in
      let node := fun i => base + i * sizeof_region in
      let n := nodes_per_page in
      let* s := for_up (Z.to_nat (n - 2)) 1 (fun i s => wr (set_next (node (i + 1))) s (node i)) s in
      let* s := if 1 <? n then wr (set_next 0) s (node (n - 1)) else Ok s in
      Ok (base, with_free_list s (if 1 <? n then node 1 else 0))
  else
    let r := g_node_free_list s in
    let* next := rd v_next s r in
    Ok (r, with_free_list s next).

Definition vma_free_node (s : vma_state) (r : Z) : res vma_state :=
  if r =? 0 then Ok s
  else
    let* s := wr (set_next (g_node_free_list s)) s r in
    Ok (with_free_list s r).

(** * Searching *)

Definition region_end (r : vma_region) : Z := u64 (v_start r + u64 (v_count r * PAGE_SIZE)).

(** [container_of(a, ...)->start] *)
Definition start_at (m : gmap Z vma_region) (a : Z) : Z := default 0 (v_start <$> m !! a).

Definition vma_rb_cmp (m : gmap Z vma_region) (a b : Z) : Z :=
  if start_at m a <? start_at m b then -1
  else if start_at m b <? start_at m a then 1
  else 0.

Definition vma_tree_find_le (s : vma_state) (addr : Z) : res Z :=
  loop (walk (rb_nodes s)) (fun '(cur, best) =>
    if nonnull cur then
      let* start := rd v_start s cur in
      if start <=? addr then let* r := ld n_right (rb_nodes s) cur in Ok (inl (r, cur))
      else let* l := ld n_left (rb_nodes s) cur in Ok (inl (l, best))
    else Ok (inr best)) (r_node (vma_tree s), 0).

Definition vma_tree_find_gt (s : vma_state) (addr : Z) : res Z :=
  loop (walk (rb_nodes s)) (fun '(cur, best) =>
    if nonnull cur then
      let* start := rd v_start s cur in
      if addr <? start then let* l := ld n_left (rb_nodes s) cur in Ok (inl (l, cur))
      else let* r := ld n_right (rb_nodes s) cur in Ok (inl (r, best))
    else Ok (inr best)) (r_node (vma_tree s), 0).

(** * Insertion and removal *)

Definition tree_insert (s : vma_state) (r : Z) : res vma_state :=
  let* t := rb_insert (vma_rb_cmp (regions s)) (vma_tree s) (rb_nodes s) r in
  Ok (with_tree s t).

Definition tree_erase (s : vma_state) (r : Z) : res vma_state :=
  let* in_tree := rd v_in_tree s r in
  if (in_tree : bool) then
    let* t := rb_erase (vma_tree s) (rb_nodes s) r in
    wr (set_in_tree false) (with_tree s t) r
  else Ok s.

(** [r->next->prev = r->prev; r->prev->next = r->next;] *)
Definition list_unlink (s : vma_state) (r : Z) : res vma_state :=
  let* n := rd v_next s r in
  let* p := rd v_prev s r in
  let* s := wr (set_prev p) s n in
  let* p := rd v_prev s r in
  let* n := rd v_next s r in
  wr (set_next n) s p.

Definition vma_destroy_locked (s : vma_state) (r : Z) : res vma_state :=
  let* s := if vma_cursor s =? r then let* p := rd v_prev s r in Ok (with_cursor s p) else Ok s in
  let* s := tree_erase s r in
  let* s := list_unlink s r in
  vma_free_node s r.

Definition InsertRegion (conf : vm_conf) (s : vma_state) (after start page_count flags : Z) : res (Z * vma_state) :=
  if after =? 0 then Ok (0, s)
  else
    let* (region, s) := vma_alloc_node conf s in
    if region =? 0 then Ok (0, s)
    else
      let* next := rd v_next s after in
      let* s := wr (fun _ => Region start page_count flags next after false) s region in
      let* next := rd v_next s after in
      let* s := wr (set_prev region) s next in
      let* s := wr (set_next region) s after in
      Ok (region, s).

(** [r->rb_root = &pagemap->vma_tree; rb_insert(...)] *)
Definition enter_tree (s : vma_state) (r : Z) : res vma_state :=
  let* s := wr (set_in_tree true) s r in tree_insert s r.

Definition SplitRegion (conf : vm_conf) (s : vma_state) (region split_addr : Z) : res (Z * vma_state) :=
  if (region =? 0) || (region =? vma_head s) then Ok (0, s)
  else
    let split := split_addr / PAGE_SIZE * PAGE_SIZE in
    let* r_start := rd v_start s region in
    let* r_end := rd region_end s region in
    if (split <=? r_start) || (r_end <=? split) then Ok (0, s)
    else
      let head_pages := (split - r_start) / PAGE_SIZE in
      let tail_pages := (r_end - split) / PAGE_SIZE in
      let* flags := rd v_flags s region in
      let* (tail, s) := InsertRegion conf s region split tail_pages flags in
      if tail =? 0 then Ok (0, s)
      else
        let* s := wr (set_count head_pages) s region in
        let* s := enter_tree s tail in
        Ok (tail, s).

(** Two regions where [a] ends at the start of [b], with the same flags. *)
Definition adjacent (s : vma_state) (a b : Z) : res bool :=
  let* e := rd region_end s a in
  let* st := rd v_start s b in
  if e =? st then
    let* fa := rd v_flags s a in
    let* fb := rd v_flags s b in
    Ok (fb =? fa)
  else Ok false.

(** [a->page_count += b->page_count; destroy b] *)
Definition absorb (s : vma_state) (a b : Z) : res vma_state :=
  let* c := rd v_count s b in
  let* s := wr (fun r => set_count (u64 (v_count r + c)) r) s a in
  vma_destroy_locked s b.

(** Fuel: each round of the merging loops removes a region. *)
Definition merge_following (s : vma_state) (region : Z) : res vma_state :=
  let* cur := rd v_next s region in
  loop (S (size (regions s))) (fun '(s, cur) =>
    let* more := if negb (cur =? vma_head s) then adjacent s region cur else Ok false in
    if (more : bool) then
      let* nxt := rd v_next s cur in
      let* s := absorb s region cur in
      Ok (inl (s, nxt))
    else Ok (inr s)) (s, cur).

Definition merge_preceding (s : vma_state) (region : Z) : res (Z * vma_state) :=
  let* prev := rd v_prev s region in
  loop (S (size (regions s))) (fun '(s, region, prev) =>
    let* more := if negb (prev =? vma_head s) then adjacent s prev region else Ok false in
    if (more : bool) then
      let* before := rd v_prev s prev in
      let* s := absorb s prev region in
      Ok (inl (s, prev, before))
    else Ok (inr (region, s))) (s, region, prev).

Definition MergeRegion (s : vma_state) (region : Z) : res (Z * vma_state) :=
  if (region =? 0) || (region =? vma_head s) then Ok (region, s)
  else
    let* s := merge_following s region in
    merge_preceding s region.

Definition SetStart (conf : vm_conf) (s : vma_state) (start : Z) : res vma_state :=
  if negb (vma_head s =? 0) then wr (set_start start) s (vma_head s)
  else
    let* (sentinel, s) := vma_alloc_node conf s in
    if sentinel =? 0 then Ok s
    else
      let* s := wr (fun _ => Region start 0 0 sentinel sentinel false) s sentinel in
      Ok (with_tree (with_cursor (with_head s sentinel) sentinel) (rb_root_init, rb_nodes s)).

Definition AddRegion (conf : vm_conf) (s : vma_state) (start page_count flags : Z) : res (Z * vma_state) :=
  if (vma_head s =? 0) || (page_count =? 0) then Ok (0, s)
  else
    let* last := rd v_prev s (vma_head s) in
    let* (region, s) := InsertRegion conf s last start page_count flags in
    if region =? 0 then Ok (0, s)
    else
      let* s := enter_tree s region in
      MergeRegion s region.

Definition IsRangeFree (s : vma_state) (start page_count : Z) : res bool :=
  if page_count =? 0 then Ok false
  else
    let end_ := u64 (start + u64 (page_count * PAGE_SIZE)) in
    if end_ <? start then Ok false
    else
      let* prev_r := vma_tree_find_le s start in
      let* over := if nonnull prev_r then let* e := rd region_end s prev_r in Ok (start <? e) else Ok false in
      if (over : bool) then Ok false
      else
        let* next_r := vma_tree_find_gt s start in
        let* over := if nonnull next_r then let* st := rd v_start s next_r in Ok (st <? end_) else Ok false in
        if (over : bool) then Ok false else Ok true.

(** The code repeats the body of [vma_destroy_locked]. *)
Definition RemoveRegion (s : vma_state) (region : Z) : res vma_state :=
  if region =? 0 then Ok s else vma_destroy_locked s region.

Definition FindRegion (s : vma_state) (addr : Z) : res Z :=
  if vma_head s =? 0 then Ok 0
  else
    let page_addr := addr / PAGE_SIZE * PAGE_SIZE in
    let* best := vma_tree_find_le s page_addr in
    if best =? 0 then Ok 0
    else
      let* st := rd v_start s best in
      let* e := rd region_end s best in
      if (st <=? page_addr) && (page_addr <? e) then Ok best else Ok 0.

(** * Allocation of address ranges *)

(** The next random value: that of the processor, or a splitmix64 stream mixed
    with the time stamp counter. *)
Definition aslr_random (s : vma_state) : Z * vma_state :=
  match entropy s with
  | [] => (0, s)
  | (v, tsc) :: rest =>
      if negb (v =? 0) then (v, with_entropy s (aslr_sv s) rest)
      else
        let sv := u64 (aslr_sv s + 0x9E3779B97F4A7C15) in
        let z := Z.lxor sv tsc in
        let z := u64 (Z.lxor z (Z.shiftr z 30) * 0xBF58476D1CE4E5B9) in
        let z := u64 (Z.lxor z (Z.shiftr z 27) * 0x94D049BB133111EB) in
        (Z.lxor z (Z.shiftr z 31), with_entropy s sv rest)
  end.

(** The upper bound for a range whose lower bound is [lo]. *)
Definition range_hi (conf : vm_conf) (lo : Z) : Z :=
  if hhdm_offset conf <=? lo then 2 ^ 64 - 1
  else if IsPM5LVL conf then USER_SPACE_END_5LVL else 0x800000000000.

(** A new region behind [after], in the tree, and the cursor on it. *)
Definition place_region (conf : vm_conf) (s : vma_state) (after addr page_count flags : Z) : res (Z * vma_state) :=
  let* (r, s) := InsertRegion conf s after addr page_count flags in
  if r =? 0 then Ok (0, s)
  else
    let* s := enter_tree s r in
    Ok (addr, with_cursor s r).

(** The gap at the hint: the region before it, or 0, when it fits. *)
Definition hint_fits (s : vma_state) (lo hi need hint : Z) : res (option Z) :=
  if (lo <=? hint) && (hint <=? u64 (hi - need)) then
    let* prev_r := vma_tree_find_le s hint in
    let* next_r := vma_tree_find_gt s hint in
    let* prev_end := if nonnull prev_r then rd region_end s prev_r else Ok lo in
    let prev_end := if prev_end <? lo then lo else prev_end in
    let* cur_start := if nonnull next_r then rd v_start s next_r else Ok hi in
    if (prev_end <=? hint) && (u64 (hint + need) <=? cur_start) then Ok (Some prev_r) else Ok None
  else Ok None.

(** [(best_after, best_addr, best_gap_hi)] *)
Definition gap : Type := Z * Z * Z.

(** One round of the ring scan at [cur]: the gap behind it, or the gap in front
    of all regions when [cur] is the last, or the next region. *)
Definition fit_round (s : vma_state) (lo hi need : Z) (is_user : bool) (start_node : Z) :
  Z * bool -> res ((Z * bool) + option gap) := fun '(cur, is_first) =>
    if nonnull cur && (is_first || negb (cur =? start_node)) then
      let* next := rb_next (rb_nodes s) cur in
      let* gap_lo := rd region_end s cur in
      let gap_lo := if gap_lo <? lo then lo else gap_lo in
      let* gap_hi := if nonnull next then rd v_start s next else Ok hi in
      let gap_hi := if is_user && (USER_CEIL <? gap_hi) then USER_CEIL else gap_hi in
      if (gap_lo <? gap_hi) && (need <=? gap_hi - gap_lo) then Ok (inr (Some (cur, gap_lo, gap_hi)))
      else if nonnull next then Ok (inl (next, false))
      else
        let* cur := rb_first (rb_nodes s) (r_node (vma_tree s)) in
        if nonnull cur then
          let* first_start := rd v_start s cur in
          if (lo <? first_start) && (need <=? first_start - lo) then Ok (inr (Some (0, lo, first_start)))
          else Ok (inl (cur, false))
        else Ok (inl (cur, false))
    else Ok (inr None).

(** Fuel: the scan goes over every region at most once and comes back. *)
Definition next_fit (s : vma_state) (lo hi need : Z) (is_user : bool) : res (option gap) :=
  let* start_node :=
    if nonnull (vma_cursor s) && negb (vma_cursor s =? vma_head s) then Ok (vma_cursor s)
    else rb_first (rb_nodes s) (r_node (vma_tree s)) in
  if start_node =? 0 then Ok (Some (0, lo, if is_user then USER_CEIL else hi))
  else loop (walk (rb_nodes s)) (fit_round s lo hi need is_user start_node) (start_node, true).

(** A random position inside the gap, for user ranges. *)
Definition slide (s : vma_state) (is_user : bool) (best_addr best_gap_hi need : Z) : Z * vma_state :=
  if (is_user : bool) then
    let slide_hi := if (best_gap_hi =? 0) || (USER_CEIL <? best_gap_hi) then USER_CEIL else best_gap_hi in
    if (best_addr <? slide_hi) && (need <? slide_hi - best_addr) then
      let slack_pages := (slide_hi - best_addr - need) / PAGE_SIZE in
      if 0 <? slack_pages then
        let '(r, s) := aslr_random s in (u64 (best_addr + u64 (r mod slack_pages * PAGE_SIZE)), s)
      else (best_addr, s)
    else (best_addr, s)
  else (best_addr, s).

Definition InternalAlloc (conf : vm_conf) (s : vma_state) (page_count flags hint : Z) : res (Z * vma_state) :=
  if page_count =? 0 then Ok (0, s)
  else
    let need := u64 (page_count * PAGE_SIZE) in
    let is_user := negb (Z.land flags MM_USER =? 0) in
    if negb (need / PAGE_SIZE =? page_count) then Ok (0, s)
    else
      let* lo := rd v_start s (vma_head s) in
      let hi := range_hi conf lo in
      if (hi <=? lo) || (hi - lo <? need) then Ok (0, s)
      else
        let* at_hint := hint_fits s lo hi need hint in
        match at_hint with
        | Some prev_r => place_region conf s (if nonnull prev_r then prev_r else vma_head s) hint page_count flags
        | None =>
            let* found := next_fit s lo hi need is_user in
            match found with
            | None => Ok (0, s)
            | Some (best_after, best_addr, best_gap_hi) =>
                let '(best_addr, s) := slide s is_user best_addr best_gap_hi need in
                place_region conf s (if nonnull best_after then best_after else vma_head s) best_addr page_count flags
            end
        end.
