(* ===== verification/VMAInv.v ===== *)
(** The invariant of the address ranges of a page map: the ring of regions, the
    tree, the free nodes, and the ranges themselves as a sorted list of spans. *)
From stdpp Require Import base gmap list fin_maps sets.
From Stdlib Require Import ZArith Lia Sorting.Sorted.
From S2P Require Import Prelude RBTree RBRep RBInsert RBSearch RBErase PMM VMA.

Open Scope Z_scope.
Open Scope c_scope.

(** * Fields *)

Definition nx (m : gmap Z vma_region) (x : Z) : Z := default 0 (v_next <$> m !! x).
Definition pv (m : gmap Z vma_region) (x : Z) : Z := default 0 (v_prev <$> m !! x).

Lemma rd_ok {A} (f : vma_region -> A) s x r : regions s !! x = Some r -> rd f s x = Ok (f r).
Proof. intros H. unfold rd. now rewrite H. Qed.

Lemma wr_ok f s x r : regions s !! x = Some r -> wr f s x = Ok (with_regions s (<[x := f r]> (regions s))).
Proof. intros H. unfold wr. now rewrite H. Qed.

Lemma nx_some m x r : m !! x = Some r -> nx m x = v_next r.
Proof. unfold nx. now intros ->. Qed.

Lemma pv_some m x r : m !! x = Some r -> pv m x = v_prev r.
Proof. unfold pv. now intros ->. Qed.

Lemma nx_insert_eq m x r : nx (<[x := r]> m) x = v_next r.
Proof. unfold nx. now rewrite lookup_insert_eq. Qed.

Lemma pv_insert_eq m x r : pv (<[x := r]> m) x = v_prev r.
Proof. unfold pv. now rewrite lookup_insert_eq. Qed.

Lemma nx_insert_ne m x y r : x <> y -> nx (<[x := r]> m) y = nx m y.
Proof. intros H. unfold nx. now rewrite lookup_insert_ne. Qed.

Lemma pv_insert_ne m x y r : x <> y -> pv (<[x := r]> m) y = pv m y.
Proof. intros H. unfold pv. now rewrite lookup_insert_ne. Qed.

(** * Doubly linked segments *)

(** From [a] over the nodes [L] to [b]. *)
Fixpoint dll (m : gmap Z vma_region) (a : Z) (L : list Z) (b : Z) : Prop :=
  match L with
  | [] => nx m a = b /\ pv m b = a
  | x :: L' => nx m a = x /\ pv m x = a /\ dll m x L' b
  end.

(** The successor links of [a :: L] and the predecessor links of [L ++ [b]] are
    all a segment reads. *)
Lemma dll_frame m m' a L b : (forall x, x ∈ a :: L -> nx m' x = nx m x) -> (forall x, x ∈ b :: L -> pv m' x = pv m x) ->
  dll m a L b -> dll m' a L b.
Proof.
  revert a. induction L as [|y L IH]; intros a Hn Hp; simpl.
  - intros [<- H]. rewrite Hn, Hp by set_solver. auto.
  - intros (<- & H1 & H2). rewrite Hn, Hp by set_solver. split; [reflexivity|]. split; [exact H1|].
    apply IH; [intros x Hx; apply Hn; set_solver|intros x Hx; apply Hp; set_solver|exact H2].
Qed.

Lemma dll_app m a L1 x L2 b : dll m a (L1 ++ x :: L2) b <-> dll m a L1 x /\ dll m x L2 b.
Proof. revert a. induction L1 as [|y L1 IH]; intros a; simpl; [tauto|]. rewrite IH. tauto. Qed.

(** The node in front of position [length L1] and the one at it. *)
Definition before_ (a : Z) (L1 : list Z) : Z := default a (last L1).
Definition behind (L2 : list Z) (b : Z) : Z := default b (head L2).

Lemma before_cons a y L1 : before_ a (y :: L1) = before_ y L1.
Proof. unfold before_. rewrite last_cons. now destruct (last L1). Qed.

Lemma dll_mid m a L1 L2 b : dll m a (L1 ++ L2) b -> nx m (before_ a L1) = behind L2 b /\ pv m (behind L2 b) = before_ a L1.
Proof.
  revert a. induction L1 as [|y L1 IH]; intros a; simpl.
  - destruct L2; simpl; tauto.
  - intros (_ & _ & H). rewrite before_cons. now apply IH.
Qed.

Lemma before_elem a L1 : before_ a L1 ∈ a :: L1.
Proof.
  unfold before_. destruct (last L1) eqn:E; simpl; [|set_solver]. apply last_Some_elem_of in E. set_solver.
Qed.

Lemma behind_elem L2 b : behind L2 b ∈ b :: L2.
Proof. unfold behind. destruct L2; simpl; set_solver. Qed.

(** Replacing the nodes between [before_ a L1] and [behind L2 b] by [M]. *)
Lemma dll_splice m m' a L1 L2 b M M' : dll m a (L1 ++ M ++ L2) b -> NoDup (a :: L1 ++ L2) -> b ∉ L1 ++ L2 ->
  (forall x, x ∈ a :: L1 ++ L2 -> x <> before_ a L1 -> nx m' x = nx m x) ->
  (forall x, x ∈ b :: L1 ++ L2 -> x <> behind L2 b -> pv m' x = pv m x) ->
  dll m' (before_ a L1) M' (behind L2 b) -> dll m' a (L1 ++ M' ++ L2) b.
Proof.
  revert a. induction L1 as [|y L1 IH]; intros a Hd Hnd Hb Hn Hp Hm; simpl in *.
  - destruct L2 as [|z L2]; unfold before_, behind in *; simpl in *.
    + now rewrite !app_nil_r.
    + apply dll_app. split; [exact Hm|]. apply dll_app in Hd as [_ Hd]. apply NoDup_cons in Hnd as [Ha Hnd]. apply NoDup_cons in Hnd as [Hz Hnd].
      apply (dll_frame m); [| |exact Hd].
      * intros x Hx. apply Hn; [set_solver|]. intros ->. contradiction.
      * intros x Hx. apply Hp; [set_solver|]. intros ->. set_solver.
  - destruct Hd as (<- & H1 & Hd). apply NoDup_cons in Hnd as [Ha Hnd].
    rewrite before_cons in *.
    assert (Hne : a <> before_ (nx m a) L1) by (intros E; apply Ha; rewrite E at 1; pose proof (before_elem (nx m a) L1); set_solver).
    split; [apply Hn; [set_solver|exact Hne]|]. split.
    + rewrite Hp; [exact H1|set_solver|]. intros E. apply NoDup_cons in Hnd as [Hy _]. pose proof (behind_elem L2 b) as Hbe. rewrite <- E in Hbe. set_solver.
    + apply (IH (nx m a)); auto; [set_solver| |].
      * intros x Hx Hxb. apply Hn; [set_solver|exact Hxb].
      * intros x Hx Hxb. apply Hp; [set_solver|exact Hxb].
Qed.

(** * The structure *)

(** The free nodes, linked by their next fields. *)
Fixpoint chain (m : gmap Z vma_region) (a : Z) (F : list Z) : Prop :=
  match F with
  | [] => a = 0
  | x :: F' => a = x /\ chain m (nx m x) F'
  end.

Lemma chain_frame m m' a F : (forall x, x ∈ F -> nx m' x = nx m x) -> chain m a F -> chain m' a F.
Proof.
  revert a. induction F as [|x F IH]; intros a Hn; simpl; [auto|]. intros [-> H]. split; [reflexivity|].
  rewrite Hn by set_solver. apply IH; [intros y Hy; apply Hn; set_solver|exact H].
Qed.

(** The nodes of the pages that are still to come. *)
Definition pool_nodes (conf : vm_conf) (pg : Z) : list Z :=
  if pg =? 0 then [] else page_nodes (u64 (pg + hhdm_offset conf)) (Z.to_nat nodes_per_page).
Definition pool (conf : vm_conf) (pages : list Z) : list Z := concat (pool_nodes conf <$> pages).

(** [T] are the nodes of the tree in address order, [X] nodes that are in the
    ring but not in the tree, [L] the ring from the sentinel on, [F] the free
    nodes; the pages that are to come are not in use. *)
Record vma_core (conf : vm_conf) (s : vma_state) (T X L F : list Z) : Prop := {
  i_tree : rb_ok (vma_rb_cmp (regions s)) (vma_tree s) (rb_nodes s) T;
  i_ring : dll (regions s) (vma_head s) L (vma_head s);
  i_perm : L ≡ₚ X ++ T;
  i_nodup : NoDup (vma_head s :: L ++ F);
  i_nz : 0 ∉ vma_head s :: L ++ F;
  i_free : chain (regions s) (g_node_free_list s) F;
  i_dom : forall x, is_Some (regions s !! x) <-> is_Some (rb_nodes s !! x);
  i_mem : forall x, x ∈ vma_head s :: L ++ F -> is_Some (regions s !! x);
  i_flag : forall x r, regions s !! x = Some r -> x ∈ vma_head s :: L -> v_in_tree r = bool_decide (x ∈ T);
  i_cursor : vma_cursor s ∈ vma_head s :: T;
  i_pool : NoDup (pool conf (pmm_pages s));
  i_fresh : forall x, x ∈ pool conf (pmm_pages s) -> x <> 0 /\ regions s !! x = None
}.

(** No node is lost: each is the sentinel, in the ring or free. *)
Definition whole (s : vma_state) (L F : list Z) : Prop := forall x, is_Some (regions s !! x) -> x ∈ vma_head s :: L ++ F.

Record vma_inv (conf : vm_conf) (s : vma_state) (T X L F : list Z) : Prop := {
  i_core :> vma_core conf s T X L F;
  i_whole : whole s L F
}.

(** The nodes in memory are those of the tree and the ring, the free ones and the
    sentinel. *)
Lemma node_count conf s T L F : vma_inv conf s T [] L F -> size (regions s) = S (length T + length F).
Proof.
  intros [C W]. assert (E : dom (regions s) = list_to_set (vma_head s :: L ++ F)).
  { apply set_eq. intros x. rewrite elem_of_dom, elem_of_list_to_set. split; [apply W|apply (i_mem _ _ _ _ _ _ C)]. }
  rewrite <- size_dom, E, size_list_to_set by apply C. cbn [length]. rewrite length_app. f_equal. f_equal. apply Permutation_length, C.
Qed.

(** Start, pages and flags of a region. *)
Definition span : Type := Z * Z * Z.
Definition span_of (m : gmap Z vma_region) (x : Z) : span :=
  match m !! x with Some r => (v_start r, v_count r, v_flags r) | None => (0, 0, 0) end.

Lemma start_span m x : start_at m x = (span_of m x).1.1.
Proof. unfold start_at, span_of. now destruct (m !! x). Qed.

Lemma cmp_start m a b : vma_rb_cmp m a b <= 0 <-> start_at m a <= start_at m b.
Proof. unfold vma_rb_cmp. repeat case_bool; to_prop; lia. Qed.

Lemma cmp_start_lt m a b : vma_rb_cmp m a b < 0 <-> start_at m a < start_at m b.
Proof. unfold vma_rb_cmp. repeat case_bool; to_prop; lia. Qed.

#[export] Instance vma_rb_cmp_good m : GoodCmp (vma_rb_cmp m).
Proof.
  split; intros a b.
  - rewrite cmp_start_lt. unfold vma_rb_cmp. repeat case_bool; to_prop; lia.
  - intros c. rewrite !cmp_start. lia.
Qed.

Lemma is_tree_ext h h' p t : (forall x, x ∈ inorder t -> h' !! x = h !! x) -> is_tree h p t -> is_tree h' p t.
Proof.
  revert p. induction t as [|c l IHl a r IHr]; intros p Hx; simpl in *; [auto|]. intros ((n & Hn & H1) & H2 & H3).
  split; [exists n; rewrite Hx by set_solver; auto|]. split; [apply IHl|apply IHr]; auto; intros x Hin; apply Hx; set_solver.
Qed.

(** The tree depends on its own nodes and the order of them. *)
Lemma rb_ok_agree cmp cmp' r h h' T : (forall x, x ∈ T -> h' !! x = h !! x) -> (forall x y, x ∈ T -> y ∈ T -> cmp x y <= 0 -> cmp' x y <= 0) ->
  rb_ok cmp r h T -> rb_ok cmp' r h' T.
Proof.
  intros Hh Hc (t & (Ht & Hp & Hnd) & Hrb & <- & Ho & Hn & Hhint & Hs). exists t. split; [split; [now apply (is_tree_ext h)|auto]|].
  split; [exact Hrb|]. split; [reflexivity|]. split; [|split; [exact Hn|split; [exact Hhint|]]].
  - revert Hc Ho. unfold ordered. clear. generalize (inorder t). intros T Hc Ho. induction Ho as [|x T Ho IH Hx]; constructor.
    + apply IH. intros y z Hy Hz. apply Hc; set_solver.
    + rewrite List.Forall_forall in *. intros y Hy. apply Hc; [set_solver|apply list_elem_of_In in Hy; set_solver|now apply Hx].
  - replace (flags_of h' (inorder t)) with (flags_of h (inorder t)); [exact Hs|]. apply list_fmap_ext. intros i x Hx. apply list_elem_of_lookup_2 in Hx.
    unfold flags_at. now rewrite Hh.
Qed.
