(* ===== verification/VMAOps.v ===== *)
(** What the operations on regions do to the structure: the pool of nodes,
    linking a node into the ring and the tree, and taking one out. *)
From stdpp Require Import base gmap list fin_maps sets.
From Stdlib Require Import ZArith Lia Sorting.Sorted.
From S2P Require Import Prelude RBTree RBRep RBInsert RBSearch RBErase PMM VMA VMAInv.

Open Scope Z_scope.
Open Scope c_scope.

(** * The pool *)

(** The regions in the ring are as they were, and so are the tree's root, the
    sentinel and the cursor. *)
Record kept (s s' : vma_state) (L : list Z) : Prop := {
  k_reg : forall x, x ∈ vma_head s :: L -> regions s' !! x = regions s !! x;
  k_head : vma_head s' = vma_head s;
  k_cursor : vma_cursor s' = vma_cursor s;
  k_tree : vma_tree s' = vma_tree s
}.

(** The memory of the pool: the nodes there are and the pages to come. *)
Definition same_supply (s s' : vma_state) : Prop := size (regions s') = size (regions s) /\ pmm_pages s' = pmm_pages s.

Lemma same_supply_trans s1 s2 s3 : same_supply s1 s2 -> same_supply s2 s3 -> same_supply s1 s3.
Proof. intros [A1 A2] [B1 B2]. split; congruence. Qed.

Lemma supply_dom s s' : (forall x, is_Some (regions s' !! x) <-> is_Some (regions s !! x)) -> pmm_pages s' = pmm_pages s -> same_supply s s'.
Proof. intros Hd Hp. split; [|exact Hp]. rewrite <- !size_dom. f_equal. apply set_eq. intros x. rewrite !elem_of_dom. apply Hd. Qed.

(** A node is asked for and given when [ok]: from the free list, or the first of
    a new page. *)
Definition drawn (s : vma_state) (ok : bool) (s' : vma_state) : Prop :=
  if g_node_free_list s =? 0 then
    match pmm_pages s with
    | [] => ok = false /\ same_supply s s'
    | pg :: ps => ok = negb (pg =? 0) /\ pmm_pages s' = ps /\ size (regions s') = (size (regions s) + if (pg =? 0)%Z then 0 else Z.to_nat nodes_per_page)%nat
    end
  else ok = true /\ same_supply s s'.

Lemma drawn_then s ok s1 s2 : drawn s ok s1 -> same_supply s1 s2 -> drawn s ok s2.
Proof.
  intros H [S1 S2]. unfold drawn in *. destruct (_ =? 0); [destruct (pmm_pages s) as [|pg ps]|]; destruct H as [-> H]; (split; [reflexivity|]).
  - eapply same_supply_trans; [exact H|now split].
  - destruct H as [<- <-]. split; congruence.
  - eapply same_supply_trans; [exact H|now split].
Qed.

(** A node that is in memory and in no list. *)
Definition loose (s : vma_state) (L F : list Z) (r : Z) : Prop :=
  r <> 0 /\ r ∉ vma_head s :: L ++ F /\ is_Some (regions s !! r).

Lemma page_nodes_elem base n x : x ∈ page_nodes base n <-> exists i, 0 <= i < Z.of_nat n /\ x = base + i * sizeof_region.
Proof.
  unfold page_nodes. rewrite list_elem_of_fmap. split.
  - intros (i & -> & Hi). apply elem_of_seq in Hi. exists (Z.of_nat i). split; [lia|reflexivity].
  - intros (i & Hi & ->). exists (Z.to_nat i). split; [rewrite Z2Nat.id by lia; reflexivity|]. apply elem_of_seq. lia.
Qed.

Lemma page_nodes_cons base n : page_nodes base (S n) = base :: page_nodes (base + sizeof_region) n.
Proof.
  unfold page_nodes. simpl. f_equal; [lia|]. rewrite <- seq_shift, <- list_fmap_compose. apply list_fmap_ext. intros i x _. unfold compose. lia.
Qed.

Lemma chain_page m base n : (forall i, 0 <= i < Z.of_nat n -> nx m (base + i * sizeof_region) = if i =? Z.of_nat n - 1 then 0 else base + (i + 1) * sizeof_region) ->
  (0 < n)%nat -> chain m base (page_nodes base n).
Proof.
  revert base. induction n as [|n IH]; intros base Hn Hpos; [lia|]. rewrite page_nodes_cons. simpl. split; [reflexivity|].
  specialize (Hn 0 ltac:(lia)) as H0. rewrite Z.mul_0_l, Z.add_0_r in H0. destruct n as [|n]; [exact H0|].
  rewrite (proj2 (Z.eqb_neq _ _)) in H0 by lia. replace (nx m base) with (base + sizeof_region) by (rewrite H0; lia). apply IH; [|lia].
  intros i Hi. specialize (Hn (i + 1) ltac:(lia)). replace (base + sizeof_region + i * sizeof_region) with (base + (i + 1) * sizeof_region) by lia.
  rewrite Hn. destruct (i =? Z.of_nat (S n) - 1) eqn:E; to_prop; [rewrite (proj2 (Z.eqb_eq _ _)) by lia; reflexivity|].
  rewrite (proj2 (Z.eqb_neq _ _)) by lia. lia.
Qed.

(** A map of new nodes over the old ones. *)
Lemma nodes_lookup {A} (ns : list Z) (v : A) (m : gmap Z A) x :
  (list_to_map ((fun a => (a, v)) <$> ns) ∪ m) !! x = if decide (x ∈ ns) then Some v else m !! x.
Proof.
  rewrite lookup_union. destruct (decide (x ∈ ns)) as [Hx|Hx].
  - assert (E : (list_to_map ((fun a => (a, v)) <$> ns) : gmap Z A) !! x = Some v); [|rewrite E; now destruct (m !! x)].
    induction ns as [|y ns IH]; [set_solver|]. simpl. destruct (decide (x = y)) as [->|Hne]; [apply lookup_insert_eq|].
    rewrite lookup_insert_ne by auto. apply IH. set_solver.
  - rewrite not_elem_of_list_to_map_1; [now destruct (m !! x)|]. rewrite <- list_fmap_compose. simpl. intros (y & -> & Hy)%list_elem_of_fmap. contradiction.
Qed.

(** Memory outside of the lists may change. *)
Lemma inv_frame conf s T X L F m : vma_core conf s T X L F ->
  (forall x, x ∈ vma_head s :: L ++ F -> m !! x = regions s !! x) -> (forall x, is_Some (m !! x) <-> is_Some (regions s !! x)) ->
  vma_core conf (with_regions s m) T X L F.
Proof.
  intros [H1 H2 H3 H4 H5 H6 H7 H8 H9 H10 H11 H12] Hm Hd.
  assert (HT : forall x, x ∈ T -> m !! x = regions s !! x) by (intros x Hx; apply Hm; rewrite H3; set_solver).
  split; simpl; auto.
  - apply (rb_ok_agree (vma_rb_cmp (regions s)) _ _ (rb_nodes s)); auto. intros x y Hx Hy. rewrite !cmp_start. unfold start_at. now rewrite !HT.
  - apply (dll_frame (regions s)); [..|exact H2]; intros x Hx; unfold nx, pv; rewrite Hm; auto; set_solver.
  - apply (chain_frame (regions s)); [|exact H6]. intros x Hx. unfold nx. rewrite Hm; auto. set_solver.
  - intros x. now rewrite Hd.
  - intros x Hx. apply Hd. auto.
  - intros x r Hr Hx. apply H9; [rewrite <- Hm by set_solver; exact Hr|exact Hx].
  - intros x Hx. destruct (H12 x Hx) as [Hz Hn]. split; [exact Hz|]. apply eq_None_not_Some. rewrite Hd, Hn. apply is_Some_None.
Qed.

Lemma with_regions_twice s m m' : with_regions (with_regions s m) m' = with_regions s m'.
Proof. reflexivity. Qed.

Lemma request_page_ok conf s T X L F pg s1 : vma_core conf s T X L F -> request_page conf s = (pg, s1) ->
  vma_core conf s1 T X L F /\ kept s s1 L /\ g_node_free_list s1 = g_node_free_list s /\
  (pg <> 0 -> forall x, x ∈ page_nodes (u64 (pg + hhdm_offset conf)) (Z.to_nat nodes_per_page) ->
    x <> 0 /\ x ∉ vma_head s :: L ++ F /\ is_Some (regions s1 !! x)).
Proof.
  intros Hinv. pose proof Hinv as [H1 H2 H3 H4 H5 H6 H7 H8 H9 H10 H11 H12]. unfold request_page. destruct (pmm_pages s) as [|p rest] eqn:Ep.
  { intros [= <- <-]. split; [exact Hinv|]. split; [split; auto|]. split; [reflexivity|easy]. }
  destruct (p =? 0) eqn:E0; to_prop.
  { intros [= <- <-]. subst p. split; [split; auto|]. split; [split; auto|]. split; [reflexivity|easy]. }
  intros E. apply pair_equal_spec in E as [<- <-]. set (ns := page_nodes _ _) in *.
  assert (Epool : pool conf (p :: rest) = ns ++ pool conf rest) by (unfold pool, pool_nodes; simpl; now rewrite (proj2 (Z.eqb_neq _ _) E0)).
  rewrite Epool in H11, H12. apply NoDup_app in H11 as (N1 & N2 & N3).
  assert (Hout : forall x, is_Some (regions s !! x) -> x ∉ ns).
  { intros x [r Hr] Hx. destruct (H12 x) as [_ Hn]; [apply elem_of_app; auto|]. congruence. }
  assert (Hmem : forall x, x ∈ vma_head s :: L ++ F -> x ∉ ns) by auto.
  pose proof (nodes_lookup ns (Region 0 0 0 0 0 false) (regions s)) as HR. pose proof (nodes_lookup ns (RbNode 0 0 0 0 0 0 0) (rb_nodes s)) as HN.
  unfold with_tree, with_regions. cbn [regions rb_nodes vma_tree vma_head vma_cursor g_node_free_list aslr_sv pmm_pages entropy fst snd].
  set (mr := list_to_map _ ∪ regions s) in *. set (mn := list_to_map _ ∪ rb_nodes s) in *. clearbody mr mn.
  split; [|split; [|split; [reflexivity|]]].
  - split; simpl; auto.
    + apply (rb_ok_agree (vma_rb_cmp (regions s)) _ _ (rb_nodes s)); [| |exact H1].
      * intros x Hx. rewrite HN, decide_False; [reflexivity|]. apply Hmem. rewrite H3. set_solver.
      * intros x y Hx Hy. rewrite !cmp_start. unfold start_at. rewrite !HR, !decide_False; [auto|apply Hmem; rewrite H3; set_solver..].
    + apply (dll_frame (regions s)); [..|exact H2]; intros x Hx; unfold nx, pv; rewrite HR, decide_False; auto; apply Hmem; set_solver.
    + apply (chain_frame (regions s)); [|exact H6]. intros x Hx. unfold nx. rewrite HR, decide_False; auto. apply Hmem. set_solver.
    + intros x. rewrite HR, HN. destruct (decide (x ∈ ns)); [split; eauto|apply H7].
    + intros x Hx. rewrite HR, decide_False by auto. auto.
    + intros x r Hr Hx. rewrite HR, decide_False in Hr by (apply Hmem; set_solver). auto.
    + intros x Hx. destruct (H12 x) as [Hz Hn]; [apply elem_of_app; auto|]. split; [exact Hz|]. rewrite HR, decide_False; [exact Hn|]. intros Hns. now apply (N2 x).
  - split; auto. intros x Hx. simpl. rewrite HR, decide_False; [reflexivity|]. apply Hmem. set_solver.
  - intros _ x Hx. destruct (H12 x) as [Hz Hn]; [apply elem_of_app; auto|]. split; [exact Hz|]. simpl. rewrite HR, decide_True by exact Hx.
    split; [|eauto]. intros Hin. now apply (Hmem x).
Qed.

Lemma page_nodes_nodup base n : NoDup (page_nodes base n).
Proof. unfold page_nodes. apply NoDup_fmap_2_strong; [|apply NoDup_seq]. intros i j _ _ Hij. unfold sizeof_region in Hij. lia. Qed.

(** What asking for a page does to the nodes. *)
Lemma request_page_supply conf s T X L F pg s1 : vma_core conf s T X L F -> request_page conf s = (pg, s1) ->
  match pmm_pages s with
  | [] => pg = 0 /\ s1 = s
  | p :: ps => pg = p /\ pmm_pages s1 = ps /\ size (regions s1) = (size (regions s) + if (p =? 0)%Z then 0 else Z.to_nat nodes_per_page)%nat
  end /\
  (forall x, is_Some (regions s1 !! x) -> is_Some (regions s !! x) \/ pg <> 0 /\ x ∈ page_nodes (u64 (pg + hhdm_offset conf)) (Z.to_nat nodes_per_page)).
Proof.
  intros Hinv. pose proof (i_fresh _ _ _ _ _ _ Hinv) as Hfr. unfold request_page. destruct (pmm_pages s) as [|p rest] eqn:Ep; [intros [= <- <-]; auto|].
  destruct (p =? 0) eqn:E0; to_prop; intros E; apply pair_equal_spec in E as [<- <-]; [subst; split; [split; [reflexivity|]; split; [reflexivity|]; cbn; lia|cbn; auto]|].
  set (ns := page_nodes _ _). assert (Epool : pool conf (p :: rest) = ns ++ pool conf rest) by (unfold pool, pool_nodes; simpl; now rewrite (proj2 (Z.eqb_neq _ _) E0)).
  assert (Hns : forall x, x ∈ ns -> regions s !! x = None) by (intros x Hx; apply Hfr; rewrite Epool; apply elem_of_app; auto).
  unfold with_tree, with_regions. cbn [regions pmm_pages fst snd]. split.
  - split; [reflexivity|]. split; [reflexivity|]. rewrite map_size_disj_union, Nat.add_comm.
    + f_equal. rewrite map_size_list_to_map; [unfold ns, page_nodes; now rewrite !length_fmap, length_seq|]. rewrite <- list_fmap_compose. unfold compose. rewrite list_fmap_id. apply page_nodes_nodup.
    + apply map_disjoint_spec. intros x r1 r2 H1 H2. apply elem_of_list_to_map_2, list_elem_of_fmap in H1 as (y & [= -> _] & Hy). rewrite Hns in H2 by exact Hy. discriminate.
  - intros x. rewrite nodes_lookup. destruct (decide (x ∈ ns)); auto.
Qed.

(** Writing the next fields of the nodes [i], [i + 1], ... of a page. *)
Lemma link_page_ok base n s : (forall i, 0 <= i < n -> is_Some (regions s !! (base + i * sizeof_region))) -> 2 <= n ->
  wp (let* s := for_up (Z.to_nat (n - 2)) 1 (fun i s => wr (set_next (base + (i + 1) * sizeof_region)) s (base + i * sizeof_region)) s in
      wr (set_next 0) s (base + (n - 1) * sizeof_region))
    (fun s' => exists m, s' = with_regions s m /\ (forall x, is_Some (m !! x) <-> is_Some (regions s !! x)) /\
      (forall x, (forall i, 0 <= i < n -> x <> base + i * sizeof_region) -> m !! x = regions s !! x) /\
      forall i, 1 <= i < n -> nx m (base + i * sizeof_region) = if i =? n - 1 then 0 else base + (i + 1) * sizeof_region).
Proof.
  intros Hex Hn. assert (Hsz : sizeof_region <> 0) by discriminate.
  set (I := fun (k : Z) (s' : vma_state) => exists m, s' = with_regions s m /\ (forall x, is_Some (m !! x) <-> is_Some (regions s !! x)) /\
      (forall x, (forall i, 0 <= i < n -> x <> base + i * sizeof_region) -> m !! x = regions s !! x) /\
      forall i, 1 <= i < k -> nx m (base + i * sizeof_region) = base + (i + 1) * sizeof_region).
  assert (Hstep : forall k v m, 0 <= k < n -> (forall x, is_Some (m !! x) <-> is_Some (regions s !! x)) ->
    (forall x, (forall i, 0 <= i < n -> x <> base + i * sizeof_region) -> m !! x = regions s !! x) ->
    exists m', wr (set_next v) (with_regions s m) (base + k * sizeof_region) = Ok (with_regions s m') /\
      (forall x, is_Some (m' !! x) <-> is_Some (regions s !! x)) /\
      (forall x, (forall i, 0 <= i < n -> x <> base + i * sizeof_region) -> m' !! x = regions s !! x) /\
      nx m' (base + k * sizeof_region) = v /\ forall i, i <> k -> nx m' (base + i * sizeof_region) = nx m (base + i * sizeof_region)).
  { intros k v m Hk Hd Ho. destruct (proj2 (Hd (base + k * sizeof_region)) (Hex k Hk)) as [r Hr].
    exists (<[base + k * sizeof_region := set_next v r]> m). rewrite (wr_ok _ (with_regions s m) _ r Hr). split; [reflexivity|]. split; [|split; [|split]].
    - intros x. rewrite lookup_insert_is_Some, <- Hd. destruct (decide (base + k * sizeof_region = x)) as [<-|]; [|tauto]. rewrite Hr. split; [eauto|auto].
    - intros x Hx. rewrite lookup_insert_ne by (intros E; now apply (Hx k)). now apply Ho.
    - apply nx_insert_eq.
    - intros i Hi. apply nx_insert_ne. intros E. apply Hi. apply (Z.mul_cancel_r _ _ sizeof_region Hsz). lia. }
  apply wp_bind. eapply wp_mono; [apply (wp_for_up I)|].
  - intros k s' Hk (m & -> & Hd & Ho & Hl). destruct (Hstep k (base + (k + 1) * sizeof_region) m ltac:(lia) Hd Ho) as (m' & -> & Hd' & Ho' & E1 & E2).
    cbn [wp]. exists m'. split; [reflexivity|]. split; [exact Hd'|]. split; [exact Ho'|]. intros i Hi. destruct (Z.eq_dec i k) as [->|]; [exact E1|].
    rewrite E2 by assumption. apply Hl. lia.
  - exists (regions s). split; [now destruct s|]. split; [tauto|]. split; [auto|lia].
  - intros s' (m & -> & Hd & Ho & Hl). destruct (Hstep (n - 1) 0 m ltac:(lia) Hd Ho) as (m' & -> & Hd' & Ho' & E1 & E2). cbn [wp].
    exists m'. split; [reflexivity|]. split; [exact Hd'|]. split; [exact Ho'|]. intros i Hi. destruct (Z.eqb_spec i (n - 1)) as [->|]; [exact E1|].
    rewrite E2 by assumption. apply Hl. lia.
Qed.

Lemma chain_zero m F : chain m 0 F -> 0 ∉ F -> F = [].
Proof. destruct F; simpl; [auto|]. intros [<- _] H. set_solver. Qed.

Lemma inv_new_free conf s T X L a F : vma_core conf s T X L [] -> chain (regions s) a F -> NoDup F ->
  (forall x, x ∈ F -> x <> 0 /\ x ∉ vma_head s :: L /\ is_Some (regions s !! x)) -> vma_core conf (with_free_list s a) T X L F.
Proof.
  intros [G1 G2 G3 G4 G5 G6 G7 G8 G9 G10 G11 G12] Hc Hnd HF. rewrite app_nil_r in *. split; simpl; auto; rewrite ?app_comm_cons.
  - apply NoDup_app. split; [exact G4|]. split; [|exact Hnd]. intros x Hx Hf. destruct (HF x Hf) as (_ & Hn & _). contradiction.
  - intros [H|H]%elem_of_app; [contradiction|]. destruct (HF 0 H) as (Hz & _). now apply Hz.
  - intros x [H|H]%elem_of_app; [auto|]. destruct (HF x H) as (_ & _ & Hs). exact Hs.
Qed.

Lemma vma_alloc_node_ok conf s T X L F : vma_core conf s T X L F ->
  wp (vma_alloc_node conf s) (fun '(r, s') => exists F', vma_core conf s' T X L F' /\ kept s s' L /\ (r = 0 \/ loose s' L F' r) /\ drawn s (nonnull r) s' /\
    (whole s L F -> forall x, is_Some (regions s' !! x) -> (r <> 0 /\ x = r) \/ x ∈ vma_head s :: L ++ F')).
Proof.
  intros Hinv. unfold vma_alloc_node. destruct (g_node_free_list s =? 0) eqn:E; to_prop.
  - assert (F = []) as -> by (apply (chain_zero (regions s)); [rewrite <- E; apply Hinv|pose proof (i_nz _ _ _ _ _ _ Hinv); set_solver]).
    destruct (request_page conf s) as [pg s1] eqn:Er. destruct (request_page_ok _ _ _ _ _ _ _ _ Hinv Er) as (Hinv1 & Hk & Hf & Hpg).
    destruct (request_page_supply _ _ _ _ _ _ _ _ Hinv Er) as [Hsup Hdom].
    destruct (pg =? 0) eqn:E0; to_prop.
    { cbn [wp]. subst pg. exists []. split; [exact Hinv1|]. split; [exact Hk|]. split; [now left|]. split.
      - unfold drawn. rewrite E. cbn [Z.eqb]. destruct (pmm_pages s) as [|p ps] eqn:Ep; [destruct Hsup as [_ ->]; repeat split|]. destruct Hsup as (<- & E1 & E2). auto.
      - intros Hw x Hx. right. destruct (Hdom x Hx) as [H|[H _]]; [now apply Hw|contradiction]. }
    specialize (Hpg E0). cbv zeta. set (base := u64 (pg + hhdm_offset conf)) in *.
    change (1 <? nodes_per_page) with true. cbv iota. change nodes_per_page with 39 in *.
    assert (Hnode : forall i, 0 <= i < 39 -> base + i * sizeof_region ∈ page_nodes base (Z.to_nat 39)) by (intros i Hi; apply page_nodes_elem; exists i; lia).
    pose proof (link_page_ok base 39 s1 ltac:(intros i Hi; apply Hpg; auto) ltac:(lia)) as Hl. apply wp_ex in Hl as (s2 & El & m & -> & Hd & Ho & Hc).
    destruct (for_up _ _ _ _) as [s3| |]; try easy. cbn [bind] in El |- *. rewrite El. cbn [bind wp].
    exists (page_nodes (base + sizeof_region) 38).
    assert (Hin : forall x, x ∈ vma_head s :: L -> m !! x = regions s1 !! x).
    { intros x Hx. apply Ho. intros i Hi ->. apply (Hpg _ (Hnode i Hi)). set_solver. }
    assert (Hsub : forall x, x ∈ page_nodes (base + sizeof_region) 38 -> exists i, 1 <= i < 39 /\ x = base + i * sizeof_region).
    { intros x (i & Hi & ->)%page_nodes_elem. exists (i + 1). lia. }
    pose proof (inv_frame conf s1 T X L [] m Hinv1) as Hfr. rewrite (k_head _ _ _ Hk), app_nil_r in Hfr. specialize (Hfr Hin Hd).
    assert (Hbase : base + 1 * sizeof_region = base + sizeof_region) by lia.
    assert (Hb : base <> 0) by (apply (Hpg base); replace base with (base + 0 * sizeof_region) at 1 by lia; apply Hnode; lia).
    split; [|split; [|split; [right|split]]].
    + apply (inv_new_free conf (with_regions s1 m) T X L); [exact Hfr| | |].
      * rewrite Hbase. apply chain_page; [|lia]. intros i Hi. replace (base + sizeof_region + i * sizeof_region) with (base + (i + 1) * sizeof_region) by lia.
        change (regions (with_regions s1 m)) with m. rewrite Hc by lia. destruct (Z.eqb_spec (i + 1) (39 - 1)), (Z.eqb_spec i (Z.of_nat 38 - 1)); lia.
      * apply page_nodes_nodup.
      * intros x Hx. apply Hsub in Hx as (i & Hi & ->). destruct (Hpg _ (Hnode i ltac:(lia))) as (P1 & P2 & P3). rewrite app_nil_r in P2.
        split; [exact P1|]. split; [now rewrite <- (k_head _ _ _ Hk) in P2|now apply Hd].
    + destruct Hk as [K1 K2 K3 K4]. split; simpl; auto. intros x Hx. rewrite Hin by exact Hx. auto.
    + destruct (Hpg base) as (Hz & Hnin & Hs); [replace base with (base + 0 * sizeof_region) at 1 by lia; apply Hnode; lia|].
      split; [exact Hz|]. simpl. rewrite (k_head _ _ _ Hk). split; [|now apply Hd]. rewrite app_comm_cons. intros [H|H]%elem_of_app; [set_solver|].
      apply Hsub in H as (i & Hi & E1). unfold sizeof_region in E1. lia.
    + rewrite nonnull_true by exact Hb. unfold drawn. rewrite E. cbn [Z.eqb]. destruct (pmm_pages s) as [|p ps] eqn:Ep; [destruct Hsup; contradiction|]. destruct Hsup as (<- & E1 & E2).
      rewrite (proj2 (Z.eqb_neq _ _) E0) in E2 |- *. split; [reflexivity|]. split; [exact E1|]. transitivity (size (regions s1)); [|exact E2]. cbn [with_free_list regions with_regions].
      rewrite <- !size_dom. f_equal. apply set_eq. intros x. rewrite !elem_of_dom. apply Hd.
    + cbn [with_free_list regions with_regions]. intros Hw x Hx. apply Hd in Hx. destruct (Hdom x Hx) as [H|[_ H]]; [specialize (Hw x H); rewrite app_nil_r in Hw; right; rewrite app_comm_cons; apply elem_of_app; now left|].
      apply page_nodes_elem in H as (i & Hi & ->). change (Z.of_nat (Z.to_nat 39)) with 39 in Hi. destruct (Z.eq_dec i 0) as [->|Hi0]; [left; split; [exact Hb|lia]|right].
      rewrite app_comm_cons. apply elem_of_app. right. apply page_nodes_elem. exists (i - 1). split; lia.
  - pose proof (i_free _ _ _ _ _ _ Hinv) as Hc. destruct F as [|x F]; [simpl in Hc; contradiction|]. simpl in Hc. destruct Hc as [Ex Hc].
    destruct Hinv as [G1 G2 G3 G4 G5 G6 G7 G8 G9 G10 G11 G12]. rewrite Ex in *. destruct (G8 x) as [r Hr]; [set_solver|]. rewrite (rd_ok _ _ _ _ Hr). cbn [bind wp].
    exists F. rewrite (nx_some _ _ _ Hr) in Hc. rewrite app_comm_cons in G4. apply NoDup_app in G4 as (N1 & N2 & N3). apply NoDup_cons in N3 as [N3 N4].
    split; [split; simpl; auto|split; [split; auto|split; [right|split]]].
    + rewrite app_comm_cons. apply NoDup_app. split; [exact N1|]. split; [|exact N4]. intros y Hy HF. apply (N2 y Hy). set_solver.
    + set_solver.
    + intros y Hy. apply G8. set_solver.
    + split; [exact E|]. simpl. split; [|eauto]. rewrite app_comm_cons. intros [H|H]%elem_of_app; [apply (N2 x H); set_solver|contradiction].
    + rewrite nonnull_true by exact E. unfold drawn. rewrite Ex, (proj2 (Z.eqb_neq _ _) E). now repeat split.
    + cbn [with_free_list regions]. intros Hw y Hy. specialize (Hw y Hy). set_solver.
Qed.

(** * Linking a node into the ring *)

Lemma ring_split a L x : x ∈ a :: L -> exists L1 L2, L = L1 ++ L2 /\ before_ a L1 = x.
Proof.
  intros [->|H]%elem_of_cons; [exists [], L; auto|]. apply list_elem_of_split in H as (L1 & L2 & ->).
  exists (L1 ++ [x]), L2. split; [now rewrite <- app_assoc|]. unfold before_. now rewrite last_snoc.
Qed.

Lemma nodup_insert (h r : Z) L1 L2 F : NoDup (h :: (L1 ++ L2) ++ F) -> r ∉ h :: (L1 ++ L2) ++ F -> NoDup (h :: (L1 ++ r :: L2) ++ F).
Proof.
  intros Hnd Hr. rewrite <- (Permutation_middle L1 L2 r). simpl. rewrite (Permutation_swap r h). apply NoDup_cons. auto.
Qed.

(** The new region [r] and the old regions of the tree. *)
Record entered (s s' : vma_state) (T : list Z) (r : Z) (sp : span) : Prop := {
  e_span : span_of (regions s') r = sp;
  e_old : forall x, x ∈ T -> span_of (regions s') x = span_of (regions s) x;
  e_low : start_at (regions s') (vma_head s) = start_at (regions s) (vma_head s);
  e_head : vma_head s' = vma_head s;
  e_cursor : vma_cursor s' = vma_cursor s
}.

Lemma kept_span s s' L (T : list Z) x : kept s s' L -> (forall y, y ∈ T -> y ∈ L) -> x ∈ T -> span_of (regions s') x = span_of (regions s) x.
Proof. intros Hk HT Hx. unfold span_of. rewrite (k_reg _ _ _ Hk); [reflexivity|]. apply elem_of_cons. auto. Qed.

(** The region [y] at [x] when the successor of [a] has become [v] and the
    predecessor of [b] has become [w]. *)
Definition relink (a v b w x : Z) (y : vma_region) : vma_region :=
  Region (v_start y) (v_count y) (v_flags y) (if decide (x = a) then v else v_next y) (if decide (x = b) then w else v_prev y) (v_in_tree y).

Section Relink.
Context (m m' : gmap Z vma_region) (a v b w : Z).
Context (Hm : forall x, m' !! x = relink a v b w x <$> m !! x).

Lemma relink_nx x : is_Some (m !! x) -> nx m' x = if decide (x = a) then v else nx m x.
Proof. intros [y Hy]. unfold nx. rewrite Hm, Hy. simpl. now destruct (decide _). Qed.

Lemma relink_pv x : is_Some (m !! x) -> pv m' x = if decide (x = b) then w else pv m x.
Proof. intros [y Hy]. unfold pv. rewrite Hm, Hy. simpl. now destruct (decide _). Qed.

Lemma relink_span x : span_of m' x = span_of m x.
Proof. unfold span_of. rewrite Hm. now destruct (m !! x). Qed.

Lemma relink_dom x : is_Some (m' !! x) <-> is_Some (m !! x).
Proof. rewrite Hm. apply fmap_is_Some. Qed.

Lemma relink_flag x r' : m' !! x = Some r' -> exists r, m !! x = Some r /\ v_in_tree r' = v_in_tree r.
Proof. rewrite Hm. destruct (m !! x) as [r|]; simpl; [|easy]. intros [= <-]. eauto. Qed.
End Relink.

(** Writing the predecessor of [b], then the successor of [a]. *)
Lemma relink_ok s a v b w : is_Some (regions s !! a) -> is_Some (regions s !! b) ->
  exists m', (let* s := wr (set_prev w) s b in wr (set_next v) s a) = Ok (with_regions s m') /\ forall x, m' !! x = relink a v b w x <$> regions s !! x.
Proof.
  intros [ra Ha] [rb Hb]. rewrite (wr_ok _ _ _ _ Hb). cbn [bind].
  destruct (decide (a = b)) as [->|Hne].
  - rewrite Ha in Hb. injection Hb as <-. erewrite wr_ok by (simpl; apply lookup_insert_eq). eexists. split; [reflexivity|]. intros x. simpl.
    destruct (decide (x = b)) as [->|Hx]; [rewrite lookup_insert_eq, Ha; unfold relink; simpl; now rewrite !decide_True|].
    rewrite !lookup_insert_ne by auto. destruct (regions s !! x) as [[]|]; simpl; [|reflexivity]. unfold relink. simpl. now rewrite !decide_False.
  - erewrite wr_ok by (simpl; rewrite lookup_insert_ne by auto; exact Ha). eexists. split; [reflexivity|]. intros x. simpl.
    destruct (decide (x = a)) as [->|Hx]; [rewrite lookup_insert_eq, Ha; unfold relink; simpl; rewrite decide_True, decide_False by auto; reflexivity|].
    rewrite lookup_insert_ne by auto. destruct (decide (x = b)) as [->|Hx2].
    + rewrite lookup_insert_eq, Hb. unfold relink. simpl. rewrite decide_False, decide_True by auto. reflexivity.
    + rewrite lookup_insert_ne by auto. destruct (regions s !! x) as [[]|]; simpl; [|reflexivity]. unfold relink. simpl. now rewrite !decide_False.
Qed.

Lemma InsertRegion_ok conf s T L F after start cnt flags : vma_inv conf s T [] L F -> after ∈ vma_head s :: L ->
  wp (InsertRegion conf s after start cnt flags) (fun '(r, s') => drawn s (nonnull r) s' /\ exists F',
    (r = 0 /\ vma_inv conf s' T [] L F' /\ kept s s' L) \/
    (r <> 0 /\ exists L1 L2, L = L1 ++ L2 /\ before_ (vma_head s) L1 = after /\ vma_inv conf s' T [r] (L1 ++ r :: L2) F' /\ r ∉ L /\
      entered s s' T r (start, cnt, flags))).
Proof.
  intros Hinv Ha. unfold InsertRegion. assert (Ha0 : after <> 0) by (intros ->; apply (i_nz _ _ _ _ _ _ Hinv); set_solver).
  rewrite (proj2 (Z.eqb_neq _ _) Ha0). apply wp_bind. eapply wp_mono; [apply (vma_alloc_node_ok _ _ _ _ _ _ Hinv)|].
  intros [r s1] (F' & Hinv1 & Hk & Hr & Hdr & Hwh). specialize (Hwh (i_whole _ _ _ _ _ _ Hinv)). destruct (r =? 0) eqn:E0; to_prop.
  { cbn [wp]. rewrite E0 in Hdr. split; [exact Hdr|]. exists F'. left. split; [reflexivity|]. split; [|exact Hk]. split; [exact Hinv1|]. intros x Hx. rewrite (k_head _ _ _ Hk). now destruct (Hwh x Hx) as [[? _]|]. }
  destruct Hr as [->|(_ & Hr & Hrm)]; [easy|].
  destruct (ring_split _ _ _ Ha) as (L1 & L2 & -> & Hb). pose proof Hinv1 as [G1 G2 G3 G4 G5 G6 G7 G8 G9 G10 G11 G12]. pose proof (k_head _ _ _ Hk) as Eh. rewrite Eh in *.
  destruct (dll_mid _ _ _ _ _ G2) as [Hnx Hpv]. rewrite Hb in Hnx, Hpv. set (nxt := behind L2 (vma_head s)) in *.
  assert (Hn : nxt ∈ vma_head s :: L1 ++ L2) by (pose proof (behind_elem L2 (vma_head s)); set_solver).
  destruct (G8 after) as [ra Hra]; [set_solver|]. rewrite (nx_some _ _ _ Hra) in Hnx. destruct Hrm as [r0 Hr0].
  assert (Hra' : r <> after) by (intros ->; set_solver). assert (Hrn : r <> nxt) by (intros ->; set_solver).
  rewrite (rd_ok _ _ _ _ Hra), Hnx. cbn [bind]. rewrite (wr_ok _ _ _ _ Hr0). cbn [bind].
  erewrite rd_ok by (simpl; rewrite lookup_insert_ne by auto; exact Hra). cbn [bind]. rewrite Hnx.
  set (m1 := <[r := _]> (regions s1)).
  assert (Hm1 : forall x, x <> r -> m1 !! x = regions s1 !! x) by (intros x Hx; unfold m1; now rewrite lookup_insert_ne).
  assert (Hm1r : m1 !! r = Some (Region start cnt flags nxt after false)) by apply lookup_insert_eq. clearbody m1.
  destruct (relink_ok (with_regions s1 m1) after r nxt r) as (m2 & E2 & Hm2); [simpl; rewrite Hm1 by auto; eauto|simpl; rewrite Hm1 by auto; apply G8; set_solver|].
  simpl in E2, Hm2. rewrite with_regions_twice in E2.
  destruct (wr (set_prev r) (with_regions s1 m1) nxt) as [s3| |]; try easy. cbn [bind] in E2 |- *. rewrite E2. cbn [bind wp].
  assert (Hd1 : forall x, is_Some (m1 !! x) <-> is_Some (regions s1 !! x)) by (intros x; destruct (decide (x = r)) as [->|Hx]; [rewrite Hm1r, Hr0; split; eauto|now rewrite Hm1]).
  assert (Hd2 : forall x, is_Some (m2 !! x) <-> is_Some (regions s1 !! x)) by (intros x; now rewrite (relink_dom _ _ _ _ _ _ Hm2), Hd1).
  split; [apply (drawn_then _ _ s1); [exact Hdr|now apply supply_dom]|]. exists F'. right.
  assert (Hne : forall x, x ∈ vma_head s :: (L1 ++ L2) ++ F' -> x <> r) by (intros x Hx ->; contradiction).
  split; [exact E0|]. exists L1, L2. split; [reflexivity|]. split; [exact Hb|]. split; [|split; [set_solver|split; simpl]].
  - assert (HT : forall x, x ∈ T -> x ∈ L1 ++ L2) by (intros x Hx; rewrite G3; exact Hx).
    assert (Hsp : forall x, x <> r -> span_of m2 x = span_of (regions s1) x) by (intros x Hx; rewrite (relink_span m1 m2 _ _ _ _ Hm2); unfold span_of; now rewrite Hm1).
    split; [split; simpl; rewrite ?Eh; auto|].
    + apply (rb_ok_agree (vma_rb_cmp (regions s1)) _ _ (rb_nodes s1)); auto. intros x y Hx Hy. rewrite !cmp_start, !start_span.
      rewrite !Hsp; [auto|apply Hne; set_solver..].
    + apply (dll_splice (regions s1) m2 _ L1 L2 _ [] [r]); [exact G2| | | | |].
      * rewrite app_comm_cons in G4. now apply NoDup_app in G4 as (N1 & _).
      * intros Hin. apply NoDup_cons in G4 as [N1 _]. set_solver.
      * intros x Hx Hxb. assert (x <> r) by (apply Hne; set_solver). rewrite (relink_nx _ _ _ _ _ _ Hm2) by (apply Hd1, G8; set_solver). rewrite Hb in Hxb. rewrite decide_False by exact Hxb. unfold nx. now rewrite Hm1.
      * intros x Hx Hxb. assert (x <> r) by (apply Hne; set_solver). rewrite (relink_pv _ _ _ _ _ _ Hm2) by (apply Hd1, G8; set_solver). fold nxt in Hxb. rewrite decide_False by exact Hxb. unfold pv. now rewrite Hm1.
      * rewrite Hb. fold nxt. simpl. rewrite !(relink_nx _ _ _ _ _ _ Hm2), !(relink_pv _ _ _ _ _ _ Hm2) by (apply Hd1; eauto; apply G8; set_solver).
        rewrite decide_True, (decide_False (P := r = nxt)), (decide_False (P := r = after)), decide_True by auto. unfold nx, pv. now rewrite Hm1r.
    + rewrite <- G3. simpl. now rewrite Permutation_middle.
    + now apply nodup_insert.
    + set_solver.
    + apply (chain_frame (regions s1)); [|exact G6]. intros x Hx. rewrite (relink_nx _ _ _ _ _ _ Hm2) by (apply Hd1, G8; set_solver).
      rewrite decide_False; [unfold nx; rewrite Hm1; [reflexivity|apply Hne; set_solver]|]. intros ->. rewrite app_comm_cons in G4. apply NoDup_app in G4 as (_ & N2 & _). now apply (N2 after).
    + intros x. rewrite (relink_dom _ _ _ _ _ _ Hm2), Hd1. apply G7.
    + intros x Hx. rewrite (relink_dom _ _ _ _ _ _ Hm2), Hd1. destruct (decide (x = r)) as [->|Hx2]; [eauto|]. apply G8. set_solver.
    + intros x q Hq Hx. destruct (relink_flag _ _ _ _ _ _ Hm2 _ _ Hq) as (q1 & Hq1 & ->). destruct (decide (x = r)) as [->|Hx2].
      * rewrite Hm1r in Hq1. injection Hq1 as <-. simpl. symmetry. apply bool_decide_eq_false. intros Hin. apply HT in Hin. set_solver.
      * rewrite Hm1 in Hq1 by exact Hx2. apply G9; [exact Hq1|set_solver].
    + intros x Hx. destruct (G12 x Hx) as [Hz Hno]. split; [exact Hz|]. apply eq_None_not_Some. rewrite (relink_dom _ _ _ _ _ _ Hm2), Hd1, Hno. apply is_Some_None.
    + intros x Hx. cbn [with_regions regions vma_head] in *. rewrite Eh. apply Hd2 in Hx. destruct (Hwh x Hx) as [[_ ->]|H]; set_solver.
  - rewrite (relink_span m1 m2 _ _ _ _ Hm2). unfold span_of. now rewrite Hm1r.
  - intros x Hx. assert (HxL : x ∈ L1 ++ L2) by (rewrite G3; exact Hx). rewrite (relink_span m1 m2 _ _ _ _ Hm2). unfold span_of. rewrite Hm1 by (apply Hne; set_solver).
    rewrite (k_reg _ _ _ Hk) by set_solver. reflexivity.
  - rewrite !start_span. rewrite (relink_span m1 m2 _ _ _ _ Hm2). unfold span_of. rewrite Hm1 by (apply Hne; set_solver). now rewrite (k_reg _ _ _ Hk) by set_solver.
  - exact Eh.
  - apply Hk.
Qed.
