(* ===== verification/VMATree.v ===== *)
(** Regions in the tree: entering a region that is in the ring, and destroying
    one. *)
From stdpp Require Import base gmap list fin_maps sets.
From Stdlib Require Import ZArith Lia Sorting.Sorted.
From S2P Require Import Prelude RBTree RBRep RBInsert RBSearch RBErase PMM VMA VMAInv VMAOps.

Open Scope Z_scope.
Open Scope c_scope.

(** Nothing but links, tree membership and free nodes changed. *)
Record same_spans (s s' : vma_state) : Prop := {
  ss_span : forall x, span_of (regions s') x = span_of (regions s) x;
  ss_head : vma_head s' = vma_head s;
  ss_supply : same_supply s s'
}.

Lemma same_spans_trans s1 s2 s3 : same_spans s1 s2 -> same_spans s2 s3 -> same_spans s1 s3.
Proof. intros [A1 A2 A3] [B1 B2 B3]. split; [intros x; now rewrite B1|congruence|eauto using same_supply_trans]. Qed.

Lemma same_data_is_some h h' x : same_data h h' -> is_Some (h' !! x) <-> is_Some (h !! x).
Proof. intros H. specialize (H x). destruct (h !! x), (h' !! x); simpl in H; try discriminate; split; eauto. Qed.

Lemma flag_write m r v x R : m !! r = Some R ->
  span_of (<[r := set_in_tree v R]> m) x = span_of m x /\ nx (<[r := set_in_tree v R]> m) x = nx m x /\
  pv (<[r := set_in_tree v R]> m) x = pv m x /\ (is_Some (<[r := set_in_tree v R]> m !! x) <-> is_Some (m !! x)).
Proof.
  intros HR. unfold span_of, nx, pv. destruct (decide (r = x)) as [<-|Hx]; [rewrite lookup_insert_eq, HR; simpl; split; [auto|]; split; [auto|]; split; [auto|split; eauto]|].
  now rewrite lookup_insert_ne.
Qed.

Lemma enter_tree_ok conf s T L F r : vma_inv conf s T [r] L F ->
  wp (enter_tree s r) (fun s' => exists pre post, T = pre ++ post /\ vma_inv conf s' (pre ++ r :: post) [] L F /\ same_spans s s' /\
    vma_cursor s' = vma_cursor s /\ Forall (fun x => start_at (regions s) x <= start_at (regions s) r) pre /\
    Forall (fun x => start_at (regions s) r < start_at (regions s) x) post).
Proof.
  intros [[G1 G2 G3 G4 G5 G6 G7 G8 G9 G10 G11 G12] Gw]. assert (HrL : r ∈ L) by (rewrite G3; set_solver).
  destruct (G8 r) as [R HR]; [set_solver|]. unfold enter_tree, tree_insert. rewrite (wr_ok _ _ _ _ HR). cbn [bind]. simpl.
  set (m1 := <[r := set_in_tree true R]> (regions s)). pose proof (fun x => flag_write (regions s) r true x R HR) as Hw. fold m1 in Hw.
  assert (Hstart : forall x, start_at m1 x = start_at (regions s) x) by (intros x; rewrite !start_span; now destruct (Hw x) as [-> _]).
  assert (Hr0 : r <> 0) by (intros ->; apply G5; set_solver). assert (HrT : r ∉ T) by (apply NoDup_cons in G4 as [_ N]; apply NoDup_app in N as (N & _); rewrite G3 in N; simpl in N; now apply NoDup_cons in N as [N _]).
  destruct (rb_insert_ok (vma_rb_cmp m1) (vma_tree s) (rb_nodes s) T r) as (t' & h' & T' & -> & Hok & (pre & post & ET & ET' & Hpre & Hpost) & Hd); [|exact Hr0|apply G7; eauto|exact HrT|].
  { apply (rb_ok_agree (vma_rb_cmp (regions s)) _ _ (rb_nodes s)); auto. intros x y _ _. rewrite !cmp_start, !Hstart. auto. }
  cbn [bind wp]. exists pre, post. subst T T'. split; [reflexivity|].
  assert (Hh : forall x, is_Some (h' !! x) <-> is_Some (rb_nodes s !! x)).
  { intros x. rewrite (same_data_is_some _ _ x Hd). destruct (decide (r = x)) as [<-|Hx]; [|now rewrite lookup_insert_ne]. rewrite lookup_insert_eq, <- G7, HR. split; eauto. }
  split; [|split; [split; simpl; [intros x; apply Hw|reflexivity|apply supply_dom; [intros x; apply Hw|reflexivity]]|split; [reflexivity|]]].
  - split; [|intros x Hx; apply Gw, Hw, Hx]. split; simpl; auto.
    + apply (dll_frame (regions s)); [..|exact G2]; intros x _; apply Hw.
    + rewrite G3. simpl. apply Permutation_middle.
    + apply (chain_frame (regions s)); [|exact G6]. intros x _. apply Hw.
    + intros x. rewrite Hh, <- G7. apply Hw.
    + intros x Hx. apply Hw. auto.
    + intros x q Hq Hx. unfold m1 in Hq. destruct (decide (r = x)) as [<-|Hne].
      * rewrite lookup_insert_eq in Hq. injection Hq as <-. simpl. symmetry. apply bool_decide_eq_true. set_solver.
      * rewrite lookup_insert_ne in Hq by exact Hne. rewrite (G9 x q Hq Hx). apply bool_decide_ext. set_solver.
    + set_solver.
    + intros x Hx. destruct (G12 x Hx) as [Hz Hn]. split; [exact Hz|]. apply eq_None_not_Some. destruct (Hw x) as (_ & _ & _ & ->). rewrite Hn. apply is_Some_None.
  - split; (eapply Forall_impl; [eassumption|]); intros x Hx; cbv beta in Hx; rewrite <- !Hstart.
    + apply (cmp_start m1). pose proof (cmp_anti (cmp := vma_rb_cmp m1) r x). lia.
    + now apply (cmp_start_lt m1).
Qed.

(** * Destroying a region *)

Lemma tree_erase_ok conf s T L F r : vma_inv conf s T [] L F -> r ∈ T -> vma_cursor s <> r ->
  wp (tree_erase s r) (fun s' => exists T', removed r T T' /\ vma_inv conf s' T' [r] L F /\ same_spans s s' /\ vma_cursor s' = vma_cursor s).
Proof.
  intros [[G1 G2 G3 G4 G5 G6 G7 G8 G9 G10 G11 G12] Gw] HrT Hcur. simpl in G3. assert (HrL : r ∈ L) by (now rewrite G3).
  destruct (G8 r) as [R HR]; [set_solver|]. unfold tree_erase. rewrite (rd_ok _ _ _ _ HR). cbn [bind].
  rewrite (G9 r R HR) by set_solver. rewrite bool_decide_eq_true_2 by exact HrT.
  destruct (rb_erase_ok (vma_rb_cmp (regions s)) _ _ _ r G1 HrT) as (t' & h' & T' & -> & Hok & Hrem & h1 & Hd & n1 & Hn1 & _ & ->). cbn [bind].
  pose proof (removed_perm _ _ _ Hrem) as HP.
  assert (HrT' : r ∉ T') by (apply NoDup_cons in G4 as [_ N]; apply NoDup_app in N as (N & _); rewrite G3, HP in N; now apply NoDup_cons in N as [N _]).
  erewrite wr_ok by (simpl; exact HR). cbn [wp]. simpl. set (m1 := <[r := set_in_tree false R]> (regions s)).
  pose proof (fun x => flag_write (regions s) r false x R HR) as Hw. fold m1 in Hw. exists T'. split; [exact Hrem|].
  assert (Hh : forall x, is_Some (<[r:={| n_parent := n_parent n1; n_left := n_left n1; n_right := n_right n1; n_color := n_color n1; n_flags := RB_FLAG_COLD; n_time := 0; n_count := 0 |}]> h1 !! x) <-> is_Some (rb_nodes s !! x)).
  { intros x. rewrite <- (same_data_is_some _ _ x Hd). destruct (decide (r = x)) as [<-|Hx]; [rewrite lookup_insert_eq, Hn1; split; eauto|now rewrite lookup_insert_ne]. }
  split; [|split; [split; simpl; [intros x; apply Hw|reflexivity|apply supply_dom; [intros x; apply Hw|reflexivity]]|reflexivity]].
  split; [|intros x Hx; apply Gw, Hw, Hx]. split; simpl; auto.
  - apply (rb_ok_agree (vma_rb_cmp (regions s)) _ _ _ _ T' (fun x _ => eq_refl)); [|exact Hok]. intros x y _ _. rewrite !cmp_start, !start_span.
    destruct (Hw x) as [-> _], (Hw y) as [-> _]. auto.
  - apply (dll_frame (regions s)); [..|exact G2]; intros x _; apply Hw.
  - now rewrite G3.
  - apply (chain_frame (regions s)); [|exact G6]. intros x _. apply Hw.
  - intros x. rewrite Hh, <- G7. apply Hw.
  - intros x Hx. apply Hw. auto.
  - intros x q Hq Hx. unfold m1 in Hq. destruct (decide (r = x)) as [<-|Hne].
    + rewrite lookup_insert_eq in Hq. injection Hq as <-. simpl. symmetry. now apply bool_decide_eq_false.
    + rewrite lookup_insert_ne in Hq by exact Hne. rewrite (G9 x q Hq Hx). apply bool_decide_ext. rewrite HP. set_solver.
  - rewrite HP in G10. set_solver.
  - intros x Hx. destruct (G12 x Hx) as [Hz Hn]. split; [exact Hz|]. apply eq_None_not_Some. destruct (Hw x) as (_ & _ & _ & ->). rewrite Hn. apply is_Some_None.
Qed.

(** The neighbours of a node of the ring. *)
Lemma ring_neighbours m a L1 r L2 b : dll m a (L1 ++ r :: L2) b -> nx m r = behind L2 b /\ pv m r = before_ a L1.
Proof.
  intros Hd. apply dll_app in Hd as [H1 H2]. destruct (dll_mid m r [] L2 b H2) as [E1 _]. split; [exact E1|].
  rewrite <- (app_nil_r L1) in H1. now destruct (dll_mid m a L1 [] r H1) as [_ E2].
Qed.

Lemma list_unlink_ok s L1 r L2 : dll (regions s) (vma_head s) (L1 ++ r :: L2) (vma_head s) -> NoDup (vma_head s :: L1 ++ r :: L2) ->
  (forall x, x ∈ vma_head s :: L1 ++ r :: L2 -> is_Some (regions s !! x)) ->
  exists m', list_unlink s r = Ok (with_regions s m') /\
    (forall x, m' !! x = relink (before_ (vma_head s) L1) (behind L2 (vma_head s)) (behind L2 (vma_head s)) (before_ (vma_head s) L1) x <$> regions s !! x) /\
    dll m' (vma_head s) (L1 ++ L2) (vma_head s).
Proof.
  intros Hd Hnd Hmem. destruct (ring_neighbours _ _ _ _ _ _ Hd) as [En Ep]. set (p := before_ _ L1) in *. set (n := behind L2 _) in *.
  assert (Hp : p ∈ vma_head s :: L1) by apply before_elem. assert (Hn : n ∈ vma_head s :: L2) by apply behind_elem.
  pose proof (Permutation_middle L1 L2 r) as HP. assert (Hnd' : NoDup (r :: vma_head s :: L1 ++ L2)) by (rewrite (Permutation_swap _ r), HP; exact Hnd).
  apply NoDup_cons in Hnd' as [Hr Hnd']. assert (Hpr : p <> r) by (intros E; apply Hr; rewrite <- E; set_solver). assert (Hnr : n <> r) by (intros E; apply Hr; rewrite <- E; set_solver).
  destruct (Hmem r) as [R HR]; [set_solver|]. rewrite (nx_some _ _ _ HR) in En. rewrite (pv_some _ _ _ HR) in Ep.
  unfold list_unlink. rewrite !(rd_ok _ _ _ _ HR), En, Ep. cbn [bind].
  destruct (relink_ok s p n n p) as (m' & E & Hm'); [apply Hmem; set_solver..|]. exists m'. destruct (Hmem n) as [N HN]; [set_solver|].
  rewrite (wr_ok _ _ _ _ HN) in E |- *. cbn [bind] in E |- *.
  assert (HR' : regions (with_regions s (<[n := set_prev p N]> (regions s))) !! r = Some R) by (simpl; rewrite lookup_insert_ne by exact Hnr; exact HR).
  rewrite !(rd_ok _ _ _ _ HR'), En, Ep. cbn [bind]. split; [exact E|]. split; [exact Hm'|].
  apply (dll_splice (regions s) m' _ L1 L2 _ [r] []); [exact Hd|exact Hnd'|now apply NoDup_cons in Hnd' as [N1 _]| | |].
  - intros x Hx Hxp. rewrite (relink_nx _ _ _ _ _ _ Hm') by (apply Hmem; set_solver). now rewrite decide_False.
  - intros x Hx Hxn. rewrite (relink_pv _ _ _ _ _ _ Hm') by (apply Hmem; set_solver). now rewrite decide_False.
  - fold p n. simpl. rewrite (relink_nx _ _ _ _ _ _ Hm'), (relink_pv _ _ _ _ _ _ Hm') by (apply Hmem; set_solver). now rewrite !decide_True.
Qed.

Lemma unlink_free_ok conf s T L F r : vma_inv conf s T [r] L F ->
  wp (let* s := list_unlink s r in vma_free_node s r) (fun s' => exists L', removed r L L' /\ vma_inv conf s' T [] L' (r :: F) /\ same_spans s s' /\
    vma_cursor s' = vma_cursor s).
Proof.
  intros [[G1 G2 G3 G4 G5 G6 G7 G8 G9 G10 G11 G12] Gw]. assert (HrL : r ∈ L) by (rewrite G3; set_solver).
  apply list_elem_of_split in HrL as (L1 & L2 & ->). pose proof (Permutation_middle L1 L2 r) as HP.
  assert (Hr0 : r <> 0) by (intros ->; apply G5; set_solver).
  destruct (list_unlink_ok s L1 r L2 G2) as (m1 & -> & Hm1 & Hd1); [rewrite app_comm_cons in G4; now apply NoDup_app in G4|intros x Hx; apply G8; set_solver|].
  cbn [bind]. unfold vma_free_node. rewrite (proj2 (Z.eqb_neq _ _) Hr0). set (s1 := with_regions s m1).
  assert (Hdom1 : forall x, is_Some (m1 !! x) <-> is_Some (regions s !! x)) by (intros x; apply (relink_dom _ _ _ _ _ _ Hm1)).
  destruct (proj2 (Hdom1 r)) as [R HR]; [apply G8; set_solver|]. erewrite wr_ok by exact HR. cbn [bind wp]. exists (L1 ++ L2). split; [exists L1, L2; auto|].
  simpl. set (m2 := <[r := _]> m1). rewrite app_comm_cons in G4. apply NoDup_app in G4 as (N1 & N2 & N3).
  assert (Hnd : NoDup (r :: vma_head s :: L1 ++ L2)) by (rewrite (Permutation_swap _ r), HP; exact N1). apply NoDup_cons in Hnd as [Hr Hnd].
  assert (HrT : r ∉ T) by (intros H; assert (X : NoDup (r :: T)) by (change (r :: T) with ([r] ++ T); rewrite <- G3; now apply NoDup_cons in N1 as [_ X]); apply NoDup_cons in X as [X _]; contradiction).
  assert (Hsp : forall x, span_of m2 x = span_of (regions s) x).
  { intros x. rewrite <- (relink_span _ _ _ _ _ _ Hm1 x). unfold span_of, m2. destruct (decide (r = x)) as [<-|Hx]; [rewrite lookup_insert_eq, HR; reflexivity|now rewrite lookup_insert_ne]. }
  assert (Hdom2 : forall x, is_Some (m2 !! x) <-> is_Some (regions s !! x)).
  { intros x. rewrite <- Hdom1. unfold m2. destruct (decide (r = x)) as [<-|Hx]; [rewrite lookup_insert_eq, HR; split; eauto|now rewrite lookup_insert_ne]. }
  split; [|split; [split; [exact Hsp|reflexivity|now apply supply_dom]|reflexivity]].
  split; [|intros x Hx; cbn [vma_head with_free_list with_regions s1 regions] in *; apply Hdom2, Gw in Hx; set_solver]. split; simpl; auto.
  - apply (rb_ok_agree (vma_rb_cmp (regions s)) _ _ (rb_nodes s)); auto. intros x y _ _. now rewrite !cmp_start, !start_span, !Hsp.
  - apply (dll_frame m1); [..|exact Hd1]; intros x Hx; [apply nx_insert_ne|apply pv_insert_ne]; intros <-; set_solver.
  - apply (Permutation_cons_inv (a := r)). rewrite HP. exact G3.
  - rewrite app_comm_cons. apply NoDup_app. split; [exact Hnd|]. split.
    + intros x Hx [->|H]%elem_of_cons; [contradiction|]. apply (N2 x); [set_solver|exact H].
    + apply NoDup_cons. split; [|exact N3]. intros H. apply (N2 r); [set_solver|exact H].
  - set_solver.
  - split; [reflexivity|]. unfold m2. rewrite nx_insert_eq. simpl. apply (chain_frame (regions s)); [|exact G6]. intros x Hx.
    rewrite nx_insert_ne by (intros <-; apply (N2 r); [set_solver|exact Hx]). rewrite (relink_nx _ _ _ _ _ _ Hm1) by (apply G8; set_solver).
    rewrite decide_False; [reflexivity|]. intros ->. pose proof (before_elem (vma_head s) L1) as Hb. apply (N2 (before_ (vma_head s) L1)); [set_solver|exact Hx].
  - intros x. now rewrite Hdom2.
  - intros x Hx. apply Hdom2, G8. set_solver.
  - intros x q Hq Hx. unfold m2 in Hq. rewrite lookup_insert_ne in Hq by (intros <-; contradiction).
    destruct (relink_flag _ _ _ _ _ _ Hm1 _ _ Hq) as (q1 & Hq1 & ->). apply G9; [exact Hq1|set_solver].
  - intros x Hx. destruct (G12 x Hx) as [Hz Hno]. split; [exact Hz|]. apply eq_None_not_Some. rewrite Hdom2, Hno. apply is_Some_None.
Qed.

Lemma with_cursor_inv conf s T X L F c : vma_inv conf s T X L F -> c ∈ vma_head s :: T -> vma_inv conf (with_cursor s c) T X L F.
Proof. intros [[G1 G2 G3 G4 G5 G6 G7 G8 G9 G10 G11 G12] Gw] Hc. split; [split; auto|exact Gw]. Qed.

Lemma vma_destroy_ok conf s T L F r : vma_inv conf s T [] L F -> r ∈ T ->
  wp (vma_destroy_locked s r) (fun s' => exists T' L', removed r T T' /\ removed r L L' /\ vma_inv conf s' T' [] L' (r :: F) /\ same_spans s s').
Proof.
  intros Hinv Hr. unfold vma_destroy_locked. pose proof (i_perm _ _ _ _ _ _ Hinv) as HP. simpl in HP.
  assert (H1 : wp (if vma_cursor s =? r then let* p := rd v_prev s r in Ok (with_cursor s p) else Ok s) (fun s1 => vma_inv conf s1 T [] L F /\ same_spans s s1 /\ vma_cursor s1 <> r)).
  { destruct (vma_cursor s =? r) eqn:E; to_prop; [|cbn [wp]; split; [exact Hinv|split; [now split|exact E]]].
    assert (HrL : r ∈ L) by (now rewrite HP). apply list_elem_of_split in HrL as (L1 & L2 & EL). pose proof (i_ring _ _ _ _ _ _ Hinv) as Hd. rewrite EL in Hd.
    destruct (ring_neighbours _ _ _ _ _ _ Hd) as [_ Ep]. destruct (i_mem _ _ _ _ _ _ Hinv r) as [R HR]; [rewrite EL; set_solver|].
    rewrite (rd_ok _ _ _ _ HR). cbn [bind wp]. rewrite (pv_some _ _ _ HR) in Ep. rewrite Ep. pose proof (before_elem (vma_head s) L1) as Hb.
    assert (Hne : before_ (vma_head s) L1 <> r).
    { intros E2. rewrite E2 in Hb. pose proof (i_nodup _ _ _ _ _ _ Hinv) as N. rewrite app_comm_cons in N. apply NoDup_app in N as (N & _). rewrite EL in N.
      rewrite app_comm_cons in N. apply NoDup_app in N as (_ & N & _). apply (N r Hb). set_solver. }
    split; [|split; [now split|exact Hne]]. apply with_cursor_inv; [exact Hinv|]. apply elem_of_cons in Hb as [->|Hb]; [set_solver|].
    apply elem_of_cons. right. rewrite <- HP, EL. set_solver. }
  apply wp_bind. eapply wp_mono; [exact H1|]. intros s1 (Hinv1 & Hs1 & Hc1). apply wp_bind. eapply wp_mono; [apply (tree_erase_ok _ _ _ _ _ _ Hinv1 Hr Hc1)|].
  intros s2 (T' & Hrem & Hinv2 & Hs2 & _). eapply wp_mono; [apply (unlink_free_ok _ _ _ _ _ _ Hinv2)|].
  intros s3 (L' & HremL & Hinv3 & Hs3 & _). exists T', L'. split; [exact Hrem|]. split; [exact HremL|]. split; [exact Hinv3|]. eauto using same_spans_trans.
Qed.
