(* ===== verification/VMASpec.v ===== *)
(** What the address range manager promises: its regions as a sorted list of
    spans, lookups, and the pages that are mapped. *)
From stdpp Require Import base gmap list fin_maps sets.
From Stdlib Require Import ZArith Lia Sorting.Sorted.
From S2P Require Import Prelude RBTree RBRep RBInsert RBSearch RBErase PMM VMA VMAInv VMAOps VMATree.

Open Scope Z_scope.
Open Scope c_scope.

(** * Spans *)

Definition sp_start (x : span) : Z := x.1.1.
Definition sp_pages (x : span) : Z := x.1.2.
Definition sp_flags (x : span) : Z := x.2.
Definition sp_end (x : span) : Z := sp_start x + sp_pages x * 4096.

(** A whole number of pages, at least one, that does not reach the end of the
    address space. *)
Definition span_ok (x : span) : Prop :=
  0 <= sp_start x /\ sp_start x mod 4096 = 0 /\ 1 <= sp_pages x /\ sp_end x < 2 ^ 64.

(** In address order, without overlap. *)
Definition spaced (S : list span) : Prop := Forall span_ok S /\ StronglySorted (fun x y => sp_end x <= sp_start y) S.

(** Page number [p] is mapped with flags [f]. *)
Definition mapped (S : list span) (p f : Z) : Prop :=
  exists x, x ∈ S /\ sp_start x <= 4096 * p < sp_end x /\ sp_flags x = f.

Definition spans (s : vma_state) (T : list Z) : list span := span_of (regions s) <$> T.

(** The state of a page map whose regions are [S]. *)
Record vma_ok (conf : vm_conf) (s : vma_state) (T : list Z) : Prop := {
  ok_inv : exists L F, vma_inv conf s T [] L F;
  ok_spaced : spaced (spans s T)
}.

Lemma spaced_app S1 S2 : spaced (S1 ++ S2) <-> spaced S1 /\ spaced S2 /\ forall x y, x ∈ S1 -> y ∈ S2 -> sp_end x <= sp_start y.
Proof.
  unfold spaced. rewrite Forall_app. induction S1 as [|z S1 IH]; simpl.
  - split; [intros [[_ A] B]; split; [split; constructor|]; split; [now split|set_solver]|]. intros (_ & [A B] & _). auto.
  - split.
    + intros [[H1 H2] H3]. apply StronglySorted_inv in H3 as [H3 H4]. apply Forall_cons in H1 as [H0 H1]. destruct (proj1 IH ltac:(auto)) as ([A1 A2] & A3 & A4).
      rewrite List.Forall_app in H4. destruct H4 as [H4 H5]. split; [split; [now constructor|now constructor]|]. split; [exact A3|].
      intros x y [->|Hx]%elem_of_cons Hy; [|auto]. rewrite List.Forall_forall in H5. apply H5. now apply list_elem_of_In.
    + intros ([H1 H2] & H3 & H4). apply Forall_cons in H1 as [H0 H1]. apply StronglySorted_inv in H2 as [H2 H5].
      destruct (proj2 IH) as [[A1 A2] A3]; [split; [now split|]; split; [exact H3|]; intros x y Hx Hy; apply H4; set_solver|].
      split; [split; [now constructor|exact A2]|]. constructor; [exact A3|]. apply List.Forall_app. split; [exact H5|].
      apply List.Forall_forall. intros y Hy. apply H4; [set_solver|now apply list_elem_of_In].
Qed.

Lemma spaced_cons x S : spaced (x :: S) <-> span_ok x /\ spaced S /\ forall y, y ∈ S -> sp_end x <= sp_start y.
Proof.
  change (x :: S) with ([x] ++ S). rewrite spaced_app. split.
  - intros ([H1 _] & H2 & H3). apply Forall_cons in H1 as [H1 _]. split; [exact H1|]. split; [exact H2|]. intros y Hy. apply H3; set_solver.
  - intros (H1 & H2 & H3). split; [split; [now constructor|repeat constructor]|]. split; [exact H2|]. intros a y [->|Ha]%elem_of_cons Hy; [auto|set_solver].
Qed.

Lemma spaced_ok S x : spaced S -> x ∈ S -> span_ok x.
Proof. intros [H _] Hx. rewrite Forall_forall in H. auto. Qed.

Lemma span_pos x : span_ok x -> sp_start x < sp_end x.
Proof. unfold span_ok, sp_end. lia. Qed.

(** Two ranges that do not overlap. *)
Definition apart_from (a e : Z) (x : span) : Prop := e <= sp_start x \/ sp_end x <= a.

(** A new span goes between those that start before it and those behind. *)
Lemma spaced_insert S1 S2 x : spaced (S1 ++ S2) -> span_ok x -> Forall (apart_from (sp_start x) (sp_end x)) (S1 ++ S2) ->
  Forall (fun y => sp_start y <= sp_start x) S1 -> Forall (fun y => sp_start x < sp_start y) S2 -> spaced (S1 ++ x :: S2).
Proof.
  intros Hs Hx Ha H1 H2. pose proof (span_pos _ Hx) as Hp. rewrite Forall_forall in Ha, H1, H2.
  assert (HA : forall y, y ∈ S1 -> sp_end y <= sp_start x).
  { intros y Hy. specialize (H1 y Hy). assert (Hok : span_ok y) by (apply (spaced_ok _ _ Hs); set_solver). pose proof (span_pos _ Hok).
    destruct (Ha y ltac:(set_solver)); lia. }
  assert (HB : forall y, y ∈ S2 -> sp_end x <= sp_start y).
  { intros y Hy. specialize (H2 y Hy). assert (Hok : span_ok y) by (apply (spaced_ok _ _ Hs); set_solver). pose proof (span_pos _ Hok).
    destruct (Ha y ltac:(set_solver)); lia. }
  apply spaced_app in Hs as (Hs1 & Hs2 & Hs3). apply spaced_app. split; [exact Hs1|]. split; [now apply spaced_cons|].
  intros y z Hy [->|Hz]%elem_of_cons; auto.
Qed.

(** The end of a region as the code computes it. *)
Lemma region_end_ok r : span_ok (v_start r, v_count r, v_flags r) -> region_end r = sp_end (v_start r, v_count r, v_flags r).
Proof.
  unfold span_ok, region_end, sp_end, sp_start, sp_pages, PAGE_SIZE, u64. simpl. intros (H1 & _ & H2 & H3).
  rewrite (Z.mod_small (v_count r * 4096)) by lia. apply Z.mod_small. lia.
Qed.

(** * Lookups in the tree *)

Section Find.
Context (s : vma_state) (addr : Z).
Let st := start_at (regions s).

Fixpoint find_le (t : tree) (best : Z) : Z :=
  match t with
  | E => best
  | N _ l a r => if st a <=? addr then find_le r a else find_le l best
  end.

Fixpoint find_gt (t : tree) (best : Z) : Z :=
  match t with
  | E => best
  | N _ l a r => if addr <? st a then find_gt l a else find_gt r best
  end.

Lemma rd_start x : is_Some (regions s !! x) -> rd v_start s x = Ok (st x).
Proof. intros [r Hr]. rewrite (rd_ok _ _ _ _ Hr). unfold st, start_at. now rewrite Hr. Qed.

Lemma find_le_loop root t p best fuel : rep (rb_nodes s) root (plug p t) -> (forall x, x ∈ inorder t -> is_Some (regions s !! x)) -> (length (inorder t) < fuel)%nat ->
  loop fuel (fun '(cur, best) =>
    if nonnull cur then
      let* start := rd v_start s cur in
      if start <=? addr then let* r := ld n_right (rb_nodes s) cur in Ok (inl (r, cur))
      else let* l := ld n_left (rb_nodes s) cur in Ok (inl (l, best))
    else Ok (inr best)) (ptr t, best) = Ok (find_le t best).
Proof.
  revert p best fuel. induction t as [|c l IHl a r IHr]; intros p best fuel Hr Hm Hf; (destruct fuel as [|fuel]; [lia|]); [reflexivity|].
  cbn [loop ptr find_le]. unfold nonnull. rewrite (proj2 (Z.eqb_neq _ _) (rep_nonnull Hr)). cbn [negb].
  rewrite rd_start by (apply Hm; simpl; set_solver). rewrite (ld_left Hr), (ld_right Hr). cbn [bind].
  destruct (st a <=? addr); [apply (IHr (FR c l a :: p))|apply (IHl (FL c a r :: p))]; auto; try (intros x Hx; apply Hm; simpl; set_solver); simpl in Hf; rewrite length_app in Hf; simpl in Hf; lia.
Qed.

Lemma find_gt_loop root t p best fuel : rep (rb_nodes s) root (plug p t) -> (forall x, x ∈ inorder t -> is_Some (regions s !! x)) -> (length (inorder t) < fuel)%nat ->
  loop fuel (fun '(cur, best) =>
    if nonnull cur then
      let* start := rd v_start s cur in
      if addr <? start then let* l := ld n_left (rb_nodes s) cur in Ok (inl (l, cur))
      else let* r := ld n_right (rb_nodes s) cur in Ok (inl (r, best))
    else Ok (inr best)) (ptr t, best) = Ok (find_gt t best).
Proof.
  revert p best fuel. induction t as [|c l IHl a r IHr]; intros p best fuel Hr Hm Hf; (destruct fuel as [|fuel]; [lia|]); [reflexivity|].
  cbn [loop ptr find_gt]. unfold nonnull. rewrite (proj2 (Z.eqb_neq _ _) (rep_nonnull Hr)). cbn [negb].
  rewrite rd_start by (apply Hm; simpl; set_solver). rewrite (ld_left Hr), (ld_right Hr). cbn [bind].
  destruct (addr <? st a); [apply (IHl (FL c a r :: p))|apply (IHr (FR c l a :: p))]; auto; try (intros x Hx; apply Hm; simpl; set_solver); simpl in Hf; rewrite length_app in Hf; simpl in Hf; lia.
Qed.

(** An ordered tree is cut at [addr]. *)
Lemma find_cut t bl bg : ordered (vma_rb_cmp (regions s)) (inorder t) ->
  exists pre post, inorder t = pre ++ post /\ Forall (fun x => st x <= addr) pre /\ Forall (fun x => addr < st x) post /\
    find_le t bl = default bl (last pre) /\ find_gt t bg = hd bg post.
Proof.
  revert bl bg. induction t as [|c l IHl a r IHr]; intros bl bg Ho; simpl; [exists [], []; auto|].
  apply ordered_app in Ho as (Ho1 & Ho2 & Ho3); [|exact _]. apply StronglySorted_inv in Ho2 as [Ho2 Ho4].
  assert (H3 : Forall (fun x => st x <= st a) (inorder l)) by (apply Forall_forall; intros x Hx; apply (cmp_start (regions s)), Ho3; [exact Hx|set_solver]).
  assert (H4 : Forall (fun x => st a <= st x) (inorder r)) by (eapply Forall_impl; [exact Ho4|]; intros x Hx; now apply (cmp_start (regions s))).
  destruct (Z.leb_spec (st a) addr) as [Ha|Ha]; (destruct (Z.ltb_spec addr (st a)) as [Hb|Hb]; try lia).
  - destruct (IHr a bg Ho2) as (pre & post & E & H1 & H2 & -> & ->). rewrite E. exists (inorder l ++ a :: pre), post. rewrite <- app_assoc. split; [reflexivity|].
    split; [|split; [exact H2|split; [|reflexivity]]].
    + apply Forall_app. split; [eapply Forall_impl; [exact H3|]; simpl; lia|now constructor].
    + rewrite last_app_cons, last_cons. now destruct (last pre).
  - destruct (IHl bl a Ho1) as (pre & post & E & H1 & H2 & -> & ->). rewrite E. exists pre, (post ++ a :: inorder r). rewrite <- app_assoc. split; [reflexivity|].
    split; [exact H1|]. split; [|split; [reflexivity|now destruct post]].
    apply Forall_app. split; [exact H2|]. constructor; [exact Hb|]. eapply Forall_impl; [exact H4|]. simpl. lia.
Qed.
End Find.

(** The regions that start at or below [addr] and those that start above it. *)
Lemma find_ok conf s T X L F addr : vma_inv conf s T X L F ->
  exists pre post, T = pre ++ post /\ Forall (fun x => start_at (regions s) x <= addr) pre /\ Forall (fun x => addr < start_at (regions s) x) post /\
    vma_tree_find_le s addr = Ok (last0 pre) /\ vma_tree_find_gt s addr = Ok (hd 0 post).
Proof.
  intros Hinv. destruct (i_tree _ _ _ _ _ _ Hinv) as (t & Hr & _ & <- & Ho & _).
  assert (Hm : forall x, x ∈ inorder t -> is_Some (regions s !! x)).
  { intros x Hx. apply (i_mem _ _ _ _ _ _ Hinv). apply elem_of_cons. right. apply elem_of_app. left. rewrite (i_perm _ _ _ _ _ _ Hinv). set_solver. }
  destruct (find_cut s addr t 0 0 Ho) as (pre & post & E & H1 & H2 & E1 & E2). exists pre, post. split; [exact E|]. split; [exact H1|]. split; [exact H2|].
  unfold vma_tree_find_le, vma_tree_find_gt. rewrite <- (proj1 (proj2 Hr)). change t with (plug [] t) in Hr.
  rewrite (find_le_loop s addr _ t [] 0 _ Hr Hm (subtree_walk _ _ _ _ Hr)), (find_gt_loop s addr _ t [] 0 _ Hr Hm (subtree_walk _ _ _ _ Hr)).
  split; f_equal; assumption.
Qed.

Section Lookup.
Context (conf : vm_conf) (s : vma_state) (T L F X : list Z).
Context (Hinv : vma_inv conf s T X L F).

Lemma tree_in_ring x : x ∈ T -> x ∈ L.
Proof. intros Hx. rewrite (i_perm _ _ _ _ _ _ Hinv). set_solver. Qed.

Lemma tree_region x : x ∈ T -> x <> 0 /\ exists r, regions s !! x = Some r /\ span_of (regions s) x = (v_start r, v_count r, v_flags r).
Proof.
  intros Hx. apply tree_in_ring in Hx. assert (Hin : x ∈ vma_head s :: L ++ F) by set_solver. split; [intros ->; now apply (i_nz _ _ _ _ _ _ Hinv)|].
  destruct (i_mem _ _ _ _ _ _ Hinv x Hin) as [r Hr]. exists r. split; [exact Hr|]. unfold span_of. now rewrite Hr.
Qed.

Context (Hsp : spaced (spans s T)).

Lemma tree_span_ok x : x ∈ T -> span_ok (span_of (regions s) x).
Proof. intros Hx. apply (spaced_ok _ _ Hsp). apply list_elem_of_fmap. eauto. Qed.

Lemma rd_tree_start x : x ∈ T -> rd v_start s x = Ok (sp_start (span_of (regions s) x)).
Proof. intros Hx. destruct (tree_region x Hx) as (_ & r & Hr & ->). now rewrite (rd_ok _ _ _ _ Hr). Qed.

Lemma rd_tree_flags x : x ∈ T -> rd v_flags s x = Ok (sp_flags (span_of (regions s) x)).
Proof. intros Hx. destruct (tree_region x Hx) as (_ & r & Hr & ->). now rewrite (rd_ok _ _ _ _ Hr). Qed.

Lemma rd_tree_count x : x ∈ T -> rd v_count s x = Ok (sp_pages (span_of (regions s) x)).
Proof. intros Hx. destruct (tree_region x Hx) as (_ & r & Hr & ->). now rewrite (rd_ok _ _ _ _ Hr). Qed.

Lemma rd_tree_end x : x ∈ T -> rd region_end s x = Ok (sp_end (span_of (regions s) x)).
Proof.
  intros Hx. pose proof (tree_span_ok x Hx) as Hok. destruct (tree_region x Hx) as (_ & r & Hr & E). rewrite (rd_ok _ _ _ _ Hr). rewrite E in *. f_equal. now apply region_end_ok.
Qed.

(** Spans below and above a cut of the tree. *)
Lemma cut_spaced pre post x y : T = pre ++ post -> x ∈ pre -> y ∈ post -> sp_end (span_of (regions s) x) <= sp_start (span_of (regions s) y).
Proof.
  intros -> Hx Hy. unfold spans in Hsp. rewrite fmap_app in Hsp. apply spaced_app in Hsp as (_ & _ & H). apply H; apply list_elem_of_fmap; eauto.
Qed.

Lemma last_in pre : pre <> [] -> exists pre' x, pre = pre' ++ [x] /\ last0 pre = x.
Proof. intros H. destruct pre as [|z pre' _] using rev_ind; [easy|]. exists pre', z. split; [reflexivity|]. unfold last0. now rewrite last_snoc. Qed.

(** The region in front of a cut ends before all those behind it, and the ones
    in front of it end before it starts. *)
Lemma before_last pre x post y : T = (pre ++ [x]) ++ post -> y ∈ pre -> sp_end (span_of (regions s) y) <= sp_start (span_of (regions s) x).
Proof. intros E Hy. apply (cut_spaced pre ([x] ++ post)); [now rewrite E, <- app_assoc|exact Hy|set_solver]. Qed.

Lemma behind_first pre x post y : T = pre ++ x :: post -> y ∈ post -> sp_end (span_of (regions s) x) <= sp_start (span_of (regions s) y).
Proof. intros E Hy. apply (cut_spaced (pre ++ [x]) post); [now rewrite E, <- app_assoc|set_solver|exact Hy]. Qed.

(** Whether [[a, e)] overlaps no region is decided by the neighbours of [a]. *)
Lemma free_by_neighbours pre post a e : T = pre ++ post -> Forall (fun x => start_at (regions s) x <= a) pre -> Forall (fun x => a < start_at (regions s) x) post -> a < e ->
  Forall (apart_from a e) (spans s T) <->
  (pre = [] \/ sp_end (span_of (regions s) (last0 pre)) <= a) /\ (post = [] \/ e <= sp_start (span_of (regions s) (hd 0 post))).
Proof.
  intros E H1 H2 Hae. rewrite Forall_forall in H1, H2. unfold spans. rewrite Forall_fmap, Forall_forall. split.
  - intros H. split.
    + destruct (decide (pre = [])) as [|Hp]; [auto|right]. destruct (last_in pre Hp) as (pre' & x & -> & ->). assert (HxT : x ∈ T) by (rewrite E; set_solver).
      specialize (H1 x ltac:(set_solver)). rewrite start_span in H1. fold (sp_start (span_of (regions s) x)) in H1. pose proof (span_pos _ (tree_span_ok x HxT)).
      destruct (H x HxT); lia.
    + destruct post as [|y post]; [auto|right]. simpl. assert (HyT : y ∈ T) by (rewrite E; set_solver).
      specialize (H2 y ltac:(set_solver)). rewrite start_span in H2. fold (sp_start (span_of (regions s) y)) in H2. pose proof (span_pos _ (tree_span_ok y HyT)).
      destruct (H y HyT); lia.
  - intros [Hp Hq] x Hx. rewrite E in Hx. apply elem_of_app in Hx as [Hx|Hx].
    + right. destruct Hp as [->|Hp]; [set_solver|]. destruct (last_in pre) as (pre' & z & -> & Ez); [intros ->; set_solver|]. rewrite Ez in Hp.
      apply elem_of_app in Hx as [Hx|Hx]; [|apply list_elem_of_singleton in Hx as ->; exact Hp].
      pose proof (before_last _ _ _ x E Hx). pose proof (span_pos _ (tree_span_ok z ltac:(rewrite E; set_solver))). lia.
    + left. destruct Hq as [->|Hq]; [set_solver|]. destruct post as [|z post]; [set_solver|]. simpl in Hq.
      apply elem_of_cons in Hx as [->|Hx]; [exact Hq|]. pose proof (behind_first _ _ _ x E Hx). pose proof (span_pos _ (tree_span_ok z ltac:(rewrite E; set_solver))). lia.
Qed.
End Lookup.

Lemma FindRegion_ok conf s T addr : vma_ok conf s T -> 0 <= addr ->
  exists x, FindRegion s addr = Ok x /\
    ((x = 0 /\ forall f, ~ mapped (spans s T) (addr / 4096) f) \/
     (x ∈ T /\ sp_start (span_of (regions s) x) <= 4096 * (addr / 4096) < sp_end (span_of (regions s) x))).
Proof.
  intros [(L & F & Hinv) Hsp] Haddr. unfold FindRegion. assert (Hh : vma_head s <> 0) by (intros E; apply (i_nz _ _ _ _ _ _ Hinv); rewrite E; set_solver).
  rewrite (proj2 (Z.eqb_neq _ _) Hh). change PAGE_SIZE with 4096. rewrite (Z.mul_comm _ 4096). set (a := 4096 * (addr / 4096)).
  destruct (find_ok conf s T [] L F a Hinv) as (pre & post & E & H1 & H2 & -> & _). cbn [bind].
  assert (Hnone : (forall x, x ∈ pre -> sp_end (span_of (regions s) x) <= a) -> forall f, ~ mapped (spans s T) (addr / 4096) f).
  { intros Hpre f (sp & Hin & Hr & _). fold a in Hr. unfold spans in Hin. apply list_elem_of_fmap in Hin as (x & -> & Hx). rewrite E in Hx. apply elem_of_app in Hx as [Hx|Hx]; [specialize (Hpre x Hx); lia|].
    rewrite Forall_forall in H2. specialize (H2 x Hx). rewrite start_span in H2. fold (sp_start (span_of (regions s) x)) in H2. lia. }
  destruct (decide (pre = [])) as [->|Hp]; [exists 0; split; [reflexivity|left; split; [reflexivity|apply Hnone; set_solver]]|].
  destruct (last_in pre Hp) as (pre' & x & -> & ->). assert (Hx : x ∈ T) by (rewrite E; set_solver).
  destruct (tree_region _ _ _ _ _ _ Hinv x Hx) as (Hx0 & _). rewrite (proj2 (Z.eqb_neq _ _) Hx0).
  rewrite (rd_tree_start _ _ _ _ _ _ Hinv x Hx), (rd_tree_end _ _ _ _ _ _ Hinv Hsp x Hx). cbn [bind].
  assert (Hle : sp_start (span_of (regions s) x) <= a) by (rewrite Forall_forall in H1; specialize (H1 x ltac:(set_solver)); now rewrite start_span in H1).
  rewrite (proj2 (Z.leb_le _ _) Hle). cbn [andb]. destruct (a <? _) eqn:Ea; to_prop; [exists x; split; [reflexivity|right; auto]|].
  exists 0. split; [reflexivity|]. left. split; [reflexivity|]. apply Hnone. intros y Hy. apply elem_of_app in Hy as [Hy|Hy].
  - pose proof (before_last _ _ _ _ _ _ Hinv Hsp _ _ _ y E Hy) as Hb. lia.
  - apply list_elem_of_singleton in Hy as ->. exact Ea.
Qed.

Lemma IsRangeFree_ok conf s T start n : vma_ok conf s T -> 0 <= start < 2 ^ 64 -> 0 <= n -> n * 4096 < 2 ^ 64 ->
  exists b, IsRangeFree s start n = Ok b /\ (b = true <-> 1 <= n /\ start + n * 4096 < 2 ^ 64 /\ Forall (apart_from start (start + n * 4096)) (spans s T)).
Proof.
  intros [(L & F & Hinv) Hsp] Hst Hn0 Hn. unfold IsRangeFree. change PAGE_SIZE with 4096. destruct (n =? 0) eqn:E0; to_prop; [exists false; split; [reflexivity|]; split; [easy|lia]|].
  unfold u64. rewrite (Z.mod_small (n * 4096)) by lia. destruct (Z.lt_ge_cases (start + n * 4096) (2 ^ 64)) as [Hw|Hw].
  2:{ assert (Emod : (start + n * 4096) mod 2 ^ 64 = start + n * 4096 - 2 ^ 64) by (rewrite <- (Z.mod_add _ (-1)) by lia; apply Z.mod_small; lia).
      rewrite Emod, (proj2 (Z.ltb_lt _ _)) by lia. exists false. split; [reflexivity|]. split; [easy|lia]. }
  rewrite Z.mod_small by lia. rewrite (proj2 (Z.ltb_ge _ _)) by lia.
  destruct (find_ok conf s T [] L F start Hinv) as (pre & post & E & H1 & H2 & -> & ->). cbn [bind].
  pose proof (free_by_neighbours _ _ _ _ _ _ Hinv Hsp pre post start (start + n * 4096) E H1 H2 ltac:(lia)) as Hiff.
  assert (Hover1 : (if nonnull (last0 pre) then let* e := rd region_end s (last0 pre) in Ok (start <? e) else Ok false) =
    Ok (negb (bool_decide (pre = [] \/ sp_end (span_of (regions s) (last0 pre)) <= start)))).
  { destruct (decide (pre = [])) as [->|Hp]; [rewrite bool_decide_eq_true_2 by auto; reflexivity|]. destruct (last_in pre Hp) as (pre' & x & -> & ->).
    assert (Hx : x ∈ T) by (rewrite E; set_solver). destruct (tree_region _ _ _ _ _ _ Hinv x Hx) as (Hx0 & _). rewrite (nonnull_true _ Hx0).
    rewrite (rd_tree_end _ _ _ _ _ _ Hinv Hsp x Hx). cbn [bind]. f_equal. destruct (Z.ltb_spec start (sp_end (span_of (regions s) x))).
    - rewrite bool_decide_eq_false_2; [reflexivity|]. intros [?|?]; [now destruct pre'|lia].
    - rewrite bool_decide_eq_true_2; [reflexivity|]. auto. }
  rewrite Hover1. cbn [bind]. destruct (bool_decide_reflect (pre = [] \/ sp_end (span_of (regions s) (last0 pre)) <= start)) as [Hp|Hp]; simpl.
  2:{ exists false. split; [reflexivity|]. split; [easy|]. intros (_ & _ & Hf). tauto. }
  assert (Hover2 : (if nonnull (hd 0 post) then let* st := rd v_start s (hd 0 post) in Ok (st <? start + n * 4096) else Ok false) =
    Ok (negb (bool_decide (post = [] \/ start + n * 4096 <= sp_start (span_of (regions s) (hd 0 post)))))).
  { destruct post as [|y post]; [rewrite bool_decide_eq_true_2 by auto; reflexivity|]. simpl hd.
    assert (Hy : y ∈ T) by (rewrite E; set_solver). destruct (tree_region _ _ _ _ _ _ Hinv y Hy) as (Hy0 & _). rewrite (nonnull_true _ Hy0).
    rewrite (rd_tree_start _ _ _ _ _ _ Hinv y Hy). cbn [bind]. f_equal. destruct (Z.ltb_spec (sp_start (span_of (regions s) y)) (start + n * 4096)).
    - rewrite bool_decide_eq_false_2; [reflexivity|]. intros [?|?]; [easy|lia].
    - rewrite bool_decide_eq_true_2; [reflexivity|]. auto. }
  rewrite Hover2. cbn [bind]. destruct (bool_decide_reflect (post = [] \/ start + n * 4096 <= sp_start (span_of (regions s) (hd 0 post)))) as [Hq|Hq]; simpl.
  - exists true. split; [reflexivity|]. split; [intros _; split; [lia|]; split; [exact Hw|tauto]|auto].
  - exists false. split; [reflexivity|]. split; [easy|]. intros (_ & _ & Hf). tauto.
Qed.
