(* ===== verification/VMARegion.v ===== *)
(** Adding, splitting, merging and removing regions, as operations on the sorted
    list of spans. *)
From stdpp Require Import base gmap list fin_maps sets.
From Stdlib Require Import ZArith Lia Sorting.Sorted.
From S2P Require Import Prelude RBTree RBRep RBInsert RBSearch RBErase PMM VMA VMAInv VMAOps VMATree VMASpec.

Open Scope Z_scope.
Open Scope c_scope.

(** The same with the ring [L] made explicit. *)
Definition ok_at (conf : vm_conf) (s : vma_state) (T L : list Z) : Prop :=
  (exists F, vma_inv conf s T [] L F) /\ spaced (spans s T).

Lemma ok_at_ok conf s T L : ok_at conf s T L -> vma_ok conf s T.
Proof. intros [[F H1] H2]. split; eauto. Qed.

(** [S'] is [S] with [x] added or removed, or covers the same pages. *)
Definition with_span (S : list span) (x : span) (S' : list span) : Prop := exists S1 S2, S = S1 ++ S2 /\ S' = S1 ++ x :: S2.
Definition same_cover (S S' : list span) : Prop := forall p f, mapped S' p f <-> mapped S p f.

Lemma same_cover_refl S : same_cover S S.
Proof. intros p f. reflexivity. Qed.

Lemma same_cover_trans S1 S2 S3 : same_cover S1 S2 -> same_cover S2 S3 -> same_cover S1 S3.
Proof. intros H1 H2 p f. rewrite (H2 p f). apply H1. Qed.

Lemma with_span_mapped S x S' p f : with_span S x S' -> mapped S' p f <-> mapped S p f \/ (sp_start x <= 4096 * p < sp_end x /\ sp_flags x = f).
Proof.
  intros (S1 & S2 & -> & ->). unfold mapped. split.
  - intros (y & [Hy|[->|Hy]%elem_of_cons]%elem_of_app & H); [left|auto|left]; exists y; (split; [apply elem_of_app; auto|exact H]).
  - intros [(y & Hy & H)|H]; [|exists x; split; [set_solver|exact H]]. exists y. split; [set_solver|exact H].
Qed.

Lemma spans_ext s s' T : (forall x, x ∈ T -> span_of (regions s') x = span_of (regions s) x) -> spans s' T = spans s T.
Proof. intros H. apply list_fmap_ext. intros i x Hx. apply H. now apply list_elem_of_lookup_2 in Hx. Qed.

(** * Adding a region *)

(** A region that overlaps no other one is linked behind [after] and entered into
    the tree. *)
Lemma insert_enter_ok conf s T L after a n f : ok_at conf s T L -> after ∈ vma_head s :: L -> span_ok (a, n, f) ->
  Forall (apart_from a (a + n * 4096)) (spans s T) ->
  wp (let* (r, s) := InsertRegion conf s after a n f in if r =? 0 then Ok (0, s) else let* s := enter_tree s r in Ok (r, s)) (fun '(r, s') =>
    vma_head s' = vma_head s /\ vma_cursor s' = vma_cursor s /\ start_at (regions s') (vma_head s) = start_at (regions s) (vma_head s) /\ drawn s (nonnull r) s' /\
    ((r = 0 /\ ok_at conf s' T L /\ spans s' T = spans s T) \/
     (r <> 0 /\ exists L1 L2 T1 T2, L = L1 ++ L2 /\ before_ (vma_head s) L1 = after /\ T = T1 ++ T2 /\ ok_at conf s' (T1 ++ r :: T2) (L1 ++ r :: L2) /\
       spans s' (T1 ++ r :: T2) = spans s T1 ++ (a, n, f) :: spans s T2))).
Proof.
  intros [[F Hinv] Hsp] Ha Hok Hap. apply wp_bind. eapply wp_mono; [apply (InsertRegion_ok conf s T L F after a n f Hinv Ha)|].
  intros [r s1] (Hdr & F1 & [(-> & Hinv1 & Hk)|(Hr & L1 & L2 & EL & Hb & Hinv1 & HrL & [E1 E2 E3 E4 E5])]).
  - simpl. split; [apply Hk|]. split; [apply Hk|]. split; [unfold start_at; rewrite (k_reg _ _ _ Hk) by set_solver; reflexivity|]. split; [exact Hdr|]. left.
    assert (Es : spans s1 T = spans s T).
    { apply spans_ext. intros x Hx. apply (kept_span s s1 L T x Hk); [|exact Hx]. intros y. apply (tree_in_ring _ _ _ _ _ _ Hinv). }
    split; [reflexivity|]. split; [split; [eauto|now rewrite Es]|exact Es].
  - rewrite (proj2 (Z.eqb_neq _ _) Hr). apply wp_bind. eapply wp_mono; [apply (enter_tree_ok _ _ _ _ _ _ Hinv1)|].
    intros s2 (T1 & T2 & -> & Hinv2 & [S1 S2 S3] & Hcur & Hpre & Hpost). cbn [wp]. split; [congruence|]. split; [congruence|].
    split; [rewrite start_span, S1, <- start_span; exact E3|]. split; [exact (drawn_then _ _ _ _ Hdr S3)|]. right. split; [exact Hr|]. exists L1, L2, T1, T2. split; [exact EL|]. split; [exact Hb|]. split; [reflexivity|].
    assert (Eo : forall Q, (forall x, x ∈ Q -> x ∈ T1 ++ T2) -> spans s2 Q = spans s Q) by (intros Q HQ; apply spans_ext; intros x Hx; rewrite S1; apply E2; auto).
    assert (Es : spans s2 (T1 ++ r :: T2) = spans s T1 ++ (a, n, f) :: spans s T2).
    { unfold spans. rewrite fmap_app, fmap_cons. fold (spans s2 T1) (spans s2 T2). rewrite (Eo T1), (Eo T2) by set_solver. now rewrite S1, E1. }
    split; [|exact Es]. split; [eauto|]. rewrite Es. unfold spans in Hsp, Hap. rewrite fmap_app in Hsp, Hap.
    rewrite Forall_forall in Hpre, Hpost. apply spaced_insert; auto; apply Forall_fmap, Forall_forall; intros x Hx; unfold compose.
    + specialize (Hpre x Hx). rewrite !start_span, E1, E2 in Hpre by set_solver. exact Hpre.
    + specialize (Hpost x Hx). rewrite !start_span, E1, E2 in Hpost by set_solver. exact Hpost.
Qed.

(** * Changing the length of a region *)

Lemma count_inv conf s T X L F a c R : vma_inv conf s T X L F -> regions s !! a = Some R ->
  vma_inv conf (with_regions s (<[a := set_count c R]> (regions s))) T X L F.
Proof.
  intros [[G1 G2 G3 G4 G5 G6 G7 G8 G9 G10 G11 G12] Gw] HR. set (m := <[a := set_count c R]> (regions s)).
  assert (Hf : forall x, nx m x = nx (regions s) x /\ pv m x = pv (regions s) x /\ start_at m x = start_at (regions s) x /\ (is_Some (m !! x) <-> is_Some (regions s !! x))).
  { intros x. unfold nx, pv, start_at, m. destruct (decide (a = x)) as [<-|Hx]; [rewrite lookup_insert_eq, HR; simpl; split; [auto|]; split; [auto|]; split; [auto|split; eauto]|].
    now rewrite lookup_insert_ne. }
  split; [|intros x Hx; apply Gw, Hf, Hx]. split; simpl; auto.
  - apply (rb_ok_agree (vma_rb_cmp (regions s)) _ _ (rb_nodes s)); auto. intros x y _ _. rewrite !cmp_start. now destruct (Hf x) as (_ & _ & -> & _), (Hf y) as (_ & _ & -> & _).
  - apply (dll_frame (regions s)); [..|exact G2]; intros x _; apply Hf.
  - apply (chain_frame (regions s)); [|exact G6]. intros x _. apply Hf.
  - intros x. rewrite <- G7. apply Hf.
  - intros x Hx. apply Hf. auto.
  - intros x q Hq Hx. unfold m in Hq. destruct (decide (a = x)) as [<-|Hne].
    + rewrite lookup_insert_eq in Hq. injection Hq as <-. simpl. now apply G9.
    + rewrite lookup_insert_ne in Hq by exact Hne. now apply G9.
  - intros x Hx. destruct (G12 x Hx) as [Hz Hn]. split; [exact Hz|]. apply eq_None_not_Some. destruct (Hf x) as (_ & _ & _ & ->). rewrite Hn. apply is_Some_None.
Qed.

Lemma count_supply s a c R : regions s !! a = Some R -> same_supply s (with_regions s (<[a := set_count c R]> (regions s))).
Proof. intros HR. split; [|reflexivity]. cbn [with_regions regions]. apply map_size_insert_Some. eauto. Qed.

Lemma count_span m a c R x : m !! a = Some R ->
  span_of (<[a := set_count c R]> m) x = if decide (x = a) then (sp_start (span_of m a), c, sp_flags (span_of m a)) else span_of m x.
Proof.
  intros HR. unfold span_of. destruct (decide (x = a)) as [->|Hx]; [now rewrite lookup_insert_eq, HR|now rewrite lookup_insert_ne by auto].
Qed.

(** * Absorbing a neighbour *)

(** Regions where one ends at the start of the other are neighbours. *)
Lemma neighbours conf s T L F a b : vma_inv conf s T [] L F -> spaced (spans s T) -> a ∈ T -> b ∈ T ->
  sp_end (span_of (regions s) a) = sp_start (span_of (regions s) b) -> exists T1 T2, T = T1 ++ a :: b :: T2.
Proof.
  intros Hinv Hsp Ha Hb Hadj. pose proof (span_pos _ (tree_span_ok _ _ Hsp a Ha)) as Pa. pose proof (span_pos _ (tree_span_ok _ _ Hsp b Hb)) as Pb.
  apply list_elem_of_split in Hb as (T1 & T2 & ->). apply elem_of_app in Ha as [Ha|[->|Ha]%elem_of_cons]; [|lia|].
  - apply list_elem_of_split in Ha as (T0 & M & ->). destruct M as [|z M]; [exists T0, T2; now rewrite <- app_assoc|exfalso].
    assert (Hz : z ∈ (T0 ++ a :: z :: M) ++ b :: T2) by set_solver. pose proof (span_pos _ (tree_span_ok _ _ Hsp z Hz)).
    pose proof (cut_spaced _ _ _ _ _ _ Hinv Hsp (T0 ++ a :: z :: M) (b :: T2) z b eq_refl ltac:(set_solver) ltac:(set_solver)).
    pose proof (behind_first _ _ _ _ _ _ Hinv Hsp T0 a ((z :: M) ++ b :: T2) z ltac:(now rewrite <- app_assoc) ltac:(set_solver)). lia.
  - pose proof (behind_first _ _ _ _ _ _ Hinv Hsp T1 b T2 a eq_refl Ha). lia.
Qed.

Lemma nodup_tree conf s T X L F : vma_inv conf s T X L F -> NoDup T.
Proof. intros H. destruct (i_tree _ _ _ _ _ _ H) as (t & (_ & _ & Hnd) & _ & <- & _). exact Hnd. Qed.

(** The span of two neighbours. *)
Definition joined (x y : span) : span := (sp_start x, sp_pages x + sp_pages y, sp_flags x).

Lemma joined_ok x y : span_ok x -> span_ok y -> sp_end x = sp_start y -> span_ok (joined x y) /\ sp_end (joined x y) = sp_end y.
Proof. unfold span_ok, joined, sp_end, sp_start, sp_pages. simpl. intros (A1 & A2 & A3 & A4) (B1 & B2 & B3 & B4) E. lia. Qed.

Lemma joined_spaced S1 x y S2 : spaced (S1 ++ x :: y :: S2) -> sp_end x = sp_start y -> spaced (S1 ++ joined x y :: S2).
Proof.
  rewrite !spaced_app, !spaced_cons. intros (H1 & (H2 & (H3 & H4 & H5) & H6) & H7) E. destruct (joined_ok x y H2 H3 E) as [J1 J2].
  split; [exact H1|]. split; [split; [exact J1|]; split; [exact H4|]; rewrite J2; exact H5|].
  intros z w Hz [->|Hw]%elem_of_cons; [|apply H7; [exact Hz|set_solver]]. change (sp_start (joined x y)) with (sp_start x). apply H7; [exact Hz|set_solver].
Qed.

Lemma joined_cover S1 x y S2 : span_ok x -> span_ok y -> sp_end x = sp_start y -> sp_flags x = sp_flags y -> same_cover (S1 ++ x :: y :: S2) (S1 ++ joined x y :: S2).
Proof.
  intros Hx Hy E Ef p f. destruct (joined_ok x y Hx Hy E) as [_ J]. pose proof (span_pos _ Hx). pose proof (span_pos _ Hy).
  rewrite (with_span_mapped (S1 ++ S2) (joined x y) (S1 ++ joined x y :: S2)) by (exists S1, S2; auto). rewrite (with_span_mapped (S1 ++ y :: S2) x (S1 ++ x :: y :: S2)) by (exists S1, (y :: S2); auto).
  rewrite (with_span_mapped (S1 ++ S2) y (S1 ++ y :: S2)) by (exists S1, S2; auto). rewrite J, <- Ef. change (sp_start (joined x y)) with (sp_start x). change (sp_flags (joined x y)) with (sp_flags x).
  split; [|intros [[H'|[H' <-]]|[H' <-]]; [auto|right; split; [lia|reflexivity]..]].
  intros [H'|[H' <-]]; [auto|]. destruct (Z.lt_ge_cases (4096 * p) (sp_end x)); [right; split; [lia|reflexivity]|left; right; split; [lia|reflexivity]].
Qed.

Lemma absorb_ok conf s T L a b : ok_at conf s T L -> a ∈ T -> b ∈ T -> sp_end (span_of (regions s) a) = sp_start (span_of (regions s) b) ->
  sp_flags (span_of (regions s) a) = sp_flags (span_of (regions s) b) ->
  wp (absorb s a b) (fun s' => exists T' L', removed b T T' /\ removed b L L' /\ ok_at conf s' T' L' /\ same_cover (spans s T) (spans s' T') /\
    vma_head s' = vma_head s /\ start_at (regions s') (vma_head s) = start_at (regions s) (vma_head s) /\
    span_of (regions s') a = joined (span_of (regions s) a) (span_of (regions s) b) /\ same_supply s s' /\
    exists T1 T2, T = T1 ++ a :: b :: T2 /\ T' = T1 ++ a :: T2 /\ spans s' T' = spans s T1 ++ joined (span_of (regions s) a) (span_of (regions s) b) :: spans s T2).
Proof.
  intros [[F Hinv] Hsp] Ha Hb Hadj Hfl. unfold absorb. rewrite (rd_tree_count _ _ _ _ _ _ Hinv b Hb). cbn [bind].
  destruct (tree_region _ _ _ _ _ _ Hinv a Ha) as (Ha0 & R & HR & ER). rewrite (wr_ok _ _ _ _ HR). cbn [bind].
  pose proof (tree_span_ok _ _ Hsp a Ha) as Oa. pose proof (tree_span_ok _ _ Hsp b Hb) as Ob. set (xa := span_of (regions s) a) in *. set (xb := span_of (regions s) b) in *.
  assert (Ecnt : u64 (v_count R + sp_pages xb) = sp_pages xa + sp_pages xb).
  { rewrite ER. unfold sp_pages at 2. simpl. apply Z.mod_small. destruct Oa as (A1 & _ & A3 & A4). destruct Ob as (B1 & _ & B3 & B4). rewrite ER in *. unfold sp_end, sp_start, sp_pages in *. simpl in *. lia. }
  rewrite Ecnt. set (s1 := with_regions s _). pose proof (count_inv conf s T [] L F a (sp_pages xa + sp_pages xb) R Hinv HR) as Hinv1. fold s1 in Hinv1.
  assert (Hs1 : forall x, span_of (regions s1) x = if decide (x = a) then joined xa xb else span_of (regions s) x) by (intros x; apply (count_span (regions s) a _ R x HR)).
  eapply wp_mono; [apply (vma_destroy_ok conf s1 T L F b Hinv1 Hb)|]. intros s2 (T' & L' & HT & HL & Hinv2 & [Q1 Q2 Q3]). exists T', L'. split; [exact HT|]. split; [exact HL|].
  destruct (neighbours conf s T L F a b Hinv Hsp Ha Hb Hadj) as (T1 & T2 & ->). pose proof (nodup_tree _ _ _ _ _ _ Hinv) as Hnd.
  assert (T' = T1 ++ a :: T2) as ->.
  { destruct HT as (p & q & E1 & ->). replace (T1 ++ a :: b :: T2) with ((T1 ++ [a]) ++ b :: T2) in E1, Hnd by (now rewrite <- app_assoc).
    destruct (focus_split _ _ _ _ _ E1 Hnd) as [<- <-]. now rewrite <- app_assoc. }
  assert (Hn : forall x, x ∈ T1 ++ T2 -> x <> a).
  { intros x Hx ->. rewrite <- Permutation_middle in Hnd. apply NoDup_cons in Hnd as [Hnd _]. apply Hnd. set_solver. }
  assert (Eo : forall Q, (forall x, x ∈ Q -> x ∈ T1 ++ T2) -> spans s2 Q = spans s Q) by (intros Q HQ; apply spans_ext; intros x Hx; rewrite Q1, Hs1, decide_False; [reflexivity|apply Hn; auto]).
  assert (Ea : span_of (regions s2) a = joined xa xb) by (rewrite Q1, Hs1; now rewrite decide_True).
  assert (Es : spans s2 (T1 ++ a :: T2) = spans s T1 ++ joined xa xb :: spans s T2).
  { unfold spans. rewrite fmap_app, fmap_cons, Ea. fold (spans s2 T1) (spans s2 T2). now rewrite (Eo T1), (Eo T2) by set_solver. }
  assert (Es0 : spans s (T1 ++ a :: b :: T2) = spans s T1 ++ xa :: xb :: spans s T2) by (unfold spans; now rewrite fmap_app, !fmap_cons).
  rewrite Es0 in *. split; [split; [eauto|rewrite Es; now apply joined_spaced]|]. split; [rewrite Es; now apply joined_cover|]. split; [exact Q2|].
  split; [|split; [exact Ea|split; [apply (same_supply_trans _ s1); [exact (count_supply s a _ R HR)|exact Q3]|exists T1, T2; auto]]].
  rewrite start_span, Q1, Hs1, start_span. destruct (decide (vma_head s = a)) as [E|]; [|reflexivity]. exfalso. pose proof (i_nodup _ _ _ _ _ _ Hinv) as N. apply NoDup_cons in N as [N _].
  apply N. rewrite E. apply elem_of_app. left. apply (tree_in_ring _ _ _ _ _ _ Hinv). set_solver.
Qed.

(** * Merging *)

Lemma adjacent_ok conf s T L F a b : vma_inv conf s T [] L F -> spaced (spans s T) -> a ∈ T -> b ∈ T ->
  adjacent s a b = Ok (bool_decide (sp_end (span_of (regions s) a) = sp_start (span_of (regions s) b) /\ sp_flags (span_of (regions s) a) = sp_flags (span_of (regions s) b))).
Proof.
  intros Hinv Hsp Ha Hb. unfold adjacent. rewrite (rd_tree_end _ _ _ _ _ _ Hinv Hsp a Ha), (rd_tree_start _ _ _ _ _ _ Hinv b Hb). cbn [bind].
  destruct (Z.eqb_spec (sp_end (span_of (regions s) a)) (sp_start (span_of (regions s) b))) as [E|E].
  - rewrite (rd_tree_flags _ _ _ _ _ _ Hinv a Ha), (rd_tree_flags _ _ _ _ _ _ Hinv b Hb). cbn [bind]. f_equal.
    destruct (Z.eqb_spec (sp_flags (span_of (regions s) b)) (sp_flags (span_of (regions s) a))); symmetry; [apply bool_decide_eq_true|apply bool_decide_eq_false]; intuition congruence.
  - f_equal. symmetry. apply bool_decide_eq_false. tauto.
Qed.

Lemma tree_size conf s T X L F : vma_inv conf s T X L F -> (length T <= size (regions s))%nat.
Proof.
  intros Hinv. rewrite <- size_dom. rewrite <- (size_list_to_set (C := gset Z) T (nodup_tree _ _ _ _ _ _ Hinv)). apply subseteq_size. intros x Hx.
  apply elem_of_list_to_set in Hx. apply elem_of_dom. destruct (tree_region _ _ _ _ _ _ Hinv x Hx) as (_ & r & Hr & _). eauto.
Qed.

(** [s] has the pages of [s0], and the span of [r] holds [x0]: it has taken the
    place of the neighbouring regions [K]. *)
Record merged (conf : vm_conf) (s0 : vma_state) (S0 : list span) (x0 : span) (s : vma_state) (T L : list Z) (r : Z) : Prop := {
  m_ok : ok_at conf s T L;
  m_cover : same_cover S0 (spans s T);
  m_head : vma_head s = vma_head s0;
  m_low : start_at (regions s) (vma_head s0) = start_at (regions s0) (vma_head s0);
  m_in : r ∈ T;
  m_start : sp_start (span_of (regions s) r) <= sp_start x0;
  m_end : sp_end x0 <= sp_end (span_of (regions s) r);
  m_flags : sp_flags (span_of (regions s) r) = sp_flags x0;
  m_supply : same_supply s0 s;
  m_shape : exists T1 T2 A K B, T = T1 ++ r :: T2 /\ S0 = A ++ K ++ B /\ spans s T1 = A /\ spans s T2 = B /\ x0 ∈ K /\
    forall p f, mapped K p f <-> mapped [span_of (regions s) r] p f
}.

Lemma mapped_app S1 S2 p f : mapped (S1 ++ S2) p f <-> mapped S1 p f \/ mapped S2 p f.
Proof. unfold mapped. setoid_rewrite elem_of_app. firstorder. Qed.

(** The neighbours taken over grow by [a] or [b]. *)
Lemma shape_absorb s s' S0 x0 a b r P1 P2 A K B T1 T2 : r = a \/ r = b -> NoDup (P1 ++ a :: b :: P2) -> P1 ++ a :: b :: P2 = T1 ++ r :: T2 ->
  span_ok (span_of (regions s) a) -> span_ok (span_of (regions s) b) ->
  sp_end (span_of (regions s) a) = sp_start (span_of (regions s) b) /\ sp_flags (span_of (regions s) a) = sp_flags (span_of (regions s) b) ->
  S0 = A ++ K ++ B -> spans s T1 = A -> spans s T2 = B -> x0 ∈ K -> (forall p f, mapped K p f <-> mapped [span_of (regions s) r] p f) ->
  spans s' (P1 ++ a :: P2) = spans s P1 ++ joined (span_of (regions s) a) (span_of (regions s) b) :: spans s P2 ->
  exists T1 T2 A K B, P1 ++ a :: P2 = T1 ++ a :: T2 /\ S0 = A ++ K ++ B /\ spans s' T1 = A /\ spans s' T2 = B /\ x0 ∈ K /\
    forall p f, mapped K p f <-> mapped [span_of (regions s') a] p f.
Proof.
  intros Hr Hnd ET Oa Ob [Hadj Hfl] ES EA EB Hx0 HK Es'. set (xa := span_of (regions s) a) in *. set (xb := span_of (regions s) b) in *.
  assert (Hj : forall p f, mapped [joined xa xb] p f <-> mapped [xa] p f \/ mapped [xb] p f).
  { intros p f. rewrite (joined_cover [] xa xb [] Oa Ob Hadj Hfl p f). change ([] ++ [xa; xb]) with ([xa] ++ [xb]). apply mapped_app. }
  assert (Hs' : spans s' P1 = spans s P1 /\ span_of (regions s') a = joined xa xb /\ spans s' P2 = spans s P2).
  { unfold spans in Es'. rewrite fmap_app, fmap_cons in Es'. apply app_inj_1 in Es' as [E1 E2]; [|now rewrite !length_fmap]. injection E2. auto. }
  destruct Hs' as (E1 & E2 & E3). destruct Hr as [->| ->].
  - destruct (focus_split _ _ _ _ _ ET Hnd) as [<- <-]. exists P1, P2, A, (K ++ [xb]), (spans s P2). split; [reflexivity|]. split.
    { rewrite ES, <- EB. unfold spans. rewrite fmap_cons. fold xb. now rewrite <- !app_assoc. }
    split; [congruence|]. split; [exact E3|]. split; [apply elem_of_app; auto|]. intros p f. rewrite E2, mapped_app, HK. symmetry. apply Hj.
  - replace (P1 ++ a :: b :: P2) with ((P1 ++ [a]) ++ b :: P2) in ET, Hnd by (now rewrite <- app_assoc). destruct (focus_split _ _ _ _ _ ET Hnd) as [<- <-].
    exists P1, P2, (spans s P1), (xa :: K), B. split; [reflexivity|]. split.
    { rewrite ES, <- EA. unfold spans. rewrite fmap_app, fmap_cons. fold xa. cbn [fmap list_fmap]. now rewrite <- !app_assoc. }
    split; [exact E1|]. split; [congruence|]. split; [apply elem_of_cons; auto|]. intros p f. rewrite E2. change (xa :: K) with ([xa] ++ K). rewrite mapped_app, HK. symmetry. apply Hj.
Qed.

(** The region [a] has taken over [b]; [r] is one of them. *)
Lemma merged_absorb conf s0 S0 x0 s T L a b : merged conf s0 S0 x0 s T L a \/ merged conf s0 S0 x0 s T L b -> a ∈ T -> b ∈ T ->
  sp_end (span_of (regions s) a) = sp_start (span_of (regions s) b) /\ sp_flags (span_of (regions s) a) = sp_flags (span_of (regions s) b) ->
  wp (absorb s a b) (fun s' => exists T' L', removed b T T' /\ removed b L L' /\ merged conf s0 S0 x0 s' T' L' a).
Proof.
  intros Hm Ha Hb [Hadj Hfl]. assert (Hg : ok_at conf s T L /\ same_cover S0 (spans s T) /\ vma_head s = vma_head s0 /\ start_at (regions s) (vma_head s0) = start_at (regions s0) (vma_head s0)) by (destruct Hm as [[]|[]]; auto).
  destruct Hg as (Hok & Hc & Hh & Hl). pose proof Hok as [[F Hinv] Hsp]. pose proof (tree_span_ok _ _ Hsp a Ha) as Oa. pose proof (tree_span_ok _ _ Hsp b Hb) as Ob.
  pose proof (span_pos _ Oa). pose proof (span_pos _ Ob).
  eapply wp_mono; [apply (absorb_ok conf s T L a b Hok Ha Hb Hadj Hfl)|]. intros s' (T' & L' & HT & HL & Hok' & Hc' & Hh' & Hl' & Ea & Hsu & P1 & P2 & ET & ET' & Es'). exists T', L'. split; [exact HT|]. split; [exact HL|].
  destruct (joined_ok _ _ Oa Ob Hadj) as [_ Je]. split; [exact Hok'|eauto using same_cover_trans|congruence|rewrite Hh in Hl'; congruence| |rewrite Ea..| |].
  - pose proof (removed_perm _ _ _ HT) as HP. rewrite HP in Ha. apply elem_of_cons in Ha as [->|Ha]; [lia|exact Ha].
  - change (sp_start (joined ?x ?y)) with (sp_start x). destruct Hm as [[]|[]]; lia.
  - rewrite Je. destruct Hm as [[]|[]]; lia.
  - change (sp_flags (joined ?x ?y)) with (sp_flags x). destruct Hm as [[]|[]]; congruence.
  - eapply same_supply_trans; [|exact Hsu]. destruct Hm as [[]|[]]; assumption.
  - rewrite ET in Hinv. pose proof (nodup_tree _ _ _ _ _ _ Hinv) as Hnd. subst T T'. destruct Hm as [Hm|Hm]; destruct (m_shape _ _ _ _ _ _ _ _ Hm) as (T1 & T2 & A & K & B & Q1 & Q2 & Q3 & Q4 & Q5 & Q6).
    + exact (shape_absorb s s' S0 x0 a b a P1 P2 A K B T1 T2 (or_introl eq_refl) Hnd Q1 Oa Ob (conj Hadj Hfl) Q2 Q3 Q4 Q5 Q6 Es').
    + exact (shape_absorb s s' S0 x0 a b b P1 P2 A K B T1 T2 (or_intror eq_refl) Hnd Q1 Oa Ob (conj Hadj Hfl) Q2 Q3 Q4 Q5 Q6 Es').
Qed.

(** Ring and tree hold the same nodes. *)
Lemma ring_tree conf s T L F x : vma_inv conf s T [] L F -> x ∈ L <-> x ∈ T.
Proof. intros H. now rewrite (i_perm _ _ _ _ _ _ H). Qed.

Lemma ring_nodup conf s T X L F : vma_inv conf s T X L F -> NoDup (vma_head s :: L).
Proof. intros H. pose proof (i_nodup _ _ _ _ _ _ H) as N. rewrite app_comm_cons in N. now apply NoDup_app in N. Qed.

Lemma merge_following_ok conf s0 S0 x0 s T L r : merged conf s0 S0 x0 s T L r ->
  wp (merge_following s r) (fun s' => exists T' L', merged conf s0 S0 x0 s' T' L' r).
Proof.
  intros Hm. unfold merge_following. destruct (m_ok _ _ _ _ _ _ _ _ Hm) as [[F Hinv] Hsp].
  assert (HrL : r ∈ L) by (apply (tree_in_ring _ _ _ _ _ _ Hinv), Hm). pose proof HrL as Hsplit. apply list_elem_of_split in Hsplit as (L1 & L2 & EL).
  pose proof (i_ring _ _ _ _ _ _ Hinv) as Hd. rewrite EL in Hd. destruct (ring_neighbours _ _ _ _ _ _ Hd) as [En _].
  destruct (i_mem _ _ _ _ _ _ Hinv r) as [R HR]; [set_solver|]. rewrite (rd_ok _ _ _ _ HR). cbn [bind]. rewrite (nx_some _ _ _ HR) in En. rewrite En.
  apply (wp_loop_on (fun '(T, L) '(s, cur) => merged conf s0 S0 x0 s T L r /\ cur ∈ vma_head s :: T) (fun '(T, _) => length T)) with (g := (T, L)).
  - clear. intros [T L] [s cur] [Hm Hc]. destruct (m_ok _ _ _ _ _ _ _ _ Hm) as [[F Hinv] Hsp]. destruct (cur =? vma_head s) eqn:Eh; to_prop; simpl negb; [simpl; eauto|].
    apply elem_of_cons in Hc as [Hc|Hc]; [contradiction|]. rewrite (adjacent_ok _ _ _ _ _ _ _ Hinv Hsp (m_in _ _ _ _ _ _ _ _ Hm) Hc). cbn [bind].
    destruct (bool_decide_reflect (sp_end (span_of (regions s) r) = sp_start (span_of (regions s) cur) /\ sp_flags (span_of (regions s) r) = sp_flags (span_of (regions s) cur))) as [Hadj|_]; [|simpl; eauto].
    assert (HcL : cur ∈ L) by (now apply (tree_in_ring _ _ _ _ _ _ Hinv)). pose proof HcL as Hs. apply list_elem_of_split in Hs as (L1 & L2 & EL).
    pose proof (i_ring _ _ _ _ _ _ Hinv) as Hd. rewrite EL in Hd. destruct (ring_neighbours _ _ _ _ _ _ Hd) as [En _]. destruct (i_mem _ _ _ _ _ _ Hinv cur) as [R HR]; [set_solver|].
    rewrite (rd_ok _ _ _ _ HR). cbn [bind]. rewrite (nx_some _ _ _ HR) in En. rewrite En. apply wp_bind.
    eapply wp_mono; [apply (merged_absorb conf s0 S0 x0 s T L r cur (or_introl Hm) (m_in _ _ _ _ _ _ _ _ Hm) Hc Hadj)|].
    intros s' (T' & L' & HT & HL & Hm'). cbn [wp]. exists (T', L'). pose proof (removed_perm _ _ _ HT) as HP. split; [|rewrite HP; simpl; lia]. split; [exact Hm'|].
    rewrite (m_head _ _ _ _ _ _ _ _ Hm'), <- (m_head _ _ _ _ _ _ _ _ Hm). pose proof (behind_elem L2 (vma_head s)) as [->|Hb]%elem_of_cons; [set_solver|].
    assert (HbT : behind L2 (vma_head s) ∈ T) by (apply (ring_tree _ _ _ _ _ _ Hinv); rewrite EL; set_solver). rewrite HP in HbT.
    apply elem_of_cons in HbT as [Eq|HbT]; [|set_solver]. pose proof (ring_nodup _ _ _ _ _ _ Hinv) as N. rewrite EL in N. apply NoDup_cons in N as [_ N]. apply NoDup_app in N as (_ & _ & N).
    apply NoDup_cons in N as [N _]. rewrite Eq in Hb. contradiction.
  - split; [exact Hm|]. pose proof (behind_elem L2 (vma_head s)) as [->|Hb]%elem_of_cons; [set_solver|]. apply elem_of_cons. right. apply (ring_tree _ _ _ _ _ _ Hinv). rewrite EL. set_solver.
  - pose proof (tree_size _ _ _ _ _ _ Hinv). simpl. lia.
Qed.

Lemma merge_preceding_ok conf s0 S0 x0 s T L r : merged conf s0 S0 x0 s T L r ->
  wp (merge_preceding s r) (fun '(x, s') => exists T' L', merged conf s0 S0 x0 s' T' L' x).
Proof.
  intros Hm. unfold merge_preceding. destruct (m_ok _ _ _ _ _ _ _ _ Hm) as [[F Hinv] Hsp].
  assert (HrL : r ∈ L) by (apply (tree_in_ring _ _ _ _ _ _ Hinv), Hm). destruct (i_mem _ _ _ _ _ _ Hinv r) as [R HR]; [set_solver|].
  rewrite (rd_ok _ _ _ _ HR). cbn [bind]. rewrite <- (pv_some _ _ _ HR).
  apply (wp_loop_on (fun '(T, L) '(s, r, prev) => merged conf s0 S0 x0 s T L r /\ prev = pv (regions s) r) (fun '(T, _) => length T)) with (g := (T, L)).
  - clear. intros [T L] [[s r] prev] [Hm ->]. destruct (m_ok _ _ _ _ _ _ _ _ Hm) as [[F Hinv] Hsp].
    assert (HrL : r ∈ L) by (apply (tree_in_ring _ _ _ _ _ _ Hinv), Hm). pose proof HrL as Hsplit. apply list_elem_of_split in Hsplit as (L1 & L2 & EL).
    pose proof (i_ring _ _ _ _ _ _ Hinv) as Hd. rewrite EL in Hd. destruct (ring_neighbours _ _ _ _ _ _ Hd) as [_ Ep]. rewrite Ep.
    destruct (before_ (vma_head s) L1 =? vma_head s) eqn:Eh; to_prop; simpl negb; [simpl; eauto|].
    destruct L1 as [|p L1 _] using rev_ind; [easy|]. assert (Eb : before_ (vma_head s) (L1 ++ [p]) = p) by (unfold before_; now rewrite last_snoc). rewrite Eb in *.
    assert (HpL : p ∈ L) by (rewrite EL; set_solver). assert (HpT : p ∈ T) by (now apply (ring_tree _ _ _ _ _ _ Hinv)).
    rewrite (adjacent_ok _ _ _ _ _ _ _ Hinv Hsp HpT (m_in _ _ _ _ _ _ _ _ Hm)). cbn [bind].
    destruct (bool_decide_reflect (sp_end (span_of (regions s) p) = sp_start (span_of (regions s) r) /\ sp_flags (span_of (regions s) p) = sp_flags (span_of (regions s) r))) as [Hadj|_]; [|simpl; eauto].
    rewrite <- app_assoc in Hd. destruct (ring_neighbours _ _ _ _ _ _ Hd) as [_ Ep2]. destruct (i_mem _ _ _ _ _ _ Hinv p) as [P HP]; [set_solver|].
    rewrite (rd_ok _ _ _ _ HP). cbn [bind]. rewrite (pv_some _ _ _ HP) in Ep2. rewrite Ep2. apply wp_bind.
    eapply wp_mono; [apply (merged_absorb conf s0 S0 x0 s T L p r (or_intror Hm) HpT (m_in _ _ _ _ _ _ _ _ Hm) Hadj)|].
    intros s' (T' & L' & HT & HL & Hm'). cbn [wp]. exists (T', L'). pose proof (removed_perm _ _ _ HT) as HPm. split; [|rewrite HPm; simpl; lia]. split; [exact Hm'|].
    destruct (m_ok _ _ _ _ _ _ _ _ Hm') as [[F' Hinv'] _]. pose proof (ring_nodup _ _ _ _ _ _ Hinv) as N. apply NoDup_cons in N as [_ N].
    destruct HL as (A & B & EL2 & ->). rewrite EL in EL2, N. destruct (focus_split _ _ _ _ _ EL2 N) as [<- <-].
    pose proof (i_ring _ _ _ _ _ _ Hinv') as Hd'. rewrite (m_head _ _ _ _ _ _ _ _ Hm'), <- (m_head _ _ _ _ _ _ _ _ Hm), <- app_assoc in Hd'.
    destruct (ring_neighbours _ _ _ _ _ _ Hd') as [_ Ep3]. now rewrite Ep3.
  - split; [exact Hm|reflexivity].
  - pose proof (tree_size _ _ _ _ _ _ Hinv). simpl. lia.
Qed.

Lemma MergeRegion_ok conf s T L r : ok_at conf s T L -> r ∈ T ->
  wp (MergeRegion s r) (fun '(x, s') => exists T' L', merged conf s (spans s T) (span_of (regions s) r) s' T' L' x).
Proof.
  intros Hok Hr. pose proof Hok as [[F Hinv] Hsp]. unfold MergeRegion. destruct (tree_region _ _ _ _ _ _ Hinv r Hr) as (Hr0 & _).
  assert (Hh : r <> vma_head s). { intros ->. pose proof (ring_nodup _ _ _ _ _ _ Hinv) as N. apply NoDup_cons in N as [N _]. apply N. now apply (tree_in_ring _ _ _ _ _ _ Hinv). }
  rewrite (proj2 (Z.eqb_neq _ _) Hr0), (proj2 (Z.eqb_neq _ _) Hh). cbn [orb]. apply wp_bind. eapply wp_mono; [apply (merge_following_ok conf s (spans s T) (span_of (regions s) r) s T L r)|].
  - pose proof Hr as Hr'. apply list_elem_of_split in Hr' as (T1 & T2 & ->). split; auto using same_cover_refl; [lia|lia|now split|].
    exists T1, T2, (spans s T1), [span_of (regions s) r], (spans s T2). split; [reflexivity|]. split; [unfold spans; now rewrite fmap_app, fmap_cons|].
    split; [reflexivity|]. split; [reflexivity|]. split; [apply list_elem_of_here|reflexivity].
  - intros s' (T' & L' & Hm). now apply merge_preceding_ok with T' L'.
Qed.
