(* ===== verification/VMAEdit.v ===== *)
(** The interface operations that change regions: [AddRegion], [SplitRegion],
    [RemoveRegion] and [SetStart]. *)
From stdpp Require Import base gmap list fin_maps sets.
From Stdlib Require Import ZArith Lia Sorting.Sorted.
From S2P Require Import Prelude RBTree RBRep RBInsert RBSearch RBErase PMM VMA VMAInv VMAOps VMATree VMASpec VMARegion.

Open Scope Z_scope.
Open Scope c_scope.

Lemma ok_explicit conf s T : vma_ok conf s T -> exists L, ok_at conf s T L.
Proof. intros [(L & F & H1) H2]. exists L. split; eauto. Qed.

Lemma ok_head conf s T : vma_ok conf s T -> vma_head s <> 0.
Proof. intros [(L & F & H) _] E. apply (i_nz _ _ _ _ _ _ H). rewrite E. set_solver. Qed.

(** The sentinel, and with it the lower bound, is what it was. *)
Definition same_low (s s' : vma_state) : Prop :=
  vma_head s' = vma_head s /\ start_at (regions s') (vma_head s) = start_at (regions s) (vma_head s).

(** The nodes next to the sentinel. *)
Lemma head_prev conf s T L F : vma_inv conf s T [] L F -> exists last, rd v_prev s (vma_head s) = Ok last /\ last ∈ vma_head s :: L.
Proof.
  intros H. destruct (i_mem _ _ _ _ _ _ H (vma_head s)) as [R HR]; [set_solver|]. rewrite (rd_ok _ _ _ _ HR). eexists. split; [reflexivity|].
  pose proof (i_ring _ _ _ _ _ _ H) as Hd. rewrite <- (app_nil_r L) in Hd. destruct (dll_mid _ _ L [] _ Hd) as [_ E]. unfold behind in E. simpl in E.
  rewrite <- (pv_some _ _ _ HR), E. apply before_elem.
Qed.

(** No node in the pool, and no page for more. *)
Definition no_memory (s : vma_state) : Prop := g_node_free_list s = 0 /\ hd 0 (pmm_pages s) = 0.

Lemma drawn_none s s' : drawn s false s' -> no_memory s.
Proof.
  unfold drawn, no_memory. destruct (g_node_free_list s =? 0) eqn:E; to_prop; [|intros [? _]; discriminate]. split; [exact E|].
  destruct (pmm_pages s) as [|pg ps]; [reflexivity|]. destruct H as [H _]. cbn [hd]. symmetry in H. apply negb_false_iff in H. now to_prop.
Qed.

(** The region [x] is new; it and a run of regions around it have become one. *)
Definition added (S : list span) (x : span) (S' : list span) : Prop :=
  exists S1 S2 A K B y, S = S1 ++ S2 /\ S1 ++ x :: S2 = A ++ K ++ B /\ x ∈ K /\ S' = A ++ y :: B /\ forall p f, mapped K p f <-> mapped [y] p f.

Lemma AddRegion_ok conf s T a n f : vma_ok conf s T -> span_ok (a, n, f) -> Forall (apart_from a (a + n * 4096)) (spans s T) ->
  wp (AddRegion conf s a n f) (fun '(x, s') => same_low s s' /\ drawn s (nonnull x) s' /\
    ((x = 0 /\ vma_ok conf s' T /\ spans s' T = spans s T) \/
     (exists T', vma_ok conf s' T' /\ x ∈ T' /\
       (forall p g, mapped (spans s' T') p g <-> mapped (spans s T) p g \/ (a <= 4096 * p < a + n * 4096 /\ g = f)) /\
       sp_start (span_of (regions s') x) <= a /\ a + n * 4096 <= sp_end (span_of (regions s') x) /\ added (spans s T) (a, n, f) (spans s' T')))).
Proof.
  intros Hok Hspan Hap. unfold AddRegion. rewrite (proj2 (Z.eqb_neq _ _) (ok_head _ _ _ Hok)). assert (Hn : n <> 0) by (destruct Hspan as (_ & _ & Hn & _); unfold sp_pages in Hn; simpl in Hn; lia).
  rewrite (proj2 (Z.eqb_neq _ _) Hn). cbn [orb]. destruct (ok_explicit _ _ _ Hok) as (L & HokL). pose proof HokL as [[F Hinv] Hsp].
  destruct (head_prev _ _ _ _ _ Hinv) as (last & -> & Hlast). cbn [bind].
  pose proof (insert_enter_ok conf s T L last a n f HokL Hlast Hspan Hap) as Hins.
  destruct (InsertRegion conf s last a n f) as [[r s1]| |]; try easy. cbn [bind] in *. destruct (r =? 0) eqn:E0; to_prop.
  - simpl in *. destruct Hins as (E1 & _ & E3 & Hdr & [(_ & Hok1 & Es)|(Hz & _)]); [|easy]. split; [now split|]. split; [exact Hdr|]. left. split; [reflexivity|]. split; [now apply ok_at_ok with L|exact Es].
  - apply wp_bind. destruct (enter_tree s1 r) as [s2| |]; try easy. simpl in Hins |- *. destruct Hins as (E1 & _ & E3 & Hdr & [(Hz & _)|(_ & L1 & L2 & T1 & T2 & -> & _ & -> & Hok2 & Es)]); [easy|].
    assert (Hr : r ∈ T1 ++ r :: T2) by set_solver. eapply wp_mono; [apply (MergeRegion_ok _ _ _ _ r Hok2 Hr)|]. intros [x s'] (T' & L' & [M1 M2 M3 M4 M5 M6 M7 M8 M9 M10]).
    split; [split; [congruence|]; rewrite E1 in M4; congruence|].
    assert (Hx0 : x <> 0) by (destruct M1 as [[F1 M1] _]; exact (proj1 (tree_region _ _ _ _ _ _ M1 x M5))).
    split; [rewrite nonnull_true in Hdr |- * by assumption; exact (drawn_then _ _ _ _ Hdr M9)|]. right. exists T'. split; [now apply ok_at_ok with L'|]. split; [exact M5|].
    assert (Er : span_of (regions s2) r = (a, n, f)).
    { unfold spans in Es. rewrite fmap_app, fmap_cons in Es. apply app_inj_1 in Es as [_ Es]; [|now rewrite !length_fmap]. now injection Es. }
    rewrite Er in M6, M7, M10. split; [|split; [assumption|split; [assumption|]]].
    2:{ destruct M10 as (Q1 & Q2 & A & K & B & -> & EK & <- & <- & Hx & HK). exists (spans s T1), (spans s T2), (spans s' Q1), K, (spans s' Q2), (span_of (regions s') x).
        split; [unfold spans; now rewrite fmap_app|]. split; [exact (eq_trans (eq_sym Es) EK)|]. split; [exact Hx|]. split; [unfold spans; now rewrite fmap_app, fmap_cons|exact HK]. }
    intros p g. rewrite (M2 p g), Es.
    rewrite (with_span_mapped (spans s (T1 ++ T2)) (a, n, f)) by (exists (spans s T1), (spans s T2); unfold spans; now rewrite fmap_app).
    unfold sp_end, sp_start, sp_pages, sp_flags. simpl. intuition congruence.
Qed.

Lemma RemoveRegion_ok conf s T r : vma_ok conf s T -> r ∈ T ->
  wp (RemoveRegion s r) (fun s' => exists T', vma_ok conf s' T' /\ removed r T T' /\ same_low s s' /\ same_supply s s' /\ forall x, span_of (regions s') x = span_of (regions s) x).
Proof.
  intros Hok Hr. destruct (ok_explicit _ _ _ Hok) as (L & [[F Hinv] Hsp]). unfold RemoveRegion. destruct (tree_region _ _ _ _ _ _ Hinv r Hr) as (Hr0 & _).
  rewrite (proj2 (Z.eqb_neq _ _) Hr0). eapply wp_mono; [apply (vma_destroy_ok conf s T L F r Hinv Hr)|]. intros s' (T' & L' & HT & HL & Hinv' & [S1 S2 S3]).
  exists T'. split; [|split; [exact HT|split; [split; [exact S2|now rewrite !start_span, S1]|split; [exact S3|exact S1]]]]. split; [eauto|]. unfold spans.
  replace (span_of (regions s') <$> T') with (spans s T') by (apply list_fmap_ext; intros; now rewrite S1). destruct HT as (A & B & -> & ->).
  unfold spans in *. rewrite fmap_app, ?fmap_cons in *. apply spaced_app in Hsp as (P1 & P2 & P3). apply spaced_cons in P2 as (P4 & P5 & P6).
  apply spaced_app. split; [exact P1|]. split; [exact P5|]. intros x y Hx Hy. apply P3; [exact Hx|set_solver].
Qed.

(** * Splitting *)

Lemma shrink_spaced S1 x y S2 : spaced (S1 ++ x :: S2) -> sp_start y = sp_start x -> 1 <= sp_pages y <= sp_pages x -> spaced (S1 ++ y :: S2).
Proof.
  rewrite !spaced_app, !spaced_cons. intros (H1 & (H2 & H3 & H4) & H5) E Hp. assert (He : sp_end y <= sp_end x) by (unfold sp_end; rewrite E; lia).
  split; [exact H1|]. split; [split; [|split; [exact H3|intros z Hz; specialize (H4 z Hz); lia]]|].
  - destruct H2 as (A1 & A2 & A3 & A4). unfold span_ok. rewrite E. auto with lia.
  - intros z w Hz [->|Hw]%elem_of_cons; [rewrite E|]; apply H5; set_solver.
Qed.

Lemma split_tail a n f k : span_ok (a, n, f) -> a < 4096 * k < a + n * 4096 ->
  (4096 * k - a) / 4096 + (a + n * 4096 - 4096 * k) / 4096 = n /\ 1 <= (4096 * k - a) / 4096 /\ 1 <= (a + n * 4096 - 4096 * k) / 4096 /\
  a + (4096 * k - a) / 4096 * 4096 = 4096 * k /\ 4096 * k + (a + n * 4096 - 4096 * k) / 4096 * 4096 = a + n * 4096.
Proof. intros (A1 & A2 & A3 & A4) Hk. unfold sp_start, sp_pages, sp_end in *. simpl in *. dlia. Qed.

(** A region [x] in front of [x'] and the rest of it. *)
Lemma split_spaced S1 x S2 y z Q1 Q2 : spaced (S1 ++ x :: S2) -> S1 ++ y :: S2 = Q1 ++ Q2 -> span_ok z -> sp_start y = sp_start x -> 1 <= sp_pages y <= sp_pages x ->
  sp_end y = sp_start z -> sp_end z = sp_end x -> Forall (fun w => sp_start w <= sp_start z) Q1 -> Forall (fun w => sp_start z < sp_start w) Q2 -> spaced (Q1 ++ z :: Q2).
Proof.
  intros Hs E Hz Es Hp Ey Ez H1 H2. pose proof (shrink_spaced S1 x y S2 Hs Es Hp) as Hy. assert (He : sp_end y <= sp_end x) by (unfold sp_end; rewrite Es; lia).
  apply spaced_app in Hs as (P1 & P2 & P3). apply spaced_cons in P2 as (P4 & P5 & P6). pose proof (span_pos _ P4).
  apply spaced_insert; auto; rewrite <- E; [exact Hy|]. apply Forall_forall. intros w [Hw|[->|Hw]%elem_of_cons]%elem_of_app.
  - right. specialize (P3 w x Hw ltac:(set_solver)). unfold sp_end in Ey. rewrite Es in Ey. lia.
  - right. lia.
  - left. rewrite Ez. now apply P6.
Qed.

Lemma split_cover S1 x S2 y z Q1 Q2 : S1 ++ y :: S2 = Q1 ++ Q2 -> sp_start y = sp_start x -> sp_end y = sp_start z -> sp_end z = sp_end x ->
  sp_start y <= sp_end y -> sp_start z <= sp_end z -> sp_flags y = sp_flags x -> sp_flags z = sp_flags x -> same_cover (S1 ++ x :: S2) (Q1 ++ z :: Q2).
Proof.
  intros E Es Ey Ez Hy Hz Fy Fz p f. rewrite (with_span_mapped (Q1 ++ Q2) z (Q1 ++ z :: Q2)) by (exists Q1, Q2; auto). rewrite <- E.
  rewrite (with_span_mapped (S1 ++ S2) y (S1 ++ y :: S2)) by (exists S1, S2; auto). rewrite (with_span_mapped (S1 ++ S2) x (S1 ++ x :: S2)) by (exists S1, S2; auto).
  rewrite Fy, Fz. split; [intros [[H|[H <-]]|[H <-]]; [auto|right; split; [lia|reflexivity]..]|]. intros [H|[H <-]]; [auto|].
  destruct (Z.lt_ge_cases (4096 * p) (sp_end y)); [left; right; split; [lia|reflexivity]|right; split; [lia|reflexivity]].
Qed.

(** A sorted list is cut at one place only. *)
Lemma cut_unique {A} (P : A -> Prop) (l1 l2 Q1 Q2 : list A) (y : A) : l1 ++ y :: l2 = Q1 ++ Q2 -> P y -> Forall (fun x => ~ P x) l2 -> Forall P Q1 -> Forall (fun x => ~ P x) Q2 ->
  Q1 = l1 ++ [y] /\ Q2 = l2.
Proof.
  intros E Hy H2 HQ1 HQ2. replace (l1 ++ y :: l2) with ((l1 ++ [y]) ++ l2) in E by (now rewrite <- app_assoc). rewrite Forall_forall in H2, HQ1, HQ2.
  apply app_eq_app in E as (l & [[E ->]|[-> ->]]).
  - destruct l as [|z l _] using rev_ind; [now rewrite app_nil_r in E|exfalso]. rewrite app_assoc in E. apply app_inj_2 in E as [_ [= <-]]; [|reflexivity].
    apply (HQ2 y); [|exact Hy]. apply elem_of_app. left. apply elem_of_app. right. apply list_elem_of_here.
  - destruct l as [|z l]; [now rewrite app_nil_r|exfalso]. apply (H2 z); [apply list_elem_of_here|]. apply HQ1, elem_of_app. right. apply list_elem_of_here.
Qed.

(** A region of [S] has been cut in two at [c]. *)
Definition split_at (S : list span) (c : Z) (S' : list span) : Prop :=
  exists A b n f B h t, S = A ++ (b, n, f) :: B /\ S' = A ++ (b, h, f) :: (c, t, f) :: B /\ 1 <= h /\ 1 <= t /\ h + t = n /\ b + h * 4096 = c.

(** What splitting the region [r] at the page of [addr] gives: NULL when that page
    is not strictly inside, or without memory for a node; otherwise [r] keeps the
    pages in front and the new node [x] has the rest. *)
Definition split_result (conf : vm_conf) (s : vma_state) (T : list Z) (r addr x : Z) (s' : vma_state) : Prop :=
  same_low s s' /\ exists T', vma_ok conf s' T' /\ same_cover (spans s T) (spans s' T') /\
    ((x = 0 /\ T' = T /\ spans s' T' = spans s T /\
      (same_supply s s' /\ (4096 * (addr / 4096) <= sp_start (span_of (regions s) r) \/ sp_end (span_of (regions s) r) <= 4096 * (addr / 4096)) \/ drawn s false s')) \/
     (drawn s true s' /\ split_at (spans s T) (4096 * (addr / 4096)) (spans s' T') /\ x ∈ T' /\ r ∈ T' /\
      sp_start (span_of (regions s') x) = 4096 * (addr / 4096) /\ sp_end (span_of (regions s') x) = sp_end (span_of (regions s) r) /\
      sp_start (span_of (regions s') r) = sp_start (span_of (regions s) r) /\ sp_end (span_of (regions s') r) = 4096 * (addr / 4096))).

Lemma SplitRegion_ok conf s T r addr : vma_ok conf s T -> r ∈ T -> 0 <= addr -> wp (SplitRegion conf s r addr) (fun '(x, s') => split_result conf s T r addr x s').
Proof.
  intros Hok Hr Haddr. destruct (ok_explicit _ _ _ Hok) as (L & HokL). pose proof HokL as [[F Hinv] Hsp]. unfold SplitRegion, split_result.
  destruct (tree_region _ _ _ _ _ _ Hinv r Hr) as (Hr0 & R & HR & ER). pose proof (tree_in_ring _ _ _ _ _ _ Hinv r Hr) as HrL.
  assert (Hh : r <> vma_head s) by (intros ->; pose proof (ring_nodup _ _ _ _ _ _ Hinv) as N; apply NoDup_cons in N as [N _]; contradiction).
  rewrite (proj2 (Z.eqb_neq _ _) Hr0), (proj2 (Z.eqb_neq _ _) Hh). cbn [orb]. rewrite (rd_tree_start _ _ _ _ _ _ Hinv r Hr), (rd_tree_end _ _ _ _ _ _ Hinv Hsp r Hr). cbn [bind].
  change PAGE_SIZE with 4096. rewrite (Z.mul_comm _ 4096). set (k := addr / 4096). pose proof (tree_span_ok _ _ Hsp r Hr) as Hspan.
  destruct (_ || _) eqn:Eg.
  { cbn [wp]. split; [split; reflexivity|]. exists T. split; [exact Hok|]. split; [apply same_cover_refl|]. left. repeat (split; [reflexivity|]). left. split; [now split|].
    apply orb_true_iff in Eg as [Eg|Eg]; to_prop; auto. }
  apply orb_false_iff in Eg as [Eg1 Eg2]. to_prop. rewrite (rd_tree_flags _ _ _ _ _ _ Hinv r Hr). cbn [bind]. rewrite ER in *. set (a := v_start R) in *. set (n := v_count R) in *. set (f := v_flags R) in *.
  change (sp_start (a, n, f)) with a in *. change (sp_flags (a, n, f)) with f in *. change (sp_end (a, n, f)) with (a + n * 4096) in *.
  destruct (split_tail a n f k Hspan ltac:(lia)) as (K1 & K2 & K3 & K4 & K5). set (hp := (4096 * k - a) / 4096) in *. set (tp := (a + n * 4096 - 4096 * k) / 4096) in *.
  apply wp_bind. eapply wp_mono; [apply (InsertRegion_ok conf s T L F r (4096 * k) tp f Hinv)|]; [set_solver|].
  intros [x s1] (Hdr & F1 & [(-> & Hinv1 & Hk)|(Hx & L1 & L2 & EL & _ & Hinv1 & HxL & [E1 E2 E3 E4 E5])]).
  - simpl. assert (Es : spans s1 T = spans s T) by (apply spans_ext; intros y Hy; apply (kept_span s s1 L T y Hk); [|exact Hy]; intros z; apply (tree_in_ring _ _ _ _ _ _ Hinv)).
    split; [split; [apply Hk|unfold start_at; rewrite (k_reg _ _ _ Hk) by set_solver; reflexivity]|]. exists T. split; [split; [eauto|now rewrite Es]|]. rewrite Es. split; [apply same_cover_refl|]. left. repeat (split; [reflexivity|]). right. exact Hdr.
  - rewrite (proj2 (Z.eqb_neq _ _) Hx). destruct (tree_region _ _ _ _ _ _ Hinv1 r Hr) as (_ & R1 & HR1 & ER1). rewrite (wr_ok _ _ _ _ HR1). cbn [bind].
    set (s2 := with_regions s1 _). pose proof (count_inv conf s1 T [x] (L1 ++ x :: L2) F1 r hp R1 Hinv1 HR1) as Hinv2. fold s2 in Hinv2.
    assert (HxT : x ∉ T) by (intros H; apply HxL; now apply (tree_in_ring _ _ _ _ _ _ Hinv)).
    assert (Hs2 : forall y, span_of (regions s2) y = if decide (y = r) then (a, hp, f) else span_of (regions s1) y).
    { intros y. unfold s2. simpl. rewrite (count_span _ r hp R1 y HR1), (E2 r Hr), ER. reflexivity. }
    assert (Hxr : x <> r) by (intros ->; contradiction). assert (Ex2 : span_of (regions s2) x = (4096 * k, tp, f)) by (now rewrite Hs2, decide_False, E1).
    apply wp_bind. eapply wp_mono; [apply (enter_tree_ok _ _ _ _ _ _ Hinv2)|]. intros s3 (Q1 & Q2 & EQ & Hinv3 & [P1 P2 P3] & _ & Hpre & Hpost). cbn [wp].
    assert (Hh2 : start_at (regions s3) (vma_head s) = start_at (regions s) (vma_head s)) by (rewrite start_span, P1, Hs2, decide_False by auto; rewrite <- start_span; exact E3).
    split; [split; [rewrite P2; exact E4|exact Hh2]|]. exists (Q1 ++ x :: Q2).
    pose proof Hr as HrS. apply list_elem_of_split in HrS as (T1 & T2 & ET). pose proof (nodup_tree _ _ _ _ _ _ Hinv) as Hnd.
    assert (Hne : forall y, y ∈ T1 ++ T2 -> y <> r) by (intros y Hy ->; rewrite ET, <- Permutation_middle in Hnd; apply NoDup_cons in Hnd as [Hnd _]; contradiction).
    assert (Eold : forall Q, (forall y, y ∈ Q -> y ∈ T1 ++ T2) -> spans s2 Q = spans s Q).
    { intros Q HQ. apply spans_ext. intros y Hy. rewrite Hs2, decide_False by (apply Hne; auto). apply E2. rewrite ET. specialize (HQ y Hy). set_solver. }
    assert (ES : spans s T = spans s T1 ++ (a, n, f) :: spans s T2) by (rewrite ET; unfold spans; rewrite fmap_app, fmap_cons, ER; reflexivity).
    assert (ES2 : spans s T1 ++ (a, hp, f) :: spans s T2 = spans s2 Q1 ++ spans s2 Q2).
    { rewrite <- (Eold T1), <- (Eold T2) by set_solver. unfold spans. rewrite <- fmap_app, <- EQ, ET, fmap_app, fmap_cons, Hs2, decide_True; reflexivity. }
    assert (ES3 : spans s3 (Q1 ++ x :: Q2) = spans s2 Q1 ++ (4096 * k, tp, f) :: spans s2 Q2).
    { unfold spans. rewrite fmap_app, fmap_cons, P1, Ex2. f_equal; [|f_equal]; apply list_fmap_ext; intros; now rewrite P1. }
    assert (Hpz : span_ok (4096 * k, tp, f)). { destruct Hspan as (A1 & A2 & A3 & A4). unfold span_ok, sp_end, sp_start, sp_pages in *. simpl in *. rewrite K5. split; [lia|]. split; [rewrite Z.mul_comm; apply Z_mod_mult|]. auto. }
    assert (Hq1 : Forall (fun w => sp_start w <= 4096 * k) (spans s2 Q1)) by (apply Forall_fmap; eapply Forall_impl; [exact Hpre|]; intros y Hy; rewrite !start_span, Ex2 in Hy; exact Hy).
    assert (Hq2 : Forall (fun w => 4096 * k < sp_start w) (spans s2 Q2)) by (apply Forall_fmap; eapply Forall_impl; [exact Hpost|]; intros y Hy; rewrite !start_span, Ex2 in Hy; exact Hy).
    assert (Hsplit : split_at (spans s T) (4096 * k) (spans s3 (Q1 ++ x :: Q2))).
    { destruct (cut_unique (fun w => sp_start w <= 4096 * k) (spans s T1) (spans s T2) (spans s2 Q1) (spans s2 Q2) (a, hp, f) ES2) as [C1 C2]; [change (sp_start (a, hp, f)) with a; lia| |exact Hq1| |].
      - rewrite ES in Hsp. apply spaced_app in Hsp as (_ & Hsp & _). apply spaced_cons in Hsp as (_ & _ & Hsp). apply Forall_forall. intros w Hw. specialize (Hsp w Hw). change (sp_end (a, n, f)) with (a + n * 4096) in Hsp. lia.
      - eapply Forall_impl; [exact Hq2|]. intros w Hw. cbv beta in Hw. lia.
      - exists (spans s T1), a, n, f, (spans s T2), hp, tp. split; [exact ES|]. split; [rewrite ES3, C1, C2, <- app_assoc; reflexivity|]. lia. }
    rewrite ES3, ES in *. split; [split; [eauto|rewrite ES3]|].
    { eapply (split_spaced (spans s T1) (a, n, f) (spans s T2) (a, hp, f)); [exact Hsp|exact ES2|exact Hpz|reflexivity| | | | |].
      - unfold sp_pages. simpl. lia.
      - exact K4.
      - exact K5.
      - exact Hq1.
      - exact Hq2. }
    split; [apply (split_cover _ _ _ (a, hp, f)); auto; unfold sp_end, sp_start, sp_pages; simpl; lia|]. right. rewrite nonnull_true in Hdr by exact Hx.
    split; [exact (drawn_then _ _ _ _ Hdr (same_supply_trans _ _ _ (count_supply s1 r hp R1 HR1) P3))|]. split; [exact Hsplit|].
    split; [set_solver|]. split; [rewrite EQ in Hr; set_solver|]. rewrite !P1, Ex2, Hs2, decide_True by reflexivity. auto.
Qed.

(** * The sentinel *)

Lemma head_write_inv conf s T X L F v R : vma_inv conf s T X L F -> regions s !! vma_head s = Some R ->
  vma_inv conf (with_regions s (<[vma_head s := set_start v R]> (regions s))) T X L F /\
  forall x, x ∈ T -> span_of (<[vma_head s := set_start v R]> (regions s)) x = span_of (regions s) x.
Proof.
  intros Hinv HR. pose proof (ring_nodup _ _ _ _ _ _ Hinv) as N. apply NoDup_cons in N as [N _]. destruct Hinv as [[G1 G2 G3 G4 G5 G6 G7 G8 G9 G10 G11 G12] Gw]. set (m := <[vma_head s := set_start v R]> (regions s)).
  assert (HT : forall x, x ∈ T -> x <> vma_head s) by (intros x Hx ->; apply N; rewrite G3; set_solver).
  assert (Hf : forall x, nx m x = nx (regions s) x /\ pv m x = pv (regions s) x /\ (is_Some (m !! x) <-> is_Some (regions s !! x))).
  { intros x. unfold nx, pv, m. destruct (decide (vma_head s = x)) as [<-|Hx]; [rewrite lookup_insert_eq, HR; simpl; split; [auto|]; split; [auto|split; eauto]|].
    now rewrite lookup_insert_ne. }
  assert (Hs : forall x, x ∈ T -> m !! x = regions s !! x) by (intros x Hx; unfold m; rewrite lookup_insert_ne; [reflexivity|]; intros E; now apply (HT x Hx)).
  split; [|intros x Hx; unfold span_of; now rewrite Hs]. split; [|intros x Hx; apply Gw, Hf, Hx]. split; simpl; auto.
  - apply (rb_ok_agree (vma_rb_cmp (regions s)) _ _ (rb_nodes s)); auto. intros x y Hx Hy. rewrite !cmp_start. unfold start_at. now rewrite !Hs.
  - apply (dll_frame (regions s)); [..|exact G2]; intros x _; apply Hf.
  - apply (chain_frame (regions s)); [|exact G6]. intros x _. apply Hf.
  - intros x. rewrite <- G7. apply Hf.
  - intros x Hx. apply Hf. auto.
  - intros x q Hq Hx. unfold m in Hq. destruct (decide (vma_head s = x)) as [<-|Hne].
    + rewrite lookup_insert_eq in Hq. injection Hq as <-. simpl. now apply G9.
    + rewrite lookup_insert_ne in Hq by exact Hne. now apply G9.
  - intros x Hx. destruct (G12 x Hx) as [Hz Hn]. split; [exact Hz|]. apply eq_None_not_Some. destruct (Hf x) as (_ & _ & ->). rewrite Hn. apply is_Some_None.
Qed.

(** On a page map in use only the lower bound changes. *)
Lemma SetStart_again_ok conf s T v : vma_ok conf s T ->
  wp (SetStart conf s v) (fun s' => vma_ok conf s' T /\ spans s' T = spans s T /\ vma_head s' = vma_head s /\ start_at (regions s') (vma_head s) = v /\ same_supply s s').
Proof.
  intros Hok. pose proof (ok_head _ _ _ Hok) as Hh. destruct Hok as [(L & F & Hinv) Hsp]. unfold SetStart. rewrite (proj2 (Z.eqb_neq _ _) Hh). simpl negb. cbv iota.
  destruct (i_mem _ _ _ _ _ _ Hinv (vma_head s)) as [R HR]; [set_solver|]. rewrite (wr_ok _ _ _ _ HR). cbn [wp].
  destruct (head_write_inv _ _ _ _ _ _ v R Hinv HR) as [Hinv' Hs]. assert (Es : spans (with_regions s (<[vma_head s := set_start v R]> (regions s))) T = spans s T) by (now apply spans_ext).
  split; [split; [eauto|now rewrite Es]|]. split; [exact Es|]. split; [reflexivity|]. cbn [with_regions regions]. split; [unfold start_at; now rewrite lookup_insert_eq|].
  split; [|reflexivity]. cbn [with_regions regions]. apply map_size_insert_Some. eauto.
Qed.

(** A page map that was never used, with the pages [PMM::Request] will return. *)
Definition vma_new (pages : list Z) (ent : list (Z * Z)) : vma_state := Vma ∅ ∅ rb_root_init 0 0 0 0x9E3779B97F4A7C15 pages ent.

Lemma rb_ok_empty cmp h : rb_ok cmp rb_root_init h [].
Proof.
  exists RBRep.E. split; [split; [exact I|split; [reflexivity|constructor]]|]. split; [exists O; apply rbt_E|]. split; [reflexivity|]. split; [apply SSorted_nil|].
  split; [reflexivity|]. split; [now left|]. repeat split; reflexivity.
Qed.

(** The first call makes an empty page map, or leaves none when there is no
    memory. *)
Lemma SetStart_first_ok conf pages ent v : NoDup (pool conf pages) -> 0 ∉ pool conf pages ->
  wp (SetStart conf (vma_new pages ent) v) (fun s' => (vma_head s' = 0 /\ hd 0 pages = 0) \/
    (vma_ok conf s' [] /\ start_at (regions s') (vma_head s') = v /\ hd 0 pages <> 0 /\ pmm_pages s' = tail pages /\ size (regions s') = Z.to_nat nodes_per_page)).
Proof.
  intros Hnd Hz. unfold SetStart, vma_alloc_node. cbn [vma_head vma_new Z.eqb negb g_node_free_list]. unfold request_page. cbn [pmm_pages vma_new].
  destruct pages as [|pg rest]; [now left|]. destruct (pg =? 0) eqn:E0; [left; to_prop; now split|]. cbn [bind]. rewrite E0. to_prop.
  assert (Epool : pool conf (pg :: rest) = page_nodes (u64 (pg + hhdm_offset conf)) (Z.to_nat nodes_per_page) ++ pool conf rest) by (unfold pool, pool_nodes; simpl; now rewrite (proj2 (Z.eqb_neq _ _) E0)).
  rewrite Epool in Hnd, Hz. apply NoDup_app in Hnd as (N1 & N2 & N3). cbv zeta. set (base := u64 (pg + hhdm_offset conf)) in *. clearbody base.
  change (1 <? nodes_per_page) with true. cbv iota. change nodes_per_page with 39 in *. set (ns := page_nodes base (Z.to_nat 39)) in *.
  unfold with_tree, with_regions. cbn [vma_new with_cursor with_head regions rb_nodes vma_tree vma_head vma_cursor g_node_free_list aslr_sv pmm_pages entropy fst snd].
  pose proof (nodes_lookup ns (Region 0 0 0 0 0 false) ∅) as HR. pose proof (nodes_lookup ns (RbNode 0 0 0 0 0 0 0) ∅) as HN.
  set (mr := list_to_map _ ∪ ∅) in *. set (mn := list_to_map ((fun a => (a, RbNode 0 0 0 0 0 0 0)) <$> ns) ∪ ∅) in *. clearbody mr mn.
  set (s1 := Vma mr mn rb_root_init 0 0 0 0x9E3779B97F4A7C15 rest ent).
  assert (Hnode : forall i, 0 <= i < 39 -> base + i * sizeof_region ∈ ns) by (intros i Hi; apply page_nodes_elem; exists i; lia).
  pose proof (link_page_ok base 39 s1 ltac:(intros i Hi; simpl; rewrite HR, decide_True by auto; eauto) ltac:(lia)) as Hl. apply wp_ex in Hl as (s2 & El & m & -> & Hd & Ho & Hc).
  destruct (for_up _ _ _ _) as [s3| |]; [|discriminate El..]. cbn [bind] in El |- *. rewrite El. cbn [bind].
  assert (Hb : base ∈ ns) by (replace base with (base + 0 * sizeof_region) by lia; apply Hnode; lia). assert (Hb0 : base <> 0) by (intros E; apply Hz, elem_of_app; left; rewrite <- E; exact Hb).
  rewrite (proj2 (Z.eqb_neq _ _) Hb0). destruct (proj2 (Hd base)) as [R HRb]; [simpl; rewrite HR, decide_True by exact Hb; eauto|].
  erewrite wr_ok by (simpl; exact HRb). cbn [bind wp]. right. simpl.
  assert (Ens : ns = base :: page_nodes (base + sizeof_region) 38) by apply page_nodes_cons. remember (page_nodes (base + sizeof_region) 38) as F eqn:EF.
  assert (HF : forall x, x ∈ F -> exists i, 1 <= i < 39 /\ x = base + i * sizeof_region) by (intros x Hx; rewrite EF in Hx; apply page_nodes_elem in Hx as (i & Hi & ->); exists (i + 1); lia).
  assert (HbF : base ∉ F) by (rewrite Ens in N1; now apply NoDup_cons in N1). split; [|split; [unfold start_at; now rewrite lookup_insert_eq|split; [exact E0|split; [reflexivity|]]]].
  2:{ rewrite map_size_insert_Some by eauto. transitivity (length ns); [|unfold ns, page_nodes; now rewrite length_fmap, length_seq].
      rewrite <- size_dom. rewrite <- (size_list_to_set (C := gset Z) ns N1). f_equal. apply set_eq. intros x. rewrite elem_of_dom, elem_of_list_to_set, Hd. simpl. rewrite HR.
      destruct (decide (x ∈ ns)); [split; eauto|]. rewrite lookup_empty. split; [intros [? ?]; discriminate|contradiction]. }
  set (m2 := <[base := Region v 0 0 base base false]> m).
  assert (Hdom : forall x, is_Some (m2 !! x) <-> x ∈ ns).
  { intros x. unfold m2. destruct (decide (base = x)) as [<-|Hx]; [rewrite lookup_insert_eq; split; eauto|]. rewrite lookup_insert_ne, Hd by exact Hx. simpl. rewrite HR.
    destruct (decide (x ∈ ns)); [split; eauto|]. rewrite lookup_empty. split; [intros [? ?]; discriminate|contradiction]. }
  split; [|split; constructor]. exists [], F. split; [|intros x Hx; apply Hdom in Hx; now rewrite Ens in Hx]. split; simpl; auto.
  - apply rb_ok_empty.
  - unfold m2. rewrite nx_insert_eq, pv_insert_eq. auto.
  - rewrite <- Ens. exact N1.
  - rewrite <- Ens. intros H. apply Hz, elem_of_app. now left.
  - replace (base + 1 * sizeof_region) with (base + sizeof_region) by lia. rewrite EF. apply chain_page; [|lia]. intros i Hi.
    replace (base + sizeof_region + i * sizeof_region) with (base + (i + 1) * sizeof_region) by lia. unfold m2. rewrite nx_insert_ne by (unfold sizeof_region; lia). rewrite Hc by lia.
    destruct (Z.eqb_spec (i + 1) (39 - 1)), (Z.eqb_spec i (Z.of_nat 38 - 1)); lia.
  - intros x. rewrite Hdom, HN. destruct (decide (x ∈ ns)); [split; eauto|]. rewrite lookup_empty. split; [contradiction|intros [? ?]; discriminate].
  - intros x Hx. apply Hdom. now rewrite Ens.
  - intros x q Hq Hx. apply list_elem_of_singleton in Hx as ->. unfold m2 in Hq. rewrite lookup_insert_eq in Hq. injection Hq as <-. reflexivity.
  - set_solver.
  - intros x Hx. split; [intros ->; apply Hz, elem_of_app; now right|]. apply eq_None_not_Some. rewrite Hdom. intros Hns. now apply (N2 x).
Qed.
