(* ===== verification/VMAAlloc.v ===== *)
(** The next-fit allocation of address ranges, [InternalAlloc]: what the scan of
    the ring of gaps finds, where a random slide may end, and that the range
    handed out is free. *)
From stdpp Require Import base gmap list fin_maps sets.
From Stdlib Require Import ZArith Lia Sorting.Sorted.
From S2P Require Import Prelude RBTree RBRep RBInsert RBSearch RBErase PMM VMA VMAInv VMAOps VMATree VMASpec VMARegion VMAEdit.

Open Scope Z_scope.
Open Scope c_scope.

(** * The scan *)

Section Scan.
Context (conf : vm_conf) (s : vma_state) (T L F : list Z).
Context (Hinv : vma_inv conf s T [] L F) (Hsp : spaced (spans s T)).
Context (lo hi need : Z) (is_user : bool).
Context (Hlo : 0 <= lo) (Hhi : lo < hi) (Hneed : 0 < need) (Hfit : need <= hi - lo).

Let beg (x : Z) : Z := sp_start (span_of (regions s) x).
Let fin (x : Z) : Z := sp_end (span_of (regions s) x).

(** The gap between [x] and the regions [Q] behind it. *)
Definition gap_lo (x : Z) : Z := Z.max (fin x) lo.
Definition gap_hi (Q : list Z) : Z :=
  let h := match Q with [] => hi | y :: _ => beg y end in if is_user then Z.min h USER_CEIL else h.
Definition fits_behind (x : Z) (Q : list Z) : bool := (gap_lo x <? gap_hi Q) && (need <=? gap_hi Q - gap_lo x).
Definition fits_front : bool := (lo <? beg (hd 0 T)) && (need <=? beg (hd 0 T) - lo).

Lemma first_ok : rb_first (rb_nodes s) (r_node (vma_tree s)) = Ok (hd 0 T).
Proof. destruct (i_tree _ _ _ _ _ _ Hinv) as (t & Hr & _ & <- & _). pose proof (proj1 (proj2 Hr)) as E. rewrite <- E. exact (rb_first_ok _ _ [] t Hr). Qed.

Lemma next_ok P x Q : T = P ++ x :: Q -> rb_next (rb_nodes s) x = Ok (hd 0 Q).
Proof. intros E. destruct (i_tree _ _ _ _ _ _ Hinv) as (t & Hr & _ & Ht & _). apply (rb_next_ok _ _ _ P x Q Hr). now rewrite Ht. Qed.

Lemma node_nonnull x : x ∈ T -> nonnull x = true.
Proof. intros Hx. apply nonnull_true. exact (proj1 (tree_region _ _ _ _ _ _ Hinv x Hx)). Qed.

(** What a round does at [x]. *)
Lemma round_at start_node P x Q first : T = P ++ x :: Q -> first = true \/ x <> start_node ->
  fit_round s lo hi need is_user start_node (x, first) =
  if fits_behind x Q then Ok (inr (Some (x, gap_lo x, gap_hi Q)))
  else match Q with
       | y :: _ => Ok (inl (y, false))
       | [] => if fits_front then Ok (inr (Some (0, lo, beg (hd 0 T)))) else Ok (inl (hd 0 T, false))
       end.
Proof.
  intros E Hgo. assert (Hx : x ∈ T) by (rewrite E; apply elem_of_app; right; constructor). unfold fit_round.
  rewrite (node_nonnull x Hx). replace (first || negb (x =? start_node)) with true by (destruct Hgo as [->|Hne]; [reflexivity|]; apply Z.eqb_neq in Hne; rewrite Hne; now destruct first).
  cbn [andb]. rewrite (next_ok P x Q E), (rd_tree_end _ _ _ _ _ _ Hinv Hsp x Hx). cbn [bind]. fold (fin x).
  replace (if fin x <? lo then lo else fin x) with (gap_lo x) by (unfold gap_lo; destruct (Z.ltb_spec (fin x) lo); lia).
  assert (Eh : (let* g := if nonnull (hd 0 Q) then rd v_start s (hd 0 Q) else Ok hi in Ok (if is_user && (USER_CEIL <? g) then USER_CEIL else g)) = Ok (gap_hi Q)).
  { assert (Hcap : forall h, (if is_user && (USER_CEIL <? h) then USER_CEIL else h) = if is_user then Z.min h USER_CEIL else h) by (intros h; destruct is_user; simpl; auto; destruct (Z.ltb_spec USER_CEIL h); lia).
    unfold gap_hi. destruct Q as [|y Q]; [cbn [hd nonnull Z.eqb negb bind]; now rewrite Hcap|].
    assert (Hy : y ∈ T) by (rewrite E; apply elem_of_app; right; constructor; constructor). cbn [hd]. rewrite (node_nonnull y Hy), (rd_tree_start _ _ _ _ _ _ Hinv y Hy). cbn [bind]. now rewrite Hcap. }
  destruct (if nonnull (hd 0 Q) then rd v_start s (hd 0 Q) else Ok hi) as [g| |]; [|discriminate Eh..]. cbn [bind] in Eh |- *. injection Eh as ->. fold (fits_behind x Q).
  destruct (fits_behind x Q); [reflexivity|]. destruct Q as [|y Q]; [|cbn [hd]; rewrite node_nonnull; [reflexivity|rewrite E; apply elem_of_app; right; constructor; constructor]].
  cbn [hd nonnull Z.eqb negb]. rewrite first_ok. cbn [bind]. assert (Hz : hd 0 T ∈ T) by (rewrite E; destruct P; constructor).
  rewrite (node_nonnull _ Hz), (rd_tree_start _ _ _ _ _ _ Hinv _ Hz). reflexivity.
Qed.

(** A gap the scan returns. *)
Definition gap_ok (after addr ghi : Z) : Prop :=
  (after = 0 \/ after ∈ T) /\ (addr = lo \/ exists x, x ∈ T /\ addr = fin x) /\ lo <= addr /\ 0 < ghi /\
  Forall (apart_from addr (Z.max (addr + need) ghi)) (spans s T) /\
  (addr + need <= hi \/ exists x, x ∈ T /\ addr + need <= beg x) /\
  (is_user = true -> hi <= USER_CEIL -> addr + need <= USER_CEIL).

Definition no_fit (x : Z) : Prop := forall P Q, T = P ++ x :: Q -> fits_behind x Q = false.

(** No gap holds the range. *)
Definition no_room : Prop := forall a, lo <= a -> a + need <= (if is_user then Z.min hi USER_CEIL else hi) -> ~ Forall (apart_from a (a + need)) (spans s T).

Lemma behind_gap P x Q : T = P ++ x :: Q -> fits_behind x Q = true -> gap_ok x (gap_lo x) (gap_hi Q).
Proof.
  intros E Hf. unfold fits_behind in Hf. apply andb_true_iff in Hf as [H1 H2]. to_prop. assert (Hx : x ∈ T) by (rewrite E; apply elem_of_app; right; constructor).
  assert (Hc : gap_hi Q <= match Q with [] => hi | y :: _ => beg y end) by (unfold gap_hi; destruct is_user; lia).
  assert (Hu : is_user = true -> gap_hi Q <= USER_CEIL) by (unfold gap_hi; intros ->; lia).
  split; [now right|]. split; [destruct (Z.max_spec (fin x) lo) as [[_ M]|[_ M]]; unfold gap_lo; rewrite M; [now left|right; eauto]|].
  split; [unfold gap_lo in *; lia|]. split; [unfold gap_lo in *; lia|]. split; [|split; [|intros Hus _; specialize (Hu Hus); lia]].
  - apply Forall_fmap, Forall_forall. intros y Hy. rewrite E in Hy. unfold apart_from, compose. apply elem_of_app in Hy as [Hy|Hy].
    + right. pose proof (cut_spaced _ _ _ _ _ _ Hinv Hsp P (x :: Q) y x E Hy ltac:(constructor)). pose proof (span_pos _ (tree_span_ok _ _ Hsp x Hx)). fold (beg x) (fin x) in *. unfold gap_lo. lia.
    + apply elem_of_cons in Hy as [->|Hy]; [right; fold (fin x); unfold gap_lo; lia|]. left. destruct Q as [|z Q]; [now apply not_elem_of_nil in Hy|].
      assert (Hz : beg z <= sp_start (span_of (regions s) y)); [|lia]. apply elem_of_cons in Hy as [->|Hy]; [reflexivity|].
      pose proof (behind_first _ _ _ _ _ _ Hinv Hsp (P ++ [x]) z Q y ltac:(rewrite E, <- app_assoc; reflexivity) Hy).
      pose proof (span_pos _ (tree_span_ok _ _ Hsp z ltac:(rewrite E; apply elem_of_app; right; constructor; constructor))). fold (beg z) in *. lia.
  - destruct Q as [|z Q]; [left; lia|]. right. exists z. split; [rewrite E; apply elem_of_app; right; constructor; constructor|lia].
Qed.

Lemma front_gap : T <> [] -> fits_front = true -> gap_ok 0 lo (beg (hd 0 T)).
Proof.
  unfold fits_front. intros HT Hf. apply andb_true_iff in Hf as [H1 H2]. to_prop. assert (exists x T', T = x :: T') as (x & T' & ET) by (clear - HT; destruct T; [easy|eauto]).
  assert (Ehd : hd 0 T = x) by now rewrite ET. rewrite Ehd in *.
  assert (Hx : x ∈ T) by (rewrite ET; constructor). split; [now left|]. split; [now left|]. split; [lia|]. split; [lia|]. split; [|split; [left; lia|lia]].
  apply Forall_fmap, Forall_forall. intros y Hy. left. rewrite ET in Hy. assert (Hz : beg x <= sp_start (span_of (regions s) y)); [|lia].
  apply elem_of_cons in Hy as [->|Hy]; [reflexivity|]. pose proof (behind_first _ _ _ _ _ _ Hinv Hsp [] x T' y ET Hy). pose proof (span_pos _ (tree_span_ok _ _ Hsp x Hx)). fold (beg x) in *. lia.
Qed.

(** Any free place lies behind a region or in front of all of them. *)
Lemma scan_no_room : T <> [] -> Forall no_fit T -> fits_front = false -> no_room.
Proof.
  intros HT Hn Hf a Ha Hb Hfree. destruct (find_ok conf s T [] L F a Hinv) as (pre & post & E & H1 & H2 & _ & _).
  assert (Hae : a < a + need) by lia. pose proof (proj1 (free_by_neighbours _ _ _ _ _ _ Hinv Hsp pre post a _ E H1 H2 Hae) Hfree) as [Hp Hq].
  assert (Hbe : a + need <= hi /\ (is_user = true -> a + need <= USER_CEIL)) by (destruct is_user; [split; lia|split; [exact Hb|discriminate]]).
  destruct (decide (pre = [])) as [->|Hne].
  - simpl in E. subst post. unfold fits_front in Hf. destruct Hq as [?|Hq]; [contradiction|]. fold (beg (hd 0 T)) in Hq.
    apply andb_false_iff in Hf as [Hf|Hf]; to_prop; lia.
  - destruct (last_in pre Hne) as (pre' & x & -> & El). rewrite El in Hp. destruct Hp as [?|Hp]; [contradiction|]. fold (fin x) in Hp. rewrite <- app_assoc in E. simpl in E.
    assert (Hx : x ∈ T) by (rewrite E; apply elem_of_app; right; constructor). rewrite Forall_forall in Hn. pose proof (Hn x Hx _ _ E) as Hg. unfold fits_behind in Hg.
    assert (Hhi2 : a + need <= gap_hi post).
    { unfold gap_hi. destruct post as [|y post]; [destruct is_user; lia|]. destruct Hq as [?|Hq]; [easy|]. cbn [hd] in Hq. fold (beg y) in Hq. destruct is_user; lia. }
    unfold gap_lo in Hg. apply andb_false_iff in Hg as [Hg|Hg]; to_prop; lia.
Qed.

(** The scan from [start_node] over the regions behind it, then from the first
    region on: [first] with no region visited, then [P] in front of [cur]. *)
Definition scan_at (A : list Z) (st : Z) (B : list Z) (g : bool * list Z * list Z) (x : Z * bool) : Prop :=
  let '(again, P, Q) := g in
  T = P ++ x.1 :: Q /\
  if (again : bool) then Forall no_fit (st :: B) /\ fits_front = false /\ Forall no_fit P /\ (length P <= length A)%nat /\ x.2 = false
  else exists M, P = A ++ M /\ Forall no_fit M /\ x.2 = bool_decide (M = []).

Definition scan_rank (A : list Z) (g : bool * list Z * list Z) : nat :=
  let '(again, P, Q) := g in if (again : bool) then (length A - length P)%nat else (S (length Q) + length A)%nat.

Lemma split_same (A P B Q : list Z) x : NoDup (A ++ x :: B) -> A ++ x :: B = P ++ x :: Q -> A = P /\ B = Q.
Proof.
  revert P. induction A as [|a A IH]; intros [|p P] Hnd E; simpl in *.
  - injection E as ->. auto.
  - injection E as <- E. exfalso. apply NoDup_cons in Hnd as [Hnd _]. apply Hnd. rewrite E. apply elem_of_app. right. constructor.
  - injection E as -> <-. exfalso. apply NoDup_cons in Hnd as [Hnd _]. apply Hnd. apply elem_of_app. right. constructor.
  - injection E as -> E. apply NoDup_cons in Hnd as [_ Hnd]. destruct (IH P Hnd E) as [-> ->]. auto.
Qed.

Lemma tree_split P x Q P' Q' : T = P ++ x :: Q -> T = P' ++ x :: Q' -> P = P' /\ Q = Q'.
Proof. intros E E'. apply (split_same P P' Q Q' x); [rewrite <- E; exact (nodup_tree _ _ _ _ _ _ Hinv)|congruence]. Qed.

Lemma no_fit_at P x Q : T = P ++ x :: Q -> fits_behind x Q = false -> no_fit x.
Proof. intros E Hf P' Q' E'. destruct (tree_split _ _ _ _ _ E E') as [_ <-]. exact Hf. Qed.

Definition scan_post (r : option gap) : Prop :=
  match r with Some (after, addr, ghi) => gap_ok after addr ghi | None => no_room end.

Lemma scan_round A st B g x : T = A ++ st :: B -> scan_at A st B g x ->
  wp (fit_round s lo hi need is_user st x) (fun r => match r with
    | inl y => exists g', scan_at A st B g' y /\ (scan_rank A g' < scan_rank A g)%nat
    | inr a => scan_post a
    end).
Proof.
  intros ET. destruct g as [[again P] Q], x as [cur first]. cbn [scan_at fst snd]. intros [E Hs]. assert (HTn : T <> []) by (rewrite E; now destruct P).
  destruct (decide (again = true /\ cur = st)) as [[-> ->]|Hgo].
  { destruct Hs as (H1 & H2 & H3 & _ & ->). assert (Hin : st ∈ T) by (rewrite E; apply elem_of_app; right; constructor).
    unfold fit_round. rewrite (node_nonnull st Hin), Z.eqb_refl. cbn [andb orb negb wp]. apply scan_no_room; auto.
    destruct (tree_split _ _ _ _ _ E ET) as [-> ->]. rewrite ET. now apply Forall_app. }
  assert (Hrun : first = true \/ cur <> st).
  { destruct again; [right; intros ->; now apply Hgo|]. destruct Hs as (M & -> & _ & ->). destruct M as [|z M]; [now left|right]. intros ->.
    destruct (tree_split _ _ _ _ _ E ET) as [EA _]. apply (f_equal length) in EA. rewrite length_app in EA. simpl in EA. lia. }
  rewrite (round_at st P cur Q first E Hrun). destruct (fits_behind cur Q) eqn:Ef; [now apply (behind_gap P)|]. pose proof (no_fit_at _ _ _ E Ef) as Hnf.
  destruct Q as [|y Q].
  - destruct (fits_front) eqn:Eff; [now apply front_gap|]. cbn [wp].
    assert (exists x T', T = x :: T') as (x & T' & Eh) by (clear - HTn; destruct T; [easy|eauto]).
    destruct again.
    + exfalso. destruct Hs as (_ & _ & _ & Hl & _). assert (Hcur : length P = length A).
      { apply (f_equal length) in E. rewrite ET, !length_app in E. simpl in E. lia. }
      apply Hgo. split; [reflexivity|]. rewrite ET in E. apply app_inj_1 in E as [_ E]; [now injection E|auto].
    + destruct Hs as (M & -> & HM & _). exists (true, [], T'). simpl. rewrite Eh at 2. simpl. split; [|lia]. split; [exact Eh|].
      split; [|split; [exact Eff|split; [constructor|split; [lia|reflexivity]]]]. rewrite ET, <- app_assoc in E. apply app_inj_1 in E as [_ E]; [|reflexivity]. rewrite E. apply Forall_app. auto.
  - cbn [wp]. exists (again, P ++ [cur], Q). simpl. rewrite <- app_assoc. split; [split; [exact E|]|].
    + destruct again.
      * destruct Hs as (H1 & H2 & H3 & H4 & _). split; [exact H1|]. split; [exact H2|]. split; [apply Forall_app; auto|]. split; [|reflexivity]. rewrite length_app. simpl.
        destruct (decide (length P = length A)) as [Hl|]; [exfalso|lia]. apply Hgo. split; [reflexivity|]. rewrite ET in E. apply app_inj_1 in E as [_ E]; [now injection E|auto].
      * destruct Hs as (M & -> & HM & _). exists (M ++ [cur]). rewrite app_assoc. split; [reflexivity|]. split; [apply Forall_app; auto|]. rewrite bool_decide_eq_false_2; [reflexivity|now destruct M].
    + destruct again; [|lia]. destruct Hs as (_ & _ & _ & H4 & _). rewrite length_app. simpl.
      destruct (decide (length P = length A)) as [Hl|]; [exfalso|lia]. apply Hgo. split; [reflexivity|]. rewrite ET in E. apply app_inj_1 in E as [_ E]; [now injection E|auto].
Qed.

Lemma next_fit_ok : wp (next_fit s lo hi need is_user) scan_post.
Proof.
  unfold next_fit. assert (Hst : exists st, (if nonnull (vma_cursor s) && negb (vma_cursor s =? vma_head s) then Ok (vma_cursor s) else rb_first (rb_nodes s) (r_node (vma_tree s))) = Ok st /\ ((st = 0 /\ T = []) \/ st ∈ T)).
  { rewrite first_ok. destruct (_ && _) eqn:Ec.
    - apply andb_true_iff in Ec as [_ Ec]. to_prop. exists (vma_cursor s). split; [reflexivity|]. right. pose proof (i_cursor _ _ _ _ _ _ Hinv) as Hc. apply elem_of_cons in Hc as [Hc|Hc]; [contradiction|exact Hc].
    - exists (hd 0 T). split; [reflexivity|]. clear. destruct T; [now left|right; constructor]. }
  destruct Hst as (st & -> & [[-> HT]|Hin]); cbn [bind].
  - cbn [Z.eqb wp scan_post]. split; [now left|]. split; [now left|]. rewrite HT. split; [lia|]. split; [destruct is_user; unfold USER_CEIL; lia|]. split; [constructor|]. split; [left|]; lia.
  - rewrite (proj2 (Z.eqb_neq _ _) (proj1 (tree_region _ _ _ _ _ _ Hinv st Hin))). pose proof Hin as Hs. apply list_elem_of_split in Hs as (A & B & ET).
    apply (wp_loop_on (scan_at A st B) (scan_rank A)) with (g := (false, A, B)).
    + intros g x Hx. now apply scan_round.
    + split; [exact ET|]. exists []. rewrite app_nil_r. auto.
    + assert (Hw : (length T < walk (rb_nodes s))%nat) by (destruct (i_tree _ _ _ _ _ _ Hinv) as (t & Hr & _ & <- & _); exact (subtree_walk _ _ [] t Hr)). rewrite ET, length_app in Hw. simpl in Hw |- *. lia.
Qed.
End Scan.

(** * Placing a range *)

(** The regions of [s'] are those of [s] and [x]. *)
Definition one_more (conf : vm_conf) (s : vma_state) (T : list Z) (x : span) (s' : vma_state) : Prop :=
  exists T1 r T2, T = T1 ++ T2 /\ vma_ok conf s' (T1 ++ r :: T2) /\ spans s' (T1 ++ r :: T2) = spans s T1 ++ x :: spans s T2.

Lemma place_ok conf s T L after a n f : ok_at conf s T L -> after ∈ vma_head s :: L -> span_ok (a, n, f) -> Forall (apart_from a (a + n * 4096)) (spans s T) ->
  wp (place_region conf s after a n f) (fun '(r, s') => same_low s s' /\
    ((r = 0 /\ vma_ok conf s' T /\ spans s' T = spans s T /\ drawn s false s') \/ (r = a /\ one_more conf s T (a, n, f) s' /\ drawn s true s'))).
Proof.
  intros Hok Haf Hspan Hfree. pose proof (insert_enter_ok conf s T L after a n f Hok Haf Hspan Hfree) as Hins. pose proof Hok as [[F Hinv] _].
  assert (Ha0 : after <> 0) by (intros ->; apply (i_nz _ _ _ _ _ _ Hinv); rewrite app_comm_cons; apply elem_of_app; now left).
  unfold place_region. destruct (InsertRegion conf s after a n f) as [[r s1]| |] eqn:Ei; try easy. cbn [bind] in *. destruct (r =? 0) eqn:E0; to_prop.
  - cbn [wp] in *. destruct Hins as (E1 & _ & E3 & Hdr & [(_ & Hok1 & Es)|(Hz & _)]); [|contradiction]. split; [now split|]. left. split; [reflexivity|]. split; [now apply ok_at_ok with L|].
    split; [exact Es|exact Hdr].
  - destruct (enter_tree s1 r) as [s2| |]; try easy. cbn [bind wp] in *. destruct Hins as (E1 & _ & E3 & Hdr & [(Hz & _)|(_ & L1 & L2 & T1 & T2 & -> & _ & -> & [[F2 Hinv2] Hsp2] & Es)]); [contradiction|].
    split; [now split|]. right. split; [reflexivity|]. split; [|rewrite nonnull_true in Hdr by exact E0; exact (drawn_then _ _ _ _ Hdr (conj eq_refl eq_refl))].
    exists T1, r, T2. split; [reflexivity|]. split; [|exact Es]. split; [|exact Hsp2].
    exists (L1 ++ r :: L2), F2. apply with_cursor_inv; [exact Hinv2|]. apply elem_of_cons. right. apply elem_of_app. right. constructor.
Qed.

(** * Where a range may go *)

Lemma hint_fits_ok conf s T L F lo hi need hint : vma_inv conf s T [] L F -> spaced (spans s T) -> 0 <= lo < hi -> hi < 2 ^ 64 -> 0 < need <= hi - lo ->
  wp (hint_fits s lo hi need hint) (fun r => match r with
    | Some p => (p = 0 \/ p ∈ T) /\ lo <= hint /\ hint + need <= hi /\ Forall (apart_from hint (hint + need)) (spans s T)
    | None => True
    end).
Proof.
  intros Hinv Hsp Hlo Hhi Hneed. unfold hint_fits, u64. rewrite Z.mod_small by lia. destruct ((lo <=? hint) && _) eqn:Eg; [|exact I]. apply andb_true_iff in Eg as [G1 G2]. to_prop.
  destruct (find_ok conf s T [] L F hint Hinv) as (pre & post & E & H1 & H2 & -> & ->). cbn [bind].
  pose proof (free_by_neighbours _ _ _ _ _ _ Hinv Hsp pre post hint (hint + need) E H1 H2 ltac:(lia)) as Hfree. rewrite Z.mod_small by lia.
  assert (Hp : exists e, (if nonnull (last0 pre) then rd region_end s (last0 pre) else Ok lo) = Ok e /\ (last0 pre = 0 \/ last0 pre ∈ T) /\ (e <= hint -> pre = [] \/ sp_end (span_of (regions s) (last0 pre)) <= hint)).
  { destruct (decide (pre = [])) as [->|Hp]; [exists lo; auto|]. destruct (last_in pre Hp) as (pre' & x & -> & ->).
    assert (Hx : x ∈ T) by (rewrite E; apply elem_of_app; left; apply elem_of_app; right; constructor). rewrite (nonnull_true x) by exact (proj1 (tree_region _ _ _ _ _ _ Hinv x Hx)).
    rewrite (rd_tree_end _ _ _ _ _ _ Hinv Hsp x Hx). eexists. split; [reflexivity|]. auto. }
  destruct Hp as (e & -> & Hpt & Hp). cbn [bind].
  assert (Hq : exists c, (if nonnull (hd 0 post) then rd v_start s (hd 0 post) else Ok hi) = Ok c /\ (hint + need <= c -> post = [] \/ hint + need <= sp_start (span_of (regions s) (hd 0 post)))).
  { destruct post as [|y post]; [exists hi; auto|]. cbn [hd]. assert (Hy : y ∈ T) by (rewrite E; apply elem_of_app; right; constructor).
    rewrite (nonnull_true y) by exact (proj1 (tree_region _ _ _ _ _ _ Hinv y Hy)). rewrite (rd_tree_start _ _ _ _ _ _ Hinv y Hy). eexists. split; [reflexivity|]. auto. }
  destruct Hq as (c & -> & Hq). cbn [bind]. destruct (_ && _) eqn:Ef; [|exact I]. apply andb_true_iff in Ef as [F1 F2]. to_prop. cbn [wp].
  split; [exact Hpt|]. split; [exact G1|]. split; [lia|]. apply Hfree. split; [apply Hp; destruct (Z.ltb_spec e lo); lia|apply Hq; exact F2].
Qed.

(** A slide stays inside the gap and on a page boundary. *)
Lemma slide_ok s is_user addr ghi need : 0 <= addr -> addr mod 4096 = 0 -> 0 < need -> 0 < ghi ->
  let '(a, s') := slide s is_user addr ghi need in
  (exists sv e, s' = with_entropy s sv e) /\ addr <= a /\ a mod 4096 = 0 /\ a + need <= Z.max (addr + need) ghi /\ (a = addr \/ a + need <= USER_CEIL).
Proof.
  intros Ha Hal Hn Hg. assert (Hstay : (exists sv e, s = with_entropy s sv e) /\ addr <= addr /\ addr mod 4096 = 0 /\ addr + need <= Z.max (addr + need) ghi /\ (addr = addr \/ addr + need <= USER_CEIL)).
  { split; [exists (aslr_sv s), (entropy s); now destruct s|]. split; [lia|]. split; [exact Hal|]. split; [lia|now left]. }
  unfold slide. destruct is_user; [|exact Hstay]. rewrite (proj2 (Z.eqb_neq ghi 0)) by lia. cbn [orb]. set (sh := if USER_CEIL <? ghi then USER_CEIL else ghi).
  assert (Hsh : sh <= USER_CEIL /\ sh <= ghi) by (unfold sh; destruct (Z.ltb_spec USER_CEIL ghi); lia). destruct ((addr <? sh) && _) eqn:Eg; [|exact Hstay].
  apply andb_true_iff in Eg as [G1 G2]. to_prop. change PAGE_SIZE with 4096. set (slack := (sh - addr - need) / 4096). destruct (0 <? slack) eqn:E0; to_prop; [|exact Hstay].
  assert (Hent : forall r s', aslr_random s = (r, s') -> exists sv e, s' = with_entropy s sv e).
  { unfold aslr_random. intros r s' E. destruct (entropy s) as [|[v tsc] rest] eqn:Ee; [apply pair_equal_spec in E as [_ <-]; exists (aslr_sv s), (entropy s); now destruct s|].
    destruct (negb (v =? 0)); apply pair_equal_spec in E as [_ <-]; eauto. }
  destruct (aslr_random s) as [r s'] eqn:Er. specialize (Hent _ _ eq_refl). split; [exact Hent|]. pose proof (Z.mod_pos_bound r slack E0) as Hr. set (k := r mod slack) in *.
  assert (Hk : k * 4096 + 4096 <= sh - addr - need) by (pose proof (Z.mul_div_le (sh - addr - need) 4096); unfold slack in Hr; lia).
  assert (Hc : USER_CEIL < 2 ^ 64) by reflexivity. unfold u64. rewrite (Z.mod_small (k * 4096)) by lia. rewrite Z.mod_small by lia.
  split; [lia|]. split; [rewrite Z.add_mod, Hal, Z.mod_mul by lia; reflexivity|]. split; [lia|right; lia].
Qed.

(** * InternalAlloc *)

Definition is_user (flags : Z) : bool := negb (Z.land flags MM_USER =? 0).

(** The lower and upper bound of the ranges of a page map. *)
Definition low (s : vma_state) : Z := start_at (regions s) (vma_head s).
Definition high (conf : vm_conf) (s : vma_state) : Z := range_hi conf (low s).

Lemma high_bounds conf s : USER_CEIL <= high conf s < 2 ^ 64.
Proof. unfold high, range_hi. repeat case_match; unfold USER_CEIL, USER_SPACE_END_5LVL; lia. Qed.

Lemma entropy_ok conf s T L sv e : ok_at conf s T L -> ok_at conf (with_entropy s sv e) T L.
Proof. intros [[F [[G1 G2 G3 G4 G5 G6 G7 G8 G9 G10 G11 G12] Gw]] Hsp]. split; [exists F; split; [split; auto|exact Gw]|exact Hsp]. Qed.

(** What an allocation of [n] pages gives, with the memory of the pool: [a] is the
    address of a new range, or nothing has changed and there was no room for it or
    no memory for its node. *)
Definition ranged (conf : vm_conf) (s : vma_state) (T : list Z) (n flags a : Z) (s' : vma_state) : Prop :=
  same_low s s' /\
  ((a = 0 /\ vma_ok conf s' T /\ spans s' T = spans s T /\ (drawn s false s' \/ same_supply s s' /\ no_room s T (low s) (high conf s) (n * 4096) (is_user flags))) \/
   (drawn s true s' /\ span_ok (a, n, flags) /\ low s <= a /\ Forall (apart_from a (a + n * 4096)) (spans s T) /\ one_more conf s T (a, n, flags) s' /\
    (Forall (fun x => sp_start x <= high conf s) (spans s T) -> a + n * 4096 <= high conf s) /\
    (is_user flags = true -> high conf s <= USER_CEIL -> a + n * 4096 <= USER_CEIL))).

Lemma place_ranged conf s T L p a n flags sv e : ok_at conf s T L -> p = 0 \/ p ∈ T -> span_ok (a, n, flags) -> low s <= a -> Forall (apart_from a (a + n * 4096)) (spans s T) ->
  (Forall (fun x => sp_start x <= high conf s) (spans s T) -> a + n * 4096 <= high conf s) -> (is_user flags = true -> high conf s <= USER_CEIL -> a + n * 4096 <= USER_CEIL) ->
  wp (place_region conf (with_entropy s sv e) (if nonnull p then p else vma_head s) a n flags) (fun '(r, s') => ranged conf s T n flags r s').
Proof.
  intros Hok Hp Hspan Hlow Hfree Hb Hu. eapply wp_mono; [apply (place_ok conf _ T L _ a n flags (entropy_ok conf s T L sv e Hok))|]; [|exact Hspan|exact Hfree|].
  - destruct Hok as [[F Hinv] _]. destruct Hp as [->|Hp]; [constructor|]. rewrite nonnull_true by exact (proj1 (tree_region _ _ _ _ _ _ Hinv p Hp)). apply elem_of_cons. right. exact (tree_in_ring _ _ _ _ _ _ Hinv p Hp).
  - intros [r s'] [Hl [(-> & H1 & H2 & H3)|(-> & H & H3)]]; (split; [exact Hl|]).
    + left. split; [reflexivity|]. split; [exact H1|]. split; [exact H2|left; exact H3].
    + right. split; [exact H3|]. split; [exact Hspan|]. split; [exact Hlow|]. split; [exact Hfree|]. split; [exact H|]. auto.
Qed.

Lemma InternalAlloc_ranged conf s T n flags hint : vma_ok conf s T -> 0 <= low s -> low s mod 4096 = 0 -> hint mod 4096 = 0 -> 1 <= n < 2 ^ 64 ->
  wp (InternalAlloc conf s n flags hint) (fun '(a, s') => ranged conf s T n flags a s').
Proof.
  intros Hok Hlo0 Hlo Hhint Hn. destruct (ok_explicit _ _ _ Hok) as (L & HokL). pose proof HokL as [[F Hinv] Hsp]. unfold InternalAlloc. rewrite (proj2 (Z.eqb_neq n 0)) by lia.
  change PAGE_SIZE with 4096. fold (is_user flags). pose proof (high_bounds conf s) as Hhi. assert (Hc : USER_CEIL = 2 ^ 47) by reflexivity.
  assert (Hfull : (forall a, low s <= a -> high conf s < a + n * 4096) -> ranged conf s T n flags 0 s).
  { intros H. split; [split; reflexivity|]. left. split; [reflexivity|]. split; [exact Hok|]. split; [reflexivity|]. right. split; [now split|]. intros a Ha Hb. specialize (H a Ha). destruct (is_user flags); lia. }
  destruct (Z.lt_ge_cases (n * 4096) (2 ^ 64)) as [Hw|Hw].
  2:{ destruct (negb (u64 (n * 4096) / 4096 =? n)) eqn:Ew; [apply Hfull; lia|]. exfalso. apply negb_false_iff in Ew. to_prop. unfold u64 in Ew. pose proof (Z.mod_pos_bound (n * 4096) (2 ^ 64)). dlia. }
  unfold u64. rewrite (Z.mod_small (n * 4096)) by lia. rewrite Z.div_mul, Z.eqb_refl by lia. cbn [negb].
  destruct (i_mem _ _ _ _ _ _ Hinv (vma_head s)) as [R HR]; [constructor|]. rewrite (rd_ok _ _ _ _ HR). cbn [bind]. assert (El : v_start R = low s) by (unfold low, start_at; now rewrite HR).
  rewrite El. fold (high conf s). destruct (_ || _) eqn:Eg; [apply Hfull; apply orb_true_iff in Eg as [Eg|Eg]; to_prop; lia|]. apply orb_false_iff in Eg as [G1 G2]. to_prop.
  apply wp_bind. eapply wp_mono; [apply (hint_fits_ok conf s T L F (low s) (high conf s) (n * 4096) hint Hinv Hsp); lia|]. intros [p|].
  - intros (Hp & H1 & H2 & H3). pose proof (place_ranged conf s T L p hint n flags (aslr_sv s) (entropy s)) as Hpl.
    replace (with_entropy s (aslr_sv s) (entropy s)) with s in Hpl by (now destruct s). apply Hpl; auto; [|lia..].
    unfold span_ok, sp_start, sp_pages, sp_end. cbn. lia.
  - intros _. apply wp_bind. eapply wp_mono; [apply (next_fit_ok conf s T L F Hinv Hsp); lia|]. intros [[[p addr] ghi]|].
    + intros (Hp & Haddr & H1 & H2 & H3 & H4 & H5). assert (Hal : addr mod 4096 = 0).
      { destruct Haddr as [->|(x & Hx & ->)]; [exact Hlo|]. destruct (tree_span_ok _ _ Hsp x Hx) as (_ & Hm & _). unfold sp_end. now rewrite Z.mod_add by lia. }
      pose proof (slide_ok s (is_user flags) addr ghi (n * 4096) ltac:(lia) Hal ltac:(lia) H2) as Hs. destruct (slide s (is_user flags) addr ghi (n * 4096)) as [a s1].
      destruct Hs as ((sv & e & ->) & S1 & S2 & S3 & S4). change (vma_head (with_entropy s sv e)) with (vma_head s).
      assert (Hlt : a + n * 4096 < 2 ^ 64).
      { destruct S4 as [->|S4]; [|lia]. destruct H4 as [H4|(x & Hx & H4)]; [lia|]. pose proof (tree_span_ok _ _ Hsp x Hx) as Hx'. pose proof (span_pos _ Hx'). destruct Hx' as (_ & _ & _ & Hx'). lia. }
      apply (place_ranged conf s T L); auto.
      * unfold span_ok, sp_start, sp_pages, sp_end. cbn. lia.
      * lia.
      * eapply Forall_impl; [exact H3|]. intros x. unfold apart_from. lia.
      * intros Hb. destruct S4 as [->|S4]; [|lia]. destruct H4 as [H4|(x & Hx & H4)]; [exact H4|]. unfold spans in Hb. rewrite Forall_fmap, Forall_forall in Hb. specialize (Hb x Hx). unfold compose in Hb. lia.
      * intros Hu Hb. destruct S4 as [->|S4]; [auto|exact S4].
    + intros Hr. cbn [wp]. split; [split; reflexivity|]. left. split; [reflexivity|]. split; [exact Hok|]. split; [reflexivity|right; split; [now split|exact Hr]].
Qed.

(** The same for callers that do not follow the pool: [a] is the address of a new range, or
    nothing has changed and there was no room for it or no memory for its node. *)
Definition allocated (conf : vm_conf) (s : vma_state) (T : list Z) (n flags a : Z) (s' : vma_state) : Prop :=
  same_low s s' /\
  ((a = 0 /\ vma_ok conf s' T /\ spans s' T = spans s T /\ (no_memory s \/ no_room s T (low s) (high conf s) (n * 4096) (is_user flags))) \/
   (span_ok (a, n, flags) /\ low s <= a /\ Forall (apart_from a (a + n * 4096)) (spans s T) /\ one_more conf s T (a, n, flags) s' /\
    (Forall (fun x => sp_start x <= high conf s) (spans s T) -> a + n * 4096 <= high conf s) /\
    (is_user flags = true -> high conf s <= USER_CEIL -> a + n * 4096 <= USER_CEIL))).

Lemma InternalAlloc_ok conf s T n flags hint : vma_ok conf s T -> 0 <= low s -> low s mod 4096 = 0 -> hint mod 4096 = 0 -> 1 <= n < 2 ^ 64 ->
  wp (InternalAlloc conf s n flags hint) (fun '(a, s') => allocated conf s T n flags a s').
Proof.
  intros Hok H1 H2 H3 H4. eapply wp_mono; [apply (InternalAlloc_ranged conf s T n flags hint Hok H1 H2 H3 H4)|]. intros [a s'] [Hl [(E & E1 & E2 & E3)|(_ & H)]]; (split; [exact Hl|]); [left|right; exact H].
  split; [exact E|]. split; [exact E1|]. split; [exact E2|]. destruct E3 as [E3|[_ E3]]; [left; exact (drawn_none _ _ E3)|now right].
Qed.
