(* ===== verification/VMACalls.v ===== *)
(** The address range manager as its clients see it: a sorted list of regions, and
    the memory for their nodes.  Every call on a page map implements its
    specification on that list, for any sequence of calls whose arguments meet the
    obligations of callers. *)
From stdpp Require Import base gmap list fin_maps sets.
From Stdlib Require Import ZArith Lia Sorting.Sorted.
From S2P Require Import Prelude RBTree RBRep RBInsert RBSearch RBErase PMM VMA VMAInv VMAOps VMATree VMASpec VMARegion VMAEdit VMAAlloc.

Open Scope Z_scope.
Open Scope c_scope.

(** * Calls *)

(** A caller names a region by an address in it. *)
Inductive vma_call : Type :=
| CAdd (start page_count flags : Z)
| CAlloc (page_count flags hint : Z)
| CSplit (addr : Z)
| CRemove (addr : Z)
| CStart (start : Z).

Definition vma_run (conf : vm_conf) (s : vma_state) (c : vma_call) : res (Z * vma_state) :=
  match c with
  | CAdd a n f => AddRegion conf s a n f
  | CAlloc n f h => InternalAlloc conf s n f h
  | CSplit a => let* r := FindRegion s a in if r =? 0 then Ok (0, s) else SplitRegion conf s r a
  | CRemove a => let* r := FindRegion s a in if r =? 0 then Ok (0, s) else let* s := RemoveRegion s r in Ok (r, s)
  | CStart v => let* s := SetStart conf s v in Ok (0, s)
  end.

(** * Specification *)

Definition in_range (a n p : Z) : Prop := a <= 4096 * p < a + n * 4096.

(** No page of the range belongs to a region of [S]. *)
Definition unmapped (S : list span) (a n : Z) : Prop := forall p f, in_range a n p -> ~ mapped S p f.

(** The lower bound for allocations, the regions in address order, the nodes there
    are for them and for the sentinel, and the results [PMM::Request] has in
    store. *)
Record vma_abs : Type := Abs { a_low : Z; a_regions : list span; a_nodes : nat; a_pages : list Z }.

(** A node for one more region: one that is not in use, or one of the 39 of a new
    page.  The answer, the nodes and the pages afterwards. *)
Definition take_node (y : vma_abs) : bool * nat * list Z :=
  if bool_decide (S (length (a_regions y)) < a_nodes y)%nat then (true, a_nodes y, a_pages y)
  else
    match a_pages y with
    | [] => (false, a_nodes y, [])
    | pg :: ps => if pg =? 0 then (false, a_nodes y, ps) else (true, (a_nodes y + 39)%nat, ps)
    end.

(** What callers must respect: whole pages inside the address space that are not
    mapped yet, page-aligned hints and bounds. *)
Definition legal (S : list span) (c : vma_call) : Prop :=
  match c with
  | CAdd a n f => span_ok (a, n, f) /\ unmapped S a n
  | CAlloc n f h => 1 <= n < 2 ^ 64 /\ h mod 4096 = 0
  | CSplit a | CRemove a => 0 <= a
  | CStart v => 0 <= v /\ v mod 4096 = 0
  end.

(** The upper bound for a range of the flags [f]. *)
Definition limit (conf : vm_conf) (lo f : Z) : Z := if is_user f then Z.min (range_hi conf lo) USER_CEIL else range_hi conf lo.

(** No gap of [n] pages between the bounds. *)
Definition full (conf : vm_conf) (lo : Z) (S : list span) (n f : Z) : Prop :=
  forall a, lo <= a -> a mod 4096 = 0 -> a + n * 4096 <= limit conf lo f -> ~ unmapped S a n.

(** Nothing to cut at page [p]: it is in no region, or the first of one. *)
Definition uncut (S : list span) (p : Z) : Prop := (forall f, ~ mapped S p f) \/ exists n f, (4096 * p, n, f) ∈ S.

Definition needs_node (c : vma_call) : bool := match c with CAdd _ _ _ | CAlloc _ _ _ | CSplit _ => true | _ => false end.

(** The effect of a call with result [x]. *)
Inductive vma_effect (conf : vm_conf) : vma_abs -> vma_call -> Z -> vma_abs -> Prop :=
| eff_dry y c k ps : needs_node c = true -> take_node y = (false, k, ps) -> vma_effect conf y c 0 (Abs (a_low y) (a_regions y) k ps)
| eff_add y a n f x S' k ps : take_node y = (true, k, ps) -> x <> 0 -> added (a_regions y) (a, n, f) S' -> vma_effect conf y (CAdd a n f) x (Abs (a_low y) S' k ps)
| eff_alloc y n f h x S' k ps : take_node y = (true, k, ps) -> span_ok (x, n, f) -> a_low y <= x -> unmapped (a_regions y) x n -> with_span (a_regions y) (x, n, f) S' ->
    vma_effect conf y (CAlloc n f h) x (Abs (a_low y) S' k ps)
| eff_full y n f h : full conf (a_low y) (a_regions y) n f -> vma_effect conf y (CAlloc n f h) 0 y
| eff_split y a x S' k ps : take_node y = (true, k, ps) -> x <> 0 -> split_at (a_regions y) (4096 * (a / 4096)) S' -> vma_effect conf y (CSplit a) x (Abs (a_low y) S' k ps)
| eff_uncut y a : uncut (a_regions y) (a / 4096) -> vma_effect conf y (CSplit a) 0 y
| eff_remove y a x A z B : x <> 0 -> a_regions y = A ++ z :: B -> sp_start z <= 4096 * (a / 4096) < sp_end z -> vma_effect conf y (CRemove a) x (Abs (a_low y) (A ++ B) (a_nodes y) (a_pages y))
| eff_absent y a : (forall f, ~ mapped (a_regions y) (a / 4096) f) -> vma_effect conf y (CRemove a) 0 y
| eff_start y v : vma_effect conf y (CStart v) 0 (Abs v (a_regions y) (a_nodes y) (a_pages y)).

(** An addition adds the pages of its range and no other. *)
Lemma added_pages S a n f S' : added S (a, n, f) S' -> forall p g, mapped S' p g <-> mapped S p g \/ (in_range a n p /\ g = f).
Proof.
  intros (S1 & S2 & A & K & B & y & -> & E & _ & -> & HK) p g. change (y :: B) with ([y] ++ B). rewrite !mapped_app, <- HK, <- !mapped_app, <- E.
  rewrite (with_span_mapped (S1 ++ S2) (a, n, f)) by (exists S1, S2; auto). rewrite mapped_app. unfold in_range. change (sp_start (a, n, f)) with a. change (sp_end (a, n, f)) with (a + n * 4096).
  change (sp_flags (a, n, f)) with f. intuition congruence.
Qed.

Lemma add_effect conf y a n f x y' : vma_effect conf y (CAdd a n f) x y' -> a_regions y' = a_regions y \/ added (a_regions y) (a, n, f) (a_regions y').
Proof. inversion 1; subst; cbn [a_regions]; auto. Qed.

(** * Simulation *)

Record vma_sim (conf : vm_conf) (y : vma_abs) (s : vma_state) : Prop := {
  sim_low : low s = a_low y;
  sim_pos : 0 <= a_low y;
  sim_aligned : a_low y mod 4096 = 0;
  sim_nodes : size (regions s) = a_nodes y;
  sim_pages : pmm_pages s = a_pages y;
  sim_regions : exists T, vma_ok conf s T /\ spans s T = a_regions y
}.

(** Spans that start and end on page boundaries overlap a range when they share
    a page with it. *)
Lemma apart_unmapped S a n : Forall span_ok S -> 0 <= a -> a mod 4096 = 0 -> 1 <= n -> Forall (apart_from a (a + n * 4096)) S <-> unmapped S a n.
Proof.
  intros Hok Ha Hal Hn. rewrite Forall_forall in Hok. rewrite Forall_forall. unfold unmapped, in_range, mapped, apart_from. split.
  - intros H p f Hp (x & Hx & Hr & _). specialize (H x Hx). lia.
  - intros H x Hx. destruct (Hok x Hx) as (H1 & H2 & H3 & _). pose proof (span_pos _ (Hok x Hx)) as Hpos.
    destruct (Z.le_gt_cases (a + n * 4096) (sp_start x)) as [|Hc]; [now left|]. right. destruct (Z.le_gt_cases (sp_end x) a) as [|Hd]; [assumption|exfalso].
    set (m := Z.max a (sp_start x)). assert (Hm : 4096 * (m / 4096) = m) by (assert (m mod 4096 = 0) by (unfold m; destruct (Z.max_spec a (sp_start x)) as [[_ ->]|[_ ->]]; assumption); dlia).
    apply (H (m / 4096) (sp_flags x)); [rewrite Hm; unfold m; lia|]. exists x. split; [exact Hx|]. split; [rewrite Hm; unfold m; lia|reflexivity].
Qed.

(** What the pool gives is what the nodes that are not in use and the coming pages
    allow. *)
Lemma take_node_ok conf lo s T ok s' : vma_ok conf s T -> drawn s ok s' ->
  take_node (Abs lo (spans s T) (size (regions s)) (pmm_pages s)) = (ok, size (regions s'), pmm_pages s').
Proof.
  intros [(L & F & Hinv) _] H. unfold take_node, drawn in *. cbn [a_regions a_nodes a_pages]. pose proof (node_count _ _ _ _ _ Hinv) as Hn.
  assert (Hf : g_node_free_list s = 0 <-> F = []).
  { pose proof (i_free _ _ _ _ _ _ Hinv) as Hc. split; [intros E; rewrite E in Hc; apply (chain_zero _ _ Hc); pose proof (i_nz _ _ _ _ _ _ Hinv); set_solver|intros ->; exact Hc]. }
  unfold spans. rewrite length_fmap, Hn. destruct (g_node_free_list s =? 0) eqn:E; to_prop.
  - rewrite (proj1 Hf E). rewrite bool_decide_eq_false_2 by (cbn; lia). destruct (pmm_pages s) as [|pg ps] eqn:Ep; [destruct H as [-> [E1 E2]]|destruct H as (-> & E1 & E2)].
    + now rewrite E1, E2, Hn, (proj1 Hf E), Ep.
    + rewrite E1, E2, Hn, (proj1 Hf E). destruct (pg =? 0); cbn [negb]; f_equal; f_equal; change (Z.to_nat nodes_per_page) with 39%nat; lia.
  - destruct H as (-> & E1 & E2). rewrite bool_decide_eq_true_2; [now rewrite E1, E2, Hn|]. destruct F as [|z F]; [destruct E; now apply Hf|cbn; lia].
Qed.

Section Step.
Context (conf : vm_conf) (y : vma_abs) (s : vma_state).
Context (Hsim : vma_sim conf y s).

(** A call that needs no node keeps the regions [S']. *)
Lemma sim_kept s' T' : same_low s s' -> same_supply s s' -> vma_ok conf s' T' -> vma_sim conf (Abs (a_low y) (spans s' T') (a_nodes y) (a_pages y)) s'.
Proof.
  destruct Hsim as [H1 H2 H3 H4 H5 _]. intros [E1 E2] [E3 E4] Hok. split; cbn [a_low a_regions a_nodes a_pages]; [unfold low in *; rewrite E1; congruence|congruence..|].
  exists T'. auto.
Qed.

(** A call that has asked for one. *)
Lemma sim_drawn s' T T' ok : vma_ok conf s T -> spans s T = a_regions y -> same_low s s' -> drawn s ok s' -> vma_ok conf s' T' ->
  take_node y = (ok, size (regions s'), pmm_pages s') /\ vma_sim conf (Abs (a_low y) (spans s' T') (size (regions s')) (pmm_pages s')) s'.
Proof.
  destruct Hsim as [H1 H2 H3 H4 H5 _]. intros Hok HT [E1 E2] Hd Hok'. split.
  - rewrite <- (take_node_ok conf (a_low y) s T ok s' Hok Hd), HT, H4, H5. now destruct y.
  - split; cbn [a_low a_regions a_nodes a_pages]; [unfold low in *; rewrite E1; congruence|congruence..|]. exists T'. auto.
Qed.

Lemma sim_self : vma_sim conf y s /\ Abs (a_low y) (a_regions y) (a_nodes y) (a_pages y) = y.
Proof. split; [exact Hsim|now destruct y]. Qed.

Definition steps_to (c : vma_call) (x : Z) (s' : vma_state) : Prop := exists y', vma_effect conf y c x y' /\ vma_sim conf y' s'.

Lemma dry_step c T s' : vma_ok conf s T -> spans s T = a_regions y -> needs_node c = true -> same_low s s' -> drawn s false s' -> vma_ok conf s' T -> spans s' T = spans s T -> steps_to c 0 s'.
Proof.
  intros Hok HT Hc Hl Hd Hok' Es. destruct (sim_drawn s' T T false Hok HT Hl Hd Hok') as [Ht Hs]. rewrite Es, HT in Hs. eexists. split; [apply eff_dry; [exact Hc|exact Ht]|exact Hs].
Qed.

Lemma add_step a n f : span_ok (a, n, f) -> unmapped (a_regions y) a n -> wp (vma_run conf s (CAdd a n f)) (fun '(x, s') => steps_to (CAdd a n f) x s').
Proof.
  intros Hspan Hun. destruct (sim_regions _ _ _ Hsim) as (T & Hok & HT). pose proof Hspan as (H1 & H2 & H3 & H4). unfold sp_start, sp_pages in *. cbn in H1, H2, H3. cbn [vma_run].
  eapply wp_mono; [apply (AddRegion_ok conf s T a n f Hok Hspan)|]; [apply apart_unmapped; auto; [apply (ok_spaced _ _ _ Hok)|now rewrite HT]|].
  intros [x s'] (Hlow & Hd & [(-> & Hok' & Es)|(T' & Hok' & Hx & _ & _ & _ & Hadd)]); [now apply (dry_step _ T)|].
  assert (Hx0 : x <> 0) by (destruct Hok' as [(L' & F' & Hinv') _]; exact (proj1 (tree_region _ _ _ _ _ _ Hinv' x Hx))). rewrite nonnull_true in Hd by exact Hx0.
  destruct (sim_drawn s' T T' true Hok HT Hlow Hd Hok') as [Ht Hs]. eexists. split; [|exact Hs]. apply eff_add; [exact Ht|exact Hx0|now rewrite <- HT].
Qed.

Lemma alloc_step n f h : 1 <= n < 2 ^ 64 -> h mod 4096 = 0 -> wp (vma_run conf s (CAlloc n f h)) (fun '(x, s') => steps_to (CAlloc n f h) x s').
Proof.
  intros Hn Hh. destruct Hsim as [El Hl1 Hl2 _ _ (T & Hok & HT)]. cbn [vma_run]. assert (Hspans : Forall span_ok (spans s T)) by apply (ok_spaced _ _ _ Hok).
  eapply wp_mono; [apply (InternalAlloc_ranged conf s T n f h Hok)|]; [now rewrite El..|exact Hh|exact Hn|]. intros [x s'] [Hlow [(-> & Hok' & Es & [Hd|[Hsu Hno]])|(Hd & Hspan & Hx & Hfree & (T1 & r & T2 & -> & Hok' & Es) & _)]].
  - now apply (dry_step _ T).
  - exists y. split; [|rewrite <- (proj2 sim_self), <- HT, <- Es; now apply sim_kept]. apply eff_full. rewrite <- HT. intros a Ha Hal Hb Hun.
    rewrite <- El in Ha, Hb. apply (Hno a Ha); [exact Hb|]. apply apart_unmapped; auto; lia.
  - destruct (sim_drawn s' _ _ true Hok HT Hlow Hd Hok') as [Ht Hs]. pose proof Hspan as (H1 & H2 & H3 & _). eexists. split; [|exact Hs]. apply eff_alloc; [exact Ht|exact Hspan|now rewrite <- El| |].
    + rewrite <- HT. now apply apart_unmapped.
    + rewrite <- HT, Es. exists (spans s T1), (spans s T2). split; [unfold spans; now rewrite fmap_app|reflexivity].
Qed.

Lemma split_step a : 0 <= a -> wp (vma_run conf s (CSplit a)) (fun '(x, s') => steps_to (CSplit a) x s').
Proof.
  intros Ha. destruct (sim_regions _ _ _ Hsim) as (T & Hok & HT). cbn [vma_run]. destruct (FindRegion_ok conf s T a Hok Ha) as (r & -> & Hr). cbn [bind].
  destruct Hr as [[-> Hr]|[HrT Hin]]; [exists y; split; [apply eff_uncut; left; now rewrite <- HT|exact Hsim]|].
  assert (Hr0 : r <> 0) by (destruct Hok as [(L & F & Hinv) _]; exact (proj1 (tree_region _ _ _ _ _ _ Hinv r HrT))). rewrite (proj2 (Z.eqb_neq _ _) Hr0).
  eapply wp_mono; [apply (SplitRegion_ok conf s T r a Hok HrT Ha)|]. intros [x s'] (Hlow & T' & Hok' & _ & [(-> & -> & Es & [[Hsu Hno]|Hd])|(Hd & Hsp & Hx & _)]).
  - exists y. split; [|rewrite <- (proj2 sim_self), <- HT, <- Es; now apply sim_kept]. apply eff_uncut. right. rewrite <- HT.
    assert (E : 4096 * (a / 4096) = sp_start (span_of (regions s) r)) by lia. destruct (span_of (regions s) r) as [[b n] f] eqn:Er. exists n, f. rewrite E. apply list_elem_of_fmap. exists r. auto.
  - now apply (dry_step _ T).
  - assert (Hx0 : x <> 0) by (destruct Hok' as [(L' & F' & Hinv') _]; exact (proj1 (tree_region _ _ _ _ _ _ Hinv' x Hx))).
    destruct (sim_drawn s' T T' true Hok HT Hlow Hd Hok') as [Ht Hs]. eexists. split; [|exact Hs]. apply eff_split; [exact Ht|exact Hx0|now rewrite <- HT].
Qed.

Lemma remove_step a : 0 <= a -> wp (vma_run conf s (CRemove a)) (fun '(x, s') => steps_to (CRemove a) x s').
Proof.
  intros Ha. destruct (sim_regions _ _ _ Hsim) as (T & Hok & HT). cbn [vma_run]. destruct (FindRegion_ok conf s T a Hok Ha) as (r & -> & Hr). cbn [bind].
  destruct Hr as [[-> Hr]|[HrT Hin]]; [exists y; split; [apply eff_absent; now rewrite <- HT|exact Hsim]|].
  assert (Hr0 : r <> 0) by (destruct Hok as [(L & F & Hinv) _]; exact (proj1 (tree_region _ _ _ _ _ _ Hinv r HrT))). rewrite (proj2 (Z.eqb_neq _ _) Hr0). apply wp_bind.
  eapply wp_mono; [apply (RemoveRegion_ok conf s T r Hok HrT)|]. intros s' (T' & Hok' & (A & B & -> & ->) & Hlow & Hsu & Hs). cbn [wp].
  eexists. split; [|exact (sim_kept s' _ Hlow Hsu Hok')]. assert (E : spans s' (A ++ B) = spans s A ++ spans s B) by (unfold spans; rewrite fmap_app; f_equal; apply list_fmap_ext; intros; apply Hs).
  rewrite E. apply (eff_remove conf y a r (spans s A) (span_of (regions s) r) (spans s B)); [exact Hr0|rewrite <- HT; unfold spans; now rewrite fmap_app, fmap_cons|exact Hin].
Qed.

Lemma start_step v : 0 <= v -> v mod 4096 = 0 -> wp (vma_run conf s (CStart v)) (fun '(x, s') => steps_to (CStart v) x s').
Proof.
  intros Hv1 Hv2. destruct Hsim as [El _ _ Hn Hp (T & Hok & HT)]. cbn [vma_run]. apply wp_bind. eapply wp_mono; [apply (SetStart_again_ok conf s T v Hok)|].
  intros s' (Hok' & Es & Eh & Ev & [E1 E2]). cbn [wp]. eexists. split; [apply eff_start|]. split; cbn [a_low a_regions a_nodes a_pages]; [unfold low; now rewrite Eh|exact Hv1|exact Hv2|congruence..|].
  exists T. split; [exact Hok'|congruence].
Qed.

(** Every call goes through and has its effect. *)
Lemma vma_run_ok c : legal (a_regions y) c -> wp (vma_run conf s c) (fun '(x, s') => steps_to c x s').
Proof.
  destruct c as [a n f|n f h|a|a|v]; cbn [legal].
  - intros [H1 H2]. now apply add_step.
  - intros [H1 H2]. now apply alloc_step.
  - apply split_step.
  - apply remove_step.
  - intros [H1 H2]. now apply start_step.
Qed.
End Step.

(** * Sequences of calls *)

Fixpoint vma_runs (conf : vm_conf) (s : vma_state) (cs : list vma_call) : res (list Z * vma_state) :=
  match cs with
  | [] => Ok ([], s)
  | c :: cs =>
      let* (x, s) := vma_run conf s c in
      let* (xs, s) := vma_runs conf s cs in
      Ok (x :: xs, s)
  end.

(** A caller that meets its obligations whatever the calls before did. *)
Fixpoint legal_calls (conf : vm_conf) (y : vma_abs) (cs : list vma_call) : Prop :=
  match cs with
  | [] => True
  | c :: cs => legal (a_regions y) c /\ forall x y', vma_effect conf y c x y' -> legal_calls conf y' cs
  end.

Inductive vma_trace (conf : vm_conf) : vma_abs -> list vma_call -> list Z -> vma_abs -> Prop :=
| trace_nil y : vma_trace conf y [] [] y
| trace_cons y c x y1 cs xs y2 : vma_effect conf y c x y1 -> vma_trace conf y1 cs xs y2 -> vma_trace conf y (c :: cs) (x :: xs) y2.

Lemma vma_runs_ok conf y s cs : vma_sim conf y s -> legal_calls conf y cs ->
  wp (vma_runs conf s cs) (fun '(xs, s') => exists y', vma_trace conf y cs xs y' /\ vma_sim conf y' s').
Proof.
  revert y s. induction cs as [|c cs IH]; intros y s Hsim Hl; cbn [vma_runs legal_calls] in *; [exists y; split; [constructor|exact Hsim]|].
  destruct Hl as [Hc Hl]. apply wp_bind. eapply wp_mono; [apply (vma_run_ok conf y s Hsim c Hc)|]. intros [x s1] (y1 & He & Hsim1). apply wp_bind.
  eapply wp_mono; [apply (IH y1 s1 Hsim1 (Hl _ _ He))|]. intros [xs s2] (y2 & Ht & Hsim2). cbn [wp]. exists y2. split; [econstructor; eassumption|exact Hsim2].
Qed.

(** A new page map: no region, the nodes of the first page. *)
Definition fresh_map (v : Z) (pages : list Z) : vma_abs := Abs v [] 39 (tail pages).
