(* ===== verification/VMAClaims.v ===== *)
(** Virtual address ranges: the properties of the module, on the page maps its
    calls can reach. *)
From stdpp Require Import base gmap list fin_maps sets.
From Stdlib Require Import ZArith Lia Sorting.Sorted.
From S2P Require Import Prelude RBTree RBRep RBInsert RBSearch RBErase PMM VMA VMAInv VMAOps VMATree VMASpec VMARegion VMAEdit VMAAlloc VMACalls.

Open Scope Z_scope.
Open Scope c_scope.

(** * A page map in use *)

(** Start, then the calls [cs]. *)
Definition vma_session (conf : vm_conf) (s : vma_state) (v : Z) (cs : list vma_call) : res (list Z * vma_state) :=
  let* s := SetStart conf s v in
  if vma_head s =? 0 then Ok ([], s) else vma_runs conf s cs.

(** What a session gives: nothing without a first page, otherwise a run of the
    specification from an empty page map. *)
Definition session_result (conf : vm_conf) (pages : list Z) (v : Z) (cs : list vma_call) (xs : list Z) (s : vma_state) : Prop :=
  if hd 0 pages =? 0 then xs = [] /\ vma_head s = 0
  else exists y, vma_trace conf (fresh_map v pages) cs xs y /\ vma_sim conf y s.

Lemma session_ok conf pages ent v cs : NoDup (pool conf pages) -> 0 ∉ pool conf pages -> 0 <= v -> v mod 4096 = 0 -> legal_calls conf (fresh_map v pages) cs ->
  wp (vma_session conf (vma_new pages ent) v cs) (fun '(xs, s) => session_result conf pages v cs xs s).
Proof.
  intros Hnd Hz Hv1 Hv2 Hl. unfold vma_session, session_result. apply wp_bind. eapply wp_mono; [apply (SetStart_first_ok conf pages ent v Hnd Hz)|].
  intros s [[E Ep]|(Hok & Hv & Ep & Et & En)]; [rewrite E, Ep; cbn; auto|]. rewrite (proj2 (Z.eqb_neq _ _) (ok_head _ _ _ Hok)), (proj2 (Z.eqb_neq _ _) Ep).
  apply vma_runs_ok; [|exact Hl]. split; cbn [fresh_map a_low a_regions a_nodes a_pages]; [exact Hv|exact Hv1|exact Hv2|exact En|exact Et|]. exists []. split; [exact Hok|reflexivity].
Qed.

Definition conf0 : vm_conf := VmConf 0xFFFF800000000000 false.

(** A program image of two segments, a range in the high half, and two
    allocations. *)
Definition sample_calls : list vma_call :=
  [CAdd 0x400000 2 5; CAdd 0xFFFF900000000000 16 3; CAlloc 4 7 0; CSplit 0x401000; CAlloc 1 7 0x800000].

Definition sample : vma_state :=
  match vma_session conf0 (vma_new [0x10000; 0x20000] [(5, 0); (0, 77)]) 0x500000 sample_calls with
  | Ok (_, s) => s
  | _ => vma_new [] []
  end.

Lemma pool0 : NoDup (pool conf0 [0x10000; 0x20000]) /\ 0 ∉ pool conf0 [0x10000; 0x20000].
Proof. split; apply (bool_decide_unpack _); vm_compute; exact I. Qed.

Lemma span_ok_check x : (0 <=? sp_start x) && (sp_start x mod 4096 =? 0) && (1 <=? sp_pages x) && (sp_end x <? 2 ^ 64) = true -> span_ok x.
Proof. rewrite !andb_true_iff. intros [[[H1 H2] H3] H4]. to_prop. unfold span_ok. auto. Qed.

Lemma sample_legal : legal_calls conf0 (fresh_map 0x500000 [0x10000; 0x20000]) sample_calls.
Proof.
  cbn [sample_calls legal_calls]. split; [split; [apply span_ok_check; reflexivity|]|].
  { intros p f _ (x & Hx & _). now apply not_elem_of_nil in Hx. }
  intros x y He. split.
  { split; [apply span_ok_check; reflexivity|]. intros p f Hp Hm. destruct (add_effect _ _ _ _ _ _ _ He) as [E|Hadd].
    - rewrite E in Hm. destruct Hm as (z & Hz & _). now apply not_elem_of_nil in Hz.
    - apply (added_pages _ _ _ _ _ Hadd) in Hm as [(z & Hz & _)|[Hm _]]; [now apply not_elem_of_nil in Hz|]. unfold in_range in *. lia. }
  intros; split; [split; [lia|reflexivity]|]. intros; split; [cbn; lia|]. intros; split; [split; [lia|reflexivity]|]. intros; exact I.
Qed.

Lemma sample_ok : exists T, vma_ok conf0 sample T /\ 0 <= low sample /\ low sample mod 4096 = 0.
Proof.
  pose proof (session_ok conf0 _ [(5, 0); (0, 77)] 0x500000 sample_calls (proj1 pool0) (proj2 pool0) ltac:(lia) eq_refl sample_legal) as H.
  unfold sample. destruct (vma_session _ _ _ _) as [[xs s]| |]; [|easy..]. cbn [wp] in H. destruct H as (y & _ & [E H1 H2 _ _ (T & Hok & _)]). exists T. rewrite E. auto.
Qed.

(** * The properties *)

(** C31: the address range manager implements a sorted list of regions.  A page map
    is set up from the physical pages [PMM::Request] returns, and any sequence of
    [AddRegion], [InternalAlloc], [SplitRegion], [RemoveRegion] and [SetStart]
    whose arguments meet the obligations of callers runs without touching memory
    it does not own and without running out of steps.  Without a first page
    there is no page map.  Otherwise every call has the effect its specification
    gives on the regions: an addition adds exactly the pages of its range, joined
    with regions next to it; an allocation adds an unmapped aligned range above
    the lower bound; a split cuts one region in two at the page asked for; a
    removal takes out the region with that page.  Calls return 0 only when every
    node is in use by a region and the next request for a page fails, when no gap
    between the bounds is large enough, when the page to split at is in no region
    or starts one, or when the page to remove is in no region; nodes of regions
    that are removed or merged are used again. *)
Theorem vma_calls_refine conf pages ent v cs : NoDup (pool conf pages) -> 0 ∉ pool conf pages -> 0 <= v -> v mod 4096 = 0 -> legal_calls conf (fresh_map v pages) cs ->
  wp (vma_session conf (vma_new pages ent) v cs) (fun '(xs, s) =>
    if hd 0 pages =? 0 then xs = [] /\ vma_head s = 0
    else exists y, vma_trace conf (fresh_map v pages) cs xs y /\ vma_sim conf y s).
Proof. apply session_ok. Qed.

Lemma vma_calls_refine_witness :
  (let* (xs, _) := vma_session conf0 (vma_new [0x10000; 0x20000] [(5, 0); (0, 77)]) 0x500000 sample_calls in Ok xs) = Ok [18446603336221261928; 18446603336221262032; 5263360; 18446603336221262240; 8388608] /\
  wp (vma_session conf0 (vma_new [0x10000; 0x20000] [(5, 0); (0, 77)]) 0x500000 sample_calls) (fun '(xs, s) =>
    exists y, vma_trace conf0 (fresh_map 0x500000 [0x10000; 0x20000]) sample_calls xs y /\ vma_sim conf0 y s).
Proof.
  split; [vm_compute; reflexivity|]. apply (vma_calls_refine conf0 [0x10000; 0x20000] [(5, 0); (0, 77)] 0x500000 sample_calls (proj1 pool0) (proj2 pool0)); [lia|reflexivity|exact sample_legal].
Defined.

(** C32: [InternalAlloc] returns 0 with the regions unchanged, and then there is
    no memory for the node of a region or no free range of the size asked for
    between the bounds, or it returns the start of a page-aligned range of the
    pages asked for, not below the lower bound and inside the address space, that
    overlaps no region; this range has become a region and the others are the
    same.  A user range ends below the canonical limit when the upper bound of
    the map does, wherever the random slide puts it. *)
Theorem InternalAlloc_correct conf s T n flags hint : vma_ok conf s T -> 0 <= low s -> low s mod 4096 = 0 -> hint mod 4096 = 0 -> 1 <= n < 2 ^ 64 ->
  wp (InternalAlloc conf s n flags hint) (fun '(a, s') => same_low s s' /\
    ((a = 0 /\ vma_ok conf s' T /\ spans s' T = spans s T /\ (no_memory s \/ no_room s T (low s) (high conf s) (n * 4096) (is_user flags))) \/
     (span_ok (a, n, flags) /\ low s <= a /\ Forall (apart_from a (a + n * 4096)) (spans s T) /\ one_more conf s T (a, n, flags) s' /\
      (Forall (fun x => sp_start x <= high conf s) (spans s T) -> a + n * 4096 <= high conf s) /\
      (is_user flags = true -> high conf s <= USER_CEIL -> a + n * 4096 <= USER_CEIL)))).
Proof. apply InternalAlloc_ok. Qed.

Lemma InternalAlloc_correct_witness : exists T, vma_ok conf0 sample T /\ (let* (a, _) := InternalAlloc conf0 sample 9 7 0 in Ok a) = Ok 34790164725760 /\
  wp (InternalAlloc conf0 sample 9 7 0) (fun '(a, s') => allocated conf0 sample T 9 7 a s').
Proof.
  destruct sample_ok as (T & Hok & H1 & H2). exists T. split; [exact Hok|]. split; [vm_compute; reflexivity|]. apply (InternalAlloc_correct conf0 sample T 9 7 0 Hok H1 H2); [reflexivity|lia].
Defined.

(** [IsRangeFree] decides, for a size that does not overflow, whether the
    range is not empty, ends inside the address space and overlaps no region. *)
Theorem IsRangeFree_iff conf s T start n : vma_ok conf s T -> 0 <= start < 2 ^ 64 -> 0 <= n -> n * 4096 < 2 ^ 64 ->
  exists b, IsRangeFree s start n = Ok b /\ (b = true <-> 1 <= n /\ start + n * 4096 < 2 ^ 64 /\ Forall (apart_from start (start + n * 4096)) (spans s T)).
Proof. apply IsRangeFree_ok. Qed.

Lemma IsRangeFree_iff_witness : exists T, IsRangeFree sample 0x700000 256 = Ok true /\ IsRangeFree sample 0x700000 257 = Ok false /\
  exists b, IsRangeFree sample 0x700000 257 = Ok b /\ (b = true <-> 1 <= 257 /\ 0x700000 + 257 * 4096 < 2 ^ 64 /\ Forall (apart_from 0x700000 (0x700000 + 257 * 4096)) (spans sample T)).
Proof.
  destruct sample_ok as (T & Hok & _). exists T. split; [vm_compute; reflexivity|]. split; [vm_compute; reflexivity|]. apply (IsRangeFree_iff conf0 sample T 0x700000 257 Hok); lia.
Defined.

(** [FindRegion] returns the region that holds the page of an address, and
    NULL exactly when no region does. *)
Theorem FindRegion_correct conf s T addr : vma_ok conf s T -> 0 <= addr ->
  exists x, FindRegion s addr = Ok x /\
    ((x = 0 /\ forall f, ~ mapped (spans s T) (addr / 4096) f) \/
     (x ∈ T /\ sp_start (span_of (regions s) x) <= 4096 * (addr / 4096) < sp_end (span_of (regions s) x))).
Proof. apply FindRegion_ok. Qed.

Lemma FindRegion_correct_witness : exists T, vma_ok conf0 sample T /\ FindRegion sample 0x401FFF = Ok 18446603336221262240 /\ exists x, FindRegion sample 0x401FFF = Ok x /\
    ((x = 0 /\ forall f, ~ mapped (spans sample T) (0x401FFF / 4096) f) \/
     (x ∈ T /\ sp_start (span_of (regions sample) x) <= 4096 * (0x401FFF / 4096) < sp_end (span_of (regions sample) x))).
Proof.
  destruct sample_ok as (T & Hok & _). exists T. split; [exact Hok|]. split; [vm_compute; reflexivity|]. apply (FindRegion_correct conf0 sample T 0x401FFF Hok). lia.
Defined.

(** [SplitRegion] cuts a region at a page boundary strictly inside it: the
    old node keeps the pages in front, a new one has the rest, both with the
    flags of the region, no page changes and the structure stays well-formed;
    for other addresses and without memory it returns NULL and changes nothing. *)
Theorem SplitRegion_correct conf s T r addr : vma_ok conf s T -> r ∈ T -> 0 <= addr -> wp (SplitRegion conf s r addr) (fun '(x, s') => split_result conf s T r addr x s').
Proof. apply SplitRegion_ok. Qed.

Lemma SplitRegion_correct_witness : exists T r, FindRegion sample 0xFFFF900000003000 = Ok r /\ r ∈ T /\
  wp (SplitRegion conf0 sample r 0xFFFF900000003000) (fun '(x, s') => split_result conf0 sample T r 0xFFFF900000003000 x s').
Proof.
  destruct sample_ok as (T & Hok & _). destruct (FindRegion_ok conf0 sample T 0xFFFF900000003000 Hok ltac:(lia)) as (r & E & Hr). exists T, r. split; [exact E|].
  assert (Hr0 : r <> 0) by (intros ->; revert E; vm_compute; discriminate). destruct Hr as [[? _]|[Hr _]]; [contradiction|]. split; [exact Hr|].
  apply (SplitRegion_correct conf0 sample T r 0xFFFF900000003000 Hok Hr). lia.
Defined.

(** * Sizes that overflow *)

(** [IsRangeFree] checks the sum for wrap-around and not the product: a range of
    [2 ^ 52] pages over every region there is counts as free. *)
Lemma IsRangeFree_wraps : IsRangeFree sample 0x600000 (2 ^ 52) = Ok true /\ exists r, FindRegion sample 0x800000 = Ok r /\ r <> 0 /\ 0x600000 <= 0x800000 < 0x600000 + 2 ^ 52 * 4096.
Proof. split; [vm_compute; reflexivity|]. eexists. split; [vm_compute; reflexivity|]. split; [discriminate|lia]. Qed.

(** With five-level paging the gap in front of the first region, and an empty
    map, are not cut at the canonical limit: a user range of [2 ^ 36] pages is
    handed out across it. *)
Lemma user_range_above_ceil : (let* (xs, _) := vma_session (VmConf 0xFF00000000000000 true) (vma_new [0x10000] []) 4096 [CAlloc (2 ^ 36) 7 0] in Ok xs) = Ok [4096] /\ USER_CEIL < 4096 + 2 ^ 36 * 4096.
Proof. split; vm_compute; reflexivity. Qed.
