(* ===== verification/PageTab.v ===== *)
(** Page tables of the x86-64 kernel, [src/kernel/src/arch/x86_64/vmm/vmm.cpp],
    with the four levels the configuration selects: walking, mapping pages of
    4 KiB, 2 MiB and 1 GiB, unmapping, releasing the pages of a range and the
    tables.

    Tables are named by their physical address; the kernel reaches them through
    the direct map, so [HIGHER_HALF] and [PHYSICAL] are the identity here.  A page
    that is read as a table without being one is a fault.  New tables come from
    [PMM::Request], whose results are a list. *)
From stdpp Require Import base gmap list fin_maps.
From Stdlib Require Import ZArith Lia.
From S2P Require Import Prelude PMM VMA.

Open Scope Z_scope.
Open Scope c_scope.

(** * Entries *)

Definition MM_READ : Z := 1.
Definition MM_WRITE : Z := 2.
Definition PAGE_2MB : Z := 2 * 1024 * 1024.
Definition PAGE_1GB : Z := 1 * 1024 * 1024 * 1024.
Definition PAGE_2GB : Z := 2 * PAGE_1GB.
Definition VMM_PS_BIT : Z := 2 ^ 7.
Definition PTE_KEEP : Z := 0xFFF0000000000FFF.
Definition PTE_ADDR_MASK : Z := 0x000FFFFFFFFFF000.
Definition ADDR_2MB_MASK : Z := 0x000FFFFFFFE00000.
Definition ADDR_1GB_MASK : Z := 0x000FFFFFC0000000.

Definition PML4E (x : Z) : Z := Z.land (Z.shiftr x 39) 0x1ff.
Definition PDPTE (x : Z) : Z := Z.land (Z.shiftr x 30) 0x1ff.
Definition PDE (x : Z) : Z := Z.land (Z.shiftr x 21) 0x1ff.
Definition PTE (x : Z) : Z := Z.land (Z.shiftr x 12) 0x1ff.

Definition PTE_MASK (x : Z) : Z := Z.land x PTE_ADDR_MASK.
Definition PAGE_EXISTS (x : Z) : bool := negb (Z.land x MM_READ =? 0).
Definition is_huge (x : Z) : bool := negb (Z.land x VMM_PS_BIT =? 0).

(** * State *)

(** The tables in memory and the results of the coming calls of
    [PMM::Request]. *)
Record pt_state : Type := Pt { tables : gmap Z (list Z); pt_pages : list Z }.

Record PageInfo : Type := Info { i_phys : Z; i_size : Z; i_flags : Z }.
Definition no_page : PageInfo := Info 0 0 0.

(** [table[i]] and [table[i] = v] *)
Definition table_get (s : pt_state) (t i : Z) : res Z :=
  match tables s !! t with
  | Some ws => get ws i
  | None => Fault
  end.

Definition table_set (s : pt_state) (t i v : Z) : res pt_state :=
  match tables s !! t with
  | Some ws => let* ws := put ws i v in Ok (Pt (<[t := ws]> (tables s)) (pt_pages s))
  | None => Fault
  end.

(** The result of [PMM::Request] is used without a test for NULL: without memory
    physical page 0 is cleared and linked as a table.  The theorems on mappings
    ask for enough pages; [Alloc_without_tables] of VmmClaims shows the other case. *)
Definition NewLevel (s : pt_state) (level entry : Z) : res (Z * pt_state) :=
  let '(pg, rest) := match pt_pages s with [] => (0, []) | pg :: rest => (pg, rest) end in
  let s := Pt (<[pg := replicate 512 0]> (tables s)) rest in
  let* s := table_set s level entry (Z.lor pg 7) in
  Ok (pg, s).

(** * Walking *)

Definition GetPageInfo (s : pt_state) (toplvl vaddr : Z) : res PageInfo :=
  let* pdpte_val := table_get s toplvl (PML4E vaddr) in
  if negb (PAGE_EXISTS pdpte_val) then Ok no_page
  else
    let* pde_val := table_get s (PTE_MASK pdpte_val) (PDPTE vaddr) in
    if negb (PAGE_EXISTS pde_val) then Ok no_page
    else if is_huge pde_val then Ok (Info (Z.land pde_val ADDR_1GB_MASK) PAGE_1GB (Z.land pde_val PTE_KEEP))
    else
      let* pte_val := table_get s (PTE_MASK pde_val) (PDE vaddr) in
      if negb (PAGE_EXISTS pte_val) then Ok no_page
      else if is_huge pte_val then Ok (Info (Z.land pte_val ADDR_2MB_MASK) PAGE_2MB (Z.land pte_val PTE_KEEP))
      else
        let* page_val := table_get s (PTE_MASK pte_val) (PTE vaddr) in
        if negb (PAGE_EXISTS page_val) then Ok no_page
        else Ok (Info (Z.land page_val PTE_ADDR_MASK) PAGE_SIZE (Z.land page_val PTE_KEEP)).

Definition GetPhysics (s : pt_state) (toplvl v : Z) : res Z :=
  let* info := GetPageInfo s toplvl v in Ok (i_phys info).

(** * Mapping *)

(** The table below entry [i] of [t], made when there is none. *)
Definition next_table (s : pt_state) (t i : Z) : res (Z * pt_state) :=
  let* e := table_get s t i in
  let* (e, s) := if negb (PAGE_EXISTS e) then NewLevel s t i else Ok (e, s) in
  Ok (PTE_MASK e, s).

Definition Map4K (s : pt_state) (toplvl vaddr paddr flags : Z) : res pt_state :=
  let* (pdpt, s) := next_table s toplvl (PML4E vaddr) in
  let* (pd, s) := next_table s pdpt (PDPTE vaddr) in
  let* (pt, s) := next_table s pd (PDE vaddr) in
  table_set s pt (PTE vaddr) (Z.lor (Z.land paddr PTE_ADDR_MASK) (Z.land flags PTE_KEEP)).

Definition Map2M (s : pt_state) (toplvl vaddr paddr flags : Z) : res pt_state :=
  let* (pdpt, s) := next_table s toplvl (PML4E vaddr) in
  let* (pd, s) := next_table s pdpt (PDPTE vaddr) in
  table_set s pd (PDE vaddr) (Z.lor (Z.lor (Z.land paddr ADDR_2MB_MASK) (Z.land flags PTE_KEEP)) VMM_PS_BIT).

Definition Map1G (s : pt_state) (toplvl vaddr paddr flags : Z) : res pt_state :=
  let* (pdpt, s) := next_table s toplvl (PML4E vaddr) in
  table_set s pdpt (PDPTE vaddr) (Z.lor (Z.lor (Z.land paddr ADDR_1GB_MASK) (Z.land flags PTE_KEEP)) VMM_PS_BIT).

(** Fuel: every round maps a page at least. *)
Definition MapRange (s : pt_state) (toplvl vaddr paddr flags count : Z) : res pt_state :=
  loop (S (Z.to_nat count)) (fun '(s, mapped) =>
    if mapped <? count then
      let cv := u64 (vaddr + u64 (mapped * PAGE_SIZE)) in
      let cp := u64 (paddr + u64 (mapped * PAGE_SIZE)) in
      let rem := count - mapped in
      if (Z.land cv (PAGE_1GB - 1) =? 0) && (Z.land cp (PAGE_1GB - 1) =? 0) && (262144 <=? rem) then
        let* s := Map1G s toplvl cv cp flags in Ok (inl (s, mapped + 262144))
      else if (Z.land cv (PAGE_2MB - 1) =? 0) && (Z.land cp (PAGE_2MB - 1) =? 0) && (512 <=? rem) then
        let* s := Map2M s toplvl cv cp flags in Ok (inl (s, mapped + 512))
      else
        let* s := Map4K s toplvl cv cp flags in Ok (inl (s, mapped + 1))
    else Ok (inr s)) (s, 0).

(** * Unmapping *)

Definition UnmapNoFlush (s : pt_state) (toplvl vaddr : Z) : res pt_state :=
  let* pdpte_val := table_get s toplvl (PML4E vaddr) in
  if negb (PAGE_EXISTS pdpte_val) then Ok s
  else
    let pdpt := PTE_MASK pdpte_val in
    let* pde_val := table_get s pdpt (PDPTE vaddr) in
    if negb (PAGE_EXISTS pde_val) then Ok s
    else if is_huge pde_val then table_set s pdpt (PDPTE vaddr) 0
    else
      let pd := PTE_MASK pde_val in
      let* pte_val := table_get s pd (PDE vaddr) in
      if negb (PAGE_EXISTS pte_val) then Ok s
      else if is_huge pte_val then table_set s pd (PDE vaddr) 0
      else table_set s (PTE_MASK pte_val) (PTE vaddr) 0.

(** * Releasing a range *)

(** What the release does, in order: an entry is cleared, a stale translation is
    noted for the other processors, they have all dropped the noted ones, a page
    goes back to the page allocator. *)
Inductive event : Type :=
| Unmapped (v : Z)
| Deferred (v : Z)
| Fence
| Freed (phys : Z).

Definition BATCH_MAX : Z := 256.

(** State of the loop: tables, pages waiting for the fence, what was done. *)
Record batch : Type := Batch { b_pt : pt_state; b_list : list Z; b_log : list event }.

Definition flush_batch (b : batch) : batch :=
  match b_list b with
  | [] => b
  | l => Batch (b_pt b) [] (b_log b ++ Fence :: (Freed <$> l))
  end.

(** [if (phys_n + 1 > BATCH_MAX) flush_batch(); phys_list[phys_n++] = phys;] *)
Definition batch_push (phys : Z) (b : batch) : batch :=
  let b := if BATCH_MAX <? Z.of_nat (length (b_list b)) + 1 then flush_batch b else b in
  Batch (b_pt b) (b_list b ++ [phys]) (b_log b).

Definition batch_unmap (toplvl v : Z) (b : batch) : res batch :=
  let* s := UnmapNoFlush (b_pt b) toplvl v in
  Ok (Batch s (b_list b) (b_log b ++ [Unmapped v])).

Definition batch_defer (v : Z) (b : batch) : batch := Batch (b_pt b) (b_list b) (b_log b ++ [Deferred v]).

(** Fuel: every round advances by a page at least.  A fence is one event of the
    log, after which no processor has a stale translation; [LazyTLB] in fact gives
    up waiting for the answers of the other processors after 100 ms. *)
Definition FreeOwnedRegion (s : pt_state) (toplvl start end_ : Z) : res (pt_state * list event) :=
  let* b := loop (S (Z.to_nat ((end_ - start) / PAGE_SIZE + 1))) (fun '(b, v) =>
    if v <? end_ then
      let* info := GetPageInfo (b_pt b) toplvl v in
      if i_size info =? 0 then Ok (inl (b, u64 (v + PAGE_SIZE)))
      else if i_size info =? PAGE_1GB then
        let* next := GetPageInfo (b_pt b) toplvl (u64 (v + PAGE_1GB)) in
        if (i_size next =? PAGE_1GB) && (i_phys next =? u64 (i_phys info + PAGE_1GB)) then
          let b := batch_push (i_phys info) b in
          let* b := batch_unmap toplvl v b in
          let* b := batch_unmap toplvl (u64 (v + PAGE_1GB)) b in
          Ok (inl (batch_defer (u64 (v + PAGE_1GB)) (batch_defer v b), u64 (v + PAGE_2GB)))
        else
          let* b := for_up 512 0 (fun j b => Ok (batch_push (u64 (i_phys info + j * PAGE_2MB)) b)) b in
          let* b := batch_unmap toplvl v b in
          Ok (inl (batch_defer v b, u64 (v + PAGE_1GB)))
      else if i_size info =? PAGE_2MB then
        let b := batch_push (i_phys info) b in
        let* b := batch_unmap toplvl v b in
        Ok (inl (batch_defer v b, u64 (v + PAGE_2MB)))
      else
        let b := batch_push (i_phys info) b in
        let* b := batch_unmap toplvl v b in
        Ok (inl (batch_defer v b, u64 (v + PAGE_SIZE)))
    else Ok (inr b)) (Batch s [] [], start) in
  let b := flush_batch b in
  Ok (b_pt b, b_log b).

(** The tables below [table], which is on the given level; the result is the
    list of pages given back, in order.  Every level looks at the first 256
    entries. *)
Fixpoint FreePageTablesInternal (s : pt_state) (table : Z) (level : nat) : res (list Z) :=
  for_up 256 0 (fun i freed =>
    let* entry := table_get s table i in
    if negb (PAGE_EXISTS entry) then Ok freed
    else if is_huge entry then Ok freed
    else
      let child := PTE_MASK entry in
      match level with
      | S (S _ as below) => let* sub := FreePageTablesInternal s child below in Ok (freed ++ sub ++ [child])
      | _ => Ok freed
      end) [].
