(* ===== verification/PageTabInv.v ===== *)
(** Page tables: the levels as one recursion, the invariant that a table belongs
    to one level and one part of the address space, and what writing an entry
    does to the translations. *)
From stdpp Require Import base gmap list fin_maps.
From Stdlib Require Import ZArith Lia.
From S2P Require Import Prelude PMM VMA PageTab.

Open Scope Z_scope.
Open Scope c_scope.

(** * Levels *)

(** Level 1 holds 4 KiB pages, 2 and 3 may hold huge pages, 4 is the top. *)
Definition sh (l : nat) : Z := 12 + 9 * (Z.of_nat l - 1).
Definition idx (l : nat) (v : Z) : Z := Z.land (Z.shiftr v (sh l)) 0x1ff.
Definition vkey (l : nat) (v : Z) : Z := (v / 2 ^ sh l) mod 2 ^ (9 * (5 - Z.of_nat l)).

Lemma idx_mod l v : (1 <= l)%nat -> idx l v = (v / 2 ^ sh l) mod 512.
Proof. intros Hl. unfold idx. change 0x1ff with (Z.ones 9). rewrite Z.land_ones, Z.shiftr_div_pow2 by (unfold sh; lia). reflexivity. Qed.

Lemma idx_bound l v : (1 <= l)%nat -> 0 <= idx l v < 512.
Proof. intros Hl. rewrite idx_mod by exact Hl. apply Z.mod_pos_bound. lia. Qed.

Lemma mod_split a m n : 0 < m -> 0 < n -> a mod (m * n) = m * ((a / m) mod n) + a mod m.
Proof. intros Hm Hn. rewrite Z.rem_mul_r by lia. lia. Qed.

Lemma vkey_down l v : (1 <= l <= 4)%nat -> vkey l v = vkey (S l) v * 512 + idx l v.
Proof.
  intros Hl. rewrite idx_mod by lia. unfold vkey. replace (9 * (5 - Z.of_nat l)) with (9 + 9 * (5 - Z.of_nat (S l))) by lia.
  rewrite Z.pow_add_r by lia. rewrite mod_split by (try apply Z.pow_pos_nonneg; lia). replace (sh (S l)) with (sh l + 9) by (unfold sh; lia).
  rewrite Z.pow_add_r, <- Z.div_div by (try apply Z.pow_pos_nonneg; try apply Z.pow_nonzero; unfold sh; lia). change (2 ^ 9) with 512. lia.
Qed.

Lemma vkey_top v : vkey 5 v = 0.
Proof. unfold vkey. apply Z.mod_1_r. Qed.

Lemma vkey_nonneg l v : (l <= 5)%nat -> 0 <= vkey l v.
Proof. intros Hl. unfold vkey. apply Z.mod_pos_bound, Z.pow_pos_nonneg; lia. Qed.

Lemma vkey_up l v w : (1 <= l <= 4)%nat -> vkey l v = vkey l w -> vkey (S l) v = vkey (S l) w /\ idx l v = idx l w.
Proof. intros Hl E. rewrite (vkey_down l v), (vkey_down l w) in E by exact Hl. pose proof (idx_bound l v ltac:(lia)). pose proof (idx_bound l w ltac:(lia)). lia. Qed.

(** An entry that is a page. *)
Definition leafy (l : nat) (e : Z) : bool :=
  match l with
  | 1%nat => true
  | 2%nat | 3%nat => is_huge e
  | _ => false
  end.

Definition page_mask (l : nat) : Z := match l with 1%nat => PTE_ADDR_MASK | 2%nat => ADDR_2MB_MASK | _ => ADDR_1GB_MASK end.
Definition page_bytes (l : nat) : Z := match l with 1%nat => PAGE_SIZE | 2%nat => PAGE_2MB | _ => PAGE_1GB end.
Definition leaf_info (l : nat) (e : Z) : PageInfo := Info (Z.land e (page_mask l)) (page_bytes l) (Z.land e PTE_KEEP).

(** The walk from table [t] on level [l]. *)
Fixpoint info_at (l : nat) (s : pt_state) (t v : Z) : res PageInfo :=
  match l with
  | O => Fault
  | S l' =>
      let* e := table_get s t (idx l v) in
      if negb (PAGE_EXISTS e) then Ok no_page
      else if leafy l e then Ok (leaf_info l e)
      else info_at l' s (PTE_MASK e) v
  end.

Lemma info_step l s t v : (1 <= l)%nat -> info_at l s t v =
  (let* e := table_get s t (idx l v) in if negb (PAGE_EXISTS e) then Ok no_page else if leafy l e then Ok (leaf_info l e) else info_at (pred l) s (PTE_MASK e) v).
Proof. destruct l; [lia|reflexivity]. Qed.

Lemma GetPageInfo_levels s top v : GetPageInfo s top v = info_at 4 s top v.
Proof. reflexivity. Qed.

(** * The invariant *)

(** [tags] gives a table its level and the part of the address space it covers,
    so no table hangs in two places. *)
Notation tag_map := (gmap Z (nat * Z)).

Definition table_ok (tags : tag_map) (l : nat) (k : Z) (ws : list Z) : Prop :=
  length ws = 512%nat /\ forall i e, ws !! i = Some e -> PAGE_EXISTS e = true -> leafy l e = false -> tags !! PTE_MASK e = Some (pred l, k * 512 + Z.of_nat i).

Record pt_ok (top : Z) (tags : tag_map) (s : pt_state) : Prop := {
  pt_top : tags !! top = Some (4%nat, 0);
  pt_tab : forall t l k, tags !! t = Some (l, k) -> (1 <= l <= 4)%nat /\ PTE_MASK t = t /\ exists ws, tables s !! t = Some ws /\ table_ok tags l k ws;
  pt_new : forall pg, pg ∈ pt_pages s -> pg <> 0 -> PTE_MASK pg = pg /\ tags !! pg = None;
  pt_distinct : NoDup (filter (fun pg => pg <> 0) (pt_pages s))
}.

(** The next [n] requests for pages succeed. *)
Definition plenty (n : nat) (s : pt_state) : Prop := (n <= length (pt_pages s))%nat /\ Forall (fun pg => pg <> 0) (take n (pt_pages s)).

Section Walk.
Context (top : Z) (tags : tag_map) (s : pt_state) (Hok : pt_ok top tags s).

Lemma tab_get t l k v : tags !! t = Some (l, k) -> exists ws e, tables s !! t = Some ws /\ table_ok tags l k ws /\ ws !! Z.to_nat (idx l v) = Some e /\ table_get s t (idx l v) = Ok e.
Proof.
  intros Ht. destruct (pt_tab _ _ _ Hok _ _ _ Ht) as (Hl & _ & ws & Hws & Hlen & Hch). pose proof (idx_bound l v ltac:(lia)) as Hi.
  destruct (lookup_lt_is_Some_2 ws (Z.to_nat (idx l v))) as [e He]; [lia|]. exists ws, e. split; [exact Hws|]. split; [split; assumption|]. split; [exact He|].
  unfold table_get, get. rewrite Hws, He. destruct (Z.ltb_spec (idx l v) 0); [lia|reflexivity].
Qed.

Lemma child_tag t l v e : tags !! t = Some (l, vkey (S l) v) -> table_get s t (idx l v) = Ok e -> PAGE_EXISTS e = true -> leafy l e = false ->
  tags !! PTE_MASK e = Some (pred l, vkey l v).
Proof.
  intros Ht He Hex Hlf. destruct (tab_get t l _ v Ht) as (ws & e' & Hws & [_ Hch] & Hi & Hg). rewrite Hg in He. injection He as ->. destruct (pt_tab _ _ _ Hok _ _ _ Ht) as (Hl & _).
  rewrite (Hch _ _ Hi Hex Hlf). pose proof (idx_bound l v ltac:(lia)). rewrite (vkey_down l v) by lia. do 2 f_equal. lia.
Qed.

(** Every walk ends. *)
Lemma info_total l t v : tags !! t = Some (l, vkey (S l) v) -> exists info, info_at l s t v = Ok info.
Proof.
  revert t. induction l as [|l IH]; intros t Ht; [destruct (pt_tab _ _ _ Hok _ _ _ Ht); lia|]. destruct (tab_get t _ _ v Ht) as (_ & e & _ & _ & _ & Hg). cbn [info_at]. rewrite Hg. cbn [bind].
  destruct (negb (PAGE_EXISTS e)) eqn:Ex; [eauto|]. destruct (leafy (S l) e) eqn:El; [eauto|]. apply IH. apply (child_tag t (S l) v e Ht Hg); [now apply negb_false_iff|exact El].
Qed.

(** [t] is the table on level [l] on the way to [v]. *)
Inductive on_path (v : Z) : nat -> Z -> Prop :=
| path_top : on_path v 4 top
| path_down l t e : on_path v (S l) t -> table_get s t (idx (S l) v) = Ok e -> PAGE_EXISTS e = true -> leafy (S l) e = false -> on_path v l (PTE_MASK e).

Lemma path_tag v l t : on_path v l t -> tags !! t = Some (l, vkey (S l) v).
Proof.
  induction 1 as [|l t e Hp IH He Hex Hlf]; [rewrite vkey_top; apply Hok|]. rewrite (child_tag t (S l) v e IH He Hex Hlf). reflexivity.
Qed.

Lemma path_level v l t : on_path v l t -> (1 <= l <= 4)%nat.
Proof. intros H. apply path_tag in H. now apply (pt_tab _ _ _ Hok) in H. Qed.

Lemma path_info v l t : on_path v l t -> info_at 4 s top v = info_at l s t v.
Proof.
  induction 1 as [|l t e Hp IH He Hex Hlf]; [reflexivity|]. rewrite IH. cbn [info_at]. rewrite He. cbn [bind]. rewrite Hex, Hlf. reflexivity.
Qed.

(** Addresses in the same part share the way down to it. *)
Lemma path_key v w l t : on_path v l t -> vkey (S l) v = vkey (S l) w -> on_path w l t.
Proof.
  induction 1 as [|l t e Hp IH He Hex Hlf]; intros E; [constructor|]. pose proof (path_level _ _ _ Hp) as Hl.
  destruct (vkey_up (S l) v w ltac:(lia) E) as [E1 E2]. econstructor; [apply IH; exact E1|rewrite <- E2; exact He|exact Hex|exact Hlf].
Qed.

Lemma path_unique v l t t' : on_path v l t -> on_path v l t' -> t = t'.
Proof.
  intros H. revert t'. induction H as [|l t e Hp IH He Hex Hlf]; intros t' H'; inversion H' as [|l2 t2 e2 Hp2 He2]; subst.
  - reflexivity.
  - pose proof (path_level _ _ _ Hp2). lia.
  - pose proof (path_level _ _ _ Hp). lia.
  - rewrite (IH _ Hp2) in He. congruence.
Qed.

Lemma walk_total v : exists info, GetPageInfo s top v = Ok info.
Proof. rewrite GetPageInfo_levels. apply info_total. rewrite vkey_top. apply Hok. Qed.
End Walk.

(** * Writing an entry *)

(** [s'] is [s] with entry [i] of [t] set to [e], and perhaps with one more table
    that is not in [tags]. *)
Record wrote (tags : tag_map) (s : pt_state) (t i e : Z) (s' : pt_state) : Prop := {
  w_at : forall ws, tables s !! t = Some ws -> tables s' !! t = Some (<[Z.to_nat i := e]> ws);
  w_other : forall t', t' <> t -> is_Some (tags !! t') -> tables s' !! t' = tables s !! t'
}.

Section Write.
Context (top : Z) (tags : tag_map) (s s' : pt_state) (Hok : pt_ok top tags s).
Context (v : Z) (l : nat) (t e : Z) (Hpath : on_path top s v l t) (Hw : wrote tags s t (idx l v) e s').

Lemma wrote_get w l' t' : on_path top s w l' t' -> table_get s' t' (idx l' w) = if decide (l' = l /\ vkey l w = vkey l v) then Ok e else table_get s t' (idx l' w).
Proof.
  intros Hp'. pose proof (path_tag _ _ _ Hok _ _ _ Hpath) as Ht. pose proof (path_level _ _ _ Hok _ _ _ Hpath) as Hl. pose proof (path_tag _ _ _ Hok _ _ _ Hp') as Ht'.
  destruct (tab_get _ _ _ Hok t' l' _ w Ht') as (ws & x & Hws & [Hlen _] & _).
  destruct (pt_tab _ _ _ Hok _ _ _ Ht') as (Hl' & _). pose proof (idx_bound l' w ltac:(lia)) as Hi. pose proof (idx_bound l v ltac:(lia)) as Hj.
  destruct (decide (t' = t)) as [->|Hne].
  - rewrite Ht in Ht'. injection Ht' as <- Ek. unfold table_get, get. rewrite (w_at _ _ _ _ _ _ Hw _ Hws), Hws. destruct (Z.ltb_spec (idx l w) 0); [lia|].
    destruct (decide (l = l /\ vkey l w = vkey l v)) as [[_ E]|Hn].
    + destruct (vkey_up l w v ltac:(lia) E) as [_ ->]. rewrite list_lookup_insert_eq by lia. reflexivity.
    + rewrite list_lookup_insert_ne; [reflexivity|]. intros E. apply Hn. split; [reflexivity|]. rewrite (vkey_down l v), (vkey_down l w) by lia. lia.
  - rewrite decide_False; [unfold table_get; rewrite (w_other _ _ _ _ _ _ Hw _ Hne) by eauto; reflexivity|]. intros [-> E]. destruct (vkey_up l w v ltac:(lia) E) as [E1 _].
    apply Hne. apply (path_unique _ _ _ Hok w l); [exact Hp'|]. now apply (path_key _ _ _ Hok v).
Qed.

(** The way down to the entry is unchanged. *)
Lemma wrote_path w l' t' : on_path top s w l' t' -> (l <= l')%nat -> on_path top s' w l' t'.
Proof.
  induction 1 as [|l' t' e' Hp IH He Hex Hlf]; intros Hle; [constructor|]. econstructor; [apply IH; lia| |exact Hex|exact Hlf].
  rewrite (wrote_get _ _ _ Hp), decide_False by lia. exact He.
Qed.

Lemma wrote_hit w : vkey l w = vkey l v -> info_at 4 s' top w = (if negb (PAGE_EXISTS e) then Ok no_page else if leafy l e then Ok (leaf_info l e) else info_at (pred l) s' (PTE_MASK e) w).
Proof.
  intros E. pose proof (path_level _ _ _ Hok _ _ _ Hpath) as Hl. destruct (vkey_up l w v ltac:(lia) E) as [E1 _].
  assert (Hp : on_path top s w l t) by (now apply (path_key _ _ _ Hok v)). rewrite (path_info _ _ _ _ _ (wrote_path _ _ _ Hp ltac:(lia))).
  rewrite info_step by lia. rewrite (wrote_get _ _ _ Hp), decide_True by auto. reflexivity.
Qed.

Lemma wrote_miss_at w l' t' : vkey l w <> vkey l v -> on_path top s w l' t' -> info_at l' s' t' w = info_at l' s t' w.
Proof.
  intros E. revert t'. induction l' as [|l' IH]; intros t' Hp; [reflexivity|]. cbn [info_at]. rewrite (wrote_get _ _ _ Hp), decide_False by tauto.
  destruct (table_get s t' (idx (S l') w)) as [x| |] eqn:Hx; [|reflexivity..]. cbn [bind]. destruct (negb (PAGE_EXISTS x)) eqn:Ex; [reflexivity|].
  destruct (leafy (S l') x) eqn:Elf; [reflexivity|]. apply IH. econstructor; [exact Hp|exact Hx|now apply negb_false_iff|exact Elf].
Qed.

Lemma wrote_miss w : vkey l w <> vkey l v -> info_at 4 s' top w = info_at 4 s top w.
Proof. intros E. apply wrote_miss_at; [exact E|constructor]. Qed.
End Write.
