(* ===== verification/PageTabMap.v ===== *)
(** Page tables: mapping and unmapping a page change its translation and no
    other. *)
From stdpp Require Import base gmap list fin_maps.
From Stdlib Require Import ZArith Lia.
From S2P Require Import Prelude PMM VMA PageTab PageTabInv.

Open Scope Z_scope.
Open Scope c_scope.

(** * Entries as words *)

Lemma land_lor_split a b m1 m2 m : Z.land (Z.lor (Z.land a m1) (Z.land b m2)) m = Z.lor (Z.land a (Z.land m1 m)) (Z.land b (Z.land m2 m)).
Proof. now rewrite Z.land_lor_distr_l, <- !Z.land_assoc. Qed.

Lemma exists_land a b : Z.land a MM_READ = Z.land b MM_READ -> PAGE_EXISTS a = PAGE_EXISTS b.
Proof. unfold PAGE_EXISTS. now intros ->. Qed.

Lemma new_entry pg : PTE_MASK pg = pg -> PTE_MASK (Z.lor pg 7) = pg /\ PAGE_EXISTS (Z.lor pg 7) = true /\ is_huge (Z.lor pg 7) = false.
Proof.
  unfold PTE_MASK. intros E. assert (H : forall m, Z.land (Z.lor pg 7) m = Z.lor (Z.land pg (Z.land PTE_ADDR_MASK m)) (Z.land 7 m)).
  { intros m. rewrite Z.land_lor_distr_l. f_equal. rewrite <- E at 1. now rewrite Z.land_assoc. }
  split; [rewrite H; change (Z.land PTE_ADDR_MASK PTE_ADDR_MASK) with PTE_ADDR_MASK; rewrite E; apply Z.lor_0_r|].
  split; [unfold PAGE_EXISTS|unfold is_huge]; rewrite H.
  - change (Z.land PTE_ADDR_MASK MM_READ) with 0. now rewrite Z.land_0_r.
  - change (Z.land PTE_ADDR_MASK VMM_PS_BIT) with 0. now rewrite Z.land_0_r.
Qed.

(** * One entry *)

Section Entry.
Context (top : Z) (tags : tag_map) (s : pt_state) (Hok : pt_ok top tags s).
Context (v : Z) (l : nat) (t : Z) (Hpath : on_path top s v l t).

Lemma table_ok_insert tg k ws i e : table_ok tg l k ws -> (i < 512)%nat -> (PAGE_EXISTS e = true -> leafy l e = false -> tg !! PTE_MASK e = Some (pred l, k * 512 + Z.of_nat i)) -> table_ok tg l k (<[i := e]> ws).
Proof.
  intros [Hlen Hch] Hi He. split; [now rewrite length_insert|]. intros j x Hx. destruct (decide (i = j)) as [<-|Hne].
  - rewrite list_lookup_insert_eq in Hx by lia. injection Hx as <-. exact He.
  - rewrite list_lookup_insert_ne in Hx by exact Hne. now apply Hch.
Qed.

Lemma set_ok e : (PAGE_EXISTS e = true -> leafy l e = false -> tags !! PTE_MASK e = Some (pred l, vkey l v)) ->
  wp (table_set s t (idx l v) e) (fun s' => pt_ok top tags s' /\ wrote tags s t (idx l v) e s' /\ pt_pages s' = pt_pages s).
Proof.
  intros He. pose proof (path_tag _ _ _ Hok _ _ _ Hpath) as Ht. pose proof (path_level _ _ _ Hok _ _ _ Hpath) as Hl. pose proof (idx_bound l v ltac:(lia)) as Hi.
  destruct (tab_get _ _ _ Hok t l _ v Ht) as (ws & _ & Hws & Htab & _). pose proof Htab as [Hlen _]. unfold table_set, put. rewrite Hws, Hlen.
  rewrite (proj2 (Z.leb_le _ _)), (proj2 (Z.ltb_lt _ _)) by lia. cbn [andb bind wp]. split; [|split; [|reflexivity]].
  - destruct Hok as [H1 H2 H3 H4]. split; auto. intros t' l' k' Ht'. destruct (H2 _ _ _ Ht') as (Hl' & Hm & ws' & Hws' & Htab'). split; [exact Hl'|]. split; [exact Hm|].
    destruct (decide (t = t')) as [<-|Hne]; [|exists ws'; cbn [tables]; rewrite lookup_insert_ne by exact Hne; auto].
    rewrite Ht in Ht'. injection Ht' as <- <-. eexists. cbn [tables]. rewrite lookup_insert_eq. split; [reflexivity|]. apply table_ok_insert; [exact Htab|lia|].
    intros Hx Hf. rewrite (He Hx Hf), (vkey_down l v) by lia. do 2 f_equal. lia.
  - split; cbn [tables]; [intros ws' E; rewrite Hws in E; injection E as <-; now rewrite lookup_insert_eq|]. intros t' Hne _. now rewrite lookup_insert_ne by auto.
Qed.

(** A new table below the entry. *)
Lemma NewLevel_ok : plenty 1 s -> (2 <= l)%nat ->
  wp (NewLevel s t (idx l v)) (fun '(pg, s') => exists tags', pt_ok top tags' s' /\ PTE_MASK pg = pg /\ wrote tags s t (idx l v) (Z.lor pg 7) s' /\
    tags' !! pg = Some (pred l, vkey l v) /\ tables s' !! pg = Some (replicate 512 0) /\ (forall n, plenty (S n) s -> plenty n s')).
Proof.
  intros [Hn Hnz] Hl2. pose proof (path_tag _ _ _ Hok _ _ _ Hpath) as Ht. pose proof (path_level _ _ _ Hok _ _ _ Hpath) as Hl. pose proof (idx_bound l v ltac:(lia)) as Hi.
  destruct (tab_get _ _ _ Hok t l _ v Ht) as (ws & _ & Hws & Htab & _). pose proof Htab as [Hlen _].
  unfold NewLevel. destruct (pt_pages s) as [|pg rest] eqn:Ep; [simpl in Hn; lia|]. simpl in Hnz. apply Forall_cons in Hnz as [Hpg _].
  destruct (pt_new _ _ _ Hok pg) as [Hm Hf]; [rewrite Ep; constructor|exact Hpg|]. assert (Hne : pg <> t) by (intros ->; congruence).
  destruct (new_entry pg Hm) as (N1 & N2 & N3). unfold table_set, put. cbn [tables]. rewrite lookup_insert_ne by exact Hne. rewrite Hws, Hlen.
  rewrite (proj2 (Z.leb_le _ _)), (proj2 (Z.ltb_lt _ _)) by lia. cbn [andb bind wp tables pt_pages]. set (tags' := <[pg := (pred l, vkey l v)]> tags).
  assert (Hsub : forall x y, tags !! x = Some y -> tags' !! x = Some y) by (intros x y Hx; unfold tags'; rewrite lookup_insert_ne; [exact Hx|]; intros <-; congruence).
  assert (Hmono : forall l' k' ws', table_ok tags l' k' ws' -> table_ok tags' l' k' ws') by (intros l' k' ws' [A B]; split; [exact A|]; intros i x H1 H2 H3; apply Hsub; eauto).
  exists tags'. split; [|split; [exact Hm|split; [|split; [apply lookup_insert_eq|split]]]].
  - pose proof Hok as [H1 H2 H3 H4]. split; cbn [tables pt_pages].
    + auto.
    + intros t' l' k' Ht'. unfold tags' in Ht'. destruct (decide (pg = t')) as [<-|Hne'].
      * rewrite lookup_insert_eq in Ht'. injection Ht' as <- <-. split; [lia|]. split; [exact Hm|]. exists (replicate 512 0). rewrite lookup_insert_ne, lookup_insert_eq by auto. split; [reflexivity|].
        split; [apply length_replicate|]. intros i x Hx. apply lookup_replicate in Hx as [-> _]. discriminate.
      * rewrite lookup_insert_ne in Ht' by exact Hne'. destruct (H2 _ _ _ Ht') as (Hl' & Hm' & ws' & Hws' & Htab'). split; [exact Hl'|]. split; [exact Hm'|].
        destruct (decide (t = t')) as [<-|Hne2].
        { rewrite Ht in Ht'. injection Ht' as <- <-. eexists. rewrite lookup_insert_eq. split; [reflexivity|]. apply table_ok_insert; [now apply Hmono|lia|].
          intros _ _. rewrite N1. unfold tags'. rewrite lookup_insert_eq, (vkey_down l v) by lia. do 2 f_equal. lia. }
        exists ws'. rewrite !lookup_insert_ne by auto. auto.
    + intros p Hp Hp0. destruct (H3 p) as [A B]; [rewrite Ep; now right|exact Hp0|]. split; [exact A|]. unfold tags'. rewrite lookup_insert_ne; [exact B|]. intros <-.
      rewrite Ep in H4. rewrite filter_cons_True in H4 by exact Hpg. apply NoDup_cons in H4 as [H4 _]. apply H4. apply list_elem_of_filter. auto.
    + rewrite Ep in H4. rewrite filter_cons_True in H4 by exact Hpg. now apply NoDup_cons in H4 as [_ H4].
  - split; cbn [tables]; [intros ws' E; rewrite Hws in E; injection E as <-; now rewrite lookup_insert_eq|]. intros t' Ht1 [y Hy]. rewrite lookup_insert_ne by auto. rewrite lookup_insert_ne; [reflexivity|]. intros <-. congruence.
  - rewrite lookup_insert_ne, lookup_insert_eq by auto. reflexivity.
  - intros n [P1 P2]. rewrite Ep in P1, P2. cbn in P1, P2 |- *. apply Forall_cons in P2 as [_ P2]. split; [cbn; lia|exact P2].
Qed.

(** Going one level down, making the table when there is none, changes no
    translation. *)
Lemma next_table_ok : plenty 1 s -> (2 <= l)%nat -> (forall e, table_get s t (idx l v) = Ok e -> PAGE_EXISTS e = true -> leafy l e = false) ->
  wp (next_table s t (idx l v)) (fun '(t', s') => exists tags', pt_ok top tags' s' /\ on_path top s' v (pred l) t' /\
    (forall w, info_at 4 s' top w = info_at 4 s top w) /\ forall n, plenty (S n) s -> plenty n s').
Proof.
  intros Hpl Hl2 Hnl. pose proof (path_tag _ _ _ Hok _ _ _ Hpath) as Ht. pose proof (path_level _ _ _ Hok _ _ _ Hpath) as Hl. unfold next_table.
  destruct (tab_get _ _ _ Hok t l _ v Ht) as (ws & e & _ & _ & _ & Hg). rewrite Hg. cbn [bind]. destruct (negb (PAGE_EXISTS e)) eqn:Ex.
  - assert (Hold : forall w, vkey l w = vkey l v -> info_at 4 s top w = Ok no_page).
    { intros w E. destruct (vkey_up l w v ltac:(lia) E) as [E1 E2]. rewrite (path_info top s w l t) by (now apply (path_key _ _ _ Hok v)). rewrite info_step by lia. rewrite E2, Hg. cbn [bind]. now rewrite Ex. }
    apply wp_bind. eapply wp_mono; [apply (NewLevel_ok Hpl Hl2)|]. intros [pg s'] (tags' & Hok' & Hm & Hwr & Htg & Hzero & Hpl'). cbn [wp].
    destruct (new_entry pg Hm) as (N1 & N2 & N3). exists tags'. split; [exact Hok'|]. rewrite Hm.
    assert (Hlf : leafy l (Z.lor pg 7) = false) by (unfold leafy; destruct l as [|[|[|[|?]]]]; auto; lia).
    assert (Hp' : on_path top s' v l t) by (apply (wrote_path top tags s s' Hok v l t _ Hpath Hwr); [exact Hpath|lia]).
    split; [|split; [|exact Hpl']].
    + rewrite <- N1. destruct l as [|l0]; [lia|]. cbn [pred]. apply (path_down top s' v l0 t); [exact Hp'| |exact N2|exact Hlf].
      rewrite (wrote_get top tags s s' Hok v (S l0) t _ Hpath Hwr v (S l0) t Hpath), decide_True by auto. reflexivity.
    + intros w. destruct (decide (vkey l w = vkey l v)) as [E|E]; [|apply (wrote_miss top tags s s' Hok v l t _ Hpath Hwr); exact E].
      rewrite (Hold w E), (wrote_hit top tags s s' Hok v l t _ Hpath Hwr w E), N2, Hlf, N1. cbn [negb]. rewrite info_step by lia. unfold table_get, get. rewrite Hzero.
      pose proof (idx_bound (pred l) w ltac:(lia)) as Hi. destruct (Z.ltb_spec (idx (pred l) w) 0); [lia|]. rewrite lookup_replicate_2 by lia. reflexivity.
  - apply negb_false_iff in Ex. cbn [bind wp]. exists tags. split; [exact Hok|]. split; [|split; [reflexivity|]].
    + destruct l as [|l0]; [lia|]. cbn [pred]. apply (path_down top s v l0 t); auto.
    + intros n [P1 P2]. split; [lia|]. apply (Forall_take _ n) in P2. rewrite take_take in P2. now replace (n `min` S n)%nat with n in P2 by lia.
Qed.

(** Writing a page, or clearing an entry, changes the translation of its part. *)
Lemma leaf_ok e : (PAGE_EXISTS e = true -> leafy l e = true) ->
  wp (table_set s t (idx l v) e) (fun s' => pt_ok top tags s' /\ pt_pages s' = pt_pages s /\
    forall w, info_at 4 s' top w = if decide (vkey l w = vkey l v) then Ok (if PAGE_EXISTS e then leaf_info l e else no_page) else info_at 4 s top w).
Proof.
  intros Hlf. eapply wp_mono; [apply (set_ok e)|]; [intros H1 H2; rewrite (Hlf H1) in H2; discriminate|]. intros s' (Hok' & Hwr & Hpg). split; [exact Hok'|]. split; [exact Hpg|].
  intros w. destruct (decide (vkey l w = vkey l v)) as [E|E]; [|now apply (wrote_miss top tags s s' Hok v l t _ Hpath Hwr)].
  rewrite (wrote_hit top tags s s' Hok v l t _ Hpath Hwr w E). destruct (PAGE_EXISTS e); cbn [negb]; [rewrite Hlf by reflexivity|]; reflexivity.
Qed.
End Entry.

(** * The operations *)

(** What a walk finds in the page that was mapped. *)
Definition mapping (l : nat) (p f : Z) : PageInfo :=
  Info (Z.land p (page_mask l)) (page_bytes l) (match l with 1%nat => Z.land f PTE_KEEP | _ => Z.lor (Z.land f PTE_KEEP) VMM_PS_BIT end).

Lemma mapping_4k p f : let e := Z.lor (Z.land p PTE_ADDR_MASK) (Z.land f PTE_KEEP) in PAGE_EXISTS e = PAGE_EXISTS f /\ leaf_info 1 e = mapping 1 p f.
Proof.
  cbv zeta. split; [apply exists_land|unfold leaf_info, mapping]; rewrite ?land_lor_split; cbn [page_mask page_bytes].
  - change (Z.land PTE_ADDR_MASK MM_READ) with 0. change (Z.land PTE_KEEP MM_READ) with MM_READ. now rewrite Z.land_0_r, Z.lor_0_l.
  - change (Z.land PTE_ADDR_MASK PTE_ADDR_MASK) with PTE_ADDR_MASK. change (Z.land PTE_KEEP PTE_ADDR_MASK) with 0. change (Z.land PTE_ADDR_MASK PTE_KEEP) with 0. change (Z.land PTE_KEEP PTE_KEEP) with PTE_KEEP.
    now rewrite !Z.land_0_r, Z.lor_0_l, Z.lor_0_r.
Qed.

Lemma mapping_huge l p f : l = 2%nat \/ l = 3%nat -> let e := Z.lor (Z.lor (Z.land p (page_mask l)) (Z.land f PTE_KEEP)) VMM_PS_BIT in
  PAGE_EXISTS e = PAGE_EXISTS f /\ leafy l e = true /\ leaf_info l e = mapping l p f.
Proof.
  intros Hl. cbv zeta. set (m := page_mask l). assert (M : Z.land m MM_READ = 0 /\ Z.land m VMM_PS_BIT = 0 /\ Z.land m m = m /\ Z.land PTE_KEEP m = 0 /\ Z.land m PTE_KEEP = 0 /\ Z.land VMM_PS_BIT m = 0) by (unfold m; destruct Hl as [->| ->]; repeat split; reflexivity).
  destruct M as (M1 & M2 & M3 & M4 & M5 & M6).
  assert (H : forall x, Z.land (Z.lor (Z.lor (Z.land p m) (Z.land f PTE_KEEP)) VMM_PS_BIT) x = Z.lor (Z.lor (Z.land p (Z.land m x)) (Z.land f (Z.land PTE_KEEP x))) (Z.land VMM_PS_BIT x)) by (intros x; now rewrite Z.land_lor_distr_l, land_lor_split).
  split; [apply exists_land; rewrite H, M1; change (Z.land PTE_KEEP MM_READ) with MM_READ; change (Z.land VMM_PS_BIT MM_READ) with 0; now rewrite Z.land_0_r, Z.lor_0_l, Z.lor_0_r|].
  split.
  - assert (Hh : is_huge (Z.lor (Z.lor (Z.land p m) (Z.land f PTE_KEEP)) VMM_PS_BIT) = true); [|destruct Hl as [->| ->]; exact Hh].
    unfold is_huge. rewrite H, M2. change (Z.land VMM_PS_BIT VMM_PS_BIT) with VMM_PS_BIT. apply negb_true_iff, Z.eqb_neq. intros E. apply Z.lor_eq_0_iff in E as [_ E]. discriminate.
  - unfold leaf_info, mapping. fold m. rewrite !H, M3, M4, M5, M6. change (Z.land PTE_KEEP PTE_KEEP) with PTE_KEEP. change (Z.land VMM_PS_BIT PTE_KEEP) with VMM_PS_BIT.
    rewrite !Z.land_0_r, !Z.lor_0_r, Z.lor_0_l. now destruct Hl as [->| ->].
Qed.

(** No page larger than those of level [l] covers [v]. *)
Definition clear_to (l : nat) (s : pt_state) (top v : Z) : Prop := exists i, info_at 4 s top v = Ok i /\ i_size i <= page_bytes l.

Lemma bytes_lt l l' : (1 <= l < l')%nat -> (l' <= 3)%nat -> page_bytes l < page_bytes l'.
Proof. intros H1 H2. destruct l as [|[|[|l]]], l' as [|[|[|[|l']]]]; try lia; reflexivity. Qed.

Lemma clear_not_leafy top s v l l' t e : clear_to l s top v -> on_path top s v l' t -> (1 <= l < l')%nat -> (l' <= 4)%nat -> table_get s t (idx l' v) = Ok e -> PAGE_EXISTS e = true -> leafy l' e = false.
Proof.
  intros (i & Hi & Hsz) Hp H1 H4 He Hex. destruct (leafy l' e) eqn:El; [exfalso|reflexivity]. rewrite (path_info top s v l' t Hp), info_step, He in Hi by lia. cbn [bind] in Hi. rewrite Hex, El in Hi. cbn [negb] in Hi.
  injection Hi as <-. assert (l' <= 3)%nat by (destruct l' as [|[|[|[|l']]]]; try lia; discriminate El). pose proof (bytes_lt l l' H1 ltac:(lia)). cbn [i_size leaf_info] in Hsz. lia.
Qed.

(** From the top down to level [l]. *)
Lemma next_table_down top tags s v l l' t n : pt_ok top tags s -> on_path top s v l' t -> clear_to l s top v -> (1 <= l < l')%nat -> plenty (S n) s ->
  wp (next_table s t (idx l' v)) (fun '(t', s') => exists tags', pt_ok top tags' s' /\ on_path top s' v (pred l') t' /\ clear_to l s' top v /\
    (forall w, info_at 4 s' top w = info_at 4 s top w) /\ plenty n s').
Proof.
  intros Hok Hp Hc Hl Hpl. pose proof (path_level _ _ _ Hok _ _ _ Hp) as Hl'. eapply wp_mono; [apply (next_table_ok top tags s Hok v l' t Hp)|].
  - destruct Hpl as [P1 P2]. split; [lia|]. apply (Forall_take _ 1) in P2. now rewrite take_take in P2.
  - lia.
  - intros e He Hex. apply (clear_not_leafy top s v l l' t e Hc Hp); auto; lia.
  - intros [t' s'] (tags' & Hok' & Hp' & Hinf & Hpl'). exists tags'. split; [exact Hok'|]. split; [exact Hp'|]. split; [destruct Hc as (i & Hi & Hsz); exists i; rewrite Hinf; auto|]. auto.
Qed.

Definition mapped_as (top : Z) (s : pt_state) (l : nat) (v p f : Z) (s' : pt_state) : Prop :=
  forall w, GetPageInfo s' top w = if decide (vkey l w = vkey l v) then Ok (if PAGE_EXISTS f then mapping l p f else no_page) else GetPageInfo s top w.

Lemma Map4K_ok top tags s v p f n : pt_ok top tags s -> clear_to 1 s top v -> plenty (3 + n) s ->
  wp (Map4K s top v p f) (fun s' => exists tags', pt_ok top tags' s' /\ plenty n s' /\ mapped_as top s 1 v p f s').
Proof.
  intros Hok Hc Hpl. unfold Map4K. change (PML4E v) with (idx 4 v). change (PDPTE v) with (idx 3 v). change (PDE v) with (idx 2 v). change (PTE v) with (idx 1 v).
  apply wp_bind. eapply wp_mono; [apply (next_table_down top tags s v 1 4 top (2 + n)); auto using path_top; lia|]. intros [t3 s3] (tags3 & Hok3 & Hp3 & Hc3 & Hi3 & Hpl3).
  apply wp_bind. eapply wp_mono; [apply (next_table_down top tags3 s3 v 1 3 t3 (1 + n)); auto; lia|]. intros [t2 s2] (tags2 & Hok2 & Hp2 & Hc2 & Hi2 & Hpl2).
  apply wp_bind. eapply wp_mono; [apply (next_table_down top tags2 s2 v 1 2 t2 n); auto; lia|]. intros [t1 s1] (tags1 & Hok1 & Hp1 & _ & Hi1 & Hpl1).
  destruct (mapping_4k p f) as [Hex Hlf]. eapply wp_mono; [apply (leaf_ok top tags1 s1 Hok1 v 1 t1 Hp1); reflexivity|]. intros s' (Hok' & Hpg & Hw). exists tags1. split; [exact Hok'|].
  split; [unfold plenty in *; now rewrite Hpg|]. intros w. rewrite !GetPageInfo_levels, Hw, Hex, Hlf, Hi1, Hi2, Hi3. reflexivity.
Qed.

Lemma Map2M_ok top tags s v p f n : pt_ok top tags s -> clear_to 2 s top v -> plenty (2 + n) s ->
  wp (Map2M s top v p f) (fun s' => exists tags', pt_ok top tags' s' /\ plenty n s' /\ mapped_as top s 2 v p f s').
Proof.
  intros Hok Hc Hpl. unfold Map2M. change (PML4E v) with (idx 4 v). change (PDPTE v) with (idx 3 v). change (PDE v) with (idx 2 v).
  apply wp_bind. eapply wp_mono; [apply (next_table_down top tags s v 2 4 top (1 + n)); auto using path_top; lia|]. intros [t3 s3] (tags3 & Hok3 & Hp3 & Hc3 & Hi3 & Hpl3).
  apply wp_bind. eapply wp_mono; [apply (next_table_down top tags3 s3 v 2 3 t3 n); auto; lia|]. intros [t2 s2] (tags2 & Hok2 & Hp2 & _ & Hi2 & Hpl2).
  destruct (mapping_huge 2 p f ltac:(auto)) as (Hex & Hlf & Hinf). eapply wp_mono; [apply (leaf_ok top tags2 s2 Hok2 v 2 t2 Hp2); auto|]. intros s' (Hok' & Hpg & Hw). exists tags2. split; [exact Hok'|].
  split; [unfold plenty in *; now rewrite Hpg|]. intros w. cbn [page_mask] in *. rewrite !GetPageInfo_levels, Hw, Hex, Hinf, Hi2, Hi3. reflexivity.
Qed.

Lemma Map1G_ok top tags s v p f n : pt_ok top tags s -> plenty (1 + n) s ->
  wp (Map1G s top v p f) (fun s' => exists tags', pt_ok top tags' s' /\ plenty n s' /\ mapped_as top s 3 v p f s').
Proof.
  intros Hok Hpl. unfold Map1G. change (PML4E v) with (idx 4 v). change (PDPTE v) with (idx 3 v).
  apply wp_bind. eapply wp_mono; [apply (next_table_ok top tags s Hok v 4 top (path_top _ _ _)); [|lia|reflexivity]|].
  { destruct Hpl as [P1 P2]. split; [lia|]. apply (Forall_take _ 1) in P2. now rewrite take_take in P2. }
  intros [t3 s3] (tags3 & Hok3 & Hp3 & Hi3 & Hpl3). destruct (mapping_huge 3 p f ltac:(auto)) as (Hex & Hlf & Hinf).
  eapply wp_mono; [apply (leaf_ok top tags3 s3 Hok3 v 3 t3 Hp3); auto|]. intros s' (Hok' & Hpg & Hw). exists tags3. split; [exact Hok'|].
  split; [apply Hpl3 in Hpl; unfold plenty in *; now rewrite Hpg|]. intros w. cbn [page_mask] in *. rewrite !GetPageInfo_levels, Hw, Hex, Hinf, Hi3. reflexivity.
Qed.

(** The level of a page by its size. *)
Definition level_of (size : Z) : nat := if size =? PAGE_1GB then 3 else if size =? PAGE_2MB then 2 else 1.

Definition unmapped_at (top : Z) (s : pt_state) (i : PageInfo) (v : Z) (s' : pt_state) : Prop :=
  forall w, GetPageInfo s' top w = if decide (i_size i <> 0 /\ vkey (level_of (i_size i)) w = vkey (level_of (i_size i)) v) then Ok no_page else GetPageInfo s top w.

Lemma clear_ok top tags s v l t e : pt_ok top tags s -> on_path top s v l t -> table_get s t (idx l v) = Ok e -> PAGE_EXISTS e = true -> leafy l e = true ->
  wp (table_set s t (idx l v) 0) (fun s' => pt_ok top tags s' /\ pt_pages s' = pt_pages s /\ unmapped_at top s (leaf_info l e) v s') /\ GetPageInfo s top v = Ok (leaf_info l e).
Proof.
  intros Hok Hp He Hex Hlf. pose proof (path_level _ _ _ Hok _ _ _ Hp) as Hl. split.
  - eapply wp_mono; [apply (leaf_ok top tags s Hok v l t Hp); discriminate|]. intros s' (Hok' & Hpg & Hw). split; [exact Hok'|]. split; [exact Hpg|]. intros w. rewrite !GetPageInfo_levels, Hw. cbn [leaf_info i_size].
    assert (E : page_bytes l <> 0 /\ level_of (page_bytes l) = l) by (destruct l as [|[|[|[|l]]]]; try lia; try discriminate Hlf; split; [discriminate|reflexivity|discriminate|reflexivity|discriminate|reflexivity]).
    destruct E as [E1 E2]. rewrite E2. destruct (decide (vkey l w = vkey l v)); [rewrite decide_True by auto; reflexivity|rewrite decide_False by tauto; reflexivity].
  - rewrite GetPageInfo_levels, (path_info top s v l t Hp), info_step, He by lia. cbn [bind]. now rewrite Hex, Hlf.
Qed.

Lemma unmapped_none top s v : unmapped_at top s no_page v s.
Proof. intros w. rewrite decide_False by (cbn; lia). reflexivity. Qed.

Lemma UnmapNoFlush_ok top tags s v : pt_ok top tags s ->
  exists i, GetPageInfo s top v = Ok i /\ wp (UnmapNoFlush s top v) (fun s' => pt_ok top tags s' /\ pt_pages s' = pt_pages s /\ unmapped_at top s i v s').
Proof.
  intros Hok. unfold UnmapNoFlush. change (PML4E v) with (idx 4 v). change (PDPTE v) with (idx 3 v). change (PDE v) with (idx 2 v). change (PTE v) with (idx 1 v).
  assert (Hnone : forall l t e, on_path top s v l t -> table_get s t (idx l v) = Ok e -> negb (PAGE_EXISTS e) = true -> GetPageInfo s top v = Ok no_page).
  { intros l t e Hp He Hex. pose proof (path_level _ _ _ Hok _ _ _ Hp) as Hl. rewrite GetPageInfo_levels, (path_info top s v l t Hp), info_step, He by lia. cbn [bind]. now rewrite Hex. }
  assert (Hstay : wp (Ok s) (fun s' => pt_ok top tags s' /\ pt_pages s' = pt_pages s /\ unmapped_at top s no_page v s')) by (cbn; auto using unmapped_none).
  pose proof (path_top top s v) as P4. destruct (tab_get _ _ _ Hok _ _ _ v (path_tag _ _ _ Hok _ _ _ P4)) as (_ & e4 & _ & _ & _ & G4). rewrite G4. cbn [bind].
  destruct (negb (PAGE_EXISTS e4)) eqn:X4; [exists no_page; eauto|]. pose proof (path_down top s v 3 top e4 P4 G4 (proj1 (negb_false_iff _) X4) eq_refl) as P3.
  destruct (tab_get _ _ _ Hok _ _ _ v (path_tag _ _ _ Hok _ _ _ P3)) as (_ & e3 & _ & _ & _ & G3). rewrite G3. cbn [bind].
  destruct (negb (PAGE_EXISTS e3)) eqn:X3; [exists no_page; eauto|]. destruct (is_huge e3) eqn:H3; [destruct (clear_ok top tags s v 3 _ e3 Hok P3 G3 (proj1 (negb_false_iff _) X3) H3); eauto|].
  pose proof (path_down top s v 2 _ e3 P3 G3 (proj1 (negb_false_iff _) X3) H3) as P2.
  destruct (tab_get _ _ _ Hok _ _ _ v (path_tag _ _ _ Hok _ _ _ P2)) as (_ & e2 & _ & _ & _ & G2). rewrite G2. cbn [bind].
  destruct (negb (PAGE_EXISTS e2)) eqn:X2; [exists no_page; eauto|]. destruct (is_huge e2) eqn:H2; [destruct (clear_ok top tags s v 2 _ e2 Hok P2 G2 (proj1 (negb_false_iff _) X2) H2); eauto|].
  pose proof (path_down top s v 1 _ e2 P2 G2 (proj1 (negb_false_iff _) X2) H2) as P1.
  destruct (tab_get _ _ _ Hok _ _ _ v (path_tag _ _ _ Hok _ _ _ P1)) as (_ & e1 & _ & _ & _ & G1).
  destruct (negb (PAGE_EXISTS e1)) eqn:X1; [|destruct (clear_ok top tags s v 1 _ e1 Hok P1 G1 (proj1 (negb_false_iff _) X1) eq_refl); eauto].
  exists no_page. split; [eauto|]. eapply wp_mono; [apply (leaf_ok top tags s Hok v 1 _ P1); discriminate|]. intros s' (Hok' & Hpg & Hw). split; [exact Hok'|]. split; [exact Hpg|].
  intros w. rewrite decide_False by (cbn; lia). rewrite !GetPageInfo_levels, Hw. destruct (decide (vkey 1 w = vkey 1 v)) as [E|]; [|reflexivity].
  destruct (vkey_up 1 w v ltac:(lia) E) as [E1 E2]. rewrite (GetPageInfo_levels s), (path_info top s w 1 _ (path_key _ _ _ Hok _ _ _ _ P1 (eq_sym E1))), info_step, E2, G1 by lia. cbn [bind]. now rewrite X1.
Qed.
