(* ===== verification/PageTabRange.v ===== *)
(** Page tables: ranges.  Mapping a range with pages of all sizes, and releasing
    one. *)
From stdpp Require Import base gmap list fin_maps.
From Stdlib Require Import ZArith Lia.
From S2P Require Import Prelude PMM VMA PageTab PageTabInv PageTabMap.

Open Scope Z_scope.
Open Scope c_scope.

(** * Pages as ranges of addresses *)

Lemma page_bytes_sh l : (1 <= l <= 3)%nat -> page_bytes l = 2 ^ sh l.
Proof. intros H. destruct l as [|[|[|[|l]]]]; try lia; reflexivity. Qed.

Lemma vkey_mod l v : (1 <= l <= 4)%nat -> vkey l v = (v mod 2 ^ 48) / 2 ^ sh l.
Proof.
  intros Hl. unfold vkey. replace (2 ^ 48) with (2 ^ sh l * 2 ^ (9 * (5 - Z.of_nat l))) by (rewrite <- Z.pow_add_r by (unfold sh; lia); f_equal; unfold sh; lia).
  rewrite mod_split by (apply Z.pow_pos_nonneg; unfold sh; lia). rewrite (Z.mul_comm (2 ^ sh l)), Z.div_add_l by (apply Z.pow_nonzero; unfold sh; lia). rewrite (Z.div_small (v mod _)); [lia|]. apply Z.mod_pos_bound, Z.pow_pos_nonneg; unfold sh; lia.
Qed.

(** The distance from [v] to [w] in the 48-bit address space. *)
Definition dist (v w : Z) : Z := (w - v) mod 2 ^ 48.

Lemma dist_bound v w : 0 <= dist v w < 2 ^ 48.
Proof. apply Z.mod_pos_bound. lia. Qed.

(** The addresses in the page of level [l] at [v]. *)
Lemma same_page l v w : (1 <= l <= 3)%nat -> v mod page_bytes l = 0 -> vkey l w = vkey l v <-> dist v w < page_bytes l.
Proof.
  intros Hl Hv. rewrite !vkey_mod by lia. rewrite page_bytes_sh in * by exact Hl. set (b := 2 ^ sh l) in *.
  assert (Hb : exists c, 0 < c /\ 0 < b /\ 2 ^ 48 = b * c) by (exists (2 ^ (48 - sh l)); unfold b; split; [apply Z.pow_pos_nonneg; unfold sh; lia|]; split; [apply Z.pow_pos_nonneg; unfold sh; lia|]; rewrite <- Z.pow_add_r by (unfold sh; lia); f_equal; lia).
  destruct Hb as (c & Hc & Hb0 & Eb). unfold dist. rewrite Eb. clearbody b. clear Hl. rewrite !mod_split by lia. rewrite Hv, Z.add_0_r.
  apply Z.mod_divide in Hv as [q ->]; [|lia]. replace (w - q * b) with (w + - q * b) by lia. rewrite Z.div_add, Z.mod_add, Z.div_mul by lia.
  rewrite (Z.mul_comm b ((w / b) mod c)), (Z.mul_comm b (q mod c)), Z.div_add_l, Z.div_mul by lia. rewrite (Z.div_small (w mod b)) by (apply Z.mod_pos_bound; lia). rewrite Z.add_0_r.
  pose proof (Z.mod_pos_bound w b Hb0) as Hw. pose proof (Z.mod_pos_bound (w / b + - q) c Hc) as Hd. split.
  - intros E. assert (H0 : (w / b + - q) mod c = 0) by (rewrite Z.add_opp_r, Zminus_mod, E, Z.sub_diag; apply Z.mod_0_l; lia). rewrite H0. lia.
  - intros H. assert (H0 : (w / b + - q) mod c = 0) by nia. replace (w / b) with (w / b + - q + q) by lia. rewrite Z.add_mod, H0, Z.add_0_l, Z.mod_mod by lia. reflexivity.
Qed.

(** The part of an address inside its page. *)
Lemma dist_page l v w : (1 <= l <= 3)%nat -> v mod page_bytes l = 0 -> dist v w < page_bytes l -> w mod page_bytes l = dist v w.
Proof.
  intros Hl Hv Hd. rewrite page_bytes_sh in * by exact Hl. set (b := 2 ^ sh l) in *. pose proof (dist_bound v w) as Hb. unfold dist in *.
  assert (Eb : exists c, 0 < b /\ 2 ^ 48 = b * c) by (exists (2 ^ (48 - sh l)); unfold b; split; [apply Z.pow_pos_nonneg; unfold sh; lia|]; rewrite <- Z.pow_add_r by (unfold sh; lia); f_equal; lia).
  destruct Eb as (c & Hb0 & Ec). rewrite Ec in *. clearbody b. rewrite <- (Z.mod_small ((w - v) mod (b * c)) b) by lia.
  rewrite Z.mod_mod_divide by (exists c; lia). apply Z.mod_divide in Hv as [q ->]; [|lia]. replace (w - q * b) with (w + - q * b) by lia. now rewrite Z.mod_add by lia.
Qed.

Lemma aligned_mask l p : (1 <= l <= 3)%nat -> 0 <= p < 2 ^ 52 -> p mod page_bytes l = 0 -> Z.land p (page_mask l) = p.
Proof.
  intros Hl Hp Ha. assert (Em : page_mask l = Z.shiftl (Z.ones (52 - sh l)) (sh l)) by (destruct l as [|[|[|[|l]]]]; try lia; reflexivity).
  rewrite page_bytes_sh in Ha by exact Hl. apply Z.mod_divide in Ha as [q ->]; [|apply Z.pow_nonzero; unfold sh; lia]. rewrite Em, <- Z.shiftl_mul_pow2, <- Z.shiftl_land by (unfold sh; lia). f_equal.
  rewrite Z.land_ones by (unfold sh; lia). apply Z.mod_small. assert (Hs : 0 < 2 ^ sh l) by (apply Z.pow_pos_nonneg; unfold sh; lia).
  replace (2 ^ 52) with (2 ^ (52 - sh l) * 2 ^ sh l) in Hp by (rewrite <- Z.pow_add_r by (unfold sh; lia); f_equal; lia). nia.
Qed.

Lemma plenty_le m n s : plenty m s -> (n <= m)%nat -> plenty n s.
Proof. intros [H1 H2] Hle. split; [lia|]. apply (Forall_take _ n) in H2. rewrite take_take in H2. now replace (n `min` m)%nat with n in H2 by lia. Qed.

(** * Translations *)

(** [w] goes to physical address [p] with flags [f], whatever the size of the
    page; the bit that marks a huge page is left out. *)
Definition translates (s : pt_state) (top w p f : Z) : Prop :=
  exists i, GetPageInfo s top w = Ok i /\ i_size i <> 0 /\ i_phys i + w mod i_size i = p /\ Z.lor (i_flags i) VMM_PS_BIT = Z.lor (Z.land f PTE_KEEP) VMM_PS_BIT.

Lemma mapping_translates s' top l v p f s w : mapped_as top s l v p f s' -> (1 <= l <= 3)%nat -> v mod page_bytes l = 0 -> p mod page_bytes l = 0 -> 0 <= p < 2 ^ 52 -> PAGE_EXISTS f = true ->
  (dist v w < page_bytes l -> translates s' top w (p + dist v w) f) /\ (page_bytes l <= dist v w -> GetPageInfo s' top w = GetPageInfo s top w).
Proof.
  intros Hm Hl Hv Hp Hpb Hf. specialize (Hm w). pose proof (same_page l v w Hl Hv) as Hs. split; intros Hd.
  - rewrite decide_True, Hf in Hm by tauto. exists (mapping l p f). split; [exact Hm|]. unfold mapping. cbn [i_size i_phys i_flags].
    split; [rewrite page_bytes_sh by exact Hl; apply Z.pow_nonzero; unfold sh; lia|]. split; [rewrite (aligned_mask l p Hl Hpb Hp), (dist_page l v w Hl Hv Hd); reflexivity|].
    destruct l as [|[|l]]; [lia|reflexivity|]. now rewrite <- Z.lor_assoc, Z.lor_diag.
  - rewrite decide_False in Hm by lia. exact Hm.
Qed.

(** * MapRange *)

Section Range.
Context (top : Z) (s0 : pt_state) (vaddr paddr flags count : Z).
Context (Hv : vaddr mod 4096 = 0) (Hp : paddr mod 4096 = 0) (Hp0 : 0 <= paddr) (Hpb : paddr + count * 4096 <= 2 ^ 52).
Context (Hc : 0 <= count) (Hcb : count * 4096 <= 2 ^ 48) (Hf : PAGE_EXISTS flags = true).
Context (Hfree : forall w, dist vaddr w < count * 4096 -> GetPageInfo s0 top w = Ok no_page).

Definition range_inv (x : pt_state * Z) : Prop :=
  let '(s, k) := x in
  0 <= k <= count /\ (exists tags, pt_ok top tags s) /\ plenty (Z.to_nat (3 * (count - k))) s /\
  forall w, (dist vaddr w < k * 4096 -> translates s top w (paddr + dist vaddr w) flags) /\ (k * 4096 <= dist vaddr w -> GetPageInfo s top w = GetPageInfo s0 top w).

(** Where the next page of level [l] goes. *)
Lemma next_page l k w : (1 <= l <= 3)%nat -> 0 <= k -> k * 4096 + page_bytes l <= count * 4096 ->
  let cv := u64 (vaddr + u64 (k * 4096)) in
  (k * 4096 <= dist vaddr w < k * 4096 + page_bytes l -> dist cv w = dist vaddr w - k * 4096) /\
  (~ (k * 4096 <= dist vaddr w < k * 4096 + page_bytes l) -> page_bytes l <= dist cv w).
Proof.
  intros Hl Hk Hb cv. assert (Epos : 0 < page_bytes l) by (destruct l as [|[|[|[|l]]]]; try lia; reflexivity).
  assert (Ed : dist cv w = (dist vaddr w - k * 4096) mod 2 ^ 48).
  { unfold dist, cv, u64. rewrite Zplus_mod_idemp_r. rewrite Zminus_mod_idemp_l. rewrite <- (Zminus_mod_idemp_r w). rewrite Z.mod_mod_divide by (exists (2 ^ 16); reflexivity). rewrite Zminus_mod_idemp_r. f_equal. lia. }
  pose proof (dist_bound vaddr w) as Hd. rewrite Ed. split.
  - intros H. apply Z.mod_small. lia.
  - intros H. destruct (Z.lt_ge_cases (dist vaddr w) (k * 4096)).
    + rewrite <- (Z.mod_add _ 1) by lia. rewrite Z.mod_small by lia. lia.
    + rewrite Z.mod_small by lia. lia.
Qed.

Lemma range_step l k s s' : (1 <= l <= 3)%nat -> range_inv (s, k) -> k * 4096 + page_bytes l <= count * 4096 -> let cv := u64 (vaddr + u64 (k * 4096)) in let cp := u64 (paddr + u64 (k * 4096)) in
  cv mod page_bytes l = 0 -> cp mod page_bytes l = 0 -> (exists tags', pt_ok top tags' s' /\ plenty (Z.to_nat (3 * (count - k)) - 3) s' /\ mapped_as top s l cv cp flags s') ->
  range_inv (s', k + page_bytes l / 4096) /\ k < k + page_bytes l / 4096.
Proof.
  intros Hl (Hk & _ & Hpl & Hw) Hb cv cp Hcv Hcp (tags' & Hok' & Hpl' & Hm). assert (Eb : page_bytes l = page_bytes l / 4096 * 4096 /\ 1 <= page_bytes l / 4096) by (destruct l as [|[|[|[|l]]]]; try lia; split; [reflexivity|discriminate|reflexivity|discriminate|reflexivity|discriminate]).
  destruct Eb as [Eb E1]. assert (Ecp : cp = paddr + k * 4096) by (unfold cp, u64; rewrite Zplus_mod_idemp_r; apply Z.mod_small; lia).
  split; [|lia]. split; [lia|]. split; [eauto|]. split; [eapply plenty_le; [exact Hpl'|lia]|]. intros w. specialize (Hw w). destruct Hw as [Hw1 Hw2].
  destruct (next_page l k w Hl ltac:(lia) Hb) as [N1 N2]. fold cv in N1, N2. destruct (mapping_translates s' top l cv cp flags s w Hm Hl Hcv Hcp ltac:(lia) Hf) as [M1 M2]. pose proof (dist_bound vaddr w) as Hd. split; intros H.
  - destruct (Z.lt_ge_cases (dist vaddr w) (k * 4096)) as [Hlt|Hge].
    + destruct (Hw1 Hlt) as (i & Hi & Hr). exists i. rewrite M2 by (apply N2; lia). auto.
    + assert (Hin : k * 4096 <= dist vaddr w < k * 4096 + page_bytes l) by lia. specialize (N1 Hin). replace (paddr + dist vaddr w) with (cp + dist cv w) by lia. apply M1. lia.
  - rewrite M2 by (apply N2; lia). apply Hw2. lia.
Qed.

Lemma clear_here l k s : range_inv (s, k) -> k < count -> (1 <= l)%nat -> clear_to l s top (u64 (vaddr + u64 (k * 4096))).
Proof.
  intros (Hk & _ & _ & Hw) Hlt Hl. set (cv := u64 _). assert (Ed : dist vaddr cv = k * 4096).
  { unfold dist, cv, u64. rewrite Zplus_mod_idemp_r, <- Zminus_mod_idemp_l, Z.mod_mod_divide by (exists (2 ^ 16); reflexivity). rewrite Zminus_mod_idemp_l. replace (vaddr + k * 4096 - vaddr) with (k * 4096) by lia. apply Z.mod_small. lia. }
  destruct (Hw cv) as [_ H2]. exists no_page. split; [change (GetPageInfo s top cv = Ok no_page); rewrite H2 by lia; apply Hfree; lia|]. unfold page_bytes. destruct l as [|[|[|l]]]; cbn; unfold PAGE_SIZE, PAGE_2MB, PAGE_1GB; lia.
Qed.

Lemma land_aligned x l : (2 <= l <= 3)%nat -> Z.land x (page_bytes l - 1) = x mod page_bytes l.
Proof. intros Hl. rewrite page_bytes_sh by lia. replace (2 ^ sh l - 1) with (Z.ones (sh l)) by (rewrite Z.ones_equiv; lia). apply Z.land_ones. unfold sh. lia. Qed.

Lemma MapRange_ok : (exists tags, pt_ok top tags s0) -> plenty (Z.to_nat (3 * count)) s0 ->
  wp (MapRange s0 top vaddr paddr flags count) (fun s' => (exists tags, pt_ok top tags s') /\
    forall w, (dist vaddr w < count * 4096 -> translates s' top w (paddr + dist vaddr w) flags) /\ (count * 4096 <= dist vaddr w -> GetPageInfo s' top w = GetPageInfo s0 top w)).
Proof.
  intros Hok Hpl. unfold MapRange. apply (wp_loop range_inv (fun '(_, k) => Z.to_nat (count - k))).
  2:{ split; [lia|]. split; [exact Hok|]. split; [now rewrite Z.sub_0_r|]. intros w. pose proof (dist_bound vaddr w). split; [lia|reflexivity]. }
  2:{ cbn. lia. }
  intros [s k] Hi. pose proof Hi as (Hk & (tags & Htags) & Hplk & Hw). destruct (k <? count) eqn:Ek; to_prop.
  2:{ cbn. assert (k = count) as -> by lia. split; [eauto|exact Hw]. }
  change PAGE_SIZE with 4096. set (cv := u64 (vaddr + u64 (k * 4096))). set (cp := u64 (paddr + u64 (k * 4096))).
  assert (Hstep : forall l m s', (1 <= l <= 3)%nat -> m = page_bytes l / 4096 -> k * 4096 + page_bytes l <= count * 4096 -> cv mod page_bytes l = 0 -> cp mod page_bytes l = 0 ->
    (exists tags', pt_ok top tags' s' /\ plenty (Z.to_nat (3 * (count - k)) - 3) s' /\ mapped_as top s l cv cp flags s') -> range_inv (s', k + m) /\ (Z.to_nat (count - (k + m)) < Z.to_nat (count - k))%nat).
  { intros l m s' Hl -> Hb H1 H2 H3. destruct (range_step l k s s' Hl Hi Hb H1 H2 H3) as [R1 R2]. split; [exact R1|]. destruct R1 as (Hk' & _). lia. }
  unfold step_ok. match goal with |- wp (if ?b then _ else _) _ => destruct b eqn:E1 end; [|match goal with |- wp (if ?b then _ else _) _ => destruct b eqn:E2 end]; apply wp_bind.
  - apply andb_true_iff in E1 as [[A1 A2]%andb_true_iff A3]. to_prop. change (PAGE_1GB - 1) with (page_bytes 3 - 1) in *. rewrite land_aligned in A1, A2 by lia.
    eapply wp_mono; [apply (Map1G_ok top tags s cv cp flags (Z.to_nat (3 * (count - k)) - 1)); [exact Htags|eapply plenty_le; [exact Hplk|lia]]|].
    intros s' (tags' & O & P & M). cbn [wp]. apply (Hstep 3%nat); [lia|reflexivity|cbn [page_bytes]; unfold PAGE_1GB; lia|exact A1|exact A2|]. exists tags'. split; [exact O|]. split; [eapply plenty_le; [exact P|lia]|exact M].
  - apply andb_true_iff in E2 as [[A1 A2]%andb_true_iff A3]. to_prop. change (PAGE_2MB - 1) with (page_bytes 2 - 1) in *. rewrite land_aligned in A1, A2 by lia.
    eapply wp_mono; [apply (Map2M_ok top tags s cv cp flags (Z.to_nat (3 * (count - k)) - 2)); [exact Htags|apply clear_here; auto; lia|eapply plenty_le; [exact Hplk|lia]]|].
    intros s' (tags' & O & P & M). cbn [wp]. apply (Hstep 2%nat); [lia|reflexivity|cbn [page_bytes]; unfold PAGE_2MB; lia|exact A1|exact A2|]. exists tags'. split; [exact O|]. split; [eapply plenty_le; [exact P|lia]|exact M].
  - eapply wp_mono; [apply (Map4K_ok top tags s cv cp flags (Z.to_nat (3 * (count - k)) - 3)); [exact Htags|apply clear_here; auto; lia|eapply plenty_le; [exact Hplk|lia]]|].
    intros s' (tags' & O & P & M). cbn [wp]. apply (Hstep 1%nat); [lia|reflexivity|cbn [page_bytes]; unfold PAGE_SIZE; lia| | |].
    + unfold cv, u64. cbn [page_bytes]. change PAGE_SIZE with 4096. rewrite Zplus_mod_idemp_r, Z.mod_mod_divide by (exists (2 ^ 52); reflexivity). rewrite Z.mod_add by lia. exact Hv.
    + unfold cp, u64. cbn [page_bytes]. change PAGE_SIZE with 4096. rewrite Zplus_mod_idemp_r, Z.mod_mod_divide by (exists (2 ^ 52); reflexivity). rewrite Z.mod_add by lia. exact Hp.
    + exists tags'. split; [exact O|]. split; [exact P|exact M].
Qed.
End Range.
