(* ===== verification/PageTabFree.v ===== *)
(** Page tables: releasing the pages of a range.  The entries are cleared, no
    translation outside of the range changes, and a page goes back to the page
    allocator only behind the fence that follows the clearing of its entry. *)
From stdpp Require Import base gmap list fin_maps.
From Stdlib Require Import ZArith Lia.
From S2P Require Import Prelude PMM VMA PageTab PageTabInv PageTabMap PageTabRange.

Open Scope Z_scope.
Open Scope c_scope.

(** * One page, one translation *)

Lemma info_same top tags s v w l t : pt_ok top tags s -> on_path top s v l t -> vkey 1 w = vkey 1 v -> info_at l s t w = info_at l s t v.
Proof.
  intros Hok Hp E. assert (Hk : forall m, (1 <= m <= 4)%nat -> vkey m w = vkey m v).
  { assert (H : forall n, (n <= 3)%nat -> vkey (S n) w = vkey (S n) v) by (induction n as [|n IH]; intros Hn; [exact E|]; apply (vkey_up (S n)); [lia|apply IH; lia]). intros m Hm. destruct m; [lia|]. apply H. lia. }
  revert t Hp. induction l as [|l IH]; intros t Hp; [reflexivity|]. pose proof (path_level _ _ _ Hok _ _ _ Hp) as Hl.
  destruct (vkey_up (S l) w v ltac:(lia) (Hk (S l) ltac:(lia))) as [_ Ei]. cbn [info_at]. rewrite Ei. destruct (table_get s t (idx (S l) v)) as [e| |] eqn:He; [|reflexivity..]. cbn [bind].
  destruct (negb (PAGE_EXISTS e)) eqn:Ex; [reflexivity|]. destruct (leafy (S l) e) eqn:El; [reflexivity|]. apply IH. econstructor; [exact Hp|exact He|now apply negb_false_iff|exact El].
Qed.

(** Addresses in one page of whatever size have one translation. *)
Lemma info_leaf top tags s v w l t i : pt_ok top tags s -> on_path top s v l t -> info_at l s t v = Ok i -> i_size i <> 0 -> vkey (level_of (i_size i)) w = vkey (level_of (i_size i)) v -> info_at 4 s top w = Ok i.
Proof.
  intros Hok Hp. revert t Hp. induction l as [|l IH]; intros t Hp Hi Hsz E; [discriminate|]. pose proof (path_level _ _ _ Hok _ _ _ Hp) as Hl. cbn [info_at] in Hi.
  destruct (table_get s t (idx (S l) v)) as [e| |] eqn:He; [|discriminate..]. cbn [bind] in Hi. destruct (negb (PAGE_EXISTS e)) eqn:Ex; [injection Hi as <-; now contradiction Hsz|].
  destruct (leafy (S l) e) eqn:El.
  - injection Hi as <-. cbn [leaf_info i_size] in E, Hsz. assert (El' : level_of (page_bytes (S l)) = S l) by (destruct l as [|[|[|l]]]; try lia; try discriminate El; reflexivity). rewrite El' in E.
    destruct (vkey_up (S l) w v ltac:(lia) E) as [E1 E2]. rewrite (path_info top s w (S l) t (path_key _ _ _ Hok _ _ _ _ Hp (eq_sym E1))), info_step, E2, He by lia. cbn [bind]. now rewrite Ex, El.
  - apply (IH (PTE_MASK e)); auto. econstructor; [exact Hp|exact He|now apply negb_false_iff|exact El].
Qed.

Lemma get_leaf top tags s v w i : pt_ok top tags s -> GetPageInfo s top v = Ok i -> i_size i <> 0 -> vkey (level_of (i_size i)) w = vkey (level_of (i_size i)) v -> GetPageInfo s top w = Ok i.
Proof. intros Hok Hi. apply (info_leaf top tags s v w 4 top i Hok (path_top _ _ _) Hi). Qed.

Lemma get_same top tags s v w : pt_ok top tags s -> vkey 1 w = vkey 1 v -> GetPageInfo s top w = GetPageInfo s top v.
Proof. intros Hok. apply (info_same top tags s v w 4 top Hok (path_top _ _ _)). Qed.

(** The size of a page is one of three. *)
Lemma info_sizes top tags s v l t i : pt_ok top tags s -> on_path top s v l t -> info_at l s t v = Ok i -> i = no_page \/ i_size i = PAGE_SIZE \/ i_size i = PAGE_2MB \/ i_size i = PAGE_1GB.
Proof.
  intros Hok Hp. revert t Hp. induction l as [|l IH]; intros t Hp Hi; [discriminate|]. pose proof (path_level _ _ _ Hok _ _ _ Hp) as Hl. cbn [info_at] in Hi.
  destruct (table_get s t (idx (S l) v)) as [e| |] eqn:He; [|discriminate..]. cbn [bind] in Hi. destruct (negb (PAGE_EXISTS e)) eqn:Ex; [injection Hi as <-; now left|].
  destruct (leafy (S l) e) eqn:El; [injection Hi as <-; right; destruct l as [|[|l]]; auto|]. apply (IH (PTE_MASK e)); auto. econstructor; [exact Hp|exact He|now apply negb_false_iff|exact El].
Qed.

(** * Release *)

(** Every page released was behind an entry cleared before a fence that came
    before the release. *)
Definition fenced (s0 : pt_state) (top : Z) (log : list event) : Prop :=
  forall l1 p l2, log = l1 ++ Freed p :: l2 ->
  exists a b v i, l1 = a ++ Fence :: b /\ Unmapped v ∈ a /\ GetPageInfo s0 top v = Ok i /\ i_phys i = p.

Definition freed (log : list event) : list Z := omap (fun e => match e with Freed p => Some p | _ => None end) log.

(** Pages waiting for the fence. *)
Definition waiting (s0 : pt_state) (top : Z) (log : list event) (p : Z) : Prop := exists v i, Unmapped v ∈ log /\ GetPageInfo s0 top v = Ok i /\ i_phys i = p.

Lemma fenced_more s0 top log e : (forall p, e <> Freed p) -> fenced s0 top log -> fenced s0 top (log ++ [e]).
Proof.
  intros He H l1 p l2 E. destruct l2 as [|y l2 _] using rev_ind.
  - apply app_inj_tail in E as [_ E]. now apply He in E.
  - rewrite app_comm_cons, app_assoc in E. apply app_inj_tail in E as [E _]. now apply (H l1 p l2).
Qed.

Lemma waiting_more s0 top log e p : waiting s0 top log p -> waiting s0 top (log ++ [e]) p.
Proof. intros (v & i & H1 & H2). exists v, i. split; [apply elem_of_app; now left|exact H2]. Qed.

Lemma fenced_free s0 top log b l : fenced s0 top (log ++ Fence :: b) -> Forall (waiting s0 top log) l -> fenced s0 top (log ++ Fence :: b ++ (Freed <$> l)).
Proof.
  revert b. induction l as [|p l IH]; intros b H Hw; [now rewrite app_nil_r|]. rewrite fmap_cons. apply Forall_cons in Hw as [(v & i & Hv & Hi & Hp) Hw].
  replace (b ++ Freed p :: (Freed <$> l)) with ((b ++ [Freed p]) ++ (Freed <$> l)) by (now rewrite <- app_assoc). apply IH; [|exact Hw].
  intros l1 q l2 E. destruct l2 as [|y l2 _] using rev_ind.
  - replace (log ++ Fence :: b ++ [Freed p]) with ((log ++ Fence :: b) ++ [Freed p]) in E by (now rewrite <- app_assoc). apply app_inj_tail in E as [<- E]. injection E as ->. exists log, b, v, i. auto.
  - replace (log ++ Fence :: b ++ [Freed p]) with ((log ++ Fence :: b) ++ [Freed p]) in E by (now rewrite <- app_assoc). rewrite app_comm_cons, app_assoc in E. apply app_inj_tail in E as [E _]. now apply (H l1 q l2).
Qed.

(** The state of a batch: the log is fenced, what waits was unmapped, and the
    pages released and waiting are [ps]. *)
Record batch_ok (s0 : pt_state) (top : Z) (ps : list Z) (b : batch) : Prop := {
  bt_fenced : fenced s0 top (b_log b);
  bt_waiting : Forall (waiting s0 top (b_log b)) (b_list b);
  bt_freed : freed (b_log b) ++ b_list b = ps
}.

Lemma freed_app a b : freed (a ++ b) = freed a ++ freed b.
Proof. apply omap_app. Qed.

Lemma freed_map l : freed (Freed <$> l) = l.
Proof. induction l as [|p l IH]; [reflexivity|]. rewrite fmap_cons. change (freed (Freed p :: (Freed <$> l))) with (p :: freed (Freed <$> l)). now rewrite IH. Qed.

Lemma flush_batch_ok s0 top ps b : batch_ok s0 top ps b -> batch_ok s0 top ps (flush_batch b) /\ b_list (flush_batch b) = [] /\ b_pt (flush_batch b) = b_pt b /\ (forall e, e ∈ b_log b -> e ∈ b_log (flush_batch b)).
Proof.
  intros [H1 H2 H3]. unfold flush_batch. destruct (b_list b) as [|p l] eqn:El.
  - split; [split; [exact H1|rewrite El; constructor|rewrite El; exact H3]|]. auto.
  - split; [|cbn; split; [reflexivity|split; [reflexivity|intros e He; apply elem_of_app; now left]]]. split; cbn [b_log b_list b_pt].
    + apply (fenced_free s0 top (b_log b) [] (p :: l)); [|exact H2]. now apply fenced_more.
    + constructor.
    + rewrite freed_app. change (freed (Fence :: (Freed <$> p :: l))) with (freed (Freed <$> p :: l)). rewrite freed_map, app_nil_r. exact H3.
Qed.

(** Handing over a page of which the entry is cleared next. *)
Lemma push_unmap_ok s0 top ps b v i p s' : batch_ok s0 top ps b -> GetPageInfo s0 top v = Ok i -> i_phys i = p ->
  let b1 := batch_push p b in
  b_pt b1 = b_pt b /\ batch_ok s0 top (ps ++ [p]) (batch_defer v (Batch s' (b_list b1) (b_log b1 ++ [Unmapped v]))).
Proof.
  intros Hb Hi Hp. cbv zeta. assert (H : exists c, (if BATCH_MAX <? Z.of_nat (length (b_list b)) + 1 then flush_batch b else b) = c /\ batch_ok s0 top ps c /\ b_pt c = b_pt b).
  { destruct (BATCH_MAX <? _); [|eauto]. destruct (flush_batch_ok _ _ _ _ Hb) as (F1 & _ & F3 & _). eauto. }
  destruct H as (c & E & [C1 C2 C3] & C4). unfold batch_push. rewrite E. cbn [b_pt b_list b_log]. split; [exact C4|]. unfold batch_defer. cbn [b_pt b_list b_log]. split; cbn [b_pt b_list b_log].
  - apply fenced_more; [easy|]. now apply fenced_more.
  - apply Forall_app. split; [eapply Forall_impl; [exact C2|]; intros q Hq; now apply waiting_more, waiting_more|]. constructor; [|constructor].
    exists v, i. split; [|auto]. apply elem_of_app. left. apply elem_of_app. right. constructor.
  - rewrite !freed_app. cbn. rewrite !app_nil_r, app_assoc. now rewrite C3.
Qed.

(** * The loop *)

Section Release.
Context (top : Z) (tags : tag_map) (s0 : pt_state) (start n : Z) (Hok : pt_ok top tags s0).
Context (Hst : 0 <= start) (Hal : start mod 4096 = 0) (Hn : 0 <= n) (Hnb : n * 4096 <= 2 ^ 47) (Hend : start + n * 4096 < 2 ^ 64).

(** The pages of the range are not larger than 2 MiB and do not reach out of
    it. *)
Context (Hin : forall w i, dist start w < n * 4096 -> GetPageInfo s0 top w = Ok i -> i_size i <> 0 ->
  i_size i <> PAGE_1GB /\ forall w', vkey (level_of (i_size i)) w' = vkey (level_of (i_size i)) w -> dist start w' < n * 4096).

Lemma dist_here v : start <= v -> v - start < 2 ^ 48 -> dist start v = v - start.
Proof. intros H1 H2. apply Z.mod_small. lia. Qed.

Definition release_inv (x : batch * Z) : Prop :=
  let '(b, v) := x in
  start <= v <= start + n * 4096 /\ v mod 4096 = 0 /\ pt_ok top tags (b_pt b) /\ (exists ps, batch_ok s0 top ps b) /\
  forall w, (dist start w < v - start -> GetPageInfo (b_pt b) top w = Ok no_page) /\ (v - start <= dist start w -> GetPageInfo (b_pt b) top w = GetPageInfo s0 top w).

(** The page at the position of the loop starts there and ends in the range. *)
Lemma page_here b v i : release_inv (b, v) -> v < start + n * 4096 -> GetPageInfo (b_pt b) top v = Ok i -> i_size i <> 0 ->
  GetPageInfo s0 top v = Ok i /\ (i_size i = PAGE_SIZE \/ i_size i = PAGE_2MB) /\ v mod i_size i = 0 /\ v + i_size i <= start + n * 4096.
Proof.
  intros (Hv & Hvm & Hokb & _ & Hw) Hlt Hi Hsz. assert (Hd : dist start v = v - start) by (apply dist_here; lia). assert (Hi0 : GetPageInfo s0 top v = Ok i) by (destruct (Hw v) as [_ H2]; rewrite <- H2; [exact Hi|lia]).
  split; [exact Hi0|]. destruct (Hin v i ltac:(lia) Hi0 Hsz) as [Hng Hwith]. pose proof (info_sizes top tags s0 v 4 top i Hok (path_top _ _ _) Hi0) as Hs.
  assert (Hs2 : i_size i = PAGE_SIZE \/ i_size i = PAGE_2MB) by (destruct Hs as [->|[?|[?|?]]]; [now contradiction Hsz|tauto..]). split; [exact Hs2|]. set (l := level_of (i_size i)) in *.
  assert (Hl : (1 <= l <= 3)%nat /\ page_bytes l = i_size i) by (unfold l; destruct Hs2 as [->| ->]; [change (level_of PAGE_SIZE) with 1%nat|change (level_of PAGE_2MB) with 2%nat]; split; [lia|reflexivity|lia|reflexivity]). destruct Hl as [Hl Hpb].
  assert (Hb : 4096 <= page_bytes l <= 2097152) by (rewrite Hpb; destruct Hs2 as [->| ->]; unfold PAGE_SIZE, PAGE_2MB; lia).
  set (u := v - v mod page_bytes l). assert (Hm : 0 <= v mod page_bytes l < page_bytes l) by (apply Z.mod_pos_bound; lia).
  assert (Hu : u mod page_bytes l = 0) by (unfold u; rewrite Zminus_mod, Z.mod_mod, Z.sub_diag by lia; apply Z.mod_0_l; lia).
  assert (Hvu : vkey l v = vkey l u) by (apply (same_page l u v Hl Hu); unfold dist, u; replace (v - (v - v mod page_bytes l)) with (v mod page_bytes l) by lia; rewrite Z.mod_small by lia; lia).
  assert (Huv : u = v).
  { specialize (Hwith u (eq_sym Hvu)). destruct (Z.lt_ge_cases u start) as [Hlo|Hge].
    - exfalso. unfold dist in Hwith. rewrite <- (Z.mod_add _ 1) in Hwith by lia. rewrite Z.mod_small in Hwith by lia. lia.
    - destruct (Z.eq_dec u v) as [|Hne]; [assumption|exfalso]. destruct (Hw u) as [H1 _]. rewrite dist_here in H1 by lia.
      pose proof (get_leaf top tags (b_pt b) v u i Hokb Hi Hsz (eq_sym Hvu)) as H2. rewrite H1 in H2 by lia. injection H2 as <-. now apply Hsz. }
  rewrite <- Hpb. split; [rewrite <- Huv at 1; exact Hu|].
  assert (Hlast : vkey l (v + page_bytes l - 4096) = vkey l v) by (rewrite Hvu; apply (same_page l u _ Hl Hu); unfold dist; rewrite Huv; replace (v + page_bytes l - 4096 - v) with (page_bytes l - 4096) by lia; rewrite Z.mod_small by lia; lia).
  specialize (Hwith _ Hlast). rewrite dist_here in Hwith by lia. assert (Hpm : page_bytes l mod 4096 = 0) by (rewrite Hpb; destruct Hs2 as [->| ->]; reflexivity). dlia.
Qed.

Lemma page_step b v i s' : release_inv (b, v) -> v < start + n * 4096 -> GetPageInfo (b_pt b) top v = Ok i -> i_size i <> 0 ->
  pt_ok top tags s' -> unmapped_at top (b_pt b) i v s' ->
  let b1 := batch_push (i_phys i) b in
  b_pt b1 = b_pt b /\ release_inv (batch_defer v (Batch s' (b_list b1) (b_log b1 ++ [Unmapped v])), v + i_size i).
Proof.
  intros Hinv Hlt Hi Hsz Hok' Hun. destruct (page_here b v i Hinv Hlt Hi Hsz) as (Hi0 & Hs2 & Hvm & Hle). pose proof Hinv as (Hv & Hv4 & Hokb & (ps & Hb) & Hw).
  destruct (push_unmap_ok s0 top ps b v i (i_phys i) s' Hb Hi0 eq_refl) as [Hpt Hb']. cbv zeta. split; [exact Hpt|].
  assert (Hl : exists l, level_of (i_size i) = l /\ (1 <= l <= 3)%nat /\ page_bytes l = i_size i) by (destruct Hs2 as [->| ->]; [exists 1%nat|exists 2%nat]; (split; [reflexivity|]); split; [lia|reflexivity|lia|reflexivity]).
  destruct Hl as (l & El & Hl & Hpb). assert (Hbd : 4096 <= i_size i <= 2097152 /\ i_size i mod 4096 = 0) by (destruct Hs2 as [->| ->]; split; [unfold PAGE_SIZE; lia|reflexivity|unfold PAGE_2MB; lia|reflexivity]).
  split; [lia|]. split; [rewrite Z.add_mod, Hv4, (proj2 Hbd) by lia; reflexivity|]. split; [exact Hok'|]. split; [eauto|]. intros w. cbn [batch_defer b_pt].
  specialize (Hun w). rewrite El in Hun. pose proof (same_page l v w Hl ltac:(rewrite Hpb; exact Hvm)) as Hsame. rewrite Hpb in Hsame. destruct (Hw w) as [W1 W2]. pose proof (dist_bound start w) as Hd.
  assert (Edist : dist v w = (dist start w - (v - start)) mod 2 ^ 48) by (unfold dist; rewrite Zminus_mod_idemp_l; f_equal; lia). split; intros H.
  - destruct (Z.lt_ge_cases (dist start w) (v - start)) as [Hlo|Hge].
    + rewrite Hun. destruct (decide _); [reflexivity|apply W1; exact Hlo].
    + rewrite Hun, decide_True; [reflexivity|]. split; [exact Hsz|]. apply Hsame. rewrite Edist, Z.mod_small by lia. lia.
  - rewrite Hun, decide_False; [apply W2; lia|]. intros [_ E]. apply Hsame in E. rewrite Edist, Z.mod_small in E by lia. lia.
Qed.

Lemma FreeOwnedRegion_ok : wp (FreeOwnedRegion s0 top start (start + n * 4096)) (fun '(s', log) => pt_ok top tags s' /\ fenced s0 top log /\
  forall w, (dist start w < n * 4096 -> GetPageInfo s' top w = Ok no_page) /\ (n * 4096 <= dist start w -> GetPageInfo s' top w = GetPageInfo s0 top w)).
Proof.
  unfold FreeOwnedRegion. apply wp_bind. eapply wp_mono.
  - apply (wp_loop release_inv (fun '(_, v) => Z.to_nat ((start + n * 4096 - v) / 4096)) (fun b => release_inv (b, start + n * 4096))).
    + intros [b v] Hinv. pose proof Hinv as (Hv & Hv4 & Hokb & Hb & Hw). destruct (v <? start + n * 4096) eqn:Elt; to_prop; [|unfold step_ok; cbn; now replace (start + n * 4096) with v by lia].
      destruct (walk_total top tags (b_pt b) Hokb v) as (i & Hi). rewrite Hi. cbn [bind]. assert (Hdec : forall k, 4096 <= k -> v + k <= start + n * 4096 -> u64 (v + k) = v + k /\ (Z.to_nat ((start + n * 4096 - (v + k)) / 4096) < Z.to_nat ((start + n * 4096 - v) / 4096))%nat).
      { intros k Hk Hle. split; [apply Z.mod_small; lia|]. assert (H : (start + n * 4096 - (v + k)) / 4096 < (start + n * 4096 - v) / 4096); [|pose proof (Z.div_pos (start + n * 4096 - (v + k)) 4096); lia]. dlia. }
      destruct (i_size i =? 0) eqn:E0; to_prop.
      * assert (Hle : v + 4096 <= start + n * 4096) by dlia. change PAGE_SIZE with 4096. destruct (Hdec 4096 ltac:(lia) Hle) as [-> Hm]. unfold step_ok. cbn [wp]. split; [|exact Hm].
        split; [lia|]. split; [rewrite Z.add_mod, Hv4 by lia; reflexivity|]. split; [exact Hokb|]. split; [exact Hb|]. intros w. destruct (Hw w) as [W1 W2]. pose proof (dist_bound start w) as Hd. split; intros H; [|apply W2; lia].
        destruct (Z.lt_ge_cases (dist start w) (v - start)) as [Hlo|Hge]; [apply W1; lia|].
        assert (Ek : vkey 1 w = vkey 1 v). { apply (same_page 1 v w ltac:(lia) Hv4). assert (Edist : dist v w = (dist start w - (v - start)) mod 2 ^ 48) by (unfold dist; rewrite Zminus_mod_idemp_l; f_equal; lia). rewrite Edist, Z.mod_small by lia. change (page_bytes 1) with 4096. lia. }
        rewrite (get_same top tags (b_pt b) v w Hokb Ek), Hi. f_equal. destruct (info_sizes top tags (b_pt b) v 4 top i Hokb (path_top _ _ _) Hi) as [->|[E|[E|E]]]; [reflexivity|rewrite E in E0; discriminate..].
      * destruct (page_here b v i Hinv Elt Hi E0) as (Hi0 & Hs2 & Hvm & Hle). rewrite (proj2 (Z.eqb_neq _ PAGE_1GB)) by (destruct Hs2 as [->| ->]; discriminate).
        destruct (UnmapNoFlush_ok top tags (b_pt b) v Hokb) as (j & Hj & Hun). rewrite Hi in Hj. injection Hj as <-.
        assert (Hgo : forall k, k = i_size i -> step_ok release_inv (fun '(_, v) => Z.to_nat ((start + n * 4096 - v) / 4096)) (fun b => release_inv (b, start + n * 4096)) (Z.to_nat ((start + n * 4096 - v) / 4096))
          (let b := batch_push (i_phys i) b in let* b := batch_unmap top v b in Ok (inl (batch_defer v b, u64 (v + k))))).
        { intros k ->. cbv zeta. unfold step_ok, batch_unmap. assert (Hpt : b_pt (batch_push (i_phys i) b) = b_pt b) by (unfold batch_push; destruct (BATCH_MAX <? _); [|reflexivity]; unfold flush_batch; destruct (b_list b); reflexivity). rewrite Hpt.
          destruct (UnmapNoFlush (b_pt b) top v) as [s'| |]; try easy. cbn [bind wp] in *. destruct Hun as (Hok' & _ & Hun).
          destruct (Hdec (i_size i) ltac:(destruct Hs2 as [->| ->]; unfold PAGE_SIZE, PAGE_2MB; lia) Hle) as [-> Hm]. destruct (page_step b v i s' Hinv Elt Hi E0 Hok' Hun) as [_ Hr]. split; [exact Hr|exact Hm]. }
        destruct (i_size i =? PAGE_2MB) eqn:E2; to_prop; apply Hgo; [now symmetry|]. destruct Hs2; [now symmetry|contradiction].
    + split; [lia|]. split; [exact Hal|]. split; [exact Hok|]. split; [exists []; split; [intros l1 p l2 E; now destruct l1|constructor|reflexivity]|]. intros w. pose proof (dist_bound start w). split; [lia|reflexivity].
    + replace (start + n * 4096 - start) with (n * 4096) by lia. change PAGE_SIZE with 4096. rewrite Z.div_mul by lia. lia.
  - intros b (_ & _ & Hokb & (ps & Hb) & Hw). cbn [wp]. destruct (flush_batch_ok _ _ _ _ Hb) as ([F1 _ _] & _ & F3 & _). rewrite F3. split; [exact Hokb|]. split; [exact F1|]. intros w. specialize (Hw w). now replace (start + n * 4096 - start) with (n * 4096) in Hw by lia.
Qed.
End Release.
