(* ===== verification/RefCount.v ===== *)
(** Reference counts of shared physical pages,
    [src/kernel/src/arch/x86_64/vmm/vmm.cpp]: a red-black tree, ordered by
    physical address, that holds only pages with more than one holder.

    A count belongs to a node of the tree by the address of the node; nodes come
    from [kmalloc], whose results are a list. *)
From stdpp Require Import base gmap list fin_maps sets.
From Stdlib Require Import ZArith Lia Sorting.Sorted.
From S2P Require Import Prelude RBTree RBRep RBInsert RBSearch RBErase.

Open Scope Z_scope.
Open Scope c_scope.

(** * The model *)

Record rc_node : Type := RcNode { rc_phys : Z; rc_count : Z }.

Record rc_state : Type := Rc {
  rc_tree : rb_root;
  rc_rb : heap;               (* the tree nodes inside the records *)
  rc_data : gmap Z rc_node;
  rc_alloc : list Z           (* results of the coming calls of kmalloc *)
}.

Definition phys_of (d : gmap Z rc_node) (a : Z) : Z := default 0 (rc_phys <$> d !! a).

Definition rc_cmp (d : gmap Z rc_node) (a b : Z) : Z :=
  if phys_of d a <? phys_of d b then -1 else if phys_of d b <? phys_of d a then 1 else 0.

Definition rc_search (s : rc_state) (phys : Z) : res Z :=
  loop (walk (rc_rb s)) (fun cur =>
    if nonnull cur then
      match rc_data s !! cur with
      | Some rn =>
          if phys <? rc_phys rn then let* l := ld n_left (rc_rb s) cur in Ok (inl l)
          else if rc_phys rn <? phys then let* r := ld n_right (rc_rb s) cur in Ok (inl r)
          else Ok (inr cur)
      | None => Fault
      end
    else Ok (inr 0)) (r_node (rc_tree s)).

(** [kmalloc(sizeof(rc_node))]: the record comes with contents of no meaning. *)
Definition rc_malloc (s : rc_state) : Z * rc_state :=
  match rc_alloc s with
  | [] => (0, s)
  | a :: rest =>
      if a =? 0 then (0, Rc (rc_tree s) (rc_rb s) (rc_data s) rest)
      else (a, Rc (rc_tree s) (<[a := RbNode 0 0 0 0 0 0 0]> (rc_rb s)) (<[a := RcNode 0 0]> (rc_data s)) rest)
  end.

Definition rc_free (s : rc_state) (a : Z) : rc_state :=
  Rc (rc_tree s) (delete a (rc_rb s)) (delete a (rc_data s)) (rc_alloc s).

(** [found->count = f(found->count)] *)
Definition rc_update (s : rc_state) (a : Z) (f : rc_node -> rc_node) : res rc_state :=
  match rc_data s !! a with
  | Some rn => Ok (Rc (rc_tree s) (rc_rb s) (<[a := f rn]> (rc_data s)) (rc_alloc s))
  | None => Fault
  end.

Definition RefSharedPhys (s : rc_state) (phys : Z) : res (bool * rc_state) :=
  let '(rn, s) := rc_malloc s in
  if rn =? 0 then Ok (false, s)
  else
    let* found := rc_search s phys in
    if nonnull found then
      let* s := rc_update s found (fun x => RcNode (rc_phys x) (u32 (rc_count x + 1))) in
      Ok (true, rc_free s rn)
    else
      let* s := rc_update s rn (fun _ => RcNode phys 2) in
      let* h := rb_init_node (rc_rb s) rn in
      let* (r, h) := rb_insert_raw (rc_cmp (rc_data s)) (rc_tree s) h rn in
      Ok (true, Rc (with_cnt r (u64 (r_cnt r + 1))) h (rc_data s) (rc_alloc s)).

(** True: nobody holds the page any more. *)
Definition RefDecPhys (s : rc_state) (phys : Z) : res (bool * rc_state) :=
  let* found := rc_search s phys in
  if found =? 0 then Ok (true, s)
  else
    let* s := rc_update s found (fun x => RcNode (rc_phys x) (u32 (rc_count x - 1))) in
    match rc_data s !! found with
    | Some rn =>
        if rc_count rn =? 0 then
          let* (r, h) := rb_erase_raw (rc_tree s) (rc_rb s) found in
          Ok (true, rc_free (Rc (with_cnt r (u64 (r_cnt r - 1))) h (rc_data s) (rc_alloc s)) found)
        else Ok (false, s)
    | None => Fault
    end.

Definition RefcountTreeInit (h : heap) (d : gmap Z rc_node) (al : list Z) : rc_state := Rc (with_cnt (with_node rb_root_init 0) 0) h d al.

(** * The invariant *)

(** The tree holds one record for each page of the map [C], with its count; the
    records still to be allocated are not in use. *)
Record rc_at (C : gmap Z Z) (s : rc_state) (t : tree) : Prop := {
  rc_rep : rep (rc_rb s) (r_node (rc_tree s)) t;
  rc_colours : red_black t;
  rc_sorted : ordered (rc_cmp (rc_data s)) (inorder t);
  rc_once : NoDup (phys_of (rc_data s) <$> inorder t);
  rc_sound : forall a, a ∈ inorder t -> exists rn, rc_data s !! a = Some rn /\ C !! rc_phys rn = Some (rc_count rn);
  rc_complete : forall p c, C !! p = Some c -> exists a, a ∈ inorder t /\ rc_data s !! a = Some (RcNode p c);
  rc_fresh : forall a, a ∈ rc_alloc s -> a <> 0 -> rc_rb s !! a = None /\ rc_data s !! a = None;
  rc_distinct : NoDup (filter (fun a => a <> 0) (rc_alloc s));
  rc_counts : forall p c, C !! p = Some c -> 1 <= c < 2 ^ 32
}.

Definition rc_ok (C : gmap Z Z) (s : rc_state) : Prop := exists t, rc_at C s t.

Lemma rc_cmp_le d a b : rc_cmp d a b <= 0 <-> phys_of d a <= phys_of d b.
Proof. unfold rc_cmp. repeat case_bool; to_prop; lia. Qed.

Lemma rc_cmp_lt d a b : rc_cmp d a b < 0 <-> phys_of d a < phys_of d b.
Proof. unfold rc_cmp. repeat case_bool; to_prop; lia. Qed.

#[export] Instance rc_cmp_good d : GoodCmp (rc_cmp d).
Proof.
  split.
  - intros x y. unfold rc_cmp. repeat case_bool; to_prop; lia.
  - intros x y z. rewrite !rc_cmp_le. lia.
Qed.

(** * Searching *)

Fixpoint rc_find (d : gmap Z rc_node) (phys : Z) (t : tree) : Z :=
  match t with
  | E => 0
  | N _ l a r => if phys <? phys_of d a then rc_find d phys l else if phys_of d a <? phys then rc_find d phys r else a
  end.

Lemma search_loop s phys root t p fuel : rep (rc_rb s) root (plug p t) -> (forall a, a ∈ inorder t -> is_Some (rc_data s !! a)) -> (length (inorder t) < fuel)%nat ->
  loop fuel (fun cur =>
    if nonnull cur then
      match rc_data s !! cur with
      | Some rn =>
          if phys <? rc_phys rn then let* l := ld n_left (rc_rb s) cur in Ok (inl l)
          else if rc_phys rn <? phys then let* r := ld n_right (rc_rb s) cur in Ok (inl r)
          else Ok (inr cur)
      | None => Fault
      end
    else Ok (inr 0)) (ptr t) = Ok (rc_find (rc_data s) phys t).
Proof.
  revert p fuel. induction t as [|c l IHl a r IHr]; intros p fuel Hr Hm Hf; (destruct fuel as [|fuel]; [lia|]); [reflexivity|].
  cbn [loop ptr rc_find]. rewrite (nonnull_true a (rep_nonnull Hr)). destruct (Hm a) as [rn Ha]; [simpl; apply elem_of_app; right; constructor|]. rewrite Ha.
  assert (Ep : phys_of (rc_data s) a = rc_phys rn) by (unfold phys_of; now rewrite Ha). rewrite Ep. rewrite (ld_left Hr), (ld_right Hr). cbn [bind]. simpl in Hf. rewrite length_app in Hf. simpl in Hf.
  destruct (phys <? rc_phys rn); [apply (IHl (FL c a r :: p)); auto; [intros x Hx; apply Hm; simpl; apply elem_of_app; now left|lia]|].
  destruct (rc_phys rn <? phys); [apply (IHr (FR c l a :: p)); auto; [intros x Hx; apply Hm; simpl; apply elem_of_app; right; now right|lia]|reflexivity].
Qed.

Lemma rc_find_spec d phys t : ordered (rc_cmp d) (inorder t) ->
  (rc_find d phys t ∈ inorder t /\ phys_of d (rc_find d phys t) = phys) \/ (rc_find d phys t = 0 /\ forall a, a ∈ inorder t -> phys_of d a <> phys).
Proof.
  induction t as [|c l IHl a r IHr]; simpl; intros Ho; [right; split; [reflexivity|intros x Hx; now apply not_elem_of_nil in Hx]|].
  apply ordered_app in Ho as (Ho1 & Ho2 & Ho3); [|exact _]. apply StronglySorted_inv in Ho2 as [Ho2 Ho4]. rewrite List.Forall_forall in Ho4.
  destruct (Z.ltb_spec phys (phys_of d a)) as [H1|H1]; [|destruct (Z.ltb_spec (phys_of d a) phys) as [H2|H2]].
  - destruct (IHl Ho1) as [[Hin He]|[He Hno]]; [left; split; [apply elem_of_app; now left|exact He]|right; split; [exact He|]].
    intros x [Hx|[->|Hx]%elem_of_cons]%elem_of_app; [now apply Hno|lia|]. apply list_elem_of_In in Hx. specialize (Ho4 x Hx). apply rc_cmp_le in Ho4. lia.
  - destruct (IHr Ho2) as [[Hin He]|[He Hno]]; [left; split; [apply elem_of_app; right; now right|exact He]|right; split; [exact He|]].
    intros x [Hx|[->|Hx]%elem_of_cons]%elem_of_app; [|lia|now apply Hno]. specialize (Ho3 x a Hx ltac:(constructor)). apply rc_cmp_le in Ho3. lia.
  - left. split; [apply elem_of_app; right; constructor|lia].
Qed.

Lemma phys_at d a rn : d !! a = Some rn -> phys_of d a = rc_phys rn.
Proof. unfold phys_of. now intros ->. Qed.

(** The search returns the record of the page. *)
Lemma rc_search_ok C s t phys : rc_at C s t ->
  exists a, rc_search s phys = Ok a /\ ((a = 0 /\ C !! phys = None) \/ (a <> 0 /\ exists c, C !! phys = Some c /\ rc_data s !! a = Some (RcNode phys c) /\ a ∈ inorder t)).
Proof.
  intros [Hr _ Ho _ H1 H2 _ _ _]. unfold rc_search. rewrite <- (proj1 (proj2 Hr)). pose proof Hr as Hr'. change t with (plug [] t) in Hr'.
  rewrite (search_loop s phys _ t [] _ Hr'); [|intros a Ha; destruct (H1 a Ha) as (rn & Hrn & _); eauto|exact (subtree_walk _ _ _ _ Hr')]. eexists. split; [reflexivity|].
  destruct (rc_find_spec (rc_data s) phys t Ho) as [[Hin He]|[-> Hno]].
  - right. split; [exact (rep_addr _ _ _ _ Hr Hin)|]. destruct (H1 _ Hin) as (rn & Hrn & HC). rewrite (phys_at _ _ _ Hrn) in He. destruct rn as [p c]. cbn in *. subst p. exists c. split; [exact HC|]. split; [exact Hrn|exact Hin].
  - left. split; [reflexivity|]. destruct (C !! phys) as [c|] eqn:Ec; [|reflexivity]. destruct (H2 _ _ Ec) as (a & Ha & Hd). exfalso. apply (Hno a Ha). now rewrite (phys_at _ _ _ Hd).
Qed.

(** * Frames *)

Lemma rep_outside S h h' root t : outside S h h' -> (forall x, x ∈ inorder t -> x ∉ S) -> rep h root t -> rep h' root t.
Proof. intros Ho Hx (H1 & H2 & H3). split; [now apply (tree_frame S h)|auto]. Qed.

Lemma ordered_agree d d' L : (forall a, a ∈ L -> phys_of d' a = phys_of d a) -> ordered (rc_cmp d) L -> ordered (rc_cmp d') L.
Proof.
  intros Hd Ho. induction Ho as [|x L Ho IH Hx]; constructor; [apply IH; intros a Ha; apply Hd; now right|]. rewrite List.Forall_forall in *. intros y Hy.
  specialize (Hx y Hy). apply list_elem_of_In in Hy. apply rc_cmp_le in Hx. apply rc_cmp_le. rewrite (Hd x) by constructor. rewrite (Hd y) by (now right). exact Hx.
Qed.

(** * The operations *)

(** A record more that the tree does not use. *)
Lemma malloc_ok C s t a s1 : rc_at C s t -> rc_malloc s = (a, s1) ->
  rc_at C s1 t /\ ((a = 0 /\ hd 0 (rc_alloc s) = 0) \/ (a <> 0 /\ is_Some (rc_rb s1 !! a) /\ is_Some (rc_data s1 !! a) /\ a ∉ rc_alloc s1 /\ a ∉ inorder t)).
Proof.
  intros Hok E. pose proof Hok as [Hr Hrb Ho Hnd H1 H2 Hf Hd Hc]. unfold rc_malloc in E. destruct (rc_alloc s) as [|b rest] eqn:Ea; [apply pair_equal_spec in E as [<- <-]; auto|].
  destruct (b =? 0) eqn:E0; to_prop; apply pair_equal_spec in E as [<- <-].
  - split; [|left; auto]. split; cbn [rc_rb rc_tree rc_data rc_alloc]; auto; [intros x Hx; apply Hf; now right|rewrite filter_cons_False in Hd by lia; exact Hd].
  - destruct (Hf b ltac:(constructor) E0) as [F1 F2]. rewrite filter_cons_True in Hd by exact E0. apply NoDup_cons in Hd as [Hb Hd].
    assert (Hbt : b ∉ inorder t) by (intros Hin; destruct (ok_lookup _ _ _ b Hr Hin) as [n Hn]; congruence).
    assert (Hbr : b ∉ rest) by (intros Hin; apply Hb; apply list_elem_of_filter; auto).
    split; [|right; cbn [rc_rb rc_tree rc_data rc_alloc]; rewrite !lookup_insert_eq; eauto 10].
    assert (Hne : forall x, x ∈ inorder t -> b <> x) by (intros x Hx ->; contradiction).
    assert (Hp : forall x, x ∈ inorder t -> phys_of (<[b := RcNode 0 0]> (rc_data s)) x = phys_of (rc_data s) x) by (intros x Hx; unfold phys_of; now rewrite lookup_insert_ne by auto).
    split; cbn [rc_rb rc_tree rc_data rc_alloc]; auto.
    + apply (rep_outside [b] (rc_rb s)); [intros x Hx; rewrite lookup_insert_ne; [reflexivity|]; intros ->; apply Hx; constructor|intros x Hx [->|Hn]%elem_of_cons; [contradiction|now apply not_elem_of_nil in Hn]|exact Hr].
    + now apply (ordered_agree (rc_data s)).
    + rewrite (list_fmap_ext _ (phys_of (rc_data s)) (inorder t)); [exact Hnd|]. intros i x Hx. apply Hp. now apply list_elem_of_lookup_2 in Hx.
    + intros x Hx. rewrite lookup_insert_ne by auto. auto.
    + intros p c Hpc. destruct (H2 p c Hpc) as (x & Hx & Hdx). exists x. split; [exact Hx|]. now rewrite lookup_insert_ne by auto.
    + intros x Hx Hx0. assert (b <> x) by (intros ->; contradiction). rewrite !lookup_insert_ne by auto. apply Hf; [now right|exact Hx0].
Qed.

Lemma free_ok C s t a : rc_at C s t -> a ∉ inorder t -> rc_at C (rc_free s a) t.
Proof.
  intros [Hr Hrb Ho Hnd H1 H2 Hf Hd Hc] Ha. assert (Hne : forall x, x ∈ inorder t -> a <> x) by (intros x Hx ->; contradiction).
  assert (Hp : forall x, x ∈ inorder t -> phys_of (delete a (rc_data s)) x = phys_of (rc_data s) x) by (intros x Hx; unfold phys_of; now rewrite lookup_delete_ne by auto).
  split; cbn [rc_free rc_rb rc_tree rc_data rc_alloc]; auto.
  - apply (rep_outside [a] (rc_rb s)); [intros x Hx; rewrite lookup_delete_ne; [reflexivity|]; intros ->; apply Hx; constructor|intros x Hx [->|Hn]%elem_of_cons; [contradiction|now apply not_elem_of_nil in Hn]|exact Hr].
  - now apply (ordered_agree (rc_data s)).
  - rewrite (list_fmap_ext _ (phys_of (rc_data s)) (inorder t)); [exact Hnd|]. intros i x Hx. apply Hp. now apply list_elem_of_lookup_2 in Hx.
  - intros x Hx. rewrite lookup_delete_ne by auto. auto.
  - intros p c Hpc. destruct (H2 p c Hpc) as (x & Hx & Hdx). exists x. split; [exact Hx|]. now rewrite lookup_delete_ne by auto.
  - intros x Hx Hx0. destruct (Hf x Hx Hx0) as [F1 F2]. split; apply lookup_delete_None; auto.
Qed.

(** Two records of one page are one. *)
Lemma record_unique C s t a b rn rn' : rc_at C s t -> a ∈ inorder t -> b ∈ inorder t -> rc_data s !! a = Some rn -> rc_data s !! b = Some rn' -> rc_phys rn = rc_phys rn' -> a = b.
Proof.
  intros H Ha Hb Da Db E. pose proof (rc_once _ _ _ H) as Hnd. apply list_elem_of_lookup in Ha as [i Hi], Hb as [j Hj].
  assert (i = j); [|congruence]. apply (NoDup_lookup (phys_of (rc_data s) <$> inorder t) i j (rc_phys rn) Hnd); rewrite list_lookup_fmap; [rewrite Hi|rewrite Hj]; simpl; f_equal; [now apply phys_at|rewrite E; now apply phys_at].
Qed.

(** Changing the count of a page. *)
Lemma update_ok C s t a p c c' : rc_at C s t -> a ∈ inorder t -> rc_data s !! a = Some (RcNode p c) -> 1 <= c' < 2 ^ 32 ->
  rc_at (<[p := c']> C) (Rc (rc_tree s) (rc_rb s) (<[a := RcNode p c']> (rc_data s)) (rc_alloc s)) t.
Proof.
  intros H Ha Da Hc'. pose proof H as [Hr Hrb Ho Hnd H1 H2 Hf Hd Hc].
  assert (Hp : forall x, x ∈ inorder t -> phys_of (<[a := RcNode p c']> (rc_data s)) x = phys_of (rc_data s) x).
  { intros x Hx. unfold phys_of. destruct (decide (a = x)) as [<-|Hne]; [now rewrite lookup_insert_eq, Da|now rewrite lookup_insert_ne by auto]. }
  split; cbn [rc_rb rc_tree rc_data rc_alloc]; auto.
  - now apply (ordered_agree (rc_data s)).
  - rewrite (list_fmap_ext _ (phys_of (rc_data s)) (inorder t)); [exact Hnd|]. intros i x Hx. apply Hp. now apply list_elem_of_lookup_2 in Hx.
  - intros x Hx. destruct (decide (a = x)) as [<-|Hne]; [eexists; rewrite lookup_insert_eq; split; [reflexivity|]; cbn; apply lookup_insert_eq|].
    destruct (H1 x Hx) as (rn & Dx & HC). exists rn. rewrite lookup_insert_ne by auto. split; [exact Dx|]. rewrite lookup_insert_ne; [exact HC|]. intros ->. apply Hne. apply (record_unique C s t a x _ _ H Ha Hx Da Dx). reflexivity.
  - intros q d Hq. destruct (decide (p = q)) as [<-|Hne]; [rewrite lookup_insert_eq in Hq; injection Hq as <-; exists a; rewrite lookup_insert_eq; auto|].
    rewrite lookup_insert_ne in Hq by auto. destruct (H2 q d Hq) as (x & Hx & Dx). exists x. split; [exact Hx|]. rewrite lookup_insert_ne; [exact Dx|]. intros <-. rewrite Da in Dx. injection Dx as <- _. contradiction.
  - intros x Hx Hx0. destruct (Hf x Hx Hx0) as [F1 F2]. split; [exact F1|]. rewrite lookup_insert_ne; [exact F2|]. intros <-. congruence.
  - intros q d Hq. destruct (decide (p = q)) as [<-|Hne]; [rewrite lookup_insert_eq in Hq; injection Hq as <-; exact Hc'|]. rewrite lookup_insert_ne in Hq by auto. eauto.
Qed.

(** What a call of [RefSharedPhys] makes of the counts. *)
Definition shared_once (C : gmap Z Z) (p : Z) : gmap Z Z := <[p := match C !! p with Some c => u32 (c + 1) | None => 2 end]> C.

Lemma perm_lookup_none (h h' : heap) x : same_data h h' -> h !! x = None -> h' !! x = None.
Proof. intros H Hx. specialize (H x). rewrite Hx in H. destruct (h' !! x); [discriminate|reflexivity]. Qed.

Lemma rc_insert_ok C s t a p : rc_at C s t -> a <> 0 -> is_Some (rc_rb s !! a) -> is_Some (rc_data s !! a) -> a ∉ rc_alloc s -> a ∉ inorder t -> C !! p = None ->
  wp (let* s := rc_update s a (fun _ => RcNode p 2) in let* h := rb_init_node (rc_rb s) a in let* (r, h) := rb_insert_raw (rc_cmp (rc_data s)) (rc_tree s) h a in
      Ok (true, Rc (with_cnt r (u64 (r_cnt r + 1))) h (rc_data s) (rc_alloc s))) (fun '(b, s') => b = true /\ rc_ok (<[p := 2]> C) s').
Proof.
  intros [Hr Hrb Ho Hnd H1 H2 Hf Hd Hc] Ha0 [n0 Hn0] [d0 Hd0] Hal Hat Hp. unfold rc_update. rewrite Hd0. cbn [bind rc_rb rc_data rc_tree rc_alloc]. set (d := <[a := RcNode p 2]> (rc_data s)).
  unfold rb_init_node, st. rewrite (proj2 (Z.eqb_neq _ _) Ha0), Hn0. cbn [bind]. set (h := <[a := _]> (rc_rb s)).
  assert (Hne : forall x, x ∈ inorder t -> a <> x) by (intros x Hx ->; contradiction).
  assert (Hpx : forall x, x ∈ inorder t -> phys_of d x = phys_of (rc_data s) x) by (intros x Hx; unfold phys_of, d; now rewrite lookup_insert_ne by auto).
  assert (Hr' : rep h (r_node (rc_tree s)) t) by (apply (rep_outside [a] (rc_rb s)); [intros x Hx; unfold h; rewrite lookup_insert_ne; [reflexivity|]; intros ->; apply Hx; constructor|intros x Hx [->|Hn]%elem_of_cons; [contradiction|now apply not_elem_of_nil in Hn]|exact Hr]).
  assert (Ho' : ordered (rc_cmp d) (inorder t)) by (now apply (ordered_agree (rc_data s))). apply wp_bind.
  eapply wp_mono; [apply (rb_insert_raw_ok (rc_cmp d) (rc_tree s) h (inorder t) t a Hr' Hrb eq_refl Ho' Ha0); [unfold h; rewrite lookup_insert_eq; eauto|exact Hat]|].
  intros [r h'] (t' & L' & R1 & R2 & R3 & R4 & R5 & R6). cbn [wp]. split; [reflexivity|]. exists t'. pose proof (inserted_perm _ _ _ _ R4) as Hperm. subst L'.
  assert (Hin : forall x, x ∈ inorder t' <-> x = a \/ x ∈ inorder t) by (intros x; rewrite Hperm; apply elem_of_cons).
  assert (Hda : d !! a = Some (RcNode p 2)) by (unfold d; apply lookup_insert_eq).
  split; cbn [rc_rb rc_tree rc_data rc_alloc]; auto.
  - now apply (inserted_ordered (rc_cmp d) a (inorder t)).
  - rewrite Hperm. rewrite fmap_cons. apply NoDup_cons. split; [|rewrite (list_fmap_ext _ (phys_of (rc_data s)) (inorder t)); [exact Hnd|]; intros i x Hx; apply Hpx; now apply list_elem_of_lookup_2 in Hx].
    rewrite (phys_at _ _ _ Hda). cbn. intros (x & Ex & Hx)%list_elem_of_fmap. rewrite Hpx in Ex by exact Hx. destruct (H1 x Hx) as (rn & Dx & HC). rewrite (phys_at _ _ _ Dx) in Ex. congruence.
  - intros x [->|Hx]%Hin; [eexists; split; [exact Hda|]; cbn; apply lookup_insert_eq|]. destruct (H1 x Hx) as (rn & Dx & HC). exists rn. unfold d. rewrite lookup_insert_ne by auto. split; [exact Dx|]. rewrite lookup_insert_ne; [exact HC|]. intros ->. congruence.
  - intros q c Hq. destruct (decide (p = q)) as [<-|Hnq]; [rewrite lookup_insert_eq in Hq; injection Hq as <-; exists a; split; [apply Hin; now left|exact Hda]|].
    rewrite lookup_insert_ne in Hq by auto. destruct (H2 q c Hq) as (x & Hx & Dx). exists x. split; [apply Hin; now right|]. unfold d. now rewrite lookup_insert_ne by auto.
  - intros x Hx Hx0. assert (Hax : a <> x) by (intros ->; contradiction). destruct (Hf x Hx Hx0) as [F1 F2]. split; [apply (perm_lookup_none _ _ x R6); unfold h; now rewrite !lookup_insert_ne by auto|unfold d; now rewrite lookup_insert_ne by auto].
  - intros q c Hq. destruct (decide (p = q)) as [<-|Hnq]; [rewrite lookup_insert_eq in Hq; injection Hq as <-; lia|]. rewrite lookup_insert_ne in Hq by auto. eauto.
Qed.

Lemma RefSharedPhys_ok C s p : rc_ok C s -> (forall c, C !! p = Some c -> c + 1 < 2 ^ 32) ->
  wp (RefSharedPhys s p) (fun '(b, s') => (b = false /\ rc_ok C s' /\ hd 0 (rc_alloc s) = 0) \/ (b = true /\ rc_ok (shared_once C p) s')).
Proof.
  intros [t Hat] Hlim. unfold RefSharedPhys. destruct (rc_malloc s) as [a s1] eqn:Em. destruct (malloc_ok C s t a s1 Hat Em) as [Hat1 [[-> Hz]|(Ha & Ha1 & Ha2 & Ha3 & Ha4)]].
  - cbn. left. split; [reflexivity|]. split; [now exists t|exact Hz].
  - rewrite (proj2 (Z.eqb_neq _ _) Ha). destruct (rc_search_ok C s1 t p Hat1) as (x & -> & [[-> Hn]|(Hx & c & HC & Hd & Hin)]); cbn [bind].
    + cbn [nonnull Z.eqb negb]. eapply wp_mono; [apply (rc_insert_ok C s1 t a p Hat1 Ha Ha1 Ha2 Ha3 Ha4 Hn)|]. intros [b s'] [-> Hok']. right. split; [reflexivity|]. unfold shared_once. now rewrite Hn.
    + rewrite (nonnull_true x Hx). unfold rc_update. rewrite Hd. cbn [bind wp rc_phys rc_count]. right. split; [reflexivity|]. exists t. apply free_ok; [|exact Ha4]. unfold shared_once. rewrite HC.
      pose proof (rc_counts _ _ _ Hat1 p c HC) as Hcc. specialize (Hlim c HC). apply (update_ok C s1 t x p c); auto. unfold u32. rewrite Z.mod_small; lia.
Qed.

(** What a call of [RefDecPhys] makes of the counts, and its result. *)
Definition dropped_once (C : gmap Z Z) (p : Z) : bool * gmap Z Z :=
  match C !! p with
  | None => (true, C)
  | Some c => if c =? 1 then (true, delete p C) else (false, <[p := c - 1]> C)
  end.

Lemma erase_ok C s t a p : rc_at C s t -> a ∈ inorder t -> rc_data s !! a = Some (RcNode p 1) ->
  wp (let* (r, h) := rb_erase_raw (rc_tree s) (rc_rb s) a in Ok (true, rc_free (Rc (with_cnt r (u64 (r_cnt r - 1))) h (<[a := RcNode p 0]> (rc_data s)) (rc_alloc s)) a))
    (fun '(b, s') => b = true /\ rc_ok (delete p C) s').
Proof.
  intros H Ha Da. pose proof H as [Hr Hrb Ho Hnd H1 H2 Hf Hd Hc]. apply wp_bind. eapply wp_mono; [apply (rb_erase_raw_ok (rc_tree s) (rc_rb s) t (inorder t) a Hr Hrb eq_refl Ha)|].
  intros [r h] (t' & L' & R1 & R2 & R3 & R4 & R5 & h1 & R6 & R7). cbn [wp]. split; [reflexivity|]. exists t'. pose proof (removed_perm _ _ _ R4) as Hperm. subst L'.
  assert (Hna : a ∉ inorder t') by (destruct Hr as (_ & _ & N); rewrite Hperm in N; now apply NoDup_cons in N).
  assert (Hin : forall x, x ∈ inorder t' -> x ∈ inorder t /\ a <> x) by (intros x Hx; split; [rewrite Hperm; now right|intros ->; contradiction]).
  assert (Hsp : forall x, a <> x -> rc_data (rc_free (Rc (with_cnt r (u64 (r_cnt r - 1))) h (<[a := RcNode p 0]> (rc_data s)) (rc_alloc s)) a) !! x = rc_data s !! x) by (intros x Hx; cbn; now rewrite lookup_delete_ne, lookup_insert_ne by auto).
  assert (Hpx : forall x, x ∈ inorder t' -> phys_of (rc_data (rc_free (Rc (with_cnt r (u64 (r_cnt r - 1))) h (<[a := RcNode p 0]> (rc_data s)) (rc_alloc s)) a)) x = phys_of (rc_data s) x) by (intros x Hx; unfold phys_of; rewrite Hsp by (now apply Hin); reflexivity).
  set (s' := rc_free _ a) in *. assert (Hpne : forall x rn, x ∈ inorder t' -> rc_data s !! x = Some rn -> p <> rc_phys rn) by (intros x rn Hx Dx E; destruct (Hin x Hx) as [Hx1 Hx2]; apply Hx2; exact (record_unique C s t a x _ _ H Ha Hx1 Da Dx E)).
  split.
  - apply (rep_outside [a] h); [intros x Hx; cbn; rewrite lookup_delete_ne; [reflexivity|]; intros ->; apply Hx; constructor|intros x Hx [->|Hn]%elem_of_cons; [contradiction|now apply not_elem_of_nil in Hn]|exact R1].
  - exact R2.
  - apply (ordered_agree (rc_data s)); [exact Hpx|]. exact (removed_ordered (rc_cmp (rc_data s)) a (inorder t) _ R4 Ho).
  - rewrite (list_fmap_ext _ (phys_of (rc_data s)) (inorder t')); [|intros i x Hx; apply Hpx; now apply list_elem_of_lookup_2 in Hx]. rewrite Hperm, fmap_cons in Hnd. now apply NoDup_cons in Hnd.
  - intros x Hx. destruct (Hin x Hx) as [Hx1 Hx2]. destruct (H1 x Hx1) as (rn & Dx & HC). exists rn. rewrite Hsp by exact Hx2. split; [exact Dx|]. rewrite lookup_delete_ne; [exact HC|]. exact (Hpne x rn Hx Dx).
  - intros q c Hq. apply lookup_delete_Some in Hq as [Hpq Hq]. destruct (H2 q c Hq) as (x & Hx & Dx). exists x. assert (a <> x) by (intros <-; rewrite Da in Dx; injection Dx as ->; contradiction).
    rewrite Hperm in Hx. apply elem_of_cons in Hx as [->|Hx]; [contradiction|]. split; [exact Hx|]. now rewrite Hsp.
  - intros x Hx Hx0. destruct (Hf x Hx Hx0) as [F1 F2]. assert (Hax : a <> x) by (intros <-; congruence). split; [|now rewrite Hsp]. cbn. rewrite lookup_delete_ne by auto.
    pose proof (perm_lookup_none _ _ x R6 F1) as F3. destruct R7 as (n & _ & _ & ->). now rewrite lookup_insert_ne by auto.
  - exact Hd.
  - intros q c Hq. apply lookup_delete_Some in Hq as [_ Hq]. eauto.
Qed.

Lemma RefDecPhys_ok C s p : rc_ok C s -> wp (RefDecPhys s p) (fun '(b, s') => b = (dropped_once C p).1 /\ rc_ok (dropped_once C p).2 s').
Proof.
  intros [t Hat]. unfold RefDecPhys, dropped_once. destruct (rc_search_ok C s t p Hat) as (x & -> & [[-> Hn]|(Hx & c & HC & Hd & Hin)]); cbn [bind].
  - rewrite Hn. cbn. split; [reflexivity|now exists t].
  - rewrite (proj2 (Z.eqb_neq _ _) Hx), HC. unfold rc_update. rewrite Hd. cbn [bind rc_data rc_tree rc_rb rc_alloc rc_phys rc_count]. rewrite lookup_insert_eq. cbn [rc_count].
    pose proof (rc_counts _ _ _ Hat p c HC) as Hc. unfold u32. rewrite Z.mod_small by lia. destruct (c =? 1) eqn:E1; to_prop.
    + subst c. change (1 - 1 =? 0) with true. cbv iota. cbn [fst snd]. exact (erase_ok C s t x p Hat Hin Hd).
    + rewrite (proj2 (Z.eqb_neq _ _)) by lia. cbn [wp fst snd]. split; [reflexivity|]. exists t. apply (update_ok C s t x p c); auto; lia.
Qed.

(** * Holders *)

(** [H p] is the number of address spaces that hold page [p].  Pages are handed
    out to one holder, shared with another one and dropped.  What [kmalloc] will
    return is any list of addresses that are not in use, chosen anew at any time,
    so that records that were freed may come back. *)
Inductive rc_reach : (Z -> Z) -> rc_state -> Prop :=
| reach_start al : NoDup (filter (fun a => a <> 0) al) -> rc_reach (fun _ => 0) (RefcountTreeInit ∅ ∅ al)
| reach_supply H s al : rc_reach H s -> NoDup (filter (fun a => a <> 0) al) -> (forall a, a ∈ al -> a <> 0 -> rc_rb s !! a = None /\ rc_data s !! a = None) ->
    rc_reach H (Rc (rc_tree s) (rc_rb s) (rc_data s) al)
| reach_given H s p : rc_reach H s -> H p = 0 -> rc_reach (fun q => if q =? p then 1 else H q) s
| reach_shared H s p s' : rc_reach H s -> 1 <= H p < 2 ^ 32 - 1 -> RefSharedPhys s p = Ok (true, s') -> rc_reach (fun q => if q =? p then H q + 1 else H q) s'
| reach_refused H s p s' : rc_reach H s -> 1 <= H p < 2 ^ 32 - 1 -> RefSharedPhys s p = Ok (false, s') -> rc_reach H s'
| reach_dropped H s p b s' : rc_reach H s -> 1 <= H p -> RefDecPhys s p = Ok (b, s') -> rc_reach (fun q => if q =? p then H q - 1 else H q) s'.

(** The counts of the tree are the numbers of holders, of all pages that were
    shared and are still held. *)
Definition counts_holders (H : Z -> Z) (C : gmap Z Z) : Prop :=
  forall p, match C !! p with Some c => H p = c | None => 0 <= H p <= 1 end.

Lemma empty_tree_ok al : NoDup (filter (fun a => a <> 0) al) -> rc_ok ∅ (RefcountTreeInit ∅ ∅ al).
Proof.
  intros Hnd. exists E. split; cbn; auto.
  - split; [exact I|split; [reflexivity|constructor]].
  - exists O. apply rbt_E.
  - apply SSorted_nil.
  - constructor.
  - intros a Ha. now apply not_elem_of_nil in Ha.
  - intros p c Hp. now rewrite lookup_empty in Hp.
  - intros p c Hp. now rewrite lookup_empty in Hp.
Qed.

Lemma reach_inv H s : rc_reach H s -> exists C, rc_ok C s /\ counts_holders H C.
Proof.
  induction 1 as [al Hnd|H s al Hr (C & Hok & Hc) Hnd Hfr|H s p Hr (C & Hok & Hc) Hp|H s p s' Hr (C & Hok & Hc) Hp E|H s p s' Hr (C & Hok & Hc) Hp E|H s p b s' Hr (C & Hok & Hc) Hp E].
  - exists ∅. split; [now apply empty_tree_ok|]. intros p. rewrite lookup_empty. lia.
  - exists C. split; [|exact Hc]. destruct Hok as (t & [A1 A2 A3 A4 A5 A6 _ _ A9]). exists t. split; cbn [rc_rb rc_tree rc_data rc_alloc]; auto.
  - exists C. split; [exact Hok|]. intros q. specialize (Hc q). destruct (Z.eqb_spec q p) as [->|]; [|exact Hc]. destruct (C !! p) as [c|] eqn:Ec; [|lia]. destruct Hok as [t Hat]. pose proof (rc_counts _ _ _ Hat p c Ec). lia.
  - assert (Hlim : forall c, C !! p = Some c -> c + 1 < 2 ^ 32) by (intros c Ec; specialize (Hc p); rewrite Ec in Hc; lia). pose proof (RefSharedPhys_ok C s p Hok Hlim) as Hw. rewrite E in Hw. cbn in Hw.
    destruct Hw as [[? _]|[_ Hok']]; [discriminate|]. exists (shared_once C p). split; [exact Hok'|]. intros q. unfold shared_once. destruct (Z.eqb_spec q p) as [->|Hne].
    + rewrite lookup_insert_eq. specialize (Hc p). destruct (C !! p) as [c|] eqn:Ec; [|lia]. specialize (Hlim c eq_refl). destruct Hok as [t Hat]. pose proof (rc_counts _ _ _ Hat p c Ec). unfold u32. rewrite Z.mod_small; lia.
    + rewrite lookup_insert_ne by auto. apply Hc.
  - assert (Hlim : forall c, C !! p = Some c -> c + 1 < 2 ^ 32) by (intros c Ec; specialize (Hc p); rewrite Ec in Hc; lia). pose proof (RefSharedPhys_ok C s p Hok Hlim) as Hw. rewrite E in Hw. cbn in Hw.
    destruct Hw as [(_ & Hok' & _)|[? _]]; [|discriminate]. exists C. auto.
  - pose proof (RefDecPhys_ok C s p Hok) as Hw. rewrite E in Hw. cbn in Hw. destruct Hw as [_ Hok']. exists (dropped_once C p).2. split; [exact Hok'|]. intros q. pose proof (Hc q) as Hq. unfold dropped_once. destruct (C !! p) as [c|] eqn:Ec.
    + pose proof (Hc p) as Hcp. rewrite Ec in Hcp. destruct (c =? 1) eqn:E1; to_prop; cbn [snd]; destruct (Z.eqb_spec q p) as [->|Hne].
      * rewrite lookup_delete_eq. lia.
      * rewrite lookup_delete_ne by auto. exact Hq.
      * rewrite lookup_insert_eq. lia.
      * rewrite lookup_insert_ne by auto. exact Hq.
    + cbn [snd]. destruct (Z.eqb_spec q p) as [->|Hne]; [|exact Hq]. rewrite Ec in Hq |- *. lia.
Qed.

(** Dropping a page that has a holder goes through, and says to release the page
    exactly when this was the last one. *)
Lemma drop_ok H s p : rc_reach H s -> 1 <= H p -> wp (RefDecPhys s p) (fun '(b, _) => b = true <-> H p = 1).
Proof.
  intros Hr Hp. destruct (reach_inv H s Hr) as (C & Hok & Hc). eapply wp_mono; [apply (RefDecPhys_ok C s p Hok)|]. intros [b s'] [-> _]. specialize (Hc p). unfold dropped_once. destruct (C !! p) as [c|]; [|cbn; split; [lia|reflexivity]].
  subst c. destruct (H p =? 1) eqn:E1; to_prop; cbn; split; try easy; lia.
Qed.
