(* ===== verification/Vmm.v ===== *)
(** Virtual memory of a process, [src/kernel/src/arch/x86_64/vmm/vmm.cpp],
    [ua.cpp] and [schedule/syscall/memory.cpp]: allocation and release of ranges
    with their pages, the list of mappings, page faults on pages shared for
    copy-on-write, and copies between the kernel and a process.

    Physical memory is a function from byte addresses, reached through the direct
    map.  Every place that asks [PMM] for pages takes the results from a list of
    its own; pages given back are appended to a list.  The caller holds the locks
    of the page map, so a call is one step; flushing translation buffers has no
    state here. *)
From stdpp Require Import base gmap list fin_maps.
From Stdlib Require Import ZArith Lia.
From S2P Require Import Prelude RBTree PMM VMA PageTab RefCount.

Open Scope Z_scope.
Open Scope c_scope.

(** * The list of mappings *)

Record vm_mapping : Type := Mapping { mp_start : Z; mp_count : Z; mp_flags : Z; mp_next : Z; mp_prev : Z }.

Record map_state : Type := Maps {
  map_nodes : gmap Z vm_mapping;
  vm_mappings : Z;              (* the head of the ring of this page map *)
  g_map_free_list : Z;
  map_pages : list Z            (* results of PMM::Request, as addresses in the direct map *)
}.

Definition sizeof_mapping : Z := 40.
Definition mappings_per_page : Z := PAGE_SIZE / sizeof_mapping.

Definition map_rd {A} (f : vm_mapping -> A) (s : map_state) (m : Z) : res A :=
  match map_nodes s !! m with Some x => Ok (f x) | None => Fault end.
Definition map_wr (f : vm_mapping -> vm_mapping) (s : map_state) (m : Z) : res map_state :=
  match map_nodes s !! m with
  | Some x => Ok (Maps (<[m := f x]> (map_nodes s)) (vm_mappings s) (g_map_free_list s) (map_pages s))
  | None => Fault
  end.
Definition map_next (v : Z) (m : vm_mapping) : vm_mapping := Mapping (mp_start m) (mp_count m) (mp_flags m) v (mp_prev m).
Definition map_prev (v : Z) (m : vm_mapping) : vm_mapping := Mapping (mp_start m) (mp_count m) (mp_flags m) (mp_next m) v.
Definition with_map_free (s : map_state) (v : Z) : map_state := Maps (map_nodes s) (vm_mappings s) v (map_pages s).
Definition with_mappings (s : map_state) (v : Z) : map_state := Maps (map_nodes s) v (g_map_free_list s) (map_pages s).

Definition map_alloc_node (s : map_state) : res (Z * map_state) :=
  if g_map_free_list s =? 0 then
    match map_pages s with
    | [] => Ok (0, s)
    | pg :: rest =>
        if pg =? 0 then Ok (0, Maps (map_nodes s) (vm_mappings s) (g_map_free_list s) rest)
        else
          let node := fun i => pg + i * sizeof_mapping in
          let n := mappings_per_page in
          let ns := (fun i => node (Z.of_nat i)) <$> seq 0 (Z.to_nat n) in
          let s := Maps (list_to_map ((fun a => (a, Mapping 0 0 0 0 0)) <$> ns) ∪ map_nodes s) (vm_mappings s) (g_map_free_list s) rest in
          let* s := for_up (Z.to_nat (n - 2)) 1 (fun i s => map_wr (map_next (node (i + 1))) s (node i)) s in
          let* s := map_wr (map_next 0) s (node (n - 1)) in
          Ok (pg, with_map_free s (node 1))
    end
  else
    let m := g_map_free_list s in
    let* next := map_rd mp_next s m in
    Ok (m, with_map_free s next).

Definition map_free_node (s : map_state) (m : Z) : res map_state :=
  if m =? 0 then Ok s
  else let* s := map_wr (map_next (g_map_free_list s)) s m in Ok (with_map_free s m).

Definition NewMapping (s : map_state) (start pc flags : Z) : res (Z * map_state) :=
  let* (m, s) := map_alloc_node s in
  if m =? 0 then Ok (0, s)
  else
    let* s := map_wr (fun x => Mapping start pc flags (mp_next x) (mp_prev x)) s m in
    let head := vm_mappings s in
    if nonnull head then
      let* p := map_rd mp_prev s head in
      let* s := map_wr (map_prev p) s m in
      let* s := map_wr (map_next head) s m in
      let* p := map_rd mp_prev s head in
      let* s := map_wr (map_next m) s p in
      let* s := map_wr (map_prev m) s head in
      Ok (m, s)
    else
      let* s := map_wr (fun x => Mapping (mp_start x) (mp_count x) (mp_flags x) m m) s m in
      Ok (m, with_mappings s m).

Definition RemoveMapping (s : map_state) (m : Z) : res map_state :=
  let* n := map_rd mp_next s m in
  let* p := map_rd mp_prev s m in
  let* s := map_wr (map_prev p) s n in
  let* p := map_rd mp_prev s m in
  let* n := map_rd mp_next s m in
  let* s := map_wr (map_next n) s p in
  map_free_node s m.

(** The search in [Free]; fuel: more rounds than there are nodes. *)
Definition drop_mapping (s : map_state) (ptr : Z) : res map_state :=
  let sm := vm_mappings s in
  if nonnull sm then
    loop (S (size (map_nodes s))) (fun m =>
      let* st := map_rd mp_start s m in
      if st =? ptr then let* s := RemoveMapping s m in Ok (inr s)
      else
        let* m := map_rd mp_next s m in
        if m =? sm then Ok (inr s) else Ok (inl m)) sm
  else Ok s.

(** * The state *)

Record vm : Type := Vm {
  vm_pt : pt_state;
  vm_vma : vma_state;
  vm_rc : rc_state;
  vm_maps : map_state;
  vm_phys : Z -> Z;           (* bytes of physical memory *)
  vm_req : list Z;            (* results of PMM::Request for pages of data *)
  vm_req2m : list Z;
  vm_req2g : list Z;
  vm_freed : list Z           (* pages given to PMM::Free, in order *)
}.

Definition set_pt (s : vm) (x : pt_state) : vm := Vm x (vm_vma s) (vm_rc s) (vm_maps s) (vm_phys s) (vm_req s) (vm_req2m s) (vm_req2g s) (vm_freed s).
Definition set_vma (s : vm) (x : vma_state) : vm := Vm (vm_pt s) x (vm_rc s) (vm_maps s) (vm_phys s) (vm_req s) (vm_req2m s) (vm_req2g s) (vm_freed s).
Definition set_rc (s : vm) (x : rc_state) : vm := Vm (vm_pt s) (vm_vma s) x (vm_maps s) (vm_phys s) (vm_req s) (vm_req2m s) (vm_req2g s) (vm_freed s).
Definition set_maps (s : vm) (x : map_state) : vm := Vm (vm_pt s) (vm_vma s) (vm_rc s) x (vm_phys s) (vm_req s) (vm_req2m s) (vm_req2g s) (vm_freed s).
Definition set_phys (s : vm) (x : Z -> Z) : vm := Vm (vm_pt s) (vm_vma s) (vm_rc s) (vm_maps s) x (vm_req s) (vm_req2m s) (vm_req2g s) (vm_freed s).
Definition free_page (s : vm) (p : Z) : vm := Vm (vm_pt s) (vm_vma s) (vm_rc s) (vm_maps s) (vm_phys s) (vm_req s) (vm_req2m s) (vm_req2g s) (vm_freed s ++ [p]).

Definition request (s : vm) : Z * vm :=
  match vm_req s with
  | [] => (0, s)
  | p :: r => (p, Vm (vm_pt s) (vm_vma s) (vm_rc s) (vm_maps s) (vm_phys s) r (vm_req2m s) (vm_req2g s) (vm_freed s))
  end.
Definition request2m (s : vm) : Z * vm :=
  match vm_req2m s with
  | [] => (0, s)
  | p :: r => (p, Vm (vm_pt s) (vm_vma s) (vm_rc s) (vm_maps s) (vm_phys s) (vm_req s) r (vm_req2g s) (vm_freed s))
  end.
Definition request2g (s : vm) : Z * vm :=
  match vm_req2g s with
  | [] => (0, s)
  | p :: r => (p, Vm (vm_pt s) (vm_vma s) (vm_rc s) (vm_maps s) (vm_phys s) (vm_req s) (vm_req2m s) r (vm_freed s))
  end.

Definition map4k (top v p f : Z) (s : vm) : res vm := let* x := Map4K (vm_pt s) top v p f in Ok (set_pt s x).
Definition map2m (top v p f : Z) (s : vm) : res vm := let* x := Map2M (vm_pt s) top v p f in Ok (set_pt s x).
Definition map1g (top v p f : Z) (s : vm) : res vm := let* x := Map1G (vm_pt s) top v p f in Ok (set_pt s x).
Definition unmap (top v : Z) (s : vm) : res vm := let* x := UnmapNoFlush (vm_pt s) top v in Ok (set_pt s x).

(** [__memcpy] between pages of physical memory. *)
Definition copy_page_bytes (mem : Z -> Z) (dst src n : Z) : Z -> Z := fun a => if (dst <=? a) && (a <? dst + n) then mem (src + (a - dst)) else mem a.

(** [if (RefDecPhys(p)) PMM::Free(p)], which is also [UnrefSharedPhys]. *)
Definition UnrefSharedPhys (p : Z) (s : vm) : res vm :=
  let* (last, rc) := RefDecPhys (vm_rc s) p in
  let s := set_rc s rc in
  Ok (if (last : bool) then free_page s p else s).

Definition unref_pages (n p : Z) (s : vm) : res vm := for_up (Z.to_nat n) 0 (fun k s => UnrefSharedPhys (u64 (p + k * PAGE_SIZE)) s) s.

Definition VMM_COW_BIT : Z := 2 ^ 55.
Definition VMM_SHARED_BIT : Z := 2 ^ 56.

Definition has (flags bit : Z) : bool := negb (Z.land flags bit =? 0).

(** * Releasing ranges *)

(** Fuel: every round advances by a page at least. *)
Definition FreeSharedRegion (s : vm) (top start end_ : Z) : res vm :=
  loop (S (Z.to_nat ((end_ - start) / PAGE_SIZE + 1))) (fun '(s, v) =>
    if v <? end_ then
      let* info := GetPageInfo (vm_pt s) top v in
      if i_size info =? 0 then Ok (inl (s, u64 (v + PAGE_SIZE)))
      else if PAGE_SIZE <? i_size info then
        let* s := unmap top v s in
        let sub := i_size info / PAGE_SIZE in
        let left := (end_ - v + PAGE_SIZE - 1) / PAGE_SIZE in
        let* s := unref_pages (if left <? sub then left else sub) (i_phys info) s in
        Ok (inl (s, u64 (v + i_size info)))
      else
        let* s := unmap top v s in
        let* s := UnrefSharedPhys (i_phys info) s in
        Ok (inl (s, u64 (v + PAGE_SIZE)))
    else Ok (inr s)) (s, start).

Definition free_owned (s : vm) (top start end_ : Z) : res vm :=
  let* (pt, log) := FreeOwnedRegion (vm_pt s) top start end_ in
  let s := set_pt s pt in
  Ok (foldl (fun s e => match e with Freed p => free_page s p | _ => s end) s log).

(** * Allocation *)

(** The pages of a range, from the largest block that fits; the Boolean says
    whether all were mapped.  Fuel: every round maps a page at least. *)
Definition map_pages_of (s : vm) (top addr pc flags : Z) : res (bool * Z * vm) :=
  loop (S (Z.to_nat pc)) (fun '(s, mapped) =>
    if mapped <? pc then
      let cv := u64 (addr + mapped * PAGE_SIZE) in
      let rem := pc - mapped in
      let '(p, s) := if (524288 <=? rem) && (cv mod PAGE_2GB =? 0) then request2g s else (0, s) in
      if nonnull p then
        let* s := map1g top cv p flags s in
        let* s := map1g top (u64 (cv + PAGE_1GB)) (u64 (p + PAGE_1GB)) flags s in
        Ok (inl (s, mapped + 524288))
      else
        let '(p, s) := if (512 <=? rem) && (cv mod PAGE_2MB =? 0) then request2m s else (0, s) in
        if nonnull p then
          let* s := map2m top cv p flags s in Ok (inl (s, mapped + 512))
        else
          let '(p, s) := request s in
          if p =? 0 then Ok (inr (false, mapped, s))
          else let* s := map4k top cv p flags s in Ok (inl (s, mapped + 1))
    else Ok (inr (true, mapped, s))) (s, 0).

(** The region of an allocation, when there is none yet. *)
Definition ensure_region (conf : vm_conf) (s : vm) (addr pc flags : Z) : res vm :=
  let* r := FindRegion (vm_vma s) addr in
  if r =? 0 then let* (_, v) := AddRegion conf (vm_vma s) addr pc flags in Ok (set_vma s v) else Ok s.

(** Mapping the pages, or taking everything back without memory. *)
Definition finish_alloc (s : vm) (top addr pc flags : Z) : res (Z * vm) :=
  let* (ok, mapped, s) := map_pages_of s top addr pc flags in
  if (ok : bool) then
    let* (_, m) := NewMapping (vm_maps s) addr pc flags in Ok (addr, set_maps s m)
  else
    let* s := free_owned s top addr (u64 (addr + mapped * PAGE_SIZE)) in
    let* r := FindRegion (vm_vma s) addr in
    let* s := if nonnull r then let* v := RemoveRegion (vm_vma s) r in Ok (set_vma s v) else Ok s in
    Ok (0, s).

Definition Alloc (conf : vm_conf) (s : vm) (top pc : Z) (user : bool) : res (Z * vm) :=
  if pc =? 0 then Ok (0, s)
  else
    let flags := Z.lor (Z.lor MM_READ MM_WRITE) (if user then MM_USER else 0) in
    let* (addr, v) := InternalAlloc conf (vm_vma s) pc flags 0 in
    let s := set_vma s v in
    if addr =? 0 then Ok (0, s)
    else
      let* s := ensure_region conf s addr pc flags in
      finish_alloc s top addr pc flags.

(** The region is entered before the address is tested. *)
Definition EAlloc (conf : vm_conf) (s : vm) (top pc flags : Z) : res (Z * vm) :=
  if pc =? 0 then Ok (0, s)
  else
    let* (addr, v) := InternalAlloc conf (vm_vma s) pc flags 0 in
    let s := set_vma s v in
    let* s := ensure_region conf s addr pc flags in
    if addr =? 0 then Ok (0, s)
    else finish_alloc s top addr pc flags.

Definition VMM_Free (s : vm) (top ptr : Z) : res vm :=
  if ptr =? 0 then Ok s
  else if negb (Z.land ptr 0xfff =? 0) then Ok s
  else
    let* region := FindRegion (vm_vma s) ptr in
    if region =? 0 then Ok s
    else
      let* st := rd v_start (vm_vma s) region in
      if negb (st =? ptr) then Ok s
      else
        let* prev := rd v_prev (vm_vma s) region in
        let s := set_vma s (with_cursor (vm_vma s) prev) in
        let* e := rd region_end (vm_vma s) region in
        let* fl := rd v_flags (vm_vma s) region in
        let* s := if has fl VMM_SHARED_BIT then FreeSharedRegion s top st e else free_owned s top st e in
        let* m := drop_mapping (vm_maps s) ptr in
        let s := set_maps s m in
        let* v := RemoveRegion (vm_vma s) region in
        Ok (set_vma s v).

(** * System calls *)

Definition VM_EINVAL : Z := 22.

Definition sys_munmap (conf : vm_conf) (s : vm) (top addr length : Z) : res (Z * vm) :=
  let pages := length / PAGE_SIZE + (if length mod PAGE_SIZE =? 0 then 0 else 1) in
  if pages =? 0 then Ok (0, s)
  else if negb (addr mod PAGE_SIZE =? 0) then Ok (u64 (- VM_EINVAL), s)
  else
    let end_ := u64 (addr + u64 (pages * PAGE_SIZE)) in
    if end_ <? addr then Ok (u64 (- VM_EINVAL), s)
    else
      let* r := FindRegion (vm_vma s) addr in
      if r =? 0 then Ok (u64 (- VM_EINVAL), s)
      else
        let* st := rd v_start (vm_vma s) r in
        if addr <? st then Ok (u64 (- VM_EINVAL), s)
        else
          let* re := rd region_end (vm_vma s) r in
          let* s := if end_ <? re then let* (_, v) := SplitRegion conf (vm_vma s) r end_ in Ok (set_vma s v) else Ok s in
          let* s := VMM_Free s top addr in
          Ok (0, s).
