(* ===== verification/UserAccess.v ===== *)
(** Access to the memory of a process, [src/kernel/src/arch/x86_64/vmm/ua.cpp],
    and the page-fault handler of [vmm.cpp], which both replace pages that are
    shared for copy-on-write.

    A page map is named by its top table, and 0 is no page map.  The kernel's own
    buffer is a function from addresses that shares no byte with the pages of the
    process.  The locks make a call one step. *)
From stdpp Require Import base gmap list fin_maps.
From Stdlib Require Import ZArith Lia.
From S2P Require Import Prelude RBTree PMM VMA PageTab RefCount Vmm.

Open Scope Z_scope.
Open Scope c_scope.

Definition USER_SPACE_END_4LVL : Z := 0x00007FFFFFFFFFFF.
Definition user_space_end (conf : vm_conf) : Z := if IsPM5LVL conf then USER_SPACE_END_5LVL else USER_SPACE_END_4LVL.

(** [__memcpy] of [n] bytes between the kernel's memory and physical memory. *)
Definition write_bytes (dst_mem src_mem : Z -> Z) (dst src n : Z) : Z -> Z :=
  fun a => if (dst <=? a) && (a <? dst + n) then src_mem (src + (a - dst)) else dst_mem a.

(** Bytes to copy up to the end of the page or of the buffer. *)
Definition chunk (info : PageInfo) (curr len offset : Z) : Z :=
  let remaining_in_page := i_size info - Z.land curr (i_size info - 1) in
  if len - offset <? remaining_in_page then len - offset else remaining_in_page.

(** Rounds of a copy: all but the first and the last one copy a page at least. *)
Definition copy_rounds (len : Z) : nat := Z.to_nat (len / PAGE_SIZE + 3).

(** * From the process *)

Definition CopyFromUser (conf : vm_conf) (s : vm) (top : Z) (kmem : Z -> Z) (k_dest u_src len : Z) : res (bool * (Z -> Z)) :=
  if len =? 0 then Ok (true, kmem)
  else if (top =? 0) || (k_dest =? 0) || (u_src =? 0) then Ok (false, kmem)
  else if user_space_end conf <? u_src then Ok (false, kmem)
  else if user_space_end conf - u_src + 1 <? len then Ok (false, kmem)
  else
    loop (copy_rounds len) (fun '(kmem, offset) =>
      if offset <? len then
        let curr := u64 (u_src + offset) in
        let* info := GetPageInfo (vm_pt s) top curr in
        if i_size info =? 0 then Ok (inr (false, kmem))
        else if negb (has (i_flags info) MM_USER) then Ok (inr (false, kmem))
        else
          let to_copy := chunk info curr len offset in
          let kmem := write_bytes kmem (vm_phys s) (k_dest + offset) (i_phys info + Z.land curr (i_size info - 1)) to_copy in
          Ok (inl (kmem, offset + to_copy))
      else Ok (inr (true, kmem))) (kmem, 0).

(** * To the process *)

(** The page at [curr], which is made when the address belongs to a region and
    has none; no result when the copy fails. *)
Definition demand (s : vm) (top curr : Z) (info : PageInfo) : res (option PageInfo * vm) :=
  if i_size info =? 0 then
    let* r := FindRegion (vm_vma s) curr in
    if r =? 0 then Ok (None, s)
    else
      let page_start := Z.land curr (not64 (PAGE_SIZE - 1)) in
      let '(new_phys, s) := request s in
      if new_phys =? 0 then Ok (None, s)
      else
        let* s := map4k top page_start new_phys (Z.lor (Z.lor MM_READ MM_WRITE) MM_USER) s in
        let* info := GetPageInfo (vm_pt s) top curr in
        Ok (if i_size info =? 0 then None else Some info, s)
  else Ok (Some info, s).

(** The 512 parts of a 1 GiB page, each with a copy of its own; false when there
    was no memory for one. *)
Definition split_cow_1g (s : vm) (top page_start phys new_flags : Z) : res (bool * vm) :=
  loop 513 (fun '(s, j) =>
    if j <? 512 then
      let v := u64 (page_start + j * PAGE_2MB) in
      let p := u64 (phys + j * PAGE_2MB) in
      let '(new_phys, s) := request2m s in
      if new_phys =? 0 then Ok (inr (false, s))
      else
        let s := set_phys s (copy_page_bytes (vm_phys s) new_phys p PAGE_2MB) in
        let* s := map2m top v new_phys new_flags s in
        Ok (inl (s, j + 1))
    else Ok (inr (true, s))) (s, 0).

(** A page of its own in place of one shared for copy-on-write. *)
Definition unshare (s : vm) (top curr : Z) (info : PageInfo) : res (option PageInfo * vm) :=
  let new_flags := Z.lor (Z.land (i_flags info) (not64 VMM_COW_BIT)) MM_WRITE in
  let page_start := Z.land curr (not64 (i_size info - 1)) in
  let old_phys := i_phys info in
  if i_size info =? PAGE_1GB then
    let* s := unmap top page_start s in
    let* (done, s) := split_cow_1g s top page_start old_phys new_flags in
    if negb done then Ok (None, s)
    else
      let* info := GetPageInfo (vm_pt s) top curr in
      let* s := unref_pages (PAGE_1GB / PAGE_SIZE) old_phys s in
      Ok (Some info, s)
  else if i_size info =? PAGE_2MB then
    let '(new_phys, s) := request2m s in
    if new_phys =? 0 then Ok (None, s)
    else
      let s := set_phys s (copy_page_bytes (vm_phys s) new_phys old_phys PAGE_2MB) in
      let* s := map2m top page_start new_phys new_flags s in
      let* s := unref_pages (PAGE_2MB / PAGE_SIZE) old_phys s in
      Ok (Some (Info new_phys (i_size info) (i_flags info)), s)
  else
    let '(new_phys, s) := request s in
    if new_phys =? 0 then Ok (None, s)
    else
      let s := set_phys s (copy_page_bytes (vm_phys s) new_phys old_phys PAGE_SIZE) in
      let* s := map4k top page_start new_phys new_flags s in
      let* s := UnrefSharedPhys old_phys s in
      Ok (Some (Info new_phys (i_size info) (i_flags info)), s).

Definition CopyToUser (conf : vm_conf) (s : vm) (top u_dest : Z) (kmem : Z -> Z) (k_src len : Z) : res (bool * vm) :=
  if len =? 0 then Ok (true, s)
  else if (top =? 0) || (k_src =? 0) then Ok (false, s)
  else if user_space_end conf <? u_dest then Ok (false, s)
  else if user_space_end conf - u_dest + 1 <? len then Ok (false, s)
  else
    loop (copy_rounds len) (fun '(s, offset) =>
      if offset <? len then
        let curr := u64 (u_dest + offset) in
        let* info := GetPageInfo (vm_pt s) top curr in
        let* (got, s) := demand s top curr info in
        match got with
        | None => Ok (inr (false, s))
        | Some info =>
            let is_writable := has (i_flags info) MM_WRITE in
            let is_cow := has (i_flags info) VMM_COW_BIT in
            if negb is_writable && negb is_cow then Ok (inr (false, s))
            else
              let* (got, s) := if is_cow then unshare s top curr info else Ok (Some info, s) in
              match got with
              | None => Ok (inr (false, s))
              | Some info =>
                  if negb (has (i_flags info) MM_USER) then Ok (inr (false, s))
                  else
                    let to_copy := chunk info curr len offset in
                    let mem := write_bytes (vm_phys s) kmem (i_phys info + Z.land curr (i_size info - 1)) (k_src + offset) to_copy in
                    Ok (inl (set_phys s mem, offset + to_copy))
              end
        end
      else Ok (inr (true, s))) (s, 0).

(** * Page faults *)

(** The last fault of a processor and how often it came in a row. *)
Record pf_last : Type := PfLast { rf_cr2 : Z; rf_rip : Z; rf_cnt : Z }.
Definition no_fault : pf_last := PfLast 0 0 0.

(** The bits of the error code. *)
Definition pf_write (ec : Z) : bool := Z.testbit ec 1.
Definition pf_user (ec : Z) : bool := Z.testbit ec 2.
Definition pf_fetch (ec : Z) : bool := Z.testbit ec 4.

(** Whether the fault is the same as the two before, and the new record. *)
Definition repeated (last : pf_last) (cr2 rip : Z) : bool * pf_last :=
  if (rf_cr2 last =? cr2) && (rf_rip last =? rip) then
    let n := u32 (rf_cnt last + 1) in
    if 3 <=? n then (true, PfLast (rf_cr2 last) (rf_rip last) 0) else (false, PfLast (rf_cr2 last) (rf_rip last) n)
  else (false, PfLast cr2 rip 1).

(** The result is 0 when the process can go on; [last] belongs to the processor
    that has the fault, [running] says that it runs a thread. *)
Definition HandlePF (s : vm) (running : bool) (top : Z) (last : pf_last) (cr2 rip ec : Z) : res (Z * pf_last * vm) :=
  if negb running then Ok (1, last, s)
  else if top =? 0 then Ok (1, last, s)
  else
    let '(kill, last) := repeated last cr2 rip in
    if kill then Ok (1, last, s)
    else
      let fault_addr := cr2 / PAGE_SIZE * PAGE_SIZE in
      let* info := GetPageInfo (vm_pt s) top fault_addr in
      if i_size info =? 0 then Ok (1, last, s)
      else if pf_fetch ec then Ok (1, last, s)
      else if pf_user ec && negb (has (i_flags info) MM_USER) then Ok (1, last, s)
      else if negb (pf_write ec) then Ok (1, last, s)
      else if negb (has (i_flags info) VMM_COW_BIT) then
        Ok (if has (i_flags info) MM_WRITE then 0 else 1, last, s)
      else
        let new_flags := Z.lor (Z.land (i_flags info) (not64 VMM_COW_BIT)) MM_WRITE in
        if i_size info =? PAGE_1GB then
          let base := Z.land fault_addr (not64 (PAGE_1GB - 1)) in
          let sub := Z.land (Z.land fault_addr (PAGE_1GB - 1)) (not64 (PAGE_2MB - 1)) in
          let* s := unmap top base s in
          let* s := for_up 512 0 (fun j s =>
            let off := j * PAGE_2MB in
            if off =? sub then Ok s else map2m top (u64 (base + off)) (u64 (i_phys info + off)) (i_flags info) s) s in
          let '(np, s) := request2m s in
          if np =? 0 then Ok (1, last, s)
          else
            let s := set_phys s (copy_page_bytes (vm_phys s) np (u64 (i_phys info + sub)) PAGE_2MB) in
            let* s := map2m top (u64 (base + sub)) np new_flags s in
            let* s := unref_pages (PAGE_2MB / PAGE_SIZE) (u64 (i_phys info + sub)) s in
            Ok (0, last, s)
        else if i_size info =? PAGE_2MB then
          let base := Z.land fault_addr (not64 (PAGE_2MB - 1)) in
          let '(np, s) := request2m s in
          if np =? 0 then Ok (1, last, s)
          else
            let s := set_phys s (copy_page_bytes (vm_phys s) np (i_phys info) PAGE_2MB) in
            let* s := map2m top base np new_flags s in
            let* s := unref_pages (PAGE_2MB / PAGE_SIZE) (i_phys info) s in
            Ok (0, last, s)
        else
          let '(np, s) := request s in
          if np =? 0 then Ok (1, last, s)
          else
            let s := set_phys s (copy_page_bytes (vm_phys s) np (i_phys info) PAGE_SIZE) in
            let* s := map4k top fault_addr np new_flags s in
            let* s := UnrefSharedPhys (i_phys info) s in
            Ok (0, last, s).
