(* ===== verification/UserView.v ===== *)
(** What a process sees: the translation of an address and the byte behind it,
    how mapping and unmapping change them, the stock of fresh pages; copies from a
    process; changes that the process cannot see. *)
From stdpp Require Import base gmap list fin_maps.
From Stdlib Require Import ZArith Lia.
From S2P Require Import Prelude RBTree PMM VMA PageTab PageTabInv PageTabMap PageTabRange PageTabFree RefCount Vmm UserAccess.

Open Scope Z_scope.
Open Scope c_scope.

(** * Translations *)

(** The physical address behind [w], and the byte there. *)
Definition phys_at (s : pt_state) (top w : Z) : option Z :=
  match GetPageInfo s top w with
  | Ok i => if i_size i =? 0 then None else Some (i_phys i + w mod i_size i)
  | _ => None
  end.

Definition view (s : vm) (top w : Z) : option Z := vm_phys s <$> phys_at (vm_pt s) top w.

(** [w] is in a page that the process may write without a copy. *)
Definition private (s : pt_state) (top w : Z) : Prop := exists i, GetPageInfo s top w = Ok i /\ i_size i <> 0 /\ has (i_flags i) VMM_COW_BIT = false /\ has (i_flags i) MM_WRITE = true.

Lemma page_bytes_pos l : 0 < page_bytes l.
Proof. destruct l as [|[|[|l]]]; reflexivity. Qed.

Lemma low_mask_mod l x : (1 <= l <= 3)%nat -> Z.land x (page_bytes l - 1) = x mod page_bytes l.
Proof. intros Hl. rewrite page_bytes_sh by lia. replace (2 ^ sh l - 1) with (Z.ones (sh l)) by (rewrite Z.ones_equiv; lia). apply Z.land_ones. unfold sh. lia. Qed.

(** The three sizes of pages, by level. *)
Lemma page_sizes top tags s v i : pt_ok top tags s -> GetPageInfo s top v = Ok i -> i_size i <> 0 -> (1 <= level_of (i_size i) <= 3)%nat /\ i_size i = page_bytes (level_of (i_size i)).
Proof.
  intros Hok Hi Hs. destruct (info_sizes top tags s v 4 top i Hok (path_top _ _ _) Hi) as [->|[E|[E|E]]]; [now cbn in Hs|..]; rewrite E; vm_compute; repeat split; lia.
Qed.

Lemma level_bytes l : (1 <= l <= 3)%nat -> level_of (page_bytes l) = l.
Proof. intros H. destruct l as [|[|[|[|l]]]]; try lia; reflexivity. Qed.

Lemma vkey_same l v w : (1 <= l <= 3)%nat -> w / page_bytes l = v / page_bytes l -> vkey l w = vkey l v.
Proof. intros Hl E. unfold vkey. now rewrite <- page_bytes_sh, E. Qed.

(** The converse holds in the address space of 48 bits. *)
Lemma vkey_page l v w : (1 <= l <= 3)%nat -> 0 <= v < 2 ^ 48 -> 0 <= w < 2 ^ 48 -> vkey l w = vkey l v <-> w / page_bytes l = v / page_bytes l.
Proof. intros Hl Hv Hw. rewrite !vkey_mod, !Z.mod_small, page_bytes_sh by lia. reflexivity. Qed.

(** The start of a page. *)
Lemma not64_mask l v : (1 <= l <= 3)%nat -> 0 <= v < 2 ^ 64 -> Z.land v (not64 (page_bytes l - 1)) = v - v mod page_bytes l.
Proof.
  intros Hl Hv. assert (Hsh : 0 <= sh l <= 63) by (unfold sh; lia). rewrite page_bytes_sh by lia.
  assert (E : Z.land v (not64 (2 ^ sh l - 1)) = Z.ldiff v (Z.ones (sh l))).
  { apply Z.bits_inj'. intros n Hn. rewrite Z.land_spec, Z.ldiff_spec. unfold not64, u64. replace (2 ^ sh l - 1) with (Z.ones (sh l)) by (rewrite Z.ones_equiv; lia).
    destruct (Z.lt_ge_cases n 64) as [Hlt|Hge]; [rewrite Z.mod_pow2_bits_low, Z.lnot_spec by lia; reflexivity|].
    rewrite Z.mod_pow2_bits_high by lia. destruct (Z.eq_dec v 0) as [->|]; [now rewrite Z.bits_0|]. rewrite (Z.bits_above_log2 v); [reflexivity|lia|]. apply Z.log2_lt_pow2; [lia|]. apply Z.lt_le_trans with (2 ^ 64); [lia|]. now apply Z.pow_le_mono_r. }
  rewrite E, Z.ldiff_ones_r, Z.shiftr_div_pow2, Z.shiftl_mul_pow2 by lia. pose proof (Z.div_mod v (2 ^ sh l)). lia.
Qed.

Lemma page_start_same l v : 0 < page_bytes l -> (v - v mod page_bytes l) / page_bytes l = v / page_bytes l /\ (v - v mod page_bytes l) mod page_bytes l = 0.
Proof. intros H. pose proof (Z.div_mod v (page_bytes l)). replace (v - v mod page_bytes l) with (v / page_bytes l * page_bytes l) by lia. rewrite Z.div_mul, Z.mod_mul by lia. auto. Qed.

(** * Changes of translations *)

Section Change.
Context (top : Z) (s s' : pt_state).

Lemma mapped_phys l v p f : mapped_as top s l v p f s' -> (1 <= l <= 3)%nat -> 0 <= p < 2 ^ 52 -> p mod page_bytes l = 0 -> PAGE_EXISTS f = true ->
  forall w, phys_at s' top w = if decide (vkey l w = vkey l v) then Some (p + w mod page_bytes l) else phys_at s top w.
Proof.
  intros Hm Hl Hp Hpa Hf w. unfold phys_at. rewrite Hm, Hf. destruct (decide _) as [E|E]; [|reflexivity]. unfold mapping. cbn [i_size i_phys].
  pose proof (page_bytes_pos l). rewrite (proj2 (Z.eqb_neq _ _)) by lia. now rewrite (aligned_mask l p Hl Hp Hpa).
Qed.

Lemma unmapped_phys i v : unmapped_at top s i v s' -> forall w, phys_at s' top w = if decide (i_size i <> 0 /\ vkey (level_of (i_size i)) w = vkey (level_of (i_size i)) v) then None else phys_at s top w.
Proof. intros Hm w. unfold phys_at. rewrite Hm. destruct (decide _) as [E|E]; reflexivity. Qed.
End Change.

Lemma phys_info top tags s v i : pt_ok top tags s -> GetPageInfo s top v = Ok i -> i_size i <> 0 ->
  forall w, vkey (level_of (i_size i)) w = vkey (level_of (i_size i)) v -> phys_at s top w = Some (i_phys i + w mod i_size i).
Proof. intros Hok Hi Hs w Hw. unfold phys_at. rewrite (get_leaf top tags s v w i Hok Hi Hs Hw). now rewrite (proj2 (Z.eqb_neq _ _) Hs). Qed.

(** The process may read [w]. *)
Definition readable (s : vm) (top w : Z) : Prop := exists i, GetPageInfo (vm_pt s) top w = Ok i /\ i_size i <> 0 /\ has (i_flags i) MM_USER = true.

(** A copy to [w] can go on: the page is the user's and writable, perhaps after a
    copy, or there is none yet and the address belongs to a region. *)
Definition ready (s : vm) (top w : Z) : Prop := exists i, GetPageInfo (vm_pt s) top w = Ok i /\
  ((i_size i <> 0 /\ has (i_flags i) MM_USER = true /\ (has (i_flags i) MM_WRITE || has (i_flags i) VMM_COW_BIT) = true) \/
   (i_size i = 0 /\ exists r, FindRegion (vm_vma s) w = Ok r /\ r <> 0)).

(** * Fresh pages *)

(** The next [n] requests succeed. *)
Definition supply (n : nat) (l : list Z) : Prop := (n <= length l)%nat /\ Forall (fun p => p <> 0) (take n l).
Definition supplied (a b : nat) (s : vm) : Prop := supply a (vm_req s) /\ supply b (vm_req2m s).

Lemma supply_le m n l : supply m l -> (n <= m)%nat -> supply n l.
Proof. intros [H1 H2] Hle. split; [lia|]. apply (Forall_take _ n) in H2. rewrite take_take in H2. now replace (n `min` m)%nat with n in H2 by lia. Qed.

Lemma supplied_le a b a' b' s : supplied a b s -> (a' <= a)%nat -> (b' <= b)%nat -> supplied a' b' s.
Proof. intros [H1 H2] Ha Hb. split; eauto using supply_le. Qed.

Lemma supply_head n l : supply (S n) l -> exists p r, l = p :: r /\ p <> 0 /\ supply n r.
Proof. intros [H1 H2]. destruct l as [|p r]; [cbn in H1; lia|]. cbn in H2. inversion H2. subst. exists p, r. split; [reflexivity|]. split; [assumption|]. split; [cbn in H1; lia|assumption]. Qed.

(** Requests for pages of 4 KiB and of 2 MiB by level. *)
Definition need4k (l : nat) : nat := match l with 1%nat => 1 | _ => 0 end.
Definition need2m (l : nat) : nat := match l with 2%nat => 1 | _ => 0 end.

Definition apart (p n q m : Z) : Prop := p + n <= q \/ q + m <= p.

(** [a] is in a page that the coming requests hand out. *)
Definition reserved (s : vm) (a : Z) : Prop :=
  (exists p, p ∈ vm_req s /\ p <> 0 /\ p <= a < p + PAGE_SIZE) \/ (exists p, p ∈ vm_req2m s /\ p <> 0 /\ p <= a < p + PAGE_2MB).

(** The page allocator hands out aligned pages that do not overlap. *)
Record stock_ok (s : vm) : Prop := {
  st_4k : forall p, p ∈ vm_req s -> p <> 0 -> p mod PAGE_SIZE = 0 /\ 0 < p < 2 ^ 52;
  st_2m : forall p, p ∈ vm_req2m s -> p <> 0 -> p mod PAGE_2MB = 0 /\ 0 < p < 2 ^ 52;
  st_44 : forall i j p q, (i < j)%nat -> vm_req s !! i = Some p -> vm_req s !! j = Some q -> p <> 0 -> q <> 0 -> apart p PAGE_SIZE q PAGE_SIZE;
  st_22 : forall i j p q, (i < j)%nat -> vm_req2m s !! i = Some p -> vm_req2m s !! j = Some q -> p <> 0 -> q <> 0 -> apart p PAGE_2MB q PAGE_2MB;
  st_42 : forall p q, p ∈ vm_req s -> q ∈ vm_req2m s -> p <> 0 -> q <> 0 -> apart p PAGE_SIZE q PAGE_2MB
}.

(** Everything but the requests is the same. *)
Definition same_but_stock (s s' : vm) : Prop :=
  vm_pt s' = vm_pt s /\ vm_vma s' = vm_vma s /\ vm_rc s' = vm_rc s /\ vm_phys s' = vm_phys s.

(** [p] is a page of level [l] taken from the stock. *)
Definition taken (s s' : vm) (l : nat) (p : Z) : Prop :=
  p mod page_bytes l = 0 /\ 0 < p < 2 ^ 52 /\ forall a, p <= a < p + page_bytes l -> reserved s a /\ ~ reserved s' a.

Definition stock_step (s : vm) (l : nat) (x : Z * vm) : Prop :=
  let '(p, s') := x in same_but_stock s s' /\ stock_ok s' /\ (forall a, reserved s' a -> reserved s a) /\ (p <> 0 -> taken s s' l p) /\
  forall a b, supplied (need4k l + a) (need2m l + b) s -> p <> 0 /\ supplied a b s'.

Lemma request_ok s : stock_ok s -> stock_step s 1 (request s).
Proof.
  intros Hs. pose proof Hs as [H1 H2 H3 H4 H5]. unfold request, stock_step. destruct (vm_req s) as [|p r] eqn:E; [split; [repeat split|split; [exact Hs|split; [auto|split; [easy|]]]]; intros a b Hsup; destruct Hsup as [Hsup _]; rewrite E in Hsup; apply supply_head in Hsup as (? & ? & ? & _); discriminate|].
  split; [repeat split|]. split.
  { split; cbn [vm_req vm_req2m]; auto; intros; [apply H1; [now right|auto]|apply (H3 (S i) (S j)); auto; lia|apply H5; auto; now right]. }
  split.
  { intros a [(q & Hq & Hz & Ha)|H]; [|now right]. left. exists q. rewrite E. cbn in Hq. split; [now right|auto]. }
  split.
  2:{ intros a b [Hs4 Hs2]. rewrite E in Hs4. apply supply_head in Hs4 as (? & ? & [= <- <-] & ? & ?). split; [assumption|]. split; assumption. }
  intros Hp. destruct (H1 p ltac:(now left) Hp) as [Ha Hb]. split; [exact Ha|]. split; [exact Hb|]. intros a Hr. change (page_bytes 1) with PAGE_SIZE in Hr. split; [left; exists p; rewrite E; split; [now left|auto]|].
  intros [(q & Hq & Hz & Hq2)|(q & Hq & Hz & Hq2)]; cbn [vm_req vm_req2m] in Hq.
  - apply list_elem_of_lookup in Hq as [j Hj]. destruct (H3 O (S j) p q ltac:(lia) eq_refl Hj Hp Hz); lia.
  - destruct (H5 p q ltac:(now left) Hq Hp Hz); lia.
Qed.

Lemma request2m_ok s : stock_ok s -> stock_step s 2 (request2m s).
Proof.
  intros Hs. pose proof Hs as [H1 H2 H3 H4 H5]. unfold request2m, stock_step. destruct (vm_req2m s) as [|p r] eqn:E; [split; [repeat split|split; [exact Hs|split; [auto|split; [easy|]]]]; intros a b Hsup; destruct Hsup as [_ Hsup]; rewrite E in Hsup; apply supply_head in Hsup as (? & ? & ? & _); discriminate|].
  split; [repeat split|]. split.
  { split; cbn [vm_req vm_req2m]; auto; intros; [apply H2; [now right|auto]|apply (H4 (S i) (S j)); auto; lia|apply H5; auto; now right]. }
  split.
  { intros a [H|(q & Hq & Hz & Ha)]; [now left|]. right. exists q. rewrite E. cbn in Hq. split; [now right|auto]. }
  split.
  2:{ intros a b [Hs4 Hs2]. rewrite E in Hs2. apply supply_head in Hs2 as (? & ? & [= <- <-] & ? & ?). split; [assumption|]. split; assumption. }
  intros Hp. destruct (H2 p ltac:(now left) Hp) as [Ha Hb]. split; [exact Ha|]. split; [exact Hb|]. intros a Hr. change (page_bytes 2) with PAGE_2MB in Hr. split; [right; exists p; rewrite E; split; [now left|auto]|].
  intros [(q & Hq & Hz & Hq2)|(q & Hq & Hz & Hq2)]; cbn [vm_req vm_req2m] in Hq.
  - destruct (H5 q p Hq ltac:(now left) Hz Hp); lia.
  - apply list_elem_of_lookup in Hq as [j Hj]. destruct (H4 O (S j) p q ltac:(lia) eq_refl Hj Hp Hz); lia.
Qed.

(** Copies from a process: [CopyFromUser] reads what the process sees, up to the
    first byte that it may not read. *)

(** * Rounds *)

(** A round of a copy that starts at [v] stays in the page of [v] and ends at
    the end of the page or of the buffer. *)
Lemma chunk_ok l i v len o : (1 <= l <= 3)%nat -> i_size i = page_bytes l -> o < len -> let c := chunk i v len o in
  0 < c <= len - o /\ Z.land v (i_size i - 1) = v mod page_bytes l /\
  (forall w, v <= w < v + c -> w / page_bytes l = v / page_bytes l /\ w mod page_bytes l = v mod page_bytes l + (w - v)) /\
  (o + c = len \/ v / PAGE_SIZE < (v + c) / PAGE_SIZE) /\
  (o + c < len -> v + c = (v / page_bytes l + 1) * page_bytes l).
Proof.
  intros Hl Hs Ho. cbv zeta. unfold chunk. rewrite Hs, low_mask_mod by exact Hl. pose proof (page_bytes_pos l) as Hb. pose proof (Z.mod_pos_bound v (page_bytes l) Hb) as Hm. pose proof (Z.div_mod v (page_bytes l)) as Hd.
  assert (Hin : forall w, v <= w < v + (page_bytes l - v mod page_bytes l) -> w / page_bytes l = v / page_bytes l /\ w mod page_bytes l = v mod page_bytes l + (w - v)).
  { intros w Hw. assert (E : w / page_bytes l = v / page_bytes l) by (symmetry; apply (Z.div_unique w (page_bytes l) _ (v mod page_bytes l + (w - v))); lia). split; [exact E|]. pose proof (Z.div_mod w (page_bytes l)). rewrite E in *. lia. }
  assert (Hend : v / PAGE_SIZE < (v + (page_bytes l - v mod page_bytes l)) / PAGE_SIZE).
  { replace (v + (page_bytes l - v mod page_bytes l)) with ((v / page_bytes l + 1) * page_bytes l) by lia. assert (page_bytes l = PAGE_SIZE * (page_bytes l / PAGE_SIZE)) as E by (destruct l as [|[|[|l]]]; reflexivity).
    assert (E2 : (v / page_bytes l + 1) * page_bytes l / PAGE_SIZE = (v / page_bytes l + 1) * (page_bytes l / PAGE_SIZE)) by (rewrite E at 2; rewrite (Z.mul_comm PAGE_SIZE), Z.mul_assoc; apply Z.div_mul; unfold PAGE_SIZE; lia).
    rewrite E2. apply Z.div_lt_upper_bound; [unfold PAGE_SIZE; lia|]. rewrite Z.mul_comm, <- Z.mul_assoc, (Z.mul_comm _ PAGE_SIZE), <- E. lia. }
  destruct (len - o <? page_bytes l - v mod page_bytes l) eqn:E; to_prop.
  - split; [lia|]. split; [reflexivity|]. split; [intros w Hw; apply Hin; lia|]. split; [left; lia|lia].
  - split; [lia|]. split; [reflexivity|]. split; [exact Hin|]. split; [now right|lia].
Qed.

(** What is left to do, in rounds. *)
Definition rounds_left (u len o : Z) : nat := if o <? len then Z.to_nat ((u + len - 1) / PAGE_SIZE - (u + o) / PAGE_SIZE + 1) else O.

Lemma rounds_enough u len : 0 <= len -> (rounds_left u len 0 < copy_rounds len)%nat.
Proof. intros H. unfold rounds_left, copy_rounds. destruct (0 <? len) eqn:E; to_prop; [|pose proof (Z.div_pos len PAGE_SIZE H ltac:(unfold PAGE_SIZE; lia)); lia]. rewrite Z.add_0_r. unfold PAGE_SIZE. dlia. Qed.

Lemma rounds_less u len o c : 0 <= o < len -> 0 < c <= len - o -> o + c = len \/ (u + o) / PAGE_SIZE < (u + o + c) / PAGE_SIZE -> (rounds_left u len (o + c) < rounds_left u len o)%nat.
Proof.
  intros Ho Hc H. unfold rounds_left. rewrite (proj2 (Z.ltb_lt o len)) by lia. assert (Hm : (u + o) / PAGE_SIZE <= (u + len - 1) / PAGE_SIZE) by (apply Z.div_le_mono; unfold PAGE_SIZE; lia).
  destruct (o + c <? len) eqn:E; to_prop; [|lia]. destruct H as [H|H]; [lia|]. rewrite Z.add_assoc. assert ((u + o + c) / PAGE_SIZE <= (u + len - 1) / PAGE_SIZE) by (apply Z.div_le_mono; unfold PAGE_SIZE; lia). lia.
Qed.

(** * The copy *)

(** [n] bytes of the process from [u] are in the kernel's memory at [k], and the
    rest of that is as before. *)
Definition fetched (s : vm) (top : Z) (kmem : Z -> Z) (k u n : Z) (kmem' : Z -> Z) : Prop :=
  forall a, (k <= a < k + n -> Some (kmem' a) = view s top (u + (a - k))) /\ (~ k <= a < k + n -> kmem' a = kmem a).

Section Fetch.
Context (conf : vm_conf) (s : vm) (top : Z) (tags : tag_map) (Hok : pt_ok top tags (vm_pt s)).
Context (kmem : Z -> Z) (k u len : Z) (Hu : 0 < u) (Hk : k <> 0) (Ht : top <> 0) (Hlen : 0 <= len) (Hend : u + len <= user_space_end conf + 1).

Lemma user_end_bound : user_space_end conf < 2 ^ 64 - 1.
Proof. unfold user_space_end. destruct (IsPM5LVL conf); reflexivity. Qed.

Lemma user_addr o : 0 <= o <= len -> u64 (u + o) = u + o.
Proof. intros Ho. pose proof user_end_bound. apply Z.mod_small. lia. Qed.

Definition fetch_inv (x : (Z -> Z) * Z) : Prop := let '(km, o) := x in 0 <= o <= len /\ (forall j, 0 <= j < o -> readable s top (u + j)) /\ fetched s top kmem k u o km.

Lemma fetch_step km o i : fetch_inv (km, o) -> o < len -> GetPageInfo (vm_pt s) top (u + o) = Ok i -> i_size i <> 0 -> has (i_flags i) MM_USER = true ->
  let c := chunk i (u + o) len o in
  fetch_inv (write_bytes km (vm_phys s) (k + o) (i_phys i + Z.land (u + o) (i_size i - 1)) c, o + c) /\ (rounds_left u len (o + c) < rounds_left u len o)%nat.
Proof.
  intros (Ho & Hr & Hf) Hlt Hi Hs Hus. cbv zeta. destruct (page_sizes top tags _ _ i Hok Hi Hs) as [Hl Hsz]. set (l := level_of (i_size i)) in *.
  destruct (chunk_ok l i (u + o) len o Hl Hsz Hlt) as (Hc & Hm & Hin & Hadv & _). set (c := chunk i (u + o) len o) in *.
  assert (Hget : forall w, u + o <= w < u + o + c -> GetPageInfo (vm_pt s) top w = Ok i) by (intros w Hw; apply (get_leaf top tags _ (u + o) w i Hok Hi Hs); apply vkey_same; [exact Hl|now apply Hin]).
  split; [|apply rounds_less; auto; lia]. split; [lia|]. split.
  - intros j Hj. destruct (Z.lt_ge_cases j o); [apply Hr; lia|]. exists i. split; [apply Hget; lia|auto].
  - intros a. unfold write_bytes. destruct (Hf a) as [Hf1 Hf2]. split; intros Ha.
    + destruct (Z.leb_spec (k + o) a), (Z.ltb_spec a (k + o + c)); cbn [andb]; try (apply Hf1; lia). unfold view, phys_at. rewrite Hget by lia. rewrite (proj2 (Z.eqb_neq _ _) Hs). cbn [fmap option_fmap option_map].
      rewrite Hm, Hsz. destruct (Hin (u + (a - k)) ltac:(lia)) as [_ ->]. f_equal. f_equal. lia.
    + destruct (Z.leb_spec (k + o) a), (Z.ltb_spec a (k + o + c)); cbn [andb]; try lia; apply Hf2; lia.
Qed.

Lemma CopyFromUser_ok : wp (CopyFromUser conf s top kmem k u len) (fun '(b, km) => exists n, 0 <= n <= len /\ (forall j, 0 <= j < n -> readable s top (u + j)) /\
  fetched s top kmem k u n km /\ if b : bool then n = len else n < len /\ ~ readable s top (u + n)).
Proof.
  unfold CopyFromUser. destruct (len =? 0) eqn:E0; to_prop; [cbn; exists 0; split; [lia|]; split; [lia|]; split; [intros a; split; [lia|reflexivity]|auto]|].
  rewrite (proj2 (Z.eqb_neq _ _) Ht), (proj2 (Z.eqb_neq _ _) Hk), (proj2 (Z.eqb_neq u 0)) by lia. cbn [orb]. rewrite (proj2 (Z.ltb_ge _ u)), (proj2 (Z.ltb_ge _ len)) by lia.
  apply (wp_loop fetch_inv (fun '(_, o) => rounds_left u len o)).
  2:{ split; [lia|]. split; [lia|]. intros a. split; [lia|reflexivity]. }
  2:{ now apply rounds_enough. }
  intros [km o] Hinv. pose proof Hinv as (Ho & Hr & Hf). destruct (o <? len) eqn:Elt; to_prop; [|cbn; exists o; replace o with len in * by lia; auto]. rewrite user_addr by lia.
  destruct (walk_total top tags (vm_pt s) Hok (u + o)) as (i & Hi). rewrite Hi. cbn [bind].
  assert (Hstop : (i_size i = 0 \/ has (i_flags i) MM_USER = false) -> exists n, 0 <= n <= len /\ (forall j, 0 <= j < n -> readable s top (u + j)) /\ fetched s top kmem k u n km /\ (n < len /\ ~ readable s top (u + n))).
  { intros Hn. exists o. split; [lia|]. split; [exact Hr|]. split; [exact Hf|]. split; [lia|]. intros (i' & Hi' & H1 & H2). rewrite Hi in Hi'. injection Hi' as <-. destruct Hn; congruence. }
  destruct (i_size i =? 0) eqn:Es; to_prop; [unfold step_ok; cbn; auto|]. destruct (has (i_flags i) MM_USER) eqn:Eu; cbn [negb]; [|unfold step_ok; cbn; auto].
  unfold step_ok. cbn [wp]. now apply fetch_step.
Qed.
End Fetch.

(** Changes of a process's pages that the process cannot see: what it can read
    stays the same, and only fresh pages are written. *)

(** * Flags *)

Lemma has_bit f k : 0 <= k -> has f (2 ^ k) = Z.testbit f k.
Proof.
  intros Hk. unfold has. destruct (Z.testbit f k) eqn:E.
  - apply negb_true_iff, Z.eqb_neq. intros H. assert (Z.testbit (Z.land f (2 ^ k)) k = false) by (rewrite H; apply Z.bits_0). rewrite Z.land_spec, E, Z.pow2_bits_true in H0 by exact Hk. discriminate.
  - apply negb_false_iff, Z.eqb_eq. apply Z.bits_inj'. intros n Hn. rewrite Z.land_spec, Z.bits_0, Z.pow2_bits_eqb by exact Hk. destruct (Z.eqb_spec k n) as [<-|]; [now rewrite E|apply andb_false_r].
Qed.

Lemma exists_bit f : PAGE_EXISTS f = Z.testbit f 0.
Proof. unfold PAGE_EXISTS. change MM_READ with (2 ^ 0). now apply has_bit. Qed.

(** The flags of a page made writable. *)
Definition cow_flags (f : Z) : Z := Z.lor (Z.land f (not64 VMM_COW_BIT)) MM_WRITE.

Lemma cow_flags_bits f : has (cow_flags f) VMM_COW_BIT = false /\ has (cow_flags f) MM_WRITE = true /\ has (cow_flags f) MM_USER = has f MM_USER /\ PAGE_EXISTS (cow_flags f) = PAGE_EXISTS f.
Proof.
  rewrite !exists_bit. change VMM_COW_BIT with (2 ^ 55). change MM_WRITE with (2 ^ 1). change MM_USER with (2 ^ 2). rewrite !has_bit by lia. unfold cow_flags. rewrite !Z.lor_spec, !Z.land_spec.
  change (Z.testbit (not64 VMM_COW_BIT) 55) with false. change (Z.testbit MM_WRITE 55) with false. change (Z.testbit MM_WRITE 1) with true. change (Z.testbit (not64 VMM_COW_BIT) 2) with true. change (Z.testbit MM_WRITE 2) with false.
  change (Z.testbit (not64 VMM_COW_BIT) 0) with true. change (Z.testbit MM_WRITE 0) with false. now rewrite !andb_true_r, !andb_false_r, !orb_false_r, orb_true_r.
Qed.

(** The flags that a walk finds are those given to the mapping. *)
Lemma mapping_flags l p f : has (i_flags (mapping l p f)) VMM_COW_BIT = has f VMM_COW_BIT /\ has (i_flags (mapping l p f)) MM_WRITE = has f MM_WRITE /\ has (i_flags (mapping l p f)) MM_USER = has f MM_USER.
Proof.
  assert (H : forall k, 0 <= k -> Z.testbit PTE_KEEP k = true -> k <> 7 -> has (i_flags (mapping l p f)) (2 ^ k) = has f (2 ^ k)).
  { intros k Hk Hkeep H7. rewrite !has_bit by exact Hk. unfold mapping. cbn [i_flags]. destruct l as [|[|l]]; rewrite ?Z.lor_spec, Z.land_spec, Hkeep, andb_true_r; try reflexivity;
      unfold VMM_PS_BIT; rewrite Z.pow2_bits_false by congruence; apply orb_false_r. }
  split; [|split]; [apply (H 55)|apply (H 1)|apply (H 2)]; try lia; reflexivity.
Qed.

Lemma info_exists l s t v i : info_at l s t v = Ok i -> i_size i <> 0 -> PAGE_EXISTS (i_flags i) = true.
Proof.
  revert t. induction l as [|l IH]; intros t Hi Hs; [discriminate|]. cbn [info_at] in Hi. destruct (table_get s t (idx (S l) v)) as [e| |]; [|discriminate..]. cbn [bind] in Hi.
  destruct (PAGE_EXISTS e) eqn:Ex; cbn [negb] in Hi; [|injection Hi as <-; now cbn in Hs]. destruct (leafy (S l) e); [|now apply (IH _ Hi)]. injection Hi as <-. cbn [leaf_info i_flags].
  rewrite exists_bit in *. rewrite Z.land_spec, Ex. reflexivity.
Qed.

(** * The invariant *)

(** The tables and the counts are in order, and no page of the stock is in use. *)
Record user_ok (top : Z) (s : vm) : Prop := {
  u_pt : exists tags, pt_ok top tags (vm_pt s);
  u_rc : exists C, rc_ok C (vm_rc s);
  u_stock : stock_ok s;
  u_apart : forall w a, phys_at (vm_pt s) top w = Some a -> ~ reserved s a
}.

(** A page of the stock is behind one address only. *)
Definition sole (s : vm) (top w a : Z) : Prop := 0 <= w < 2 ^ 48 -> forall w', 0 <= w' < 2 ^ 48 -> phys_at (vm_pt s) top w' = Some a -> w' = w.

Record unseen (top : Z) (s s' : vm) : Prop := {
  q_view : forall w x, view s top w = Some x -> view s' top w = Some x;
  q_mem : forall a, ~ reserved s a -> vm_phys s' a = vm_phys s a;
  q_res : forall a, reserved s' a -> reserved s a;
  q_phys : forall w a, phys_at (vm_pt s') top w = Some a ->
    (phys_at (vm_pt s) top w = Some a /\ (private (vm_pt s') top w -> private (vm_pt s) top w)) \/ (reserved s a /\ ~ reserved s' a /\ sole s' top w a);
  q_user : forall w, readable s top w -> readable s' top w;
  q_vma : vm_vma s' = vm_vma s
}.

(** Where copies could go on they still can. *)
Record quiet (top : Z) (s s' : vm) : Prop := {
  q_unseen :> unseen top s s';
  q_ready : forall w, ready s top w -> ready s' top w
}.

Lemma quiet_refl top s : quiet top s s.
Proof. repeat split; auto. Qed.

Lemma quiet_trans top s1 s2 s3 : quiet top s1 s2 -> quiet top s2 s3 -> quiet top s1 s3.
Proof.
  intros [[A1 A2 A3 A4 A5 A6] A7] [[B1 B2 B3 B4 B5 B6] B7]. split; [|auto]. split; auto.
  - intros a Ha. rewrite B2 by (intros H; apply Ha; auto). auto.
  - intros w a Hw. destruct (B4 w a Hw) as [[H1 H2]|(H1 & H2 & H3)]; [|right; auto]. destruct (A4 w a H1) as [[H3 H4]|(H3 & H4 & H5)]; [left; auto|right].
    split; [exact H3|]. split; [auto|]. intros Hb w' Hb' Hw'. destruct (B4 w' a Hw') as [[H6 _]|(H6 & _)]; [now apply H5|contradiction].
  - congruence.
Qed.

(** A change of the request lists alone. *)
Lemma same_quiet top s s' : same_but_stock s s' -> (forall a, reserved s' a -> reserved s a) -> quiet top s s'.
Proof.
  intros (E1 & E2 & E3 & E4) Hr. split; [split; auto|]; unfold view, readable, ready; rewrite ?E1, ?E2, ?E4; auto.
Qed.

Lemma same_user_ok top s s' : same_but_stock s s' -> stock_ok s' -> (forall a, reserved s' a -> reserved s a) -> user_ok top s -> user_ok top s'.
Proof. intros (E1 & E2 & E3 & E4) Hs Hr [H1 H2 H3 H4]. split; rewrite ?E1, ?E3; auto. intros w a Hw Ha. eapply H4; eauto. Qed.

(** Pages that are mapped without a copy are mapped once. *)
Definition once (s : vm) (top lo hi : Z) : Prop :=
  forall w1 w2 a, lo <= w1 < hi -> 0 <= w2 < 2 ^ 48 -> private (vm_pt s) top w1 -> phys_at (vm_pt s) top w1 = Some a -> phys_at (vm_pt s) top w2 = Some a -> w2 = w1.

Lemma quiet_once top s s' lo hi : 0 <= lo -> hi <= 2 ^ 48 -> quiet top s s' -> once s top lo hi -> once s' top lo hi.
Proof.
  intros Hlo Hhi Hq Ho w1 w2 a H1 H2 Hp P1 P2. destruct (q_phys _ _ _ Hq w1 a P1) as [[E1 F1]|(_ & _ & F)]; [|apply F; auto; lia].
  destruct (q_phys _ _ _ Hq w2 a P2) as [[E2 _]|(_ & _ & F)]; [apply (Ho w1 w2 a); auto|symmetry; apply F; auto; lia].
Qed.

(** * A fresh page *)

Lemma phys_in_page top s w a : phys_at (vm_pt s) top w = Some a -> view s top w = Some (vm_phys s a).
Proof. unfold view. now intros ->. Qed.

Section Fresh.
Context (top : Z) (s s1 : vm) (l : nat) (v p f : Z) (mem : Z -> Z) (pt : pt_state) (tags : tag_map).
Context (Hu : user_ok top s) (Hst : stock_step s l (p, s1)) (Hp : p <> 0) (Hl : (1 <= l <= 2)%nat).
Context (Hpt : pt_ok top tags pt) (Hm : mapped_as top (vm_pt s) l v p f pt) (Hf : PAGE_EXISTS f = true).
Context (Hmem : forall a, ~ p <= a < p + page_bytes l -> mem a = vm_phys s a).
Context (Hview : forall w x, vkey l w = vkey l v -> view s top w = Some x -> mem (p + w mod page_bytes l) = x).
Context (Huser : forall w, vkey l w = vkey l v -> readable s top w -> has f MM_USER = true).

Lemma fresh_phys w : phys_at pt top w = if decide (vkey l w = vkey l v) then Some (p + w mod page_bytes l) else phys_at (vm_pt s) top w.
Proof. destruct Hst as (_ & _ & _ & H & _). destruct (H Hp) as (H1 & H2 & _). apply (mapped_phys top (vm_pt s) pt l v p f Hm); auto; lia. Qed.

Lemma fresh_sole w w' : vkey l w = vkey l v -> 0 <= w < 2 ^ 48 -> 0 <= w' < 2 ^ 48 -> phys_at pt top w' = Some (p + w mod page_bytes l) -> w' = w.
Proof.
  intros Hw Hb Hb' H. destruct Hst as (_ & _ & _ & Ht & _). destruct (Ht Hp) as (_ & _ & Hr). pose proof (page_bytes_pos l) as Hpos. pose proof (Z.mod_pos_bound w (page_bytes l) Hpos) as Hmw. rewrite fresh_phys in H. destruct (decide _) as [E|E].
  - assert (w' mod page_bytes l = w mod page_bytes l) by (injection H; lia). assert (E2 : vkey l w' = vkey l w) by congruence. apply (vkey_page l) in E2; [|lia..]. pose proof (Z.div_mod w (page_bytes l)). pose proof (Z.div_mod w' (page_bytes l)). rewrite E2 in *. lia.
  - exfalso. apply (u_apart _ _ Hu _ _ H). apply Hr. lia.
Qed.

Lemma fresh_ok : let s2 := set_phys (set_pt s1 pt) mem in unseen top s s2 /\ user_ok top s2.
Proof.
  cbv zeta. pose proof Hst as (E & Hs1 & Hmono & Ht & _). destruct E as (E1 & E2 & E3 & E4). destruct (Ht Hp) as (Hal & Hb & Hr). pose proof (page_bytes_pos l) as Hpos.
  assert (Hin : forall w, reserved s (p + w mod page_bytes l) /\ ~ reserved s1 (p + w mod page_bytes l)) by (intros w; pose proof (Z.mod_pos_bound w (page_bytes l) Hpos); apply Hr; lia). split.
  - split; cbn [set_phys set_pt vm_pt vm_phys vm_vma]; auto.
    + intros w x. unfold view. cbn [set_phys set_pt vm_pt vm_phys]. rewrite fresh_phys. destruct (decide _) as [Ek|Ek]; [intros H; cbn; f_equal; now apply Hview|].
      destruct (phys_at (vm_pt s) top w) as [a|] eqn:Ea; [|easy]. cbn. intros [= <-]. f_equal. apply Hmem. intros Ha. apply (u_apart _ _ Hu _ _ Ea). now apply Hr.
    + intros a Ha. apply Hmem. intros H. apply Ha. now apply Hr.
    + intros w a Hw. rewrite fresh_phys in Hw. destruct (decide _) as [Ek|Ek]; [right|left].
      * injection Hw as <-. destruct (Hin w) as [I1 I2]. split; [exact I1|]. split; [exact I2|]. intros Hbw w' Hb' Hw'. now apply fresh_sole.
      * split; [exact Hw|]. intros (i & Hi & Hi2). exists i. split; [|exact Hi2]. now rewrite Hm, decide_False in Hi by exact Ek.
    + intros w Hw. unfold readable. cbn [set_phys set_pt vm_pt]. rewrite Hm. destruct (decide _) as [Ek|Ek]; [|exact Hw]. rewrite Hf. eexists. split; [reflexivity|]. split; [cbn; lia|]. destruct (mapping_flags l p f) as (_ & _ & ->). now apply (Huser w).
  - split; cbn [set_phys set_pt vm_pt vm_rc]; [now exists tags|rewrite E3; apply Hu| |].
    + destruct Hs1. split; assumption.
    + intros w a Hw. rewrite fresh_phys in Hw. destruct (decide _) as [Ek|Ek]; [injection Hw as <-; apply Hin|]. intros Ha. apply (u_apart _ _ Hu _ _ Hw). apply Hmono. exact Ha.
Qed.
Lemma fresh_quiet : (forall w, vkey l w = vkey l v -> ready s top w -> has f MM_USER = true /\ has f MM_WRITE = true) -> let s2 := set_phys (set_pt s1 pt) mem in quiet top s s2 /\ user_ok top s2.
Proof.
  intros Hready. destruct fresh_ok as [Q U]. split; [|exact U]. split; [exact Q|]. pose proof Hst as ((E1 & E2 & _) & _).
  intros w Hw. unfold ready. cbn [set_phys set_pt vm_pt vm_vma]. rewrite Hm, E2. destruct (decide _) as [Ek|Ek]; [|exact Hw]. rewrite Hf. destruct (Hready w Ek Hw) as [R1 R2]. eexists. split; [reflexivity|]. left.
  split; [cbn; pose proof (page_bytes_pos l); lia|]. destruct (mapping_flags l p f) as (_ & -> & ->). now rewrite R1, R2.
Qed.
End Fresh.
