(* ===== verification/UserCow.v ===== *)
(** Copies of shared pages, in [CopyToUser] and in the page-fault handler: the
    process gets a page of its own with the same contents, and the other holders
    see no change; large pages are split first. *)
From stdpp Require Import base gmap list fin_maps.
From Stdlib Require Import ZArith Lia.
From S2P Require Import Prelude RBTree PMM VMA PageTab PageTabInv PageTabMap PageTabRange PageTabFree RefCount Vmm UserAccess UserView.

Open Scope Z_scope.
Open Scope c_scope.

(** * Giving up the old page *)

(** Everything but the counts and the list of released pages is the same. *)
Definition same_mem (s s' : vm) : Prop :=
  vm_pt s' = vm_pt s /\ vm_vma s' = vm_vma s /\ vm_phys s' = vm_phys s /\ vm_req s' = vm_req s /\ vm_req2m s' = vm_req2m s.

Lemma same_mem_refl s : same_mem s s.
Proof. repeat split. Qed.

Lemma same_mem_trans s1 s2 s3 : same_mem s1 s2 -> same_mem s2 s3 -> same_mem s1 s3.
Proof. intros (A1 & A2 & A3 & A4 & A5) (B1 & B2 & B3 & B4 & B5). repeat split; congruence. Qed.

Lemma same_mem_quiet top s s' : same_mem s s' -> quiet top s s'.
Proof.
  intros (E1 & E2 & E3 & E4 & E5). assert (Hr : forall a, reserved s' a <-> reserved s a) by (intros a; unfold reserved; now rewrite E4, E5).
  split; [split; auto|]; unfold view, readable, ready; rewrite ?E1, ?E2, ?E3; auto. intros a Ha. now apply Hr.
Qed.

Lemma same_mem_user top s s' : same_mem s s' -> (exists C, rc_ok C (vm_rc s')) -> user_ok top s -> user_ok top s'.
Proof.
  intros (E1 & E2 & E3 & E4 & E5) Hrc [H1 H2 H3 H4]. assert (Hr : forall a, reserved s' a <-> reserved s a) by (intros a; unfold reserved; now rewrite E4, E5).
  split; rewrite ?E1; auto; [destruct H3; split; rewrite ?E4, ?E5; assumption|]. intros w a Hw Ha. apply (H4 w a Hw). now apply Hr.
Qed.

Lemma Unref_ok s p : (exists C, rc_ok C (vm_rc s)) -> wp (UnrefSharedPhys p s) (fun s' => same_mem s s' /\ exists C, rc_ok C (vm_rc s')).
Proof.
  intros (C & HC). unfold UnrefSharedPhys. apply wp_bind. eapply wp_mono; [apply (RefDecPhys_ok C (vm_rc s) p HC)|]. intros [b rc] [_ Hrc]. cbn [wp]. destruct b; (split; [repeat split|]); eexists; exact Hrc.
Qed.

Lemma unref_pages_ok s n p : (exists C, rc_ok C (vm_rc s)) -> wp (unref_pages n p s) (fun s' => same_mem s s' /\ exists C, rc_ok C (vm_rc s')).
Proof.
  intros Hrc. unfold unref_pages. apply (wp_for_up (fun _ s' => same_mem s s' /\ exists C, rc_ok C (vm_rc s'))); [|auto using same_mem_refl].
  intros i s1 _ [H1 H2]. eapply wp_mono; [apply (Unref_ok s1 _ H2)|]. intros s2 [H3 H4]. split; [now apply (same_mem_trans s s1)|exact H4].
Qed.

(** * A page copied *)

Section Copied.
Context (top : Z) (s s1 : vm) (l : nat) (v : Z) (i : PageInfo) (p v' : Z) (pt : pt_state) (tags : tag_map).
Context (Hu : user_ok top s) (Hst : stock_step s l (p, s1)) (Hp : p <> 0) (Hl : (1 <= l <= 2)%nat).
Context (Hi : GetPageInfo (vm_pt s) top v = Ok i) (Hs : i_size i = page_bytes l) (Hv : vkey l v' = vkey l v).
Context (Hpt : pt_ok top tags pt) (Hm : mapped_as top (vm_pt s) l v' p (cow_flags (i_flags i)) pt).

Definition copied : vm := set_pt (set_phys s1 (copy_page_bytes (vm_phys s1) p (i_phys i) (page_bytes l))) pt.

(** The page of [v] is the process's own now. *)
Definition owns (s : vm) (v p size : Z) (user : bool) : Prop :=
  exists i, GetPageInfo (vm_pt s) top v = Ok i /\ i_phys i = p /\ i_size i = size /\ has (i_flags i) VMM_COW_BIT = false /\ has (i_flags i) MM_WRITE = true /\ has (i_flags i) MM_USER = user.

Lemma copied_ok : quiet top s copied /\ user_ok top copied /\ owns copied v p (page_bytes l) (has (i_flags i) MM_USER).
Proof.
  pose proof (page_bytes_pos l) as Hpos. assert (Hsz : i_size i <> 0) by lia. destruct (u_pt _ _ Hu) as [tags0 Hok0]. pose proof Hst as ((E1 & E2 & E3 & E4) & _ & _ & Ht & _). destruct (Ht Hp) as (Hal & Hb & _).
  destruct (cow_flags_bits (i_flags i)) as (F1 & F2 & F3 & F4). pose proof (info_exists 4 (vm_pt s) top v i Hi Hsz) as Hex. rewrite Hex in F4.
  assert (Hlv : level_of (i_size i) = l) by (rewrite Hs; apply level_bytes; lia).
  destruct (fresh_quiet top s s1 l v' p (cow_flags (i_flags i)) (copy_page_bytes (vm_phys s1) p (i_phys i) (page_bytes l)) pt tags Hu Hst Hp Hl Hpt Hm F4) as [Q U].
  - intros a Ha. unfold copy_page_bytes. rewrite E4. destruct (Z.leb_spec p a), (Z.ltb_spec a (p + page_bytes l)); cbn [andb]; try reflexivity; lia.
  - intros w x Hw Hx. unfold view in Hx. rewrite (phys_info top tags0 _ v i Hok0 Hi Hsz w) in Hx by (rewrite Hlv; congruence). cbn in Hx. injection Hx as <-. pose proof (Z.mod_pos_bound w (page_bytes l) Hpos).
    unfold copy_page_bytes. rewrite (proj2 (Z.leb_le _ _)), (proj2 (Z.ltb_lt _ _)) by lia. cbn [andb]. rewrite E4, Hs. f_equal. lia.
  - intros w Hw (j & Hj & _ & Hus). rewrite (get_leaf top tags0 _ v w i Hok0 Hi Hsz) in Hj by (rewrite Hlv; congruence). injection Hj as <-. now rewrite F3.
  - intros w Hw (j & Hj & Hr). rewrite (get_leaf top tags0 _ v w i Hok0 Hi Hsz) in Hj by (rewrite Hlv; congruence). injection Hj as <-. rewrite F2, F3. destruct Hr as [(_ & Hr & _)|[Hr _]]; [auto|contradiction].
  - split; [exact Q|]. split; [exact U|]. exists (mapping l p (cow_flags (i_flags i))). cbn [copied set_pt set_phys vm_pt]. rewrite Hm, decide_True, F4 by congruence. split; [reflexivity|].
    destruct (mapping_flags l p (cow_flags (i_flags i))) as (-> & -> & ->). split; [apply aligned_mask; auto; lia|auto].
Qed.
End Copied.

(** The page that holds [v] starts at [v - v mod size]. *)
Lemma clear_at_start top tags s l v i : pt_ok top tags s -> GetPageInfo s top v = Ok i -> i_size i = page_bytes l -> (1 <= l <= 3)%nat ->
  clear_to l s top (v - v mod page_bytes l) /\ vkey l (v - v mod page_bytes l) = vkey l v.
Proof.
  intros Hok Hi Hs Hl. pose proof (page_bytes_pos l) as Hpos. destruct (page_start_same l v Hpos) as [E _]. assert (Ek : vkey l (v - v mod page_bytes l) = vkey l v) by (apply vkey_same; auto). split; [|exact Ek].
  exists i. rewrite <- GetPageInfo_levels. split; [|lia]. apply (get_leaf top tags s v _ i Hok Hi); [lia|]. now rewrite Hs, level_bytes.
Qed.

(** What a copy of a shared page leaves behind; it took [x] pages of 4 KiB and
    [y] of 2 MiB. *)
Definition unshared (top v : Z) (s : vm) (n x y : nat) (size : Z) (user : bool) (p : Z) (s' : vm) : Prop :=
  quiet top s s' /\ user_ok top s' /\ plenty n (vm_pt s') /\ (forall a b, supplied (x + a) (y + b) s -> supplied a b s') /\ owns top s' v p size user.

Lemma unref_unshared top v s n x y size user p s1 s2 : unshared top v s n x y size user p s1 -> same_mem s1 s2 -> (exists C, rc_ok C (vm_rc s2)) -> unshared top v s n x y size user p s2.
Proof.
  intros (Q & U & P & S & O) Hs Hrc. split; [apply (quiet_trans top s s1); [exact Q|now apply same_mem_quiet]|]. split; [now apply (same_mem_user top s1)|]. unfold plenty, owns, supplied in *. destruct Hs as (-> & _ & _ & -> & ->). auto.
Qed.

Lemma copy_4k_ok top s s1 v i p v' n (Q : vm -> Prop) : user_ok top s -> plenty (3 + n) (vm_pt s) -> stock_step s 1 (p, s1) -> p <> 0 -> GetPageInfo (vm_pt s) top v = Ok i -> i_size i = PAGE_SIZE -> v' = v - v mod PAGE_SIZE ->
  (forall s', unshared top v s n 1 0 PAGE_SIZE (has (i_flags i) MM_USER) p s' -> Q s') ->
  wp (let* s := map4k top v' p (cow_flags (i_flags i)) (set_phys s1 (copy_page_bytes (vm_phys s1) p (i_phys i) PAGE_SIZE)) in UnrefSharedPhys (i_phys i) s) Q.
Proof.
  intros Hu Hpl Hst Hp Hi Hs -> HQ. destruct (u_pt _ _ Hu) as [tags Hok]. pose proof Hst as ((E1 & _) & _). destruct (clear_at_start top tags _ 1 v i Hok Hi Hs ltac:(lia)) as [Hc Hk]. change (page_bytes 1) with PAGE_SIZE in *.
  apply wp_bind. unfold map4k. apply wp_bind. cbn [set_phys vm_pt]. rewrite E1. eapply wp_mono; [apply (Map4K_ok top tags (vm_pt s) _ p (cow_flags (i_flags i)) n Hok Hc Hpl)|]. intros pt (tags' & Hok' & Hpl' & Hm). cbn [wp].
  destruct (copied_ok top s s1 1 v i p _ pt tags' Hu Hst Hp ltac:(lia) Hi Hs Hk Hok' Hm) as (Q1 & U1 & O1). fold (copied s1 1 i p pt).
  eapply wp_mono; [apply (Unref_ok (copied s1 1 i p pt)); apply U1|]. intros s' [Hs' Hrc']. apply HQ. apply (unref_unshared top v s n 1 0 PAGE_SIZE _ p (copied s1 1 i p pt)); auto. split; [exact Q1|]. split; [exact U1|]. split; [exact Hpl'|]. split; [|exact O1]. intros a b Hab. now apply Hst.
Qed.

Lemma copy_2m_ok top s s1 v i p v' n (Q : vm -> Prop) : user_ok top s -> plenty (2 + n) (vm_pt s) -> stock_step s 2 (p, s1) -> p <> 0 -> GetPageInfo (vm_pt s) top v = Ok i -> i_size i = PAGE_2MB -> v' = v - v mod PAGE_2MB ->
  (forall s', unshared top v s n 0 1 PAGE_2MB (has (i_flags i) MM_USER) p s' -> Q s') ->
  wp (let* s := map2m top v' p (cow_flags (i_flags i)) (set_phys s1 (copy_page_bytes (vm_phys s1) p (i_phys i) PAGE_2MB)) in unref_pages (PAGE_2MB / PAGE_SIZE) (i_phys i) s) Q.
Proof.
  intros Hu Hpl Hst Hp Hi Hs -> HQ. destruct (u_pt _ _ Hu) as [tags Hok]. pose proof Hst as ((E1 & _) & _). destruct (clear_at_start top tags _ 2 v i Hok Hi Hs ltac:(lia)) as [Hc Hk]. change (page_bytes 2) with PAGE_2MB in *.
  apply wp_bind. unfold map2m. apply wp_bind. cbn [set_phys vm_pt]. rewrite E1. eapply wp_mono; [apply (Map2M_ok top tags (vm_pt s) _ p (cow_flags (i_flags i)) n Hok Hc Hpl)|]. intros pt (tags' & Hok' & Hpl' & Hm). cbn [wp].
  destruct (copied_ok top s s1 2 v i p _ pt tags' Hu Hst Hp ltac:(lia) Hi Hs Hk Hok' Hm) as (Q1 & U1 & O1). fold (copied s1 2 i p pt).
  eapply wp_mono; [apply (unref_pages_ok (copied s1 2 i p pt)); apply U1|]. intros s' [Hs' Hrc']. apply HQ. apply (unref_unshared top v s n 0 1 PAGE_2MB _ p (copied s1 2 i p pt)); auto. split; [exact Q1|]. split; [exact U1|]. split; [exact Hpl'|]. split; [|exact O1]. intros a b Hab. now apply Hst.
Qed.

(** Splitting a 1 GiB page that is shared for copy-on-write into 2 MiB pages:
    in [CopyToUser], where every part is copied, and in the page-fault handler,
    where one part is copied and the others stay shared. *)

(** * Pages under way *)

(** As [quiet], but the addresses of [D] have no page for the moment. *)
Record partial (top : Z) (s : vm) (D : Z -> Prop) (s' : vm) : Prop := {
  p_view : forall w x, ~ D w -> view s top w = Some x -> view s' top w = Some x;
  p_mem : forall a, ~ reserved s a -> vm_phys s' a = vm_phys s a;
  p_res : forall a, reserved s' a -> reserved s a;
  p_phys : forall w a, phys_at (vm_pt s') top w = Some a ->
    (phys_at (vm_pt s) top w = Some a /\ (private (vm_pt s') top w -> private (vm_pt s) top w)) \/ (reserved s a /\ ~ reserved s' a /\ sole s' top w a);
  p_user : forall w, ~ D w -> readable s top w -> readable s' top w;
  p_ready : forall w, ~ D w -> ready s top w -> ready s' top w;
  p_vma : vm_vma s' = vm_vma s;
  p_gone : forall w, D w -> GetPageInfo (vm_pt s') top w = Ok no_page;
  p_ok : user_ok top s'
}.

Lemma partial_quiet top s D s' : (forall w, ~ D w) -> partial top s D s' -> quiet top s s'.
Proof. intros HD [H1 H2 H3 H4 H5 H6 H7 _ _]. split; [split; auto|auto]. Qed.

Lemma partial_ext top s D D' s' : (forall w, D w <-> D' w) -> partial top s D s' -> partial top s D' s'.
Proof. intros HD [H1 H2 H3 H4 H5 HR H6 H7 H8]. split; auto; intros w; [intros x| | |]; rewrite <- HD; auto. Qed.

Lemma gone_phys s top w : GetPageInfo s top w = Ok no_page -> phys_at s top w = None.
Proof. unfold phys_at. now intros ->. Qed.

Lemma partial_start top s tags i v pt : user_ok top s -> GetPageInfo (vm_pt s) top v = Ok i -> i_size i = PAGE_1GB -> pt_ok top tags pt -> unmapped_at top (vm_pt s) i v pt ->
  partial top s (fun w => vkey 3 w = vkey 3 v) (set_pt s pt).
Proof.
  intros Hu Hi Hs Hok Hun. assert (Hlv : level_of (i_size i) = 3%nat) by (rewrite Hs; reflexivity). assert (Hsz : i_size i <> 0) by (rewrite Hs; discriminate).
  assert (Hget : forall w, GetPageInfo pt top w = if decide (vkey 3 w = vkey 3 v) then Ok no_page else GetPageInfo (vm_pt s) top w).
  { intros w. rewrite Hun, Hlv. destruct (decide (vkey 3 w = vkey 3 v)) as [E|E]; [now rewrite decide_True by auto|rewrite decide_False by tauto; reflexivity]. }
  assert (Hph : forall w, vkey 3 w <> vkey 3 v -> phys_at pt top w = phys_at (vm_pt s) top w) by (intros w Hw; unfold phys_at; now rewrite Hget, decide_False).
  assert (Hno : forall w, vkey 3 w = vkey 3 v -> phys_at pt top w = None) by (intros w Hw; apply gone_phys; now rewrite Hget, decide_True).
  split; cbn [set_pt vm_pt vm_phys vm_vma]; auto.
  - intros w x Hw. unfold view. cbn [set_pt vm_pt vm_phys]. now rewrite Hph.
  - intros w a Hw. destruct (decide (vkey 3 w = vkey 3 v)) as [E|E]; [rewrite Hno in Hw by exact E; discriminate|]. left. rewrite Hph in Hw by exact E. split; [exact Hw|]. unfold private. now rewrite Hget, decide_False.
  - intros w Hw. unfold readable. cbn [set_pt vm_pt]. now rewrite Hget, decide_False.
  - intros w Hw. unfold ready. cbn [set_pt vm_pt vm_vma]. now rewrite Hget, decide_False.
  - intros w Hw. now rewrite Hget, decide_True.
  - destruct Hu as [U1 U2 U3 U4]. split; cbn [set_pt vm_pt vm_rc]; [now exists tags|auto|destruct U3; split; assumption|].
    intros w a Hw. destruct (decide (vkey 3 w = vkey 3 v)) as [E|E]; [rewrite Hno in Hw by exact E; discriminate|]. rewrite Hph in Hw by exact E. exact (U4 w a Hw).
Qed.

(** A 2 MiB page where there was none. *)
Section Piece.
Context (top : Z) (s : vm) (D : Z -> Prop) (s1 : vm) (Hpart : partial top s D s1) (Hu : user_ok top s).
Context (v p f : Z) (pt : pt_state) (tags : tag_map) (Hpt : pt_ok top tags pt) (Hm : mapped_as top (vm_pt s1) 2 v p f pt) (Hf : PAGE_EXISTS f = true).
Context (Hin : forall w, vkey 2 w = vkey 2 v -> D w).

Definition less (w : Z) : Prop := D w /\ vkey 2 w <> vkey 2 v.

Lemma piece_miss w : vkey 2 w <> vkey 2 v -> GetPageInfo pt top w = GetPageInfo (vm_pt s1) top w.
Proof. intros E. now rewrite Hm, decide_False. Qed.

Lemma less_not w : ~ less w -> vkey 2 w <> vkey 2 v -> ~ D w.
Proof. unfold less. tauto. Qed.

(** The page that was there before. *)
Lemma piece_old : 0 <= p < 2 ^ 52 -> p mod PAGE_2MB = 0 ->
  (forall w, vkey 2 w = vkey 2 v -> phys_at (vm_pt s) top w = Some (p + w mod PAGE_2MB)) ->
  (forall w, vkey 2 w = vkey 2 v -> has f VMM_COW_BIT = false -> has f MM_WRITE = true -> private (vm_pt s) top w) ->
  (forall w, vkey 2 w = vkey 2 v -> readable s top w -> has f MM_USER = true) ->
  (forall w, vkey 2 w = vkey 2 v -> ready s top w -> has f MM_USER = true /\ (has f MM_WRITE || has f VMM_COW_BIT) = true) ->
  partial top s less (set_pt s1 pt).
Proof.
  intros Hp Hal Hold Hpriv Hus Hrdy. pose proof Hpart as [H1 H2 H3 H4 H5 HR H6 H7 H8]. assert (Hph := mapped_phys top (vm_pt s1) pt 2 v p f Hm ltac:(lia) Hp Hal Hf). change (page_bytes 2) with PAGE_2MB in Hph.
  destruct (mapping_flags 2 p f) as (F1 & F2 & F3).
  split; cbn [set_pt vm_pt vm_phys vm_vma]; auto.
  - intros w x Hw Hx. unfold view. cbn [set_pt vm_pt vm_phys]. rewrite Hph. destruct (decide _) as [E|E]; [|apply (H1 w x); [now apply less_not|exact Hx]].
    unfold view in Hx. rewrite (Hold w E) in Hx. cbn in *. rewrite H2; [exact Hx|]. now apply (u_apart _ _ Hu w), Hold.
  - intros w a Hw. rewrite Hph in Hw. destruct (decide _) as [E|E].
    + injection Hw as <-. left. split; [now apply Hold|]. intros (i & Hi & _ & Hc & Hwr). rewrite Hm, decide_True, Hf in Hi by exact E. injection Hi as <-. apply (Hpriv w E); [now rewrite <- F1|now rewrite <- F2].
    + assert (Hpr : private pt top w <-> private (vm_pt s1) top w) by (unfold private; now rewrite piece_miss). destruct (H4 w a Hw) as [[A1 A2]|(A1 & A2 & A3)]; [left; split; [exact A1|]; rewrite Hpr; exact A2|right].
      split; [exact A1|]. split; [exact A2|]. intros Hb w' Hb' Hw'. cbn [set_pt vm_pt] in Hw'. rewrite Hph in Hw'. destruct (decide _) as [E'|E']; [|now apply A3].
      exfalso. injection Hw' as <-. apply (u_apart _ _ Hu w' _ (Hold w' E')). exact A1.
  - intros w Hw Hr. unfold readable. cbn [set_pt vm_pt]. rewrite Hm. destruct (decide _) as [E|E]; [|apply H5; [now apply less_not|exact Hr]]. rewrite Hf. eexists. split; [reflexivity|]. split; [discriminate|]. rewrite F3. now apply (Hus w).
  - intros w Hw Hr. unfold ready. cbn [set_pt vm_pt vm_vma]. rewrite Hm. destruct (decide _) as [E|E]; [|apply HR; [now apply less_not|exact Hr]]. rewrite Hf. eexists. split; [reflexivity|]. left. split; [discriminate|]. rewrite F1, F2, F3. now apply (Hrdy w).
  - intros w [Hw Hne]. rewrite piece_miss by exact Hne. now apply H7.
  - destruct H8 as [U1 U2 U3 U4]. split; cbn [set_pt vm_pt vm_rc]; [now exists tags|auto|destruct U3; split; assumption|]. intros w a Hw Hr. rewrite Hph in Hw. destruct (decide _) as [E|E]; [|now apply (U4 w a Hw)].
    injection Hw as <-. apply (u_apart _ _ Hu w _ (Hold w E)). now apply H3.
Qed.

(** A fresh page with a copy. *)
Lemma piece_fresh s2 mem : stock_step s1 2 (p, s2) -> p <> 0 ->
  (forall a, ~ p <= a < p + PAGE_2MB -> mem a = vm_phys s1 a) ->
  (forall w x, vkey 2 w = vkey 2 v -> view s top w = Some x -> mem (p + w mod PAGE_2MB) = x) ->
  (forall w, vkey 2 w = vkey 2 v -> readable s top w -> has f MM_USER = true) ->
  (forall w, vkey 2 w = vkey 2 v -> ready s top w -> has f MM_USER = true /\ has f MM_WRITE = true) ->
  partial top s less (set_phys (set_pt s2 pt) mem).
Proof.
  intros Hst Hp Hmem Hv Hus Hrdy. pose proof Hpart as [H1 H2 H3 H4 H5 HR H6 H7 H8].
  destruct (fresh_ok top s1 s2 2 v p f mem pt tags H8 Hst Hp ltac:(lia) Hpt Hm Hf Hmem) as [Q U].
  { intros w x Hw Hx. unfold view in Hx. rewrite (gone_phys _ _ _ (H7 w (Hin w Hw))) in Hx. discriminate. }
  { intros w Hw (i & Hi & Hs & _). rewrite (H7 w (Hin w Hw)) in Hi. injection Hi as <-. now cbn in Hs. }
  assert (Hph := fresh_phys top s1 s2 2 v p f pt Hst Hp ltac:(lia) Hm Hf).
  assert (Htk : forall w, reserved s1 (p + w mod PAGE_2MB)) by (intros w; destruct Hst as (_ & _ & _ & Ht & _); destruct (Ht Hp) as (_ & _ & Hr); apply Hr; change (page_bytes 2) with PAGE_2MB; pose proof (Z.mod_pos_bound w PAGE_2MB ltac:(reflexivity)); lia).
  split; auto.
  - intros w x Hw Hx. destruct (decide (vkey 2 w = vkey 2 v)) as [E|E]; [|apply (q_view _ _ _ Q), H1; [now apply less_not|exact Hx]].
    unfold view. cbn [set_phys set_pt vm_pt vm_phys]. rewrite Hph, decide_True by exact E. cbn. f_equal. now apply Hv.
  - intros a Ha. rewrite (q_mem _ _ _ Q); [now apply H2|]. intros Hr. apply Ha, H3, Hr.
  - intros a Ha. apply H3, (q_res _ _ _ Q), Ha.
  - intros w a Hw. destruct (q_phys _ _ _ Q w a Hw) as [[A1 A2]|(A1 & A2 & A3)]; [|right; auto]. destruct (H4 w a A1) as [[B1 B2]|(B1 & B2 & B3)]; [left; auto|right]. split; [exact B1|]. split; [intros Hr; apply B2, (q_res _ _ _ Q), Hr|].
    intros Hb w' Hb' Hw'. destruct (q_phys _ _ _ Q w' a Hw') as [[C1 _]|(C1 & _)]; [now apply B3|contradiction].
  - intros w Hw Hr. destruct (decide (vkey 2 w = vkey 2 v)) as [E|E]; [|apply (q_user _ _ _ Q), H5; [now apply less_not|exact Hr]].
    unfold readable. cbn [set_phys set_pt vm_pt]. rewrite Hm, decide_True, Hf by exact E. eexists. split; [reflexivity|]. split; [discriminate|]. destruct (mapping_flags 2 p f) as (_ & _ & ->). now apply (Hus w).
  - intros w Hw Hr. destruct (decide (vkey 2 w = vkey 2 v)) as [E|E]; [|destruct (HR w (less_not _ Hw E) Hr) as (i & Hi & Hi2); exists i; cbn [set_phys set_pt vm_pt]; rewrite piece_miss by exact E; split; [exact Hi|]; now rewrite (q_vma _ _ _ Q)].
    unfold ready. cbn [set_phys set_pt vm_pt]. rewrite Hm, decide_True, Hf by exact E. eexists. split; [reflexivity|]. left. split; [discriminate|]. destruct (mapping_flags 2 p f) as (_ & -> & ->). destruct (Hrdy w E Hr) as [-> ->]. auto.
  - rewrite (q_vma _ _ _ Q). exact H6.
  - intros w [Hw Hne]. cbn [set_phys set_pt vm_pt]. rewrite piece_miss by exact Hne. now apply H7.
Qed.
End Piece.

(** * The parts of a 1 GiB page *)

Lemma land_low e m k : 0 <= k -> Z.land m (Z.ones k) = m -> 0 <= Z.land e m < 2 ^ k.
Proof. intros Hk E. rewrite <- E, Z.land_assoc, Z.land_ones by exact Hk. apply Z.mod_pos_bound. now apply Z.pow_pos_nonneg. Qed.

Lemma info_phys l s t v i : info_at l s t v = Ok i -> i_size i <> 0 -> 0 <= i_phys i < 2 ^ 52 /\ i_phys i mod i_size i = 0.
Proof.
  revert t. induction l as [|l IH]; intros t Hi Hs; [discriminate|]. cbn [info_at] in Hi. destruct (table_get s t (idx (S l) v)) as [e| |]; [|discriminate..]. cbn [bind] in Hi.
  destruct (PAGE_EXISTS e) eqn:Ex; cbn [negb] in Hi; [|injection Hi as <-; now cbn in Hs]. destruct (leafy (S l) e) eqn:El; [|now apply (IH _ Hi)]. injection Hi as <-. cbn [leaf_info i_phys i_size].
  assert (Hl : (1 <= S l <= 3)%nat) by (destruct l as [|[|[|l]]]; [lia..|discriminate]). split; [apply land_low; [lia|]; destruct l as [|[|[|l]]]; reflexivity|].
  rewrite page_bytes_sh by exact Hl. rewrite <- Z.land_ones by (unfold sh; lia). rewrite <- Z.land_assoc. replace (Z.land (page_mask (S l)) (Z.ones (sh (S l)))) with 0; [apply Z.land_0_r|]. destruct l as [|[|[|l]]]; [reflexivity..|lia].
Qed.

(** [w] is in part [j] of the page that starts at [base]. *)
Lemma part_key base j w : base mod PAGE_1GB = 0 -> 0 <= j < 512 -> vkey 2 w = vkey 2 (base + j * PAGE_2MB) <-> vkey 3 w = vkey 3 base /\ idx 2 w = j.
Proof.
  intros Hb Hj. assert (E1 : vkey 3 (base + j * PAGE_2MB) = vkey 3 base).
  { apply vkey_same; [lia|]. change (page_bytes 3) with PAGE_1GB. change PAGE_1GB with (2 ^ 30) in *. change PAGE_2MB with (2 ^ 21). pose proof (Z.div_mod base (2 ^ 30)). symmetry. apply (Z.div_unique _ _ _ (j * 2 ^ 21)); lia. }
  assert (E2 : idx 2 (base + j * PAGE_2MB) = j).
  { rewrite idx_mod by lia. change (2 ^ sh 2) with PAGE_2MB. rewrite Z.div_add by discriminate. change PAGE_1GB with (PAGE_2MB * 512) in Hb. pose proof (Z.div_mod base (PAGE_2MB * 512) ltac:(discriminate)) as Hd. rewrite Hb, Z.add_0_r in Hd.
    rewrite Hd, <- Z.mul_assoc, Z.mul_comm, Z.div_mul by discriminate. rewrite Z.add_comm, Z.mul_comm, Z.mod_add by lia. now apply Z.mod_small. }
  rewrite (vkey_down 2 w), (vkey_down 2 (base + _)), E1, E2 by lia. pose proof (idx_bound 2 w ltac:(lia)). lia.
Qed.

(** The offset in a part and the offset in the page. *)
Lemma part_offset w : w mod PAGE_1GB = idx 2 w * PAGE_2MB + w mod PAGE_2MB.
Proof. rewrite idx_mod by lia. change (2 ^ sh 2) with PAGE_2MB. change PAGE_1GB with (PAGE_2MB * 512). rewrite mod_split by reflexivity. lia. Qed.

Section Split.
Context (top : Z) (s : vm) (v : Z) (i : PageInfo) (Hu : user_ok top s).
Context (Hi : GetPageInfo (vm_pt s) top v = Ok i) (Hs : i_size i = PAGE_1GB) (Hv : 0 <= v < 2 ^ 63).

Definition base_of : Z := v - v mod PAGE_1GB.
Definition user_flag : bool := has (i_flags i) MM_USER.

Lemma base_facts : 0 <= base_of < 2 ^ 63 /\ base_of mod PAGE_1GB = 0 /\ vkey 3 base_of = vkey 3 v.
Proof.
  unfold base_of. destruct (page_start_same 3 v ltac:(reflexivity)) as [E1 E2]. change (page_bytes 3) with PAGE_1GB in *. pose proof (Z.mod_pos_bound v PAGE_1GB ltac:(reflexivity)). pose proof (Z.mod_le v PAGE_1GB ltac:(lia) ltac:(reflexivity)).
  split; [lia|]. split; [exact E2|]. apply vkey_same; [lia|exact E1].
Qed.

Lemma part_addr j : 0 <= j < 512 -> u64 (base_of + j * PAGE_2MB) = base_of + j * PAGE_2MB /\ u64 (i_phys i + j * PAGE_2MB) = i_phys i + j * PAGE_2MB /\
  0 <= i_phys i + j * PAGE_2MB < 2 ^ 52 /\ (i_phys i + j * PAGE_2MB) mod PAGE_2MB = 0.
Proof.
  intros Hj. destruct base_facts as (Hb & _). destruct (info_phys 4 (vm_pt s) top v i Hi ltac:(rewrite Hs; discriminate)) as [Hp Ha]. rewrite Hs in Ha. change PAGE_1GB with (2 ^ 30) in Ha. change PAGE_2MB with (2 ^ 21).
  assert (Hq : i_phys i = i_phys i / 2 ^ 30 * 2 ^ 30) by (pose proof (Z.div_mod (i_phys i) (2 ^ 30)); lia). assert (Hlt : i_phys i / 2 ^ 30 < 2 ^ 22) by (apply Z.div_lt_upper_bound; lia). unfold u64. split; [apply Z.mod_small; lia|]. split; [apply Z.mod_small; lia|]. split; [lia|].
  rewrite Z.mod_add by lia. rewrite Hq. replace (i_phys i / 2 ^ 30 * 2 ^ 30) with (i_phys i / 2 ^ 30 * 2 ^ 9 * 2 ^ 21) by lia. apply Z.mod_mul. lia.
Qed.

(** The bytes of a part, before. *)
Lemma part_phys j w : 0 <= j < 512 -> vkey 2 w = vkey 2 (base_of + j * PAGE_2MB) -> vkey 3 w = vkey 3 v /\ idx 2 w = j /\ GetPageInfo (vm_pt s) top w = Ok i /\ phys_at (vm_pt s) top w = Some (i_phys i + j * PAGE_2MB + w mod PAGE_2MB).
Proof.
  intros Hj E. destruct base_facts as (_ & Hb & Hk). apply part_key in E as [E1 E2]; [|exact Hb|exact Hj]. rewrite Hk in E1. destruct (u_pt _ _ Hu) as [tags Hok]. assert (Hlv : level_of (i_size i) = 3%nat) by (rewrite Hs; reflexivity).
  split; [exact E1|]. split; [exact E2|]. split; [apply (get_leaf top tags _ v w i Hok Hi); [rewrite Hs; discriminate|now rewrite Hlv]|].
  rewrite (phys_info top tags _ v i Hok Hi ltac:(rewrite Hs; discriminate) w) by (now rewrite Hlv). rewrite Hs, part_offset, E2. f_equal. lia.
Qed.

(** The parts of [todo] have no page yet; the others that [own] says are the
    process's own. *)
Definition splitting (todo own : Z -> Prop) (n : nat) (s' : vm) : Prop :=
  partial top s (fun w => vkey 3 w = vkey 3 v /\ todo (idx 2 w)) s' /\ plenty n (vm_pt s') /\
  forall w, vkey 3 w = vkey 3 v -> own (idx 2 w) -> exists p, owns top s' w p PAGE_2MB user_flag.

Lemma part_in (todo : Z -> Prop) j : 0 <= j < 512 -> todo j -> forall w, vkey 2 w = vkey 2 (base_of + j * PAGE_2MB) -> vkey 3 w = vkey 3 v /\ todo (idx 2 w).
Proof. intros Hj Ht w Hw. destruct (part_phys j w Hj Hw) as (E1 & E2 & _). now rewrite E2. Qed.

Lemma part_clear todo own n s' j : splitting todo own n s' -> 0 <= j < 512 -> todo j -> clear_to 2 (vm_pt s') top (base_of + j * PAGE_2MB).
Proof.
  intros (Hp & _) Hj Ht. exists no_page. split; [|discriminate]. rewrite <- GetPageInfo_levels. apply (p_gone _ _ _ _ Hp). now apply (part_in todo j).
Qed.

Lemma less_part (todo : Z -> Prop) j w : 0 <= j < 512 -> less (fun w => vkey 3 w = vkey 3 v /\ todo (idx 2 w)) (base_of + j * PAGE_2MB) w <-> vkey 3 w = vkey 3 v /\ (todo (idx 2 w) /\ idx 2 w <> j).
Proof. intros Hj. unfold less. destruct base_facts as (_ & Hb & Hk). rewrite (part_key base_of j w Hb Hj), Hk. tauto. Qed.

(** A part copied to a fresh page. *)
Lemma part_fresh todo own n s1 s2 j p pt tags : splitting todo own n s1 -> 0 <= j < 512 -> todo j -> stock_step s1 2 (p, s2) -> p <> 0 -> pt_ok top tags pt -> plenty n pt ->
  mapped_as top (vm_pt s1) 2 (base_of + j * PAGE_2MB) p (cow_flags (i_flags i)) pt ->
  splitting (fun x => todo x /\ x <> j) (fun x => own x \/ x = j) n (set_pt (set_phys s2 (copy_page_bytes (vm_phys s2) p (i_phys i + j * PAGE_2MB) PAGE_2MB)) pt).
Proof.
  intros (Hp & _ & Hown) Hj Ht Hst Hp0 Hok Hpl Hm. pose proof Hst as ((E1 & E2 & E3 & E4) & _ & _ & Htk & _). destruct (Htk Hp0) as (Hal & Hb & _). destruct (cow_flags_bits (i_flags i)) as (F1 & F2 & F3 & F4).
  rewrite (info_exists 4 (vm_pt s) top v i Hi ltac:(rewrite Hs; discriminate)) in F4. split; [|split; [exact Hpl|]].
  - eapply partial_ext; [intros w; apply (less_part todo j w Hj)|]. apply (piece_fresh top s _ s1 Hp (base_of + j * PAGE_2MB) p (cow_flags (i_flags i)) pt tags Hok Hm F4 (part_in todo j Hj Ht) s2 (copy_page_bytes (vm_phys s2) p (i_phys i + j * PAGE_2MB) PAGE_2MB) Hst Hp0).
    + intros a Ha. unfold copy_page_bytes. rewrite E4. destruct (Z.leb_spec p a), (Z.ltb_spec a (p + PAGE_2MB)); cbn [andb]; try reflexivity; lia.
    + intros w x Hw Hx. destruct (part_phys j w Hj Hw) as (_ & _ & _ & Hph). pose proof (Z.mod_pos_bound w PAGE_2MB ltac:(reflexivity)). unfold view in Hx. rewrite Hph in Hx. cbn in Hx. injection Hx as <-.
      unfold copy_page_bytes. rewrite (proj2 (Z.leb_le _ _)), (proj2 (Z.ltb_lt _ _)) by lia. cbn [andb]. rewrite E4, (p_mem _ _ _ _ Hp) by (apply (u_apart _ _ Hu w); rewrite Hph; f_equal; lia). f_equal. lia.
    + intros w Hw (k & Hk & _ & Hus). destruct (part_phys j w Hj Hw) as (_ & _ & Hg & _). rewrite Hg in Hk. injection Hk as <-. now rewrite F3.
    + intros w Hw (k & Hk & Hr). destruct (part_phys j w Hj Hw) as (_ & _ & Hg & _). rewrite Hg in Hk. injection Hk as <-. rewrite F2, F3. destruct Hr as [(_ & Hr & _)|[Hr _]]; [auto|]. rewrite Hs in Hr. discriminate.
  - intros w Hw Ho. unfold owns. cbn [set_pt vm_pt]. destruct (decide (idx 2 w = j)) as [E|E].
    + exists p. exists (mapping 2 p (cow_flags (i_flags i))). destruct base_facts as (_ & Hb3 & Hk). rewrite Hm, decide_True, F4 by (apply (part_key base_of j w Hb3 Hj); rewrite Hk; auto). split; [reflexivity|].
      destruct (mapping_flags 2 p (cow_flags (i_flags i))) as (-> & -> & ->). split; [apply (aligned_mask 2 p); auto; lia|auto].
    + destruct (Hown w Hw ltac:(tauto)) as (q & k & Hk & Hk2). exists q, k. split; [|exact Hk2]. rewrite Hm, decide_False; [exact Hk|]. intros Ek. apply E. now apply (part_phys j w Hj).
Qed.

(** A part that stays shared. *)
Lemma part_old todo own n s1 j pt tags : splitting todo own n s1 -> 0 <= j < 512 -> todo j -> pt_ok top tags pt -> plenty n pt -> (forall x, own x -> x <> j) ->
  mapped_as top (vm_pt s1) 2 (base_of + j * PAGE_2MB) (i_phys i + j * PAGE_2MB) (i_flags i) pt ->
  splitting (fun x => todo x /\ x <> j) own n (set_pt s1 pt).
Proof.
  intros (Hp & _ & Hown) Hj Ht Hok Hpl Hnj Hm. pose proof (info_exists 4 (vm_pt s) top v i Hi ltac:(rewrite Hs; discriminate)) as Hex. destruct (part_addr j Hj) as (_ & _ & Hb & Hal). split; [|split; [exact Hpl|]].
  - eapply partial_ext; [intros w; apply (less_part todo j w Hj)|]. apply (piece_old top s _ s1 Hp Hu (base_of + j * PAGE_2MB) (i_phys i + j * PAGE_2MB) (i_flags i) pt tags Hok Hm Hex Hb Hal).
    + intros w Hw. now apply (part_phys j w Hj).
    + intros w Hw Hc Hwr. exists i. split; [now apply (part_phys j w Hj)|]. split; [rewrite Hs; discriminate|auto].
    + intros w Hw (k & Hk & _ & Hus). destruct (part_phys j w Hj Hw) as (_ & _ & Hg & _). rewrite Hg in Hk. now injection Hk as <-.
    + intros w Hw (k & Hk & Hr). destruct (part_phys j w Hj Hw) as (_ & _ & Hg & _). rewrite Hg in Hk. injection Hk as <-. destruct Hr as [(_ & Hr & Hr2)|[Hr _]]; [auto|]. rewrite Hs in Hr. discriminate.
  - intros w Hw Ho. destruct (Hown w Hw Ho) as (q & k & Hk & Hk2). exists q, k. cbn [set_pt vm_pt]. split; [|exact Hk2]. rewrite Hm, decide_False; [exact Hk|]. intros Ek. apply (Hnj _ Ho). now apply (part_phys j w Hj).
Qed.
End Split.
