(* ===== verification/UserWrite.v ===== *)
(** Copies to a process: [CopyToUser] makes the pages that are missing, copies
    those that are shared, and then writes what the process sees; page faults. *)
From stdpp Require Import base gmap list fin_maps.
From Stdlib Require Import ZArith Lia.
From S2P Require Import Prelude RBTree PMM VMA VMASpec PageTab PageTabInv PageTabMap PageTabRange PageTabFree RefCount Vmm UserAccess UserView UserCow.

Open Scope Z_scope.
Open Scope c_scope.

(** * The page of an address *)

(** The result of a step that gets the page of [v] ready: without one, only
    pages of the stock were written, and memory or permission was missing;
    otherwise the process sees no change, and what is known of the page is [P].
    A step takes one page of 4 KiB and 512 of 2 MiB at most. *)
Definition got (top v : Z) (s : vm) (n : nat) (P : PageInfo -> PageInfo -> Prop) (x : option PageInfo * vm) : Prop :=
  let '(o, s') := x in
  match o with
  | None => (forall a, ~ reserved s a -> vm_phys s' a = vm_phys s a) /\ ~ (supplied 1 512 s /\ ready s top v)
  | Some i => quiet top s s' /\ user_ok top s' /\ plenty n (vm_pt s') /\ (forall a b, supplied (1 + a) (512 + b) s -> supplied a b s') /\ exists i', GetPageInfo (vm_pt s') top v = Ok i' /\ i_size i' <> 0 /\ P i i'
  end.

Definition same_place (i i' : PageInfo) : Prop :=
  i_size i' = i_size i /\ i_phys i' = i_phys i /\ has (i_flags i') MM_USER = has (i_flags i) MM_USER /\ has (i_flags i') VMM_COW_BIT = false /\ has (i_flags i') MM_WRITE = true.

Section Split1G.
Context (top : Z) (s : vm) (v : Z) (i : PageInfo) (Hu : user_ok top s).
Context (Hi : GetPageInfo (vm_pt s) top v = Ok i) (Hs : i_size i = PAGE_1GB) (Hv : 0 <= v < 2 ^ 63).

Lemma splitting_weaken (todo todo' own own' : Z -> Prop) m n s' : (forall w, todo (idx 2 w) <-> todo' (idx 2 w)) -> (forall w, own' (idx 2 w) -> own (idx 2 w)) -> (m <= n)%nat -> splitting top s v i todo own n s' -> splitting top s v i todo' own' m s'.
Proof.
  intros Ht Ho Hle (Hp & Hpl & Hown). split; [|split; [now apply (plenty_le n)|]].
  - eapply partial_ext; [|exact Hp]. intros w. cbn. now rewrite Ht.
  - intros w Hw Hw2. apply Hown; [exact Hw|now apply Ho].
Qed.

Lemma split_cow_1g_ok s1 n : splitting top s v i (fun _ => True) (fun _ => False) (1024 + n) s1 ->
  wp (split_cow_1g s1 top (base_of v) (i_phys i) (cow_flags (i_flags i))) (fun '(done, s') =>
    if done : bool then splitting top s v i (fun _ => False) (fun _ => True) n s' /\ (forall a b, supplied a (512 + b) s1 -> supplied a b s')
    else (forall a, ~ reserved s a -> vm_phys s' a = vm_phys s a) /\ ~ supplied 0 512 s1).
Proof.
  intros H1. unfold split_cow_1g.
  apply (wp_loop (fun '(s', j) => 0 <= j <= 512 /\ splitting top s v i (fun x => j <= x) (fun x => x < j) (Z.to_nat (2 * (512 - j)) + n) s' /\ forall a b, supplied a (512 + b) s1 -> supplied a (Z.to_nat (512 - j) + b) s') (fun '(_, j) => Z.to_nat (512 - j))).
  2:{ split; [lia|]. split; [|auto]. eapply splitting_weaken; [| |reflexivity|exact H1]; intros w; pose proof (idx_bound 2 w ltac:(lia)); cbn; lia. }
  2:{ lia. }
  intros [s2 j] (Hj & H2 & Hsup). destruct (j <? 512) eqn:Ej; to_prop.
  - destruct (part_addr top s v i Hi Hs Hv j ltac:(lia)) as (-> & -> & _). destruct (request2m s2) as [p s3] eqn:Er. pose proof (request2m_ok s2 (u_stock _ _ (p_ok _ _ _ _ (proj1 H2)))) as Hst. rewrite Er in Hst.
    destruct (p =? 0) eqn:Ep; to_prop.
    + unfold step_ok. cbn [wp]. destruct Hst as ((_ & _ & _ & E4) & _ & _ & _ & Hs4). split; [intros a Ha; rewrite E4; now apply (p_mem _ _ _ _ (proj1 H2))|].
      intros H0. destruct (Hs4 0%nat (Z.to_nat (512 - (j + 1)))) as [Hne _]; [|contradiction]. apply (supplied_le 0 (Z.to_nat (512 - j) + 0)); [apply Hsup; exact H0|cbn; lia..].
    + unfold step_ok. apply wp_bind. unfold map2m. apply wp_bind. cbn [set_phys vm_pt]. pose proof Hst as ((E1 & _) & _). rewrite E1. destruct (u_pt _ _ (p_ok _ _ _ _ (proj1 H2))) as [tags Hok].
      eapply wp_mono; [apply (Map2M_ok top tags (vm_pt s2) _ p _ (Z.to_nat (2 * (512 - (j + 1))) + n) Hok)|].
      { apply (part_clear top s v i Hu Hi Hs Hv _ _ _ s2 j H2); cbn; lia. }
      { apply (plenty_le (Z.to_nat (2 * (512 - j)) + n)); [apply H2|lia]. }
      intros pt (tags' & Hok' & Hpl' & Hm). cbn [wp]. split; [|lia]. split; [lia|]. split.
      2:{ intros a b Hab. apply Hst. eapply supplied_le; [apply Hsup; exact Hab|cbn; lia..]. }
      eapply splitting_weaken; [| |reflexivity|apply (part_fresh top s v i Hu Hi Hs Hv (fun x => j <= x) (fun x => x < j) _ s2 s3 j p pt tags')]; auto; try lia; try (intros w; cbn; lia).
      eapply splitting_weaken; [| | |exact H2]; [reflexivity|auto|lia].
  - unfold step_ok. cbn [wp]. replace j with 512 in * by lia. split; [|exact Hsup]. eapply splitting_weaken; [| | |exact H2]; [intros w; pose proof (idx_bound 2 w ltac:(lia)); cbn; lia|intros w _; apply idx_bound; lia|lia].
Qed.
End Split1G.

Lemma got_copied top v s n x y (i : PageInfo) size p (s' : vm) : unshared top v s n x y size (has (i_flags i) MM_USER) p s' -> (x <= 1)%nat -> (y <= 512)%nat -> i_size i = size -> size <> 0 -> got top v s n same_place (Some (Info p (i_size i) (i_flags i)), s').
Proof.
  intros (Q & U & P & S & j & Hj & O1 & O2 & O3 & O4 & O5) Hx Hy Hs Hz. split; [exact Q|]. split; [exact U|]. split; [exact P|]. split; [intros a b Hab; apply S; eapply supplied_le; [exact Hab|lia..]|].
  exists j. unfold same_place. cbn [i_size i_phys i_flags]. repeat split; auto; congruence.
Qed.

(** Without a page from the stock. *)
Lemma got_none top v s n P l (s' : vm) : (1 <= l <= 2)%nat -> stock_step s l (0, s') -> got top v s n P (None, s').
Proof.
  intros Hl ((_ & _ & _ & E4) & _ & _ & _ & Hs). split; [intros a _; now rewrite E4|]. intros [Hsup _]. destruct (Hs 0%nat 0%nat) as [Hne _]; [|contradiction]. eapply supplied_le; [exact Hsup|destruct l as [|[|[|l]]]; cbn; lia..].
Qed.

Lemma unshare_ok top s v i n : user_ok top s -> plenty (1024 + n) (vm_pt s) -> GetPageInfo (vm_pt s) top v = Ok i -> i_size i <> 0 -> 0 <= v < 2 ^ 63 ->
  wp (unshare s top v i) (got top v s n same_place).
Proof.
  intros Hu Hpl Hi Hz Hv. destruct (u_pt _ _ Hu) as [tags Hok]. unfold unshare. fold (cow_flags (i_flags i)). destruct (page_sizes top tags _ v i Hok Hi Hz) as [Hl Hsz]. rewrite Hsz. rewrite (not64_mask _ v Hl) by lia.
  destruct (i_size i =? PAGE_1GB) eqn:E3; [|destruct (i_size i =? PAGE_2MB) eqn:E2]; rewrite <- Hsz, ?E3, ?E2; to_prop.
  - rewrite E3. fold (base_of v). apply wp_bind. unfold unmap. apply wp_bind. destruct (base_facts v Hv) as (Hb1 & Hb2 & Hb3). destruct (UnmapNoFlush_ok top tags (vm_pt s) (base_of v) Hok) as (i' & Hi' & Hw).
    assert (i' = i) as ->. { rewrite (get_leaf top tags _ v (base_of v) i Hok Hi Hz) in Hi' by (rewrite E3; exact Hb3). now injection Hi'. }
    eapply wp_mono; [exact Hw|]. intros pt (Hok1 & Hpg & Hun). cbn [wp]. apply wp_bind.
    eapply wp_mono; [apply (split_cow_1g_ok top s v i Hu Hi E3 Hv (set_pt s pt) n)|].
    { split; [|split; [unfold plenty in *; cbn [set_pt vm_pt]; now rewrite Hpg|intros w _ []]]. eapply partial_ext; [|apply (partial_start top s tags i (base_of v) pt Hu Hi' E3 Hok1 Hun)]. intros w. cbn. rewrite Hb3. tauto. }
    intros [done s2] H2. destruct done; cbn [negb]; [|split; [apply H2|intros [Hsup _]; apply H2; eapply supplied_le; [exact Hsup|lia..]]]. destruct H2 as [(Hp & Hpl2 & Hown) Hsup]. destruct (Hown v eq_refl I) as (p & j & Hj & O1 & O2 & O3 & O4 & O5). rewrite Hj. cbn [bind]. apply wp_bind.
    assert (Q : quiet top s s2) by (eapply partial_quiet; [|exact Hp]; cbn; tauto). pose proof (p_ok _ _ _ _ Hp) as U. eapply wp_mono; [apply (unref_pages_ok s2); apply U|]. intros s3 [Hsame Hrc]. cbn [wp].
    assert (H2 : unshared top v s n 0 512 PAGE_2MB (user_flag i) p s2) by (split; [exact Q|]; split; [exact U|]; split; [exact Hpl2|]; split; [exact Hsup|]; exists j; auto 7).
    pose proof (unref_unshared top v s n 0 512 PAGE_2MB (user_flag i) p s2 s3 H2 Hsame Hrc) as H3.
    destruct H3 as (Q3 & U3 & P3 & S3 & O).
    split; [exact Q3|]. split; [exact U3|]. split; [exact P3|]. split; [intros a b Hab; apply S3; eapply supplied_le; [exact Hab|lia..]|]. destruct O as (j' & Hj' & O). exists j'. assert (j' = j) as -> by (destruct Hsame as (Ept & _); rewrite Ept, Hj in Hj'; now injection Hj'). split; [exact Hj'|]. split; [rewrite O2; discriminate|]. unfold same_place. auto.
  - destruct (request2m s) as [p s1] eqn:Er. pose proof (request2m_ok s (u_stock _ _ Hu)) as Hst. rewrite Er in Hst. destruct (p =? 0) eqn:Ep; to_prop.
    + subst p. now apply (got_none top v s n same_place 2); [lia|].
    + rewrite <- bind_assoc. apply wp_bind. eapply (copy_2m_ok top s s1 v i p _ n); [exact Hu| |exact Hst|exact Ep|exact Hi|exact E2|now rewrite E2| ]; [apply (plenty_le (1024 + n)); [exact Hpl|lia]|]. intros s' H. cbn [wp]. eapply got_copied; [exact H|lia|lia|exact E2|discriminate].
  - assert (Hs : i_size i = PAGE_SIZE) by (destruct (info_sizes top tags _ v 4 top i Hok (path_top _ _ _) Hi) as [->|[E|[E|E]]]; [now cbn in Hz|auto|congruence..]).
    destruct (request s) as [p s1] eqn:Er. pose proof (request_ok s (u_stock _ _ Hu)) as Hst. rewrite Er in Hst. destruct (p =? 0) eqn:Ep; to_prop.
    + subst p. now apply (got_none top v s n same_place 1); [lia|].
    + rewrite <- bind_assoc. apply wp_bind. eapply (copy_4k_ok top s s1 v i p _ n); [exact Hu| |exact Hst|exact Ep|exact Hi|exact Hs|now rewrite Hs| ]; [apply (plenty_le (1024 + n)); [exact Hpl|lia]|]. intros s' H. cbn [wp]. eapply got_copied; [exact H|lia|lia|exact Hs|discriminate].
Qed.

Lemma demand_ok conf T top s v i n : user_ok top s -> vma_ok conf (vm_vma s) T -> plenty (3 + n) (vm_pt s) -> GetPageInfo (vm_pt s) top v = Ok i -> 0 <= v < 2 ^ 63 ->
  wp (demand s top v i) (got top v s n (fun i i' => i' = i)).
Proof.
  intros Hu Hvma Hpl Hi Hv. destruct (u_pt _ _ Hu) as [tags Hok]. unfold demand. destruct (i_size i =? 0) eqn:Ez; to_prop.
  2:{ cbn. split; [apply quiet_refl|]. split; [exact Hu|]. split; [apply (plenty_le (3 + n)); [exact Hpl|lia]|]. split; [intros a b Hab; eapply supplied_le; [exact Hab|lia..]|]. exists i. auto. }
  destruct (FindRegion_ok conf (vm_vma s) T v Hvma ltac:(lia)) as (r & Er0 & _). rewrite Er0. cbn [bind]. destruct (r =? 0) eqn:E0; to_prop.
  { cbn. split; [auto|]. intros [_ (j & Hj & [[Hz _]|[_ (r' & Hr' & Hn)]])]; [rewrite Hi in Hj; injection Hj as <-; contradiction|]. rewrite Er0 in Hr'. congruence. }
  change (PAGE_SIZE - 1) with (page_bytes 1 - 1). rewrite (not64_mask 1 v) by lia. destruct (page_start_same 1 v ltac:(reflexivity)) as [E1 _]. assert (Hk : vkey 1 (v - v mod page_bytes 1) = vkey 1 v) by (apply vkey_same; [lia|exact E1]).
  assert (Hnone : forall w, vkey 1 w = vkey 1 v -> GetPageInfo (vm_pt s) top w = Ok i) by (intros w Hw; now rewrite (get_same top tags _ v w Hok Hw)).
  destruct (request s) as [p s1] eqn:Er. pose proof (request_ok s (u_stock _ _ Hu)) as Hst. rewrite Er in Hst. pose proof Hst as ((P1 & _ & _ & P4) & _). destruct (p =? 0) eqn:Ep; to_prop; [subst p; now apply (got_none top v s n _ 1); [lia|]|].
  apply wp_bind. unfold map4k. apply wp_bind. rewrite P1. eapply wp_mono; [apply (Map4K_ok top tags (vm_pt s) _ p 7 n Hok)|]; [exists i; split; [now apply Hnone|rewrite Ez; discriminate]|exact Hpl|]. intros pt (tags' & Hok' & Hpl' & Hm). cbn [wp].
  destruct (fresh_quiet top s s1 1 (v - v mod page_bytes 1) p 7 (vm_phys s1) pt tags' Hu Hst Ep ltac:(lia) Hok' Hm eq_refl) as [Q U].
  { intros a _. now rewrite P4. }
  { intros w x Hw Hx. unfold view, phys_at in Hx. rewrite Hnone in Hx by congruence. rewrite Ez in Hx. discriminate. }
  { intros w Hw (j & Hj & Hz & _). rewrite Hnone in Hj by congruence. injection Hj as <-. contradiction. }
  { intros w _ _. split; reflexivity. }
  assert (E : set_pt s1 pt = set_phys (set_pt s1 pt) (vm_phys s1)) by (now destruct s1). rewrite E. cbn [set_phys set_pt vm_pt]. rewrite Hm, decide_True by congruence. cbn [bind].
  change (if PAGE_EXISTS 7 then mapping 1 p 7 else no_page) with (mapping 1 p 7). cbn [mapping i_size page_bytes]. change (PAGE_SIZE =? 0) with false. cbn [wp got]. split; [exact Q|]. split; [exact U|]. split; [exact Hpl'|].
  split; [intros a b Hab; apply Hst; eapply supplied_le; [exact Hab|cbn; lia..]|]. exists (mapping 1 p 7). cbn [set_phys set_pt vm_pt]. rewrite Hm, decide_True by congruence. split; [reflexivity|]. split; [discriminate|reflexivity].
Qed.

(** * The copy *)

Section Store.
Context (conf : vm_conf) (Hconf : IsPM5LVL conf = false) (T : list Z) (top : Z) (s0 : vm) (kmem : Z -> Z) (k u len : Z).
Context (Ht : top <> 0) (Hk : k <> 0) (Hu0 : 0 <= u) (Hlen : 0 <= len) (Hend : u + len <= 2 ^ 47).

(** [a] belongs to a page of the range that the process may write. *)
Definition own_byte (a : Z) : Prop := exists w, u <= w < u + len /\ private (vm_pt s0) top w /\ phys_at (vm_pt s0) top w = Some a.

(** No other page was written. *)
Definition isolated (s : vm) : Prop := forall a, ~ reserved s0 a -> ~ own_byte a -> vm_phys s a = vm_phys s0 a.

(** The first [o] bytes are written, and the process sees no other change. *)
Definition stored (o : Z) (s : vm) : Prop := forall w, 0 <= w < 2 ^ 48 ->
  (u <= w < u + o -> view s top w = Some (kmem (k + (w - u))) /\ readable s top w) /\
  (~ u <= w < u + o -> forall x, view s0 top w = Some x -> view s top w = Some x).

Record storing (o : Z) (s : vm) : Prop := {
  sg_bound : 0 <= o <= len;
  sg_user : user_ok top s;
  sg_vma : vm_vma s = vm_vma s0;
  sg_once : once s top u (u + len);
  sg_res : forall a, reserved s a -> reserved s0 a;
  sg_mem : isolated s;
  sg_left : forall w a, u + o <= w < u + len -> private (vm_pt s) top w -> phys_at (vm_pt s) top w = Some a -> own_byte a \/ reserved s0 a;
  sg_view : stored o s
}.

Lemma storing_calm o s s' : storing o s -> (forall a, ~ reserved s a -> vm_phys s' a = vm_phys s a) -> isolated s'.
Proof. intros H Hm a H1 H2. rewrite Hm; [now apply (sg_mem _ _ H)|]. intros Hr. now apply H1, (sg_res _ _ H). Qed.

Lemma storing_quiet o s s' : storing o s -> quiet top s s' -> user_ok top s' -> storing o s'.
Proof.
  intros H Q U. pose proof H as [H1 H2 H3 H4 H5 H6 H7 H8]. split; auto.
  - rewrite (q_vma _ _ _ Q). exact H3.
  - apply (quiet_once top s s'); auto; lia.
  - intros a Ha. now apply H5, (q_res _ _ _ Q).
  - apply (storing_calm o s s' H). apply Q.
  - intros w a Hw Hp Ha. destruct (q_phys _ _ _ Q w a Ha) as [[E1 E2]|(E1 & _)]; [now apply (H7 w a Hw (E2 Hp))|right; now apply H5].
  - intros w Hw. destruct (H8 w Hw) as [A B]. split; intros Hin; [destruct (A Hin) as [A1 A2]; split; [now apply (q_view _ _ _ Q)|now apply (q_user _ _ _ Q)]|]. intros x Hx. now apply (q_view _ _ _ Q), B.
Qed.

(** The bytes of a round go to the page of the position. *)
Lemma round_page o s i : storing o s -> o < len -> GetPageInfo (vm_pt s) top (u + o) = Ok i -> i_size i <> 0 ->
  let c := chunk i (u + o) len o in let start := i_phys i + Z.land (u + o) (i_size i - 1) in
  0 < c <= len - o /\ (o + c = len \/ (u + o) / PAGE_SIZE < (u + o + c) / PAGE_SIZE) /\
  forall w, u + o <= w < u + o + c -> GetPageInfo (vm_pt s) top w = Ok i /\ phys_at (vm_pt s) top w = Some (start + (w - (u + o))).
Proof.
  intros H Ho Hi Hz. cbv zeta. destruct (u_pt _ _ (sg_user _ _ H)) as [tags Hok]. destruct (page_sizes top tags _ _ i Hok Hi Hz) as [Hl Hsz]. set (l := level_of (i_size i)) in *.
  destruct (chunk_ok l i (u + o) len o Hl Hsz Ho) as (Hc & Hm & Hin & Hadv & _). split; [exact Hc|]. split; [exact Hadv|]. intros w Hw. destruct (Hin w Hw) as [E1 E2].
  assert (Ek : vkey l w = vkey l (u + o)) by (now apply vkey_same). split; [now apply (get_leaf top tags _ (u + o) w i Hok Hi Hz)|]. rewrite (phys_info top tags _ (u + o) i Hok Hi Hz w Ek), Hm. f_equal. rewrite <- Hsz in E2. rewrite E2, <- Hsz. lia.
Qed.

Lemma storing_write o s i : storing o s -> o < len -> GetPageInfo (vm_pt s) top (u + o) = Ok i -> i_size i <> 0 -> has (i_flags i) VMM_COW_BIT = false -> has (i_flags i) MM_WRITE = true -> has (i_flags i) MM_USER = true ->
  let c := chunk i (u + o) len o in
  storing (o + c) (set_phys s (write_bytes (vm_phys s) kmem (i_phys i + Z.land (u + o) (i_size i - 1)) (k + o) c)).
Proof.
  intros H Ho Hi Hz Hcow Hwr Hus. cbv zeta. destruct (round_page o s i H Ho Hi Hz) as (Hc & _ & Hin). set (c := chunk i (u + o) len o) in *. set (start := i_phys i + Z.land (u + o) (i_size i - 1)) in *. set (mem := write_bytes _ _ _ _ _).
  pose proof H as [H1 H2 H3 H4 H5 H6 H7 H8].
  assert (Hpr : forall w, u + o <= w < u + o + c -> private (vm_pt s) top w) by (intros w Hw; exists i; split; [now apply Hin|auto]).
  assert (Hback : forall a, start <= a < start + c -> phys_at (vm_pt s) top (u + o + (a - start)) = Some a) by (intros a Ha; destruct (Hin (u + o + (a - start)) ltac:(lia)) as [_ ->]; f_equal; lia).
  assert (Hmiss : forall a, ~ start <= a < start + c -> mem a = vm_phys s a) by (intros a Ha; unfold mem, write_bytes; destruct (Z.leb_spec start a), (Z.ltb_spec a (start + c)); cbn [andb]; try reflexivity; lia).
  assert (Hout : forall w x, 0 <= w < 2 ^ 48 -> ~ u + o <= w < u + o + c -> view s top w = Some x -> view (set_phys s mem) top w = Some x).
  { intros w x Hw Hn. unfold view. cbn [set_phys vm_pt vm_phys]. destruct (phys_at (vm_pt s) top w) as [a|] eqn:Ea; [|easy]. cbn. rewrite Hmiss; [easy|]. intros Ha. apply Hn. specialize (Hback a Ha).
    rewrite (H4 (u + o + (a - start)) w a ltac:(lia) Hw (Hpr (u + o + (a - start)) ltac:(lia)) Hback Ea). lia. }
  split; cbn [set_phys vm_vma vm_pt]; auto.
  - lia.
  - destruct H2 as [U1 U2 U3 U4]. split; auto. destruct U3. split; assumption.
  - intros a Ha Hb. cbn [set_phys vm_phys]. rewrite Hmiss; [now apply H6|]. intros Hr. destruct (H7 (u + o + (a - start)) a ltac:(lia) (Hpr (u + o + (a - start)) ltac:(lia)) (Hback a Hr)); contradiction.
  - intros w a Hw. apply H7. lia.
  - intros w Hw. destruct (H8 w Hw) as [A B]. destruct (decide (u + o <= w < u + o + c)) as [Hw2|Hw2].
    + split; [intros _|lia]. destruct (Hin w Hw2) as [E1 E2]. split; [|exists i; auto]. unfold view. cbn [set_phys vm_pt vm_phys]. rewrite E2. cbn. f_equal. unfold mem, write_bytes. rewrite (proj2 (Z.leb_le _ _)), (proj2 (Z.ltb_lt _ _)) by lia. cbn [andb]. f_equal. lia.
    + split; intros Hr; [destruct (A ltac:(lia)); split; auto|]. intros x Hx. apply Hout; auto. apply B; [lia|exact Hx].
Qed.

Definition store_budget (o : Z) : nat := (1027 * rounds_left u len o)%nat.

Lemma budget_round o c : 0 <= o < len -> 0 < c <= len - o -> o + c = len \/ (u + o) / PAGE_SIZE < (u + o + c) / PAGE_SIZE -> (3 + (1024 + store_budget (o + c)) <= store_budget o)%nat.
Proof. intros H1 H2 H3. pose proof (rounds_less u len o c H1 H2 H3). unfold store_budget. lia. Qed.

Lemma budget_some o : 0 <= o < len -> (1027 <= store_budget o)%nat.
Proof.
  intros Ho. unfold store_budget, rounds_left. rewrite (proj2 (Z.ltb_lt o len)) by lia. assert ((u + o) / PAGE_SIZE <= (u + len - 1) / PAGE_SIZE) by (apply Z.div_le_mono; unfold PAGE_SIZE; lia). lia.
Qed.

(** The rounds that are left have the memory and the permissions they need. *)
Definition funded (o : Z) (s : vm) : Prop :=
  supplied (2 * rounds_left u len o) (1024 * rounds_left u len o) s /\ forall w, u + o <= w < u + len -> ready s top w.

Definition stored_or_failed (x : bool * vm) : Prop :=
  let '(b, s) := x in isolated s /\ (b = true -> user_ok top s /\ stored len s) /\ (funded 0 s0 -> b = true).

Definition store_inv (x : vm * Z) : Prop :=
  let '(s, o) := x in storing o s /\ plenty (store_budget o) (vm_pt s) /\ (funded 0 s0 -> funded o s).

Lemma failed o s : storing o s -> ~ funded 0 s0 -> stored_or_failed (false, s).
Proof. intros H Hn. split; [apply H|]. split; [easy|contradiction]. Qed.

(** The end of a round, with the page ready. *)
Lemma round_end o s i i' n : storing o s -> plenty n (vm_pt s) -> o < len -> GetPageInfo (vm_pt s) top (u + o) = Ok i' -> i_size i' <> 0 -> same_place i i' ->
  (forall c, 0 < c <= len - o -> o + c = len \/ (u + o) / PAGE_SIZE < (u + o + c) / PAGE_SIZE -> (store_budget (o + c) <= n)%nat) ->
  (funded 0 s0 -> supplied (2 * (rounds_left u len o - 1)) (1024 * (rounds_left u len o - 1)) s /\ forall w, u + o <= w < u + len -> ready s top w) ->
  step_ok store_inv (fun '(_, o) => rounds_left u len o) stored_or_failed (rounds_left u len o)
    (if negb (has (i_flags i) MM_USER) then Ok (inr (false, s))
     else Ok (inl (set_phys s (write_bytes (vm_phys s) kmem (i_phys i + Z.land (u + o) (i_size i - 1)) (k + o) (chunk i (u + o) len o)), o + chunk i (u + o) len o))).
Proof.
  intros H Hpl Ho Hi Hz (E1 & E2 & E3 & E4 & E5) Hn Hf. rewrite <- E3. pose proof (sg_bound _ _ H) as Hb. destruct (has (i_flags i') MM_USER) eqn:Eu; cbn [negb].
  - assert (Ec : chunk i (u + o) len o = chunk i' (u + o) len o) by (unfold chunk; now rewrite E1). rewrite <- E1, <- E2, Ec. destruct (round_page o s i' H Ho Hi Hz) as (Hc & Hadv & _). unfold step_ok. cbn [wp]. pose proof (rounds_less u len o _ ltac:(lia) Hc Hadv) as Hless.
    split; [|exact Hless]. split; [now apply storing_write|]. split; [cbn [set_phys vm_pt]; apply (plenty_le n); [exact Hpl|now apply Hn]|].
    intros Hf0. destruct (Hf Hf0) as [F1 F2]. split; [apply (supplied_le (2 * (rounds_left u len o - 1)) (1024 * (rounds_left u len o - 1))); [exact F1|lia..]|]. intros w Hw. apply F2. lia.
  - unfold step_ok. cbn [wp]. apply (failed o s H). intros Hf0. destruct (proj2 (Hf Hf0) (u + o) ltac:(lia)) as (j & Hj & [(_ & Hj2 & _)|[Hj2 _]]); rewrite Hi in Hj; injection Hj as <-; congruence.
Qed.

Lemma CopyToUser_ok : vma_ok conf (vm_vma s0) T -> user_ok top s0 -> once s0 top u (u + len) -> plenty (store_budget 0) (vm_pt s0) -> wp (CopyToUser conf s0 top u kmem k len) stored_or_failed.
Proof.
  intros Hvma Hu Ho Hpl. assert (Hend0 : user_space_end conf = 2 ^ 47 - 1) by (unfold user_space_end; rewrite Hconf; reflexivity). unfold CopyToUser. destruct (len =? 0) eqn:E0; to_prop.
  { cbn. split; [intros a _ _; reflexivity|]. split; [|reflexivity]. intros _. split; [exact Hu|]. intros w _. split; [lia|auto]. }
  rewrite (proj2 (Z.eqb_neq _ _) Ht), (proj2 (Z.eqb_neq _ _) Hk). cbn [orb]. rewrite Hend0, (proj2 (Z.ltb_ge _ u)), (proj2 (Z.ltb_ge _ len)) by lia.
  apply (wp_loop store_inv (fun '(_, o) => rounds_left u len o)).
  2:{ split; [|split; [exact Hpl|auto]]. split; auto; [lia|intros a _ _; reflexivity|intros w a Hw Hp Ha; left; exists w; split; [lia|auto]|]. intros w _. split; [lia|auto]. }
  2:{ now apply rounds_enough. }
  intros [s o] (H & Hp & Hf). destruct (o <? len) eqn:Eo; to_prop; [|unfold step_ok; cbn [wp]; assert (o = len) as -> by (pose proof (sg_bound _ _ H); lia); split; [apply H|split; [intros _; split; apply H|reflexivity]]].
  pose proof (sg_bound _ _ H) as Hob. assert (Hv : 0 <= u + o < 2 ^ 63) by lia. replace (u64 (u + o)) with (u + o) by (symmetry; apply Z.mod_small; lia). pose proof (sg_user _ _ H) as U. destruct (u_pt _ _ U) as [tags Hok]. destruct (walk_total top tags _ Hok (u + o)) as (i & Hi). rewrite Hi. cbn [bind].
  pose proof (budget_some o ltac:(lia)) as Hb. set (n := (store_budget o - 1027)%nat). assert (Hn : forall c, 0 < c <= len - o -> o + c = len \/ (u + o) / PAGE_SIZE < (u + o + c) / PAGE_SIZE -> (store_budget (o + c) <= n)%nat) by (intros c H1 H2; pose proof (budget_round o c ltac:(lia) H1 H2); lia).
  assert (Hr : (1 <= rounds_left u len o)%nat) by (unfold store_budget in Hb; lia). unfold step_ok. apply wp_bind. eapply wp_mono; [apply (demand_ok conf T top s (u + o) i (1024 + n) U)|]; [now rewrite (sg_vma _ _ H)|apply (plenty_le (store_budget o)); [exact Hp|lia]|exact Hi|exact Hv|].
  intros [[i1|] s1] H1; cbn [got] in H1.
  2:{ destruct H1 as [M1 R1]. split; [now apply (storing_calm o s)|]. split; [easy|]. intros Hf0. destruct (Hf Hf0) as [F1 F2]. exfalso. apply R1. split; [eapply supplied_le; [exact F1|lia..]|apply F2; lia]. }
  destruct H1 as (Q1 & U1 & P1 & S1 & i1' & Hi1 & Hz1 & ->). pose proof (storing_quiet o s s1 H Q1 U1) as G1.
  assert (Hf1 : funded 0 s0 -> supplied (2 * rounds_left u len o - 1) (1024 * rounds_left u len o - 512) s1 /\ forall w, u + o <= w < u + len -> ready s1 top w).
  { intros Hf0. destruct (Hf Hf0) as [F1 F2]. split; [apply S1; eapply supplied_le; [exact F1|lia..]|]. intros w Hw. now apply (q_ready _ _ _ Q1), F2. }
  destruct (has (i_flags i1) VMM_COW_BIT) eqn:Ec; [|destruct (has (i_flags i1) MM_WRITE) eqn:Ew]; cbn [negb andb]; rewrite ?andb_false_r; cbn [bind].
  - apply wp_bind. eapply wp_mono; [apply (unshare_ok top s1 (u + o) i1 n U1 P1 Hi1 Hz1 Hv)|]. intros [[i2|] s2] H2; cbn [got] in H2.
    2:{ destruct H2 as [M2 R2]. split; [now apply (storing_calm o s1)|]. split; [easy|]. intros Hf0. destruct (Hf1 Hf0) as [F1 F2]. exfalso. apply R2. split; [eapply supplied_le; [exact F1|lia..]|apply F2; lia]. }
    destruct H2 as (Q2 & U2 & P2 & S2 & i2' & Hi2 & Hz2 & Hsp). pose proof (storing_quiet o s1 s2 G1 Q2 U2) as G2. apply (round_end o s2 i2 i2' n G2 P2 ltac:(lia) Hi2 Hz2 Hsp Hn).
    intros Hf0. destruct (Hf1 Hf0) as [F1 F2]. split; [apply S2; eapply supplied_le; [exact F1|lia..]|]. intros w Hw. now apply (q_ready _ _ _ Q2), F2.
  - apply (round_end o s1 i1 i1 (1024 + n) G1 P1 ltac:(lia) Hi1 Hz1); [repeat split; assumption|intros c H1 H2; specialize (Hn c H1 H2); lia|].
    intros Hf0. destruct (Hf1 Hf0) as [F1 F2]. split; [eapply supplied_le; [exact F1|lia..]|exact F2].
  - apply (failed o s1 G1). intros Hf0. destruct (proj2 (Hf1 Hf0) (u + o) ltac:(lia)) as (j & Hj & [(_ & _ & Hj2)|[Hj2 _]]); rewrite Hi1 in Hj; injection Hj as <-; [rewrite Ec, Ew in Hj2; discriminate|contradiction].
Qed.
End Store.

(** Page faults: which are refused, which need nothing, and which give the
    process a page of its own. *)

(** * What a fault is *)

Inductive fault_kind : Type :=
| Refused     (* the access is not allowed *)
| Settled     (* the page is writable already *)
| Shared.     (* a write to a page shared for copy-on-write *)

Definition kind_of (i : PageInfo) (ec : Z) : fault_kind :=
  if (i_size i =? 0) || pf_fetch ec || (pf_user ec && negb (has (i_flags i) MM_USER)) || negb (pf_write ec) then Refused
  else if has (i_flags i) VMM_COW_BIT then Shared
  else if has (i_flags i) MM_WRITE then Settled
  else Refused.

(** * A 1 GiB page *)

Section Fault1G.
Context (top : Z) (s : vm) (v : Z) (i : PageInfo) (Hu : user_ok top s).
Context (Hi : GetPageInfo (vm_pt s) top v = Ok i) (Hs : i_size i = PAGE_1GB) (Hv : 0 <= v < 2 ^ 63).

Lemma sub_part : Z.land (Z.land v (PAGE_1GB - 1)) (not64 (PAGE_2MB - 1)) = idx 2 v * PAGE_2MB.
Proof.
  change (PAGE_1GB - 1) with (page_bytes 3 - 1). change (PAGE_2MB - 1) with (page_bytes 2 - 1). rewrite low_mask_mod by lia. change (page_bytes 3) with PAGE_1GB. pose proof (Z.mod_pos_bound v PAGE_1GB ltac:(reflexivity)) as Hm.
  rewrite not64_mask by (change PAGE_1GB with (2 ^ 30) in *; lia). change (page_bytes 2) with PAGE_2MB. rewrite part_offset. rewrite Z.add_comm, Z.mod_add, Z.mod_mod by discriminate. lia.
Qed.

(** All parts but the one with the fault stay shared. *)
Lemma keep_parts_ok s1 n : splitting top s v i (fun _ => True) (fun _ => False) (1024 + n) s1 ->
  wp (for_up 512 0 (fun j s =>
        let off := j * PAGE_2MB in
        if off =? idx 2 v * PAGE_2MB then Ok s else map2m top (u64 (base_of v + off)) (u64 (i_phys i + off)) (i_flags i) s) s1)
     (fun s' => splitting top s v i (fun x => x = idx 2 v) (fun _ => False) n s' /\ forall a b, supplied a b s1 -> supplied a b s').
Proof.
  intros H1. eapply wp_mono; [apply (wp_for_up (fun j s' => splitting top s v i (fun x => j <= x \/ x = idx 2 v) (fun _ => False) (Z.to_nat (2 * (512 - j)) + n) s' /\ forall a b, supplied a b s1 -> supplied a b s'))|].
  - intros j s2 Hj [H2 Hsup]. cbv zeta. destruct (j * PAGE_2MB =? idx 2 v * PAGE_2MB) eqn:E; to_prop.
    + assert (j = idx 2 v) as E' by (change PAGE_2MB with (2 ^ 21) in E; lia). cbn [wp]. split; [|exact Hsup]. eapply splitting_weaken; [| | |exact H2]; [intros w; cbn; lia|auto|lia].
    + assert (j <> idx 2 v) as E' by (intros ->; auto). destruct (part_addr top s v i Hi Hs Hv j ltac:(lia)) as (-> & -> & _). unfold map2m. apply wp_bind. destruct (u_pt _ _ (p_ok _ _ _ _ (proj1 H2))) as [tags Hok].
      eapply wp_mono; [apply (Map2M_ok top tags (vm_pt s2) _ _ (i_flags i) (Z.to_nat (2 * (512 - (j + 1))) + n) Hok)|].
      { apply (part_clear top s v i Hu Hi Hs Hv _ _ _ s2 j H2); cbn; lia. }
      { apply (plenty_le (Z.to_nat (2 * (512 - j)) + n)); [apply H2|lia]. }
      intros pt (tags' & Hok' & Hpl' & Hm). cbn [wp]. split; [|exact Hsup].
      eapply splitting_weaken; [| |reflexivity|apply (part_old top s v i Hu Hi Hs Hv (fun x => j <= x \/ x = idx 2 v) (fun _ => False) _ s2 j pt tags')]; auto; try lia; try (intros w; cbn; lia); try (now intros ? []).
      eapply splitting_weaken; [| | |exact H2]; [reflexivity|auto|lia].
  - split; [|auto]. eapply splitting_weaken; [| |reflexivity|exact H1]; [intros w; pose proof (idx_bound 2 w ltac:(lia)); cbn; lia|auto].
  - intros s2 [H2 Hsup]. split; [|exact Hsup]. eapply splitting_weaken; [| | |exact H2]; [intros w; pose proof (idx_bound 2 w ltac:(lia)); cbn; lia|auto|lia].
Qed.

(** The part with the fault gets a page of its own. *)
Lemma own_part_ok s1 s2 n p (Q : vm -> Prop) : splitting top s v i (fun x => x = idx 2 v) (fun _ => False) (2 + n) s1 -> (forall a b, supplied a b s -> supplied a b s1) -> stock_step s1 2 (p, s2) -> p <> 0 ->
  (forall s', unshared top v s n 0 1 PAGE_2MB (has (i_flags i) MM_USER) p s' -> Q s') ->
  wp (let* s := map2m top (u64 (base_of v + idx 2 v * PAGE_2MB)) p (cow_flags (i_flags i)) (set_phys s2 (copy_page_bytes (vm_phys s2) p (u64 (i_phys i + idx 2 v * PAGE_2MB)) PAGE_2MB)) in
      unref_pages (PAGE_2MB / PAGE_SIZE) (u64 (i_phys i + idx 2 v * PAGE_2MB)) s) Q.
Proof.
  intros H1 Hsup Hst Hp HQ. pose proof (idx_bound 2 v ltac:(lia)) as Hj. destruct (part_addr top s v i Hi Hs Hv (idx 2 v) Hj) as (-> & -> & _). apply wp_bind. unfold map2m. apply wp_bind. cbn [set_phys vm_pt].
  pose proof Hst as ((E1 & _) & _). rewrite E1. destruct (u_pt _ _ (p_ok _ _ _ _ (proj1 H1))) as [tags Hok].
  eapply wp_mono; [apply (Map2M_ok top tags (vm_pt s1) _ p _ n Hok)|]; [apply (part_clear top s v i Hu Hi Hs Hv _ _ _ s1 (idx 2 v) H1 Hj eq_refl)|apply H1|]. intros pt (tags' & Hok' & Hpl' & Hm). cbn [wp].
  assert (H1' : splitting top s v i (fun x => x = idx 2 v) (fun _ => False) n s1) by (eapply splitting_weaken; [| | |exact H1]; [reflexivity|auto|lia]).
  pose proof (part_fresh top s v i Hu Hi Hs Hv _ _ n s1 s2 (idx 2 v) p pt tags' H1' Hj eq_refl Hst Hp Hok' Hpl' Hm) as (Hpart & _ & _).
  set (s3 := set_pt _ pt) in *. pose proof (p_ok _ _ _ _ Hpart) as U3. eapply wp_mono; [apply (unref_pages_ok s3); apply U3|]. intros s4 [Hsame Hrc]. apply HQ. apply (unref_unshared top v s n 0 1 _ _ _ s3); auto.
  split; [eapply partial_quiet; [|exact Hpart]; cbn; intros w; tauto|]. split; [exact U3|]. split; [exact Hpl'|]. split; [intros a b Hab; apply Hst, Hsup; exact Hab|]. destruct (base_facts v Hv) as (_ & Hb & Hk). destruct (cow_flags_bits (i_flags i)) as (F1 & F2 & F3 & F4).
  rewrite (info_exists 4 (vm_pt s) top v i Hi ltac:(rewrite Hs; discriminate)) in F4. exists (mapping 2 p (cow_flags (i_flags i))). unfold s3. cbn [set_pt vm_pt]. rewrite Hm, decide_True, F4 by (apply (part_key (base_of v) (idx 2 v) v Hb Hj); auto). split; [reflexivity|].
  destruct (mapping_flags 2 p (cow_flags (i_flags i))) as (-> & -> & ->). destruct Hst as (_ & _ & _ & Htk & _). destruct (Htk Hp) as (Hal & Hbp & _). split; [apply (aligned_mask 2 p); auto; lia|auto].
Qed.
End Fault1G.

(** * The handler *)

(** What the handler does with a fault of each kind. *)
Definition handled (top : Z) (s : vm) (cr2 : Z) (i : PageInfo) (ec r : Z) (s' : vm) : Prop :=
  match kind_of i ec with
  | Refused => r = 1 /\ s' = s
  | Settled => r = 0 /\ s' = s
  | Shared =>
      (r = 0 /\ quiet top s s' /\ user_ok top s' /\ exists p size, owns top s' cr2 p size (has (i_flags i) MM_USER) /\ reserved s p) \/
      (r = 1 /\ ~ supplied 1 1 s /\ forall a, ~ reserved s a -> vm_phys s' a = vm_phys s a)
  end.

Lemma handled_copy top tags s v cr2 i ec n x y p size s' l s1 : kind_of i ec = Shared -> pt_ok top tags (vm_pt s') -> vkey 1 cr2 = vkey 1 v -> (exists a, stock_step a l (p, s1) /\ forall b, reserved a b -> reserved s b) -> p <> 0 ->
  unshared top v s n x y size (has (i_flags i) MM_USER) p s' -> handled top s cr2 i ec 0 s'.
Proof.
  intros Hk Hok Hv (a & (_ & _ & _ & Ht & _) & Hr) Hp (Q & U & _ & _ & j & Hj & O). unfold handled. rewrite Hk. left. split; [reflexivity|]. split; [exact Q|]. split; [exact U|]. exists p, size. split.
  - exists j. split; [|exact O]. now rewrite (get_same top tags _ v cr2 Hok Hv).
  - apply Hr. destruct (Ht Hp) as (_ & _ & Hin). apply Hin. pose proof (page_bytes_pos l). lia.
Qed.

Lemma handled_oom top s cr2 i ec l s1 s2 : kind_of i ec = Shared -> (1 <= l <= 2)%nat -> stock_step s1 l (0, s2) -> (forall a b, supplied a b s -> supplied a b s1) -> (forall a, ~ reserved s a -> vm_phys s1 a = vm_phys s a) -> handled top s cr2 i ec 1 s2.
Proof.
  intros Hk Hl ((_ & _ & _ & E4) & _ & _ & _ & Hs) Hsup Hm. unfold handled. rewrite Hk. right. split; [reflexivity|]. split; [|intros a Ha; rewrite E4; now apply Hm].
  intros H. destruct (Hs 0%nat 0%nat) as [Hne _]; [|contradiction]. eapply supplied_le; [apply Hsup; exact H|destruct l as [|[|[|l]]]; cbn; lia..].
Qed.

Section Handler.
Context (top : Z) (s : vm) (last last' : pf_last) (cr2 rip ec : Z) (i : PageInfo) (n : nat).
Context (Ht : top <> 0) (Hu : user_ok top s) (Hpl : plenty (1026 + n) (vm_pt s)) (Hcr : 0 <= cr2 < 2 ^ 63) (Hrep : repeated last cr2 rip = (false, last')) (Hi : GetPageInfo (vm_pt s) top cr2 = Ok i).

Lemma fault_page : 0 <= cr2 / PAGE_SIZE * PAGE_SIZE < 2 ^ 63 /\ vkey 1 cr2 = vkey 1 (cr2 / PAGE_SIZE * PAGE_SIZE) /\ GetPageInfo (vm_pt s) top (cr2 / PAGE_SIZE * PAGE_SIZE) = Ok i /\ cr2 / PAGE_SIZE * PAGE_SIZE mod PAGE_SIZE = 0.
Proof.
  pose proof (Z.div_mod cr2 PAGE_SIZE ltac:(discriminate)) as Hd. pose proof (Z.mod_pos_bound cr2 PAGE_SIZE ltac:(reflexivity)) as Hm. pose proof (Z.div_pos cr2 PAGE_SIZE ltac:(lia) ltac:(reflexivity)). split; [unfold PAGE_SIZE in *; lia|].
  assert (E : vkey 1 (cr2 / PAGE_SIZE * PAGE_SIZE) = vkey 1 cr2) by (apply vkey_same; [lia|]; change (page_bytes 1) with PAGE_SIZE; now rewrite Z.div_mul). split; [now symmetry|].
  destruct (u_pt _ _ Hu) as [tags Hok]. split; [now rewrite (get_same top tags _ cr2 _ Hok E)|]. now apply Z.mod_mul.
Qed.

Lemma HandlePF_ok : wp (HandlePF s true top last cr2 rip ec) (fun '(r, l, s') => l = last' /\ handled top s cr2 i ec r s').
Proof.
  destruct fault_page as (Hv & Hk & Hfa & Hal). set (v := cr2 / PAGE_SIZE * PAGE_SIZE) in *. destruct (u_pt _ _ Hu) as [tags Hok]. unfold HandlePF. cbn [negb]. rewrite (proj2 (Z.eqb_neq _ _) Ht), Hrep. fold v. rewrite Hfa. cbn [bind].
  assert (Hleft : forall r, kind_of i ec = Refused -> r = 1 -> wp (Ok (r, last', s)) (fun '(r, l, s') => l = last' /\ handled top s cr2 i ec r s')) by (intros r Ek ->; cbn; unfold handled; rewrite Ek; auto).
  unfold kind_of in Hleft. destruct (i_size i =? 0) eqn:Ez; cbn [orb] in Hleft; [now apply Hleft|]. destruct (pf_fetch ec) eqn:Ef; cbn [orb] in Hleft; [now apply Hleft|].
  destruct (pf_user ec && negb (has (i_flags i) MM_USER)) eqn:Eu; cbn [orb] in Hleft; [now apply Hleft|]. destruct (pf_write ec) eqn:Ew; cbn [negb] in *; [|now apply Hleft].
  destruct (has (i_flags i) VMM_COW_BIT) eqn:Ec; cbn [negb].
  2:{ destruct (has (i_flags i) MM_WRITE) eqn:Em; [|now apply Hleft]. cbn. split; [reflexivity|]. unfold handled, kind_of. now rewrite Ez, Ef, Eu, Ew, Ec, Em. }
  assert (Ek : kind_of i ec = Shared) by (unfold kind_of; now rewrite Ez, Ef, Eu, Ew, Ec). to_prop. clear Hleft. fold (cow_flags (i_flags i)).
  destruct (i_size i =? PAGE_1GB) eqn:E3; [|destruct (i_size i =? PAGE_2MB) eqn:E2]; to_prop.
  - assert (Eb : Z.land v (not64 (PAGE_1GB - 1)) = base_of v) by (apply (not64_mask 3 v); lia). cbv zeta. rewrite Eb, sub_part by exact Hv. apply wp_bind. unfold unmap. apply wp_bind. destruct (base_facts v Hv) as (_ & _ & Hb3).
    destruct (UnmapNoFlush_ok top tags (vm_pt s) (base_of v) Hok) as (i' & Hi' & Hw). assert (i' = i) as ->. { rewrite (get_leaf top tags _ v (base_of v) i Hok Hfa) in Hi' by (rewrite E3; first [discriminate|exact Hb3]). now injection Hi'. }
    eapply wp_mono; [exact Hw|]. intros pt (Hok1 & Hpg & Hun). cbn [wp]. apply wp_bind. eapply wp_mono; [apply (keep_parts_ok top s v i Hu Hfa E3 Hv (set_pt s pt) (2 + n))|].
    { split; [|split; [unfold plenty in *; cbn [set_pt vm_pt]; rewrite Hpg; exact Hpl|intros w _ []]]. eapply partial_ext; [|apply (partial_start top s tags i (base_of v) pt Hu Hi' E3 Hok1 Hun)]. intros w. cbn. rewrite Hb3. tauto. }
    intros s1 [H1 Hsup]. pose proof (proj1 H1) as Hpart. destruct (request2m s1) as [p s2] eqn:Er. pose proof (request2m_ok s1 (u_stock _ _ (p_ok _ _ _ _ Hpart))) as Hst. rewrite Er in Hst. destruct (p =? 0) eqn:Ep; to_prop.
    + subst p. cbn [wp]. split; [reflexivity|]. apply (handled_oom top s cr2 i ec 2 s1 s2 Ek ltac:(lia) Hst Hsup). apply Hpart.
    + rewrite <- bind_assoc. apply wp_bind. apply (own_part_ok top s v i Hu Hfa E3 Hv s1 s2 n p _ H1 Hsup Hst Ep). intros s' H. cbn [wp]. split; [reflexivity|]. destruct (u_pt _ _ (proj1 (proj2 H))) as [tags' Hok'].
      apply (handled_copy top tags' s v cr2 i ec n 0 1 p PAGE_2MB s' 2 s2 Ek Hok' Hk); auto. exists s1. split; [exact Hst|apply Hpart].
  - change (PAGE_2MB - 1) with (page_bytes 2 - 1). rewrite not64_mask by lia. destruct (request2m s) as [p s2] eqn:Er. pose proof (request2m_ok s (u_stock _ _ Hu)) as Hst. rewrite Er in Hst. destruct (p =? 0) eqn:Ep; to_prop.
    + subst p. cbn [wp]. split; [reflexivity|]. now apply (handled_oom top s cr2 i ec 2 s s2 Ek ltac:(lia) Hst).
    + rewrite <- bind_assoc. apply wp_bind. eapply (copy_2m_ok top s s2 v i p _ n); [exact Hu|apply (plenty_le (1026 + n)); [exact Hpl|lia]|exact Hst|exact Ep|exact Hfa|exact E2|reflexivity|]. intros s' H. cbn [wp]. split; [reflexivity|].
      destruct (u_pt _ _ (proj1 (proj2 H))) as [tags' Hok']. apply (handled_copy top tags' s v cr2 i ec n 0 1 p PAGE_2MB s' 2 s2 Ek Hok' Hk); auto. exists s. auto.
  - assert (Hs : i_size i = PAGE_SIZE) by (destruct (info_sizes top tags _ v 4 top i Hok (path_top _ _ _) Hfa) as [->|[E|[E|E]]]; [now cbn in Ez|auto|congruence..]).
    destruct (request s) as [p s2] eqn:Er. pose proof (request_ok s (u_stock _ _ Hu)) as Hst. rewrite Er in Hst. destruct (p =? 0) eqn:Ep; to_prop.
    + subst p. cbn [wp]. split; [reflexivity|]. now apply (handled_oom top s cr2 i ec 1 s s2 Ek ltac:(lia) Hst).
    + rewrite <- bind_assoc. apply wp_bind. eapply (copy_4k_ok top s s2 v i p _ n); [exact Hu|apply (plenty_le (1026 + n)); [exact Hpl|lia]|exact Hst|exact Ep|exact Hfa|exact Hs|rewrite Hal; lia|]. intros s' H. cbn [wp]. split; [reflexivity|].
      destruct (u_pt _ _ (proj1 (proj2 H))) as [tags' Hok']. apply (handled_copy top tags' s v cr2 i ec n 1 0 p PAGE_SIZE s' 1 s2 Ek Hok' Hk); auto. exists s. auto.
Qed.
End Handler.
