(* ===== verification/VmmLife.v ===== *)
(** Page maps from fork to exit, [src/kernel/src/arch/x86_64/vmm/vmm.cpp], and the
    call that maps memory, [schedule/syscall/memory.cpp]. *)
From stdpp Require Import base gmap list fin_maps.
From Stdlib Require Import ZArith Lia.
From S2P Require Import Prelude RBTree PMM VMA PageTab RefCount Vmm UserAccess.

Open Scope Z_scope.
Open Scope c_scope.

(** * Fork *)

Definition ref_shared (p : Z) (s : vm) : res (bool * vm) :=
  let* (b, rc) := RefSharedPhys (vm_rc s) p in Ok (b, set_rc s rc).

(** The references of [n] pages from [p], up to the first that is refused, and
    their number. *)
Definition share_pages (n p : Z) (s : vm) : res (bool * Z * vm) :=
  loop (S (Z.to_nat n)) (fun '(k, s) =>
    if k <? n then
      let* (ok, s) := ref_shared (u64 (p + k * PAGE_SIZE)) s in
      if (ok : bool) then Ok (inl (k + 1, s)) else Ok (inr (false, k, s))
    else Ok (inr (true, k, s))) (0, s).

(** The pages of a huge page in both page maps, or everything taken back. *)
Definition share_huge (map : Z -> Z -> Z -> Z -> vm -> res vm) (n : Z) (child parent v : Z) (info : PageInfo) (nf : Z) (s : vm) : res (bool * vm) :=
  let* s := map child v (i_phys info) nf s in
  let* s := map parent v (i_phys info) nf s in
  let* (ok, ok_count, s) := share_pages n (i_phys info) s in
  if (ok : bool) then Ok (true, s)
  else
    let* s := unref_pages ok_count (i_phys info) s in
    let* s := unmap child v s in
    let* s := unmap parent v s in
    let* s := map parent v (i_phys info) (i_flags info) s in
    Ok (false, s).

(** The pages of one region, shared for copy-on-write by both page maps; false
    when there was no memory.  The first address without a page ends it.  Fuel:
    every round takes a page at least. *)
Definition fork_region (s : vm) (child parent start page_count : Z) : res (bool * vm) :=
  loop (S (Z.to_nat page_count)) (fun '(s, v, mapped) =>
    if mapped <? page_count then
      let* info := GetPageInfo (vm_pt s) parent v in
      if i_size info =? 0 then Ok (inr (true, s))
      else
        let nf := Z.lor (Z.land (i_flags info) (not64 MM_WRITE)) VMM_COW_BIT in
        let* (ok, s, n) :=
          if i_size info =? PAGE_1GB then
            let* (ok, s) := share_huge map1g (PAGE_1GB / PAGE_SIZE) child parent v info nf s in Ok (ok, s, 262144)
          else if i_size info =? PAGE_2MB then
            let* (ok, s) := share_huge map2m (PAGE_2MB / PAGE_SIZE) child parent v info nf s in Ok (ok, s, 512)
          else
            let* s := map4k child v (i_phys info) nf s in
            let* s := map4k parent v (i_phys info) nf s in
            let* (ok, s) := ref_shared (i_phys info) s in
            if (ok : bool) then Ok (true, s, 1)
            else
              let* s := unmap child v s in
              let* s := unmap parent v s in
              let* s := map4k parent v (i_phys info) (i_flags info) s in
              Ok (false, s, 1) in
        if (ok : bool) then Ok (inl (s, u64 (v + i_size info), mapped + n)) else Ok (inr (false, s))
    else Ok (inr (true, s))) (s, start, 0).

(** * Exit *)

(** All regions are removed, then the head, and the mappings.  Fuel: more rounds
    than there are nodes. *)
Definition clean_regions (conf : vm_conf) (s : vm) (top : Z) : res vm :=
  let head := vma_head (vm_vma s) in
  let* r := rd v_next (vm_vma s) head in
  loop (S (size (regions (vm_vma s)))) (fun '(s, r) =>
    if r =? head then Ok (inr s)
    else
      let* next := rd v_next (vm_vma s) r in
      let* st := rd v_start (vm_vma s) r in
      let* s :=
        if st <? hhdm_offset conf then
          let* e := rd region_end (vm_vma s) r in
          let* fl := rd v_flags (vm_vma s) r in
          if has fl VMM_SHARED_BIT then FreeSharedRegion s top st e else free_owned s top st e
        else Ok s in
      let* v := RemoveRegion (vm_vma s) r in
      Ok (inl (set_vma s v, next))) (s, r).

Definition clean_mappings (m : map_state) : res map_state :=
  let mapping := vm_mappings m in
  let* m :=
    if nonnull mapping then
      let* mc := loop (S (size (map_nodes m))) (fun '(mc, curr) =>
        let* curr := map_rd mp_next m curr in
        if curr =? mapping then Ok (inr (mc + 1)) else Ok (inl (mc + 1, curr))) (0, mapping) in
      let* (m, _) := for_up (Z.to_nat mc) 0 (fun _ '(m, curr) =>
        let* next := map_rd mp_next m curr in
        let* m := RemoveMapping m curr in
        Ok (m, next)) (m, mapping) in
      Ok m
    else Ok m in
  Ok (with_mappings m 0).

Definition CleanPM (conf : vm_conf) (s : vm) (top : Z) : res vm :=
  let head := vma_head (vm_vma s) in
  let* s :=
    if nonnull head then
      let* s := clean_regions conf s top in
      let s := free_page s (u64 (head - hhdm_offset conf)) in
      Ok (set_vma s (with_cursor (with_head (vm_vma s) 0) 0))
    else Ok s in
  let* m := clean_mappings (vm_maps s) in
  Ok (set_maps s m).

(** [pm] is the physical address of the page map itself. *)
Definition DestroyPM (conf : vm_conf) (s : vm) (pm top : Z) : res vm :=
  let* s := CleanPM conf s top in
  let* tabs := FreePageTablesInternal (vm_pt s) top 4 in
  let s := foldl free_page s tabs in
  Ok (free_page (free_page s top) pm).

(** * Mapping memory *)

Definition SYS_MAP_FAILED : Z := 2 ^ 64 - 1.

Definition sys_mmap (conf : vm_conf) (s : vm) (top length mode : Z) : res (Z * vm) :=
  if length =? 0 then Ok (SYS_MAP_FAILED, s)
  else if top =? 0 then Ok (SYS_MAP_FAILED, s)
  else if negb ((mode =? 2) || (mode =? 3)) then Ok (SYS_MAP_FAILED, s)
  else
    let page_count := if mode =? 2 then length else u64 (length + (PAGE_SIZE - 1)) / PAGE_SIZE in
    if 2 ^ 18 <? page_count then Ok (SYS_MAP_FAILED, s)
    else
      let* (ret, s) := Alloc conf s top page_count true in
      if (ret =? SYS_MAP_FAILED) || (ret =? 0) then Ok (SYS_MAP_FAILED, s)
      else
        let* s := ensure_region conf s ret page_count (Z.lor (Z.lor MM_READ MM_WRITE) MM_USER) in
        Ok (ret, s).
