(* ===== verification/VmmAlloc.v ===== *)
(** Allocation for a process: the range of addresses, its pages, and the way back
    when the memory runs out. *)
From stdpp Require Import base gmap list fin_maps.
From Stdlib Require Import ZArith Lia.
From S2P Require Import Prelude RBTree RBErase PMM VMA VMAInv VMASpec VMAEdit VMAAlloc PageTab PageTabInv PageTabMap PageTabRange PageTabFree RefCount Vmm UserAccess UserView UserCow.

Open Scope Z_scope.
Open Scope c_scope.

(** * The pages of a range *)

Definition rw_user : Z := Z.lor (Z.lor MM_READ MM_WRITE) MM_USER.

Section Pages.
Context (top : Z) (s : vm) (a pc : Z) (Hu : user_ok top s).
Context (Ha : 0 <= a) (Hal : a mod 4096 = 0) (Hpc : 0 <= pc < 524288) (Hend : a + pc * 4096 <= 2 ^ 47).
Context (Hfree : forall w, dist a w < pc * 4096 -> GetPageInfo (vm_pt s) top w = Ok no_page).

(** [w] has a page from the stock that the user may write. *)
Definition given (s' : vm) (w : Z) : Prop := private (vm_pt s') top w /\ readable s' top w /\ exists x, phys_at (vm_pt s') top w = Some x /\ reserved s x /\ ~ reserved s' x /\ sole s' top w x.

(** The first [k] pages are mapped, by pages inside the range, and nothing else
    changed. *)
Record giving (k : Z) (s' : vm) : Prop := {
  g_bound : 0 <= k <= pc;
  g_quiet : quiet top s s';
  g_user : user_ok top s';
  g_maps : vm_maps s' = vm_maps s;
  g_in : forall w, dist a w < k * 4096 -> given s' w;
  g_out : forall w, k * 4096 <= dist a w -> GetPageInfo (vm_pt s') top w = GetPageInfo (vm_pt s) top w;
  g_inside : forall w i, dist a w < k * 4096 -> GetPageInfo (vm_pt s') top w = Ok i -> i_size i <> PAGE_1GB /\ forall w', vkey (level_of (i_size i)) w' = vkey (level_of (i_size i)) w -> dist a w' < k * 4096
}.

(** The page at the position of the loop. *)
Lemma next_given l k w : (1 <= l <= 2)%nat -> 0 <= k -> k * 4096 + page_bytes l <= pc * 4096 -> (a + k * 4096) mod page_bytes l = 0 ->
  vkey l w = vkey l (a + k * 4096) <-> k * 4096 <= dist a w < k * 4096 + page_bytes l.
Proof.
  intros Hl Hk Hle Hm. rewrite (same_page l (a + k * 4096) w) by (auto; lia). pose proof (dist_bound a w) as Hb. pose proof (page_bytes_pos l) as Hp. unfold dist in *. replace (w - (a + k * 4096)) with ((w - a) + - (k * 4096)) by lia. rewrite <- (Z.add_mod_idemp_l (w - a)) by lia. set (d := (w - a) mod 2 ^ 48) in *.
  destruct (Z.lt_ge_cases d (k * 4096)) as [Hlt|Hge].
  - replace (d + - (k * 4096)) with ((d - k * 4096 + 2 ^ 48) + (-1) * 2 ^ 48) by lia. rewrite Z.mod_add, Z.mod_small by lia. lia.
  - rewrite Z.mod_small by lia. lia.
Qed.

Lemma giving_step l k s1 s2 p pt tags : (1 <= l <= 2)%nat -> giving k s1 -> k * 4096 + page_bytes l <= pc * 4096 -> (a + k * 4096) mod page_bytes l = 0 -> stock_step s1 l (p, s2) -> p <> 0 -> vm_maps s2 = vm_maps s1 -> pt_ok top tags pt ->
  mapped_as top (vm_pt s1) l (a + k * 4096) p rw_user pt -> giving (k + page_bytes l / 4096) (set_pt s2 pt).
Proof.
  intros Hl [H1 H2 H3 H4 H5 H6 H7] Hle Hm Hst Hp Hmaps Hok Hmap. pose proof Hst as ((E1 & E2 & E3 & E4) & _ & Hres & Htk & _). pose proof (page_bytes_pos l) as Hpos.
  assert (Eb : (k + page_bytes l / 4096) * 4096 = k * 4096 + page_bytes l) by (destruct l as [|[|[|l]]]; [lia| | |lia]; cbn [page_bytes]; [change (PAGE_SIZE / 4096) with 1; unfold PAGE_SIZE|change (PAGE_2MB / 4096) with 512; change PAGE_2MB with (512 * 4096)]; lia).
  assert (Hk : forall w, vkey l w = vkey l (a + k * 4096) <-> k * 4096 <= dist a w < k * 4096 + page_bytes l) by (intros w; apply next_given; auto; lia).
  assert (Hnone : forall w, vkey l w = vkey l (a + k * 4096) -> GetPageInfo (vm_pt s1) top w = Ok no_page) by (intros w Hw; apply Hk in Hw; rewrite H6 by lia; apply Hfree; lia).
  assert (E : set_pt s2 pt = set_phys (set_pt s2 pt) (vm_phys s2)) by (now destruct s2).
  destruct (fresh_quiet top s1 s2 l (a + k * 4096) p rw_user (vm_phys s2) pt tags H3 Hst Hp Hl Hok Hmap eq_refl) as [Q U].
  { intros b _. now rewrite E4. }
  { intros w x Hw Hx. unfold view, phys_at in Hx. rewrite Hnone in Hx by exact Hw. discriminate. }
  { intros w Hw (j & Hj & Hz & _). rewrite Hnone in Hj by exact Hw. injection Hj as <-. now cbn in Hz. }
  { intros w _ _. split; reflexivity. }
  rewrite <- E in Q, U. pose proof (quiet_trans top s s1 _ H2 Q) as Q'.
  assert (Hget : forall w, GetPageInfo pt top w = if decide (vkey l w = vkey l (a + k * 4096)) then Ok (mapping l p rw_user) else GetPageInfo (vm_pt s1) top w) by (intros w; rewrite Hmap; reflexivity).
  assert (Hph := fresh_phys top s1 s2 l (a + k * 4096) p rw_user pt Hst Hp Hl Hmap eq_refl).
  split; cbn [set_pt vm_pt vm_maps]; [|exact Q'|exact U|congruence|..].
  - assert (0 <= page_bytes l / 4096) by (apply Z.div_pos; lia). split; [lia|]. apply (Z.mul_le_mono_pos_r _ _ 4096); lia.
  - intros w Hw. rewrite Eb in Hw. destruct (decide (vkey l w = vkey l (a + k * 4096))) as [Ek|Ek].
    + unfold given, private, readable. cbn [set_pt vm_pt]. rewrite Hget, decide_True by exact Ek. destruct (mapping_flags l p rw_user) as (F1 & F2 & F3). split; [eexists; split; [reflexivity|]; split; [cbn; lia|]; rewrite F1, F2; split; reflexivity|].
      split; [eexists; split; [reflexivity|]; split; [cbn; lia|]; rewrite F3; reflexivity|]. exists (p + w mod page_bytes l). specialize (Hph w). rewrite decide_True in Hph by exact Ek. split; [exact Hph|]. pose proof (Z.mod_pos_bound w (page_bytes l) Hpos).
      destruct (Htk Hp) as (_ & _ & Hin). destruct (Hin (p + w mod page_bytes l) ltac:(lia)) as [R1 R2]. split; [now apply (q_res _ _ _ H2)|]. split; [exact R2|]. intros Hb w' Hb' Hw'. now apply (fresh_sole top s1 s2 l (a + k * 4096) p rw_user pt H3 Hst Hp Hl Hmap eq_refl).
    + assert (Hw2 : dist a w < k * 4096) by (rewrite Hk in Ek; lia). destruct (H5 w Hw2) as (G1 & G2 & x & G3 & G4 & G5 & G6). unfold given, private, readable in *. cbn [set_pt vm_pt]. rewrite Hget, decide_False by exact Ek. split; [exact G1|]. split; [exact G2|].
      exists x. specialize (Hph w). rewrite decide_False in Hph by exact Ek. split; [now rewrite Hph|]. split; [exact G4|]. split; [intros Hr; apply G5, Hres, Hr|]. intros Hb w' Hb' Hw'. destruct (q_phys _ _ _ Q w' x Hw') as [[C1 _]|(C1 & _)]; [now apply G6|contradiction].
  - intros w Hw. rewrite Eb in Hw. rewrite Hget, decide_False by (rewrite Hk; lia). apply H6. lia.
  - intros w i Hw Hi. rewrite Eb in *. rewrite Hget in Hi. destruct (decide (vkey l w = vkey l (a + k * 4096))) as [Ek|Ek].
    + injection Hi as <-. cbn [mapping i_size]. split; [destruct l as [|[|[|l]]]; [lia|discriminate|discriminate|lia]|]. rewrite level_bytes by lia. intros w' Hw'. rewrite Ek in Hw'. apply Hk in Hw'. lia.
    + destruct (H7 w i ltac:(rewrite Hk in Ek; lia) Hi) as [G1 G2]. split; [exact G1|]. intros w' Hw'. specialize (G2 w' Hw'). lia.
Qed.

Lemma request_maps x : vm_maps (request x).2 = vm_maps x.
Proof. unfold request. now destruct (vm_req x). Qed.

Lemma request2m_maps x : vm_maps (request2m x).2 = vm_maps x /\ vm_req (request2m x).2 = vm_req x.
Proof. unfold request2m. now destruct (vm_req2m x). Qed.

Definition funds (k : Z) (x : vm) : Prop := supply (Z.to_nat k) (vm_req x).

Lemma giving_start : giving 0 s.
Proof. split; auto using quiet_refl; [lia|intros w Hw; pose proof (dist_bound a w); lia|intros w i Hw; pose proof (dist_bound a w); lia]. Qed.

Lemma giving_stock k s1 s2 : giving k s1 -> same_but_stock s1 s2 -> stock_ok s2 -> (forall b, reserved s2 b -> reserved s1 b) -> vm_maps s2 = vm_maps s1 -> giving k s2.
Proof.
  intros [H1 H2 H3 H4 H5 H6 H7] Hs Hok Hr Hm. pose proof Hs as (E1 & E2 & E3 & E4). split; rewrite ?E1; auto.
  - apply (quiet_trans top s s1); [exact H2|now apply same_quiet].
  - now apply (same_user_ok top s1).
  - congruence.
  - intros w Hw. destruct (H5 w Hw) as (G1 & G2 & x & G3 & G4 & G5 & G6). unfold given, readable, sole in *. rewrite E1. split; [exact G1|]. split; [exact G2|]. exists x. split; [exact G3|]. split; [exact G4|]. split; [intros H; apply G5, Hr, H|exact G6].
Qed.

(** The position of the loop. *)
Lemma position k : 0 <= k < pc -> u64 (a + k * PAGE_SIZE) = a + k * 4096 /\ (a + k * 4096) mod 4096 = 0.
Proof. intros Hk. unfold u64, PAGE_SIZE. split; [apply Z.mod_small; lia|]. rewrite Z.mod_add by lia. exact Hal. Qed.

Lemma clear_next l k s1 : giving k s1 -> k < pc -> (1 <= l)%nat -> clear_to l (vm_pt s1) top (a + k * 4096).
Proof.
  intros [H1 _ _ _ _ H6 _] Hk Hl. exists no_page. rewrite <- GetPageInfo_levels. assert (Hd : dist a (a + k * 4096) = k * 4096) by (unfold dist; replace (a + k * 4096 - a) with (k * 4096) by lia; apply Z.mod_small; lia).
  split; [rewrite H6 by lia; apply Hfree; lia|]. cbn. destruct l as [|[|[|l]]]; discriminate.
Qed.

Definition pages_inv (n : nat) (x : vm * Z) : Prop := let '(s1, k) := x in giving k s1 /\ plenty (Z.to_nat (3 * (pc - k)) + n) (vm_pt s1) /\ (funds pc s -> funds (pc - k) s1).

Lemma page_4k_step n k s1 s2 p : pages_inv n (s1, k) -> k < pc -> stock_step s1 1 (p, s2) -> request s1 = (p, s2) -> p <> 0 ->
  step_ok (pages_inv n) (fun '(_, k) => Z.to_nat (pc - k)) (fun '(ok, k, s') => giving k s' /\ ((ok : bool) = true -> k = pc) /\ (funds pc s -> ok = true)) (Z.to_nat (pc - k)) (let* s' := map4k top (a + k * 4096) p rw_user s2 in Ok (inl (s', k + 1))).
Proof.
  intros (Hg & Hpl & Hf) Hk Hst Hr Hp. destruct (u_pt _ _ (g_user _ _ Hg)) as [tags Hok]. pose proof Hst as ((E1 & _) & _ & _ & _ & Hs4). pose proof (g_bound _ _ Hg) as Hb. unfold step_ok. apply wp_bind. unfold map4k. apply wp_bind. rewrite E1.
  eapply wp_mono; [apply (Map4K_ok top tags (vm_pt s1) (a + k * 4096) p rw_user (Z.to_nat (3 * (pc - (k + 1))) + n) Hok)|]; [now apply clear_next; [| |lia]|apply (plenty_le (Z.to_nat (3 * (pc - k)) + n)); [exact Hpl|lia]|].
  intros pt (tags' & Hok' & Hpl' & Hm). cbn [wp]. split; [|lia]. split; [|split; [exact Hpl'|]].
  - change (k + 1) with (k + page_bytes 1 / 4096). apply (giving_step 1 k s1 s2 p pt tags'); auto; [change (page_bytes 1) with 4096; lia|apply position; lia|]. pose proof (request_maps s1) as E. now rewrite Hr in E.
  - intros Hf0. specialize (Hf Hf0). unfold funds in *. apply (Hs4 (Z.to_nat (pc - (k + 1))) 0%nat). split; [|split; [cbn; lia|constructor]]. cbn [need4k]. now replace (1 + Z.to_nat (pc - (k + 1)))%nat with (Z.to_nat (pc - k)) by lia.
Qed.

Lemma page_2m_step n k s1 s2 p : pages_inv n (s1, k) -> 512 <= pc - k -> (a + k * 4096) mod PAGE_2MB = 0 -> stock_step s1 2 (p, s2) -> request2m s1 = (p, s2) -> p <> 0 ->
  step_ok (pages_inv n) (fun '(_, k) => Z.to_nat (pc - k)) (fun '(ok, k, s') => giving k s' /\ ((ok : bool) = true -> k = pc) /\ (funds pc s -> ok = true)) (Z.to_nat (pc - k)) (let* s' := map2m top (a + k * 4096) p rw_user s2 in Ok (inl (s', k + 512))).
Proof.
  intros (Hg & Hpl & Hf) Hk Hm2 Hst Hr Hp. destruct (u_pt _ _ (g_user _ _ Hg)) as [tags Hok]. pose proof Hst as ((E1 & _) & _). pose proof (g_bound _ _ Hg) as Hb. unfold step_ok. apply wp_bind. unfold map2m. apply wp_bind. rewrite E1.
  eapply wp_mono; [apply (Map2M_ok top tags (vm_pt s1) (a + k * 4096) p rw_user (Z.to_nat (3 * (pc - (k + 512))) + n) Hok)|]; [now apply clear_next; [|lia|lia]|apply (plenty_le (Z.to_nat (3 * (pc - k)) + n)); [exact Hpl|lia]|].
  intros pt (tags' & Hok' & Hpl' & Hm). pose proof (request2m_maps s1) as [Em Er]. rewrite Hr in Em, Er. cbn in Em, Er. cbn [wp]. split; [|lia]. split; [|split; [exact Hpl'|]].
  - change (k + 512) with (k + page_bytes 2 / 4096). apply (giving_step 2 k s1 s2 p pt tags'); auto. change (page_bytes 2) with (512 * 4096). lia.
  - intros Hf0. specialize (Hf Hf0). unfold funds in *. cbn [set_pt vm_req]. rewrite Er. apply (supply_le (Z.to_nat (pc - k))); [exact Hf|lia].
Qed.

Lemma map_pages_of_ok n : plenty (Z.to_nat (3 * pc) + n) (vm_pt s) ->
  wp (map_pages_of s top a pc rw_user) (fun '(ok, k, s') => giving k s' /\ ((ok : bool) = true -> k = pc) /\ (funds pc s -> ok = true)).
Proof.
  intros Hpl. unfold map_pages_of. apply (wp_loop (pages_inv n) (fun '(_, k) => Z.to_nat (pc - k))).
  2:{ split; [apply giving_start|]. rewrite Z.sub_0_r. auto. }
  2:{ lia. }
  intros [s1 k] Hinv. pose proof Hinv as (Hg & Hplk & Hf). pose proof (g_bound _ _ Hg) as Hb. destruct (k <? pc) eqn:Ek; to_prop; [|unfold step_ok; cbn [wp]; replace k with pc in * by lia; split; [exact Hg|auto]].
  destruct (position k ltac:(lia)) as [-> Hk4]. rewrite (proj2 (Z.leb_gt 524288 (pc - k))) by lia. cbn [andb nonnull Z.eqb negb]. pose proof (u_stock _ _ (g_user _ _ Hg)) as Hso.
  assert (Hsmall : forall s2, pages_inv n (s2, k) -> step_ok (pages_inv n) (fun '(_, k) => Z.to_nat (pc - k)) (fun '(ok, k, s') => giving k s' /\ ((ok : bool) = true -> k = pc) /\ (funds pc s -> ok = true)) (Z.to_nat (pc - k))
    (let '(p, s3) := request s2 in if p =? 0 then Ok (inr (false, k, s3)) else let* s' := map4k top (a + k * 4096) p rw_user s3 in Ok (inl (s', k + 1)))).
  { intros s2 Hinv2. pose proof Hinv2 as (Hg2 & _ & Hf2). destruct (request s2) as [p s3] eqn:Er. pose proof (request_ok s2 (u_stock _ _ (g_user _ _ Hg2))) as Hst. rewrite Er in Hst. destruct (p =? 0) eqn:Ep; to_prop; [|now apply (page_4k_step n k s2 s3 p)].
    subst p. destruct Hst as (Hs1 & Hs2 & Hs3 & _ & Hs5). unfold step_ok. cbn [wp]. split; [|split; [easy|]].
    - apply (giving_stock k s2); auto. pose proof (request_maps s2) as E. now rewrite Er in E.
    - intros Hf0. specialize (Hf2 Hf0). unfold funds in Hf2. destruct (Hs5 0%nat 0%nat) as [Hne _]; [|contradiction]. split; [apply (supply_le (Z.to_nat (pc - k))); [exact Hf2|cbn; lia]|split; [cbn; lia|constructor]]. }
  destruct ((512 <=? pc - k) && ((a + k * 4096) mod PAGE_2MB =? 0)) eqn:E2; [|now apply Hsmall]. apply andb_true_iff in E2 as [E2 E3]. to_prop.
  destruct (request2m s1) as [p s2] eqn:Er. pose proof (request2m_ok s1 Hso) as Hst. rewrite Er in Hst. unfold nonnull. destruct (p =? 0) eqn:Ep; to_prop; cbn [negb]; [|now apply (page_2m_step n k s1 s2 p)].
  subst p. apply Hsmall. destruct Hst as (Hs1 & Hs2 & Hs3 & _). pose proof (request2m_maps s1) as [Em Erq]. rewrite Er in Em, Erq. cbn in Em, Erq. split; [now apply (giving_stock k s1)|]. split; [destruct Hs1 as (-> & _); exact Hplk|]. unfold funds in *. now rewrite Erq.
Qed.
End Pages.

(** * Entering the mapping *)

(** The list of mappings can be read where an insertion reads it, and new pages
    for it are new. *)
Record maps_safe (m : map_state) : Prop := {
  ms_free : g_map_free_list m <> 0 -> is_Some (map_nodes m !! g_map_free_list m);
  ms_head : vm_mappings m <> 0 -> exists h, map_nodes m !! vm_mappings m = Some h /\ is_Some (map_nodes m !! mp_prev h);
  ms_pages : forall pg i, pg ∈ map_pages m -> pg <> 0 -> 0 <= i < mappings_per_page -> map_nodes m !! (pg + i * sizeof_mapping) = None
}.

(** As far as an insertion goes. *)
Definition ring_head (m : map_state) (p : Z) : Prop := exists h, map_nodes m !! vm_mappings m = Some h /\ mp_prev h = p /\ is_Some (map_nodes m !! p).

Lemma map_wr_ok (f : vm_mapping -> vm_mapping) m x (Q : map_state -> Prop) : is_Some (map_nodes m !! x) ->
  (forall m', (forall y, is_Some (map_nodes m !! y) -> is_Some (map_nodes m' !! y)) -> vm_mappings m' = vm_mappings m -> (forall p, (forall n, mp_prev n = p -> mp_prev (f n) = p) \/ vm_mappings m <> x -> ring_head m p -> ring_head m' p) -> Q m') ->
  wp (map_wr f m x) Q.
Proof.
  intros [n Hn] HQ. unfold map_wr. rewrite Hn. cbn [wp]. assert (Hk : forall y, is_Some (map_nodes m !! y) -> is_Some (<[x := f n]> (map_nodes m) !! y)) by (intros y Hy; destruct (decide (x = y)) as [<-|E]; [rewrite lookup_insert_eq|rewrite lookup_insert_ne by exact E]; eauto).
  apply HQ; [exact Hk|reflexivity|]. intros p Hp (h & H1 & H2 & H3). unfold ring_head. cbn [map_nodes vm_mappings]. destruct (decide (x = vm_mappings m)) as [->|E].
  - rewrite lookup_insert_eq. rewrite Hn in H1. injection H1 as <-. exists (f n). split; [reflexivity|]. split; [|now apply Hk]. destruct Hp as [Hp|Hp]; [now apply Hp|contradiction].
  - rewrite lookup_insert_ne by exact E. exists h. auto.
Qed.

Lemma pairs_keys {A} (x : A) (l : list Z) : ((fun a => (a, x)) <$> l).*1 = l.
Proof. induction l as [|a l IH]; [reflexivity|]. cbn. f_equal. exact IH. Qed.

Lemma map_alloc_ok m : maps_safe m -> wp (map_alloc_node m) (fun '(x, m') => x = 0 \/ (is_Some (map_nodes m' !! x) /\ vm_mappings m' = vm_mappings m /\ (vm_mappings m <> 0 -> exists p, ring_head m' p))).
Proof.
  intros [H1 H2 H3]. assert (Hring : vm_mappings m <> 0 -> exists p, ring_head m p) by (intros H; destruct (H2 H) as (h & E1 & E2); exists (mp_prev h), h; auto). unfold map_alloc_node. destruct (g_map_free_list m =? 0) eqn:Ef; to_prop.
  - destruct (map_pages m) as [|pg rest] eqn:Ep; [cbn; auto|]. destruct (pg =? 0) eqn:E0; to_prop; [cbn; auto|]. set (ns := (fun i => pg + Z.of_nat i * sizeof_mapping) <$> seq 0 (Z.to_nat mappings_per_page)).
    set (m1 := Maps (list_to_map ((fun a => (a, Mapping 0 0 0 0 0)) <$> ns) ∪ map_nodes m) (vm_mappings m) (g_map_free_list m) rest).
    assert (Hns : forall i, 0 <= i < mappings_per_page -> is_Some (map_nodes m1 !! (pg + i * sizeof_mapping))).
    { intros i Hi. cbn [m1 map_nodes]. apply lookup_union_is_Some. left. destruct (list_to_map _ !! _) eqn:E; [eauto|]. exfalso. apply (not_elem_of_list_to_map_2 _ _ E). rewrite pairs_keys. apply list_elem_of_fmap. exists (Z.to_nat i). split; [now rewrite Z2Nat.id by lia|]. apply elem_of_seq. lia. }
    assert (Hold : forall y n, map_nodes m !! y = Some n -> map_nodes m1 !! y = Some n).
    { intros y n Hy. cbn [m1 map_nodes]. rewrite lookup_union_r; [exact Hy|]. apply not_elem_of_list_to_map_1. rewrite pairs_keys. intros (i & -> & Hi)%list_elem_of_fmap. apply elem_of_seq in Hi. rewrite (H3 pg (Z.of_nat i)) in Hy; [discriminate|constructor|exact E0|lia]. }
    assert (Hr1 : vm_mappings m <> 0 -> exists p, ring_head m1 p) by (intros H; destruct (Hring H) as (p & h & R1 & R2 & [q R3]); exists p, h; split; [now apply Hold|]; split; [exact R2|]; exists q; now apply Hold).
    set (J := fun m' : map_state => (forall y, is_Some (map_nodes m1 !! y) -> is_Some (map_nodes m' !! y)) /\ vm_mappings m' = vm_mappings m /\ (vm_mappings m <> 0 -> exists p, ring_head m' p)).
    assert (Hwr : forall i v m', 0 <= i < mappings_per_page -> J m' -> wp (map_wr (map_next v) m' (pg + i * sizeof_mapping)) J).
    { intros i v m' Hi (J1 & J2 & J3). apply map_wr_ok; [now apply J1, Hns|]. intros m2 K1 K2 K3. split; [auto|]. split; [congruence|]. intros H. destruct (J3 H) as [p Hp]. exists p. apply K3; [now left|exact Hp]. }
    assert (Hn : mappings_per_page = 102) by reflexivity. apply wp_bind. eapply wp_mono; [apply (wp_for_up (fun _ => J))|].
    + intros i m' Hi Hj. apply Hwr; [lia|exact Hj].
    + split; [auto|]. split; [reflexivity|exact Hr1].
    + intros m2 HJ. apply wp_bind. eapply wp_mono; [apply Hwr; [lia|exact HJ]|]. intros m3 (J1 & J2 & J3). cbn [wp with_map_free map_nodes vm_mappings]. right. split; [apply J1; specialize (Hns 0 ltac:(lia)); now rewrite Z.mul_0_l, Z.add_0_r in Hns|]. split; [exact J2|exact J3].
  - unfold map_rd. destruct (H1 Ef) as [n Hn]. rewrite Hn. cbn. right. split; [eauto|]. split; [reflexivity|exact Hring].
Qed.

(** Entering a mapping touches no memory outside of the list. *)
Lemma NewMapping_ok m start pc flags : maps_safe m -> wp (NewMapping m start pc flags) (fun _ => True).
Proof.
  intros Hm. unfold NewMapping. apply wp_bind. eapply wp_mono; [apply (map_alloc_ok m Hm)|]. intros [x m1] [->|(Hx & Eh & Hr)]; [exact I|]. destruct (x =? 0); [exact I|]. apply wp_bind. apply map_wr_ok; [exact Hx|].
  intros m2 A1 A2 A3. unfold nonnull. destruct (vm_mappings m2 =? 0) eqn:E0; cbn [negb]; to_prop.
  { apply wp_bind. apply map_wr_ok; [now apply A1|]. intros m3 _ _ _. exact I. }
  destruct (Hr ltac:(congruence)) as [p Hp]. assert (Hp2 : ring_head m2 p) by (apply A3; [now left|exact Hp]). destruct Hp2 as (h & R1 & R2 & R3). unfold map_rd at 1. rewrite R1. cbn [bind]. rewrite R2.
  apply wp_bind. apply map_wr_ok; [now apply A1|]. intros m3 B1 B2 B3. assert (Hp3 : ring_head m3 p) by (apply B3; [now left|exists h; auto]). apply wp_bind. apply map_wr_ok; [now apply B1, A1|]. intros m4 C1 C2 C3.
  assert (Hp4 : ring_head m4 p) by (apply C3; [now left|exact Hp3]). destruct Hp4 as (h4 & S1 & S2 & S3). rewrite <- B2, <- C2. unfold map_rd. rewrite S1. cbn [bind]. rewrite S2. apply wp_bind. apply map_wr_ok; [exact S3|]. intros m5 D1 D2 D3.
  apply wp_bind. apply map_wr_ok; [apply D1; eauto|]. intros m6 _ _ _. exact I.
Qed.

(** * Allocation *)

(** A process whose page tables map nothing outside of its regions. *)
Record process (conf : vm_conf) (top : Z) (T : list Z) (s : vm) : Prop := {
  pr_user : user_ok top s;
  pr_vma : vma_ok conf (vm_vma s) T;
  pr_low : 0 < low (vm_vma s) /\ low (vm_vma s) mod 4096 = 0;
  pr_high : high conf (vm_vma s) = USER_CEIL;
  pr_link : forall w, (forall x, x ∈ spans (vm_vma s) T -> ~ sp_start x <= w mod 2 ^ 48 < sp_end x) -> low (vm_vma s) <= w mod 2 ^ 48 < 2 ^ 47 -> GetPageInfo (vm_pt s) top w = Ok no_page;
  pr_maps : maps_safe (vm_maps s)
}.

(** What an allocation of [pc] pages that starts at [a] leaves behind. *)
Definition allocated_pages (conf : vm_conf) (top : Z) (T : list Z) (s : vm) (pc a : Z) (s' : vm) : Prop :=
  low (vm_vma s) <= a /\ a mod 4096 = 0 /\ a + pc * 4096 <= 2 ^ 47 /\ Forall (apart_from a (a + pc * 4096)) (spans (vm_vma s) T) /\
  one_more conf (vm_vma s) T (a, pc, rw_user) (vm_vma s') /\ user_ok top s' /\
  (forall w x, view s top w = Some x -> view s' top w = Some x) /\ (forall b, ~ reserved s b -> vm_phys s' b = vm_phys s b) /\
  forall w, (dist a w < pc * 4096 -> given top s s' w) /\ (pc * 4096 <= dist a w -> GetPageInfo (vm_pt s') top w = GetPageInfo (vm_pt s) top w).

(** After a failure the regions and the translations are those from before. *)
Definition as_before (conf : vm_conf) (top : Z) (T : list Z) (s s' : vm) : Prop :=
  (exists T', vma_ok conf (vm_vma s') T' /\ spans (vm_vma s') T' = spans (vm_vma s) T) /\ user_ok top s' /\ (forall b, ~ reserved s b -> vm_phys s' b = vm_phys s b) /\
  forall w, GetPageInfo (vm_pt s') top w = GetPageInfo (vm_pt s) top w.

Lemma folded_frees (log : list event) (s : vm) : let s' := foldl (fun s e => match e with Freed p => free_page s p | _ => s end) s log in
  vm_pt s' = vm_pt s /\ vm_vma s' = vm_vma s /\ vm_rc s' = vm_rc s /\ vm_maps s' = vm_maps s /\ vm_phys s' = vm_phys s /\ vm_req s' = vm_req s /\ vm_req2m s' = vm_req2m s.
Proof.
  cbv zeta. revert s. induction log as [|e log IH]; intros s; [repeat split|]. cbn [foldl]. destruct (IH (match e with Freed p => free_page s p | _ => s end)) as (H1 & H2 & H3 & H4 & H5 & H6 & H7). destruct e; repeat split; assumption.
Qed.

(** Taking back the pages that were mapped. *)
Lemma take_back_ok top s a pc k s1 : user_ok top s -> 0 <= a -> a mod 4096 = 0 -> 0 <= pc < 524288 -> a + pc * 4096 <= 2 ^ 47 -> (forall w, dist a w < pc * 4096 -> GetPageInfo (vm_pt s) top w = Ok no_page) -> giving top s a pc k s1 ->
  wp (free_owned s1 top a (u64 (a + k * PAGE_SIZE))) (fun s2 => vm_vma s2 = vm_vma s1 /\ vm_phys s2 = vm_phys s1 /\ user_ok top s2 /\ forall w, GetPageInfo (vm_pt s2) top w = GetPageInfo (vm_pt s) top w).
Proof.
  intros Hu Ha Hal Hpc Hend Hfree [H1 H2 H3 H4 H5 H6 H7]. destruct (u_pt _ _ H3) as [tags Hok]. assert (E : u64 (a + k * PAGE_SIZE) = a + k * 4096) by (apply Z.mod_small; unfold PAGE_SIZE; lia). rewrite E. unfold free_owned. apply wp_bind.
  eapply wp_mono; [apply (FreeOwnedRegion_ok top tags (vm_pt s1) a k Hok Ha Hal); try lia; intros w i Hw Hi Hz; now apply H7|]. intros [pt log] (Hok' & _ & Hw). cbn [wp].
  destruct (folded_frees log (set_pt s1 pt)) as (F1 & F2 & F3 & F4 & F5 & F6 & F7). cbn [set_pt vm_pt vm_vma vm_rc vm_phys vm_req vm_req2m] in *. set (s2 := foldl _ _ _) in *.
  assert (Hget : forall w, GetPageInfo pt top w = GetPageInfo (vm_pt s) top w).
  { intros w. destruct (Hw w) as [W1 W2]. destruct (Z.lt_ge_cases (dist a w) (k * 4096)) as [Hlt|Hge]; [rewrite W1 by exact Hlt; symmetry; apply Hfree; lia|rewrite W2 by exact Hge; now apply H6]. }
  split; [exact F2|]. split; [exact F5|]. split; [|intros w; rewrite F1; apply Hget]. split; rewrite ?F1, ?F3; [now exists tags|apply H3|destruct (u_stock _ _ H3); split; rewrite ?F6, ?F7; assumption|].
  intros w x Hx Hr. unfold phys_at in Hx. rewrite Hget in Hx. apply (u_apart _ _ Hu w x Hx). apply (q_res _ _ _ H2). unfold reserved in *. now rewrite F6, F7 in Hr.
Qed.

Lemma removed_middle (T1 T2 : list Z) r T' : removed r (T1 ++ r :: T2) T' -> r ∉ T1 -> r ∉ T2 -> T' = T1 ++ T2.
Proof.
  intros (A1 & B1 & E & ->) N1 N2. assert (T1 = A1 /\ T2 = B1) as [<- <-]; [|reflexivity].
  revert A1 E N1. induction T1 as [|t T1 IH]; intros [|a A1] E N1; cbn in E.
  - injection E as E2. auto.
  - injection E as E1 E2. exfalso. apply N2. rewrite E2. apply elem_of_app. right. constructor.
  - injection E as E1 E2. exfalso. apply N1. rewrite E1. constructor.
  - injection E as E1 E2. destruct (IH A1 E2) as [-> ->]; [intros H; apply N1; now constructor|]. now rewrite E1.
Qed.

Section Region.
Context (conf : vm_conf) (v v1 : vma_state) (T : list Z) (a pc : Z) (Ha : 0 <= a) (Hal : a mod 4096 = 0) (Hpc : 1 <= pc).
Context (Hap : Forall (apart_from a (a + pc * 4096)) (spans v T)) (Hone : one_more conf v T (a, pc, rw_user) v1).

Lemma page_start : 4096 * (a / 4096) = a.
Proof. pose proof (Z.div_mod a 4096). lia. Qed.

(** The new region is found at its address, and it is the only one there. *)
Lemma find_new : exists T1 r T2, T = T1 ++ T2 /\ vma_ok conf v1 (T1 ++ r :: T2) /\ spans v1 (T1 ++ r :: T2) = spans v T1 ++ (a, pc, rw_user) :: spans v T2 /\ FindRegion v1 a = Ok r /\ r <> 0 /\ r ∉ T1 /\ r ∉ T2.
Proof.
  destruct Hone as (T1 & r & T2 & -> & Hok & Hsp). exists T1, r, T2. split; [reflexivity|]. split; [exact Hok|]. split; [exact Hsp|]. unfold spans in Hsp, Hap. rewrite fmap_app in Hap. rewrite fmap_app, fmap_cons in Hsp. apply Forall_app in Hap as [P1 P2].
  apply app_inj_1 in Hsp as [S1 S2]; [|now rewrite !length_fmap]. injection S2 as S2 S3. rewrite <- S1 in P1. rewrite <- S3 in P2.
  assert (Hnot : forall t, t ∈ T1 \/ t ∈ T2 -> ~ sp_start (span_of (regions v1) t) <= a < sp_end (span_of (regions v1) t)).
  { intros t Ht. assert (Hx : apart_from a (a + pc * 4096) (span_of (regions v1) t)) by (destruct Ht as [Ht|Ht]; [apply (proj1 (Forall_forall _ _) P1)|apply (proj1 (Forall_forall _ _) P2)]; apply list_elem_of_fmap; eauto). destruct Hx; lia. }
  assert (Hr : sp_start (span_of (regions v1) r) <= a < sp_end (span_of (regions v1) r)) by (rewrite S2; unfold sp_start, sp_end, sp_start, sp_pages; cbn; lia).
  destruct (FindRegion_ok conf v1 _ a Hok Ha) as (y & Ey & [[-> Hn]|[Hy Hs]]).
  - exfalso. apply (Hn rw_user). exists (a, pc, rw_user). unfold spans. rewrite fmap_app, fmap_cons, S2. split; [apply elem_of_app; right; constructor|]. unfold sp_start, sp_end, sp_start, sp_pages, sp_flags. cbn. split; [|reflexivity]. pose proof page_start. lia.
  - rewrite page_start in Hs. assert (y = r) as ->. { apply elem_of_app in Hy as [Hy|Hy]; [exfalso; now apply (Hnot y); [left|]|]. apply elem_of_cons in Hy as [Hy|Hy]; [exact Hy|exfalso; now apply (Hnot y); [right|]]. }
    split; [exact Ey|]. assert (Hn1 : r ∉ T1) by (intros H; apply (Hnot r); [now left|exact Hr]). assert (Hn2 : r ∉ T2) by (intros H; apply (Hnot r); [now right|exact Hr]). split; [|auto].
    intros ->. destruct (ok_inv _ _ _ Hok) as (L & F & Hinv). destruct (tree_region _ _ _ _ _ _ Hinv 0 Hy) as (H0 & _). contradiction.
Qed.

(** Removing it restores the regions. *)
Lemma remove_new : exists r, FindRegion v1 a = Ok r /\ r <> 0 /\ wp (RemoveRegion v1 r) (fun v2 => exists T', vma_ok conf v2 T' /\ spans v2 T' = spans v T).
Proof.
  destruct find_new as (T1 & r & T2 & -> & Hok & Hsp & Hf & Hr & N1 & N2). exists r. split; [exact Hf|]. split; [exact Hr|]. eapply wp_mono; [apply (RemoveRegion_ok conf v1 _ r Hok)|]; [apply elem_of_app; right; constructor|].
  intros v2 (T' & Hok2 & Hrem & _ & _ & Hspan). exists T'. split; [exact Hok2|]. apply removed_middle in Hrem; [|exact N1|exact N2]. subst T'. unfold spans in *. rewrite fmap_app, fmap_cons in Hsp. apply app_inj_1 in Hsp as [S1 S2]; [|now rewrite !length_fmap]. injection S2 as _ S3.
  rewrite !fmap_app. rewrite <- S1, <- S3. f_equal; apply list_fmap_ext; intros; apply Hspan.
Qed.
End Region.

Section Alloc.
Context (conf : vm_conf) (top : Z) (T : list Z) (s : vm) (pc : Z) (Hpr : process conf top T s) (Hpc : 1 <= pc < 524288).

(** What can be missing. *)
Definition short : Prop := no_memory (vm_vma s) \/ no_room (vm_vma s) T (low (vm_vma s)) (high conf (vm_vma s)) (pc * 4096) true \/ ~ funds pc s.

Definition alloc_result (x : Z * vm) : Prop :=
  let '(a, s') := x in (a = 0 /\ as_before conf top T s s' /\ short) \/ (a <> 0 /\ allocated_pages conf top T s pc a s').

Lemma user_ok_vma v : user_ok top (set_vma s v).
Proof. destruct (pr_user _ _ _ _ Hpr) as [U1 U2 U3 U4]. split; auto. destruct U3. split; assumption. Qed.

Section Placed.
Context (a : Z) (v1 : vma_state) (Hlo : low (vm_vma s) <= a) (Hal : a mod 4096 = 0) (Hend : a + pc * 4096 <= 2 ^ 47).
Context (Hap : Forall (apart_from a (a + pc * 4096)) (spans (vm_vma s) T)) (Hone : one_more conf (vm_vma s) T (a, pc, rw_user) v1).

Lemma range_free w : dist a w < pc * 4096 -> GetPageInfo (vm_pt s) top w = Ok no_page.
Proof.
  intros Hd. pose proof (pr_low _ _ _ _ Hpr) as [Hl _]. pose proof (dist_bound a w) as Hb. assert (E : w mod 2 ^ 48 = a + dist a w).
  { unfold dist in *. replace w with (a + (w - a)) at 1 by lia. rewrite <- Z.add_mod_idemp_r by lia. apply Z.mod_small. lia. }
  apply (pr_link _ _ _ _ Hpr); rewrite E; [|lia]. intros x Hx Hin. destruct (proj1 (Forall_forall _ _) Hap x Hx); lia.
Qed.

Lemma finish_alloc_ok n : plenty (Z.to_nat (3 * pc) + n) (vm_pt s) -> wp (finish_alloc (set_vma s v1) top a pc rw_user) alloc_result.
Proof.
  intros Hpl. pose proof (pr_low _ _ _ _ Hpr) as [Hl _]. unfold finish_alloc. apply wp_bind. eapply wp_mono; [apply (map_pages_of_ok top (set_vma s v1) a pc (user_ok_vma v1) ltac:(lia) Hal ltac:(lia) Hend range_free n Hpl)|].
  intros [[ok k] s1] (Hg & Hk & Hf). pose proof Hg as [H1 H2 H3 H4 H5 H6 H7]. pose proof (q_vma _ _ _ H2) as Ev. cbn [set_vma vm_vma] in Ev. destruct ok.
  - specialize (Hk eq_refl). subst k. apply wp_bind. eapply wp_mono; [apply (NewMapping_ok (vm_maps s1) a pc rw_user); rewrite H4; exact (pr_maps _ _ _ _ Hpr)|]. intros [x m] _. cbn [wp alloc_result]. right. split; [lia|].
    split; [exact Hlo|]. split; [exact Hal|]. split; [exact Hend|]. split; [exact Hap|]. split; [cbn [set_maps vm_vma]; rewrite Ev; exact Hone|]. split; [destruct H3 as [U1 U2 U3 U4]; split; auto; destruct U3; split; assumption|].
    split; [exact (q_view _ _ _ H2)|]. split; [exact (q_mem _ _ _ H2)|]. intros w. split; [exact (H5 w)|exact (H6 w)].
  - apply wp_bind. eapply wp_mono; [apply (take_back_ok top (set_vma s v1) a pc k s1 (user_ok_vma v1) ltac:(lia) Hal ltac:(lia) Hend range_free Hg)|]. intros s2 (E1 & E2 & U2 & Hw). rewrite E1, Ev.
    destruct (remove_new conf (vm_vma s) v1 T a pc ltac:(lia) Hal ltac:(lia) Hap Hone) as (r & Hr & Hr0 & Hrm). rewrite Hr. cbn [bind]. unfold nonnull. rewrite (proj2 (Z.eqb_neq _ _) Hr0). cbn [negb]. apply wp_bind. apply wp_bind. eapply wp_mono; [exact Hrm|].
    intros v2 Hv2. cbn [wp alloc_result]. left. split; [reflexivity|]. split; [|right; right; intros H; specialize (Hf H); discriminate]. split; [exact Hv2|]. split; [destruct U2 as [V1 V2 V3 V4]; split; auto; destruct V3; split; assumption|]. split; [|exact Hw].
    intros b Hb. cbn [set_vma vm_phys]. rewrite E2. now apply (q_mem _ _ _ H2).
Qed.
End Placed.

Lemma Alloc_ok n : plenty (Z.to_nat (3 * pc) + n) (vm_pt s) -> wp (Alloc conf s top pc true) alloc_result.
Proof.
  intros Hpl. pose proof (pr_low _ _ _ _ Hpr) as [Hl Hl4]. unfold Alloc. rewrite (proj2 (Z.eqb_neq pc 0)) by lia. fold rw_user. apply wp_bind.
  eapply wp_mono; [apply (InternalAlloc_ok conf (vm_vma s) T pc rw_user 0 (pr_vma _ _ _ _ Hpr)); [lia|exact Hl4|reflexivity|lia]|]. intros [a v1] [_ [(-> & Hok & Hsp & Hwhy)|(Hspan & Hlo & Hap & Hone & Hin & Hus)]].
  - cbn [Z.eqb wp alloc_result]. left. split; [reflexivity|]. split; [|unfold short; destruct Hwhy; auto]. split; [exists T; auto|]. split; [apply user_ok_vma|]. split; reflexivity.
  - rewrite (proj2 (Z.eqb_neq a 0)) by lia. destruct Hspan as (_ & Hal & _). unfold sp_start in Hal. cbn in Hal.
    assert (Hend : a + pc * 4096 <= 2 ^ 47) by (apply Hus; [reflexivity|rewrite (pr_high _ _ _ _ Hpr); lia]).
    destruct (find_new conf (vm_vma s) v1 T a pc ltac:(lia) Hal ltac:(lia) Hap Hone) as (T1 & r & T2 & _ & _ & _ & Hr & Hr0 & _). unfold ensure_region. cbn [set_vma vm_vma]. rewrite Hr. cbn [bind]. rewrite (proj2 (Z.eqb_neq _ _) Hr0). cbn [bind].
    now apply (finish_alloc_ok a v1 Hlo Hal Hend Hap Hone n).
Qed.
End Alloc.
