(* ===== verification/PageTabClaims.v ===== *)
(** Page tables and reference counts: the properties, on tables that the
    operations build. *)
From stdpp Require Import base gmap list fin_maps.
From Stdlib Require Import ZArith Lia.
From S2P Require Import Prelude RBTree PMM VMA PageTab PageTabInv PageTabMap PageTabRange PageTabFree RefCount.

Open Scope Z_scope.
Open Scope c_scope.

(** * Tables to start from *)

Definition pages_from (a size : Z) (n : nat) : list Z := (fun i => a + Z.of_nat i * size) <$> seq 0 n.

Lemma pages_from_elem a size n p : p ∈ pages_from a size n <-> exists i, (i < n)%nat /\ p = a + Z.of_nat i * size.
Proof. unfold pages_from. rewrite list_elem_of_fmap. split; intros (i & H1 & H2); exists i; [apply elem_of_seq in H2; split; [lia|exact H1]|split; [exact H2|apply elem_of_seq; lia]]. Qed.

Lemma pages_from_lookup a size n i p : pages_from a size n !! i = Some p -> (i < n)%nat /\ p = a + Z.of_nat i * size.
Proof. unfold pages_from. rewrite list_lookup_fmap. destruct (decide (i < n)%nat) as [H|H]; [rewrite lookup_seq_lt by exact H; cbn; intros [= <-]; auto|rewrite lookup_seq_ge by lia; discriminate]. Qed.

Lemma pages_from_nodup a size n : 0 < size -> NoDup (pages_from a size n).
Proof.
  intros Hs. apply NoDup_alt. intros i j p Hi Hj. apply pages_from_lookup in Hi as [_ ->]. apply pages_from_lookup in Hj as [_ E]. nia.
Qed.

Lemma pages_from_length a size n : length (pages_from a size n) = n.
Proof. unfold pages_from. now rewrite length_fmap, length_seq. Qed.

(** An empty top table and [n] pages for more. *)
Definition top0 : Z := 0x1000.
Definition empty_pt (n : nat) : pt_state := Pt {[top0 := replicate 512 0]} (pages_from 0x100000 4096 n).
Definition tags0 : tag_map := {[top0 := (4%nat, 0)]}.

Lemma mask_page p : 0 <= p < 2 ^ 52 -> p mod 4096 = 0 -> PTE_MASK p = p.
Proof. intros H1 H2. now apply (aligned_mask 1 p); [lia| |]. Qed.

Lemma empty_pt_ok n : Z.of_nat n < 2 ^ 30 -> pt_ok top0 tags0 (empty_pt n) /\ plenty n (empty_pt n).
Proof.
  intros Hn. assert (Hpg : forall p, p ∈ pages_from 0x100000 4096 n -> 0 < p < 2 ^ 52 /\ p mod 4096 = 0 /\ p <> top0).
  { intros p (i & Hi & ->)%pages_from_elem. split; [lia|]. split; [change 0x100000 with (256 * 4096); rewrite <- Z.mul_add_distr_r; now apply Z.mod_mul|unfold top0; lia]. }
  split; [split|].
  - apply lookup_singleton_eq.
  - intros t l k Ht. unfold tags0 in Ht. apply lookup_singleton_Some in Ht as [<- [= <- <-]]. split; [lia|]. split; [reflexivity|]. exists (replicate 512 0). split; [apply lookup_singleton_eq|]. split; [reflexivity|].
    intros i e [-> _]%lookup_replicate. discriminate.
  - intros p Hp _. destruct (Hpg p Hp) as (H1 & H2 & H3). split; [apply mask_page; lia|]. apply lookup_singleton_ne. auto.
  - apply NoDup_filter. now apply pages_from_nodup.
  - split; [cbn; now rewrite pages_from_length|]. apply Forall_take, Forall_forall. intros p Hp. destruct (Hpg p Hp); lia.
Qed.

Lemma empty_pt_info n w : GetPageInfo (empty_pt n) top0 w = Ok no_page.
Proof.
  unfold GetPageInfo, table_get, empty_pt. cbn [tables]. rewrite lookup_singleton_eq. unfold get. pose proof (idx_bound 4 w ltac:(lia)) as Hb. change (idx 4 w) with (PML4E w) in Hb. rewrite (proj2 (Z.ltb_ge _ _)) by lia.
  rewrite lookup_replicate_2 by lia. reflexivity.
Qed.

Lemma empty_pt_clear n l v : clear_to l (empty_pt n) top0 v.
Proof. exists no_page. rewrite <- GetPageInfo_levels. split; [apply empty_pt_info|]. cbn. destruct l as [|[|[|l]]]; discriminate. Qed.

(** * One page *)

Definition map_page (l : nat) : pt_state -> Z -> Z -> Z -> Z -> res pt_state :=
  match l with 1%nat => Map4K | 2%nat => Map2M | _ => Map1G end.

(** C28: mapping a page of 4 KiB, 2 MiB or 1 GiB where no larger page is, with
    enough memory for tables, keeps the tables a tree; afterwards a walk from any
    address of the page finds the physical page, its size and its flags, and a
    walk from any other address finds what it found before. *)
Theorem map_page_roundtrip l top tags s v p f n : (1 <= l <= 3)%nat -> pt_ok top tags s -> clear_to l s top v -> plenty (3 + n) s ->
  wp (map_page l s top v p f) (fun s' => exists tags', pt_ok top tags' s' /\ plenty n s' /\
    forall w, GetPageInfo s' top w = if decide (vkey l w = vkey l v) then Ok (if PAGE_EXISTS f then mapping l p f else no_page) else GetPageInfo s top w).
Proof.
  intros Hl Hok Hc Hpl. destruct l as [|[|[|[|l]]]]; [lia| | | |lia].
  - now apply (Map4K_ok top tags).
  - apply (Map2M_ok top tags); auto. now apply (plenty_le (3 + n)); [|lia].
  - apply (Map1G_ok top tags); auto. now apply (plenty_le (3 + n)); [|lia].
Qed.

Lemma map_page_roundtrip_witness : (let* s := map_page 2 (empty_pt 4) top0 0x7F0000200000 0x40000000 7 in GetPageInfo s top0 0x7F0000212345) = Ok (Info 0x40000000 PAGE_2MB 0x87) /\
  wp (map_page 2 (empty_pt 4) top0 0x7F0000200000 0x40000000 7) (fun s' => exists tags', pt_ok top0 tags' s' /\ plenty 1 s' /\
    forall w, GetPageInfo s' top0 w = if decide (vkey 2 w = vkey 2 0x7F0000200000) then Ok (if PAGE_EXISTS 7 then mapping 2 0x40000000 7 else no_page) else GetPageInfo (empty_pt 4) top0 w).
Proof.
  split; [vm_compute; reflexivity|]. destruct (empty_pt_ok 4 ltac:(lia)) as [H1 H2]. apply (map_page_roundtrip 2 top0 tags0 (empty_pt 4) 0x7F0000200000 0x40000000 7 1 ltac:(lia) H1); [apply empty_pt_clear|exact H2].
Defined.

(** * Ranges *)

(** C29: [MapRange] of a range without pages, page-aligned, inside the address
    space, with enough memory for tables, returns and makes every address of the
    range translate to the corresponding address of the physical range with the
    flags, whatever mixture of page sizes it chose, and changes no translation
    outside. *)
Theorem MapRange_correct top s0 vaddr paddr flags count : vaddr mod 4096 = 0 -> paddr mod 4096 = 0 -> 0 <= paddr -> paddr + count * 4096 <= 2 ^ 52 -> 0 <= count -> count * 4096 <= 2 ^ 48 -> PAGE_EXISTS flags = true ->
  (forall w, dist vaddr w < count * 4096 -> GetPageInfo s0 top w = Ok no_page) -> (exists tags, pt_ok top tags s0) -> plenty (Z.to_nat (3 * count)) s0 ->
  wp (MapRange s0 top vaddr paddr flags count) (fun s' => (exists tags, pt_ok top tags s') /\
    forall w, (dist vaddr w < count * 4096 -> translates s' top w (paddr + dist vaddr w) flags) /\ (count * 4096 <= dist vaddr w -> GetPageInfo s' top w = GetPageInfo s0 top w)).
Proof. apply MapRange_ok. Qed.

Lemma MapRange_correct_witness :
  (let* s := MapRange (empty_pt 1600) top0 0x5FF000 0x3FF000 3 514 in let* i := GetPageInfo s top0 0x5FF123 in let* j := GetPageInfo s top0 0x6FF123 in Ok (i, j)) = Ok (Info 0x3FF000 PAGE_SIZE 3, Info 0x400000 PAGE_2MB 0x83) /\
  wp (MapRange (empty_pt 1600) top0 0x5FF000 0x3FF000 3 514) (fun s' => (exists tags, pt_ok top0 tags s') /\
    forall w, (dist 0x5FF000 w < 514 * 4096 -> translates s' top0 w (0x3FF000 + dist 0x5FF000 w) 3) /\ (514 * 4096 <= dist 0x5FF000 w -> GetPageInfo s' top0 w = GetPageInfo (empty_pt 1600) top0 w)).
Proof.
  split; [vm_compute; reflexivity|]. destruct (empty_pt_ok 1600 ltac:(lia)) as [H1 H2]. apply (MapRange_correct top0 (empty_pt 1600) 0x5FF000 0x3FF000 3 514); try reflexivity; try lia; [intros w _; apply empty_pt_info|eauto|apply (plenty_le 1600); [exact H2|lia]].
Defined.

(** * Releasing *)

Definition after (r : res pt_state) : pt_state := match r with Ok s => s | _ => Pt ∅ [] end.

Lemma after_wp r (Q : pt_state -> Prop) : wp r Q -> Q (after r).
Proof. now destruct r. Qed.

(** A page of 4 KiB, followed by one of 2 MiB. *)
Definition two_pages : pt_state := after (Map2M (after (Map4K (empty_pt 9) top0 0x1FF000 0x40000000 7)) top0 0x200000 0x40200000 7).

Lemma two_pages_ok : exists tags, pt_ok top0 tags two_pages /\ forall w, GetPageInfo two_pages top0 w =
  if decide (vkey 2 w = vkey 2 0x200000) then Ok (mapping 2 0x40200000 7) else if decide (vkey 1 w = vkey 1 0x1FF000) then Ok (mapping 1 0x40000000 7) else Ok no_page.
Proof.
  destruct (empty_pt_ok 9 ltac:(lia)) as [H1 H2]. pose proof (after_wp _ _ (Map4K_ok top0 tags0 (empty_pt 9) 0x1FF000 0x40000000 7 6 H1 (empty_pt_clear _ _ _) H2)) as (tags1 & H3 & H4 & H5).
  set (s1 := after (Map4K _ _ _ _ _)) in *. assert (Hc : clear_to 2 s1 top0 0x200000) by (exists no_page; rewrite <- GetPageInfo_levels, H5, decide_False by discriminate; split; [apply empty_pt_info|discriminate]).
  pose proof (after_wp _ _ (Map2M_ok top0 tags1 s1 0x200000 0x40200000 7 4 H3 Hc H4)) as (tags2 & H6 & _ & H7). exists tags2. split; [exact H6|]. intros w. unfold two_pages. fold s1. rewrite (H7 w), (H5 w), empty_pt_info. reflexivity.
Qed.

(** C26: [FreeOwnedRegion] on a page-aligned range of at most 2^47 bytes whose
    mapped pages are of 4 KiB or 2 MiB and lie inside the range returns, keeps the
    tables a tree, leaves no address of the range mapped and changes no other
    translation; and every page it gives back to the page allocator was behind an
    entry that it cleared before a fence after which it gave the page back, so,
    when fences are complete, no processor can still reach the page.  Pages of
    1 GiB are excluded: the batch may be given back before their entry is
    cleared, see [huge_page_unfenced]. *)
Theorem FreeOwnedRegion_correct top tags s0 start n : pt_ok top tags s0 -> 0 <= start -> start mod 4096 = 0 -> 0 <= n -> n * 4096 <= 2 ^ 47 -> start + n * 4096 < 2 ^ 64 ->
  (forall w i, dist start w < n * 4096 -> GetPageInfo s0 top w = Ok i -> i_size i <> 0 ->
     i_size i <> PAGE_1GB /\ forall w', vkey (level_of (i_size i)) w' = vkey (level_of (i_size i)) w -> dist start w' < n * 4096) ->
  wp (FreeOwnedRegion s0 top start (start + n * 4096)) (fun '(s', log) => pt_ok top tags s' /\ fenced s0 top log /\
    forall w, (dist start w < n * 4096 -> GetPageInfo s' top w = Ok no_page) /\ (n * 4096 <= dist start w -> GetPageInfo s' top w = GetPageInfo s0 top w)).
Proof. apply FreeOwnedRegion_ok. Qed.

Lemma dist_shift a b w n : 0 <= b - a -> dist b w < n -> n + (b - a) <= 2 ^ 48 -> dist a w = dist b w + (b - a).
Proof.
  intros H1 H2 H3. unfold dist in *. pose proof (Z.mod_pos_bound (w - b) (2 ^ 48) ltac:(lia)). replace (w - a) with ((w - b) + (b - a)) by lia. rewrite <- Z.add_mod_idemp_l by lia. apply Z.mod_small. lia.
Qed.

Lemma FreeOwnedRegion_correct_witness : exists tags,
  (let* (_, log) := FreeOwnedRegion two_pages top0 0x1FF000 (0x1FF000 + 513 * 4096) in Ok log) = Ok [Unmapped 0x1FF000; Deferred 0x1FF000; Unmapped 0x200000; Deferred 0x200000; Fence; Freed 0x40000000; Freed 0x40200000] /\
  wp (FreeOwnedRegion two_pages top0 0x1FF000 (0x1FF000 + 513 * 4096)) (fun '(s', log) => pt_ok top0 tags s' /\ fenced two_pages top0 log /\
    forall w, (dist 0x1FF000 w < 513 * 4096 -> GetPageInfo s' top0 w = Ok no_page) /\ (513 * 4096 <= dist 0x1FF000 w -> GetPageInfo s' top0 w = GetPageInfo two_pages top0 w)).
Proof.
  destruct two_pages_ok as (tags & Hok & Hw). exists tags. split; [vm_compute; reflexivity|]. apply (FreeOwnedRegion_correct top0 tags two_pages 0x1FF000 513 Hok); try lia; [reflexivity|].
  intros w i _ Hi Hs. rewrite Hw in Hi. destruct (decide (vkey 2 w = _)) as [E|E]; [|destruct (decide (vkey 1 w = _)) as [E1|E1]]; injection Hi as <-; [| |now cbn in Hs].
  - split; [discriminate|]. change (level_of (i_size (mapping 2 0x40200000 7))) with 2%nat. intros w' E'. rewrite E in E'. apply (same_page 2) in E'; [|lia|reflexivity]. change (page_bytes 2) with 0x200000 in E'. rewrite (dist_shift 0x1FF000 0x200000 w' 0x200000); lia.
  - split; [discriminate|]. change (level_of (i_size (mapping 1 0x40000000 7))) with 1%nat. intros w' E'. rewrite E1 in E'. apply (same_page 1) in E'; [|lia|reflexivity]. change (page_bytes 1) with 4096 in E'. lia.
Defined.

(** A lone page of 1 GiB: the first thing [FreeOwnedRegion] does is a fence and
    the release of its parts, before its entry is cleared. *)
Lemma huge_page_unfenced :
  (let* (_, log) := FreeOwnedRegion (after (Map1G (empty_pt 9) top0 PAGE_1GB (4 * PAGE_1GB) 7)) top0 PAGE_1GB (2 * PAGE_1GB) in Ok (take 2 log, drop 257 (take 259 log))) =
    Ok ([Fence; Freed (4 * PAGE_1GB)], [Unmapped PAGE_1GB; Deferred PAGE_1GB]).
Proof. vm_compute. reflexivity. Qed.

(** * Reference counts *)

(** C27: whatever sequence of handing out, sharing, refused sharing and dropping
    of pages came before, dropping a page that someone holds goes through, and
    the answer is to release the page exactly when this was its last holder: no
    page is released while it is shared, and none is kept without a holder. *)
Theorem RefDecPhys_last_holder H s p : rc_reach H s -> 1 <= H p -> wp (RefDecPhys s p) (fun '(b, _) => b = true <-> H p = 1).
Proof. apply drop_ok. Qed.

(** Page 0x5000 is handed out and shared once. *)
Definition rc_shared : rc_state := match RefSharedPhys (RefcountTreeInit ∅ ∅ [0x9000; 0xA000]) 0x5000 with Ok (_, s) => s | _ => RefcountTreeInit ∅ ∅ [] end.

Lemma RefDecPhys_last_holder_witness : exists H, H 0x5000 = 2 /\ H 0x6000 = 0 /\ (let* (b, s) := RefDecPhys rc_shared 0x5000 in let* (b', _) := RefDecPhys s 0x5000 in Ok (b, b')) = Ok (false, true) /\
  wp (RefDecPhys rc_shared 0x5000) (fun '(b, _) => b = true <-> H 0x5000 = 1).
Proof.
  exists (fun q => if q =? 0x5000 then (fun q => if q =? 0x5000 then 1 else 0) q + 1 else (fun q => if q =? 0x5000 then 1 else 0) q). split; [reflexivity|]. split; [reflexivity|]. split; [vm_compute; reflexivity|].
  apply (RefDecPhys_last_holder (fun q => if q =? 0x5000 then (fun q => if q =? 0x5000 then 1 else 0) q + 1 else (fun q => if q =? 0x5000 then 1 else 0) q)); [|cbn; lia].
  apply (reach_shared _ (RefcountTreeInit ∅ ∅ [0x9000; 0xA000]) 0x5000 rc_shared); [|cbn; lia|vm_compute; reflexivity]. apply (reach_given (fun _ => 0)); [|reflexivity]. apply reach_start. apply (bool_decide_unpack _). vm_compute. exact I.
Defined.
