(* ===== verification/VmmClaims.v ===== *)
(** Virtual memory of a process: the properties, on a process with a page of its
    own and one that it shares, and the places where the code departs from them. *)
From stdpp Require Import base gmap list fin_maps.
From Stdlib Require Import ZArith Lia.
From S2P Require Import Prelude RBTree PMM VMA VMASpec VMAAlloc VMACalls VMAClaims PageTab PageTabInv PageTabMap PageTabRange PageTabFree RefCount Vmm UserAccess UserView UserCow UserWrite VmmLife VmmAlloc PageTabClaims.

Open Scope Z_scope.
Open Scope c_scope.

(** * A process *)

Definition own_flags : Z := 7.
Definition shared_flags : Z := Z.lor 5 VMM_COW_BIT.

(** Page 0x7000 is the process's own, page 0x8000 is shared for copy-on-write. *)
Definition user_pt : pt_state := after (Map4K (after (Map4K (empty_pt 2100) top0 0x7000 0x40000000 own_flags)) top0 0x8000 0x40001000 shared_flags).

Definition rc_user : rc_state := match RefSharedPhys (RefcountTreeInit ∅ ∅ [0x9000]) 0x40001000 with Ok (_, s) => s | _ => RefcountTreeInit ∅ ∅ [] end.

Definition user0 : vm :=
  Vm user_pt sample rc_user (Maps ∅ 0 0 []) (fun a => a mod 251) (pages_from 0x50000000 4096 4) (pages_from 0x80000000 PAGE_2MB 2048) [] [].

Lemma user_pt_ok : exists tags, pt_ok top0 tags user_pt /\ plenty 2094 user_pt /\ forall w, GetPageInfo user_pt top0 w =
  if decide (vkey 1 w = vkey 1 0x8000) then Ok (mapping 1 0x40001000 shared_flags) else if decide (vkey 1 w = vkey 1 0x7000) then Ok (mapping 1 0x40000000 own_flags) else Ok no_page.
Proof.
  destruct (empty_pt_ok 2100 ltac:(lia)) as [H1 H2]. pose proof (after_wp _ _ (Map4K_ok top0 tags0 (empty_pt 2100) 0x7000 0x40000000 own_flags 2097 H1 (empty_pt_clear _ _ _) H2)) as (tags1 & H3 & H4 & H5).
  set (s1 := after (Map4K _ _ _ _ _)) in *. assert (Hc : clear_to 1 s1 top0 0x8000) by (exists no_page; rewrite <- GetPageInfo_levels, H5, decide_False by discriminate; split; [apply empty_pt_info|discriminate]).
  pose proof (after_wp _ _ (Map4K_ok top0 tags1 s1 0x8000 0x40001000 shared_flags 2094 H3 Hc H4)) as (tags2 & H6 & H7 & H8). exists tags2. split; [exact H6|]. split; [exact H7|]. intros w. unfold user_pt. fold s1. rewrite (H8 w), (H5 w), empty_pt_info. reflexivity.
Qed.

Lemma user_phys w : phys_at user_pt top0 w =
  if decide (vkey 1 w = vkey 1 0x8000) then Some (0x40001000 + w mod 4096) else if decide (vkey 1 w = vkey 1 0x7000) then Some (0x40000000 + w mod 4096) else None.
Proof. destruct user_pt_ok as (_ & _ & _ & H). unfold phys_at. rewrite H. destruct (decide _); [reflexivity|]. destruct (decide _); reflexivity. Qed.

Lemma user_rc_ok : rc_ok {[0x40001000 := 2]} rc_user.
Proof.
  assert (H : rc_ok ∅ (RefcountTreeInit ∅ ∅ [0x9000])) by (apply empty_tree_ok; apply (bool_decide_unpack _); vm_compute; exact I).
  pose proof (RefSharedPhys_ok ∅ _ 0x40001000 H ltac:(intros c Hc; now rewrite lookup_empty in Hc)) as Hw. unfold rc_user. destruct (RefSharedPhys _ _) as [[b s]| |]; [|easy..]. cbn in Hw. destruct Hw as [(_ & _ & E)|[_ Hw]]; [discriminate|exact Hw].
Qed.

Lemma user_stock : stock_ok user0.
Proof.
  split; cbn [user0 vm_req vm_req2m]; unfold apart.
  - intros p (i & Hi & ->)%pages_from_elem _. split; [|lia]. change PAGE_SIZE with 4096. change 0x50000000 with (0x50000 * 4096). rewrite <- Z.mul_add_distr_r. now apply Z.mod_mul.
  - intros p (i & Hi & ->)%pages_from_elem _. change PAGE_2MB with (2 ^ 21). split; [|lia]. change 0x80000000 with (0x400 * 2 ^ 21). rewrite <- Z.mul_add_distr_r. now apply Z.mod_mul.
  - intros i j p q Hij [_ ->]%pages_from_lookup [_ ->]%pages_from_lookup _ _. unfold PAGE_SIZE. lia.
  - intros i j p q Hij [_ ->]%pages_from_lookup [_ ->]%pages_from_lookup _ _. change PAGE_2MB with (2 ^ 21). lia.
  - intros p q (i & Hi & ->)%pages_from_elem (j & Hj & ->)%pages_from_elem _ _. change PAGE_2MB with (2 ^ 21). unfold PAGE_SIZE. lia.
Qed.

Lemma user0_ok : user_ok top0 user0.
Proof.
  destruct user_pt_ok as (tags & H1 & _). split; [now exists tags|eexists; apply user_rc_ok|apply user_stock|]. intros w a Hw Ha. cbn [user0 vm_pt] in Hw. rewrite user_phys in Hw. pose proof (Z.mod_pos_bound w 4096 ltac:(lia)).
  assert (Hlt : a < 0x50000000) by (destruct (decide _); [injection Hw as <-; lia|]; destruct (decide _); [injection Hw as <-; lia|discriminate]).
  destruct Ha as [(p & (i & _ & ->)%pages_from_elem & _ & Hp)|(p & (i & _ & ->)%pages_from_elem & _ & Hp)]; [lia|]. change PAGE_2MB with (2 ^ 21) in Hp. lia.
Qed.

Lemma user0_once : once user0 top0 0x7FFC 0x8004.
Proof.
  intros w1 w2 a H1 H2 (i & Hi & Hz & Hc & _) P1 P2. cbn [user0 vm_pt] in *. destruct user_pt_ok as (_ & _ & _ & Hw). rewrite Hw in Hi. rewrite user_phys in P1, P2. pose proof (Z.mod_pos_bound w1 4096 ltac:(lia)). pose proof (Z.mod_pos_bound w2 4096 ltac:(lia)).
  destruct (decide (vkey 1 w1 = vkey 1 0x8000)) as [E1|E1]; [injection Hi as <-; discriminate|]. destruct (decide (vkey 1 w1 = vkey 1 0x7000)) as [E2|E2]; [|injection Hi as <-; now cbn in Hz]. injection P1 as <-.
  destruct (decide (vkey 1 w2 = vkey 1 0x8000)) as [E3|E3]; [injection P2; lia|]. destruct (decide (vkey 1 w2 = vkey 1 0x7000)) as [E4|E4]; [|discriminate]. rewrite <- E2 in E4. apply (vkey_page 1) in E4; [|lia..]. change (page_bytes 1) with 4096 in E4.
  assert (w2 mod 4096 = w1 mod 4096) by (injection P2; lia). pose proof (Z.div_mod w1 4096). pose proof (Z.div_mod w2 4096). lia.
Qed.

Lemma user0_supplied : supplied 4 2048 user0.
Proof.
  split; (split; [cbn [user0 vm_req vm_req2m]; now rewrite pages_from_length|]); apply Forall_take, Forall_forall; intros p (i & _ & ->)%pages_from_elem; change PAGE_2MB with (2 ^ 21); lia.
Qed.

Lemma user0_ready w : 0x7FFC <= w < 0x8004 -> ready user0 top0 w.
Proof.
  intros Hw. destruct user_pt_ok as (_ & _ & _ & H). unfold ready. cbn [user0 vm_pt]. rewrite H. destruct (decide (vkey 1 w = vkey 1 0x8000)) as [E|E]; [eexists; split; [reflexivity|]; left; repeat split; discriminate|].
  rewrite decide_True; [eexists; split; [reflexivity|]; left; repeat split; discriminate|]. apply (vkey_page 1); [lia..|]. change (page_bytes 1) with 4096. destruct (Z.lt_ge_cases w 0x8000) as [Hl|Hg]; [symmetry; apply (Z.div_unique w 4096 7 (w - 0x7000)); lia|].
  exfalso. apply E. apply (vkey_page 1); [lia..|]. change (page_bytes 1) with 4096. symmetry. apply (Z.div_unique w 4096 8 (w - 0x8000)); lia.
Qed.

(** * Copies *)

(** C30: [CopyFromUser] on a range of user addresses returns, and delivers what
    the process sees, byte by byte, up to the first byte that is not in a page of
    the user; it succeeds exactly when there is no such byte, whatever the sizes
    of the pages, and writes nothing else. *)
Theorem CopyFromUser_correct conf s top tags kmem k u len : pt_ok top tags (vm_pt s) -> 0 < u -> k <> 0 -> top <> 0 -> 0 <= len -> u + len <= user_space_end conf + 1 ->
  wp (CopyFromUser conf s top kmem k u len) (fun '(b, km) => exists n, 0 <= n <= len /\ (forall j, 0 <= j < n -> readable s top (u + j)) /\
    fetched s top kmem k u n km /\ if b : bool then n = len else n < len /\ ~ readable s top (u + n)).
Proof. intros Hok Hu Hk Ht Hlen Hend. now apply (CopyFromUser_ok conf s top tags Hok kmem k u len). Qed.

Lemma CopyFromUser_correct_witness : exists tags, pt_ok top0 tags (vm_pt user0) /\
  (let* (b, km) := CopyFromUser conf0 user0 top0 (fun _ => 0) 0xA000 0x7FFE 4 in Ok (b, km <$> [0xA000; 0xA001; 0xA002; 0xA003; 0xA004])) =
    Ok (true, [0x40000FFE mod 251; 0x40000FFF mod 251; 0x40001000 mod 251; 0x40001001 mod 251; 0]) /\
  (let* (b, _) := CopyFromUser conf0 user0 top0 (fun _ => 0) 0xA000 0x8FFE 4 in Ok b) = Ok false /\
  wp (CopyFromUser conf0 user0 top0 (fun _ => 0) 0xA000 0x7FFE 4) (fun '(b, km) => exists n, 0 <= n <= 4 /\ (forall j, 0 <= j < n -> readable user0 top0 (0x7FFE + j)) /\
    fetched user0 top0 (fun _ => 0) 0xA000 0x7FFE n km /\ if b : bool then n = 4 else n < 4 /\ ~ readable user0 top0 (0x7FFE + n)).
Proof.
  destruct user_pt_ok as (tags & H1 & _). exists tags. split; [exact H1|]. split; [vm_compute; reflexivity|]. split; [vm_compute; reflexivity|]. apply (CopyFromUser_correct conf0 user0 top0 tags (fun _ => 0) 0xA000 0x7FFE 4 H1); try lia; discriminate.
Defined.

(** C23: [CopyToUser] on a range of user addresses whose own pages are mapped
    once returns.  Physical memory changes only in pages taken fresh from the page
    allocator and in pages of the range that the process may write by itself, so
    no other holder of a shared page sees a change, also when the copy fails.
    When it succeeds the process sees the data in the range, may read it, and
    sees no other change; and it does succeed when every byte of the range is in
    a user page that is writable or shared for copy-on-write, or in a region
    without a page, and the page allocator has the pages. *)
Theorem CopyToUser_correct conf T top s0 kmem k u len : IsPM5LVL conf = false -> top <> 0 -> k <> 0 -> 0 <= u -> 0 <= len -> u + len <= 2 ^ 47 ->
  vma_ok conf (vm_vma s0) T -> user_ok top s0 -> once s0 top u (u + len) -> plenty (store_budget u len 0) (vm_pt s0) ->
  wp (CopyToUser conf s0 top u kmem k len) (fun '(b, s) => isolated top s0 u len s /\ (b = true -> user_ok top s /\ stored top s0 kmem k u len s) /\ (funded top u len 0 s0 -> b = true)).
Proof. intros Hc Ht Hk Hu Hlen Hend. now apply (CopyToUser_ok conf Hc T top s0 kmem k u len). Qed.

Lemma CopyToUser_correct_witness : exists T, vma_ok conf0 (vm_vma user0) T /\ funded top0 0x7FFC 8 0 user0 /\
  (let* (b, s) := CopyToUser conf0 user0 top0 0x7FFC (fun a => a mod 256) 0xA0 8 in Ok (b, vm_phys s <$> [0x40000FFB; 0x40000FFC; 0x40000FFF; 0x40001000; 0x50000000; 0x50000003; 0x50000004], vm_freed s)) =
    Ok (true, [0x40000FFB mod 251; 0xA0; 0xA3; 0x40001000 mod 251; 0xA4; 0xA7; 0x40001004 mod 251], []) /\
  wp (CopyToUser conf0 user0 top0 0x7FFC (fun a => a mod 256) 0xA0 8) (fun '(b, s) => isolated top0 user0 0x7FFC 8 s /\
    (b = true -> user_ok top0 s /\ stored top0 user0 (fun a => a mod 256) 0xA0 0x7FFC 8 s) /\ (funded top0 0x7FFC 8 0 user0 -> b = true)).
Proof.
  destruct sample_ok as (T & H1 & _). exists T. split; [exact H1|]. split; [split; [exact user0_supplied|exact user0_ready]|]. split; [vm_compute; reflexivity|].
  apply (CopyToUser_correct conf0 T top0 user0 (fun a => a mod 256) 0xA0 0x7FFC 8); try reflexivity; try lia; try discriminate; [exact H1|exact user0_ok|exact user0_once|]. destruct user_pt_ok as (_ & _ & H & _). now apply (plenty_le 2094); [|vm_compute; lia].
Defined.

(** * Page faults *)

(** C24: [HandlePF] on a fault that did not come three times in a row returns.
    An access without a page, a fetch, a user's access to a kernel page, a read
    and a write to a read-only page are refused and change nothing; a write to a
    page that is writable already needs nothing; a write to a page shared for
    copy-on-write, of any size, gives the process a writable page of its own, from
    fresh memory, with the contents of the old one: the process sees the same
    bytes everywhere and no memory that anybody could reach before was written.
    Only without memory does it fail. *)
Theorem HandlePF_correct top s last last' cr2 rip ec i n : top <> 0 -> user_ok top s -> plenty (1026 + n) (vm_pt s) -> 0 <= cr2 < 2 ^ 63 -> repeated last cr2 rip = (false, last') -> GetPageInfo (vm_pt s) top cr2 = Ok i ->
  wp (HandlePF s true top last cr2 rip ec) (fun '(r, l, s') => l = last' /\ handled top s cr2 i ec r s').
Proof. intros Ht Hu Hpl Hc Hr Hi. now apply (HandlePF_ok top s last last' cr2 rip ec i n). Qed.

Lemma HandlePF_correct_witness : kind_of (mapping 1 0x40001000 shared_flags) 7 = Shared /\
  (let* (r, _, s) := HandlePF user0 true top0 no_fault 0x8123 0x401000 7 in let* i := GetPageInfo (vm_pt s) top0 0x8123 in Ok (r, i, vm_phys s 0x50000123)) = Ok (0, Info 0x50000000 PAGE_SIZE 7, 0x40001123 mod 251) /\
  wp (HandlePF user0 true top0 no_fault 0x8123 0x401000 7) (fun '(r, l, s') => l = PfLast 0x8123 0x401000 1 /\ handled top0 user0 0x8123 (mapping 1 0x40001000 shared_flags) 7 r s').
Proof.
  split; [reflexivity|]. split; [vm_compute; reflexivity|]. destruct user_pt_ok as (_ & _ & H & Hw). apply (HandlePF_correct top0 user0 no_fault (PfLast 0x8123 0x401000 1) 0x8123 0x401000 7 (mapping 1 0x40001000 shared_flags) 0 ltac:(discriminate) user0_ok); [|lia|reflexivity|].
  - apply (plenty_le 2094); [exact H|lia].
  - cbn [user0 vm_pt]. rewrite Hw, decide_True by reflexivity. reflexivity.
Defined.

(** * Allocation *)

(** C25: [Alloc] of fewer than 2^19 pages (2 GiB) for a process with four levels
    of tables that map nothing outside of its regions returns, provided the page
    allocator has a page for every page table the call may need, three for each
    page asked for.  Either it returns a page-aligned address above the lower
    bound, the range has become one more region apart from the others, and every
    address of it has a page of its own, fresh from the page allocator, that the
    user may read and write, while the process sees no change elsewhere; or it
    returns 0 with the regions and all translations as before, and then there was
    no room, no memory for the region, or fewer pages for the range than asked
    for.  The condition on page tables is needed: [NewLevel] does not test the
    result of its request, see [Alloc_without_tables]; larger requests may use
    blocks of 2 GiB, which [FreeOwnedRegion] gives back by another path. *)
Theorem Alloc_correct conf top T s pc n : process conf top T s -> 1 <= pc < 524288 -> plenty (Z.to_nat (3 * pc) + n) (vm_pt s) ->
  wp (Alloc conf s top pc true) (fun '(a, s') => (a = 0 /\ as_before conf top T s s' /\ short conf T s pc) \/ (a <> 0 /\ allocated_pages conf top T s pc a s')).
Proof. intros Hp Hpc Hpl. now apply (Alloc_ok conf top T s pc Hp Hpc n). Qed.

Definition user1 : vm := set_maps user0 (Maps ∅ 0 0 [0xFFFF800000030000]).

Lemma user1_process : exists T, process conf0 top0 T user1.
Proof.
  destruct sample_ok as (T & Hok & H1 & H2). assert (Hlow : low sample = 0x500000) by (vm_compute; reflexivity). exists T. split.
  - destruct user0_ok as [U1 U2 U3 U4]. split; auto. destruct U3. split; assumption.
  - exact Hok.
  - cbn [user1 set_maps user0 vm_vma]. rewrite Hlow. split; [lia|reflexivity].
  - cbn [user1 set_maps user0 vm_vma]. unfold high. rewrite Hlow. reflexivity.
  - intros w _ Hw. cbn [user1 set_maps user0 vm_vma vm_pt] in *. rewrite Hlow in Hw. destruct user_pt_ok as (_ & _ & _ & Hg). rewrite Hg.
    rewrite !decide_False; [reflexivity|..]; rewrite !vkey_mod by lia; change (sh 1) with 12; [change ((0x7000 mod 2 ^ 48) / 2 ^ 12) with 7|change ((0x8000 mod 2 ^ 48) / 2 ^ 12) with 8]; intros E; assert (0x500 <= (w mod 2 ^ 48) / 2 ^ 12) by (apply Z.div_le_lower_bound; lia); lia.
  - split; cbn [user1 set_maps vm_maps g_map_free_list vm_mappings map_nodes]; [easy..|]. intros; apply lookup_empty.
Qed.

Lemma Alloc_correct_witness : exists T, process conf0 top0 T user1 /\
  (let* (a, s) := Alloc conf0 user1 top0 3 true in let* i := GetPageInfo (vm_pt s) top0 a in Ok (a, i)) = Ok (34224411246592, Info 0x50000000 PAGE_SIZE 7) /\
  wp (Alloc conf0 user1 top0 3 true) (fun '(a, s') => (a = 0 /\ as_before conf0 top0 T user1 s' /\ short conf0 T user1 3) \/ (a <> 0 /\ allocated_pages conf0 top0 T user1 3 a s')).
Proof.
  destruct user1_process as (T & Hp). exists T. split; [exact Hp|]. split; [vm_compute; reflexivity|]. apply (Alloc_correct conf0 top0 T user1 3 0 Hp ltac:(lia)). destruct user_pt_ok as (_ & _ & H & _). apply (plenty_le 2094); [exact H|lia].
Defined.

(** * Departures *)

(** [user1] when the page allocator has pages for the range and none for tables. *)
Definition user2 : vm := set_pt user1 (Pt (tables (vm_pt user1)) []).

(** The call succeeds, physical page 0 has been cleared and linked as a table, and
    the address that is returned has no page. *)
Lemma Alloc_without_tables : (let* (a, s) := Alloc conf0 user2 top0 1 true in let* i := GetPageInfo (vm_pt s) top0 a in Ok (negb (a =? 0), bool_decide (is_Some (tables (vm_pt s) !! 0)), i)) = Ok (true, true, no_page).
Proof. vm_compute. reflexivity. Qed.

(** Two mappings of a page map; the first one, which is the head of the ring, is
    dropped, and then the second. *)
Definition drop_two : res map_state :=
  let* (_, m) := NewMapping (Maps ∅ 0 0 [0xFFFF800000010000]) 0x400000 1 7 in
  let* (_, m) := NewMapping m 0x600000 1 7 in
  let* m := drop_mapping m 0x400000 in
  drop_mapping m 0x600000.

(** The head stays the freed node: the search runs along the list of free nodes
    to its end and on from there. *)
Lemma drop_head_then_fault : drop_two = Fault.
Proof. vm_compute. reflexivity. Qed.

(** The third page of a region of four. *)
Lemma munmap_inside_keeps_region :
  (let* (r, s) := sys_munmap conf0 user0 top0 0x506000 4096 in let* x := FindRegion (vm_vma s) 0x506000 in Ok (r, negb (x =? 0), vm_freed s)) = Ok (0, true, []).
Proof. vm_compute. reflexivity. Qed.

(** A request that is too large leaves a region at address 0. *)
Lemma EAlloc_failure_leaves_region :
  (let* x := FindRegion (vm_vma user0) 0 in let* (a, s) := EAlloc conf0 user0 top0 (2 ^ 40) 7 in let* y := FindRegion (vm_vma s) 0 in Ok (x, a, negb (y =? 0))) = Ok (0, 0, true).
Proof. vm_compute. reflexivity. Qed.

(** The tables below the upper half of a table are not given back: one page at
    256 GiB uses three tables. *)
Lemma page_tables_leak : (let* s := Map4K (empty_pt 4) top0 (2 ^ 38) 0x40000000 7 in let* l := FreePageTablesInternal s top0 4 in Ok (pt_pages s, l)) = Ok ([0x103000], [0x100000]).
Proof. vm_compute. reflexivity. Qed.

(** A 1 GiB page shared for copy-on-write, and no page of 2 MiB. *)
Definition huge0 : vm := Vm (after (Map1G (empty_pt 600) top0 PAGE_1GB (4 * PAGE_1GB) shared_flags)) sample rc_user (Maps ∅ 0 0 []) (fun _ => 0) [] [] [] [].

Lemma copy_without_memory_loses_page :
  (let* i := GetPageInfo (vm_pt huge0) top0 PAGE_1GB in let* (b, s) := CopyToUser conf0 huge0 top0 PAGE_1GB (fun _ => 0) 0xA0 1 in let* j := GetPageInfo (vm_pt s) top0 PAGE_1GB in Ok (i_size i, b, i_size j)) = Ok (PAGE_1GB, false, 0).
Proof. vm_compute. reflexivity. Qed.

Lemma fault_without_memory_loses_part :
  (let* (r, _, s) := HandlePF huge0 true top0 no_fault PAGE_1GB 0x401000 7 in let* j := GetPageInfo (vm_pt s) top0 PAGE_1GB in Ok (r, i_size j)) = Ok (1, 0).
Proof. vm_compute. reflexivity. Qed.

(** A read-only page, and a second page map. *)
Definition child0 : Z := 0x2000.
Definition text0 : vm :=
  let pt := after (Map4K (empty_pt 20) top0 0x6000 0x40000000 5) in
  Vm (Pt (<[child0 := replicate 512 0]> (tables pt)) (pt_pages pt)) sample (RefcountTreeInit ∅ ∅ [0x9000]) (Maps ∅ 0 0 []) (fun _ => 0) [0x50000000] [] [] [].

(** Before the fork a write is refused, after it the page has become writable. *)
Lemma fork_makes_read_only_writable :
  (let* (r, _, _) := HandlePF text0 true top0 no_fault 0x6000 0x401000 7 in
   let* (ok, s) := fork_region text0 child0 top0 0x6000 1 in
   let* (r', _, s) := HandlePF s true top0 no_fault 0x6000 0x401000 7 in
   let* i := GetPageInfo (vm_pt s) top0 0x6000 in
   Ok (r, ok, r', has (i_flags i) MM_WRITE)) = Ok (1, true, 0, true).
Proof. vm_compute. reflexivity. Qed.

(** A region whose first page is not there yet. *)
Lemma fork_stops_at_hole :
  (let* (ok, s) := fork_region text0 child0 top0 0x5000 2 in let* i := GetPageInfo (vm_pt s) top0 0x6000 in let* j := GetPageInfo (vm_pt s) child0 0x6000 in Ok (ok, i_size i, i_size j)) = Ok (true, PAGE_SIZE, 0).
Proof. vm_compute. reflexivity. Qed.

(** The page of the head holds other nodes of the pool. *)
Lemma exit_frees_pool_page :
  (let* s := CleanPM conf0 user0 top0 in Ok (vm_freed s, g_node_free_list (vm_vma s) - hhdm_offset conf0)) = Ok ([0x10000], 0x10000 + 2 * 104).
Proof. vm_compute. reflexivity. Qed.
