(* ===== verification/HeapMem.v ===== *)
(** Memory below the kernel heaps ([src/kernel/src/mem/slab.cpp], [slub.cpp],
    [heap.cpp]): pointers stored in the first eight bytes of free objects, the
    chains they form, and the pages that [VMM::Alloc] and [VMM::Free] supply, as
    an interface.

    The bytes of the heap are a finite map from addresses; an address outside of
    the pages that are allocated is unmapped and touching it is a fault. *)
From stdpp Require Import base gmap list fin_maps.
From Stdlib Require Import ZArith Lia.
From S2P Require Import Prelude Words Memory PMM.

Open Scope Z_scope.
Open Scope c_scope.

(** * Pointers in memory *)

Lemma bytes_le_bytes w z : bytes (bytes_le w z).
Proof.
  revert z. induction w as [|w IH]; intros z; simpl; [constructor|]. constructor; [|apply IH].
  unfold byte. pose proof (Z.mod_pos_bound z 256). lia.
Qed.

Lemma le_word_bytes w z : 0 <= z < 256 ^ Z.of_nat w -> le (bytes_le w z) = z.
Proof.
  revert z. induction w as [|w IH]; intros z Hz; [simpl in *; lia|]. cbn [bytes_le le].
  rewrite IH; [pose proof (Z.div_mod z 256); lia|]. rewrite Nat2Z.inj_succ, Z.pow_succ_r in Hz by lia. dlia.
Qed.

Lemma st64_ok m a v : mapped m a 8 -> store64 m a v = Ok (write m a (bytes_le 8 v)).
Proof. intros H. apply store_bytes_ok; [apply bytes_le_bytes|]. now rewrite bytes_le_length. Qed.

Lemma ld_same m a v : 0 <= v < 2 ^ 64 -> load64 (write m a (bytes_le 8 v)) a = Ok v.
Proof.
  intros Hv. unfold load64. rewrite (load_prefix _ a (bytes_le 8 v)); [|apply write_holds|reflexivity].
  cbn [bind]. f_equal. rewrite take_ge by reflexivity. apply le_word_bytes. exact Hv.
Qed.

(** What a run of bytes holds depends on those bytes. *)
Lemma load_bytes_agree m m' a n : (forall x, a <= x < a + Z.of_nat n -> m' !! x = m !! x) -> load_bytes m' a n = load_bytes m a n.
Proof.
  revert a. induction n as [|n IH]; intros a H; [reflexivity|]. cbn [load_bytes]. unfold load8. rewrite (H a) by lia.
  destruct (m !! a); [|reflexivity]. cbn [bind]. rewrite IH by (intros; apply H; lia). reflexivity.
Qed.

Definition agree (m m' : mem) (a n : Z) : Prop := forall x, a <= x < a + n -> m' !! x = m !! x.

Lemma ld_agree m m' a : agree m m' a 8 -> load64 m' a = load64 m a.
Proof. intros H. unfold load64. now rewrite (load_bytes_agree m m' a 8). Qed.

Lemma agree_write m a l b n : a + Z.of_nat (length l) <= b \/ b + n <= a -> agree m (write m a l) b n.
Proof. intros H x Hx. rewrite write_lookup, decide_False by lia. reflexivity. Qed.

Lemma agree_sub m m' a n b k : agree m m' a n -> a <= b -> b + k <= a + n -> agree m m' b k.
Proof. intros H H1 H2 x Hx. apply H. lia. Qed.

Lemma agree_trans m1 m2 m3 a n : agree m1 m2 a n -> agree m2 m3 a n -> agree m1 m3 a n.
Proof. intros H1 H2 x Hx. rewrite (H2 x Hx). auto. Qed.

Lemma agree_refl m a n : agree m m a n.
Proof. intros x _. reflexivity. Qed.

Lemma mapped_agree m m' a n : agree m m' a (Z.of_nat n) -> mapped m a n -> mapped m' a n.
Proof. intros H Hm x Hx. rewrite (H x Hx). auto. Qed.

(** * Chains of free objects *)

(** [chain dec m h l]: from the head [h] the links lead through the objects [l]
    to NULL.  The word in an object [x] stands for the pointer [dec x w]. *)
Fixpoint chain (dec : Z -> Z -> Z) (m : mem) (h : Z) (l : list Z) : Prop :=
  match l with
  | [] => h = 0
  | x :: l => h = x /\ x <> 0 /\ exists w, load64 m x = Ok w /\ chain dec m (dec x w) l
  end.

(** A plain link. *)
Definition raw (x w : Z) : Z := w.

Lemma chain_agree dec m m' h l : (forall x, x ∈ l -> agree m m' x 8) -> chain dec m h l -> chain dec m' h l.
Proof.
  revert h. induction l as [|x l IH]; intros h Ha Hc; [exact Hc|]. destruct Hc as (E & Hx & w & Hw & Hc).
  split; [exact E|]. split; [exact Hx|]. exists w. rewrite (ld_agree m m' x) by (apply Ha; left). split; [exact Hw|].
  apply IH; [|exact Hc]. intros y Hy. apply Ha. now right.
Qed.

Lemma chain_nil dec m l : chain dec m 0 l -> l = [].
Proof. destruct l; [reflexivity|]. intros (E & Hx & _). congruence. Qed.

Lemma chain_cons dec m h l : chain dec m h l -> h <> 0 -> exists l' w, l = h :: l' /\ load64 m h = Ok w /\ chain dec m (dec h w) l'.
Proof. destruct l as [|x l]; [intros E; cbn in E; contradiction|]. intros (-> & Hx & w & Hw & Hc) _. eauto. Qed.

Lemma chain_unique dec m h l l' : chain dec m h l -> chain dec m h l' -> l = l'.
Proof.
  revert h l'. induction l as [|x l IH]; intros h [|y l'] H1 H2; [reflexivity|..].
  - cbn in H1. destruct H2 as (E & Hy & _). congruence.
  - cbn in H2. destruct H1 as (E & Hy & _). congruence.
  - destruct H1 as (-> & Hx & w & Hw & H1), H2 as (-> & _ & w' & Hw' & H2). f_equal. apply (IH (dec y w)); [exact H1|]. congruence.
Qed.

(** Pushing an object in front. *)
Lemma chain_push m h l x : chain raw m h l -> 0 <= h < 2 ^ 64 -> x <> 0 -> (forall y, y ∈ l -> y + 8 <= x \/ x + 8 <= y) ->
  chain raw (write m x (bytes_le 8 h)) x (x :: l).
Proof.
  intros Hc Hh Hx Hd. split; [reflexivity|]. split; [exact Hx|]. exists h. rewrite ld_same by exact Hh. split; [reflexivity|].
  apply (chain_agree _ m); [|exact Hc]. intros y Hy. apply agree_write. rewrite bytes_le_length. destruct (Hd y Hy); lia.
Qed.

(** * Ranges of bytes *)

Definition fill_range (f : Z -> Z) (m : mem) (a n : Z) : mem := write m a (f <$> seqZ a n).
Definition unmap_bytes (m : mem) (a n : Z) : mem := foldr delete m (seqZ a n).

Lemma fill_lookup f m a n x : fill_range f m a n !! x = if decide (a <= x < a + n) then Some (f x) else m !! x.
Proof.
  unfold fill_range. rewrite write_lookup, length_fmap, length_seqZ. destruct (decide (a <= x < a + n)) as [H|H].
  - rewrite decide_True by lia. rewrite list_lookup_fmap, lookup_seqZ_lt by lia. cbn. do 2 f_equal. lia.
  - rewrite decide_False by lia. reflexivity.
Qed.

Lemma unmap_lookup m a n x : unmap_bytes m a n !! x = if decide (a <= x < a + n) then None else m !! x.
Proof.
  unfold unmap_bytes. assert (H : forall l, foldr delete m l !! x = if decide (x ∈ l) then None else m !! x).
  { induction l as [|y l IH]; [reflexivity|]. cbn [foldr]. destruct (decide (y = x)) as [->|Hne].
    - rewrite lookup_delete_eq, decide_True by left. reflexivity.
    - rewrite lookup_delete_ne, IH by exact Hne. destruct (decide (x ∈ l)) as [Hi|Hi].
      + rewrite decide_True by now right. reflexivity.
      + rewrite decide_False; [reflexivity|]. intros [E|E]%elem_of_cons; [congruence|contradiction]. }
  rewrite H. destruct (decide (x ∈ seqZ a n)) as [Hx|Hx]; rewrite elem_of_seqZ in Hx; [now rewrite decide_True by lia|now rewrite decide_False by lia].
Qed.

Lemma agree_fill f m a n b k : a + n <= b \/ b + k <= a -> agree m (fill_range f m a n) b k.
Proof. intros H x Hx. rewrite fill_lookup, decide_False by lia. reflexivity. Qed.

Lemma agree_unmap m a n b k : a + n <= b \/ b + k <= a -> agree m (unmap_bytes m a n) b k.
Proof. intros H x Hx. rewrite unmap_lookup, decide_False by lia. reflexivity. Qed.

(** * The supply of pages *)

(** A range of whole pages in the address space. *)
Definition range_ok (a n : Z) : Prop := 0 < a /\ a mod 4096 = 0 /\ 1 <= n /\ a + n * 4096 <= 2 ^ 64.

(** Ranges that share no byte. *)
Definition disjoint_ranges (a n b k : Z) : Prop := a + n * 4096 <= b \/ b + k * 4096 <= a.

(** [VMM::Alloc(kernel_pagemap, n, false)] and [VMM::Free(kernel_pagemap, p)] as
    the heaps use them.  [ps_fill] is what the bytes of a page hold when it
    arrives; [ps_free] also tells how many pages were unmapped. *)
Class PageSource (PS : Type) : Type := {
  ps_alloc : PS -> Z -> res (Z * PS);
  ps_free : PS -> Z -> res (Z * PS);
  ps_fill : PS -> Z -> Z;
}.

(** The promise: [ps_inv s H] says that the ranges [H] (start and number of
    pages) are held by the caller.  Ranges do not overlap; an allocation returns
    a new one or 0; a range that is given back is gone.

    The theorems on the heaps are conditional on this promise.  [VMM::Alloc] and
    [VMM::Free] of the kernel keep it only as long as the mapping at the head of
    the kernel's list of mappings is not freed: after that the head is a freed
    node, and the next [VMM::Free] runs off the list (vmm.cpp:865, 1043; the
    lemma [drop_head_then_fault] of VmmClaims).  At boot that mapping is the
    heap's first range, so a roll-back of [InitKmalloc] or a reclaimed first slab
    leaves the promise.  [VMM::Alloc] also relies on pages for page tables, see
    [Alloc_without_tables] there. *)
Class PageSourceOk (PS : Type) `{!PageSource PS} : Type := {
  ps_inv : PS -> gmap Z Z -> Prop;
  ps_range s H a n : ps_inv s H -> H !! a = Some n -> range_ok a n;
  ps_apart s H a n b k : ps_inv s H -> H !! a = Some n -> H !! b = Some k -> a <> b -> disjoint_ranges a n b k;
  ps_alloc_ok s H n : ps_inv s H -> 1 <= n < 2 ^ 52 ->
    wp (ps_alloc s n) (fun '(a, s') => (a = 0 /\ ps_inv s' H) \/ (a <> 0 /\ H !! a = None /\ ps_inv s' (<[a := n]> H)));
  ps_free_ok s H a n : ps_inv s H -> H !! a = Some n ->
    wp (ps_free s a) (fun '(k, s') => k = n /\ ps_inv s' (delete a H));
  ps_fill_byte s a : byte (ps_fill s a);
}.

(** Memory and the state of its supply. *)
Record arena (PS : Type) : Type := Arena { a_mem : mem; a_vm : PS }.
Arguments Arena {PS} a_mem a_vm.
Arguments a_mem {PS} a.
Arguments a_vm {PS} a.

Section Arena.
Context {PS : Type} `{PSI : !PageSource PS}.

(** [VMM::Alloc] of no pages is NULL. *)
Definition page_alloc (A : arena PS) (n : Z) : res (Z * arena PS) :=
  if n =? 0 then Ok (0, A) else
  let* (p, vm) := ps_alloc (a_vm A) n in
  if p =? 0 then Ok (0, Arena (a_mem A) vm)
  else Ok (p, Arena (fill_range (ps_fill vm) (a_mem A) p (n * PAGE_SIZE)) vm).

Definition page_free (A : arena PS) (p : Z) : res (arena PS) :=
  let* (n, vm) := ps_free (a_vm A) p in
  Ok (Arena (unmap_bytes (a_mem A) p (n * PAGE_SIZE)) vm).

Definition with_mem (A : arena PS) (m : mem) : arena PS := Arena m (a_vm A).

(** Reading and writing a link. *)
Definition ld_link (A : arena PS) (x : Z) : res Z := load64 (a_mem A) x.
Definition st_link (A : arena PS) (x v : Z) : res (arena PS) := let* m := store64 (a_mem A) x v in Ok (with_mem A m).

Context `{PSL : !PageSourceOk PS}.

(** The ranges [H] are held and mapped. *)
Record arena_ok (A : arena PS) (H : gmap Z Z) : Prop := {
  ar_src : ps_inv (a_vm A) H;
  ar_wf : mem_wf (a_mem A);
  ar_mapped a n : H !! a = Some n -> mapped (a_mem A) a (Z.to_nat (n * 4096))
}.

Lemma page_alloc_ok A H n : arena_ok A H -> 1 <= n < 2 ^ 52 ->
  wp (page_alloc A n) (fun '(p, A') =>
    (p = 0 /\ arena_ok A' H /\ a_mem A' = a_mem A) \/
    (p <> 0 /\ H !! p = None /\ range_ok p n /\ arena_ok A' (<[p := n]> H) /\
     (forall b k, H !! b = Some k -> disjoint_ranges p n b k) /\
     forall b k, p + n * 4096 <= b \/ b + k <= p -> agree (a_mem A) (a_mem A') b k)).
Proof.
  intros [Hs Hw Hm] Hn. unfold page_alloc. rewrite (proj2 (Z.eqb_neq n 0)) by lia. apply wp_bind. eapply wp_mono; [apply (ps_alloc_ok _ _ _ Hs Hn)|].
  intros [p vm] [(-> & Hi)|(Hp & HH & Hi)]; [left; cbn; split; [reflexivity|split; [now split|reflexivity]]|]. rewrite (proj2 (Z.eqb_neq _ _) Hp). cbn [wp]. right.
  assert (Hr : range_ok p n) by (apply (ps_range _ _ _ _ Hi); apply lookup_insert_eq).
  split; [exact Hp|]. split; [exact HH|]. split; [exact Hr|]. unfold PAGE_SIZE. destruct Hr as (H1 & H2 & H3 & H4).
  assert (Hap : forall b k, H !! b = Some k -> disjoint_ranges p n b k).
  { intros b k Hb. assert (p <> b) by congruence. apply (ps_apart _ _ p n b k Hi); [apply lookup_insert_eq|now rewrite lookup_insert_ne|assumption]. }
  split; [|split; [exact Hap|intros b k Hd; cbn; apply agree_fill; lia]]. split; cbn.
  - exact Hi.
  - intros x b Hb. rewrite fill_lookup in Hb. case_decide; [injection Hb as <-; apply ps_fill_byte|exact (Hw x b Hb)].
  - intros a k Ha x Hx. rewrite fill_lookup. case_decide; [eauto|]. destruct (decide (p = a)) as [<-|Hne].
    + rewrite lookup_insert_eq in Ha. injection Ha as <-. lia.
    + rewrite lookup_insert_ne in Ha by exact Hne. exact (Hm a k Ha x Hx).
Qed.

Lemma page_free_ok A H p n : arena_ok A H -> H !! p = Some n ->
  wp (page_free A p) (fun A' => arena_ok A' (delete p H) /\ forall b k, p + n * 4096 <= b \/ b + k <= p -> agree (a_mem A) (a_mem A') b k).
Proof.
  intros [Hs Hw Hm] Hp. unfold page_free. apply wp_bind. eapply wp_mono; [apply (ps_free_ok _ _ _ _ Hs Hp)|].
  intros [k vm] [-> Hi]. cbn [wp]. unfold PAGE_SIZE. split; [|intros b j Hd; cbn; apply agree_unmap; exact Hd]. split; cbn.
  - exact Hi.
  - intros x b Hb. rewrite unmap_lookup in Hb. case_decide; [easy|exact (Hw x b Hb)].
  - intros a k Ha x Hx. apply lookup_delete_Some in Ha as [Hne Ha]. rewrite unmap_lookup, decide_False; [exact (Hm a k Ha x Hx)|].
    destruct (ps_apart _ _ p n a k Hs Hp Ha Hne); lia.
Qed.

(** A write inside of a range that is held. *)
Lemma arena_write A H a l : arena_ok A H -> bytes l -> arena_ok (with_mem A (write (a_mem A) a l)) H.
Proof.
  intros [Hs Hw Hm] Hl. split; cbn; [exact Hs|now apply mem_wf_write|]. intros b n Hb. apply mapped_write. auto.
Qed.

(** [x] and the seven bytes behind it lie in the range at [p]. *)
Definition inside (H : gmap Z Z) (x : Z) : Prop := exists p n, H !! p = Some n /\ p <= x /\ x + 8 <= p + n * 4096.

Lemma st_link_ok A H x v : arena_ok A H -> inside H x -> st_link A x v = Ok (with_mem A (write (a_mem A) x (bytes_le 8 v))).
Proof.
  intros HA (p & n & Hp & H1 & H2). unfold st_link. rewrite st64_ok; [reflexivity|].
  eapply mapped_le; [exact (ar_mapped _ _ HA p n Hp)|lia|]. pose proof (ps_range _ _ _ _ (ar_src _ _ HA) Hp) as (? & _ & ? & _). lia.
Qed.

Lemma ld_link_some A H x : arena_ok A H -> inside H x -> exists v, ld_link A x = Ok v /\ 0 <= v < 2 ^ 64.
Proof.
  intros HA (p & n & Hp & H1 & H2). pose proof (ps_range _ _ _ _ (ar_src _ _ HA) Hp) as (? & _ & ? & _).
  destruct (load_bytes_ok (a_mem A) x 8) as (l & El & Hl & Hb & _); [apply (ar_wf _ _ HA)|intros y Hy; apply (ar_mapped _ _ HA p n Hp); lia|].
  exists (le l). unfold ld_link, load64. rewrite El. split; [reflexivity|]. pose proof (le_bound l Hb) as Hv. rewrite Hl in Hv. exact Hv.
Qed.
End Arena.
