(* ===== verification/Slub.v ===== *)
(** The object caches of the kernel, [src/kernel/src/mem/slub.cpp]: slabs of one
    page with free lists threaded through the objects, a slab for each CPU, and a
    list of partly used slabs for each cache.

    The header of a slab and the descriptor of a cache are records in stores of
    their own; the links are in the bytes of the objects.  An operation runs as
    one step: interrupts are masked, the slab of a CPU is used by that CPU only,
    and the rest happens under the lock of the cache, so that a compare-exchange
    succeeds at its first attempt. *)
From stdpp Require Import base gmap list fin_maps.
From Stdlib Require Import ZArith Lia.
From S2P Require Import Prelude Words Memory PMM HeapMem.

Open Scope Z_scope.
Open Scope c_scope.

(** * Data *)

(** [SLAB_ALIGN_UP(x, a)], in 64 bits. *)
Definition SLAB_ALIGN_UP (x a : Z) : Z := Z.land (u64 (x + (a - 1))) (not64 (u64 (a - 1))).

Definition SLUB_PAGE_MAGIC : Z := 0x534C5542.
Definition MAX_CPUS : Z := 128.

Record slub_slab_t : Type := SlubSlab {
  su_magic : Z;
  su_cache : Z;
  su_partial_next : Z;
  su_freelist : Z;
  su_foreign : Z;
  su_inuse : Z;
  su_objects : Z;
  su_owner : Z;              (* -1 when no CPU owns the slab *)
  su_on_partial : bool
}.
Definition sizeof_slub_slab : Z := 56.

Record kmem_cache : Type := KmemCache {
  kc_name : Z;
  kc_obj_size : Z;
  kc_area_off : Z;
  kc_objs : Z;
  kc_partial : Z;
  kc_nr_partial : Z;
  kc_active : list Z;        (* cpu_active[MAX_CPU] *)
  kc_allocs : Z;
  kc_frees : Z;
  kc_refills : Z
}.
Definition sizeof_kmem_cache : Z := 1088.

Definition su_with_magic (v : Z) (s : slub_slab_t) := SlubSlab v (su_cache s) (su_partial_next s) (su_freelist s) (su_foreign s) (su_inuse s) (su_objects s) (su_owner s) (su_on_partial s).
Definition su_with_next (v : Z) (s : slub_slab_t) := SlubSlab (su_magic s) (su_cache s) v (su_freelist s) (su_foreign s) (su_inuse s) (su_objects s) (su_owner s) (su_on_partial s).
Definition su_with_freelist (v : Z) (s : slub_slab_t) := SlubSlab (su_magic s) (su_cache s) (su_partial_next s) v (su_foreign s) (su_inuse s) (su_objects s) (su_owner s) (su_on_partial s).
Definition su_with_foreign (v : Z) (s : slub_slab_t) := SlubSlab (su_magic s) (su_cache s) (su_partial_next s) (su_freelist s) v (su_inuse s) (su_objects s) (su_owner s) (su_on_partial s).
Definition su_with_inuse (v : Z) (s : slub_slab_t) := SlubSlab (su_magic s) (su_cache s) (su_partial_next s) (su_freelist s) (su_foreign s) v (su_objects s) (su_owner s) (su_on_partial s).
Definition su_with_owner (v : Z) (s : slub_slab_t) := SlubSlab (su_magic s) (su_cache s) (su_partial_next s) (su_freelist s) (su_foreign s) (su_inuse s) (su_objects s) v (su_on_partial s).
Definition su_with_listed (v : bool) (s : slub_slab_t) := SlubSlab (su_magic s) (su_cache s) (su_partial_next s) (su_freelist s) (su_foreign s) (su_inuse s) (su_objects s) (su_owner s) v.

Definition kc_with_partial (v : Z) (c : kmem_cache) := KmemCache (kc_name c) (kc_obj_size c) (kc_area_off c) (kc_objs c) v (kc_nr_partial c) (kc_active c) (kc_allocs c) (kc_frees c) (kc_refills c).
Definition kc_with_nr (v : Z) (c : kmem_cache) := KmemCache (kc_name c) (kc_obj_size c) (kc_area_off c) (kc_objs c) (kc_partial c) v (kc_active c) (kc_allocs c) (kc_frees c) (kc_refills c).
Definition kc_with_active (v : list Z) (c : kmem_cache) := KmemCache (kc_name c) (kc_obj_size c) (kc_area_off c) (kc_objs c) (kc_partial c) (kc_nr_partial c) v (kc_allocs c) (kc_frees c) (kc_refills c).
Definition kc_with_allocs (v : Z) (c : kmem_cache) := KmemCache (kc_name c) (kc_obj_size c) (kc_area_off c) (kc_objs c) (kc_partial c) (kc_nr_partial c) (kc_active c) v (kc_frees c) (kc_refills c).
Definition kc_with_frees (v : Z) (c : kmem_cache) := KmemCache (kc_name c) (kc_obj_size c) (kc_area_off c) (kc_objs c) (kc_partial c) (kc_nr_partial c) (kc_active c) (kc_allocs c) v (kc_refills c).
Definition kc_with_refills (v : Z) (c : kmem_cache) := KmemCache (kc_name c) (kc_obj_size c) (kc_area_off c) (kc_objs c) (kc_partial c) (kc_nr_partial c) (kc_active c) (kc_allocs c) (kc_frees c) v.

(** [slab_fatal] panics and then halts the CPU in a loop that never ends. *)
Definition slab_fatal {A} : res A := OutOfFuel.

Record slub (PS : Type) : Type := Slub { s_arena : arena PS; s_slabs : gmap Z slub_slab_t; s_caches : gmap Z kmem_cache }.
Arguments Slub {PS} s_arena s_slabs s_caches.
Arguments s_arena {PS} s.
Arguments s_slabs {PS} s.
Arguments s_caches {PS} s.

Section Slub.
Context {PS : Type} `{!PageSource PS}.

Definition slab_at (s : slub PS) (p : Z) : res slub_slab_t :=
  match s_slabs s !! p with Some x => Ok x | None => Fault end.
Definition upd_slab (f : slub_slab_t -> slub_slab_t) (p : Z) (s : slub PS) : res (slub PS) :=
  let* x := slab_at s p in Ok (Slub (s_arena s) (<[p := f x]> (s_slabs s)) (s_caches s)).
Definition cache_at (s : slub PS) (c : Z) : res kmem_cache :=
  match s_caches s !! c with Some x => Ok x | None => Fault end.
Definition upd_cache (f : kmem_cache -> kmem_cache) (c : Z) (s : slub PS) : res (slub PS) :=
  let* x := cache_at s c in Ok (Slub (s_arena s) (s_slabs s) (<[c := f x]> (s_caches s))).
Definition with_arena (s : slub PS) (A : arena PS) : slub PS := Slub A (s_slabs s) (s_caches s).

Definition slub_page_of (obj : Z) : Z := Z.land obj (not64 (PAGE_SIZE - 1)).

(** * The free list of a slab *)

Definition slub_stack_push (s : slub PS) (p obj : Z) : res (slub PS) :=
  let* sl := slab_at s p in
  let* A := st_link (s_arena s) obj (su_freelist sl) in
  upd_slab (su_with_freelist obj) p (with_arena s A).

Definition slub_stack_pop (s : slub PS) (p : Z) : res (Z * slub PS) :=
  let* sl := slab_at s p in
  let cur := su_freelist sl in
  if cur =? 0 then Ok (0, s)
  else
    let* next := ld_link (s_arena s) cur in
    let* s := upd_slab (su_with_freelist next) p s in
    Ok (cur, s).

(** * Slabs *)

(** The objects of a new slab, each linked to the one before. *)
Definition carve (c : kmem_cache) (A : arena PS) (base : Z) : res (arena PS * Z * Z) :=
  loop (Z.to_nat PAGE_SIZE) (fun '(A, off, head, n) =>
    if u32 (off + kc_obj_size c) <=? PAGE_SIZE then
      let obj := base + off in
      let* A := st_link A obj head in
      Ok (inl (A, u32 (off + kc_obj_size c), obj, u32 (n + 1)))
    else Ok (inr (A, head, n))) (A, kc_area_off c, 0, 0).

Definition slub_new_slab (s : slub PS) (c : Z) : res (Z * slub PS) :=
  let* kc := cache_at s c in
  let* (p, A) := page_alloc (s_arena s) 1 in
  if p =? 0 then Ok (0, with_arena s A)
  else
    let* (A, head, n) := carve kc A p in
    Ok (p, Slub A (<[p := SlubSlab SLUB_PAGE_MAGIC c 0 head 0 0 n (-1) false]> (s_slabs s)) (s_caches s)).

(** * Allocation *)

(** [this_cpu()]: NULL before the CPUs are set up, else the id of the CPU. *)
Definition cpu_slot (cpu : option Z) : option Z :=
  match cpu with
  | Some id => if id <? MAX_CPUS then Some id else None
  | None => None
  end.

Definition set_active (id v : Z) (c : Z) (s : slub PS) : res (slub PS) :=
  let* kc := cache_at s c in
  let* l := put (kc_active kc) id v in
  upd_cache (kc_with_active l) c s.

(** The slab that a CPU has used up goes back to no owner. *)
Definition detach_old (s : slub PS) (c : Z) (cpu : option Z) (old : Z) : res (slub PS) :=
  let* s :=
    match cpu_slot cpu with
    | Some id =>
        let* kc := cache_at s c in
        let* a := get (kc_active kc) id in
        if a =? old then set_active id 0 c s else Ok s
    | None => Ok s
    end in
  upd_slab (su_with_owner (-1)) old s.

(** The first slab of the partial list, or a new one. *)
Definition take_slab (s : slub PS) (c : Z) : res (Z * slub PS) :=
  let* kc := cache_at s c in
  let p := kc_partial kc in
  if p =? 0 then slub_new_slab s c
  else
    let* sl := slab_at s p in
    let* s := upd_cache (kc_with_partial (su_partial_next sl)) c s in
    let* s := upd_cache (fun k => kc_with_nr (u64 (kc_nr_partial k - 1)) k) c s in
    let* s := upd_slab (su_with_listed false) p s in
    let* s := upd_cache (fun k => kc_with_refills (u64 (kc_refills k + 1)) k) c s in
    Ok (p, s).

(** Puts a slab in front of the partial list. *)
Definition list_partial (s : slub PS) (c p : Z) : res (slub PS) :=
  let* kc := cache_at s c in
  let* s := upd_slab (fun x => su_with_listed true (su_with_next (kc_partial kc) x)) p s in
  let* s := upd_cache (kc_with_partial p) c s in
  upd_cache (fun k => kc_with_nr (u64 (kc_nr_partial k + 1)) k) c s.

(** A slab for the CPU, and one object of it. *)
Definition refill (s : slub PS) (c : Z) (cpu : option Z) : res (Z * slub PS) :=
  let* (p, s) := take_slab s c in
  if p =? 0 then Ok (0, s)
  else
    let* s :=
      match cpu_slot cpu with
      | Some id => let* s := set_active id p c s in upd_slab (su_with_owner id) p s
      | None => upd_slab (su_with_owner (-1)) p s
      end in
    let* (obj, s) := slub_stack_pop s p in
    let* s :=
      match cpu_slot cpu with
      | Some _ => Ok s
      | None =>
          let* sl := slab_at s p in
          if su_freelist sl =? 0 then Ok s else list_partial s c p
      end in
    Ok (obj, s).

Definition slow_alloc (s : slub PS) (c : Z) (cpu : option Z) (old : Z) : res (Z * slub PS) :=
  if old =? 0 then refill s c cpu
  else
    let* (revived, s) := slub_stack_pop s old in
    if negb (revived =? 0) then Ok (revived, s)
    else
      let* s := detach_old s c cpu old in
      refill s c cpu.

(** Objects freed by other CPUs join the free list of the slab. *)
Definition harvest (s : slub PS) (p : Z) : res (slub PS) :=
  let* sl := slab_at s p in
  let f := su_foreign sl in
  let* s := upd_slab (su_with_foreign 0) p s in
  if f =? 0 then Ok s
  else
    let* tail := loop (Z.to_nat PAGE_SIZE) (fun tail =>
      let* next := ld_link (s_arena s) tail in
      if next =? 0 then Ok (inr tail) else Ok (inl next)) f in
    let* A := st_link (s_arena s) tail (su_freelist sl) in
    upd_slab (su_with_freelist f) p (with_arena s A).

(** The slab the CPU is using, 0 for none. *)
Definition active_slab (s : slub PS) (c : Z) (cpu : option Z) : res Z :=
  match cpu_slot cpu with
  | Some id => let* kc := cache_at s c in get (kc_active kc) id
  | None => Ok 0
  end.

(** The object is counted in its slab and in the cache. *)
Definition count_alloc (s : slub PS) (c obj : Z) : res (slub PS) :=
  let* s := upd_slab (fun x => su_with_inuse (u32 (su_inuse x + 1)) x) (slub_page_of obj) s in
  upd_cache (fun k => kc_with_allocs (u64 (kc_allocs k + 1)) k) c s.

Definition slub_Alloc (s : slub PS) (c : Z) (cpu : option Z) : res (Z * slub PS) :=
  if c =? 0 then Ok (0, s)
  else
    let* p := active_slab s c cpu in
    let* (obj, s) := if p =? 0 then Ok (0, s) else slub_stack_pop s p in
    let* (obj, s) :=
      if (obj =? 0) && negb (p =? 0) then
        let* s := harvest s p in slub_stack_pop s p
      else Ok (obj, s) in
    let* (obj, s) := if obj =? 0 then slow_alloc s c cpu p else Ok (obj, s) in
    if obj =? 0 then Ok (0, s)
    else let* s := count_alloc s c obj in Ok (obj, s).

(** * Release *)

Definition free_slab (s : slub PS) (p : Z) : res (slub PS) :=
  let* s := upd_slab (su_with_magic 0) p s in
  let* A := page_free (s_arena s) p in
  Ok (Slub A (delete p (s_slabs s)) (s_caches s)).

Definition link_partial_locked (s : slub PS) (c p : Z) : res (slub PS) :=
  let* x := slab_at s p in
  if negb (su_magic x =? SLUB_PAGE_MAGIC) then Ok s
  else if (su_owner x <? 0) && negb (su_on_partial x) && (0 <? su_inuse x) && (su_inuse x <? su_objects x) then list_partial s c p
  else if (su_owner x <? 0) && negb (su_on_partial x) && (su_inuse x =? 0) then free_slab s p
  else Ok s.

(** A place that holds a link of the partial list: the head in the cache, or the
    field of a slab. *)
Inductive link_place : Type := InCache | InSlab (q : Z).

Definition link_get (s : slub PS) (c : Z) (pp : link_place) : res Z :=
  match pp with
  | InCache => let* kc := cache_at s c in Ok (kc_partial kc)
  | InSlab q => let* x := slab_at s q in Ok (su_partial_next x)
  end.

Definition link_set (s : slub PS) (c : Z) (pp : link_place) (v : Z) : res (slub PS) :=
  match pp with
  | InCache => upd_cache (kc_with_partial v) c s
  | InSlab q => upd_slab (su_with_next v) q s
  end.

(** Takes a slab out of the partial list. *)
Definition unlist_partial (s : slub PS) (c p : Z) : res (slub PS) :=
  let* pp := loop (S (size (s_slabs s))) (fun pp =>
    let* q := link_get s c pp in
    if (q =? 0) || (q =? p) then Ok (inr pp) else Ok (inl (InSlab q))) InCache in
  let* q := link_get s c pp in
  let* s :=
    if q =? p then
      let* x := slab_at s p in
      let* s := link_set s c pp (su_partial_next x) in
      upd_cache (fun k => kc_with_nr (u64 (kc_nr_partial k - 1)) k) c s
    else Ok s in
  upd_slab (su_with_listed false) p s.

Definition reclaim_slab (s : slub PS) (c p : Z) : res (slub PS) :=
  let* x := slab_at s p in
  if negb (su_magic x =? SLUB_PAGE_MAGIC) then Ok s
  else if (0 <=? su_owner x) || negb (su_inuse x =? 0) then Ok s
  else
    let* s := if su_on_partial x then unlist_partial s c p else Ok s in
    free_slab s p.

(** The object goes to the free list of its owner, or to the list of objects that
    came from elsewhere. *)
Definition give_back (s : slub PS) (p obj owner my_id : Z) : res (bool * slub PS) :=
  if (0 <=? owner) && (i32 my_id =? owner) then let* s := slub_stack_push s p obj in Ok (true, s)
  else
    let* x := slab_at s p in
    if negb (su_magic x =? SLUB_PAGE_MAGIC) then                (* reclaimed meanwhile *)
      let* s := upd_slab (fun x => su_with_inuse (u32 (su_inuse x + 1)) x) p s in Ok (false, s)
    else
      let* A := st_link (s_arena s) obj (su_foreign x) in
      let* s := upd_slab (su_with_foreign obj) p (with_arena s A) in
      Ok (true, s).

Definition slub_Free (s : slub PS) (c obj : Z) (cpu : option Z) : res (slub PS) :=
  if (c =? 0) || (obj =? 0) then Ok s
  else
    let p := slub_page_of obj in
    let* x := slab_at s p in
    if negb (su_magic x =? SLUB_PAGE_MAGIC) || negb (su_cache x =? c) then slab_fatal
    else
      let before := su_inuse x in
      let* s := upd_slab (fun x => su_with_inuse (u32 (su_inuse x - 1)) x) p s in
      if before =? 0 then slab_fatal
      else
        let after := before - 1 in
        match cpu with
        | None => Fault                                      (* this_cpu()->id *)
        | Some my_id =>
            let* (go, s) := give_back s p obj (su_owner x) my_id in
            if negb go then Ok s else
            let* s := upd_cache (fun k => kc_with_frees (u64 (kc_frees k + 1)) k) c s in
            if after =? 0 then
              if su_owner x <? 0 then reclaim_slab s c p else Ok s
            else if before =? su_objects x then
              if su_owner x <? 0 then link_partial_locked s c p else Ok s
            else Ok s
        end.

(** * The slabs of a cache that is destroyed *)

Definition release_partial (s : slub PS) (c : Z) : res (slub PS) :=
  let* kc := cache_at s c in
  loop (S (size (s_slabs s))) (fun '(s, p) =>
    if p =? 0 then Ok (inr s)
    else
      let* x := slab_at s p in
      let* s := free_slab s p in
      Ok (inl (s, su_partial_next x))) (s, kc_partial kc).

Definition release_active (s : slub PS) (c : Z) : res (slub PS) :=
  for_up (Z.to_nat MAX_CPUS) 0 (fun i s =>
    let* kc := cache_at s c in
    let* p := get (kc_active kc) i in
    if p =? 0 then Ok s
    else let* s := free_slab s p in set_active i 0 c s) s.

Definition release_slabs (s : slub PS) (c : Z) : res (slub PS) :=
  let* s := release_partial s c in
  let* s := upd_cache (fun k => kc_with_nr 0 (kc_with_partial 0 k)) c s in
  release_active s c.

(** * The descriptor of a new cache *)

(** The object size and the offset of the first object that [Create] computes,
    [None] for arguments it refuses. *)
Definition cache_geometry (obj_size align : Z) : option (Z * Z) :=
  if obj_size =? 0 then None
  else if (align =? 0) || negb (Z.land align (align - 1) =? 0) then None
  else
    let align := if align <? 8 then 8 else align in
    let os := u32 (SLAB_ALIGN_UP obj_size align) in
    let off := u32 (SLAB_ALIGN_UP sizeof_slub_slab align) in
    if PAGE_SIZE <? off + os then None else Some (os, off).

(** The descriptor; the number of objects is a division. *)
Definition new_cache (name os off : Z) : res kmem_cache :=
  if os =? 0 then Fault
  else Ok (KmemCache name os off (u32 ((PAGE_SIZE - off) / os)) 0 0 (replicate (Z.to_nat MAX_CPUS) 0) 0 0 0).
End Slub.
