(* ===== verification/SlubInv.v ===== *)
(** The invariant of the object caches: the objects of a slab are free, free in
    the list of objects from elsewhere, or live; the partial lists and the slabs of
    the CPUs hold what the headers say.  Then the surgery on lists and owners. *)
From stdpp Require Import base gmap list fin_maps sorting.
From Stdlib Require Import ZArith Lia.
From stdpp Require Import base gmap list fin_maps.
From S2P Require Import Prelude Words Memory PMM PMMBits PMMInit HeapMem Slub.

Open Scope Z_scope.
Open Scope c_scope.

(** * Geometry *)

Record geom_ok (c : kmem_cache) : Prop := {
  ge_size : 8 <= kc_obj_size c;
  ge_off : sizeof_slub_slab <= kc_area_off c;
  ge_fit : kc_area_off c + kc_obj_size c <= 4096;
  ge_objs : kc_objs c = (4096 - kc_area_off c) / kc_obj_size c;
  ge_active : length (kc_active c) = Z.to_nat MAX_CPUS
}.

(** What a slab depends on. *)
Definition layout_of (c : kmem_cache) : Z * Z * Z * nat := (kc_obj_size c, kc_area_off c, kc_objs c, length (kc_active c)).

(** The addresses of the objects of a slab. *)
Definition grid (c : kmem_cache) (p : Z) : list Z := (fun i => p + kc_area_off c + i * kc_obj_size c) <$> seqZ 0 (kc_objs c).

Lemma geom_objs c : geom_ok c -> 1 <= kc_objs c <= 512 /\ kc_area_off c + kc_objs c * kc_obj_size c <= 4096.
Proof.
  intros [H1 H2 H3 H4 _]. unfold sizeof_slub_slab in *. rewrite H4. split; [split|].
  - apply Z.div_le_lower_bound; lia.
  - apply Z.div_le_upper_bound; nia.
  - pose proof (Z.mul_div_le (4096 - kc_area_off c) (kc_obj_size c)). lia.
Qed.

Lemma elem_of_grid c p x : x ∈ grid c p <-> exists i, 0 <= i < kc_objs c /\ x = p + kc_area_off c + i * kc_obj_size c.
Proof.
  unfold grid. rewrite list_elem_of_fmap. split.
  - intros (i & -> & Hi). apply elem_of_seqZ in Hi. exists i. split; [lia|reflexivity].
  - intros (i & Hi & ->). exists i. split; [reflexivity|]. apply elem_of_seqZ. lia.
Qed.

Lemma grid_bound c p x : geom_ok c -> x ∈ grid c p -> p + 56 <= x /\ x + kc_obj_size c <= p + 4096 /\ x + 8 <= p + 4096.
Proof.
  intros G (i & Hi & ->)%elem_of_grid. pose proof (geom_objs _ G) as [_ Hf]. pose proof (ge_size _ G). pose proof (ge_off _ G). unfold sizeof_slub_slab in *. nia.
Qed.

(** Objects do not overlap. *)
Lemma grid_apart c p x y : geom_ok c -> x ∈ grid c p -> y ∈ grid c p -> x <> y -> x + kc_obj_size c <= y \/ y + kc_obj_size c <= x.
Proof.
  intros G (i & Hi & ->)%elem_of_grid (j & Hj & ->)%elem_of_grid Hne. pose proof (ge_size _ G).
  destruct (Z.lt_trichotomy i j) as [|[->|]]; [left; nia|contradiction|right; nia].
Qed.

Lemma grid_NoDup c p : geom_ok c -> NoDup (grid c p).
Proof.
  intros G. unfold grid. apply NoDup_fmap_2_strong; [|apply NoDup_seqZ]. intros i j _ _ E. pose proof (ge_size _ G). nia.
Qed.

Lemma grid_length c p : geom_ok c -> Z.of_nat (length (grid c p)) = kc_objs c.
Proof. intros G. pose proof (geom_objs _ G). unfold grid. rewrite length_fmap, length_seqZ. lia. Qed.

(** The page of an object. *)
Lemma page_of_in p x : p mod 4096 = 0 -> 0 <= p -> p <= x < p + 4096 -> x < 2 ^ 64 -> slub_page_of x = p.
Proof. intros Hp H0 Hx H64. unfold slub_page_of. rewrite land_page by (unfold word; lia). dlia. Qed.

(** * Slabs in memory *)

(** How the objects of a slab are divided up. *)
Record view : Type := View { v_free : list Z; v_foreign : list Z; v_live : list Z }.

(** [d] live objects are not counted. *)
Record slab_mem (m : mem) (c : kmem_cache) (p : Z) (s : slub_slab_t) (v : view) (d : Z) : Prop := {
  sm_magic : su_magic s = SLUB_PAGE_MAGIC;
  sm_free : chain raw m (su_freelist s) (v_free v);
  sm_foreign : chain raw m (su_foreign s) (v_foreign v);
  sm_perm : v_free v ++ v_foreign v ++ v_live v ≡ₚ grid c p;
  sm_inuse : su_inuse s + d = Z.of_nat (length (v_live v));
  sm_objects : su_objects s = kc_objs c
}.

Definition missing (hole p : Z) : Z := if decide (p = hole) then 1 else 0.

Section Inv.
Context {PS : Type} `{PSI : !PageSource PS} `{PSL : !PageSourceOk PS}.

(** [hole]: the slab with a live object that is not counted yet, 0 for none. *)
Record heap_inv (hole : Z) (st : slub PS) (V : gmap Z view) (H : gmap Z Z) : Prop := {
  hi_arena : arena_ok (s_arena st) H;
  hi_dom p : V !! p = None <-> s_slabs st !! p = None;
  hi_page p s : s_slabs st !! p = Some s -> H !! p = Some 1;
  hi_slab p s v : s_slabs st !! p = Some s -> V !! p = Some v ->
    exists c, s_caches st !! su_cache s = Some c /\ slab_mem (a_mem (s_arena st)) c p s v (missing hole p);
  hi_geom a c : s_caches st !! a = Some c -> geom_ok c /\ a <> 0
}.

(** * Lists and owners *)

Fixpoint pchain (S : gmap Z slub_slab_t) (h : Z) (l : list Z) : Prop :=
  match l with
  | [] => h = 0
  | x :: l => h = x /\ x <> 0 /\ exists s, S !! x = Some s /\ pchain S (su_partial_next s) l
  end.

(** The partial list of each cache holds the slabs that are marked. *)
Definition lists_ok (S : gmap Z slub_slab_t) (C : gmap Z kmem_cache) : Prop := forall a c, C !! a = Some c ->
  exists l, pchain S (kc_partial c) l /\ NoDup l /\ kc_nr_partial c = u64 (Z.of_nat (length l)) /\
    forall p, p ∈ l <-> exists s, S !! p = Some s /\ su_cache s = a /\ su_on_partial s = true.

(** A CPU and the slab it uses name each other. *)
Record owners_ok (S : gmap Z slub_slab_t) (C : gmap Z kmem_cache) : Prop := {
  ow_active a c i p : C !! a = Some c -> kc_active c !! i = Some p -> p <> 0 -> exists s, S !! p = Some s /\ su_cache s = a /\ su_owner s = Z.of_nat i;
  ow_owner p s : S !! p = Some s -> su_owner s <> -1 -> 0 <= su_owner s < MAX_CPUS /\
    exists c, C !! su_cache s = Some c /\ kc_active c !! Z.to_nat (su_owner s) = Some p
}.

(** A slab without owner is in use, one in the list has room; with [strict], one
    that has no owner and is in no list is full. *)
Record state_ok (strict : bool) (s : slub_slab_t) : Prop := {
  st_used : su_owner s = -1 -> 0 < su_inuse s;
  st_room : su_on_partial s = true -> su_inuse s < su_objects s;
  st_full : strict = true -> su_owner s = -1 -> su_on_partial s = false -> su_inuse s = su_objects s
}.

(** [ex]: a slab that is exempt from [state_ok], 0 for none. *)
Record links_ok (strict : bool) (ex : Z) (S : gmap Z slub_slab_t) (C : gmap Z kmem_cache) : Prop := {
  lk_lists : lists_ok S C;
  lk_owners : owners_ok S C;
  lk_listed p s : S !! p = Some s -> su_on_partial s = true -> su_owner s = -1;
  lk_state p s : S !! p = Some s -> p <> ex -> state_ok strict s;
  lk_zero : S !! 0 = None
}.

(** The invariant between operations. *)
Definition slub_inv (strict : bool) (st : slub PS) (V : gmap Z view) (H : gmap Z Z) : Prop :=
  heap_inv 0 st V H /\ links_ok strict 0 (s_slabs st) (s_caches st).

(** * Frames *)

(** A live object and its size. *)
Definition live_obj (st : slub PS) (V : gmap Z view) (x n : Z) : Prop :=
  exists p s v c, s_slabs st !! p = Some s /\ V !! p = Some v /\ s_caches st !! su_cache s = Some c /\ x ∈ v_live v /\ n = kc_obj_size c.

(** The live objects but [X] stay with their contents, as do the ranges that
    belong to others; the live objects afterwards are those and [Y]; no cache
    changes its layout. *)
Record frame (X Y : list Z) (st : slub PS) (V : gmap Z view) (H : gmap Z Z) (st' : slub PS) (V' : gmap Z view) (H' : gmap Z Z) : Prop := {
  fr_live x n : live_obj st V x n -> x ∉ X -> live_obj st' V' x n /\ agree (a_mem (s_arena st)) (a_mem (s_arena st')) x n;
  fr_back x n : live_obj st' V' x n -> (live_obj st V x n /\ x ∉ X) \/ x ∈ Y;
  fr_other q n : H !! q = Some n -> s_slabs st !! q = None -> H' !! q = Some n /\ s_slabs st' !! q = None /\ agree (a_mem (s_arena st)) (a_mem (s_arena st')) q (n * 4096);
  fr_new q n : H' !! q = Some n -> s_slabs st' !! q = None -> H !! q = Some n /\ s_slabs st !! q = None;
  fr_caches b : layout_of <$> s_caches st' !! b = layout_of <$> s_caches st !! b
}.

Lemma frame_refl st V H : frame [] [] st V H st V H.
Proof.
  split.
  - intros x n Hx _. split; [exact Hx|apply agree_refl].
  - intros x n Hx. left. split; [exact Hx|apply not_elem_of_nil].
  - intros q n Hq Hs. split; [exact Hq|]. split; [exact Hs|apply agree_refl].
  - auto.
  - reflexivity.
Qed.

Lemma frame_trans X1 Y1 X2 Y2 st V H st1 V1 H1 st2 V2 H2 : frame X1 Y1 st V H st1 V1 H1 -> frame X2 Y2 st1 V1 H1 st2 V2 H2 ->
  frame (X1 ++ X2) (Y1 ++ Y2) st V H st2 V2 H2.
Proof.
  intros F1 F2. split.
  - intros x n Hx Hn. apply not_elem_of_app in Hn as [Hn1 Hn2]. destruct (fr_live _ _ _ _ _ _ _ _ F1 x n Hx Hn1) as [L1 A1].
    destruct (fr_live _ _ _ _ _ _ _ _ F2 x n L1 Hn2) as [L2 A2]. split; [exact L2|]. now apply agree_trans with (a_mem (s_arena st1)).
  - intros x n Hx. destruct (fr_back _ _ _ _ _ _ _ _ F2 x n Hx) as [[L Hn2]|Hy]; [|right; apply elem_of_app; auto].
    destruct (fr_back _ _ _ _ _ _ _ _ F1 x n L) as [[L' Hn1]|Hy]; [|right; apply elem_of_app; auto]. left. split; [exact L'|]. apply not_elem_of_app. auto.
  - intros q n Hq Hs. destruct (fr_other _ _ _ _ _ _ _ _ F1 q n Hq Hs) as (Hq1 & Hs1 & A1). destruct (fr_other _ _ _ _ _ _ _ _ F2 q n Hq1 Hs1) as (Hq2 & Hs2 & A2).
    split; [exact Hq2|]. split; [exact Hs2|]. now apply agree_trans with (a_mem (s_arena st1)).
  - intros q n Hq Hs. destruct (fr_new _ _ _ _ _ _ _ _ F2 q n Hq Hs) as [Hq1 Hs1]. exact (fr_new _ _ _ _ _ _ _ _ F1 q n Hq1 Hs1).
  - intros b. rewrite (fr_caches _ _ _ _ _ _ _ _ F2). apply (fr_caches _ _ _ _ _ _ _ _ F1).
Qed.
End Inv.

(** Object caches: the lists of partly used slabs and the slabs of the CPUs under
    the updates the operations make. *)

(** Cases of a lookup in an updated map. *)
Ltac upd_cases H := apply lookup_insert_Some in H as [[<- <-]|[? H]].

(** * Chains of slabs *)

Lemma pchain_ext S S' h l : (forall x s, x ∈ l -> S !! x = Some s -> exists s', S' !! x = Some s' /\ su_partial_next s' = su_partial_next s) -> pchain S h l -> pchain S' h l.
Proof.
  revert h. induction l as [|x l IH]; intros h He Hc; [exact Hc|]. destruct Hc as (E & Hx & s & Hs & Hc). split; [exact E|]. split; [exact Hx|].
  destruct (He x s ltac:(left) Hs) as (s' & Hs' & En). exists s'. split; [exact Hs'|]. rewrite En. apply IH; [|exact Hc]. intros y t Hy. apply He. now right.
Qed.

Lemma pchain_insert S h l p s s' : S !! p = Some s -> su_partial_next s' = su_partial_next s -> pchain S h l -> pchain (<[p := s']> S) h l.
Proof.
  intros Hp En. apply pchain_ext. intros x t _ Ht. destruct (decide (p = x)) as [<-|Hne]; [exists s'; rewrite lookup_insert_eq; split; congruence|].
  exists t. rewrite lookup_insert_ne by exact Hne. auto.
Qed.

Lemma pchain_notin S h l p s' : p ∉ l -> pchain S h l -> pchain (<[p := s']> S) h l.
Proof.
  intros Hp. apply pchain_ext. intros x t Hx Ht. assert (p <> x) by congruence. exists t. rewrite lookup_insert_ne by assumption. auto.
Qed.

Lemma pchain_delete S h l p : p ∉ l -> pchain S h l -> pchain (delete p S) h l.
Proof.
  intros Hp. apply pchain_ext. intros x t Hx Ht. assert (p <> x) by congruence. exists t. rewrite lookup_delete_ne by assumption. auto.
Qed.

Lemma pchain_in S h l x : pchain S h l -> x ∈ l -> is_Some (S !! x) /\ x <> 0.
Proof.
  revert h. induction l as [|y l IH]; intros h Hc Hx; [now apply not_elem_of_nil in Hx|]. destruct Hc as (_ & Hy & s & Hs & Hc).
  apply elem_of_cons in Hx as [->|Hx]; [eauto|]. eapply IH; eassumption.
Qed.

Lemma pchain_zero S l : pchain S 0 l -> l = [].
Proof. destruct l; [reflexivity|]. intros (E & Hx & _). congruence. Qed.

(** * Updates of one aspect leave the others alone *)

Lemma fmap_insert_same {A B} (f : A -> B) (m : gmap Z A) p x x' q : m !! p = Some x -> f x' = f x -> f <$> <[p := x']> m !! q = f <$> m !! q.
Proof. intros Hp E. destruct (decide (p = q)) as [<-|Hne]; [rewrite lookup_insert_eq, Hp; cbn; congruence|now rewrite lookup_insert_ne]. Qed.

Lemma fmap_lookup {A B} (f : A -> B) (m m' : gmap Z A) q x : f <$> m' !! q = f <$> m !! q -> m !! q = Some x -> exists x', m' !! q = Some x' /\ f x' = f x.
Proof. intros E H. rewrite H in E. apply fmap_Some in E as (x' & Hx' & E). eauto. Qed.

Definition owner_part (s : slub_slab_t) : Z * Z := (su_cache s, su_owner s).
Definition list_part (s : slub_slab_t) : Z * Z * bool := (su_cache s, su_partial_next s, su_on_partial s).
Definition list_head (c : kmem_cache) : Z * Z := (kc_partial c, kc_nr_partial c).

Lemma owners_ext S S' C C' : (forall q, owner_part <$> S' !! q = owner_part <$> S !! q) -> (forall a, kc_active <$> C' !! a = kc_active <$> C !! a) ->
  owners_ok S C -> owners_ok S' C'.
Proof.
  intros HS HC [O1 O2]. split.
  - intros a c i p Ha Hi Hp. destruct (fmap_lookup kc_active C' C a c (eq_sym (HC a)) Ha) as (c0 & Ha0 & E0). rewrite <- E0 in Hi.
    destruct (O1 a c0 i p Ha0 Hi Hp) as (s & Hs & H1 & H2). destruct (fmap_lookup owner_part S S' p s (HS p) Hs) as (s' & Hs' & [= E1 E2]). exists s'. split; [exact Hs'|]. split; congruence.
  - intros p s Hs Ho. destruct (fmap_lookup owner_part S' S p s (eq_sym (HS p)) Hs) as (s0 & Hs0 & [= E1 E2]). rewrite <- E2 in *.
    destruct (O2 p s0 Hs0 Ho) as (Hr & c & Hc & Hi). split; [exact Hr|]. destruct (fmap_lookup kc_active C C' _ c (HC _) Hc) as (c' & Hc' & E'). exists c'. rewrite <- E1, E'. auto.
Qed.

Lemma lists_ext S S' C C' : (forall q, list_part <$> S' !! q = list_part <$> S !! q) -> (forall a, list_head <$> C' !! a = list_head <$> C !! a) ->
  lists_ok S C -> lists_ok S' C'.
Proof.
  intros HS HC L a c Ha. destruct (fmap_lookup list_head C' C a c (eq_sym (HC a)) Ha) as (c0 & Ha0 & [= E1 E2]). destruct (L a c0 Ha0) as (l & Hc & Hn & Hl & Hi).
  exists l. rewrite <- E1, <- E2. split; [|split; [exact Hn|split; [exact Hl|]]].
  - revert Hc. apply pchain_ext. intros x s _ Hs. destruct (fmap_lookup list_part S S' x s (HS x) Hs) as (s' & Hs' & [= _ En _]). eauto.
  - intros p. rewrite Hi. split; intros (s & Hs & H1 & H2).
    + destruct (fmap_lookup list_part S S' p s (HS p) Hs) as (s' & Hs' & [= F1 _ F2]). exists s'. split; [exact Hs'|]. split; congruence.
    + destruct (fmap_lookup list_part S' S p s (eq_sym (HS p)) Hs) as (s' & Hs' & [= F1 _ F2]). exists s'. split; [exact Hs'|]. split; congruence.
Qed.

(** Counters of a cache. *)
Lemma links_cache strict ex S C a c c' : links_ok strict ex S C -> C !! a = Some c ->
  list_head c' = list_head c -> kc_active c' = kc_active c -> links_ok strict ex S (<[a := c']> C).
Proof.
  intros [L1 L2 L3 L4 L5] Ha E1 E2. split; [|revert L2; apply owners_ext|exact L3..|exact L4|exact L5].
  - revert L1. apply lists_ext; [reflexivity|]. intros b. now apply (fmap_insert_same list_head C a c).
  - reflexivity.
  - intros b. now apply (fmap_insert_same kc_active C a c).
Qed.

(** A slab whose state changes is exempt or fine. *)
Lemma state_upd strict ex ex' (S : gmap Z slub_slab_t) p s s' : (forall q t, S !! q = Some t -> q <> ex -> state_ok strict t) -> S !! 0 = None -> S !! p = Some s ->
  ex = ex' \/ ex = p \/ ex = 0 -> (p <> ex' -> state_ok strict s') -> forall q t, <[p := s']> S !! q = Some t -> q <> ex' -> state_ok strict t.
Proof.
  intros H H0 Hp Hex Hs q t Hq Hne. upd_cases Hq; [auto|]. apply (H q t Hq). intros ->. destruct Hex as [|[|]]; [congruence..|]. subst. congruence.
Qed.

(** Counts and free lists of a slab. *)
Lemma links_count strict ex ex' S C p s s' : links_ok strict ex S C -> S !! p = Some s -> owner_part s' = owner_part s -> list_part s' = list_part s ->
  ex = ex' \/ ex = p \/ ex = 0 -> (p <> ex' -> state_ok strict s') -> links_ok strict ex' (<[p := s']> S) C.
Proof.
  intros [L1 L2 L3 L4 L5] Hp Eo El Hex Hs. split.
  - revert L1. apply lists_ext; [|reflexivity]. intros q. now apply (fmap_insert_same list_part S p s).
  - revert L2. apply owners_ext; [|reflexivity]. intros q. now apply (fmap_insert_same owner_part S p s).
  - intros q t Hq Hl. injection Eo as _ Eo. injection El as _ _ El. upd_cases Hq; [rewrite Eo; apply (L3 p s Hp); congruence|exact (L3 q t Hq Hl)].
  - exact (state_upd strict ex ex' S p s s' L4 L5 Hp Hex Hs).
  - rewrite lookup_insert_ne by congruence. exact L5.
Qed.

(** * The partial list *)

(** The lists of the other caches, under a change of a slab that is marked for
    cache [a] at most. *)
Lemma list_other (S : gmap Z slub_slab_t) a b c p s s' l : b <> a -> S !! p = Some s -> su_cache s = a -> su_cache s' = a ->
  pchain S c l -> (forall q, q ∈ l <-> exists t, S !! q = Some t /\ su_cache t = b /\ su_on_partial t = true) ->
  pchain (<[p := s']> S) c l /\ forall q, q ∈ l <-> exists t, <[p := s']> S !! q = Some t /\ su_cache t = b /\ su_on_partial t = true.
Proof.
  intros Hb Hp E E' Hc Hi. assert (Hnp : p ∉ l) by (intros Hq; apply Hi in Hq as (t & Ht & Hr & _); congruence).
  split; [now apply pchain_notin|]. intros q. rewrite Hi. split; intros (t & Ht & Hr).
  - assert (p <> q) by (intros <-; apply Hnp, Hi; eauto). exists t. now rewrite lookup_insert_ne.
  - upd_cases Ht; [destruct Hr; congruence|eauto].
Qed.

(** The first slab leaves the list. *)
Lemma lists_take S C a c p s c' : lists_ok S C -> C !! a = Some c -> kc_partial c = p -> p <> 0 -> S !! p = Some s ->
  list_head c' = (su_partial_next s, u64 (kc_nr_partial c - 1)) ->
  su_on_partial s = true /\ su_cache s = a /\ lists_ok (<[p := su_with_listed false s]> S) (<[a := c']> C).
Proof.
  intros L Ha Ep Hp0 Hp [= E1 E2]. destruct (L a c Ha) as (l & Hc & Hn & Hl & Hi). rewrite Ep in Hc.
  destruct l as [|x l]; [cbn in Hc; congruence|]. destruct Hc as (<- & _ & s0 & Hs0 & Hc). rewrite Hp in Hs0. injection Hs0 as <-. apply NoDup_cons in Hn as [Hx Hn].
  destruct (proj1 (Hi p) ltac:(left)) as (s0 & Hs0 & Eca & Epa). rewrite Hp in Hs0. injection Hs0 as <-. split; [exact Epa|]. split; [exact Eca|].
  intros b k Hb. upd_cases Hb.
  - exists l. rewrite E1, E2, Hl. split; [now apply pchain_notin|]. split; [exact Hn|]. split; [cbn [length]; unfold u64; rewrite Zminus_mod_idemp_l; f_equal; lia|].
    intros q. split.
    + intros Hq. destruct (proj1 (Hi q) ltac:(now right)) as (t & Ht & Hr). exists t. rewrite lookup_insert_ne by congruence. auto.
    + intros (t & Ht & Hr1 & Hr2). upd_cases Ht; [easy|]. assert (Hq : q ∈ p :: l) by (apply Hi; eauto). apply elem_of_cons in Hq as [->|]; [contradiction|assumption].
  - destruct (L b k Hb) as (l' & Hc' & Hn' & Hl' & Hi'). exists l'. destruct (list_other S a b _ p s (su_with_listed false s) l' ltac:(congruence) Hp Eca Eca Hc' Hi') as [H1 H2]. auto.
Qed.

(** A slab enters the list in front. *)
Lemma lists_enter S C a c p s c' : lists_ok S C -> C !! a = Some c -> p <> 0 -> S !! p = Some s -> su_cache s = a -> su_on_partial s = false ->
  list_head c' = (p, u64 (kc_nr_partial c + 1)) ->
  lists_ok (<[p := su_with_listed true (su_with_next (kc_partial c) s)]> S) (<[a := c']> C).
Proof.
  intros L Ha Hp0 Hp Ec El [= E1 E2] b k Hb. upd_cases Hb.
  - destruct (L a c Ha) as (l & Hc & Hn & Hl & Hi). assert (Hnp : p ∉ l) by (intros Hq; apply Hi in Hq as (t & Ht & _ & Hr); congruence).
    exists (p :: l). rewrite E1, E2, Hl. split; [|split; [now constructor|split]].
    + split; [reflexivity|]. split; [exact Hp0|]. eexists. rewrite lookup_insert_eq. split; [reflexivity|]. now apply pchain_notin.
    + cbn [length]. unfold u64. rewrite Zplus_mod_idemp_l. f_equal. lia.
    + intros q. split.
      * intros [->|Hq]%elem_of_cons; [eexists; rewrite lookup_insert_eq; split; [reflexivity|]; auto|]. destruct (proj1 (Hi q) Hq) as (t & Ht & Hr). exists t. rewrite lookup_insert_ne by congruence. auto.
      * intros (t & Ht & Hr). upd_cases Ht; [left|right; apply Hi; eauto].
  - destruct (L b k Hb) as (l' & Hc' & Hn' & Hl' & Hi'). exists l'. destruct (list_other S a b _ p s (su_with_listed true (su_with_next (kc_partial c) s)) l' ltac:(congruence) Hp Ec Ec Hc' Hi') as [H1 H2]. auto.
Qed.

(** Where the link to a slab of the list is. *)
Definition at_place (l1 : list Z) (pp : link_place) : Prop :=
  match last l1 with
  | None => pp = InCache
  | Some q => pp = InSlab q
  end.

Lemma pchain_app S h l1 p l2 : pchain S h (l1 ++ p :: l2) ->
  match last l1 with
  | None => h = p
  | Some q => exists t, S !! q = Some t /\ su_partial_next t = p
  end.
Proof.
  revert h. induction l1 as [|x l1 IH]; intros h Hc; [exact (proj1 Hc)|]. destruct Hc as (_ & _ & s & Hs & Hc). specialize (IH _ Hc).
  destruct l1 as [|y l1]; [cbn in *; eauto|]. change (last (x :: y :: l1)) with (last (y :: l1)). destruct (last (y :: l1)) eqn:E; [exact IH|]. apply last_None in E. easy.
Qed.

(** A slab in the middle of a chain is bypassed. *)
Lemma pchain_bypass S h l1 q p l2 t s : NoDup (l1 ++ q :: p :: l2) -> pchain S h (l1 ++ q :: p :: l2) -> S !! q = Some t -> S !! p = Some s ->
  pchain (<[q := su_with_next (su_partial_next s) t]> S) h (l1 ++ q :: l2).
Proof.
  intros Hn Hc Hq Hp. revert h Hc Hn. induction l1 as [|x l1 IH]; intros h Hc Hn.
  - destruct Hc as (-> & H0 & t0 & Ht0 & _ & _ & s0 & Hs0 & Hc). cbn in Hn. apply NoDup_cons in Hn as [Hn1 Hn2]. split; [reflexivity|]. split; [exact H0|].
    eexists. rewrite lookup_insert_eq. split; [reflexivity|]. rewrite Hp in Hs0. injection Hs0 as <-. apply pchain_notin; [|exact Hc]. intros Hi. apply Hn1. now right.
  - destruct Hc as (-> & H0 & t0 & Ht0 & Hc). cbn in Hn. apply NoDup_cons in Hn as [Hn1 Hn2]. split; [reflexivity|]. split; [exact H0|]. exists t0.
    rewrite lookup_insert_ne by (intros ->; apply Hn1; set_solver). split; [exact Ht0|]. now apply IH.
Qed.

Lemma NoDup_remove_mid (l1 l2 : list Z) p : NoDup (l1 ++ p :: l2) -> NoDup (l1 ++ l2) /\ p ∉ l1 ++ l2.
Proof. intros Hn. rewrite <- Permutation_middle in Hn. apply NoDup_cons in Hn as [H1 H2]. auto. Qed.

(** A slab leaves the list wherever it is. *)
Lemma lists_remove S C a c l1 p l2 s s1 pp (S1 : gmap Z slub_slab_t) c1 c' : lists_ok S C -> C !! a = Some c -> pchain S (kc_partial c) (l1 ++ p :: l2) -> at_place l1 pp ->
  S !! p = Some s -> S1 !! p = Some s1 -> list_part s1 = list_part s ->
  match pp with
  | InCache => c1 = kc_with_partial (su_partial_next s) c /\ S1 = S
  | InSlab q => c1 = c /\ exists t, S !! q = Some t /\ S1 = <[q := su_with_next (su_partial_next s) t]> S
  end -> kc_nr_partial c' = u64 (kc_nr_partial c - 1) -> kc_partial c' = kc_partial c1 ->
  lists_ok (<[p := su_with_listed false s1]> S1) (<[a := c']> C).
Proof.
  intros L Ha Hc Hpl Hp Hp1 [= Es1 Es2 Es3] Hpp En Ep. destruct (L a c Ha) as (l & Hc' & Hn & Hl & Hi).
  assert (El : l = l1 ++ p :: l2).
  { clear - Hc Hc'. revert Hc Hc'. generalize (kc_partial c) (l1 ++ p :: l2). intros h k. revert h l. induction k as [|x k IH]; intros h [|y l] H1 H2; [reflexivity|destruct H2 as (? & ? & _); cbn in H1; congruence|destruct H1 as (? & ? & _); cbn in H2; congruence|].
    destruct H1 as (-> & _ & t & Ht & H1), H2 as (-> & _ & t' & Ht' & H2). f_equal. apply (IH (su_partial_next t)); congruence. }
  subst l. clear Hc'. destruct (NoDup_remove_mid _ _ _ Hn) as [Hn' Hnp]. destruct (proj1 (Hi p) ltac:(set_solver)) as (s0 & Hs0 & Eca & Epa). rewrite Hp in Hs0. injection Hs0 as <-.
  assert (Hpart : forall q, q <> p -> (fun s => (su_cache s, su_on_partial s)) <$> S1 !! q = (fun s => (su_cache s, su_on_partial s)) <$> S !! q).
  { intros q _. destruct pp as [|q0]; [destruct Hpp as [_ ->]; reflexivity|]. destruct Hpp as (_ & t & Ht & ->). now apply (fmap_insert_same _ S q0 t). }
  assert (Hch : pchain S1 (kc_partial c') (l1 ++ l2)).
  { rewrite Ep. unfold at_place in Hpl. destruct (last l1) as [q|] eqn:Elast.
    - apply last_Some in Elast as [l0 ->]. subst pp. destruct Hpp as (-> & t & Ht & ->). rewrite <- app_assoc in *. cbn [app] in *. exact (pchain_bypass S _ l0 q p l2 t s Hn Hc Ht Hp).
    - apply last_None in Elast as ->. subst pp. destruct Hpp as (-> & ->). destruct Hc as (_ & _ & s0 & Hs0 & Hc). rewrite Hp in Hs0. injection Hs0 as <-. exact Hc. }
  intros b k Hb. upd_cases Hb.
  - exists (l1 ++ l2). split; [now apply pchain_notin|]. split; [exact Hn'|]. split.
    { rewrite En, Hl. unfold u64. rewrite Zminus_mod_idemp_l. f_equal. rewrite !length_app. cbn [length]. lia. }
    intros q. split.
    + intros Hq. assert (p <> q) by congruence. destruct (proj1 (Hi q) ltac:(set_solver)) as (t & Ht & H1 & H2). rewrite lookup_insert_ne by assumption.
      destruct (fmap_lookup _ S S1 q t (Hpart q ltac:(congruence)) Ht) as (t' & Ht' & [= F1 F2]). exists t'. split; [exact Ht'|]. split; congruence.
    + intros (t & Ht & H1 & H2). upd_cases Ht; [easy|]. destruct (fmap_lookup _ S1 S q t (eq_sym (Hpart q ltac:(congruence))) Ht) as (t' & Ht' & [= F1 F2]).
      assert (Hq : q ∈ l1 ++ p :: l2) by (apply Hi; exists t'; split; [exact Ht'|split; congruence]). set_solver.
  - destruct (L b k Hb) as (l' & Hk & Hn2 & Hl2 & Hi2). exists l'.
    assert (Hother : forall q, q ∈ l1 ++ p :: l2 -> q ∉ l'). { intros q Hq Hq'. apply Hi in Hq as (t & Ht & H1 & _). apply Hi2 in Hq' as (t' & Ht' & H2 & _). congruence. }
    split; [|split; [exact Hn2|split; [exact Hl2|]]].
    + apply pchain_notin; [apply Hother; set_solver|]. unfold at_place in Hpl. destruct (last l1) as [q|] eqn:Elast; [|subst pp; destruct Hpp as [_ ->]; exact Hk].
      apply last_Some in Elast as [l0 ->]. subst pp. destruct Hpp as (_ & t & _ & ->). apply pchain_notin; [apply Hother; set_solver|exact Hk].
    + intros q. rewrite Hi2. split; intros (t & Ht & H1 & H2).
      * assert (p <> q) by (intros <-; congruence). rewrite lookup_insert_ne by assumption.
        destruct (fmap_lookup _ S S1 q t (Hpart q ltac:(congruence)) Ht) as (t' & Ht' & [= F1 F2]). exists t'. split; [exact Ht'|]. split; congruence.
      * upd_cases Ht; [easy|]. destruct (fmap_lookup _ S1 S q t (eq_sym (Hpart q ltac:(congruence))) Ht) as (t' & Ht' & [= F1 F2]). exists t'. split; [exact Ht'|]. split; congruence.
Qed.

(** * Slabs come and go *)

Lemma lists_fresh S C p s : lists_ok S C -> S !! p = None -> su_on_partial s = false -> lists_ok (<[p := s]> S) C.
Proof.
  intros L Hp E a c Ha. destruct (L a c Ha) as (l & Hc & Hn & Hl & Hi). assert (Hnp : p ∉ l) by (intros Hq; apply Hi in Hq as (t & Ht & _); congruence).
  exists l. split; [now apply pchain_notin|]. split; [exact Hn|]. split; [exact Hl|]. intros q. rewrite Hi. split; intros (t & Ht & Hr).
  - exists t. rewrite lookup_insert_ne by congruence. auto.
  - upd_cases Ht; [destruct Hr; congruence|eauto].
Qed.

Lemma owners_fresh S C p s : owners_ok S C -> S !! p = None -> su_owner s = -1 -> owners_ok (<[p := s]> S) C.
Proof.
  intros [O1 O2] Hp E. split.
  - intros a c i q Ha Hi Hq. destruct (O1 a c i q Ha Hi Hq) as (t & Ht & Hr). exists t. rewrite lookup_insert_ne by congruence. auto.
  - intros q t Ht Ho. upd_cases Ht; [congruence|]. exact (O2 q t Ht Ho).
Qed.

Lemma links_fresh strict S C p s : links_ok strict 0 S C -> S !! p = None -> p <> 0 -> su_owner s = -1 -> su_on_partial s = false -> links_ok strict p (<[p := s]> S) C.
Proof.
  intros [L1 L2 L3 L4 L5] Hp H0 Eo El. split; [now apply lists_fresh|now apply owners_fresh|..].
  - intros q t Hq Hl. upd_cases Hq; [congruence|exact (L3 q t Hq Hl)].
  - intros q t Hq Hne. upd_cases Hq; [contradiction|]. apply (L4 q t Hq). congruence.
  - now rewrite lookup_insert_ne.
Qed.

Lemma links_delete strict S C p s : links_ok strict p S C -> S !! p = Some s -> su_owner s = -1 -> su_on_partial s = false -> links_ok strict 0 (delete p S) C.
Proof.
  intros [L1 [O1 O2] L3 L4 L5] Hp Eo El. split.
  - intros a c Ha. destruct (L1 a c Ha) as (l & Hc & Hn & Hl & Hi). assert (Hnp : p ∉ l) by (intros Hq; apply Hi in Hq as (t & Ht & _ & Hr); congruence).
    exists l. split; [now apply pchain_delete|]. split; [exact Hn|]. split; [exact Hl|]. intros q. rewrite Hi. split; intros (t & Ht & Hr).
    + exists t. rewrite lookup_delete_ne by (intros <-; destruct Hr; congruence). auto.
    + apply lookup_delete_Some in Ht as [_ Ht]. eauto.
  - split.
    + intros a c i q Ha Hi Hq. destruct (O1 a c i q Ha Hi Hq) as (t & Ht & Hr1 & Hr2). exists t. rewrite lookup_delete_ne; [auto|]. intros <-. rewrite Hp in Ht. injection Ht as <-. lia.
    + intros q t Ht Ho. apply lookup_delete_Some in Ht as [_ Ht]. exact (O2 q t Ht Ho).
  - intros q t Hq Hl. apply lookup_delete_Some in Hq as [_ Hq]. exact (L3 q t Hq Hl).
  - intros q t Hq _. apply lookup_delete_Some in Hq as [Hne Hq]. apply (L4 q t Hq). congruence.
  - rewrite lookup_delete_ne; [exact L5|congruence].
Qed.

(** * Owners *)

(** A CPU without a slab takes one. *)
Lemma owners_take S C a c p s id c' : owners_ok S C -> S !! 0 = None -> C !! a = Some c -> S !! p = Some s -> su_cache s = a -> su_owner s = -1 ->
  kc_active c !! Z.to_nat id = Some 0 -> 0 <= id < MAX_CPUS -> kc_active c' = <[Z.to_nat id := p]> (kc_active c) ->
  owners_ok (<[p := su_with_owner id s]> S) (<[a := c']> C).
Proof.
  intros [O1 O2] H0 Ha Hp Ec Eo Hi Hr Ec'. pose proof (lookup_lt_Some _ _ _ Hi) as Hlt. split.
  - intros b k i q Hb Hq Hq0. upd_cases Hb.
    + rewrite Ec' in Hq. apply list_lookup_insert_Some in Hq as [(<- & <- & _)|[Hne Hq]].
      * eexists. rewrite lookup_insert_eq. split; [reflexivity|]. split; [exact Ec|]. cbn. lia.
      * destruct (O1 a c i q Ha Hq Hq0) as (t & Ht & H1 & H2). exists t. rewrite lookup_insert_ne; [auto|]. intros <-. rewrite Hp in Ht. injection Ht as <-. lia.
    + destruct (O1 b k i q Hb Hq Hq0) as (t & Ht & H1 & H2). exists t. rewrite lookup_insert_ne; [auto|]. intros <-. rewrite Hp in Ht. injection Ht as <-. lia.
  - intros q t Ht Ho. upd_cases Ht.
    + split; [exact Hr|]. exists c'. cbn. rewrite Ec, lookup_insert_eq, Ec'. split; [reflexivity|]. now rewrite list_lookup_insert_eq.
    + destruct (O2 q t Ht Ho) as (Hrt & k & Hk & Hq). split; [exact Hrt|]. destruct (decide (a = su_cache t)) as [E|Hne]; [|exists k; now rewrite lookup_insert_ne].
      rewrite <- E in *. exists c'. rewrite lookup_insert_eq, Ec'. split; [reflexivity|]. rewrite Ha in Hk. injection Hk as <-.
      rewrite list_lookup_insert_ne; [exact Hq|]. intros E'. rewrite <- E', Hi in Hq. injection Hq as <-. congruence.
Qed.

(** A CPU gives its slab up. *)
Lemma owners_drop S C a c p s id c' : owners_ok S C -> C !! a = Some c -> S !! p = Some s -> su_cache s = a -> su_owner s = id -> 0 <= id ->
  kc_active c' = <[Z.to_nat id := 0]> (kc_active c) -> owners_ok (<[p := su_with_owner (-1) s]> S) (<[a := c']> C).
Proof.
  intros [O1 O2] Ha Hp Ec Eo Hid Ec'. assert (Hact : kc_active c !! Z.to_nat id = Some p).
  { destruct (O2 p s Hp ltac:(lia)) as (_ & k & Hk & Hq). rewrite Ec, Ha in Hk. injection Hk as <-. now rewrite Eo in Hq. }
  pose proof (lookup_lt_Some _ _ _ Hact) as Hlt. split.
  - intros b k i q Hb Hq Hq0. upd_cases Hb.
    + rewrite Ec' in Hq. apply list_lookup_insert_Some in Hq as [(<- & <- & _)|[Hne Hq]]; [contradiction|].
      destruct (O1 a c i q Ha Hq Hq0) as (t & Ht & H1 & H2). exists t. rewrite lookup_insert_ne; [auto|]. intros <-. rewrite Hp in Ht. injection Ht as <-. lia.
    + destruct (O1 b k i q Hb Hq Hq0) as (t & Ht & H1 & H2). exists t. rewrite lookup_insert_ne; [auto|]. intros <-. rewrite Hp in Ht. injection Ht as <-. congruence.
  - intros q t Ht Ho. upd_cases Ht; [cbn in Ho; lia|]. destruct (O2 q t Ht Ho) as (Hrt & k & Hk & Hq). split; [exact Hrt|].
    destruct (decide (a = su_cache t)) as [E|Hne]; [|exists k; now rewrite lookup_insert_ne].
    rewrite <- E in *. exists c'. rewrite lookup_insert_eq, Ec'. split; [reflexivity|]. rewrite Ha in Hk. injection Hk as <-.
    rewrite list_lookup_insert_ne; [exact Hq|]. intros E'. rewrite <- E', Hact in Hq. congruence.
Qed.

(** * The whole structure *)

Lemma size_active (C : gmap Z kmem_cache) a c c' : C !! a = Some c -> kc_active c' = kc_active c -> forall b, kc_active <$> <[a := c']> C !! b = kc_active <$> C !! b.
Proof. intros Ha E b. now apply (fmap_insert_same kc_active C a c). Qed.

(** The part of a header that changes leaves the owners alone. *)
Lemma links_relist strict ex ex' S C p s s' a c' C' : links_ok strict ex S C -> S !! p = Some s -> owner_part s' = owner_part s -> su_owner s = -1 \/ su_on_partial s' = false -> C' = <[a := c']> C -> (forall b, kc_active <$> C' !! b = kc_active <$> C !! b) ->
  lists_ok (<[p := s']> S) C' -> ex = ex' \/ ex = p \/ ex = 0 -> (p <> ex' -> state_ok strict s') -> links_ok strict ex' (<[p := s']> S) C'.
Proof.
  intros [L1 L2 L3 L4 L5] Hp Eo Hl -> HC HL Hex Hs. split; [exact HL| | | |].
  - revert L2. apply owners_ext; [|exact HC]. intros q. now apply (fmap_insert_same owner_part S p s).
  - intros q t Hq Ht. injection Eo as _ Eo. upd_cases Hq; [rewrite Eo; destruct Hl; congruence|exact (L3 q t Hq Ht)].
  - exact (state_upd strict ex ex' S p s s' L4 L5 Hp Hex Hs).
  - rewrite lookup_insert_ne by congruence. exact L5.
Qed.

(** A change of owner leaves the lists alone. *)
Lemma links_reown strict ex ex' S C p s o a c c' : links_ok strict ex S C -> S !! p = Some s -> C !! a = Some c -> list_head c' = list_head c -> su_on_partial s = false ->
  owners_ok (<[p := su_with_owner o s]> S) (<[a := c']> C) -> ex = ex' \/ ex = p \/ ex = 0 -> (p <> ex' -> state_ok strict (su_with_owner o s)) ->
  links_ok strict ex' (<[p := su_with_owner o s]> S) (<[a := c']> C).
Proof.
  intros [L1 L2 L3 L4 L5] Hp Ha Ec El HO Hex Hs. split; [|exact HO| | |].
  - revert L1. apply lists_ext; intros q; [now apply (fmap_insert_same list_part S p s)|now apply (fmap_insert_same list_head C a c)].
  - intros q t Hq Ht. upd_cases Hq; [cbn in Ht; congruence|exact (L3 q t Hq Ht)].
  - exact (state_upd strict ex ex' S p s _ L4 L5 Hp Hex Hs).
  - rewrite lookup_insert_ne by congruence. exact L5.
Qed.
