(* ===== verification/SlubAlloc.v ===== *)
(** Object caches: taking objects from slabs, new slabs, the refill of a CPU, and
    [SLUB::Alloc]. *)
From stdpp Require Import base gmap list fin_maps.
From Stdlib Require Import ZArith Lia.
From S2P Require Import Prelude Words Memory PMM PMMBits HeapMem Slub SlubInv.

Open Scope Z_scope.
Open Scope c_scope.

(** * Slabs in memory *)

Lemma slab_perm_in m c p s v d x : slab_mem m c p s v d -> x ∈ v_free v ++ v_foreign v ++ v_live v -> x ∈ grid c p.
Proof. intros M Hx. now rewrite <- (sm_perm _ _ _ _ _ _ M). Qed.

(** Every object of the three lists is on the grid. *)
Lemma free_grid m c p s v d x : slab_mem m c p s v d -> x ∈ v_free v -> x ∈ grid c p.
Proof. intros M Hx. apply (slab_perm_in _ _ _ _ _ _ _ M). apply elem_of_app. now left. Qed.

Lemma foreign_grid m c p s v d x : slab_mem m c p s v d -> x ∈ v_foreign v -> x ∈ grid c p.
Proof. intros M Hx. apply (slab_perm_in _ _ _ _ _ _ _ M). rewrite !elem_of_app. auto. Qed.

Lemma live_grid m c p s v d x : slab_mem m c p s v d -> x ∈ v_live v -> x ∈ grid c p.
Proof. intros M Hx. apply (slab_perm_in _ _ _ _ _ _ _ M). rewrite !elem_of_app. auto. Qed.

Lemma slab_NoDup m c p s v d : geom_ok c -> slab_mem m c p s v d -> NoDup (v_free v ++ v_foreign v ++ v_live v).
Proof. intros G M. rewrite (sm_perm _ _ _ _ _ _ M). now apply grid_NoDup. Qed.

Lemma slab_count m c p s v d : geom_ok c -> slab_mem m c p s v d ->
  Z.of_nat (length (v_free v) + length (v_foreign v) + length (v_live v)) = su_objects s.
Proof.
  intros G M. rewrite (sm_objects _ _ _ _ _ _ M), <- (grid_length c p G), <- (sm_perm _ _ _ _ _ _ M), !length_app. lia.
Qed.

(** The links of free objects are in the page. *)
Lemma slab_agree m m' c p s v d : geom_ok c -> slab_mem m c p s v d -> agree m m' p 4096 -> slab_mem m' c p s v d.
Proof.
  intros G M Ha. assert (Hx : forall x, x ∈ v_free v ++ v_foreign v ++ v_live v -> agree m m' x 8).
  { intros x Hx. destruct (grid_bound c p x G (slab_perm_in _ _ _ _ _ _ _ M Hx)) as (H1 & _ & H2). apply (agree_sub m m' p 4096); [exact Ha|lia|lia]. }
  destruct M as [M1 M2 M3 M4 M5 M6]. split; [exact M1| | |exact M4|exact M5|exact M6].
  - apply (chain_agree _ m); [|exact M2]. intros x Hi. apply Hx. set_solver.
  - apply (chain_agree _ m); [|exact M3]. intros x Hi. apply Hx. set_solver.
Qed.

Lemma missing_other hole p : p <> hole -> missing hole p = 0.
Proof. intros H. unfold missing. now rewrite decide_False. Qed.

Lemma missing_here p : missing p p = 1.
Proof. unfold missing. now rewrite decide_True. Qed.

(** A page differs from another. *)
Lemma pages_apart p q : p mod 4096 = 0 -> q mod 4096 = 0 -> p <> q -> p + 4096 <= q \/ q + 4096 <= p.
Proof. intros H1 H2 Hne. dlia. Qed.

Lemma geom_same c c' : layout_of c' = layout_of c -> geom_ok c -> geom_ok c'.
Proof. intros [= E1 E2 E3 E4] [G1 G2 G3 G4 G5]. split; congruence. Qed.

Lemma slab_geom m c c' p s v d : layout_of c' = layout_of c -> slab_mem m c p s v d -> slab_mem m c' p s v d.
Proof. intros [= E1 E2 E3 E4] [M1 M2 M3 M4 M5 M6]. split; try assumption; [|congruence]. rewrite M4. unfold grid. now rewrite E1, E2, E3. Qed.

Section Alloc.
Context {PS : Type} `{PSI : !PageSource PS} `{PSL : !PageSourceOk PS}.
Implicit Types (st : slub PS) (V : gmap Z view) (H : gmap Z Z).

Lemma slab_at_ok (st : slub PS) p s : s_slabs st !! p = Some s -> slab_at st p = Ok s.
Proof. unfold slab_at. now intros ->. Qed.

Lemma cache_at_ok (st : slub PS) a c : s_caches st !! a = Some c -> cache_at st a = Ok c.
Proof. unfold cache_at. now intros ->. Qed.

Lemma upd_slab_ok (st : slub PS) f p s : s_slabs st !! p = Some s -> upd_slab f p st = Ok (Slub (s_arena st) (<[p := f s]> (s_slabs st)) (s_caches st)).
Proof. intros H. unfold upd_slab. now rewrite (slab_at_ok _ _ _ H). Qed.

Lemma upd_cache_ok (st : slub PS) f a c : s_caches st !! a = Some c -> upd_cache f a st = Ok (Slub (s_arena st) (s_slabs st) (<[a := f c]> (s_caches st))).
Proof. intros H. unfold upd_cache. now rewrite (cache_at_ok _ _ _ H). Qed.

(** * Facts of the invariant *)

Section Facts.
Context {hole : Z} {st : slub PS} {V : gmap Z view} {H : gmap Z Z} (I : heap_inv hole st V H).

Lemma inv_page p s : s_slabs st !! p = Some s -> range_ok p 1.
Proof using I. intros Hp. exact (ps_range _ _ _ _ (ar_src _ _ (hi_arena _ _ _ _ I)) (hi_page _ _ _ _ I p s Hp)). Qed.

Lemma inv_view p s : s_slabs st !! p = Some s -> exists v c, V !! p = Some v /\ s_caches st !! su_cache s = Some c /\ geom_ok c /\ slab_mem (a_mem (s_arena st)) c p s v (missing hole p).
Proof using I.
  intros Hp. destruct (V !! p) as [v|] eqn:Ev; [|apply (hi_dom _ _ _ _ I) in Ev; congruence]. destruct (hi_slab _ _ _ _ I p s v Hp Ev) as (c & Hc & M).
  exists v, c. split; [reflexivity|]. split; [exact Hc|]. split; [apply (hi_geom _ _ _ _ I _ _ Hc)|exact M].
Qed.

Lemma inv_apart p s q t : s_slabs st !! p = Some s -> s_slabs st !! q = Some t -> p <> q -> p + 4096 <= q \/ q + 4096 <= p.
Proof using I. intros Hp Hq Hne. destruct (inv_page p s Hp) as (_ & H1 & _), (inv_page q t Hq) as (_ & H2 & _). now apply pages_apart. Qed.

(** An object of the grid can be read and written. *)
Lemma inv_inside p s c x : s_slabs st !! p = Some s -> geom_ok c -> x ∈ grid c p -> inside H x.
Proof using I.
  intros Hp G Hx. destruct (grid_bound c p x G Hx) as (H1 & _ & H2). exists p, 1. split; [exact (hi_page _ _ _ _ I p s Hp)|]. lia.
Qed.

Lemma inv_addr p s c x : s_slabs st !! p = Some s -> geom_ok c -> x ∈ grid c p -> 0 < x < 2 ^ 64 /\ slub_page_of x = p.
Proof using I.
  intros Hp G Hx. destruct (grid_bound c p x G Hx) as (H1 & _ & H2). destruct (inv_page p s Hp) as (H3 & H4 & _ & H5). split; [lia|]. apply page_of_in; lia.
Qed.
End Facts.

(** * Updates of the memory part *)

(** One slab changes, and memory inside of its page. *)
Lemma heap_upd hole hole' st V H p s v s' v' m' : heap_inv hole st V H -> s_slabs st !! p = Some s -> V !! p = Some v -> su_cache s' = su_cache s ->
  arena_ok (with_mem (s_arena st) m') H -> (forall q t, s_slabs st !! q = Some t -> q <> p -> agree (a_mem (s_arena st)) m' q 4096 /\ missing hole' q = missing hole q) ->
  (forall c, s_caches st !! su_cache s = Some c -> geom_ok c -> slab_mem (a_mem (s_arena st)) c p s v (missing hole p) -> slab_mem m' c p s' v' (missing hole' p)) ->
  heap_inv hole' (Slub (with_mem (s_arena st) m') (<[p := s']> (s_slabs st)) (s_caches st)) (<[p := v']> V) H.
Proof.
  intros I Hp Hv Ec HA Hq Hs. split; cbn [s_arena s_slabs s_caches].
  - exact HA.
  - intros q. destruct (decide (p = q)) as [<-|Hne]; [rewrite !lookup_insert_eq; easy|rewrite !lookup_insert_ne by exact Hne; apply I].
  - intros q t Ht. upd_cases Ht; [exact (hi_page _ _ _ _ I p s Hp)|exact (hi_page _ _ _ _ I q t Ht)].
  - intros q t w Ht Hw. upd_cases Ht.
    + rewrite lookup_insert_eq in Hw. injection Hw as <-. destruct (hi_slab _ _ _ _ I p s v Hp Hv) as (c & Hc & M). exists c. rewrite Ec. split; [exact Hc|].
      apply Hs; [exact Hc|apply (hi_geom _ _ _ _ I _ _ Hc)|exact M].
    + rewrite lookup_insert_ne in Hw by assumption. destruct (hi_slab _ _ _ _ I q t w Ht Hw) as (c & Hc & M). exists c. split; [exact Hc|].
      destruct (Hq q t Ht ltac:(congruence)) as [Ha ->]. apply (slab_agree (a_mem (s_arena st))); [apply (hi_geom _ _ _ _ I _ _ Hc)|exact M|exact Ha].
  - apply I.
Qed.

(** The header changes and memory does not. *)
Lemma heap_header hole hole' st V H p s v s' v' : heap_inv hole st V H -> s_slabs st !! p = Some s -> V !! p = Some v -> su_cache s' = su_cache s ->
  (forall q, q <> p -> is_Some (s_slabs st !! q) -> missing hole' q = missing hole q) ->
  (forall c, s_caches st !! su_cache s = Some c -> geom_ok c -> slab_mem (a_mem (s_arena st)) c p s v (missing hole p) -> slab_mem (a_mem (s_arena st)) c p s' v' (missing hole' p)) ->
  heap_inv hole' (Slub (s_arena st) (<[p := s']> (s_slabs st)) (s_caches st)) (<[p := v']> V) H.
Proof.
  intros I Hp Hv Ec Hq Hs. replace (s_arena st) with (with_mem (s_arena st) (a_mem (s_arena st))) by now destruct (s_arena st).
  apply (heap_upd hole hole' st V H p s v); [exact I|exact Hp|exact Hv|exact Ec| | |exact Hs].
  - replace (with_mem (s_arena st) (a_mem (s_arena st))) with (s_arena st) by now destruct (s_arena st). apply I.
  - intros q t Ht Hne. split; [apply agree_refl|]. apply Hq; [exact Hne|eauto].
Qed.

(** Links and owner of a slab. *)
Lemma heap_links hole st V H p s s' : heap_inv hole st V H -> s_slabs st !! p = Some s ->
  (su_magic s', su_cache s', su_freelist s', su_foreign s', su_inuse s', su_objects s') = (su_magic s, su_cache s, su_freelist s, su_foreign s, su_inuse s, su_objects s) ->
  heap_inv hole (Slub (s_arena st) (<[p := s']> (s_slabs st)) (s_caches st)) V H.
Proof.
  intros I Hp [= E1 E2 E3 E4 E5 E6]. destruct (inv_view I p s Hp) as (v & _ & Hv & _). rewrite <- (insert_id V p v Hv).
  apply (heap_header hole hole st V H p s v); [exact I|exact Hp|exact Hv|exact E2|reflexivity|]. intros c _ _ [M1 M2 M3 M4 M5 M6]. split; congruence.
Qed.

Lemma heap_cache hole st V H a c c' : heap_inv hole st V H -> s_caches st !! a = Some c -> layout_of c' = layout_of c ->
  heap_inv hole (Slub (s_arena st) (s_slabs st) (<[a := c']> (s_caches st))) V H.
Proof.
  intros I Ha Eg. split; cbn [s_arena s_slabs s_caches]; [apply I..| |].
  - intros p s v Hp Hv. destruct (hi_slab _ _ _ _ I p s v Hp Hv) as (k & Hk & M). destruct (decide (a = su_cache s)) as [E|Hne].
    + exists c'. rewrite <- E, lookup_insert_eq in *. split; [reflexivity|]. rewrite Ha in Hk. injection Hk as <-. now apply (slab_geom _ c).
    + exists k. now rewrite lookup_insert_ne.
  - intros b k Hb. upd_cases Hb; [|exact (hi_geom _ _ _ _ I b k Hb)]. destruct (hi_geom _ _ _ _ I a c Ha). split; [now apply (geom_same c)|assumption].
Qed.

(** * Frames *)

Lemma live_size (C C' : gmap Z kmem_cache) a c : (forall b, layout_of <$> C' !! b = layout_of <$> C !! b) -> C !! a = Some c -> exists c', C' !! a = Some c' /\ kc_obj_size c = kc_obj_size c'.
Proof. intros HC Ha. destruct (fmap_lookup layout_of C C' a c (HC a) Ha) as (c' & H1 & [= H2 _ _ _]). eauto. Qed.

Lemma frame_upd X Y st V H p s v s' v' m' C' : s_slabs st !! p = Some s -> V !! p = Some v -> su_cache s' = su_cache s -> (forall b, layout_of <$> C' !! b = layout_of <$> s_caches st !! b) ->
  (forall x, x ∈ v_live v -> x ∉ X -> x ∈ v_live v') -> (forall x, x ∈ v_live v' -> (x ∈ v_live v /\ x ∉ X) \/ x ∈ Y) ->
  (forall q w x, q <> p -> V !! q = Some w -> x ∈ v_live w -> x ∉ X) ->
  (forall x n, live_obj st V x n -> x ∉ X -> agree (a_mem (s_arena st)) m' x n) ->
  (forall q n, H !! q = Some n -> s_slabs st !! q = None -> agree (a_mem (s_arena st)) m' q (n * 4096)) ->
  frame X Y st V H (Slub (with_mem (s_arena st) m') (<[p := s']> (s_slabs st)) C') (<[p := v']> V) H.
Proof.
  intros Hp Hv Ec HC L1 L2 LX Ha Ho. split; cbn [s_arena s_slabs s_caches with_mem a_mem].
  - intros x n Hx HX. split; [|now apply Ha]. destruct Hx as (q & t & w & c & Hq & Hw & Hc & Hx & ->). destruct (live_size _ C' _ _ HC Hc) as (c' & Hc' & En). destruct (decide (p = q)) as [<-|Hne].
    + exists p, s', v', c'. cbn. rewrite !lookup_insert_eq. rewrite Hp in Hq. injection Hq as <-. rewrite Hv in Hw. injection Hw as <-. rewrite Ec. split_and!; auto.
    + exists q, t, w, c'. cbn. rewrite !lookup_insert_ne by exact Hne. split_and!; auto.
  - intros x n (q & t & w & c & Hq & Hw & Hc & Hx & ->). cbn in *. destruct (live_size C' (s_caches st) _ _ (fun b => eq_sym (HC b)) Hc) as (c' & Hc' & En). upd_cases Hq.
    + rewrite lookup_insert_eq in Hw. injection Hw as <-. destruct (L2 x Hx) as [[Hl Hn]|]; [|now right]. left. split; [|exact Hn]. exists p, s, v, c'. rewrite <- Ec. split_and!; auto.
    + rewrite lookup_insert_ne in Hw by assumption. left. split; [exists q, t, w, c'; split_and!; auto|]. apply (LX q w x); [congruence|exact Hw|exact Hx].
  - intros q n Hq Hs. split; [exact Hq|]. assert (p <> q) by congruence. rewrite lookup_insert_ne by assumption. split; [exact Hs|]. now apply Ho.
  - intros q n Hq Hs. split; [exact Hq|]. destruct (decide (p = q)) as [<-|Hne]; [rewrite lookup_insert_eq in Hs; easy|now rewrite lookup_insert_ne in Hs].
  - exact HC.
Qed.

(** Only headers change. *)
Lemma frame_header Y st V H p s v s' v' C' : s_slabs st !! p = Some s -> V !! p = Some v -> su_cache s' = su_cache s -> (forall b, layout_of <$> C' !! b = layout_of <$> s_caches st !! b) ->
  (forall x, x ∈ v_live v -> x ∈ v_live v') -> (forall x, x ∈ v_live v' -> x ∈ v_live v \/ x ∈ Y) ->
  frame [] Y st V H (Slub (s_arena st) (<[p := s']> (s_slabs st)) C') (<[p := v']> V) H.
Proof.
  intros Hp Hv Ec HC L1 L2. replace (s_arena st) with (with_mem (s_arena st) (a_mem (s_arena st))) by now destruct (s_arena st).
  apply (frame_upd [] Y st V H p s v); [exact Hp|exact Hv|exact Ec|exact HC|auto| | | |].
  - intros x Hx. destruct (L2 x Hx); [left; split; [assumption|apply not_elem_of_nil]|now right].
  - intros. apply not_elem_of_nil.
  - intros. apply agree_refl.
  - intros. apply agree_refl.
Qed.

Lemma frame_links st V H p s s' C' : s_slabs st !! p = Some s -> is_Some (V !! p) -> su_cache s' = su_cache s -> (forall b, layout_of <$> C' !! b = layout_of <$> s_caches st !! b) ->
  frame [] [] st V H (Slub (s_arena st) (<[p := s']> (s_slabs st)) C') V H.
Proof. intros Hp [v Hv] Ec HC. rewrite <- (insert_id V p v Hv) at 2. now apply (frame_header [] st V H p s v); auto. Qed.

Lemma frame_cache st V H C' : (forall b, layout_of <$> C' !! b = layout_of <$> s_caches st !! b) -> frame [] [] st V H (Slub (s_arena st) (s_slabs st) C') V H.
Proof.
  intros HC. split; cbn [s_arena s_slabs s_caches].
  - intros x n (q & t & w & c & Hq & Hw & Hc & Hx & ->) _. destruct (live_size _ C' _ _ HC Hc) as (c' & Hc' & En). split; [exists q, t, w, c'; cbn; split_and!; auto|apply agree_refl].
  - intros x n (q & t & w & c & Hq & Hw & Hc & Hx & ->). cbn in *. destruct (live_size C' (s_caches st) _ _ (fun b => eq_sym (HC b)) Hc) as (c' & Hc' & En).
    left. split; [exists q, t, w, c'; split_and!; auto|apply not_elem_of_nil].
  - intros q n Hq Hs. split; [exact Hq|]. split; [exact Hs|apply agree_refl].
  - auto.
  - exact HC.
Qed.

Lemma size_insert (C : gmap Z kmem_cache) a c c' : C !! a = Some c -> layout_of c' = layout_of c -> forall b, layout_of <$> <[a := c']> C !! b = layout_of <$> C !! b.
Proof. intros Ha E b. now apply (fmap_insert_same layout_of C a c). Qed.

(** * Taking an object *)

Lemma pop_ok st V H p s v : heap_inv 0 st V H -> s_slabs st !! p = Some s -> V !! p = Some v ->
  (v_free v = [] /\ slub_stack_pop st p = Ok (0, st)) \/
  exists o fl n, v_free v = o :: fl /\ let st' := Slub (s_arena st) (<[p := su_with_freelist n s]> (s_slabs st)) (s_caches st) in
    let V' := <[p := View fl (v_foreign v) (o :: v_live v)]> V in
    slub_stack_pop st p = Ok (o, st') /\ heap_inv p st' V' H /\ frame [] [o] st V H st' V' H.
Proof.
  intros I Hp Hv. destruct (inv_view I p s Hp) as (v0 & c & Hv0 & Hc & G & M). rewrite Hv in Hv0. injection Hv0 as <-.
  pose proof (inv_page I p s Hp) as (Hp0 & _). rewrite missing_other in M by lia. unfold slub_stack_pop. rewrite (slab_at_ok _ _ _ Hp). cbn [bind].
  pose proof (sm_free _ _ _ _ _ _ M) as Hch. destruct (v_free v) as [|o fl] eqn:Ef.
  - left. split; [reflexivity|]. cbn in Hch. now rewrite Hch.
  - right. destruct Hch as (Eo & Ho & w & Hw & Hch). exists o, fl, w. split; [reflexivity|]. cbv zeta. rewrite Eo, (proj2 (Z.eqb_neq _ _) Ho).
    unfold ld_link. rewrite Hw. cbn [bind]. rewrite (upd_slab_ok _ _ _ _ Hp). cbn [bind]. split; [reflexivity|]. split.
    + apply (heap_header 0 p st V H p s v); [exact I|exact Hp|exact Hv|reflexivity|intros q Hq [t Ht]; pose proof (inv_page I q t Ht) as (? & _); now rewrite !missing_other by lia|].
      intros c0 _ _ [M1 M2 M3 M4 M5 M6]. rewrite missing_here. split; cbn [v_free v_foreign v_live su_with_freelist su_magic su_freelist su_foreign su_inuse su_objects]; [exact M1|exact Hch|exact M3| | |exact M6].
      * rewrite <- M4, Ef. cbn [app]. rewrite <- Permutation_middle, app_assoc, <- Permutation_middle, <- app_assoc. reflexivity.
      * rewrite missing_other in M5 by lia. cbn [length]. lia.
    + apply (frame_header [o] st V H p s v); [exact Hp|exact Hv|reflexivity|reflexivity| |]; cbn; set_solver.
Qed.

(** The object is counted. *)
Lemma count_ok strict ex st V H p s v a c o : heap_inv p st V H -> links_ok strict ex (s_slabs st) (s_caches st) -> ex = 0 \/ ex = p -> s_slabs st !! p = Some s -> V !! p = Some v -> s_caches st !! a = Some c ->
  slub_page_of o = p -> o ∈ v_live v -> (strict = true -> su_owner s <> -1) -> (su_on_partial s = true -> v_free v <> []) ->
  exists st', count_alloc st a o = Ok st' /\ slub_inv strict st' V H /\ frame [] [] st V H st' V H /\
    s_slabs st' = <[p := su_with_inuse (su_inuse s + 1) s]> (s_slabs st) /\ s_arena st' = s_arena st /\ s_caches st' = <[a := kc_with_allocs (u64 (kc_allocs c + 1)) c]> (s_caches st).
Proof.
  intros I L Hex Hp Hv Ha Hpo Hin Hown Hroom. destruct (inv_view I p s Hp) as (v0 & k & Hv0 & Hk & G & M). rewrite Hv in Hv0. injection Hv0 as <-. rewrite missing_here in M.
  pose proof (inv_page I p s Hp) as (Hp0 & _). pose proof (slab_count _ _ _ _ _ _ G M) as Hn. pose proof (sm_objects _ _ _ _ _ _ M) as Eo. pose proof (sm_inuse _ _ _ _ _ _ M) as Ei. pose proof (geom_objs _ G).
  assert (Hu : u32 (su_inuse s + 1) = su_inuse s + 1) by (apply Z.mod_small; lia).
  unfold count_alloc. rewrite Hpo, (upd_slab_ok _ _ _ _ Hp). cbn [bind]. rewrite Hu. erewrite upd_cache_ok by exact Ha. eexists. split; [reflexivity|]. cbn [s_slabs s_arena s_caches].
  assert (I1 : heap_inv 0 (Slub (s_arena st) (<[p := su_with_inuse (su_inuse s + 1) s]> (s_slabs st)) (s_caches st)) V H).
  { rewrite <- (insert_id V p v Hv). apply (heap_header p 0 st V H p s v); [exact I|exact Hp|exact Hv|reflexivity|intros q Hq [t Ht]; pose proof (inv_page I q t Ht) as (? & _); now rewrite !missing_other by lia|].
    intros c0 _ _ [M1 M2 M3 M4 M5 M6]. rewrite missing_here in M5. rewrite missing_other by lia. split; try assumption. cbn. lia. }
  split; [split|split; [|auto]].
  - exact (heap_cache 0 _ V H a c (kc_with_allocs (u64 (kc_allocs c + 1)) c) I1 Ha eq_refl).
  - apply (links_cache strict 0 _ (s_caches st) a c); [|exact Ha|reflexivity|reflexivity]. apply (links_count strict ex 0 _ _ p s); [exact L|exact Hp|reflexivity|reflexivity|destruct Hex; auto|].
    intros _. split; cbn; [intros _; destruct (v_live v); [now apply not_elem_of_nil in Hin|cbn in Ei; lia]| |].
    { intros Hl. specialize (Hroom Hl). destruct (v_free v); [contradiction|]. cbn in Hn. lia. }
    intros Hst Ho. exfalso. now apply Hown.
  - eapply (frame_trans [] [] [] []); [apply (frame_links st V H p s (su_with_inuse (su_inuse s + 1) s) (s_caches st)); [exact Hp|eauto|reflexivity|reflexivity]|].
    apply (frame_cache (Slub (s_arena st) _ (s_caches st))). now apply (size_insert _ a c).
Qed.

(** * The tail of a chain *)

Lemma tail_ok (A : arena PS) f l : chain raw (a_mem A) f l -> l <> [] -> (length l < 4096)%nat ->
  exists l0 t, l = l0 ++ [t] /\ loop (Z.to_nat PAGE_SIZE) (fun tail => let* next := ld_link A tail in if next =? 0 then Ok (inr tail) else Ok (inl next)) f = Ok t.
Proof.
  intros Hc Hne Hl. assert (E : exists l0 t, l = l0 ++ [t]) by (destruct (exists_last Hne) as (l0 & t & E); eauto). destruct E as (l0 & t & El). exists l0, t. split; [exact El|].
  apply wp_eq. apply (wp_loop_on (fun g x => chain raw (a_mem A) x g /\ g <> [] /\ last g = Some t) length) with (g := l).
  - intros g x (Hg & Hg0 & Hlast). destruct g as [|y g]; [contradiction|]. destruct Hg as (-> & Hy & w & Hw & Hg). unfold ld_link. rewrite Hw. cbn [bind].
    destruct (w =? 0) eqn:Ew; to_prop; cbn [wp].
    + subst w. unfold raw in Hg. apply chain_nil in Hg as ->. cbn in Hlast. congruence.
    + exists g. assert (Hg1 : g <> []) by (intros ->; cbn in Hg; unfold raw in Hg; contradiction). split; [|cbn; lia]. split; [exact Hg|]. split; [exact Hg1|]. destruct g; [contradiction|exact Hlast].
  - split; [exact Hc|]. split; [exact Hne|]. rewrite El. apply last_snoc.
  - unfold PAGE_SIZE. lia.
Qed.

Lemma chain_append m f l t h k : chain raw m f (l ++ [t]) -> chain raw m h k -> 0 <= h < 2 ^ 64 -> (forall x, x ∈ l ++ k -> x + 8 <= t \/ t + 8 <= x) ->
  chain raw (write m t (bytes_le 8 h)) f (l ++ t :: k).
Proof.
  revert f. induction l as [|x l IH]; intros f Hc Hk Hh Hd.
  - destruct Hc as (-> & Ht & _). cbn [app]. apply chain_push; [exact Hk|exact Hh|exact Ht|]. intros y Hy. apply Hd. exact Hy.
  - destruct Hc as (-> & Hx & w & Hw & Hc). split; [reflexivity|]. split; [exact Hx|]. exists w. rewrite (ld_agree m); [|apply agree_write; rewrite bytes_le_length; destruct (Hd x ltac:(left)); lia].
    split; [exact Hw|]. apply IH; [exact Hc|exact Hk|exact Hh|]. intros y Hy. apply Hd. now right.
Qed.
End Alloc.

(** Object caches: objects freed elsewhere come back, slabs are cut into objects,
    and a CPU gets a slab. *)

Section Refill.
Context {PS : Type} `{PSI : !PageSource PS} `{PSL : !PageSourceOk PS}.
Implicit Types (st : slub PS) (V : gmap Z view) (H : gmap Z Z).

(** * A link is written into an object *)

Lemma obj_write hole st V H p s c x w : heap_inv hole st V H -> s_slabs st !! p = Some s -> s_caches st !! su_cache s = Some c -> x ∈ grid c p ->
  let m := a_mem (s_arena st) in let m' := write m x (bytes_le 8 w) in
  st_link (s_arena st) x w = Ok (with_mem (s_arena st) m') /\ arena_ok (with_mem (s_arena st) m') H /\
  (forall q t, s_slabs st !! q = Some t -> q <> p -> agree m m' q 4096) /\
  (forall y n, live_obj st V y n -> y <> x -> agree m m' y n) /\
  (forall q n, H !! q = Some n -> s_slabs st !! q = None -> agree m m' q (n * 4096)).
Proof.
  intros I Hp Hc Hx m m'. pose proof (hi_geom _ _ _ _ I _ _ Hc) as [G _]. destruct (grid_bound c p x G Hx) as (B1 & B2 & B3). split; [|split; [|split; [|split]]].
  - apply (st_link_ok _ H); [apply I|]. exact (inv_inside I p s c x Hp G Hx).
  - apply arena_write; [apply I|apply bytes_le_bytes].
  - intros q t Hq Hne. apply agree_write. rewrite bytes_le_length. destruct (inv_apart I p s q t Hp Hq ltac:(congruence)); lia.
  - intros y n (q & t & v & k & Hq & Hv & Hk & Hy & ->) Hne. apply agree_write. rewrite bytes_le_length. destruct (inv_view I q t Hq) as (v' & k' & Hv' & Hk' & G' & M').
    rewrite Hv in Hv'. injection Hv' as <-. rewrite Hk in Hk'. injection Hk' as <-. assert (Hyg : y ∈ grid k q) by exact (live_grid _ _ _ _ _ _ _ M' Hy).
    destruct (grid_bound k q y G' Hyg) as (D1 & D2 & _). destruct (decide (p = q)) as [<-|Hpq].
    + rewrite Hp in Hq. injection Hq as <-. rewrite Hc in Hk. injection Hk as <-. pose proof (ge_size _ G). destruct (grid_apart c p x y G Hx Hyg ltac:(congruence)); lia.
    + destruct (inv_apart I p s q t Hp Hq Hpq); lia.
  - intros q n Hq Hs. apply agree_write. rewrite bytes_le_length. assert (p <> q) by congruence.
    pose proof (ps_apart _ _ p 1 q n (ar_src _ _ (hi_arena _ _ _ _ I)) (hi_page _ _ _ _ I p s Hp) Hq ltac:(assumption)) as D. unfold disjoint_ranges in D. lia.
Qed.

(** * Harvesting *)

(** A header that differs in its free lists only. *)
Definition same_but_free (s s' : slub_slab_t) : Prop :=
  (su_magic s', su_cache s', su_partial_next s', su_inuse s', su_objects s', su_owner s', su_on_partial s') =
  (su_magic s, su_cache s, su_partial_next s, su_inuse s, su_objects s, su_owner s, su_on_partial s).

Lemma head_bound hole st V H p s c v h l : heap_inv hole st V H -> s_slabs st !! p = Some s -> geom_ok c -> slab_mem (a_mem (s_arena st)) c p s v (missing hole p) ->
  chain raw (a_mem (s_arena st)) h l -> (forall x, x ∈ l -> x ∈ grid c p) -> 0 <= h < 2 ^ 64.
Proof.
  intros I Hp G M Hc Hl. destruct l as [|x l]; [cbn in Hc; lia|]. destruct Hc as (-> & _). destruct (inv_addr I p s c x Hp G (Hl x ltac:(left))) as [? _]. lia.
Qed.

Lemma harvest_ok st V H p s v : heap_inv 0 st V H -> s_slabs st !! p = Some s -> V !! p = Some v ->
  exists s' m', let st' := Slub (with_mem (s_arena st) m') (<[p := s']> (s_slabs st)) (s_caches st) in let V' := <[p := View (v_foreign v ++ v_free v) [] (v_live v)]> V in
    harvest st p = Ok st' /\ same_but_free s s' /\ heap_inv 0 st' V' H /\ frame [] [] st V H st' V' H.
Proof.
  intros I Hp Hv. destruct (inv_view I p s Hp) as (v0 & c & Hv0 & Hc & G & M). rewrite Hv in Hv0. injection Hv0 as <-. pose proof (slab_NoDup _ _ _ _ _ _ G M) as Hnd.
  pose proof (slab_count _ _ _ _ _ _ G M) as Hcnt. rewrite (sm_objects _ _ _ _ _ _ M) in Hcnt. pose proof (geom_objs _ G) as [Hob _].
  unfold harvest. rewrite (slab_at_ok _ _ _ Hp). cbn [bind]. rewrite (upd_slab_ok _ _ _ _ Hp). cbn [bind s_arena s_slabs s_caches].
  pose proof (sm_foreign _ _ _ _ _ _ M) as Hff. pose proof (sm_free _ _ _ _ _ _ M) as Hfl. destruct (su_foreign s =? 0) eqn:E0; to_prop.
  - rewrite E0 in Hff. apply chain_nil in Hff as Ev. exists (su_with_foreign 0 s), (a_mem (s_arena st)). cbv zeta. replace (with_mem (s_arena st) (a_mem (s_arena st))) with (s_arena st) by now destruct (s_arena st).
    split; [reflexivity|]. split; [reflexivity|]. split.
    + apply (heap_header 0 0 st V H p s v); [exact I|exact Hp|exact Hv|reflexivity|reflexivity|]. intros c0 _ _ [M1 M2 M3 M4 M5 M6]. rewrite Ev in *. split; first [assumption|reflexivity].
    + apply (frame_header [] st V H p s v); [exact Hp|exact Hv|reflexivity|reflexivity|auto|auto].
  - destruct (tail_ok (s_arena st) (su_foreign s) (v_foreign v)) as (l0 & t & El & Et); [exact Hff|intros E; rewrite E in Hff; contradiction|lia|]. rewrite Et. cbn [bind].
    assert (Hin : forall y, y ∈ v_foreign v -> y ∈ grid c p) by (intros y; exact (foreign_grid _ _ _ _ _ _ y M)).
    assert (Htg : t ∈ grid c p) by (apply Hin; rewrite El; apply elem_of_app; right; left).
    destruct (obj_write 0 st V H p s c t (su_freelist s) I Hp Hc Htg) as (W1 & W2 & W3 & W4 & W5).
    cbn [s_arena s_slabs s_caches with_arena]. rewrite W1. cbn [bind]. erewrite upd_slab_ok by (cbn; apply lookup_insert_eq). cbn [with_arena s_arena s_slabs s_caches]. rewrite insert_insert_eq.
    eexists _, _. split; [reflexivity|]. split; [reflexivity|]. split.
    + eapply (heap_upd 0 0 st V H p s v); [exact I|exact Hp|exact Hv|reflexivity|exact W2|intros q u Hq Hne; split; [exact (W3 q u Hq Hne)|reflexivity]|].
      intros c0 Hc0 _ _. rewrite Hc in Hc0. injection Hc0 as <-. split; cbn.
      * exact (sm_magic _ _ _ _ _ _ M).
      * rewrite El, <- app_assoc. cbn [app]. rewrite El in Hff. apply chain_append; [exact Hff|exact Hfl| |].
        -- apply (head_bound 0 st V H p s c v _ _ I Hp G M Hfl). intros x. exact (free_grid _ _ _ _ _ _ x M).
        -- intros x Hx. pose proof (ge_size _ G). assert (Hxg : x ∈ grid c p) by (apply elem_of_app in Hx as [Hx|Hx]; [apply Hin; rewrite El; apply elem_of_app; now left|exact (free_grid _ _ _ _ _ _ x M Hx)]).
           destruct (grid_apart c p x t G Hxg Htg) as [|]; [|lia..].
           intros ->. rewrite El in Hnd. apply NoDup_app in Hnd as (_ & Hd & Hnd). apply elem_of_app in Hx as [Hx|Hx].
           ++ rewrite <- app_assoc in Hnd. apply NoDup_app in Hnd as (_ & Hd' & _). apply (Hd' t Hx). left.
           ++ apply (Hd t Hx). rewrite !elem_of_app. left. right. left.
      * reflexivity.
      * rewrite <- (sm_perm _ _ _ _ _ _ M). cbn [app]. rewrite !app_assoc. apply Permutation_app_tail, Permutation_app_comm.
      * exact (sm_inuse _ _ _ _ _ _ M).
      * exact (sm_objects _ _ _ _ _ _ M).
    + eapply (frame_upd [] [] st V H p s v); [exact Hp|exact Hv|reflexivity|reflexivity|auto|intros x Hx; left; split; [exact Hx|apply not_elem_of_nil]|intros; apply not_elem_of_nil| |exact W5].
      intros x n Hx _. apply (W4 x n Hx). intros ->. destruct Hx as (q & u & w & k & Hq & Hw & Hk & Hx & _). destruct (inv_view I q u Hq) as (w' & k' & Hw' & Hk' & G' & M').
      rewrite Hw in Hw'. injection Hw' as <-. assert (Hqg : t ∈ grid k' q) by exact (live_grid _ _ _ _ _ _ _ M' Hx).
      destruct (inv_addr I q u k' t Hq G' Hqg) as [_ E1], (inv_addr I p s c t Hp G Htg) as [_ E2]. assert (Eq : q = p) by congruence. rewrite Eq, Hv in Hw. injection Hw as <-.
      apply NoDup_app in Hnd as (_ & _ & Hnd). apply NoDup_app in Hnd as (_ & Hd & _). apply (Hd t); [rewrite El; apply elem_of_app; right; left|exact Hx].
Qed.

(** * A new slab *)

Lemma grid_prefix c p (i : nat) : geom_ok c -> Z.of_nat i < kc_objs c -> take (S i) (grid c p) = take i (grid c p) ++ [p + kc_area_off c + Z.of_nat i * kc_obj_size c].
Proof.
  intros G Hi. apply take_S_r. unfold grid. rewrite list_lookup_fmap, lookup_seqZ_lt by lia. cbn. do 2 f_equal.
Qed.

(** The state of the loop after [i] objects. *)
Definition carved (c : kmem_cache) (p : Z) (A0 : arena PS) (H : gmap Z Z) (i : nat) (x : arena PS * Z * Z * Z) : Prop :=
  let '(A, off, head, n) := x in
  off = kc_area_off c + Z.of_nat i * kc_obj_size c /\ n = Z.of_nat i /\ Z.of_nat i <= kc_objs c /\ arena_ok A H /\ a_vm A = a_vm A0 /\
  chain raw (a_mem A) head (rev (take i (grid c p))) /\ (forall b k, p + 4096 <= b \/ b + k <= p -> agree (a_mem A0) (a_mem A) b k).

Lemma carve_step c p A0 H i x : geom_ok c -> range_ok p 1 -> H !! p = Some 1 -> carved c p A0 H i x ->
  wp (let '(A, off, head, n) := x in
      if u32 (off + kc_obj_size c) <=? PAGE_SIZE then let* A := st_link A (p + off) head in Ok (inl (A, u32 (off + kc_obj_size c), p + off, u32 (n + 1))) else Ok (inr (A, head, n)))
    (fun r => match r with
              | inl y => carved c p A0 H (S i) y /\ Z.of_nat i < kc_objs c
              | inr (A, head, n) => n = kc_objs c /\ carved c p A0 H (Z.to_nat (kc_objs c)) (A, kc_area_off c + kc_objs c * kc_obj_size c, head, n)
              end).
Proof.
  destruct x as [[[A off] head] n]. intros G (P1 & P2 & _ & P3) HH (-> & -> & Hi & HA & Evm & Hch & Hag). pose proof (geom_objs _ G) as [Ho Hf]. pose proof (ge_size _ G). pose proof (ge_off _ G). pose proof (ge_fit _ G). unfold sizeof_slub_slab in *.
  assert (Hu : u32 (kc_area_off c + Z.of_nat i * kc_obj_size c + kc_obj_size c) = kc_area_off c + Z.of_nat i * kc_obj_size c + kc_obj_size c) by (apply Z.mod_small; nia).
  rewrite Hu. unfold PAGE_SIZE. destruct (_ <=? 4096) eqn:E; to_prop.
  - assert (Hlt : Z.of_nat i < kc_objs c) by (rewrite (ge_objs _ G); apply Z.lt_le_trans with (Z.of_nat i + 1); [lia|]; apply Z.div_le_lower_bound; nia).
    set (x := p + (kc_area_off c + Z.of_nat i * kc_obj_size c)). assert (Hx : x ∈ grid c p) by (apply elem_of_grid; exists (Z.of_nat i); split; [lia|unfold x; lia]).
    destruct (grid_bound c p x G Hx) as (B1 & B2 & B3).
    rewrite (st_link_ok A H x head HA) by (exists p, 1; split; [exact HH|lia]). cbn [bind wp]. split; [|exact Hlt]. split; [lia|]. split; [unfold u32; rewrite Z.mod_small by lia; lia|]. split; [lia|].
    assert (Hin : forall y, y ∈ take i (grid c p) -> y ∈ grid c p /\ y <> x).
    { intros y Hy. split; [apply elem_of_take in Hy as (j & Hj & _); exact (list_elem_of_lookup_2 _ _ _ Hj)|]. intros ->. assert (Hn : NoDup (take (S i) (grid c p))) by exact (sublist_NoDup _ _ (grid_NoDup c p G) (sublist_take _ _)).
      rewrite grid_prefix in Hn by assumption. apply NoDup_app in Hn as (_ & Hd & _). apply (Hd x Hy). unfold x. replace (p + kc_area_off c + _) with (p + (kc_area_off c + Z.of_nat i * kc_obj_size c)) by lia. left. }
    split; [apply arena_write; [exact HA|apply bytes_le_bytes]|]. split; [exact Evm|]. split.
    + rewrite grid_prefix, rev_app_distr by assumption. cbn [rev app]. replace (p + kc_area_off c + Z.of_nat i * kc_obj_size c) with x by (unfold x; lia). apply chain_push; [exact Hch| |lia|].
      * destruct (rev (take i (grid c p))) as [|y l] eqn:Er; [cbn in Hch; lia|]. destruct Hch as (-> & _). assert (Hy : y ∈ take i (grid c p)) by (apply list_elem_of_In, in_rev; rewrite Er; now left).
        destruct (Hin y Hy) as [Hy' _]. destruct (grid_bound c p y G Hy'). lia.
      * intros y Hy. apply list_elem_of_In, in_rev, list_elem_of_In in Hy. destruct (Hin y Hy) as [Hy1 Hy2]. destruct (grid_apart c p y x G Hy1 Hx Hy2); lia.
    + intros b k Hb. apply agree_trans with (a_mem A); [now apply Hag|]. apply agree_write. rewrite bytes_le_length. lia.
  - cbn [wp]. assert (Ei : Z.of_nat i = kc_objs c).
    { apply Z.le_antisymm; [exact Hi|]. rewrite (ge_objs _ G). apply Z.lt_succ_r. apply Z.div_lt_upper_bound; nia. }
    split; [exact Ei|]. rewrite <- Ei, Nat2Z.id. split_and!; auto.
Qed.

Lemma carve_ok c p A0 H : geom_ok c -> range_ok p 1 -> H !! p = Some 1 -> arena_ok A0 H ->
  wp (carve c A0 p) (fun '(A, head, n) => n = kc_objs c /\ arena_ok A H /\ a_vm A = a_vm A0 /\ chain raw (a_mem A) head (rev (grid c p)) /\
    forall b k, p + 4096 <= b \/ b + k <= p -> agree (a_mem A0) (a_mem A) b k).
Proof.
  intros G Hr HH HA. pose proof (geom_objs _ G) as [Ho _]. unfold carve.
  apply (wp_loop_on (fun i => carved c p A0 H i) (fun i => Z.to_nat (kc_objs c) - i)%nat) with (g := 0%nat).
  - intros i x Hx. eapply wp_mono; [exact (carve_step c p A0 H i x G Hr HH Hx)|]. intros [y|[[A head] n]].
    + intros [Hy Hi]. exists (S i). split; [exact Hy|lia].
    + intros [-> (_ & _ & _ & HA' & Evm & Hch & Hag)]. split; [reflexivity|]. split; [exact HA'|]. split; [exact Evm|]. split; [|exact Hag].
      rewrite take_ge in Hch; [exact Hch|]. pose proof (grid_length c p G). lia.
  - split_and!; try reflexivity; [lia..|exact HA|intros; apply agree_refl].
  - unfold PAGE_SIZE. lia.
Qed.
End Refill.

(** Object caches: a slab for a CPU, and what [SLUB::Alloc] promises. *)

Section Serve.
Context {PS : Type} `{PSI : !PageSource PS} `{PSL : !PageSourceOk PS}.
Implicit Types (st : slub PS) (V : gmap Z view) (H : gmap Z Z).

(** * Free objects are not live *)

Lemma live_page hole st V H x n : heap_inv hole st V H -> live_obj st V x n -> exists p s v c, slub_page_of x = p /\ s_slabs st !! p = Some s /\ V !! p = Some v /\
  s_caches st !! su_cache s = Some c /\ geom_ok c /\ slab_mem (a_mem (s_arena st)) c p s v (missing hole p) /\ x ∈ v_live v /\ x ∈ grid c p /\ n = kc_obj_size c.
Proof.
  intros I (p & s & v & c & Hp & Hv & Hc & Hx & ->). destruct (inv_view I p s Hp) as (v' & c' & Hv' & Hc' & G & M). rewrite Hv in Hv'. injection Hv' as <-. rewrite Hc in Hc'. injection Hc' as <-.
  pose proof (live_grid _ _ _ _ _ _ _ M Hx) as Hg. destruct (inv_addr I p s c x Hp G Hg) as [_ E]. exists p, s, v, c. split_and!; auto.
Qed.

Lemma free_not_live hole st V H p s v o n : heap_inv hole st V H -> s_slabs st !! p = Some s -> V !! p = Some v -> o ∈ v_free v -> ~ live_obj st V o n.
Proof.
  intros I Hp Hv Ho Hl. destruct (live_page _ _ _ _ _ _ I Hl) as (q & t & w & c & E & Hq & Hw & Hc & G & M & Hx & Hg & _).
  destruct (inv_view I p s Hp) as (v' & c' & Hv' & Hc' & G' & M'). rewrite Hv in Hv'. injection Hv' as <-. pose proof (free_grid _ _ _ _ _ _ _ M' Ho) as Hg'.
  destruct (inv_addr I p s c' o Hp G' Hg') as [_ E']. assert (q = p) as -> by congruence. rewrite Hv in Hw. injection Hw as <-.
  pose proof (slab_NoDup _ _ _ _ _ _ G' M') as Hn. apply NoDup_app in Hn as (_ & Hd & _). apply (Hd o Ho). rewrite elem_of_app. auto.
Qed.

(** * New slabs *)

Lemma page_alloc_zero (A A' : arena PS) n : n <> 0 -> page_alloc A n = Ok (0, A') -> exists vm, ps_alloc (a_vm A) n = Ok (0, vm).
Proof.
  intros Hn. unfold page_alloc. rewrite (proj2 (Z.eqb_neq _ _) Hn). destruct (ps_alloc (a_vm A) n) as [[p vm]| |]; cbn [bind]; [|easy..]. destruct (p =? 0) eqn:E; to_prop; [subst; eauto|]. intros [= E' _]. contradiction.
Qed.

(** The supply has no page for a slab. *)
Definition out_of_pages (st : slub PS) : Prop := exists vm, ps_alloc (a_vm (s_arena st)) 1 = Ok (0, vm).

Lemma heap_new st V H p s v A' c : heap_inv 0 st V H -> H !! p = None -> p <> 0 -> arena_ok A' (<[p := 1]> H) ->
  (forall b k, p + 4096 <= b \/ b + k <= p -> agree (a_mem (s_arena st)) (a_mem A') b k) -> s_caches st !! su_cache s = Some c -> slab_mem (a_mem A') c p s v 0 ->
  heap_inv 0 (Slub A' (<[p := s]> (s_slabs st)) (s_caches st)) (<[p := v]> V) (<[p := 1]> H).
Proof.
  intros I HH Hp0 HA Hag Hc M. assert (Hr : range_ok p 1) by (apply (ps_range _ _ _ _ (ar_src _ _ HA)); apply lookup_insert_eq). split; cbn [s_arena s_slabs s_caches].
  - exact HA.
  - intros q. destruct (decide (p = q)) as [<-|Hne]; [rewrite !lookup_insert_eq; easy|rewrite !lookup_insert_ne by exact Hne; apply I].
  - intros q t Ht. upd_cases Ht; [apply lookup_insert_eq|]. rewrite lookup_insert_ne by assumption. exact (hi_page _ _ _ _ I q t Ht).
  - intros q t w Ht Hw. upd_cases Ht.
    + rewrite lookup_insert_eq in Hw. injection Hw as <-. exists c. rewrite missing_other by exact Hp0. auto.
    + rewrite lookup_insert_ne in Hw by assumption. destruct (hi_slab _ _ _ _ I q t w Ht Hw) as (k & Hk & Mq). exists k. split; [exact Hk|].
      apply (slab_agree (a_mem (s_arena st))); [apply (hi_geom _ _ _ _ I _ _ Hk)|exact Mq|]. apply Hag. destruct (inv_page I q t Ht) as (_ & A1 & _), Hr as (_ & A2 & _).
      destruct (pages_apart p q A2 A1 ltac:(assumption)); lia.
  - apply I.
Qed.

Lemma frame_new st V H p s v A' : heap_inv 0 st V H -> H !! p = None -> arena_ok A' (<[p := 1]> H) ->
  (forall b k, p + 4096 <= b \/ b + k <= p -> agree (a_mem (s_arena st)) (a_mem A') b k) -> v_live v = [] ->
  frame [] [] st V H (Slub A' (<[p := s]> (s_slabs st)) (s_caches st)) (<[p := v]> V) (<[p := 1]> H).
Proof.
  intros I HH HA Hag Hl. assert (Hsp : s_slabs st !! p = None) by (destruct (s_slabs st !! p) eqn:E; [apply (hi_page _ _ _ _ I) in E; congruence|reflexivity]).
  assert (Hr : range_ok p 1) by (apply (ps_range _ _ _ _ (ar_src _ _ HA)); apply lookup_insert_eq). split; cbn [s_arena s_slabs s_caches].
  - intros x n Hx _. pose proof Hx as Hlive. destruct Hx as (q & t & w & c & Hq & Hw & Hc & Hx & ->). assert (p <> q) by congruence. split.
    + exists q, t, w, c. cbn. rewrite !lookup_insert_ne by assumption. split_and!; auto.
    + apply Hag. destruct (live_page _ _ _ _ _ _ I Hlive) as (q' & t' & w' & c' & E & Hq' & _ & _ & G & _ & _ & Hg & En). destruct (grid_bound c' q' x G Hg) as (B1 & B2 & _). rewrite En.
      destruct (inv_page I q' t' Hq') as (_ & A1 & _), Hr as (_ & A2 & _). destruct (pages_apart p q' A2 A1 ltac:(congruence)); lia.
  - intros x n (q & t & w & c & Hq & Hw & Hc & Hx & ->). cbn in *. upd_cases Hq; [rewrite lookup_insert_eq in Hw; injection Hw as <-; rewrite Hl in Hx; now apply not_elem_of_nil in Hx|].
    rewrite lookup_insert_ne in Hw by assumption. left. split; [exists q, t, w, c; split_and!; auto|apply not_elem_of_nil].
  - intros q n Hq Hs. assert (p <> q) by congruence. rewrite !lookup_insert_ne by assumption. split; [exact Hq|]. split; [exact Hs|]. apply Hag.
    pose proof (ps_apart _ _ p 1 q n (ar_src _ _ HA) ltac:(apply lookup_insert_eq) ltac:(now rewrite lookup_insert_ne) ltac:(assumption)) as D. unfold disjoint_ranges in D. lia.
  - intros q n Hq Hs. destruct (decide (p = q)) as [<-|Hne]; [rewrite lookup_insert_eq in Hs; easy|]. rewrite lookup_insert_ne in Hq by exact Hne. rewrite lookup_insert_ne in Hs by exact Hne. auto.
  - reflexivity.
Qed.

(** A slab [p] of cache [a] that is in nobody's hands, as the next one to use. *)
Record took (strict : bool) (a p : Z) (s : slub_slab_t) (v : view) (st : slub PS) (V : gmap Z view) (H : gmap Z Z) : Prop := {
  tk_slab : s_slabs st !! p = Some s;
  tk_view : V !! p = Some v;
  tk_cache : su_cache s = a;
  tk_owner : su_owner s = -1;
  tk_listed : su_on_partial s = false;
  tk_inv : heap_inv 0 st V H;
  tk_links : links_ok strict p (s_slabs st) (s_caches st);
  tk_room : 0 < su_inuse s < su_objects s \/ v_free v <> []
}.

Lemma new_slab_ok strict st V H a c : slub_inv strict st V H -> s_caches st !! a = Some c ->
  wp (slub_new_slab st a) (fun '(p, st') =>
    (p = 0 /\ out_of_pages st /\ slub_inv strict st' V H /\ frame [] [] st V H st' V H) \/
    (p <> 0 /\ exists s v V' H', took strict a p s v st' V' H' /\ frame [] [] st V H st' V' H' /\ s_caches st' = s_caches st)).
Proof.
  intros [I L] Ha. destruct (hi_geom _ _ _ _ I a c Ha) as [G _]. unfold slub_new_slab. rewrite (cache_at_ok _ _ _ Ha). cbn [bind]. apply wp_bind.
  pose proof (page_alloc_ok (s_arena st) H 1 (hi_arena _ _ _ _ I) ltac:(lia)) as Hpa. destruct (page_alloc (s_arena st) 1) as [[p A]| |] eqn:Epa; [|easy..]. cbn [wp] in *.
  destruct Hpa as [(-> & HA & Em)|(Hp0 & HH & Hr & HA & Hd & Hag)].
  - cbn [Z.eqb wp]. left. split; [reflexivity|]. split; [exact (page_alloc_zero (s_arena st) A 1 ltac:(lia) Epa)|].
    assert (E : forall x n, live_obj (with_arena st A) V x n <-> live_obj st V x n) by reflexivity. split; [split; [|exact L]|].
    + split; cbn; [exact HA|apply I..| |apply I]. intros q t w Hq Hw. rewrite Em. exact (hi_slab _ _ _ _ I q t w Hq Hw).
    + split; cbn; rewrite ?Em; [intros x n Hx _; split; [exact Hx|apply agree_refl]|intros x n Hx; left; split; [exact Hx|apply not_elem_of_nil]| |auto|reflexivity].
      intros q n Hq Hs. split; [exact Hq|]. split; [exact Hs|apply agree_refl].
  - rewrite (proj2 (Z.eqb_neq _ _) Hp0). apply wp_bind. eapply wp_mono; [apply (carve_ok c p A (<[p := 1]> H) G Hr ltac:(apply lookup_insert_eq) HA)|].
    intros [[A' head] n] (-> & HA' & _ & Hch & Hag'). cbn [wp]. right. split; [exact Hp0|].
    assert (Hag2 : forall b k, p + 4096 <= b \/ b + k <= p -> agree (a_mem (s_arena st)) (a_mem A') b k).
    { intros b k Hb. apply agree_trans with (a_mem A); [apply Hag; lia|now apply Hag']. }
    assert (Hsp : s_slabs st !! p = None) by (destruct (s_slabs st !! p) eqn:E; [apply (hi_page _ _ _ _ I) in E; congruence|reflexivity]).
    set (s := SlubSlab SLUB_PAGE_MAGIC a 0 head 0 0 (kc_objs c) (-1) false). pose proof (geom_objs _ G) as [Ho _].
    assert (M : slab_mem (a_mem A') c p s (View (rev (grid c p)) [] []) 0).
    { split; cbn; auto. rewrite app_nil_r. symmetry. apply Permutation_rev. }
    exists s, (View (rev (grid c p)) [] []), (<[p := View (rev (grid c p)) [] []]> V), (<[p := 1]> H). split; [|split; [now apply frame_new|reflexivity]].
    split; cbn [s_slabs s_caches]; [apply lookup_insert_eq..|reflexivity|reflexivity|reflexivity|now apply (heap_new st V H p s _ A' c)|now apply links_fresh|].
    right. cbn. intros E. apply (f_equal (@length Z)) in E. rewrite length_rev in E. pose proof (grid_length c p G). cbn in E. lia.
Qed.

(** * The next slab *)

Definition same_active (c c' : kmem_cache) : Prop := kc_active c' = kc_active c /\ layout_of c' = layout_of c.

Lemma take_slab_ok strict st V H a c : slub_inv strict st V H -> s_caches st !! a = Some c ->
  wp (take_slab st a) (fun '(p, st') =>
    (p = 0 /\ out_of_pages st /\ slub_inv strict st' V H /\ frame [] [] st V H st' V H) \/
    (p <> 0 /\ exists s v V' H' c', took strict a p s v st' V' H' /\ frame [] [] st V H st' V' H' /\ s_caches st' !! a = Some c' /\ same_active c c')).
Proof.
  intros Hinv Ha. pose proof Hinv as [I L]. unfold take_slab. rewrite (cache_at_ok _ _ _ Ha). cbn [bind]. destruct (kc_partial c =? 0) eqn:E0; to_prop.
  { eapply wp_mono; [apply (new_slab_ok strict st V H a c Hinv Ha)|]. intros [p st'] [Hz|(Hp0 & s & v & V' & H' & T & F & Ec)]; [now left|].
    right. split; [exact Hp0|]. exists s, v, V', H', c. rewrite Ec. split_and!; auto; split; reflexivity. }
  set (p := kc_partial c) in *. destruct (lk_lists _ _ _ _ L a c Ha) as (l & Hch & _ & _ & Hi). assert (Hpl : p ∈ l) by (destruct l as [|x l]; [cbn in Hch; contradiction|destruct Hch as (<- & _); left]).
  destruct (proj1 (Hi p) Hpl) as (s & Hp & Ec & El). rewrite (slab_at_ok _ _ _ Hp). cbn [bind]. pose proof (lk_listed _ _ _ _ L p s Hp El) as Eo. destruct (lk_state _ _ _ _ L p s Hp E0) as [Hu Hr _].
  rewrite (upd_cache_ok _ _ _ _ Ha). cbn [bind]. erewrite upd_cache_ok by (cbn; apply lookup_insert_eq). cbn [bind s_arena s_slabs s_caches]. rewrite insert_insert_eq.
  erewrite upd_slab_ok by (cbn; exact Hp). cbn [bind s_arena s_slabs s_caches]. erewrite upd_cache_ok by (cbn; apply lookup_insert_eq). cbn [bind s_arena s_slabs s_caches wp]. rewrite insert_insert_eq.
  set (c' := kc_with_refills _ _). right. split; [exact E0|]. destruct (inv_view I p s Hp) as (v & k & Hv & _). exists (su_with_listed false s), v, V, H, c'.
  destruct (lists_take _ _ a c p s c' (lk_lists _ _ _ _ L) Ha eq_refl E0 Hp eq_refl) as (_ & _ & HL). split; [|split; [|split]].
  - split; cbn [s_slabs s_caches]; [apply lookup_insert_eq|exact Hv|exact Ec|exact Eo|reflexivity| | |left; cbn; split; auto].
    + apply (heap_cache 0 (Slub (s_arena st) _ (s_caches st)) V H a c c'); [now apply (heap_links 0 st V H p s)|exact Ha|reflexivity].
    + apply (links_relist strict 0 p _ (s_caches st) p s _ a c'); [exact L|exact Hp|reflexivity|auto|reflexivity|now apply (size_active _ a c)|exact HL|auto|contradiction].
  - eapply (frame_trans [] [] [] []); [apply (frame_links st V H p s (su_with_listed false s) (s_caches st)); [exact Hp|eauto|reflexivity|reflexivity]|].
    apply (frame_cache (Slub (s_arena st) _ (s_caches st))). now apply (size_insert _ a c).
  - apply lookup_insert_eq.
  - split; reflexivity.
Qed.

(** * An object for the caller *)

(** The object [o] has been taken from slab [p] and remains to be counted. *)
Record popped (strict : bool) (a o : Z) (st : slub PS) (V : gmap Z view) (H : gmap Z Z) : Prop := {
  pd_slab : exists p s v, s_slabs st !! p = Some s /\ V !! p = Some v /\ slub_page_of o = p /\ o ∈ v_live v /\ su_cache s = a /\
    heap_inv p st V H /\ (strict = true -> su_owner s <> -1) /\ (su_on_partial s = true -> v_free v <> []) /\
    exists ex, links_ok strict ex (s_slabs st) (s_caches st) /\ (ex = 0 \/ ex = p);
  pd_cache : exists c, s_caches st !! a = Some c
}.

(** The slab of the CPU has objects that were freed elsewhere, and no others. *)
Definition pending (st : slub PS) (V : gmap Z view) (a : Z) (cpu : option Z) : Prop :=
  match cpu_slot cpu with
  | Some id => exists c p v, s_caches st !! a = Some c /\ kc_active c !! Z.to_nat id = Some p /\ p <> 0 /\ V !! p = Some v /\ v_free v = [] /\ v_foreign v <> []
  | None => True
  end.

(** No object: for want of a page, or because the slab that was taken has objects
    freed elsewhere only. *)
Definition refused (strict : bool) (a : Z) (cpu : option Z) (st0 st : slub PS) (V : gmap Z view) (H : gmap Z Z) : Prop :=
  slub_inv strict st V H /\ (out_of_pages st0 \/ pending st V a cpu).

Definition served (strict : bool) (a : Z) (cpu : option Z) (st : slub PS) (V : gmap Z view) (H : gmap Z Z) (o : Z) (st' : slub PS) : Prop :=
  exists V' H', (o = 0 /\ refused strict a cpu st st' V' H' /\ frame [] [] st V H st' V' H') \/
    (o <> 0 /\ popped strict a o st' V' H' /\ frame [] [o] st V H st' V' H' /\ forall n, ~ live_obj st V o n).

Lemma set_active_ok st a c id v : s_caches st !! a = Some c -> 0 <= id < Z.of_nat (length (kc_active c)) ->
  set_active id v a st = Ok (Slub (s_arena st) (s_slabs st) (<[a := kc_with_active (<[Z.to_nat id := v]> (kc_active c)) c]> (s_caches st))).
Proof. intros Ha Hid. unfold set_active. rewrite (cache_at_ok _ _ _ Ha). cbn [bind]. rewrite (put_okZ _ _ _ Hid). cbn [bind]. exact (upd_cache_ok _ _ _ _ Ha). Qed.

(** Popping from the slab that was taken, when it has a CPU. *)
Lemma pop_served strict a st0 V0 H0 st V H p s v c ex : heap_inv 0 st V H -> links_ok strict ex (s_slabs st) (s_caches st) -> ex = 0 \/ ex = p -> frame [] [] st0 V0 H0 st V H ->
  s_slabs st !! p = Some s -> V !! p = Some v -> su_cache s = a -> (strict = true -> su_owner s <> -1) -> su_on_partial s = false -> s_caches st !! a = Some c ->
  (v_free v = [] /\ slub_stack_pop st p = Ok (0, st)) \/
  exists o st' V', slub_stack_pop st p = Ok (o, st') /\ o <> 0 /\ popped strict a o st' V' H /\ frame [] [o] st0 V0 H0 st' V' H /\ (forall n, ~ live_obj st0 V0 o n) /\
    exists n v', st' = Slub (s_arena st) (<[p := su_with_freelist n s]> (s_slabs st)) (s_caches st) /\ V' = <[p := v']> V /\ heap_inv p st' V' H /\
      links_ok strict ex (s_slabs st') (s_caches st') /\ slub_page_of o = p /\ o ∈ v_live v' /\ chain raw (a_mem (s_arena st)) n (v_free v').
Proof.
  intros I L Hex F Hp Hv Ec Hown Hl Ha. destruct (pop_ok st V H p s v I Hp Hv) as [|(o & fl & n & Ef & Epop & I' & F')]; [auto|]. right.
  assert (Hof : o ∈ v_free v) by (rewrite Ef; left). destruct (inv_view I p s Hp) as (v0 & k & Hv0 & Hk & G & M). rewrite Hv in Hv0. injection Hv0 as <-.
  pose proof (free_grid _ _ _ _ _ _ _ M Hof) as Hog. destruct (inv_addr I p s k o Hp G Hog) as [Ho Epg].
  assert (L' : links_ok strict ex (<[p := su_with_freelist n s]> (s_slabs st)) (s_caches st)).
  { apply (links_count strict ex ex _ _ p s); [exact L|exact Hp|reflexivity|reflexivity|auto|]. intros Hne. destruct (lk_state _ _ _ _ L p s Hp Hne) as [S1 S2 S3]. split; assumption. }
  eexists o, _, _. split; [exact Epop|]. split; [lia|]. split; [|split; [exact (frame_trans [] [] [] [o] _ _ _ _ _ _ _ _ _ F F')|split]].
  - split; [|exists c; exact Ha]. exists p, (su_with_freelist n s), (View fl (v_foreign v) (o :: v_live v)). cbn [s_slabs s_caches]. rewrite !lookup_insert_eq.
    split_and!; auto; [left|cbn; congruence|]. exists ex. auto.
  - intros j Hj. destruct (fr_live _ _ _ _ _ _ _ _ F o j Hj ltac:(apply not_elem_of_nil)) as [Hj' _]. exact (free_not_live _ _ _ _ _ _ _ _ _ I Hp Hv Hof Hj').
  - destruct (hi_slab _ _ _ _ I' p (su_with_freelist n s) (View fl (v_foreign v) (o :: v_live v))) as (k' & _ & M'); [cbn; apply lookup_insert_eq|apply lookup_insert_eq|].
    eexists n, _. split_and!; [reflexivity|reflexivity|exact I'|exact L'|exact Epg|left|exact (sm_free _ _ _ _ _ _ M')].
Qed.

(** * Entering the partial list *)

Lemma list_partial_ok strict hole ex ex' st V H a c p s : heap_inv hole st V H -> links_ok strict ex (s_slabs st) (s_caches st) -> s_caches st !! a = Some c -> s_slabs st !! p = Some s ->
  su_cache s = a -> su_owner s = -1 -> su_on_partial s = false -> ex = ex' \/ ex = p \/ ex = 0 ->
  let s' := su_with_listed true (su_with_next (kc_partial c) s) in (p <> ex' -> state_ok strict s') ->
  exists c', let st' := Slub (s_arena st) (<[p := s']> (s_slabs st)) (<[a := c']> (s_caches st)) in
    list_partial st a p = Ok st' /\ heap_inv hole st' V H /\ links_ok strict ex' (s_slabs st') (s_caches st') /\ frame [] [] st V H st' V H /\ same_active c c'.
Proof.
  intros I L Ha Hp Ec Eo El Hex s' Hs. pose proof (inv_page I p s Hp) as (Hp0 & _). unfold list_partial. rewrite (cache_at_ok _ _ _ Ha). cbn [bind]. rewrite (upd_slab_ok _ _ _ _ Hp). cbn [bind].
  erewrite upd_cache_ok by (cbn; exact Ha). cbn [bind s_arena s_slabs s_caches]. erewrite upd_cache_ok by (cbn; apply lookup_insert_eq). cbn [s_arena s_slabs s_caches]. rewrite insert_insert_eq. fold s'.
  set (c' := kc_with_nr _ _). exists c'. split; [reflexivity|]. split; [|split; [|split; [|split; reflexivity]]]; cbn [s_slabs s_caches].
  - apply (heap_cache hole (Slub (s_arena st) _ (s_caches st)) V H a c c'); [now apply (heap_links hole st V H p s)|exact Ha|reflexivity].
  - apply (links_relist strict ex ex' _ (s_caches st) p s s' a c'); [exact L|exact Hp|reflexivity|now left|reflexivity|now apply (size_active _ a c)| |exact Hex|exact Hs].
    apply lists_enter; [apply L|exact Ha|lia|exact Hp|exact Ec|exact El|reflexivity].
  - destruct (inv_view I p s Hp) as (v & _ & Hv & _). eapply (frame_trans [] [] [] []); [apply (frame_links st V H p s s' (s_caches st)); [exact Hp|eauto|reflexivity|reflexivity]|].
    apply (frame_cache (Slub (s_arena st) _ (s_caches st))). now apply (size_insert _ a c).
Qed.

(** * Refill *)

Lemma refill_cpu_ok strict st V H a c cpu id : slub_inv strict st V H -> s_caches st !! a = Some c -> cpu_slot cpu = Some id -> 0 <= id < MAX_CPUS -> kc_active c !! Z.to_nat id = Some 0 ->
  wp (refill st a cpu) (fun '(o, st') => served strict a cpu st V H o st').
Proof.
  intros Hinv Ha Hcpu Hid Hact. unfold refill. apply wp_bind. eapply wp_mono; [apply (take_slab_ok strict st V H a c Hinv Ha)|].
  intros [p st1] [(-> & Hno & Hinv1 & F1)|(Hp0 & s & v & V1 & H1 & c1 & T & F1 & Ha1 & [Eact Eg])].
  { cbn [Z.eqb wp]. exists V, H. left. split; [reflexivity|]. split; [split; [exact Hinv1|now left]|exact F1]. }
  rewrite (proj2 (Z.eqb_neq _ _) Hp0), Hcpu. destruct T as [Tp Tv Tc To Tl TI TL Tr]. pose proof (hi_geom _ _ _ _ TI a c1 Ha1) as [G1 _]. pose proof (ge_active _ G1) as Hlen.
  rewrite (set_active_ok st1 a c1 id p Ha1) by (rewrite Hlen; lia). cbn [bind]. erewrite upd_slab_ok by (cbn; exact Tp). cbn [bind s_arena s_slabs s_caches].
  set (c2 := kc_with_active _ c1). set (s2 := su_with_owner id s). set (st2 := Slub _ _ _).
  assert (I2 : heap_inv 0 st2 V1 H1).
  { apply (heap_cache 0 (Slub (s_arena st1) _ (s_caches st1)) V1 H1 a c1 c2); [now apply (heap_links 0 st1 V1 H1 p s)|exact Ha1|]. unfold layout_of, c2. cbn. now rewrite length_insert. }
  assert (L2 : links_ok strict 0 (s_slabs st2) (s_caches st2)).
  { apply (links_reown strict p 0 _ _ p s id a c1); [exact TL|exact Tp|exact Ha1|reflexivity|exact Tl| |auto|].
    - apply (owners_take _ _ a c1 p s id c2); [apply TL|apply (lk_zero _ _ _ _ TL)|exact Ha1|exact Tp|exact Tc|exact To|now rewrite Eact|exact Hid|reflexivity].
    - intros _. split; cbn; [lia|congruence|lia]. }
  assert (F2 : frame [] [] st V H st2 V1 H1).
  { eapply (frame_trans [] [] [] []); [exact F1|]. eapply (frame_trans [] [] [] []); [apply (frame_links st1 V1 H1 p s s2 (s_caches st1)); [exact Tp|eauto|reflexivity|reflexivity]|].
    apply (frame_cache (Slub (s_arena st1) _ (s_caches st1))). apply (size_insert _ a c1); [exact Ha1|]. unfold layout_of, c2. cbn. now rewrite length_insert. }
  destruct (pop_served strict a st V H st2 V1 H1 p s2 v c2 0 I2 L2 ltac:(auto) F2) as [[Ef ->]|(o & st3 & V3 & -> & Ho & Hpd & F3 & Hnl & _)]; [apply lookup_insert_eq|exact Tv|exact Tc|intros _; unfold s2; cbn; lia|exact Tl|apply lookup_insert_eq| |].
  - cbn [bind wp]. exists V1, H1. left. split; [reflexivity|]. split; [|exact F2]. split; [split; assumption|]. right. unfold pending. rewrite Hcpu. exists c2, p, v.
    split; [apply lookup_insert_eq|]. split; [unfold c2; cbn; apply list_lookup_insert_eq; lia|]. split; [exact Hp0|]. split; [exact Tv|]. split; [exact Ef|].
    destruct Tr as [Hr|]; [|contradiction]. destruct (inv_view TI p s Tp) as (v0 & k & Hv0 & Hk & G & M). rewrite Tv in Hv0. injection Hv0 as <-.
    pose proof (slab_count _ _ _ _ _ _ G M) as Hn. pose proof (sm_inuse _ _ _ _ _ _ M) as Hi. rewrite missing_other in Hi by exact Hp0. intros E. rewrite Ef, E in Hn. cbn in Hn. lia.
  - cbn [bind wp]. exists V3, H1. right. split_and!; auto.
Qed.

Lemma refill_boot_ok st V H a c cpu : slub_inv false st V H -> s_caches st !! a = Some c -> cpu_slot cpu = None ->
  wp (refill st a cpu) (fun '(o, st') => served false a cpu st V H o st').
Proof.
  intros Hinv Ha Hcpu. unfold refill. apply wp_bind. eapply wp_mono; [apply (take_slab_ok false st V H a c Hinv Ha)|].
  intros [p st1] [(-> & Hno & Hinv1 & F1)|(Hp0 & s & v & V1 & H1 & c1 & T & F1 & Ha1 & _)].
  { cbn [Z.eqb wp]. exists V, H. left. split; [reflexivity|]. split; [split; [exact Hinv1|now left]|exact F1]. }
  rewrite (proj2 (Z.eqb_neq _ _) Hp0), Hcpu. destruct T as [Tp Tv Tc To Tl TI TL Tr]. rewrite (upd_slab_ok _ _ _ _ Tp). cbn [bind].
  set (s2 := su_with_owner (-1) s). set (st2 := Slub _ _ _). assert (I2 : heap_inv 0 st2 V1 H1) by now apply (heap_links 0 st1 V1 H1 p s).
  assert (Eop : owner_part s2 = owner_part s) by (unfold owner_part; cbn; now rewrite To).
  assert (L2 : links_ok false p (s_slabs st2) (s_caches st2)) by (apply (links_count false p p _ _ p s); [exact TL|exact Tp|exact Eop|reflexivity|auto|contradiction]).
  assert (F2 : frame [] [] st V H st2 V1 H1).
  { eapply (frame_trans [] [] [] []); [exact F1|]. apply (frame_links st1 V1 H1 p s s2 (s_caches st1)); [exact Tp|eauto|reflexivity|reflexivity]. }
  assert (Hp2 : s_slabs st2 !! p = Some s2) by apply lookup_insert_eq.
  destruct (pop_served false a st V H st2 V1 H1 p s2 v c1 p I2 L2 ltac:(auto) F2) as [[Ef ->]|(o & st3 & V3 & -> & Ho & Hpd & F3 & Hnl & n & v3 & -> & -> & I3 & L3 & Epg & Hov & Hch)]; [exact Hp2|exact Tv|exact Tc|discriminate|exact Tl|exact Ha1| |].
  - cbn [bind]. rewrite (slab_at_ok _ _ _ Hp2). cbn [bind]. destruct (inv_view I2 p s2 Hp2) as (v0 & k & Hv0 & _ & _ & M). rewrite Tv in Hv0. injection Hv0 as <-.
    assert (Hf : su_freelist s2 = 0) by (pose proof (sm_free _ _ _ _ _ _ M) as X; rewrite Ef in X; exact X). rewrite Hf. cbn [Z.eqb bind wp]. exists V1, H1. left. split; [reflexivity|]. split; [|exact F2]. split; [split; [exact I2|]|right; unfold pending; now rewrite Hcpu].
    rewrite <- (insert_id (s_slabs st2) p s2 Hp2). apply (links_count false p 0 _ _ p s2); [exact L2|exact Hp2|reflexivity|reflexivity|auto|]. intros _. destruct Tr as [Hr|]; [|contradiction]. split; cbn; [lia|congruence|easy].
  - set (s3 := su_with_freelist n s2) in *. set (st3 := Slub (s_arena st2) (<[p := s3]> (s_slabs st2)) (s_caches st2)) in *. assert (Hp3 : s_slabs st3 !! p = Some s3) by apply lookup_insert_eq. cbn [bind]. rewrite (slab_at_ok _ _ _ Hp3). cbn [bind].
    destruct (su_freelist s3 =? 0) eqn:En; to_prop; [cbn [bind wp]; exists (<[p := v3]> V1), H1; right; split_and!; auto|].
    destruct (list_partial_ok false p p p st3 (<[p := v3]> V1) H1 a c1 p s3 I3 L3 Ha1 Hp3 Tc eq_refl Tl ltac:(auto) ltac:(contradiction)) as (c4 & -> & I4 & L4 & F4 & _).
    cbn [bind wp]. exists (<[p := v3]> V1), H1. right. split; [exact Ho|]. split; [|split; [exact (frame_trans [] [o] [] [] _ _ _ _ _ _ _ _ _ F3 F4)|exact Hnl]].
    split; [|eexists; cbn; apply lookup_insert_eq]. eexists p, _, v3. split; [cbn; apply lookup_insert_eq|]. split; [apply lookup_insert_eq|]. split; [exact Epg|]. split; [exact Hov|]. split; [exact Tc|]. split; [exact I4|]. split; [discriminate|]. split.
    + intros _ E. rewrite E in Hch. cbn in Hch. contradiction.
    + exists p. auto.
Qed.
End Serve.

(** Object caches: [SLUB::Alloc]. *)

Section Give.
Context {PS : Type} `{PSI : !PageSource PS} `{PSL : !PageSourceOk PS}.
Implicit Types (st : slub PS) (V : gmap Z view) (H : gmap Z Z).

Lemma served_trans strict a cpu st V H st1 V1 H1 o st' : frame [] [] st V H st1 V1 H1 -> a_vm (s_arena st1) = a_vm (s_arena st) ->
  served strict a cpu st1 V1 H1 o st' -> served strict a cpu st V H o st'.
Proof.
  intros F Ev (V' & H' & [(-> & [Hinv Hwhy] & F')|(Ho & Hpd & F' & Hnl)]); exists V', H'.
  - left. split; [reflexivity|]. split; [split; [exact Hinv|]|exact (frame_trans [] [] [] [] _ _ _ _ _ _ _ _ _ F F')]. destruct Hwhy as [Hno|]; [left|now right]. unfold out_of_pages in *. now rewrite <- Ev.
  - right. split; [exact Ho|]. split; [exact Hpd|]. split; [exact (frame_trans [] [] [] [o] _ _ _ _ _ _ _ _ _ F F')|].
    intros n Hn. destruct (fr_live _ _ _ _ _ _ _ _ F o n Hn ltac:(apply not_elem_of_nil)) as [Hn' _]. exact (Hnl n Hn').
Qed.

(** The slab that CPU [id] uses. *)
Lemma active_facts strict st V H a c id p : slub_inv strict st V H -> s_caches st !! a = Some c -> 0 <= id -> kc_active c !! Z.to_nat id = Some p -> p <> 0 ->
  exists s v, s_slabs st !! p = Some s /\ V !! p = Some v /\ su_cache s = a /\ su_owner s = id /\ su_on_partial s = false.
Proof.
  intros [I L] Ha Hid Hact Hp0. destruct (ow_active _ _ (lk_owners _ _ _ _ L) a c _ p Ha Hact Hp0) as (s & Hp & Ec & Eo). rewrite Z2Nat.id in Eo by exact Hid.
  destruct (inv_view I p s Hp) as (v & _ & Hv & _). exists s, v. split_and!; auto. destruct (su_on_partial s) eqn:E; [|reflexivity]. apply (lk_listed _ _ _ _ L p s Hp) in E. lia.
Qed.

(** A slab without free objects is given up. *)
Lemma detach_ok strict st V H a c cpu id p s v : slub_inv strict st V H -> s_caches st !! a = Some c -> cpu_slot cpu = Some id -> 0 <= id < MAX_CPUS -> kc_active c !! Z.to_nat id = Some p -> p <> 0 ->
  s_slabs st !! p = Some s -> V !! p = Some v -> v_free v = [] -> v_foreign v = [] ->
  exists st' c', detach_old st a cpu p = Ok st' /\ slub_inv strict st' V H /\ frame [] [] st V H st' V H /\ s_arena st' = s_arena st /\ s_caches st' !! a = Some c' /\ kc_active c' !! Z.to_nat id = Some 0.
Proof.
  intros Hinv Ha Hcpu Hid Hact Hp0 Hp Hv Ef Eff. destruct (active_facts strict st V H a c id p Hinv Ha ltac:(lia) Hact Hp0) as (s0 & v0 & Hs0 & _ & Ec & Eo & El). rewrite Hp in Hs0. injection Hs0 as <-.
  pose proof Hinv as [I L]. destruct (hi_geom _ _ _ _ I a c Ha) as [G _]. pose proof (ge_active _ G) as Hlen. pose proof (lookup_lt_Some _ _ _ Hact) as Hlt.
  unfold detach_old. rewrite Hcpu, (cache_at_ok _ _ _ Ha). cbn [bind]. rewrite (get_okZ _ id p) by (try lia; exact Hact). cbn [bind]. rewrite Z.eqb_refl, (set_active_ok st a c id 0 Ha) by lia. cbn [bind].
  erewrite upd_slab_ok by (cbn; exact Hp). cbn [s_arena s_slabs s_caches]. set (c' := kc_with_active _ c). eexists _, c'. split; [reflexivity|]. split; [split|split; [|split; [reflexivity|split; [apply lookup_insert_eq|]]]]; cbn [s_slabs s_caches].
  - apply (heap_cache 0 (Slub (s_arena st) _ (s_caches st)) V H a c c'); [now apply (heap_links 0 st V H p s)|exact Ha|]. unfold layout_of, c'. cbn. now rewrite length_insert.
  - apply (links_reown strict 0 0 _ _ p s (-1) a c); [exact L|exact Hp|exact Ha|reflexivity|exact El| |auto|].
    + apply (owners_drop _ _ a c p s id c'); [apply L|exact Ha|exact Hp|exact Ec|exact Eo|lia|reflexivity].
    + intros _. destruct (inv_view I p s Hp) as (v1 & k & Hv1 & Hk & Gk & M). rewrite Hv in Hv1. injection Hv1 as <-. pose proof (slab_count _ _ _ _ _ _ Gk M) as Hn. pose proof (sm_inuse _ _ _ _ _ _ M) as Hi.
      rewrite missing_other in Hi by exact Hp0. rewrite Ef, Eff in Hn. cbn in Hn. pose proof (sm_objects _ _ _ _ _ _ M). pose proof (geom_objs _ Gk). split; cbn; [lia|congruence|lia].
  - eapply (frame_trans [] [] [] []); [apply (frame_links st V H p s (su_with_owner (-1) s) (s_caches st)); [exact Hp|eauto|reflexivity|reflexivity]|].
    apply (frame_cache (Slub (s_arena st) _ (s_caches st))). apply (size_insert _ a c); [exact Ha|]. unfold layout_of, c'. cbn. now rewrite length_insert.
  - unfold c'. cbn. apply list_lookup_insert_eq. lia.
Qed.

(** * The pieces of [Alloc] *)

(** From the slab of the CPU, with the objects freed elsewhere. *)
Definition from_active st (p : Z) : res (Z * slub PS) :=
  let* (obj, st) := slub_stack_pop st p in
  if obj =? 0 then let* st := harvest st p in slub_stack_pop st p else Ok (obj, st).

Lemma from_active_ok strict st V H a c cpu id p : slub_inv strict st V H -> s_caches st !! a = Some c -> 0 <= id -> kc_active c !! Z.to_nat id = Some p -> p <> 0 ->
  wp (from_active st p) (fun '(o, st') => a_vm (s_arena st') = a_vm (s_arena st) /\
    ((o = 0 /\ exists s v V', slub_inv strict st' V' H /\ frame [] [] st V H st' V' H /\ s_caches st' = s_caches st /\ s_slabs st' !! p = Some s /\ V' !! p = Some v /\ v_free v = [] /\ v_foreign v = [] /\
       exists v0, V !! p = Some v0 /\ v_free v0 = [] /\ v_foreign v0 = []) \/
     (o <> 0 /\ served strict a cpu st V H o st'))).
Proof.
  intros Hinv Ha Hid Hact Hp0. destruct (active_facts strict st V H a c id p Hinv Ha Hid Hact Hp0) as (s & v & Hp & Hv & Ec & Eo & El). pose proof Hinv as [I L]. unfold from_active.
  assert (Hown : strict = true -> su_owner s <> -1) by (intros _; lia).
  destruct (pop_served strict a st V H st V H p s v c 0 I L ltac:(auto) (frame_refl st V H) Hp Hv Ec Hown El Ha) as [[Ef ->]|(o & st1 & V1 & -> & Ho & Hpd & F1 & Hnl & n & v1 & -> & _)].
  2:{ cbn [bind]. rewrite (proj2 (Z.eqb_neq _ _) Ho). cbn [wp]. split; [reflexivity|]. right. split; [exact Ho|]. exists V1, H. right. auto. }
  cbn [bind Z.eqb]. destruct (harvest_ok st V H p s v I Hp Hv) as (s1 & m1 & -> & Es1 & I1 & F1). cbn [bind]. set (st1 := Slub _ _ _) in *. set (v1 := View _ _ _) in *. injection Es1 as _ E2 E3 E4 E5 E6 E7.
  assert (L1 : links_ok strict 0 (s_slabs st1) (s_caches st1)).
  { apply (links_count strict 0 0 _ _ p s); [exact L|exact Hp|unfold owner_part; congruence|unfold list_part; congruence|auto|]. intros Hne. destruct (lk_state _ _ _ _ L p s Hp Hne) as [S1 S2 S3]. split; rewrite ?E4, ?E5, ?E6, ?E7; assumption. }
  destruct (pop_served strict a st V H st1 (<[p := v1]> V) H p s1 v1 c 0 I1 L1 ltac:(auto) F1) as [[Ef1 ->]|(o & st2 & V2 & -> & Ho & Hpd & F2 & Hnl & n & v2 & -> & _)];
    [apply lookup_insert_eq|apply lookup_insert_eq|congruence|rewrite E6; exact Hown|congruence|exact Ha| |].
  - cbn [wp]. split; [reflexivity|]. left. split; [reflexivity|]. exists s1, v1, (<[p := v1]> V). unfold v1 in Ef1. cbn in Ef1. rewrite Ef, app_nil_r in Ef1.
    split; [now split|]. split; [exact F1|]. split; [reflexivity|]. split; [apply lookup_insert_eq|]. split; [apply lookup_insert_eq|]. unfold v1. cbn. rewrite Ef, app_nil_r. split; [exact Ef1|]. split; [reflexivity|]. exists v. auto.
  - cbn [wp]. split; [reflexivity|]. right. split; [exact Ho|]. exists V2, H. right. auto.
Qed.

(** The slow path with nothing left in the slab of the CPU. *)
Lemma slow_ok strict st V H a c cpu id p s v : slub_inv strict st V H -> s_caches st !! a = Some c -> cpu_slot cpu = Some id -> 0 <= id < MAX_CPUS -> kc_active c !! Z.to_nat id = Some p -> p <> 0 ->
  s_slabs st !! p = Some s -> V !! p = Some v -> v_free v = [] -> v_foreign v = [] -> wp (slow_alloc st a cpu p) (fun '(o, st') => served strict a cpu st V H o st').
Proof.
  intros Hinv Ha Hcpu Hid Hact Hp0 Hp Hv Ef Eff. unfold slow_alloc. rewrite (proj2 (Z.eqb_neq _ _) Hp0).
  destruct (pop_ok st V H p s v (proj1 Hinv) Hp Hv) as [[_ ->]|(o & fl & n & E & _)]; [|congruence]. cbn [bind Z.eqb negb].
  destruct (detach_ok strict st V H a c cpu id p s v Hinv Ha Hcpu Hid Hact Hp0 Hp Hv Ef Eff) as (st1 & c1 & -> & Hinv1 & F1 & EA & Ha1 & Hact1). cbn [bind].
  eapply wp_mono; [apply (refill_cpu_ok strict st1 V H a c1 cpu id Hinv1 Ha1 Hcpu Hid Hact1)|]. intros [o st'] Hs. apply (served_trans strict a cpu st V H st1 V H o st' F1); [now rewrite EA|exact Hs].
Qed.

(** * Alloc *)

Lemma slub_Alloc_split st a cpu : slub_Alloc st a cpu =
  if a =? 0 then Ok (0, st) else
  let* p := active_slab st a cpu in
  let* (obj, st) := if p =? 0 then Ok (0, st) else from_active st p in
  let* (obj, st) := if obj =? 0 then slow_alloc st a cpu p else Ok (obj, st) in
  if obj =? 0 then Ok (0, st) else let* st := count_alloc st a obj in Ok (obj, st).
Proof.
  unfold slub_Alloc, from_active. destruct (a =? 0); [reflexivity|]. destruct (active_slab st a cpu) as [p| |]; cbn [bind]; [|reflexivity..]. destruct (p =? 0); cbn [bind negb]; [now rewrite andb_false_r|].
  destruct (slub_stack_pop st p) as [[o st1]| |]; cbn [bind]; [|reflexivity..]. rewrite andb_true_r. now destruct (o =? 0).
Qed.

(** What the caller gets: an object of the cache that nobody else has. *)
Definition given (strict : bool) (a : Z) (c : kmem_cache) (cpu : option Z) st V H (o : Z) st' : Prop :=
  exists V' H', slub_inv strict st' V' H' /\
    ((o = 0 /\ frame [] [] st V H st' V' H' /\ (out_of_pages st \/ pending st' V' a cpu)) \/
     (o <> 0 /\ frame [] [o] st V H st' V' H' /\ (forall n, ~ live_obj st V o n) /\ live_obj st' V' o (kc_obj_size c) /\
      exists p, range_ok p 1 /\ o ∈ grid c p)).

Lemma finish_ok strict st V H a c cpu o st' : heap_inv 0 st V H -> s_caches st !! a = Some c -> served strict a cpu st V H o st' ->
  wp (if o =? 0 then Ok (0, st') else let* st' := count_alloc st' a o in Ok (o, st')) (fun '(o, st') => given strict a c cpu st V H o st').
Proof.
  intros I Ha (V' & H' & [(-> & [Hinv Hwhy] & F)|(Ho & Hpd & F & Hnl)]).
  { cbn [Z.eqb wp]. exists V', H'. split; [exact Hinv|]. left. auto. }
  rewrite (proj2 (Z.eqb_neq _ _) Ho). destruct Hpd as [(p & s & v & Hp & Hv & Epg & Hov & Ec & I' & Hown & Hroom & ex & L & Hex) (c' & Ha')].
  destruct (count_ok strict ex st' V' H' p s v a c' o I' L Hex Hp Hv Ha' Epg Hov Hown Hroom) as (st2 & -> & Hinv2 & F2 & Es & _ & Ec2). cbn [bind wp].
  destruct (fmap_lookup layout_of _ _ a c (fr_caches _ _ _ _ _ _ _ _ F a) Ha) as (c'' & Hc'' & Eg). rewrite Ha' in Hc''. injection Hc'' as <-.
  exists V', H'. split; [exact Hinv2|]. right. split; [exact Ho|]. split; [exact (frame_trans [] [o] [] [] _ _ _ _ _ _ _ _ _ F F2)|]. split; [exact Hnl|]. injection Eg as E1 E2 E3 _. split.
  - exists p, (su_with_inuse (su_inuse s + 1) s), v, (kc_with_allocs (u64 (kc_allocs c' + 1)) c'). rewrite Es, Ec2, lookup_insert_eq. cbn. rewrite Ec, lookup_insert_eq. split_and!; auto.
  - exists p. split; [exact (inv_page I' p s Hp)|]. destruct (inv_view I' p s Hp) as (v0 & k & Hv0 & Hk & _ & M). rewrite Hv in Hv0. injection Hv0 as <-. rewrite Ec, Ha' in Hk. injection Hk as <-.
    pose proof (live_grid _ _ _ _ _ _ _ M Hov) as Hg'. unfold grid in *. now rewrite E1, E2, E3 in Hg'.
Qed.

(** CPU ids are not negative; before the CPUs are set up there is no [strict]. *)
Definition cpu_ok (strict : bool) (cpu : option Z) : Prop :=
  match cpu with
  | Some id => 0 <= id
  | None => True
  end /\ (strict = true -> cpu_slot cpu <> None).

Lemma slot_range strict cpu id : cpu_ok strict cpu -> cpu_slot cpu = Some id -> 0 <= id < MAX_CPUS.
Proof. intros [Hc _] E. destruct cpu as [i|]; [|easy]. cbn in E. destruct (i <? MAX_CPUS) eqn:El; [|easy]. to_prop. injection E as <-. auto. Qed.

Lemma slub_Alloc_ok strict st V H a c cpu : slub_inv strict st V H -> s_caches st !! a = Some c -> cpu_ok strict cpu ->
  wp (slub_Alloc st a cpu) (fun '(o, st') => given strict a c cpu st V H o st').
Proof.
  intros Hinv Ha Hcpu. pose proof Hinv as [I L]. destruct (hi_geom _ _ _ _ I a c Ha) as [G Ha0]. rewrite slub_Alloc_split, (proj2 (Z.eqb_neq _ _) Ha0).
  assert (Hfin : forall r, wp r (fun '(o, st') => served strict a cpu st V H o st') -> wp (let* (obj, st) := r in if obj =? 0 then Ok (0, st) else let* st := count_alloc st a obj in Ok (obj, st)) (fun '(o, st') => given strict a c cpu st V H o st')).
  { intros r Hr. apply wp_bind. eapply wp_mono; [exact Hr|]. intros [o st1] Hs. exact (finish_ok strict st V H a c cpu o st1 I Ha Hs). }
  unfold active_slab. destruct (cpu_slot cpu) as [id|] eqn:Eslot.
  - pose proof (slot_range strict cpu id Hcpu Eslot) as Hid. pose proof (ge_active _ G) as Hlen. destruct (lookup_lt_is_Some_2 (kc_active c) (Z.to_nat id) ltac:(lia)) as [p Hact].
    rewrite (cache_at_ok _ _ _ Ha). cbn [bind]. rewrite (get_okZ _ id p ltac:(lia) Hact). cbn [bind]. destruct (p =? 0) eqn:E0; to_prop.
    + subst p. cbn [bind Z.eqb]. apply Hfin. unfold slow_alloc. cbn [Z.eqb]. apply (refill_cpu_ok strict st V H a c cpu id Hinv Ha Eslot Hid Hact).
    + apply wp_bind. eapply wp_mono; [apply (from_active_ok strict st V H a c cpu id p Hinv Ha ltac:(lia) Hact E0)|].
      intros [o st1] [Evm [(-> & s & v & V1 & Hinv1 & F1 & Ec & Hp & Hv & Ef & Eff & _)|(Ho & Hs)]]; [cbn [Z.eqb]|rewrite (proj2 (Z.eqb_neq _ _) Ho); now apply Hfin].
      apply Hfin. eapply wp_mono; [apply (slow_ok strict st1 V1 H a c cpu id p s v Hinv1 ltac:(now rewrite Ec) Eslot Hid Hact E0 Hp Hv Ef Eff)|].
      intros [o st2] Hs. exact (served_trans strict a cpu st V H st1 V1 H o st2 F1 Evm Hs).
  - cbn [bind Z.eqb]. apply Hfin. unfold slow_alloc. cbn [Z.eqb]. destruct strict; [exfalso; now apply (proj2 Hcpu)|]. apply (refill_boot_ok st V H a c cpu Hinv Ha Eslot).
Qed.

(** After a refusal with objects pending, the next call serves one. *)
Lemma slub_Alloc_again strict st V H a c cpu id : slub_inv strict st V H -> s_caches st !! a = Some c -> cpu_ok strict cpu -> cpu_slot cpu = Some id -> pending st V a cpu ->
  wp (slub_Alloc st a cpu) (fun '(o, st') => o <> 0 /\ given strict a c cpu st V H o st').
Proof.
  intros Hinv Ha Hcpu Eslot Hpend. pose proof (slub_Alloc_ok strict st V H a c cpu Hinv Ha Hcpu) as Hok. pose proof (slot_range strict cpu id Hcpu Eslot) as Hid.
  unfold pending in Hpend. rewrite Eslot in Hpend. destruct Hpend as (c0 & p & v0 & Hc0 & Hact & Hp0 & Hv0 & Ef0 & Eff0). rewrite Ha in Hc0. injection Hc0 as <-.
  destruct (slub_Alloc st a cpu) as [[o st']| |] eqn:E; [|easy..]. cbn [wp] in *. split; [|exact Hok]. intros ->.
  pose proof (hi_geom _ _ _ _ (proj1 Hinv) a c Ha) as [_ Ha0]. rewrite slub_Alloc_split, (proj2 (Z.eqb_neq _ _) Ha0) in E. unfold active_slab in E. rewrite Eslot, (cache_at_ok _ _ _ Ha) in E. cbn [bind] in E.
  rewrite (get_okZ _ id p ltac:(lia) Hact) in E. cbn [bind] in E. rewrite (proj2 (Z.eqb_neq _ _) Hp0) in E. pose proof (from_active_ok strict st V H a c cpu id p Hinv Ha ltac:(lia) Hact Hp0) as Hfa.
  destruct (from_active st p) as [[o1 st1]| |]; [|easy..]. cbn [bind wp] in *. destruct Hfa as [_ [(-> & _ & _ & _ & _ & _ & _ & _ & _ & _ & _ & v1 & Hv1 & _ & Eff1)|(Ho1 & _)]].
  - rewrite Hv0 in Hv1. injection Hv1 as <-. contradiction.
  - rewrite (proj2 (Z.eqb_neq _ _) Ho1) in E. cbn [bind] in E. rewrite (proj2 (Z.eqb_neq _ _) Ho1) in E. destruct (count_alloc st1 a o1); [|easy..]. cbn [bind] in E. congruence.
Qed.
End Give.
