(* ===== verification/SlubFree.v ===== *)
(** Object caches: [SLUB::Free] and the return of slabs; the layout of a cache,
    and caches that come and go. *)
From stdpp Require Import base gmap list fin_maps.
From Stdlib Require Import ZArith Lia.
From S2P Require Import Prelude Words Memory PMM PMMBits PMMInit HeapMem Slub SlubInv SlubAlloc.

Open Scope Z_scope.
Open Scope c_scope.

Section Free.
Context {PS : Type} `{PSI : !PageSource PS} `{PSL : !PageSourceOk PS}.
Implicit Types (st : slub PS) (V : gmap Z view) (H : gmap Z Z).

(** * A slab is given back *)

Lemma free_slab_ok st V H p s v : heap_inv 0 st V H -> s_slabs st !! p = Some s -> V !! p = Some v -> v_live v = [] ->
  wp (free_slab st p) (fun st' => heap_inv 0 st' (delete p V) (delete p H) /\ frame [] [] st V H st' (delete p V) (delete p H) /\
    s_slabs st' = delete p (s_slabs st) /\ s_caches st' = s_caches st).
Proof.
  intros I Hp Hv Hl. pose proof (hi_page _ _ _ _ I p s Hp) as HH. pose proof (inv_page I p s Hp) as (P1 & P2 & _). unfold free_slab. rewrite (upd_slab_ok _ _ _ _ Hp). cbn [bind s_arena s_slabs s_caches].
  apply wp_bind. eapply wp_mono; [apply (page_free_ok _ H p 1 (hi_arena _ _ _ _ I) HH)|]. intros A [HA Hag]. cbn [wp]. rewrite delete_insert_eq.
  assert (Hpage : forall q t, s_slabs st !! q = Some t -> q <> p -> agree (a_mem (s_arena st)) (a_mem A) q 4096).
  { intros q t Hq Hne. apply Hag. destruct (inv_apart I p s q t Hp Hq ltac:(congruence)); lia. }
  split; [|split; [|split; reflexivity]].
  - split; cbn [s_arena s_slabs s_caches]; [exact HA| | | |apply I].
    + intros q. rewrite !lookup_delete_None. pose proof (hi_dom _ _ _ _ I q). tauto.
    + intros q t [Hne Hq]%lookup_delete_Some. rewrite lookup_delete_ne by exact Hne. exact (hi_page _ _ _ _ I q t Hq).
    + intros q t w [Hne Hq]%lookup_delete_Some Hw. rewrite lookup_delete_ne in Hw by exact Hne. destruct (hi_slab _ _ _ _ I q t w Hq Hw) as (k & Hk & M). exists k. split; [exact Hk|].
      apply (slab_agree (a_mem (s_arena st))); [apply (hi_geom _ _ _ _ I _ _ Hk)|exact M|]. exact (Hpage q t Hq ltac:(congruence)).
  - split; cbn [s_arena s_slabs s_caches]; [| | | |reflexivity].
    + intros x n Hx _. pose proof Hx as Hlive. destruct Hx as (q & t & w & k & Hq & Hw & Hk & Hx & ->). assert (p <> q) by (intros <-; rewrite Hv in Hw; injection Hw as <-; rewrite Hl in Hx; now apply not_elem_of_nil in Hx). split.
      * exists q, t, w, k. cbn. rewrite !lookup_delete_ne by assumption. split_and!; auto.
      * destruct (live_page _ _ _ _ _ _ I Hlive) as (q' & t' & w' & k' & E & Hq' & Hw' & _ & G & _ & Hx' & Hg & En). destruct (grid_bound k' q' x G Hg) as (B1 & B2 & _). rewrite En.
        apply (agree_sub _ _ q' 4096); [|lia|lia]. apply (Hpage q' t' Hq'). intros ->. rewrite Hv in Hw'. injection Hw' as <-. rewrite Hl in Hx'. now apply not_elem_of_nil in Hx'.
    + intros x n (q & t & w & k & Hq & Hw & Hk & Hx & ->). cbn in *. apply lookup_delete_Some in Hq as [Hne Hq]. rewrite lookup_delete_ne in Hw by exact Hne. left. split; [exists q, t, w, k; split_and!; auto|apply not_elem_of_nil].
    + intros q n Hq Hs. assert (p <> q) by congruence. rewrite !lookup_delete_ne by assumption. split; [exact Hq|]. split; [exact Hs|]. apply Hag.
      pose proof (ps_apart _ _ p 1 q n (ar_src _ _ (hi_arena _ _ _ _ I)) HH Hq ltac:(assumption)) as D. unfold disjoint_ranges in D. lia.
    + intros q n [Hne Hq]%lookup_delete_Some Hs. rewrite lookup_delete_ne in Hs by exact Hne. auto.
Qed.

(** * Leaving the partial list *)

Lemma pchain_short (S : gmap Z slub_slab_t) l : NoDup l -> (forall x, x ∈ l -> is_Some (S !! x)) -> (length l <= size S)%nat.
Proof.
  intros Hn Hs. rewrite <- size_dom, <- (size_list_to_set (C := gset Z) l Hn). apply subseteq_size. intros x Hx. apply elem_of_list_to_set in Hx. apply elem_of_dom. auto.
Qed.

Lemma find_place_ok st a c p l1 l2 : s_caches st !! a = Some c -> pchain (s_slabs st) (kc_partial c) (l1 ++ p :: l2) -> NoDup (l1 ++ p :: l2) ->
  wp (loop (S (size (s_slabs st))) (fun pp => let* q := link_get st a pp in if (q =? 0) || (q =? p) then Ok (inr pp) else Ok (inl (InSlab q))) InCache)
    (fun pp => at_place l1 pp /\ link_get st a pp = Ok p).
Proof.
  intros Ha Hc Hn. pose proof (pchain_short (s_slabs st) (l1 ++ p :: l2) Hn (fun x Hx => proj1 (pchain_in _ _ _ x Hc Hx))) as Hsz.
  apply (wp_loop_on (fun (g : list Z * list Z) pp => l1 = g.1 ++ g.2 /\ at_place g.1 pp) (fun g => length g.2)) with (g := ([], l1)).
  - intros [k1 k2] pp [E Hpl]. cbn [fst snd] in *. subst l1.
    assert (Hget : link_get st a pp = Ok (match k2 with [] => p | q :: _ => q end)).
    { unfold at_place in Hpl. assert (Hnext : match last k1 with None => kc_partial c = match k2 with [] => p | q :: _ => q end | Some q => exists t, s_slabs st !! q = Some t /\ su_partial_next t = match k2 with [] => p | q :: _ => q end end).
      { destruct k2 as [|y k2]; [rewrite app_nil_r in Hc; exact (pchain_app _ _ _ _ _ Hc)|]. rewrite <- app_assoc in Hc. exact (pchain_app _ _ _ _ _ Hc). }
      destruct (last k1) as [q|]; subst pp; cbn [link_get]; [destruct Hnext as (t & Ht & <-); now rewrite (slab_at_ok _ _ _ Ht)|rewrite (cache_at_ok _ _ _ Ha); cbn; now rewrite Hnext]. }
    rewrite Hget. cbn [bind]. destruct k2 as [|y k2].
    + rewrite Z.eqb_refl, orb_true_r. cbn [wp]. rewrite app_nil_r. auto.
    + assert (Hy : y ∈ (k1 ++ y :: k2) ++ p :: l2) by (rewrite !elem_of_app; left; right; left). destruct (pchain_in _ _ _ y Hc Hy) as [_ Hy0].
      assert (Hyp : y <> p). { intros ->. apply NoDup_app in Hn as (_ & Hd & _). apply (Hd p); [rewrite elem_of_app; right; left|left]. }
      rewrite (proj2 (Z.eqb_neq _ _) Hy0), (proj2 (Z.eqb_neq _ _) Hyp). cbn [orb wp]. exists (k1 ++ [y], k2). cbn [fst snd]. split; [split; [now rewrite <- app_assoc|unfold at_place; now rewrite last_snoc]|cbn; lia].
  - cbn. split; reflexivity.
  - cbn [snd]. rewrite length_app in Hsz. cbn in Hsz. lia.
Qed.

(** The link to a slab is redirected to the slab behind it. *)
Lemma link_set_ok strict st V H a c p s l1 l2 pp : heap_inv 0 st V H -> links_ok strict p (s_slabs st) (s_caches st) -> s_caches st !! a = Some c -> s_slabs st !! p = Some s ->
  NoDup (l1 ++ p :: l2) -> at_place l1 pp -> link_get st a pp = Ok p -> let n := su_partial_next s in
  exists S1 c1, let st1 := Slub (s_arena st) S1 (s_caches st) in
    link_set st a pp n = Ok (Slub (s_arena st) S1 (<[a := c1]> (s_caches st))) /\ S1 !! p = Some s /\ same_active c c1 /\ kc_nr_partial c1 = kc_nr_partial c /\
    match pp with InCache => c1 = kc_with_partial n c /\ S1 = s_slabs st | InSlab q => c1 = c /\ exists t, s_slabs st !! q = Some t /\ S1 = <[q := su_with_next n t]> (s_slabs st) end /\
    heap_inv 0 st1 V H /\ (forall q, owner_part <$> S1 !! q = owner_part <$> s_slabs st !! q) /\ (forall q t, S1 !! q = Some t -> q <> p -> state_ok strict t) /\ frame [] [] st V H st1 V H.
Proof.
  intros I L Ha Hp Hnd Hpl Hget n. destruct pp as [|q]; cbn [link_set].
  - exists (s_slabs st), (kc_with_partial n c). rewrite (upd_cache_ok _ _ _ _ Ha). destruct st as [A S C]. cbn in *. split_and!; auto; [split; reflexivity|apply L|apply frame_refl].
  - cbn [link_get] in Hget. unfold slab_at in Hget. destruct (s_slabs st !! q) as [t|] eqn:Ht; [|easy]. assert (Hqp : q <> p).
    { intros ->. unfold at_place in Hpl. destruct (last l1) as [q|] eqn:E; [|easy]. injection Hpl as ->. apply last_Some in E as [l0 ->]. rewrite <- app_assoc in Hnd. apply NoDup_app in Hnd as (_ & _ & Hnd). cbn in Hnd. apply NoDup_cons in Hnd as [Hnd _]. apply Hnd. left. }
    exists (<[q := su_with_next n t]> (s_slabs st)), c. rewrite (upd_slab_ok _ _ _ _ Ht), (insert_id (s_caches st) a c Ha), lookup_insert_ne by exact Hqp.
    split_and!; auto; [split; reflexivity|eauto|now apply (heap_links 0 st V H q t)|intros x; now apply (fmap_insert_same owner_part _ q t)| |].
    + intros x u Hx Hxp. upd_cases Hx; [|exact (lk_state _ _ _ _ L x u Hx Hxp)]. destruct (lk_state _ _ _ _ L q t Ht Hxp) as [T1 T2 T3]. split; assumption.
    + destruct (inv_view I q t Ht) as (w & _ & Hw & _). apply (frame_links st V H q t); [exact Ht|eauto|reflexivity|reflexivity].
Qed.

Lemma unlist_ok strict st V H a c p s : heap_inv 0 st V H -> links_ok strict p (s_slabs st) (s_caches st) -> s_caches st !! a = Some c -> s_slabs st !! p = Some s -> su_cache s = a -> su_on_partial s = true ->
  wp (unlist_partial st a p) (fun st' => heap_inv 0 st' V H /\ links_ok strict p (s_slabs st') (s_caches st') /\ frame [] [] st V H st' V H /\
    exists s', s_slabs st' !! p = Some s' /\ su_owner s' = -1 /\ su_on_partial s' = false).
Proof.
  intros I L Ha Hp Ec El. pose proof (lk_listed _ _ _ _ L p s Hp El) as Eo. destruct (lk_lists _ _ _ _ L a c Ha) as (l & Hch & Hnd & Hnr & Hi).
  assert (Hpl : p ∈ l) by (apply Hi; eauto). apply list_elem_of_split in Hpl as (l1 & l2 & ->). unfold unlist_partial. apply wp_bind. eapply wp_mono; [exact (find_place_ok st a c p l1 l2 Ha Hch Hnd)|]. intros pp [Hpl Hget].
  rewrite Hget. cbn [bind]. rewrite Z.eqb_refl, (slab_at_ok _ _ _ Hp). cbn [bind]. destruct (inv_view I p s Hp) as (v & _ & Hv & _).
  destruct (link_set_ok strict st V H a c p s l1 l2 pp I L Ha Hp Hnd Hpl Hget) as (S1 & c1 & -> & Hp1 & [Eact1 Eg1] & Enr & Hpp & I1 & Eop & Hst & F1).
  cbn [bind]. erewrite upd_cache_ok by (cbn; apply lookup_insert_eq). cbn [bind s_arena s_slabs s_caches]. rewrite insert_insert_eq. erewrite upd_slab_ok by (cbn; exact Hp1). cbn [s_arena s_slabs s_caches wp].
  set (c2 := kc_with_nr _ c1). assert (Eg2 : layout_of c2 = layout_of c) by exact Eg1. split; [|split; [|split]].
  - apply (heap_cache 0 (Slub (s_arena st) _ (s_caches st)) V H a c c2); [|exact Ha|exact Eg2]. now apply (heap_links 0 (Slub (s_arena st) S1 (s_caches st)) V H p s).
  - split.
    + apply (lists_remove (s_slabs st) (s_caches st) a c l1 p l2 s s pp S1 c1 c2); [apply L|exact Ha|exact Hch|exact Hpl|exact Hp|exact Hp1|reflexivity|exact Hpp|unfold c2; cbn; now rewrite Enr|reflexivity].
    + generalize (lk_owners _ _ _ _ L). apply owners_ext; [|now apply (size_active _ a c)]. intros q. rewrite <- Eop. now apply (fmap_insert_same owner_part _ p s).
    + intros q t Hq Ht. upd_cases Hq; [easy|]. destruct (fmap_lookup owner_part S1 (s_slabs st) q t (eq_sym (Eop q)) Hq) as (t0 & Ht0 & [= _ E0]). rewrite <- E0. apply (lk_listed _ _ _ _ L q t0 Ht0).
      destruct pp as [|r]; [destruct Hpp as [_ ->]; congruence|]. destruct Hpp as (_ & u & Hu & ->). upd_cases Hq; [cbn in Ht; congruence|congruence].
    + intros q t Hq Hqp. upd_cases Hq; [contradiction|exact (Hst q t Hq Hqp)].
    + pose proof (inv_page I p s Hp) as (? & _). rewrite lookup_insert_ne by lia. pose proof (Eop 0) as E0. rewrite (lk_zero _ _ _ _ L) in E0. now apply fmap_None in E0.
  - eapply (frame_trans [] [] [] []); [exact F1|]. eapply (frame_trans [] [] [] []); [apply (frame_links (Slub (s_arena st) S1 (s_caches st)) V H p s (su_with_listed false s) (s_caches st)); [exact Hp1|eauto|reflexivity|reflexivity]|].
    apply (frame_cache (Slub (s_arena st) _ (s_caches st))). now apply (size_insert _ a c).
  - eexists. split; [apply lookup_insert_eq|]. split; [exact Eo|reflexivity].
Qed.

(** * A drained slab *)

Lemma reclaim_ok strict st V H a c p s v : heap_inv 0 st V H -> links_ok strict p (s_slabs st) (s_caches st) -> s_caches st !! a = Some c -> s_slabs st !! p = Some s -> V !! p = Some v -> su_cache s = a ->
  su_owner s = -1 -> su_inuse s = 0 ->
  wp (reclaim_slab st a p) (fun st' => exists V' H', slub_inv strict st' V' H' /\ frame [] [] st V H st' V' H').
Proof.
  intros I L Ha Hp Hv Ec Eo Ei. destruct (inv_view I p s Hp) as (v0 & k & Hv0 & _ & _ & M). rewrite Hv in Hv0. injection Hv0 as <-. pose proof (inv_page I p s Hp) as (Hp0 & _).
  assert (El : v_live v = []) by (pose proof (sm_inuse _ _ _ _ _ _ M) as X; rewrite missing_other in X by lia; destruct (v_live v); [reflexivity|cbn in X; lia]).
  unfold reclaim_slab. rewrite (slab_at_ok _ _ _ Hp). cbn [bind]. rewrite (sm_magic _ _ _ _ _ _ M), Z.eqb_refl, Eo, Ei. cbn [negb Z.leb Z.eqb orb Z.compare].
  assert (Hgo : forall st1, heap_inv 0 st1 V H -> links_ok strict p (s_slabs st1) (s_caches st1) -> frame [] [] st V H st1 V H -> (exists s', s_slabs st1 !! p = Some s' /\ su_owner s' = -1 /\ su_on_partial s' = false) ->
    wp (free_slab st1 p) (fun st' => exists V' H', slub_inv strict st' V' H' /\ frame [] [] st V H st' V' H')).
  { intros st1 I1 L1 F1 (s1 & Hp1 & Eo1 & El1). eapply wp_mono; [exact (free_slab_ok st1 V H p s1 v I1 Hp1 Hv El)|]. intros st2 (I2 & F2 & Es & Ec2). exists (delete p V), (delete p H).
    split; [split; [exact I2|]|exact (frame_trans [] [] [] [] _ _ _ _ _ _ _ _ _ F1 F2)]. rewrite Es, Ec2. exact (links_delete strict _ _ p s1 L1 Hp1 Eo1 El1). }
  apply wp_bind. destruct (su_on_partial s) eqn:Elp.
  - eapply wp_mono; [exact (unlist_ok strict st V H a c p s I L Ha Hp Ec Elp)|]. intros st1 (I1 & L1 & F1 & Hs1). now apply Hgo.
  - cbn [wp]. apply Hgo; [exact I|exact L|apply frame_refl|eauto].
Qed.

(** * The object goes back *)

(** Whichever list it goes to, the object is linked in front. *)
Lemma return_ok st V H p s v o c l1 l2 s' v' h : heap_inv p st V H -> s_slabs st !! p = Some s -> V !! p = Some v -> s_caches st !! su_cache s = Some c -> v_live v = l1 ++ o :: l2 -> v_live v' = l1 ++ l2 ->
  same_but_free s s' ->
  (h = su_freelist s /\ v_free v' = o :: v_free v /\ v_foreign v' = v_foreign v /\ su_freelist s' = o /\ su_foreign s' = su_foreign s) \/
  (h = su_foreign s /\ v_free v' = v_free v /\ v_foreign v' = o :: v_foreign v /\ su_freelist s' = su_freelist s /\ su_foreign s' = o) ->
  let m' := write (a_mem (s_arena st)) o (bytes_le 8 h) in let st' := Slub (with_mem (s_arena st) m') (<[p := s']> (s_slabs st)) (s_caches st) in
  st_link (s_arena st) o h = Ok (with_mem (s_arena st) m') /\ heap_inv 0 st' (<[p := v']> V) H /\ frame [o] [] st V H st' (<[p := v']> V) H.
Proof.
  intros I Hp Hv Hc El El' Es Hlist m' st'. destruct (inv_view I p s Hp) as (v0 & k & Hv0 & Hk & G & M). rewrite Hv in Hv0. injection Hv0 as <-. rewrite Hc in Hk. injection Hk as <-.
  assert (Hol : o ∈ v_live v) by (rewrite El; apply elem_of_app; right; left). pose proof (live_grid _ _ _ _ _ _ _ M Hol) as Hog. pose proof (inv_addr I p s c o Hp G Hog) as [Ho0 Epg]. pose proof (inv_page I p s Hp) as (Hp0 & _).
  destruct (obj_write p st V H p s c o h I Hp Hc Hog) as (W1 & W2 & W3 & W4 & W5). split; [exact W1|]. pose proof (slab_NoDup _ _ _ _ _ _ G M) as Hnd. rewrite El in Hnd.
  assert (Hd : forall x, x ∈ v_free v ++ v_foreign v -> x <> o /\ x ∈ grid c p /\ (x + 8 <= o \/ o + 8 <= x)).
  { intros x Hx. assert (Hne : x <> o) by (intros ->; rewrite app_assoc in Hnd; apply NoDup_app in Hnd as (_ & Hd & _); apply (Hd o Hx); apply elem_of_app; right; left).
    assert (Hxg : x ∈ grid c p) by (apply elem_of_app in Hx as [Hx|Hx]; [exact (free_grid _ _ _ _ _ _ _ M Hx)|exact (foreign_grid _ _ _ _ _ _ _ M Hx)]). split; [exact Hne|]. split; [exact Hxg|].
    pose proof (ge_size _ G). destruct (grid_apart c p x o G Hxg Hog Hne); lia. }
  assert (Hkeep : forall h l, (forall x, x ∈ l -> x ∈ v_free v ++ v_foreign v) -> chain raw (a_mem (s_arena st)) h l -> chain raw m' h l /\ 0 <= h < 2 ^ 64).
  { intros h0 l Hl Hch. split; [apply (chain_agree _ (a_mem (s_arena st))); [|exact Hch]; intros x Hx; apply agree_write; rewrite bytes_le_length; destruct (Hd x (Hl x Hx)) as (_ & _ & [|]); lia|].
    apply (head_bound p st V H p s c v h0 l I Hp G M Hch). intros x Hx. apply (Hd x (Hl x Hx)). }
  assert (Hfr : forall x, x ∈ v_free v -> x ∈ v_free v ++ v_foreign v) by (intros; rewrite elem_of_app; auto). assert (Hfo : forall x, x ∈ v_foreign v -> x ∈ v_free v ++ v_foreign v) by (intros; rewrite elem_of_app; auto).
  injection Es as E1 E2 E3 E4 E5 E6 E7. split.
  - apply (heap_upd p 0 st V H p s v s' v' m' I Hp Hv E2 W2); [intros q t Hq Hne; split; [exact (W3 q t Hq Hne)|]; pose proof (inv_page I q t Hq) as (? & _); now rewrite !missing_other by lia|].
    intros c0 Hc0 _ [M1 M2 M3 M4 M5 M6]. rewrite Hc in Hc0. injection Hc0 as <-. rewrite missing_here in M5. rewrite missing_other by lia.
    destruct Hlist as [(-> & F1 & F2 & F3 & F4)|(-> & F1 & F2 & F3 & F4)].
    all: split; [congruence| | | |rewrite E4, El'; rewrite El in M5; rewrite length_app in *; cbn [length] in M5; lia|congruence].
    + rewrite F1, F3. apply chain_push; [exact M2|exact (proj2 (Hkeep _ _ Hfr M2))|lia|]. intros y Hy. apply Hd. auto.
    + rewrite F2, F4. exact (proj1 (Hkeep _ _ Hfo M3)).
    + rewrite F1, F2, El', <- M4, El. cbn [app]. rewrite <- (Permutation_middle l1 l2 o), <- (Permutation_middle (v_foreign v)), <- (Permutation_middle (v_free v)). reflexivity.
    + rewrite F1, F3. exact (proj1 (Hkeep _ _ Hfr M2)).
    + rewrite F2, F4. apply chain_push; [exact M3|exact (proj2 (Hkeep _ _ Hfo M3))|lia|]. intros y Hy. apply Hd. auto.
    + rewrite F1, F2, El', <- M4, El. cbn [app]. rewrite <- (Permutation_middle l1 l2 o), <- (Permutation_middle (v_foreign v)), <- !(Permutation_middle (v_free v)). reflexivity.
  - apply (frame_upd [o] [] st V H p s v); [exact Hp|exact Hv|exact E2|reflexivity| | | | |exact W5].
    + intros x Hx Hn. rewrite El' , El in *. apply elem_of_app in Hx as [Hx|[->|Hx]%elem_of_cons]; [apply elem_of_app; auto|exfalso; apply Hn; left|apply elem_of_app; auto].
    + intros x Hx. left. rewrite El' in Hx. split; [rewrite El; apply elem_of_app in Hx as [|]; apply elem_of_app; [now left|right; now right]|]. intros ->%list_elem_of_singleton.
      apply NoDup_app in Hnd as (_ & _ & Hnd). apply NoDup_app in Hnd as (_ & _ & Hnd). destruct (NoDup_remove_mid _ _ _ Hnd). contradiction.
    + intros q w x Hq Hw Hx ->%list_elem_of_singleton. destruct (s_slabs st !! q) as [t|] eqn:Ht; [|apply (hi_dom _ _ _ _ I) in Ht; congruence]. destruct (inv_view I q t Ht) as (w' & k & Hw' & _ & Gk & Mk).
      rewrite Hw in Hw'. injection Hw' as <-. pose proof (inv_addr I q t k o Ht Gk (live_grid _ _ _ _ _ _ _ Mk Hx)) as [_ E]. congruence.
    + intros x n Hx Hn. apply (W4 x n Hx). intros ->. apply Hn. left.
Qed.

Lemma give_back_ok st V H p s v o owner my c l1 l2 : heap_inv p st V H -> s_slabs st !! p = Some s -> V !! p = Some v -> s_caches st !! su_cache s = Some c -> v_live v = l1 ++ o :: l2 ->
  exists s' v' m', let st' := Slub (with_mem (s_arena st) m') (<[p := s']> (s_slabs st)) (s_caches st) in
    give_back st p o owner my = Ok (true, st') /\ same_but_free s s' /\ heap_inv 0 st' (<[p := v']> V) H /\ frame [o] [] st V H st' (<[p := v']> V) H.
Proof.
  intros I Hp Hv Hc El. unfold give_back. destruct ((0 <=? owner) && (i32 my =? owner)).
  - destruct (return_ok st V H p s v o c l1 l2 (su_with_freelist o s) (View (o :: v_free v) (v_foreign v) (l1 ++ l2)) (su_freelist s) I Hp Hv Hc El eq_refl eq_refl) as (W & I' & F); [left; split_and!; reflexivity|].
    unfold slub_stack_push. rewrite (slab_at_ok _ _ _ Hp). cbn [bind]. rewrite W. cbn [bind]. erewrite upd_slab_ok by (cbn; exact Hp). eexists _, _, _. split; [reflexivity|]. split; [reflexivity|]. split; [exact I'|exact F].
  - destruct (return_ok st V H p s v o c l1 l2 (su_with_foreign o s) (View (v_free v) (o :: v_foreign v) (l1 ++ l2)) (su_foreign s) I Hp Hv Hc El eq_refl eq_refl) as (W & I' & F); [right; split_and!; reflexivity|].
    rewrite (slab_at_ok _ _ _ Hp). cbn [bind]. destruct (inv_view I p s Hp) as (v0 & k & _ & _ & _ & M). rewrite (sm_magic _ _ _ _ _ _ M), Z.eqb_refl. cbn [negb]. rewrite W. cbn [bind].
    erewrite upd_slab_ok by (cbn; exact Hp). eexists _, _, _. split; [reflexivity|]. split; [reflexivity|]. split; [exact I'|exact F].
Qed.

(** * Free *)

(** [o] is a live object of cache [a]. *)
Definition live_in st V (a o : Z) : Prop := exists s v, s_slabs st !! slub_page_of o = Some s /\ V !! slub_page_of o = Some v /\ o ∈ v_live v /\ su_cache s = a.

Lemma live_in_obj hole st V H a c o : heap_inv hole st V H -> s_caches st !! a = Some c -> live_in st V a o -> live_obj st V o (kc_obj_size c).
Proof. intros I Ha (s & v & Hp & Hv & Ho & Ec). exists (slub_page_of o), s, v, c. rewrite Ec. split_and!; auto. Qed.

(** What is left to do behind the return of the object. *)
Definition settle st (a p before owner objects : Z) : res (slub PS) :=
  let* st := upd_cache (fun k => kc_with_frees (u64 (kc_frees k + 1)) k) a st in
  if before - 1 =? 0 then if owner <? 0 then reclaim_slab st a p else Ok st
  else if before =? objects then if owner <? 0 then link_partial_locked st a p else Ok st
  else Ok st.

Lemma settle_ok strict st V H a c p s v before objects : heap_inv 0 st V H -> links_ok strict p (s_slabs st) (s_caches st) -> s_caches st !! a = Some c -> s_slabs st !! p = Some s -> V !! p = Some v -> su_cache s = a ->
  1 <= before <= objects -> su_inuse s = before - 1 -> su_objects s = objects ->
  (su_on_partial s = true -> before < objects /\ su_owner s = -1) -> (strict = true -> su_owner s = -1 -> su_on_partial s = false -> before = objects) -> su_owner s = -1 \/ 0 <= su_owner s ->
  wp (settle st a p before (su_owner s) objects) (fun st' => exists V' H', slub_inv strict st' V' H' /\ frame [] [] st V H st' V' H').
Proof.
  intros I L Ha Hp Hv Ec Hb Ei Eob Hlist Hfull Hown. unfold settle. rewrite (upd_cache_ok _ _ _ _ Ha). cbn [bind]. set (c1 := kc_with_frees _ c). set (st1 := Slub _ _ _).
  assert (I1 : heap_inv 0 st1 V H) by exact (heap_cache 0 st V H a c c1 I Ha eq_refl). assert (L1 : links_ok strict p (s_slabs st1) (s_caches st1)) by now apply (links_cache strict p _ _ a c).
  assert (F1 : frame [] [] st V H st1 V H) by (apply frame_cache; now apply (size_insert _ a c)). assert (Ha1 : s_caches st1 !! a = Some c1) by apply lookup_insert_eq. assert (Hp1 : s_slabs st1 !! p = Some s) by exact Hp.
  assert (Hdone : state_ok strict s -> exists V' H', slub_inv strict st1 V' H' /\ frame [] [] st V H st1 V' H').
  { intros Hs. exists V, H. split; [split; [exact I1|]|exact F1]. rewrite <- (insert_id (s_slabs st1) p s Hp1). now apply (links_count strict p 0 _ _ p s); auto. }
  assert (Hneg : (su_owner s <? 0) = true <-> su_owner s = -1) by (rewrite Z.ltb_lt; lia).
  destruct (before - 1 =? 0) eqn:E1; to_prop.
  - destruct (su_owner s <? 0) eqn:Eo.
    + eapply wp_mono; [exact (reclaim_ok strict st1 V H a c1 p s v I1 L1 Ha1 Hp1 Hv Ec (proj1 Hneg eq_refl) ltac:(lia))|]. intros st2 (V2 & H2 & Hinv & F2). exists V2, H2. split; [exact Hinv|exact (frame_trans [] [] [] [] _ _ _ _ _ _ _ _ _ F1 F2)].
    + cbn [wp]. apply Hdone. split; [intros E; apply Hneg in E; congruence|intros E; lia|intros _ E; apply Hneg in E; congruence].
  - destruct (before =? objects) eqn:E2; to_prop.
    + destruct (su_owner s <? 0) eqn:Eo; [|cbn [wp]; apply Hdone; split; [intros E; apply Hneg in E; congruence|intros E; lia|intros _ E; apply Hneg in E; congruence]].
      pose proof (proj1 Hneg eq_refl) as Eo'. assert (El : su_on_partial s = false) by (destruct (su_on_partial s); [destruct Hlist; [reflexivity|lia]|reflexivity]).
      unfold link_partial_locked. rewrite (slab_at_ok _ _ _ Hp1). cbn [bind]. destruct (inv_view I1 p s Hp1) as (v0 & k & _ & _ & _ & M). rewrite (sm_magic _ _ _ _ _ _ M), Z.eqb_refl, Eo, El. cbn [negb andb].
      rewrite (proj2 (Z.ltb_lt _ _)), (proj2 (Z.ltb_lt _ _)) by lia. cbn [andb].
      destruct (list_partial_ok strict 0 p 0 st1 V H a c1 p s I1 L1 Ha1 Hp1 Ec Eo' El ltac:(auto)) as (c2 & -> & I2 & L2 & F2 & _); [intros _; split; cbn; [lia|lia|congruence]|].
      cbn [wp]. exists V, H. split; [now split|exact (frame_trans [] [] [] [] _ _ _ _ _ _ _ _ _ F1 F2)].
    + cbn [wp]. apply Hdone. split; [lia|intros E; lia|]. intros Hst Eo El. specialize (Hfull Hst Eo El). lia.
Qed.

Lemma slub_Free_ok strict st V H a c o my : slub_inv strict st V H -> s_caches st !! a = Some c -> live_in st V a o ->
  wp (slub_Free st a o (Some my)) (fun st' => exists V' H', slub_inv strict st' V' H' /\ frame [o] [] st V H st' V' H').
Proof.
  intros [I L] Ha (s & v & Hp & Hv & Ho & Ec). set (p := slub_page_of o) in *. destruct (hi_geom _ _ _ _ I a c Ha) as [G Ha0].
  destruct (inv_view I p s Hp) as (v0 & k & Hv0 & Hk & _ & M). rewrite Hv in Hv0. injection Hv0 as <-. rewrite Ec, Ha in Hk. injection Hk as <-. pose proof (inv_addr I p s c o Hp G (live_grid _ _ _ _ _ _ _ M Ho)) as [Ho0 _].
  pose proof (inv_page I p s Hp) as (Hp0 & _). pose proof (sm_inuse _ _ _ _ _ _ M) as Ei. rewrite missing_other in Ei by lia. pose proof (slab_count _ _ _ _ _ _ G M) as Hn. pose proof (sm_objects _ _ _ _ _ _ M) as Eob. pose proof (geom_objs _ G) as [Hob _].
  pose proof Ho as Hsplit. apply list_elem_of_split in Hsplit as (l1 & l2 & El). assert (Hpos : 1 <= su_inuse s) by (rewrite El, length_app in Ei; cbn in Ei; lia).
  unfold slub_Free. rewrite (proj2 (Z.eqb_neq _ _) Ha0), (proj2 (Z.eqb_neq o 0)) by lia. cbn [orb]. fold p. rewrite (slab_at_ok _ _ _ Hp). cbn [bind]. rewrite (sm_magic _ _ _ _ _ _ M), Ec, !Z.eqb_refl. cbn [negb orb].
  rewrite (upd_slab_ok _ _ _ _ Hp). cbn [bind]. rewrite (proj2 (Z.eqb_neq (su_inuse s) 0)) by lia. assert (Eu : u32 (su_inuse s - 1) = su_inuse s - 1) by (apply Z.mod_small; lia). rewrite Eu.
  set (s1 := su_with_inuse (su_inuse s - 1) s). set (st1 := Slub _ _ _).
  assert (I1 : heap_inv p st1 V H).
  { rewrite <- (insert_id V p v Hv). apply (heap_header 0 p st V H p s v); [exact I|exact Hp|exact Hv|reflexivity|intros q Hq [t Ht]; pose proof (inv_page I q t Ht) as (? & _); now rewrite !missing_other by lia|].
    intros c0 _ _ [M1 M2 M3 M4 M5 M6]. rewrite missing_here. rewrite missing_other in M5 by lia. split; try assumption. cbn. lia. }
  assert (L1 : links_ok strict p (s_slabs st1) (s_caches st1)) by (apply (links_count strict 0 p _ _ p s); auto; contradiction).
  assert (F1 : frame [] [] st V H st1 V H) by (apply (frame_links st V H p s s1 (s_caches st)); [exact Hp|eauto|reflexivity|reflexivity]).
  destruct (give_back_ok st1 V H p s1 v o (su_owner s) my c l1 l2 I1 ltac:(apply lookup_insert_eq) Hv ltac:(cbn; now rewrite Ec) El) as (s2 & v2 & m2 & -> & Es & I2 & F2). cbn [bind negb].
  set (st2 := Slub (with_mem (s_arena st1) m2) _ _) in *. injection Es as E1 E2 E3 E4 E5 E6 E7. cbn in E2, E3, E4, E5, E6, E7.
  assert (Es2 : s_slabs st2 = <[p := s2]> (s_slabs st)) by apply insert_insert_eq.
  assert (L2 : links_ok strict p (s_slabs st2) (s_caches st2)).
  { rewrite Es2. apply (links_count strict 0 p _ _ p s); [exact L|exact Hp|unfold owner_part; congruence|unfold list_part; congruence|auto|contradiction]. }
  destruct (lk_state _ _ _ _ L p s Hp ltac:(lia)) as [S1 S2 S3]. pose proof (lk_listed _ _ _ _ L p s Hp) as Hlst.
  assert (Hown : su_owner s = -1 \/ 0 <= su_owner s) by (destruct (Z.eq_dec (su_owner s) (-1)) as [|Hne]; [now left|right; apply (ow_owner _ _ (lk_owners _ _ _ _ L) p s Hp Hne)]).
  change (wp (settle st2 a p (su_inuse s) (su_owner s) (su_objects s)) (fun st' => exists V' H', slub_inv strict st' V' H' /\ frame [o] [] st V H st' V' H')). rewrite <- E6.
  eapply wp_mono; [apply (settle_ok strict st2 _ H a c p s2 v2 (su_inuse s) (su_objects s) I2 L2 Ha); rewrite ?Es2; [apply lookup_insert_eq|apply lookup_insert_eq|congruence|lia|exact E4|exact E5|..]|].
  - rewrite E7, E6. intros E. split; [exact (S2 E)|exact (Hlst E)].
  - rewrite E7, E6. exact S3.
  - now rewrite E6.
  - intros st3 (V3 & H3 & Hinv & F3). exists V3, H3. split; [exact Hinv|]. exact (frame_trans [] [] [o] [] _ _ _ _ _ _ _ _ _ F1 (frame_trans [o] [] [] [] _ _ _ _ _ _ _ _ _ F2 F3)).
Qed.

(** Objects that are not the caller's to free stop the machine. *)
Lemma slub_Free_fatal strict st V H a o my s : slub_inv strict st V H -> a <> 0 -> o <> 0 -> s_slabs st !! slub_page_of o = Some s -> su_cache s <> a \/ su_inuse s = 0 -> slub_Free st a o (Some my) = slab_fatal.
Proof.
  intros [I L] Ha Ho Hp Hwhy. unfold slub_Free. rewrite (proj2 (Z.eqb_neq a 0) Ha), (proj2 (Z.eqb_neq o 0) Ho), (slab_at_ok _ _ _ Hp). cbn [orb bind].
  destruct (negb (su_magic s =? SLUB_PAGE_MAGIC) || negb (su_cache s =? a)) eqn:E; [reflexivity|]. apply orb_false_iff in E as [_ E]. apply negb_false_iff, Z.eqb_eq in E.
  rewrite (upd_slab_ok _ _ _ _ Hp). cbn [bind]. destruct Hwhy as [|Hz]; [congruence|]. now rewrite Hz.
Qed.
End Free.

(** Object caches: their layout, and caches that come and go. *)

(** * Geometry *)

Lemma land_align x k : 0 <= x < 2 ^ 64 -> 0 <= k < 64 -> Z.land x (not64 (2 ^ k - 1)) = 2 ^ k * (x / 2 ^ k).
Proof.
  intros Hx Hk. replace (2 ^ k * (x / 2 ^ k)) with (Z.shiftl (Z.shiftr x k) k) by (rewrite Z.shiftl_mul_pow2, Z.shiftr_div_pow2 by lia; lia).
  apply Z.bits_inj'. intros i Hi. rewrite Z.land_spec, Z.shiftl_spec by lia. destruct (Z.lt_ge_cases i 64) as [Hlt|Hge].
  - rewrite not64_bit by lia. replace (2 ^ k - 1) with (Z.ones k) by (rewrite Z.ones_equiv; lia). rewrite Z.testbit_ones_nonneg by lia. destruct (Z.ltb_spec i k) as [E|E]; cbn [negb].
    + rewrite andb_false_r, Z.testbit_neg_r by lia. reflexivity.
    + rewrite Z.shiftr_spec by lia. replace (i - k + k) with i by lia. apply andb_true_r.
  - rewrite (word_bit_high x) by assumption. rewrite Z.shiftr_spec by lia. replace (i - k + k) with i by lia. rewrite (word_bit_high x) by assumption. reflexivity.
Qed.

(** Rounding up to a multiple of a power of two. *)
(** [x] rounded up to a multiple of [a]. *)
Definition round_up (x a : Z) : Z := (x + a - 1) / a * a.

Lemma slab_align_ok x k : 0 <= x -> 0 <= k -> x + 2 ^ k <= 2 ^ 64 -> SLAB_ALIGN_UP x (2 ^ k) = round_up x (2 ^ k).
Proof.
  intros Hx Hk Hs. assert (Hp : 0 < 2 ^ k) by (apply Z.pow_pos_nonneg; lia). unfold SLAB_ALIGN_UP, round_up. rewrite !u64_small by lia. assert (E : x + 2 ^ k - 1 = x + (2 ^ k - 1)) by lia. rewrite E, (Z.mul_comm (_ / _)).
  destruct (Z.lt_ge_cases k 64) as [Hk64|Hk64]; [apply land_align; lia|]. assert (2 ^ 64 <= 2 ^ k) by (apply Z.pow_le_mono_r; lia). assert (x = 0 /\ k = 64) as [-> ->] by (split; [lia|]; destruct (Z.eq_dec k 64); [assumption|]; assert (2 ^ 65 <= 2 ^ k) by (apply Z.pow_le_mono_r; lia); lia). reflexivity.
Qed.

Lemma round_up_bound x a : 0 < a -> x <= round_up x a < x + a /\ round_up x a mod a = 0.
Proof. intros Ha. unfold round_up. pose proof (Z.div_mod (x + a - 1) a ltac:(lia)). pose proof (Z.mod_pos_bound (x + a - 1) a Ha). split; [lia|apply Z.mod_mul; lia]. Qed.

(** The test for a power of two. *)
Lemma pow2_test a : 0 < a -> Z.land a (a - 1) = 0 <-> exists k, 0 <= k /\ a = 2 ^ k.
Proof.
  intros Ha. split.
  - intros E. exists (Z.log2 a). split; [apply Z.log2_nonneg|]. destruct (Z.log2_spec a Ha) as [L1 L2]. destruct (Z.eq_dec a (2 ^ Z.log2 a)) as [|Hne]; [assumption|]. exfalso.
    assert (Hl : Z.log2 (a - 1) = Z.log2 a) by (apply Z.log2_unique; [apply Z.log2_nonneg|lia]). assert (0 < 2 ^ Z.log2 a) by (apply Z.pow_pos_nonneg; [lia|apply Z.log2_nonneg]). pose proof (Z.bit_log2 a Ha) as B1. pose proof (Z.bit_log2 (a - 1) ltac:(lia)) as B2. rewrite Hl in B2. pose proof (Z.land_spec a (a - 1) (Z.log2 a)) as B. rewrite E, B1, B2, Z.bits_0 in B. discriminate.
  - intros (k & Hk & ->). replace (2 ^ k - 1) with (Z.ones k) by (rewrite Z.ones_equiv; lia). rewrite Z.land_ones by exact Hk. apply Z.mod_same. lia.
Qed.

(** A slab of objects of [size] bytes with alignment [al] has room behind its header. *)
Definition fits (size al : Z) : Prop := 1 <= size /\ (exists k, 0 <= k /\ al = 2 ^ k) /\ round_up sizeof_slub_slab (Z.max 8 al) + round_up size (Z.max 8 al) <= 4096.

(** What [Create] computes, if the rounded size has 32 bits. *)
Lemma cache_geometry_ok size al : 0 <= size -> 0 <= al -> size + Z.max 8 al < 2 ^ 32 -> sizeof_slub_slab + Z.max 8 al < 2 ^ 32 ->
  match cache_geometry size al with
  | None => ~ fits size al
  | Some (os, off) => fits size al /\ os = round_up size (Z.max 8 al) /\ off = round_up sizeof_slub_slab (Z.max 8 al)
  end.
Proof.
  intros Hs Ha Hb Hb2. unfold cache_geometry. destruct (Z.eqb_spec size 0) as [->|Hs0]; [intros [? _]; lia|]. destruct (Z.eqb_spec al 0) as [->|Ha0]; [cbn [orb]; intros (_ & (k & Hk & E) & _); pose proof (Z.pow_pos_nonneg 2 k); lia|]. cbn [orb].
  destruct (Z.eqb_spec (Z.land al (al - 1)) 0) as [El|El]; cbn [negb]; [|intros (_ & Hp & _); apply El, pow2_test; [lia|exact Hp]]. apply pow2_test in El as (k & Hk & ->); [|lia].
  assert (Hm : exists k', 3 <= k' /\ (if 2 ^ k <? 8 then 8 else 2 ^ k) = 2 ^ k' /\ 2 ^ k' = Z.max 8 (2 ^ k)).
  { destruct (Z.ltb_spec (2 ^ k) 8) as [Hlt|Hge]; [exists 3; change (2 ^ 3) with 8; lia|exists k]. assert (3 <= k) by (apply (Z.pow_le_mono_r_iff 2); [lia|lia|exact Hge]). split_and!; [lia|reflexivity|lia]. }
  destruct Hm as (k' & Hk' & Em & Emax). rewrite Em. rewrite <- Emax in *. assert (Hp : 0 < 2 ^ k') by (apply Z.pow_pos_nonneg; lia). cbv zeta. rewrite !slab_align_ok by (unfold sizeof_slub_slab in *; lia).
  destruct (round_up_bound size (2 ^ k') Hp) as [A1 _]. destruct (round_up_bound sizeof_slub_slab (2 ^ k') Hp) as [B1 _]. unfold u32. rewrite !Z.mod_small by (unfold sizeof_slub_slab in *; lia). change PAGE_SIZE with 4096. unfold fits. rewrite <- Emax. destruct (Z.ltb_spec 4096 (round_up sizeof_slub_slab (2 ^ k') + round_up size (2 ^ k'))) as [Hlt|Hge].
  - intros (_ & _ & Hf). lia.
  - split; [|auto]. split; [lia|]. split; [eauto|exact Hge].
Qed.

Lemma new_cache_ok name os off : 8 <= os -> 56 <= off -> off + os <= 4096 -> exists c, new_cache name os off = Ok c /\ geom_ok c /\ kc_obj_size c = os /\ kc_area_off c = off /\ kc_partial c = 0 /\ kc_nr_partial c = 0 /\ forall i p, kc_active c !! i = Some p -> p = 0.
Proof.
  intros H1 H2 H3. unfold new_cache. rewrite (proj2 (Z.eqb_neq os 0)) by lia. eexists. split; [reflexivity|]. change PAGE_SIZE with 4096.
  assert (E : 0 <= (4096 - off) / os < 2 ^ 32) by (split; [apply Z.div_pos; lia|]; apply Z.div_lt_upper_bound; lia). split; [split; cbn; unfold u32; rewrite ?Z.mod_small by exact E; unfold sizeof_slub_slab; (lia || reflexivity || apply length_replicate)|].
  split_and!; try reflexivity. cbn. intros i p Hi. now apply lookup_replicate in Hi.
Qed.

Section Life.
Context {PS : Type} `{PSI : !PageSource PS} `{PSL : !PageSourceOk PS}.
Implicit Types (st : slub PS) (V : gmap Z view) (H : gmap Z Z).

(** * A new cache *)

Definition put_cache st (a : Z) (c : kmem_cache) : slub PS := Slub (s_arena st) (s_slabs st) (<[a := c]> (s_caches st)).

Lemma slab_cache_old strict st V H p s : slub_inv strict st V H -> s_slabs st !! p = Some s -> is_Some (s_caches st !! su_cache s).
Proof. intros [I _] Hp. destruct (inv_view I p s Hp) as (v & k & _ & Hk & _). eauto. Qed.

Lemma put_cache_live st V H strict a c z n : slub_inv strict st V H -> s_caches st !! a = None -> live_obj (put_cache st a c) V z n <-> live_obj st V z n.
Proof.
  intros I Ha. unfold live_obj, put_cache. cbn. split; intros (p & s & v & k & Hp & Hv & Hk & Hr); exists p, s, v, k; (split; [exact Hp|]); (split; [exact Hv|]); (split; [|exact Hr]); destruct (slab_cache_old _ _ _ _ _ _ I Hp) as [k0 Hk0]; assert (a <> su_cache s) by congruence.
  - now rewrite lookup_insert_ne in Hk by assumption.
  - now rewrite lookup_insert_ne by assumption.
Qed.

Lemma put_cache_ok strict st V H a c : slub_inv strict st V H -> s_caches st !! a = None -> a <> 0 -> geom_ok c -> kc_partial c = 0 -> kc_nr_partial c = 0 -> (forall i p, kc_active c !! i = Some p -> p = 0) -> slub_inv strict (put_cache st a c) V H.
Proof.
  intros Inv Ha Ha0 G Ep En Eact. pose proof Inv as [I [L1 [O1 O2] L3 L4 L5]]. split; [split; try apply I|split; try assumption].
  - intros p s v Hp Hv. destruct (hi_slab _ _ _ _ I p s v Hp Hv) as (k & Hk & M). exists k. split; [|exact M]. unfold put_cache. cbn. rewrite lookup_insert_ne by congruence. exact Hk.
  - intros b k Hb. cbn in Hb. destruct (decide (a = b)) as [<-|Hne]; [rewrite lookup_insert_eq in Hb; injection Hb as <-; auto|]. rewrite lookup_insert_ne in Hb by exact Hne. exact (hi_geom _ _ _ _ I b k Hb).
  - intros b k Hb. cbn in Hb. destruct (decide (a = b)) as [<-|Hne]; [|rewrite lookup_insert_ne in Hb by exact Hne; exact (L1 b k Hb)]. rewrite lookup_insert_eq in Hb. injection Hb as <-. exists []. split; [exact Ep|]. split; [constructor|]. split; [exact En|]. intros p. split; [intros Hp; now apply not_elem_of_nil in Hp|].
    intros (s & Hs & E & _). destruct (slab_cache_old _ _ _ _ _ _ Inv Hs) as [k Hk]. congruence.
  - split.
    + intros b k i p Hb Hi Hp0. cbn in Hb. destruct (decide (a = b)) as [<-|Hne]; [rewrite lookup_insert_eq in Hb; injection Hb as <-; exfalso; exact (Hp0 (Eact i p Hi))|]. rewrite lookup_insert_ne in Hb by exact Hne. exact (O1 b k i p Hb Hi Hp0).
    + intros p s Hp Ho. destruct (O2 p s Hp Ho) as (Hr & k & Hk & Hi). split; [exact Hr|]. exists k. cbn. rewrite lookup_insert_ne by congruence. auto.
Qed.

(** * A cache without objects in use *)

(** No object of cache [a] is in use. *)
Definition idle st V (a : Z) : Prop := forall p s v, s_slabs st !! p = Some s -> V !! p = Some v -> su_cache s = a -> v_live v = [].

Lemma idle_owned strict st V H a p s : slub_inv strict st V H -> idle st V a -> s_slabs st !! p = Some s -> su_cache s = a -> su_owner s <> -1.
Proof.
  intros [I L] Hid Hp Ea Eo. destruct (inv_view I p s Hp) as (v & k & Hv & _ & _ & M). pose proof (inv_page I p s Hp) as (Hp0 & _). pose proof (st_used _ _ (lk_state _ _ _ _ L p s Hp ltac:(lia)) Eo). pose proof (sm_inuse _ _ _ _ _ _ M) as Ei. rewrite (Hid p s v Hp Hv Ea), missing_other in Ei by lia. cbn in Ei. lia.
Qed.

(** Its partial list is empty. *)
Lemma idle_partial strict st V H a c : slub_inv strict st V H -> idle st V a -> s_caches st !! a = Some c -> kc_partial c = 0 /\ kc_nr_partial c = 0.
Proof.
  intros Inv Hid Ha. pose proof Inv as [I L]. destruct (lk_lists _ _ _ _ L a c Ha) as (l & Hc & _ & Hn & Hl). destruct l as [|p l]; [split; [exact Hc|exact Hn]|]. exfalso. destruct (proj1 (Hl p) ltac:(left)) as (s & Hs & Ea & Eon). exact (idle_owned strict st V H a p s Inv Hid Hs Ea (lk_listed _ _ _ _ L p s Hs Eon)).
Qed.

(** The slab of one CPU is given back. *)
Lemma release_one_ok strict st V H a c i p : slub_inv strict st V H -> idle st V a -> s_caches st !! a = Some c -> 0 <= i < MAX_CPUS -> kc_active c !! Z.to_nat i = Some p -> p <> 0 ->
  wp (let* st := free_slab st p in set_active i 0 a st) (fun st' => exists V' H', slub_inv strict st' V' H' /\ frame [] [] st V H st' V' H' /\ idle st' V' a /\ (forall q t, s_slabs st' !! q = Some t -> s_slabs st !! q = Some t) /\ s_caches st' = <[a := kc_with_active (<[Z.to_nat i := 0]> (kc_active c)) c]> (s_caches st)).
Proof.
  intros Inv Hid Ha Hi Hact Hp0. pose proof Inv as [I L]. destruct (ow_active _ _ (lk_owners _ _ _ _ L) a c _ p Ha Hact Hp0) as (s & Hs & Ea & Eo). rewrite Z2Nat.id in Eo by lia. destruct (inv_view I p s Hs) as (v & k & Hv & _ & _ & _). pose proof (Hid p s v Hs Hv Ea) as Hl.
  apply wp_bind. eapply wp_mono; [apply (free_slab_ok st V H p s v I Hs Hv Hl)|]. intros st1 (I1 & F1 & ES & EC). destruct (hi_geom _ _ _ _ I a c Ha) as [G _]. assert (Ha1 : s_caches st1 !! a = Some c) by now rewrite EC.
  rewrite (set_active_ok st1 a c i 0 Ha1) by (rewrite (ge_active _ G); unfold MAX_CPUS in *; lia). cbn [wp]. set (c' := kc_with_active _ c). set (st2 := Slub _ _ _). assert (Eg : layout_of c' = layout_of c) by (unfold layout_of, c'; cbn; now rewrite length_insert).
  exists (delete p V), (delete p H). assert (I2 : heap_inv 0 st2 (delete p V) (delete p H)) by exact (heap_cache 0 st1 _ _ a c c' I1 Ha1 Eg). split; [split; [exact I2|]|split; [|split; [|split; [|unfold st2; cbn; now rewrite EC]]]].
  - unfold st2. cbn [s_slabs s_caches]. rewrite ES, EC. assert (Eon : su_on_partial s = false) by (destruct (su_on_partial s) eqn:E; [|reflexivity]; pose proof (lk_listed _ _ _ _ L p s Hs E); lia).
    assert (Lr : links_ok strict p (<[p := su_with_owner (-1) s]> (s_slabs st)) (<[a := c']> (s_caches st))).
    { apply (links_reown strict 0 p _ _ p s (-1) a c c' L Hs Ha eq_refl Eon); [|auto|contradiction]. apply (owners_drop _ _ a c p s i c' (lk_owners _ _ _ _ L) Ha Hs Ea Eo ltac:(lia)). reflexivity. }
    pose proof (links_delete strict _ _ p _ Lr ltac:(apply lookup_insert_eq) eq_refl Eon) as Ld. now rewrite delete_insert_eq in Ld.
  - apply (frame_trans [] [] [] [] _ _ _ _ _ _ _ _ _ F1). apply (frame_cache st1 (delete p V) (delete p H)). now apply (size_insert _ a c).
  - intros q t w Hq Hw Et. unfold st2 in Hq. cbn in Hq. rewrite ES in Hq. apply lookup_delete_Some in Hq as [Hne Hq]. rewrite lookup_delete_ne in Hw by exact Hne. exact (Hid q t w Hq Hw Et).
  - intros q t Hq. unfold st2 in Hq. cbn in Hq. rewrite ES in Hq. now apply lookup_delete_Some in Hq.
Qed.

Lemma release_active_ok strict st V H a c : slub_inv strict st V H -> idle st V a -> s_caches st !! a = Some c ->
  wp (release_active st a) (fun st' => exists V' H', slub_inv strict st' V' H' /\ frame [] [] st V H st' V' H' /\ (forall p s, s_slabs st' !! p = Some s -> su_cache s <> a) /\ (forall q t, s_slabs st' !! q = Some t -> s_slabs st !! q = Some t) /\ (forall b, b <> a -> s_caches st' !! b = s_caches st !! b) /\ is_Some (s_caches st' !! a)).
Proof.
  intros Inv Hid Ha. unfold release_active. set (n := Z.to_nat MAX_CPUS). assert (En : Z.of_nat n = MAX_CPUS) by (unfold n, MAX_CPUS; lia). clearbody n.
  eapply wp_mono; [apply (wp_for_up (fun k st' => exists V' H' c', slub_inv strict st' V' H' /\ frame [] [] st V H st' V' H' /\ idle st' V' a /\ (forall q t, s_slabs st' !! q = Some t -> s_slabs st !! q = Some t) /\ s_caches st' !! a = Some c' /\ (forall b, b <> a -> s_caches st' !! b = s_caches st !! b) /\ forall j, 0 <= j < k -> kc_active c' !! Z.to_nat j = Some 0))|].
  - intros i st1 Hi (V1 & H1 & c1 & Inv1 & F1 & Hid1 & Hsub & Ha1 & Eb & Hz). destruct (hi_geom _ _ _ _ (proj1 Inv1) a c1 Ha1) as [G _]. assert (Hir : 0 <= i < MAX_CPUS) by (unfold MAX_CPUS in *; lia). rewrite (cache_at_ok _ _ _ Ha1). cbn [bind].
    destruct (lookup_lt_is_Some_2 (kc_active c1) (Z.to_nat i)) as [p Hp]; [rewrite (ge_active _ G); unfold MAX_CPUS in *; lia|]. rewrite (get_okZ _ _ p) by (try lia; exact Hp). cbn [bind]. destruct (Z.eqb_spec p 0) as [->|Hp0].
    + cbn [wp]. exists V1, H1, c1. split_and!; auto. intros j Hj. destruct (decide (j = i)) as [->|]; [exact Hp|apply Hz; lia].
    + eapply wp_mono; [apply (release_one_ok strict st1 V1 H1 a c1 i p Inv1 Hid1 Ha1 Hir Hp Hp0)|]. intros st2 (V2 & H2 & Inv2 & F2 & Hid2 & Hsub2 & EC). exists V2, H2, (kc_with_active (<[Z.to_nat i := 0]> (kc_active c1)) c1). split; [exact Inv2|]. split; [exact (frame_trans [] [] [] [] _ _ _ _ _ _ _ _ _ F1 F2)|]. split; [exact Hid2|]. split; [auto|].
      rewrite EC. split; [apply lookup_insert_eq|]. split; [intros b Hb; rewrite lookup_insert_ne by congruence; auto|]. intros j Hj. cbn. destruct (decide (j = i)) as [->|Hne]; [apply list_lookup_insert_eq; exact (lookup_lt_Some _ _ _ Hp)|]. rewrite list_lookup_insert_ne by lia. apply Hz. lia.
  - exists V, H, c. split_and!; auto; [apply frame_refl|intros; lia].
  - intros st' (V' & H' & c' & Inv' & F' & Hid' & Hsub & Ha' & Eb & Hz). exists V', H'. split; [exact Inv'|]. split; [exact F'|]. split; [|split; [exact Hsub|split; [exact Eb|eauto]]]. intros p s Hs Ea. pose proof (idle_owned strict st' V' H' a p s Inv' Hid' Hs Ea) as Eo.
    destruct (ow_owner _ _ (lk_owners _ _ _ _ (proj2 Inv')) p s Hs Eo) as (Hr & k & Hk & Hact). rewrite Ea, Ha' in Hk. injection Hk as <-. specialize (Hz (su_owner s)). rewrite Hz in Hact by (unfold MAX_CPUS in *; lia). injection Hact as <-. rewrite (lk_zero _ _ _ _ (proj2 Inv')) in Hs. discriminate.
Qed.

Lemma release_partial_nil st a c : s_caches st !! a = Some c -> kc_partial c = 0 -> release_partial st a = Ok st.
Proof. intros Ha Ep. unfold release_partial. rewrite (cache_at_ok _ _ _ Ha). cbn [bind]. rewrite Ep. reflexivity. Qed.

Lemma release_slabs_ok strict st V H a c : slub_inv strict st V H -> idle st V a -> s_caches st !! a = Some c ->
  wp (release_slabs st a) (fun st' => exists V' H', slub_inv strict st' V' H' /\ frame [] [] st V H st' V' H' /\ (forall p s, s_slabs st' !! p = Some s -> su_cache s <> a) /\ (forall q t, s_slabs st' !! q = Some t -> s_slabs st !! q = Some t) /\ (forall b, b <> a -> s_caches st' !! b = s_caches st !! b) /\ is_Some (s_caches st' !! a)).
Proof.
  intros Inv Hid Ha. destruct (idle_partial strict st V H a c Inv Hid Ha) as [Ep En]. unfold release_slabs. apply wp_bind, wp_ex. exists st. split; [exact (release_partial_nil st a c Ha Ep)|].
  apply wp_bind, wp_ex. exists st. split; [|exact (release_active_ok strict st V H a c Inv Hid Ha)]. rewrite (upd_cache_ok _ _ _ _ Ha).
  replace (kc_with_nr 0 (kc_with_partial 0 c)) with c by (clear - Ep En; destruct c; unfold kc_with_nr, kc_with_partial; cbn in *; now subst). rewrite (insert_id _ _ _ Ha). now destruct st.
Qed.

(** A cache without slabs goes. *)
Definition drop_cache st (a : Z) : slub PS := Slub (s_arena st) (s_slabs st) (delete a (s_caches st)).

Lemma drop_cache_ok strict st V H a : slub_inv strict st V H -> (forall p s, s_slabs st !! p = Some s -> su_cache s <> a) -> slub_inv strict (drop_cache st a) V H /\ forall z n, live_obj (drop_cache st a) V z n <-> live_obj st V z n.
Proof.
  intros [I [L1 [O1 O2] L3 L4 L5]] Hno. split.
  - split; [split; try apply I|split; try assumption].
    + intros p s v Hp Hv. destruct (hi_slab _ _ _ _ I p s v Hp Hv) as (k & Hk & M). exists k. split; [|exact M]. cbn. rewrite lookup_delete_ne; [exact Hk|]. specialize (Hno p s Hp). congruence.
    + intros b k Hb. cbn in Hb. apply lookup_delete_Some in Hb as [_ Hb]. exact (hi_geom _ _ _ _ I b k Hb).
    + intros b k Hb. cbn in Hb. apply lookup_delete_Some in Hb as [_ Hb]. exact (L1 b k Hb).
    + split; [intros b k i p Hb; cbn in Hb; apply lookup_delete_Some in Hb as [_ Hb]; exact (O1 b k i p Hb)|]. intros p s Hp Ho. destruct (O2 p s Hp Ho) as (Hr & k & Hk & Hi). split; [exact Hr|]. exists k. cbn. rewrite lookup_delete_ne; [auto|]. specialize (Hno p s Hp). congruence.
  - intros z n. unfold live_obj, drop_cache. cbn. split; intros (p & s & v & k & Hp & Hv & Hk & Hr); exists p, s, v, k; (split; [exact Hp|]); (split; [exact Hv|]); (split; [|exact Hr]).
    + now apply lookup_delete_Some in Hk as [_ Hk].
    + rewrite lookup_delete_ne; [exact Hk|]. specialize (Hno p s Hp). congruence.
Qed.
End Life.
