(* ===== verification/Slab.v ===== *)
(** The size-class heap of the kernel, [src/kernel/src/mem/slab.cpp]: pages of
    equal objects with encoded free lists, magazines for each CPU, a list shared
    by the CPUs for each class, and a pool of pages.  Objects of more than
    [MAX_SLAB_SIZE] bytes get pages of their own.

    The configuration is the one that is built: without the poisoning option, so
    that red zones have no bytes.  The headers of pages are records; of the union
    of [cache] and [page_count] each variant is a field, and a pointer to a cache
    is its index in [caches].  An operation runs as one step: a magazine is used
    with interrupts masked, the rest under the lock of the cache or of the pool. *)
From stdpp Require Import base gmap list fin_maps.
From Stdlib Require Import ZArith Lia.
From S2P Require Import Prelude Words Memory PMM HeapMem Slub.

Open Scope Z_scope.
Open Scope c_scope.

(** * Data *)

Definition SLAB_SIZE : Z := PAGE_SIZE.
Definition MAX_SLAB_ORDER : Z := 7.
Definition MAX_SLAB_SIZE : Z := 1024.
Definition SLAB_BATCH : Z := 16.
Definition DRAIN_HIGH_WATERMARK : Z := SLAB_BATCH * 4.
Definition DRAIN_LOW_WATERMARK : Z := SLAB_BATCH * 2.
Definition EMPTY_CACHE_LIMIT : Z := 4.
Definition PAGE_POOL_HIGH_WATERMARK : Z := 16.
Definition PAGE_POOL_LOW_WATERMARK : Z := 4.
Definition SLAB_PAGE_MAGIC : Z := 0x50414745.
Definition LARGE_PAGE_MAGIC : Z := 0x51424D55.

Record slab_page_t : Type := SlabPage {
  pg_magic : Z;
  pg_cache : Z;
  pg_count : Z;
  pg_next : Z;
  pg_prev : Z;
  pg_freelist : Z;
  pg_inuse : Z;
  pg_objects : Z
}.
Definition sizeof_slab_page : Z := 48.

Record slab_cache_t : Type := SlabCache {
  sc_obj_size : Z;
  sc_size_class : Z;
  sc_global : Z;             (* global_free_list *)
  sc_global_count : Z;
  sc_partial : Z;
  sc_full : Z;
  sc_empty : Z;
  sc_empty_tail : Z;
  sc_empty_count : Z;
  sc_allocs : Z;
  sc_frees : Z;
  sc_hits : Z;
  sc_total_pages : Z
}.

(** The magazines of a CPU, one for each class. *)
Record cpu_slab_t : Type := CpuSlab { cs_freelist : list Z; cs_count : list Z }.

Record page_pool : Type := Pool { pool_head : Z; pool_tail : Z; pool_count : Z }.

Definition pg_with_next (v : Z) (p : slab_page_t) := SlabPage (pg_magic p) (pg_cache p) (pg_count p) v (pg_prev p) (pg_freelist p) (pg_inuse p) (pg_objects p).
Definition pg_with_prev (v : Z) (p : slab_page_t) := SlabPage (pg_magic p) (pg_cache p) (pg_count p) (pg_next p) v (pg_freelist p) (pg_inuse p) (pg_objects p).
Definition pg_with_freelist (v : Z) (p : slab_page_t) := SlabPage (pg_magic p) (pg_cache p) (pg_count p) (pg_next p) (pg_prev p) v (pg_inuse p) (pg_objects p).
Definition pg_with_inuse (v : Z) (p : slab_page_t) := SlabPage (pg_magic p) (pg_cache p) (pg_count p) (pg_next p) (pg_prev p) (pg_freelist p) v (pg_objects p).

Definition sc_with_global (v n : Z) (c : slab_cache_t) := SlabCache (sc_obj_size c) (sc_size_class c) v n (sc_partial c) (sc_full c) (sc_empty c) (sc_empty_tail c) (sc_empty_count c) (sc_allocs c) (sc_frees c) (sc_hits c) (sc_total_pages c).
Definition sc_with_partial (v : Z) (c : slab_cache_t) := SlabCache (sc_obj_size c) (sc_size_class c) (sc_global c) (sc_global_count c) v (sc_full c) (sc_empty c) (sc_empty_tail c) (sc_empty_count c) (sc_allocs c) (sc_frees c) (sc_hits c) (sc_total_pages c).
Definition sc_with_full (v : Z) (c : slab_cache_t) := SlabCache (sc_obj_size c) (sc_size_class c) (sc_global c) (sc_global_count c) (sc_partial c) v (sc_empty c) (sc_empty_tail c) (sc_empty_count c) (sc_allocs c) (sc_frees c) (sc_hits c) (sc_total_pages c).
Definition sc_with_empty (h t n : Z) (c : slab_cache_t) := SlabCache (sc_obj_size c) (sc_size_class c) (sc_global c) (sc_global_count c) (sc_partial c) (sc_full c) h t n (sc_allocs c) (sc_frees c) (sc_hits c) (sc_total_pages c).
Definition sc_with_allocs (v h : Z) (c : slab_cache_t) := SlabCache (sc_obj_size c) (sc_size_class c) (sc_global c) (sc_global_count c) (sc_partial c) (sc_full c) (sc_empty c) (sc_empty_tail c) (sc_empty_count c) v (sc_frees c) h (sc_total_pages c).
Definition sc_with_frees (v : Z) (c : slab_cache_t) := SlabCache (sc_obj_size c) (sc_size_class c) (sc_global c) (sc_global_count c) (sc_partial c) (sc_full c) (sc_empty c) (sc_empty_tail c) (sc_empty_count c) (sc_allocs c) v (sc_hits c) (sc_total_pages c).
Definition sc_with_pages (v : Z) (c : slab_cache_t) := SlabCache (sc_obj_size c) (sc_size_class c) (sc_global c) (sc_global_count c) (sc_partial c) (sc_full c) (sc_empty c) (sc_empty_tail c) (sc_empty_count c) (sc_allocs c) (sc_frees c) (sc_hits c) v.

Record slab (PS : Type) : Type := Slab {
  b_arena : arena PS;
  b_pages : gmap Z slab_page_t;
  b_caches : list slab_cache_t;      (* caches[MAX_SLAB_ORDER] *)
  b_cpus : gmap Z cpu_slab_t;        (* cslab of each CPU *)
  b_pool : page_pool;
  b_cookie : Z;                      (* g_freeptr_cookie *)
  b_locks : list Z                   (* g_cache_lock_acquires *)
}.
Arguments Slab {PS} b_arena b_pages b_caches b_cpus b_pool b_cookie b_locks.
Arguments b_arena {PS} s.
Arguments b_pages {PS} s.
Arguments b_caches {PS} s.
Arguments b_cpus {PS} s.
Arguments b_pool {PS} s.
Arguments b_cookie {PS} s.
Arguments b_locks {PS} s.

(** * Encoded links *)

Definition fp_encode (cookie slot next : Z) : Z := Z.lxor (Z.lxor next (Z.shiftr slot 12)) cookie.
Definition fp_decode (cookie slot encoded : Z) : Z := Z.lxor (Z.lxor encoded (Z.shiftr slot 12)) cookie.

Definition header_size (obj_size : Z) : Z := SLAB_ALIGN_UP sizeof_slab_page obj_size.

(** A decoded link is NULL or an object of the page. *)
Definition slab_fp_ok (obj_size page next : Z) : bool :=
  if next =? 0 then true
  else
    let hdr := header_size obj_size in
    let off := u64 (next - page) in
    (hdr <=? off) && (u64 (off + obj_size) <=? SLAB_SIZE) && ((off - hdr) mod obj_size =? 0).

(** [(uint64_t)ptr & ~(PAGE_SIZE - 1)] *)
Definition slab_page_of (ptr : Z) : Z := Z.land ptr (not64 (PAGE_SIZE - 1)).

Section Slab.
Context {PS : Type} `{!PageSource PS}.

Definition page_at (s : slab PS) (p : Z) : res slab_page_t :=
  match b_pages s !! p with Some x => Ok x | None => Fault end.
Definition upd_page (f : slab_page_t -> slab_page_t) (p : Z) (s : slab PS) : res (slab PS) :=
  let* x := page_at s p in Ok (Slab (b_arena s) (<[p := f x]> (b_pages s)) (b_caches s) (b_cpus s) (b_pool s) (b_cookie s) (b_locks s)).
Definition class_at (s : slab PS) (i : Z) : res slab_cache_t := get (b_caches s) i.
Definition upd_class (f : slab_cache_t -> slab_cache_t) (i : Z) (s : slab PS) : res (slab PS) :=
  let* c := class_at s i in
  let* l := put (b_caches s) i (f c) in
  Ok (Slab (b_arena s) (b_pages s) l (b_cpus s) (b_pool s) (b_cookie s) (b_locks s)).
Definition b_with_arena (s : slab PS) (A : arena PS) : slab PS := Slab A (b_pages s) (b_caches s) (b_cpus s) (b_pool s) (b_cookie s) (b_locks s).
Definition b_with_pool (s : slab PS) (q : page_pool) : slab PS := Slab (b_arena s) (b_pages s) (b_caches s) (b_cpus s) q (b_cookie s) (b_locks s).
Definition cpu_at (s : slab PS) (id : Z) : res cpu_slab_t :=
  match b_cpus s !! id with Some x => Ok x | None => Fault end.
Definition b_with_cpu (s : slab PS) (id : Z) (x : cpu_slab_t) : slab PS :=
  Slab (b_arena s) (b_pages s) (b_caches s) (<[id := x]> (b_cpus s)) (b_pool s) (b_cookie s) (b_locks s).

(** The magazine of CPU [id] for class [i]: head and count. *)
Definition mag_get (s : slab PS) (id i : Z) : res (Z * Z) :=
  let* x := cpu_at s id in
  let* h := get (cs_freelist x) i in
  let* n := get (cs_count x) i in
  Ok (h, n).
Definition mag_set (s : slab PS) (id i h n : Z) : res (slab PS) :=
  let* x := cpu_at s id in
  let* f := put (cs_freelist x) i h in
  let* c := put (cs_count x) i n in
  Ok (b_with_cpu s id (CpuSlab f c)).

(** [__atomic_add_fetch(&g_cache_lock_acquires[idx], 1)] *)
Definition count_lock (i : Z) (s : slab PS) : res (slab PS) :=
  let* n := get (b_locks s) i in
  let* l := put (b_locks s) i (u64 (n + 1)) in
  Ok (Slab (b_arena s) (b_pages s) (b_caches s) (b_cpus s) (b_pool s) (b_cookie s) l).

Definition b_link (s : slab PS) (x v : Z) : res (slab PS) :=
  let* A := st_link (b_arena s) x v in Ok (b_with_arena s A).

(** * Lists of pages *)

(** Which list of a cache. *)
Inductive page_list : Type := Partial | Full.

Definition list_get (l : page_list) (c : slab_cache_t) : Z := match l with Partial => sc_partial c | Full => sc_full c end.
Definition list_set (l : page_list) (v : Z) (c : slab_cache_t) : slab_cache_t := match l with Partial => sc_with_partial v c | Full => sc_with_full v c end.

Definition slab_list_remove (s : slab PS) (p : Z) (i : Z) (l : page_list) : res (slab PS) :=
  let* x := page_at s p in
  let* s := if pg_prev x =? 0 then upd_class (list_set l (pg_next x)) i s else upd_page (pg_with_next (pg_next x)) (pg_prev x) s in
  let* s := if pg_next x =? 0 then Ok s else upd_page (pg_with_prev (pg_prev x)) (pg_next x) s in
  upd_page (fun x => pg_with_next 0 (pg_with_prev 0 x)) p s.

Definition slab_list_insert_head (s : slab PS) (p : Z) (i : Z) (l : page_list) : res (slab PS) :=
  let* c := class_at s i in
  let h := list_get l c in
  let* s := upd_page (fun x => pg_with_next h (pg_with_prev 0 x)) p s in
  let* s := if h =? 0 then Ok s else upd_page (pg_with_prev p) h s in
  upd_class (list_set l p) i s.

(** * The pool of pages *)

Definition PoolPopOldest (s : slab PS) : res (Z * slab PS) :=
  let p := pool_head (b_pool s) in
  if p =? 0 then Ok (0, s)
  else
    let* x := page_at s p in
    let n := pool_count (b_pool s) in
    let* s :=
      if pg_next x =? 0 then Ok (b_with_pool s (Pool 0 0 (u32 (n - 1))))
      else
        let* s := upd_page (pg_with_prev 0) (pg_next x) s in
        Ok (b_with_pool s (Pool (pg_next x) (pool_tail (b_pool s)) (u32 (n - 1)))) in
    let* s := upd_page (fun x => pg_with_next 0 (pg_with_prev 0 x)) p s in
    Ok (p, s).

(** [VMM::Free(kernel_pagemap, p)] *)
Definition drop_page (s : slab PS) (p : Z) : res (slab PS) :=
  let* A := page_free (b_arena s) p in
  Ok (Slab A (delete p (b_pages s)) (b_caches s) (b_cpus s) (b_pool s) (b_cookie s) (b_locks s)).

Definition PoolReleaseExcess (s : slab PS) : res (slab PS) :=
  let* (s, to_free) := loop (S (size (b_pages s))) (fun '(s, to_free) =>
    let p := pool_head (b_pool s) in
    if (PAGE_POOL_LOW_WATERMARK <? pool_count (b_pool s)) && negb (p =? 0) then
      let* x := page_at s p in
      let n := pool_count (b_pool s) in
      let* s :=
        if pg_next x =? 0 then Ok (b_with_pool s (Pool 0 0 (u32 (n - 1))))
        else
          let* s := upd_page (pg_with_prev 0) (pg_next x) s in
          Ok (b_with_pool s (Pool (pg_next x) (pool_tail (b_pool s)) (u32 (n - 1)))) in
      let* s := upd_page (fun x => pg_with_next to_free (pg_with_prev 0 x)) p s in
      Ok (inl (s, p))
    else Ok (inr (s, to_free))) (s, 0) in
  loop (S (size (b_pages s))) (fun '(s, to_free) =>
    if to_free =? 0 then Ok (inr s)
    else
      let* x := page_at s to_free in
      let* s := drop_page s to_free in
      Ok (inl (s, pg_next x))) (s, to_free).

Definition slab_release_pages (s : slab PS) (i pages : Z) : res (slab PS) :=
  if pages =? 0 then Ok s
  else
    let* s := loop (S (size (b_pages s))) (fun '(s, p) =>
      if p =? 0 then Ok (inr s)
      else
        let* x := page_at s p in
        let* s := upd_class (fun c => sc_with_pages (u64 (sc_total_pages c - 1)) c) i s in
        let* s := upd_page (fun x => pg_with_next 0 (pg_with_prev 0 x)) p s in
        let q := b_pool s in
        let n := u32 (pool_count q + 1) in
        let* s :=
          if pool_tail q =? 0 then Ok (b_with_pool s (Pool p p n))
          else
            let* s := upd_page (pg_with_next p) (pool_tail q) s in
            let* s := upd_page (pg_with_prev (pool_tail q)) p s in
            Ok (b_with_pool s (Pool (pool_head q) p n)) in
        Ok (inl (s, pg_next x))) (s, pages) in
    if PAGE_POOL_HIGH_WATERMARK <=? pool_count (b_pool s) then PoolReleaseExcess s else Ok s.

(** * New pages *)

(** The objects of a page, each linked to the next. *)
Definition link_objects (s : slab PS) (base size n : Z) : res (slab PS) :=
  for_up (Z.to_nat n) 0 (fun i s =>
    let ptr := base + i * size in
    let next := if i =? n - 1 then 0 else ptr + size in
    b_link s ptr (fp_encode (b_cookie s) ptr next)) s.

Definition slab_alloc_page (s : slab PS) (i : Z) : res (Z * slab PS) :=
  let* (p, s) := PoolPopOldest s in
  let* (p, s) :=
    if p =? 0 then let* (p, A) := page_alloc (b_arena s) 1 in Ok (p, b_with_arena s A) else Ok (p, s) in
  if p =? 0 then Ok (0, s)
  else
    let* s := upd_class (fun c => sc_with_pages (u64 (sc_total_pages c + 1)) c) i s in
    let* c := class_at s i in
    let hdr := header_size (sc_obj_size c) in
    let ptr := p + hdr in
    let avail := u64 (SLAB_SIZE - hdr) in
    let objects := u32 (avail / sc_obj_size c) in
    if objects =? 0 then
      let* s := upd_class (fun c => sc_with_pages (u64 (sc_total_pages c - 1)) c) i s in
      let* s := drop_page s p in
      Ok (0, s)
    else
      let s := Slab (b_arena s) (<[p := SlabPage SLAB_PAGE_MAGIC i 0 0 0 ptr 0 objects]> (b_pages s)) (b_caches s) (b_cpus s) (b_pool s) (b_cookie s) (b_locks s) in
      let* s := link_objects s ptr (sc_obj_size c) objects in
      Ok (p, s).

(** * The list shared by the CPUs *)

Definition global_push (s : slab PS) (i obj : Z) : res (slab PS) :=
  let* c := class_at s i in
  let* s := b_link s obj (sc_global c) in
  upd_class (fun c => sc_with_global obj (u64 (sc_global_count c + 1)) c) i s.

Definition global_pop (s : slab PS) (i : Z) : res (Z * slab PS) :=
  let* c := class_at s i in
  let obj := sc_global c in
  let* next := ld_link (b_arena s) obj in
  let* s := upd_class (fun c => sc_with_global next (u64 (sc_global_count c - 1)) c) i s in
  Ok (obj, s).

(** A page without objects in use goes to the end of the empty list; beyond the
    limit the oldest empty page leaves the cache. *)
Definition retire_page (s : slab PS) (i p pages_to_free : Z) : res (slab PS) :=
  let* s := slab_list_remove s p i Partial in
  let* c := class_at s i in
  let n := u32 (sc_empty_count c + 1) in
  let* s := upd_page (pg_with_next 0) p s in
  let* s :=
    if sc_empty c =? 0 then
      let* s := upd_class (sc_with_empty p p n) i s in
      upd_page (pg_with_prev 0) p s
    else
      let* s := upd_page (pg_with_prev (sc_empty_tail c)) p s in
      let* s := upd_page (pg_with_next p) (sc_empty_tail c) s in
      upd_class (sc_with_empty (sc_empty c) p n) i s in
  let* c := class_at s i in
  if EMPTY_CACHE_LIMIT <? sc_empty_count c then
    let old := sc_empty c in
    let* x := page_at s old in
    let* s :=
      if pg_next x =? 0 then upd_class (sc_with_empty 0 0 (u32 (sc_empty_count c - 1))) i s
      else
        let* s := upd_page (pg_with_prev 0) (pg_next x) s in
        upd_class (sc_with_empty (pg_next x) (sc_empty_tail c) (u32 (sc_empty_count c - 1))) i s in
    upd_page (fun x => pg_with_prev 0 (pg_with_next pages_to_free x)) old s
  else Ok s.

(** One object goes from the shared list to its page.  [pages_to_free] is a local
    variable of the source that is never assigned. *)
Definition drain_one (s : slab PS) (i pages_to_free : Z) : res (slab PS) :=
  let* (obj, s) := global_pop s i in
  let p := slab_page_of obj in
  let* x := page_at s p in
  if negb (pg_magic x =? SLAB_PAGE_MAGIC) || negb (pg_cache x =? i) then slab_fatal
  else if pg_inuse x =? 0 then slab_fatal
  else
    let* s := b_link s obj (fp_encode (b_cookie s) obj (pg_freelist x)) in
    let inuse := u32 (pg_inuse x - 1) in
    let* s := upd_page (fun x => pg_with_inuse inuse (pg_with_freelist obj x)) p s in
    let* s :=
      if inuse =? u32 (pg_objects x - 1) then
        let* s := slab_list_remove s p i Full in slab_list_insert_head s p i Partial
      else Ok s in
    if inuse =? 0 then retire_page s i p pages_to_free else Ok s.

Definition DrainGlobalFreeListLocked (s : slab PS) (i : Z) : res (Z * slab PS) :=
  let* c := class_at s i in
  if sc_global_count c <? DRAIN_HIGH_WATERMARK then Ok (0, s)
  else
    let to_drain := sc_global_count c - DRAIN_LOW_WATERMARK in
    let pages_to_free := 0 in
    loop (S (Z.to_nat to_drain)) (fun '(s, k) =>
      if k <? to_drain then
        let* c := class_at s i in
        if sc_global c =? 0 then Ok (inr (pages_to_free, s))
        else let* s := drain_one s i pages_to_free in Ok (inl (s, k + 1))
      else Ok (inr (pages_to_free, s))) (s, 0).

Definition slab_flush_batch_and_release (s : slab PS) (i : Z) (batch : list Z) : res (slab PS) :=
  match batch with
  | [] => Ok s
  | _ =>
      let* s := count_lock i s in
      let* s := for_up (length batch) 0 (fun j s => let* obj := get batch j in global_push s i obj) s in
      let* (pages, s) := DrainGlobalFreeListLocked s i in
      slab_release_pages s i pages
  end.

(** Moves up to [k] objects out of a magazine; the objects, first taken first. *)
Fixpoint mag_take (k : nat) (s : slab PS) (id i : Z) : res (list Z * slab PS) :=
  match k with
  | O => Ok ([], s)
  | S k =>
      let* (h, n) := mag_get s id i in
      if h =? 0 then Ok ([], s)
      else
        let* next := ld_link (b_arena s) h in
        let* s := mag_set s id i next (u32 (n - 1)) in
        let* (l, s) := mag_take k s id i in
        Ok (h :: l, s)
  end.

(** * Interface *)

Definition slab_class (i : Z) : slab_cache_t := SlabCache (16 * 2 ^ i) i 0 0 0 0 0 0 0 0 0 0 0.

(** [tsc]: the time stamp counter. *)
Definition SLAB_Init (s : slab PS) (tsc : Z) : slab PS :=
  Slab (b_arena s) (b_pages s) (slab_class <$> seqZ 0 MAX_SLAB_ORDER) (b_cpus s) (Pool 0 0 0)
    (if tsc =? 0 then 0x9E3779B97F4A7C15 else tsc) (replicate (Z.to_nat MAX_SLAB_ORDER) 0).

(** The index of the cache, [None] for NULL. *)
Definition GetCache (size : Z) : option Z :=
  if MAX_SLAB_SIZE <? size then None
  else if size <=? 16 then Some 0
  else
    let bits := u32 (63 - clz64 (size - 1)) in
    let idx := u32 (bits - 3) in
    if MAX_SLAB_ORDER <=? idx then None else Some idx.

(** Empties the magazines of a CPU that has stopped. *)
Definition drain_class (s : slab PS) (id i : Z) : res (slab PS) :=
  let* (_, count) := mag_get s id i in
  let* (s, batch) := loop (S (Z.to_nat count)) (fun '(s, batch) =>
    let* (h, n) := mag_get s id i in
    if 0 <? n then
      let* next := ld_link (b_arena s) h in
      let* s := mag_set s id i next (u32 (n - 1)) in
      let batch := batch ++ [h] in
      if Z.of_nat (length batch) =? SLAB_BATCH then
        let* s := slab_flush_batch_and_release s i batch in Ok (inl (s, []))
      else Ok (inl (s, batch))
    else Ok (inr (s, batch))) (s, []) in
  slab_flush_batch_and_release s i batch.

Definition DrainCpuCache (s : slab PS) (cpu : option Z) : res (slab PS) :=
  match cpu with
  | None => Ok s
  | Some id => for_up (Z.to_nat MAX_SLAB_ORDER) 0 (fun i s => drain_class s id i) s
  end.

(** A partly used page for the cache; [false] when there is no page. *)
Definition ensure_partial (s : slab PS) (i : Z) : res (bool * slab PS) :=
  let* c := class_at s i in
  if negb (sc_partial c =? 0) then Ok (true, s)
  else if negb (sc_empty c =? 0) then
    let p := sc_empty c in
    let* x := page_at s p in
    let* s := upd_class (sc_with_partial p) i s in
    let* s :=
      if pg_next x =? 0 then upd_class (sc_with_empty 0 0 (u32 (sc_empty_count c - 1))) i s
      else
        let* s := upd_page (pg_with_prev 0) (pg_next x) s in
        upd_class (sc_with_empty (pg_next x) (sc_empty_tail c) (u32 (sc_empty_count c - 1))) i s in
    let* s := upd_page (fun x => pg_with_next 0 (pg_with_prev 0 x)) p s in
    Ok (true, s)
  else
    let* (p, s) := slab_alloc_page s i in
    let* s := upd_class (sc_with_partial p) i s in
    Ok (negb (p =? 0), s).

Definition page_pop (s : slab PS) (i : Z) : res (Z * slab PS) :=
  let* c := class_at s i in
  let p := sc_partial c in
  let* x := page_at s p in
  let obj := pg_freelist x in
  let* w := ld_link (b_arena s) obj in
  let next := fp_decode (b_cookie s) obj w in
  if negb (slab_fp_ok (sc_obj_size c) p next) then slab_fatal
  else if pg_objects x <=? pg_inuse x then slab_fatal
  else
    let* s := upd_page (fun x => pg_with_inuse (u32 (pg_inuse x + 1)) (pg_with_freelist next x)) p s in
    let* s :=
      if next =? 0 then let* s := slab_list_remove s p i Partial in slab_list_insert_head s p i Full
      else Ok s in
    Ok (obj, s).

Fixpoint fill_batch (k : nat) (s : slab PS) (i : Z) : res (list Z * slab PS) :=
  match k with
  | O => Ok ([], s)
  | S k =>
      let* c := class_at s i in
      if negb (sc_global c =? 0) then
        let* (obj, s) := global_pop s i in
        let* (l, s) := fill_batch k s i in
        Ok (obj :: l, s)
      else
        let* (ok, s) := ensure_partial s i in
        if negb ok then Ok ([], s)
        else
          let* (obj, s) := page_pop s i in
          let* (l, s) := fill_batch k s i in
          Ok (obj :: l, s)
  end.

(** Objects behind the first go to the magazine. *)
Fixpoint mag_fill (s : slab PS) (id i : Z) (l : list Z) : res (slab PS) :=
  match l with
  | [] => Ok s
  | obj :: l =>
      let* (h, n) := mag_get s id i in
      let* s := b_link s obj h in
      let* s := mag_set s id i obj (u32 (n + 1)) in
      mag_fill s id i l
  end.

Fixpoint global_fill (s : slab PS) (i : Z) (l : list Z) : res (slab PS) :=
  match l with
  | [] => Ok s
  | obj :: l => let* s := global_push s i obj in global_fill s i l
  end.

(** The slow path: a batch for the CPU. *)
Definition alloc_slow (s : slab PS) (i : Z) (cpu : option Z) : res (Z * slab PS) :=
  let* s := count_lock i s in
  let* (batch, s) := fill_batch (match cpu with Some _ => Z.to_nat SLAB_BATCH | None => 1 end) s i in
  match batch with
  | [] => Ok (0, s)
  | obj :: rest =>
      let* s := match cpu with Some id => mag_fill s id i rest | None => global_fill s i rest end in
      let* s := upd_class (fun c => sc_with_allocs (u64 (sc_allocs c + 1)) (sc_hits c) c) i s in
      Ok (obj, s)
  end.

(** An object of class [i]. *)
Definition alloc_small (s : slab PS) (i : Z) (cpu : option Z) : res (Z * slab PS) :=
  let* m := match cpu with Some id => mag_get s id i | None => Ok (0, 0) end in
  match cpu with
  | Some id =>
      if 0 <? m.2 then
        let* next := ld_link (b_arena s) m.1 in
        let* s := mag_set s id i next (u32 (m.2 - 1)) in
        let* s := upd_class (fun c => sc_with_allocs (u64 (sc_allocs c + 1)) (u64 (sc_hits c + 1)) c) i s in
        Ok (m.1, s)
      else alloc_slow s i cpu
  | None => alloc_slow s i cpu
  end.

Definition div_round_up (x y : Z) : Z := u64 (x + (y - 1)) / y.

Definition alloc_large (s : slab PS) (size : Z) : res (Z * slab PS) :=
  let total := size + sizeof_slab_page in
  if 2 ^ 64 <=? total then Ok (0, s)
  else
    let pages := div_round_up total PAGE_SIZE in
    let* (p, A) := page_alloc (b_arena s) pages in
    if p =? 0 then Ok (0, b_with_arena s A)
    else Ok (p + sizeof_slab_page, Slab A (<[p := SlabPage LARGE_PAGE_MAGIC 0 pages 0 0 0 0 0]> (b_pages s)) (b_caches s) (b_cpus s) (b_pool s) (b_cookie s) (b_locks s)).

Definition SLAB_Alloc (s : slab PS) (size : Z) (cpu : option Z) : res (Z * slab PS) :=
  let size := if size =? 0 then 1 else size in
  if MAX_SLAB_SIZE <? size then alloc_large s size
  else match GetCache size with
       | None => Ok (0, s)
       | Some i => alloc_small s i cpu
       end.

Definition SLAB_AllocAligned (s : slab PS) (size align : Z) (cpu : option Z) : res (Z * slab PS) :=
  if (align =? 0) || negb (Z.land align (align - 1) =? 0) then Ok (0, s)
  else if align <=? 16 then SLAB_Alloc s size cpu
  else
    let need := if align <? size then size else align in
    if MAX_SLAB_SIZE <? need then Ok (0, s) else SLAB_Alloc s need cpu.

Definition SLAB_UserAlloc (s : slab PS) (size : Z) (cpu : option Z) : res (Z * slab PS) := SLAB_Alloc s size cpu.

(** Looks for a pointer in a magazine, for at most [2 * SLAB_BATCH + 2] steps. *)
Fixpoint in_magazine (k : nat) (s : slab PS) (walk ptr : Z) : res bool :=
  match k with
  | O => Ok false
  | S k =>
      if walk =? 0 then Ok false
      else if walk =? ptr then Ok true
      else let* next := ld_link (b_arena s) walk in in_magazine k s next ptr
  end.

Definition free_large (s : slab PS) (p ptr : Z) : res (slab PS) :=
  if negb (p + sizeof_slab_page =? ptr) then slab_fatal else drop_page s p.

Definition free_small (s : slab PS) (i ptr : Z) (cpu : option Z) : res (slab PS) :=
  match cpu with
  | Some id =>
      let* (h, n) := mag_get s id i in
      let* twice := in_magazine (Z.to_nat (SLAB_BATCH * 2 + 2)) s h ptr in
      if twice then slab_fatal
      else
        let* s := b_link s ptr h in
        let* s := mag_set s id i ptr (u32 (n + 1)) in
        if SLAB_BATCH * 2 <? u32 (n + 1) then
          let* (batch, s) := mag_take (Z.to_nat SLAB_BATCH) s id i in
          slab_flush_batch_and_release s i batch
        else Ok s
  | None => slab_flush_batch_and_release s i [ptr]
  end.

Definition SLAB_Free (s : slab PS) (ptr : Z) (cpu : option Z) : res (slab PS) :=
  if ptr =? 0 then Ok s
  else
    let p := slab_page_of ptr in
    let* x := page_at s p in
    if pg_magic x =? LARGE_PAGE_MAGIC then free_large s p ptr
    else if negb (pg_magic x =? SLAB_PAGE_MAGIC) then slab_fatal
    else
      let i := pg_cache x in
      let* s := upd_class (fun c => sc_with_frees (u64 (sc_frees c + 1)) c) i s in
      let* c := class_at s i in
      let hdr := header_size (sc_obj_size c) in
      let off := ptr - p in
      if (off <? hdr) || negb ((off - hdr) mod sc_obj_size c =? 0) then slab_fatal
      else free_small s i ptr cpu.

(** The room behind a pointer; [ero] tells whether errors are tolerated. *)
Definition SLAB_GetSize (s : slab PS) (ptr : Z) (ero : bool) : res Z :=
  if (ptr =? 0) || (ptr <? 0x1000) then Ok 0
  else
    let* x := page_at s (slab_page_of ptr) in
    if pg_magic x =? LARGE_PAGE_MAGIC then Ok (u64 (pg_count x * PAGE_SIZE - sizeof_slab_page))
    else if pg_magic x =? SLAB_PAGE_MAGIC then let* c := class_at s (pg_cache x) in Ok (sc_obj_size c)
    else if ero then Ok 0 else slab_fatal.

(** [__memcpy] *)
Definition b_copy (s : slab PS) (dst src n : Z) : res (slab PS) :=
  let* (m, _) := memcpy X86_64 (S (Z.to_nat n)) (a_mem (b_arena s)) dst src n in
  Ok (b_with_arena s (with_mem (b_arena s) m)).

Definition SLAB_Realloc (s : slab PS) (ptr size : Z) (cpu : option Z) : res (Z * slab PS) :=
  if ptr =? 0 then SLAB_Alloc s size cpu
  else if size =? 0 then let* s := SLAB_Free s ptr cpu in Ok (0, s)
  else
    let* capacity := SLAB_GetSize s ptr true in
    if size <=? capacity then Ok (ptr, s)
    else
      let* (new_ptr, s) := SLAB_Alloc s size cpu in
      if new_ptr =? 0 then Ok (0, s)
      else
        let copy_size := if size <? capacity then size else capacity in
        let* s := b_copy s new_ptr ptr copy_size in
        let* s := SLAB_Free s ptr cpu in
        Ok (new_ptr, s).
End Slab.
