(* ===== verification/SlabInv.v ===== *)
(** Size-class heap: the doubly linked lists of pages; the invariant (every object
    of a page is free in its page, in the list shared by the CPUs, in a magazine,
    or live; pages are in the list that their count of objects in use demands);
    objects, blocks and stacks under it. *)
From stdpp Require Import base gmap list fin_maps.
From Stdlib Require Import ZArith Lia.
From S2P Require Import Prelude Words Memory PMM PMMBits PMMInit HeapMem Slub SlubInv SlubAlloc Slab.

Open Scope Z_scope.
Open Scope c_scope.

(** * Segments *)

(** [dseg P prev h l next]: from [h] the pages [l] are linked both ways; the page
    in front of them is [prev], the one behind [next]. *)
Fixpoint dseg (P : gmap Z slab_page_t) (prev h : Z) (l : list Z) (next : Z) : Prop :=
  match l with
  | [] => h = next
  | x :: l => h = x /\ x <> 0 /\ exists pg, P !! x = Some pg /\ pg_prev pg = prev /\ dseg P x (pg_next pg) l next
  end.

Definition last_or (d : Z) (l : list Z) : Z := default d (last l).

Lemma last_or_cons d x l : last_or d (x :: l) = last_or x l.
Proof. unfold last_or. destruct l as [|y l]; [reflexivity|]. change (last (x :: y :: l)) with (last (y :: l)). destruct (last (y :: l)) eqn:E; [reflexivity|]. apply last_None in E. easy. Qed.

Lemma last_or_snoc d l x : last_or d (l ++ [x]) = x.
Proof. unfold last_or. now rewrite last_snoc. Qed.

Lemma dseg_app P prev h l1 l2 next : dseg P prev h (l1 ++ l2) next <-> exists m, dseg P prev h l1 m /\ dseg P (last_or prev l1) m l2 next.
Proof.
  revert prev h. induction l1 as [|x l1 IH]; intros prev h; cbn [app dseg].
  - split; [intros H; exists h; auto|]. intros (m & -> & H). exact H.
  - rewrite last_or_cons. split.
    + intros (E & Hx & pg & Hp & Epr & H). apply IH in H as (m & H1 & H2). exists m. split; [|exact H2]. eauto 10.
    + intros (m & (E & Hx & pg & Hp & Epr & H1) & H2). split; [exact E|]. split; [exact Hx|]. exists pg. split; [exact Hp|]. split; [exact Epr|]. apply IH. eauto.
Qed.

Lemma dseg_in P prev h l next x : dseg P prev h l next -> x ∈ l -> is_Some (P !! x) /\ x <> 0.
Proof.
  revert prev h. induction l as [|y l IH]; intros prev h Hc Hx; [now apply not_elem_of_nil in Hx|]. destruct Hc as (_ & Hy & pg & Hp & _ & Hc).
  apply elem_of_cons in Hx as [->|Hx]; [eauto|]. eapply IH; eassumption.
Qed.

(** The links of the pages of a segment are all it depends on. *)
Definition page_links (x : slab_page_t) : Z * Z := (pg_next x, pg_prev x).

Lemma dseg_ext P P' prev h l next : (forall x, x ∈ l -> page_links <$> P' !! x = page_links <$> P !! x) -> dseg P prev h l next -> dseg P' prev h l next.
Proof.
  revert prev h. induction l as [|x l IH]; intros prev h He H; [exact H|]. destruct H as (E & Hx & pg & Hp & Epr & H). split; [exact E|]. split; [exact Hx|].
  destruct (fmap_lookup page_links P P' x pg (He x ltac:(left)) Hp) as (pg' & Hp' & [= E1 E2]). exists pg'. split; [exact Hp'|]. split; [congruence|]. rewrite E1. apply IH; [|exact H]. intros y Hy. apply He. now right.
Qed.

Lemma dseg_notin P prev h l next q x : q ∉ l -> dseg P prev h l next -> dseg (<[q := x]> P) prev h l next.
Proof. intros Hq. apply dseg_ext. intros y Hy. rewrite lookup_insert_ne by congruence. reflexivity. Qed.

(** The last page gets another successor. *)
Lemma dseg_set_next P prev h l q pg next n : dseg P prev h (l ++ [q]) next -> P !! q = Some pg -> q ∉ l -> dseg (<[q := pg_with_next n pg]> P) prev h (l ++ [q]) n.
Proof.
  rewrite !dseg_app. intros (m & H1 & (E & Hq0 & pg' & Hp' & Epr & _)) Hp Hq. rewrite Hp in Hp'. injection Hp' as <-. exists m. split; [now apply dseg_notin|].
  cbn. split; [exact E|]. split; [exact Hq0|]. eexists. rewrite lookup_insert_eq. split; [reflexivity|]. cbn. auto.
Qed.

(** The first page gets another predecessor. *)
Lemma dseg_set_prev P prev h q l pg next v : dseg P prev h (q :: l) next -> P !! q = Some pg -> q ∉ l -> dseg (<[q := pg_with_prev v pg]> P) v h (q :: l) next.
Proof.
  intros (E & Hq0 & pg' & Hp' & Epr & H) Hp Hq. rewrite Hp in Hp'. injection Hp' as <-. cbn. split; [exact E|]. split; [exact Hq0|]. eexists. rewrite lookup_insert_eq. split; [reflexivity|].
  split; [reflexivity|]. cbn. now apply dseg_notin.
Qed.

(** What does not belong to the lists. *)
Definition core (x : slab_page_t) : Z * Z * Z * Z * Z * Z := (pg_magic x, pg_cache x, pg_count x, pg_freelist x, pg_inuse x, pg_objects x).

(** What tells the use of a page. *)
Definition kind (x : slab_page_t) : Z * Z * Z := (pg_magic x, pg_cache x, pg_count x).

Lemma core_kind (P P' : gmap Z slab_page_t) q : core <$> P' !! q = core <$> P !! q -> kind <$> P' !! q = kind <$> P !! q.
Proof. destruct (P' !! q) as [x'|], (P !! q) as [x|]; try discriminate; [|reflexivity]. intros [= E1 E2 E3 _ _ _]. cbn. unfold kind. congruence. Qed.

(** [P'] differs from [P] in the links of the pages [l] only. *)
Record relinked (l : list Z) (P P' : gmap Z slab_page_t) : Prop := {
  rl_core q : core <$> P' !! q = core <$> P !! q;
  rl_same q : q ∉ l -> P' !! q = P !! q
}.

Lemma relinked_refl l P : relinked l P P.
Proof. split; auto. Qed.

Lemma relinked_insert l P q x x' : P !! q = Some x -> core x' = core x -> q ∈ l -> relinked l P (<[q := x']> P).
Proof.
  intros Hq E Hl. split; [intros r; now apply (fmap_insert_same core P q x)|]. intros r Hr. rewrite lookup_insert_ne; [reflexivity|]. congruence.
Qed.

Lemma relinked_trans l P P1 P2 : relinked l P P1 -> relinked l P1 P2 -> relinked l P P2.
Proof. intros [A1 B1] [A2 B2]. split; [intros q; now rewrite A2, A1|]. intros q Hq. now rewrite B2, B1. Qed.

Lemma relinked_weak l l' P P' : (forall q, q ∈ l -> q ∈ l') -> relinked l P P' -> relinked l' P P'.
Proof. intros Hl [A B]. split; [exact A|]. intros q Hq. apply B. auto. Qed.

(** Segments of other pages stay. *)
Lemma relinked_dseg l P P' prev h k next : relinked l P P' -> (forall x, x ∈ k -> x ∉ l) -> dseg P prev h k next -> dseg P' prev h k next.
Proof. intros R Hd. apply dseg_ext. intros x Hx. now rewrite (rl_same _ _ _ R x (Hd x Hx)). Qed.

(** * Removing a page *)

Definition nexts (l : list Z) : Z := default 0 (head l).

Lemma dseg_head P prev h l : dseg P prev h l 0 -> h = nexts l.
Proof. destruct l; cbn; [auto|]. now intros (-> & _). Qed.

(** The successor of the last page of [l1], the predecessor of the first page of
    [l2], and the head of the list when a page between them is taken out. *)
Definition set_last_next (P : gmap Z slab_page_t) (l1 : list Z) (v : Z) : gmap Z slab_page_t :=
  match last l1 with Some q => match P !! q with Some y => <[q := pg_with_next v y]> P | None => P end | None => P end.
Definition set_head_prev (P : gmap Z slab_page_t) (l2 : list Z) (v : Z) : gmap Z slab_page_t :=
  match head l2 with Some q => match P !! q with Some y => <[q := pg_with_prev v y]> P | None => P end | None => P end.
Definition new_head (h : Z) (l1 l2 : list Z) : Z := match last l1 with Some _ => h | None => nexts l2 end.

(** The predecessor and the successor of a page that is taken out. *)
Lemma dseg_unlink P h l1 p l2 : NoDup (l1 ++ p :: l2) -> dseg P 0 h (l1 ++ p :: l2) 0 ->
  exists x, P !! p = Some x /\ p <> 0 /\ pg_prev x = last_or 0 l1 /\ pg_next x = nexts l2 /\
    let P1 := set_last_next P l1 (nexts l2) in
    let P2 := set_head_prev P1 l2 (last_or 0 l1) in
    dseg P2 0 (new_head h l1 l2) (l1 ++ l2) 0 /\ relinked (l1 ++ l2) P P2 /\ P2 !! p = Some x.
Proof.
  intros Hnd Hd. destruct (NoDup_remove_mid _ _ _ Hnd) as [Hnd' Hnp]. apply not_elem_of_app in Hnp as [Hp1 Hp2].
  apply dseg_app in Hd as (m & H1 & (-> & Hp0 & x & Hx & Epr & H2)). pose proof (dseg_head _ _ _ _ H2) as Enx. exists x. split; [exact Hx|]. split; [exact Hp0|]. split; [exact Epr|]. split; [exact Enx|]. intros P1 P2.
  apply NoDup_app in Hnd' as (N1 & N12 & N2).
  assert (A1 : dseg P1 0 (new_head h l1 l2) l1 (nexts l2) /\ dseg P1 p (nexts l2) l2 0 /\ relinked l1 P P1).
  { rewrite Enx in H2. unfold P1, set_last_next, new_head. destruct (last l1) as [q|] eqn:El.
    - apply last_Some in El as [l0 ->]. assert (Hq : is_Some (P !! q)) by (apply (dseg_in _ _ _ _ _ _ H1), elem_of_app; right; left). destruct Hq as [y Hy]. rewrite Hy.
      apply NoDup_app in N1 as (_ & N1 & _). assert (Hq0 : q ∉ l0) by (intros Hi; apply (N1 q Hi); left). split; [exact (dseg_set_next P 0 h l0 q y p (nexts l2) H1 Hy Hq0)|].
      split; [apply dseg_notin; [intros Hi; apply (N12 q); [apply elem_of_app; right; left|exact Hi]|exact H2]|]. apply (relinked_insert _ P q y); [exact Hy|reflexivity|apply elem_of_app; right; left].
    - apply last_None in El as ->. cbn in *. split; [reflexivity|]. split; [exact H2|apply relinked_refl]. }
  destruct A1 as (S1 & S2 & R1).
  assert (A2 : dseg P2 0 (new_head h l1 l2) l1 (nexts l2) /\ dseg P2 (last_or 0 l1) (nexts l2) l2 0 /\ relinked l2 P1 P2).
  { unfold P2, set_head_prev. destruct l2 as [|q l2]; [cbn in *; split; [exact S1|split; [reflexivity|apply relinked_refl]]|]. cbn [head nexts default] in *. destruct (dseg_in _ _ _ _ _ q S2 ltac:(left)) as [[y Hy] _]. cbn [default nexts head] in *.
    rewrite Hy. apply NoDup_cons in N2 as [N2 _]. split; [apply dseg_notin; [intros Hi; apply (N12 q Hi); left|exact S1]|]. split; [exact (dseg_set_prev P1 p _ q l2 y 0 _ S2 Hy N2)|].
    apply (relinked_insert _ P1 q y); [exact Hy|reflexivity|left]. }
  destruct A2 as (T1 & T2 & R2). split; [apply dseg_app; exists (nexts l2); split; [exact T1|exact T2]|]. split.
  - apply (relinked_trans _ P P1 P2); [apply (relinked_weak l1); [|exact R1]|apply (relinked_weak l2); [|exact R2]]; intros q Hq; apply elem_of_app; auto.
  - rewrite (rl_same _ _ _ R2 p Hp2), (rl_same _ _ _ R1 p Hp1). exact Hx.
Qed.

Section Lists.
Context {PS : Type} `{PSI : !PageSource PS}.
Implicit Types (s : slab PS).

Lemma page_at_ok s p x : b_pages s !! p = Some x -> page_at s p = Ok x.
Proof. unfold page_at. now intros ->. Qed.

Lemma upd_page_ok s f p x : b_pages s !! p = Some x -> upd_page f p s = Ok (Slab (b_arena s) (<[p := f x]> (b_pages s)) (b_caches s) (b_cpus s) (b_pool s) (b_cookie s) (b_locks s)).
Proof. intros H. unfold upd_page. now rewrite (page_at_ok _ _ _ H). Qed.

Lemma class_at_ok s i c : 0 <= i -> b_caches s !! Z.to_nat i = Some c -> class_at s i = Ok c.
Proof. intros. now apply get_okZ. Qed.

Lemma upd_class_ok s f i c : 0 <= i -> b_caches s !! Z.to_nat i = Some c ->
  upd_class f i s = Ok (Slab (b_arena s) (b_pages s) (<[Z.to_nat i := f c]> (b_caches s)) (b_cpus s) (b_pool s) (b_cookie s) (b_locks s)).
Proof.
  intros Hi Hc. unfold upd_class. rewrite (class_at_ok _ _ _ Hi Hc). cbn [bind]. pose proof (lookup_lt_Some _ _ _ Hc). rewrite put_okZ by lia. reflexivity.
Qed.

(** The state with other pages and another cache [i]. *)
Definition moved s (P : gmap Z slab_page_t) (i : Z) (c : slab_cache_t) : slab PS := Slab (b_arena s) P (<[Z.to_nat i := c]> (b_caches s)) (b_cpus s) (b_pool s) (b_cookie s) (b_locks s).

Lemma list_get_set k v c : list_get k (list_set k v c) = v.
Proof. now destruct k. Qed.

Lemma slab_list_remove_ok s i c k l1 p l2 : 0 <= i -> b_caches s !! Z.to_nat i = Some c -> NoDup (l1 ++ p :: l2) -> dseg (b_pages s) 0 (list_get k c) (l1 ++ p :: l2) 0 ->
  exists P h x, slab_list_remove s p i k = Ok (moved s P i (list_set k h c)) /\ dseg P 0 h (l1 ++ l2) 0 /\ relinked (l1 ++ p :: l2) (b_pages s) P /\ b_pages s !! p = Some x /\ P !! p = Some (pg_with_next 0 (pg_with_prev 0 x)).
Proof.
  intros Hi Hc Hnd Hd. destruct (dseg_unlink _ _ _ _ _ Hnd Hd) as (x & Hx & Hp0 & Epr & Enx & HP). cbv zeta in HP. destruct HP as (D & R & Hx2).
  set (P1 := set_last_next _ _ _) in *. set (P2 := set_head_prev _ _ _) in *. set (h := new_head _ _ _) in *.
  exists (<[p := pg_with_next 0 (pg_with_prev 0 x)]> P2), h, x. unfold slab_list_remove. rewrite (page_at_ok _ _ _ Hx). cbn [bind].
  destruct (NoDup_remove_mid _ _ _ Hnd) as [_ Hnp].
  assert (E1 : (if pg_prev x =? 0 then upd_class (list_set k (pg_next x)) i s else upd_page (pg_with_next (pg_next x)) (pg_prev x) s) = Ok (moved s P1 i (list_set k h c))).
  { rewrite Epr, Enx. unfold h, P1, last_or, new_head, set_last_next. apply dseg_app in Hd as (m & H1 & _). destruct (last l1) as [q|] eqn:El; cbn [from_option id].
    - apply last_Some in El as [l0 ->]. destruct (dseg_in _ _ _ _ _ q H1) as [[y Hy] Hq0]; [apply elem_of_app; right; left|]. rewrite (proj2 (Z.eqb_neq _ _) Hq0), (upd_page_ok _ _ _ _ Hy), Hy.
      unfold moved. rewrite list_insert_id; [reflexivity|]. rewrite Hc. f_equal. destruct c, k; reflexivity.
    - cbn [Z.eqb]. now rewrite (upd_class_ok _ _ _ _ Hi Hc). }
  rewrite E1. cbn [bind].
  assert (E2 : (if pg_next x =? 0 then Ok (moved s P1 i (list_set k h c)) else upd_page (pg_with_prev (pg_prev x)) (pg_next x) (moved s P1 i (list_set k h c))) = Ok (moved s P2 i (list_set k h c))).
  { rewrite Epr, Enx. unfold P2, set_head_prev. destruct l2 as [|q l2]; [reflexivity|]. change (nexts (q :: l2)) with q. cbn [head]. destruct (dseg_in _ _ _ _ _ q Hd) as [_ Hq0]; [apply elem_of_app; right; right; left|].
    rewrite (proj2 (Z.eqb_neq _ _) Hq0). assert (Hq : is_Some (P1 !! q)).
    { destruct (dseg_in _ _ _ _ _ q Hd) as [[y Hy] _]; [apply elem_of_app; right; right; left|]. unfold P1, set_last_next. destruct (last l1) as [r|]; [|eauto]. destruct (b_pages s !! r); [|eauto]. rewrite lookup_insert_is_Some'. eauto. }
    destruct Hq as [y Hy]. rewrite Hy. erewrite upd_page_ok by exact Hy. reflexivity. }
  rewrite E2. cbn [bind]. erewrite upd_page_ok by exact Hx2. split; [reflexivity|]. split; [now apply dseg_notin|]. split; [|split; [exact Hx|apply lookup_insert_eq]].
  apply (relinked_trans _ _ P2); [apply (relinked_weak (l1 ++ l2)); [|exact R]; intros q; rewrite !elem_of_app, elem_of_cons; tauto|]. apply (relinked_insert _ P2 p x); [exact Hx2|reflexivity|apply elem_of_app; right; left].
Qed.

Lemma slab_list_insert_ok s i c k l p x : 0 <= i -> b_caches s !! Z.to_nat i = Some c -> dseg (b_pages s) 0 (list_get k c) l 0 -> NoDup (p :: l) -> b_pages s !! p = Some x -> p <> 0 ->
  exists P, slab_list_insert_head s p i k = Ok (moved s P i (list_set k p c)) /\ dseg P 0 p (p :: l) 0 /\ relinked (p :: l) (b_pages s) P.
Proof.
  intros Hi Hc Hd Hnd Hx Hp0. apply NoDup_cons in Hnd as [Hpl Hnd]. unfold slab_list_insert_head. rewrite (class_at_ok _ _ _ Hi Hc). cbn [bind]. rewrite (upd_page_ok _ _ _ _ Hx). cbn [bind].
  pose proof (dseg_head _ _ _ _ Hd) as Eh. set (x1 := pg_with_next _ _). set (P1 := <[p := x1]> (b_pages s)). assert (R1 : relinked (p :: l) (b_pages s) P1) by (apply (relinked_insert _ _ p x); [exact Hx|reflexivity|left]).
  assert (D1 : dseg P1 0 (list_get k c) l 0) by now apply dseg_notin. rewrite Eh in *. destruct l as [|q l]; [change (nexts []) with 0 in *; cbn [Z.eqb bind] in *|change (nexts (q :: l)) with q in *].
  - exists P1. erewrite upd_class_ok by (try exact Hi; exact Hc). split; [reflexivity|]. split; [|exact R1]. split; [reflexivity|]. split; [exact Hp0|]. exists x1. unfold P1. rewrite lookup_insert_eq. auto.
  - destruct D1 as (_ & Hq0 & y & Hy & Epy & D1). rewrite (proj2 (Z.eqb_neq _ _) Hq0). erewrite upd_page_ok by exact Hy. cbn [bind]. erewrite upd_class_ok by (try exact Hi; exact Hc).
    assert (Hpq : p <> q) by (intros ->; apply Hpl; left). apply NoDup_cons in Hnd as [Hql _].
    exists (<[q := pg_with_prev p y]> P1). split; [reflexivity|]. split.
    + split; [reflexivity|]. split; [exact Hp0|]. exists x1. rewrite lookup_insert_ne by congruence. unfold P1 at 1. rewrite lookup_insert_eq. split; [reflexivity|]. split; [reflexivity|].
      replace (pg_next x1) with q by (symmetry; exact Eh). apply (dseg_set_prev P1 0 q q l y 0 p); [|exact Hy|exact Hql]. split; [reflexivity|]. split; [exact Hq0|]. exists y. auto.
    + apply (relinked_trans _ _ P1); [exact R1|]. apply (relinked_insert _ P1 q y); [exact Hy|reflexivity|right; left].
Qed.
End Lists.

(** The invariant of the size-class heap: every object of a page is free in its
    page, in the list shared by the CPUs, in a magazine, or live; the pages are in
    the list that their count of objects in use demands. *)

(** * Classes *)

Definition class_size (i : Z) : Z := 16 * 2 ^ i.
Definition class_hdr (i : Z) : Z := header_size (class_size i).
Definition class_objs (i : Z) : Z := (4096 - class_hdr i) / class_size i.

Lemma class_cases i : 0 <= i < 7 -> i = 0 \/ i = 1 \/ i = 2 \/ i = 3 \/ i = 4 \/ i = 5 \/ i = 6.
Proof. lia. Qed.

Ltac class_compute H := destruct (class_cases _ H) as [->|[->|[->|[->|[->|[->| ->]]]]]]; vm_compute; intuition congruence.

Lemma class_geom i : 0 <= i < 7 -> 16 <= class_size i <= 1024 /\ 48 <= class_hdr i /\ class_hdr i + class_objs i * class_size i <= 4096 /\ 3 <= class_objs i <= 253 /\
  class_hdr i mod class_size i = 0 /\ 4096 mod class_size i = 0 /\ u32 (u64 (SLAB_SIZE - class_hdr i) / class_size i) = class_objs i.
Proof. intros H. class_compute H. Qed.

(** The objects of a page of class [i]. *)
Definition sgrid (i p : Z) : list Z := (fun k => p + class_hdr i + k * class_size i) <$> seqZ 0 (class_objs i).

Lemma elem_of_sgrid i p x : x ∈ sgrid i p <-> exists k, 0 <= k < class_objs i /\ x = p + class_hdr i + k * class_size i.
Proof.
  unfold sgrid. rewrite list_elem_of_fmap. split.
  - intros (k & -> & Hk). apply elem_of_seqZ in Hk. exists k. split; [lia|reflexivity].
  - intros (k & Hk & ->). exists k. split; [reflexivity|]. apply elem_of_seqZ. lia.
Qed.

Lemma sgrid_bound i p x : 0 <= i < 7 -> x ∈ sgrid i p -> p + 48 <= x /\ x + class_size i <= p + 4096 /\ x + 8 <= p + 4096.
Proof. intros Hi (k & Hk & ->)%elem_of_sgrid. pose proof (class_geom i Hi). nia. Qed.

Lemma sgrid_apart i p x y : 0 <= i < 7 -> x ∈ sgrid i p -> y ∈ sgrid i p -> x <> y -> x + class_size i <= y \/ y + class_size i <= x.
Proof.
  intros Hi (j & Hj & ->)%elem_of_sgrid (k & Hk & ->)%elem_of_sgrid Hne. pose proof (class_geom i Hi).
  destruct (Z.lt_trichotomy j k) as [|[->|]]; [left; nia|contradiction|right; nia].
Qed.

Lemma sgrid_NoDup i p : 0 <= i < 7 -> NoDup (sgrid i p).
Proof. intros Hi. unfold sgrid. apply NoDup_fmap_2_strong; [|apply NoDup_seqZ]. intros j k _ _ E. pose proof (class_geom i Hi). nia. Qed.

Lemma sgrid_length i p : 0 <= i < 7 -> Z.of_nat (length (sgrid i p)) = class_objs i.
Proof. intros Hi. pose proof (class_geom i Hi). unfold sgrid. rewrite length_fmap, length_seqZ. lia. Qed.

Lemma slab_page_in p x : p mod 4096 = 0 -> 0 <= p -> p <= x < p + 4096 -> x < 2 ^ 64 -> slab_page_of x = p.
Proof. intros Hp H0 Hx H64. unfold slab_page_of. rewrite land_page by (unfold word; lia). dlia. Qed.

(** * Pages *)

Definition is_page (i : Z) (x : slab_page_t) : Prop := pg_magic x = SLAB_PAGE_MAGIC /\ pg_cache x = i.

(** The lists of a cache.  A page that is exempt may be in any list or none. *)
Record class_lists (P : gmap Z slab_page_t) (ex i : Z) (c : slab_cache_t) (lp lf le : list Z) : Prop := {
  cl_partial : dseg P 0 (sc_partial c) lp 0;
  cl_full : dseg P 0 (sc_full c) lf 0;
  cl_empty : dseg P 0 (sc_empty c) le 0;
  cl_tail : sc_empty_tail c = last_or 0 le;
  cl_count : sc_empty_count c = Z.of_nat (length le);
  cl_few : Z.of_nat (length le) <= EMPTY_CACHE_LIMIT;
  cl_nodup : NoDup (lp ++ lf ++ le);
  cl_pages p : p ∈ lp ++ lf ++ le -> exists x, P !! p = Some x /\ is_page i x;
  cl_in_partial p x : P !! p = Some x -> is_page i x -> p <> ex -> (p ∈ lp <-> 0 < pg_inuse x < pg_objects x);
  cl_in_full p x : P !! p = Some x -> is_page i x -> p <> ex -> (p ∈ lf <-> pg_inuse x = pg_objects x);
  cl_in_empty p x : P !! p = Some x -> is_page i x -> p <> ex -> p ∈ le -> pg_inuse x = 0
}.

Definition struct_ok (ex : Z) (P : gmap Z slab_page_t) (C : list slab_cache_t) : Prop :=
  forall i c, C !! i = Some c -> exists lp lf le, class_lists P ex (Z.of_nat i) c lp lf le.

(** * Objects *)

(** Where an object is that is not free in its page. *)
Inductive place : Type := InGlobal | InMag (id : Z) | Live.

#[export] Instance place_eq_dec : EqDecision place.
Proof. solve_decision. Defined.

(** A page of class [i] with the free objects [fl]. *)
Record page_ok (m : mem) (cookie : Z) (W : gmap Z place) (p : Z) (x : slab_page_t) (fl : list Z) : Prop := {
  po_magic : pg_magic x = SLAB_PAGE_MAGIC;
  po_class : 0 <= pg_cache x < 7;
  po_chain : chain (fp_decode cookie) m (pg_freelist x) fl;
  po_nodup : NoDup fl;
  po_grid y : y ∈ fl -> y ∈ sgrid (pg_cache x) p;
  po_objects : pg_objects x = class_objs (pg_cache x);
  po_inuse : pg_inuse x = class_objs (pg_cache x) - Z.of_nat (length fl);
  po_out y : y ∈ sgrid (pg_cache x) p -> (y ∈ fl <-> W !! y = None)
}.

(** The objects [l] are those of class [i] at a place. *)
Definition at_class (P : gmap Z slab_page_t) (i y : Z) : Prop := exists x, P !! slab_page_of y = Some x /\ is_page i x.
Definition lists_place (P : gmap Z slab_page_t) (W : gmap Z place) (i : Z) (w : place) (l : list Z) : Prop :=
  NoDup l /\ forall y, y ∈ l <-> W !! y = Some w /\ at_class P i y.

Definition MAG_MAX : Z := SLAB_BATCH * 2 + 1.

(** A stack of objects: head and count. *)
Definition stack_ok (m : mem) (P : gmap Z slab_page_t) (W : gmap Z place) (w : place) (i : nat) (h n : Z) : Prop :=
  exists l, chain raw m h l /\ lists_place P W (Z.of_nat i) w l /\ n = Z.of_nat (length l) /\ (w <> InGlobal -> n <= MAG_MAX).

Section Inv.
Context {PS : Type} `{PSI : !PageSource PS} `{PSL : !PageSourceOk PS}.

(** The shared list and the magazines of class [i]. *)
Definition stack_at (s : slab PS) (w : place) (i : nat) : option (Z * Z) :=
  match w with
  | InGlobal => (fun c => (sc_global c, sc_global_count c)) <$> b_caches s !! i
  | InMag id => q ← b_cpus s !! id; h ← cs_freelist q !! i; n ← cs_count q !! i; Some (h, n)
  | Live => None
  end.

Record objects_ok (s : slab PS) (W : gmap Z place) (F : gmap Z (list Z)) (H : gmap Z Z) : Prop := {
  ob_arena : arena_ok (b_arena s) H;
  ob_cookie : 0 <= b_cookie s < 2 ^ 64;
  ob_classes : length (b_caches s) = 7%nat;
  ob_geom i c : b_caches s !! i = Some c -> sc_obj_size c = class_size (Z.of_nat i) /\ sc_size_class c = Z.of_nat i;
  ob_locks : length (b_locks s) = 7%nat;
  ob_pool : b_pool s = Pool 0 0 0;
  ob_page p x : b_pages s !! p = Some x ->
    (pg_magic x = LARGE_PAGE_MAGIC /\ F !! p = None /\ H !! p = Some (pg_count x)) \/
    (H !! p = Some 1 /\ exists fl, F !! p = Some fl /\ page_ok (a_mem (b_arena s)) (b_cookie s) W p x fl);
  ob_free p : F !! p <> None -> b_pages s !! p <> None;
  ob_where y w : W !! y = Some w -> exists x, b_pages s !! slab_page_of y = Some x /\ pg_magic x = SLAB_PAGE_MAGIC /\ y ∈ sgrid (pg_cache x) (slab_page_of y);
  ob_stack w i h n : stack_at s w i = Some (h, n) -> stack_ok (a_mem (b_arena s)) (b_pages s) W w i h n;
  ob_cpus id q : b_cpus s !! id = Some q -> length (cs_freelist q) = 7%nat /\ length (cs_count q) = 7%nat;
  ob_cpu y id : W !! y = Some (InMag id) -> is_Some (b_cpus s !! id)
}.

Definition slab_inv (s : slab PS) (W : gmap Z place) (F : gmap Z (list Z)) (H : gmap Z Z) : Prop :=
  objects_ok s W F H /\ struct_ok 0 (b_pages s) (b_caches s).

(** * Blocks *)

(** A block that is in use: an object, or a run of pages behind its header. *)
Definition block (s : slab PS) (W : gmap Z place) (z n : Z) : Prop :=
  (W !! z = Some Live /\ exists x, b_pages s !! slab_page_of z = Some x /\ n = class_size (pg_cache x)) \/
  (exists p x, b_pages s !! p = Some x /\ pg_magic x = LARGE_PAGE_MAGIC /\ z = p + 48 /\ n = pg_count x * 4096 - 48).

(** As for the object caches: what stays, and what is in use afterwards. *)
Record bframe (X Y : list Z) (s : slab PS) (W : gmap Z place) (H : gmap Z Z) (s' : slab PS) (W' : gmap Z place) (H' : gmap Z Z) : Prop := {
  bf_live z n : block s W z n -> z ∉ X -> block s' W' z n /\ agree (a_mem (b_arena s)) (a_mem (b_arena s')) z n;
  bf_back z n : block s' W' z n -> (block s W z n /\ z ∉ X) \/ z ∈ Y;
  bf_other q n : H !! q = Some n -> b_pages s !! q = None -> H' !! q = Some n /\ b_pages s' !! q = None /\ agree (a_mem (b_arena s)) (a_mem (b_arena s')) q (n * 4096);
  bf_new q n : H' !! q = Some n -> b_pages s' !! q = None -> H !! q = Some n /\ b_pages s !! q = None
}.

Lemma bframe_refl s W H : bframe [] [] s W H s W H.
Proof.
  split.
  - intros z n Hz _. split; [exact Hz|apply agree_refl].
  - intros z n Hz. left. split; [exact Hz|apply not_elem_of_nil].
  - intros q n Hq Hs. split; [exact Hq|]. split; [exact Hs|apply agree_refl].
  - auto.
Qed.

Lemma bframe_trans X1 Y1 X2 Y2 X Y s W H s1 W1 H1 s2 W2 H2 : bframe X1 Y1 s W H s1 W1 H1 -> bframe X2 Y2 s1 W1 H1 s2 W2 H2 ->
  (forall z n, block s W z n -> z ∉ X <-> z ∉ X1 /\ z ∉ X2) -> (forall z, z ∈ Y1 -> z ∈ X2 \/ z ∈ Y) -> (forall z, z ∈ Y2 -> z ∈ Y) -> bframe X Y s W H s2 W2 H2.
Proof.
  intros F1 F2 HX HY1 HY2. split.
  - intros z n Hz Hn. apply (HX z n Hz) in Hn as [Hn1 Hn2]. destruct (bf_live _ _ _ _ _ _ _ _ F1 z n Hz Hn1) as [L1 A1].
    destruct (bf_live _ _ _ _ _ _ _ _ F2 z n L1 Hn2) as [L2 A2]. split; [exact L2|]. now apply agree_trans with (a_mem (b_arena s1)).
  - intros z n Hz. destruct (bf_back _ _ _ _ _ _ _ _ F2 z n Hz) as [[L Hn2]|Hy]; [|right; auto].
    destruct (bf_back _ _ _ _ _ _ _ _ F1 z n L) as [[L' Hn1]|Hy]; [left; split; [exact L'|]; apply (HX z n L'); auto|]. right. destruct (HY1 z Hy); [contradiction|assumption].
  - intros q n Hq Hs. destruct (bf_other _ _ _ _ _ _ _ _ F1 q n Hq Hs) as (Hq1 & Hs1 & A1). destruct (bf_other _ _ _ _ _ _ _ _ F2 q n Hq1 Hs1) as (Hq2 & Hs2 & A2).
    split; [exact Hq2|]. split; [exact Hs2|]. now apply agree_trans with (a_mem (b_arena s1)).
  - intros q n Hq Hs. destruct (bf_new _ _ _ _ _ _ _ _ F2 q n Hq Hs) as [Hq1 Hs1]. exact (bf_new _ _ _ _ _ _ _ _ F1 q n Hq1 Hs1).
Qed.
End Inv.

(** Size-class heap: objects apart from each other, and moves of an object between
    its holder and the stacks. *)

(** * Places *)

Lemma lists_other P W j w l y ow : lists_place P W j w l -> ~ (W !! y = Some w /\ at_class P j y) -> ~ (ow = Some w /\ at_class P j y) ->
  lists_place P (partial_alter (fun _ => ow) y W) j w l.
Proof.
  intros [Hn Hl] H1 H2. split; [exact Hn|]. intros z. rewrite Hl. destruct (decide (y = z)) as [<-|Hne]; [rewrite lookup_partial_alter_eq; tauto|now rewrite lookup_partial_alter_ne].
Qed.

Lemma lists_push P W j w l y : lists_place P W j w l -> W !! y <> Some w -> at_class P j y -> lists_place P (<[y := w]> W) j w (y :: l).
Proof.
  intros [Hn Hl] H1 H2. split; [constructor; [|exact Hn]; rewrite Hl; tauto|]. intros z. rewrite elem_of_cons, Hl. destruct (decide (y = z)) as [<-|Hne].
  - rewrite lookup_insert_eq. tauto.
  - rewrite lookup_insert_ne by exact Hne. intuition congruence.
Qed.

Lemma lists_pop P W j w l y ow : lists_place P W j w (y :: l) -> ow <> Some w -> lists_place P (partial_alter (fun _ => ow) y W) j w l.
Proof.
  intros [Hn Hl] H1. apply NoDup_cons in Hn as [Hy Hn]. split; [exact Hn|]. intros z. destruct (decide (y = z)) as [<-|Hne].
  - rewrite lookup_partial_alter_eq. split; [contradiction|]. intros [E _]. contradiction.
  - rewrite lookup_partial_alter_ne by exact Hne. rewrite <- Hl, elem_of_cons. intuition congruence.
Qed.

Lemma insert_as_alter (W : gmap Z place) y w : <[y := w]> W = partial_alter (fun _ => Some w) y W.
Proof. reflexivity. Qed.

(** Only the kinds of pages matter. *)
Lemma at_class_kind P P' j y : (forall q, kind <$> P' !! q = kind <$> P !! q) -> at_class P j y -> at_class P' j y.
Proof.
  intros HP (x & Hx & H1 & H2). destruct (fmap_lookup kind P P' _ x (HP _) Hx) as (x' & Hx' & [= E1 E2 E3]). exists x'. split; [exact Hx'|]. split; congruence.
Qed.

Lemma lists_kind P P' W j w l : (forall q, kind <$> P' !! q = kind <$> P !! q) -> lists_place P W j w l -> lists_place P' W j w l.
Proof. intros HP [Hn Hl]. split; [exact Hn|]. intros z. rewrite Hl. split; intros [Hw Hc]; (split; [exact Hw|]); [now apply (at_class_kind P)|now apply (at_class_kind P'); auto]. Qed.

Section Obj.
Context {PS : Type} `{PSI : !PageSource PS} `{PSL : !PageSourceOk PS}.
Implicit Types (s : slab PS) (W : gmap Z place) (F : gmap Z (list Z)) (H : gmap Z Z).

(** [y] is an object of a page of class [i]. *)
Definition obj_of s (i y : Z) : Prop := exists x, b_pages s !! slab_page_of y = Some x /\ is_page i x /\ y ∈ sgrid i (slab_page_of y).

Section Facts.
Context {s : slab PS} {W : gmap Z place} {F : gmap Z (list Z)} {H : gmap Z Z} (I : objects_ok s W F H).

Lemma pg_small p x : b_pages s !! p = Some x -> pg_magic x = SLAB_PAGE_MAGIC -> H !! p = Some 1 /\ 0 <= pg_cache x < 7 /\ range_ok p 1 /\ exists fl, F !! p = Some fl /\ page_ok (a_mem (b_arena s)) (b_cookie s) W p x fl.
Proof using I.
  intros Hp Hm. destruct (ob_page _ _ _ _ I p x Hp) as [(E & _)|(HH & fl & HF & K)]; [rewrite Hm in E; discriminate|]. split; [exact HH|]. split; [apply K|]. split; [|eauto].
  exact (ps_range _ _ _ _ (ar_src _ _ (ob_arena _ _ _ _ I)) HH).
Qed.

Lemma obj_facts i y : obj_of s i y -> 0 <= i < 7 /\ H !! slab_page_of y = Some 1 /\ range_ok (slab_page_of y) 1 /\ slab_page_of y + 48 <= y /\ y + class_size i <= slab_page_of y + 4096 /\ 0 < y < 2 ^ 64 /\ 16 <= class_size i /\ inside H y.
Proof using I.
  intros (x & Hx & [H1 H2] & Hy). destruct (pg_small _ x Hx H1) as (HH & Hi & Hr & _). rewrite H2 in Hi. destruct (sgrid_bound i _ y Hi Hy) as (B1 & B2 & B3). pose proof (class_geom i Hi) as (G & _).
  pose proof Hr as (R1 & R2 & R3 & R4). split_and!; try lia; try assumption. exists (slab_page_of y), 1. split; [exact HH|]. lia.
Qed.

(** An object of a page, by its address. *)
Lemma obj_in p x y : b_pages s !! p = Some x -> pg_magic x = SLAB_PAGE_MAGIC -> y ∈ sgrid (pg_cache x) p -> slab_page_of y = p /\ obj_of s (pg_cache x) y.
Proof using I.
  intros Hp Hm Hy. destruct (pg_small p x Hp Hm) as (_ & Hi & (R1 & R2 & _ & R4) & _). destruct (sgrid_bound _ _ y Hi Hy) as (B1 & B2 & B3). assert (E : slab_page_of y = p) by (apply slab_page_in; lia).
  split; [exact E|]. exists x. rewrite E. split; [exact Hp|]. split; [split; auto|exact Hy].
Qed.

Lemma obj_where y w : W !! y = Some w -> exists i, obj_of s i y.
Proof using I. intros Hw. destruct (ob_where _ _ _ _ I y w Hw) as (x & Hx & Hm & Hy). exists (pg_cache x), x. split; [exact Hx|]. split; [split; auto|exact Hy]. Qed.

Lemma obj_place y w i : W !! y = Some w -> at_class (b_pages s) i y -> obj_of s i y.
Proof using I. intros Hw (x & Hx & H1 & H2). destruct (ob_where _ _ _ _ I y w Hw) as (x' & Hx' & Hm & Hy). rewrite Hx in Hx'. injection Hx' as <-. exists x. rewrite <- H2. split; [exact Hx|]. split; [split; auto|exact Hy]. Qed.

Lemma objs_apart i y j z : obj_of s i y -> obj_of s j z -> y <> z -> y + class_size i <= z \/ z + class_size j <= y.
Proof using I.
  intros Hy Hz Hne. pose proof (obj_facts i y Hy) as (Hi & _ & R1 & Y1 & Y2 & _). pose proof (obj_facts j z Hz) as (Hj & _ & R2 & Z1 & Z2 & _). destruct Hy as (x & Hx & [_ Ex] & Hy), Hz as (x' & Hx' & [_ Ex'] & Hz).
  destruct (decide (slab_page_of y = slab_page_of z)) as [E|E].
  - rewrite E in *. rewrite Hx in Hx'. injection Hx' as <-. subst i j. now apply (sgrid_apart _ (slab_page_of z)).
  - destruct R1 as (_ & A1 & _), R2 as (_ & A2 & _). destruct (pages_apart _ _ A1 A2 E); lia.
Qed.

(** An object and a block in use. *)
Lemma block_apart i y z n : obj_of s i y -> block s W z n -> y <> z -> y + class_size i <= z \/ z + n <= y.
Proof using I.
  intros Hy [(Hw & x & Hx & ->)|(p & x & Hx & Hm & -> & ->)] Hne.
  - destruct (ob_where _ _ _ _ I z Live Hw) as (x' & Hx' & Hm' & Hz). rewrite Hx in Hx'. injection Hx' as <-. apply (objs_apart i y (pg_cache x) z Hy); [|exact Hne]. exists x. split; [exact Hx|]. split; [split; auto|exact Hz].
  - pose proof (obj_facts i y Hy) as (Hi & HH & _ & Y1 & Y2 & _). destruct (ob_page _ _ _ _ I p x Hx) as [(_ & _ & HHp)|(_ & fl & _ & K)]; [|pose proof (po_magic _ _ _ _ _ _ K); rewrite Hm in *; discriminate].
    destruct Hy as (x' & Hx' & [Hm' _] & _). assert (slab_page_of y <> p) by (intros E; rewrite E, Hx in Hx'; injection Hx' as <-; rewrite Hm in Hm'; discriminate).
    destruct (ps_apart _ _ _ 1 p (pg_count x) (ar_src _ _ (ob_arena _ _ _ _ I)) HH HHp ltac:(assumption)); lia.
Qed.

Lemma other_apart i y q n : obj_of s i y -> H !! q = Some n -> b_pages s !! q = None -> y + class_size i <= q \/ q + n * 4096 <= y.
Proof using I.
  intros Hy Hq Hs. pose proof (obj_facts i y Hy) as (Hi & HH & _ & Y1 & Y2 & _). destruct Hy as (x & Hx & _). assert (slab_page_of y <> q) by congruence.
  destruct (ps_apart _ _ _ 1 q n (ar_src _ _ (ob_arena _ _ _ _ I)) HH Hq ltac:(assumption)); lia.
Qed.
End Facts.

(** Memory changes in the link of [y] at most. *)
Definition linked_at (y : Z) (m m' : mem) : Prop := forall b k, y + 8 <= b \/ b + k <= y -> agree m m' b k.

Lemma linked_write y m v : linked_at y m (write m y (bytes_le 8 v)).
Proof. intros b k Hb. apply agree_write. rewrite bytes_le_length. lia. Qed.

Lemma linked_refl y m : linked_at y m m.
Proof. intros b k _. apply agree_refl. Qed.

(** Chains of other objects stay. *)
Lemma chain_linked s W F H i y dec m' h l : objects_ok s W F H -> obj_of s i y -> linked_at y (a_mem (b_arena s)) m' -> (forall z, z ∈ l -> z <> y /\ exists j, obj_of s j z) ->
  chain dec (a_mem (b_arena s)) h l -> chain dec m' h l.
Proof.
  intros I Hy Hm Hl. apply chain_agree. intros z Hz. destruct (Hl z Hz) as (Hne & j & Hj). apply Hm. pose proof (obj_facts I i y Hy) as (_ & _ & _ & _ & _ & _ & S1 & _). pose proof (obj_facts I j z Hj) as (_ & _ & _ & _ & _ & _ & S2 & _).
  destruct (objs_apart I i y j z Hy Hj ltac:(congruence)); lia.
Qed.

(** A page whose free objects do not include [y]. *)
Lemma page_ok_linked s W F H i y ow m' p x fl : objects_ok s W F H -> obj_of s i y -> linked_at y (a_mem (b_arena s)) m' -> b_pages s !! p = Some x -> y ∉ fl -> (y ∈ sgrid (pg_cache x) p -> ow <> None) ->
  page_ok (a_mem (b_arena s)) (b_cookie s) W p x fl -> page_ok m' (b_cookie s) (partial_alter (fun _ => ow) y W) p x fl.
Proof.
  intros I Hy Hm Hp Hyf How K. pose proof (po_magic _ _ _ _ _ _ K) as Hmg. destruct K as [K1 K2 K3 K4 K5 K6 K7 K8]. split; auto.
  - apply (chain_linked s W F H i y (fp_decode (b_cookie s)) m' _ fl I Hy Hm); [|exact K3]. intros z Hz. split; [congruence|]. exists (pg_cache x). apply (obj_in I p x z Hp Hmg). auto.
  - intros z Hz. destruct (decide (y = z)) as [<-|Hne]; [|rewrite lookup_partial_alter_ne by exact Hne; now apply K8]. rewrite lookup_partial_alter_eq. split; [contradiction|]. intros ->. now specialize (How Hz).
Qed.

(** A stack that [y] neither leaves nor enters. *)
Lemma stack_linked s W F H i y ow m' w j h n : objects_ok s W F H -> obj_of s i y -> linked_at y (a_mem (b_arena s)) m' ->
  ~ (W !! y = Some w /\ at_class (b_pages s) (Z.of_nat j) y) -> ~ (ow = Some w /\ at_class (b_pages s) (Z.of_nat j) y) ->
  stack_ok (a_mem (b_arena s)) (b_pages s) W w j h n -> stack_ok m' (b_pages s) (partial_alter (fun _ => ow) y W) w j h n.
Proof.
  intros I Hy Hm H1 H2 (l & Hc & Hl & En & Hb). exists l. split; [|split; [now apply lists_other|auto]].
  apply (chain_linked s W F H i y raw m' h l I Hy Hm); [|exact Hc]. intros z Hz. apply Hl in Hz as [Hw Hcl]. split; [intros ->; tauto|]. exists (Z.of_nat j). now apply (obj_place I z w).
Qed.
End Obj.

(** Size-class heap: objects enter and leave the shared lists and the magazines. *)

(** What an operation on stacks leaves as it is. *)
Definition class_part (c : slab_cache_t) : Z * Z * Z * Z * Z * Z * Z := (sc_obj_size c, sc_size_class c, sc_partial c, sc_full c, sc_empty c, sc_empty_tail c, sc_empty_count c).
Definition cpu_part (q : cpu_slab_t) : nat * nat := (length (cs_freelist q), length (cs_count q)).

Section Stack.
Context {PS : Type} `{PSI : !PageSource PS} `{PSL : !PageSourceOk PS}.
Implicit Types (s : slab PS) (W : gmap Z place) (F : gmap Z (list Z)) (H : gmap Z Z).

Record same_shell s s' : Prop := {
  sh_pages : b_pages s' = b_pages s;
  sh_pool : b_pool s' = b_pool s;
  sh_cookie : b_cookie s' = b_cookie s;
  sh_locks : length (b_locks s') = length (b_locks s);
  sh_caches i : class_part <$> b_caches s' !! i = class_part <$> b_caches s !! i;
  sh_cpus id : cpu_part <$> b_cpus s' !! id = cpu_part <$> b_cpus s !! id;
  sh_vm : a_vm (b_arena s') = a_vm (b_arena s)
}.

Lemma shell_refl s : same_shell s s.
Proof. split; reflexivity. Qed.

Lemma shell_trans s1 s2 s3 : same_shell s1 s2 -> same_shell s2 s3 -> same_shell s1 s3.
Proof. intros [] []. split; intros; try congruence; etransitivity; eauto. Qed.

Lemma fmap_list_lookup {A B} (f : A -> B) (l l' : list A) i x : f <$> l' !! i = f <$> l !! i -> l !! i = Some x -> exists x', l' !! i = Some x' /\ f x' = f x.
Proof. intros E Hx. rewrite Hx in E. apply fmap_Some in E as (x' & Hx' & E). eauto. Qed.

Lemma shell_struct ex s s' : same_shell s s' -> struct_ok ex (b_pages s) (b_caches s) -> struct_ok ex (b_pages s') (b_caches s').
Proof.
  intros S T i c Hc. destruct (fmap_list_lookup class_part (b_caches s') (b_caches s) i c (eq_sym (sh_caches _ _ S i)) Hc) as (c0 & Hc0 & [= E1 E2 E3 E4 E5 E6 E7]).
  destruct (T i c0 Hc0) as (lp & lf & le & [L1 L2 L3 L4 L5 L6 L7 L8 L9 L10 L11]). exists lp, lf, le. rewrite (sh_pages _ _ S). split; try assumption; congruence.
Qed.

Lemma shell_length s s' : same_shell s s' -> length (b_caches s') = length (b_caches s).
Proof.
  intros S. apply (f_equal length (x := class_part <$> b_caches s') (y := class_part <$> b_caches s)) || idtac. assert (E : class_part <$> b_caches s' = class_part <$> b_caches s) by (apply list_eq; intros i; rewrite !list_lookup_fmap; apply S).
  apply (f_equal length) in E. now rewrite !length_fmap in E.
Qed.

(** The parts of the invariant that do not concern memory. *)
Lemma objects_shell s s' W W' F F' H : objects_ok s W F H -> same_shell s s' -> arena_ok (b_arena s') H ->
  (forall p x, b_pages s !! p = Some x -> (pg_magic x = LARGE_PAGE_MAGIC /\ F' !! p = None /\ H !! p = Some (pg_count x)) \/ (H !! p = Some 1 /\ exists fl, F' !! p = Some fl /\ page_ok (a_mem (b_arena s')) (b_cookie s) W' p x fl)) ->
  (forall p, F' !! p <> None -> b_pages s !! p <> None) ->
  (forall y w, W' !! y = Some w -> exists w0, W !! y = Some w0) ->
  (forall w i h n, stack_at s' w i = Some (h, n) -> stack_ok (a_mem (b_arena s')) (b_pages s) W' w i h n) ->
  (forall y id, W' !! y = Some (InMag id) -> is_Some (b_cpus s !! id)) -> objects_ok s' W' F' H.
Proof.
  intros I S HA HP HF HW HS HC. split; rewrite ?(sh_pages _ _ S), ?(sh_pool _ _ S), ?(sh_cookie _ _ S), ?(sh_locks _ _ S), ?(shell_length _ _ S); try apply I; try assumption.
  - intros i c Hc. destruct (fmap_list_lookup class_part _ _ i c (eq_sym (sh_caches _ _ S i)) Hc) as (c0 & Hc0 & [= E1 E2 _ _ _ _ _]). rewrite <- E1, <- E2. exact (ob_geom _ _ _ _ I i c0 Hc0).
  - intros y w Hy. destruct (HW y w Hy) as (w0 & Hw0). exact (ob_where _ _ _ _ I y w0 Hw0).
  - intros id q Hq. destruct (fmap_lookup cpu_part _ _ id q (eq_sym (sh_cpus _ _ S id)) Hq) as (q0 & Hq0 & [= E1 E2]). rewrite <- E1, <- E2. exact (ob_cpus _ _ _ _ I id q0 Hq0).
  - intros y id Hy. destruct (HC y id Hy) as [q Hq]. destruct (fmap_lookup cpu_part _ _ id q (sh_cpus _ _ S id) Hq) as (q' & Hq' & _). eauto.
Qed.

(** * Frames of moves *)

(** Blocks depend on the kinds of pages. *)
Definition same_kinds s s' : Prop := forall q, kind <$> b_pages s' !! q = kind <$> b_pages s !! q.

Lemma same_kinds_eq s s' : b_pages s' = b_pages s -> same_kinds s s'.
Proof. intros E q. now rewrite E. Qed.

Lemma same_kinds_sym s s' : same_kinds s s' -> same_kinds s' s.
Proof. intros E q. now rewrite E. Qed.

Lemma same_kinds_none s s' q : same_kinds s s' -> b_pages s !! q = None -> b_pages s' !! q = None.
Proof. intros E Hq. specialize (E q). rewrite Hq in E. now destruct (b_pages s' !! q). Qed.

Lemma block_kind s s' W W' z n : same_kinds s s' -> W' !! z = W !! z -> block s W z n -> block s' W' z n.
Proof.
  intros E EW [(Hw & x & Hx & ->)|(p & x & Hp & Hm & -> & ->)].
  - left. rewrite EW. split; [exact Hw|]. destruct (fmap_lookup kind _ _ _ x (E _) Hx) as (x' & Hx' & [= E1 E2 E3]). exists x'. split; [exact Hx'|congruence].
  - right. destruct (fmap_lookup kind _ _ _ x (E _) Hp) as (x' & Hx' & [= E1 E2 E3]). exists p, x'. split; [exact Hx'|]. split; [congruence|]. split; [reflexivity|congruence].
Qed.

(** A large block does not start at an object. *)
Lemma not_large s W F H i y p x : objects_ok s W F H -> obj_of s i y -> b_pages s !! p = Some x -> pg_magic x = LARGE_PAGE_MAGIC -> p + 48 <> y.
Proof.
  intros I Hy Hp Hmg E. destruct (ob_page _ _ _ _ I p x Hp) as [(_ & _ & HH)|(_ & fl & _ & K)]; [|pose proof (po_magic _ _ _ _ _ _ K); rewrite Hmg in *; discriminate].
  destruct (ps_range _ _ _ _ (ar_src _ _ (ob_arena _ _ _ _ I)) HH) as (R1 & R2 & R3 & R4). destruct Hy as (x' & Hx' & [Hm' _] & _). rewrite (slab_page_in p) in Hx' by lia. rewrite Hp in Hx'. injection Hx' as <-. rewrite Hmg in Hm'. discriminate.
Qed.

Lemma frame_move s W F H s' W' i y X Y : objects_ok s W F H -> obj_of s i y -> linked_at y (a_mem (b_arena s)) (a_mem (b_arena s')) -> same_kinds s s' ->
  (forall z, z <> y -> W' !! z = W !! z) -> (W !! y = Some Live -> y ∈ X) -> (forall z, z ∈ X -> z = y) -> (W' !! y = Some Live -> y ∈ Y) -> bframe X Y s W H s' W' H.
Proof.
  intros I Hy Hm EP HW HX HX' HY. pose proof (obj_facts I i y Hy) as (_ & _ & _ & _ & _ & _ & Hsz & _). split.
  - intros z n Hz HzX. assert (Hzy : z <> y). { intros ->. destruct Hz as [(Hw & _)|(p & x & Hp & Hmg & E & _)]; [exact (HzX (HX Hw))|exact (not_large _ _ _ _ _ _ _ _ I Hy Hp Hmg (eq_sym E))]. }
    split; [now apply (block_kind s s' W); auto|]. apply Hm. destruct (block_apart I i y z n Hy Hz ltac:(congruence)); lia.
  - intros z n Hz. destruct (decide (z = y)) as [->|Hzy].
    + right. destruct Hz as [(Hw & _)|(p & x & Hp & Hmg & E & _)]; [exact (HY Hw)|]. exfalso. destruct (fmap_lookup kind _ _ _ x (same_kinds_sym _ _ EP _) Hp) as (x' & Hx' & [= E1 E2 E3]).
      rewrite Hmg in E1. exact (not_large _ _ _ _ _ _ _ _ I Hy Hx' E1 (eq_sym E)).
    + left. split; [|intros Hi; now apply HX' in Hi]. apply (block_kind s' s W'); [now apply same_kinds_sym|symmetry; auto|exact Hz].
  - intros q n Hq Hs. split; [exact Hq|]. split; [now apply (same_kinds_none s)|]. apply Hm. destruct (other_apart I i y q n Hy Hq Hs); lia.
  - intros q n Hq Hs. split; [exact Hq|]. now apply (same_kinds_none s' s); [apply same_kinds_sym|].
Qed.

(** * Pushing and popping *)

(** The stacks of [s'] are those of [s] but one. *)
Definition one_stack s s' (w : place) (i : nat) (h n : Z) : Prop :=
  stack_at s' w i = Some (h, n) /\ forall w' i', (w', i') <> (w, i) -> stack_at s' w' i' = stack_at s w' i'.

Lemma stack_class s w i h n : stack_at s w i = Some (h, n) -> w <> Live.
Proof. intros E ->. discriminate. Qed.

Lemma push_ok s W F H s' w i h n y : objects_ok s W F H -> W !! y = Some Live -> at_class (b_pages s) (Z.of_nat i) y -> stack_at s w i = Some (h, n) -> same_shell s s' ->
  a_mem (b_arena s') = write (a_mem (b_arena s)) y (bytes_le 8 h) -> one_stack s s' w i y (n + 1) -> (w <> InGlobal -> n + 1 <= MAG_MAX) ->
  objects_ok s' (<[y := w]> W) F H /\ bframe [y] [] s W H s' (<[y := w]> W) H.
Proof.
  intros I Hy Hc Hs S Em [Hs1 Hs2] Hb. pose proof (obj_place I y Live _ Hy Hc) as Ho. pose proof (obj_facts I _ y Ho) as (_ & _ & _ & _ & _ & Hr & _ & Hin). pose proof (stack_class _ _ _ _ _ Hs) as HwL.
  assert (Hl : linked_at y (a_mem (b_arena s)) (a_mem (b_arena s'))) by (rewrite Em; apply linked_write).
  assert (HA : arena_ok (b_arena s') H).
  { replace (b_arena s') with (with_mem (b_arena s) (write (a_mem (b_arena s)) y (bytes_le 8 h))); [apply arena_write; [apply I|apply bytes_le_bytes]|]. pose proof (sh_vm _ _ S) as Ev. destruct (b_arena s'). cbn in *. unfold with_mem. congruence. }
  destruct (ob_stack _ _ _ _ I w i h n Hs) as (l & Hch & Hl' & En & _). split.
  - apply (objects_shell s s' W (<[y := w]> W) F F H I S HA).
    + intros p x Hp. destruct (ob_page _ _ _ _ I p x Hp) as [|(HH & fl & HF & K)]; [auto|]. right. split; [exact HH|]. exists fl. split; [exact HF|]. rewrite insert_as_alter.
      apply (page_ok_linked s W F H (Z.of_nat i) y (Some w) _ p x fl I Ho Hl Hp); [|easy|exact K]. intros Hyf. pose proof (po_out _ _ _ _ _ _ K y (po_grid _ _ _ _ _ _ K y Hyf)) as E. apply E in Hyf. congruence.
    + apply I.
    + intros z w0 Hz. destruct (decide (y = z)) as [<-|Hne]; [eauto|rewrite lookup_insert_ne in Hz by exact Hne; eauto].
    + intros w' i' h' n' Hst. destruct (decide ((w', i') = (w, i))) as [E|E].
      * injection E as -> ->. rewrite Hs1 in Hst. injection Hst as <- <-. exists (y :: l). split; [|split; [apply lists_push; [exact Hl'|congruence|exact Hc]|split; [cbn; lia|exact Hb]]].
        rewrite Em. apply chain_push; [exact Hch| |lia|].
        -- destruct l as [|z l]; [cbn in Hch; lia|]. destruct Hch as (-> & _). destruct (proj1 (proj2 Hl' z) ltac:(left)) as [Hz Hzc]. pose proof (obj_facts I _ z (obj_place I z _ _ Hz Hzc)) as (_ & _ & _ & _ & _ & ? & _). lia.
        -- intros z Hz. apply Hl' in Hz as [Hz Hzc]. pose proof (obj_place I z _ _ Hz Hzc) as Hoz. pose proof (obj_facts I _ y Ho) as (_ & _ & _ & _ & _ & _ & S1 & _).
           destruct (objs_apart I _ z _ y Hoz Ho ltac:(congruence)); lia.
      * rewrite (Hs2 w' i' E) in Hst. rewrite insert_as_alter. apply (stack_linked s W F H (Z.of_nat i) y (Some w) _ w' i' h' n' I Ho Hl); [|intros [[= ->] Hc']|exact (ob_stack _ _ _ _ I _ _ _ _ Hst)].
        -- intros [E' _]. rewrite Hy in E'. injection E' as <-. exact (stack_class _ _ _ _ _ Hst eq_refl).
        -- apply E. f_equal. destruct Hc as (x & Hx & _ & E1), Hc' as (x' & Hx' & _ & E2). rewrite Hx in Hx'. injection Hx' as <-. lia.
    + intros z id Hz. destruct (decide (y = z)) as [<-|Hne]; [|rewrite lookup_insert_ne in Hz by exact Hne; exact (ob_cpu _ _ _ _ I z id Hz)]. rewrite lookup_insert_eq in Hz. injection Hz as ->.
      cbn in Hs. destruct (b_cpus s !! id); [eauto|discriminate].
  - apply (frame_move s W F H s' _ (Z.of_nat i) y [y] [] I Ho Hl (same_kinds_eq _ _ (sh_pages _ _ S))); [intros z Hz; now rewrite lookup_insert_ne|intros _; left|intros z Hz; now apply list_elem_of_singleton in Hz|]. rewrite lookup_insert_eq. congruence.
Qed.

Lemma pop_stack_ok s W F H s' w i y n next : objects_ok s W F H -> stack_at s w i = Some (y, n) -> y <> 0 -> same_shell s s' -> b_arena s' = b_arena s -> load64 (a_mem (b_arena s)) y = Ok next -> one_stack s s' w i next (n - 1) ->
  objects_ok s' (<[y := Live]> W) F H /\ bframe [] [y] s W H s' (<[y := Live]> W) H /\ W !! y = Some w /\ at_class (b_pages s) (Z.of_nat i) y /\ 1 <= n.
Proof.
  intros I Hs Hy0 S EA Hld [Hs1 Hs2]. destruct (ob_stack _ _ _ _ I w i y n Hs) as (l & Hch & Hl & En & Hb). apply chain_cons in Hch as (l' & v & -> & Hv & Hch); [|exact Hy0]. rewrite Hld in Hv. injection Hv as <-. unfold raw in Hch.
  destruct (proj1 (proj2 Hl y) ltac:(left)) as [Hw Hc]. pose proof (obj_place I y _ _ Hw Hc) as Ho. pose proof (stack_class _ _ _ _ _ Hs) as HwL. assert (Hlk : linked_at y (a_mem (b_arena s)) (a_mem (b_arena s'))) by (rewrite EA; apply linked_refl).
  split; [|split; [|split; [exact Hw|split; [exact Hc|cbn in En; lia]]]].
  - apply (objects_shell s s' W (<[y := Live]> W) F F H I S); [rewrite EA; apply I| |apply I| | |].
    + intros p x Hp. destruct (ob_page _ _ _ _ I p x Hp) as [|(HH & fl & HF & K)]; [auto|]. right. split; [exact HH|]. exists fl. split; [exact HF|]. rewrite insert_as_alter.
      apply (page_ok_linked s W F H (Z.of_nat i) y (Some Live) _ p x fl I Ho Hlk Hp); [|easy|exact K]. intros Hyf. pose proof (po_out _ _ _ _ _ _ K y (po_grid _ _ _ _ _ _ K y Hyf)) as E. apply E in Hyf. congruence.
    + intros z w0 Hz. destruct (decide (y = z)) as [<-|Hne]; [eauto|rewrite lookup_insert_ne in Hz by exact Hne; eauto].
    + intros w' i' h' n' Hst. destruct (decide ((w', i') = (w, i))) as [E|E].
      * injection E as -> ->. rewrite Hs1 in Hst. injection Hst as <- <-. exists l'. rewrite EA. split; [exact Hch|]. split; [rewrite insert_as_alter; apply lists_pop; [exact Hl|congruence]|]. cbn in En. split; [lia|]. intros Hg. specialize (Hb Hg). lia.
      * rewrite (Hs2 w' i' E) in Hst. rewrite insert_as_alter. apply (stack_linked s W F H (Z.of_nat i) y (Some Live) _ w' i' h' n' I Ho Hlk); [|intros [[= E'] _]|exact (ob_stack _ _ _ _ I _ _ _ _ Hst)].
        -- intros [E' Hc']. rewrite Hw in E'. injection E' as <-. apply E. f_equal. destruct Hc as (x & Hx & _ & E1), Hc' as (x' & Hx' & _ & E2). rewrite Hx in Hx'. injection Hx' as <-. lia.
        -- exact (stack_class _ _ _ _ _ Hst (eq_sym E')).
    + intros z id Hz. destruct (decide (y = z)) as [<-|Hne]; [rewrite lookup_insert_eq in Hz; discriminate|rewrite lookup_insert_ne in Hz by exact Hne; exact (ob_cpu _ _ _ _ I z id Hz)].
  - apply (frame_move s W F H s' _ (Z.of_nat i) y [] [y] I Ho Hlk (same_kinds_eq _ _ (sh_pages _ _ S))); [intros z Hz; now rewrite lookup_insert_ne|congruence|intros z Hz; now apply not_elem_of_nil in Hz|intros _; left].
Qed.
End Stack.
