(* ===== verification/SlabPage.v ===== *)
(** Size-class heap: the operations of the shared lists and of the magazines, the
    encoded free lists of pages, and pages that move between lists. *)
From stdpp Require Import base gmap list fin_maps.
From Stdlib Require Import ZArith Lia.
From S2P Require Import Prelude Words Memory PMM PMMBits PMMInit HeapMem Slub SlubInv SlubAlloc Slab SlabInv.

Open Scope Z_scope.
Open Scope c_scope.

(** Distinct addresses are fewer than [2 ^ 64]. *)
Lemma addresses_few (l : list Z) : NoDup l -> (forall y, y ∈ l -> 0 < y < 2 ^ 64) -> Z.of_nat (length l) < 2 ^ 64.
Proof.
  intros Hn Hl. assert (Hs : l ⊆+ seqZ 1 (2 ^ 64 - 1)) by (apply NoDup_submseteq; [exact Hn|]; intros y Hy; apply elem_of_seqZ; specialize (Hl y Hy); lia).
  apply submseteq_length in Hs. rewrite length_seqZ in Hs. lia.
Qed.

Lemma class_size_inj i j : 0 <= i < 7 -> 0 <= j < 7 -> class_size i = class_size j -> i = j.
Proof. unfold class_size. intros Hi Hj E. apply (Z.pow_inj_r 2); lia. Qed.

Section Mag.
Context {PS : Type} `{PSI : !PageSource PS} `{PSL : !PageSourceOk PS}.
Implicit Types (s : slab PS) (W : gmap Z place) (F : gmap Z (list Z)) (H : gmap Z Z).

(** Blocks by their size. *)
Lemma block_class s W F H i z : objects_ok s W F H -> 0 <= i < 7 -> block s W z (class_size i) <-> W !! z = Some Live /\ at_class (b_pages s) i z.
Proof.
  intros I Hi. pose proof (class_geom i Hi) as (G & _). split.
  - intros [(Hw & x & Hx & E)|(p & x & Hp & Hm & -> & E)].
    + split; [exact Hw|]. destruct (ob_where _ _ _ _ I z Live Hw) as (x' & Hx' & Hm & _). rewrite Hx in Hx'. injection Hx' as <-. exists x. split; [exact Hx|]. split; [exact Hm|].
      destruct (pg_small I _ x Hx Hm) as (_ & Hc & _). symmetry. now apply class_size_inj.
    + exfalso. destruct (ob_page _ _ _ _ I p x Hp) as [(_ & _ & HH)|(_ & fl & _ & K)]; [|pose proof (po_magic _ _ _ _ _ _ K); rewrite Hm in *; discriminate].
      destruct (ps_range _ _ _ _ (ar_src _ _ (ob_arena _ _ _ _ I)) HH) as (_ & _ & R & _). lia.
  - intros [Hw (x & Hx & _ & E)]. left. split; [exact Hw|]. exists x. split; [exact Hx|congruence].
Qed.

(** No block starts at an object that is not live. *)
Lemma not_block s W F H y w i n : objects_ok s W F H -> obj_of s i y -> W !! y = w -> w <> Some Live -> ~ block s W y n.
Proof.
  intros I Hy Hw HL [(E & _)|(p & x & Hp & Hm & E & _)]; [congruence|]. exact (not_large _ _ _ _ _ _ _ _ I Hy Hp Hm (eq_sym E)).
Qed.

(** * Steps that leave objects alone *)

Lemma quiet_ok s s' W F H : slab_inv s W F H -> same_shell s s' -> b_arena s' = b_arena s -> (forall w i, stack_at s' w i = stack_at s w i) ->
  slab_inv s' W F H /\ bframe [] [] s W H s' W H.
Proof.
  intros [I T] S EA ES. split; [split; [|exact (shell_struct 0 s s' S T)]|].
  - apply (objects_shell s s' W W F F H I S); rewrite ?EA; try apply I; [eauto|]. intros w i h n Hs. rewrite ES in Hs. exact (ob_stack _ _ _ _ I w i h n Hs).
  - split; rewrite ?(sh_pages _ _ S), ?EA.
    + intros z n Hz _. split; [|apply agree_refl]. unfold block in *. now rewrite (sh_pages _ _ S).
    + intros z n Hz. left. split; [|apply not_elem_of_nil]. unfold block in *. now rewrite (sh_pages _ _ S) in Hz.
    + intros q n Hq Hs. split; [exact Hq|]. split; [exact Hs|apply agree_refl].
    + auto.
Qed.

(** Another cache with the same lists: only counters differ. *)
Lemma upd_class_quiet s W F H i f : slab_inv s W F H -> 0 <= i < 7 -> (forall c, class_part (f c) = class_part c /\ sc_global (f c) = sc_global c /\ sc_global_count (f c) = sc_global_count c) ->
  wp (upd_class f i s) (fun s' => slab_inv s' W F H /\ bframe [] [] s W H s' W H /\ b_cpus s' = b_cpus s /\ b_pages s' = b_pages s /\ b_arena s' = b_arena s /\ forall c, b_caches s !! Z.to_nat i = Some c -> b_caches s' !! Z.to_nat i = Some (f c)).
Proof.
  intros [I T] Hi Hf. destruct (lookup_lt_is_Some_2 (b_caches s) (Z.to_nat i)) as [c Hc]; [rewrite (ob_classes _ _ _ _ I); lia|].
  rewrite (upd_class_ok s f i c) by (try lia; exact Hc). cbn [wp]. set (s' := Slab _ _ _ _ _ _ _). destruct (Hf c) as (E1 & E2 & E3).
  assert (Hl : forall j d, b_caches s !! j = Some d -> exists d', b_caches s' !! j = Some d' /\ class_part d' = class_part d /\ sc_global d' = sc_global d /\ sc_global_count d' = sc_global_count d).
  { intros j d Hd. unfold s'. cbn. destruct (decide (j = Z.to_nat i)) as [->|Hne]; [|rewrite list_lookup_insert_ne by congruence; eauto 6].
    rewrite Hc in Hd. injection Hd as <-. rewrite list_lookup_insert_eq by (apply lookup_lt_is_Some_1; eauto). eauto 6. }
  assert (Hn : forall j, b_caches s !! j = None -> b_caches s' !! j = None) by (intros j; unfold s'; cbn; rewrite !lookup_ge_None, length_insert; auto).
  destruct (quiet_ok s s' W F H (conj I T)) as [I' B]; [|reflexivity| |split_and!; auto].
  - split; try reflexivity. intros j. destruct (b_caches s !! j) as [d|] eqn:Hd; [|now rewrite (Hn j Hd)]. destruct (Hl j d Hd) as (d' & -> & E & _). cbn. now rewrite E.
  - intros [|id|] j; try reflexivity. cbn [stack_at]. destruct (b_caches s !! j) as [d|] eqn:Hd; [|now rewrite (Hn j Hd)]. destruct (Hl j d Hd) as (d' & -> & _ & E & E'). cbn. now rewrite E, E'.
  - intros d Hd. rewrite Hc in Hd. injection Hd as <-. unfold s'. cbn. apply list_lookup_insert_eq. apply lookup_lt_is_Some_1; eauto.
Qed.

Lemma count_lock_quiet s W F H i : slab_inv s W F H -> 0 <= i < 7 -> wp (count_lock i s) (fun s' => slab_inv s' W F H /\ bframe [] [] s W H s' W H /\ b_cpus s' = b_cpus s /\ b_pages s' = b_pages s /\ b_arena s' = b_arena s).
Proof.
  intros [I T] Hi. unfold count_lock. destruct (lookup_lt_is_Some_2 (b_locks s) (Z.to_nat i)) as [n Hn]; [rewrite (ob_locks _ _ _ _ I); lia|]. rewrite (get_okZ _ _ n) by (try lia; exact Hn). cbn [bind].
  rewrite put_okZ by (rewrite (ob_locks _ _ _ _ I); lia). cbn [bind wp]. set (s' := Slab _ _ _ _ _ _ _). destruct (quiet_ok s s' W F H (conj I T)) as [I' B]; [|reflexivity|reflexivity|auto].
  split; try reflexivity. unfold s'. cbn. apply length_insert.
Qed.

(** * The shared list *)

Lemma class_get s W F H i : objects_ok s W F H -> 0 <= i < 7 -> exists c, b_caches s !! Z.to_nat i = Some c /\ class_at s i = Ok c /\ sc_obj_size c = class_size i.
Proof.
  intros I Hi. destruct (lookup_lt_is_Some_2 (b_caches s) (Z.to_nat i)) as [c Hc]; [rewrite (ob_classes _ _ _ _ I); lia|]. exists c. split; [exact Hc|]. split; [apply class_at_ok; [lia|exact Hc]|].
  destruct (ob_geom _ _ _ _ I _ _ Hc) as [E _]. now rewrite Z2Nat.id in E by lia.
Qed.

Definition with_global s (A : arena PS) (i v n : Z) (c : slab_cache_t) : slab PS := Slab A (b_pages s) (<[Z.to_nat i := sc_with_global v n c]> (b_caches s)) (b_cpus s) (b_pool s) (b_cookie s) (b_locks s).

Lemma global_shell s A i v n c : b_caches s !! Z.to_nat i = Some c -> a_vm A = a_vm (b_arena s) ->
  same_shell s (with_global s A i v n c) /\ one_stack s (with_global s A i v n c) InGlobal (Z.to_nat i) v n.
Proof.
  intros Hc Ev. pose proof (lookup_lt_Some _ _ _ Hc) as Hlt. split.
  - split; try reflexivity; [|exact Ev]. intros j. unfold with_global. cbn. destruct (decide (j = Z.to_nat i)) as [->|Hne]; [rewrite list_lookup_insert_eq by exact Hlt; now rewrite Hc|now rewrite list_lookup_insert_ne by congruence].
  - split; [unfold stack_at, with_global; cbn; now rewrite list_lookup_insert_eq by exact Hlt|]. intros [|id|] j Hne; try reflexivity. unfold stack_at, with_global. cbn. rewrite list_lookup_insert_ne by congruence. reflexivity.
Qed.

(** The count of a stack is that of its objects, which are distinct addresses. *)
Lemma stack_room s W F H w i h n y : objects_ok s W F H -> stack_at s w i = Some (h, n) -> W !! y = Some Live -> at_class (b_pages s) (Z.of_nat i) y -> 0 <= n /\ n + 1 < 2 ^ 64.
Proof.
  intros I Hs Hy Hc. destruct (ob_stack _ _ _ _ I w i h n Hs) as (l & _ & [Hn Hl] & -> & _). split; [lia|]. pose proof (addresses_few (y :: l)) as Hb. cbn [length] in Hb. rewrite Nat2Z.inj_succ in Hb. apply Hb.
  - constructor; [|exact Hn]. intros Hi. apply Hl in Hi as [E _]. rewrite Hy in E. injection E as <-. exact (stack_class _ _ _ _ _ Hs eq_refl).
  - intros z [->|Hz]%elem_of_cons; [|apply Hl in Hz as [Hz Hzc]; pose proof (obj_facts I _ z (obj_place I z _ _ Hz Hzc)); tauto]. pose proof (obj_facts I _ y (obj_place I y _ _ Hy Hc)). tauto.
Qed.

Lemma global_push_ok s W F H i y : slab_inv s W F H -> 0 <= i < 7 -> block s W y (class_size i) ->
  wp (global_push s i y) (fun s' => slab_inv s' (<[y := InGlobal]> W) F H /\ bframe [y] [] s W H s' (<[y := InGlobal]> W) H /\ b_cpus s' = b_cpus s /\ b_pages s' = b_pages s).
Proof.
  intros [I T] Hi Hb. apply (block_class _ _ _ _ _ _ I Hi) in Hb as [Hy Hcl]. destruct (class_get s W F H i I Hi) as (c & Hc & Ec & _). unfold global_push. rewrite Ec. cbn [bind].
  assert (Hcl' : at_class (b_pages s) (Z.of_nat (Z.to_nat i)) y) by now rewrite Z2Nat.id by lia. pose proof (obj_facts I _ y (obj_place I y _ _ Hy Hcl)) as (_ & _ & _ & _ & _ & _ & _ & Hin).
  unfold b_link. rewrite (st_link_ok _ H y _ (ob_arena _ _ _ _ I) Hin). cbn [bind]. erewrite upd_class_ok by (try lia; exact Hc). cbn [wp].
  assert (Hs : stack_at s InGlobal (Z.to_nat i) = Some (sc_global c, sc_global_count c)) by (unfold stack_at; now rewrite Hc). destruct (stack_room _ _ _ _ _ _ _ _ y I Hs Hy Hcl') as [N1 N2]. rewrite u64_small by lia.
  change (Slab _ _ _ _ _ _ _) with (with_global s (with_mem (b_arena s) (write (a_mem (b_arena s)) y (bytes_le 8 (sc_global c)))) i y (sc_global_count c + 1) c). set (s' := with_global _ _ _ _ _ _).
  destruct (global_shell s (with_mem (b_arena s) (write (a_mem (b_arena s)) y (bytes_le 8 (sc_global c)))) i y (sc_global_count c + 1) c Hc eq_refl) as [S O]. fold s' in S, O.
  destruct (push_ok s W F H s' InGlobal (Z.to_nat i) _ _ y I Hy Hcl' Hs S eq_refl O ltac:(congruence)) as [I' B]. split; [split; [exact I'|exact (shell_struct 0 s s' S T)]|]. auto.
Qed.

Lemma global_pop_ok s W F H i c : slab_inv s W F H -> 0 <= i < 7 -> b_caches s !! Z.to_nat i = Some c -> sc_global c <> 0 ->
  wp (global_pop s i) (fun '(y, s') => slab_inv s' (<[y := Live]> W) F H /\ bframe [] [y] s W H s' (<[y := Live]> W) H /\ b_cpus s' = b_cpus s /\ b_pages s' = b_pages s /\
    block s' (<[y := Live]> W) y (class_size i) /\ forall n, ~ block s W y n).
Proof.
  intros [I T] Hi Hc Hne. unfold global_pop. rewrite (class_at_ok s i c ltac:(lia) Hc). cbn [bind].
  assert (Hs : stack_at s InGlobal (Z.to_nat i) = Some (sc_global c, sc_global_count c)) by (unfold stack_at; now rewrite Hc).
  destruct (ob_stack _ _ _ _ I _ _ _ _ Hs) as (l & Hch & [Hn Hl] & En & _). destruct (chain_cons _ _ _ _ Hch Hne) as (l' & v & El & Hv & _). subst l.
  destruct (proj1 (Hl (sc_global c)) ltac:(left)) as [Hw Hcl]. unfold ld_link. rewrite Hv. cbn [bind]. erewrite upd_class_ok by (try lia; exact Hc). cbn [bind wp].
  assert (Hb : 1 <= sc_global_count c < 2 ^ 64).
  { rewrite En. cbn [length]. split; [lia|]. pose proof (addresses_few (sc_global c :: l') Hn) as Hb. cbn [length] in Hb. apply Hb. intros y Hy. apply Hl in Hy as [Hy Hyc]. pose proof (obj_facts I _ y (obj_place I y _ _ Hy Hyc)). tauto. }
  rewrite u64_small by lia. change (Slab _ _ _ _ _ _ _) with (with_global s (b_arena s) i v (sc_global_count c - 1) c). set (s' := with_global _ _ _ _ _ _).
  destruct (global_shell s (b_arena s) i v (sc_global_count c - 1) c Hc eq_refl) as [S O]. fold s' in S, O.
  destruct (pop_stack_ok s W F H s' InGlobal (Z.to_nat i) _ _ v I Hs Hne S eq_refl Hv O) as (I' & B & Hw' & Hcl' & _). rewrite Z2Nat.id in Hcl' by lia.
  split; [split; [exact I'|exact (shell_struct 0 s s' S T)]|]. split; [exact B|]. split; [reflexivity|]. split; [reflexivity|]. split.
  - apply (block_class _ _ _ _ _ _ I' Hi). rewrite lookup_insert_eq. auto.
  - intros n. apply (not_block s W F H _ (Some InGlobal) i n I); [exact (obj_place I _ _ _ Hw Hcl')|exact Hw|congruence].
Qed.

(** * The magazines *)

Definition mag_is s (id i h n : Z) : Prop := stack_at s (InMag id) (Z.to_nat i) = Some (h, n).

(** The CPUs and their magazines, one excepted, stay. *)
Record mags_but (id i : Z) s s' : Prop := {
  mb_cpus k : is_Some (b_cpus s' !! k) <-> is_Some (b_cpus s !! k);
  mb_same id' j : (id', j) <> (id, Z.to_nat i) -> stack_at s' (InMag id') j = stack_at s (InMag id') j
}.

Lemma mags_but_eq id i s s' : b_cpus s' = b_cpus s -> mags_but id i s s'.
Proof. intros E. split; [intros k; now rewrite E|]. intros id' j _. unfold stack_at. now rewrite E. Qed.

Lemma mags_but_trans id i s1 s2 s3 : mags_but id i s1 s2 -> mags_but id i s2 s3 -> mags_but id i s1 s3.
Proof. intros [A1 B1] [A2 B2]. split; [intros k; rewrite A2; apply A1|]. intros id' j Hne. rewrite B2 by exact Hne. now apply B1. Qed.

Lemma mag_is_eq s s' id i h n : b_cpus s' = b_cpus s -> mag_is s id i h n -> mag_is s' id i h n.
Proof. intros E. unfold mag_is, stack_at. now rewrite E. Qed.

Lemma mag_get_ok s W F H id i : objects_ok s W F H -> is_Some (b_cpus s !! id) -> 0 <= i < 7 -> exists h n, mag_get s id i = Ok (h, n) /\ mag_is s id i h n.
Proof.
  intros I [q Hq] Hi. destruct (ob_cpus _ _ _ _ I id q Hq) as [L1 L2]. destruct (lookup_lt_is_Some_2 (cs_freelist q) (Z.to_nat i)) as [h Hh]; [lia|]. destruct (lookup_lt_is_Some_2 (cs_count q) (Z.to_nat i)) as [n Hn]; [lia|].
  exists h, n. unfold mag_get, cpu_at, mag_is, stack_at. rewrite Hq. cbn [bind mbind option_bind]. rewrite (get_okZ _ _ h), (get_okZ _ _ n) by (try lia; assumption). cbn [bind]. now rewrite Hh, Hn.
Qed.

(** A magazine: its objects, and at most [MAG_MAX] of them. *)
Lemma mag_facts s W F H id i h n : objects_ok s W F H -> mag_is s id i h n -> exists l, chain raw (a_mem (b_arena s)) h l /\ n = Z.of_nat (length l) /\ n <= MAG_MAX /\ (h = 0 <-> n = 0) /\
  forall y, y ∈ l <-> W !! y = Some (InMag id) /\ at_class (b_pages s) (Z.of_nat (Z.to_nat i)) y.
Proof.
  intros I Hm. destruct (ob_stack _ _ _ _ I _ _ _ _ Hm) as (l & Hc & [Hn Hl] & En & Hb). exists l. split; [exact Hc|]. split; [exact En|]. split; [now apply Hb|]. split; [|exact Hl]. split.
  - intros ->. apply chain_nil in Hc. subst l. exact En.
  - intros E. destruct l; [exact Hc|]. cbn in En. lia.
Qed.

Definition with_mag s (A : arena PS) (id i v n : Z) (q : cpu_slab_t) : slab PS :=
  Slab A (b_pages s) (b_caches s) (<[id := CpuSlab (<[Z.to_nat i := v]> (cs_freelist q)) (<[Z.to_nat i := n]> (cs_count q))]> (b_cpus s)) (b_pool s) (b_cookie s) (b_locks s).

Lemma mag_shell s A id i v n q : b_cpus s !! id = Some q -> length (cs_freelist q) = 7%nat -> length (cs_count q) = 7%nat -> 0 <= i < 7 -> a_vm A = a_vm (b_arena s) ->
  let s' := with_mag s A id i v n q in same_shell s s' /\ one_stack s s' (InMag id) (Z.to_nat i) v n /\ mag_is s' id i v n /\ mags_but id i s s'.
Proof.
  intros Hq L1 L2 Hi Ev s'. assert (O : one_stack s s' (InMag id) (Z.to_nat i) v n).
  { split; [unfold stack_at, s', with_mag; cbn; rewrite lookup_insert_eq; cbn; rewrite !list_lookup_insert_eq by lia; reflexivity|]. intros [|id'|] j Hne; try reflexivity. unfold stack_at, s', with_mag. cbn.
    destruct (decide (id' = id)) as [->|Hid]; [|now rewrite lookup_insert_ne by congruence]. rewrite lookup_insert_eq, Hq. cbn. rewrite !list_lookup_insert_ne by congruence. reflexivity. }
  split; [|split; [exact O|split; [apply O|]]].
  - split; try reflexivity; [|exact Ev]. intros k. unfold s', with_mag. cbn. destruct (decide (k = id)) as [->|Hid]; [|now rewrite lookup_insert_ne by congruence]. rewrite lookup_insert_eq, Hq. cbn. unfold cpu_part. cbn. now rewrite !length_insert.
  - split; [|intros id' j Hne; apply O; congruence]. intros k. unfold s', with_mag. cbn. destruct (decide (k = id)) as [->|Hid]; [rewrite lookup_insert_eq, Hq; now split; eauto|now rewrite lookup_insert_ne by congruence].
Qed.

Lemma mag_set_ok s W F H id i v n q : objects_ok s W F H -> b_cpus s !! id = Some q -> 0 <= i < 7 -> mag_set s id i v n = Ok (with_mag s (b_arena s) id i v n q).
Proof.
  intros I Hq Hi. destruct (ob_cpus _ _ _ _ I id q Hq) as [L1 L2]. unfold mag_set, cpu_at. rewrite Hq. cbn [bind]. rewrite put_okZ by lia. cbn [bind]. rewrite put_okZ by lia. reflexivity.
Qed.

Lemma mag_cpu s id i h n : mag_is s id i h n -> exists q, b_cpus s !! id = Some q.
Proof. unfold mag_is, stack_at. destruct (b_cpus s !! id); [eauto|discriminate]. Qed.

Lemma mag_push_ok s W F H id i h n y : slab_inv s W F H -> 0 <= i < 7 -> mag_is s id i h n -> n + 1 <= MAG_MAX -> block s W y (class_size i) ->
  exists s1 s', b_link s y h = Ok s1 /\ mag_set s1 id i y (u32 (n + 1)) = Ok s' /\ slab_inv s' (<[y := InMag id]> W) F H /\ bframe [y] [] s W H s' (<[y := InMag id]> W) H /\
    mag_is s' id i y (n + 1) /\ mags_but id i s s' /\ b_pages s' = b_pages s.
Proof.
  intros [I T] Hi Hm Hb Hbl. apply (block_class _ _ _ _ _ _ I Hi) in Hbl as [Hy Hcl]. destruct (mag_cpu _ _ _ _ _ Hm) as [q Hq]. destruct (ob_cpus _ _ _ _ I id q Hq) as [L1 L2].
  assert (Hcl' : at_class (b_pages s) (Z.of_nat (Z.to_nat i)) y) by now rewrite Z2Nat.id by lia. pose proof (obj_facts I _ y (obj_place I y _ _ Hy Hcl)) as (_ & _ & _ & _ & _ & _ & _ & Hin).
  destruct (mag_facts _ _ _ _ _ _ _ _ I Hm) as (l & _ & En & _). set (A := with_mem (b_arena s) (write (a_mem (b_arena s)) y (bytes_le 8 h))). exists (b_with_arena s A), (with_mag s A id i y (n + 1) q).
  unfold b_link. rewrite (st_link_ok _ H y _ (ob_arena _ _ _ _ I) Hin). split; [reflexivity|]. unfold MAG_MAX, SLAB_BATCH in *. unfold u32. rewrite Z.mod_small by lia. split.
  - unfold mag_set, cpu_at. cbn [b_cpus b_with_arena]. rewrite Hq. cbn [bind]. rewrite put_okZ by lia. cbn [bind]. rewrite put_okZ by lia. reflexivity.
  - destruct (mag_shell s A id i y (n + 1) q Hq L1 L2 Hi eq_refl) as (S & O & Hm' & MB). destruct (push_ok s W F H _ (InMag id) (Z.to_nat i) h n y I Hy Hcl' Hm S eq_refl O) as [I' B]; [intros _; exact Hb|].
    split; [split; [exact I'|exact (shell_struct 0 s _ S T)]|]. auto.
Qed.

Lemma mag_pop_ok s W F H id i h n : slab_inv s W F H -> 0 <= i < 7 -> mag_is s id i h n -> h <> 0 ->
  exists v s', ld_link (b_arena s) h = Ok v /\ mag_set s id i v (u32 (n - 1)) = Ok s' /\ slab_inv s' (<[h := Live]> W) F H /\ bframe [] [h] s W H s' (<[h := Live]> W) H /\
    mag_is s' id i v (n - 1) /\ mags_but id i s s' /\ b_pages s' = b_pages s /\ block s' (<[h := Live]> W) h (class_size i) /\ forall k, ~ block s W h k.
Proof.
  intros [I T] Hi Hm Hh. destruct (mag_cpu _ _ _ _ _ Hm) as [q Hq]. destruct (ob_cpus _ _ _ _ I id q Hq) as [L1 L2]. destruct (mag_facts _ _ _ _ _ _ _ _ I Hm) as (l & Hc & En & Hb & Hz & _).
  destruct (chain_cons _ _ _ _ Hc Hh) as (l' & v & -> & Hv & _). exists v, (with_mag s (b_arena s) id i v (n - 1) q). split; [exact Hv|]. cbn [length] in En. unfold MAG_MAX, SLAB_BATCH in *. unfold u32. rewrite Z.mod_small by lia.
  split; [now apply (mag_set_ok s W F H)|]. destruct (mag_shell s (b_arena s) id i v (n - 1) q Hq L1 L2 Hi eq_refl) as (S & O & Hm' & MB).
  destruct (pop_stack_ok s W F H _ (InMag id) (Z.to_nat i) h n v I Hm Hh S eq_refl Hv O) as (I' & B & Hw & Hcl & _). rewrite Z2Nat.id in Hcl by lia.
  split; [split; [exact I'|exact (shell_struct 0 s _ S T)]|]. split; [exact B|]. split; [exact Hm'|]. split; [exact MB|]. split; [reflexivity|]. split.
  - apply (block_class _ _ _ _ _ _ I' Hi). rewrite lookup_insert_eq. auto.
  - intros k. apply (not_block s W F H _ (Some (InMag id)) i k I); [exact (obj_place I _ _ _ Hw Hcl)|exact Hw|congruence].
Qed.
End Mag.

(** Size-class heap: pages, and the objects that leave and enter them. *)

(** * Encoded links *)

Lemma lxor_word a b : 0 <= a < 2 ^ 64 -> 0 <= b < 2 ^ 64 -> 0 <= Z.lxor a b < 2 ^ 64.
Proof.
  intros Ha Hb. apply (word_of_bits (Z.lxor a b)); [apply Z.lxor_nonneg; lia|]. intros i Hi. rewrite Z.lxor_spec, !word_bit_high; [reflexivity|exact Hb|lia|exact Ha|lia].
Qed.

Lemma shift_word a k : 0 <= a < 2 ^ 64 -> 0 <= k -> 0 <= Z.shiftr a k < 2 ^ 64.
Proof. intros Ha Hk. rewrite Z.shiftr_div_pow2 by lia. pose proof (Z.pow_pos_nonneg 2 k ltac:(lia) Hk). split; [apply Z.div_pos; lia|]. apply Z.le_lt_trans with a; [|lia]. apply Z.div_le_upper_bound; nia. Qed.

Lemma fp_encode_word cookie slot next : 0 <= cookie < 2 ^ 64 -> 0 <= slot < 2 ^ 64 -> 0 <= next < 2 ^ 64 -> 0 <= fp_encode cookie slot next < 2 ^ 64.
Proof. intros Hc Hs Hn. unfold fp_encode. apply lxor_word; [|exact Hc]. apply lxor_word; [exact Hn|]. now apply shift_word. Qed.

(** A link is read back as it was written. *)
Lemma fp_roundtrip cookie slot next : fp_decode cookie slot (fp_encode cookie slot next) = next.
Proof. unfold fp_decode, fp_encode. apply Z.bits_inj. intros i. rewrite !Z.lxor_spec. now destruct (Z.testbit next i), (Z.testbit (Z.shiftr slot 12) i), (Z.testbit cookie i). Qed.

(** The check accepts NULL and the objects of the page. *)
Lemma slab_fp_ok_obj i p y : 0 <= i < 7 -> range_ok p 1 -> y = 0 \/ y ∈ sgrid i p -> slab_fp_ok (class_size i) p y = true.
Proof.
  intros Hi (R1 & R2 & R3 & R4) Hy. unfold slab_fp_ok. destruct (Z.eqb_spec y 0) as [->|Hne]; [reflexivity|]. destruct Hy as [|Hy]; [contradiction|].
  pose proof (class_geom i Hi) as (G1 & G2 & G3 & _). apply elem_of_sgrid in Hy as (k & Hk & ->). fold (class_hdr i).
  assert (0 <= k * class_size i) by nia. assert (k * class_size i + class_size i <= class_objs i * class_size i) by nia.
  replace (p + class_hdr i + k * class_size i - p) with (class_hdr i + k * class_size i) by lia. rewrite (u64_small (class_hdr i + k * class_size i)), u64_small by lia.
  replace (class_hdr i + k * class_size i - class_hdr i) with (k * class_size i) by lia. rewrite Z.mod_mul by lia. unfold SLAB_SIZE, PAGE_SIZE.
  rewrite (proj2 (Z.leb_le _ _)), (proj2 (Z.leb_le _ _)) by lia. reflexivity.
Qed.

(** The objects a cache counts. *)
Definition obj_part (c : slab_cache_t) : Z * Z * Z * Z := (sc_obj_size c, sc_size_class c, sc_global c, sc_global_count c).

Lemma page_ok_core m cookie W p x x' fl : core x' = core x -> page_ok m cookie W p x fl -> page_ok m cookie W p x' fl.
Proof. intros [= E1 E2 E3 E4 E5 E6] []. split; rewrite ?E1, ?E2, ?E3, ?E4, ?E5, ?E6; assumption. Qed.

Section Page.
Context {PS : Type} `{PSI : !PageSource PS} `{PSL : !PageSourceOk PS}.
Implicit Types (s : slab PS) (W : gmap Z place) (F : gmap Z (list Z)) (H : gmap Z Z).

Lemma frame_same s s' W H : same_kinds s s' -> a_mem (b_arena s') = a_mem (b_arena s) -> bframe [] [] s W H s' W H.
Proof.
  intros E Em. split; rewrite ?Em.
  - intros z n Hz _. split; [now apply (block_kind s s' W)|apply agree_refl].
  - intros z n Hz. left. split; [now apply (block_kind s' s W); [apply same_kinds_sym|..]|apply not_elem_of_nil].
  - intros q n Hq Hs. split; [exact Hq|]. split; [now apply (same_kinds_none s)|apply agree_refl].
  - intros q n Hq Hs. split; [exact Hq|]. now apply (same_kinds_none s' s); [apply same_kinds_sym|].
Qed.

(** Moving pages between lists does not concern the objects. *)
Lemma page_relink_ok s W F H s' : objects_ok s W F H -> b_arena s' = b_arena s -> b_cpus s' = b_cpus s -> b_pool s' = b_pool s -> b_cookie s' = b_cookie s -> b_locks s' = b_locks s ->
  (forall q, core <$> b_pages s' !! q = core <$> b_pages s !! q) -> (forall j, obj_part <$> b_caches s' !! j = obj_part <$> b_caches s !! j) ->
  objects_ok s' W F H /\ bframe [] [] s W H s' W H.
Proof.
  intros I EA EC Ep Eck El HP HC. assert (HK : same_kinds s s') by (intros q; now apply core_kind). split; [|apply frame_same; [exact HK|now rewrite EA]].
  assert (Es : forall w j, stack_at s' w j = stack_at s w j).
  { intros [|id|] j; [|unfold stack_at; now rewrite EC|reflexivity]. unfold stack_at. specialize (HC j). destruct (b_caches s' !! j), (b_caches s !! j); try discriminate; [|reflexivity]. injection HC as E1 E2 E3 E4. cbn. congruence. }
  split; rewrite ?EA, ?EC, ?Ep, ?Eck, ?El; try apply I.
  - assert (E : obj_part <$> b_caches s' = obj_part <$> b_caches s) by (apply list_eq; intros i; rewrite !list_lookup_fmap; apply HC). apply (f_equal length) in E. rewrite !length_fmap in E. rewrite E. apply I.
  - intros j c Hc. destruct (fmap_list_lookup obj_part _ _ j c (eq_sym (HC j)) Hc) as (c0 & Hc0 & [= E1 E2 _ _]). rewrite <- E1, <- E2. exact (ob_geom _ _ _ _ I j c0 Hc0).
  - intros p x Hx. destruct (fmap_lookup core _ _ p x (eq_sym (HP p)) Hx) as (x0 & Hx0 & E). pose proof E as [= E1 E2 E3 E4 E5 E6]. destruct (ob_page _ _ _ _ I p x0 Hx0) as [(K1 & K2 & K3)|(K1 & fl & K2 & K3)].
    + left. split; [congruence|]. split; [exact K2|congruence].
    + right. split; [exact K1|]. exists fl. split; [exact K2|]. now apply (page_ok_core _ _ _ _ x0).
  - intros p Hp E. apply (ob_free _ _ _ _ I p Hp). apply (same_kinds_none s' s); [now apply same_kinds_sym|exact E].
  - intros y w Hy. destruct (ob_where _ _ _ _ I y w Hy) as (x & Hx & Hm & Hg). destruct (fmap_lookup kind _ _ _ x (HK _) Hx) as (x' & Hx' & [= E1 E2 E3]). exists x'. split; [exact Hx'|]. split; congruence.
  - intros w i h n Hs. rewrite Es in Hs. destruct (ob_stack _ _ _ _ I w i h n Hs) as (l & Hch & Hl & Hn). exists l. split; [exact Hch|]. split; [|exact Hn]. now apply (lists_kind (b_pages s)).
Qed.

(** The header of a page and the link of one of its objects change; the object is
    neither in a shared list nor in a magazine. *)
Definition with_page s (m' : mem) (p : Z) (x' : slab_page_t) : slab PS := Slab (with_mem (b_arena s) m') (<[p := x']> (b_pages s)) (b_caches s) (b_cpus s) (b_pool s) (b_cookie s) (b_locks s).

Lemma with_page_kinds s m' p x x' : b_pages s !! p = Some x -> kind x' = kind x -> same_kinds s (with_page s m' p x').
Proof. intros Hx E q. unfold with_page. cbn. now apply (fmap_insert_same kind (b_pages s) p x). Qed.

Lemma header_ok s W F H i p x x' y ow m' fl' : objects_ok s W F H -> b_pages s !! p = Some x -> is_page i x -> kind x' = kind x -> y ∈ sgrid i p -> linked_at y (a_mem (b_arena s)) m' ->
  arena_ok (with_mem (b_arena s) m') H -> W !! y = None \/ W !! y = Some Live -> ow = None \/ ow = Some Live -> page_ok m' (b_cookie s) (partial_alter (fun _ => ow) y W) p x' fl' ->
  objects_ok (with_page s m' p x') (partial_alter (fun _ => ow) y W) (<[p := fl']> F) H.
Proof.
  intros I Hx [Hmg Hci] Ek Hy Hm HA Hw How K. pose proof (with_page_kinds s m' p x x' Hx Ek) as HK. subst i. destruct (obj_in I p x y Hx Hmg Hy) as [Epy Ho]. pose proof Ek as [= E1 E2 E3].
  destruct (pg_small I p x Hx Hmg) as (HH & _). split; try apply I; try exact HA.
  - intros q z Hz. cbn in Hz. destruct (decide (p = q)) as [<-|Hne].
    + rewrite lookup_insert_eq in Hz. injection Hz as <-. right. split; [exact HH|]. exists fl'. rewrite lookup_insert_eq. auto.
    + rewrite lookup_insert_ne in Hz by exact Hne. rewrite lookup_insert_ne by exact Hne. destruct (ob_page _ _ _ _ I q z Hz) as [|(K1 & fl & K2 & K3)]; [auto|]. right. split; [exact K1|]. exists fl. split; [exact K2|].
      assert (Hg : y ∉ sgrid (pg_cache z) q). { intros Hg. destruct (obj_in I q z y Hz (po_magic _ _ _ _ _ _ K3) Hg) as [E _]. congruence. }
      apply (page_ok_linked s W F H (pg_cache x) y ow m' q z fl I Ho Hm Hz); [|contradiction|exact K3]. intros Hi. exact (Hg (po_grid _ _ _ _ _ _ K3 y Hi)).
  - intros q Hq. cbn. destruct (decide (p = q)) as [<-|Hne]; [now rewrite lookup_insert_eq|]. rewrite lookup_insert_ne in Hq by exact Hne. rewrite lookup_insert_ne by exact Hne. exact (ob_free _ _ _ _ I q Hq).
  - intros z w Hz. destruct (decide (y = z)) as [<-|Hne].
    + cbn. rewrite Epy, lookup_insert_eq. exists x'. split; [reflexivity|]. split; [congruence|]. now rewrite E2.
    + rewrite lookup_partial_alter_ne in Hz by exact Hne. destruct (ob_where _ _ _ _ I z w Hz) as (t & Ht & Hmt & Hgt). destruct (fmap_lookup kind _ _ _ t (HK _) Ht) as (t' & Ht' & [= E1' E2' E3']). exists t'. split; [exact Ht'|]. split; congruence.
  - intros w j h n Hs. assert (Hs' : stack_at s w j = Some (h, n)) by exact Hs. pose proof (stack_class _ _ _ _ _ Hs') as HL.
    destruct (stack_linked s W F H (pg_cache x) y ow m' w j h n I Ho Hm) as (l & Hch & Hl & Hn); [intros [E _]; destruct Hw; congruence|intros [E _]; destruct How; congruence|exact (ob_stack _ _ _ _ I _ _ _ _ Hs')|].
    exists l. split; [exact Hch|]. split; [|exact Hn]. now apply (lists_kind (b_pages s)).
  - intros z id Hz. destruct (decide (y = z)) as [<-|Hne]; [rewrite lookup_partial_alter_eq in Hz; destruct How; congruence|]. rewrite lookup_partial_alter_ne in Hz by exact Hne. exact (ob_cpu _ _ _ _ I z id Hz).
Qed.

Lemma free_few i p l : 0 <= i < 7 -> NoDup l -> (forall y, y ∈ l -> y ∈ sgrid i p) -> Z.of_nat (length l) <= class_objs i.
Proof. intros Hi Hn Hl. rewrite <- (sgrid_length i p Hi). apply inj_le, submseteq_length, NoDup_submseteq; auto. Qed.

Lemma head_word m cookie W p x fl : range_ok p 1 -> page_ok m cookie W p x fl -> 0 <= pg_freelist x < 2 ^ 64.
Proof.
  intros (R1 & R2 & R3 & R4) K. pose proof (po_chain _ _ _ _ _ _ K) as Hc. destruct fl as [|y fl]; [cbn in Hc; lia|]. destruct Hc as (-> & _). destruct (sgrid_bound _ _ y (po_class _ _ _ _ _ _ K) (po_grid _ _ _ _ _ _ K y ltac:(left))). lia.
Qed.

(** The first free object of a page is taken. *)
Lemma take_ok s W F H p x i y fl : objects_ok s W F H -> b_pages s !! p = Some x -> is_page i x -> F !! p = Some (y :: fl) ->
  exists w, let next := fp_decode (b_cookie s) y w in let s' := with_page s (a_mem (b_arena s)) p (pg_with_inuse (pg_inuse x + 1) (pg_with_freelist next x)) in
  pg_freelist x = y /\ load64 (a_mem (b_arena s)) y = Ok w /\ slab_fp_ok (class_size i) p next = true /\ (next = 0 <-> fl = []) /\
  0 <= pg_inuse x < pg_objects x /\ 3 <= pg_objects x <= 253 /\ (pg_inuse x + 1 = pg_objects x <-> fl = []) /\
  objects_ok s' (<[y := Live]> W) (<[p := fl]> F) H /\ bframe [] [y] s W H s' (<[y := Live]> W) H /\ block s' (<[y := Live]> W) y (class_size i) /\ forall n, ~ block s W y n.
Proof.
  intros I Hx [Hm Hci] HF. destruct (pg_small I p x Hx Hm) as (HH & Hc & Hr & fl0 & HF0 & K). rewrite HF in HF0. injection HF0 as <-. subst i. pose proof (class_geom _ Hc) as (_ & _ & _ & G4 & _).
  pose proof (po_grid _ _ _ _ _ _ K y ltac:(left)) as Hy. destruct (obj_in I p x y Hx Hm Hy) as [Epy Ho]. pose proof (proj1 (po_out _ _ _ _ _ _ K y Hy) ltac:(left)) as HW.
  pose proof (po_nodup _ _ _ _ _ _ K) as Hnd. pose proof (proj1 (NoDup_cons _ _) Hnd) as [Hyfl Hndf]. pose proof (free_few _ p _ Hc Hnd (po_grid _ _ _ _ _ _ K)) as Hlen. pose proof (po_inuse _ _ _ _ _ _ K) as Einu. pose proof (po_objects _ _ _ _ _ _ K) as Eob. cbn [length] in *.
  destruct (po_chain _ _ _ _ _ _ K) as (Ehd & Hy0 & w & Hw & Hch). exists w. cbv zeta. set (next := fp_decode (b_cookie s) y w) in *. set (s' := with_page _ _ _ _).
  assert (En : next = 0 <-> fl = []) by (destruct fl as [|z fl]; [cbn in Hch; tauto|destruct Hch as (-> & Hz0 & _); split; [contradiction|discriminate]]).
  split; [exact Ehd|]. split; [exact Hw|]. split.
  { apply slab_fp_ok_obj; [exact Hc|exact Hr|]. destruct fl as [|z fl]; [left; now apply En|right]. destruct Hch as (-> & _). apply (po_grid _ _ _ _ _ _ K). right. left. }
  split; [exact En|]. split; [lia|]. split; [lia|]. split; [destruct fl; cbn [length] in *; split; try discriminate; try reflexivity; lia|].
  assert (Hlk : linked_at y (a_mem (b_arena s)) (a_mem (b_arena s))) by apply linked_refl.
  assert (I' : objects_ok s' (<[y := Live]> W) (<[p := fl]> F) H).
  { unfold s'. rewrite insert_as_alter. apply (header_ok s W F H (pg_cache x) p x (pg_with_inuse (pg_inuse x + 1) (pg_with_freelist next x)) y (Some Live) _ fl I Hx (conj Hm eq_refl) eq_refl Hy Hlk); [|auto|auto|].
    - replace (with_mem (b_arena s) (a_mem (b_arena s))) with (b_arena s) by (now destruct (b_arena s)). apply I.
    - destruct K as [K1 K2 K3 K4 K5 K6 K7 K8]. split; cbn [pg_with_inuse pg_with_freelist pg_magic pg_cache pg_freelist pg_objects pg_inuse] in *; auto; [intros z Hz; apply K5; now right|lia|].
      intros z Hz. destruct (decide (y = z)) as [<-|Hne]; [rewrite lookup_partial_alter_eq; split; [contradiction|discriminate]|]. rewrite lookup_partial_alter_ne by exact Hne. rewrite <- (K8 z Hz), elem_of_cons. intuition congruence. }
  split; [exact I'|]. split.
  - apply (frame_move s W F H s' _ (pg_cache x) y [] [y] I Ho Hlk); [now apply (with_page_kinds s _ p x)|intros z Hz; now rewrite lookup_insert_ne|congruence|intros z Hz; now apply not_elem_of_nil in Hz|intros _; left].
  - split; [|intros n; now apply (not_block s W F H y None (pg_cache x) n I Ho)]. apply (block_class _ _ _ _ _ _ I' Hc). rewrite lookup_insert_eq. split; [reflexivity|]. eexists. unfold s', with_page. cbn. rewrite Epy, lookup_insert_eq. split; [reflexivity|]. now split.
Qed.

(** An object in use goes back to its page. *)
Lemma give_ok s W F H i y : objects_ok s W F H -> 0 <= i < 7 -> block s W y (class_size i) ->
  let p := slab_page_of y in
  exists x fl, b_pages s !! p = Some x /\ is_page i x /\ F !! p = Some fl /\ 1 <= pg_inuse x <= pg_objects x /\ 3 <= pg_objects x <= 253 /\ (pg_inuse x = pg_objects x <-> fl = []) /\ inside H y /\
  let s' := with_page s (write (a_mem (b_arena s)) y (bytes_le 8 (fp_encode (b_cookie s) y (pg_freelist x)))) p (pg_with_inuse (pg_inuse x - 1) (pg_with_freelist y x)) in
  objects_ok s' (delete y W) (<[p := y :: fl]> F) H /\ bframe [y] [] s W H s' (delete y W) H.
Proof.
  intros I Hi Hb p. apply (block_class _ _ _ _ _ _ I Hi) in Hb as [HL Hcl]. pose proof (obj_place I y _ _ HL Hcl) as Ho. pose proof (obj_facts I i y Ho) as (_ & _ & _ & B1 & B2 & B3 & B4 & Hin).
  destruct Ho as (x & Hx & [Hm Hci] & Hy). fold p in Hx, Hy. destruct (pg_small I p x Hx Hm) as (HH & Hc & Hr & fl & HF & K). subst i. exists x, fl. pose proof (class_geom _ Hc) as (_ & _ & _ & G4 & _).
  assert (Hyf : y ∉ fl) by (intros Hi'; apply (po_out _ _ _ _ _ _ K y Hy) in Hi'; congruence). assert (Hnd : NoDup (y :: fl)) by (constructor; [exact Hyf|apply K]).
  assert (Hgr : forall z, z ∈ y :: fl -> z ∈ sgrid (pg_cache x) p) by (intros z [->|Hz]%elem_of_cons; [exact Hy|now apply K]). pose proof (free_few _ p _ Hc Hnd Hgr) as Hlen. cbn [length] in Hlen.
  pose proof (po_inuse _ _ _ _ _ _ K) as Einu. pose proof (po_objects _ _ _ _ _ _ K) as Eob. pose proof (head_word _ _ _ _ _ _ Hr K) as Hhd.
  split; [exact Hx|]. split; [now split|]. split; [exact HF|]. split; [lia|]. split; [lia|]. split; [destruct fl; cbn [length] in *; split; try discriminate; try reflexivity; lia|]. split; [exact Hin|]. intros s'.
  set (m' := write (a_mem (b_arena s)) y _) in *. assert (Hlk : linked_at y (a_mem (b_arena s)) m') by apply linked_write.
  assert (I' : objects_ok s' (delete y W) (<[p := y :: fl]> F) H).
  { unfold s'. change (delete y W) with (partial_alter (fun _ => None) y W). apply (header_ok s W F H (pg_cache x) p x (pg_with_inuse (pg_inuse x - 1) (pg_with_freelist y x)) y None _ (y :: fl) I Hx (conj Hm eq_refl) eq_refl Hy Hlk); [|auto|auto|].
    - apply arena_write; [apply I|apply bytes_le_bytes].
    - destruct K as [K1 K2 K3 K4 K5 K6 K7 K8]. split; cbn [pg_with_inuse pg_with_freelist pg_magic pg_cache pg_freelist pg_objects pg_inuse length] in *; auto; [|lia|].
      + split; [reflexivity|]. split; [lia|]. eexists. split; [apply ld_same, fp_encode_word; [apply I|lia|exact Hhd]|]. rewrite fp_roundtrip.
        apply (chain_linked s W F H (pg_cache x) y (fp_decode (b_cookie s)) m' _ fl I (ex_intro _ x (conj Hx (conj (conj Hm eq_refl) Hy))) Hlk); [|exact K3]. intros z Hz. split; [congruence|]. exists (pg_cache x). apply (obj_in I p x z Hx Hm). auto.
      + intros z Hz. rewrite elem_of_cons. destruct (decide (y = z)) as [<-|Hne]; [rewrite lookup_partial_alter_eq; tauto|]. rewrite lookup_partial_alter_ne by exact Hne. rewrite <- (K8 z Hz). intuition congruence. }
  split; [exact I'|]. apply (frame_move s W F H s' _ (pg_cache x) y [y] [] I (ex_intro _ x (conj Hx (conj (conj Hm eq_refl) Hy))) Hlk); [now apply (with_page_kinds s _ p x)|intros z Hz; now rewrite lookup_delete_ne|intros _; left|intros z Hz; now apply list_elem_of_singleton in Hz|]. rewrite lookup_delete_eq. discriminate.
Qed.
End Page.

(** Size-class heap: pages move between the lists of their cache. *)

(** * The lists of a cache *)

Lemma lists_frame P P' ex j c lp lf le : class_lists P ex j c lp lf le -> (forall q x, is_page j x -> P !! q = Some x <-> P' !! q = Some x) -> class_lists P' ex j c lp lf le.
Proof.
  intros [L1 L2 L3 L4 L5 L6 L7 L8 L9 L10 L11] HP. assert (He : forall q, q ∈ lp ++ lf ++ le -> page_links <$> P' !! q = page_links <$> P !! q).
  { intros q Hq. destruct (L8 q Hq) as (x & Hx & Hj). rewrite Hx. apply (HP q x Hj) in Hx. now rewrite Hx. }
  split; auto; try (eapply dseg_ext; [|eassumption]; intros q Hq; apply He; rewrite !elem_of_app; tauto).
  - intros q Hq. destruct (L8 q Hq) as (x & Hx & Hj). exists x. split; [now apply (HP q x Hj)|exact Hj].
  - intros q x Hx Hj. apply (HP q x Hj) in Hx. now apply L9.
  - intros q x Hx Hj. apply (HP q x Hj) in Hx. now apply L10.
  - intros q x Hx Hj. apply (HP q x Hj) in Hx. now apply L11.
Qed.

(** An exemption may be dropped or taken for another. *)
Lemma lists_exempt P ex ex' j c lp lf le : class_lists P ex j c lp lf le ->
  (forall x, P !! ex = Some x -> is_page j x -> ex <> ex' -> (ex ∈ lp <-> 0 < pg_inuse x < pg_objects x) /\ (ex ∈ lf <-> pg_inuse x = pg_objects x) /\ (ex ∈ le -> pg_inuse x = 0)) ->
  class_lists P ex' j c lp lf le.
Proof.
  intros [L1 L2 L3 L4 L5 L6 L7 L8 L9 L10 L11] Hex. split; auto; intros p x Hx Hj Hne; (destruct (decide (p = ex)) as [->|Hp]; [|eauto]); now apply (Hex x Hx Hj Hne).
Qed.

Lemma lists_header P ex j c lp lf le p x x' : class_lists P ex j c lp lf le -> P !! p = Some x -> kind x' = kind x -> page_links x' = page_links x -> ex = p -> class_lists (<[p := x']> P) p j c lp lf le.
Proof.
  intros [L1 L2 L3 L4 L5 L6 L7 L8 L9 L10 L11] Hp Ek El ->. assert (He : forall q, page_links <$> <[p := x']> P !! q = page_links <$> P !! q) by (intros q; now apply (fmap_insert_same page_links P p x)).
  split; auto; try (eapply dseg_ext; [|eassumption]; auto).
  - intros q Hq. destruct (L8 q Hq) as (t & Ht & H1 & H2). destruct (fmap_lookup kind P (<[p := x']> P) q t (fmap_insert_same kind P p x x' q Hp Ek) Ht) as (t' & Ht' & [= E1 E2 E3]). exists t'. split; [exact Ht'|]. split; congruence.
  - intros q t Ht Hj Hne. rewrite lookup_insert_ne in Ht by congruence. eauto.
  - intros q t Ht Hj Hne. rewrite lookup_insert_ne in Ht by congruence. eauto.
  - intros q t Ht Hj Hne. rewrite lookup_insert_ne in Ht by congruence. eauto.
Qed.

(** New lists, after the links of pages have changed. *)
Lemma lists_relinked P0 P p i c c' lp lf le lp' lf' le' : class_lists P0 p i c lp lf le -> (forall q, core <$> P !! q = core <$> P0 !! q) -> (exists x, P0 !! p = Some x /\ is_page i x) ->
  dseg P 0 (sc_partial c') lp' 0 -> dseg P 0 (sc_full c') lf' 0 -> dseg P 0 (sc_empty c') le' 0 -> sc_empty_tail c' = last_or 0 le' -> sc_empty_count c' = Z.of_nat (length le') -> Z.of_nat (length le') <= EMPTY_CACHE_LIMIT ->
  NoDup (lp' ++ lf' ++ le') -> (forall q, q <> p -> (q ∈ lp' <-> q ∈ lp) /\ (q ∈ lf' <-> q ∈ lf) /\ (q ∈ le' -> q ∈ le)) -> class_lists P p i c' lp' lf' le'.
Proof.
  intros L HC (xp & Hxp & Hip) D1 D2 D3 E1 E2 E3 Hnd Hin.
  assert (Hk : forall q x, P !! q = Some x -> is_page i x -> exists x0, P0 !! q = Some x0 /\ is_page i x0 /\ pg_inuse x0 = pg_inuse x /\ pg_objects x0 = pg_objects x).
  { intros q x Hx [H1 H2]. destruct (fmap_lookup core P P0 q x (eq_sym (HC q)) Hx) as (x0 & Hx0 & [= F1 F2 F3 F4 F5 F6]). exists x0. split; [exact Hx0|]. split; [split; congruence|auto]. }
  assert (Hk' : forall q, (exists x0, P0 !! q = Some x0 /\ is_page i x0) -> exists x, P !! q = Some x /\ is_page i x).
  { intros q (x0 & Hx0 & H1 & H2). destruct (fmap_lookup core P0 P q x0 (HC q) Hx0) as (x & Hx & [= F1 F2 F3 F4 F5 F6]). exists x. split; [exact Hx|]. split; congruence. }
  split; auto.
  - intros q Hq. apply Hk'. destruct (decide (q = p)) as [->|Hne]; [eauto|]. apply (cl_pages _ _ _ _ _ _ _ L q). destruct (Hin q Hne) as (I1 & I2 & I3). rewrite !elem_of_app in *. tauto.
  - intros q x Hx Hi Hne. destruct (Hk q x Hx Hi) as (x0 & Hx0 & Hi0 & <- & <-). rewrite (proj1 (Hin q Hne)). exact (cl_in_partial _ _ _ _ _ _ _ L q x0 Hx0 Hi0 Hne).
  - intros q x Hx Hi Hne. destruct (Hk q x Hx Hi) as (x0 & Hx0 & Hi0 & <- & <-). rewrite (proj1 (proj2 (Hin q Hne))). exact (cl_in_full _ _ _ _ _ _ _ L q x0 Hx0 Hi0 Hne).
  - intros q x Hx Hi Hne Hq. destruct (Hk q x Hx Hi) as (x0 & Hx0 & Hi0 & <- & _). apply (cl_in_empty _ _ _ _ _ _ _ L q x0 Hx0 Hi0 Hne). now apply (Hin q Hne).
Qed.

(** The other caches, when the pages of one change. *)
Lemma struct_move ex ex' (P P' : gmap Z slab_page_t) (C : list slab_cache_t) (i : nat) c c' : struct_ok ex P C -> C !! i = Some c ->
  (forall x, P !! ex = Some x -> pg_magic x = SLAB_PAGE_MAGIC -> pg_cache x = Z.of_nat i) ->
  (forall q x, pg_magic x = SLAB_PAGE_MAGIC -> pg_cache x <> Z.of_nat i -> P !! q = Some x <-> P' !! q = Some x) ->
  (exists lp lf le, class_lists P' ex' (Z.of_nat i) c' lp lf le) -> struct_ok ex' P' (<[i := c']> C).
Proof.
  intros T Hc Hex HP HL j d Hd. destruct (decide (j = i)) as [->|Hne].
  - rewrite list_lookup_insert_eq in Hd by (apply lookup_lt_is_Some_1; eauto). injection Hd as <-. exact HL.
  - rewrite list_lookup_insert_ne in Hd by congruence. destruct (T j d Hd) as (lp & lf & le & L). exists lp, lf, le. apply (lists_frame P); [|intros q x [H1 H2]; apply HP; [exact H1|lia]].
    apply (lists_exempt P ex); [exact L|]. intros x Hx [H1 H2]. specialize (Hex x Hx H1). lia.
Qed.

(** The pages of other caches are those that are not relinked. *)
Lemma relinked_others l (P P' : gmap Z slab_page_t) (i : Z) : relinked l P P' -> (forall q, q ∈ l -> exists x, P !! q = Some x /\ is_page i x) ->
  forall q x, pg_magic x = SLAB_PAGE_MAGIC -> pg_cache x <> i -> P !! q = Some x <-> P' !! q = Some x.
Proof.
  intros [HC HS] Hl q x Hm Hi. destruct (decide (q ∈ l)) as [Hq|Hq]; [|now rewrite (HS q Hq)]. destruct (Hl q Hq) as (y & Hy & _ & E). specialize (HC q). rewrite Hy in HC. apply fmap_Some in HC as (y' & Hy' & [= F1 F2 F3 F4 F5 F6]).
  split; intros E'; congruence.
Qed.

Lemma struct_relinked ex ex' (P P' : gmap Z slab_page_t) (C : list slab_cache_t) (i : nat) c c' l : struct_ok ex P C -> C !! i = Some c ->
  (forall x, P !! ex = Some x -> pg_magic x = SLAB_PAGE_MAGIC -> pg_cache x = Z.of_nat i) -> relinked l P P' -> (forall q, q ∈ l -> exists x, P !! q = Some x /\ is_page (Z.of_nat i) x) ->
  (exists lp lf le, class_lists P' ex' (Z.of_nat i) c' lp lf le) -> struct_ok ex' P' (<[i := c']> C).
Proof. intros T Hc Hex R Hl. apply (struct_move ex ex' P P' C i c c' T Hc Hex). now apply (relinked_others l). Qed.

Section Move.
Context {PS : Type} `{PSI : !PageSource PS} `{PSL : !PageSourceOk PS}.
Implicit Types (s : slab PS).

Lemma moved_moved s P1 i c1 P2 c2 : moved (moved s P1 i c1) P2 i c2 = moved s P2 i c2.
Proof. unfold moved. cbn. now rewrite list_insert_insert_eq. Qed.

Lemma moved_class s P i c c0 : b_caches s !! Z.to_nat i = Some c0 -> b_caches (moved s P i c) !! Z.to_nat i = Some c.
Proof. intros Hc. unfold moved. cbn. apply list_lookup_insert_eq. apply lookup_lt_is_Some_1; eauto. Qed.

Definition other (k : page_list) : page_list := match k with Partial => Full | Full => Partial end.
Definition pick {A} (k : page_list) (x y : A) : A := match k with Partial => x | Full => y end.

(** From one of the lists to the other. *)
Lemma shift_ok s i c k p lp lf le l1 l2 : 0 <= i -> b_caches s !! Z.to_nat i = Some c -> class_lists (b_pages s) p i c lp lf le -> pick k lp lf = l1 ++ p :: l2 ->
  exists P c', (let* s := slab_list_remove s p i k in slab_list_insert_head s p i (other k)) = Ok (moved s P i c') /\ obj_part c' = obj_part c /\
    relinked (lp ++ lf) (b_pages s) P /\ class_lists P p i c' (pick k (l1 ++ l2) (p :: lp)) (pick k (p :: lf) (l1 ++ l2)) le.
Proof.
  intros Hi Hc L El. pose proof L as [D1 D2 D3 T1 T2 T3 Hnd Hpg A1 A2 A3].
  assert (Hp : exists x, b_pages s !! p = Some x /\ is_page i x) by (apply Hpg; destruct k; cbn in El; rewrite El, !elem_of_app, elem_of_cons; tauto).
  assert (Hdk : dseg (b_pages s) 0 (list_get k c) (l1 ++ p :: l2) 0) by (destruct k; cbn in *; now rewrite <- El).
  assert (Hnk : NoDup (l1 ++ p :: l2)) by (destruct k; cbn in El; subst; apply NoDup_app in Hnd as (N1 & _ & N2); [exact N1|now apply NoDup_app in N2]).
  assert (Hdj : forall q, q ∈ l1 ++ p :: l2 -> q ∉ pick k lf lp /\ q ∉ le) by (intros q Hq; rewrite <- El in Hq; apply NoDup_app in Hnd as (N1 & N2 & N3); apply NoDup_app in N3 as (N3 & N4 & N5); destruct k; cbn in *; split; [intros Hq'; apply (N2 q Hq), elem_of_app; auto|intros Hq'; apply (N2 q Hq), elem_of_app; auto|intros Hq'; apply (N2 q Hq'), elem_of_app; auto|now apply N4]).
  destruct (NoDup_remove_mid _ _ _ Hnk) as [Hn12 Hp12].
  destruct (slab_list_remove_ok s i c k l1 p l2 Hi Hc Hnk Hdk) as (P1 & h & x & E1 & F1 & R1 & Hx & Hx1). rewrite E1. cbn [bind]. set (s1 := moved s P1 i (list_set k h c)).
  assert (Hc1 : b_caches s1 !! Z.to_nat i = Some (list_set k h c)) by now apply (moved_class s _ _ _ c).
  assert (Hpo : p ∉ pick k lf lp) by (apply Hdj, elem_of_app; right; left).
  assert (Ho : dseg P1 0 (list_get (other k) (list_set k h c)) (pick k lf lp) 0).
  { apply (relinked_dseg (l1 ++ p :: l2) (b_pages s)); [exact R1|intros q Hq Hq'; destruct (Hdj q Hq'); contradiction|]. destruct k; assumption. }
  assert (Hno : NoDup (p :: pick k lf lp)) by (constructor; [exact Hpo|]; apply NoDup_app in Hnd as (N1 & _ & N2); apply NoDup_app in N2; destruct k; tauto).
  destruct (slab_list_insert_ok s1 i _ (other k) (pick k lf lp) p _ Hi Hc1 Ho Hno Hx1) as (P2 & E2 & F2 & R2); [now apply (dseg_in _ _ _ _ _ p Hdk), elem_of_app; right; left|].
  assert (R : relinked (lp ++ lf) (b_pages s) P2).
  { apply (relinked_trans _ _ P1); [apply (relinked_weak (l1 ++ p :: l2)); [|exact R1]|apply (relinked_weak (p :: pick k lf lp)); [|exact R2]]; intros q Hq; apply elem_of_app; destruct k; cbn in *; rewrite ?El; auto; apply elem_of_cons in Hq as [->|Hq]; auto; [left|right]; apply elem_of_app; right; left. }
  exists P2, (list_set (other k) p (list_set k h c)). rewrite E2. unfold s1. rewrite moved_moved. split; [reflexivity|]. split; [now destruct k|]. split; [exact R|].
  assert (Hk : dseg P2 0 h (l1 ++ l2) 0).
  { apply (relinked_dseg _ _ _ _ _ _ _ R2); [|exact F1]. intros q Hq [->|Hq']%elem_of_cons; [contradiction|]. refine (proj1 (Hdj q _) Hq'). rewrite elem_of_app, elem_of_cons. apply elem_of_app in Hq. tauto. }
  apply (lists_relinked (b_pages s) P2 p i c _ lp lf le _ _ le L (rl_core _ _ _ R) Hp); try (destruct k; cbn; assumption).
  - assert (F3 : dseg P1 0 (sc_empty c) le 0) by (apply (relinked_dseg _ _ _ _ _ _ _ R1); [intros q Hq Hq'; destruct (Hdj q Hq'); contradiction|exact D3]).
    replace (sc_empty (list_set (other k) p (list_set k h c))) with (sc_empty c) by now destruct k. apply (relinked_dseg _ _ _ _ _ _ _ R2); [|exact F3]. intros q Hq [->|Hq']%elem_of_cons; [apply (Hdj p); [apply elem_of_app; right; left|exact Hq]|].
    apply NoDup_app in Hnd as (N1 & N2 & N3). apply NoDup_app in N3 as (N3 & N4 & N5). destruct k; cbn in Hq'; [now apply (N4 q)|apply (N2 q Hq'), elem_of_app; auto].
  - destruct k; cbn in *; subst; (refine (proj1 (NoDup_Permutation_proper _ _ _) Hnd)); solve_Permutation.
  - intros q Hq. destruct k; cbn in *; subst; rewrite !elem_of_app, !elem_of_cons; tauto.
Qed.

(** The first page of the empty list leaves it. *)
Lemma unhook_ok s i c1 h p x l t n : 0 <= i -> b_caches s !! Z.to_nat i = Some c1 -> NoDup (p :: l) -> dseg (b_pages s) 0 h (p :: l) 0 -> b_pages s !! p = Some x -> (l <> [] -> t = last_or 0 l) ->
  exists P, (if pg_next x =? 0 then upd_class (sc_with_empty 0 0 n) i s else let* s := upd_page (pg_with_prev 0) (pg_next x) s in upd_class (sc_with_empty (pg_next x) t n) i s) =
      Ok (moved s P i (sc_with_empty (nexts l) (last_or 0 l) n c1)) /\ dseg P 0 (nexts l) l 0 /\ relinked l (b_pages s) P /\ P !! p = Some x.
Proof.
  intros Hi Hc Hnd Hd Hx Ht. destruct (dseg_unlink (b_pages s) h [] p l Hnd Hd) as (x' & Hx' & Hp0 & _ & Enx & D & R & Hx2). rewrite Hx in Hx'. injection Hx' as <-. cbn [app] in *. change (new_head h [] l) with (nexts l) in D.
  change (set_last_next (b_pages s) [] (nexts l)) with (b_pages s) in *. change (last_or 0 []) with 0 in *. exists (set_head_prev (b_pages s) l 0). rewrite Enx. split; [|auto]. unfold set_head_prev. destruct l as [|q l]; [now rewrite (upd_class_ok _ _ _ _ Hi Hc)|].
  change (nexts (q :: l)) with q in *. cbn [head]. destruct (dseg_in _ _ _ _ _ q Hd ltac:(right; left)) as [[y Hy] Hq0]. rewrite (proj2 (Z.eqb_neq _ _) Hq0). rewrite (upd_page_ok _ _ _ _ Hy). cbn [bind].
  erewrite upd_class_ok by (try exact Hi; exact Hc). rewrite Hy. rewrite (Ht ltac:(discriminate)). reflexivity.
Qed.

(** A page behind the last one of the empty list. *)
Lemma enqueue_ok s i c1 p x l n : 0 <= i -> b_caches s !! Z.to_nat i = Some c1 -> NoDup (p :: l) -> dseg (b_pages s) 0 (sc_empty c1) l 0 -> sc_empty_tail c1 = last_or 0 l -> b_pages s !! p = Some x -> p <> 0 ->
  exists P, (let* s := upd_page (pg_with_next 0) p s in
      if sc_empty c1 =? 0 then let* s := upd_class (sc_with_empty p p n) i s in upd_page (pg_with_prev 0) p s
      else let* s := upd_page (pg_with_prev (sc_empty_tail c1)) p s in let* s := upd_page (pg_with_next p) (sc_empty_tail c1) s in upd_class (sc_with_empty (sc_empty c1) p n) i s) =
      Ok (moved s P i (sc_with_empty (nexts (l ++ [p])) p n c1)) /\ dseg P 0 (nexts (l ++ [p])) (l ++ [p]) 0 /\ relinked (p :: l) (b_pages s) P.
Proof.
  intros Hi Hc Hnd Hd Et Hx Hp0. apply NoDup_cons in Hnd as [Hpl Hnd]. rewrite (upd_page_ok _ _ _ _ Hx). cbn [bind]. pose proof (dseg_head _ _ _ _ Hd) as Eh. rewrite Eh, Et. destruct l as [|q l _] using rev_ind.
  - change (nexts []) with 0. cbn [Z.eqb app]. erewrite upd_class_ok by (try exact Hi; exact Hc). cbn [bind]. erewrite upd_page_ok by (cbn; apply lookup_insert_eq). eexists. split; [reflexivity|]. cbn [b_pages]. rewrite insert_insert_eq. split.
    + split; [reflexivity|]. split; [exact Hp0|]. eexists. rewrite lookup_insert_eq. split; [reflexivity|]. now split.
    + apply (relinked_insert _ _ p x); [exact Hx|reflexivity|left].
  - rewrite last_or_snoc. assert (Hh : nexts ((l ++ [q]) ++ [p]) = nexts (l ++ [q])) by now destruct l. rewrite Hh. destruct (dseg_in _ _ _ _ _ q Hd) as [[y Hy] Hq0]; [apply elem_of_app; right; left|].
    assert (Hh0 : nexts (l ++ [q]) <> 0) by (destruct l as [|r l]; [exact Hq0|]; now apply (dseg_in _ _ _ _ _ r Hd); left). rewrite (proj2 (Z.eqb_neq _ _) Hh0). erewrite upd_page_ok by (cbn; apply lookup_insert_eq). cbn [bind b_pages]. rewrite insert_insert_eq.
    set (x' := pg_with_prev q (pg_with_next 0 x)). assert (Hqp : p <> q) by (intros ->; apply Hpl, elem_of_app; right; left). assert (Hy' : <[p := x']> (b_pages s) !! q = Some y) by now rewrite lookup_insert_ne.
    erewrite upd_page_ok by exact Hy'. cbn [bind]. erewrite upd_class_ok by (try exact Hi; exact Hc). exists (<[q := pg_with_next p y]> (<[p := x']> (b_pages s))). split; [reflexivity|].
    apply NoDup_app in Hnd as (_ & Hnd & _). assert (Hql : q ∉ l) by (intros Hi'; apply (Hnd q Hi'); left). split.
    + apply dseg_app. exists p. split.
      * rewrite Eh in Hd. apply (dseg_set_next _ 0 _ l q y 0); [now apply dseg_notin|exact Hy'|exact Hql].
      * rewrite last_or_snoc. split; [reflexivity|]. split; [exact Hp0|]. exists x'. rewrite lookup_insert_ne by congruence. rewrite lookup_insert_eq. split; [reflexivity|]. now split.
    + apply (relinked_trans _ _ (<[p := x']> (b_pages s))); [apply (relinked_insert _ _ p x); [exact Hx|reflexivity|left]|]. apply (relinked_insert _ _ q y); [exact Hy'|reflexivity|right; apply elem_of_app; right; left].
Qed.

(** The list of empty pages after one more; the fifth drives out the oldest. *)
Definition retired (le : list Z) (p : Z) : list Z := if EMPTY_CACHE_LIMIT <? Z.of_nat (length le) + 1 then drop 1 (le ++ [p]) else le ++ [p].

Lemma retire_ok s i c p lp lf le : 0 <= i -> b_caches s !! Z.to_nat i = Some c -> class_lists (b_pages s) p i c lp lf le -> p ∈ lp -> p <> 0 ->
  exists P c' lp', retire_page s i p 0 = Ok (moved s P i c') /\ obj_part c' = obj_part c /\ relinked (lp ++ lf ++ le) (b_pages s) P /\ class_lists P p i c' lp' lf (retired le p) /\ p ∉ lp'.
Proof.
  intros Hi Hc L Hp Hp0. pose proof L as [D1 D2 D3 T1 T2 T3 Hnd Hpg A1 A2 A3]. assert (Hpx : exists x, b_pages s !! p = Some x /\ is_page i x) by (apply Hpg, elem_of_app; auto).
  apply list_elem_of_split in Hp as (l1 & l2 & El). subst lp. pose proof Hnd as Hnd0. apply NoDup_app in Hnd as (N1 & N2 & N3). apply NoDup_app in N3 as (N3 & N4 & N5). destruct (NoDup_remove_mid _ _ _ N1) as [N12 Np].
  assert (Npo : p ∉ lf /\ p ∉ le) by (specialize (N2 p ltac:(apply elem_of_app; right; left)); rewrite elem_of_app in N2; tauto). destruct Npo as [Npf Npe].
  unfold retire_page. destruct (slab_list_remove_ok s i c Partial l1 p l2 Hi Hc N1 D1) as (P1 & h & x & E1 & F1 & R1 & Hx & Hx1). rewrite E1. cbn [bind]. cbn [list_set] in *. set (c1 := sc_with_partial h c) in *. set (s1 := moved s P1 i c1).
  assert (Hc1 : b_caches s1 !! Z.to_nat i = Some c1) by now apply (moved_class s _ _ _ c). rewrite (class_at_ok _ _ _ Hi Hc1). cbn [bind].
  assert (De : dseg P1 0 (sc_empty c1) le 0) by (apply (relinked_dseg _ _ _ _ _ _ _ R1); [intros q Hq Hq'; apply (N2 q Hq'), elem_of_app; auto|exact D3]).
  assert (Df : dseg P1 0 (sc_full c1) lf 0) by (apply (relinked_dseg _ _ _ _ _ _ _ R1); [intros q Hq Hq'; apply (N2 q Hq'), elem_of_app; auto|exact D2]).
  assert (En : u32 (sc_empty_count c1 + 1) = Z.of_nat (length le) + 1) by (unfold c1; cbn; unfold u32, EMPTY_CACHE_LIMIT in *; rewrite T2, Z.mod_small; lia). rewrite En. set (n := Z.of_nat (length le) + 1) in *.
  destruct (enqueue_ok s1 i c1 p _ le n Hi Hc1 ltac:(constructor; assumption) De T1 Hx1 Hp0) as (P2 & E2 & F2 & R2).
  rewrite <- bind_assoc, E2. cbn [bind]. set (c2 := sc_with_empty (nexts (le ++ [p])) p n c1). unfold s1. rewrite moved_moved. set (s2 := moved s P2 i c2). assert (Hc2 : b_caches s2 !! Z.to_nat i = Some c2) by now apply (moved_class s _ _ _ c).
  rewrite (class_at_ok _ _ _ Hi Hc2). cbn [bind]. change (sc_empty_count c2) with n.
  assert (Dp2 : dseg P2 0 h (l1 ++ l2) 0). { apply (relinked_dseg _ _ _ _ _ _ _ R2); [|exact F1]. intros q Hq [->|Hq']%elem_of_cons; [contradiction|]. apply (N2 q); [|apply elem_of_app; auto]. rewrite elem_of_app, elem_of_cons. apply elem_of_app in Hq. tauto. }
  assert (Df2 : dseg P2 0 (sc_full c) lf 0). { apply (relinked_dseg _ _ _ _ _ _ _ R2); [|exact Df]. intros q Hq [->|Hq']%elem_of_cons; [contradiction|]. exact (N4 q Hq Hq'). }
  assert (R02 : relinked ((l1 ++ p :: l2) ++ lf ++ le) (b_pages s) P2).
  { apply (relinked_trans _ _ P1); [apply (relinked_weak (l1 ++ p :: l2)); [|exact R1]; intros q Hq; apply elem_of_app; auto|]. apply (relinked_weak (p :: le)); [|exact R2]. intros q [->|Hq]%elem_of_cons; rewrite !elem_of_app, elem_of_cons; tauto. }
  assert (Nn : NoDup ((l1 ++ l2) ++ lf ++ le ++ [p])) by (refine (proj1 (NoDup_Permutation_proper _ _ _) Hnd0); solve_Permutation).
  unfold retired. fold n. destruct (Z.ltb_spec EMPTY_CACHE_LIMIT n) as [Hn|Hn].
  - destruct le as [|old le]; [unfold n, EMPTY_CACHE_LIMIT in *; cbn in Hn; lia|]. change (sc_empty c2) with old. change (drop 1 ((old :: le) ++ [p])) with (le ++ [p]).
    assert (Fd : dseg P2 0 old (old :: (le ++ [p])) 0) by exact F2. assert (Ho : is_Some (P2 !! old) /\ old <> 0) by (apply (dseg_in _ _ _ _ _ old Fd); left). destruct Ho as [[y Hy] Ho0]. rewrite (page_at_ok s2 old y Hy). cbn [bind].
    assert (Nd2 : NoDup (old :: le ++ [p])). { apply NoDup_app in Nn as (_ & _ & Nn). now apply NoDup_app in Nn as (_ & _ & Nn). } assert (Hol : old ∉ le ++ [p]) by now apply NoDup_cons in Nd2.
    destruct (unhook_ok s2 i c2 old old y (le ++ [p]) p (u32 (n - 1)) Hi Hc2 Nd2 Fd Hy) as (P3 & E3 & F3 & R3 & Hy3); [intros _; now rewrite last_or_snoc|]. change (sc_empty_tail c2) with p. rewrite E3. cbn [bind].
    erewrite upd_page_ok by exact Hy3. set (c3 := sc_with_empty _ _ _ c2). set (P4 := <[old := _]> _). exists P4, c3, (l1 ++ l2). unfold s2. rewrite moved_moved. split; [reflexivity|]. split; [reflexivity|].
    assert (R4 : relinked (old :: le ++ [p]) P2 P4) by (apply (relinked_trans _ _ P3); [apply (relinked_weak (le ++ [p])); [intros q Hq; now right|exact R3]|]; apply (relinked_insert _ _ old y); [exact Hy3|reflexivity|left]).
    assert (R04 : relinked ((l1 ++ p :: l2) ++ lf ++ old :: le) (b_pages s) P4) by (apply (relinked_trans _ _ P2); [exact R02|]; apply (relinked_weak (old :: le ++ [p])); [|exact R4]; intros q; clear; rewrite !elem_of_app, !elem_of_cons, elem_of_app, list_elem_of_singleton; tauto).
    assert (Hx4 : forall q, q ∈ (l1 ++ l2) ++ lf -> q ∉ old :: le ++ [p]) by (intros q Hq Hq'; rewrite app_assoc in Nn; apply NoDup_app in Nn as (_ & Nn & _); exact (Nn q Hq Hq')).
    split; [exact R04|]. split; [|exact Np]. apply (lists_relinked (b_pages s) P4 p i c c3 _ _ _ _ _ _ L (rl_core _ _ _ R04) Hpx).
    + apply (relinked_dseg _ _ _ _ _ _ _ R4); [intros q Hq; apply Hx4, elem_of_app; auto|exact Dp2].
    + apply (relinked_dseg _ _ _ _ _ _ _ R4); [intros q Hq; apply Hx4, elem_of_app; auto|exact Df2].
    + unfold P4. apply dseg_notin; [exact Hol|exact F3].
    + unfold c3. cbn. reflexivity.
    + change (sc_empty_count c3) with (u32 (n - 1)). rewrite length_app. unfold n, u32, EMPTY_CACHE_LIMIT in *. cbn [length] in *. rewrite Z.mod_small; lia.
    + rewrite length_app. unfold EMPTY_CACHE_LIMIT in *. cbn [length] in *. lia.
    + refine (proj2 (proj2 (proj1 (NoDup_app [old] _) _))). refine (proj1 (NoDup_Permutation_proper _ _ _) Nn). solve_Permutation.
    + intros q Hq. rewrite !elem_of_app, !elem_of_cons, ?elem_of_app, ?elem_of_cons, ?elem_of_nil. tauto.
  - exists P2, c2, (l1 ++ l2). split; [reflexivity|]. split; [reflexivity|]. split; [exact R02|]. split; [|exact Np]. apply (lists_relinked (b_pages s) P2 p i c c2 _ _ _ _ _ _ L (rl_core _ _ _ R02) Hpx); try assumption.
    + unfold c2. cbn. now rewrite last_or_snoc.
    + unfold c2. cbn. rewrite length_app. unfold n. cbn. lia.
    + rewrite length_app. cbn. lia.
    + intros q Hq. rewrite !elem_of_app, !elem_of_cons, ?elem_of_app, ?elem_of_cons, ?elem_of_nil. tauto.
Qed.
End Move.
