(* ===== verification/SlabAlloc.v ===== *)
(** Size-class heap: objects go from the shared list back to their pages, pages are
    new or revived, and [SLAB::Alloc] for small sizes. *)
From stdpp Require Import base gmap list fin_maps.
From Stdlib Require Import ZArith Lia.
From S2P Require Import Prelude Words Memory PMM PMMBits PMMInit HeapMem Slub SlubInv SlubAlloc Slab SlabInv SlabPage.

Open Scope Z_scope.
Open Scope c_scope.

Section Drain.
Context {PS : Type} `{PSI : !PageSource PS} `{PSL : !PageSourceOk PS}.
Implicit Types (s : slab PS) (W : gmap Z place) (F : gmap Z (list Z)) (H : gmap Z Z).

Lemma no_page_zero s W F H : objects_ok s W F H -> b_pages s !! 0 = None.
Proof.
  intros I. destruct (b_pages s !! 0) as [x|] eqn:E; [|reflexivity]. exfalso. destruct (ob_page _ _ _ _ I 0 x E) as [(_ & _ & HH)|(HH & _)]; destruct (ps_range _ _ _ _ (ar_src _ _ (ob_arena _ _ _ _ I)) HH); lia.
Qed.

(** The lists of cache [i] when its page [p] is about to change. *)
Lemma lists_exempt0 s W F H i c p : objects_ok s W F H -> struct_ok 0 (b_pages s) (b_caches s) -> 0 <= i -> b_caches s !! Z.to_nat i = Some c -> exists lp lf le, class_lists (b_pages s) p i c lp lf le /\ class_lists (b_pages s) 0 i c lp lf le.
Proof.
  intros I T Hi Hc. destruct (T _ _ Hc) as (lp & lf & le & L). rewrite Z2Nat.id in L by exact Hi. exists lp, lf, le. split; [|exact L]. apply (lists_exempt _ 0); [exact L|]. intros x Hx. rewrite (no_page_zero _ _ _ _ I) in Hx. discriminate.
Qed.

(** After the lists of cache [i] have changed. *)
Lemma moved_ok ex ex' s W F H i c P c' l : objects_ok s W F H -> struct_ok ex (b_pages s) (b_caches s) -> 0 <= i -> b_caches s !! Z.to_nat i = Some c ->
  (forall x, b_pages s !! ex = Some x -> pg_magic x = SLAB_PAGE_MAGIC -> pg_cache x = i) -> relinked l (b_pages s) P -> (forall q, q ∈ l -> exists x, b_pages s !! q = Some x /\ is_page i x) -> obj_part c' = obj_part c ->
  (exists lp lf le, class_lists P ex' i c' lp lf le) ->
  objects_ok (moved s P i c') W F H /\ struct_ok ex' (b_pages (moved s P i c')) (b_caches (moved s P i c')) /\ bframe [] [] s W H (moved s P i c') W H.
Proof.
  intros I T Hi Hc Hex R Hl Eo HL. destruct (page_relink_ok s W F H (moved s P i c') I eq_refl eq_refl eq_refl eq_refl eq_refl) as [I' B].
  - intros q. exact (rl_core _ _ _ R q).
  - intros j. unfold moved. cbn. destruct (decide (j = Z.to_nat i)) as [->|Hne]; [|now rewrite list_lookup_insert_ne by congruence]. rewrite list_lookup_insert_eq by (apply lookup_lt_is_Some_1; eauto). rewrite Hc. cbn. now rewrite Eo.
  - split; [exact I'|]. split; [|exact B]. unfold moved. cbn. rewrite <- (Z2Nat.id i) in HL, Hex, Hl by exact Hi. exact (struct_relinked ex ex' (b_pages s) P (b_caches s) _ c c' l T Hc Hex R Hl HL).
Qed.

(** The header of page [p] changes. *)
Lemma header_struct s m' p x x' i c lp lf le : b_pages s !! p = Some x -> is_page i x -> kind x' = kind x -> page_links x' = page_links x -> 0 <= i ->
  struct_ok 0 (b_pages s) (b_caches s) -> b_caches s !! Z.to_nat i = Some c -> class_lists (b_pages s) p i c lp lf le -> b_pages s !! 0 = None ->
  struct_ok p (b_pages (with_page s m' p x')) (b_caches (with_page s m' p x')) /\ class_lists (b_pages (with_page s m' p x')) p i c lp lf le.
Proof.
  intros Hx [Hm Hci] Ek El Hi T Hc L H0. assert (L' : class_lists (<[p := x']> (b_pages s)) p i c lp lf le) by now apply (lists_header (b_pages s) p i c lp lf le p x x' L Hx Ek El). split; [|exact L'].
  unfold with_page. cbn. rewrite <- (list_insert_id (b_caches s) (Z.to_nat i) c Hc). apply (struct_move 0 p (b_pages s) _ (b_caches s) (Z.to_nat i) c c T Hc); [intros y Hy; congruence| |rewrite Z2Nat.id by exact Hi; eauto].
  intros q y Hmy Hcy. rewrite Z2Nat.id in Hcy by exact Hi. pose proof Ek as [= E1 E2 E3]. destruct (decide (p = q)) as [<-|Hne]; [|now rewrite lookup_insert_ne]. rewrite lookup_insert_eq. split; intros E; congruence.
Qed.

(** Frames with steps that leave the blocks alone. *)
Lemma frame_after X Y s1 s2 s3 W1 W2 W3 H1 H2 H3 : bframe X Y s1 W1 H1 s2 W2 H2 -> bframe [] [] s2 W2 H2 s3 W3 H3 -> bframe X Y s1 W1 H1 s3 W3 H3.
Proof. intros A B. apply (bframe_trans X Y [] [] X Y s1 W1 H1 s2 W2 H2 s3 W3 H3 A B); [|auto|intros z Hz; now apply not_elem_of_nil in Hz]. intros z n _. split; [intros Hz; split; [exact Hz|apply not_elem_of_nil]|tauto]. Qed.

Lemma frame_before X Y s1 s2 s3 W1 W2 W3 H1 H2 H3 : bframe [] [] s1 W1 H1 s2 W2 H2 -> bframe X Y s2 W2 H2 s3 W3 H3 -> bframe X Y s1 W1 H1 s3 W3 H3.
Proof. intros A B. apply (bframe_trans [] [] X Y X Y s1 W1 H1 s2 W2 H2 s3 W3 H3 A B); [|intros z Hz; now apply not_elem_of_nil in Hz|auto]. intros z n _. split; [intros Hz; split; [apply not_elem_of_nil|exact Hz]|tauto]. Qed.

(** An object is taken and given back. *)
Lemma frame_cancel y s1 s2 s3 W1 W2 W3 H1 H2 H3 : bframe [] [y] s1 W1 H1 s2 W2 H2 -> bframe [y] [] s2 W2 H2 s3 W3 H3 -> (forall n, ~ block s1 W1 y n) -> bframe [] [] s1 W1 H1 s3 W3 H3.
Proof.
  intros A B Hy. apply (bframe_trans [] [y] [y] [] [] [] s1 W1 H1 s2 W2 H2 s3 W3 H3 A B); [|auto|auto]. intros z n Hz. split; [|intros _; apply not_elem_of_nil]. intros _. split; [apply not_elem_of_nil|]. rewrite list_elem_of_singleton. intros ->. exact (Hy n Hz).
Qed.

Lemma u32_small z : 0 <= z < 2 ^ 32 -> u32 z = z.
Proof. intros Hz. unfold u32. now apply Z.mod_small. Qed.

(** One object is given to its page, and the page to the list it belongs to. *)
Lemma page_give_ok s W F H i y c : slab_inv s W F H -> 0 <= i < 7 -> b_caches s !! Z.to_nat i = Some c -> block s W y (class_size i) -> let p := slab_page_of y in
  exists x s2, b_pages s !! p = Some x /\ is_page i x /\ 1 <= pg_inuse x /\ b_link s y (fp_encode (b_cookie s) y (pg_freelist x)) = Ok s2 /\
  wp (let* s := upd_page (fun x0 => pg_with_inuse (u32 (pg_inuse x - 1)) (pg_with_freelist y x0)) p s2 in
      let* s := if u32 (pg_inuse x - 1) =? u32 (pg_objects x - 1) then let* s := slab_list_remove s p i Full in slab_list_insert_head s p i Partial else Ok s in
      if u32 (pg_inuse x - 1) =? 0 then retire_page s i p 0 else Ok s)
    (fun s' => exists W' F', slab_inv s' W' F' H /\ bframe [y] [] s W H s' W' H /\ b_cpus s' = b_cpus s).
Proof.
  intros [I T] Hi Hc Hb p. destruct (give_ok s W F H i y I Hi Hb) as (x & fl & Hx & Hip & HF & Hinu & Hob & Hfull & Hin & I' & B). fold p in Hx, HF. cbv zeta in I', B. fold p in I', B. exists x. eexists. split; [exact Hx|]. split; [exact Hip|]. split; [lia|].
  unfold b_link. rewrite (st_link_ok _ H y _ (ob_arena _ _ _ _ I) Hin). split; [reflexivity|]. rewrite !u32_small by lia. erewrite upd_page_ok by exact Hx. cbn [bind].
  set (x' := pg_with_inuse (pg_inuse x - 1) (pg_with_freelist y x)) in *. set (s2 := with_page s (write (a_mem (b_arena s)) y (bytes_le 8 (fp_encode (b_cookie s) y (pg_freelist x)))) p x') in *.
  change (Slab _ _ _ _ _ _ _) with s2. destruct (lists_exempt0 s W F H i c p I T ltac:(lia) Hc) as (lp & lf & le & Lp & L0).
  destruct (header_struct s (write (a_mem (b_arena s)) y (bytes_le 8 (fp_encode (b_cookie s) y (pg_freelist x)))) p x x' i c lp lf le Hx Hip eq_refl eq_refl ltac:(lia) T Hc Lp (no_page_zero _ _ _ _ I)) as [T' L']. fold s2 in T', L'.
  assert (Hp0 : p <> 0) by (intros E; rewrite E, (no_page_zero _ _ _ _ I) in Hx; discriminate). assert (Hx2 : b_pages s2 !! p = Some x') by apply lookup_insert_eq.
  assert (Hex : forall z, b_pages s2 !! p = Some z -> pg_magic z = SLAB_PAGE_MAGIC -> pg_cache z = i) by (intros z Hz _; rewrite Hx2 in Hz; injection Hz as <-; apply Hip).
  pose proof (cl_in_partial _ _ _ _ _ _ _ L0 p x Hx Hip Hp0) as Ip. pose proof (cl_in_full _ _ _ _ _ _ _ L0 p x Hx Hip Hp0) as If. pose proof (cl_in_empty _ _ _ _ _ _ _ L0 p x Hx Hip Hp0) as Ie.
  destruct (Z.eqb_spec (pg_inuse x - 1) (pg_objects x - 1)) as [E|E].
  - destruct (list_elem_of_split _ _ (proj2 If ltac:(lia))) as (l1 & l2 & El). destruct (shift_ok s2 i c Full p lp lf le l1 l2 ltac:(lia) Hc L' El) as (P & c' & Es & Eo & R & L2). cbn [pick other] in *. rewrite Es. cbn [bind].
    rewrite (proj2 (Z.eqb_neq (pg_inuse x - 1) 0)) by lia. cbn [wp].
    destruct (moved_ok p 0 s2 _ _ H i c P c' (lp ++ lf) I' T' ltac:(lia) Hc Hex R) as (I3 & T3 & B3); [intros q Hq; apply (cl_pages _ _ _ _ _ _ _ L'); rewrite !elem_of_app in *; tauto|exact Eo| |].
    + exists (p :: lp), (l1 ++ l2), le. apply (lists_exempt _ p); [exact L2|]. intros z Hz _ _. assert (Ez : core z = core x') by (pose proof (rl_core _ _ _ R p) as Ec; rewrite Hz, Hx2 in Ec; exact (Some_inj _ _ Ec)). injection Ez as Z1 Z2 Z3 Z4 Z5 Z6.
      cbn [pg_inuse pg_objects x' pg_with_inuse pg_with_freelist] in *. pose proof (cl_nodup _ _ _ _ _ _ _ L2) as Hnd. cbn in Hnd. apply NoDup_cons in Hnd as [Hnp _]. rewrite Z5, Z6. rewrite !elem_of_app in *.
      split; [split; [lia|left]|]. split; [split; [tauto|lia]|tauto].
    + eexists _, _. split; [split; [exact I3|exact T3]|]. split; [|reflexivity]. exact (frame_after _ _ _ _ _ _ _ _ _ _ _ B B3).
  - cbn [bind]. destruct (Z.eqb_spec (pg_inuse x - 1) 0) as [E0|E0].
    + destruct (retire_ok s2 i c p lp lf le ltac:(lia) Hc L' (proj2 Ip ltac:(lia)) Hp0) as (P & c' & lp' & Es & Eo & R & L2 & Hnp). rewrite Es. cbn [wp].
      destruct (moved_ok p 0 s2 _ _ H i c P c' _ I' T' ltac:(lia) Hc Hex R) as (I3 & T3 & B3); [intros q Hq; now apply (cl_pages _ _ _ _ _ _ _ L')|exact Eo| |].
      * exists lp', lf, (retired le p). apply (lists_exempt _ p); [exact L2|]. intros z Hz _ _. assert (Ez : core z = core x') by (pose proof (rl_core _ _ _ R p) as Ec; rewrite Hz, Hx2 in Ec; exact (Some_inj _ _ Ec)). injection Ez as Z1 Z2 Z3 Z4 Z5 Z6.
        cbn [pg_inuse pg_objects x' pg_with_inuse pg_with_freelist] in *. rewrite Z5, Z6. split; [split; [contradiction|lia]|]. split; [rewrite If; lia|lia].
      * eexists _, _. split; [split; [exact I3|exact T3]|]. split; [|reflexivity]. exact (frame_after _ _ _ _ _ _ _ _ _ _ _ B B3).
    + cbn [wp]. eexists _, _. split; [split; [exact I'|]|split; [exact B|reflexivity]]. rewrite <- (list_insert_id (b_caches s2) (Z.to_nat i) c Hc). apply (struct_move p 0 (b_pages s2) _ (b_caches s2) (Z.to_nat i) c c T' Hc); [rewrite Z2Nat.id by lia; exact Hex|tauto|].
      exists lp, lf, le. rewrite Z2Nat.id by lia. apply (lists_exempt _ p); [exact L'|]. intros z Hz _ _. rewrite Hx2 in Hz. injection Hz as <-. cbn [pg_inuse pg_objects x' pg_with_inuse pg_with_freelist]. split; [rewrite Ip; lia|]. split; [rewrite If; lia|]. intros Hq. specialize (Ie Hq). lia.
Qed.

(** [s'] after a step that takes the blocks [X] and leaves those of [Y]. *)
Definition stepped (X Y : list Z) s W H s' H' : Prop := exists W' F', slab_inv s' W' F' H' /\ bframe X Y s W H s' W' H'.

Lemma drain_one_ok s W F H i c : slab_inv s W F H -> 0 <= i < 7 -> b_caches s !! Z.to_nat i = Some c -> sc_global c <> 0 ->
  wp (drain_one s i 0) (fun s' => stepped [] [] s W H s' H /\ b_cpus s' = b_cpus s).
Proof.
  intros I Hi Hc Hg. unfold drain_one. apply wp_bind. eapply wp_mono; [apply (global_pop_ok s W F H i c I Hi Hc Hg)|]. intros [y s1] (I1 & B1 & Ec1 & Ep1 & Hb1 & Hnb).
  destruct (class_get s1 _ F H i (proj1 I1) Hi) as (c1 & Hc1 & _). destruct (page_give_ok s1 _ F H i y c1 I1 Hi Hc1 Hb1) as (x & s2 & Hx & [Hm Hci] & Hinu & El & K).
  rewrite (page_at_ok _ _ _ Hx). cbn [bind]. rewrite Hm, Hci, !Z.eqb_refl. cbn [negb orb]. rewrite (proj2 (Z.eqb_neq (pg_inuse x) 0)) by lia. rewrite El. cbn [bind].
  eapply wp_mono; [exact K|]. intros s' (W' & F' & I' & B & Ec). split; [|congruence]. exists W', F'. split; [exact I'|]. exact (frame_cancel y _ _ _ _ _ _ _ _ _ B1 B Hnb).
Qed.

(** Draining empties no more than it must, and never hands out a page. *)
Lemma drain_ok s W F H i : slab_inv s W F H -> 0 <= i < 7 -> wp (DrainGlobalFreeListLocked s i) (fun '(pages, s') => pages = 0 /\ stepped [] [] s W H s' H /\ b_cpus s' = b_cpus s).
Proof.
  intros I Hi. unfold DrainGlobalFreeListLocked. destruct (class_get s W F H i (proj1 I) Hi) as (c & Hc & Ec & _). rewrite Ec. cbn [bind].
  assert (R0 : stepped [] [] s W H s H) by (exists W, F; split; [exact I|apply bframe_refl]). destruct (Z.ltb_spec (sc_global_count c) DRAIN_HIGH_WATERMARK) as [Hlt|Hge]; [cbn [wp]; auto|].
  set (td := sc_global_count c - DRAIN_LOW_WATERMARK). apply (wp_loop (fun '(s', k) => stepped [] [] s W H s' H /\ b_cpus s' = b_cpus s /\ 0 <= k) (fun '(_, k) => Z.to_nat (td - k))); [|auto using Z.le_refl|lia].
  intros [s1 k] ((W1 & F1 & I1 & B1) & E1 & Hk). unfold step_ok. destruct (Z.ltb_spec k td) as [Hkt|Hkt]; [|cbn [wp]; split; [reflexivity|]; split; [exists W1, F1; auto|exact E1]].
  destruct (class_get s1 _ _ _ i (proj1 I1) Hi) as (c1 & Hc1 & Ec1 & _). rewrite Ec1. cbn [bind]. destruct (Z.eqb_spec (sc_global c1) 0) as [Hz|Hz]; [cbn [wp]; split; [reflexivity|]; split; [exists W1, F1; auto|exact E1]|].
  apply wp_bind. eapply wp_mono; [apply (drain_one_ok s1 W1 F1 H i c1 I1 Hi Hc1 Hz)|]. intros s2 ((W2 & F2 & I2 & B2) & E2). cbn [wp]. split; [|lia]. split; [|split; [congruence|lia]]. exists W2, F2. split; [exact I2|]. exact (frame_after _ _ _ _ _ _ _ _ _ _ _ B1 B2).
Qed.

(** A batch goes to the shared list. *)
Lemma push_batch_ok s W F H i l : slab_inv s W F H -> 0 <= i < 7 -> NoDup l -> (forall y, y ∈ l -> block s W y (class_size i)) ->
  wp (for_up (length l) 0 (fun j s => let* obj := get l j in global_push s i obj) s) (fun s' => stepped l [] s W H s' H /\ b_cpus s' = b_cpus s).
Proof.
  intros I Hi Hnd Hl. eapply wp_mono; [apply (wp_for_up (fun k s' => (exists W', slab_inv s' W' F H /\ bframe (take (Z.to_nat k) l) [] s W H s' W' H) /\ b_cpus s' = b_cpus s))|].
  - intros k s1 Hk ((W1 & I1 & B1) & E1). destruct (lookup_lt_is_Some_2 l (Z.to_nat k)) as [y Hy]; [lia|]. rewrite (get_okZ _ _ y) by (try lia; exact Hy). cbn [bind]. pose proof (list_elem_of_lookup_2 _ _ _ Hy) as Hyl.
    assert (Hyt : y ∉ take (Z.to_nat k) l). { intros Hyt. apply list_elem_of_lookup_1 in Hyt as [j Hj]. apply lookup_take_Some in Hj as [Hj Hlt]. pose proof (NoDup_lookup _ _ _ _ Hnd Hj Hy). lia. }
    destruct (bf_live _ _ _ _ _ _ _ _ B1 y _ (Hl y Hyl) Hyt) as [Hb _]. eapply wp_mono; [apply (global_push_ok s1 W1 F H i y I1 Hi Hb)|]. intros s2 (I2 & B2 & E2 & _). split; [|congruence]. eexists. split; [exact I2|].
    replace (Z.to_nat (k + 1)) with (S (Z.to_nat k)) by lia. rewrite (take_S_r _ _ _ Hy). apply (bframe_trans (take (Z.to_nat k) l) [] [y] [] _ [] _ _ _ _ _ _ _ _ _ B1 B2); [intros z n _; apply not_elem_of_app|intros z Hz; now apply not_elem_of_nil in Hz|auto].
  - split; [|reflexivity]. exists W. split; [exact I|apply bframe_refl].
  - intros s' ((W' & I' & B') & E'). split; [|exact E']. exists W', F. split; [exact I'|]. replace (Z.to_nat (0 + Z.of_nat (length l))) with (length l) in B' by lia. now rewrite firstn_all in B'.
Qed.

Lemma slab_flush_ok s W F H i l : slab_inv s W F H -> 0 <= i < 7 -> NoDup l -> (forall y, y ∈ l -> block s W y (class_size i)) ->
  wp (slab_flush_batch_and_release s i l) (fun s' => stepped l [] s W H s' H /\ b_cpus s' = b_cpus s).
Proof.
  intros I Hi Hnd Hl. destruct l as [|y l]; [cbn; split; [exists W, F; split; [exact I|apply bframe_refl]|reflexivity]|]. unfold slab_flush_batch_and_release. set (batch := y :: l) in *.
  apply wp_bind. eapply wp_mono; [apply (count_lock_quiet s W F H i I Hi)|]. intros s1 (I1 & B1 & E1 & _). apply wp_bind.
  eapply wp_mono; [apply (push_batch_ok s1 W F H i batch I1 Hi Hnd)|]; [intros z Hz; now apply (bf_live _ _ _ _ _ _ _ _ B1 z _ (Hl z Hz)), not_elem_of_nil|]. intros s2 ((W2 & F2 & I2 & B2) & E2).
  apply wp_bind. eapply wp_mono; [apply (drain_ok s2 W2 F2 H i I2 Hi)|]. intros [pages s3] (-> & (W3 & F3 & I3 & B3) & E3). cbn [wp slab_release_pages Z.eqb]. split; [|congruence]. exists W3, F3. split; [exact I3|].
  exact (frame_after _ _ _ _ _ _ _ _ _ _ _ (frame_before _ _ _ _ _ _ _ _ _ _ _ B1 B2) B3).
Qed.
End Drain.

(** Size-class heap: new pages, for objects and for large blocks. *)

(** Objects that are linked each to the next form a chain. *)
Lemma chain_grid m cookie base size n : 0 < size -> 0 < base ->
  (forall j, 0 <= j < n -> load64 m (base + j * size) = Ok (fp_encode cookie (base + j * size) (if j =? n - 1 then 0 else base + j * size + size))) ->
  forall (k : nat) j, 0 <= j -> j + Z.of_nat k = n -> (0 < k)%nat -> chain (fp_decode cookie) m (base + j * size) ((fun t => base + t * size) <$> seqZ j (Z.of_nat k)).
Proof.
  intros Hs Hb Hl k. induction k as [|k IH]; intros j Hj E Hk; [lia|]. rewrite seqZ_cons by lia. cbn [fmap list_fmap chain]. split; [reflexivity|]. split; [nia|]. eexists. split; [apply Hl; lia|]. rewrite fp_roundtrip.
  replace (Z.pred (Z.of_nat (S k))) with (Z.of_nat k) by lia. destruct (Z.eqb_spec j (n - 1)) as [Ej|Ej]; [replace k with 0%nat by lia; reflexivity|]. replace (base + j * size + size) with (base + Z.succ j * size) by lia. apply IH; lia.
Qed.

Section New.
Context {PS : Type} `{PSI : !PageSource PS} `{PSL : !PageSourceOk PS}.
Implicit Types (s : slab PS) (W : gmap Z place) (F : gmap Z (list Z)) (H : gmap Z Z).

(** A block lies in a range that is held, behind the header. *)
Lemma block_inside s W F H z n : objects_ok s W F H -> block s W z n -> exists q k, H !! q = Some k /\ q + 48 <= z /\ z + n <= q + k * 4096 /\ is_Some (b_pages s !! q) /\ 0 < n.
Proof.
  intros I [(Hw & x & Hx & ->)|(p & x & Hp & Hm & -> & ->)].
  - destruct (obj_where I z Live Hw) as [i Ho]. pose proof (obj_facts I i z Ho) as (_ & HH & _ & B1 & B2 & _ & B3 & _). destruct Ho as (x' & Hx' & [_ E] & _). rewrite Hx in Hx'. injection Hx' as <-. subst i. exists (slab_page_of z), 1. split_and!; try lia; eauto.
  - destruct (ob_page _ _ _ _ I p x Hp) as [(_ & _ & HH)|(_ & fl & _ & K)]; [|pose proof (po_magic _ _ _ _ _ _ K); rewrite Hm in *; discriminate]. destruct (ps_range _ _ _ _ (ar_src _ _ (ob_arena _ _ _ _ I)) HH) as (_ & _ & R & _). exists p, (pg_count x). split_and!; try lia; eauto.
Qed.

(** * One more range *)

Section Grow.
Context (s s' : slab PS) (W : gmap Z place) (F F' : gmap Z (list Z)) (H : gmap Z Z) (p n : Z) (x : slab_page_t).
Context (I : objects_ok s W F H) (Hnew : H !! p = None) (HA : arena_ok (b_arena s') (<[p := n]> H)).
Context (Hag : forall q k, H !! q = Some k -> agree (a_mem (b_arena s)) (a_mem (b_arena s')) q (k * 4096)).
Context (EP : b_pages s' = <[p := x]> (b_pages s)) (EC : b_cpus s' = b_cpus s) (Epl : b_pool s' = b_pool s) (Eck : b_cookie s' = b_cookie s) (Elk : b_locks s' = b_locks s).
Context (Eob : forall j, obj_part <$> b_caches s' !! j = obj_part <$> b_caches s !! j).

Lemma grow_fresh : b_pages s !! p = None.
Proof using I Hnew. destruct (b_pages s !! p) eqn:E; [|reflexivity]. destruct (ob_page _ _ _ _ I p _ E) as [(_ & _ & HH)|(HH & _)]; congruence. Qed.

Lemma grow_old q y : b_pages s !! q = Some y -> b_pages s' !! q = Some y.
Proof using I Hnew EP. intros Hq. rewrite EP, lookup_insert_ne; [exact Hq|]. pose proof grow_fresh. congruence. Qed.

Lemma grow_agree y i : obj_of s i y -> agree (a_mem (b_arena s)) (a_mem (b_arena s')) y 8.
Proof using I Hag. intros Hy. pose proof (obj_facts I i y Hy) as (_ & HH & _ & B1 & B2 & _ & B3 & _). apply (agree_sub _ _ (slab_page_of y) (1 * 4096)); [auto|lia|lia]. Qed.

Lemma grow_lists w j l : lists_place (b_pages s) W j w l -> lists_place (b_pages s') W j w l.
Proof using I Hnew EP.
  intros [Hn Hl]. split; [exact Hn|]. intros y. rewrite Hl. split; intros [Hw (t & Ht & Hj)]; (split; [exact Hw|]).
  - exists t. split; [now apply grow_old|exact Hj].
  - destruct (ob_where _ _ _ _ I y w Hw) as (t' & Ht' & _). rewrite (grow_old _ _ Ht') in Ht. injection Ht as <-. exists t'. auto.
Qed.

Lemma slab_grow_ok : (forall q, q <> p -> F' !! q = F !! q) ->
  (pg_magic x = LARGE_PAGE_MAGIC /\ F' !! p = None /\ n = pg_count x) \/ (n = 1 /\ exists fl, F' !! p = Some fl /\ page_ok (a_mem (b_arena s')) (b_cookie s) W p x fl) -> objects_ok s' W F' (<[p := n]> H).
Proof using All.
  intros HF Hp. split; rewrite ?EC, ?Epl, ?Eck, ?Elk; try apply I; [exact HA| | | | | |].
  - assert (E : obj_part <$> b_caches s' = obj_part <$> b_caches s) by (apply list_eq; intros i; rewrite !list_lookup_fmap; apply Eob). apply (f_equal length) in E. rewrite !length_fmap in E. rewrite E. apply I.
  - intros j c Hc. destruct (fmap_list_lookup obj_part _ _ j c (eq_sym (Eob j)) Hc) as (c0 & Hc0 & [= E1 E2 _ _]). rewrite <- E1, <- E2. exact (ob_geom _ _ _ _ I j c0 Hc0).
  - intros q y Hy. rewrite EP in Hy. destruct (decide (p = q)) as [<-|Hne].
    + rewrite lookup_insert_eq in Hy. injection Hy as <-. rewrite lookup_insert_eq. destruct Hp as [(P1 & P2 & ->)|(-> & fl & P2 & P3)]; [left; auto|right; eauto].
    + rewrite lookup_insert_ne in Hy by exact Hne. rewrite lookup_insert_ne, HF by congruence. destruct (ob_page _ _ _ _ I q y Hy) as [|(K1 & fl & K2 & K3)]; [auto|]. right. split; [exact K1|]. exists fl. split; [exact K2|].
      pose proof (po_magic _ _ _ _ _ _ K3) as Hm. destruct K3 as [A1 A2 A3 A4 A5 A6 A7 A8]. split; auto. apply (chain_agree _ (a_mem (b_arena s))); [|exact A3]. intros z Hz. apply (grow_agree z (pg_cache y)). apply (obj_in I q y z Hy Hm). auto.
  - intros q Hq. rewrite EP. destruct (decide (p = q)) as [<-|Hne]; [now rewrite lookup_insert_eq|]. rewrite lookup_insert_ne by exact Hne. rewrite HF in Hq by congruence. exact (ob_free _ _ _ _ I q Hq).
  - intros y w Hy. destruct (ob_where _ _ _ _ I y w Hy) as (t & Ht & Hr). exists t. split; [now apply grow_old|exact Hr].
  - intros w j h k Hs. assert (Hs' : stack_at s w j = Some (h, k)).
    { destruct w as [|id|]; [|unfold stack_at in *; now rewrite EC in Hs|discriminate]. unfold stack_at in *. specialize (Eob j). destruct (b_caches s' !! j), (b_caches s !! j); try discriminate. injection Eob as E1 E2 E3 E4. cbn in *. congruence. }
    destruct (ob_stack _ _ _ _ I w j h k Hs') as (l & Hch & Hl & Hn). exists l. split; [|split; [now apply grow_lists|exact Hn]]. apply (chain_agree _ (a_mem (b_arena s))); [|exact Hch]. intros z Hz. apply Hl in Hz as [Hz Hzc]. exact (grow_agree z _ (obj_place I z _ _ Hz Hzc)).
Qed.

Lemma grow_frame Y : (pg_magic x = LARGE_PAGE_MAGIC -> p + 48 ∈ Y) -> bframe [] Y s W H s' W (<[p := n]> H).
Proof using I Hnew Hag EP.
  intros HY. pose proof grow_fresh as Hf. split.
  - intros z k Hz _. destruct (block_inside s W F H z k I Hz) as (q & j & Hq & B1 & B2 & _). split; [|apply (agree_sub _ _ q (j * 4096)); [auto|lia|lia]].
    destruct Hz as [(Hw & t & Ht & ->)|(q' & t & Ht & Hm & -> & ->)]; [left; split; [exact Hw|]; exists t; split; [now apply grow_old|reflexivity]|right; exists q', t; split; [now apply grow_old|auto]].
  - intros z k [(Hw & t & Ht & ->)|(q & t & Ht & Hm & -> & ->)].
    + left. split; [|apply not_elem_of_nil]. left. split; [exact Hw|]. destruct (ob_where _ _ _ _ I z Live Hw) as (t' & Ht' & _). rewrite (grow_old _ _ Ht') in Ht. injection Ht as <-. eauto.
    + rewrite EP in Ht. destruct (decide (p = q)) as [<-|Hne]; [rewrite lookup_insert_eq in Ht; injection Ht as <-; right; auto|]. rewrite lookup_insert_ne in Ht by exact Hne. left. split; [|apply not_elem_of_nil]. right. exists q, t. auto.
  - intros q k Hq Hs. split; [rewrite lookup_insert_ne; [exact Hq|congruence]|]. split; [rewrite EP, lookup_insert_ne by congruence; exact Hs|auto].
  - intros q k Hq Hs. rewrite EP in Hs. destruct (decide (p = q)) as [<-|Hne]; [rewrite lookup_insert_eq in Hs; discriminate|]. rewrite lookup_insert_ne in Hq by exact Hne. rewrite lookup_insert_ne in Hs by exact Hne. auto.
Qed.
End Grow.

(** The supply changes, the memory does not. *)
Lemma supply_ok s W F H A : slab_inv s W F H -> arena_ok A H -> a_mem A = a_mem (b_arena s) -> slab_inv (b_with_arena s A) W F H /\ bframe [] [] s W H (b_with_arena s A) W H.
Proof.
  intros [I T] HA Em. split; [split; [|exact T]|apply frame_same; [now apply same_kinds_eq|exact Em]]. split; cbn [b_with_arena b_arena b_pages b_caches b_cpus b_pool b_cookie b_locks]; rewrite ?Em; try apply I. exact HA.
Qed.

(** * The objects of a new page *)

Lemma link_objects_ok s H p i : arena_ok (b_arena s) H -> H !! p = Some 1 -> 0 <= i < 7 -> 0 <= b_cookie s < 2 ^ 64 ->
  wp (link_objects s (p + class_hdr i) (class_size i) (class_objs i)) (fun s' => exists m, s' = b_with_arena s (with_mem (b_arena s) m) /\ arena_ok (with_mem (b_arena s) m) H /\
    (forall b k, p + 4096 <= b \/ b + k <= p -> agree (a_mem (b_arena s)) m b k) /\ chain (fp_decode (b_cookie s)) m (p + class_hdr i) (sgrid i p)).
Proof.
  intros HA Hp Hi Hck. destruct (ps_range _ _ _ _ (ar_src _ _ HA) Hp) as (R1 & R2 & _ & R4). pose proof (class_geom i Hi) as (G1 & G2 & G3 & G4 & _). set (size := class_size i) in *. set (base := p + class_hdr i) in *. set (n := class_objs i) in *. set (ck := b_cookie s) in *.
  unfold link_objects. eapply wp_mono; [apply (wp_for_up (fun k s' => exists m, s' = b_with_arena s (with_mem (b_arena s) m) /\ arena_ok (with_mem (b_arena s) m) H /\ (forall b k, p + 4096 <= b \/ b + k <= p -> agree (a_mem (b_arena s)) m b k) /\
    forall j, 0 <= j < k -> load64 m (base + j * size) = Ok (fp_encode ck (base + j * size) (if j =? n - 1 then 0 else base + j * size + size))))|].
  - intros k s1 Hk (m & -> & HA1 & Hag & Hld). assert (0 <= k * size) by nia. assert (k * size + size <= n * size) by (pose proof (Z.mul_le_mono_nonneg_r (k + 1) n size); lia). set (ptr := base + k * size) in *.
    assert (Hin : inside H ptr) by (exists p, 1; split; [exact Hp|]; unfold ptr, base; lia). unfold b_link. cbn [b_with_arena b_arena]. rewrite (st_link_ok _ H ptr _ HA1 Hin). cbn [bind wp with_mem a_mem a_vm b_cookie]. fold ck.
    eexists. split; [reflexivity|]. split; [apply (arena_write _ H ptr _ HA1), bytes_le_bytes|]. split.
    + intros b j Hbj. apply (agree_trans _ m); [now apply Hag|]. apply agree_write. rewrite bytes_le_length. unfold ptr, base. lia.
    + intros j Hj. destruct (decide (j = k)) as [->|Hne].
      * fold ptr. apply ld_same, fp_encode_word; [exact Hck|unfold ptr, base; lia|]. destruct (Z.eqb_spec k (n - 1)) as [Ek|Ek]; [lia|]. assert ((k + 1) * size + size <= n * size) by (pose proof (Z.mul_le_mono_nonneg_r (k + 2) n size); lia). unfold ptr, base. lia.
      * rewrite <- (Hld j) by lia. apply ld_agree, agree_write. rewrite bytes_le_length. right. assert (j * size + size <= k * size) by (pose proof (Z.mul_le_mono_nonneg_r (j + 1) k size); lia). unfold ptr. lia.
  - exists (a_mem (b_arena s)). replace (with_mem (b_arena s) (a_mem (b_arena s))) with (b_arena s) by (now destruct (b_arena s)). split; [now destruct s|]. split; [exact HA|]. split; [intros; apply agree_refl|intros; lia].
  - intros s' (m & -> & HA1 & Hag & Hld). exists m. split; [reflexivity|]. split; [exact HA1|]. split; [exact Hag|]. replace (0 + Z.of_nat (Z.to_nat n)) with n in Hld by lia.
    pose proof (chain_grid m ck base size n ltac:(lia) ltac:(unfold base; lia) Hld (Z.to_nat n) 0 ltac:(lia) ltac:(lia) ltac:(lia)) as Hch. rewrite Z2Nat.id in Hch by lia. replace (base + 0 * size) with base in Hch by lia. exact Hch.
Qed.

(** What [slab_alloc_page] delivers: no page and an unchanged heap, or a page that
    is in no list yet. *)
Definition page_made (i : Z) s W F H (p : Z) s' : Prop :=
  let F' := <[p := sgrid i p]> F in let H' := <[p := 1]> H in
  p <> 0 /\ H !! p = None /\ objects_ok s' W F' H' /\ bframe [] [] s W H s' W H' /\ b_cpus s' = b_cpus s /\
  exists c x, b_caches s !! Z.to_nat i = Some c /\ b_caches s' = <[Z.to_nat i := sc_with_pages (u64 (sc_total_pages c + 1)) c]> (b_caches s) /\
    b_pages s !! p = None /\ b_pages s' = <[p := x]> (b_pages s) /\ is_page i x /\ pg_next x = 0 /\ pg_prev x = 0 /\ pg_inuse x = 0.

Lemma slab_alloc_page_ok s W F H i : slab_inv s W F H -> 0 <= i < 7 ->
  wp (slab_alloc_page s i) (fun '(p, s') => (p = 0 /\ slab_inv s' W F H /\ bframe [] [] s W H s' W H /\ b_cpus s' = b_cpus s /\ b_pages s' = b_pages s /\ b_caches s' = b_caches s /\ exists vm, ps_alloc (a_vm (b_arena s)) 1 = Ok (0, vm)) \/ page_made i s W F H p s').
Proof.
  intros [I T] Hi. pose proof (class_geom i Hi) as (G1 & G2 & G3 & G4 & _ & _ & G7). destruct (class_get s W F H i I Hi) as (c & Hc & _ & Esz). unfold slab_alloc_page, PoolPopOldest. rewrite (ob_pool _ _ _ _ I). cbn [pool_head bind Z.eqb]. apply wp_bind. apply wp_bind.
  destruct (proj1 (wp_ex _ _) (page_alloc_ok (b_arena s) H 1 (ob_arena _ _ _ _ I) ltac:(lia))) as ([p A] & Epa & [(-> & HA & Em)|(Hp & HH & Hr & HA & Hap & Hag)]); rewrite Epa; cbn [wp].
  - left. destruct (supply_ok s W F H A (conj I T) HA Em) as [I' B]. split; [reflexivity|]. split; [exact I'|]. pose proof (page_alloc_zero _ _ 1 ltac:(lia) Epa). split_and!; auto.
  - rewrite (proj2 (Z.eqb_neq _ _) Hp). erewrite upd_class_ok by (try lia; exact Hc). cbn [bind b_arena b_pages b_caches b_cpus b_pool b_cookie b_locks b_with_arena]. set (c1 := sc_with_pages (u64 (sc_total_pages c + 1)) c).
    assert (Hc1 : <[Z.to_nat i := c1]> (b_caches s) !! Z.to_nat i = Some c1) by (apply list_lookup_insert_eq, lookup_lt_is_Some_1; eauto). unfold class_at. cbn [b_caches]. rewrite (get_okZ _ _ c1) by (try lia; exact Hc1). cbn [bind].
    change (sc_obj_size c1) with (sc_obj_size c). rewrite Esz. fold (class_hdr i). rewrite G7, (proj2 (Z.eqb_neq _ _)) by lia. apply wp_bind. set (x := SlabPage _ _ _ _ _ _ _ _). set (s1 := Slab _ _ _ _ _ _ _).
    eapply wp_mono; [apply (link_objects_ok s1 (<[p := 1]> H) p i HA); [apply lookup_insert_eq|exact Hi|apply I]|]. intros s' (m & -> & HA' & Hag' & Hch). cbn [wp]. right. split; [exact Hp|]. split; [exact HH|].
    set (s2 := b_with_arena s1 _). assert (Hag2 : forall q k, H !! q = Some k -> agree (a_mem (b_arena s)) (a_mem (b_arena s2)) q (k * 4096)).
    { intros q k Hq. destruct (Hap q k Hq) as [Hd|Hd]; (apply (agree_trans _ (a_mem A)); [apply Hag; lia|apply Hag'; lia]). }
    assert (HW : forall y, y ∈ sgrid i p -> W !! y = None).
    { intros y Hy. destruct (W !! y) as [w|] eqn:Ew; [|reflexivity]. exfalso. destruct (ob_where _ _ _ _ I y w Ew) as (t & Ht & _). destruct (sgrid_bound i p y Hi Hy) as (B1 & B2 & B3). destruct Hr as (R1 & R2 & _ & R4). rewrite (slab_page_in p) in Ht by lia.
      rewrite (grow_fresh s W F H p I HH) in Ht. discriminate. }
    assert (Eob : forall j, obj_part <$> b_caches s2 !! j = obj_part <$> b_caches s !! j).
    { intros j. unfold s2, s1. cbn. destruct (decide (j = Z.to_nat i)) as [->|Hne]; [rewrite Hc1, Hc; reflexivity|now rewrite list_lookup_insert_ne by congruence]. }
    split; [|split; [|split; [reflexivity|]]].
    + apply (slab_grow_ok s s2 W F _ H p 1 x I HH HA' Hag2 eq_refl eq_refl eq_refl eq_refl eq_refl Eob); [intros q Hq; now rewrite lookup_insert_ne by congruence|]. right. split; [reflexivity|]. exists (sgrid i p). rewrite lookup_insert_eq. split; [reflexivity|].
      split; cbn [x pg_magic pg_cache pg_freelist pg_objects pg_inuse]; auto; [now apply sgrid_NoDup|rewrite (sgrid_length i p Hi); lia|]. intros y Hy. split; [intros _; auto|auto].
    + apply (grow_frame s s2 W F H p 1 x I HH Hag2 eq_refl). discriminate.
    + exists c, x. split; [exact Hc|]. split; [reflexivity|]. split; [exact (grow_fresh s W F H p I HH)|]. split; [reflexivity|]. split; [now split|]. auto.
Qed.

(** * A page to allocate from *)

(** The first page of the partial list of cache [i] is [p]; its state is exempt. *)
Definition partial_ready (i p : Z) s W F H : Prop :=
  objects_ok s W F H /\ struct_ok p (b_pages s) (b_caches s) /\ p <> 0 /\
  exists c x lp lf le y fl, b_caches s !! Z.to_nat i = Some c /\ class_lists (b_pages s) p i c (p :: lp) lf le /\ b_pages s !! p = Some x /\ is_page i x /\ F !! p = Some (y :: fl).

Lemma page_free_some s W F H i p x : objects_ok s W F H -> b_pages s !! p = Some x -> is_page i x -> pg_inuse x < pg_objects x -> exists y fl, F !! p = Some (y :: fl).
Proof.
  intros I Hx [Hm _] Hlt. destruct (pg_small I p x Hx Hm) as (_ & Hc & _ & fl & HF & K). destruct fl as [|y fl]; [|eauto]. pose proof (po_inuse _ _ _ _ _ _ K). pose proof (po_objects _ _ _ _ _ _ K). cbn [length] in *. lia.
Qed.
End New.

(** Size-class heap: batches of objects for a CPU. *)

Section Fill.
Context {PS : Type} `{PSI : !PageSource PS} `{PSL : !PageSourceOk PS}.
Implicit Types (s : slab PS) (W : gmap Z place) (F : gmap Z (list Z)) (H : gmap Z Z).

(** * From the empty list *)

Lemma revive_ok s W F H i c x : slab_inv s W F H -> 0 <= i < 7 -> b_caches s !! Z.to_nat i = Some c -> sc_partial c = 0 -> sc_empty c <> 0 -> b_pages s !! sc_empty c = Some x ->
  let p := sc_empty c in
  wp (let* s := upd_class (sc_with_partial p) i s in
      let* s := if pg_next x =? 0 then upd_class (sc_with_empty 0 0 (u32 (sc_empty_count c - 1))) i s
                else let* s := upd_page (pg_with_prev 0) (pg_next x) s in upd_class (sc_with_empty (pg_next x) (sc_empty_tail c) (u32 (sc_empty_count c - 1))) i s in
      upd_page (fun x => pg_with_next 0 (pg_with_prev 0 x)) p s)
    (fun s' => partial_ready i p s' W F H /\ bframe [] [] s W H s' W H /\ b_cpus s' = b_cpus s).
Proof.
  intros [I T] Hi Hc Hp He Hx p. destruct (lists_exempt0 s W F H i c p I T ltac:(lia) Hc) as (lp & lf & le & L & L0). pose proof L0 as [D1 D2 D3 T1 T2 T3 Hnd Hpg A1 A2 A3].
  rewrite Hp in D1. destruct lp as [|q lp]; [|destruct D1 as (E & Hq & _); congruence]. destruct le as [|q le]; [now cbn in D3|]. destruct D3 as (E & D3). fold p in E. subst q. assert (D3' : dseg (b_pages s) 0 p (p :: le) 0) by (split; [reflexivity|exact D3]). clear D3.
  cbn [app] in Hnd. pose proof Hnd as Hnd'. apply NoDup_app in Hnd as (N1 & N2 & N3). pose proof (proj1 (NoDup_cons _ _) N3) as [Npe Nle].
  erewrite upd_class_ok by (try lia; exact Hc). cbn [bind]. change (Slab _ _ _ _ _ _ _) with (moved s (b_pages s) i (sc_with_partial p c)). set (c1 := sc_with_partial p c). set (s1 := moved s (b_pages s) i c1).
  assert (Hc1 : b_caches s1 !! Z.to_nat i = Some c1) by now apply (moved_class s _ _ _ c).
  destruct (unhook_ok s1 i c1 p p x le (sc_empty_tail c) (u32 (sc_empty_count c - 1)) ltac:(lia) Hc1 N3 D3' Hx) as (P & E1 & F1 & R1 & Hx1).
  { intros Hle. rewrite T1, last_or_cons. destruct le as [|r le _] using rev_ind; [contradiction|]. now rewrite !last_or_snoc. }
  rewrite E1. cbn [bind]. set (c2 := sc_with_empty _ _ _ c1). erewrite upd_page_ok by exact Hx1. cbn [wp]. unfold s1. rewrite moved_moved. set (x' := pg_with_next 0 _). set (P' := <[p := x']> P). change (Slab _ _ _ _ _ _ _) with (moved s P' i c2).
  assert (R : relinked (p :: le) (b_pages s) P') by (apply (relinked_trans _ _ P); [apply (relinked_weak le); [intros q Hq; now right|exact R1]|]; apply (relinked_insert _ _ p x); [exact Hx1|reflexivity|left]).
  assert (Hpx : exists x, b_pages s !! p = Some x /\ is_page i x) by (apply Hpg; cbn [app]; apply elem_of_app; right; left).
  assert (L' : class_lists P' p i c2 [p] lf le).
  { apply (lists_relinked (b_pages s) P' p i c c2 [] lf (p :: le) _ _ _ L (rl_core _ _ _ R) Hpx).
    - split; [reflexivity|]. split; [exact He|]. exists x'. unfold P'. rewrite lookup_insert_eq. split; [reflexivity|]. now split.
    - apply (relinked_dseg _ _ _ _ _ _ _ R); [|exact D2]. intros q Hq Hq'. exact (N2 q Hq Hq').
    - unfold P'. apply dseg_notin; [exact Npe|exact F1].
    - reflexivity.
    - change (sc_empty_count c2) with (u32 (sc_empty_count c - 1)). unfold EMPTY_CACHE_LIMIT in *. cbn [length] in *. rewrite u32_small; lia.
    - unfold EMPTY_CACHE_LIMIT in *. cbn [length] in *. lia.
    - refine (proj1 (NoDup_Permutation_proper _ _ _) Hnd'). solve_Permutation.
    - intros q Hq. rewrite list_elem_of_singleton, elem_of_nil, elem_of_cons. tauto. }
  destruct (moved_ok 0 p s W F H i c P' c2 (p :: le) I T ltac:(lia) Hc) as (I' & T' & B); [rewrite (no_page_zero _ _ _ _ I); discriminate|exact R|intros q Hq; apply Hpg; cbn [app]; apply elem_of_app; auto|reflexivity|eauto|].
  split; [|split; [exact B|reflexivity]]. split; [exact I'|]. split; [exact T'|]. split; [exact He|]. destruct Hpx as (x0 & Hx0 & Hix). fold p in Hx. rewrite Hx in Hx0. injection Hx0 as <-. pose proof (A3 p x Hx Hix He ltac:(left)) as Ei.
  destruct (pg_small I p x Hx (proj1 Hix)) as (_ & Hcl & _ & fl & _ & K). pose proof (class_geom _ Hcl) as (_ & _ & _ & G & _). pose proof (po_objects _ _ _ _ _ _ K).
  destruct (page_free_some s W F H i p x I Hx Hix ltac:(lia)) as (y & fl' & HF). exists c2, x', [], lf, le, y, fl'. split; [now apply (moved_class s _ _ _ c)|]. split; [exact L'|]. split; [unfold moved, P'; cbn; apply lookup_insert_eq|]. split; [exact Hix|exact HF].
Qed.

(** * A new page *)

Lemma enlist_ok s W F H i p s1 : slab_inv s W F H -> 0 <= i < 7 -> (forall c, b_caches s !! Z.to_nat i = Some c -> sc_partial c = 0 /\ sc_empty c = 0) -> page_made i s W F H p s1 ->
  wp (upd_class (sc_with_partial p) i s1) (fun s' => partial_ready i p s' W (<[p := sgrid i p]> F) (<[p := 1]> H) /\ bframe [] [] s W H s' W (<[p := 1]> H) /\ b_cpus s' = b_cpus s).
Proof.
  intros [I T] Hi Hz (Hp0 & HH & I1 & B1 & Ec1 & c & x & Hc & EC & Hf & EP & Hix & Enx & Epr & Ein). destruct (Hz c Hc) as [Zp Ze]. set (c1 := sc_with_pages _ c) in *.
  assert (Hc1 : b_caches s1 !! Z.to_nat i = Some c1) by (rewrite EC; apply list_lookup_insert_eq, lookup_lt_is_Some_1; eauto). erewrite upd_class_ok by (try lia; exact Hc1). cbn [wp].
  change (Slab _ _ _ _ _ _ _) with (moved s1 (b_pages s1) i (sc_with_partial p c1)). set (c2 := sc_with_partial p c1). set (s2 := moved s1 (b_pages s1) i c2).
  destruct (page_relink_ok s1 W _ _ s2 I1 eq_refl eq_refl eq_refl eq_refl eq_refl) as [I2 B2]; [reflexivity| |].
  { intros j. unfold s2, moved. cbn. destruct (decide (j = Z.to_nat i)) as [->|Hne]; [|now rewrite list_lookup_insert_ne by congruence]. rewrite list_lookup_insert_eq by (apply lookup_lt_is_Some_1; eauto). now rewrite Hc1. }
  destruct (T _ _ Hc) as (lp & lf & le & L). rewrite Z2Nat.id in L by lia. pose proof L as [D1 D2 D3 T1 T2 T3 Hnd Hpg A1 A2 A3].
  rewrite Zp in D1. destruct lp as [|q lp]; [|destruct D1 as (E & Hq & _); congruence]. rewrite Ze in D3. destruct le as [|q le]; [|destruct D3 as (E & Hq & _); congruence].
  assert (Hplf : p ∉ lf) by (intros Hq; destruct (Hpg p) as (t & Ht & _); [cbn [app]; apply elem_of_app; auto|congruence]).
  assert (L2 : class_lists (b_pages s2) p i c2 [p] lf []).
  { unfold s2, moved. cbn [b_pages]. rewrite EP. split.
    - split; [reflexivity|]. split; [exact Hp0|]. exists x. rewrite lookup_insert_eq. split; [reflexivity|]. split; [exact Epr|]. exact Enx.
    - now apply dseg_notin.
    - exact Ze.
    - exact T1.
    - exact T2.
    - exact T3.
    - rewrite app_nil_r. cbn [app] in *. rewrite app_nil_r in Hnd. now constructor.
    - intros q. rewrite app_nil_r. intros [->|Hq]%elem_of_cons; [exists x; rewrite lookup_insert_eq; auto|]. destruct (Hpg q) as (t & Ht & Hti); [cbn [app]; apply elem_of_app; auto|]. exists t. rewrite lookup_insert_ne; [auto|congruence].
    - intros q t Ht Hj Hne. rewrite lookup_insert_ne in Ht by congruence. rewrite list_elem_of_singleton. pose proof (A1 q t Ht Hj) as E. rewrite elem_of_nil in E. assert (q <> 0) by (intros ->; rewrite (no_page_zero _ _ _ _ I) in Ht; discriminate). tauto.
    - intros q t Ht Hj Hne. rewrite lookup_insert_ne in Ht by congruence. apply (A2 q t Ht Hj). intros ->. rewrite (no_page_zero _ _ _ _ I) in Ht. discriminate.
    - intros q t _ _ _ Hq. now apply not_elem_of_nil in Hq. }
  split; [|split; [exact (frame_after _ _ _ _ _ _ _ _ _ _ _ B1 B2)|exact Ec1]]. split; [exact I2|]. split.
  - unfold s2, moved in *. cbn [b_pages b_caches] in *. rewrite EC, list_insert_insert_eq, EP in *. apply (struct_move 0 p (b_pages s) _ (b_caches s) (Z.to_nat i) c c2 T Hc); [rewrite (no_page_zero _ _ _ _ I); discriminate| |rewrite Z2Nat.id by lia; eauto].
    intros q t Hm Hci. rewrite Z2Nat.id in Hci by lia. destruct (decide (p = q)) as [<-|Hne]; [|now rewrite lookup_insert_ne]. rewrite lookup_insert_eq, Hf. split; [discriminate|]. intros [= <-]. now destruct Hix.
  - split; [exact Hp0|]. assert (Hne : exists y fl, sgrid i p = y :: fl). { pose proof (sgrid_length i p Hi). pose proof (class_geom i Hi) as (_ & _ & _ & G & _). destruct (sgrid i p); [cbn in *; lia|eauto]. } destruct Hne as (y & fl & Eg).
    exists c2, x, [], lf, [], y, fl. split; [now apply (moved_class s1 _ _ _ c1)|]. split; [exact L2|]. split; [unfold s2, moved; cbn; rewrite EP; apply lookup_insert_eq|]. split; [exact Hix|]. rewrite lookup_insert_eq. now rewrite Eg.
Qed.

Lemma ensure_partial_ok s W F H i : slab_inv s W F H -> 0 <= i < 7 ->
  wp (ensure_partial s i) (fun '(ok, s') => b_cpus s' = b_cpus s /\ ((ok = false /\ slab_inv s' W F H /\ bframe [] [] s W H s' W H /\ exists vm, ps_alloc (a_vm (b_arena s)) 1 = Ok (0, vm)) \/ (ok = true /\ exists p F' H', partial_ready i p s' W F' H' /\ bframe [] [] s W H s' W H'))).
Proof.
  intros [I T] Hi. destruct (class_get s W F H i I Hi) as (c & Hc & Ec & _). unfold ensure_partial. rewrite Ec. cbn [bind]. destruct (Z.eqb_spec (sc_partial c) 0) as [Zp|Zp]; cbn [negb].
  2: { cbn [wp]. split; [reflexivity|]. right. split; [reflexivity|]. exists (sc_partial c), F, H. split; [|apply bframe_refl]. destruct (lists_exempt0 s W F H i c (sc_partial c) I T ltac:(lia) Hc) as (lp & lf & le & L & L0).
    destruct lp as [|q lp]; [exfalso; exact (Zp (cl_partial _ _ _ _ _ _ _ L))|]. assert (q = sc_partial c) as -> by (pose proof (cl_partial _ _ _ _ _ _ _ L) as [E _]; symmetry; exact E). destruct (cl_pages _ _ _ _ _ _ _ L (sc_partial c)) as (x & Hx & Hix); [left|].
    pose proof (proj1 (cl_in_partial _ _ _ _ _ _ _ L0 _ x Hx Hix Zp) ltac:(left)) as Hu. destruct (page_free_some s W F H i _ x I Hx Hix ltac:(lia)) as (y & fl & HF). split; [exact I|]. split; [|split; [exact Zp|exists c, x, lp, lf, le, y, fl; auto]].
    rewrite <- (list_insert_id (b_caches s) (Z.to_nat i) c Hc). apply (struct_move 0 _ (b_pages s) _ (b_caches s) (Z.to_nat i) c c T Hc); [rewrite (no_page_zero _ _ _ _ I); discriminate|tauto|]. rewrite Z2Nat.id by lia. eauto. }
  destruct (Z.eqb_spec (sc_empty c) 0) as [Ze|Ze]; cbn [negb].
  - apply wp_bind. eapply wp_mono; [apply (slab_alloc_page_ok s W F H i (conj I T) Hi)|]. intros [p s1] [(-> & I1 & B1 & E1 & EP1 & EC1 & Hno)|PM].
    + rewrite <- EC1 in Hc. erewrite upd_class_ok by (try lia; exact Hc). cbn [bind wp Z.eqb negb]. assert (E : sc_with_partial 0 c = c) by (clear - Zp; destruct c; unfold sc_with_partial; cbn in Zp |- *; now rewrite Zp). rewrite E, (list_insert_id _ _ _ Hc). split; [exact E1|]. left. destruct s1. cbn in *. auto.
    + apply wp_bind. eapply wp_mono; [apply (enlist_ok s W F H i p s1 (conj I T) Hi); [intros d Hd; rewrite Hc in Hd; injection Hd as <-; auto|exact PM]|]. intros s' (K & B & E'). cbn [wp]. destruct PM as (Hp0 & _). rewrite (proj2 (Z.eqb_neq _ _) Hp0). split; [exact E'|]. right. split; [reflexivity|]. eauto 10.
  - assert (Hx : is_Some (b_pages s !! sc_empty c)). { destruct (T _ _ Hc) as (lp & lf & le & L). pose proof (cl_empty _ _ _ _ _ _ _ L) as D. destruct le as [|q le]; [contradiction|]. destruct D as (-> & _ & x & Hx & _). eauto. } destruct Hx as [x Hx].
    rewrite (page_at_ok _ _ _ Hx). cbn [bind]. pose proof (revive_ok s W F H i c x (conj I T) Hi Hc Zp Ze Hx) as K. cbv zeta in K. rewrite <- !bind_assoc. apply wp_bind. rewrite !bind_assoc. eapply wp_mono; [exact K|]. intros s' (K' & B & E'). cbn [wp]. split; [exact E'|]. right. split; [reflexivity|]. eauto 10.
Qed.

(** * Taking objects *)

(** A new block [z] of [n] bytes. *)
Definition got (z n : Z) s W H s' : Prop := exists W' F' H', slab_inv s' W' F' H' /\ bframe [] [z] s W H s' W' H' /\ block s' W' z n /\ forall k, ~ block s W z k.

Lemma got_before z n s1 s2 s3 W1 W2 F2 H1 H2 : slab_inv s2 W2 F2 H2 -> bframe [] [] s1 W1 H1 s2 W2 H2 -> got z n s2 W2 H2 s3 -> got z n s1 W1 H1 s3.
Proof.
  intros I2 B (W' & F' & H' & I' & B' & Hb & Hn). exists W', F', H'. split; [exact I'|]. split; [exact (frame_before _ _ _ _ _ _ _ _ _ _ _ B B')|]. split; [exact Hb|].
  intros k Hk. apply (Hn k). now apply (bf_live _ _ _ _ _ _ _ _ B z k Hk), not_elem_of_nil.
Qed.

Lemma page_pop_ok s W F H i p : 0 <= i < 7 -> partial_ready i p s W F H -> wp (page_pop s i) (fun '(y, s') => got y (class_size i) s W H s' /\ b_cpus s' = b_cpus s).
Proof.
  intros Hi (I & T & Hp0 & c & x & lp & lf & le & y & fl & Hc & L & Hx & Hix & HF). unfold page_pop. rewrite (class_at_ok s i c ltac:(lia) Hc). cbn [bind]. pose proof (cl_partial _ _ _ _ _ _ _ L) as (Ep & _). rewrite Ep, (page_at_ok _ _ _ Hx). cbn [bind].
  destruct (take_ok s W F H p x i y fl I Hx Hix HF) as (w & Ef & Hld & Hck & En & Hin & Hob & Hful & I' & B & Hb & Hnb). cbv zeta in *. rewrite Ef. unfold ld_link. rewrite Hld. cbn [bind]. set (next := fp_decode (b_cookie s) y w) in *.
  destruct (class_get s W F H i I Hi) as (c0 & Hc0 & _ & Esz). rewrite Hc in Hc0. injection Hc0 as <-. rewrite Esz, Hck. cbn [negb]. rewrite (proj2 (Z.leb_gt _ _)) by lia. erewrite upd_page_ok by exact Hx. cbn [bind]. rewrite u32_small by lia.
  set (x' := pg_with_inuse (pg_inuse x + 1) (pg_with_freelist next x)) in *. set (s2 := with_page s (a_mem (b_arena s)) p x') in *.
  assert (E2 : Slab (b_arena s) (<[p := x']> (b_pages s)) (b_caches s) (b_cpus s) (b_pool s) (b_cookie s) (b_locks s) = s2) by (unfold s2, with_page; now destruct (b_arena s)). rewrite E2. clear E2.
  assert (L2 : class_lists (b_pages s2) p i c (p :: lp) lf le) by exact (lists_header (b_pages s) p i c _ _ _ p x x' L Hx eq_refl eq_refl eq_refl). assert (Hx2 : b_pages s2 !! p = Some x') by apply lookup_insert_eq.
  assert (Hex : forall z, b_pages s !! p = Some z -> pg_magic z = SLAB_PAGE_MAGIC -> pg_cache z = Z.of_nat (Z.to_nat i)) by (intros z Hz _; rewrite Hx in Hz; injection Hz as <-; rewrite Z2Nat.id by lia; apply Hix).
  assert (Hno : forall ex', (exists a b d, class_lists (b_pages s2) ex' i c a b d) -> struct_ok ex' (b_pages s2) (b_caches s2)).
  { intros ex' HL. change (b_caches s2) with (b_caches s). rewrite <- (list_insert_id (b_caches s) (Z.to_nat i) c Hc). apply (struct_move p ex' (b_pages s) _ (b_caches s) (Z.to_nat i) c c T Hc Hex); [|rewrite Z2Nat.id by lia; exact HL].
    intros q t Hm Hct. rewrite Z2Nat.id in Hct by lia. unfold s2, with_page. cbn [b_pages]. destruct (decide (p = q)) as [<-|Hne]; [|now rewrite lookup_insert_ne]. rewrite lookup_insert_eq, Hx. destruct Hix as [_ Hci]. split; intros [= <-]; contradiction. }
  pose proof (cl_nodup _ _ _ _ _ _ _ L) as Hnd. cbn [app] in Hnd. apply NoDup_cons in Hnd as [Hnp _]. rewrite !elem_of_app in Hnp. destruct (Z.eqb_spec next 0) as [Ez|Ez].
  - destruct (shift_ok s2 i c Partial p (p :: lp) lf le [] lp ltac:(lia) Hc L2 eq_refl) as (P & c' & Es & Eo & R & L3). cbn [pick other app] in *. rewrite Es. cbn [bind wp].
    destruct (moved_ok p 0 s2 _ _ H i c P c' ((p :: lp) ++ lf) I' (Hno p ltac:(eauto)) ltac:(lia) Hc) as (I3 & T3 & B3); [intros z Hz _; rewrite Hx2 in Hz; injection Hz as <-; apply Hix|exact R|intros q Hq; apply (cl_pages _ _ _ _ _ _ _ L2); rewrite app_assoc; apply elem_of_app; auto|exact Eo| |].
    + exists lp, (p :: lf), le. apply (lists_exempt _ p); [exact L3|]. intros z Hz _ _. assert (Ezc : core z = core x') by (pose proof (rl_core _ _ _ R p) as E0; rewrite Hz, Hx2 in E0; exact (Some_inj _ _ E0)). injection Ezc as Z1 Z2 Z3 Z4 Z5 Z6.
      cbn [pg_inuse pg_objects x' pg_with_inuse pg_with_freelist] in *. rewrite Z5, Z6. apply En in Ez. apply Hful in Ez. split; [split; [tauto|lia]|]. split; [split; [intros _; exact Ez|left]|tauto].
    + split; [|reflexivity]. eexists _, _, _. split; [split; [exact I3|exact T3]|]. split; [exact (frame_after _ _ _ _ _ _ _ _ _ _ _ B B3)|]. split; [|exact Hnb]. now apply (bf_live _ _ _ _ _ _ _ _ B3), not_elem_of_nil.
  - cbn [bind wp]. split; [|reflexivity]. eexists _, _, _. split; [split; [exact I'|]|split; [exact B|split; [exact Hb|exact Hnb]]]. apply Hno. exists (p :: lp), lf, le. apply (lists_exempt _ p); [exact L2|]. intros z Hz _ _. rewrite Hx2 in Hz. injection Hz as <-.
    cbn [pg_inuse pg_objects x' pg_with_inuse pg_with_freelist]. assert (pg_inuse x + 1 <> pg_objects x) by tauto. split; [split; [lia|left]|]. split; [split; [tauto|lia]|tauto].
Qed.
End Fill.

(** Size-class heap: allocation. *)

(** * Size classes *)

Lemma GetCache_table : forallb (fun n => match GetCache n with Some i => (0 <=? i) && (i <? 7) && (n <=? class_size i) && ((i =? 0) || (class_size (i - 1) <? n)) | None => false end) (seqZ 1 1024) = true.
Proof. vm_compute. reflexivity. Qed.

(** The smallest class that has room. *)
Lemma GetCache_ok n : 1 <= n <= 1024 -> exists i, GetCache n = Some i /\ 0 <= i < 7 /\ n <= class_size i /\ (i = 0 \/ class_size (i - 1) < n).
Proof.
  intros Hn. pose proof (proj1 (forallb_forall _ _) GetCache_table n) as K. rewrite <- list_elem_of_In, elem_of_seqZ in K. specialize (K ltac:(lia)). cbv beta in K. destruct (GetCache n) as [i|]; [|discriminate]. to_prop. exists i. split; [reflexivity|]. split; [lia|]. split; [lia|].
  match goal with Hd : _ \/ _ |- _ => destruct Hd; [left|right]; lia end.
Qed.

(** A magazine holds no more than its limit between operations. *)
Definition rested {PS} (s : slab PS) : Prop := forall id j h n, stack_at s (InMag id) j = Some (h, n) -> n <= SLAB_BATCH * 2.

Section Serve.
Context {PS : Type} `{PSI : !PageSource PS} `{PSL : !PageSourceOk PS}.
Implicit Types (s : slab PS) (W : gmap Z place) (F : gmap Z (list Z)) (H : gmap Z Z).

Definition cpu_ready s (cpu : option Z) : Prop := match cpu with Some id => is_Some (b_cpus s !! id) | None => True end.
Definition cpus_same s s' : Prop := forall k, is_Some (b_cpus s' !! k) <-> is_Some (b_cpus s !! k).

Lemma cpus_same_eq s s' : b_cpus s' = b_cpus s -> cpus_same s s'.
Proof. intros E k. now rewrite E. Qed.

Lemma rested_eq s s' : b_cpus s' = b_cpus s -> rested s -> rested s'.
Proof. intros E R id j h n. unfold stack_at. rewrite E. apply R. Qed.

Lemma rested_mag s s' id i h n : rested s -> mags_but id i s s' -> mag_is s' id i h n -> n <= SLAB_BATCH * 2 -> rested s'.
Proof.
  intros R M Hm Hn id' j h' n' Hs. destruct (decide ((id', j) = (id, Z.to_nat i))) as [E|E]; [|rewrite (mb_same _ _ _ _ M id' j E) in Hs; exact (R _ _ _ _ Hs)]. injection E as -> ->. unfold mag_is in Hm. rewrite Hm in Hs. injection Hs as <- <-. exact Hn.
Qed.

(** The supply has no run of [n] pages. *)
Definition exhausted s (n : Z) : Prop := exists vm, ps_alloc (a_vm (b_arena s)) n = Ok (0, vm).

(** * A batch *)

Definition filled (k : nat) (i : Z) s W H (x : list Z * slab PS) : Prop :=
  let '(l, s') := x in exists W' F' H', slab_inv s' W' F' H' /\ bframe [] l s W H s' W' H' /\ NoDup l /\ (length l <= k)%nat /\ b_cpus s' = b_cpus s /\
    (forall y, y ∈ l -> block s' W' y (class_size i) /\ forall n, ~ block s W y n) /\ (l = [] -> (0 < k)%nat -> exhausted s 1).

Lemma filled_cons k i s W H y s1 r : got y (class_size i) s W H s1 -> b_cpus s1 = b_cpus s -> (forall W1 F1 H1, slab_inv s1 W1 F1 H1 -> wp r (filled k i s1 W1 H1)) ->
  wp (let* (l, s2) := r in Ok (y :: l, s2)) (filled (S k) i s W H).
Proof.
  intros (W1 & F1 & H1 & I1 & B1 & Hb & Hn) E1 IH. apply wp_bind. eapply wp_mono; [apply (IH W1 F1 H1 I1)|]. intros [l s2] (W2 & F2 & H2 & I2 & B2 & Hnd & Hk & E2 & Hl & _). cbn [wp]. exists W2, F2, H2. split; [exact I2|].
  assert (Hyl : y ∉ l) by (intros Hy; destruct (Hl y Hy) as [_ Hn']; exact (Hn' _ Hb)). split; [|split; [now constructor|split; [cbn; lia|split; [congruence|split; [|discriminate]]]]].
  - apply (bframe_trans [] [y] [] l [] (y :: l) _ _ _ _ _ _ _ _ _ B1 B2); [tauto|intros z Hz; apply list_elem_of_singleton in Hz as ->; right; left|intros z Hz; now right].
  - intros z [->|Hz]%elem_of_cons; [split; [now apply (bf_live _ _ _ _ _ _ _ _ B2), not_elem_of_nil|exact Hn]|]. destruct (Hl z Hz) as [Hbz Hnz]. split; [exact Hbz|]. intros n Hbn. apply (Hnz n). now apply (bf_live _ _ _ _ _ _ _ _ B1), not_elem_of_nil.
Qed.

Lemma fill_batch_ok k s W F H i : slab_inv s W F H -> 0 <= i < 7 -> wp (fill_batch k s i) (filled k i s W H).
Proof.
  intros I Hi. revert s W F H I. induction k as [|k IH]; intros s W F H I.
  { cbn. exists W, F, H. split; [exact I|]. split; [apply bframe_refl|]. split; [constructor|]. split; [lia|]. split; [reflexivity|]. split; [intros y Hy; now apply not_elem_of_nil in Hy|lia]. }
  cbn [fill_batch]. destruct (class_get s W F H i (proj1 I) Hi) as (c & Hc & Ec & _). rewrite Ec. cbn [bind]. destruct (Z.eqb_spec (sc_global c) 0) as [Hz|Hz]; cbn [negb].
  - apply wp_bind. eapply wp_mono; [apply (ensure_partial_ok s W F H i I Hi)|]. intros [ok s1] (E1 & [(-> & I1 & B1 & Hno)|(-> & p & F1 & H1 & K & B1)]); cbn [negb wp].
    + exists W, F, H. split; [exact I1|]. split; [exact B1|]. split; [constructor|]. split; [cbn; lia|]. split; [exact E1|]. split; [intros y Hy; now apply not_elem_of_nil in Hy|auto].
    + apply wp_bind. eapply wp_mono; [apply (page_pop_ok s1 W F1 H1 i p Hi K)|]. intros [y s2] ((W2 & F2 & H2 & I2 & B2 & Hb & Hn) & E2). apply filled_cons with (s1 := s2); [|congruence|intros; eapply IH; eauto].
      exists W2, F2, H2. split; [exact I2|]. split; [exact (frame_before _ _ _ _ _ _ _ _ _ _ _ B1 B2)|]. split; [exact Hb|]. intros n Hn'. apply (Hn n). now apply (bf_live _ _ _ _ _ _ _ _ B1 y n Hn'), not_elem_of_nil.
  - apply wp_bind. eapply wp_mono; [apply (global_pop_ok s W F H i c I Hi Hc Hz)|]. intros [y s1] (I1 & B1 & E1 & _ & Hb & Hn). apply filled_cons with (s1 := s1); [|exact E1|intros; eapply IH; eauto]. exists (<[y := Live]> W), F, H. auto.
Qed.

(** A batch goes to a magazine. *)
Lemma mag_fill_ok l s W F H id i h n : slab_inv s W F H -> 0 <= i < 7 -> mag_is s id i h n -> n + Z.of_nat (length l) <= MAG_MAX -> NoDup l -> (forall y, y ∈ l -> block s W y (class_size i)) ->
  wp (mag_fill s id i l) (fun s' => stepped l [] s W H s' H /\ mags_but id i s s' /\ exists h', mag_is s' id i h' (n + Z.of_nat (length l))).
Proof.
  revert s W h n. induction l as [|y l IH]; intros s W h n I Hi Hm Hle Hnd Hl.
  { cbn. split; [exists W, F; split; [exact I|apply bframe_refl]|]. split; [now apply mags_but_eq|]. exists h. now rewrite Z.add_0_r. }
  cbn [mag_fill length] in *. apply NoDup_cons in Hnd as [Hyl Hnd]. destruct (mag_cpu _ _ _ _ _ Hm) as [q Hq]. destruct (mag_get_ok s W F H id i (proj1 I) (mk_is_Some _ _ Hq) Hi) as (h0 & n0 & Eg & Hm0).
  unfold mag_is in Hm, Hm0. rewrite Hm in Hm0. injection Hm0 as <- <-. rewrite Eg. cbn [bind]. destruct (mag_push_ok s W F H id i h n y I Hi Hm ltac:(lia) (Hl y ltac:(left))) as (s1 & s2 & E1 & E2 & I2 & B2 & Hm2 & M2 & _). rewrite E1. cbn [bind]. rewrite E2. cbn [bind].
  eapply wp_mono; [apply (IH s2 (<[y := InMag id]> W) y (n + 1) I2 Hi Hm2 ltac:(lia) Hnd)|].
  - intros z Hz. apply (bf_live _ _ _ _ _ _ _ _ B2 z _ (Hl z ltac:(now right))). rewrite list_elem_of_singleton. congruence.
  - intros s3 ((W3 & F3 & I3 & B3) & M3 & h3 & Hm3). split; [|split; [exact (mags_but_trans _ _ _ _ _ M2 M3)|]].
    + exists W3, F3. split; [exact I3|]. apply (bframe_trans [y] [] l [] (y :: l) [] _ _ _ _ _ _ _ _ _ B2 B3); [|intros z Hz; now apply not_elem_of_nil in Hz|auto]. intros z k _. rewrite not_elem_of_cons, list_elem_of_singleton. tauto.
    + exists h3. replace (n + Z.of_nat (S (length l))) with (n + 1 + Z.of_nat (length l)) by lia. exact Hm3.
Qed.

(** * Objects *)

(** The answer of an allocation of class [i]. *)
Definition answer (i : Z) s W F H (x : Z * slab PS) : Prop :=
  let '(z, s') := x in rested s' /\ cpus_same s s' /\ ((z = 0 /\ (exists W' F' H', slab_inv s' W' F' H' /\ bframe [] [] s W H s' W' H') /\ exhausted s 1) \/ (z <> 0 /\ got z (class_size i) s W H s')).

Lemma got_nonzero z n s W H s' : got z n s W H s' -> z <> 0.
Proof. intros (W' & F' & H' & I' & _ & Hb & _). destruct (block_inside _ _ _ _ _ _ (proj1 I') Hb) as (q & k & Hq & B1 & _). destruct (ps_range _ _ _ _ (ar_src _ _ (ob_arena _ _ _ _ (proj1 I'))) Hq) as (R & _). lia. Qed.

Lemma alloc_slow_ok s W F H i cpu : slab_inv s W F H -> rested s -> 0 <= i < 7 -> match cpu with Some id => mag_is s id i 0 0 | None => True end -> wp (alloc_slow s i cpu) (answer i s W F H).
Proof.
  intros I R Hi Hm. unfold alloc_slow. apply wp_bind. eapply wp_mono; [apply (count_lock_quiet s W F H i I Hi)|]. intros s1 (I1 & B1 & E1 & _ & EA). set (k := match cpu with Some _ => _ | None => _ end). assert (Hk : (0 < k <= 16)%nat) by (unfold k, SLAB_BATCH; destruct cpu; lia).
  apply wp_bind. eapply wp_mono; [apply (fill_batch_ok k s1 W F H i I1 Hi)|]. intros [l s2] (W2 & F2 & H2 & I2 & B2 & Hnd & Hlen & E2 & Hl & He). destruct l as [|y l].
  - cbn [wp]. split; [apply (rested_eq s); [congruence|exact R]|]. split; [apply cpus_same_eq; congruence|]. left. split; [reflexivity|]. split; [exists W2, F2, H2; split; [exact I2|exact (frame_after _ _ _ _ _ _ _ _ _ _ _ B1 B2)]|]. destruct (He eq_refl ltac:(lia)) as [vm Hvm]. exists vm. now rewrite EA in Hvm.
  - apply NoDup_cons in Hnd as [Hyl Hnd]. apply wp_bind.
    assert (K : wp (match cpu with Some id => mag_fill s2 id i l | None => global_fill s2 i l end) (fun s3 => stepped l [] s2 W2 H2 s3 H2 /\ rested s3 /\ cpus_same s s3)).
    { destruct cpu as [id|]; [|destruct l; [|cbn in *; lia]; cbn [global_fill wp]; split; [exists W2, F2; split; [exact I2|apply bframe_refl]|split; [apply (rested_eq s); [congruence|exact R]|apply cpus_same_eq; congruence]]].
      assert (Hm2 : mag_is s2 id i 0 0) by (apply (mag_is_eq s); [congruence|exact Hm]). eapply wp_mono; [apply (mag_fill_ok l s2 W2 F2 H2 id i 0 0 I2 Hi Hm2); [unfold MAG_MAX, SLAB_BATCH; cbn in *; lia|exact Hnd|intros z Hz; apply Hl; now right]|].
      intros s3 (St & M & h' & Hm3). split; [exact St|]. split.
      - apply (rested_mag s2 s3 id i h' (0 + Z.of_nat (length l))); [apply (rested_eq s); [congruence|exact R]|exact M|exact Hm3|unfold SLAB_BATCH; cbn in *; lia].
      - intros j. rewrite (mb_cpus _ _ _ _ M j), E2, E1. reflexivity. }
    eapply wp_mono; [exact K|]. intros s3 ((W3 & F3 & I3 & B3) & R3 & C3). apply wp_bind. eapply wp_mono; [apply (upd_class_quiet s3 W3 F3 H2 i _ I3 Hi); intros c; auto|]. intros s4 (I4 & B4 & E4 & _). cbn [wp]. split; [exact (rested_eq s3 _ E4 R3)|].
    split; [intros j; rewrite E4; apply C3|]. destruct (Hl y ltac:(left)) as [Hby Hny]. assert (G : got y (class_size i) s W H s4).
    { apply (got_before y _ s s1 s4 W W F H H I1 B1). exists W3, F3, H2. split; [exact I4|]. split; [|split; [|exact Hny]].
      - apply (frame_after _ _ _ s3 _ _ W3 _ _ H2 _); [|exact B4]. apply (bframe_trans [] (y :: l) l [] [] [y] _ _ _ _ _ _ _ _ _ B2 B3); [|intros z [->|Hz]%elem_of_cons; [right; left|left; exact Hz]|intros z Hz; now apply not_elem_of_nil in Hz].
        intros z n Hz. split; [|intros _; apply not_elem_of_nil]. intros _. split; [apply not_elem_of_nil|]. intros Hzl. destruct (Hl z ltac:(now right)) as [_ Hnz]. exact (Hnz n Hz).
      - apply (bf_live _ _ _ _ _ _ _ _ B4); [|apply not_elem_of_nil]. now apply (bf_live _ _ _ _ _ _ _ _ B3). }
    right. split; [exact (got_nonzero _ _ _ _ _ _ G)|exact G].
Qed.

Lemma alloc_small_ok s W F H i cpu : slab_inv s W F H -> rested s -> 0 <= i < 7 -> cpu_ready s cpu -> wp (alloc_small s i cpu) (answer i s W F H).
Proof.
  intros I R Hi Hcpu. unfold alloc_small. destruct cpu as [id|]; [|cbn [bind]; now apply alloc_slow_ok]. destruct (mag_get_ok s W F H id i (proj1 I) Hcpu Hi) as (h & n & Eg & Hm). rewrite Eg. cbn [bind fst snd].
  destruct (mag_facts s W F H id i h n (proj1 I) Hm) as (l & _ & En & _ & Hz & _). destruct (Z.ltb_spec 0 n) as [Hn|Hn].
  - destruct (mag_pop_ok s W F H id i h n I Hi Hm ltac:(lia)) as (v & s1 & E1 & E2 & I1 & B1 & Hm1 & M1 & _ & Hb & Hnb). rewrite E1. cbn [bind]. rewrite E2. cbn [bind]. apply wp_bind. eapply wp_mono; [apply (upd_class_quiet s1 _ F H i _ I1 Hi); intros c; auto|].
    intros s2 (I2 & B2 & Ec2 & _). cbn [wp]. split; [apply (rested_eq s1 _ Ec2), (rested_mag s s1 id i v (n - 1) R M1 Hm1); pose proof (R _ _ _ _ Hm); lia|]. split; [intros k; rewrite Ec2; apply M1|]. right. split; [lia|]. eexists _, _, _. split; [exact I2|]. split; [exact (frame_after _ _ _ _ _ _ _ _ _ _ _ B1 B2)|].
    split; [now apply (bf_live _ _ _ _ _ _ _ _ B2), not_elem_of_nil|exact Hnb].
  - apply alloc_slow_ok; auto. assert (n = 0) by lia. subst n. rewrite (proj2 Hz ltac:(lia)) in Hm. now replace (Z.of_nat (length l)) with 0 in Hm by lia.
Qed.
End Serve.
