(* ===== verification/SlabFree.v ===== *)
(** Size-class heap: large blocks, alignment, freeing, sizes, resizing, and a CPU
    that stops. *)
From stdpp Require Import base gmap list fin_maps.
From Stdlib Require Import ZArith Lia.
From S2P Require Import Prelude Words Memory PMM PMMBits PMMInit HeapMem Slub SlubInv SlubAlloc Slab SlabInv SlabPage SlabAlloc.

Open Scope Z_scope.
Open Scope c_scope.

(** Pages that are not for objects are in no list. *)
Lemma struct_large P P' C : struct_ok 0 P C -> (forall q x, pg_magic x = SLAB_PAGE_MAGIC -> P !! q = Some x <-> P' !! q = Some x) -> struct_ok 0 P' C.
Proof. intros T HP i c Hc. destruct (T i c Hc) as (lp & lf & le & L). exists lp, lf, le. apply (lists_frame P); [exact L|]. intros q x [Hm _]. now apply HP. Qed.

(** Small powers of two, as the mask tells them. *)
Lemma pow2_table : forallb (fun a => negb (Z.land a (a - 1) =? 0) || existsb (fun k => a =? 2 ^ k) (seqZ 0 11)) (seqZ 1 1024) = true.
Proof. vm_compute. reflexivity. Qed.

Lemma pow2_small a : 1 <= a <= 1024 -> Z.land a (a - 1) = 0 -> exists k, 0 <= k /\ a = 2 ^ k.
Proof.
  intros Ha Hl. pose proof (proj1 (forallb_forall _ _) pow2_table a) as K. rewrite <- list_elem_of_In, elem_of_seqZ in K. specialize (K ltac:(lia)). cbv beta in K. rewrite Hl in K. cbn [negb orb Z.eqb] in K.
  apply existsb_exists in K as (k & Hk & E). rewrite <- list_elem_of_In, elem_of_seqZ in Hk. apply Z.eqb_eq in E. exists k. split; [lia|exact E].
Qed.

Lemma pow2_divide k n : 0 <= k -> 0 <= n -> 2 ^ k <= 2 ^ n -> (2 ^ k | 2 ^ n).
Proof. intros Hk Hn Hle. apply Z.pow_le_mono_r_iff in Hle; [|lia|lia]. exists (2 ^ (n - k)). rewrite <- Z.pow_add_r by lia. f_equal. lia. Qed.

Section Free.
Context {PS : Type} `{PSI : !PageSource PS} `{PSL : !PageSourceOk PS}.
Implicit Types (s : slab PS) (W : gmap Z place) (F : gmap Z (list Z)) (H : gmap Z Z).

(** * Large blocks *)

(** The pages that an allocation of [size] bytes asks for at a time: one for the
    objects of a class, or those of the block and its header. *)
Definition pages_for (size : Z) : Z := if size <=? 1024 then 1 else (size + 48 + 4095) / 4096.

(** The answer of an allocation. *)
Definition served (size : Z) s W H (x : Z * slab PS) : Prop :=
  let '(z, s') := x in rested s' /\ cpus_same s s' /\
  ((z = 0 /\ (exists W' F' H', slab_inv s' W' F' H' /\ bframe [] [] s W H s' W' H') /\ (2 ^ 64 <= size + 4143 \/ exhausted s (pages_for size))) \/ (z <> 0 /\ exists n, size <= n /\ got z n s W H s')).

Lemma alloc_large_ok s W F H size : slab_inv s W F H -> rested s -> 1024 < size < 2 ^ 64 -> wp (alloc_large s size) (served size s W H).
Proof.
  intros [I T] R Hs. unfold alloc_large, sizeof_slab_page. assert (Same : exists W' F' H', slab_inv s W' F' H' /\ bframe [] [] s W H s W' H') by (exists W, F, H; split; [split; assumption|apply bframe_refl]).
  destruct (Z.leb_spec (2 ^ 64) (size + 48)) as [Ho|Ho]; [cbn [wp]; split; [exact R|]; split; [now apply cpus_same_eq|]; left; split; [reflexivity|]; split; [exact Same|left; lia]|].
  unfold div_round_up. change (PAGE_SIZE - 1) with 4095. change PAGE_SIZE with 4096. destruct (Z.lt_ge_cases (size + 48 + 4095) (2 ^ 64)) as [Hlt|Hge].
  - rewrite u64_small by lia. set (n := (size + 48 + 4095) / 4096). assert (Hn : 1 <= n < 2 ^ 52 /\ size + 48 <= n * 4096) by (unfold n; dlia).
    destruct (proj1 (wp_ex _ _) (page_alloc_ok (b_arena s) H n (ob_arena _ _ _ _ I) ltac:(lia))) as ([p A] & Epa & [(-> & HA & Em)|(Hp & HH & Hr & HA & Hap & Hag)]); rewrite Epa; cbn [bind].
    + cbn [Z.eqb wp]. split; [exact R|]. split; [now apply cpus_same_eq|]. left. split; [reflexivity|]. split; [|right; unfold pages_for; rewrite (proj2 (Z.leb_gt _ _)) by lia; exact (page_alloc_zero _ _ n ltac:(lia) Epa)]. destruct (supply_ok s W F H A (conj I T) HA Em) as [I' B]. eauto.
    + rewrite (proj2 (Z.eqb_neq _ _) Hp). cbn [wp]. set (x := SlabPage _ _ _ _ _ _ _ _). set (s' := Slab _ _ _ _ _ _ _). pose proof (grow_fresh s W F H p I HH) as Hf.
      assert (Hag2 : forall q k, H !! q = Some k -> agree (a_mem (b_arena s)) (a_mem (b_arena s')) q (k * 4096)) by (intros q k Hq; apply Hag; destruct (Hap q k Hq); lia).
      assert (HF : F !! p = None) by (destruct (F !! p) eqn:E; [|reflexivity]; exfalso; apply (ob_free _ _ _ _ I p); congruence).
      split; [exact R|]. split; [now apply cpus_same_eq|]. right. destruct Hr as (R1 & R2 & R3 & R4). split; [lia|]. exists (n * 4096 - 48). split; [lia|]. exists W, F, (<[p := n]> H). split; [split|split; [|split]].
      * apply (slab_grow_ok s s' W F F H p n x I HH HA Hag2 eq_refl eq_refl eq_refl eq_refl eq_refl); [reflexivity|reflexivity|left; auto].
      * apply (struct_large (b_pages s)); [exact T|]. intros q y Hy. unfold s'. cbn [b_pages]. destruct (decide (p = q)) as [<-|Hne]; [|now rewrite lookup_insert_ne]. rewrite lookup_insert_eq, Hf. split; [discriminate|]. intros [= <-]. discriminate.
      * apply (grow_frame s s' W F H p n x I HH Hag2 eq_refl). intros _. left.
      * right. exists p, x. split; [apply lookup_insert_eq|]. auto.
      * intros k Hk. destruct (block_inside s W F H _ _ I Hk) as (q & j & Hq & B1 & B2 & _ & B3). destruct (Hap q j Hq); lia.
  - replace (u64 (size + 48 + 4095) / 4096) with 0 by (unfold u64; assert ((size + 48 + 4095) mod 2 ^ 64 = size + 48 + 4095 - 2 ^ 64) as -> by (symmetry; apply (Z.mod_unique _ _ 1); lia); symmetry; apply Z.div_small; lia).
    cbn [page_alloc Z.eqb bind wp]. split; [exact R|]. split; [now apply cpus_same_eq|]. left. split; [reflexivity|]. split; [|left; lia]. destruct (supply_ok s W F H (b_arena s) (conj I T) (ob_arena _ _ _ _ I) eq_refl) as [I' B]. eauto.
Qed.

Lemma SLAB_Alloc_ok s W F H size cpu : slab_inv s W F H -> rested s -> cpu_ready s cpu -> 0 <= size < 2 ^ 64 -> wp (SLAB_Alloc s size cpu) (served size s W H).
Proof.
  intros I R Hcpu Hs. unfold SLAB_Alloc. set (n := if size =? 0 then 1 else size). assert (Hn : 1 <= n < 2 ^ 64 /\ size <= n /\ (1024 < n -> n = size)) by (unfold n; destruct (Z.eqb_spec size 0); lia). unfold MAX_SLAB_SIZE.
  destruct (Z.ltb_spec 1024 n) as [Hl|Hl]; [rewrite (proj2 (proj2 Hn) Hl); apply (alloc_large_ok s W F H); auto; lia|]. destruct (GetCache_ok n ltac:(lia)) as (i & Ei & Hi & Hsz & _). rewrite Ei. eapply wp_mono; [now apply (alloc_small_ok s W F H i cpu)|].
  intros [z s'] (R' & C' & [(-> & U & E)|(Hz & G)]); (split; [exact R'|]); (split; [exact C'|]); [left; split; [reflexivity|]; split; [exact U|right; unfold pages_for; rewrite (proj2 (Z.leb_le _ _)) by lia; exact E]|right; split; [exact Hz|]; exists (class_size i); split; [lia|exact G]].
Qed.

(** * Alignment *)

(** An object lies on a multiple of its size, a large block on one of 16. *)
Lemma block_aligned s W F H z n : objects_ok s W F H -> block s W z n -> z mod 16 = 0 /\ forall i, 0 <= i < 7 -> n = class_size i -> z mod class_size i = 0.
Proof.
  intros I Hb. assert (Hsmall : forall i, 0 <= i < 7 -> n = class_size i -> z mod class_size i = 0).
  { intros i Hi ->. apply (block_class _ _ _ _ _ _ I Hi) in Hb as [Hw Hcl]. pose proof (obj_place I z _ _ Hw Hcl) as Ho. pose proof (obj_facts I i z Ho) as (_ & _ & (_ & R2 & _) & _). destruct Ho as (x & _ & _ & Hg). apply elem_of_sgrid in Hg as (k & Hk & E). pose proof (class_geom i Hi) as (G1 & _ & _ & _ & G5 & G6 & _).
    apply Z.mod_divide; [lia|]. rewrite E. apply Z.divide_add_r; [apply Z.divide_add_r; [|apply Z.mod_divide; [lia|exact G5]]|apply Z.divide_factor_r]. apply Z.divide_trans with 4096; apply Z.mod_divide; (lia || exact G6 || exact R2). }
  split; [|exact Hsmall]. pose proof Hb as Hb'. destruct Hb as [(Hw & x & Hx & ->)|(p & x & Hp & Hm & -> & ->)].
  - destruct (ob_where _ _ _ _ I z Live Hw) as (x' & Hx' & Hm & _). rewrite Hx in Hx'. injection Hx' as <-. destruct (pg_small I _ x Hx Hm) as (_ & Hc & _). specialize (Hsmall _ Hc eq_refl). unfold class_size in Hsmall. apply Z.mod_divide in Hsmall; [|pose proof (Z.pow_pos_nonneg 2 (pg_cache x)); lia].
    apply Z.mod_divide; [lia|]. apply Z.divide_trans with (2 := Hsmall). apply Z.divide_factor_l.
  - destruct (ob_page _ _ _ _ I p x Hp) as [(_ & _ & HH)|(_ & fl & _ & K)]; [|pose proof (po_magic _ _ _ _ _ _ K); rewrite Hm in *; discriminate]. destruct (ps_range _ _ _ _ (ar_src _ _ (ob_arena _ _ _ _ I)) HH) as (_ & R2 & _). dlia.
Qed.

Lemma SLAB_Alloc_small s n cpu : 1 <= n <= 1024 -> exists i, 0 <= i < 7 /\ n <= class_size i /\ SLAB_Alloc s n cpu = alloc_small s i cpu.
Proof.
  intros Hn. destruct (GetCache_ok n Hn) as (i & Ei & Hi & Hsz & _). exists i. split; [exact Hi|]. split; [exact Hsz|]. unfold SLAB_Alloc, MAX_SLAB_SIZE. rewrite (proj2 (Z.eqb_neq n 0)) by lia. rewrite (proj2 (Z.ltb_ge _ _)) by lia. now rewrite Ei.
Qed.

(** The requests with an alignment that are never served: no power of two, or a
    size beyond the classes for an alignment of more than 16. *)
Definition unaligned (size align : Z) : Prop := align = 0 \/ Z.land align (align - 1) <> 0 \/ (16 < align /\ 1024 < Z.max size align).

(** The answer of an allocation with an alignment. *)
Definition served_at (size align : Z) s W H (x : Z * slab PS) : Prop :=
  let '(z, s') := x in rested s' /\ cpus_same s s' /\
  ((z = 0 /\ (exists W' F' H', slab_inv s' W' F' H' /\ bframe [] [] s W H s' W' H') /\ (unaligned size align \/ 2 ^ 64 <= size + 4143 \/ exhausted s (pages_for size))) \/ (z <> 0 /\ z mod align = 0 /\ exists n, size <= n /\ got z n s W H s')).

Lemma SLAB_AllocAligned_ok s W F H size align cpu : slab_inv s W F H -> rested s -> cpu_ready s cpu -> 0 <= size < 2 ^ 64 -> 0 <= align -> wp (SLAB_AllocAligned s size align cpu) (served_at size align s W H).
Proof.
  intros I R Hcpu Hs Ha. unfold SLAB_AllocAligned. assert (Same : rested s /\ cpus_same s s /\ exists W' F' H', slab_inv s W' F' H' /\ bframe [] [] s W H s W' H') by (split; [exact R|]; split; [now apply cpus_same_eq|]; exists W, F, H; split; [assumption|apply bframe_refl]).
  assert (Never : unaligned size align -> served_at size align s W H (0, s)) by (intros U; cbn; tauto). unfold unaligned in Never. destruct (Z.eqb_spec align 0) as [E0|E0]; [cbn [orb wp]; auto|]. cbn [orb]. destruct (Z.eqb_spec (Z.land align (align - 1)) 0) as [E1|E1]; [|cbn [negb wp]; auto]. cbn [negb]. destruct (Z.leb_spec align 16) as [H16|H16].
  - eapply wp_mono; [now apply (SLAB_Alloc_ok s W F H size cpu)|]. intros [z s'] (R' & C' & [(-> & U & Hwhy)|(Hz & n & Hn & G)]); (split; [exact R'|]); (split; [exact C'|]); [left; auto|right]. split; [exact Hz|]. split; [|eauto]. destruct G as (W' & F' & H' & I' & _ & Hb & _).
    destruct (block_aligned s' W' F' H' z n (proj1 I') Hb) as [Hal _]. destruct (pow2_small align ltac:(lia) E1) as (k & Hk & ->). apply Z.mod_divide in Hal; [|lia]. apply Z.mod_divide; [lia|]. apply Z.divide_trans with 16; [|exact Hal]. change 16 with (2 ^ 4). apply pow2_divide; [exact Hk|lia|exact H16].
  - set (need := if align <? size then size else align). assert (Hneed : size <= need /\ align <= need) by (unfold need; destruct (Z.ltb_spec align size); lia). unfold MAX_SLAB_SIZE. destruct (Z.ltb_spec 1024 need) as [Hb|Hb]; [cbn [wp]; apply Never; right; right; unfold need in Hb; destruct (Z.ltb_spec align size); lia|].
    destruct (SLAB_Alloc_small s need cpu ltac:(lia)) as (i & Hi & Hsz & E). rewrite E. eapply wp_mono; [now apply (alloc_small_ok s W F H i cpu)|]. intros [z s'] (R' & C' & [(-> & U & Hwhy)|(Hz & G)]); (split; [exact R'|]); (split; [exact C'|]); [left; split; [reflexivity|]; split; [exact U|right; right; unfold pages_for; rewrite (proj2 (Z.leb_le _ _)) by lia; exact Hwhy]|right]. split; [exact Hz|]. split; [|exists (class_size i); split; [lia|exact G]].
    destruct G as (W' & F' & H' & I' & _ & Hbl & _). destruct (block_aligned s' W' F' H' z _ (proj1 I') Hbl) as [_ Hal]. specialize (Hal i Hi eq_refl). destruct (pow2_small align ltac:(lia) E1) as (k & Hk & ->). pose proof (class_geom i Hi) as (G1 & _). apply Z.mod_divide in Hal; [|lia]. apply Z.mod_divide; [lia|].
    apply Z.divide_trans with (2 := Hal). unfold class_size in *. change 16 with (2 ^ 4) in *. rewrite <- Z.pow_add_r in * by lia. apply pow2_divide; [exact Hk|lia|lia].
Qed.

(** * Freeing *)

Lemma in_magazine_ok s ptr k h l : chain raw (a_mem (b_arena s)) h l -> in_magazine k s h ptr = Ok (bool_decide (ptr ∈ take k l)).
Proof.
  revert h l. induction k as [|k IH]; intros h l Hc; [now rewrite take_0|]. cbn [in_magazine]. destruct l as [|y l]; [cbn in Hc; now subst h|]. destruct Hc as (-> & Hy0 & w & Hw & Hc). rewrite (proj2 (Z.eqb_neq _ _) Hy0). cbn [take]. destruct (Z.eqb_spec y ptr) as [->|Hne].
  - rewrite bool_decide_true by left. reflexivity.
  - unfold ld_link. rewrite Hw. cbn [bind]. unfold raw in Hc. rewrite (IH _ _ Hc). f_equal. apply bool_decide_ext. rewrite elem_of_cons. intuition congruence.
Qed.

(** Up to [k] objects leave a magazine. *)
Lemma mag_take_ok k s W F H id i h n : slab_inv s W F H -> 0 <= i < 7 -> mag_is s id i h n ->
  wp (mag_take k s id i) (fun '(l, s') => exists W', slab_inv s' W' F H /\ bframe [] l s W H s' W' H /\ NoDup l /\ mags_but id i s s' /\ (exists h', mag_is s' id i h' (n - Z.of_nat (length l))) /\ (Z.of_nat k <= n -> length l = k) /\
    forall y, y ∈ l -> block s' W' y (class_size i) /\ forall j, ~ block s W y j).
Proof.
  revert s W h n. induction k as [|k IH]; intros s W h n I Hi Hm.
  { cbn. exists W. split; [exact I|]. split; [apply bframe_refl|]. split; [constructor|]. split; [now apply mags_but_eq|]. split; [exists h; now rewrite Z.sub_0_r|]. split; [lia|]. intros y Hy. now apply not_elem_of_nil in Hy. }
  cbn [mag_take]. destruct (mag_cpu _ _ _ _ _ Hm) as [q Hq]. destruct (mag_get_ok s W F H id i (proj1 I) (mk_is_Some _ _ Hq) Hi) as (h0 & n0 & Eg & Hm0). unfold mag_is in Hm, Hm0. rewrite Hm in Hm0. injection Hm0 as <- <-. rewrite Eg. cbn [bind].
  destruct (mag_facts s W F H id i h n (proj1 I) Hm) as (l0 & _ & En & _ & Hz & _). destruct (Z.eqb_spec h 0) as [E0|E0].
  - cbn [wp]. exists W. split; [exact I|]. split; [apply bframe_refl|]. split; [constructor|]. split; [now apply mags_but_eq|]. split; [exists h; now rewrite Z.sub_0_r|]. split; [intros Hk; apply Hz in E0; lia|]. intros y Hy. now apply not_elem_of_nil in Hy.
  - destruct (mag_pop_ok s W F H id i h n I Hi Hm E0) as (v & s1 & E1 & E2 & I1 & B1 & Hm1 & M1 & _ & Hb & Hnb). rewrite E1. cbn [bind]. rewrite E2. cbn [bind]. apply wp_bind. eapply wp_mono; [apply (IH s1 _ v (n - 1) I1 Hi Hm1)|].
    intros [l s2] (W2 & I2 & B2 & Hnd & M2 & (h2 & Hm2) & Hk & Hl). cbn [wp]. exists W2. split; [exact I2|]. assert (Hhl : h ∉ l) by (intros Hi'; destruct (Hl h Hi') as [_ Hn']; exact (Hn' _ Hb)). split; [|split; [now constructor|split; [exact (mags_but_trans _ _ _ _ _ M1 M2)|split; [|split]]]].
    + apply (bframe_trans [] [h] [] l [] (h :: l) _ _ _ _ _ _ _ _ _ B1 B2); [tauto|intros z Hz'; apply list_elem_of_singleton in Hz' as ->; right; left|intros z Hz'; now right].
    + exists h2. cbn [length]. replace (n - Z.of_nat (S (length l))) with (n - 1 - Z.of_nat (length l)) by lia. exact Hm2.
    + intros Hkn. cbn [length]. rewrite Hk by lia. reflexivity.
    + intros z [->|Hz']%elem_of_cons; [split; [now apply (bf_live _ _ _ _ _ _ _ _ B2), not_elem_of_nil|exact Hnb]|]. destruct (Hl z Hz') as [Hbz Hnz]. split; [exact Hbz|]. intros j Hbn. apply (Hnz j). now apply (bf_live _ _ _ _ _ _ _ _ B1), not_elem_of_nil.
Qed.
End Free.

(** Size-class heap: freeing, and what the invariant says of each operation. *)

Section Give.
Context {PS : Type} `{PSI : !PageSource PS} `{PSL : !PageSourceOk PS}.
Implicit Types (s : slab PS) (W : gmap Z place) (F : gmap Z (list Z)) (H : gmap Z Z).

Lemma frame_cancels l s1 s2 s3 W1 W2 W3 H1 H2 H3 : bframe [] l s1 W1 H1 s2 W2 H2 -> bframe l [] s2 W2 H2 s3 W3 H3 -> (forall y n, y ∈ l -> ~ block s1 W1 y n) -> bframe [] [] s1 W1 H1 s3 W3 H3.
Proof.
  intros A B Hy. apply (bframe_trans [] l l [] [] [] s1 W1 H1 s2 W2 H2 s3 W3 H3 A B); [|auto|auto]. intros z n Hz. split; [|intros _; apply not_elem_of_nil]. intros _. split; [apply not_elem_of_nil|]. intros Hzl. exact (Hy z n Hzl Hz).
Qed.

(** The block [z] is gone, the others are as they were. *)
Definition freed (z : Z) s W H s' : Prop := rested s' /\ cpus_same s s' /\ exists W' F' H', slab_inv s' W' F' H' /\ bframe [z] [] s W H s' W' H'.

(** * A large block *)

Lemma page_not_large s W F H p x y i : objects_ok s W F H -> b_pages s !! p = Some x -> pg_magic x = LARGE_PAGE_MAGIC -> obj_of s i y -> slab_page_of y <> p.
Proof. intros _ Hp Hm (x' & Hx' & [Hm' _] & _) E. rewrite E, Hp in Hx'. injection Hx' as <-. rewrite Hm in Hm'. discriminate. Qed.

Lemma free_large_ok s W F H p x : slab_inv s W F H -> rested s -> b_pages s !! p = Some x -> pg_magic x = LARGE_PAGE_MAGIC -> wp (free_large s p (p + 48)) (freed (p + 48) s W H).
Proof.
  intros [I T] R Hx Hm. unfold free_large, sizeof_slab_page. rewrite Z.eqb_refl. cbn [negb]. unfold drop_page. destruct (ob_page _ _ _ _ I p x Hx) as [(_ & HF & HH)|(_ & fl & _ & K)]; [|pose proof (po_magic _ _ _ _ _ _ K); rewrite Hm in *; discriminate].
  set (k := pg_count x) in *. apply wp_bind. eapply wp_mono; [apply (page_free_ok (b_arena s) H p k (ob_arena _ _ _ _ I) HH)|]. intros A (HA & Hag). cbn [wp]. set (s' := Slab _ _ _ _ _ _ _).
  assert (Hag2 : forall q n, H !! q = Some n -> q <> p -> agree (a_mem (b_arena s)) (a_mem (b_arena s')) q (n * 4096)).
  { intros q n Hq Hne. apply Hag. destruct (ps_apart _ _ p k q n (ar_src _ _ (ob_arena _ _ _ _ I)) HH Hq ltac:(congruence)); lia. }
  assert (Hob : forall i y, obj_of s i y -> agree (a_mem (b_arena s)) (a_mem (b_arena s')) y 8).
  { intros i y Hy. pose proof (obj_facts I i y Hy) as (_ & HHy & _ & B1 & B2 & _ & B3 & _). apply (agree_sub _ _ (slab_page_of y) (1 * 4096)); [apply Hag2; [exact HHy|exact (page_not_large s W F H p x y i I Hx Hm Hy)]|lia|lia]. }
  assert (Hpg : forall q y, pg_magic y = SLAB_PAGE_MAGIC -> b_pages s !! q = Some y <-> delete p (b_pages s) !! q = Some y).
  { intros q y Hy. destruct (decide (p = q)) as [<-|Hne]; [|now rewrite lookup_delete_ne]. rewrite lookup_delete_eq, Hx. split; [|discriminate]. intros [= <-]. rewrite Hm in Hy. discriminate. }
  split; [exact R|]. split; [now apply cpus_same_eq|]. exists W, F, (delete p H). split; [split|].
  - split; try apply I; try exact HA.
    + intros q y Hy. cbn in Hy. apply lookup_delete_Some in Hy as [Hne Hy]. rewrite lookup_delete_ne by exact Hne. destruct (ob_page _ _ _ _ I q y Hy) as [|(K1 & fl & K2 & K3)]; [auto|]. right. split; [exact K1|]. exists fl. split; [exact K2|].
      pose proof (po_magic _ _ _ _ _ _ K3) as Hmy. destruct K3 as [A1 A2 A3 A4 A5 A6 A7 A8]. split; auto. apply (chain_agree _ (a_mem (b_arena s))); [|exact A3]. intros z Hz. apply (Hob (pg_cache y)). apply (obj_in I q y z Hy Hmy). auto.
    + intros q Hq. cbn. rewrite lookup_delete_ne by congruence. exact (ob_free _ _ _ _ I q Hq).
    + intros y w Hw. destruct (ob_where _ _ _ _ I y w Hw) as (t & Ht & Hmt & Hg). exists t. split; [now apply (Hpg _ t Hmt)|auto].
    + intros w j h n Hst. destruct (ob_stack _ _ _ _ I w j h n Hst) as (l & Hch & [Hnd Hl] & Hn). exists l. split; [|split; [split; [exact Hnd|]|exact Hn]].
      * apply (chain_agree _ (a_mem (b_arena s))); [|exact Hch]. intros z Hz. apply Hl in Hz as [Hz Hzc]. exact (Hob _ z (obj_place I z _ _ Hz Hzc)).
      * intros y. rewrite Hl. split; intros [Hw (t & Ht & Hj)]; (split; [exact Hw|]); exists t; (split; [|exact Hj]); now apply (Hpg _ t (proj1 Hj)).
  - apply (struct_large (b_pages s)); [exact T|exact Hpg].
  - split.
    + intros z n Hz Hzp. rewrite list_elem_of_singleton in Hzp. destruct (block_inside s W F H z n I Hz) as (q & j & Hq & B1 & B2 & _).
      destruct Hz as [(Hw & t & Ht & ->)|(q' & t & Ht & Hmt & -> & ->)].
      * destruct (obj_where I z Live Hw) as [i Ho]. pose proof (page_not_large s W F H p x z i I Hx Hm Ho) as Hne. pose proof (obj_facts I i z Ho) as (_ & HHz & _ & C1 & C2 & _). destruct (ob_where _ _ _ _ I z Live Hw) as (t' & Ht' & Hmt & _). rewrite Ht in Ht'. injection Ht' as <-.
        split; [left; split; [exact Hw|]; exists t; split; [now apply (Hpg _ t Hmt)|reflexivity]|]. apply (agree_sub _ _ (slab_page_of z) (1 * 4096)); [now apply Hag2|lia|]. destruct Ho as (t' & Ht' & [_ E] & _). rewrite Ht in Ht'. injection Ht' as <-. subst i. lia.
      * assert (Hne : q' <> p) by (intros ->; now apply Hzp). destruct (ob_page _ _ _ _ I q' t Ht) as [(_ & _ & HH')|(_ & fl & _ & K)]; [|pose proof (po_magic _ _ _ _ _ _ K); rewrite Hmt in *; discriminate].
        split; [right; exists q', t; split; [cbn; now rewrite lookup_delete_ne|auto]|]. apply (agree_sub _ _ q' (pg_count t * 4096)); [now apply Hag2|lia|lia].
    + intros z n [(Hw & t & Ht & ->)|(q & t & Ht & Hmt & -> & ->)]; cbn in Ht; apply lookup_delete_Some in Ht as [Hne Ht]; left.
      * split; [left; eauto|]. rewrite list_elem_of_singleton. intros ->. destruct (obj_where I _ Live Hw) as [i Ho]. exact (not_large s W F H i _ p x I Ho Hx Hm eq_refl).
      * split; [right; exists q, t; auto|]. rewrite list_elem_of_singleton. lia.
    + intros q n Hq Hs. assert (q <> p) by congruence. split; [now rewrite lookup_delete_ne|]. split; [cbn; now rewrite lookup_delete_ne|auto].
    + intros q n Hq Hs. apply lookup_delete_Some in Hq as [Hne Hq]. cbn in Hs. rewrite lookup_delete_ne in Hs by exact Hne. auto.
Qed.

(** * An object *)

Lemma free_small_ok s W F H i ptr cpu : slab_inv s W F H -> rested s -> 0 <= i < 7 -> cpu_ready s cpu -> block s W ptr (class_size i) -> wp (free_small s i ptr cpu) (freed ptr s W H).
Proof.
  intros I R Hi Hcpu Hb. destruct cpu as [id|].
  2: { cbn [free_small]. eapply wp_mono; [apply (slab_flush_ok s W F H i [ptr] I Hi)|]; [apply NoDup_singleton|intros y Hy; apply list_elem_of_singleton in Hy as ->; exact Hb|]. intros s' ((W' & F' & I' & B) & E). split; [exact (rested_eq s _ E R)|]. split; [now apply cpus_same_eq|]. eauto. }
  unfold free_small. destruct (mag_get_ok s W F H id i (proj1 I) Hcpu Hi) as (h & n & Eg & Hm). rewrite Eg. cbn [bind]. destruct (mag_facts s W F H id i h n (proj1 I) Hm) as (l & Hch & En & _ & _ & Hl). rewrite (in_magazine_ok s ptr _ h l Hch). cbn [bind].
  rewrite bool_decide_false. 2: { intros Ht. assert (Hpl : ptr ∈ l) by (apply list_elem_of_lookup_1 in Ht as [j Hj]; apply lookup_take_Some in Hj as [Hj _]; exact (list_elem_of_lookup_2 _ _ _ Hj)). apply Hl in Hpl as [E _]. apply (block_class _ _ _ _ _ _ (proj1 I) Hi) in Hb as [E' _]. congruence. }
  pose proof (R _ _ _ _ Hm) as Hn. destruct (mag_push_ok s W F H id i h n ptr I Hi Hm) as (s1 & s2 & E1 & E2 & I2 & B2 & Hm2 & M2 & _); [unfold MAG_MAX; lia|exact Hb|]. rewrite E1. cbn [bind]. rewrite E2. cbn [bind]. unfold SLAB_BATCH in *. rewrite u32_small by lia.
  destruct (Z.ltb_spec (16 * 2) (n + 1)) as [Hov|Hov].
  - apply wp_bind. eapply wp_mono; [apply (mag_take_ok _ s2 _ F H id i ptr (n + 1) I2 Hi Hm2)|]. intros [bt s3] (W3 & I3 & B3 & Hnd & M3 & (h3 & Hm3) & Hk & Hbt). specialize (Hk ltac:(lia)).
    eapply wp_mono; [apply (slab_flush_ok s3 W3 F H i bt I3 Hi Hnd)|]; [intros y Hy; now apply Hbt|]. intros s4 ((W4 & F4 & I4 & B4) & E4). pose proof (mags_but_trans _ _ _ _ _ M2 M3) as M. split; [|split].
    + apply (rested_eq s3 _ E4), (rested_mag s s3 id i h3 _ R M Hm3). unfold SLAB_BATCH. lia.
    + intros j. rewrite E4. apply M.
    + exists W4, F4, H. split; [exact I4|]. apply (frame_after _ _ _ s2 _ _ (<[ptr := InMag id]> W) _ _ H _ B2). apply (frame_cancels bt _ s3 _ _ W3 _ _ H _ B3 B4). intros y j Hy. now apply Hbt.
  - cbn [wp]. split; [apply (rested_mag s s2 id i ptr (n + 1) R M2 Hm2); unfold SLAB_BATCH; lia|]. split; [exact (mb_cpus _ _ _ _ M2)|]. eauto.
Qed.

(** * [SLAB_Free] *)

Lemma SLAB_Free_ok s W F H z n cpu : slab_inv s W F H -> rested s -> cpu_ready s cpu -> block s W z n -> wp (SLAB_Free s z cpu) (freed z s W H).
Proof.
  intros I R Hcpu Hb. destruct (block_inside s W F H z n (proj1 I) Hb) as (q & k & Hq & B1 & B2 & _ & B3). destruct (ps_range _ _ _ _ (ar_src _ _ (ob_arena _ _ _ _ (proj1 I))) Hq) as (R1 & R2 & R3 & R4). unfold SLAB_Free. rewrite (proj2 (Z.eqb_neq z 0)) by lia.
  destruct Hb as [(Hw & x & Hx & ->)|(p & x & Hx & Hm & -> & ->)].
  - destruct (ob_where _ _ _ _ (proj1 I) z Live Hw) as (x' & Hx' & Hm & Hg). rewrite Hx in Hx'. injection Hx' as <-. destruct (pg_small (proj1 I) _ x Hx Hm) as (_ & Hi & _). rewrite (page_at_ok _ _ _ Hx). cbn [bind]. rewrite Hm. change (SLAB_PAGE_MAGIC =? LARGE_PAGE_MAGIC) with false. change (SLAB_PAGE_MAGIC =? SLAB_PAGE_MAGIC) with true. cbn [negb].
    set (i := pg_cache x) in *. apply wp_bind. eapply wp_mono; [apply (upd_class_quiet s W F H i _ I Hi); intros c; auto|]. intros s1 (I1 & Bq & E1 & EP1 & _). destruct (class_get s1 W F H i (proj1 I1) Hi) as (c & Hc & Ec & Esz). rewrite Ec. cbn [bind]. rewrite Esz. fold (class_hdr i).
    apply elem_of_sgrid in Hg as (j & Hj & Ez). pose proof (class_geom i Hi) as (G1 & _). assert (Eoff : z - slab_page_of z = class_hdr i + j * class_size i) by lia. rewrite Eoff. rewrite (proj2 (Z.ltb_ge _ _)) by nia. replace (class_hdr i + j * class_size i - class_hdr i) with (j * class_size i) by lia. rewrite Z.mod_mul by lia. cbn [orb negb Z.eqb].
    assert (Hb1 : block s1 W z (class_size i)) by (left; split; [exact Hw|]; exists x; rewrite EP1; auto). eapply wp_mono; [apply (free_small_ok s1 W F H i z cpu I1 (rested_eq s _ E1 R) Hi); [unfold cpu_ready; now rewrite E1|exact Hb1]|].
    intros s' (R' & C' & W' & F' & H' & I' & B'). split; [exact R'|]. split; [intros y; rewrite (C' y); now rewrite E1|]. exists W', F', H'. split; [exact I'|]. exact (frame_before _ _ _ _ _ _ _ _ _ _ _ Bq B').
  - destruct (ob_page _ _ _ _ (proj1 I) p x Hx) as [(_ & _ & HH)|(_ & fl & _ & K)]; [|pose proof (po_magic _ _ _ _ _ _ K); rewrite Hm in *; discriminate]. destruct (ps_range _ _ _ _ (ar_src _ _ (ob_arena _ _ _ _ (proj1 I))) HH) as (Q1 & Q2 & Q3 & Q4).
    assert (Ep : slab_page_of (p + 48) = p) by (apply slab_page_in; lia). rewrite Ep, (page_at_ok _ _ _ Hx). cbn [bind]. rewrite Hm, Z.eqb_refl. now apply (free_large_ok s W F H p x).
Qed.
End Give.

(** Size-class heap: what its users write, sizes, and moving a block. *)

Section Calls.
Context {PS : Type} `{PSI : !PageSource PS} `{PSL : !PageSourceOk PS}.
Implicit Types (s : slab PS) (W : gmap Z place) (F : gmap Z (list Z)) (H : gmap Z Z).

Lemma blocks_apart s W F H z n z' n' : objects_ok s W F H -> block s W z n -> block s W z' n' -> z <> z' -> z + n <= z' \/ z' + n' <= z.
Proof.
  intros I Hz Hz' Hne. pose proof Hz as [(Hw & x & Hx & ->)|(p & x & Hp & Hm & -> & ->)].
  - destruct (obj_where I z Live Hw) as [i Ho]. pose proof Ho as (x' & Hx' & [_ E] & _). rewrite Hx in Hx'. injection Hx' as <-. rewrite E. exact (block_apart I i z z' n' Ho Hz' Hne).
  - pose proof Hz' as [(Hw & x' & Hx' & ->)|(p' & x' & Hp' & Hm' & -> & ->)].
    + destruct (obj_where I z' Live Hw) as [i Ho]. pose proof Ho as (x'' & Hx'' & [_ E] & _). rewrite Hx' in Hx''. injection Hx'' as <-. rewrite E. destruct (block_apart I i z' (p + 48) _ Ho Hz ltac:(congruence)); auto.
    + destruct (ob_page _ _ _ _ I p x Hp) as [(_ & _ & HH)|(_ & fl & _ & K)]; [|pose proof (po_magic _ _ _ _ _ _ K); rewrite Hm in *; discriminate]. destruct (ob_page _ _ _ _ I p' x' Hp') as [(_ & _ & HH')|(_ & fl & _ & K)]; [|pose proof (po_magic _ _ _ _ _ _ K); rewrite Hm' in *; discriminate].
      destruct (ps_apart _ _ p (pg_count x) p' (pg_count x') (ar_src _ _ (ob_arena _ _ _ _ I)) HH HH' ltac:(congruence)); lia.
Qed.

(** A block is mapped memory. *)
Lemma block_mapped s W F H z n : objects_ok s W F H -> block s W z n -> mapped (a_mem (b_arena s)) z (Z.to_nat n).
Proof.
  intros I Hb. destruct (block_inside s W F H z n I Hb) as (q & k & Hq & B1 & B2 & _ & B3). destruct (ps_range _ _ _ _ (ar_src _ _ (ob_arena _ _ _ _ I)) Hq) as (_ & _ & R & _). eapply mapped_le; [exact (ar_mapped _ _ (ob_arena _ _ _ _ I) q k Hq)|lia|lia].
Qed.

(** * Writes of the users *)

(** The invariant looks at objects that are not in use. *)
Lemma objects_mem s W F H A : objects_ok s W F H -> arena_ok A H -> (forall i y, obj_of s i y -> W !! y <> Some Live -> agree (a_mem (b_arena s)) (a_mem A) y 8) -> objects_ok (b_with_arena s A) W F H.
Proof.
  intros I HA Hag. split; try apply I; try exact HA.
  - intros p x Hx. destruct (ob_page _ _ _ _ I p x Hx) as [|(K1 & fl & K2 & K3)]; [auto|]. right. split; [exact K1|]. exists fl. split; [exact K2|]. pose proof K3 as [A1 A2 A3 A4 A5 A6 A7 A8]. split; auto. cbn [b_with_arena b_arena b_cookie].
    apply (chain_agree _ (a_mem (b_arena s))); [|exact A3]. intros y Hy. destruct (obj_in I p x y Hx A1 (A5 y Hy)) as [_ Ho]. apply (Hag _ y Ho). rewrite (proj1 (A8 y (A5 y Hy)) Hy). discriminate.
  - intros w j h n Hs. assert (Hs' : stack_at s w j = Some (h, n)) by exact Hs. destruct (ob_stack _ _ _ _ I w j h n Hs') as (l & Hch & Hl & Hn). exists l. split; [|auto]. apply (chain_agree _ (a_mem (b_arena s))); [|exact Hch]. intros y Hy. apply Hl in Hy as [Hy Hc].
    apply (Hag _ y (obj_place I y _ _ Hy Hc)). rewrite Hy. intros [= ->]. exact (stack_class _ _ _ _ _ Hs' eq_refl).
Qed.

Definition b_write s (a : Z) (l : list Z) : slab PS := b_with_arena s (with_mem (b_arena s) (write (a_mem (b_arena s)) a l)).

Lemma write_block_ok s W F H z n a l : slab_inv s W F H -> block s W z n -> z <= a -> a + Z.of_nat (length l) <= z + n -> bytes l -> slab_inv (b_write s a l) W F H /\ bframe [z] [z] s W H (b_write s a l) W H.
Proof.
  intros [I T] Hb Ha Hn Hl. assert (Hout : forall b k, z + n <= b \/ b + k <= z -> agree (a_mem (b_arena s)) (a_mem (b_arena (b_write s a l))) b k) by (intros b k Hbk; apply agree_write; lia). split; [split; [|exact T]|].
  - apply objects_mem; [exact I|apply arena_write; [apply I|exact Hl]|]. intros i y Ho Hy. apply Hout. assert (Hyz : y <> z) by (intros ->; exact (not_block s W F H z (W !! z) i n I Ho eq_refl Hy Hb)). pose proof (obj_facts I i y Ho) as (_ & _ & _ & _ & _ & _ & Hs & _). destruct (block_apart I i y z n Ho Hb Hyz); lia.
  - split.
    + intros z' n' Hz' Hne. rewrite list_elem_of_singleton in Hne. split; [exact Hz'|]. apply Hout. destruct (blocks_apart s W F H z n z' n' I Hb Hz'); [congruence|lia|lia].
    + intros z' n' Hz'. destruct (decide (z' = z)) as [->|Hne]; [right; left|]. left. split; [exact Hz'|]. now rewrite list_elem_of_singleton.
    + intros q k Hq Hs. split; [exact Hq|]. split; [exact Hs|]. apply Hout. destruct (block_inside s W F H z n I Hb) as (p & j & Hp & B1 & B2 & [x Hx] & B3). destruct (ps_apart _ _ p j q k (ar_src _ _ (ob_arena _ _ _ _ I)) Hp Hq); [congruence|lia|lia].
    + auto.
Qed.

(** * Sizes *)

Lemma SLAB_GetSize_ok s W F H z n ero : slab_inv s W F H -> block s W z n -> SLAB_GetSize s z ero = Ok n.
Proof.
  intros [I T] Hb. destruct (block_inside s W F H z n I Hb) as (q & k & Hq & B1 & B2 & _ & B3). destruct (ps_range _ _ _ _ (ar_src _ _ (ob_arena _ _ _ _ I)) Hq) as (R1 & R2 & R3 & R4). assert (4096 <= q) by dlia.
  unfold SLAB_GetSize. rewrite (proj2 (Z.eqb_neq z 0)), (proj2 (Z.ltb_ge z 4096)) by lia. cbn [orb]. destruct Hb as [(Hw & x & Hx & ->)|(p & x & Hx & Hm & -> & ->)].
  - destruct (ob_where _ _ _ _ I z Live Hw) as (x' & Hx' & Hm & Hg). rewrite Hx in Hx'. injection Hx' as <-. destruct (pg_small I _ x Hx Hm) as (_ & Hi & _). rewrite (page_at_ok _ _ _ Hx). cbn [bind]. rewrite Hm. change (SLAB_PAGE_MAGIC =? LARGE_PAGE_MAGIC) with false. rewrite Z.eqb_refl.
    destruct (class_get s W F H _ I Hi) as (c & _ & Ec & Esz). rewrite Ec. cbn [bind]. now rewrite Esz.
  - destruct (ob_page _ _ _ _ I p x Hx) as [(_ & _ & HH)|(_ & fl & _ & K)]; [|pose proof (po_magic _ _ _ _ _ _ K); rewrite Hm in *; discriminate]. destruct (ps_range _ _ _ _ (ar_src _ _ (ob_arena _ _ _ _ I)) HH) as (Q1 & Q2 & Q3 & Q4).
    rewrite (slab_page_in p) by lia. rewrite (page_at_ok _ _ _ Hx). cbn [bind]. rewrite Hm, Z.eqb_refl. unfold sizeof_slab_page. change PAGE_SIZE with 4096. rewrite u64_small by lia. reflexivity.
Qed.

(** * Errors *)

(** An object that is freed twice on the same CPU is found in the magazine. *)
Lemma SLAB_Free_twice s W F H z id : slab_inv s W F H -> rested s -> is_Some (b_cpus s !! id) -> W !! z = Some (InMag id) -> SLAB_Free s z (Some id) = slab_fatal.
Proof.
  intros I R Hcpu Hw. destruct (obj_where (proj1 I) z _ Hw) as [i Ho]. pose proof (obj_facts (proj1 I) i z Ho) as (Hi & _ & _ & _ & _ & Hz & _). pose proof Ho as (x & Hx & [Hm Hci] & Hg). unfold SLAB_Free. rewrite (proj2 (Z.eqb_neq z 0)) by lia. rewrite (page_at_ok _ _ _ Hx). cbn [bind].
  rewrite Hm. change (SLAB_PAGE_MAGIC =? LARGE_PAGE_MAGIC) with false. rewrite Z.eqb_refl. cbn [negb]. rewrite Hci. destruct (proj1 (wp_ex _ _) (upd_class_quiet s W F H i (fun c => sc_with_frees (u64 (sc_frees c + 1)) c) I Hi ltac:(intros c; auto))) as (s1 & E1 & I1 & _ & Ec1 & EP1 & EA1 & _). rewrite E1. cbn [bind].
  destruct (class_get s1 W F H i (proj1 I1) Hi) as (c & Hc & Ec & Esz). rewrite Ec. cbn [bind]. rewrite Esz. fold (class_hdr i). apply elem_of_sgrid in Hg as (j & Hj & Ez). pose proof (class_geom i Hi) as (G1 & _). assert (Eoff : z - slab_page_of z = class_hdr i + j * class_size i) by lia. rewrite Eoff.
  rewrite (proj2 (Z.ltb_ge _ _)) by nia. replace (class_hdr i + j * class_size i - class_hdr i) with (j * class_size i) by lia. rewrite Z.mod_mul by lia. cbn [orb negb Z.eqb free_small].
  destruct (mag_get_ok s1 W F H id i (proj1 I1) ltac:(now rewrite Ec1) Hi) as (h & n & Eg & Hm1). rewrite Eg. cbn [bind]. destruct (mag_facts s1 W F H id i h n (proj1 I1) Hm1) as (l & Hch & En & _ & _ & Hl). rewrite (in_magazine_ok s1 z _ h l Hch). cbn [bind]. rewrite bool_decide_true; [reflexivity|].
  assert (Hn : n <= SLAB_BATCH * 2) by (apply (R id (Z.to_nat i) h n); unfold mag_is, stack_at in *; now rewrite <- Ec1). unfold SLAB_BATCH in *. rewrite take_ge by lia. apply Hl. split; [exact Hw|]. rewrite Z2Nat.id by lia. exists x. rewrite EP1. split; [exact Hx|now split].
Qed.

(** * Moving a block *)

Lemma b_copy_ok s W F H z n z' n' : slab_inv s W F H -> block s W z n -> block s W z' n' -> z <> z' -> n <= n' ->
  exists l, b_copy s z' z n = Ok (b_write s z' l) /\ Z.of_nat (length l) = n /\ bytes l /\ holds (a_mem (b_arena s)) z l.
Proof.
  intros [I T] Hz Hz' Hne Hn. pose proof (block_mapped _ _ _ _ _ _ I Hz) as M. pose proof (block_mapped _ _ _ _ _ _ I Hz') as M'. destruct (block_inside s W F H z n I Hz) as (_ & _ & _ & _ & _ & _ & Hpos).
  destruct (load_bytes_ok (a_mem (b_arena s)) z (Z.to_nat n) (ar_wf _ _ (ob_arena _ _ _ _ I)) ltac:(intros j Hj; apply M; lia)) as (l & _ & Hlen & Hb & Hh). exists l. split; [|split; [lia|auto]].
  unfold b_copy. replace n with (Z.of_nat (length l)) by lia. unfold memcpy. rewrite memcpy_ok; [reflexivity|apply I|exact Hh| | |].
  - intros x Hx. apply M'. lia.
  - destruct (blocks_apart s W F H z n z' n' I Hz Hz' Hne); [right; lia|left; lia].
  - lia.
Qed.

(** The first [n] bytes at [z] are at [z'] afterwards. *)
Definition copied (m : mem) (z : Z) (m' : mem) (z' n : Z) : Prop := forall k, 0 <= k < n -> m' !! (z' + k) = m !! (z + k).

(** The answer of [SLAB_Realloc] for the block [z] of [n] bytes: no memory, the
    block itself, or a block with its contents in its place. *)
Definition resized (z n size : Z) s W H (x : Z * slab PS) : Prop :=
  let '(z', s') := x in rested s' /\ cpus_same s s' /\
  ((z' = 0 /\ n < size /\ (exists W' F' H', slab_inv s' W' F' H' /\ bframe [] [] s W H s' W' H') /\ (2 ^ 64 <= size + 4143 \/ exhausted s (pages_for size))) \/ (z' = z /\ size <= n /\ s' = s) \/
   (z' <> 0 /\ n < size /\ exists n' W' F' H', size <= n' /\ slab_inv s' W' F' H' /\ bframe [z] [z'] s W H s' W' H' /\ block s' W' z' n' /\ (forall k, ~ block s W z' k) /\ copied (a_mem (b_arena s)) z (a_mem (b_arena s')) z' n)).

Lemma SLAB_Realloc_ok s W F H z n size cpu : slab_inv s W F H -> rested s -> cpu_ready s cpu -> block s W z n -> 1 <= size < 2 ^ 64 -> wp (SLAB_Realloc s z size cpu) (resized z n size s W H).
Proof.
  intros I R Hcpu Hb Hs. destruct (block_inside s W F H z n (proj1 I) Hb) as (q & k & Hq & B1 & B2 & _ & B3). destruct (ps_range _ _ _ _ (ar_src _ _ (ob_arena _ _ _ _ (proj1 I))) Hq) as (R1 & _). unfold SLAB_Realloc. rewrite (proj2 (Z.eqb_neq z 0)), (proj2 (Z.eqb_neq size 0)) by lia.
  rewrite (SLAB_GetSize_ok s W F H z n true I Hb). cbn [bind]. destruct (Z.leb_spec size n) as [Hle|Hgt]; [cbn [wp]; split; [exact R|]; split; [now apply cpus_same_eq|auto]|]. apply wp_bind. eapply wp_mono; [apply (SLAB_Alloc_ok s W F H size cpu I R Hcpu ltac:(lia))|].
  intros [z' s1] (Ra & Ca & [(-> & U & Hwhy)|(Hz' & n' & Hn' & W1 & F1 & H1 & I1 & Fr1 & Hb1 & Hnb)]); [cbn [Z.eqb wp]; split; [exact Ra|]; split; [exact Ca|]; left; auto|]. rewrite (proj2 (Z.eqb_neq _ _) Hz'). rewrite (proj2 (Z.ltb_ge _ _)) by lia.
  destruct (bf_live _ _ _ _ _ _ _ _ Fr1 z n Hb ltac:(apply not_elem_of_nil)) as [Hbz Ag1]. assert (Hne : z <> z') by (intros ->; exact (Hnb n Hb)). destruct (b_copy_ok s1 W1 F1 H1 z n z' n' I1 Hbz Hb1 Hne ltac:(lia)) as (l & Ec & Hlen & Hby & Hh). rewrite Ec. cbn [bind].
  destruct (write_block_ok s1 W1 F1 H1 z' n' z' l I1 Hb1 ltac:(lia) ltac:(lia) Hby) as [I2 Fr2]. set (s2 := b_write s1 z' l) in *. assert (Hbz2 : block s2 W1 z n) by exact Hbz. assert (Hb2 : block s2 W1 z' n') by exact Hb1. apply wp_bind.
  eapply wp_mono; [apply (SLAB_Free_ok s2 W1 F1 H1 z n cpu I2 Ra); [|exact Hbz2]|]. { unfold cpu_ready in *. destruct cpu; [|exact Hcpu]. apply (Ca z0). exact Hcpu. }
  intros s3 (R3 & C3 & W3 & F3 & H3 & I3 & Fr3). cbn [wp]. split; [exact R3|]. split; [intros j; rewrite (C3 j); apply Ca|]. right; right. split; [exact Hz'|]. split; [lia|]. exists n', W3, F3, H3. split; [exact Hn'|]. split; [exact I3|]. split; [|split; [|split; [exact Hnb|]]].
  - assert (Fr12 : bframe [] [z'] s W H s2 W1 H1) by (apply (bframe_trans [] [z'] [z'] [z'] [] [z'] _ _ _ _ _ _ _ _ _ Fr1 Fr2); [|auto|auto]; intros y j Hy; split; [intros _; split; [apply not_elem_of_nil|rewrite list_elem_of_singleton; intros ->; exact (Hnb j Hy)]|intros _; apply not_elem_of_nil]).
    apply (bframe_trans [] [z'] [z] [] [z] [z'] _ _ _ _ _ _ _ _ _ Fr12 Fr3); [|auto|intros y Hy; now apply not_elem_of_nil in Hy]. intros y j _. split; [intros Hy; split; [apply not_elem_of_nil|exact Hy]|tauto].
  - apply (bf_live _ _ _ _ _ _ _ _ Fr3 z' n' Hb2). rewrite list_elem_of_singleton. congruence.
  - intros j Hj. destruct (bf_live _ _ _ _ _ _ _ _ Fr3 z' n' Hb2) as [_ Ag3]; [rewrite list_elem_of_singleton; congruence|]. rewrite (Ag3 (z' + j)) by lia. cbn [s2 b_write b_with_arena b_arena with_mem a_mem]. rewrite write_lookup, decide_True by lia.
    replace (Z.to_nat (z' + j - z')) with (Z.to_nat j) by lia. destruct (lookup_lt_is_Some_2 l (Z.to_nat j)) as [b Hbb]; [lia|]. rewrite Hbb. rewrite <- (Ag1 (z + j)) by lia. symmetry. pose proof (Hh (Z.to_nat j) b Hbb) as E. rewrite Z2Nat.id in E by lia. exact E.
Qed.

(** * A CPU that stops *)

Lemma drain_class_ok s W F H id i : slab_inv s W F H -> rested s -> is_Some (b_cpus s !! id) -> 0 <= i < 7 ->
  wp (drain_class s id i) (fun s' => rested s' /\ cpus_same s s' /\ stepped [] [] s W H s' H /\ mags_but id i s s' /\ mag_is s' id i 0 0).
Proof.
  intros I R Hcpu Hi. unfold drain_class. destruct (mag_get_ok s W F H id i (proj1 I) Hcpu Hi) as (h & n & Eg & Hm). rewrite Eg. cbn [bind]. apply wp_bind.
  set (Inv := fun '(s1, bt) => exists W1 F1 h1 n1, slab_inv s1 W1 F1 H /\ bframe [] bt s W H s1 W1 H /\ NoDup bt /\ mags_but id i s s1 /\ mag_is s1 id i h1 n1 /\ 0 <= n1 <= n /\ (forall y, y ∈ bt -> block s1 W1 y (class_size i) /\ forall j, ~ block s W y j)).
  eapply wp_mono; [apply (wp_loop_on (fun (k : Z) x => Inv x /\ exists h1, mag_is (fst x) id i h1 k) (fun k => Z.to_nat k) (fun x => Inv x /\ mag_is (fst x) id i 0 0)) with (g := n)|].
  - intros k [s1 bt] ((W1 & F1 & h1 & n1 & I1 & B1 & Hnd & M1 & Hm1 & Hn1 & Hbt) & h1' & Hk). cbn [fst] in Hk. unfold mag_is in Hm1, Hk. rewrite Hm1 in Hk. injection Hk as <- <-. fold (mag_is s1 id i h1 n1) in Hm1.
    destruct (mag_cpu _ _ _ _ _ Hm1) as [qq Hqq]. destruct (mag_get_ok s1 W1 F1 H id i (proj1 I1) (mk_is_Some _ _ Hqq) Hi) as (h0 & n0 & Eg1 & Hm0). unfold mag_is in Hm1, Hm0. rewrite Hm1 in Hm0. injection Hm0 as <- <-. fold (mag_is s1 id i h1 n1) in Hm1. rewrite Eg1. cbn [bind].
    destruct (mag_facts s1 W1 F1 H id i h1 n1 (proj1 I1) Hm1) as (l0 & _ & En & _ & Hz & _). destruct (Z.ltb_spec 0 n1) as [Hp|Hp].
    2: { cbn [wp]. assert (n1 = 0) by lia. split; [exists W1, F1, h1, n1; auto 10|]. cbn [fst]. pose proof Hm1 as Hm1'. replace h1 with 0 in Hm1' by (symmetry; apply Hz; lia). now replace n1 with 0 in Hm1' by lia. }
    destruct (mag_pop_ok s1 W1 F1 H id i h1 n1 I1 Hi Hm1 ltac:(lia)) as (v & s2 & E1 & E2 & I2 & B2 & Hm2 & M2 & _ & Hb2 & Hnb2). rewrite E1. cbn [bind]. rewrite E2. cbn [bind].
    assert (Hh : h1 ∉ bt) by (intros Hy; destruct (Hbt h1 Hy) as [Hbl _]; exact (Hnb2 _ Hbl)). assert (Hbt2 : forall y, y ∈ bt ++ [h1] -> block s2 (<[h1 := Live]> W1) y (class_size i) /\ forall j, ~ block s W y j).
    { intros y Hy. apply elem_of_app in Hy as [Hy|Hy%list_elem_of_singleton]; [destruct (Hbt y Hy) as [Hbl Hnb]; split; [now apply (bf_live _ _ _ _ _ _ _ _ B2), not_elem_of_nil|exact Hnb]|]. subst y. split; [exact Hb2|]. intros j Hj. apply (Hnb2 j). now apply (bf_live _ _ _ _ _ _ _ _ B1), not_elem_of_nil. }
    assert (Hnd2 : NoDup (bt ++ [h1])) by (apply NoDup_app; split; [exact Hnd|]; split; [intros y Hy Hy'; apply list_elem_of_singleton in Hy' as ->; contradiction|apply NoDup_singleton]).
    assert (B12 : bframe [] (bt ++ [h1]) s W H s2 (<[h1 := Live]> W1) H) by (apply (bframe_trans [] bt [] [h1] [] (bt ++ [h1]) _ _ _ _ _ _ _ _ _ B1 B2); [tauto|intros y Hy; right; apply elem_of_app; auto|intros y Hy; apply elem_of_app; auto]).
    pose proof (mags_but_trans _ _ _ _ _ M1 M2) as M12. destruct (Z.eqb_spec (Z.of_nat (length (bt ++ [h1]))) SLAB_BATCH) as [Efull|Efull].
    + apply wp_bind. eapply wp_mono; [apply (slab_flush_ok s2 _ F1 H i _ I2 Hi Hnd2); intros y Hy; now apply Hbt2|]. intros s3 ((W3 & F3 & I3 & B3) & E3). cbn [wp]. exists (n1 - 1). split; [|lia]. assert (Hm3 : mag_is s3 id i v (n1 - 1)) by exact (mag_is_eq s2 s3 id i v _ E3 Hm2). split; [|exists v; exact Hm3].
      exists W3, F3, v, (n1 - 1). split; [exact I3|]. split; [apply (frame_cancels _ _ _ _ _ _ _ _ _ _ B12 B3); intros y j Hy; now apply Hbt2|]. split; [constructor|]. split; [exact (mags_but_trans _ _ _ _ _ M12 (mags_but_eq id i _ _ E3))|]. split; [exact Hm3|]. split; [lia|]. intros y Hy. now apply not_elem_of_nil in Hy.
    + cbn [wp]. exists (n1 - 1). split; [|lia]. split; [|exists v; exact Hm2]. exists (<[h1 := Live]> W1), F1, v, (n1 - 1). split_and!; auto; lia.
  - split; [|exists h; exact Hm]. destruct (mag_facts s W F H id i h n (proj1 I) Hm) as (l0 & _ & En & _). exists W, F, h, n. split; [exact I|]. split; [apply bframe_refl|]. split; [constructor|]. split; [now apply mags_but_eq|]. split; [exact Hm|]. split; [lia|]. intros y Hy. now apply not_elem_of_nil in Hy.
  - lia.
  - intros [s1 bt] ((W1 & F1 & h1 & n1 & I1 & B1 & Hnd & M1 & Hm1 & Hn1 & Hbt) & Hm0). cbn [fst] in Hm0. eapply wp_mono; [apply (slab_flush_ok s1 W1 F1 H i bt I1 Hi Hnd); intros y Hy; now apply Hbt|]. intros s2 ((W2 & F2 & I2 & B2) & E2). pose proof (mags_but_trans _ _ _ _ _ M1 (mags_but_eq id i _ _ E2)) as M. pose proof (mag_is_eq s1 s2 id i 0 0 E2 Hm0) as Hm2.
    split; [apply (rested_mag s s2 id i 0 0 R M Hm2); unfold SLAB_BATCH; lia|]. split; [exact (mb_cpus _ _ _ _ M)|]. split; [exists W2, F2; split; [exact I2|]; apply (frame_cancels _ _ _ _ _ _ _ _ _ _ B1 B2); intros y j Hy; now apply Hbt|]. auto.
Qed.

(** All of its objects are back with the others. *)
Lemma DrainCpuCache_ok s W F H id : slab_inv s W F H -> rested s -> is_Some (b_cpus s !! id) ->
  wp (DrainCpuCache s (Some id)) (fun s' => rested s' /\ cpus_same s s' /\ stepped [] [] s W H s' H /\ forall i, 0 <= i < 7 -> mag_is s' id i 0 0).
Proof.
  intros I R Hcpu. unfold DrainCpuCache, MAX_SLAB_ORDER. eapply wp_mono; [apply (wp_for_up (fun k s' => rested s' /\ cpus_same s s' /\ stepped [] [] s W H s' H /\ forall i, 0 <= i < k -> mag_is s' id i 0 0))|].
  - intros k s1 Hk (R1 & C1 & (W1 & F1 & I1 & B1) & Hm). eapply wp_mono; [apply (drain_class_ok s1 W1 F1 H id k I1 R1 ltac:(now apply C1) ltac:(lia))|]. intros s2 (R2 & C2 & (W2 & F2 & I2 & B2) & M2 & Hm2). split; [exact R2|]. split; [intros j; rewrite (C2 j); apply C1|].
    split; [exists W2, F2; split; [exact I2|exact (frame_after _ _ _ _ _ _ _ _ _ _ _ B1 B2)]|]. intros i Hi. destruct (decide (i = k)) as [->|Hne]; [exact Hm2|]. unfold mag_is. rewrite (mb_same _ _ _ _ M2); [apply Hm; lia|]. intros [= E]. lia.
  - split; [exact R|]. split; [now apply cpus_same_eq|]. split; [exists W, F; split; [exact I|apply bframe_refl]|]. intros i Hi. lia.
  - intros s' (R' & C' & St & Hm). split; [exact R'|]. split; [exact C'|]. split; [exact St|]. intros i Hi. apply Hm. lia.
Qed.
End Calls.
