(* ===== verification/HeapSupply.v ===== *)
(** What the kernel heaps ask of the supply of pages: an allocation from a cache,
    and the creation of a cache, ask for at most one page, and nothing is given
    back meanwhile.  So a NULL can be traced to an answer of the supply. *)
From stdpp Require Import base gmap list fin_maps relations.
From Stdlib Require Import ZArith Lia.
From S2P Require Import Prelude Words Memory PMM PMMBits PMMInit HeapMem Slub SlubInv SlubAlloc SlubFree Slab SlabInv SlabPage SlabAlloc SlabFree.

Open Scope Z_scope.
Open Scope c_scope.

(** What holds of the result, if there is one. *)
Definition keeps {A} (r : res A) (P : A -> Prop) : Prop := forall x, r = Ok x -> P x.

Lemma keeps_ok {A} (x : A) (P : A -> Prop) : P x -> keeps (Ok x) P.
Proof. intros H y [= <-]. exact H. Qed.

Lemma keeps_bind {A B} (r : res A) (f : A -> res B) (P : B -> Prop) : keeps r (fun x => keeps (f x) P) -> keeps (bind r f) P.
Proof. intros H y E. destruct r as [x| |]; [|discriminate..]. exact (H x eq_refl y E). Qed.

Lemma keeps_mono {A} (r : res A) (P Q : A -> Prop) : keeps r P -> (forall x, P x -> Q x) -> keeps r Q.
Proof. intros H HQ x E. auto. Qed.

Lemma keeps_any {A} (r : res A) : keeps r (fun _ => True).
Proof. intros x _. exact I. Qed.

Lemma wp_keeps {A} (r : res A) (P Q : A -> Prop) : wp r P -> keeps r Q -> wp r (fun x => P x /\ Q x).
Proof. intros H K. destruct r as [x| |]; [|contradiction H..]. split; [exact H|exact (K x eq_refl)]. Qed.

Create HintDb supply discriminated.

(** Steps through a definition: calls that a hint covers keep what the hint says,
    and of the others nothing is needed. *)
Ltac walk :=
  repeat match goal with
  | |- keeps (Ok _) _ => apply keeps_ok
  | |- keeps Fault _ => let E := fresh in intros ? E; discriminate E
  | |- keeps OutOfFuel _ => let E := fresh in intros ? E; discriminate E
  | |- keeps slab_fatal _ => let E := fresh in intros ? E; discriminate E
  | |- keeps (bind _ _) _ => apply keeps_bind; first [eapply keeps_mono; [solve [eauto with supply nocore]|] | eapply keeps_mono; [apply keeps_any|]]; intros
  | |- keeps (if ?b then _ else _) _ => destruct b
  | |- keeps (match ?x with _ => _ end) _ => destruct x
  | |- keeps (let _ := _ in _) _ => cbv zeta
  | H : let '(_, _) := ?x in _ |- _ => destruct x
  | x : (_ * _)%type |- _ => destruct x
  end.

Section Supply.
Context {PS : Type} `{PSI : !PageSource PS}.
Implicit Types (st : slub PS) (s : slab PS) (v : PS).

(** One page is asked for. *)
Definition page_request v v' : Prop := exists a, ps_alloc v 1 = Ok (a, v').

(** * Caches *)

Definition slub_vm st : PS := a_vm (s_arena st).
Definition slub_calm st st' : Prop := slub_vm st' = slub_vm st.

Lemma upd_slab_calm f p st : keeps (upd_slab f p st) (slub_calm st).
Proof. unfold upd_slab, slab_at. walk; reflexivity. Qed.

Lemma upd_cache_calm f c st : keeps (upd_cache f c st) (slub_calm st).
Proof. unfold upd_cache, cache_at. walk; reflexivity. Qed.

Lemma st_link_calm (A : arena PS) x w : keeps (st_link A x w) (fun A' => a_vm A' = a_vm A).
Proof. unfold st_link. walk. reflexivity. Qed.

#[local] Hint Resolve upd_slab_calm upd_cache_calm st_link_calm : supply.

Ltac calm := unfold slub_calm, slub_vm in *; cbn in *; congruence.

Lemma stack_pop_calm st p : keeps (slub_stack_pop st p) (fun '(_, st') => slub_calm st st').
Proof. unfold slub_stack_pop. walk; calm. Qed.

Lemma set_active_calm id w c st : keeps (set_active id w c st) (slub_calm st).
Proof. unfold set_active. apply keeps_bind. eapply keeps_mono; [apply keeps_any|]. intros kc _. walk. eapply keeps_mono; [apply upd_cache_calm|]. auto. Qed.

#[local] Hint Resolve stack_pop_calm set_active_calm : supply.

Lemma detach_old_calm st c cpu old : keeps (detach_old st c cpu old) (slub_calm st).
Proof.
  unfold detach_old. apply keeps_bind. apply (keeps_mono _ (slub_calm st)).
  - destruct (cpu_slot cpu); walk; try reflexivity. eapply keeps_mono; [apply set_active_calm|auto].
  - intros s1 C1. eapply keeps_mono; [apply upd_slab_calm|]. intros; calm.
Qed.

Lemma harvest_calm st p : keeps (harvest st p) (slub_calm st).
Proof.
  unfold harvest. apply keeps_bind. eapply keeps_mono; [apply keeps_any|]. intros sl _. apply keeps_bind. eapply keeps_mono; [apply upd_slab_calm|]. intros s1 C1. cbv zeta. destruct (su_foreign sl =? 0); [apply keeps_ok; calm|].
  apply keeps_bind. eapply keeps_mono; [apply keeps_any|]. intros tail _. apply keeps_bind. eapply keeps_mono; [apply st_link_calm|]. intros A EA. eapply keeps_mono; [apply upd_slab_calm|]. intros; calm.
Qed.

Lemma list_partial_calm st c p : keeps (list_partial st c p) (slub_calm st).
Proof. unfold list_partial. walk. eapply keeps_mono; [apply upd_cache_calm|]. intros; calm. Qed.

Lemma carve_calm c (A : arena PS) base : keeps (carve c A base) (fun '(A', _, _) => a_vm A' = a_vm A).
Proof.
  unfold carve. generalize (Z.to_nat PAGE_SIZE) (kc_area_off c) 0 0. intros fuel off head n. assert (G : forall A1 off head n, a_vm A1 = a_vm A -> keeps (loop fuel (fun '(A, off, head, n) => if u32 (off + kc_obj_size c) <=? PAGE_SIZE then let obj := base + off in let* A := st_link A obj head in Ok (inl (A, u32 (off + kc_obj_size c), obj, u32 (n + 1))) else Ok (inr (A, head, n))) (A1, off, head, n)) (fun '(A', _, _) => a_vm A' = a_vm A)); [|now apply G].
  clear. induction fuel as [|fuel IH]; intros A1 off head n E; [intros x Hx; discriminate|]. cbn [loop]. destruct (_ <=? PAGE_SIZE); [|now apply keeps_ok]. cbv zeta. pose proof (st_link_calm A1 (base + off) head) as Hl. destruct (st_link A1 (base + off) head) as [A2| |]; [|intros x Hx; discriminate..]. cbn [bind]. apply IH. rewrite <- E. exact (Hl A2 eq_refl).
Qed.

#[local] Hint Resolve detach_old_calm harvest_calm list_partial_calm carve_calm : supply.

(** At most one page is asked for. *)
Definition asked (k : nat) v v' : Prop := bsteps page_request k v v'.

Lemma asked_refl k v v' : v' = v -> asked k v v'.
Proof. intros ->. apply bsteps_refl. Qed.

Lemma page_alloc_asked (A : arena PS) : keeps (page_alloc A 1) (fun '(_, A') => asked 1 (a_vm A) (a_vm A')).
Proof.
  unfold page_alloc. cbn [Z.eqb]. apply keeps_bind. intros [p vm] E. destruct (p =? 0); apply keeps_ok; cbn; apply bsteps_once; exists p; exact E.
Qed.

Lemma new_slab_asked st c : keeps (slub_new_slab st c) (fun '(_, st') => asked 1 (slub_vm st) (slub_vm st')).
Proof.
  unfold slub_new_slab. apply keeps_bind. eapply keeps_mono; [apply keeps_any|]. intros kc _. apply keeps_bind. eapply keeps_mono; [apply page_alloc_asked|]. intros [p A] HA. destruct (p =? 0); [now apply keeps_ok|]. apply keeps_bind. eapply keeps_mono; [apply carve_calm|]. intros [[A' head] n] EA. apply keeps_ok. unfold slub_vm. cbn. now rewrite EA.
Qed.

Lemma take_slab_asked st c : keeps (take_slab st c) (fun '(_, st') => asked 1 (slub_vm st) (slub_vm st')).
Proof.
  unfold take_slab. apply keeps_bind. eapply keeps_mono; [apply keeps_any|]. intros kc _. cbv zeta. destruct (kc_partial kc =? 0); [apply new_slab_asked|]. walk. apply asked_refl. calm.
Qed.

Lemma refill_asked st c cpu : keeps (refill st c cpu) (fun '(_, st') => asked 1 (slub_vm st) (slub_vm st')).
Proof.
  unfold refill. apply keeps_bind. eapply keeps_mono; [apply take_slab_asked|]. intros [p s1] H1. destruct (p =? 0); [now apply keeps_ok|]. apply keeps_bind. apply (keeps_mono _ (slub_calm s1)).
  { destruct (cpu_slot cpu); [apply keeps_bind; eapply keeps_mono; [apply set_active_calm|]; intros s2 C2|]; (eapply keeps_mono; [apply upd_slab_calm|]; intros; calm). }
  intros s2 C2. apply keeps_bind. eapply keeps_mono; [apply stack_pop_calm|]. intros [o s3] C3. apply keeps_bind. apply (keeps_mono _ (slub_calm s3)).
  { destruct (cpu_slot cpu); [apply keeps_ok; calm|]. walk; [calm|]. apply list_partial_calm. }
  intros s4 C4. apply keeps_ok. unfold slub_calm in *. now rewrite C4, C3, C2.
Qed.

Lemma slow_alloc_asked st c cpu old : keeps (slow_alloc st c cpu old) (fun '(_, st') => asked 1 (slub_vm st) (slub_vm st')).
Proof.
  unfold slow_alloc. destruct (old =? 0); [apply refill_asked|]. apply keeps_bind. eapply keeps_mono; [apply stack_pop_calm|]. intros [r s1] C1. unfold slub_calm in *. destruct (negb (r =? 0)); [apply keeps_ok, asked_refl, C1|].
  apply keeps_bind. eapply keeps_mono; [apply detach_old_calm|]. intros s2 C2. unfold slub_calm in *. rewrite <- C1, <- C2. apply refill_asked.
Qed.

Lemma slub_Alloc_asked st c cpu : keeps (slub_Alloc st c cpu) (fun '(_, st') => asked 1 (slub_vm st) (slub_vm st')).
Proof.
  unfold slub_Alloc. destruct (c =? 0); [now apply keeps_ok, asked_refl|]. apply keeps_bind. eapply keeps_mono; [apply keeps_any|]. intros p _. apply keeps_bind. apply (keeps_mono _ (fun '(_, s1) => slub_calm st s1)).
  { destruct (p =? 0); [apply keeps_ok; calm|apply stack_pop_calm]. }
  intros [o1 s1] C1. apply keeps_bind. apply (keeps_mono _ (fun '(_, s2) => slub_calm st s2)).
  { destruct (_ && _); [|now apply keeps_ok]. apply keeps_bind. eapply keeps_mono; [apply harvest_calm|]. intros s2 C2. eapply keeps_mono; [apply stack_pop_calm|]. intros [o s3] C3. calm. }
  intros [o2 s2] C2. apply keeps_bind. apply (keeps_mono _ (fun '(_, s3) => asked 1 (slub_vm st) (slub_vm s3))).
  { unfold slub_calm in *. rewrite <- C2. destruct (o2 =? 0); [apply slow_alloc_asked|now apply keeps_ok, asked_refl]. }
  intros [o3 s3] C3. destruct (o3 =? 0); [now apply keeps_ok|]. apply keeps_bind. unfold count_alloc. apply keeps_bind. eapply keeps_mono; [apply upd_slab_calm|]. intros s4 C4. eapply keeps_mono; [apply upd_cache_calm|]. intros s5 C5. apply keeps_ok. unfold slub_calm in *. now rewrite C5, C4.
Qed.

(** * Blocks with pages of their own *)

Definition slab_vm s : PS := a_vm (b_arena s).

(** The descriptor of a cache takes one page. *)
Lemma descriptor_asked s cpu : keeps (SLAB_Alloc s sizeof_kmem_cache cpu) (fun '(_, s') => asked 1 (slab_vm s) (slab_vm s')).
Proof.
  change (SLAB_Alloc s sizeof_kmem_cache cpu) with (alloc_large s 1088). unfold alloc_large. cbn [Z.leb]. change (2 ^ 64 <=? 1088 + sizeof_slab_page) with false. cbn match. change (div_round_up (1088 + sizeof_slab_page) PAGE_SIZE) with 1. apply keeps_bind. eapply keeps_mono; [apply page_alloc_asked|]. intros [p A] HA. destruct (p =? 0); now apply keeps_ok.
Qed.

(** * Refusals *)

(** Within [k] further requests for a page the supply comes to refuse the pages of
    an allocation of [size] bytes. *)
Definition denied (k : nat) (size : Z) v : Prop := exists v1 v2, asked k v v1 /\ ps_alloc v1 (pages_for size) = Ok (0, v2).

Lemma denied_now k size s : exhausted s (pages_for size) -> denied k size (slab_vm s).
Proof. intros [v2 E]. exists (slab_vm s), v2. split; [now apply asked_refl|exact E]. Qed.

Lemma denied_after j k size v v' : asked j v v' -> denied k size v' -> denied (j + k) size v.
Proof. intros A (v1 & v2 & B & E). exists v1, v2. split; [exact (bsteps_trans _ _ _ _ _ A B)|exact E]. Qed.

Lemma denied_le j k size v : (j <= k)%nat -> denied j size v -> denied k size v.
Proof. intros Hk (v1 & v2 & A & E). exists v1, v2. split; [exact (bsteps_weaken _ _ _ _ Hk A)|exact E]. Qed.
End Supply.
