(* ===== verification/Kheap.v ===== *)
(** The kernel heap as its callers see it: [kmem_cache_create] and its companions
    and the kmalloc family of [src/kernel/src/mem/slub.cpp] and [heap.cpp], for
    x86-64, on top of the object caches and the size-class heap.

    Both heaps draw on the same memory.  The descriptor of a cache is a block of
    the size-class heap; its fields are a record in [k_caches]. *)
From stdpp Require Import base gmap list fin_maps.
From Stdlib Require Import ZArith Lia.
From S2P Require Import Prelude Words Memory PMM HeapMem Slub Slab.

Open Scope Z_scope.
Open Scope c_scope.

(** The bytes allocated by each caller, in 64 slots. *)
Definition KM_TRACK_SLOTS : Z := 64.
Record km_stats : Type := KmStats { g_km_bytes : list Z; g_km_calls : list Z; g_km_ra : list Z; g_km_total : Z }.

Record kheap (PS : Type) : Type := Heap {
  k_slab : slab PS;
  k_slabs : gmap Z slub_slab_t;
  k_caches : gmap Z kmem_cache;
  k_kmalloc : list Z;               (* g_kmalloc_caches[MAX_SLAB_ORDER] *)
  k_on : bool;                      (* g_kmalloc_slub_on *)
  k_stats : km_stats
}.
Arguments Heap {PS} k_slab k_slabs k_caches k_kmalloc k_on k_stats.
Arguments k_slab {PS} k.
Arguments k_slabs {PS} k.
Arguments k_caches {PS} k.
Arguments k_kmalloc {PS} k.
Arguments k_on {PS} k.
Arguments k_stats {PS} k.

(** [km_track(size, ra)]; the counters wrap. *)
Definition km_track (t : km_stats) (size ra : Z) : res km_stats :=
  let h := Z.land (Z.shiftr ra 4) (KM_TRACK_SLOTS - 1) in
  let* b := get (g_km_bytes t) h in
  let* bytes := put (g_km_bytes t) h (u64 (b + size)) in
  let* n := get (g_km_calls t) h in
  let* calls := put (g_km_calls t) h (u64 (n + 1)) in
  let* ras := put (g_km_ra t) h ra in
  Ok (KmStats bytes calls ras (u64 (g_km_total t + size))).

Section Kheap.
Context {PS : Type} `{!PageSource PS}.
Implicit Types (h : kheap PS).

(** The object caches on the memory of the heap. *)
Definition slub_of h : slub PS := Slub (b_arena (k_slab h)) (k_slabs h) (k_caches h).
Definition with_slub h (st : slub PS) : kheap PS := Heap (b_with_arena (k_slab h) (s_arena st)) (s_slabs st) (s_caches st) (k_kmalloc h) (k_on h) (k_stats h).
Definition with_slab h (s : slab PS) : kheap PS := Heap s (k_slabs h) (k_caches h) (k_kmalloc h) (k_on h) (k_stats h).
Definition with_kmalloc h (l : list Z) (on : bool) : kheap PS := Heap (k_slab h) (k_slabs h) (k_caches h) l on (k_stats h).
Definition tracked h (size ra : Z) : res (kheap PS) :=
  let* t := km_track (k_stats h) size ra in Ok (Heap (k_slab h) (k_slabs h) (k_caches h) (k_kmalloc h) (k_on h) t).

(** [_memset(p, v, n)] and [__memcpy(d, s, n)] *)
Definition h_set h (p v n : Z) : res (kheap PS) :=
  let s := k_slab h in
  let* (m, _) := memset X86_64 (S (Z.to_nat n)) (a_mem (b_arena s)) p v n in
  Ok (with_slab h (b_with_arena s (with_mem (b_arena s) m))).
Definition h_copy h (d src n : Z) : res (kheap PS) :=
  let* s := b_copy (k_slab h) d src n in Ok (with_slab h s).

(** * Caches *)

Definition SLUB_Create h (name obj_size align : Z) (cpu : option Z) : res (Z * kheap PS) :=
  match cache_geometry obj_size align with
  | None => Ok (0, h)
  | Some (os, off) =>
      let* (c, s) := SLAB_Alloc (k_slab h) sizeof_kmem_cache cpu in
      let h := with_slab h s in
      if c =? 0 then Ok (0, h)
      else
        let* h := h_set h c 0 sizeof_kmem_cache in
        let* kc := new_cache name os off in
        Ok (c, Heap (k_slab h) (k_slabs h) (<[c := kc]> (k_caches h)) (k_kmalloc h) (k_on h) (k_stats h))
  end.

Definition SLUB_Destroy h (c : Z) (cpu : option Z) : res (kheap PS) :=
  if c =? 0 then Ok h
  else
    let* st := release_slabs (slub_of h) c in
    let h := with_slub h st in
    let* s := SLAB_Free (k_slab h) c cpu in
    Ok (Heap s (k_slabs h) (delete c (k_caches h)) (k_kmalloc h) (k_on h) (k_stats h)).

Definition SLUB_ObjectSize h (c : Z) : res Z := if c =? 0 then Ok 0 else let* kc := cache_at (slub_of h) c in Ok (kc_obj_size kc).
Definition SLUB_AllocCount h (c : Z) : res Z := if c =? 0 then Ok 0 else let* kc := cache_at (slub_of h) c in Ok (kc_allocs kc).
Definition SLUB_FreeCount h (c : Z) : res Z := if c =? 0 then Ok 0 else let* kc := cache_at (slub_of h) c in Ok (kc_frees kc).

Definition kmem_cache_create h (name sz al : Z) (cpu : option Z) : res (Z * kheap PS) := SLUB_Create h name sz (if al =? 0 then 8 else al) cpu.
Definition kmem_cache_destroy h (c : Z) (cpu : option Z) : res (kheap PS) := SLUB_Destroy h c cpu.
Definition kmem_cache_alloc h (c : Z) (cpu : option Z) : res (Z * kheap PS) := let* (o, st) := slub_Alloc (slub_of h) c cpu in Ok (o, with_slub h st).
Definition kmem_cache_free h (c o : Z) (cpu : option Z) : res (kheap PS) := let* st := slub_Free (slub_of h) c o cpu in Ok (with_slub h st).

(** * The caches of kmalloc *)

(** Rolls back after a cache could not be created. *)
Definition drop_caches h (i : Z) (cpu : option Z) : res (kheap PS) :=
  for_up (Z.to_nat i) 0 (fun j h =>
    let* c := get (k_kmalloc h) j in
    let* h := SLUB_Destroy h c cpu in
    let* l := put (k_kmalloc h) j 0 in
    Ok (with_kmalloc h l (k_on h))) h.

(** [name i]: the address of the name of class [i]. *)
Definition InitKmalloc h (name : Z -> Z) (cpu : option Z) : res (bool * kheap PS) :=
  if k_on h then Ok (true, h)
  else loop (S (Z.to_nat MAX_SLAB_ORDER)) (fun '(h, i, sz) =>
    if i <? MAX_SLAB_ORDER then
      let* (c, h) := SLUB_Create h (name i) sz sz cpu in
      let* l := put (k_kmalloc h) i c in
      let h := with_kmalloc h l (k_on h) in
      if c =? 0 then let* h := drop_caches h i cpu in Ok (inr (false, h))
      else Ok (inl (h, i + 1, u32 (Z.shiftl sz 1)))
    else Ok (inr (true, with_kmalloc h (k_kmalloc h) true))) (h, 0, 16).

Definition slub_kmalloc_class (size : Z) : Z := if size <=? 16 then 0 else u32 (u32 (63 - clz64 (size - 1)) - 3).

Definition Kmalloc h (size : Z) (cpu : option Z) : res (Z * kheap PS) :=
  if negb (k_on h) then Ok (0, h)
  else
    let size := if size =? 0 then 1 else size in
    if MAX_SLAB_SIZE <? size then Ok (0, h)
    else
      let idx := slub_kmalloc_class size in
      if MAX_SLAB_ORDER <=? idx then Ok (0, h)
      else
        let* c := get (k_kmalloc h) idx in
        if c =? 0 then Ok (0, h) else kmem_cache_alloc h c cpu.

(** The first word of a page: the magic number of a header, or data. *)
Definition page_magic h (p : Z) : res Z :=
  match k_slabs h !! p with
  | Some x => Ok (su_magic x)
  | None => match b_pages (k_slab h) !! p with Some x => Ok (pg_magic x) | None => ld_link (b_arena (k_slab h)) p end
  end.

Definition TryFree h (obj : Z) (cpu : option Z) : res (bool * kheap PS) :=
  if obj =? 0 then Ok (true, h)
  else
    let p := slub_page_of obj in
    let* g := page_magic h p in
    if negb (g =? SLUB_PAGE_MAGIC) then Ok (false, h)
    else
      let* x := slab_at (slub_of h) p in
      let* h := kmem_cache_free h (su_cache x) obj cpu in
      Ok (true, h).

Definition TryGetSize h (obj : Z) : res Z :=
  if obj =? 0 then Ok 0
  else
    let p := slub_page_of obj in
    let* g := page_magic h p in
    if negb (g =? SLUB_PAGE_MAGIC) then Ok 0
    else
      let* x := slab_at (slub_of h) p in
      if su_cache x =? 0 then Ok 0
      else let* kc := cache_at (slub_of h) (su_cache x) in Ok (kc_obj_size kc).

(** * The kmalloc family *)

(** [ra]: the return address of the call. *)
Definition heap_kmalloc h (size ra : Z) (cpu : option Z) : res (Z * kheap PS) :=
  let* (p, h) := Kmalloc h size cpu in
  if negb (p =? 0) then let* h := tracked h size ra in Ok (p, h)
  else
    let* (q, s) := SLAB_Alloc (k_slab h) size cpu in
    let h := with_slab h s in
    if negb (q =? 0) then let* h := tracked h size ra in Ok (q, h) else Ok (q, h).

Definition heap_kfree h (ptr : Z) (cpu : option Z) : res (kheap PS) :=
  let* (done, h) := TryFree h ptr cpu in
  if done then Ok h else let* s := SLAB_Free (k_slab h) ptr cpu in Ok (with_slab h s).

Definition heap_krealloc h (ptr size ra : Z) (cpu : option Z) : res (Z * kheap PS) :=
  if ptr =? 0 then heap_kmalloc h size ra cpu
  else if size =? 0 then let* h := heap_kfree h ptr cpu in Ok (0, h)
  else
    let* cap := TryGetSize h ptr in
    if negb (cap =? 0) then
      if size <=? cap then Ok (ptr, h)
      else
        let* (np, h) := heap_kmalloc h size ra cpu in
        if np =? 0 then Ok (np, h)
        else
          let* h := h_copy h np ptr cap in
          let* h := heap_kfree h ptr cpu in
          Ok (np, h)
    else let* (np, s) := SLAB_Realloc (k_slab h) ptr size cpu in Ok (np, with_slab h s).

Definition heap_kmalloc_aligned h (size align : Z) (cpu : option Z) : res (Z * kheap PS) :=
  let slab_path h := let* (q, s) := SLAB_AllocAligned (k_slab h) size align cpu in Ok (q, with_slab h s) in
  if k_on h then
    if (align =? 0) || negb (Z.land align (align - 1) =? 0) then Ok (0, h)
    else
      let need := if align <? size then size else align in
      let* (p, h) := Kmalloc h need cpu in
      if negb (p =? 0) then Ok (p, h) else slab_path h
  else slab_path h.

Definition GetPtrPointAreaSize h (ptr : Z) : res Z :=
  let* n := TryGetSize h ptr in
  if negb (n =? 0) then Ok n else SLAB_GetSize (k_slab h) ptr false.

Definition heap_kcalloc h (numitems size ra : Z) (cpu : option Z) : res (Z * kheap PS) :=
  if (numitems =? 0) || (size =? 0) then Ok (0, h)
  else if 2 ^ 64 <=? numitems * size then Ok (0, h)
  else
    let* (ptr, h) := heap_kmalloc h (numitems * size) ra cpu in
    if negb (ptr =? 0) then let* h := h_set h ptr 0 (numitems * size) in Ok (ptr, h) else Ok (ptr, h).
End Kheap.
