(* ===== verification/KheapInv.v ===== *)
(** The kernel heap: the invariants of its two parts side by side, what an
    operation on one of them means for the other, and the kmalloc family. *)
From stdpp Require Import base gmap list fin_maps.
From Stdlib Require Import ZArith Lia.
From S2P Require Import Prelude Words Memory PMM PMMBits PMMInit HeapMem Slub SlubInv SlubAlloc SlubFree Slab SlabInv SlabPage SlabAlloc SlabFree HeapSupply Kheap.

Open Scope Z_scope.
Open Scope c_scope.

Section Inv.
Context {PS : Type} `{PSI : !PageSource PS} `{PSL : !PageSourceOk PS}.
Implicit Types (s : slab PS) (st : slub PS) (h : kheap PS) (V : gmap Z view) (W : gmap Z place) (F : gmap Z (list Z)) (H : gmap Z Z).

(** * Memory that changes elsewhere *)

Lemma slab_elsewhere s W F H A H' : slab_inv s W F H -> arena_ok A H' ->
  (forall q n, is_Some (b_pages s !! q) -> H !! q = Some n -> H' !! q = Some n /\ agree (a_mem (b_arena s)) (a_mem A) q (n * 4096)) -> slab_inv (b_with_arena s A) W F H'.
Proof.
  intros [I T] HA Hag. assert (Hob : forall i y, obj_of s i y -> agree (a_mem (b_arena s)) (a_mem A) y 8).
  { intros i y Hy. pose proof (obj_facts I i y Hy) as (_ & HH & _ & B1 & B2 & _ & B3 & _). destruct Hy as (x & Hx & _). destruct (Hag (slab_page_of y) 1 ltac:(eauto) HH) as [_ Ha]. apply (agree_sub _ _ _ _ _ _ Ha); lia. }
  split; [|exact T]. split; try apply I; try exact HA.
  - intros p x Hx. cbn in Hx. destruct (ob_page _ _ _ _ I p x Hx) as [(K1 & K2 & K3)|(K1 & fl & K2 & K3)]; [left; split; [exact K1|]; split; [exact K2|]; now apply (Hag p); eauto|]. right. split; [now apply (Hag p); eauto|]. exists fl. split; [exact K2|].
    pose proof K3 as [A1 A2 A3 A4 A5 A6 A7 A8]. split; auto. cbn. apply (chain_agree _ (a_mem (b_arena s))); [|exact A3]. intros y Hy. destruct (obj_in I p x y Hx A1 (A5 y Hy)) as [_ Ho]. exact (Hob _ y Ho).
  - intros w j hd n Hs. assert (Hs' : stack_at s w j = Some (hd, n)) by exact Hs. destruct (ob_stack _ _ _ _ I w j hd n Hs') as (l & Hch & Hl & Hn). exists l. split; [|auto]. apply (chain_agree _ (a_mem (b_arena s))); [|exact Hch]. intros y Hy. apply Hl in Hy as [Hy Hc]. exact (Hob _ y (obj_place I y _ _ Hy Hc)).
Qed.

Lemma slub_elsewhere strict st V H A H' : slub_inv strict st V H -> arena_ok A H' -> (forall p, is_Some (s_slabs st !! p) -> H' !! p = Some 1 /\ agree (a_mem (s_arena st)) (a_mem A) p 4096) -> slub_inv strict (with_arena st A) V H'.
Proof.
  intros [I L] HA Hag. split; [|exact L]. split; try apply I; try exact HA.
  - intros p x Hx. now apply Hag; eauto.
  - intros p x v Hx Hv. cbn in Hx. destruct (hi_slab _ _ _ _ I p x v Hx Hv) as (c & Hc & M). exists c. split; [exact Hc|]. destruct (hi_geom _ _ _ _ I _ _ Hc) as [G _]. apply (slab_agree _ _ c p x v _ G M). now apply Hag; eauto.
Qed.

(** * The invariant *)

(** A cache for the objects of a class. *)
Definition class_cache (i : Z) (c : kmem_cache) : Prop := kc_obj_size c = class_size i /\ kc_area_off c mod class_size i = 0.

Record heap_ok h V W F H : Prop := {
  hp_slub : slub_inv false (slub_of h) V H;
  hp_slab : slab_inv (k_slab h) W F H;
  hp_rest : rested (k_slab h);
  hp_apart p : is_Some (k_slabs h !! p) -> b_pages (k_slab h) !! p = None;
  hp_desc a c : k_caches h !! a = Some c -> exists n, block (k_slab h) W a n;
  hp_kmalloc : k_on h = true -> forall i, 0 <= i < 7 -> exists a c, k_kmalloc h !! Z.to_nat i = Some a /\ k_caches h !! a = Some c /\ class_cache i c;
  hp_length : length (k_kmalloc h) = 7%nat;
  hp_stats : length (g_km_bytes (k_stats h)) = 64%nat /\ length (g_km_calls (k_stats h)) = 64%nat /\ length (g_km_ra (k_stats h)) = 64%nat
}.

(** A block that belongs to a user of the heap. *)
Definition kblock h V W (z n : Z) : Prop := live_obj (slub_of h) V z n \/ (block (k_slab h) W z n /\ k_caches h !! z = None).

Record hframe (X Y : list Z) h V W h' V' W' : Prop := {
  hf_live z n : kblock h V W z n -> z ∉ X -> kblock h' V' W' z n /\ agree (a_mem (b_arena (k_slab h))) (a_mem (b_arena (k_slab h'))) z n;
  hf_back z n : kblock h' V' W' z n -> (kblock h V W z n /\ z ∉ X) \/ z ∈ Y
}.

Lemma hframe_refl h V W : hframe [] [] h V W h V W.
Proof. split; [intros z n Hz _; split; [exact Hz|apply agree_refl]|]. intros z n Hz. left. split; [exact Hz|apply not_elem_of_nil]. Qed.

Lemma hframe_trans X1 Y1 X2 Y2 X Y h V W h1 V1 W1 h2 V2 W2 : hframe X1 Y1 h V W h1 V1 W1 -> hframe X2 Y2 h1 V1 W1 h2 V2 W2 ->
  (forall z n, kblock h V W z n -> z ∉ X <-> z ∉ X1 /\ z ∉ X2) -> (forall z, z ∈ Y1 -> z ∈ X2 \/ z ∈ Y) -> (forall z, z ∈ Y2 -> z ∈ Y) -> hframe X Y h V W h2 V2 W2.
Proof.
  intros F1 F2 HX HY1 HY2. split.
  - intros z n Hz Hn. apply (HX z n Hz) in Hn as [Hn1 Hn2]. destruct (hf_live _ _ _ _ _ _ _ _ F1 z n Hz Hn1) as [L1 A1]. destruct (hf_live _ _ _ _ _ _ _ _ F2 z n L1 Hn2) as [L2 A2]. split; [exact L2|]. exact (agree_trans _ _ _ _ _ A1 A2).
  - intros z n Hz. destruct (hf_back _ _ _ _ _ _ _ _ F2 z n Hz) as [[L Hn2]|Hy]; [|right; auto]. destruct (hf_back _ _ _ _ _ _ _ _ F1 z n L) as [[L' Hn1]|Hy]; [left; split; [exact L'|]; apply (HX z n L'); auto|]. right. destruct (HY1 z Hy); [contradiction|assumption].
Qed.

(** * A step of the object caches *)

Lemma live_page' st V H z n : slub_inv false st V H -> live_obj st V z n -> exists p, s_slabs st !! p <> None /\ H !! p = Some 1 /\ p + 56 <= z /\ z + n <= p + 4096 /\ range_ok p 1.
Proof.
  intros [I L] Hz. destruct (live_page 0 st V H z n I Hz) as (p & x & v & c & E & Hp & Hv & K). pose proof (inv_page I p x Hp) as Hr. destruct (inv_view I p x Hp) as (v0 & k & Hv0 & Hk & G & M). rewrite Hv in Hv0. injection Hv0 as <-.
  destruct Hz as (p' & x' & v' & c' & Hp' & Hv' & Hc' & Hin & ->). destruct (inv_view I p' x' Hp') as (v0' & k' & Hv0' & Hk' & G' & M'). rewrite Hv' in Hv0'. injection Hv0' as <-. rewrite Hc' in Hk'. injection Hk' as <-.
  pose proof (grid_bound c' p' z G' (live_grid _ _ _ _ _ _ _ M' Hin)) as (B1 & B2 & _). exists p'. split; [congruence|]. split; [exact (hi_page _ _ _ _ I p' x' Hp')|]. split; [lia|]. split; [lia|]. exact (inv_page I p' x' Hp').
Qed.

(** The parts of the heap share no byte. *)
Lemma slub_slab_apart h V W F H z n z' n' : heap_ok h V W F H -> live_obj (slub_of h) V z n -> block (k_slab h) W z' n' -> 0 < n /\ 0 < n' /\ (z + n <= z' \/ z' + n' <= z).
Proof.
  intros K Hz Hz'. destruct (live_page' _ _ _ _ _ (hp_slub _ _ _ _ _ K) Hz) as (p & Hp & HHp & P1 & P2 & R1 & R2 & _). pose proof (hp_slab _ _ _ _ _ K) as [I _]. destruct (block_inside _ _ _ _ _ _ I Hz') as (q & k & Hq & B1 & B2 & Hxq & B3).
  assert (Hne : p <> q) by (intros ->; destruct (s_slabs (slub_of h) !! q) eqn:E; [rewrite (hp_apart _ _ _ _ _ K q ltac:(cbn in E; eauto)) in Hxq; now destruct Hxq|contradiction]).
  assert (0 < n) by (destruct Hz as (? & ? & ? & cc & _ & _ & Hcc & _ & ->); destruct (hi_geom _ _ _ _ (proj1 (hp_slub _ _ _ _ _ K)) _ _ Hcc) as [[? _ _ _ _] _]; lia). split; [lia|]. split; [exact B3|].
  destruct (ps_apart _ _ p 1 q k (ar_src _ _ (ob_arena _ _ _ _ I)) HHp Hq Hne); lia.
Qed.

Lemma not_both h V W F H z n n' : heap_ok h V W F H -> live_obj (slub_of h) V z n -> block (k_slab h) W z n' -> False.
Proof. intros K Hz Hz'. destruct (slub_slab_apart h V W F H z n z n' K Hz Hz') as (? & ? & [|]); lia. Qed.

Lemma slub_step X Y h V W F H st' V' H' : heap_ok h V W F H -> slub_inv false st' V' H' -> frame X Y (slub_of h) V H st' V' H' ->
  heap_ok (with_slub h st') V' W F H' /\ ((forall z, z ∈ X -> exists n, live_obj (slub_of h) V z n) -> hframe X Y h V W (with_slub h st') V' W).
Proof.
  intros K I' Fr. assert (Hag : forall q n, is_Some (b_pages (k_slab h) !! q) -> H !! q = Some n -> H' !! q = Some n /\ s_slabs st' !! q = None /\ agree (a_mem (b_arena (k_slab h))) (a_mem (s_arena st')) q (n * 4096)).
  { intros q n [x Hx] Hq. assert (Hno : k_slabs h !! q = None) by (destruct (k_slabs h !! q) eqn:E; [|reflexivity]; rewrite (hp_apart _ _ _ _ _ K q ltac:(eauto)) in Hx; discriminate). exact (fr_other _ _ _ _ _ _ _ _ Fr q n Hq Hno). }
  assert (Hdom : forall a c, s_caches st' !! a = Some c -> exists c0, k_caches h !! a = Some c0 /\ layout_of c0 = layout_of c).
  { intros a c Hc. destruct (fmap_lookup layout_of _ _ a c (eq_sym (fr_caches _ _ _ _ _ _ _ _ Fr a)) Hc) as (c0 & Hc0 & E). eauto. }
  assert (Hdom' : forall a c, k_caches h !! a = Some c -> exists c', s_caches st' !! a = Some c' /\ layout_of c' = layout_of c).
  { intros a c Hc. destruct (fmap_lookup layout_of _ _ a c (fr_caches _ _ _ _ _ _ _ _ Fr a) Hc) as (c0 & Hc0 & E). eauto. }
  split.
  - split; cbn [with_slub k_slab k_slabs k_caches k_kmalloc k_on k_stats].
    + destruct st'. exact I'.
    + apply (slab_elsewhere _ W F H); [apply K|apply I'|]. intros q n Hx Hq. destruct (Hag q n Hx Hq) as (E1 & _ & E2). auto.
    + exact (hp_rest _ _ _ _ _ K).
    + intros p Hp. cbn. destruct (b_pages (k_slab h) !! p) as [x|] eqn:Hx; [|reflexivity]. exfalso. pose proof (hp_slab _ _ _ _ _ K) as [I _]. assert (HH : exists n, H !! p = Some n) by (destruct (ob_page _ _ _ _ I p x Hx) as [(_ & _ & HH)|(HH & _)]; eauto). destruct HH as [n HH].
      destruct (Hag p n ltac:(eauto) HH) as (_ & E & _). rewrite E in Hp. now destruct Hp.
    + intros a c Hc. destruct (Hdom a c Hc) as (c0 & Hc0 & _). exact (hp_desc _ _ _ _ _ K a c0 Hc0).
    + intros Hon i Hi. destruct (hp_kmalloc _ _ _ _ _ K Hon i Hi) as (a & c & E1 & E2 & E3 & E4). destruct (Hdom' a c E2) as (c' & Hc' & [= G1 G2 G3 G4]). exists a, c'. split; [exact E1|]. split; [exact Hc'|]. split; congruence.
    + exact (hp_length _ _ _ _ _ K).
    + exact (hp_stats _ _ _ _ _ K).
  - intros HX. split.
    + intros z n [Hz|[Hz Hn]] HzX.
      * destruct (fr_live _ _ _ _ _ _ _ _ Fr z n Hz HzX) as [Hz' Ha]. split; [left; destruct st'; exact Hz'|exact Ha].
      * split; [right; split; [exact Hz|]; cbn; destruct (s_caches st' !! z) eqn:E; [|reflexivity]; destruct (Hdom z _ E) as (c0 & Hc0 & _); congruence|].
        pose proof (hp_slab _ _ _ _ _ K) as [I _]. destruct (block_inside _ _ _ _ _ _ I Hz) as (q & k & Hq & B1 & B2 & Hx & _). destruct (Hag q k Hx Hq) as (_ & _ & Ha). apply (agree_sub _ _ _ _ _ _ Ha); lia.
    + intros z n [Hz|[Hz Hn]].
      * assert (Hz' : live_obj st' V' z n) by (destruct st'; exact Hz). destruct (fr_back _ _ _ _ _ _ _ _ Fr z n Hz') as [[L Hx]|Hy]; [left; split; [left; exact L|exact Hx]|right; exact Hy].
      * left. cbn in Hn. assert (Hno : k_caches h !! z = None) by (destruct (k_caches h !! z) eqn:E; [|reflexivity]; destruct (Hdom' z _ E) as (c' & Hc' & _); congruence). split; [right; split; [exact Hz|exact Hno]|].
        intros Hi. destruct (HX z Hi) as [j Hj]. exact (not_both _ _ _ _ _ _ _ _ K Hj Hz).
Qed.

(** * A step of the size-class heap *)

Lemma slab_step X Y h V W F H s' W' F' H' : heap_ok h V W F H -> slab_inv s' W' F' H' -> rested s' -> bframe X Y (k_slab h) W H s' W' H' ->
  (forall z, z ∈ X -> k_caches h !! z = None /\ exists n, block (k_slab h) W z n) -> heap_ok (with_slab h s') V W' F' H' /\ hframe X Y h V W (with_slab h s') V W'.
Proof.
  intros K I' R' Fr HX. pose proof (hp_slub _ _ _ _ _ K) as [Iu Lu].
  assert (Hag : forall p, is_Some (k_slabs h !! p) -> H' !! p = Some 1 /\ b_pages s' !! p = None /\ agree (a_mem (b_arena (k_slab h))) (a_mem (b_arena s')) p 4096).
  { intros p [x Hx]. exact (bf_other _ _ _ _ _ _ _ _ Fr p 1 (hi_page _ _ _ _ Iu p x Hx) (hp_apart _ _ _ _ _ K p (mk_is_Some _ _ Hx))). }
  assert (Hlive : forall z n, live_obj (slub_of h) V z n <-> live_obj (slub_of (with_slab h s')) V z n) by reflexivity.
  split; [split; cbn [with_slab k_slab k_slabs k_caches k_kmalloc k_on k_stats]; try apply K; try assumption|split].
  - apply (slub_elsewhere false (slub_of h) V H (b_arena s') H' (hp_slub _ _ _ _ _ K) (ob_arena _ _ _ _ (proj1 I'))). intros p Hp. destruct (Hag p Hp) as (E1 & _ & E2). auto.
  - intros p Hp. now apply Hag.
  - intros a c Hc. destruct (hp_desc _ _ _ _ _ K a c Hc) as [n Hb]. exists n. apply (bf_live _ _ _ _ _ _ _ _ Fr a n Hb). intros Hi. destruct (HX a Hi) as [E _]. congruence.
  - intros z n [Hz|[Hz Hn]] HzX.
    + split; [left; exact Hz|]. destruct (live_page' _ _ _ _ _ (hp_slub _ _ _ _ _ K) Hz) as (p & Hp & _ & P1 & P2 & _). destruct (k_slabs h !! p) as [x|] eqn:Ex; [|cbn in Hp; congruence]. destruct (Hag p (mk_is_Some _ _ Ex)) as (_ & _ & Ha). apply (agree_sub _ _ _ _ _ _ Ha); lia.
    + destruct (bf_live _ _ _ _ _ _ _ _ Fr z n Hz HzX) as [Hz' Ha]. split; [right; split; [exact Hz'|exact Hn]|exact Ha].
  - intros z n [Hz|[Hz Hn]].
    + left. split; [left; exact Hz|]. intros Hi. destruct (HX z Hi) as [_ [j Hj]]. exact (not_both _ _ _ _ _ _ _ _ K Hz Hj).
    + destruct (bf_back _ _ _ _ _ _ _ _ Fr z n Hz) as [[L Hx]|Hy]; [left; split; [right; split; [exact L|exact Hn]|exact Hx]|right; exact Hy].
Qed.

(** * Live objects *)

Lemma live_facts st V H z n : slub_inv false st V H -> live_obj st V z n -> exists p x v c, s_slabs st !! p = Some x /\ V !! p = Some v /\ s_caches st !! su_cache x = Some c /\ geom_ok c /\ slab_mem (a_mem (s_arena st)) c p x v 0 /\ z ∈ v_live v /\ z ∈ grid c p /\ n = kc_obj_size c.
Proof.
  intros [I L] (p & x & v & c & Hp & Hv & Hc & Hin & ->). destruct (inv_view I p x Hp) as (v0 & k & Hv0 & Hk & G & M). rewrite Hv in Hv0. injection Hv0 as <-. rewrite Hc in Hk. injection Hk as <-.
  rewrite missing_other in M by (pose proof (inv_page I p x Hp) as (? & _); lia). exists p, x, v, c. split_and!; auto. exact (live_grid _ _ _ _ _ _ _ M Hin).
Qed.

Lemma live_apart st V H z n z' n' : slub_inv false st V H -> live_obj st V z n -> live_obj st V z' n' -> z <> z' -> z + n <= z' \/ z' + n' <= z.
Proof.
  intros I Hz Hz' Hne. destruct (live_facts _ _ _ _ _ I Hz) as (p & x & v & c & Hp & Hv & Hc & G & M & Hin & Hg & ->). destruct (live_facts _ _ _ _ _ I Hz') as (p' & x' & v' & c' & Hp' & Hv' & Hc' & G' & M' & Hin' & Hg' & ->).
  destruct (decide (p = p')) as [<-|Hpp].
  - rewrite Hp in Hp'. injection Hp' as <-. rewrite Hc in Hc'. injection Hc' as <-. exact (grid_apart c p z z' G Hg Hg' Hne).
  - pose proof (grid_bound c p z G Hg). pose proof (grid_bound c' p' z' G' Hg'). destruct (inv_apart (proj1 I) p x p' x' Hp Hp' Hpp); lia.
Qed.

(** What a user writes into a live object. *)
Lemma slub_write_ok st V H z n a l : slub_inv false st V H -> live_obj st V z n -> z <= a -> a + Z.of_nat (length l) <= z + n -> bytes l ->
  let st' := with_arena st (with_mem (s_arena st) (write (a_mem (s_arena st)) a l)) in slub_inv false st' V H /\ frame [z] [z] st V H st' V H.
Proof.
  intros I Hz Ha Hn Hl st'. assert (Hout : forall b k, z + n <= b \/ b + k <= z -> agree (a_mem (s_arena st)) (a_mem (s_arena st')) b k) by (intros b k Hbk; apply agree_write; lia).
  destruct (live_facts _ _ _ _ _ I Hz) as (p & x & v & c & Hp & Hv & Hc & G & M & Hin & Hg & En). pose proof (grid_bound c p z G Hg) as (P1 & P2 & _).
  assert (Hfree : forall y, y ∈ v_free v ++ v_foreign v -> agree (a_mem (s_arena st)) (a_mem (s_arena st')) y 8).
  { intros y Hy. assert (Hyg : y ∈ grid c p) by (apply (slab_perm_in _ _ _ _ _ _ _ M); rewrite app_assoc; apply elem_of_app; auto). assert (Hyz : y <> z).
    { intros ->. pose proof (slab_NoDup _ _ _ _ _ _ G M) as Hnd. rewrite app_assoc in Hnd. apply NoDup_app in Hnd as (_ & Hnd & _). exact (Hnd z Hy Hin). }
    apply Hout. pose proof (ge_size _ G). destruct (grid_apart c p y z G Hyg Hg Hyz); lia. }
  destruct I as [I L]. split.
  - split; [|exact L]. split; try apply I; [apply arena_write; [apply I|exact Hl]|]. intros q y w Hq Hw. cbn in Hq. destruct (hi_slab _ _ _ _ I q y w Hq Hw) as (k & Hk & Mk). exists k. split; [exact Hk|]. destruct (decide (q = p)) as [->|Hne].
    + rewrite Hp in Hq. injection Hq as <-. rewrite Hv in Hw. injection Hw as <-. rewrite Hc in Hk. injection Hk as <-. destruct Mk as [K1 K2 K3 K4 K5 K6]. split; auto; (eapply chain_agree; [|eassumption]); intros y Hy; apply Hfree, elem_of_app; auto.
    + destruct (hi_geom _ _ _ _ I _ _ Hk) as [Gk _]. apply (slab_agree _ _ k q y w _ Gk Mk). apply Hout. destruct (inv_apart I q y p x Hq Hp Hne); lia.
  - split.
    + intros z' n' Hz' Hne. rewrite list_elem_of_singleton in Hne. split; [exact Hz'|]. apply Hout. destruct (live_apart st V H z n z' n' (conj I L) Hz Hz'); [congruence|lia|lia].
    + intros z' n' Hz'. destruct (decide (z' = z)) as [->|Hne]; [right; left|]. left. split; [exact Hz'|]. now rewrite list_elem_of_singleton.
    + intros q k Hq Hs. split; [exact Hq|]. split; [exact Hs|]. apply Hout. destruct (ps_apart _ _ p 1 q k (ar_src _ _ (hi_arena _ _ _ _ I)) (hi_page _ _ _ _ I p x Hp) Hq); [intros ->; cbn in Hs; congruence|lia|lia].
    + auto.
    + reflexivity.
Qed.

(** Blocks of the users do not overlap. *)
Lemma kblocks_apart h V W F H z n z' n' : heap_ok h V W F H -> kblock h V W z n -> kblock h V W z' n' -> z <> z' -> z + n <= z' \/ z' + n' <= z.
Proof.
  intros K [Hz|[Hz _]] [Hz'|[Hz' _]] Hne.
  - exact (live_apart _ _ _ _ _ _ _ (hp_slub _ _ _ _ _ K) Hz Hz' Hne).
  - now apply (slub_slab_apart h V W F H).
  - destruct (slub_slab_apart h V W F H z' n' z n K Hz' Hz) as (_ & _ & [|]); auto.
  - exact (blocks_apart _ _ _ _ _ _ _ _ (proj1 (hp_slab _ _ _ _ _ K)) Hz Hz' Hne).
Qed.

(** * Writes *)

Definition h_write h (a : Z) (l : list Z) : kheap PS := with_slab h (b_write (k_slab h) a l).

Lemma kblock_bounds h V W F H z n : heap_ok h V W F H -> kblock h V W z n -> 4096 <= z /\ 8 <= n /\ z + n <= 2 ^ 64 /\ mapped (a_mem (b_arena (k_slab h))) z (Z.to_nat n).
Proof.
  intros K [Hz|[Hz _]].
  - destruct (live_facts _ _ _ _ _ (hp_slub _ _ _ _ _ K) Hz) as (p & x & v & c & Hp & Hv & Hc & G & M & Hin & Hg & ->). pose proof (grid_bound c p z G Hg) as (P1 & P2 & _). destruct (inv_page (proj1 (hp_slub _ _ _ _ _ K)) p x Hp) as (R1 & R2 & _ & R4). pose proof (ge_size _ G). split; [dlia|]. split; [lia|]. split; [lia|].
    eapply mapped_le; [exact (ar_mapped _ _ (hi_arena _ _ _ _ (proj1 (hp_slub _ _ _ _ _ K))) p 1 (hi_page _ _ _ _ (proj1 (hp_slub _ _ _ _ _ K)) p x Hp))|lia|lia].
  - pose proof (hp_slab _ _ _ _ _ K) as [I _]. destruct (block_inside _ _ _ _ _ _ I Hz) as (q & k & Hq & B1 & B2 & _ & B3). destruct (ps_range _ _ _ _ (ar_src _ _ (ob_arena _ _ _ _ I)) Hq) as (R1 & R2 & R3 & R4). split; [dlia|]. split; [|split; [lia|exact (block_mapped _ _ _ _ _ _ I Hz)]].
    destruct Hz as [(Hw & x & Hx & ->)|(p & x & Hx & Hm & -> & ->)].
    + destruct (ob_where _ _ _ _ I z Live Hw) as (x' & Hx' & Hm & _). rewrite Hx in Hx'. injection Hx' as <-. destruct (pg_small I _ x Hx Hm) as (_ & Hi & _). pose proof (class_geom _ Hi). lia.
    + destruct (ob_page _ _ _ _ I p x Hx) as [(_ & _ & HH)|(_ & fl & _ & Kp)]; [|pose proof (po_magic _ _ _ _ _ _ Kp); rewrite Hm in *; discriminate]. destruct (ps_range _ _ _ _ (ar_src _ _ (ob_arena _ _ _ _ I)) HH) as (_ & _ & Q & _). lia.
Qed.

Lemma h_write_ok h V W F H z n a l : heap_ok h V W F H -> kblock h V W z n -> z <= a -> a + Z.of_nat (length l) <= z + n -> bytes l -> heap_ok (h_write h a l) V W F H /\ hframe [z] [z] h V W (h_write h a l) V W /\ kblock (h_write h a l) V W z n.
Proof.
  intros K Hz Ha Hn Hl. pose proof Hz as [Hs|[Hs Hc]].
  - destruct (slub_write_ok (slub_of h) V H z n a l (hp_slub _ _ _ _ _ K) Hs Ha Hn Hl) as [I' Fr]. destruct (slub_step [z] [z] h V W F H _ V H K I' Fr) as [K' Fr']. split; [exact K'|]. split; [|left; exact Hs]. apply Fr'. intros y Hy. apply list_elem_of_singleton in Hy as ->. eauto.
  - destruct (write_block_ok (k_slab h) W F H z n a l (hp_slab _ _ _ _ _ K) Hs Ha Hn Hl) as [I' Fr]. destruct (slab_step [z] [z] h V W F H _ W F H K I' (hp_rest _ _ _ _ _ K) Fr) as [K' Fr']; [intros y Hy; apply list_elem_of_singleton in Hy as ->; eauto|]. split; [exact K'|]. split; [exact Fr'|]. right. split; [exact Hs|exact Hc].
Qed.
End Inv.

(** The kernel heap: the kmalloc family. *)

(** The class of a size is the one that the size-class heap uses. *)
Lemma class_table : forallb (fun n => match GetCache n with Some i => slub_kmalloc_class n =? i | None => false end) (seqZ 1 1024) = true.
Proof. vm_compute. reflexivity. Qed.

Lemma slub_kmalloc_class_ok n : 1 <= n <= 1024 -> 0 <= slub_kmalloc_class n < 7 /\ n <= class_size (slub_kmalloc_class n).
Proof.
  intros Hn. destruct (GetCache_ok n Hn) as (i & Ei & Hi & Hs & _). pose proof (proj1 (forallb_forall _ _) class_table n) as K. rewrite <- list_elem_of_In, elem_of_seqZ in K. specialize (K ltac:(lia)). cbv beta in K. rewrite Ei in K. apply Z.eqb_eq in K. rewrite K. auto.
Qed.

(** [memset] on this processor. *)
Lemma memset_x86 m a v (n fuel : nat) : mapped m a n -> (n < fuel)%nat -> byte v -> memset X86_64 fuel m a v (Z.of_nat n) = Ok (write m a (replicate n v), a).
Proof.
  intros Hm Hf Hv. unfold memset, memset_fscpuf. assert (E : u8 v = v) by now apply u8_small. rewrite !E. destruct (48 <=? _).
  - rewrite Nat2Z.id, rep_stosb_ok by exact Hm. now rewrite E.
  - rewrite fill_bytes_start by (auto). reflexivity.
Qed.

Section Ops.
Context {PS : Type} `{PSI : !PageSource PS} `{PSL : !PageSourceOk PS}.
Implicit Types (h : kheap PS) (V : gmap Z view) (W : gmap Z place) (F : gmap Z (list Z)) (H : gmap Z Z).

(** A CPU that is set up. *)
Definition cpu_on h (cpu : option Z) : Prop := exists id, cpu = Some id /\ 0 <= id /\ is_Some (b_cpus (k_slab h) !! id).

(** [h'] after a step that takes the blocks [X] and leaves those of [Y]. *)
Definition hstep (X Y : list Z) h V W h' (Q : gmap Z view -> gmap Z place -> Prop) : Prop :=
  cpus_same (k_slab h) (k_slab h') /\ exists V' W' F' H', heap_ok h' V' W' F' H' /\ hframe X Y h V W h' V' W' /\ Q V' W'.

Definition always (_ : gmap Z view) (_ : gmap Z place) : Prop := True.

(** A new block. *)
Definition kgot (z n : Z) h V W h' : Prop := hstep [] [z] h V W h' (fun V' W' => kblock h' V' W' z n /\ forall k, ~ kblock h V W z k).

Lemma hstep_refl h V W F H : heap_ok h V W F H -> hstep [] [] h V W h always.
Proof. intros K. split; [now apply cpus_same_eq|]. exists V, W, F, H. split; [exact K|]. split; [apply hframe_refl|exact I]. Qed.

Lemma cpu_on_same h h' cpu : cpus_same (k_slab h) (k_slab h') -> cpu_on h cpu -> cpu_on h' cpu.
Proof. intros C (id & -> & Hid & Hs). exists id. split; [reflexivity|]. split; [exact Hid|]. now apply C. Qed.

Lemma cpus_same_trans (s1 s2 s3 : slab PS) : cpus_same s1 s2 -> cpus_same s2 s3 -> cpus_same s1 s3.
Proof. intros A B k. rewrite (B k). apply A. Qed.

(** A step after one that concerned no block. *)
Lemma hframe_after X Y h V W h1 V1 W1 h2 V2 W2 : hframe [] [] h V W h1 V1 W1 -> hframe X Y h1 V1 W1 h2 V2 W2 -> hframe X Y h V W h2 V2 W2.
Proof. intros A B. apply (hframe_trans [] [] X Y X Y _ _ _ _ _ _ _ _ _ A B); [|intros z Hz; now apply not_elem_of_nil in Hz|auto]. intros z n _. split; [intros Hz; split; [apply not_elem_of_nil|exact Hz]|tauto]. Qed.

Lemma kgot_after z n h V W h1 V1 W1 h2 : cpus_same (k_slab h) (k_slab h1) -> hframe [] [] h V W h1 V1 W1 -> kgot z n h1 V1 W1 h2 -> kgot z n h V W h2.
Proof.
  intros C Fr (C2 & V2 & W2 & F2 & H2 & K2 & Fr2 & Hb & Hn). split; [exact (cpus_same_trans _ _ _ C C2)|]. exists V2, W2, F2, H2. split; [exact K2|]. split; [exact (hframe_after _ _ _ _ _ _ _ _ _ _ _ Fr Fr2)|]. split; [exact Hb|].
  intros k Hk. apply (Hn k). now apply (hf_live _ _ _ _ _ _ _ _ Fr z k Hk), not_elem_of_nil.
Qed.

Lemma kgot_nonzero z n h V W h' : kgot z n h V W h' -> z <> 0.
Proof. intros (_ & V' & W' & F' & H' & K & _ & Hb & _). pose proof (kblock_bounds _ _ _ _ _ _ _ K Hb). lia. Qed.

(** * Objects of a cache *)

Lemma kmem_cache_alloc_ok h V W F H a c cpu : heap_ok h V W F H -> k_caches h !! a = Some c -> cpu_on h cpu ->
  wp (kmem_cache_alloc h a cpu) (fun '(o, h') => (o = 0 /\ hstep [] [] h V W h' always) \/ (o <> 0 /\ kgot o (kc_obj_size c) h V W h' /\ exists p, range_ok p 1 /\ o ∈ grid c p)).
Proof.
  intros K Ha (id & -> & Hid & Hs). unfold kmem_cache_alloc. apply wp_bind. eapply wp_mono; [apply (slub_Alloc_ok false (slub_of h) V H a c (Some id) (hp_slub _ _ _ _ _ K) Ha); split; [exact Hid|discriminate]|].
  intros [o st'] (V' & H' & I' & [(-> & Fr & _)|(Ho & Fr & Hnl & Hlive & Hgrid)]); cbn [wp].
  - left. split; [reflexivity|]. split; [now apply cpus_same_eq|]. destruct (slub_step [] [] h V W F H st' V' H' K I' Fr) as [K' Fr']. exists V', W, F, H'. split; [exact K'|]. split; [|exact I]. apply Fr'. intros z Hz. now apply not_elem_of_nil in Hz.
  - right. split; [exact Ho|]. destruct (slub_step [] [o] h V W F H st' V' H' K I' Fr) as [K' Fr']. assert (Hl : live_obj (slub_of (with_slub h st')) V' o (kc_obj_size c)) by (destruct st'; exact Hlive). split; [|exact Hgrid]. split; [now apply cpus_same_eq|]. exists V', W, F, H'. split; [exact K'|].
    split; [apply Fr'; intros z Hz; now apply not_elem_of_nil in Hz|]. split; [left; exact Hl|]. intros k [Hk|[Hk _]]; [exact (Hnl k Hk)|]. exact (not_both _ _ _ _ _ _ _ _ K' Hl Hk).
Qed.

Lemma live_route h V W F H z n : heap_ok h V W F H -> live_obj (slub_of h) V z n -> exists x c, k_slabs h !! slub_page_of z = Some x /\ su_magic x = SLUB_PAGE_MAGIC /\ k_caches h !! su_cache x = Some c /\ su_cache x <> 0 /\ n = kc_obj_size c /\ live_in (slub_of h) V (su_cache x) z.
Proof.
  intros K Hz. pose proof (hp_slub _ _ _ _ _ K) as I. destruct (live_facts _ _ _ _ _ I Hz) as (p & x & v & c & Hp & Hv & Hc & G & M & Hin & Hg & ->). destruct (inv_addr (proj1 I) p x c z Hp G Hg) as [_ E].
  exists x, c. rewrite E. split; [exact Hp|]. split; [apply M|]. split; [exact Hc|]. split; [apply (hi_geom _ _ _ _ (proj1 I) _ _ Hc)|]. split; [reflexivity|]. exists x, v. rewrite E. auto.
Qed.

Lemma kmem_cache_free_ok h V W F H a c z cpu : heap_ok h V W F H -> k_caches h !! a = Some c -> live_in (slub_of h) V a z -> cpu_on h cpu -> wp (kmem_cache_free h a z cpu) (fun h' => hstep [z] [] h V W h' always).
Proof.
  intros K Ha Hz (id & -> & Hid & Hs). unfold kmem_cache_free. apply wp_bind. eapply wp_mono; [apply (slub_Free_ok false (slub_of h) V H a c z id (hp_slub _ _ _ _ _ K) Ha Hz)|]. intros st' (V' & H' & I' & Fr). cbn [wp]. split; [now apply cpus_same_eq|].
  destruct (slub_step [z] [] h V W F H st' V' H' K I' Fr) as [K' Fr']. exists V', W, F, H'. split; [exact K'|]. split; [|exact I]. apply Fr'. intros y Hy. apply list_elem_of_singleton in Hy as ->. exists (kc_obj_size c). exact (live_in_obj 0 _ _ _ a c z (proj1 (hp_slub _ _ _ _ _ K)) Ha Hz).
Qed.

(** * Routing *)

Lemma block_route h V W F H z n : heap_ok h V W F H -> block (k_slab h) W z n -> exists x, k_slabs h !! slub_page_of z = None /\ b_pages (k_slab h) !! slub_page_of z = Some x /\ pg_magic x <> SLUB_PAGE_MAGIC.
Proof.
  intros K Hz. pose proof (hp_slab _ _ _ _ _ K) as [I _]. assert (Hx : exists x, b_pages (k_slab h) !! slub_page_of z = Some x /\ pg_magic x <> SLUB_PAGE_MAGIC).
  { destruct Hz as [(Hw & x & Hx & ->)|(p & x & Hx & Hm & -> & ->)].
    - destruct (ob_where _ _ _ _ I z Live Hw) as (x' & Hx' & Hm & _). exists x'. split; [exact Hx'|]. rewrite Hm. discriminate.
    - destruct (ob_page _ _ _ _ I p x Hx) as [(_ & _ & HH)|(_ & fl & _ & Kp)]; [|pose proof (po_magic _ _ _ _ _ _ Kp); rewrite Hm in *; discriminate]. destruct (ps_range _ _ _ _ (ar_src _ _ (ob_arena _ _ _ _ I)) HH) as (Q1 & Q2 & Q3 & Q4).
      exists x. rewrite (page_of_in p) by lia. split; [exact Hx|]. rewrite Hm. discriminate. }
  destruct Hx as (x & Hx & Hm). exists x. split; [|auto]. destruct (k_slabs h !! slub_page_of z) eqn:E; [|reflexivity]. rewrite (hp_apart _ _ _ _ _ K _ (mk_is_Some _ _ E)) in Hx. discriminate.
Qed.

Lemma TryGetSize_ok h V W F H z n : heap_ok h V W F H -> (live_obj (slub_of h) V z n -> TryGetSize h z = Ok n) /\ (block (k_slab h) W z n -> TryGetSize h z = Ok 0).
Proof.
  intros K. split; intros Hz; unfold TryGetSize, page_magic.
  - pose proof (kblock_bounds _ _ _ _ _ _ _ K (or_introl Hz)) as (B & _). rewrite (proj2 (Z.eqb_neq z 0)) by lia. destruct (live_route _ _ _ _ _ _ _ K Hz) as (x & c & Hx & Hm & Hc & Hc0 & -> & _). rewrite Hx. cbn [bind]. rewrite Hm, Z.eqb_refl. cbn [negb].
    rewrite (slab_at_ok (slub_of h) _ x Hx). cbn [bind]. rewrite (proj2 (Z.eqb_neq _ _) Hc0), (cache_at_ok (slub_of h) _ c Hc). reflexivity.
  - destruct (block_route _ _ _ _ _ _ _ K Hz) as (x & E1 & E2 & Hm). rewrite E1, E2. destruct (z =? 0); [reflexivity|]. cbn [bind]. now rewrite (proj2 (Z.eqb_neq _ _) Hm).
Qed.

Lemma GetPtrPointAreaSize_ok h V W F H z n : heap_ok h V W F H -> kblock h V W z n -> GetPtrPointAreaSize h z = Ok n.
Proof.
  intros K Hz. pose proof (kblock_bounds _ _ _ _ _ _ _ K Hz) as (_ & Hn & _). unfold GetPtrPointAreaSize. destruct (TryGetSize_ok h V W F H z n K) as [T1 T2]. destruct Hz as [Hz|[Hz _]].
  - rewrite (T1 Hz). cbn [bind]. now rewrite (proj2 (Z.eqb_neq n 0)) by lia.
  - rewrite (T2 Hz). cbn [bind negb Z.eqb]. exact (SLAB_GetSize_ok _ W F H z n false (hp_slab _ _ _ _ _ K) Hz).
Qed.

(** * [kfree] *)

Lemma cpu_on_ready h cpu : cpu_on h cpu -> cpu_ready (k_slab h) cpu.
Proof. intros (id & -> & _ & Hs). exact Hs. Qed.

Lemma heap_kfree_ok h V W F H z n cpu : heap_ok h V W F H -> kblock h V W z n -> cpu_on h cpu -> wp (heap_kfree h z cpu) (fun h' => hstep [z] [] h V W h' always).
Proof.
  intros K Hz Hcpu. pose proof (kblock_bounds _ _ _ _ _ _ _ K Hz) as (B & _). unfold heap_kfree, TryFree, page_magic. rewrite (proj2 (Z.eqb_neq z 0)) by lia. destruct Hz as [Hz|[Hz Hc]].
  - destruct (live_route _ _ _ _ _ _ _ K Hz) as (x & c & Hx & Hm & Hc & Hc0 & -> & Hli). rewrite Hx. cbn [bind]. rewrite Hm, Z.eqb_refl. cbn [negb]. rewrite (slab_at_ok (slub_of h) _ x Hx). cbn [bind]. apply wp_bind. apply wp_bind. eapply wp_mono; [apply (kmem_cache_free_ok h V W F H _ c z cpu K Hc Hli Hcpu)|]. intros h' St. exact St.
  - destruct (block_route _ _ _ _ _ _ _ K Hz) as (x & E1 & E2 & Hm). rewrite E1, E2. cbn [bind]. rewrite (proj2 (Z.eqb_neq _ _) Hm). cbn [negb bind]. apply wp_bind. eapply wp_mono; [apply (SLAB_Free_ok (k_slab h) W F H z n cpu (hp_slab _ _ _ _ _ K) (hp_rest _ _ _ _ _ K) (cpu_on_ready _ _ Hcpu) Hz)|].
    intros s' (R' & C' & W' & F' & H' & I' & Fr). cbn [wp]. destruct (slab_step [z] [] h V W F H s' W' F' H' K I' R' Fr) as [K' Fr']; [intros y Hy; apply list_elem_of_singleton in Hy as ->; eauto|]. split; [exact C'|]. exists V, W', F', H'. split; [exact K'|]. split; [exact Fr'|exact I].
Qed.

(** * [kmalloc] *)

(** The state of the supply of pages. *)
Definition heap_vm h : PS := slab_vm (k_slab h).

(** The answer of an allocation; NULL comes from the supply within [k] requests. *)
Definition kserved (k : nat) (size : Z) h V W (x : Z * kheap PS) : Prop :=
  let '(z, h') := x in (z = 0 /\ hstep [] [] h V W h' always /\ (2 ^ 64 <= size + 4143 \/ denied k size (heap_vm h))) \/ (z <> 0 /\ exists n, size <= n /\ kgot z n h V W h').

Lemma kgot_slab h V W F H z n s' : heap_ok h V W F H -> rested s' -> cpus_same (k_slab h) s' -> got z n (k_slab h) W H s' -> kgot z n h V W (with_slab h s').
Proof.
  intros K R C (W' & F' & H' & I' & Fr & Hb & Hn). destruct (slab_step [] [z] h V W F H s' W' F' H' K I' R Fr) as [K' Fr']; [intros y Hy; now apply not_elem_of_nil in Hy|]. split; [exact C|]. exists V, W', F', H'. split; [exact K'|]. split; [exact Fr'|]. split.
  - right. split; [exact Hb|]. cbn. destruct (k_caches h !! z) as [c0|] eqn:E; [|reflexivity]. destruct (hp_desc _ _ _ _ _ K z _ E) as [k Hk]. exfalso. exact (Hn k Hk).
  - intros k [Hk|[Hk _]]; [|exact (Hn k Hk)]. assert (Hk' : live_obj (slub_of (with_slab h s')) V z k) by exact Hk. exact (not_both _ _ _ _ _ _ _ _ K' Hk' Hb).
Qed.

Lemma same_slab h V W F H s' : heap_ok h V W F H -> rested s' -> cpus_same (k_slab h) s' -> (exists W' F' H', slab_inv s' W' F' H' /\ bframe [] [] (k_slab h) W H s' W' H') -> hstep [] [] h V W (with_slab h s') always.
Proof.
  intros K R C (W' & F' & H' & I' & Fr). destruct (slab_step [] [] h V W F H s' W' F' H' K I' R Fr) as [K' Fr']; [intros y Hy; now apply not_elem_of_nil in Hy|]. split; [exact C|]. exists V, W', F', H'. split; [exact K'|]. split; [exact Fr'|exact I].
Qed.

Lemma slab_alloc_ok h V W F H size cpu : heap_ok h V W F H -> cpu_on h cpu -> 0 <= size < 2 ^ 64 -> wp (SLAB_Alloc (k_slab h) size cpu) (fun '(z, s') => kserved 0 size h V W (z, with_slab h s')).
Proof.
  intros K Hcpu Hs. eapply wp_mono; [apply (SLAB_Alloc_ok (k_slab h) W F H size cpu (hp_slab _ _ _ _ _ K) (hp_rest _ _ _ _ _ K) (cpu_on_ready _ _ Hcpu) Hs)|]. intros [z s'] (R & C & [(-> & U & Hwhy)|(Hz & n & Hn & G)]).
  - left. split; [reflexivity|]. split; [exact (same_slab h V W F H s' K R C U)|]. destruct Hwhy as [|E]; [auto|]. right. now apply denied_now.
  - right. split; [exact Hz|]. exists n. split; [exact Hn|]. exact (kgot_slab h V W F H z n s' K R C G).
Qed.

Lemma Kmalloc_ok h V W F H size cpu : heap_ok h V W F H -> cpu_on h cpu -> 0 <= size ->
  wp (Kmalloc h size cpu) (fun '(z, h') => (z = 0 /\ hstep [] [] h V W h' always) \/ (z <> 0 /\ exists i, 0 <= i < 7 /\ size <= class_size i /\ z mod class_size i = 0 /\ kgot z (class_size i) h V W h')).
Proof.
  intros K Hcpu Hs. pose proof (hstep_refl h V W F H K) as Hr. unfold Kmalloc. destruct (k_on h) eqn:Hon; cbn [negb]; [|cbn [wp]; auto]. set (n := if size =? 0 then 1 else size). assert (Hn : 1 <= n /\ size <= n) by (unfold n; destruct (Z.eqb_spec size 0); lia).
  unfold MAX_SLAB_SIZE, MAX_SLAB_ORDER. destruct (Z.ltb_spec 1024 n) as [Hb|Hb]; [cbn [wp]; auto|]. destruct (slub_kmalloc_class_ok n ltac:(lia)) as [Hi Hsz]. set (i := slub_kmalloc_class n) in *. rewrite (proj2 (Z.leb_gt _ _)) by lia.
  destruct (hp_kmalloc _ _ _ _ _ K Hon i Hi) as (a & c & E1 & E2 & E3 & E4). rewrite (get_okZ _ _ a) by (try lia; exact E1). cbn [bind]. destruct (hi_geom _ _ _ _ (proj1 (hp_slub _ _ _ _ _ K)) a c E2) as [G Ha0]. rewrite (proj2 (Z.eqb_neq _ _) Ha0).
  eapply wp_mono; [apply (kmem_cache_alloc_ok h V W F H a c cpu K E2 Hcpu)|]. intros [z h'] [(-> & St)|(Hz & G' & p & (R1 & R2 & _) & Hg)]; [auto|]. right. split; [exact Hz|]. exists i. split; [exact Hi|]. split; [lia|]. rewrite E3 in G'. split; [|exact G'].
  apply elem_of_grid in Hg as (k & Hk & ->). rewrite E3. pose proof (class_geom i Hi) as (G1 & _ & _ & _ & _ & G6 & _). apply Z.mod_divide; [lia|]. apply Z.divide_add_r; [apply Z.divide_add_r|apply Z.divide_factor_r]; [apply Z.divide_trans with 4096; apply Z.mod_divide; (lia || exact G6 || exact R2)|apply Z.mod_divide; [lia|exact E4]].
Qed.

Lemma Kmalloc_asked h size cpu : keeps (Kmalloc h size cpu) (fun '(_, h') => asked 1 (heap_vm h) (heap_vm h')).
Proof.
  assert (Same : asked 1 (heap_vm h) (heap_vm h)) by now apply asked_refl. unfold Kmalloc. destruct (negb _); [now apply keeps_ok|]. cbv zeta. destruct (_ <? _); [now apply keeps_ok|]. destruct (_ <=? _); [now apply keeps_ok|]. apply keeps_bind. eapply keeps_mono; [apply keeps_any|]. intros c _. destruct (c =? 0); [now apply keeps_ok|].
  unfold kmem_cache_alloc. apply keeps_bind. eapply keeps_mono; [apply (slub_Alloc_asked (slub_of h) c cpu)|]. intros [o st'] Ha. apply keeps_ok. exact Ha.
Qed.

Lemma tracked_ok h V W F H size ra : heap_ok h V W F H -> exists h', tracked h size ra = Ok h' /\ heap_ok h' V W F H /\ hframe [] [] h V W h' V W /\ cpus_same (k_slab h) (k_slab h') /\ (forall z n, kblock h' V W z n <-> kblock h V W z n).
Proof.
  intros K. destruct (hp_stats _ _ _ _ _ K) as (L1 & L2 & L3). unfold tracked, km_track, KM_TRACK_SLOTS. change (64 - 1) with 63. rewrite land_63. set (j := Z.shiftr ra 4 mod 64). assert (Hj : 0 <= j < 64) by (apply Z.mod_pos_bound; lia).
  destruct (lookup_lt_is_Some_2 (g_km_bytes (k_stats h)) (Z.to_nat j)) as [b Hb]; [lia|]. destruct (lookup_lt_is_Some_2 (g_km_calls (k_stats h)) (Z.to_nat j)) as [c Hc]; [lia|].
  rewrite (get_okZ _ _ b), put_okZ by (try lia; assumption). cbn [bind]. rewrite (get_okZ _ _ c), put_okZ by (try lia; assumption). cbn [bind]. rewrite put_okZ by lia. cbn [bind]. eexists. split; [reflexivity|].
  split; [split; cbn; rewrite ?length_insert; try apply K; auto|]. split; [|split; [now apply cpus_same_eq|reflexivity]]. split; [intros z n Hz _; split; [exact Hz|apply agree_refl]|]. intros z n Hz. left. split; [exact Hz|apply not_elem_of_nil].
Qed.

Lemma kgot_tracked h V W z n h1 size ra : kgot z n h V W h1 -> exists h', tracked h1 size ra = Ok h' /\ kgot z n h V W h'.
Proof.
  intros (C & V1 & W1 & F1 & H1 & K1 & Fr & Hb & Hn). destruct (tracked_ok h1 V1 W1 F1 H1 size ra K1) as (h' & E & K' & Fr' & C' & Hk). exists h'. split; [exact E|]. split; [exact (cpus_same_trans _ _ _ C C')|]. exists V1, W1, F1, H1. split; [exact K'|]. split; [|split; [now apply Hk|exact Hn]].
  apply (hframe_trans [] [z] [] [] [] [z] _ _ _ _ _ _ _ _ _ Fr Fr'); [tauto|auto|intros y Hy; now apply not_elem_of_nil in Hy].
Qed.

Lemma heap_kmalloc_ok h V W F H size ra cpu : heap_ok h V W F H -> cpu_on h cpu -> 0 <= size < 2 ^ 64 -> wp (heap_kmalloc h size ra cpu) (kserved 1 size h V W).
Proof.
  intros K Hcpu Hs. unfold heap_kmalloc. apply wp_bind. eapply wp_mono; [apply (wp_keeps _ _ _ (Kmalloc_ok h V W F H size cpu K Hcpu ltac:(lia)) (Kmalloc_asked h size cpu))|]. intros [z h1] [[(-> & C1 & V1 & W1 & F1 & H1 & K1 & Fr1 & _)|(Hz & i & Hi & Hsz & _ & G)] Hask].
  - cbn [Z.eqb negb]. apply wp_bind. eapply wp_mono; [apply (slab_alloc_ok h1 V1 W1 F1 H1 size cpu K1 (cpu_on_same _ _ _ C1 Hcpu) Hs)|]. intros [q s'] [(-> & (C2 & V2 & W2 & F2 & H2 & K2 & Fr2 & _) & Hwhy)|(Hq & n & Hn & G)].
    + cbn [Z.eqb negb wp]. left. split; [reflexivity|]. split; [|destruct Hwhy as [|Hd]; [auto|right; exact (denied_after 1 0 _ _ _ Hask Hd)]]. split; [exact (cpus_same_trans _ _ _ C1 C2)|]. exists V2, W2, F2, H2. split; [exact K2|]. split; [exact (hframe_after _ _ _ _ _ _ _ _ _ _ _ Fr1 Fr2)|exact I].
    + rewrite (proj2 (Z.eqb_neq _ _) Hq). cbn [negb]. destruct (kgot_tracked _ _ _ _ _ _ size ra G) as (h' & E & G'). rewrite E. cbn [bind wp]. right. split; [exact Hq|]. exists n. split; [exact Hn|]. exact (kgot_after q n h V W h1 V1 W1 h' C1 Fr1 G').
  - rewrite (proj2 (Z.eqb_neq _ _) Hz). cbn [negb]. destruct (kgot_tracked _ _ _ _ _ _ size ra G) as (h' & E & G'). rewrite E. cbn [bind wp]. right. split; [exact Hz|]. exists (class_size i). auto.
Qed.

(** * Alignment *)

(** The answer of an allocation with an alignment. *)
Definition kserved_at (k : nat) (size align : Z) h V W (x : Z * kheap PS) : Prop :=
  let '(z, h') := x in (z = 0 /\ hstep [] [] h V W h' always /\ (unaligned size align \/ 2 ^ 64 <= size + 4143 \/ denied k size (heap_vm h))) \/ (z <> 0 /\ z mod align = 0 /\ exists n, size <= n /\ kgot z n h V W h').

Lemma heap_kmalloc_aligned_ok h V W F H size align cpu : heap_ok h V W F H -> cpu_on h cpu -> 0 <= size < 2 ^ 64 -> 0 <= align ->
  wp (heap_kmalloc_aligned h size align cpu) (kserved_at 1 size align h V W).
Proof.
  intros K Hcpu Hs Ha. unfold heap_kmalloc_aligned.
  assert (Slab : forall h1 V1 W1 F1 H1, heap_ok h1 V1 W1 F1 H1 -> cpu_on h1 cpu -> wp (let* (q, s) := SLAB_AllocAligned (k_slab h1) size align cpu in Ok (q, with_slab h1 s)) (kserved_at 0 size align h1 V1 W1)).
  { intros h1 V1 W1 F1 H1 K1 Hc1. apply wp_bind. eapply wp_mono; [apply (SLAB_AllocAligned_ok (k_slab h1) W1 F1 H1 size align cpu (hp_slab _ _ _ _ _ K1) (hp_rest _ _ _ _ _ K1) (cpu_on_ready _ _ Hc1) Hs Ha)|].
    intros [z s'] (R & C & [(-> & U & Hwhy)|(Hz & Hal & n & Hn & G)]); cbn [wp]; [left; split; [reflexivity|]; split; [exact (same_slab h1 V1 W1 F1 H1 s' K1 R C U)|]; destruct Hwhy as [Hw|[Hw|E]]; auto; do 2 right; now apply denied_now|]. right. split; [exact Hz|]. split; [exact Hal|]. exists n. split; [exact Hn|]. exact (kgot_slab h1 V1 W1 F1 H1 z n s' K1 R C G). }
  destruct (k_on h); [|eapply wp_mono; [exact (Slab h V W F H K Hcpu)|]; intros [z h'] [(A1 & A2 & A3)|A]; [left; split_and!; auto; destruct A3 as [|[|Hd]]; auto; do 2 right; apply (denied_le 0); [lia|exact Hd]|now right]]. destruct (Z.eqb_spec align 0) as [E0|E0]; [cbn [orb wp]; left; split; [reflexivity|]; split; [exact (hstep_refl h V W F H K)|unfold unaligned; auto]|]. cbn [orb]. destruct (Z.eqb_spec (Z.land align (align - 1)) 0) as [E1|E1]; [|cbn [negb wp]; left; split; [reflexivity|]; split; [exact (hstep_refl h V W F H K)|unfold unaligned; auto]]. cbn [negb].
  set (need := if align <? size then size else align). assert (Hneed : size <= need /\ align <= need) by (unfold need; destruct (Z.ltb_spec align size); lia). apply wp_bind. eapply wp_mono; [apply (wp_keeps _ _ _ (Kmalloc_ok h V W F H need cpu K Hcpu ltac:(lia)) (Kmalloc_asked h need cpu))|].
  intros [z h1] [[(-> & C1 & V1 & W1 & F1 & H1 & K1 & Fr1 & _)|(Hz & i & Hi & Hsz & Hal & G)] Hask].
  - cbn [Z.eqb negb]. eapply wp_mono; [apply (Slab h1 V1 W1 F1 H1 K1 (cpu_on_same _ _ _ C1 Hcpu))|]. intros [z h2] [(-> & (C2 & V2 & W2 & F2 & H2 & K2 & Fr2 & _) & Hwhy)|(Hz & Hal & n & Hn & G)].
    + left. split; [reflexivity|]. split; [|destruct Hwhy as [|[|Hd]]; auto; do 2 right; exact (denied_after 1 0 _ _ _ Hask Hd)]. split; [exact (cpus_same_trans _ _ _ C1 C2)|]. exists V2, W2, F2, H2. split; [exact K2|]. split; [exact (hframe_after _ _ _ _ _ _ _ _ _ _ _ Fr1 Fr2)|exact I].
    + right. split; [exact Hz|]. split; [exact Hal|]. exists n. split; [exact Hn|]. exact (kgot_after z n h V W h1 V1 W1 h2 C1 Fr1 G).
  - rewrite (proj2 (Z.eqb_neq _ _) Hz). cbn [negb wp]. right. split; [exact Hz|]. split; [|exists (class_size i); split; [lia|exact G]]. pose proof (class_geom i Hi) as (G1 & _). destruct (pow2_small align ltac:(lia) E1) as (k & Hk & ->). apply Z.mod_divide in Hal; [|lia]. apply Z.mod_divide; [lia|].
    apply Z.divide_trans with (2 := Hal). unfold class_size in *. change 16 with (2 ^ 4) in *. rewrite <- Z.pow_add_r in * by lia. apply pow2_divide; [exact Hk|lia|lia].
Qed.

(** * Contents *)

Lemma h_copy_ok h V W F H z n z' n' : heap_ok h V W F H -> kblock h V W z n -> kblock h V W z' n' -> z <> z' -> n <= n' ->
  exists l, h_copy h z' z n = Ok (h_write h z' l) /\ Z.of_nat (length l) = n /\ bytes l /\ holds (a_mem (b_arena (k_slab h))) z l.
Proof.
  intros K Hz Hz' Hne Hn. pose proof (kblock_bounds _ _ _ _ _ _ _ K Hz) as (_ & B & _ & M). pose proof (kblock_bounds _ _ _ _ _ _ _ K Hz') as (_ & _ & _ & M'). pose proof (ob_arena _ _ _ _ (proj1 (hp_slab _ _ _ _ _ K))) as HA.
  destruct (load_bytes_ok _ z (Z.to_nat n) (ar_wf _ _ HA) ltac:(intros j Hj; apply M; lia)) as (l & _ & Hlen & Hb & Hh). exists l. split; [|split; [lia|auto]].
  unfold h_copy, b_copy. replace n with (Z.of_nat (length l)) by lia. unfold memcpy. rewrite memcpy_ok; [reflexivity|apply HA|exact Hh| | |].
  - intros x Hx. apply M'. lia.
  - destruct (kblocks_apart h V W F H z n z' n' K Hz Hz' Hne); [right; lia|left; lia].
  - lia.
Qed.

Lemma h_set_ok h V W F H z n v k : heap_ok h V W F H -> kblock h V W z n -> byte v -> 0 <= k <= n -> h_set h z v k = Ok (h_write h z (replicate (Z.to_nat k) v)).
Proof.
  intros K Hz Hv Hk. pose proof (kblock_bounds _ _ _ _ _ _ _ K Hz) as (_ & _ & _ & M). unfold h_set. replace k with (Z.of_nat (Z.to_nat k)) at 2 by lia. rewrite memset_x86; [reflexivity| |lia|exact Hv]. intros x Hx. apply M. lia.
Qed.

Lemma h_write_lookup h a l k : a <= k < a + Z.of_nat (length l) -> a_mem (b_arena (k_slab (h_write h a l))) !! k = l !! Z.to_nat (k - a).
Proof. intros Hk. unfold h_write, b_write. cbn. rewrite write_lookup. now rewrite decide_True by lia. Qed.

(** * [kcalloc] *)

Lemma heap_kcalloc_ok h V W F H n size ra cpu : heap_ok h V W F H -> cpu_on h cpu -> 0 <= n < 2 ^ 64 -> 0 <= size < 2 ^ 64 ->
  wp (heap_kcalloc h n size ra cpu) (fun '(z, h') => (z = 0 /\ hstep [] [] h V W h' always /\ (n * size = 0 \/ 2 ^ 64 <= n * size + 4143 \/ denied 1 (n * size) (heap_vm h))) \/
    (z <> 0 /\ 0 < n * size < 2 ^ 64 /\ (exists k, n * size <= k /\ kgot z k h V W h') /\ forall j, 0 <= j < n * size -> a_mem (b_arena (k_slab h')) !! (z + j) = Some 0)).
Proof.
  intros K Hcpu Hn Hs. pose proof (hstep_refl h V W F H K) as Hr. unfold heap_kcalloc. destruct (Z.eqb_spec n 0) as [E0|E0]; [cbn [orb wp]; left; split_and!; auto; left; lia|]. destruct (Z.eqb_spec size 0) as [E1|E1]; [cbn [orb wp]; left; split_and!; auto; left; lia|]. cbn [orb]. destruct (Z.leb_spec (2 ^ 64) (n * size)) as [Ho|Ho]; [cbn [wp]; left; split_and!; auto; right; left; lia|].
  assert (Ht : 0 < n * size) by nia. apply wp_bind. eapply wp_mono; [apply (heap_kmalloc_ok h V W F H (n * size) ra cpu K Hcpu ltac:(lia))|]. intros [z h1] [(-> & St & Hwhy)|(Hz & k & Hk & G)]; [cbn [Z.eqb negb wp]; auto|]. rewrite (proj2 (Z.eqb_neq _ _) Hz). cbn [negb].
  destruct G as (C & V1 & W1 & F1 & H1 & K1 & Fr & Hb & Hnb). assert (B0 : byte 0) by (unfold byte; lia). rewrite (h_set_ok h1 V1 W1 F1 H1 z k 0 (n * size) K1 Hb B0 ltac:(lia)). cbn [bind wp]. right. split; [exact Hz|]. split; [lia|].
  set (l := replicate (Z.to_nat (n * size)) 0). assert (Hl : Z.of_nat (length l) = n * size) by (unfold l; rewrite length_replicate; lia). destruct (h_write_ok h1 V1 W1 F1 H1 z k z l K1 Hb ltac:(lia) ltac:(lia)) as (K2 & Fr2 & Hb2); [unfold l; apply Forall_replicate; exact B0|]. split.
  - exists k. split; [exact Hk|]. split; [exact C|]. exists V1, W1, F1, H1. split; [exact K2|]. split; [|split; [exact Hb2|exact Hnb]]. apply (hframe_trans [] [z] [z] [z] [] [z] _ _ _ _ _ _ _ _ _ Fr Fr2); [|auto|auto].
    intros y j Hy. split; [intros _; split; [apply not_elem_of_nil|rewrite list_elem_of_singleton; intros ->; exact (Hnb j Hy)]|intros _; apply not_elem_of_nil].
  - intros j Hj. rewrite h_write_lookup by lia. unfold l. apply lookup_replicate_2. lia.
Qed.

(** * [krealloc] *)

(** The answer of [krealloc] for the block [z] of [n] bytes. *)
Definition kresized (z n size : Z) h V W (x : Z * kheap PS) : Prop :=
  let '(z', h') := x in
  (z' = 0 /\ n < size /\ hstep [] [] h V W h' always /\ (2 ^ 64 <= size + 4143 \/ denied 1 size (heap_vm h))) \/ (z' = z /\ size <= n /\ h' = h) \/
  (z' <> 0 /\ n < size /\ exists n', size <= n' /\ hstep [z] [z'] h V W h' (fun V' W' => kblock h' V' W' z' n' /\ forall k, ~ kblock h V W z' k) /\ copied (a_mem (b_arena (k_slab h))) z (a_mem (b_arena (k_slab h'))) z' n).

Lemma kmove_ok h V W F H z n np n' h1 cpu : heap_ok h V W F H -> kblock h V W z n -> cpu_on h cpu -> n <= n' -> kgot np n' h V W h1 ->
  wp (let* h := h_copy h1 np z n in heap_kfree h z cpu) (fun h' => hstep [z] [np] h V W h' (fun V' W' => kblock h' V' W' np n' /\ forall k, ~ kblock h V W np k) /\ copied (a_mem (b_arena (k_slab h))) z (a_mem (b_arena (k_slab h'))) np n).
Proof.
  intros K Hz Hcpu Hn (C1 & V1 & W1 & F1 & H1 & K1 & Fr1 & Hb1 & Hnb). destruct (hf_live _ _ _ _ _ _ _ _ Fr1 z n Hz ltac:(apply not_elem_of_nil)) as [Hz1 Ag1]. assert (Hne : z <> np) by (intros ->; exact (Hnb n Hz)).
  destruct (h_copy_ok h1 V1 W1 F1 H1 z n np n' K1 Hz1 Hb1 Hne Hn) as (l & Ec & Hlen & Hby & Hh). rewrite Ec. cbn [bind]. destruct (h_write_ok h1 V1 W1 F1 H1 np n' np l K1 Hb1 ltac:(lia) ltac:(lia) Hby) as (K2 & Fr2 & Hb2). set (h2 := h_write h1 np l) in *.
  destruct (hf_live _ _ _ _ _ _ _ _ Fr2 z n Hz1) as [Hz2 _]; [rewrite list_elem_of_singleton; exact Hne|]. eapply wp_mono; [apply (heap_kfree_ok h2 V1 W1 F1 H1 z n cpu K2 Hz2)|]. { apply (cpu_on_same h1 h2); [now apply cpus_same_eq|]. exact (cpu_on_same h h1 cpu C1 Hcpu). }
  intros h3 (C3 & V3 & W3 & F3 & H3 & K3 & Fr3 & _). destruct (hf_live _ _ _ _ _ _ _ _ Fr3 np n' Hb2) as [Hb3 Ag3]; [rewrite list_elem_of_singleton; congruence|]. split; [split|].
  - exact (cpus_same_trans _ _ _ C1 C3).
  - exists V3, W3, F3, H3. split; [exact K3|]. split; [|split; [exact Hb3|exact Hnb]]. assert (Fr12 : hframe [] [np] h V W h2 V1 W1).
    { apply (hframe_trans [] [np] [np] [np] [] [np] _ _ _ _ _ _ _ _ _ Fr1 Fr2); [|auto|auto]. intros y j Hy. split; [intros _; split; [apply not_elem_of_nil|rewrite list_elem_of_singleton; intros ->; exact (Hnb j Hy)]|intros _; apply not_elem_of_nil]. }
    apply (hframe_trans [] [np] [z] [] [z] [np] _ _ _ _ _ _ _ _ _ Fr12 Fr3); [|auto|intros y Hy; now apply not_elem_of_nil in Hy]. intros y j _. split; [intros Hy; split; [apply not_elem_of_nil|exact Hy]|tauto].
  - intros j Hj. rewrite (Ag3 (np + j)) by lia. unfold h2. rewrite h_write_lookup by lia. replace (Z.to_nat (np + j - np)) with (Z.to_nat j) by lia. destruct (lookup_lt_is_Some_2 l (Z.to_nat j)) as [b Hbb]; [lia|]. rewrite Hbb, <- (Ag1 (z + j)) by lia. symmetry. pose proof (Hh (Z.to_nat j) b Hbb) as E. now rewrite Z2Nat.id in E by lia.
Qed.

Lemma heap_krealloc_ok h V W F H z n size ra cpu : heap_ok h V W F H -> kblock h V W z n -> cpu_on h cpu -> 1 <= size < 2 ^ 64 -> wp (heap_krealloc h z size ra cpu) (kresized z n size h V W).
Proof.
  intros K Hz Hcpu Hs. pose proof (kblock_bounds _ _ _ _ _ _ _ K Hz) as (B & Bn & _). unfold heap_krealloc. rewrite (proj2 (Z.eqb_neq z 0)), (proj2 (Z.eqb_neq size 0)) by lia. destruct (TryGetSize_ok h V W F H z n K) as [T1 T2]. pose proof Hz as [Hl|[Hb Hc]].
  - rewrite (T1 Hl). cbn [bind]. rewrite (proj2 (Z.eqb_neq n 0)) by lia. cbn [negb]. destruct (Z.leb_spec size n) as [Hle|Hgt]; [cbn [wp]; right; left; auto|]. apply wp_bind. eapply wp_mono; [apply (heap_kmalloc_ok h V W F H size ra cpu K Hcpu ltac:(lia))|].
    intros [np h1] [(-> & St & Hwhy)|(Hnp & n' & Hn' & G)]; [cbn [Z.eqb wp]; left; auto|]. rewrite (proj2 (Z.eqb_neq _ _) Hnp). rewrite <- bind_assoc. apply wp_bind. eapply wp_mono; [apply (kmove_ok h V W F H z n np n' h1 cpu K Hz Hcpu ltac:(lia) G)|]. intros h' [St Cp]. cbn [wp]. right; right. split; [exact Hnp|]. split; [lia|]. exists n'. auto.
  - rewrite (T2 Hb). cbn [bind negb Z.eqb]. apply wp_bind. eapply wp_mono; [apply (SLAB_Realloc_ok (k_slab h) W F H z n size cpu (hp_slab _ _ _ _ _ K) (hp_rest _ _ _ _ _ K) (cpu_on_ready _ _ Hcpu) Hb Hs)|].
    intros [z' s'] (R & C & [(-> & Hlt & U & Hwhy)|[(-> & Hle & ->)|(Hz' & Hlt & n' & W' & F' & H' & Hn' & I' & Fr & Hb' & Hnb & Cp)]]); cbn [wp].
    + left. split; [reflexivity|]. split; [exact Hlt|]. split; [exact (same_slab h V W F H s' K R C U)|]. destruct Hwhy as [Hw|E]; [auto|]. right. now apply denied_now.
    + right; left. split; [reflexivity|]. split; [exact Hle|]. now destruct h.
    + right; right. split; [exact Hz'|]. split; [exact Hlt|]. exists n'. split; [exact Hn'|]. split; [|exact Cp]. destruct (slab_step [z] [z'] h V W F H s' W' F' H' K I' R Fr) as [K' Fr']; [intros y Hy; apply list_elem_of_singleton in Hy as ->; eauto|].
      split; [exact C|]. exists V, W', F', H'. split; [exact K'|]. split; [exact Fr'|]. split.
      * right. split; [exact Hb'|]. cbn. destruct (k_caches h !! z') as [c0|] eqn:E; [|reflexivity]. destruct (hp_desc _ _ _ _ _ K z' _ E) as [k Hk]. exfalso. exact (Hnb k Hk).
      * intros k [Hk|[Hk _]]; [|exact (Hnb k Hk)]. assert (Hk' : live_obj (slub_of (with_slab h s')) V z' k) by exact Hk. exact (not_both _ _ _ _ _ _ _ _ K' Hk' Hb').
Qed.
End Ops.
