(* ===== verification/KheapInit.v ===== *)
(** The kernel heap: caches of objects are created and destroyed; the caches of
    kmalloc are created together or not at all; the heap at boot. *)
From stdpp Require Import base gmap list fin_maps relations.
From Stdlib Require Import ZArith Lia.
From S2P Require Import Prelude Words Memory PMM PMMBits PMMInit HeapMem Slub SlubInv SlubAlloc SlubFree Slab SlabInv SlabPage SlabAlloc SlabFree HeapSupply Kheap KheapInv.

Open Scope Z_scope.
Open Scope c_scope.

Section Cache.
Context {PS : Type} `{PSI : !PageSource PS} `{PSL : !PageSourceOk PS}.
Implicit Types (h : kheap PS) (V : gmap Z view) (W : gmap Z place) (F : gmap Z (list Z)) (H : gmap Z Z).

Definition with_caches h (C : gmap Z kmem_cache) : kheap PS := Heap (k_slab h) (k_slabs h) C (k_kmalloc h) (k_on h) (k_stats h).

(** The block [a] becomes the descriptor of a cache. *)
Lemma adopt_ok h V W F H a n c : heap_ok h V W F H -> block (k_slab h) W a n -> k_caches h !! a = None -> geom_ok c -> kc_partial c = 0 -> kc_nr_partial c = 0 -> (forall i p, kc_active c !! i = Some p -> p = 0) ->
  heap_ok (with_caches h (<[a := c]> (k_caches h))) V W F H /\ hframe [a] [] h V W (with_caches h (<[a := c]> (k_caches h))) V W.
Proof.
  intros K Ha Hc G Ep En Eact. set (h' := with_caches h _). pose proof (hp_slub _ _ _ _ _ K) as I. pose proof (kblock_bounds _ _ _ _ _ _ _ K (or_intror (conj Ha Hc))) as (Ha0 & _).
  assert (Hlive : forall z k, live_obj (slub_of h') V z k <-> live_obj (slub_of h) V z k) by (intros z k; exact (put_cache_live (slub_of h) V H false a c z k I Hc)). split; [split|split].
  - apply (put_cache_ok false (slub_of h) V H a c I Hc); auto. lia.
  - exact (hp_slab _ _ _ _ _ K).
  - exact (hp_rest _ _ _ _ _ K).
  - exact (hp_apart _ _ _ _ _ K).
  - intros b k Hb. cbn in Hb. destruct (decide (a = b)) as [<-|Hne]; [eauto|]. rewrite lookup_insert_ne in Hb by exact Hne. exact (hp_desc _ _ _ _ _ K b k Hb).
  - intros Hon i Hi. destruct (hp_kmalloc _ _ _ _ _ K Hon i Hi) as (b & k & E1 & E2 & E3). exists b, k. split; [exact E1|]. split; [|exact E3]. cbn. rewrite lookup_insert_ne by congruence. exact E2.
  - exact (hp_length _ _ _ _ _ K).
  - exact (hp_stats _ _ _ _ _ K).
  - intros z k Hz Hza. rewrite list_elem_of_singleton in Hza. split; [|apply agree_refl]. destruct Hz as [Hz|[Hz Hn]]; [left; now apply Hlive|]. right. split; [exact Hz|]. cbn. now rewrite lookup_insert_ne by congruence.
  - intros z k Hz. left. rewrite list_elem_of_singleton. destruct Hz as [Hz|[Hz Hn]].
    + apply Hlive in Hz. split; [left; exact Hz|]. intros ->. exact (not_both _ _ _ _ _ _ _ _ K Hz Ha).
    + cbn in Hn. destruct (decide (a = z)) as [<-|Hne]; [rewrite lookup_insert_eq in Hn; discriminate|]. rewrite lookup_insert_ne in Hn by exact Hne. split; [right; auto|congruence].
Qed.

(** The descriptor of a cache without slabs becomes a block again. *)
Lemma disown_ok h V W F H a : heap_ok h V W F H -> is_Some (k_caches h !! a) -> (forall p s, k_slabs h !! p = Some s -> su_cache s <> a) -> (k_on h = true -> a ∉ k_kmalloc h) ->
  heap_ok (with_caches h (delete a (k_caches h))) V W F H /\ hframe [] [a] h V W (with_caches h (delete a (k_caches h))) V W /\ exists n, block (k_slab h) W a n.
Proof.
  intros K [c Ha] Hno Hkm. set (h' := with_caches h _). destruct (drop_cache_ok false (slub_of h) V H a (hp_slub _ _ _ _ _ K) Hno) as [I' Hlive]. split; [split|split; [split|exact (hp_desc _ _ _ _ _ K a c Ha)]].
  - exact I'.
  - exact (hp_slab _ _ _ _ _ K).
  - exact (hp_rest _ _ _ _ _ K).
  - exact (hp_apart _ _ _ _ _ K).
  - intros b k Hb. cbn in Hb. apply lookup_delete_Some in Hb as [_ Hb]. exact (hp_desc _ _ _ _ _ K b k Hb).
  - intros Hon i Hi. destruct (hp_kmalloc _ _ _ _ _ K Hon i Hi) as (b & k & E1 & E2 & E3). exists b, k. split; [exact E1|]. split; [|exact E3]. cbn. rewrite lookup_delete_ne; [exact E2|]. intros ->. exact (Hkm Hon (list_elem_of_lookup_2 _ _ _ E1)).
  - exact (hp_length _ _ _ _ _ K).
  - exact (hp_stats _ _ _ _ _ K).
  - intros z k Hz _. split; [|apply agree_refl]. destruct Hz as [Hz|[Hz Hn]]; [left; now apply Hlive|]. right. split; [exact Hz|]. cbn. rewrite lookup_delete_ne by congruence. exact Hn.
  - intros z k Hz. destruct (decide (z = a)) as [->|Hne]; [right; left|]. left. split; [|apply not_elem_of_nil]. destruct Hz as [Hz|[Hz Hn]]; [left; now apply Hlive|]. right. split; [exact Hz|]. cbn in Hn. now rewrite lookup_delete_ne in Hn by congruence.
Qed.

(** * [Create] *)

Definition created (size al : Z) h V W (x : Z * kheap PS) : Prop :=
  let '(a, h') := x in cpus_same (k_slab h) (k_slab h') /\ k_slabs h' = k_slabs h /\ k_kmalloc h' = k_kmalloc h /\ k_on h' = k_on h /\
  (exists W' F' H', heap_ok h' V W' F' H' /\ hframe [] [] h V W h' V W') /\
  ((a = 0 /\ k_caches h' = k_caches h /\ (~ fits size al \/ denied 0 sizeof_kmem_cache (heap_vm h))) \/
   (a <> 0 /\ fits size al /\ k_caches h !! a = None /\ exists c, k_caches h' = <[a := c]> (k_caches h) /\ geom_ok c /\ kc_obj_size c = round_up size (Z.max 8 al) /\ kc_area_off c = round_up sizeof_slub_slab (Z.max 8 al))).

Lemma SLUB_Create_ok h V W F H name size al cpu : heap_ok h V W F H -> cpu_on h cpu -> 0 <= size -> 0 <= al -> size + Z.max 8 al < 2 ^ 32 -> sizeof_slub_slab + Z.max 8 al < 2 ^ 32 -> wp (SLUB_Create h name size al cpu) (created size al h V W).
Proof.
  intros K Hcpu Hs Hal Hb1 Hb2. pose proof (cache_geometry_ok size al Hs Hal Hb1 Hb2) as Hg. unfold SLUB_Create. destruct (cache_geometry size al) as [[os off]|].
  2: { cbn [wp]. split; [now apply cpus_same_eq|]. split_and!; auto. exists W, F, H. split; [exact K|apply hframe_refl]. }
  destruct Hg as (Hf & -> & ->). set (os := round_up size _) in *. set (off := round_up sizeof_slub_slab _) in *. assert (G : 8 <= os /\ 56 <= off /\ off + os <= 4096).
  { destruct Hf as (F1 & _ & F3). destruct (round_up_bound size (Z.max 8 al) ltac:(lia)) as [A1 A2]. destruct (round_up_bound sizeof_slub_slab (Z.max 8 al) ltac:(lia)) as [B1 _]. unfold sizeof_slub_slab at 1 in B1. fold os in A1, A2, F3. fold off in B1, F3. split; [|lia]. apply Z.mod_divide in A2 as [q Hq]; [|lia]. assert (0 < q) by nia. nia. }
  apply wp_bind.
  eapply wp_mono; [apply (SLAB_Alloc_ok (k_slab h) W F H sizeof_kmem_cache cpu (hp_slab _ _ _ _ _ K) (hp_rest _ _ _ _ _ K) (cpu_on_ready _ _ Hcpu) ltac:(unfold sizeof_kmem_cache; lia))|].
  intros [a s'] (R & C & [(-> & (W1 & F1 & H1 & I1 & Fr1) & Hwhy)|(Ha & n & Hn & W1 & F1 & H1 & I1 & Fr1 & Hb & Hnb)]).
  - cbn [Z.eqb wp]. destruct (slab_step [] [] h V W F H s' W1 F1 H1 K I1 R Fr1) as [K' Fr']; [intros y Hy; now apply not_elem_of_nil in Hy|]. split; [exact C|]. split_and!; auto; [eauto|]. left. split_and!; auto. right. destruct Hwhy as [Hbig|E]; [unfold sizeof_kmem_cache in Hbig; lia|]. now apply denied_now.
  - rewrite (proj2 (Z.eqb_neq _ _) Ha). destruct (slab_step [] [a] h V W F H s' W1 F1 H1 K I1 R Fr1) as [K1 Fr1']; [intros y Hy; now apply not_elem_of_nil in Hy|]. set (h1 := with_slab h s') in *.
    assert (Hca : k_caches h !! a = None) by (destruct (k_caches h !! a) as [c0|] eqn:E; [|reflexivity]; destruct (hp_desc _ _ _ _ _ K a _ E) as [j Hj]; exfalso; exact (Hnb j Hj)).
    assert (Hkb : kblock h1 V W1 a n) by (right; split; [exact Hb|exact Hca]). assert (B0 : byte 0) by (unfold byte; lia). rewrite (h_set_ok h1 V W1 F1 H1 a n 0 sizeof_kmem_cache K1 Hkb B0) by (unfold sizeof_kmem_cache in *; lia). cbn [bind].
    destruct (h_write_ok h1 V W1 F1 H1 a n a (replicate (Z.to_nat sizeof_kmem_cache) 0) K1 Hkb ltac:(lia)) as (K2 & Fr2 & _); [rewrite length_replicate; unfold sizeof_kmem_cache in *; lia|apply Forall_replicate; exact B0|]. set (h2 := h_write h1 a _) in *.
    destruct (new_cache_ok name os off ltac:(lia) ltac:(lia) ltac:(lia)) as (c & Ec & Gc & E1 & E2 & E3 & E4 & E5). rewrite Ec. cbn [bind wp]. change (Heap _ _ _ _ _ _) with (with_caches h2 (<[a := c]> (k_caches h2))).
    destruct (adopt_ok h2 V W1 F1 H1 a n c K2 Hb Hca Gc E3 E4 E5) as [K3 Fr3]. split; [exact C|]. split_and!; auto; [exists W1, F1, H1; split; [exact K3|]|right; split; [exact Ha|]; split; [exact Hf|]; split; [exact Hca|]; exists c; auto].
    assert (Fr12 : hframe [] [a] h V W h2 V W1) by (apply (hframe_trans [] [a] [a] [a] [] [a] _ _ _ _ _ _ _ _ _ Fr1' Fr2); [|auto|auto]; intros y j [Hy|[Hy _]]; (split; [intros _; split; [apply not_elem_of_nil|rewrite list_elem_of_singleton; intros ->]|intros _; apply not_elem_of_nil]); [exact (not_both h1 V W1 F1 H1 a j n K1 Hy Hb)|exact (Hnb j Hy)]).
    apply (hframe_trans [] [a] [a] [] [] [] _ _ _ _ _ _ _ _ _ Fr12 Fr3); [|auto|auto]. intros y j [Hy|[Hy _]]; (split; [intros _; split; [apply not_elem_of_nil|rewrite list_elem_of_singleton; intros ->]|intros _; apply not_elem_of_nil]); [exact (not_both h1 V W1 F1 H1 a j n K1 Hy Hb)|exact (Hnb j Hy)].
Qed.

Lemma SLUB_Create_asked h name size al cpu : keeps (SLUB_Create h name size al cpu) (fun '(_, h') => asked 1 (heap_vm h) (heap_vm h')).
Proof.
  unfold SLUB_Create. destruct (cache_geometry size al) as [[os off]|]; [|now apply keeps_ok, asked_refl]. apply keeps_bind. eapply keeps_mono; [apply (descriptor_asked (k_slab h) cpu)|]. intros [c s] Ha. cbv zeta. destruct (c =? 0); [now apply keeps_ok|].
  apply keeps_bind. apply (keeps_mono _ (fun h1 => heap_vm h1 = slab_vm s)); [unfold h_set; apply keeps_bind; eapply keeps_mono; [apply keeps_any|]; intros [m ?] _; now apply keeps_ok|]. intros h1 E1. apply keeps_bind. eapply keeps_mono; [apply keeps_any|]. intros kc _. apply keeps_ok. change (asked 1 (heap_vm h) (heap_vm h1)). now rewrite E1.
Qed.

(** * [Destroy] *)

Lemma SLUB_Destroy_ok h V W F H a cpu : heap_ok h V W F H -> cpu_on h cpu -> is_Some (k_caches h !! a) -> idle (slub_of h) V a -> (k_on h = true -> a ∉ k_kmalloc h) ->
  wp (SLUB_Destroy h a cpu) (fun h' => hstep [] [] h V W h' always /\ k_kmalloc h' = k_kmalloc h /\ k_on h' = k_on h /\ k_caches h' !! a = None /\ (forall b, b <> a -> k_caches h' !! b = k_caches h !! b) /\ forall p s, k_slabs h' !! p = Some s -> k_slabs h !! p = Some s).
Proof.
  intros K Hcpu [c Ha] Hid Hkm. unfold SLUB_Destroy. destruct (hi_geom _ _ _ _ (proj1 (hp_slub _ _ _ _ _ K)) a c Ha) as [_ Ha0]. rewrite (proj2 (Z.eqb_neq _ _) Ha0). apply wp_bind.
  eapply wp_mono; [apply (release_slabs_ok false (slub_of h) V H a c (hp_slub _ _ _ _ _ K) Hid Ha)|]. intros st' (V1 & H1 & I1 & Fr1 & Hno & Hsub & Eb & Hsa). destruct (slub_step [] [] h V W F H st' V1 H1 K I1 Fr1) as [K1 Fr1']. specialize (Fr1' ltac:(intros y Hy; now apply not_elem_of_nil in Hy)).
  set (h1 := with_slub h st') in *. destruct (disown_ok h1 V1 W F H1 a K1 Hsa Hno Hkm) as (K2 & Fr2 & n & Hb). set (h2 := with_caches h1 _) in *. apply wp_bind. assert (Hcpu1 : cpu_on h2 cpu) by (apply (cpu_on_same h h2); [now apply cpus_same_eq|exact Hcpu]).
  eapply wp_mono; [apply (SLAB_Free_ok (k_slab h2) W F H1 a n cpu (hp_slab _ _ _ _ _ K2) (hp_rest _ _ _ _ _ K2) (cpu_on_ready _ _ Hcpu1) Hb)|]. intros s' (R & C & W3 & F3 & H3 & I3 & Fr3). cbn [wp]. change (Heap _ _ _ _ _ _) with (with_slab h2 s').
  destruct (slab_step [a] [] h2 V1 W F H1 s' W3 F3 H3 K2 I3 R Fr3) as [K3 Fr3']; [intros y Hy; apply list_elem_of_singleton in Hy as ->; split; [apply lookup_delete_eq|eauto]|].
  split; [split; [exact C|]|split_and!; auto; [apply lookup_delete_eq|intros b Hne; cbn; rewrite lookup_delete_ne by congruence; auto]]. exists V1, W3, F3, H3. split; [exact K3|]. split; [|exact I]. apply (hframe_after _ _ _ _ _ _ _ _ _ _ _ Fr1').
  apply (hframe_trans [] [a] [a] [] [] [] _ _ _ _ _ _ _ _ _ Fr2 Fr3'); [|auto|auto]. intros y j Hy. split; [intros _; split; [apply not_elem_of_nil|rewrite list_elem_of_singleton; intros ->]|intros _; apply not_elem_of_nil]. destruct Hsa as [c1 Hc1]. destruct Hy as [Hy|[_ Hy]]; [exact (not_both _ _ _ _ _ _ _ _ K1 Hy Hb)|]. cbn in Hy. congruence.
Qed.
End Cache.

(** The kernel heap from its start: the caches of kmalloc are created together or
    not at all, and an empty heap satisfies the invariant. *)

Section Init.
Context {PS : Type} `{PSI : !PageSource PS} `{PSL : !PageSourceOk PS}.
Implicit Types (h : kheap PS) (V : gmap Z view) (W : gmap Z place) (F : gmap Z (list Z)) (H : gmap Z Z).

(** * Caches of the heap's own *)

(** [h] has the caches of [h0] and the new, empty caches [L]. *)
Record grown h0 V0 W0 (L : list Z) h : Prop := {
  gr_step : hstep [] [] h0 V0 W0 h always;
  gr_on : k_on h = k_on h0;
  gr_slabs p s : k_slabs h !! p = Some s -> k_slabs h0 !! p = Some s;
  gr_nodup : NoDup L;
  gr_new a : a ∈ L -> k_caches h0 !! a = None /\ is_Some (k_caches h !! a);
  gr_old b : b ∉ L -> k_caches h !! b = k_caches h0 !! b
}.

Lemma grown_nil h V W F H : heap_ok h V W F H -> grown h V W [] h.
Proof. intros K. split; auto; [now apply (hstep_refl h V W F H)|constructor|intros a Ha; now apply not_elem_of_nil in Ha]. Qed.

(** A change of the table of kmalloc while it is not in use. *)
Lemma with_kmalloc_ok h V W F H l on : heap_ok h V W F H -> length l = 7%nat -> (on = true -> forall i, 0 <= i < 7 -> exists a c, l !! Z.to_nat i = Some a /\ k_caches h !! a = Some c /\ class_cache i c) -> heap_ok (with_kmalloc h l on) V W F H.
Proof. intros K Hl Hon. split; try apply K; [exact Hon|exact Hl]. Qed.

Lemma grown_kmalloc h0 V0 W0 L h l : k_on h0 = false -> grown h0 V0 W0 L h -> length l = 7%nat -> grown h0 V0 W0 L (with_kmalloc h l (k_on h)).
Proof.
  intros Hoff [(C & V & W & F & H & K & Fr & _) G2 G3 G4 G5 G6] Hl. split; auto. split; [exact C|]. exists V, W, F, H. split; [|split; [|exact I]]; [apply (with_kmalloc_ok h V W F H l _ K Hl); rewrite G2, Hoff; discriminate|]. destruct Fr as [F1 F2]. split; [exact F1|exact F2].
Qed.

Lemma class_fits i : 0 <= i < 7 -> fits (class_size i) (class_size i).
Proof.
  intros Hi. split; [pose proof (class_geom i Hi); lia|]. split; [exists (i + 4); split; [lia|unfold class_size; rewrite Z.pow_add_r by lia; lia]|]. destruct (class_cases i Hi) as [->|[->|[->|[->|[->|[->| ->]]]]]]; vm_compute; discriminate.
Qed.

Lemma grown_create h0 V0 W0 F0 H0 L h name i cpu : heap_ok h0 V0 W0 F0 H0 -> grown h0 V0 W0 L h -> cpu_on h0 cpu -> 0 <= i < 7 ->
  wp (SLUB_Create h name (class_size i) (class_size i) cpu) (fun '(a, h') => k_kmalloc h' = k_kmalloc h /\ (forall b, b <> a -> k_caches h' !! b = k_caches h !! b) /\
    ((a = 0 /\ grown h0 V0 W0 L h' /\ denied 0 sizeof_kmem_cache (heap_vm h)) \/ (a <> 0 /\ a ∉ L /\ grown h0 V0 W0 (L ++ [a]) h' /\ exists c, k_caches h' !! a = Some c /\ class_cache i c))).
Proof.
  intros K0 [(C & V & W & F & H & K & Fr & _) G2 G3 G4 G5 G6] Hcpu Hi. pose proof (class_geom i Hi) as (S1 & _). assert (Emax : Z.max 8 (class_size i) = class_size i) by lia. assert (Hfit : fits (class_size i) (class_size i)) by now apply class_fits.
  eapply wp_mono; [apply (SLUB_Create_ok h V W F H name (class_size i) (class_size i) cpu K (cpu_on_same _ _ _ C Hcpu)); unfold sizeof_slub_slab; lia|].
  intros [a h'] (C' & E1 & E2 & E3 & (W' & F' & H' & K' & Fr') & Hr). assert (Hst : hstep [] [] h0 V0 W0 h' always) by (split; [exact (cpus_same_trans _ _ _ C C')|]; exists V, W', F', H'; split; [exact K'|]; split; [exact (hframe_after _ _ _ _ _ _ _ _ _ _ _ Fr Fr')|exact I]). split; [exact E2|].
  destruct Hr as [(-> & Ec & Hwhy)|(Ha & _ & Hn & c & Ec & G & B1 & B2)]; [|rewrite Emax in B1, B2].
  - split; [intros b _; now rewrite Ec|]. left. split; [reflexivity|]. split; [split; auto; [congruence|intros p s Hp; rewrite E1 in Hp; auto|now rewrite Ec|now rewrite Ec]|].
    destruct Hwhy as [Hg|Hr]; [contradiction|exact Hr].
  - split; [intros b Hb; rewrite Ec, lookup_insert_ne by congruence; reflexivity|]. right. split; [exact Ha|]. assert (HaL : a ∉ L) by (intros Hin; destruct (G5 a Hin) as [_ [? ?]]; congruence). split; [exact HaL|]. split.
    + split; auto; [congruence|intros p s Hp; rewrite E1 in Hp; auto|apply NoDup_app; split; [exact G4|]; split; [intros x Hx Hx'; apply list_elem_of_singleton in Hx' as ->; auto|apply NoDup_singleton]| |].
      * intros b Hb. rewrite Ec. apply elem_of_app in Hb as [Hb|Hb]; [destruct (G5 b Hb) as [N1 N2]; split; [exact N1|]; rewrite lookup_insert_ne by (intros ->; auto); exact N2|]. apply list_elem_of_singleton in Hb as ->. rewrite <- (G6 a HaL). split; [exact Hn|]. rewrite lookup_insert_eq. eauto.
      * intros b Hb. rewrite not_elem_of_app, list_elem_of_singleton in Hb. destruct Hb as [Hb1 Hb2]. rewrite Ec, lookup_insert_ne by congruence. auto.
    + exists c. rewrite Ec. split; [apply lookup_insert_eq|]. destruct (round_up_bound sizeof_slub_slab (class_size i) ltac:(lia)) as [_ M2]. rewrite <- B2 in M2. split; [|exact M2]. rewrite B1. unfold round_up. replace (class_size i + class_size i - 1) with (class_size i - 1 + 1 * class_size i) by lia. rewrite Z.div_add, (Z.div_small (class_size i - 1)) by lia. lia.
Qed.

Lemma grown_destroy h0 V0 W0 F0 H0 a L h cpu : heap_ok h0 V0 W0 F0 H0 -> k_on h0 = false -> grown h0 V0 W0 (a :: L) h -> cpu_on h0 cpu -> wp (SLUB_Destroy h a cpu) (fun h' => k_kmalloc h' = k_kmalloc h /\ grown h0 V0 W0 L h').
Proof.
  intros K0 Hoff [(C & V & W & F & H & K & Fr & _) G2 G3 G4 G5 G6] Hcpu. destruct (G5 a ltac:(left)) as [N1 N2]. apply NoDup_cons in G4 as [HaL Hnd].
  assert (Hno : forall p s, k_slabs h !! p = Some s -> su_cache s <> a) by (intros p s Hp <-; destruct (slab_cache_old _ _ _ _ _ _ (hp_slub _ _ _ _ _ K0) (G3 p s Hp)) as [k Hk]; cbn in Hk; congruence).
  eapply wp_mono; [apply (SLUB_Destroy_ok h V W F H a cpu K (cpu_on_same _ _ _ C Hcpu) N2)|]; [intros p s v Hp Hv E; exfalso; exact (Hno p s Hp E)|congruence|].
  intros h' ((C' & V' & W' & F' & H' & K' & Fr' & _) & E1 & E2 & E3 & E4 & E5). split; [exact E1|]. split; auto; [|congruence| |].
  - split; [exact (cpus_same_trans _ _ _ C C')|]. exists V', W', F', H'. split; [exact K'|]. split; [exact (hframe_after _ _ _ _ _ _ _ _ _ _ _ Fr Fr')|exact I].
  - intros b Hb. assert (b <> a) by (intros ->; auto). destruct (G5 b ltac:(now right)) as [M1 M2]. split; [exact M1|]. now rewrite E4.
  - intros b Hb. destruct (decide (b = a)) as [->|Hne]; [now rewrite E3, N1|]. rewrite E4 by exact Hne. apply G6. rewrite elem_of_cons. tauto.
Qed.

(** * Rolling back *)

Lemma drop_caches_ok h0 V0 W0 F0 H0 L h cpu : heap_ok h0 V0 W0 F0 H0 -> k_on h0 = false -> grown h0 V0 W0 L h -> cpu_on h0 cpu -> (length L <= 7)%nat -> (forall j, (j < length L)%nat -> k_kmalloc h !! j = L !! j) ->
  wp (drop_caches h (Z.of_nat (length L)) cpu) (fun h' => grown h0 V0 W0 [] h').
Proof.
  intros K0 Hoff G Hcpu HL HE. unfold drop_caches. rewrite Nat2Z.id.
  eapply wp_mono; [apply (wp_for_up (fun k h' => grown h0 V0 W0 (drop (Z.to_nat k) L) h' /\ forall j, (Z.to_nat k <= j < length L)%nat -> k_kmalloc h' !! j = L !! j))|].
  - intros i h1 Hi [G1 E1]. destruct (lookup_lt_is_Some_2 L (Z.to_nat i) ltac:(lia)) as [a Ha]. rewrite (get_okZ _ _ a) by (try lia; rewrite E1 by lia; exact Ha). cbn [bind]. rewrite (drop_S _ _ _ Ha) in G1. apply wp_bind.
    eapply wp_mono; [apply (grown_destroy h0 V0 W0 F0 H0 a _ h1 cpu K0 Hoff G1 Hcpu)|]. intros h2 [E2 G2]. pose proof G2 as [(_ & V & W & F & H & K & _) _ _ _ _ _]. rewrite put_okZ by (rewrite (hp_length _ _ _ _ _ K); lia). cbn [bind wp]. replace (Z.to_nat (i + 1)) with (S (Z.to_nat i)) by lia.
    split; [apply grown_kmalloc; [exact Hoff|exact G2|rewrite length_insert; exact (hp_length _ _ _ _ _ K)]|]. intros j Hj. cbn. rewrite list_lookup_insert_ne by lia. rewrite E2. apply E1. lia.
  - split; [exact G|intros j Hj; apply HE; lia].
  - intros h' [G' _]. replace (Z.to_nat (0 + Z.of_nat (length L))) with (length L) in G' by lia. now rewrite drop_all in G'.
Qed.

(** * [InitKmalloc] *)

(** Either the seven caches exist and kmalloc uses them, or the heap has the caches it had. *)
Definition inited h V W (x : bool * kheap PS) : Prop :=
  let '(ok, h') := x in hstep [] [] h V W h' always /\ k_on h' = ok /\ (ok = false -> denied 6 sizeof_kmem_cache (heap_vm h) /\ forall b, k_caches h' !! b = k_caches h !! b).

Lemma InitKmalloc_ok h V W F H name cpu : heap_ok h V W F H -> cpu_on h cpu -> wp (InitKmalloc h name cpu) (inited h V W).
Proof.
  intros K Hcpu. unfold InitKmalloc. destruct (k_on h) eqn:Hon; [cbn [wp]; split; [exact (hstep_refl h V W F H K)|]; split; [exact Hon|discriminate]|].
  apply (wp_loop_on (fun L '(h1, i, sz) => i = Z.of_nat (length L) /\ (length L <= 7)%nat /\ asked (length L) (heap_vm h) (heap_vm h1) /\ sz = class_size i /\ grown h V W L h1 /\ forall j, (j < length L)%nat -> k_kmalloc h1 !! j = L !! j /\ exists a c, L !! j = Some a /\ k_caches h1 !! a = Some c /\ class_cache (Z.of_nat j) c) (fun L => (7 - length L)%nat)) with (g := @nil Z).
  - intros L [[h1 i] sz] (Ei & HL & Hask & Esz & G & HE). change MAX_SLAB_ORDER with 7. destruct (Z.ltb_spec i 7) as [Hi|Hi].
    + rewrite Esz. apply wp_bind. eapply wp_mono; [apply (wp_keeps _ _ _ (grown_create h V W F H L h1 (name i) i cpu K G Hcpu ltac:(lia)) (SLUB_Create_asked h1 _ _ _ cpu))|]. intros [a h2] [(E1 & E2 & Hr) Hask2].
      assert (Hlen : length (k_kmalloc h2) = 7%nat) by (destruct Hr as [(_ & [(_ & ? & ? & ? & ? & K2 & _) _ _ _ _ _] & _)|(_ & _ & [(_ & ? & ? & ? & ? & K2 & _) _ _ _ _ _] & _)]; exact (hp_length _ _ _ _ _ K2)).
      rewrite put_okZ by lia. cbn [bind]. assert (Hl' : length (<[Z.to_nat i := a]> (k_kmalloc h2)) = 7%nat) by (rewrite length_insert; exact Hlen). destruct Hr as [(-> & G2 & Hwhy)|(Ha & HaL & G2 & c & Hc & Hcl)].
      * cbn [Z.eqb]. apply wp_bind. rewrite Ei. eapply wp_mono; [apply (drop_caches_ok h V W F H L _ cpu K Hon)|]; [apply grown_kmalloc; [exact Hon|exact G2|rewrite <- Ei; exact Hl']|exact Hcpu|exact HL|intros j Hj; cbn; rewrite list_lookup_insert_ne by lia; rewrite E1; now apply HE|].
        intros h3 G3. cbn [wp]. destruct G3 as [G31 G32 G33 G34 G35 G36]. split; [exact G31|]. split; [congruence|]. intros _. split; [apply (denied_le (length L + 0)); [lia|]; exact (denied_after _ _ _ _ _ Hask Hwhy)|]. intros b. apply G36, not_elem_of_nil.
      * rewrite (proj2 (Z.eqb_neq _ _) Ha). cbn [wp]. exists (L ++ [a]). rewrite length_app. cbn [length]. split; [|lia]. split; [lia|]. split; [lia|]. split; [exact (bsteps_trans _ _ _ _ _ Hask Hask2)|]. split; [|split; [apply grown_kmalloc; [exact Hon|exact G2|exact Hl']|]].
        { clear - Ei Hi. destruct (class_cases i ltac:(lia)) as [->|[->|[->|[->|[->|[->| ->]]]]]]; reflexivity. }
        intros j Hj. destruct (decide (j = length L)) as [->|Hne].
        { cbn. split; [rewrite Ei, Nat2Z.id, list_lookup_insert_eq by lia; rewrite lookup_app_r, Nat.sub_diag by lia; reflexivity|]. exists a, c. split; [rewrite lookup_app_r, Nat.sub_diag by lia; reflexivity|]. split; [exact Hc|]. now rewrite <- Ei. }
        destruct (HE j ltac:(lia)) as (F1 & b & k & F2 & F3 & F4). cbn. rewrite list_lookup_insert_ne by lia. rewrite E1, lookup_app_l by lia. split; [exact F1|]. exists b, k. split; [exact F2|]. split; [|exact F4]. rewrite E2; [exact F3|]. intros ->. exact (HaL (list_elem_of_lookup_2 _ _ _ F2)).
    + cbn [wp]. destruct G as [(C & V1 & W1 & F1 & H1 & K1 & Fr1 & _) G2 G3 G4 G5 G6]. split; [|split; [reflexivity|discriminate]]. split; [exact C|]. exists V1, W1, F1, H1. split; [|split; [destruct Fr1 as [A1 A2]; split; [exact A1|exact A2]|exact I]].
      apply (with_kmalloc_ok h1 V1 W1 F1 H1 _ _ K1 (hp_length _ _ _ _ _ K1)). intros _ j Hj. destruct (HE (Z.to_nat j) ltac:(lia)) as (E1 & a & c & E2 & E3 & E4). rewrite Z2Nat.id in E4 by lia. exists a, c. split; [congruence|auto].
  - cbn [length]. split; [lia|]. split; [lia|]. split; [now apply asked_refl|]. split; [reflexivity|]. split; [exact (grown_nil h V W F H K)|]. intros j Hj. lia.
  - unfold MAX_SLAB_ORDER. cbn [length]. lia.
Qed.

(** * The heap at boot *)

(** The magazines of a CPU at boot. *)
Definition boot_cpu : cpu_slab_t := CpuSlab (replicate 7 0) (replicate 7 0).

(** The static data before [SLAB::Init], and after it. *)
Definition boot_slab (A : arena PS) (cpus : gmap Z cpu_slab_t) (tsc : Z) : slab PS := SLAB_Init (Slab A ∅ [] cpus (Pool 0 0 0) 0 []) tsc.
Definition boot_heap (A : arena PS) (cpus : gmap Z cpu_slab_t) (tsc : Z) : kheap PS :=
  Heap (boot_slab A cpus tsc) ∅ ∅ (replicate 7 0) false (KmStats (replicate 64 0) (replicate 64 0) (replicate 64 0) 0).

Lemma boot_stack A cpus tsc w j hd n : (forall id q, cpus !! id = Some q -> q = boot_cpu) -> stack_at (boot_slab A cpus tsc) w j = Some (hd, n) -> hd = 0 /\ n = 0.
Proof.
  intros Hc E. destruct w as [|id|]; cbn in E; [| |discriminate].
  - apply fmap_Some in E as (c & Hj & [= -> ->]). do 7 (destruct j as [|j]; [injection Hj as <-; cbn; auto|]). discriminate.
  - destruct (cpus !! id) as [q|] eqn:Eq; [|discriminate]. rewrite (Hc id q Eq) in E. cbn in E. do 7 (destruct j as [|j]; [cbn in E; injection E as <- <-; auto|]). discriminate.
Qed.

Lemma SLAB_Init_ok A H cpus tsc : arena_ok A H -> (forall id q, cpus !! id = Some q -> q = boot_cpu) -> 0 <= tsc < 2 ^ 64 -> slab_inv (boot_slab A cpus tsc) ∅ ∅ H /\ rested (boot_slab A cpus tsc).
Proof.
  intros HA Hc Ht. split; [split; [split|]|].
  - exact HA.
  - cbn. destruct (Z.eqb_spec tsc 0); [split; [discriminate|reflexivity]|lia].
  - reflexivity.
  - intros i c Hi. cbn in Hi. do 7 (destruct i as [|i]; [injection Hi as <-; split; reflexivity|]). discriminate.
  - reflexivity.
  - reflexivity.
  - intros p x Hp. discriminate.
  - intros p Hp. now destruct Hp.
  - intros y w Hw. discriminate.
  - intros w j hd n E. destruct (boot_stack A cpus tsc w j hd n Hc E) as [-> ->]. exists []. split; [reflexivity|]. split; [split; [constructor|]|split; [reflexivity|unfold MAG_MAX, SLAB_BATCH; lia]]. intros y. split; [intros Hy; now apply not_elem_of_nil in Hy|]. intros [Hy _]. discriminate.
  - intros id q Hq. rewrite (Hc id q Hq). split; reflexivity.
  - intros y id Hy. discriminate.
  - intros i c Hi. exists [], [], []. cbn in Hi. do 7 (destruct i as [|i]; [injection Hi as <-; split; cbn; try reflexivity; [unfold EMPTY_CACHE_LIMIT; lia|constructor|intros p Hp; now apply not_elem_of_nil in Hp|discriminate..]|]). discriminate.
  - intros id j hd n E. destruct (boot_stack A cpus tsc (InMag id) j hd n Hc E) as [_ ->]. unfold SLAB_BATCH. lia.
Qed.

Lemma boot_heap_ok A H cpus tsc : arena_ok A H -> (forall id q, cpus !! id = Some q -> q = boot_cpu) -> 0 <= tsc < 2 ^ 64 -> heap_ok (boot_heap A cpus tsc) ∅ ∅ ∅ H /\ forall z n, ~ kblock (boot_heap A cpus tsc) ∅ ∅ z n.
Proof.
  intros HA Hc Ht. destruct (SLAB_Init_ok A H cpus tsc HA Hc Ht) as [I R]. split; [split; auto|].
  - split; [split; [exact HA|intros p; split; intros _; reflexivity|discriminate|discriminate|discriminate]|split; [discriminate|split; discriminate|discriminate|discriminate|reflexivity]].
  - intros a c Ha. discriminate.
  - discriminate.
  - intros z n [(p & s & v & c & Hp & _)|[[[Hz _]|(p & x & Hx & _)] _]]; discriminate.
Qed.
End Init.
