(* ===== verification/KheapSpec.v ===== *)
(** The contract of the kmalloc family: a store of blocks with their contents,
    what a call may answer and how it changes the store, and a proof that the heap
    implements it for every program that keeps to the contract. *)
From stdpp Require Import base gmap list fin_maps.
From Stdlib Require Import ZArith Lia.
From S2P Require Import Prelude Words Memory PMM PMMBits PMMInit HeapMem Slub SlubInv SlubAlloc SlubFree Slab SlabInv SlabPage SlabAlloc SlabFree HeapSupply Kheap KheapInv KheapInit.

Open Scope Z_scope.
Open Scope c_scope.

(** * The abstract heap *)

(** The blocks in use: start and contents. *)
Notation store := (gmap Z (list Z)).
Implicit Types (S : store).

Inductive kcall : Type :=
  | CMalloc (size : Z)
  | CCalloc (n size : Z)
  | CAligned (size align : Z)
  | CFree (z : Z)
  | CRealloc (z size : Z)
  | CSize (z : Z)
  | CRead (z off : Z)
  | CWrite (z off : Z) (bs : list Z).

Definition len (l : list Z) : Z := Z.of_nat (length l).

(** A block that is not in use and overlaps none that is. *)
Definition fresh S (z : Z) (l : list Z) : Prop :=
  4096 <= z /\ z + len l <= 2 ^ 64 /\ S !! z = None /\ forall y k, S !! y = Some k -> z + len l <= y \/ y + len k <= z.

(** What the caller owes. *)
Definition legal S (c : kcall) : Prop :=
  match c with
  | CMalloc size => 0 <= size < 2 ^ 64
  | CCalloc n size => 0 <= n < 2 ^ 64 /\ 0 <= size < 2 ^ 64
  | CAligned size align => 0 <= size < 2 ^ 64 /\ 0 <= align < 2 ^ 64
  | CFree z => z = 0 \/ is_Some (S !! z)
  | CRealloc z size => 0 <= size < 2 ^ 64 /\ (z = 0 \/ is_Some (S !! z))
  | CSize z => is_Some (S !! z)
  | CRead z off => exists l, S !! z = Some l /\ 0 <= off < len l
  | CWrite z off bs => exists l, S !! z = Some l /\ 0 <= off /\ off + len bs <= len l /\ bytes bs
  end.

(** [bs] over the contents [l] from [off]. *)
Definition patch (l : list Z) (off : Z) (bs : list Z) : list Z := take (Z.to_nat off) l ++ bs ++ drop (Z.to_nat off + length bs) l.

(** What a call answers and does to the store; [deny size]: there are no pages for
    [size] bytes. *)
Inductive sstep (deny : Z -> Prop) S : kcall -> Z -> store -> Prop :=
  | ss_malloc size z l : fresh S z l -> size <= len l -> sstep deny S (CMalloc size) z (<[z := l]> S)
  | ss_malloc_null size : 2 ^ 64 <= size + 4143 \/ deny size -> sstep deny S (CMalloc size) 0 S
  | ss_calloc n size z l : fresh S z l -> 0 < n * size < 2 ^ 64 -> n * size <= len l -> take (Z.to_nat (n * size)) l = replicate (Z.to_nat (n * size)) 0 -> sstep deny S (CCalloc n size) z (<[z := l]> S)
  | ss_calloc_null n size : n * size = 0 \/ 2 ^ 64 <= n * size + 4143 \/ deny (n * size) -> sstep deny S (CCalloc n size) 0 S
  | ss_aligned size align z l : fresh S z l -> size <= len l -> z mod align = 0 -> sstep deny S (CAligned size align) z (<[z := l]> S)
  | ss_aligned_null size align : unaligned size align \/ 2 ^ 64 <= size + 4143 \/ deny size -> sstep deny S (CAligned size align) 0 S
  | ss_free z : sstep deny S (CFree z) 0 (delete z S)
  | ss_realloc_new size z l : fresh S z l -> size <= len l -> sstep deny S (CRealloc 0 size) z (<[z := l]> S)
  | ss_realloc_none size : 2 ^ 64 <= size + 4143 \/ deny size -> sstep deny S (CRealloc 0 size) 0 S
  | ss_realloc_free z : z <> 0 -> sstep deny S (CRealloc z 0) 0 (delete z S)
  | ss_realloc_same z size l : z <> 0 -> 0 < size -> S !! z = Some l -> size <= len l -> sstep deny S (CRealloc z size) z S
  | ss_realloc_move z size l z' l' : z <> 0 -> S !! z = Some l -> len l < size <= len l' -> z' <> z -> fresh (delete z S) z' l' -> take (length l) l' = l -> sstep deny S (CRealloc z size) z' (<[z' := l']> (delete z S))
  | ss_realloc_null z size l : z <> 0 -> S !! z = Some l -> len l < size -> 2 ^ 64 <= size + 4143 \/ deny size -> sstep deny S (CRealloc z size) 0 S
  | ss_size z l : S !! z = Some l -> sstep deny S (CSize z) (len l) S
  | ss_read z off l b : S !! z = Some l -> 0 <= off -> l !! Z.to_nat off = Some b -> sstep deny S (CRead z off) b S
  | ss_write z off bs l : S !! z = Some l -> sstep deny S (CWrite z off bs) 0 (<[z := patch l off bs]> S).

(** * Programs that use the heap *)

(** A call on a CPU from a return address, and how the program goes on. *)
Inductive prog : Type :=
  | Stop
  | Call (cpu ra : Z) (c : kcall) (k : Z -> prog).

(** The program keeps to the contract whatever the answers are, and runs on CPUs
    that are up; it must be ready for NULL at any time. *)
Fixpoint safe (up : Z -> Prop) S (p : prog) : Prop :=
  match p with
  | Stop => True
  | Call cpu _ c k => up cpu /\ legal S c /\ forall z S', sstep (fun _ => True) S c z S' -> safe up S' (k z)
  end.

(** A run of the contract: for each call the state of the supply before it and the
    answer.  [deny v size]: the supply in state [v] has no pages for [size] bytes. *)
Fixpoint spec_run {V} (deny : V -> Z -> Prop) (p : prog) S (zs : list (V * Z)) S' : Prop :=
  match p, zs with
  | Stop, [] => S' = S
  | Call _ _ c k, (v, z) :: zs => exists S1, sstep (deny v) S c z S1 /\ spec_run deny (k z) S1 zs S'
  | _, _ => False
  end.

Lemma sstep_weaken (deny : Z -> Prop) S c z S' : sstep deny S c z S' -> sstep (fun _ => True) S c z S'.
Proof. intros H. destruct H; try (now econstructor; eauto); constructor; tauto. Qed.

Section Spec.
Context {PS : Type} `{PSI : !PageSource PS} `{PSL : !PageSourceOk PS}.
Implicit Types (h : kheap PS) (V : gmap Z view) (W : gmap Z place) (F : gmap Z (list Z)) (H : gmap Z Z).

(** The same calls on the heap; reads and writes go to memory. *)
Definition run_call h (cpu ra : Z) (c : kcall) : res (Z * kheap PS) :=
  match c with
  | CMalloc size => heap_kmalloc h size ra (Some cpu)
  | CCalloc n size => heap_kcalloc h n size ra (Some cpu)
  | CAligned size align => heap_kmalloc_aligned h size align (Some cpu)
  | CFree z => let* h := heap_kfree h z (Some cpu) in Ok (0, h)
  | CRealloc z size => heap_krealloc h z size ra (Some cpu)
  | CSize z => let* n := GetPtrPointAreaSize h z in Ok (n, h)
  | CRead z off => let* b := load8 (a_mem (b_arena (k_slab h))) (z + off) in Ok (b, h)
  | CWrite z off bs => Ok (0, h_write h (z + off) bs)
  end.

(** The answers, with the states of the supply. *)
Fixpoint run (p : prog) h : res (list (PS * Z) * kheap PS) :=
  match p with
  | Stop => Ok ([], h)
  | Call cpu ra c k => let* (z, h1) := run_call h cpu ra c in let* (zs, h2) := run (k z) h1 in Ok ((heap_vm h, z) :: zs, h2)
  end.

(** * Representation *)

Definition mem_of h : mem := a_mem (b_arena (k_slab h)).

Definition repr_at h V W S : Prop := forall z l, S !! z = Some l <-> kblock h V W z (len l) /\ holds (mem_of h) z l.

(** The blocks of the users are those of the store, with its contents. *)
Definition repr h S : Prop := exists V W F H, heap_ok h V W F H /\ repr_at h V W S.

Definition is_up h (cpu : Z) : Prop := 0 <= cpu /\ is_Some (b_cpus (k_slab h) !! cpu).

Lemma is_up_on h cpu : is_up h cpu -> cpu_on h (Some cpu).
Proof. intros [H0 H1]. exists cpu. auto. Qed.

Lemma kblock_len h V W F H z n n' : heap_ok h V W F H -> kblock h V W z n -> kblock h V W z n' -> n = n'.
Proof. intros K H1 H2. pose proof (GetPtrPointAreaSize_ok _ _ _ _ _ _ _ K H1) as E. rewrite (GetPtrPointAreaSize_ok _ _ _ _ _ _ _ K H2) in E. congruence. Qed.

(** A block has contents. *)
Lemma kblock_holds h V W F H z n : heap_ok h V W F H -> kblock h V W z n -> exists l, len l = n /\ holds (mem_of h) z l.
Proof.
  intros K Hz. pose proof (kblock_bounds _ _ _ _ _ _ _ K Hz) as (_ & B & _ & M). pose proof (ob_arena _ _ _ _ (proj1 (hp_slab _ _ _ _ _ K))) as HA.
  destruct (load_bytes_ok _ z (Z.to_nat n) (ar_wf _ _ HA) ltac:(intros j Hj; apply M; lia)) as (l & _ & Hlen & _ & Hh). exists l. split; [unfold len; lia|exact Hh].
Qed.

Lemma holds_unique m z l l' : holds m z l -> holds m z l' -> length l = length l' -> l = l'.
Proof.
  intros H1 H2 E. apply list_eq_same_length with (length l); [congruence|reflexivity|]. intros i x y Hi Hx Hy. pose proof (H1 i x Hx) as E1. rewrite (H2 i y Hy) in E1. congruence.
Qed.

Lemma holds_agree m m' z l n : holds m z l -> len l <= n -> agree m m' z n -> holds m' z l.
Proof. intros Hh Hn Ha i b Hi. rewrite Ha; [exact (Hh i b Hi)|]. pose proof (lookup_lt_Some _ _ _ Hi). unfold len in Hn. lia. Qed.

(** A block [z] with contents [l] enters the store: [None] removes it. *)
Lemma repr_old h V W S X Y h' V' W' F' H' z l : heap_ok h' V' W' F' H' -> hframe X Y h V W h' V' W' -> repr_at h V W S -> z ∉ X -> z ∉ Y -> S !! z = Some l <-> kblock h' V' W' z (len l) /\ holds (mem_of h') z l.
Proof.
  intros K' Fr R HX HY. rewrite (R z l). split.
  - intros [Hb Hh]. destruct (hf_live _ _ _ _ _ _ _ _ Fr z _ Hb HX) as [Hb' Ha]. split; [exact Hb'|]. now apply (holds_agree (mem_of h) _ _ _ (len l)).
  - intros [Hb Hh]. destruct (hf_back _ _ _ _ _ _ _ _ Fr z _ Hb) as [[Hb0 _]|Hy]; [|contradiction]. split; [exact Hb0|]. destruct (hf_live _ _ _ _ _ _ _ _ Fr z _ Hb0 HX) as [_ Ha].
    apply (holds_agree (mem_of h') _ _ _ (len l)); [exact Hh|lia|]. intros x Hx. symmetry. now apply Ha.
Qed.

Lemma repr_same h V W S h' : repr_at h V W S -> hstep [] [] h V W h' always -> repr h' S.
Proof. intros R (_ & V' & W' & F' & H' & K' & Fr & _). exists V', W', F', H'. split; [exact K'|]. intros z l. now apply (repr_old h V W S [] [] h' V' W' F' H'); [| | |apply not_elem_of_nil..]. Qed.

Lemma repr_gone h V W S h' z : repr_at h V W S -> hstep [z] [] h V W h' always -> repr h' (delete z S).
Proof.
  intros R (_ & V' & W' & F' & H' & K' & Fr & _). exists V', W', F', H'. split; [exact K'|]. intros y l. destruct (decide (z = y)) as [<-|Hne].
  - rewrite lookup_delete_eq. split; [discriminate|]. intros [Hb _]. destruct (hf_back _ _ _ _ _ _ _ _ Fr z _ Hb) as [[_ Hn]|Hn]; [rewrite list_elem_of_singleton in Hn; congruence|now apply not_elem_of_nil in Hn].
  - rewrite lookup_delete_ne by exact Hne. apply (repr_old h V W S [z] [] h' V' W' F' H'); auto; [rewrite list_elem_of_singleton; congruence|apply not_elem_of_nil].
Qed.

(** The blocks [X] go, and [z] comes. *)
Lemma repr_put h V W F H S X h' V' W' F' H' z l S' : heap_ok h V W F H -> repr_at h V W S -> heap_ok h' V' W' F' H' -> hframe X [z] h V W h' V' W' -> kblock h' V' W' z (len l) -> holds (mem_of h') z l ->
  S' !! z = Some l -> (forall y, y <> z -> y ∈ X -> S' !! y = None) -> (forall y, y <> z -> y ∉ X -> S' !! y = S !! y) -> repr_at h' V' W' S'.
Proof.
  intros K R K' Fr Hb Hh E EX EN y k. destruct (decide (y = z)) as [->|Hne].
  - rewrite E. split; [intros [= <-]; auto|]. intros [Hb' Hh']. f_equal. apply (holds_unique _ _ _ _ Hh Hh'). pose proof (kblock_len _ _ _ _ _ _ _ _ K' Hb Hb'). unfold len in *. lia.
  - destruct (decide (y ∈ X)) as [Hy|Hy]; [|rewrite (EN y Hne Hy); apply (repr_old h V W S X [z] h' V' W' F' H'); auto; now rewrite list_elem_of_singleton].
    rewrite (EX y Hne Hy). split; [discriminate|]. intros [Hb' _]. destruct (hf_back _ _ _ _ _ _ _ _ Fr y _ Hb') as [[_ Hn]|Hn]; [contradiction|]. now rewrite list_elem_of_singleton in Hn.
Qed.

(** A new block of the heap is fresh in the store. *)
Lemma repr_fresh h V W F H S X h' V' W' F' H' z l S' : heap_ok h V W F H -> repr_at h V W S -> heap_ok h' V' W' F' H' -> hframe X [z] h V W h' V' W' -> kblock h' V' W' z (len l) -> (forall k, ~ kblock h V W z k) ->
  (forall y k, S' !! y = Some k -> S !! y = Some k /\ y ∉ X) -> fresh S' z l.
Proof.
  intros K R K' Fr Hb Hnb HS. pose proof (kblock_bounds _ _ _ _ _ _ _ K' Hb) as (B1 & _ & B2 & _). split; [exact B1|]. split; [exact B2|]. split.
  - destruct (S' !! z) as [k|] eqn:E; [|reflexivity]. apply HS in E as [E _]. apply R in E as [E _]. exfalso. exact (Hnb _ E).
  - intros y k Hy. apply HS in Hy as [Hy Hx]. apply R in Hy as [Hy _]. destruct (hf_live _ _ _ _ _ _ _ _ Fr y _ Hy Hx) as [Hy' _]. apply (kblocks_apart _ _ _ _ _ _ _ _ _ K' Hb Hy'). intros ->. exact (Hnb _ Hy).
Qed.

Lemma repr_new h V W F H S h' z n : heap_ok h V W F H -> repr_at h V W S -> kgot z n h V W h' -> exists l, len l = n /\ fresh S z l /\ repr h' (<[z := l]> S) /\ holds (mem_of h') z l.
Proof.
  intros K R (_ & V' & W' & F' & H' & K' & Fr & Hb & Hnb). destruct (kblock_holds _ _ _ _ _ _ _ K' Hb) as (l & <- & Hh). exists l. split; [reflexivity|]. split; [apply (repr_fresh h V W F H S [] h' V' W' F' H'); auto; intros y k Hy; split; [exact Hy|apply not_elem_of_nil]|]. split; [|exact Hh].
  exists V', W', F', H'. split; [exact K'|]. apply (repr_put h V W F H S [] h' V' W' F' H' z l); auto; [apply lookup_insert_eq|intros y _ Hy; now apply not_elem_of_nil in Hy|]. intros y Hy _. now rewrite lookup_insert_ne by congruence.
Qed.

(** * Refinement *)

(** The supply refuses the pages for [size] bytes, at once or after one page more. *)
Definition deny (v : PS) (size : Z) : Prop := denied 1 size v.

Definition stepped_to h S (c : kcall) (x : Z * kheap PS) : Prop := let '(z, h') := x in cpus_same (k_slab h) (k_slab h') /\ exists S', sstep (deny (heap_vm h)) S c z S' /\ repr h' S'.

Lemma stepped_served h V W F H S size c z h' : heap_ok h V W F H -> repr_at h V W S -> kserved 1 size h V W (z, h') ->
  (forall l, fresh S z l -> size <= len l -> sstep (deny (heap_vm h)) S c z (<[z := l]> S)) -> (2 ^ 64 <= size + 4143 \/ deny (heap_vm h) size -> sstep (deny (heap_vm h)) S c 0 S) -> stepped_to h S c (z, h').
Proof.
  intros K R [(-> & St & Hwhy)|(Hz & n & Hn & G)] Hnew Hnull.
  - split; [apply St|]. exists S. split; [auto|exact (repr_same h V W S h' R St)].
  - split; [apply G|]. destruct (repr_new h V W F H S h' z n K R G) as (l & <- & Hf & R' & _). exists (<[z := l]> S). auto.
Qed.

Lemma malloc_refines h V W F H S size ra cpu : heap_ok h V W F H -> repr_at h V W S -> is_up h cpu -> 0 <= size < 2 ^ 64 -> wp (heap_kmalloc h size ra (Some cpu)) (fun x => stepped_to h S (CMalloc size) x /\ stepped_to h S (CRealloc 0 size) x).
Proof.
  intros K R Hcpu Hs. eapply wp_mono; [apply (heap_kmalloc_ok h V W F H size ra (Some cpu) K (is_up_on _ _ Hcpu) Hs)|]. intros [z h'] Hr. split; apply (stepped_served h V W F H S size _ z h' K R Hr); intros; constructor; assumption.
Qed.

Lemma calloc_refines h V W F H S n size ra cpu : heap_ok h V W F H -> repr_at h V W S -> is_up h cpu -> 0 <= n < 2 ^ 64 -> 0 <= size < 2 ^ 64 -> wp (heap_kcalloc h n size ra (Some cpu)) (stepped_to h S (CCalloc n size)).
Proof.
  intros K R Hcpu Hn Hs. eapply wp_mono; [apply (heap_kcalloc_ok h V W F H n size ra (Some cpu) K (is_up_on _ _ Hcpu) Hn Hs)|]. intros [z h'] [(-> & St & Hwhy)|(Hz & Hsz & (k & Hk & G) & Hzero)].
  - split; [apply St|]. exists S. split; [now constructor|exact (repr_same h V W S h' R St)].
  - split; [apply G|]. destruct (repr_new h V W F H S h' z k K R G) as (l & <- & Hf & R' & Hh). exists (<[z := l]> S). split; [|exact R']. constructor; auto. unfold len in Hk.
    apply (holds_unique (mem_of h') z); [intros i b Hi; apply Hh; now apply lookup_take_Some in Hi as [Hi _]| |rewrite length_take, length_replicate; lia]. intros i b Hi. apply lookup_replicate in Hi as [-> Hi]. apply Hzero. lia.
Qed.

Lemma aligned_refines h V W F H S size align cpu : heap_ok h V W F H -> repr_at h V W S -> is_up h cpu -> 0 <= size < 2 ^ 64 -> 0 <= align < 2 ^ 64 -> wp (heap_kmalloc_aligned h size align (Some cpu)) (stepped_to h S (CAligned size align)).
Proof.
  intros K R Hcpu Hs Ha. eapply wp_mono; [apply (heap_kmalloc_aligned_ok h V W F H size align (Some cpu) K (is_up_on _ _ Hcpu) Hs ltac:(lia))|]. intros [z h'] [(-> & St & Hwhy)|(Hz & Hal & n & Hn & G)].
  - split; [apply St|]. exists S. split; [now constructor|exact (repr_same h V W S h' R St)].
  - split; [apply G|]. destruct (repr_new h V W F H S h' z n K R G) as (l & <- & Hf & R' & _). exists (<[z := l]> S). split; [now constructor|exact R'].
Qed.

Lemma free_refines h V W F H S z cpu : heap_ok h V W F H -> repr_at h V W S -> is_up h cpu -> z = 0 \/ is_Some (S !! z) -> wp (heap_kfree h z (Some cpu)) (fun h' => cpus_same (k_slab h) (k_slab h') /\ repr h' (delete z S)).
Proof.
  intros K R Hcpu [->|[l Hl]].
  - cbn. split; [now apply cpus_same_eq|]. assert (E : S !! 0 = None) by (destruct (S !! 0) as [l|] eqn:E; [|reflexivity]; apply R in E as [E _]; pose proof (kblock_bounds _ _ _ _ _ _ _ K E) as (? & _); lia). rewrite delete_id by exact E. exists V, W, F, H. auto.
  - apply R in Hl as [Hb _]. eapply wp_mono; [apply (heap_kfree_ok h V W F H z _ (Some cpu) K Hb (is_up_on _ _ Hcpu))|]. intros h' St. split; [apply St|exact (repr_gone h V W S h' z R St)].
Qed.

Lemma realloc_refines h V W F H S z size ra cpu : heap_ok h V W F H -> repr_at h V W S -> is_up h cpu -> 0 <= size < 2 ^ 64 -> z = 0 \/ is_Some (S !! z) -> wp (heap_krealloc h z size ra (Some cpu)) (stepped_to h S (CRealloc z size)).
Proof.
  intros K R Hcpu Hs Hz. destruct (decide (z = 0)) as [->|Hz0].
  { cbn. eapply wp_mono; [apply (malloc_refines h V W F H S size ra cpu K R Hcpu Hs)|]. now intros x [_ Hx]. }
  destruct Hz as [?|[l Hl]]; [contradiction|]. destruct (decide (size = 0)) as [->|Hs0].
  { unfold heap_krealloc. rewrite (proj2 (Z.eqb_neq _ _) Hz0). cbn [Z.eqb]. apply wp_bind. eapply wp_mono; [apply (free_refines h V W F H S z cpu K R Hcpu); eauto|]. intros h' [C' R']. cbn [wp]. split; [exact C'|]. exists (delete z S). split; [now constructor|exact R']. }
  pose proof Hl as Hl0. apply R in Hl as [Hb Hh]. eapply wp_mono; [apply (heap_krealloc_ok h V W F H z (len l) size ra (Some cpu) K Hb (is_up_on _ _ Hcpu) ltac:(lia))|]. intros [z' h'] [(-> & Hlt & St & Hwhy)|[(-> & Hle & ->)|(Hz' & Hlt & n' & Hn' & (C & V' & W' & F' & H' & K' & Fr & Hb' & Hnb) & Cp)]].
  - split; [apply St|]. exists S. split; [now apply (ss_realloc_null _ S z size l)|exact (repr_same h V W S h' R St)].
  - split; [now apply cpus_same_eq|]. exists S. split; [now apply (ss_realloc_same _ S z size l); [|lia|..]|exists V, W, F, H; auto].
  - split; [exact C|]. destruct (kblock_holds _ _ _ _ _ _ _ K' Hb') as (l' & <- & Hh'). assert (Hne : z' <> z) by (intros ->; exact (Hnb _ Hb)). exists (<[z' := l']> (delete z S)). split.
    + apply (ss_realloc_move _ S z size l z' l'); auto; [apply (repr_fresh h V W F H S [z] h' V' W' F' H'); auto; intros y k Hy; apply lookup_delete_Some in Hy as [Hy1 Hy2]; split; [exact Hy2|rewrite list_elem_of_singleton; congruence]|].
      apply (holds_unique (mem_of h') z'); [intros i b Hi; apply Hh'; now apply lookup_take_Some in Hi as [Hi _]| |rewrite length_take; unfold len in *; lia]. intros i b Hi. pose proof (lookup_lt_Some _ _ _ Hi). unfold mem_of, copied in *. rewrite Cp by (unfold len; lia). exact (Hh i b Hi).
    + exists V', W', F', H'. split; [exact K'|]. apply (repr_put h V W F H S [z] h' V' W' F' H' z' l'); auto; [apply lookup_insert_eq|intros y Hy Hy'; apply list_elem_of_singleton in Hy' as ->; rewrite lookup_insert_ne by congruence; apply lookup_delete_eq|].
      intros y Hy Hy'. rewrite list_elem_of_singleton in Hy'. now rewrite lookup_insert_ne, lookup_delete_ne by congruence.
Qed.

Lemma patch_lookup l off bs i : 0 <= off -> off + len bs <= len l -> patch l off bs !! i = if decide (off <= Z.of_nat i < off + len bs) then bs !! Z.to_nat (Z.of_nat i - off) else l !! i.
Proof.
  unfold len, patch. intros H0 H1. assert (Ht : length (take (Z.to_nat off) l) = Z.to_nat off) by (rewrite length_take; lia). case_decide as Hd.
  - rewrite lookup_app_r, Ht, lookup_app_l by (rewrite ?Ht; lia). f_equal. lia.
  - destruct (decide (Z.of_nat i < off)) as [Hi|Hi]; [rewrite lookup_app_l, lookup_take_lt by (rewrite ?Ht; lia); reflexivity|]. rewrite lookup_app_r, Ht, lookup_app_r, lookup_drop by (rewrite ?Ht; lia). f_equal. lia.
Qed.

Lemma write_refines h V W F H S z off bs l : heap_ok h V W F H -> repr_at h V W S -> S !! z = Some l -> 0 <= off -> off + len bs <= len l -> bytes bs -> repr (h_write h (z + off) bs) (<[z := patch l off bs]> S).
Proof.
  intros K R Hl H0 H1 Hbs. pose proof Hl as Hl0. apply R in Hl0 as [Hb Hh]. destruct (h_write_ok h V W F H z (len l) (z + off) bs K Hb ltac:(lia) ltac:(unfold len in *; lia) Hbs) as (K' & Fr & Hb'). assert (El : len (patch l off bs) = len l) by (unfold len, patch in *; rewrite !length_app, length_take, length_drop; lia).
  exists V, W, F, H. split; [exact K'|]. apply (repr_put h V W F H S [z] _ V W F H z (patch l off bs)); auto; [now rewrite El| |apply lookup_insert_eq|intros y Hy Hy'; now apply list_elem_of_singleton in Hy'|intros y Hy _; now rewrite lookup_insert_ne by congruence].
  intros i b Hi. rewrite patch_lookup in Hi by assumption. unfold mem_of, h_write, b_write. cbn. rewrite write_lookup. unfold len in *. case_decide as D1; case_decide as D2; try lia; [|exact (Hh i b Hi)]. rewrite <- Hi. f_equal. lia.
Qed.

(** One call. *)
Lemma call_refines h V W F H S cpu ra c : heap_ok h V W F H -> repr_at h V W S -> is_up h cpu -> legal S c -> wp (run_call h cpu ra c) (stepped_to h S c).
Proof.
  intros K R Hcpu Hc. assert (Rh : repr h S) by (exists V, W, F, H; auto). assert (Cs : cpus_same (k_slab h) (k_slab h)) by now apply cpus_same_eq. destruct c as [size|n size|size align|z|z size|z|z off|z off bs]; cbn [run_call legal] in *.
  - eapply wp_mono; [apply (malloc_refines h V W F H S size ra cpu K R Hcpu Hc)|]. now intros x [Hx _].
  - now apply (calloc_refines h V W F H S n size ra cpu).
  - now apply (aligned_refines h V W F H S size align cpu).
  - apply wp_bind. eapply wp_mono; [apply (free_refines h V W F H S z cpu K R Hcpu Hc)|]. intros h' [C' R']. cbn [wp]. split; [exact C'|]. exists (delete z S). split; [constructor|exact R'].
  - now apply (realloc_refines h V W F H S z size ra cpu).
  - destruct Hc as [l Hl]. pose proof Hl as Hl0. apply R in Hl as [Hb _]. rewrite (GetPtrPointAreaSize_ok _ _ _ _ _ _ _ K Hb). cbn [bind wp]. split; [exact Cs|]. exists S. split; [now constructor|exact Rh].
  - destruct Hc as (l & Hl & Ho). destruct (lookup_lt_is_Some_2 l (Z.to_nat off)) as [b Hb]; [unfold len in Ho; lia|]. pose proof Hl as Hl0. apply R in Hl as [_ Hh]. specialize (Hh _ b Hb). rewrite Z2Nat.id in Hh by lia. unfold load8. unfold mem_of in Hh. rewrite Hh. cbn [bind wp]. split; [exact Cs|]. exists S. split; [apply (ss_read _ _ z off l b); auto; lia|exact Rh].
  - destruct Hc as (l & Hl & H0 & H1 & Hbs). cbn [wp]. split; [exact Cs|]. exists (<[z := patch l off bs]> S). split; [now constructor|exact (write_refines h V W F H S z off bs l K R Hl H0 H1 Hbs)].
Qed.

(** A program that keeps to the contract runs to its end, with answers that the contract allows. *)
Lemma run_refines p : forall h S, repr h S -> safe (is_up h) S p -> wp (run p h) (fun '(zs, h') => exists S', spec_run deny p S zs S' /\ repr h' S').
Proof.
  induction p as [|cpu ra c k IH]; intros h S (V & W & F & H & K & R) Hs; cbn [run]; [cbn [wp]; exists S; split; [reflexivity|exists V, W, F, H; auto]|]. destruct Hs as (Hcpu & Hc & Hk). apply wp_bind.
  eapply wp_mono; [apply (call_refines h V W F H S cpu ra c K R Hcpu Hc)|]. intros [z h1] (C1 & S1 & St & R1). apply wp_bind.
  assert (Hup : forall i, is_up h i <-> is_up h1 i) by (intros i; unfold is_up; rewrite (C1 i); reflexivity).
  assert (Hs1 : safe (is_up h1) S1 (k z)).
  { specialize (Hk z S1 (sstep_weaken _ _ _ _ _ St)). revert Hk. generalize (k z), S1. intros q. induction q as [|i r c' k' IHq]; intros S2; [auto|]. cbn [safe]. intros (A1 & A2 & A3). split; [now apply Hup|]. split; [exact A2|]. intros z' S3 H3. apply IHq. auto. }
  eapply wp_mono; [apply (IH z h1 S1 R1 Hs1)|]. intros [zs h2] (S2 & Hr & R2). cbn [wp]. exists S2. split; [|exact R2]. cbn [spec_run]. eauto.
Qed.

Lemma boot_repr A H cpus tsc : arena_ok A H -> (forall id q, cpus !! id = Some q -> q = boot_cpu) -> 0 <= tsc < 2 ^ 64 -> repr (boot_heap A cpus tsc) ∅.
Proof.
  intros HA Hc Ht. destruct (boot_heap_ok A H cpus tsc HA Hc Ht) as [K Hn]. exists ∅, ∅, ∅, H. split; [exact K|]. intros z l. split; [discriminate|]. intros [Hb _]. exfalso. exact (Hn _ _ Hb).
Qed.

(** [InitKmalloc] changes nothing that a user sees. *)
Lemma init_repr h S name cpu : repr h S -> cpu_on h cpu -> wp (InitKmalloc h name cpu) (fun '(ok, h') => repr h' S /\ k_on h' = ok /\ (ok = false -> denied 6 sizeof_kmem_cache (heap_vm h))).
Proof.
  intros (V & W & F & H & K & R) Hcpu. eapply wp_mono; [apply (InitKmalloc_ok h V W F H name cpu K Hcpu)|]. intros [ok h'] (St & E & Hr). split; [exact (repr_same h V W S h' R St)|]. split; [exact E|]. intros Hf. now apply Hr.
Qed.
End Spec.
