(* ===== verification/KheapClaims.v ===== *)
(** The properties of the kernel heap, and a supply of pages on which they are
    evaluated. *)
From stdpp Require Import base gmap list fin_maps.
From Stdlib Require Import ZArith Lia.
From S2P Require Import Prelude Words Memory PMM PMMBits PMMInit HeapMem Slub SlubInv SlubAlloc SlubFree Slab SlabInv SlabPage SlabAlloc SlabFree HeapSupply Kheap KheapInv KheapInit KheapSpec.

Open Scope Z_scope.
Open Scope c_scope.

(** * A supply of pages *)

(** Addresses are handed out once, up to a limit. *)
Record bump : Type := Bump { bp_next : Z; bp_held : gmap Z Z }.
Definition BUMP_END : Z := 0x40000000.

#[export] Instance bump_source : PageSource bump := {|
  ps_alloc s n := if bp_next s + n * 4096 <=? BUMP_END then Ok (bp_next s, Bump (bp_next s + n * 4096) (<[bp_next s := n]> (bp_held s))) else Ok (0, s);
  ps_free s a := match bp_held s !! a with Some n => Ok (n, Bump (bp_next s) (delete a (bp_held s))) | None => Fault end;
  ps_fill _ _ := 0xCC
|}.

Record bump_ok (s : bump) (H : gmap Z Z) : Prop := {
  bk_held : bp_held s = H;
  bk_next : 0 < bp_next s <= BUMP_END /\ bp_next s mod 4096 = 0;
  bk_range a n : H !! a = Some n -> range_ok a n /\ a + n * 4096 <= bp_next s;
  bk_apart a n b k : H !! a = Some n -> H !! b = Some k -> a <> b -> disjoint_ranges a n b k
}.

Lemma bump_alloc s H n : bump_ok s H -> 1 <= n < 2 ^ 52 -> wp (ps_alloc s n) (fun '(a, s') => (a = 0 /\ bump_ok s' H) \/ (a <> 0 /\ H !! a = None /\ bump_ok s' (<[a := n]> H))).
Proof.
  intros [E [N1 N2] R D] Hn. cbn. destruct (Z.leb_spec (bp_next s + n * 4096) BUMP_END) as [Hle|Hgt]; cbn [wp]; [right|left; split; [reflexivity|]; split; auto]. split; [lia|]. assert (Hno : H !! bp_next s = None).
  { destruct (H !! bp_next s) as [k|] eqn:Ek; [|reflexivity]. destruct (R _ _ Ek) as [(_ & _ & Hk & _) Hlt]. lia. }
  split; [exact Hno|]. assert (Hm : (bp_next s + n * 4096) mod 4096 = 0) by (rewrite Z.mod_add by lia; exact N2). split; cbn; [now rewrite E|split; [lia|exact Hm]| |].
  - intros a k Ha. destruct (decide (bp_next s = a)) as [<-|Hne]; [rewrite lookup_insert_eq in Ha; injection Ha as <-; unfold range_ok, BUMP_END in *; lia|]. rewrite lookup_insert_ne in Ha by exact Hne. destruct (R a k Ha). split; [assumption|lia].
  - intros a j b k Ha Hb Hne. unfold disjoint_ranges. destruct (decide (bp_next s = a)) as [<-|Na]; destruct (decide (bp_next s = b)) as [<-|Nb]; rewrite ?lookup_insert_eq, ?lookup_insert_ne in Ha by assumption; rewrite ?lookup_insert_eq, ?lookup_insert_ne in Hb by assumption.
    + contradiction.
    + destruct (R b k Hb). lia.
    + destruct (R a j Ha). lia.
    + exact (D a j b k Ha Hb Hne).
Qed.

Lemma bump_free s H a n : bump_ok s H -> H !! a = Some n -> wp (ps_free s a) (fun '(k, s') => k = n /\ bump_ok s' (delete a H)).
Proof.
  intros [E N R D] Ha. cbn. rewrite E, Ha. cbn [wp]. split; [reflexivity|]. split; cbn; [reflexivity|exact N|intros b k Hb; apply lookup_delete_Some in Hb as [_ Hb]; auto|]. intros b j c k Hb Hc. apply lookup_delete_Some in Hb as [_ Hb], Hc as [_ Hc]. eauto.
Qed.

#[export] Instance bump_source_ok : PageSourceOk bump.
Proof. refine {| ps_inv := bump_ok |}; [intros s H a n I Ha; now apply (bk_range _ _ I)|intros s H a n b k I; now apply (bk_apart _ _ I)|exact bump_alloc|exact bump_free|intros; split; [discriminate|reflexivity]]. Defined.

(** Two CPUs, no page given out. *)
Definition arena0 : arena bump := Arena ∅ (Bump 0x100000 ∅).
Definition cpus0 : gmap Z cpu_slab_t := {[0 := boot_cpu; 1 := boot_cpu]}.
Definition heap0 : kheap bump := boot_heap arena0 cpus0 0x1234567.
Definition slab0 : slab bump := boot_slab arena0 cpus0 0x1234567.

Lemma arena0_ok : arena_ok arena0 ∅.
Proof. split; [split; [reflexivity|split; [split; [reflexivity|discriminate]|reflexivity]|discriminate|discriminate]|intros a b Hb; discriminate|discriminate]. Qed.

Lemma cpus0_ok id q : cpus0 !! id = Some q -> q = boot_cpu.
Proof. intros E. unfold cpus0 in E. apply lookup_insert_Some in E as [[_ <-]|[_ E]]; [reflexivity|]. apply lookup_singleton_Some in E as [_ <-]. reflexivity. Qed.

Lemma heap0_ok : heap_ok heap0 ∅ ∅ ∅ ∅.
Proof. apply (boot_heap_ok arena0 ∅ cpus0 0x1234567 arena0_ok cpus0_ok). lia. Qed.

Lemma slab0_ok : slab_inv slab0 ∅ ∅ ∅ /\ rested slab0.
Proof. apply (SLAB_Init_ok arena0 ∅ cpus0 0x1234567 arena0_ok cpus0_ok). lia. Qed.

Lemma cpu0_on : cpu_on heap0 (Some 0).
Proof. exists 0. split; [reflexivity|]. split; [lia|]. exists boot_cpu. reflexivity. Qed.

Definition name0 (i : Z) : Z := 0xFFFFFFFF80100000 + i * 16.

(** * The kmalloc family *)

(** C1: any program that allocates, frees, resizes, reads and writes blocks
    through the kmalloc family, on any of the running CPUs, and keeps to the
    contract (frees only blocks in use, stays inside of them) runs to its end on
    the kernel heap; every answer, and the blocks with their contents afterwards,
    are those of a store of disjoint blocks: new blocks overlap none in use, keep
    what is written to them until they are freed, [kcalloc] returns zeros,
    [krealloc] takes the contents along, [kmalloc_aligned] returns aligned blocks,
    and a call answers NULL only to a request that can never be served (a size that
    overflows, an alignment that is not offered), or if the supply of pages, in
    the state in which the call finds it, refuses the pages for that size, at once
    or after one page more.  The supply keeps to the contract [PageSourceOk] of
    [VMM::Alloc] and [VMM::Free]. *)
Theorem kmalloc_family_refines {PS} `{PSL : PageSourceOk PS} (p : prog) (h : kheap PS) (S : gmap Z (list Z)) : repr h S -> safe (is_up h) S p ->
  wp (run p h) (fun '(zs, h') => exists S', spec_run deny p S zs S' /\ repr h' S').
Proof. intros R Hs. exact (run_refines p h S R Hs). Qed.

(** A block is written on one CPU, read and freed on another. *)
Definition prog0 : prog :=
  Call 0 0x1000 (CMalloc 100) (fun z =>
    if z =? 0 then Stop
    else Call 0 0x1010 (CWrite z 3 [7; 8]) (fun _ => Call 1 0x1020 (CRead z 4) (fun _ => Call 1 0x1030 (CFree z) (fun _ => Stop)))).

Lemma prog0_safe (up : Z -> Prop) : up 0 -> up 1 -> safe up ∅ prog0.
Proof.
  intros U0 U1. cbn [prog0 safe]. split; [exact U0|]. split; [cbn; lia|]. intros z S1 H1. inversion H1 as [size z' l Hf Hl| | | | | | | | | | | | | | |]; subst; [|exact I]. destruct (Z.eqb_spec z 0) as [->|Hz]; [exact I|]. cbn [safe]. split; [exact U0|].
  assert (Hlook : <[z := l]> (∅ : gmap Z (list Z)) !! z = Some l) by apply lookup_insert_eq. split; [exists l; split; [exact Hlook|]; split; [lia|]; split; [unfold len in *; cbn; lia|repeat constructor; lia]|]. intros r S2 H2. inversion H2 as [| | | | | | | | | | | | | | |w off bs k Hk]; subst. rewrite Hlook in Hk. injection Hk as <-. split; [exact U1|].
  assert (Hp : length (patch l 3 [7; 8]) = length l) by (unfold patch, len in *; rewrite !length_app, length_take, length_drop; cbn [length]; lia). split; [exists (patch l 3 [7; 8]); split; [apply lookup_insert_eq|]; unfold len in *; lia|].
  intros b S3 H3. inversion H3; subst. split; [exact U1|]. split; [right; rewrite lookup_insert_eq; eauto|]. intros; exact I.
Qed.

Lemma kmalloc_family_refines_witness : repr heap0 ∅ /\ safe (is_up heap0) ∅ prog0 /\
  (let* (zs, _) := run prog0 heap0 in Ok (snd <$> zs)) = Ok [1048704; 0; 8; 0] /\ wp (run prog0 heap0) (fun '(zs, h') => exists S', spec_run deny prog0 ∅ zs S' /\ repr h' S').
Proof.
  assert (R : repr heap0 ∅) by (apply (boot_repr arena0 ∅ cpus0 0x1234567 arena0_ok cpus0_ok); lia). assert (Hs : safe (is_up heap0) ∅ prog0) by (apply prog0_safe; (split; [lia|exists boot_cpu; reflexivity])).
  split; [exact R|]. split; [exact Hs|]. split; [vm_compute; reflexivity|]. exact (kmalloc_family_refines prog0 heap0 ∅ R Hs).
Defined.

(** The supply at boot has the pages that the examples ask for: no NULL is allowed. *)
Lemma asked_bump k v v' : asked k v v' -> bp_next v <= bp_next v' <= bp_next v + Z.of_nat k * 4096.
Proof.
  unfold asked. revert v. induction k as [|k IH]; intros v H; inversion H as [|? ? w ? (a & E) H1]; subst; try lia. specialize (IH w H1). cbn in E. destruct (_ <=? BUMP_END); injection E as <- <-; cbn in *; lia.
Qed.

Lemma bump_grants k size v : bp_next v + (Z.of_nat k + pages_for size) * 4096 <= BUMP_END -> 0 < bp_next v -> ~ denied k size v.
Proof.
  intros Hb H0 (v1 & v2 & A & E). apply asked_bump in A. cbn in E. destruct (Z.leb_spec (bp_next v1 + pages_for size * 4096) BUMP_END); [injection E as E _; lia|lia].
Qed.

Lemma boot_grants : ~ deny (heap_vm heap0) 100 /\ ~ denied 6 sizeof_kmem_cache (heap_vm heap0).
Proof. split; apply bump_grants; vm_compute; (discriminate || reflexivity). Qed.

(** * Start *)

(** C8: after [SLAB::Init] the heap of the kernel is well formed: every list of
    pages, magazine and cache is what the operations rely on, and no block is in
    use; [InitKmalloc] then keeps the heap well formed and without blocks, whether
    it succeeds or not. *)
Theorem kheap_boot_wellformed {PS} `{PSL : PageSourceOk PS} (A : arena PS) (H : gmap Z Z) cpus tsc name cpu : arena_ok A H -> (forall id q, cpus !! id = Some q -> q = boot_cpu) -> 0 <= tsc < 2 ^ 64 -> cpu_on (boot_heap A cpus tsc) cpu ->
  heap_ok (boot_heap A cpus tsc) ∅ ∅ ∅ H /\
  wp (InitKmalloc (boot_heap A cpus tsc) name cpu) (fun '(ok, h) => k_on h = ok /\ exists V W F H', heap_ok h V W F H' /\ forall z n, ~ kblock h V W z n).
Proof.
  intros HA Hc Ht Hcpu. destruct (boot_heap_ok A H cpus tsc HA Hc Ht) as [K Hn]. split; [exact K|]. eapply wp_mono; [apply (InitKmalloc_ok _ ∅ ∅ ∅ H name cpu K Hcpu)|]. intros [ok h] ((_ & V & W & F & H' & K' & Fr & _) & E & _). split; [exact E|]. exists V, W, F, H'. split; [exact K'|].
  intros z n Hz. destruct (hf_back _ _ _ _ _ _ _ _ Fr z n Hz) as [[Hz' _]|Hz']; [exact (Hn _ _ Hz')|now apply not_elem_of_nil in Hz'].
Qed.

Lemma kheap_boot_wellformed_witness : arena_ok arena0 ∅ /\ cpu_on heap0 (Some 0) /\
  heap_ok heap0 ∅ ∅ ∅ ∅ /\ wp (InitKmalloc heap0 name0 (Some 0)) (fun '(ok, h) => k_on h = ok /\ exists V W F H', heap_ok h V W F H' /\ forall z n, ~ kblock h V W z n).
Proof. split; [exact arena0_ok|]. split; [exact cpu0_on|]. apply (kheap_boot_wellformed arena0 ∅ cpus0 0x1234567 name0 (Some 0) arena0_ok cpus0_ok); [lia|exact cpu0_on]. Defined.

(** C7: [InitKmalloc] is all or nothing, on a supply that keeps to the contract
    [PageSourceOk].  In every well-formed heap it returns; if it answers true the
    seven caches exist and kmalloc uses them; if it answers false the caches are
    those of before, and the supply, in the state in which it was called, refuses
    a page within seven requests, one for each cache.  The blocks in use and their
    contents stay in either case. *)
Theorem InitKmalloc_correct {PS} `{PSL : PageSourceOk PS} (h : kheap PS) V W F H name cpu : heap_ok h V W F H -> cpu_on h cpu -> wp (InitKmalloc h name cpu) (inited h V W).
Proof. intros K Hcpu. exact (InitKmalloc_ok h V W F H name cpu K Hcpu). Qed.

(** At boot, with pages, it answers true. *)
Lemma InitKmalloc_correct_witness : heap_ok heap0 ∅ ∅ ∅ ∅ /\ cpu_on heap0 (Some 0) /\ wp (InitKmalloc heap0 name0 (Some 0)) (fun x => inited heap0 ∅ ∅ x /\ fst x = true).
Proof.
  split; [exact heap0_ok|]. split; [exact cpu0_on|]. eapply wp_mono; [exact (InitKmalloc_correct heap0 ∅ ∅ ∅ ∅ name0 (Some 0) heap0_ok cpu0_on)|]. intros [[] h] Hi; [auto|]. destruct Hi as (_ & _ & Hf). destruct (Hf eq_refl) as [Hd _]. exfalso. exact (proj2 boot_grants Hd).
Defined.

(** * The size-class heap *)

(** C2: [SLAB::Alloc] of any size returns on every CPU, and keeps every page,
    list and magazine of the size-class heap consistent.  A block it returns is at
    least as large as asked for, was not in use, and the blocks in use keep their
    place and contents; NULL leaves them too, and is returned only to a size that
    overflows with the header of the pages, or if the supply, in the state in
    which the call finds it, refuses the pages of this request: one page for an
    object of a class, those of the block and its header beyond the classes. *)
Theorem SLAB_Alloc_correct {PS} `{PSL : PageSourceOk PS} (s : slab PS) W F H size cpu : slab_inv s W F H -> rested s -> cpu_ready s cpu -> 0 <= size < 2 ^ 64 -> wp (SLAB_Alloc s size cpu) (served size s W H).
Proof. intros I R Hcpu Hs. exact (SLAB_Alloc_ok s W F H size cpu I R Hcpu Hs). Qed.

Lemma SLAB_Alloc_correct_witness : slab_inv slab0 ∅ ∅ ∅ /\ rested slab0 /\ (let* (z, s) := SLAB_Alloc slab0 100 (Some 1) in let* n := SLAB_GetSize s z true in Ok (z, n)) = Ok (1048704, 128) /\ wp (SLAB_Alloc slab0 100 (Some 1)) (served 100 slab0 ∅ ∅).
Proof. destruct slab0_ok as [I R]. split; [exact I|]. split; [exact R|]. split; [vm_compute; reflexivity|]. apply (SLAB_Alloc_correct slab0 ∅ ∅ ∅ 100 (Some 1) I R); [exists boot_cpu; reflexivity|lia]. Defined.

(** C3: [SLAB::Free] of a block in use, on any CPU, returns; the block is no longer
    in use, all others keep their place and contents, and the size-class heap is
    consistent, also when the magazine of the CPU overflows and the list shared
    by the CPUs is drained into the pages. *)
Theorem SLAB_Free_correct {PS} `{PSL : PageSourceOk PS} (s : slab PS) W F H z n cpu : slab_inv s W F H -> rested s -> cpu_ready s cpu -> block s W z n -> wp (SLAB_Free s z cpu) (freed z s W H).
Proof. intros I R Hcpu Hb. exact (SLAB_Free_ok s W F H z n cpu I R Hcpu Hb). Qed.

(** The heap after one allocation. *)
Definition slab1 : slab bump := match SLAB_Alloc slab0 100 (Some 1) with Ok (_, s) => s | _ => slab0 end.

Lemma slab1_ok : exists W F H, slab_inv slab1 W F H /\ rested slab1 /\ cpus_same slab0 slab1 /\ exists n, block slab1 W 1048704 n.
Proof.
  destruct slab0_ok as [I R]. destruct (proj1 (wp_ex _ _) (SLAB_Alloc_ok slab0 ∅ ∅ ∅ 100 (Some 1) I R ltac:(exists boot_cpu; reflexivity) ltac:(lia))) as ([z s'] & E & R' & C' & Hr). assert (Ez : (let* (z, _) := SLAB_Alloc slab0 100 (Some 1) in Ok z) = Ok 1048704) by (vm_compute; reflexivity).
  unfold slab1. rewrite E in *. injection Ez as ->. destruct Hr as [(Hz & _)|(_ & n & _ & W & F & H & I' & _ & Hb & _)]; [discriminate|]. exists W, F, H. split; [exact I'|]. split; [exact R'|]. split; [exact C'|]. eauto.
Qed.

Lemma SLAB_Free_correct_witness : exists W F H n, slab_inv slab1 W F H /\ block slab1 W 1048704 n /\ wp (SLAB_Free slab1 1048704 (Some 0)) (freed 1048704 slab1 W H).
Proof. destruct slab1_ok as (W & F & H & I & R & C & n & Hb). exists W, F, H, n. split; [exact I|]. split; [exact Hb|]. apply (SLAB_Free_correct slab1 W F H 1048704 n (Some 0) I R); [apply (C 0); exists boot_cpu; reflexivity|exact Hb]. Defined.

(** C9: an object that lies in the magazine of a CPU because it has been freed is
    not freed again on that CPU: [SLAB::Free] stops the machine instead of
    linking the object twice. *)
Theorem SLAB_double_free_stops {PS} `{PSL : PageSourceOk PS} (s : slab PS) W F H z id : slab_inv s W F H -> rested s -> is_Some (b_cpus s !! id) -> W !! z = Some (InMag id) -> SLAB_Free s z (Some id) = slab_fatal.
Proof. intros I R Hcpu Hw. exact (SLAB_Free_twice s W F H z id I R Hcpu Hw). Qed.

(** The refill has put further objects into the magazine. *)
Lemma SLAB_double_free_stops_witness : exists W F H z, slab_inv slab1 W F H /\ W !! z = Some (InMag 1) /\ SLAB_Free slab1 z (Some 1) = slab_fatal.
Proof.
  destruct slab1_ok as (W & F & H & I & R & C & _). assert (E : stack_at slab1 (InMag 1) 3 = Some (1050624, 15)) by (vm_compute; reflexivity).
  destruct (mag_facts slab1 W F H 1 3 1050624 15 (proj1 I) E) as (l & Hc & _ & _ & _ & Hl). destruct l as [|y l]; [cbn in Hc; discriminate|]. destruct Hc as (<- & _). destruct (proj1 (Hl 1050624) ltac:(left)) as [Hw _].
  exists W, F, H, 1050624. split; [exact I|]. split; [exact Hw|]. apply (SLAB_double_free_stops slab1 W F H 1050624 1 I R); [apply (C 1); exists boot_cpu; reflexivity|exact Hw].
Defined.

(** * Object caches *)

(** C4: [kmem_cache_alloc] keeps slabs, partial lists and the slabs of the CPUs
    consistent.  It returns an object of the cache that was not in use, at its
    place in a page, and leaves the objects in use alone; or it returns NULL, and
    then either the supply has no page, or an object that another CPU has freed
    waits in the slab just taken, and the next call on this CPU returns one. *)
Theorem slub_Alloc_correct {PS} `{PSL : PageSourceOk PS} strict (st : slub PS) V H a c cpu id : slub_inv strict st V H -> s_caches st !! a = Some c -> cpu_ok strict cpu -> cpu_slot cpu = Some id ->
  wp (slub_Alloc st a cpu) (fun '(o, st') => given strict a c cpu st V H o st' /\ (o = 0 -> out_of_pages st \/ wp (slub_Alloc st' a cpu) (fun '(o', _) => o' <> 0))).
Proof.
  intros I Ha Hcpu Eslot. eapply wp_mono; [apply (slub_Alloc_ok strict st V H a c cpu I Ha Hcpu)|]. intros [o st'] G. split; [exact G|]. intros ->. destruct G as (V' & H' & I' & [(_ & Fr & [Hn|Hp])|(Ho & _)]); [auto| |contradiction]. right.
  destruct (fmap_lookup layout_of _ _ a c (fr_caches _ _ _ _ _ _ _ _ Fr a) Ha) as (c' & Hc' & _). eapply wp_mono; [apply (slub_Alloc_again strict st' V' H' a c' cpu id I' Hc' Hcpu Eslot Hp)|]. intros [o' st2] [Ho' _]. exact Ho'.
Qed.

(** A cache of objects of 200 bytes. *)
Definition cache0 : kmem_cache := match new_cache 0 200 56 with Ok c => c | _ => KmemCache 0 0 0 0 0 0 [] 0 0 0 end.
Definition slub0 : slub bump := put_cache (slub_of heap0) 0x5000 cache0.

Lemma slub0_ok : slub_inv false slub0 ∅ ∅.
Proof. destruct (new_cache_ok 0 200 56 ltac:(lia) ltac:(lia) ltac:(lia)) as (c & E & G & _ & _ & E3 & E4 & E5). assert (Ec : cache0 = c) by (unfold cache0; now rewrite E). unfold slub0. rewrite Ec. apply (put_cache_ok false (slub_of heap0) ∅ ∅ 0x5000 c (hp_slub _ _ _ _ _ heap0_ok)); auto; discriminate. Qed.

Lemma slub_Alloc_correct_witness : slub_inv false slub0 ∅ ∅ /\ (let* (o, _) := slub_Alloc slub0 0x5000 (Some 1) in Ok o) = Ok 1052432 /\
  wp (slub_Alloc slub0 0x5000 (Some 1)) (fun '(o, st') => given false 0x5000 cache0 (Some 1) slub0 ∅ ∅ o st' /\ (o = 0 -> out_of_pages slub0 \/ wp (slub_Alloc st' 0x5000 (Some 1)) (fun '(o', _) => o' <> 0))).
Proof. split; [exact slub0_ok|]. split; [vm_compute; reflexivity|]. apply (slub_Alloc_correct false slub0 ∅ ∅ 0x5000 cache0 (Some 1) 1 slub0_ok); [reflexivity|split; [lia|discriminate]|reflexivity]. Defined.

(** C5: [kmem_cache_free] of an object in use of its cache, on any CPU, returns;
    the object is no longer in use, the others keep their place and contents, and
    slabs, partial lists and the slabs of the CPUs are consistent, also when the
    slab belongs to another CPU or has become empty and goes back to the supply. *)
Theorem slub_Free_correct {PS} `{PSL : PageSourceOk PS} strict (st : slub PS) V H a c o my : slub_inv strict st V H -> s_caches st !! a = Some c -> live_in st V a o ->
  wp (slub_Free st a o (Some my)) (fun st' => exists V' H', slub_inv strict st' V' H' /\ frame [o] [] st V H st' V' H').
Proof. intros I Ha Ho. exact (slub_Free_ok strict st V H a c o my I Ha Ho). Qed.

(** The cache after one allocation on CPU 1. *)
Definition slub1 : slub bump := match slub_Alloc slub0 0x5000 (Some 1) with Ok (_, st) => st | _ => slub0 end.

Lemma slub1_ok : exists V H c, slub_inv false slub1 V H /\ s_caches slub1 !! 0x5000 = Some c /\ live_in slub1 V 0x5000 1052432.
Proof.
  destruct (proj1 (wp_ex _ _) (slub_Alloc_ok false slub0 ∅ ∅ 0x5000 cache0 (Some 1) slub0_ok eq_refl ltac:(split; [lia|discriminate]))) as ([o st'] & E & V & H & I & Hr). assert (Eo : (let* (o, _) := slub_Alloc slub0 0x5000 (Some 1) in Ok o) = Ok 1052432) by (vm_compute; reflexivity).
  unfold slub1. rewrite E in *. injection Eo as ->. destruct Hr as [(Hz & _)|(_ & Fr & _ & Hl & _)]; [discriminate|]. destruct (fmap_lookup layout_of _ _ 0x5000 cache0 (fr_caches _ _ _ _ _ _ _ _ Fr 0x5000) eq_refl) as (c & Hc & _). exists V, H, c. split; [exact I|]. split; [exact Hc|].
  destruct (live_facts _ _ _ _ _ I Hl) as (p & x & v & k & Hp & Hv & Hk & G & _ & Hin & Hg & _). destruct (inv_addr (proj1 I) p x k _ Hp G Hg) as [_ Ep]. exists x, v. rewrite Ep. split; [exact Hp|]. split; [exact Hv|]. split; [exact Hin|].
  destruct (fmap_lookup layout_of _ _ (su_cache x) k (eq_sym (fr_caches _ _ _ _ _ _ _ _ Fr (su_cache x))) Hk) as (k0 & Hk0 & _). unfold slub0, put_cache in Hk0. cbn [s_caches] in Hk0. apply lookup_insert_Some in Hk0 as [[E0 _]|[_ Hk0]]; [congruence|discriminate].
Qed.

Lemma slub_Free_correct_witness : exists V H, slub_inv false slub1 V H /\ live_in slub1 V 0x5000 1052432 /\ wp (slub_Free slub1 0x5000 1052432 (Some 0)) (fun st' => exists V' H', slub_inv false st' V' H' /\ frame [1052432] [] slub1 V H st' V' H').
Proof. destruct slub1_ok as (V & H & c & I & Hc & Ho). exists V, H. split; [exact I|]. split; [exact Ho|]. exact (slub_Free_correct false slub1 V H 0x5000 c 1052432 0 I Hc Ho). Defined.

(** C6: [kmem_cache_create] for any size and alignment whose sum is below 2^32 - 64 (a
    larger size is cut to 32 bits, [Create_truncates]; alignment 0 stands for 8).
    It returns a new, empty cache exactly if the alignment is a power of two, the
    size is not 0, and a page has room for the slab header and one object, both
    rounded up to the alignment and to 8, unless the supply refuses the page of
    the descriptor; the objects of the cache have that rounded size and begin at
    that rounded header.  Otherwise it returns NULL, and caches and blocks are
    those of before. *)
Theorem kmem_cache_create_correct {PS} `{PSL : PageSourceOk PS} (h : kheap PS) V W F H name size align cpu : heap_ok h V W F H -> cpu_on h cpu -> 0 <= size -> 0 <= align -> size + align < 2 ^ 32 - 64 ->
  wp (kmem_cache_create h name size align cpu) (created size (if align =? 0 then 8 else align) h V W).
Proof.
  intros K Hcpu Hs Ha Hb. unfold kmem_cache_create. apply (SLUB_Create_ok h V W F H name size _ cpu K Hcpu Hs); unfold sizeof_slub_slab; destruct (Z.eqb_spec align 0); lia.
Qed.

(** Two caches: one with an alignment of 16, and one whose objects do not fit. *)
Lemma kmem_cache_create_correct_witness : heap_ok heap0 ∅ ∅ ∅ ∅ /\ cpu_on heap0 (Some 0) /\ wp (kmem_cache_create heap0 (name0 0) 24 16 (Some 0)) (created 24 16 heap0 ∅ ∅) /\
  wp (kmem_cache_create heap0 (name0 0) 5000 0 (Some 0)) (fun x => created 5000 8 heap0 ∅ ∅ x /\ fst x = 0).
Proof.
  split; [exact heap0_ok|]. split; [exact cpu0_on|]. split; [apply (kmem_cache_create_correct heap0 ∅ ∅ ∅ ∅ (name0 0) 24 16 (Some 0) heap0_ok cpu0_on); lia|].
  eapply wp_mono; [apply (kmem_cache_create_correct heap0 ∅ ∅ ∅ ∅ (name0 0) 5000 0 (Some 0) heap0_ok cpu0_on); lia|]. intros [a h] Hc. split; [exact Hc|]. destruct Hc as (_ & _ & _ & _ & _ & [(-> & _)|(_ & (_ & _ & Hf) & _)]); [reflexivity|]. vm_compute in Hf. contradiction.
Defined.

(** * Departures *)

(** Objects of 2000 bytes, two in a slab; the pages are there. *)
Definition cache2 : kmem_cache := match new_cache 0 2000 56 with Ok c => c | _ => cache0 end.
Definition slub2 : slub bump := put_cache (slub_of heap0) 0x5000 cache2.

(** CPU 0 fills a slab, begins another one and frees an object of the first; CPU 1
    gets NULL, and an object when it asks again. *)
Lemma slub_refuses_with_memory :
  (let* (o1, s) := slub_Alloc slub2 0x5000 (Some 0) in
   let* (o2, s) := slub_Alloc s 0x5000 (Some 0) in
   let* (o3, s) := slub_Alloc s 0x5000 (Some 0) in
   let* s := slub_Free s 0x5000 o1 (Some 0) in
   let* (o4, s) := slub_Alloc s 0x5000 (Some 1) in
   let* (o5, s) := slub_Alloc s 0x5000 (Some 1) in
   Ok (o4, o5 =? o1)) = Ok (0, true).
Proof. vm_compute. reflexivity. Qed.

(** The size is cut to 32 bits before it is compared with the page. *)
Lemma Create_truncates :
  (let* (a, h) := kmem_cache_create heap0 0 (2 ^ 32 + 16) 8 (Some 0) in let* n := SLUB_ObjectSize h a in Ok (negb (a =? 0), n)) = Ok (true, 16) /\
  kmem_cache_create heap0 0 (2 ^ 32) 8 (Some 0) = Fault.
Proof. split; vm_compute; reflexivity. Qed.

(** An object that early boot has allocated cannot be freed there. *)
Lemma Free_before_cpus : (let* (o, s) := slub_Alloc slub0 0x5000 None in let* s := slub_Free s 0x5000 o None in Ok o) = Fault.
Proof. vm_compute. reflexivity. Qed.
